(* ===== verification/_CoqProject ===== *)
-Q . S2P
Prelude.v
FcTypes.v
FcConfig.v
FcRing.v
FcTenant.v
FcFloors.v
FcCas.v
FcQueue.v
FcFrame.v
FcWait.v
FcAdapt.v
FcExpose.v
FcGate.v
FcSystem.v
Qsbr.v
Qos.v
Notify.v
QosCtl.v
PdTrie.v
PdTrieInv.v
JsonUnescape.v
Pool.v
PoolLife.v
Breaker.v
Wrr.v
Chwbl.v
TraceRing.v
L7Head.v
L7Trust.v
L7Match.v
L7Route.v
L7Select.v
L7Cookie.v
KTypes.v
KPolicer.v
KCtSm.v
KSctp.v
KNat.v
KCt.v
KCtAge.v
Pdi.v
KFw.v
