(* ===== verification/Prelude.v ===== *)
(** * loxilb eBPF inference gateway: verification library

    The program is a layer-7 proxy for inference traffic (src/common, in C)
    beside an eBPF datapath (src/kernel). A worker per shard waits for events,
    reads a client's request, asks whether the service may take one more
    (capacity admission), picks an endpoint, relays bytes under a rate, and
    releases what it took when the request ends. This library models the
    components that decide: it follows the C functions one by one, under their
    names where possible, and proves what each must guarantee and what they
    guarantee together.

    ** Files

    - [Prelude]: record update, machine integers with their wrap-around, arrays
      as lists indexed by [Z], counting, loop indices, transition systems
      ([steps]), the tactics [zbool], [case_test], [case_tests].
    - Capacity admission, src/common/sockproxy_fc.h and sockproxy_fc.c. One
      pool and the process state it touches are the record [world].
      - [FcTypes]: constants, enumerations, structs, inline readers, the permit
        and its one-shot settle.
      - [FcConfig]: environment and rule resolution, the band guard.
      - [FcRing]: the ring of waiters with tombstones, growth and compaction,
        and the list it stands for ([ring_abs]).
      - [FcTenant]: tenant table, open-addressing index, shares.
      - [FcFloors]: unit counters, band floors, the critical reserve, the
        inference-path test.
      - [FcCas]: the compare-and-exchange loops as interleaving threads.
      - [FcQueue]: park, take, evict, resume, the wake policies and the wake
        loop, drain, the deadline timer.
      - [FcFrame], [FcWait]: what each queue operation keeps; the wait line's
        theorems.
      - [FcAdapt]: adaptive ceiling, warm-up ramp, first-token estimate.
      - [FcExpose]: the rewrite of a response head that adds the admission
        values.
      - [FcGate]: acquire, endpoint legs, move, release, pool life cycle.
      - [FcSystem]: any number of permits and process events as one transition
        system over [FcGate].
    - [Qsbr], src/common/sockproxy_qsbr.c: grace periods for memory the workers
      read without a lock, first as functions, then with workers, a writer and
      the reclaimer interleaving.
    - [Notify], src/common/notify.c: the table of registrations, the kernel's
      interest lists, the paused listeners, the resume rings, the dispatch of an
      event, and the accept valve (pd_accept_valve_open of sockproxy_conn.c,
      pd_admission_should_accept of sockproxy_pd.c) as a protocol of threads.
    - [Qos], src/common/sockproxy_qos.h and handle_client_data of
      sockproxy_http.c: the token buckets and the read that uses them; [QosCtl],
      sockproxy_http.c: the configuration store, apply, teardown, tick, and the
      wakes handed to [Notify].
    - [PdTrie], src/common/sockproxy_pd_trie.c: the compressed prefix tree behind
      the cache-aware choice, every function; [PdTrieInv]: its invariant and
      theorems.
    - [Pool], src/common/sockproxy_pool.c: a listener's table, the published index
      and its lookup; [PoolLife]: a pool's count and its two deferred works as
      steps over [Qsbr]'s, a worker's reading of the index included.
    - [JsonUnescape], src/common/sockproxy_json_unescape.h: the copy that decodes
      the escapes of a JSON string.
    - [Breaker], src/common/sockproxy_health.c with circuit_breaker_heal.h and
      circuit_breaker_origin.h: the circuit breaker of each endpoint, what its
      trips do to [PdTrie]'s tree and its closes to the gate's warm-up, and the
      healthy-endpoint choice.
    - Load balancing, src/common/sockproxy_lb.c, over [Breaker]'s pool: [Wrr], the
      smooth weighted round-robin; [Chwbl], the hash rings, the bounded-load
      choice and the prefix hash (compute_prefix_hash of sockproxy_json.c).
    - The L7 policy of a listener. [L7Head], src/common/sockproxy_h1_hdr.h and
      sockproxy_l7hdr_guard.h: the edits of a request head in its buffer and the
      list of lines they stand for. [L7Trust], sockproxy_l7trust.h: the forwarding
      chain and whose address a request is. [L7Match], sockproxy_l7policy.c with the
      parsers it calls in sockproxy_http.c and sockproxy_ep.c: routes, their
      conditions, evaluation, attach and detach. [L7Route], sockproxy_l7policy.c
      and sockproxy_http.c: dispatch, the answers, the forward, the header
      filters. [L7Select], sockproxy_mcp_rr.h: the member of the pool a forwarded
      request goes to. [L7Cookie], sockproxy_cookie.h: the cookie that brings a
      client back to its endpoint, and the edits of a response, over HTTP/1 and
      (sockproxy_h2.c) HTTP/2.
    - Tracing. [TraceRing], src/common/lxb_ring.h and lxb_ring.c: the ring each
      worker writes its events to, both sides of it as steps, the table of rings
      and the trace ids.
    - The kernel datapath, src/kernel. [KTypes]: packet metadata and keys
      (src/common/llb_dpapi.h, llb_dp_mdi.h). [KPolicer], llb_kern_policer.c: the
      two-rate three-colour policer. [KCtSm], llb_kern_ct.c: what a connection
      entry remembers, the L3, TCP, UDP and ICMP machines; [KSctp]: the SCTP
      machine with the bytes it reads and rewrites. [KNat], llb_kern_natlbfwd.c:
      rules, endpoint selection, the connection limit. [KCt], llb_kern_ct.c and
      dp_do_ctops of llb_kern_l3fwd.c: the connection table and the sequence of
      rules and tracking (dp_ingress_ct_main of llb_kern_devif.c) as steps.
      [KCtAge], loxilb_libdp.c: the walks of the control side over that table,
      ageing and flushing, and the whole as one system.
    - The firewall. [Pdi], src/common/common_pdi.c, common_pdi.h, pdi.h and
      src/kernel/loxilb_libdp.c: the rule list by preference and its mirror in the
      kernel's array. [KFw], src/kernel/llb_kern_fw.c: the walk over the array in
      windows, a tail call to and from the firewall program for each.

    ** How the parts meet

    A permit ([FcTypes]) is taken at [FcGate] against the counters of [FcFloors]
    and the shares of [FcTenant]; a refused one may wait in the ring ([FcRing],
    [FcQueue]) until a release or a tick ([FcAdapt]) wakes it. The wake hook of
    the queue and the shaper's wakes end in the notifier's resume ring
    ([Notify]), which the owner worker drains. A listener with a policy has its
    requests matched ([L7Match]) before an endpoint is chosen; what is forwarded
    carries a head edited by [L7Head]'s operations with the chain of [L7Trust],
    and [L7Select] picks among the members by the breakers of [Breaker] and the
    turns of [Wrr]. A worker is offline for [Qsbr]
    while it waits for events. The allocator, the clock, the environment, the
    wake hook, epoll_ctl's answers and socket reads are arguments of the
    definitions that use them. Beside the proxy, the datapath sees every packet:
    one of a known connection takes the action of its entry, a new one is looked
    up in the rules, which pick an endpoint and fill the packet's translation
    ([KNat]); connection tracking then makes, follows or removes the pair of
    entries ([KCt]) by its protocol's machine ([KCtSm], [KSctp]) and keeps the
    counters the rules' limits read; the control side removes the pairs that are
    idle or no longer wanted ([KCtAge]). The machines meet the table through the
    class [KCt.CtMachine]: what a machine may not touch.

    ** What the theorems show

    - Conservation: over every run of gate calls, the counters are the units the
      permits hold; a release gives each back once; an acquire stays within the
      ceiling; the lock-free counters are atomic under every interleaving
      ([FcSystem], [FcCas]).
    - The line: the ring is a list with a number of places, whatever the allocator
      answers, and refuses only when it must; a push, a
      resume, a drain, a wake and a deadline pass do exactly what they should to
      it; one path at most ends a park; nobody is forgotten ([FcRing], [FcWait],
      [FcQueue]).
    - Fairness: floors, reserve, weights and tenant shares are respected and
      never block everybody ([FcFloors], [FcTenant], [FcQueue]).
    - Control: configuration stays within bounds, the adaptive ceiling converges,
      the warm-up ramp is monotone ([FcConfig], [FcAdapt]); the response-head
      rewrite changes only what it means to and reads back ([FcExpose]).
    - Memory and events: no object is given back while a worker holds it
      ([Qsbr]); the registration table agrees with its counters and its pause list,
      and the kernel polls nothing else; an event never removes a newer registration; the resume ring is a
      queue; no listener stays paused behind an open valve ([Notify]).
    - Shaping: the bytes passed are within burst plus rate under every
      interleaving, but for reads that find the park ring full ([Qos]); the store answers the last configuration ([QosCtl]).
    - The prefix tree: a match answers the longest recorded prefix, an insert
      loses nothing, a removal forgets exactly one endpoint, an eviction takes
      the least recently used leaves and ends ([PdTrieInv]).
    - Pools: a lookup in a published index is a lookup in the table ([Pool]); a
      pool is freed once nobody can reach it and never before, whatever
      interleaves, by the grace periods' own invariant ([PoolLife]).
    - Decoding: a cut copy is a prefix of whole characters; every spelling of a
      text decodes to its UTF-8, as much of it as fits ([JsonUnescape]).
    - Health: a breaker opens at exactly its run of failures, lets no more than
      its probes through, and the choice over it is sound and complete
      ([Breaker]).
    - Load balancing: weighted turns and weighted rings are exact, an endpoint
      appended to a pool moves only the lookups it takes over, a hashed choice stays within the
      load bound ([Wrr], [Chwbl]).
    - L7 policy: the first matching route by position decides, and an attach is all
      or nothing ([L7Match]); the proxy's own answers are one message whatever the
      request holds, and an edited head has exactly one of each forwarding header
      and keeps everything else ([L7Route]); a client cannot choose what it is
      attributed to ([L7Trust]); a forward goes to a member its route names that
      is in service, with exact weighted shares ([L7Select]); an HTTP/2 client that
      presents its cookie first on a connection comes back to its endpoint
      ([L7Cookie]).
    - Tracing: a ring is a queue under every interleaving of its two sides, no two
      workers share one, and a trace id is never zero ([TraceRing]).
    - Datapath: a rule's connection limit holds on one CPU, and on several is
      passed by one less than their number at most, and every entry of the table
      has its mate, over TCP, UDP and ICMP packets that find room, ageing runs over
      a table without direct-return marks, changes of rules and the flushes after
      them (llb_flush_ct_by_nat, which breaks pairs, is not a step); such an ageing
      run removes whole connections, those that are due and no other
      ([KCtAge]); the two keys of a connection name each other for every kind of
      translation ([KCt]); without direct server return no TCP connection is
      established without its handshake, and no SCTP one unless it is met in the
      middle, and SCTP's address tables are never overrun ([KCtSm], [KSctp]); the
      selectors are exact ([KNat]); the policer keeps its rates but for readings of
      the clock out of order and uncoloured packets ([KPolicer]).
    - Firewall: a packet leaves the walk as the first matching rule of the highest
      preference makes it, over any rules added and deleted, up to 8192 IPv4 and 1024
      IPv6 ones ([KFw]); an added IPv4 rule is deleted exactly ([Pdi]).
    - Defects, each with its theorem: tokens credited that were never taken
      ([Qos.qos_full_ring_read_mints]), a wake refused and forgotten
      ([QosCtl.qos_wake_refused_strands]), a burst too small to grant
      ([QosCtl.qos_small_burst_starves]), an undefined shift
      ([Notify.notify_wake_mask_shift_undefined]), a node no removal and
      no eviction can reach ([PdTrieInv.pd_trie_remove_ep_strands]), a half-open breaker nothing ends
      ([Breaker.breaker_half_open_wedges]), probes spent on endpoints not chosen
      ([Chwbl.chwbl_fallback_spends_probes]), a half-closed connection torn down
      ([KCtSm.tcp_half_close_torn_down]), data taken for a cookie
      ([KSctp.data_for_cookie]), an inactive slot chosen
      ([KNat.persist_names_inactive]), a connection counted and never made
      ([KCt.collision_is_counted]), one that aged out and is still counted
      ([KCtAge.aged_out_still_counted], [KCtAge.session_counts_never_reset]), half
      a connection flushed ([KCtAge.flush_by_nat_orphans]) or aged
      ([KCtAge.dsr_mark_strands]), a prefix that
      matches too little ([L7Match.root_prefix_matches_root_only]), cookies and
      query parameters confused ([L7Match.cookie_name_confused],
      [L7Match.query_param_hidden]), forged headers passed on
      ([L7Route.chunked_head_spoofed]) and a client lost from a long chain
      ([L7Route.long_chain_hides_client]), an old length for a shorter response
      ([L7Cookie.hsts_no_room_answers_old_length]), statistics of one ring for all
      ([TraceRing.stats_of_caller_only]), IPv6 rules taken for one another
      ([Pdi.fw6_rules_confused]), a firewall passed when its tail calls run out
      ([KFw.fw_tail_calls_run_out]), IPv6 rules never evaluated
      ([KFw.fw6_rules_beyond_walk]), a limit passed by two CPUs at once
      ([KCtAge.two_cpus_pass_the_limit]), a pick-up of an older connection that never
      completes ([KCtSm.midstream_never_accepted]), buckets filled by a late clock
      reading ([KPolicer.late_reading_refills]), a colour-aware policer that polices
      nothing ([KPolicer.aware_policer_passes_all]), a later request read by the
      headers of the first ([L7Cookie.later_cookie_unread]).

    ** Bounds and fuel

    Integers are [Z] at their C width, with [u8], [u32], [u64], [s32], [s64]
    where an operation can leave it; theorems state the widths they need. Loops
    over an array or a list are structural. Fuel appears where the C loop is
    bounded by something else: the wake loop by its turn budget and the free
    units, the deadline rounds by the line's length, the tenant probe by the
    table's size, the drain of a resume ring by the callbacks it makes, the
    slot scans of a rule by LLB_MAX_NXFRMS, the walk over SCTP parameters by
    LLB_MAX_SCTP_CHUNKS_INIT as in the source, the firewall's walk by the tail
    calls left, an argument; each
    comes with the proof that it is enough, or with a theorem that does not
    depend on it. Atomics are sequentially consistent steps.

    ** Not modelled

    Sockets, TLS, HTTP/2 and parsing are calls into the kernel and libraries
    outside this tree, or into vendored code. Prefill/decode bookkeeping, the
    model routing, the JSON scanners, and of the datapath the filters and
    forwarding have logic of their own and are not reached. Regular expressions
    and the sort of routes are arguments of [L7Match], the keyed hash of
    [L7Cookie]. Of
    connection tracking the statistics maps, the cached fast-path verdict and
    the trace build are left out. Memory ordering weaker than
    sequential consistency, the eviction list that no build compiles in,
    metrics and logging are left out. *)

From stdpp Require Import base list gmap numbers.

#[global] Set Default Proof Using "Type".
#[global] Set Warnings "-notation-overridden,-clear-no-such-hyp".

Declare Scope lxb_scope.
Delimit Scope lxb_scope with lxb.
#[global] Open Scope lxb_scope.
#[global] Open Scope Z_scope.

(** ** Record update

    A struct is a [Record]; an assignment to one field of it is
    [r <| field := v |>], and [r <| field ::= f |>] applies [f] to the field.
    A record type declares its eta expansion once, the setters are derived. *)

Class RecordEta (R : Type) := record_eta : R → R.
Class FieldSetter {R T : Type} (proj : R → T) := field_set : (T → T) → R → R.
Arguments field_set {R T} proj {_} _ _ /.

Ltac derive_field_setter :=
  match goal with
  | |- @FieldSetter ?R ?T ?proj =>
      let e := eval hnf in (@record_eta R _) in
      match eval pattern proj in e with
      | ?F _ =>
          let t := eval cbv beta in
            (fun (f : T → T) (r : R) => F (fun r => f (proj r)) r) in
          exact t
      end
  end.
#[global] Hint Extern 1 (FieldSetter _) => derive_field_setter : typeclass_instances.

Notation "r <| p := v |>" := (field_set p (fun _ => v) r)
  (at level 1, p at level 200, left associativity) : lxb_scope.
Notation "r <| p ::= f |>" := (field_set p f r)
  (at level 1, p at level 200, left associativity) : lxb_scope.

(** ** Machine integers

    An unsigned w-bit value is a [Z]; an operation that can leave the width
    is written with its wrap-around. *)

Definition u8 (z : Z) : Z := z mod 256.
Definition u16 (z : Z) : Z := z mod 65536.
Definition u32 (z : Z) : Z := z mod 4294967296.
Definition u64 (z : Z) : Z := z mod 18446744073709551616.
Definition UINT32_MAX : Z := 4294967295.
Definition UINT64_MAX : Z := 18446744073709551615.

Definition s32 (z : Z) : Z := let u := u32 z in if u <? 2147483648 then u else u - 4294967296.
Definition s64 (z : Z) : Z := let u := u64 z in if u <? 9223372036854775808 then u else u - 18446744073709551616.
Definition fits32 (z : Z) : Prop := 0 ≤ z < 4294967296.
Definition fits64 (z : Z) : Prop := 0 ≤ z < 18446744073709551616.

Lemma u32_fits z : fits32 (u32 z).
Proof. unfold fits32, u32. apply Z.mod_pos_bound. lia. Qed.

Lemma u64_fits z : fits64 (u64 z).
Proof. unfold fits64, u64. apply Z.mod_pos_bound. lia. Qed.

Lemma u32_small z : 0 ≤ z < 4294967296 → u32 z = z.
Proof. apply Z.mod_small. Qed.

Lemma u64_small z : 0 ≤ z < 18446744073709551616 → u64 z = z.
Proof. apply Z.mod_small. Qed.

Lemma s32_small z : 0 ≤ z < 2147483648 → s32 z = z.
Proof. intros. unfold s32. rewrite u32_small by lia. by rewrite (proj2 (Z.ltb_lt _ _)) by lia. Qed.

Lemma s64_small z : 0 ≤ z < 9223372036854775808 → s64 z = z.
Proof. intros. unfold s64. rewrite u64_small by lia. by rewrite (proj2 (Z.ltb_lt _ _)) by lia. Qed.

(** ** Arrays

    A C array is a list indexed by [Z]. A store out of range leaves the array
    alone and a load out of range reads the default; the code never does
    either, which the invariants show. *)

Definition zlen {A} (l : list A) : Z := Z.of_nat (length l).
Definition zget {A} `{Inhabited A} (l : list A) (i : Z) : A := l !!! Z.to_nat i.
Definition zset {A} (l : list A) (i : Z) (x : A) : list A := <[Z.to_nat i := x]> l.
Definition zmod {A} `{Inhabited A} (l : list A) (i : Z) (f : A → A) : list A :=
  zset l i (f (zget l i)).
Definition zrep {A} (n : Z) (x : A) : list A := replicate (Z.to_nat n) x.

(** The indices [0 .. n-1], for a [for] loop. *)
Definition zseq (n : Z) : list Z := Z.of_nat <$> seq 0 (Z.to_nat n).

(** A three-element array indexed by a small enumeration (band or role). *)
Record arr3 (A : Type) := Arr3 { a_0 : A; a_1 : A; a_2 : A }.
Arguments Arr3 {A} _ _ _.
Arguments a_0 {A} _.
Arguments a_1 {A} _.
Arguments a_2 {A} _.

Definition aget {A} (t : arr3 A) (i : Z) : A :=
  if i =? 1 then a_1 t else if i =? 2 then a_2 t else a_0 t.
Definition aset {A} (t : arr3 A) (i : Z) (v : A) : arr3 A :=
  if i =? 1 then Arr3 (a_0 t) v (a_2 t)
  else if i =? 2 then Arr3 (a_0 t) (a_1 t) v
  else Arr3 v (a_1 t) (a_2 t).
Definition amod {A} (t : arr3 A) (i : Z) (f : A → A) : arr3 A :=
  aset t i (f (aget t i)).
Definition amap {A B} (f : A → B) (t : arr3 A) : arr3 B :=
  Arr3 (f (a_0 t)) (f (a_1 t)) (f (a_2 t)).
Definition aexists {A} (f : A → bool) (t : arr3 A) : bool :=
  f (a_0 t) || f (a_1 t) || f (a_2 t).
Definition azero : arr3 Z := Arr3 0 0 0.

#[export] Instance arr3_inhabited {A} `{Inhabited A} : Inhabited (arr3 A) :=
  populate (Arr3 inhabitant inhabitant inhabitant).
#[export] Instance arr3_eq_dec {A} `{EqDecision A} : EqDecision (arr3 A).
Proof. solve_decision. Defined.

(** Two indices that the array tells apart. *)
Definition aidx (i : Z) : Z := if i =? 1 then 1 else if i =? 2 then 2 else 0.

(** ** Tactics *)

(** Turn the boolean comparisons of the context into propositions. *)
Ltac zbool :=
  repeat match goal with
  | H : (_ && _) = true |- _ => apply andb_true_iff in H; destruct H
  | H : (_ || _) = false |- _ => apply orb_false_iff in H; destruct H
  | H : negb _ = true |- _ => apply negb_true_iff in H
  | H : negb _ = false |- _ => apply negb_false_iff in H
  | H : (_ <? _) = true |- _ => apply Z.ltb_lt in H
  | H : (_ <? _) = false |- _ => apply Z.ltb_ge in H
  | H : (_ <=? _) = true |- _ => apply Z.leb_le in H
  | H : (_ <=? _) = false |- _ => apply Z.leb_gt in H
  | H : (_ >? _) = _ |- _ => rewrite Z.gtb_ltb in H
  | H : (_ >=? _) = _ |- _ => rewrite Z.geb_leb in H
  | H : (_ =? _) = true |- _ => apply Z.eqb_eq in H
  | H : (_ =? _) = false |- _ => apply Z.eqb_neq in H
  end.

(** Case on the innermost boolean test of the goal. *)
Ltac case_test :=
  match goal with
  | |- context [ if ?b then _ else _ ] =>
      lazymatch b with
      | context [ if _ then _ else _ ] => fail
      | _ => let E := fresh "E" in destruct b eqn:E
      end
  end.
Ltac case_tests := repeat (case_test; simpl).

(** Case on a test in a hypothesis. *)
Ltac case_test_in H :=
  match type of H with
  | context [ if ?b then _ else _ ] =>
      lazymatch b with
      | context [ if _ then _ else _ ] => fail
      | _ => let E := fresh "E" in destruct b eqn:E
      end
  end.

Create HintDb lxb discriminated.
Create Rewrite HintDb lxb_arr.

(** ** Array lemmas *)

Section arrays.
Context {A : Type} `{Inhabited A}.
Implicit Types (l : list A) (i j : Z) (x : A).

Lemma zlen_zset l i x : zlen (zset l i x) = zlen l.
Proof. unfold zlen, zset. by rewrite length_insert. Qed.

Lemma zlen_nonneg l : 0 ≤ zlen l.
Proof. unfold zlen. lia. Qed.

Lemma zlen_zrep n x : 0 ≤ n → zlen (zrep n x) = n.
Proof. intros. unfold zlen, zrep. rewrite length_replicate. lia. Qed.

Lemma zget_zset_eq l i x : 0 ≤ i < zlen l → zget (zset l i x) i = x.
Proof.
  unfold zget, zset, zlen. intros. apply list_lookup_total_insert_eq. lia.
Qed.

Lemma zget_zset_ne l i j x :
  0 ≤ i → 0 ≤ j → i ≠ j → zget (zset l i x) j = zget l j.
Proof.
  unfold zget, zset. intros. apply list_lookup_total_insert_ne. lia.
Qed.

Lemma zget_zrep n x i : 0 ≤ i < n → zget (zrep n x) i = x.
Proof.
  unfold zget, zrep. intros. apply list_lookup_total_correct.
  apply lookup_replicate_2. lia.
Qed.

Lemma zget_app_l l k i : 0 ≤ i < zlen l → zget (l ++ k) i = zget l i.
Proof.
  unfold zget, zlen. intros. rewrite !list_lookup_total_alt, lookup_app_l; [done|lia].
Qed.

Lemma zget_app_r l k i : zlen l ≤ i → zget (l ++ k) i = zget k (i - zlen l).
Proof.
  unfold zget, zlen. intros. rewrite !list_lookup_total_alt, lookup_app_r by lia.
  do 2 f_equal. lia.
Qed.

Lemma zset_self l i : 0 ≤ i < zlen l → zset l i (zget l i) = l.
Proof.
  unfold zset, zget, zlen. intros. apply list_insert_id, list_lookup_lookup_total_lt. lia.
Qed.
Lemma zset_same l i x : zget l i = x → 0 ≤ i < zlen l → zset l i x = l.
Proof. intros <- ?. by apply zset_self. Qed.
End arrays.

Lemma zlen_app {A} (l k : list A) : zlen (l ++ k) = zlen l + zlen k.
Proof. unfold zlen. rewrite length_app. lia. Qed.

Lemma zlen_cons {A} (x : A) l : zlen (x :: l) = 1 + zlen l.
Proof. unfold zlen. simpl. lia. Qed.

#[export] Hint Rewrite @zlen_zset : lxb_arr.

Lemma aget_aset {A} (t : arr3 A) i j v :
  aget (aset t i v) j = if decide (aidx i = aidx j) then v else aget t j.
Proof.
  unfold aget, aset, aidx. case_decide as Hd; revert Hd; case_tests; try done; lia.
Qed.

Lemma aget_aset_eq {A} (t : arr3 A) i v : aget (aset t i v) i = v.
Proof. rewrite aget_aset. by case_decide. Qed.

Lemma aget_amap {A B} (f : A → B) t i : aget (amap f t) i = f (aget t i).
Proof. unfold aget. by case_tests. Qed.

#[export] Hint Rewrite @aget_aset_eq @aget_amap : lxb_arr.

(** ** Loop indices *)

Lemma zseq_in n k : k ∈ zseq n ↔ 0 ≤ k < n.
Proof.
  unfold zseq. rewrite list_elem_of_fmap. split.
  - intros (j & -> & Hj). apply elem_of_seq in Hj. lia.
  - intros Hk. exists (Z.to_nat k). rewrite elem_of_seq. lia.
Qed.

Lemma zseq_snoc n : 0 ≤ n → zseq (n + 1) = zseq n ++ [n].
Proof.
  intros. unfold zseq. rewrite Z2Nat.inj_add by lia. change (Z.to_nat 1) with 1%nat. rewrite seq_app, fmap_app. cbn.
  by rewrite Z2Nat.id.
Qed.

Lemma zseq_cons n : 0 < n → zseq n = 0 :: (Z.succ <$> zseq (n - 1)).
Proof.
  intros. unfold zseq. replace (Z.to_nat n) with (S (Z.to_nat (n - 1))) by lia. cbn. f_equal.
  rewrite <- seq_shift, <- !list_fmap_compose. apply list_fmap_ext. intros i x _. cbn. lia.
Qed.

Lemma zget_fmap_zseq {A} `{Inhabited A} (f : Z → A) n t : 0 ≤ t < n → zget (f <$> zseq n) t = f t.
Proof.
  intros Ht. unfold zget, zseq. apply list_lookup_total_correct. rewrite !list_lookup_fmap, lookup_seq_lt by lia. cbn. f_equal. f_equal. lia.
Qed.

(** ** Counting *)

Fixpoint zcount {A} (P : A → bool) (l : list A) : Z :=
  match l with
  | [] => 0
  | x :: l => Z.b2z (P x) + zcount P l
  end.

Section zcount.
Context {A : Type}.
Implicit Types (P Q : A → bool) (l : list A).

Lemma zcount_app P l k : zcount P (l ++ k) = zcount P l + zcount P k.
Proof. induction l; simpl; lia. Qed.

Lemma zcount_bounds P l : 0 ≤ zcount P l ≤ zlen l.
Proof. unfold zlen. induction l; simpl; [lia|]. destruct (P a); simpl; lia. Qed.

Lemma zcount_ext P Q l : (∀ x, x ∈ l → P x = Q x) → zcount P l = zcount Q l.
Proof.
  induction l as [|x l IH]; intros Hpq; [done|]. simpl.
  rewrite (Hpq x) by left. rewrite IH; [done|]. intros. apply Hpq. by right.
Qed.

Lemma zcount_zero P l : (∀ x, x ∈ l → P x = false) → zcount P l = 0.
Proof.
  induction l as [|x l IH]; intros HP; [done|]. simpl. rewrite (HP x) by left.
  rewrite IH; [done|]. intros. apply HP. by right.
Qed.

Lemma zcount_mono P Q l :
  (∀ x, x ∈ l → P x = true → Q x = true) → zcount P l ≤ zcount Q l.
Proof.
  induction l as [|x l IH]; intros Hpq; simpl; [lia|].
  assert (Z.b2z (P x) ≤ Z.b2z (Q x)).
  { destruct (P x) eqn:E; [rewrite (Hpq x) by (done || left)|]; simpl; [lia|].
    destruct (Q x); simpl; lia. }
  assert (zcount P l ≤ zcount Q l) by (apply IH; intros; apply Hpq; [by right|done]).
  lia.
Qed.

Lemma zcount_pos P l x : x ∈ l → P x = true → 1 ≤ zcount P l.
Proof.
  induction 1 as [y l|y z l Hin IH]; intros HP; simpl.
  - rewrite HP. pose proof (zcount_bounds P l). simpl. lia.
  - specialize (IH HP). destruct (P z); simpl; lia.
Qed.

Lemma zcount_exists P l : 1 ≤ zcount P l → ∃ x, x ∈ l ∧ P x = true.
Proof.
  induction l as [|x l IH]; simpl; [lia|]. intros Hc.
  destruct (P x) eqn:E; [exists x; by split; [left|]|].
  destruct IH as (y & ? & ?); [simpl in Hc; lia|]. exists y. by split; [right|].
Qed.

Lemma zcount_insert P l n x y :
  l !! n = Some y →
  zcount P (<[n := x]> l) = zcount P l - Z.b2z (P y) + Z.b2z (P x).
Proof.
  revert n. induction l as [|z l IH]; intros [|n] Hl; simplify_eq/=; [lia|].
  rewrite (IH n) by done. lia.
Qed.
End zcount.

(** ** Sums *)

Fixpoint sumz {A} (f : A → Z) (l : list A) : Z :=
  match l with
  | [] => 0
  | x :: l => f x + sumz f l
  end.

Section sumz.
Context {A : Type}.
Implicit Types (f g : A → Z) (l : list A).

Lemma sumz_app f l k : sumz f (l ++ k) = sumz f l + sumz f k.
Proof. induction l; simpl; lia. Qed.

Lemma sumz_ext f g l : (∀ x, x ∈ l → f x = g x) → sumz f l = sumz g l.
Proof.
  induction l as [|x l IH]; intros Hfg; [done|]. simpl. rewrite (Hfg x) by left. rewrite IH; [done|]. intros. apply Hfg. by right.
Qed.

Lemma sumz_add f g l : sumz (λ x, f x + g x) l = sumz f l + sumz g l.
Proof. induction l; simpl; lia. Qed.

Lemma sumz_mul c f l : sumz (λ x, c * f x) l = c * sumz f l.
Proof. induction l; simpl; lia. Qed.

Lemma sumz_const c l : sumz (λ _, c) l = c * zlen l.
Proof. unfold zlen. induction l; simpl; lia. Qed.

Lemma sumz_le f g l : (∀ x, x ∈ l → f x ≤ g x) → sumz f l ≤ sumz g l.
Proof.
  induction l as [|x l IH]; intros Hfg; simpl; [lia|].
  assert (f x ≤ g x) by (apply Hfg; left). assert (sumz f l ≤ sumz g l) by (apply IH; intros; apply Hfg; by right). lia.
Qed.

Lemma sumz_nonneg f l : (∀ x, x ∈ l → 0 ≤ f x) → 0 ≤ sumz f l.
Proof. intros H. pose proof (sumz_le (λ _, 0) f l H) as H'. rewrite sumz_const in H'. lia. Qed.

Lemma sumz_perm f l k : l ≡ₚ k → sumz f l = sumz f k.
Proof. induction 1; simpl; lia. Qed.

(** A term of a sum of terms that are at least [c]. *)
Lemma sumz_term f l x c : x ∈ l → (∀ y, y ∈ l → c ≤ f y) → f x + c * (zlen l - 1) ≤ sumz f l.
Proof.
  intros Hx Hc. apply list_elem_of_split in Hx as (l1 & l2 & ->). rewrite sumz_app, zlen_app, zlen_cons. simpl.
  assert (c * zlen l1 ≤ sumz f l1) by (rewrite <- sumz_const; apply sumz_le; intros; apply Hc; set_solver).
  assert (c * zlen l2 ≤ sumz f l2) by (rewrite <- sumz_const; apply sumz_le; intros; apply Hc; set_solver). lia.
Qed.

Lemma sumz_zcount (P : A → bool) l : sumz (λ x, Z.b2z (P x)) l = zcount P l.
Proof. induction l; simpl; lia. Qed.
End sumz.

(** ** Filtering *)

Lemma filter_all_true {A} (P : A → bool) l : (∀ x, x ∈ l → P x = true) → List.filter P l = l.
Proof.
  induction l as [|x l IH]; intros HP; [done|]. cbn. rewrite (HP x) by left. f_equal. apply IH. intros. apply HP. by right.
Qed.

Lemma filter_all_false {A} (P : A → bool) l : (∀ x, x ∈ l → P x = false) → List.filter P l = [].
Proof.
  induction l as [|x l IH]; intros HP; [done|]. cbn. rewrite (HP x) by left. apply IH. intros. apply HP. by right.
Qed.

(** ** Transition systems *)

Section reachability.
Context {S : Type} (step : S → S → Prop).

Inductive steps : S → S → Prop :=
| steps_refl s : steps s s
| steps_cons s1 s2 s3 : step s1 s2 → steps s2 s3 → steps s1 s3.

Lemma steps_invariant (I : S → Prop) s1 s2 :
  (∀ a b, I a → step a b → I b) → I s1 → steps s1 s2 → I s2.
Proof. intros Hstep HI Hs. induction Hs; eauto. Qed.

Lemma steps_trans s1 s2 s3 : steps s1 s2 → steps s2 s3 → steps s1 s3.
Proof. induction 1; eauto using steps. Qed.
End reachability.

(** ** Bits *)

(** A high part and a low part *)
Lemma lor_add a b n : 0 ≤ n → 0 ≤ b < 2 ^ n → Z.lor (a * 2 ^ n) b = a * 2 ^ n + b.
Proof.
  intros Hn Hb. rewrite <- Z.lxor_lor.
  - symmetry. apply Z.add_nocarry_lxor. apply Z.bits_inj'. intros i Hi. rewrite Z.land_spec, Z.bits_0. destruct (Z.lt_ge_cases i n).
    + rewrite Z.mul_pow2_bits_low by lia. done.
    + rewrite <- (Z.mod_small b (2 ^ n)) by lia. rewrite Z.mod_pow2_bits_high by lia. apply andb_false_r.
  - apply Z.bits_inj'. intros i Hi. rewrite Z.land_spec, Z.bits_0. destruct (Z.lt_ge_cases i n).
    + rewrite Z.mul_pow2_bits_low by lia. done.
    + rewrite <- (Z.mod_small b (2 ^ n)) by lia. rewrite Z.mod_pow2_bits_high by lia. apply andb_false_r.
Qed.
