(* ===== verification/FcTypes.v ===== *)
(** * Capacity admission: data model (src/common/sockproxy_fc.h)

    The constants, enumerations and structs of the flow-control module, with
    the small inline readers that the header defines. A field of an
    enumeration type that the code stores in a [uint8_t] and compares is a [Z]
    with the enumerators as named constants; an enumeration that is only
    returned or switched on is an inductive type. Flags are [bool].

    The model follows one pool. [world] pairs the pool with the process-wide
    state the module touches (the anomaly counters, the drain flag, the
    deadline timer, the clock, the owner reference counts) and with the log of
    the wake-hook calls. *)

From stdpp Require Import base list gmap numbers strings.
From S2P Require Import Prelude.

(** ** Constants *)

Definition FC_MAX_EP : Z := 32.
Definition FC_QUEUE_DEPTH_MAX : Z := 65536.
Definition FC_QUEUE_WAIT_MS_MAX : Z := 3600000.
Definition FC_TELEMETRY_STALE_MS_DEFAULT : Z := 30000.
Definition FC_TELEMETRY_STALE_MS_MAX : Z := 3600000.
Definition FC_WARMUP_MS_MAX : Z := 3600000.
Definition FC_TTFT_TARGET_MS_MAX : Z := 3600000.
Definition FC_TENANT_SLOTS : Z := 64.
Definition FC_TENANT_SLOTS_DEFAULT : Z := 256.
Definition FC_TENANT_SLOTS_MAX : Z := 4096.
Definition FC_BAND_WEIGHT_MAX : Z := 62.
Definition FC_BAND_ROUND_MAX : Z := 64.
Definition FC_EVICT_PENDING : Z := 16.
Definition FC_QWAIT_BUCKETS : Z := 8.
Definition FC_DEADLINE_GRAIN_NS : Z := 25000000.

(** enum fc_role *)
Definition FC_ROLE_NORMAL : Z := 0.
Definition FC_ROLE_PREFILL : Z := 1.
Definition FC_ROLE_DECODE : Z := 2.
Definition FC_ROLES : Z := 3.

(** enum fc_mode *)
Definition FC_MODE_OFF : Z := 0.
Definition FC_MODE_OBSERVE : Z := 1.
Definition FC_MODE_ENFORCE : Z := 2.

(** enum fc_src *)
Definition FC_SRC_DEFAULT : Z := 0.
Definition FC_SRC_ENV : Z := 1.
Definition FC_SRC_RULE : Z := 2.

(** enum fc_limit *)
Definition FC_L_MODE : Z := 0.
Definition FC_L_MAX_OUTSTANDING : Z := 1.
Definition FC_L_EP_NORMAL : Z := 2.
Definition FC_L_EP_PREFILL : Z := 3.
Definition FC_L_EP_DECODE : Z := 4.
Definition FC_L_QUEUE_DEPTH : Z := 5.
Definition FC_L_QUEUE_WAIT : Z := 6.
Definition FC_L_TELEMETRY_STALE : Z := 7.
Definition FC_L_ADAPTIVE : Z := 8.
Definition FC_L_WARMUP : Z := 9.
Definition FC_L_TTFT_TARGET : Z := 10.
Definition FC_L_TENANT_SHARE : Z := 11.
Definition FC_L_EXPOSE_HEADERS : Z := 12.
Definition FC_L_WAKE_POLICY : Z := 13.
Definition FC_L_BAND_WEIGHTS : Z := 14.
Definition FC_L_BAND_MIN_SHARE : Z := 15.
Definition FC_L_CRITICAL_RESERVE : Z := 16.
Definition FC_L_BAND_WAIT : Z := 17.
Definition FC_L_BAND_QUEUE : Z := 18.
Definition FC_L_SHED_QUEUE : Z := 19.
Definition FC_L_TENANT_WAKE : Z := 20.
Definition FC_L_LLMD_HEADERS : Z := 21.
Definition FC_LIMITS : Z := 22.

(** enum fc_wake_policy, enum fc_tenant_wake, enum fc_band_fallback *)
Definition FC_WAKE_STRICT : Z := 0.
Definition FC_WAKE_WEIGHTED : Z := 1.
Definition FC_TENANT_WAKE_FIFO : Z := 0.
Definition FC_TENANT_WAKE_RR : Z := 1.
Definition FC_BAND_FB_NONE : Z := 0.
Definition FC_BAND_FB_SOCKMAP : Z := 1.
Definition FC_BAND_FB_NO_WEIGHTS : Z := 2.
Definition FC_BAND_FB_NO_QUEUE : Z := 3.

(** Priority bands *)
Definition FC_BANDS : Z := 3.
Definition FC_BAND_STANDARD : Z := 0.
Definition FC_BAND_CRITICAL : Z := 1.
Definition FC_BAND_SHEDDABLE : Z := 2.

(** The switches of a rule: 0 inherits the environment. *)
Definition FC_RULE_MODE_INHERIT : Z := 0.
Definition FC_RULE_MODE_OFF : Z := 1.
Definition FC_RULE_MODE_OBSERVE : Z := 2.
Definition FC_RULE_MODE_ENFORCE : Z := 3.
Definition FC_RULE_ADAPTIVE_OFF : Z := 1.
Definition FC_RULE_ADAPTIVE_ON : Z := 2.
Definition FC_RULE_EXPOSE_OFF : Z := 1.
Definition FC_RULE_EXPOSE_ON : Z := 2.
Definition FC_RULE_WAKE_STRICT : Z := 1.
Definition FC_RULE_WAKE_WEIGHTED : Z := 2.
Definition FC_RULE_TENANT_WAKE_FIFO : Z := 1.
Definition FC_RULE_TENANT_WAKE_RR : Z := 2.
Definition FC_RULE_SWITCH_OFF : Z := 1.
Definition FC_RULE_SWITCH_ON : Z := 2.

(** enum fc_adapt_state, enum fc_adapt_reason *)
Definition FC_AS_OFF : Z := 0.
Definition FC_AS_OPEN : Z := 1.
Definition FC_AS_TIGHTENED : Z := 2.
Definition FC_AS_FROZEN : Z := 3.
Definition FC_AS_COUNT : Z := 4.
Definition FC_AR_NONE : Z := 0.
Definition FC_AR_QUEUED : Z := 1.
Definition FC_AR_TTFT : Z := 2.
Definition FC_AR_CLEAR : Z := 3.
Definition FC_AR_STALE : Z := 4.
Definition FC_AR_COUNT : Z := 5.

(** ** Decisions *)

(** enum fc_reason: what the gate decided, one counter each. *)
Inductive fc_reason : Type :=
| FC_R_ADMITTED
| FC_R_CAPACITY_SHED
| FC_R_NO_HEALTHY_CAPACITY
| FC_R_OBSERVE_WOULD_SHED
| FC_R_BYPASS_NON_INFERENCE
| FC_R_QUEUED
| FC_R_QUEUE_FULL
| FC_R_QUEUE_TIMEOUT
| FC_R_CANCELLED
| FC_R_DRAINED
| FC_R_OBSERVE_WOULD_QUEUE
| FC_R_DRAINING
| FC_R_TENANT_SHARE
| FC_R_SHED.

Definition FC_R_COUNT : Z := 14.

#[export] Instance fc_reason_eq_dec : EqDecision fc_reason.
Proof. solve_decision. Defined.

(** The enumerator's value: the index of its counter. *)
Definition fc_reason_ix (r : fc_reason) : Z :=
  match r with
  | FC_R_ADMITTED => 0
  | FC_R_CAPACITY_SHED => 1
  | FC_R_NO_HEALTHY_CAPACITY => 2
  | FC_R_OBSERVE_WOULD_SHED => 3
  | FC_R_BYPASS_NON_INFERENCE => 4
  | FC_R_QUEUED => 5
  | FC_R_QUEUE_FULL => 6
  | FC_R_QUEUE_TIMEOUT => 7
  | FC_R_CANCELLED => 8
  | FC_R_DRAINED => 9
  | FC_R_OBSERVE_WOULD_QUEUE => 10
  | FC_R_DRAINING => 11
  | FC_R_TENANT_SHARE => 12
  | FC_R_SHED => 13
  end.

(** The wire names of the decisions metric. *)
Definition fc_reason_name (r : fc_reason) : string :=
  match r with
  | FC_R_ADMITTED => "admitted"
  | FC_R_CAPACITY_SHED => "capacity_shed"
  | FC_R_NO_HEALTHY_CAPACITY => "no_healthy_capacity"
  | FC_R_OBSERVE_WOULD_SHED => "observe_would_shed"
  | FC_R_BYPASS_NON_INFERENCE => "bypass_non_inference"
  | FC_R_QUEUED => "queued"
  | FC_R_QUEUE_FULL => "queue_full"
  | FC_R_QUEUE_TIMEOUT => "queue_timeout"
  | FC_R_CANCELLED => "cancelled"
  | FC_R_DRAINED => "drained"
  | FC_R_OBSERVE_WOULD_QUEUE => "observe_would_queue"
  | FC_R_DRAINING => "draining"
  | FC_R_TENANT_SHARE => "tenant_share"
  | FC_R_SHED => "shed"
  end.

(** enum fc_band_outcome: the five decisions that are split per band. *)
Definition FC_BO_COUNT : Z := 5.
Definition fc_band_outcome_reason (o : Z) : fc_reason :=
  if o =? 0 then FC_R_ADMITTED
  else if o =? 1 then FC_R_QUEUED
  else if o =? 2 then FC_R_SHED
  else if o =? 3 then FC_R_QUEUE_TIMEOUT
  else FC_R_CANCELLED.

Definition fc_band_outcome_name (outcome : Z) : string :=
  if (outcome <? 0) || (outcome >=? FC_BO_COUNT) then "unknown"
  else if outcome =? 0 then "admitted"
  else if outcome =? 1 then "queued"
  else if outcome =? 2 then "shed"
  else if outcome =? 3 then "expired"
  else "cancelled".

(** enum fc_anomaly *)
Definition FC_A_UNDERFLOW : Z := 0.
Definition FC_A_UNKNOWN_PERMIT : Z := 1.
Definition FC_A_TENANT_TABLE_FULL : Z := 2.
Definition FC_A_H2_DENY_HEADERS : Z := 3.
Definition FC_A_COUNT : Z := 4.

Definition fc_anomaly_name (a : Z) : string :=
  if (a <? 0) || (a >=? FC_A_COUNT) then "unknown"
  else if a =? 0 then "underflow"
  else if a =? 1 then "unknown_permit"
  else if a =? 2 then "tenant_table_full"
  else "h2_deny_headers".

Definition fc_adapt_state_name (state : Z) : string :=
  if state <? FC_AS_COUNT then
    if state =? FC_AS_OFF then "off"
    else if state =? FC_AS_OPEN then "open"
    else if state =? FC_AS_TIGHTENED then "tightened" else "frozen"
  else "unknown".

Definition fc_adapt_reason_name (reason : Z) : string :=
  if reason <? FC_AR_COUNT then
    if reason =? FC_AR_NONE then "none"
    else if reason =? FC_AR_QUEUED then "queued"
    else if reason =? FC_AR_TTFT then "ttft"
    else if reason =? FC_AR_CLEAR then "clear" else "stale"
  else "unknown".

Definition fc_mode_name (mode : Z) : string :=
  if mode =? FC_MODE_OFF then "off"
  else if mode =? FC_MODE_OBSERVE then "observe"
  else if mode =? FC_MODE_ENFORCE then "enforce"
  else "unknown".

(** fc_qwait_bounds_ms *)
Definition fc_qwait_bounds_ms : list Z := [10; 50; 100; 250; 500; 1000; 2500; 5000].

(** ** Configuration *)

Record fc_cfg := mk_fc_cfg {
  c_mode : Z;
  c_src : list Z;
  c_max_outstanding : Z;
  c_ep_cap : arr3 Z;
  c_max_queue_depth : Z;
  c_max_queue_wait_ms : Z;
  c_telemetry_stale_ms : Z;
  c_adaptive : bool;
  c_warmup_ms : Z;
  c_ttft_target_ms : Z;
  c_tenant_share_pct : Z;
  c_expose_headers : bool;
  c_wake_policy : Z;
  c_band_weight : arr3 Z;
  c_band_min_share_pct : arr3 Z;
  c_critical_reserve_pct : Z;
  c_band_wait_ms : arr3 Z;
  c_band_queue_pct : arr3 Z;
  c_shed_queue : bool;
  c_tenant_wake : Z;
  c_llmd_headers : bool;
  c_bands : bool;
  c_wake_policy_cfg : Z;
  c_shed_queue_cfg : bool;
  c_tenant_wake_cfg : Z;
  c_band_fallback : Z
}.

#[export] Instance fc_cfg_eta : RecordEta fc_cfg := fun r =>
  mk_fc_cfg (c_mode r) (c_src r) (c_max_outstanding r) (c_ep_cap r)
    (c_max_queue_depth r) (c_max_queue_wait_ms r) (c_telemetry_stale_ms r)
    (c_adaptive r) (c_warmup_ms r) (c_ttft_target_ms r) (c_tenant_share_pct r)
    (c_expose_headers r) (c_wake_policy r) (c_band_weight r)
    (c_band_min_share_pct r) (c_critical_reserve_pct r) (c_band_wait_ms r)
    (c_band_queue_pct r) (c_shed_queue r) (c_tenant_wake r) (c_llmd_headers r)
    (c_bands r) (c_wake_policy_cfg r) (c_shed_queue_cfg r) (c_tenant_wake_cfg r)
    (c_band_fallback r).

#[export] Instance fc_cfg_eq_dec : EqDecision fc_cfg.
Proof. solve_decision. Defined.

(** memset(cfg, 0, sizeof *cfg) *)
Definition fc_cfg_zero : fc_cfg :=
  mk_fc_cfg 0 (zrep FC_LIMITS 0) 0 azero 0 0 0 false 0 0 0 false 0 azero azero 0
    azero azero false 0 false false 0 false 0 0.

(** fc_rule_cfg_t: a rule's declarations; 0 inherits. *)
Record fc_rule_cfg := mk_fc_rule_cfg {
  r_mode : Z;
  r_max_outstanding : Z;
  r_ep_cap : arr3 Z;
  r_max_queue_depth : Z;
  r_max_queue_wait_ms : Z;
  r_telemetry_stale_ms : Z;
  r_adaptive : Z;
  r_warmup_ms : Z;
  r_ttft_target_ms : Z;
  r_tenant_share_pct : Z;
  r_expose_headers : Z;
  r_wake_policy : Z;
  r_band_weight : arr3 Z;
  r_band_min_share_pct : arr3 Z;
  r_critical_reserve_pct : Z;
  r_band_wait_ms : arr3 Z;
  r_band_queue_pct : arr3 Z;
  r_shed_queue : Z;
  r_tenant_wake : Z;
  r_llmd_headers : Z
}.

#[export] Instance fc_rule_cfg_eta : RecordEta fc_rule_cfg := fun r =>
  mk_fc_rule_cfg (r_mode r) (r_max_outstanding r) (r_ep_cap r)
    (r_max_queue_depth r) (r_max_queue_wait_ms r) (r_telemetry_stale_ms r)
    (r_adaptive r) (r_warmup_ms r) (r_ttft_target_ms r) (r_tenant_share_pct r)
    (r_expose_headers r) (r_wake_policy r) (r_band_weight r)
    (r_band_min_share_pct r) (r_critical_reserve_pct r) (r_band_wait_ms r)
    (r_band_queue_pct r) (r_shed_queue r) (r_tenant_wake r) (r_llmd_headers r).

Definition fc_rule_cfg_zero : fc_rule_cfg :=
  mk_fc_rule_cfg 0 0 azero 0 0 0 0 0 0 0 0 0 azero azero 0 azero azero 0 0 0.

(** fc_signal_t: what the 1 Hz pass saw across a pool's endpoints. *)
Record fc_signal := mk_fc_signal { sig_fresh : bool; sig_queued : bool; sig_ttft_over : bool }.

(** ** Queue, tenants, pool *)

(** fc_queue_ent_t *)
Record fc_queue_ent := mk_fc_queue_ent {
  e_fd : Z;
  e_live : bool;
  e_band : Z;
  e_tslot : Z;
  e_gen : Z;
  e_enqueue_ns : Z;
  e_deadline_ns : Z
}.

#[export] Instance fc_queue_ent_eta : RecordEta fc_queue_ent := fun r =>
  mk_fc_queue_ent (e_fd r) (e_live r) (e_band r) (e_tslot r) (e_gen r)
    (e_enqueue_ns r) (e_deadline_ns r).

#[export] Instance fc_queue_ent_eq_dec : EqDecision fc_queue_ent.
Proof. solve_decision. Defined.

(** A calloc'ed slot. *)
Definition fc_ent_zero : fc_queue_ent := mk_fc_queue_ent 0 false 0 0 0 0 0.
#[export] Instance fc_queue_ent_inhabited : Inhabited fc_queue_ent := populate fc_ent_zero.

(** fc_evicted_t *)
Record fc_evicted := mk_fc_evicted { v_fd : Z; v_gen : Z; v_at_ns : Z }.

#[export] Instance fc_evicted_eq_dec : EqDecision fc_evicted.
Proof. solve_decision. Defined.

(** fc_queue_t. [q_evicted] holds the first [n_evicted] entries of the array,
    so [n_evicted] is its length. *)
Record fc_queue := mk_fc_queue {
  q_ring : list fc_queue_ent;
  q_cap : Z;
  q_head : Z;
  q_tail : Z;
  q_used : Z;
  q_count : Z;
  q_band_count : arr3 Z;
  q_drr_credit : arr3 Z;
  q_rr_next : arr3 Z;
  q_dead : bool;
  q_evicted : list fc_evicted;
  q_next_deadline_ns : Z
}.

#[export] Instance fc_queue_eta : RecordEta fc_queue := fun r =>
  mk_fc_queue (q_ring r) (q_cap r) (q_head r) (q_tail r) (q_used r) (q_count r)
    (q_band_count r) (q_drr_credit r) (q_rr_next r) (q_dead r) (q_evicted r)
    (q_next_deadline_ns r).

Definition fc_queue_zero : fc_queue :=
  mk_fc_queue [] 0 0 0 0 0 azero azero azero false [] 0.

(** fc_tenant_t *)
Record fc_tenant := mk_fc_tenant {
  t_key : Z;
  t_inflight : Z;
  t_queued : Z;
  t_used : bool;
  t_waiting_runnable : bool;
  t_next_free : Z
}.

#[export] Instance fc_tenant_eta : RecordEta fc_tenant := fun r =>
  mk_fc_tenant (t_key r) (t_inflight r) (t_queued r) (t_used r)
    (t_waiting_runnable r) (t_next_free r).

Definition fc_tenant_zero : fc_tenant := mk_fc_tenant 0 0 0 false false 0.
#[export] Instance fc_tenant_inhabited : Inhabited fc_tenant := populate fc_tenant_zero.

(** fc_state_t *)
Record fc_state := mk_fc_state {
  s_cfg : fc_cfg;
  s_inflight : Z;
  s_queued : Z;
  s_band_inflight : arr3 Z;
  s_band_queued : arr3 Z;
  s_band_outcome : arr3 (list Z);
  s_band_std_read : list Z;
  s_ep_inflight : list (arr3 Z);
  s_decisions : list Z;
  s_qwait_bucket : list Z;
  s_qwait_sum_ms : Z;
  s_qwait_count : Z;
  s_queue : fc_queue;
  s_eff_max : Z;
  s_adapt_state : Z;
  s_adapt_reason : Z;
  s_adapt_moves : Z * Z;
  s_warm_since_ns : list Z;
  s_ttft_ewma_ms : list Z;
  s_ttft_ts_ns : list Z;
  s_tenants : option (list fc_tenant);
  s_tenant_index : list Z;
  s_tenant_slots : Z;
  s_tenants_used : Z;
  s_tenant_free : Z;
  s_tenant_tombs : Z;
  s_tenants_runnable_waiting : Z;
  s_tenant_bound : Z
}.

#[export] Instance fc_state_eta : RecordEta fc_state := fun r =>
  mk_fc_state (s_cfg r) (s_inflight r) (s_queued r) (s_band_inflight r)
    (s_band_queued r) (s_band_outcome r) (s_band_std_read r) (s_ep_inflight r)
    (s_decisions r) (s_qwait_bucket r) (s_qwait_sum_ms r) (s_qwait_count r)
    (s_queue r) (s_eff_max r) (s_adapt_state r) (s_adapt_reason r)
    (s_adapt_moves r) (s_warm_since_ns r) (s_ttft_ewma_ms r) (s_ttft_ts_ns r)
    (s_tenants r) (s_tenant_index r) (s_tenant_slots r) (s_tenants_used r)
    (s_tenant_free r) (s_tenant_tombs r) (s_tenants_runnable_waiting r)
    (s_tenant_bound r).

(** memset(fc, 0, sizeof *fc): a valid [off] pool. *)
Definition fc_state_zero : fc_state :=
  mk_fc_state fc_cfg_zero 0 0 azero azero
    (Arr3 (zrep FC_BO_COUNT 0) (zrep FC_BO_COUNT 0) (zrep FC_BO_COUNT 0))
    (zrep FC_BO_COUNT 0) (zrep FC_MAX_EP azero) (zrep FC_R_COUNT 0)
    (zrep FC_QWAIT_BUCKETS 0) 0 0 fc_queue_zero 0 0 0 (0, 0)
    (zrep FC_MAX_EP 0) (zrep FC_MAX_EP 0) (zrep FC_MAX_EP 0)
    None [] 0 0 0 0 0 0.

(** ** Permits *)

(** enum fc_permit_state *)
Inductive fc_permit_state : Type :=
| FC_P_NONE
| FC_P_BYPASS
| FC_P_EXECUTING
| FC_P_RELEASED
| FC_P_QUEUED
| FC_P_EVICTED
| FC_P_ENDED.

#[export] Instance fc_permit_state_eq_dec : EqDecision fc_permit_state.
Proof. solve_decision. Defined.

(** fc_permit_t. [p_fc] is the pointer to the pool: the pool's identity, or
    [None] for NULL. *)
Record fc_permit := mk_fc_permit {
  p_fc : option Z;
  p_state : fc_permit_state;
  p_svc_held : bool;
  p_woken : bool;
  p_band : Z;
  p_q_parked : bool;
  p_q_ttl_cut : bool;
  p_q_ttl_ms : Z;
  p_ep : arr3 Z;
  p_q_fd : Z;
  p_q_slot : Z;
  p_q_gen : Z;
  p_q_enqueue_ns : Z;
  p_q_deadline_ns : Z;
  p_q_first_ns : Z;
  p_admit_ns : Z;
  p_tkey : Z;
  p_tslot : Z
}.

#[export] Instance fc_permit_eta : RecordEta fc_permit := fun r =>
  mk_fc_permit (p_fc r) (p_state r) (p_svc_held r) (p_woken r) (p_band r)
    (p_q_parked r) (p_q_ttl_cut r) (p_q_ttl_ms r) (p_ep r) (p_q_fd r)
    (p_q_slot r) (p_q_gen r) (p_q_enqueue_ns r) (p_q_deadline_ns r)
    (p_q_first_ns r) (p_admit_ns r) (p_tkey r) (p_tslot r).

(** fc_verdict_t *)
Inductive fc_verdict : Type :=
| FC_ADMIT
| FC_SHED
| FC_NO_CAPACITY
| FC_QUEUE
| FC_DRAINING
| FC_TENANT_SHARE
| FC_BAND_SHED.

#[export] Instance fc_verdict_eq_dec : EqDecision fc_verdict.
Proof. solve_decision. Defined.

(** enum fc_resume *)
Inductive fc_resume : Type :=
| FC_RESUME_NOT_QUEUED
| FC_RESUME_WAIT
| FC_RESUME_TURN
| FC_RESUME_EVICTED
| FC_RESUME_DECIDED.

(** fc_deadline_t, with the absolute time the timerfd is set for. *)
Record fc_deadline := mk_fc_deadline {
  d_tfd : Z;
  d_armed_ns : Z;
  d_last_fire_ns : Z;
  d_wakeups : Z;
  d_passes : Z;
  d_timer_ns : Z
}.

#[export] Instance fc_deadline_eta : RecordEta fc_deadline := fun r =>
  mk_fc_deadline (d_tfd r) (d_armed_ns r) (d_last_fire_ns r) (d_wakeups r)
    (d_passes r) (d_timer_ns r).

(** ** The world of one pool *)

Record world := mk_world {
  w_id : Z;                        (* the pool's address *)
  w_fc : fc_state;
  w_anomaly : list Z;              (* fc_anomaly_total *)
  w_drain : bool;                  (* fc_drain_flag *)
  w_now : Z;                       (* what fc_now_ns reads *)
  w_timer : fc_deadline;           (* fc_deadline_proc *)
  w_refs : gmap Z Z;               (* owner references per pool *)
  w_wakes : list (Z * Z)           (* wake-hook calls, latest first *)
}.

#[export] Instance world_eta : RecordEta world := fun r =>
  mk_world (w_id r) (w_fc r) (w_anomaly r) (w_drain r) (w_now r) (w_timer r)
    (w_refs r) (w_wakes r).

(** A process with one pool and nothing else going on. *)
Definition world_of (fc : fc_state) : world :=
  mk_world 1 fc (zrep FC_A_COUNT 0) false 0 (mk_fc_deadline (-1) 0 0 0 0 0) ∅ [].

(** Assignments through the pool and through its queue. *)
Definition on_fc (f : fc_state → fc_state) (w : world) : world := w <| w_fc ::= f |>.
Definition on_queue (f : fc_queue → fc_queue) (w : world) : world :=
  w <| w_fc ::= (fun s => s <| s_queue ::= f |>) |>.
Definition w_queue (w : world) : fc_queue := s_queue (w_fc w).
Definition w_cfg (w : world) : fc_cfg := s_cfg (w_fc w).

(** ** Inline readers of the header *)

Definition fc_active (fc : fc_state) : bool := negb (c_mode (s_cfg fc) =? FC_MODE_OFF).

Definition fc_queue_enabled (fc : fc_state) : bool :=
  (c_mode (s_cfg fc) =? FC_MODE_ENFORCE) && (c_max_queue_depth (s_cfg fc) >? 0)
  && (q_cap (s_queue fc) >? 0).

Definition fc_svc_cap (fc : fc_state) : Z :=
  if c_adaptive (s_cfg fc) && negb (c_max_outstanding (s_cfg fc) =? 0)
  then s_eff_max fc else c_max_outstanding (s_cfg fc).

Definition fc_has_room (fc : fc_state) : bool :=
  (fc_svc_cap fc =? 0) || (s_inflight fc <? fc_svc_cap fc).

Definition fc_share_active (fc : fc_state) : bool :=
  negb (c_mode (s_cfg fc) =? FC_MODE_OFF) && (c_tenant_share_pct (s_cfg fc) >? 0)
  && (c_tenant_share_pct (s_cfg fc) <? 100).

Definition fc_floors_on (c : fc_cfg) : bool :=
  negb (Z.lor (Z.lor (a_0 (c_band_min_share_pct c)) (a_1 (c_band_min_share_pct c)))
          (Z.lor (a_2 (c_band_min_share_pct c)) (c_critical_reserve_pct c)) =? 0).

Definition fc_queue_evicted (fc : fc_state) : Z := zlen (q_evicted (s_queue fc)).

Definition fc_inflight (fc : fc_state) : Z := s_inflight fc.
Definition fc_queued (fc : fc_state) : Z := s_queued fc.

(** A class constant as a band: anything out of range is standard. *)
Definition fc_band_of (cls : Z) : Z :=
  if (cls =? FC_BAND_CRITICAL) || (cls =? FC_BAND_SHEDDABLE) then cls
  else FC_BAND_STANDARD.

Definition fc_band_at_rank (rank : Z) : Z :=
  if rank =? 0 then FC_BAND_CRITICAL
  else if rank =? 1 then FC_BAND_STANDARD
  else if rank =? 2 then FC_BAND_SHEDDABLE
  else FC_BAND_STANDARD.

(** The loop over the ranks, first match. *)
Definition fc_band_rank (band : Z) : Z :=
  let band := fc_band_of band in
  if fc_band_at_rank 0 =? band then 0
  else if fc_band_at_rank 1 =? band then 1
  else if fc_band_at_rank 2 =? band then 2
  else FC_BANDS - 1.

Definition fc_band_derive (total crit shed band : Z) : Z :=
  if band =? FC_BAND_CRITICAL then crit
  else if band =? FC_BAND_SHEDDABLE then shed
  else if total >? u32 (crit + shed) then u32 (total - crit - shed) else 0.

Definition fc_band_inflight (fc : fc_state) (band : Z) : Z :=
  fc_band_derive (s_inflight fc) (aget (s_band_inflight fc) FC_BAND_CRITICAL)
    (aget (s_band_inflight fc) FC_BAND_SHEDDABLE) (fc_band_of band).

Definition fc_band_queued (fc : fc_state) (band : Z) : Z :=
  fc_band_derive (s_queued fc) (aget (s_band_queued fc) FC_BAND_CRITICAL)
    (aget (s_band_queued fc) FC_BAND_SHEDDABLE) (fc_band_of band).

Definition fc_ep_inflight (fc : fc_state) (ep role : Z) : Z :=
  if (ep <? 0) || (ep >=? FC_MAX_EP) || (role <? 0) || (role >=? FC_ROLES) then 0
  else aget (zget (s_ep_inflight fc) ep) role.

Definition fc_band_wait_ms (fc : fc_state) (band : Z) : Z :=
  let own := aget (c_band_wait_ms (s_cfg fc)) (fc_band_of band) in
  if negb (own =? 0) && (own <? c_max_queue_wait_ms (s_cfg fc)) then own
  else c_max_queue_wait_ms (s_cfg fc).

Definition fc_limit_for (fc : fc_state) (role : Z) : Z :=
  if (role <? 0) || (role >=? FC_ROLES) then fc_svc_cap fc
  else if negb (aget (c_ep_cap (s_cfg fc)) role =? 0) then aget (c_ep_cap (s_cfg fc)) role
  else fc_svc_cap fc.

(** fc_permit_settle: QUEUED -> [to], once. *)
Definition fc_permit_settle (p : fc_permit) (to : fc_permit_state) : fc_permit * bool :=
  if decide (p_state p = FC_P_QUEUED) then (p <| p_state := to |>, true) else (p, false).

(** Bands. *)

Lemma fc_band_rank_bounds b : 0 ≤ fc_band_rank b < FC_BANDS.
Proof. unfold fc_band_rank, FC_BANDS. case_tests; lia. Qed.

Lemma fc_band_at_rank_rank b : fc_band_at_rank (fc_band_rank b) = fc_band_of b.
Proof.
  unfold fc_band_rank, fc_band_of, fc_band_at_rank,
    FC_BAND_CRITICAL, FC_BAND_SHEDDABLE, FC_BAND_STANDARD, FC_BANDS.
  destruct (b =? 1) eqn:E1; zbool; subst; [done|].
  destruct (b =? 2) eqn:E2; zbool; subst; done.
Qed.

Lemma fc_band_rank_at_rank r : 0 ≤ r < FC_BANDS → fc_band_rank (fc_band_at_rank r) = r.
Proof.
  unfold FC_BANDS. intros. assert (r = 0 ∨ r = 1 ∨ r = 2) as [->|[->| ->]] by lia; done.
Qed.

Lemma fc_band_of_idem b : fc_band_of (fc_band_of b) = fc_band_of b.
Proof. unfold fc_band_of. case_tests; zbool; subst; try done; congruence. Qed.

(** A band index is one of the three bands. *)
Definition is_band (b : Z) : Prop := b = 0 ∨ b = 1 ∨ b = 2.

Lemma fc_band_of_is_band b : is_band (fc_band_of b).
Proof.
  unfold is_band, fc_band_of, FC_BAND_CRITICAL, FC_BAND_SHEDDABLE, FC_BAND_STANDARD.
  case_tests; zbool; lia || (apply orb_true_iff in E as [?|?]; zbool; lia).
Qed.
