(* ===== verification/FcConfig.v ===== *)
(** * Capacity admission: configuration (src/common/sockproxy_fc.c)

    The environment defaults ([fc_cfg_from_env]), the overlay of a rule's
    declarations ([fc_cfg_resolve]), the guard that holds a configuration to
    the band combinations that are accepted ([fc_cfg_band_guard]) and the
    comparison ([fc_cfg_equal]). The process environment is the argument
    [getenv]. *)

From stdpp Require Import base list gmap numbers strings.
From Stdlib Require Import Ascii.
From S2P Require Import Prelude FcTypes.

Section env.
Context (getenv : string → option string).

(** ** strtol and strcasecmp *)

Definition is_space (c : ascii) : bool :=
  let n := Z.of_nat (nat_of_ascii c) in (n =? 32) || ((9 <=? n) && (n <=? 13)).
Definition digit_of (c : ascii) : option Z :=
  let n := Z.of_nat (nat_of_ascii c) in
  if (48 <=? n) && (n <=? 57) then Some (n - 48) else None.

Fixpoint skip_space (s : string) : string :=
  match s with
  | String c s' => if is_space c then skip_space s' else s
  | EmptyString => s
  end.

(** Digits of [s] from the accumulator: the value and the rest. *)
Fixpoint scan_digits (s : string) (acc : Z) : Z * string :=
  match s with
  | String c s' =>
      match digit_of c with
      | Some d => scan_digits s' (acc * 10 + d)
      | None => (acc, s)
      end
  | EmptyString => (acc, s)
  end.

Definition LONG_MAX : Z := 9223372036854775807.
Definition LONG_MIN : Z := -9223372036854775808.

(** strtol(e, &end, 10): the clamped value and [end], [None] when nothing was
    converted (end == e). *)
Definition strtol (e : string) : option (Z * string) :=
  let s := skip_space e in
  let '(neg, s) :=
    match s with
    | String "-" s' => (true, s')
    | String "+" s' => (false, s')
    | _ => (false, s)
    end in
  match s with
  | String c _ =>
      match digit_of c with
      | None => None
      | Some _ =>
          let '(v, rest) := scan_digits s 0 in
          let v := if neg : bool then - v else v in
          Some (Z.max LONG_MIN (Z.min LONG_MAX v), rest)
      end
  | EmptyString => None
  end.

Definition ascii_lower (c : ascii) : ascii :=
  let n := nat_of_ascii c in
  if ((65 <=? n) && (n <=? 90))%nat then ascii_of_nat (n + 32) else c.

(** !strcasecmp(a, b) *)
Fixpoint strcase_eq (a b : string) : bool :=
  match a, b with
  | EmptyString, EmptyString => true
  | String x a', String y b' => Ascii.eqb (ascii_lower x) (ascii_lower y) && strcase_eq a' b'
  | _, _ => false
  end.

(** ** Reading the environment *)

(** fc_env_u32: the value, and whether the environment gave it. *)
Definition fc_env_u32 (name : string) (dflt : Z) : Z * bool :=
  match getenv name with
  | None => (dflt, false)
  | Some EmptyString => (dflt, false)
  | Some e =>
      match strtol e with
      | None => (dflt, false)
      | Some (n, rest) =>
          if negb (bool_decide (rest = EmptyString)) || (n <? 0) || (n >? 100000000)
          then (dflt, false) else (n, true)
      end
  end.

(** fc_env_choice: 0 for [v0] (or anything else), 1 for [v1]; whether the
    environment named one of the two. *)
Definition fc_env_choice (name v0 v1 : string) : bool * bool :=
  match getenv name with
  | None => (false, false)
  | Some v => if strcase_eq v v1 then (true, true) else (false, strcase_eq v v0)
  end.

(** *src = v, unconditionally or only when [b] holds. *)
Definition set_src (l v : Z) (c : fc_cfg) : fc_cfg := c <| c_src ::= (fun s => zset s l v) |>.
Definition put_if (b : bool) (l v : Z) (s : list Z) : list Z := if b then zset s l v else s.
Definition set_src_if (b : bool) (l v : Z) (c : fc_cfg) : fc_cfg :=
  c <| c_src ::= put_if b l v |>.
(** *src = FC_SRC_ENV when the environment gave the value. *)
Definition mark_env (l : Z) (given : bool) (c : fc_cfg) : fc_cfg := set_src_if given l FC_SRC_ENV c.

(** ** The bands flag and its mirror *)

Definition fc_cfg_bands (c : fc_cfg) : bool :=
  if negb (c_wake_policy c =? FC_WAKE_STRICT) || c_shed_queue c
     || negb (c_tenant_wake c =? FC_TENANT_WAKE_FIFO) then true
  else
    let nz t := aexists (fun x => negb (x =? 0)) t in
    if nz (c_band_weight c) || nz (c_band_min_share_pct c) || nz (c_band_wait_ms c)
       || nz (c_band_queue_pct c) then true
    else negb (c_critical_reserve_pct c =? 0).

Definition fc_cfg_band_mirror (c : fc_cfg) : fc_cfg :=
  c <| c_wake_policy_cfg := c_wake_policy c |>
    <| c_shed_queue_cfg := c_shed_queue c |>
    <| c_tenant_wake_cfg := c_tenant_wake c |>
    <| c_band_fallback := FC_BAND_FB_NONE |>.

(** ** fc_cfg_from_env, block by block *)

Definition env_mode (c : fc_cfg) : fc_cfg :=
  let r :=
    match getenv "LLB_FC_MODE" with
    | Some m =>
        if strcase_eq m "enforce" then (FC_MODE_ENFORCE, true)
        else if strcase_eq m "observe" then (FC_MODE_OBSERVE, true)
        else (FC_MODE_OFF, strcase_eq m "off")
    | None => (FC_MODE_OFF, false)
    end in
  mark_env FC_L_MODE (snd r) (c <| c_mode := fst r |>).

Definition env_ceilings (c : fc_cfg) : fc_cfg :=
  let r := fc_env_u32 "LLB_FC_MAX_OUTSTANDING" 0 in
  let c := mark_env FC_L_MAX_OUTSTANDING (snd r) (c <| c_max_outstanding := fst r |>) in
  let r := fc_env_u32 "LLB_FC_EP_MAX_INFLIGHT" 0 in
  let c := mark_env FC_L_EP_NORMAL (snd r)
             (c <| c_ep_cap ::= (fun a => aset a FC_ROLE_NORMAL (fst r)) |>) in
  (* the prefill ceiling keeps reading the selector's own knob as its default *)
  let pd := fc_env_u32 "LLB_PD_MAX_INFLIGHT_PER_EP" 0 in
  let c := mark_env FC_L_EP_PREFILL (snd pd) c in
  let r := fc_env_u32 "LLB_FC_PREFILL_MAX_INFLIGHT" (fst pd) in
  let c := mark_env FC_L_EP_PREFILL (snd r)
             (c <| c_ep_cap ::= (fun a => aset a FC_ROLE_PREFILL (fst r)) |>) in
  let r := fc_env_u32 "LLB_FC_DECODE_MAX_INFLIGHT" 0 in
  mark_env FC_L_EP_DECODE (snd r)
    (c <| c_ep_cap ::= (fun a => aset a FC_ROLE_DECODE (fst r)) |>).

Definition clamp_hi (hi v : Z) : Z := if v >? hi then hi else v.

Definition env_queue (c : fc_cfg) : fc_cfg :=
  let r := fc_env_u32 "LLB_FC_MAX_QUEUE_DEPTH" 0 in
  let c := mark_env FC_L_QUEUE_DEPTH (snd r)
             (c <| c_max_queue_depth := clamp_hi FC_QUEUE_DEPTH_MAX (fst r) |>) in
  let r := fc_env_u32 "LLB_FC_MAX_QUEUE_WAIT_MS" 0 in
  let c := mark_env FC_L_QUEUE_WAIT (snd r)
             (c <| c_max_queue_wait_ms := clamp_hi FC_QUEUE_WAIT_MS_MAX (fst r) |>) in
  (* a depth with no window would park a request forever *)
  c <| c_max_queue_wait_ms ::= (fun w =>
         if (c_max_queue_depth c >? 0) && (w =? 0) then 5000 else w) |>.

Definition env_telemetry (c : fc_cfg) : fc_cfg :=
  let r := fc_env_u32 "LLB_FC_TELEMETRY_STALE_MS" FC_TELEMETRY_STALE_MS_DEFAULT in
  let bad := (fst r =? 0) || (fst r >? FC_TELEMETRY_STALE_MS_MAX) in
  set_src_if bad FC_L_TELEMETRY_STALE FC_SRC_DEFAULT
    (mark_env FC_L_TELEMETRY_STALE (snd r)
       (c <| c_telemetry_stale_ms := if bad then FC_TELEMETRY_STALE_MS_DEFAULT else fst r |>)).

(** The adaptive and expose switches: on, off, or not named. *)
Definition env_on (name : string) : bool :=
  match getenv name with Some v => strcase_eq v "on" | None => false end.
Definition env_off (name : string) : bool :=
  match getenv name with Some v => strcase_eq v "off" | None => false end.

Definition env_adaptive (c : fc_cfg) : fc_cfg :=
  mark_env FC_L_ADAPTIVE (env_on "LLB_FC_ADAPTIVE" || env_off "LLB_FC_ADAPTIVE")
    (c <| c_adaptive ::= (fun a => if env_on "LLB_FC_ADAPTIVE" then true else a) |>).

Definition env_windows (c : fc_cfg) : fc_cfg :=
  let r := fc_env_u32 "LLB_FC_WARMUP_MS" 0 in
  let c := mark_env FC_L_WARMUP (snd r)
             (c <| c_warmup_ms := clamp_hi FC_WARMUP_MS_MAX (fst r) |>) in
  let r := fc_env_u32 "LLB_FC_TTFT_TARGET_MS" 0 in
  mark_env FC_L_TTFT_TARGET (snd r)
    (c <| c_ttft_target_ms := clamp_hi FC_TTFT_TARGET_MS_MAX (fst r) |>).

Definition env_share (c : fc_cfg) : fc_cfg :=
  let r := fc_env_u32 "LLB_FC_TENANT_MAX_SHARE_PCT" 0 in
  let over := fst r >? 100 in
  set_src_if over FC_L_TENANT_SHARE FC_SRC_DEFAULT
    (mark_env FC_L_TENANT_SHARE (snd r)
       (c <| c_tenant_share_pct := u8 (if over then 0 else fst r) |>)).

Definition env_expose (c : fc_cfg) : fc_cfg :=
  mark_env FC_L_EXPOSE_HEADERS (env_on "LLB_FC_EXPOSE_HEADERS" || env_off "LLB_FC_EXPOSE_HEADERS")
    (c <| c_expose_headers ::= (fun a => if env_on "LLB_FC_EXPOSE_HEADERS" then true else a) |>).

Definition env_bands (c : fc_cfg) : fc_cfg :=
  let r := fc_env_choice "LLB_FC_WAKE_POLICY" "strict" "weighted" in
  let c := mark_env FC_L_WAKE_POLICY (snd r) (c <| c_wake_policy := Z.b2z (fst r) |>) in
  let r := fc_env_choice "LLB_FC_SHED_QUEUE" "off" "on" in
  let c := mark_env FC_L_SHED_QUEUE (snd r) (c <| c_shed_queue := fst r |>) in
  let r := fc_env_choice "LLB_FC_TENANT_WAKE" "fifo" "rr" in
  let c := mark_env FC_L_TENANT_WAKE (snd r) (c <| c_tenant_wake := Z.b2z (fst r) |>) in
  let r := fc_env_choice "LLB_FC_LLMD_HEADERS" "off" "on" in
  let c := mark_env FC_L_LLMD_HEADERS (snd r) (c <| c_llmd_headers := fst r |>) in
  fc_cfg_band_mirror (c <| c_bands := fc_cfg_bands c |>).

Definition fc_cfg_from_env : fc_cfg :=
  env_bands (env_expose (env_share (env_windows (env_adaptive (env_telemetry
    (env_queue (env_ceilings (env_mode fc_cfg_zero)))))))).

Definition fc_tenant_slots_clamp (n : Z) : Z :=
  if n <? FC_TENANT_SLOTS then FC_TENANT_SLOTS
  else if n >? FC_TENANT_SLOTS_MAX then FC_TENANT_SLOTS_MAX else n.

Definition fc_tenant_slots_from_env : Z :=
  fc_tenant_slots_clamp (fst (fc_env_u32 "LLB_FC_TENANT_SLOTS" FC_TENANT_SLOTS_DEFAULT)).

End env.

(** ** Overlay of a rule *)

(** fc_overlay_u32: a declared (non-zero) value replaces the field. *)
Definition overlay_val (declared old : Z) : Z := if negb (declared =? 0) then declared else old.
Definition overlay (proj : fc_cfg → Z) `{!FieldSetter proj} (l declared : Z) (c : fc_cfg) : fc_cfg :=
  set_src_if (negb (declared =? 0)) l FC_SRC_RULE (c <| proj ::= overlay_val declared |>).

Definition overlay_ep (role l declared : Z) (c : fc_cfg) : fc_cfg :=
  set_src_if (negb (declared =? 0)) l FC_SRC_RULE
    (c <| c_ep_cap ::= (fun a => amod a role (overlay_val declared)) |>).

(** A declared switch: [v] replaces the field when [b] says it was declared. *)
Definition set_when {T} (b : bool) (v old : T) : T := if b then v else old.

(** fc_band_triple_u8: the triple held at [mx] and its source. *)
Definition fc_band_triple_u8 (rule : arr3 Z) (mx : Z) : arr3 Z * Z :=
  let out := amap (clamp_hi mx) rule in
  (out, if aexists (fun x => negb (x =? 0)) out then FC_SRC_RULE else FC_SRC_DEFAULT).

Definition resolve_triples (c : fc_cfg) (rule : fc_rule_cfg) : fc_cfg :=
  let t := fc_band_triple_u8 (r_band_weight rule) FC_BAND_WEIGHT_MAX in
  let c := set_src FC_L_BAND_WEIGHTS (snd t) (c <| c_band_weight := fst t |>) in
  let t := fc_band_triple_u8 (r_band_min_share_pct rule) 100 in
  let c := set_src FC_L_BAND_MIN_SHARE (snd t) (c <| c_band_min_share_pct := fst t |>) in
  let res := clamp_hi 100 (r_critical_reserve_pct rule) in
  let c := set_src FC_L_CRITICAL_RESERVE (if negb (res =? 0) then FC_SRC_RULE else FC_SRC_DEFAULT)
             (c <| c_critical_reserve_pct := res |>) in
  let t := fc_band_triple_u8 (r_band_wait_ms rule) FC_QUEUE_WAIT_MS_MAX in
  let c := set_src FC_L_BAND_WAIT (snd t) (c <| c_band_wait_ms := fst t |>) in
  let t := fc_band_triple_u8 (r_band_queue_pct rule) 100 in
  set_src FC_L_BAND_QUEUE (snd t) (c <| c_band_queue_pct := fst t |>).

Definition fc_cfg_resolve_bands (c : fc_cfg) (rule : fc_rule_cfg) : fc_cfg :=
  let b := (r_wake_policy rule =? FC_RULE_WAKE_STRICT) || (r_wake_policy rule =? FC_RULE_WAKE_WEIGHTED) in
  let c := set_src_if b FC_L_WAKE_POLICY FC_SRC_RULE
             (c <| c_wake_policy ::= set_when b (if r_wake_policy rule =? FC_RULE_WAKE_WEIGHTED
                                                 then FC_WAKE_WEIGHTED else FC_WAKE_STRICT) |>) in
  let c := resolve_triples c rule in
  let b := (r_shed_queue rule =? FC_RULE_SWITCH_OFF) || (r_shed_queue rule =? FC_RULE_SWITCH_ON) in
  let c := set_src_if b FC_L_SHED_QUEUE FC_SRC_RULE
             (c <| c_shed_queue ::= set_when b (r_shed_queue rule =? FC_RULE_SWITCH_ON) |>) in
  let b := (r_tenant_wake rule =? FC_RULE_TENANT_WAKE_FIFO) || (r_tenant_wake rule =? FC_RULE_TENANT_WAKE_RR) in
  let c := set_src_if b FC_L_TENANT_WAKE FC_SRC_RULE
             (c <| c_tenant_wake ::= set_when b (if r_tenant_wake rule =? FC_RULE_TENANT_WAKE_RR
                                                 then FC_TENANT_WAKE_RR else FC_TENANT_WAKE_FIFO) |>) in
  let b := (r_llmd_headers rule =? FC_RULE_SWITCH_OFF) || (r_llmd_headers rule =? FC_RULE_SWITCH_ON) in
  let c := set_src_if b FC_L_LLMD_HEADERS FC_SRC_RULE
             (c <| c_llmd_headers ::= set_when b (r_llmd_headers rule =? FC_RULE_SWITCH_ON) |>) in
  fc_cfg_band_mirror (c <| c_bands := fc_cfg_bands c |>).

Definition resolve_mode (rule : fc_rule_cfg) (c : fc_cfg) : fc_cfg :=
  let b := (r_mode rule >=? FC_RULE_MODE_OFF) && (r_mode rule <=? FC_RULE_MODE_ENFORCE) in
  set_src_if b FC_L_MODE FC_SRC_RULE (c <| c_mode ::= set_when b (r_mode rule - 1) |>).

Definition resolve_ceilings (rule : fc_rule_cfg) (c : fc_cfg) : fc_cfg :=
  let c := overlay c_max_outstanding FC_L_MAX_OUTSTANDING (r_max_outstanding rule) c in
  let c := overlay_ep FC_ROLE_NORMAL FC_L_EP_NORMAL (aget (r_ep_cap rule) FC_ROLE_NORMAL) c in
  let c := overlay_ep FC_ROLE_PREFILL FC_L_EP_PREFILL (aget (r_ep_cap rule) FC_ROLE_PREFILL) c in
  overlay_ep FC_ROLE_DECODE FC_L_EP_DECODE (aget (r_ep_cap rule) FC_ROLE_DECODE) c.

Definition resolve_queue (env : fc_cfg) (rule : fc_rule_cfg) (c : fc_cfg) : fc_cfg :=
  let c := overlay c_max_queue_depth FC_L_QUEUE_DEPTH (r_max_queue_depth rule) c in
  let c := c <| c_max_queue_depth ::= clamp_hi FC_QUEUE_DEPTH_MAX |> in
  (* the environment's defaulted window was for the environment's depth *)
  let c := c <| c_max_queue_wait_ms ::=
                  set_when (zget (c_src env) FC_L_QUEUE_WAIT =? FC_SRC_DEFAULT) 0 |> in
  let c := overlay c_max_queue_wait_ms FC_L_QUEUE_WAIT (r_max_queue_wait_ms rule) c in
  let c := c <| c_max_queue_wait_ms ::= clamp_hi FC_QUEUE_WAIT_MS_MAX |> in
  let unbounded := (c_max_queue_depth c >? 0) && (c_max_queue_wait_ms c =? 0) in
  set_src_if unbounded FC_L_QUEUE_WAIT FC_SRC_DEFAULT
    (c <| c_max_queue_wait_ms ::= set_when unbounded 5000 |>).

Definition resolve_signals (rule : fc_rule_cfg) (c : fc_cfg) : fc_cfg :=
  let c := overlay c_telemetry_stale_ms FC_L_TELEMETRY_STALE (r_telemetry_stale_ms rule) c in
  let c := c <| c_telemetry_stale_ms ::= clamp_hi FC_TELEMETRY_STALE_MS_MAX |> in
  let b := (r_adaptive rule =? FC_RULE_ADAPTIVE_OFF) || (r_adaptive rule =? FC_RULE_ADAPTIVE_ON) in
  let c := set_src_if b FC_L_ADAPTIVE FC_SRC_RULE
             (c <| c_adaptive ::= set_when b (r_adaptive rule =? FC_RULE_ADAPTIVE_ON) |>) in
  let c := overlay c_warmup_ms FC_L_WARMUP (r_warmup_ms rule) c in
  let c := c <| c_warmup_ms ::= clamp_hi FC_WARMUP_MS_MAX |> in
  let c := overlay c_ttft_target_ms FC_L_TTFT_TARGET (r_ttft_target_ms rule) c in
  c <| c_ttft_target_ms ::= clamp_hi FC_TTFT_TARGET_MS_MAX |>.

Definition resolve_share (rule : fc_rule_cfg) (c : fc_cfg) : fc_cfg :=
  let b := (r_tenant_share_pct rule >=? 1) && (r_tenant_share_pct rule <=? 100) in
  let c := set_src_if b FC_L_TENANT_SHARE FC_SRC_RULE
             (c <| c_tenant_share_pct ::= set_when b (r_tenant_share_pct rule) |>) in
  let b := (r_expose_headers rule =? FC_RULE_EXPOSE_OFF) || (r_expose_headers rule =? FC_RULE_EXPOSE_ON) in
  set_src_if b FC_L_EXPOSE_HEADERS FC_SRC_RULE
    (c <| c_expose_headers ::= set_when b (r_expose_headers rule =? FC_RULE_EXPOSE_ON) |>).

Definition fc_cfg_resolve (env : fc_cfg) (rule : option fc_rule_cfg) : fc_cfg :=
  match rule with
  | None => env
  | Some rule =>
      let c := resolve_mode rule env in
      let c := resolve_ceilings rule c in
      let c := resolve_queue env rule c in
      let c := resolve_signals rule c in
      let c := resolve_share rule c in
      fc_cfg_resolve_bands c rule
  end.

(** ** The band guard *)

Definition guard_bypassed (c : fc_cfg) : fc_cfg :=
  c <| c_wake_policy := FC_WAKE_STRICT |>
    <| c_shed_queue := false |>
    <| c_tenant_wake := FC_TENANT_WAKE_FIFO |>
    <| c_band_weight := azero |>
    <| c_band_min_share_pct := azero |>
    <| c_critical_reserve_pct := 0 |>
    <| c_band_wait_ms := azero |>
    <| c_band_queue_pct := azero |>
    <| c_band_fallback := FC_BAND_FB_SOCKMAP |>.

(** band_fallback keeps the first reason. *)
Definition guard_fallback (b : bool) (why : Z) (c : fc_cfg) : fc_cfg :=
  c <| c_band_fallback ::= (fun f => if b && (f =? FC_BAND_FB_NONE) then why else f) |>.

Definition fc_cfg_band_guard (c : fc_cfg) (gate_bypassed : bool) : fc_cfg :=
  let c := fc_cfg_band_mirror c in
  let c := if gate_bypassed && c_bands c then guard_bypassed c else c in
  (* a zero weight is strict under another name *)
  let b := (c_wake_policy c =? FC_WAKE_WEIGHTED) && aexists (fun x => x =? 0) (c_band_weight c) in
  let c := guard_fallback b FC_BAND_FB_NO_WEIGHTS
             (c <| c_wake_policy ::= set_when b FC_WAKE_STRICT |>) in
  let b := c_shed_queue c && (c_max_queue_depth c =? 0) in
  let c := guard_fallback b FC_BAND_FB_NO_QUEUE (c <| c_shed_queue ::= set_when b false |>) in
  c <| c_bands := fc_cfg_bands c |>.

Definition fc_band_fallback_name (reason : Z) : string :=
  if reason =? FC_BAND_FB_SOCKMAP then "sockmap_request"
  else if reason =? FC_BAND_FB_NO_WEIGHTS then "zero_weight"
  else if reason =? FC_BAND_FB_NO_QUEUE then "no_queue"
  else "none".

Definition fc_src_name (src : Z) : string :=
  if src =? FC_SRC_RULE then "rule"
  else if src =? FC_SRC_ENV then "env"
  else "default".

(** ** Comparison *)

Definition arr3_eqb (a b : arr3 Z) : bool :=
  (a_0 a =? a_0 b) && (a_1 a =? a_1 b) && (a_2 a =? a_2 b).

Definition fc_cfg_equal (a b : fc_cfg) : bool :=
  (c_mode a =? c_mode b) && (c_max_outstanding a =? c_max_outstanding b)
  && (c_max_queue_depth a =? c_max_queue_depth b)
  && (c_max_queue_wait_ms a =? c_max_queue_wait_ms b)
  && (c_telemetry_stale_ms a =? c_telemetry_stale_ms b)
  && Bool.eqb (c_adaptive a) (c_adaptive b) && (c_warmup_ms a =? c_warmup_ms b)
  && (c_ttft_target_ms a =? c_ttft_target_ms b)
  && (c_tenant_share_pct a =? c_tenant_share_pct b)
  && Bool.eqb (c_expose_headers a) (c_expose_headers b)
  && (c_wake_policy a =? c_wake_policy b) && Bool.eqb (c_shed_queue a) (c_shed_queue b)
  && (c_tenant_wake a =? c_tenant_wake b) && Bool.eqb (c_llmd_headers a) (c_llmd_headers b)
  && Bool.eqb (c_bands a) (c_bands b) && (c_wake_policy_cfg a =? c_wake_policy_cfg b)
  && (c_critical_reserve_pct a =? c_critical_reserve_pct b)
  && Bool.eqb (c_shed_queue_cfg a) (c_shed_queue_cfg b)
  && (c_tenant_wake_cfg a =? c_tenant_wake_cfg b)
  && (c_band_fallback a =? c_band_fallback b)
  && arr3_eqb (c_band_weight a) (c_band_weight b)
  && arr3_eqb (c_band_min_share_pct a) (c_band_min_share_pct b)
  && arr3_eqb (c_band_wait_ms a) (c_band_wait_ms b)
  && arr3_eqb (c_band_queue_pct a) (c_band_queue_pct b)
  && arr3_eqb (c_ep_cap a) (c_ep_cap b)
  && forallb (fun l => zget (c_src a) l =? zget (c_src b) l) (zseq FC_LIMITS).

(** ** What a configuration is held to *)

Definition triple_in (lo hi : Z) (t : arr3 Z) : Prop := ∀ b, lo ≤ aget t b ≤ hi.

Record cfg_ok (c : fc_cfg) : Prop := {
  ok_src : zlen (c_src c) = FC_LIMITS;
  ok_mode : FC_MODE_OFF ≤ c_mode c ≤ FC_MODE_ENFORCE;
  ok_depth : 0 ≤ c_max_queue_depth c ≤ FC_QUEUE_DEPTH_MAX;
  ok_wait : 0 ≤ c_max_queue_wait_ms c ≤ FC_QUEUE_WAIT_MS_MAX;
  ok_bounded : 0 < c_max_queue_depth c → 0 < c_max_queue_wait_ms c;
  ok_stale : 1 ≤ c_telemetry_stale_ms c ≤ FC_TELEMETRY_STALE_MS_MAX;
  ok_warmup : 0 ≤ c_warmup_ms c ≤ FC_WARMUP_MS_MAX;
  ok_ttft : 0 ≤ c_ttft_target_ms c ≤ FC_TTFT_TARGET_MS_MAX;
  ok_share : 0 ≤ c_tenant_share_pct c ≤ 100;
  ok_policy : FC_WAKE_STRICT ≤ c_wake_policy c ≤ FC_WAKE_WEIGHTED;
  ok_weight : triple_in 0 FC_BAND_WEIGHT_MAX (c_band_weight c);
  ok_floor : triple_in 0 100 (c_band_min_share_pct c);
  ok_reserve : 0 ≤ c_critical_reserve_pct c ≤ 100;
  ok_bwait : triple_in 0 FC_QUEUE_WAIT_MS_MAX (c_band_wait_ms c);
  ok_bqueue : triple_in 0 100 (c_band_queue_pct c);
  ok_bands : c_bands c = fc_cfg_bands c
}.

(** A rule as the wire carries it: unsigned fields. *)
Record rule_ok (r : fc_rule_cfg) : Prop := {
  rok_depth : 0 ≤ r_max_queue_depth r;
  rok_wait : 0 ≤ r_max_queue_wait_ms r;
  rok_stale : 0 ≤ r_telemetry_stale_ms r;
  rok_warmup : 0 ≤ r_warmup_ms r;
  rok_ttft : 0 ≤ r_ttft_target_ms r;
  rok_weight : ∀ b, 0 ≤ aget (r_band_weight r) b;
  rok_floor : ∀ b, 0 ≤ aget (r_band_min_share_pct r) b;
  rok_reserve : 0 ≤ r_critical_reserve_pct r;
  rok_bwait : ∀ b, 0 ≤ aget (r_band_wait_ms r) b;
  rok_bqueue : ∀ b, 0 ≤ aget (r_band_queue_pct r) b
}.

(** ** Lemmas *)

Ltac fc_src_ix := unfold FC_L_MODE, FC_L_MAX_OUTSTANDING, FC_L_EP_NORMAL, FC_L_EP_PREFILL,
  FC_L_EP_DECODE, FC_L_QUEUE_DEPTH, FC_L_QUEUE_WAIT, FC_L_TELEMETRY_STALE, FC_L_ADAPTIVE,
  FC_L_WARMUP, FC_L_TTFT_TARGET, FC_L_TENANT_SHARE, FC_L_EXPOSE_HEADERS, FC_L_WAKE_POLICY,
  FC_L_BAND_WEIGHTS, FC_L_BAND_MIN_SHARE, FC_L_CRITICAL_RESERVE, FC_L_BAND_WAIT,
  FC_L_BAND_QUEUE, FC_L_SHED_QUEUE, FC_L_TENANT_WAKE, FC_L_LLMD_HEADERS in *.

Ltac fc_limits := unfold FC_LIMITS, FC_MODE_OFF, FC_MODE_OBSERVE, FC_MODE_ENFORCE,
  FC_QUEUE_DEPTH_MAX, FC_QUEUE_WAIT_MS_MAX, FC_TELEMETRY_STALE_MS_MAX,
  FC_TELEMETRY_STALE_MS_DEFAULT, FC_WARMUP_MS_MAX, FC_TTFT_TARGET_MS_MAX,
  FC_WAKE_STRICT, FC_WAKE_WEIGHTED, FC_BAND_WEIGHT_MAX, FC_RULE_MODE_OFF,
  FC_RULE_MODE_ENFORCE in *.

(** Read a field off a chain of assignments, call by need. *)
Ltac cfg_read :=
  lazy beta iota zeta delta [fc_cfg_from_env env_bands env_expose env_share env_windows
    env_adaptive env_telemetry env_queue env_ceilings env_mode mark_env set_src set_src_if
    fc_cfg_band_mirror fc_cfg_resolve fc_cfg_resolve_bands resolve_triples resolve_share
    resolve_signals resolve_queue resolve_ceilings resolve_mode overlay overlay_ep
    fc_cfg_band_guard guard_bypassed guard_fallback field_set fc_cfg_zero
    fc_band_triple_u8
    c_mode c_src c_max_outstanding c_ep_cap c_max_queue_depth
    c_max_queue_wait_ms c_telemetry_stale_ms c_adaptive c_warmup_ms
    c_ttft_target_ms c_tenant_share_pct c_expose_headers c_wake_policy
    c_band_weight c_band_min_share_pct c_critical_reserve_pct
    c_band_wait_ms c_band_queue_pct c_shed_queue c_tenant_wake
    c_llmd_headers c_bands c_wake_policy_cfg c_shed_queue_cfg
    c_tenant_wake_cfg c_band_fallback]; cbn [fst snd].

Lemma fc_env_u32_range getenv name dflt :
  0 ≤ dflt → 0 ≤ fst (fc_env_u32 getenv name dflt) ≤ Z.max dflt 100000000.
Proof.
  intros Hd. unfold fc_env_u32. destruct (getenv name) as [[|a e]|]; simpl; [lia| |lia].
  destruct (strtol _) as [[n rest]|]; simpl; [|lia]. case_test; simpl; [lia|]. zbool. lia.
Qed.

Lemma fc_env_u32_dflt getenv name dflt :
  snd (fc_env_u32 getenv name dflt) = false → fst (fc_env_u32 getenv name dflt) = dflt.
Proof.
  unfold fc_env_u32. destruct (getenv name) as [[|a e]|]; try done.
  destruct (strtol _) as [[n rest]|]; simpl; [|done]. by case_test.
Qed.

Lemma clamp_hi_range hi v : 0 ≤ v → 0 ≤ hi → 0 ≤ clamp_hi hi v ≤ hi.
Proof. unfold clamp_hi. case_test; zbool; lia. Qed.

Lemma clamp_hi_id hi v : v ≤ hi → clamp_hi hi v = v.
Proof. unfold clamp_hi. case_test; zbool; lia. Qed.

Lemma triple_clamp hi t : 0 ≤ hi → (∀ b, 0 ≤ aget t b) → triple_in 0 hi (amap (clamp_hi hi) t).
Proof. intros ? Ht b. rewrite aget_amap. by apply clamp_hi_range. Qed.

Lemma triple_zero hi : 0 ≤ hi → triple_in 0 hi azero.
Proof. intros ? b. unfold aget, azero; simpl. case_tests; lia. Qed.

Lemma zlen_put_if b l v s : zlen (put_if b l v s) = zlen s.
Proof. destruct b; [apply zlen_zset|done]. Qed.

Lemma zget_put_if_ne b l v s k : 0 ≤ l → 0 ≤ k → l ≠ k → zget (put_if b l v s) k = zget s k.
Proof. intros. destruct b; [by apply zget_zset_ne|done]. Qed.

#[export] Hint Rewrite zlen_put_if : lxb_arr.

Lemma u8_small z : 0 ≤ z < 256 → u8 z = z.
Proof. apply Z.mod_small. Qed.

(** The environment defaults: whatever the variables hold, the configuration
    is one the module accepts. *)
Lemma from_env_ok getenv : cfg_ok (fc_cfg_from_env getenv).
Proof.
  pose proof (fc_env_u32_range getenv) as R.
  split; cfg_read.
  - by autorewrite with lxb_arr.
  - destruct (getenv "LLB_FC_MODE"); [|done].
    repeat (destruct (strcase_eq _ _); [by vm_compute|]). by vm_compute.
  - apply clamp_hi_range; [apply R|]; done.
  - case_test; [by fc_limits|]. apply clamp_hi_range; [apply R|]; done.
  - intros Hd. case_test; [lia|]. apply andb_false_iff in E as [E|E]; zbool; [lia|].
    pose proof (clamp_hi_range FC_QUEUE_WAIT_MS_MAX _ (proj1 (R "LLB_FC_MAX_QUEUE_WAIT_MS" 0 ltac:(lia)))
      ltac:(done)). lia.
  - pose proof (R "LLB_FC_TELEMETRY_STALE_MS" FC_TELEMETRY_STALE_MS_DEFAULT ltac:(done)).
    case_test; [by fc_limits|]. zbool. lia.
  - apply clamp_hi_range; [apply R|]; done.
  - apply clamp_hi_range; [apply R|]; done.
  - pose proof (R "LLB_FC_TENANT_MAX_SHARE_PCT" 0 ltac:(lia)).
    case_test; zbool; [by vm_compute|]. rewrite u8_small; lia.
  - fc_limits. destruct (fst (fc_env_choice getenv _ _ _)); simpl; lia.
  - by apply triple_zero.
  - by apply triple_zero.
  - lia.
  - by apply triple_zero.
  - by apply triple_zero.
  - done.
Qed.

Lemma resolve_ok env rule :
  cfg_ok env → rule_ok rule → cfg_ok (fc_cfg_resolve env (Some rule)).
Proof.
  destruct env. intros [] []. simpl in *. split; cfg_read.
  - by autorewrite with lxb_arr.
  - unfold set_when. fc_limits. case_test; zbool; lia.
  - apply clamp_hi_range; [|done]. unfold overlay_val. case_test; lia.
  - unfold set_when at 1. case_test; [by fc_limits|]. apply clamp_hi_range; [|done].
    unfold overlay_val, set_when. case_tests; lia.
  - intros Hd. unfold set_when at 1. case_test; [lia|].
    apply andb_false_iff in E as [E|E]; zbool; [lia|].
    match goal with |- 0 < ?x => assert (0 ≤ x); [|lia] end.
    apply clamp_hi_range; [|done]. unfold overlay_val, set_when. case_tests; lia.
  - unfold clamp_hi, overlay_val. case_tests; fc_limits; zbool; lia.
  - apply clamp_hi_range; [|done]. unfold overlay_val. case_test; lia.
  - apply clamp_hi_range; [|done]. unfold overlay_val. case_test; lia.
  - unfold set_when. case_test; zbool; lia.
  - unfold set_when. fc_limits. case_tests; lia.
  - by apply triple_clamp.
  - by apply triple_clamp.
  - by apply clamp_hi_range.
  - by apply triple_clamp.
  - by apply triple_clamp.
  - done.
Qed.

(** For every environment and every rule the resolved configuration
    is in bounds: the queue depth and every window are held at their ceilings,
    a queue with a depth always has a wait window (so no request can be parked
    for ever), percentages and weights are in range, the mode is one of the
    three, and the derived [bands] flag is the one the knobs imply. *)
Theorem fc_cfg_resolve_bounded getenv rule :
  rule_ok rule → cfg_ok (fc_cfg_resolve (fc_cfg_from_env getenv) (Some rule)).
Proof. intros. apply resolve_ok; [apply from_env_ok|done]. Qed.

Lemma fc_cfg_resolve_bounded_witness :
  rule_ok (fc_rule_cfg_zero <| r_max_queue_depth := 70000 |> <| r_mode := 3 |>) ∧
  c_max_queue_wait_ms
    (fc_cfg_resolve (fc_cfg_from_env (fun _ => None))
       (Some (fc_rule_cfg_zero <| r_max_queue_depth := 70000 |> <| r_mode := 3 |>))) = 5000 ∧
  cfg_ok (fc_cfg_resolve (fc_cfg_from_env (fun _ => None))
            (Some (fc_rule_cfg_zero <| r_max_queue_depth := 70000 |> <| r_mode := 3 |>))).
Proof.
  assert (rule_ok (fc_rule_cfg_zero <| r_max_queue_depth := 70000 |> <| r_mode := 3 |>)) as H.
  { split; simpl; try lia; intros b; unfold aget; simpl; repeat case_match; lia. }
  split; [exact H|split; [reflexivity|exact (fc_cfg_resolve_bounded (fun _ => None) _ H)]].
Defined.

(** The sources of the rule-only knobs are never marked by the environment. *)
Lemma from_env_src_default getenv l :
  FC_L_BAND_WEIGHTS ≤ l ≤ FC_L_BAND_QUEUE → zget (c_src (fc_cfg_from_env getenv)) l = FC_SRC_DEFAULT.
Proof.
  intros Hl. cfg_read. unfold FC_L_BAND_WEIGHTS, FC_L_BAND_QUEUE in Hl.
  rewrite !zget_put_if_ne by (fc_src_ix; lia).
  rewrite zget_zrep; [done|]. fc_limits. lia.
Qed.

Lemma from_env_wait_default getenv :
  let env := fc_cfg_from_env getenv in
  zget (c_src env) FC_L_QUEUE_WAIT = FC_SRC_DEFAULT →
  c_max_queue_wait_ms env = if c_max_queue_depth env >? 0 then 5000 else 0.
Proof.
  cfg_read. destruct (snd (fc_env_u32 getenv "LLB_FC_MAX_QUEUE_WAIT_MS" 0)) eqn:Hg.
  - rewrite !zget_put_if_ne by (fc_src_ix; lia). unfold put_if at 1.
    rewrite zget_zset_eq by (autorewrite with lxb_arr; fc_src_ix; rewrite zlen_zrep; fc_limits; lia).
    done.
  - intros _. rewrite (fc_env_u32_dflt _ _ _ Hg). by destruct (_ >? _).
Qed.

Lemma resolve_zero_rule env :
  cfg_ok env →
  c_wake_policy_cfg env = c_wake_policy env → c_shed_queue_cfg env = c_shed_queue env →
  c_tenant_wake_cfg env = c_tenant_wake env → c_band_fallback env = FC_BAND_FB_NONE →
  c_band_weight env = azero → c_band_min_share_pct env = azero →
  c_critical_reserve_pct env = 0 → c_band_wait_ms env = azero → c_band_queue_pct env = azero →
  (∀ l, FC_L_BAND_WEIGHTS ≤ l ≤ FC_L_BAND_QUEUE → zget (c_src env) l = FC_SRC_DEFAULT) →
  (zget (c_src env) FC_L_QUEUE_WAIT = FC_SRC_DEFAULT →
   c_max_queue_wait_ms env = if c_max_queue_depth env >? 0 then 5000 else 0) →
  fc_cfg_resolve env (Some fc_rule_cfg_zero) = env.
Proof.
  destruct env. intros [] ? ? ? ? ? ? ? ? ? Hsrc Hwait. simpl in *. subst. cfg_read.
  rewrite !(clamp_hi_id _ _) by (unfold overlay_val, set_when; simpl; lia || (case_test; lia)).
  set (wait0 := set_when (zget c_src FC_L_QUEUE_WAIT =? FC_SRC_DEFAULT) 0 c_max_queue_wait_ms).
  set (ub := (c_max_queue_depth >? 0) && (wait0 =? 0)).
  assert (ub = true → zget c_src FC_L_QUEUE_WAIT = FC_SRC_DEFAULT) as Hub.
  { unfold ub, wait0, set_when.
    destruct (zget c_src FC_L_QUEUE_WAIT =? FC_SRC_DEFAULT) eqn:E0; intros; zbool; [done|lia]. }
  f_equal.
  - transitivity (zset (zset (zset (zset (zset
      (put_if ub FC_L_QUEUE_WAIT FC_SRC_DEFAULT c_src) FC_L_BAND_WEIGHTS FC_SRC_DEFAULT)
      FC_L_BAND_MIN_SHARE FC_SRC_DEFAULT) FC_L_CRITICAL_RESERVE FC_SRC_DEFAULT)
      FC_L_BAND_WAIT FC_SRC_DEFAULT) FC_L_BAND_QUEUE FC_SRC_DEFAULT); [done|].
    replace (put_if ub _ _ _) with c_src.
    + repeat (rewrite (zset_same c_src); [|apply Hsrc; fc_src_ix; lia|fc_src_ix; fc_limits; lia]). done.
    + unfold put_if. destruct ub; [|done]. rewrite zset_same; [done|by apply Hub|].
      fc_src_ix; fc_limits; lia.
  - by destruct c_ep_cap.
  - change (set_when ub 5000 wait0 = c_max_queue_wait_ms). unfold set_when at 1.
    destruct ub eqn:Eub.
    + rewrite Hwait by by apply Hub. unfold ub in Eub. zbool. case_test; zbool; lia.
    + unfold ub, wait0, set_when in *. case_test; zbool; [|done]. rewrite Hwait by done.
      apply andb_false_iff in Eub as [->|?]; [done|]. by zbool.
  - symmetry. etransitivity; [exact ok_bands0|done].
Qed.

(** A rule that declares nothing inherits the environment exactly:
    every value and every recorded source is the environment's, including a
    wait window that the environment only had by default. *)
Theorem fc_cfg_resolve_inherits getenv :
  fc_cfg_resolve (fc_cfg_from_env getenv) (Some fc_rule_cfg_zero) = fc_cfg_from_env getenv.
Proof.
  apply resolve_zero_rule; try done; [apply from_env_ok| |apply from_env_wait_default].
  apply from_env_src_default.
Qed.

(** The guard: what it leaves is an accepted combination. *)
Lemma aexists_false {A} (f : A → bool) t b : aexists f t = false → f (aget t b) = false.
Proof. unfold aexists. intros. zbool. unfold aget. by repeat case_test. Qed.

Lemma guard_policy c byp :
  let g := fc_cfg_band_guard c byp in
  c_wake_policy g = FC_WAKE_WEIGHTED → ∀ b, aget (c_band_weight g) b ≠ 0.
Proof.
  unfold fc_cfg_band_guard. set (c1 := if _ && _ then _ else _). clearbody c1. destruct c1; simpl.
  unfold set_when. case_test; [done|]. intros Hp b.
  apply andb_false_iff in E as [E|E]; zbool; [done|]. apply (aexists_false _ _ b) in E. simpl in E. by zbool.
Qed.

Lemma guard_shed c byp :
  let g := fc_cfg_band_guard c byp in c_shed_queue g = true → c_max_queue_depth g ≠ 0.
Proof.
  unfold fc_cfg_band_guard. set (c1 := if _ && _ then _ else _). clearbody c1. destruct c1; simpl.
  unfold set_when. destruct c_shed_queue, (c_max_queue_depth =? 0) eqn:E; simpl; try done. by zbool.
Qed.

Lemma guard_bypassed_off c :
  c_bands c = fc_cfg_bands c → c_bands (fc_cfg_band_guard c true) = false.
Proof.
  unfold fc_cfg_band_guard. destruct c; simpl. destruct c_bands; simpl; [done|].
  unfold fc_cfg_bands, set_when; simpl.
  destruct (c_wake_policy =? FC_WAKE_STRICT) eqn:E0; simpl; [|done]. zbool. subst. simpl.
  by destruct c_shed_queue.
Qed.

Lemma guard_unchanged c byp :
  let g := fc_cfg_band_guard c byp in
  c_band_fallback g = FC_BAND_FB_NONE →
  c_wake_policy g = c_wake_policy c ∧ c_shed_queue g = c_shed_queue c ∧
  c_band_weight g = c_band_weight c ∧ c_tenant_wake g = c_tenant_wake c.
Proof.
  unfold fc_cfg_band_guard. destruct c; simpl. unfold set_when.
  destruct (byp && c_bands); simpl; [done|]. repeat case_test; simpl; try done; by zbool.
Qed.

Lemma guard_frame c byp :
  let g := fc_cfg_band_guard c byp in
  c_bands g = fc_cfg_bands g ∧
  c_mode g = c_mode c ∧ c_max_outstanding g = c_max_outstanding c ∧
  c_max_queue_depth g = c_max_queue_depth c ∧ c_max_queue_wait_ms g = c_max_queue_wait_ms c ∧
  c_llmd_headers g = c_llmd_headers c ∧ c_src g = c_src c.
Proof.
  split.
  - unfold fc_cfg_band_guard. set (c3 := guard_fallback _ FC_BAND_FB_NO_QUEUE _). by clearbody c3.
  - destruct c, byp, c_bands; repeat split; cfg_read; reflexivity.
Qed.

(** The band guard leaves only combinations the control plane accepts:
    weighted wake has a positive weight for every band, a shed queue has a
    queue, a pool whose request direction bypasses the gate runs no band knob,
    and the [bands] flag is the one the knobs imply; the limits that are not
    band knobs are untouched. *)
Theorem fc_cfg_band_guard_accepts c byp :
  let g := fc_cfg_band_guard c byp in
  (c_wake_policy g = FC_WAKE_WEIGHTED → ∀ b, aget (c_band_weight g) b ≠ 0) ∧
  (c_shed_queue g = true → c_max_queue_depth g ≠ 0) ∧
  (byp = true → c_bands c = fc_cfg_bands c → c_bands g = false) ∧
  (c_band_fallback g = FC_BAND_FB_NONE →
     c_wake_policy g = c_wake_policy c ∧ c_shed_queue g = c_shed_queue c ∧
     c_band_weight g = c_band_weight c ∧ c_tenant_wake g = c_tenant_wake c) ∧
  c_bands g = fc_cfg_bands g ∧
  c_mode g = c_mode c ∧ c_max_outstanding g = c_max_outstanding c ∧
  c_max_queue_depth g = c_max_queue_depth c ∧ c_max_queue_wait_ms g = c_max_queue_wait_ms c ∧
  c_llmd_headers g = c_llmd_headers c ∧ c_src g = c_src c.
Proof.
  intros g. split; [apply guard_policy|]. split; [apply guard_shed|].
  split; [intros ->; apply guard_bypassed_off|]. split; [apply guard_unchanged|apply guard_frame].
Qed.

Lemma zget_ext (l k : list Z) :
  zlen l = zlen k → (∀ i, 0 ≤ i < zlen l → zget l i = zget k i) → l = k.
Proof.
  unfold zlen, zget. intros Hlen Hi. apply (list_eq_same_length _ _ (length l)); [lia|done|].
  intros i x y Hlt Hx Hy. specialize (Hi (Z.of_nat i) ltac:(lia)). rewrite Nat2Z.id in Hi.
  apply list_lookup_total_correct in Hx, Hy. congruence.
Qed.

Lemma arr3_eqb_eq a b : arr3_eqb a b = true ↔ a = b.
Proof.
  destruct a, b. unfold arr3_eqb; simpl. rewrite !andb_true_iff, !Z.eqb_eq. naive_solver.
Qed.

(** [fc_cfg_equal] compares every value and every source: on
    configurations with a full source table it decides equality, so a rule
    update is skipped only when it changes nothing. *)
Theorem fc_cfg_equal_spec a b :
  zlen (c_src a) = FC_LIMITS → zlen (c_src b) = FC_LIMITS → fc_cfg_equal a b = true ↔ a = b.
Proof.
  intros Ha Hb. unfold fc_cfg_equal.
  rewrite !andb_true_iff, !Z.eqb_eq, !Bool.eqb_true_iff, !arr3_eqb_eq, forallb_forall.
  split; [|intros ->; repeat split; intros; by apply Z.eqb_eq]. intros H. destruct_and!.
  assert (c_src a = c_src b).
  { apply zget_ext; [congruence|]. intros i Hi. apply Z.eqb_eq. match goal with H : ∀ x, _ |- _ => apply H end.
    apply list_elem_of_In. unfold zseq. apply list_elem_of_fmap. exists (Z.to_nat i).
    split; [lia|]. apply elem_of_seq. unfold zlen in *. lia. }
  destruct a, b; simpl in *; by subst.
Qed.

Lemma fc_cfg_equal_witness :
  zlen (c_src fc_cfg_zero) = FC_LIMITS ∧
  (fc_cfg_equal fc_cfg_zero (fc_cfg_zero <| c_bands := true |>) = true ↔
   fc_cfg_zero = fc_cfg_zero <| c_bands := true |>).
Proof.
  split; [reflexivity|].
  exact (fc_cfg_equal_spec fc_cfg_zero (fc_cfg_zero <| c_bands := true |>) eq_refl eq_refl).
Defined.
