(* ===== verification/FcRing.v ===== *)
(** * Capacity admission: the ring of waiting requests (src/common/sockproxy_fc.c)

    The ring operations that run under the queue lock, on [fc_queue]. A slot
    is live or a tombstone; [q_used] slots from [q_head] are in use. The ring
    implements the list of its live entries, oldest first ([ring_abs]): the
    theorems state each operation on that list, and that the well-formedness
    [ring_wf] (geometry, counts, per-band counts, the earliest deadline, no
    live slot outside the span) is kept. [calloc] tells which allocations
    succeed. *)

From stdpp Require Import base list gmap numbers sorting.
From S2P Require Import Prelude FcTypes.

Section ring.
Context (calloc : Z → bool).

(** ** Operations *)

Definition fc_ring_wrap (q : fc_queue) (i : Z) : Z := if i >=? q_cap q then i - q_cap q else i.

Definition fc_band_counted (band : Z) : bool :=
  (band =? FC_BAND_CRITICAL) || (band =? FC_BAND_SHEDDABLE).

Definition fc_ring_band_add (q : fc_queue) (band : Z) : fc_queue :=
  if fc_band_counted band then q <| q_band_count ::= (fun a => amod a band (Z.add 1)) |> else q.

Definition fc_ring_band_sub (q : fc_queue) (band : Z) : fc_queue :=
  if fc_band_counted band && (aget (q_band_count q) band >? 0)
  then q <| q_band_count ::= (fun a => amod a band (fun x => x - 1)) |> else q.

Definition fc_ring_deadline_add (q : fc_queue) (deadline_ns : Z) : fc_queue :=
  let cur := q_next_deadline_ns q in
  if negb (deadline_ns =? 0) && ((cur =? 0) || (deadline_ns <? cur))
  then q <| q_next_deadline_ns := deadline_ns |> else q.

(** The slots a loop over the used span visits: [n] of them from [i]. *)
Fixpoint ring_slots (q : fc_queue) (n : nat) (i : Z) : list Z :=
  match n with
  | O => []
  | S n => i :: ring_slots q n (fc_ring_wrap q (i + 1))
  end.
Definition ring_walk (q : fc_queue) : list Z := ring_slots q (Z.to_nat (q_used q)) (q_head q).

Definition fc_ring_deadline_rescan (q : fc_queue) : fc_queue :=
  let scan m i :=
    let e := zget (q_ring q) i in
    if e_live e && negb (e_deadline_ns e =? 0) && ((m =? 0) || (e_deadline_ns e <? m))
    then e_deadline_ns e else m in
  q <| q_next_deadline_ns := foldl scan 0 (if q_cap q =? 0 then [] else ring_walk q) |>.

Definition fc_ring_deadline_gone (q : fc_queue) (deadline_ns : Z) : fc_queue :=
  if negb (deadline_ns =? 0) && (deadline_ns =? q_next_deadline_ns q)
  then fc_ring_deadline_rescan q else q.

(** Re-lay the live entries, in order, from slot 0 of a fresh buffer of
    [dst_cap] slots, and adopt it. *)
Definition fc_ring_relayout (q : fc_queue) (dst_cap : Z) : fc_queue :=
  let put '(n, dst, bc) i :=
    let e := zget (q_ring q) i in
    if e_live e && (n <? dst_cap)
    then (n + 1, zset dst n e,
          q_band_count (fc_ring_band_add (q <| q_band_count := bc |>) (e_band e)))
    else (n, dst, bc) in
  let '(n, dst, bc) := foldl put (0, zrep dst_cap fc_ent_zero, azero) (ring_walk q) in
  q <| q_ring := dst |> <| q_cap := dst_cap |> <| q_head := 0 |>
    <| q_tail := if n =? dst_cap then 0 else n |> <| q_used := n |> <| q_count := n |>
    <| q_band_count := bc |>.

Definition fc_ring_compact (q : fc_queue) : fc_queue :=
  if q_cap q =? 0 then q
  else if negb (calloc (q_cap q)) then q
  else fc_ring_relayout q (q_cap q).

Definition fc_ring_grow (q : fc_queue) (want : Z) : fc_queue :=
  let want := if want >? FC_QUEUE_DEPTH_MAX then FC_QUEUE_DEPTH_MAX else want in
  if want <=? q_cap q then q
  else if negb (calloc want) then q
  else match q_ring q with
  | _ :: _ => fc_ring_relayout q want
  | [] =>
      q <| q_ring := zrep want fc_ent_zero |> <| q_cap := want |> <| q_head := 0 |>
        <| q_tail := 0 |> <| q_used := 0 |> <| q_count := 0 |> <| q_band_count := azero |>
  end.

(** The swap loop of a request going back to the head: it settles behind the
    live entries that arrived before it. *)
Fixpoint bubble_front (q : fc_queue) (k : nat) (ring : list fc_queue_ent) (slot : Z) :
    list fc_queue_ent * Z :=
  match k with
  | O => (ring, slot)
  | S k =>
      let next := fc_ring_wrap q (slot + 1) in
      let en := zget ring next in
      let es := zget ring slot in
      if e_live en && (e_enqueue_ns en >=? e_enqueue_ns es) then (ring, slot)
      else bubble_front q k (zset (zset ring next es) slot en) next
  end.

(** The swap loop of an ordered append: it settles behind the last live entry
    that arrived no later. *)
Fixpoint bubble_back (q : fc_queue) (k : nat) (ring : list fc_queue_ent) (slot : Z) :
    list fc_queue_ent * Z :=
  match k with
  | O => (ring, slot)
  | S k =>
      if slot =? q_head q then (ring, slot)
      else
        let prev := if slot =? 0 then q_cap q - 1 else slot - 1 in
        let ep := zget ring prev in
        let es := zget ring slot in
        if e_live ep && (e_enqueue_ns ep <=? e_enqueue_ns es) then (ring, slot)
        else bubble_back q k (zset (zset ring prev es) slot ep) prev
  end.

(** Make room: compact tombstones away, and grow for a request going back. *)
Definition ring_make_room (q : fc_queue) (front : bool) : fc_queue :=
  let q := if (q_used q >=? q_cap q) && (q_count q <? q_cap q) then fc_ring_compact q else q in
  if (q_used q >=? q_cap q) && front
  then fc_ring_grow q (q_cap q + (if q_cap q / 8 >? 16 then q_cap q / 8 else 16))
  else q.

(** Store the live entry in a free slot and let it settle. *)
Definition ring_place (q : fc_queue) (e : fc_queue_ent) (front ordered : bool) : fc_queue * Z :=
  let live := e <| e_live := true |> in
  if front then
    let slot := if q_head q =? 0 then q_cap q - 1 else q_head q - 1 in
    let q := q <| q_head := slot |> in
    let '(ring, slot) := bubble_front q (Z.to_nat (q_used q)) (zset (q_ring q) slot live) slot in
    (q <| q_ring := ring |>, slot)
  else
    let slot := q_tail q in
    let q := q <| q_tail := fc_ring_wrap q (q_tail q + 1) |> in
    if ordered then
      let '(ring, slot) := bubble_back q (Z.to_nat (q_cap q)) (zset (q_ring q) slot live) slot in
      (q <| q_ring := ring |>, slot)
    else (q, slot).

(** Append or prepend one entry: the slot taken, [None] when there is none. *)
Definition fc_ring_insert (q : fc_queue) (e : fc_queue_ent) (front ordered : bool) :
    fc_queue * option Z :=
  if q_cap q =? 0 then (q, None)
  else
    let q := ring_make_room q front in
    if q_used q >=? q_cap q then (q, None)
    else
      let '(q, slot) := ring_place q e front ordered in
      let q := q <| q_ring ::= (fun r => zset r slot (e <| e_live := true |>)) |>
                 <| q_used ::= Z.add 1 |> <| q_count ::= Z.add 1 |> in
      (fc_ring_deadline_add (fc_ring_band_add q (e_band e)) (e_deadline_ns e), Some slot).

(** A tombstone at the head is dead weight: drop it. *)
Fixpoint ring_trim (k : nat) (q : fc_queue) : fc_queue :=
  match k with
  | O => q
  | S k =>
      if (q_used q >? 0) && negb (e_live (zget (q_ring q) (q_head q)))
      then ring_trim k (q <| q_head ::= (fun h => fc_ring_wrap q (h + 1)) |>
                          <| q_used ::= (fun u => u - 1) |>)
      else q
  end.

(** Clear the live entry of a slot and settle the counts. *)
Definition ring_clear (q : fc_queue) (at_ : Z) : fc_queue :=
  let e := zget (q_ring q) at_ in
  let q := q <| q_ring ::= (fun r => zset r at_ (e <| e_live := false |>)) |>
             <| q_count ::= (fun c => c - 1) |> in
  fc_ring_deadline_gone (fc_ring_band_sub q (e_band e)) (e_deadline_ns e).

(** Take the live entry at a ring index out of the queue. *)
Definition fc_ring_take_at (q : fc_queue) (at_ : Z) : fc_queue * fc_queue_ent :=
  let e := zget (q_ring q) at_ in
  let q := ring_clear q at_ in
  (ring_trim (Z.to_nat (q_used q)) q, e).

(** Pop the oldest live entry, dropping the tombstones before it. *)
Fixpoint ring_pop (k : nat) (q : fc_queue) : fc_queue * option fc_queue_ent :=
  match k with
  | O => (q, None)
  | S k =>
      if q_used q >? 0 then
        let e := zget (q_ring q) (q_head q) in
        let q := q <| q_ring ::= (fun r => zset r (q_head q) (e <| e_live := false |>)) |>
                   <| q_head := fc_ring_wrap q (q_head q + 1) |>
                   <| q_used ::= (fun u => u - 1) |> in
        if e_live e
        then (fc_ring_deadline_gone
                (fc_ring_band_sub (q <| q_count ::= (fun c => c - 1) |>) (e_band e))
                (e_deadline_ns e), Some e)
        else ring_pop k q
      else (q, None)
  end.
Definition fc_ring_pop (q : fc_queue) : fc_queue * option fc_queue_ent :=
  ring_pop (Z.to_nat (q_used q)) q.

(** The first slot of the walk that satisfies [P]. *)
Definition ring_first (q : fc_queue) (P : fc_queue_ent → bool) (slots : list Z) : option Z :=
  List.find (fun i => P (zget (q_ring q) i)) slots.

(** Find the live entry for (fd, gen): the slot hint, a uint32_t, first, then
    the span. *)
Definition fc_ring_find (q : fc_queue) (fd gen hint : Z) : option Z :=
  let hint := u32 hint in
  let is_it e := e_live e && (e_fd e =? fd) && (e_gen e =? gen) in
  if q_cap q =? 0 then None
  else if (hint <? q_cap q) && is_it (zget (q_ring q) hint) then Some hint
  else ring_first q is_it (ring_walk q).

(** The live waiters of one band; the standard slot is the rest. *)
Definition fc_band_live (q : fc_queue) (band : Z) : Z :=
  let crit := aget (q_band_count q) FC_BAND_CRITICAL in
  let shed := aget (q_band_count q) FC_BAND_SHEDDABLE in
  if fc_band_counted band then aget (q_band_count q) band
  else if q_count q >? crit + shed then q_count q - crit - shed else 0.

Definition fc_ring_band_n (q : fc_queue) (band : Z) : Z :=
  fc_band_derive (q_count q) (aget (q_band_count q) FC_BAND_CRITICAL)
    (aget (q_band_count q) FC_BAND_SHEDDABLE) band.

(** fc_queue_expired: the live entries past their deadline, oldest first, up
    to [cap]. *)
Definition fc_queue_expired (q : fc_queue) (now_ns cap : Z) : list fc_queue_ent :=
  if q_cap q >? 0 then
    take (Z.to_nat cap)
      (List.filter (fun e => e_live e && negb (e_deadline_ns e =? 0) && (e_deadline_ns e <=? now_ns))
         ((fun i => zget (q_ring q) i) <$> ring_walk q))
  else [].

(** fc_queue_visit: what the visitor is handed, in order. *)
Definition fc_queue_visit (q : fc_queue) : list fc_queue_ent :=
  if q_cap q >? 0 then List.filter e_live ((fun i => zget (q_ring q) i) <$> ring_walk q) else [].

(** ** The list the ring represents *)

Definition ring_pos (cap head : Z) (k : nat) : Z :=
  if head + Z.of_nat k >=? cap then head + Z.of_nat k - cap else head + Z.of_nat k.
Definition span_of (cap head : Z) (ring : list fc_queue_ent) (n : nat) : list fc_queue_ent :=
  (fun k => zget ring (ring_pos cap head k)) <$> seq 0 n.
Definition ring_span (q : fc_queue) : list fc_queue_ent :=
  span_of (q_cap q) (q_head q) (q_ring q) (Z.to_nat (q_used q)).
Definition ring_abs (q : fc_queue) : list fc_queue_ent := List.filter e_live (ring_span q).

(** The earliest deadline of a list of entries, 0 for none. *)
Definition earliest_deadline (d : Z) (l : list fc_queue_ent) : Prop :=
  (d = 0 ∧ ∀ e, e ∈ l → e_deadline_ns e = 0) ∨
  (d ≠ 0 ∧ (∃ e, e ∈ l ∧ e_deadline_ns e = d) ∧
   ∀ e, e ∈ l → e_deadline_ns e ≠ 0 → d ≤ e_deadline_ns e).

Record ring_geom (q : fc_queue) : Prop := {
  rg_cap : q_cap q = zlen (q_ring q);
  rg_max : q_cap q ≤ FC_QUEUE_DEPTH_MAX;
  rg_head : 0 ≤ q_head q ∧ (0 < q_cap q → q_head q < q_cap q);
  rg_used : 0 ≤ q_used q ≤ q_cap q;
  rg_tail : 0 < q_cap q → q_tail q = ring_pos (q_cap q) (q_head q) (Z.to_nat (q_used q));
  (* a live slot is in the span *)
  rg_dead : ∀ i, 0 ≤ i < q_cap q → e_live (zget (q_ring q) i) = true →
    ∃ k, (k < Z.to_nat (q_used q))%nat ∧ i = ring_pos (q_cap q) (q_head q) k
}.

Record ring_wf (q : fc_queue) : Prop := {
  rw_geom : ring_geom q;
  rw_count : q_count q = zlen (ring_abs q);
  rw_bands : ∀ b, fc_band_counted b = true →
    aget (q_band_count q) b = zcount (fun e => e_band e =? b) (ring_abs q);
  rw_deadline : earliest_deadline (q_next_deadline_ns q) (ring_abs q)
}.

(** Insertion by arrival time, from the front and from the back. *)
Fixpoint ins_front (e : fc_queue_ent) (l : list fc_queue_ent) : list fc_queue_ent :=
  match l with
  | [] => [e]
  | x :: l' => if e_enqueue_ns x >=? e_enqueue_ns e then e :: l else x :: ins_front e l'
  end.
Fixpoint ins_rev (e : fc_queue_ent) (l : list fc_queue_ent) : list fc_queue_ent :=
  match l with
  | [] => [e]
  | x :: l' => if e_enqueue_ns x <=? e_enqueue_ns e then e :: l else x :: ins_rev e l'
  end.
Definition ins_back (e : fc_queue_ent) (l : list fc_queue_ent) : list fc_queue_ent :=
  rev (ins_rev e (rev l)).

(** Where an insertion goes, by its mode. *)
Definition abs_insert (front ordered : bool) (e : fc_queue_ent) (l : list fc_queue_ent) :=
  if front then ins_front e l else if ordered then ins_back e l else l ++ [e].

End ring.

(** ** Geometry *)

Lemma ring_pos_bound cap head k :
  0 ≤ head < cap → Z.of_nat k ≤ cap → 0 ≤ ring_pos cap head k < cap.
Proof. unfold ring_pos. intros. case_test; zbool; lia. Qed.

Lemma ring_pos_inj cap head j k :
  0 ≤ head < cap → Z.of_nat j < cap → Z.of_nat k < cap →
  ring_pos cap head j = ring_pos cap head k → j = k.
Proof. unfold ring_pos. intros ? ? ?. repeat case_test; zbool; lia. Qed.

(** One slot further is one position further. *)
Lemma ring_pos_succ cap head k :
  0 ≤ head < cap → Z.of_nat (S k) ≤ cap →
  (if ring_pos cap head k + 1 >=? cap then ring_pos cap head k + 1 - cap
   else ring_pos cap head k + 1) = ring_pos cap head (S k).
Proof. unfold ring_pos. intros. repeat case_test; zbool; lia. Qed.

(** Positions from the next head are positions one further on. *)
Lemma ring_pos_shift cap head k :
  0 ≤ head < cap → Z.of_nat (S k) ≤ cap →
  ring_pos cap (ring_pos cap head 1) k = ring_pos cap head (S k).
Proof. unfold ring_pos. intros. repeat case_test; zbool; lia. Qed.

Lemma ring_pos_0 cap head : 0 ≤ head < cap → ring_pos cap head 0 = head.
Proof. unfold ring_pos. intros. case_test; zbool; lia. Qed.

(** The head of a span that starts one slot earlier. *)
Definition ring_pred (cap head : Z) : Z := if head =? 0 then cap - 1 else head - 1.

Lemma ring_pred_bound cap head : 0 ≤ head < cap → 0 ≤ ring_pred cap head < cap.
Proof. unfold ring_pred. intros. case_test; zbool; lia. Qed.

Lemma ring_pred_next cap head : 0 ≤ head < cap → ring_pos cap (ring_pred cap head) 1 = head.
Proof. unfold ring_pred, ring_pos. intros. repeat case_test; zbool; lia. Qed.

Lemma ring_pos_pred cap head k :
  0 ≤ head < cap → Z.of_nat (S k) ≤ cap →
  ring_pred cap (ring_pos cap head (S k)) = ring_pos cap head k.
Proof. unfold ring_pred, ring_pos. intros. repeat case_test; zbool; lia. Qed.

(** ** Spans *)

Section span.
Context (cap head : Z).
Hypothesis Hhead : 0 ≤ head < cap.
Implicit Types (ring : list fc_queue_ent) (e : fc_queue_ent).
Abbreviation span := (span_of cap head).
Abbreviation pos := (ring_pos cap head).

Lemma length_span ring n : length (span ring n) = n.
Proof using Type. unfold span_of. by rewrite length_fmap, length_seq. Qed.

Lemma span_lookup ring n k : (k < n)%nat → span ring n !! k = Some (zget ring (pos k)).
Proof using Type.
  intros. unfold span_of. rewrite list_lookup_fmap, lookup_seq_lt by done. done.
Qed.

Lemma span_ext ring ring' n :
  (∀ k, (k < n)%nat → zget ring (pos k) = zget ring' (pos k)) → span ring n = span ring' n.
Proof using Type.
  intros Heq. unfold span_of. apply list_fmap_ext. intros i k Hk.
  apply lookup_seq in Hk as [-> ?]. by apply Heq.
Qed.

Lemma span_set ring n k e :
  zlen ring = cap → (k < n)%nat → Z.of_nat n ≤ cap →
  span (zset ring (pos k) e) n = <[k := e]> (span ring n).
Proof using Hhead.
  intros Hr Hk Hn. apply list_eq. intros j.
  destruct (decide (j < n)%nat).
  - rewrite span_lookup by done. destruct (decide (j = k)) as [->|Hne].
    + rewrite list_lookup_insert_eq by (by rewrite length_span).
      pose proof (ring_pos_bound cap head k Hhead ltac:(lia)). by rewrite zget_zset_eq by lia.
    + rewrite list_lookup_insert_ne, span_lookup by done. f_equal.
      pose proof (ring_pos_bound cap head k Hhead ltac:(lia)).
      pose proof (ring_pos_bound cap head j Hhead ltac:(lia)).
      apply zget_zset_ne; [lia..|]. intros Heq. apply ring_pos_inj in Heq; lia.
  - rewrite !lookup_ge_None_2; [done|rewrite length_insert, length_span; lia|rewrite length_span; lia].
Qed.

Lemma span_set_out ring n k e :
  (n ≤ k)%nat → Z.of_nat k < cap → span (zset ring (pos k) e) n = span ring n.
Proof using Hhead.
  intros Hk Hc. apply span_ext. intros j Hj.
  pose proof (ring_pos_bound cap head k Hhead ltac:(lia)).
  pose proof (ring_pos_bound cap head j Hhead ltac:(lia)).
  apply zget_zset_ne; [lia..|]. intros Heq. apply ring_pos_inj in Heq; lia.
Qed.

Lemma span_snoc ring n : span ring (S n) = span ring n ++ [zget ring (pos n)].
Proof using Type. unfold span_of. by rewrite seq_S, fmap_app. Qed.

Lemma span_cons ring n :
  Z.of_nat (S n) ≤ cap → span ring (S n) = zget ring head :: span_of cap (pos 1) ring n.
Proof using Hhead.
  intros Hn. unfold span_of. rewrite <- cons_seq. simpl. f_equal; [by rewrite ring_pos_0|].
  rewrite <- fmap_S_seq, <- list_fmap_compose. apply list_fmap_ext.
  intros i k Hk. apply lookup_seq in Hk as [-> ?]. simpl. by rewrite ring_pos_shift by lia.
Qed.
End span.

(** The slots a loop visits are the positions of the span. *)
Lemma ring_slots_pos q n k :
  0 ≤ q_head q < q_cap q → Z.of_nat (n + k) ≤ q_cap q →
  ring_slots q n (ring_pos (q_cap q) (q_head q) k) = ring_pos (q_cap q) (q_head q) <$> seq k n.
Proof.
  revert k. induction n as [|n IH]; intros k Hh Hn; [done|]. simpl. f_equal.
  unfold fc_ring_wrap. destruct n as [|n]; [done|].
  rewrite ring_pos_succ by lia. rewrite IH by lia. done.
Qed.

Lemma ring_walk_pos q :
  ring_geom q → ring_walk q = ring_pos (q_cap q) (q_head q) <$> seq 0 (Z.to_nat (q_used q)).
Proof.
  intros []. unfold ring_walk. destruct (decide (q_used q = 0)) as [->|]; [done|].
  rewrite <- ring_slots_pos by lia. by rewrite ring_pos_0 by lia.
Qed.

Lemma ring_walk_span q :
  ring_geom q → (fun i => zget (q_ring q) i) <$> ring_walk q = ring_span q.
Proof. intros. rewrite ring_walk_pos by done. by rewrite <- list_fmap_compose. Qed.

Lemma fc_queue_visit_spec q : ring_geom q → fc_queue_visit q = ring_abs q.
Proof.
  intros Hg. unfold fc_queue_visit. rewrite ring_walk_span by done.
  destruct Hg. case_test; [done|]. zbool. unfold ring_abs, ring_span.
  by replace (q_used q) with 0 by lia.
Qed.

(** ** Lists of entries *)

Lemma filter_live_id l : Forall (fun e => e_live e = true) l → List.filter e_live l = l.
Proof. induction 1 as [|e l He _ IH]; [done|]. simpl. by rewrite He, IH. Qed.

Lemma abs_live q : Forall (fun e => e_live e = true) (ring_abs q).
Proof.
  apply Forall_forall. intros e He. apply list_elem_of_In, List.filter_In in He. tauto.
Qed.

(** Settling from the front, over tombstones. *)
Fixpoint settle_front (e : fc_queue_ent) (l : list fc_queue_ent) : list fc_queue_ent :=
  match l with
  | [] => [e]
  | x :: l' =>
      if e_live x && (e_enqueue_ns x >=? e_enqueue_ns e) then e :: l else x :: settle_front e l'
  end.
Fixpoint settle_ix (e : fc_queue_ent) (l : list fc_queue_ent) : nat :=
  match l with
  | [] => 0
  | x :: l' => if e_live x && (e_enqueue_ns x >=? e_enqueue_ns e) then 0 else S (settle_ix e l')
  end.
Fixpoint settle_rev (e : fc_queue_ent) (l : list fc_queue_ent) : list fc_queue_ent :=
  match l with
  | [] => [e]
  | x :: l' =>
      if e_live x && (e_enqueue_ns x <=? e_enqueue_ns e) then e :: l else x :: settle_rev e l'
  end.

Lemma settle_front_live e l :
  e_live e = true → List.filter e_live (settle_front e l) = ins_front e (List.filter e_live l).
Proof.
  intros He. induction l as [|x l IH]; simpl; [by rewrite He|].
  destruct (e_live x) eqn:Ex; simpl.
  - case_test; simpl; [by rewrite He, Ex|]. by rewrite Ex, IH.
  - by rewrite Ex, IH.
Qed.

Lemma settle_rev_live e l :
  e_live e = true → List.filter e_live (settle_rev e l) = ins_rev e (List.filter e_live l).
Proof.
  intros He. induction l as [|x l IH]; simpl; [by rewrite He|].
  destruct (e_live x) eqn:Ex; simpl.
  - case_test; simpl; [by rewrite He, Ex|]. by rewrite Ex, IH.
  - by rewrite Ex, IH.
Qed.

Lemma filter_rev_live l : List.filter e_live (rev l) = rev (List.filter e_live l).
Proof.
  induction l as [|x l IH]; [done|]. simpl. rewrite List.filter_app, IH. simpl.
  destruct (e_live x); simpl; [done|by rewrite app_nil_r].
Qed.

Lemma settle_front_perm e l : settle_front e l ≡ₚ e :: l.
Proof.
  induction l as [|x l IH]; simpl; [done|]. case_test; [done|]. rewrite IH. apply perm_swap.
Qed.
Lemma settle_rev_perm e l : settle_rev e l ≡ₚ e :: l.
Proof.
  induction l as [|x l IH]; simpl; [done|]. case_test; [done|]. rewrite IH. apply perm_swap.
Qed.
Lemma ins_front_perm e l : ins_front e l ≡ₚ e :: l.
Proof.
  induction l as [|x l IH]; simpl; [done|]. case_test; [done|]. rewrite IH. apply perm_swap.
Qed.
Lemma ins_rev_perm e l : ins_rev e l ≡ₚ e :: l.
Proof.
  induction l as [|x l IH]; simpl; [done|]. case_test; [done|]. rewrite IH. apply perm_swap.
Qed.
Lemma ins_back_perm e l : ins_back e l ≡ₚ e :: l.
Proof.
  unfold ins_back. rewrite <- Permutation_rev, ins_rev_perm. by rewrite <- Permutation_rev.
Qed.
Lemma abs_insert_perm front ordered e l : abs_insert front ordered e l ≡ₚ e :: l.
Proof.
  unfold abs_insert. destruct front; [apply ins_front_perm|]. destruct ordered; [apply ins_back_perm|].
  symmetry. apply Permutation_cons_append.
Qed.

(** ** The swap loops *)

(** What a swap loop promises: the span becomes [L], the entry sits in the
    slot returned, and nothing outside the span is touched. *)
Record settled (cap head : Z) (ring ring' : list fc_queue_ent) (n : nat) (slot : Z)
    (e : fc_queue_ent) (L : list fc_queue_ent) : Prop := {
  st_len : zlen ring' = zlen ring;
  st_span : span_of cap head ring' n = L;
  st_slot : ∃ j, (j < n)%nat ∧ slot = ring_pos cap head j;
  st_ent : zget ring' slot = e;
  st_out : ∀ i, 0 ≤ i → (∀ k, (k < n)%nat → i ≠ ring_pos cap head k) →
    zget ring' i = zget ring i
}.

Lemma insert_mid {A} (P : list A) x y S : <[length P := y]> (P ++ x :: S) = P ++ y :: S.
Proof. induction P as [|z P IH]; [done|]. simpl. by rewrite IH. Qed.
Lemma insert_mid_next {A} (P : list A) x y z S :
  <[(1 + length P)%nat := z]> (P ++ x :: y :: S) = P ++ x :: z :: S.
Proof. induction P as [|w P IH]; [done|]. simpl in *. by rewrite IH. Qed.

Lemma span_swap cap head ring P x y S :
  0 ≤ head < cap → zlen ring = cap → Z.of_nat (length (P ++ x :: y :: S)) ≤ cap →
  span_of cap head ring (length (P ++ x :: y :: S)) = P ++ x :: y :: S →
  let a := ring_pos cap head (length P) in
  let b := ring_pos cap head (1 + length P) in
  zget ring a = x ∧ zget ring b = y ∧
  span_of cap head (zset (zset ring b x) a y) (length (P ++ x :: y :: S)) = P ++ y :: x :: S ∧
  span_of cap head (zset (zset ring a y) b x) (length (P ++ x :: y :: S)) = P ++ y :: x :: S ∧
  0 ≤ a < cap ∧ 0 ≤ b < cap.
Proof.
  intros Hh Hr Hn Hs a b. set (n := length (P ++ x :: y :: S)) in *.
  assert (Hlen : (n = length P + 2 + length S)%nat).
  { unfold n. rewrite length_app. simpl. lia. }
  assert (zget ring a = x ∧ zget ring b = y) as [Ha Hb].
  { assert (span_of cap head ring n !! length P = Some x ∧
      span_of cap head ring n !! (1 + length P)%nat = Some y) as [Hx Hy].
    { rewrite Hs. split; [by apply list_lookup_middle|].
      rewrite lookup_app_r by lia. by replace (1 + length P - length P)%nat with 1%nat by lia. }
    rewrite span_lookup in Hx, Hy by lia. by simplify_eq. }
  split; [done|]. split; [done|]. unfold a, b.
  split; [|split; [|split; apply ring_pos_bound; lia]].
  - rewrite !span_set by (rewrite ?zlen_zset; lia). by rewrite Hs, insert_mid_next, insert_mid.
  - rewrite !span_set by (rewrite ?zlen_zset; lia). by rewrite Hs, insert_mid, insert_mid_next.
Qed.

Lemma span_mid cap head ring P e S :
  span_of cap head ring (length (P ++ e :: S)) = P ++ e :: S →
  zget ring (ring_pos cap head (length P)) = e.
Proof.
  intros Hs. assert (span_of cap head ring (length (P ++ e :: S)) !! length P = Some e) as He.
  { rewrite Hs. by apply list_lookup_middle. }
  rewrite span_lookup in He by (rewrite length_app; simpl; lia). by simplify_eq.
Qed.

Lemma settled_here cap head ring P e S :
  span_of cap head ring (length (P ++ e :: S)) = P ++ e :: S →
  settled cap head ring ring (length (P ++ e :: S)) (ring_pos cap head (length P)) e (P ++ e :: S).
Proof.
  intros Hs. split; [done|done| |by eapply span_mid|done].
  exists (length P). split; [rewrite length_app; simpl; lia|done].
Qed.

(** A swap followed by a settled loop is settled. *)
Lemma settled_swap cap head ring a b x y ring' n slot e L :
  (∃ j, (j < n)%nat ∧ a = ring_pos cap head j) → (∃ j, (j < n)%nat ∧ b = ring_pos cap head j) →
  0 ≤ a → 0 ≤ b →
  settled cap head (zset (zset ring b x) a y) ring' n slot e L →
  settled cap head ring ring' n slot e L.
Proof.
  intros (ja & ? & Hja) (jb & ? & Hjb) ? ? []. split; try done.
  - by rewrite st_len0, !zlen_zset.
  - intros i Hi Hout. rewrite st_out0 by done.
    assert (i ≠ a) by (subst a; by apply Hout). assert (i ≠ b) by (subst b; by apply Hout).
    by rewrite !zget_zset_ne by lia.
Qed.

Lemma bubble_front_spec q ring P e S :
  0 ≤ q_head q < q_cap q → zlen ring = q_cap q →
  Z.of_nat (length (P ++ e :: S)) ≤ q_cap q →
  span_of (q_cap q) (q_head q) ring (length (P ++ e :: S)) = P ++ e :: S →
  let '(ring', slot) :=
    bubble_front q (length S) ring (ring_pos (q_cap q) (q_head q) (length P)) in
  settled (q_cap q) (q_head q) ring ring' (length (P ++ e :: S)) slot e (P ++ settle_front e S).
Proof.
  intros Hh. revert ring P. induction S as [|x S IH]; intros ring P Hr Hn Hs; simpl.
  { by apply settled_here. }
  assert (Hl : (length (P ++ e :: x :: S) = length P + 2 + length S)%nat)
    by (rewrite length_app; simpl; lia).
  destruct (span_swap _ _ ring P e x S Hh Hr Hn Hs) as (He & Hx & Hsw & _ & Ha & Hb).
  unfold fc_ring_wrap. rewrite ring_pos_succ by lia. simpl in *. rewrite He, Hx.
  case_test; [by apply settled_here|].
  set (ring1 := zset _ _ _) in *.
  specialize (IH ring1 (P ++ [x])). rewrite <- app_assoc in IH. simpl in IH.
  replace (length (P ++ x :: e :: S)) with (length (P ++ e :: x :: S)) in IH
    by (rewrite !length_app; simpl; lia).
  replace (length (P ++ [x])) with (Datatypes.S (length P)) in IH by (rewrite length_app; simpl; lia).
  assert (zlen ring1 = q_cap q) as Hr1 by (unfold ring1; by rewrite !zlen_zset).
  specialize (IH Hr1 Hn Hsw). destruct (bubble_front _ _ _ _) as [ring' slot].
  rewrite <- app_assoc in IH. simpl in IH. eapply settled_swap; [..|exact IH]; try lia.
  - exists (length P). split; [lia|done].
  - exists (Datatypes.S (length P)). split; [lia|done].
Qed.

Lemma bubble_back_spec q k ring R e T :
  0 ≤ q_head q < q_cap q → zlen ring = q_cap q → (length R ≤ k)%nat →
  Z.of_nat (length (rev R ++ e :: T)) ≤ q_cap q →
  span_of (q_cap q) (q_head q) ring (length (rev R ++ e :: T)) = rev R ++ e :: T →
  let '(ring', slot) :=
    bubble_back q k ring (ring_pos (q_cap q) (q_head q) (length R)) in
  settled (q_cap q) (q_head q) ring ring' (length (rev R ++ e :: T)) slot e
    (rev (settle_rev e R) ++ T).
Proof.
  intros Hh. revert k ring T. induction R as [|x R IH]; intros k ring T Hr Hk Hn Hs.
  { simpl in *. pose proof (settled_here _ _ ring [] e T Hs) as Hset. simpl in Hset.
    rewrite ring_pos_0 in * by done. destruct k; simpl; [done|]. by rewrite Z.eqb_refl. }
  destruct k as [|k]; [simpl in Hk; lia|]. cbn [rev] in *. rewrite <- app_assoc in *. simpl app in *.
  assert (Hl : (length (rev R ++ x :: e :: T) = length R + 2 + length T)%nat)
    by (rewrite length_app, length_rev; simpl; lia).
  pose proof (span_swap _ _ ring (rev R) x e T Hh Hr Hn Hs) as Hsp.
  rewrite length_rev in Hsp. simpl in Hsp. destruct Hsp as (Hx & He & _ & Hsw & Ha & Hb).
  cbn [bubble_back length]. set (b := ring_pos _ _ (S (length R))) in *.
  destruct (b =? q_head q) eqn:E0; zbool.
  { exfalso. rewrite <- (ring_pos_0 (q_cap q) (q_head q) Hh) in E0. apply ring_pos_inj in E0; lia. }
  replace (if b =? 0 then q_cap q - 1 else b - 1) with (ring_pos (q_cap q) (q_head q) (length R)).
  2:{ unfold b. symmetry. apply (ring_pos_pred (q_cap q) (q_head q) (length R)); lia. }
  rewrite He, Hx. cbn [settle_rev].
  destruct (e_live x && (e_enqueue_ns x <=? e_enqueue_ns e)) eqn:Ec.
  { cbn [rev]. rewrite <- !app_assoc. simpl.
    pose proof (settled_here (q_cap q) (q_head q) ring (rev R ++ [x]) e T) as Hset.
    rewrite <- app_assoc in Hset. simpl in Hset.
    replace (length (rev R ++ [x])) with (S (length R)) in Hset
      by (rewrite length_app, length_rev; simpl; lia). by apply Hset. }
  specialize (IH k (zset (zset ring (ring_pos (q_cap q) (q_head q) (length R)) e) b x) (x :: T)).
  replace (length (rev R ++ e :: x :: T)) with (length (rev R ++ x :: e :: T)) in IH
    by (rewrite !length_app; simpl; lia).
  rewrite !zlen_zset in IH. specialize (IH Hr ltac:(simpl in Hk; lia) Hn Hsw).
  destruct (bubble_back _ _ _ _) as [ring' slot]. cbn [rev]. rewrite <- app_assoc. simpl.
  eapply settled_swap; [..|exact IH]; try lia.
  - exists (S (length R)). split; [lia|done].
  - exists (length R). split; [lia|done].
Qed.

(** ** Permutation-invariant parts of the invariant *)

Lemma zlen_perm {A} (l k : list A) : l ≡ₚ k → zlen l = zlen k.
Proof. intros H. unfold zlen. by rewrite H. Qed.

Lemma zcount_perm {A} (P : A → bool) l k : l ≡ₚ k → zcount P l = zcount P k.
Proof. induction 1; simpl; lia. Qed.

Lemma earliest_perm d l k : l ≡ₚ k → earliest_deadline d l → earliest_deadline d k.
Proof.
  intros Hp [[? Hz]|(? & (e & ? & ?) & Hm)]; [left|right]; split; try done.
  - intros e He. apply Hz. by rewrite Hp.
  - split; [exists e; by rewrite <- Hp|]. intros e' He'. apply Hm. by rewrite Hp.
Qed.

(** The queue fields no ring operation touches. *)
Definition q_same (q q' : fc_queue) : Prop :=
  q_drr_credit q' = q_drr_credit q ∧ q_rr_next q' = q_rr_next q ∧
  q_dead q' = q_dead q ∧ q_evicted q' = q_evicted q.

Lemma q_same_refl q : q_same q q.
Proof. done. Qed.
Lemma q_same_trans q1 q2 q3 : q_same q1 q2 → q_same q2 q3 → q_same q1 q3.
Proof. intros (? & ? & ? & ?) (? & ? & ? & ?). repeat split; congruence. Qed.
#[export] Hint Resolve q_same_refl : lxb.

(** Per-band counts of a list of entries. *)
Definition bands_of (l : list fc_queue_ent) : arr3 Z :=
  Arr3 0 (zcount (fun e => e_band e =? 1) l) (zcount (fun e => e_band e =? 2) l).

Lemma bands_of_get l b :
  fc_band_counted b = true → aget (bands_of l) b = zcount (fun e => e_band e =? b) l.
Proof.
  unfold fc_band_counted, FC_BAND_CRITICAL, FC_BAND_SHEDDABLE. intros Hb.
  apply orb_true_iff in Hb as [Hb|Hb]; zbool; by subst.
Qed.

Lemma bands_of_snoc q l e :
  q_band_count (fc_ring_band_add (q <| q_band_count := bands_of l |>) (e_band e)) =
  bands_of (l ++ [e]).
Proof.
  unfold fc_ring_band_add, bands_of, fc_band_counted, FC_BAND_CRITICAL, FC_BAND_SHEDDABLE.
  rewrite !zcount_app. simpl.
  destruct (e_band e =? 1) eqn:E1, (e_band e =? 2) eqn:E2; zbool; try lia; simpl;
    unfold amod, aset, aget; rewrite ?E1, ?E2; simpl; f_equal; lia || idtac.
  all: destruct (e_band e =? 1) eqn:E3, (e_band e =? 2) eqn:E4; zbool; try lia; simpl; f_equal; lia.
Qed.

(** ** Re-laying the ring *)

Lemma relayout_loop q dst_cap sl A :
  let E := List.filter e_live ((fun i => zget (q_ring q) i) <$> sl) in
  zlen A + zlen E ≤ dst_cap →
  foldl (fun '(n, dst, bc) i =>
      let e := zget (q_ring q) i in
      if e_live e && (n <? dst_cap)
      then (n + 1, zset dst n e,
            q_band_count (fc_ring_band_add (q <| q_band_count := bc |>) (e_band e)))
      else (n, dst, bc))
    (zlen A, A ++ zrep (dst_cap - zlen A) fc_ent_zero, bands_of A) sl
  = (zlen (A ++ E), (A ++ E) ++ zrep (dst_cap - zlen (A ++ E)) fc_ent_zero, bands_of (A ++ E)).
Proof.
  revert A. induction sl as [|i sl IH]; intros A E HE.
  { unfold E. simpl. by rewrite app_nil_r. }
  unfold E in *. clear E. cbn [foldl fmap list_fmap List.filter] in *.
  destruct (e_live (zget (q_ring q) i)) eqn:El.
  - rewrite zlen_cons in HE. pose proof (zlen_nonneg (List.filter e_live ((fun i => zget (q_ring q) i) <$> sl))).
    rewrite (proj2 (Z.ltb_lt _ _)) by lia. cbn [andb].
    rewrite bands_of_snoc. set (e := zget (q_ring q) i) in *.
    replace (zset (A ++ zrep (dst_cap - zlen A) fc_ent_zero) (zlen A) e)
      with ((A ++ [e]) ++ zrep (dst_cap - zlen (A ++ [e])) fc_ent_zero).
    2:{ rewrite zlen_app, zlen_cons. unfold zrep.
        replace (Z.to_nat (dst_cap - zlen A)) with (S (Z.to_nat (dst_cap - (zlen A + (1 + zlen (@nil fc_queue_ent))))))
          by (unfold zlen in *; simpl in *; lia).
        simpl replicate. unfold zset, zlen. rewrite Nat2Z.id, insert_mid, <- app_assoc. done. }
    replace (zlen A + 1) with (zlen (A ++ [e])) by (rewrite zlen_app, zlen_cons; unfold zlen; simpl; lia).
    rewrite IH by (rewrite zlen_app, zlen_cons; unfold zlen in *; simpl; lia).
    by rewrite <- !app_assoc.
  - cbn [andb]. by apply IH.
Qed.

Lemma span_of_prefix cap l k :
  zlen (l ++ k) = cap → span_of cap 0 (l ++ k) (length l) = l.
Proof.
  intros Hc. apply list_eq. intros j. destruct (decide (j < length l)%nat).
  - rewrite span_lookup by done. unfold ring_pos. unfold zlen in Hc. rewrite length_app in Hc.
    destruct (0 + Z.of_nat j >=? cap) eqn:E; zbool; [lia|].
    unfold zget. rewrite Z.add_0_l, Nat2Z.id, list_lookup_total_alt, lookup_app_l by done.
    by destruct (lookup_lt_is_Some_2 l j ltac:(done)) as [? ->].
  - rewrite !lookup_ge_None_2; [done|lia|rewrite length_span; lia].
Qed.

Lemma relayout_wf q dst_cap :
  ring_geom q → 0 < dst_cap → zlen (ring_abs q) ≤ dst_cap ≤ FC_QUEUE_DEPTH_MAX →
  earliest_deadline (q_next_deadline_ns q) (ring_abs q) →
  let q' := fc_ring_relayout q dst_cap in
  ring_wf q' ∧ ring_abs q' = ring_abs q ∧ q_same q q' ∧ q_cap q' = dst_cap ∧
  q_used q' = zlen (ring_abs q).
Proof.
  intros Hg Hpos Hc Hd. unfold fc_ring_relayout.
  pose proof (relayout_loop q dst_cap (ring_walk q) []) as HL. cbn zeta in HL.
  rewrite ring_walk_span in HL by done. change (zlen []) with 0 in HL. fold (ring_abs q) in HL.
  simpl app in HL. rewrite Z.sub_0_r in HL. change (bands_of []) with azero in HL.
  rewrite HL by lia. clear HL. set (L := ring_abs q) in *. cbn zeta.
  set (q' := field_set _ _ _).
  assert (HE : L ++ zrep (dst_cap - zlen L) fc_ent_zero = q_ring q') by done.
  assert (Hlen : zlen (q_ring q') = dst_cap) by (rewrite <- HE, zlen_app, zlen_zrep by lia; lia).
  assert (Hspan : ring_span q' = L).
  { unfold ring_span. rewrite <- HE. replace (Z.to_nat (q_used q')) with (length L) by (unfold q', zlen; simpl; lia).
    apply (span_of_prefix dst_cap). by rewrite HE. }
  assert (Habs : ring_abs q' = L).
  { unfold ring_abs. rewrite Hspan. apply filter_live_id. apply abs_live. }
  split; [|done]. split.
  - split.
    + done.
    + unfold q'; simpl; lia.
    + unfold q'; simpl; lia.
    + unfold q'; simpl. pose proof (zlen_nonneg L). lia.
    + intros _. unfold q'; simpl. unfold ring_pos. rewrite Z.add_0_l, Z2Nat.id by (apply zlen_nonneg).
      repeat case_test; zbool; lia.
    + intros i Hi Hlive. change (q_cap q') with dst_cap in *. exists (Z.to_nat i).
      rewrite <- HE in Hlive. destruct (decide (i < zlen L)).
      * split; [unfold q'; simpl; lia|]. unfold ring_pos. change (q_head q') with 0.
        case_test; zbool; lia.
      * rewrite zget_app_r, zget_zrep in Hlive by lia. done.
  - by rewrite Habs.
  - intros b Hb. rewrite Habs. by apply bands_of_get.
  - by rewrite Habs.
Qed.

(** ** Making room *)

Lemma abs_le_used q : ring_geom q → zlen (ring_abs q) ≤ q_used q.
Proof.
  intros []. unfold ring_abs, zlen.
  pose proof (List.filter_length_le e_live (ring_span q)) as Hf.
  unfold ring_span in *. rewrite length_span in Hf. lia.
Qed.

Lemma grow_wf calloc q want :
  ring_wf q → 0 < q_cap q →
  let q' := fc_ring_grow calloc q want in
  ring_wf q' ∧ ring_abs q' = ring_abs q ∧ q_same q q' ∧ q_cap q ≤ q_cap q'.
Proof.
  intros Hwf Hpos. pose proof Hwf as [Hg]. unfold fc_ring_grow.
  pose proof (abs_le_used q Hg). pose proof (rg_used _ Hg). pose proof (rg_cap _ Hg).
  set (w := if want >? _ then _ else _).
  assert (w ≤ FC_QUEUE_DEPTH_MAX) by (unfold w; case_test; zbool; lia).
  destruct (w <=? q_cap q) eqn:Ew; [split_and!; try done; lia|]. zbool.
  destruct (calloc w); simpl; [|split_and!; try done; lia].
  destruct (q_ring q) as [|x r] eqn:Er; [unfold zlen in *; simpl in *; lia|].
  destruct (relayout_wf q w Hg ltac:(lia) ltac:(lia) (rw_deadline _ Hwf)) as (? & ? & ? & Hcap & _).
  rewrite Hcap. split_and!; try done; lia.
Qed.

(** The first ring of a pool. *)
Lemma grow_fresh_wf calloc q want :
  q_ring q = [] → q_cap q = 0 → ring_wf q →
  let q' := fc_ring_grow calloc q want in
  ring_wf q' ∧ ring_abs q' = ring_abs q ∧ q_same q q'.
Proof.
  intros Hr Hc Hwf. unfold fc_ring_grow. rewrite Hr, Hc.
  set (w := if want >? _ then _ else _).
  assert (w ≤ FC_QUEUE_DEPTH_MAX) by (unfold w; case_test; zbool; lia).
  destruct (w <=? 0) eqn:Ew; [done|]. zbool. destruct (calloc w); simpl; [|done].
  assert (ring_abs q = []) as Habs.
  { pose proof (abs_le_used q (rw_geom _ Hwf)). pose proof (rg_used _ (rw_geom _ Hwf)).
    destruct (ring_abs q); [done|]. unfold zlen in *; simpl in *; lia. }
  split; [|by rewrite Habs]. split.
  - split; simpl; try lia.
    + by rewrite zlen_zrep by lia.
    + unfold ring_pos. intros. by case_test; zbool; simpl; lia.
    + intros i Hi. by rewrite zget_zrep.
  - done.
  - intros b Hb. simpl. unfold aget. by repeat case_test.
  - simpl. pose proof (rw_deadline _ Hwf) as Hd. by rewrite Habs in Hd.
Qed.

Lemma compact_wf calloc q :
  ring_wf q → 0 < q_cap q →
  let q' := fc_ring_compact calloc q in
  ring_wf q' ∧ ring_abs q' = ring_abs q ∧ q_same q q' ∧ q_cap q' = q_cap q ∧
  (calloc (q_cap q) = true → q_used q' = zlen (ring_abs q)).
Proof.
  intros Hwf Hpos. pose proof Hwf as [Hg]. unfold fc_ring_compact.
  rewrite (proj2 (Z.eqb_neq _ 0)) by lia.
  pose proof (abs_le_used q Hg). pose proof (rg_used _ Hg). pose proof (rg_max _ Hg).
  destruct (calloc (q_cap q)); simpl; [|done].
  destruct (relayout_wf q (q_cap q) Hg Hpos ltac:(lia) (rw_deadline _ Hwf)) as (? & ? & ? & ? & ?).
  by split_and!.
Qed.

Lemma make_room_wf calloc q front :
  ring_wf q → 0 < q_cap q →
  let q' := ring_make_room calloc q front in
  ring_wf q' ∧ ring_abs q' = ring_abs q ∧ q_same q q' ∧ 0 < q_cap q'.
Proof.
  intros Hwf Hpos. unfold ring_make_room.
  set (q1 := if (_ >=? _) && (_ <? _) then _ else _).
  assert (ring_wf q1 ∧ ring_abs q1 = ring_abs q ∧ q_same q q1 ∧ q_cap q1 = q_cap q)
    as (? & Ha & ? & Hc).
  { unfold q1. case_test; [|done]. destruct (compact_wf calloc q) as (? & ? & ? & ? & _); done. }
  case_test; [|by rewrite Hc].
  destruct (grow_wf calloc q1 (q_cap q1 + (if q_cap q1 / 8 >? 16 then q_cap q1 / 8 else 16)))
    as (? & Ha' & ? & ?); [done|lia|].
  split; [done|]. split; [by rewrite Ha'|]. split; [by eapply q_same_trans|lia].
Qed.

(** ** Placing an entry *)

(** A queue whose ring is the outcome of a settled placement. *)
Lemma placed_geom cap head u ring0 ring' slot e L q' :
  0 ≤ head < cap → cap ≤ FC_QUEUE_DEPTH_MAX → zlen ring0 = cap → Z.of_nat (S u) ≤ cap →
  (∀ i, 0 ≤ i < cap → e_live (zget ring0 i) = true →
     ∃ k, (k < S u)%nat ∧ i = ring_pos cap head k) →
  settled cap head ring0 ring' (S u) slot e L →
  q_ring q' = ring' → q_cap q' = cap → q_head q' = head →
  q_tail q' = ring_pos cap head (S u) → q_used q' = Z.of_nat (S u) →
  ring_geom q' ∧ ring_span q' = L ∧ 0 ≤ slot < cap ∧ zget (q_ring q') slot = e.
Proof.
  intros Hh Hm Hl Hu Hdead [] Hr Hc Hhd Ht Hus.
  assert (ring_span q' = L) as Hspan.
  { unfold ring_span. by rewrite Hr, Hc, Hhd, Hus, Nat2Z.id. }
  split; [|split; [done|]].
  - split; rewrite ?Hr, ?Hc, ?Hhd, ?Hus, ?Nat2Z.id; try lia; try done.
    intros i Hi Hlive. destruct (decide (i ∈ ring_pos cap head <$> seq 0 (S u))) as [Hin|Hout].
    + apply list_elem_of_fmap in Hin as (k & -> & Hk). apply elem_of_seq in Hk. exists k. lia.
    + apply Hdead; [done|]. rewrite <- st_out0; [done|lia|]. intros k Hk ->.
      apply Hout, list_elem_of_fmap. exists k. split; [done|]. apply elem_of_seq. lia.
  - rewrite Hr. split; [|done]. destruct st_slot0 as (j & ? & ->). apply ring_pos_bound; lia.
Qed.

Lemma ring_pred_pos cap head :
  0 ≤ head < cap → ring_pred cap head = ring_pos cap head (Z.to_nat (cap - 1)).
Proof. unfold ring_pred, ring_pos. intros. repeat case_test; zbool; lia. Qed.

Section place.
Context (q : fc_queue) (le : fc_queue_ent).
Hypothesis Hg : ring_geom q.
Hypothesis Hpos : 0 < q_cap q.
Hypothesis Hfree : q_used q < q_cap q.

Lemma span_front :
  let h' := ring_pred (q_cap q) (q_head q) in
  span_of (q_cap q) h' (zset (q_ring q) h' le) (S (Z.to_nat (q_used q))) = le :: ring_span q.
Proof using Hg Hpos Hfree.
  pose proof Hg as [Hc _ [Hh0 Hh] Hu _ _]. specialize (Hh Hpos). intros h'.
  pose proof (ring_pred_bound (q_cap q) (q_head q) ltac:(lia)). fold h' in H.
  rewrite span_cons by lia. rewrite zget_zset_eq by lia. f_equal.
  unfold h' at 1. rewrite ring_pred_next by lia. unfold h'. rewrite ring_pred_pos by lia.
  apply span_set_out; lia.
Qed.

Lemma span_back :
  span_of (q_cap q) (q_head q) (zset (q_ring q) (q_tail q) le) (S (Z.to_nat (q_used q)))
  = ring_span q ++ [le].
Proof using Hg Hpos Hfree.
  pose proof Hg as [Hc _ [Hh0 Hh] Hu Ht _]. specialize (Hh Hpos). specialize (Ht Hpos).
  rewrite span_snoc, Ht, span_set_out by lia. unfold ring_span. do 2 f_equal.
  pose proof (ring_pos_bound (q_cap q) (q_head q) (Z.to_nat (q_used q)) ltac:(lia) ltac:(lia)).
  apply zget_zset_eq. lia.
Qed.

Lemma dead_front i :
  let h' := ring_pred (q_cap q) (q_head q) in
  0 ≤ i < q_cap q → e_live (zget (zset (q_ring q) h' le) i) = true →
  ∃ k, (k < S (Z.to_nat (q_used q)))%nat ∧ i = ring_pos (q_cap q) h' k.
Proof using Hg Hpos Hfree.
  pose proof Hg as [Hc _ [Hh0 Hh] Hu _ Hdead]. specialize (Hh Hpos). intros h' Hi Hlive.
  pose proof (ring_pred_bound (q_cap q) (q_head q) ltac:(lia)) as Hb. fold h' in Hb.
  destruct (decide (i = h')) as [->|Hne].
  { exists 0%nat. split; [lia|]. by rewrite ring_pos_0. }
  rewrite zget_zset_ne in Hlive by lia. destruct (Hdead i Hi Hlive) as (k & ? & ->).
  exists (S k). split; [lia|]. rewrite <- ring_pos_shift by lia. unfold h'. by rewrite ring_pred_next.
Qed.

Lemma dead_back i :
  0 ≤ i < q_cap q → e_live (zget (zset (q_ring q) (q_tail q) le) i) = true →
  ∃ k, (k < S (Z.to_nat (q_used q)))%nat ∧ i = ring_pos (q_cap q) (q_head q) k.
Proof using Hg Hpos Hfree.
  pose proof Hg as [Hc _ [Hh0 Hh] Hu Ht Hdead]. specialize (Hh Hpos). specialize (Ht Hpos).
  intros Hi Hlive.
  pose proof (ring_pos_bound (q_cap q) (q_head q) (Z.to_nat (q_used q)) ltac:(lia) ltac:(lia)) as Hb.
  rewrite <- Ht in Hb. destruct (decide (i = q_tail q)) as [->|Hne].
  { exists (Z.to_nat (q_used q)). split; [lia|done]. }
  rewrite zget_zset_ne in Hlive by lia. destruct (Hdead i Hi Hlive) as (k & ? & ->).
  exists k. split; [lia|done].
Qed.

(** What each way of placing the entry leaves in the span. *)
Definition span_insert (front ordered : bool) : list fc_queue_ent :=
  if front then settle_front le (ring_span q)
  else if ordered then rev (settle_rev le (rev (ring_span q))) else ring_span q ++ [le].

Lemma span_insert_live front ordered :
  e_live le = true →
  List.filter e_live (span_insert front ordered) = abs_insert front ordered le (ring_abs q).
Proof using Type.
  intros He. unfold span_insert, abs_insert, ins_back, ring_abs. destruct front, ordered.
  - by apply settle_front_live.
  - by apply settle_front_live.
  - by rewrite filter_rev_live, settle_rev_live, filter_rev_live.
  - rewrite List.filter_app. simpl. by rewrite He.
Qed.
End place.

Lemma place_front q e :
  ring_geom q → 0 < q_cap q → q_used q < q_cap q →
  let le := e <| e_live := true |> in
  let h' := ring_pred (q_cap q) (q_head q) in
  let r := ring_place q e true false in
  q_head (fst r) = h' ∧
  settled (q_cap q) h' (zset (q_ring q) h' le) (q_ring (fst r)) (S (Z.to_nat (q_used q)))
    (snd r) le (span_insert q le true false).
Proof.
  intros Hg Hpos Hu le h'. pose proof Hg as [Hc _ [Hh0 Hh] Hu' Ht _]. specialize (Hh Hpos).
  pose proof (span_front q le Hg Hpos Hu) as Hsp. cbn zeta in Hsp. fold h' in Hsp.
  assert (Hlen : length (ring_span q) = Z.to_nat (q_used q)) by (unfold ring_span; by rewrite length_span).
  pose proof (ring_pred_bound (q_cap q) (q_head q) ltac:(lia)) as Hb. fold h' in Hb.
  unfold ring_place. fold le. fold (ring_pred (q_cap q) (q_head q)). fold h'.
  pose proof (bubble_front_spec (q <| q_head := h' |>) (zset (q_ring q) h' le) [] le (ring_span q)) as HB.
  cbn [app length] in HB. simpl q_cap in HB. simpl q_head in HB. rewrite Hlen in HB.
  rewrite ring_pos_0 in HB by lia.
  specialize (HB ltac:(lia) ltac:(by rewrite zlen_zset) ltac:(lia) Hsp).
  simpl q_used. simpl q_ring. destruct (bubble_front _ _ _ _) as [ring' slot]. done.
Qed.

Lemma place_back q e ordered :
  ring_geom q → 0 < q_cap q → q_used q < q_cap q →
  let le := e <| e_live := true |> in
  let r := ring_place q e false ordered in
  q_head (fst r) = q_head q ∧
  q_tail (fst r) = ring_pos (q_cap q) (q_head q) (S (Z.to_nat (q_used q))) ∧
  settled (q_cap q) (q_head q) (zset (q_ring q) (q_tail q) le) (zset (q_ring (fst r)) (snd r) le)
    (S (Z.to_nat (q_used q))) (snd r) le (span_insert q le false ordered).
Proof.
  intros Hg Hpos Hu le. pose proof Hg as [Hc _ [Hh0 Hh] Hu' Ht _]. specialize (Hh Hpos). specialize (Ht Hpos).
  pose proof (span_back q le Hg Hpos Hu) as Hsp.
  assert (Hlen : length (ring_span q) = Z.to_nat (q_used q)) by (unfold ring_span; by rewrite length_span).
  assert (Hlen' : length (ring_span q ++ [le]) = S (Z.to_nat (q_used q))) by (rewrite length_app, Hlen; simpl; lia).
  assert (Htail : fc_ring_wrap q (q_tail q + 1) = ring_pos (q_cap q) (q_head q) (S (Z.to_nat (q_used q)))).
  { unfold fc_ring_wrap. rewrite Ht. apply ring_pos_succ; lia. }
  unfold ring_place. fold le. destruct ordered.
  - set (q1 := q <| q_tail := _ |>). 
    pose proof (bubble_back_spec q1 (Z.to_nat (q_cap q)) (zset (q_ring q) (q_tail q) le)
      (rev (ring_span q)) le []) as HB.
    rewrite rev_involutive, length_rev, Hlen, Hlen' in HB. simpl q_cap in HB. simpl q_head in HB.
    rewrite <- Ht in HB. rewrite app_nil_r in HB.
    specialize (HB ltac:(lia) ltac:(by rewrite zlen_zset) ltac:(lia) ltac:(lia) Hsp).
    simpl q_ring. simpl q_cap. destruct (bubble_back _ _ _ _) as [ring' slot]. cbn [fst snd].
    split; [done|]. split; [done|]. simpl q_ring. destruct HB.
    assert (zset ring' slot le = ring') as ->.
    { apply zset_same; [done|]. rewrite st_len0, zlen_zset, <- Hc. destruct st_slot0 as (j & ? & ->).
      apply ring_pos_bound; lia. }
    by split.
  - cbn [fst snd]. split; [done|]. split; [done|]. simpl q_ring.
    pose proof (settled_here (q_cap q) (q_head q) (zset (q_ring q) (q_tail q) le) (ring_span q) le []) as HS.
    rewrite Hlen', Hlen, <- Ht in HS. by apply HS.
Qed.

Lemma place_fields q e front ordered :
  let q1 := fst (ring_place q e front ordered) in
  q_same q q1 ∧ q_cap q1 = q_cap q ∧ q_used q1 = q_used q ∧ q_count q1 = q_count q ∧
  q_band_count q1 = q_band_count q ∧ q_next_deadline_ns q1 = q_next_deadline_ns q ∧
  (front = true → q_tail q1 = q_tail q).
Proof.
  unfold ring_place. destruct front; [|destruct ordered].
  - by destruct (bubble_front _ _ _ _).
  - by destruct (bubble_back _ _ _ _).
  - done.
Qed.

Lemma place_spec q e front ordered :
  ring_geom q → 0 < q_cap q → q_used q < q_cap q →
  let r := ring_place q e front ordered in
  let le := e <| e_live := true |> in
  let q' := (fst r) <| q_ring ::= (fun r' => zset r' (snd r) le) |> <| q_used ::= Z.add 1 |> in
  ring_geom q' ∧ ring_abs q' = abs_insert front ordered le (ring_abs q) ∧
  0 ≤ snd r < q_cap q ∧ zget (q_ring q') (snd r) = le.
Proof.
  intros Hg Hpos Hu r le q'. pose proof Hg as [Hc Hm [Hh0 Hh] Hu' Ht _]. specialize (Hh Hpos). specialize (Ht Hpos).
  destruct (place_fields q e front ordered) as (_ & Hcap & Hused & _ & _ & _ & Htail).
  fold r in Hcap, Hused, Htail.
  assert (ring_geom q' ∧ ring_span q' = span_insert q le front ordered ∧
    0 ≤ snd r < q_cap q ∧ zget (q_ring q') (snd r) = le) as (? & Hsp & ? & ?);
    [|split; [done|]; split; [|done]; unfold ring_abs; rewrite Hsp; by apply span_insert_live].
  destruct front.
  - assert (r = ring_place q e true false) as Hr by done.
    destruct (place_front q e Hg Hpos Hu) as [Hhd Hset]. rewrite <- Hr in Hhd, Hset.
    pose proof (ring_pred_bound (q_cap q) (q_head q) ltac:(lia)).
    eapply placed_geom; [..|exact Hset| | | | |]; try done.
    + by rewrite zlen_zset.
    + lia.
    + by apply dead_front.
    + unfold q'. simpl. apply zset_same; [apply Hset|]. destruct Hset.
      rewrite st_len0, zlen_zset, <- Hc. destruct st_slot0 as (j & ? & ->). apply ring_pos_bound; lia.
    + unfold q'. simpl q_tail. rewrite Htail, Ht by done.
      rewrite <- ring_pos_shift by lia. by rewrite ring_pred_next by lia.
    + unfold q'. simpl. lia.
  - destruct (place_back q e ordered Hg Hpos Hu) as (Hhd & Htl & Hset).
    eapply placed_geom; [..|exact Hset| | | | |]; try done.
    + by rewrite zlen_zset.
    + lia.
    + by apply dead_back.
    + unfold q'. simpl. lia.
Qed.

(** ** The earliest deadline *)

(** fc_ring_deadline_add on the word alone. *)
Definition dl_min (m d : Z) : Z :=
  if negb (d =? 0) && ((m =? 0) || (d <? m)) then d else m.

Lemma earliest_snoc m l e :
  earliest_deadline m l → earliest_deadline (dl_min m (e_deadline_ns e)) (l ++ [e]).
Proof.
  intros Hm. unfold dl_min. set (d := e_deadline_ns e).
  assert (∀ x, x ∈ l ++ [e] ↔ x ∈ l ∨ x = e) as Hin by set_solver.
  destruct Hm as [[-> Hz]|(Hm0 & (x & Hx & Hxd) & Hm)].
  - destruct (d =? 0) eqn:Ed; zbool; simpl.
    + left. split; [done|]. intros y [Hy| ->]%Hin; [by apply Hz|done].
    + right. split; [done|]. split; [exists e; set_solver|].
      intros y [Hy| ->]%Hin Hnz; [by rewrite Hz in Hnz|unfold d; lia].
  - rewrite (proj2 (Z.eqb_neq m 0)) by done. simpl.
    destruct (d =? 0) eqn:Ed; zbool; simpl.
    + right. split; [done|]. split; [exists x; set_solver|].
      intros y [Hy| ->]%Hin Hnz; [by apply Hm|done].
    + destruct (d <? m) eqn:Edm; zbool; right; (split; [done|]); (split; [|intros y [Hy| ->]%Hin Hnz]).
      * exists e; set_solver.
      * specialize (Hm y Hy Hnz). lia.
      * unfold d; lia.
      * exists x; set_solver.
      * by apply Hm.
      * unfold d in *; lia.
Qed.

Lemma rescan_loop q sl m A :
  earliest_deadline m A →
  earliest_deadline
    (foldl (fun m i =>
       let e := zget (q_ring q) i in
       if e_live e && negb (e_deadline_ns e =? 0) && ((m =? 0) || (e_deadline_ns e <? m))
       then e_deadline_ns e else m) m sl)
    (A ++ List.filter e_live ((fun i => zget (q_ring q) i) <$> sl)).
Proof.
  revert m A. induction sl as [|i sl IH]; intros m A Hm; simpl; [by rewrite app_nil_r|].
  destruct (e_live (zget (q_ring q) i)) eqn:El; cbn [andb].
  - pose proof (IH _ _ (earliest_snoc m A (zget (q_ring q) i) Hm)) as IH'.
    rewrite <- app_assoc in IH'. exact IH'.
  - by apply IH.
Qed.

Lemma rescan_spec q :
  ring_geom q → earliest_deadline (q_next_deadline_ns (fc_ring_deadline_rescan q)) (ring_abs q).
Proof.
  intros Hg. unfold fc_ring_deadline_rescan. simpl. destruct (q_cap q =? 0) eqn:Ec; zbool.
  - assert (ring_abs q = []) as ->; [|left; set_solver].
    pose proof (abs_le_used q Hg). pose proof (rg_used _ Hg).
    destruct (ring_abs q); [done|]. rewrite zlen_cons in *. pose proof (zlen_nonneg l). lia.
  - pose proof (rescan_loop q (ring_walk q) 0 []) as HL. rewrite ring_walk_span in HL by done.
    apply HL. left. set_solver.
Qed.

(** Removing an entry. *)
Lemma gone_spec q l1 x l2 :
  ring_geom q → ring_abs q = l1 ++ l2 →
  earliest_deadline (q_next_deadline_ns q) (l1 ++ x :: l2) →
  earliest_deadline (q_next_deadline_ns (fc_ring_deadline_gone q (e_deadline_ns x))) (ring_abs q).
Proof.
  intros Hg Habs Hd. unfold fc_ring_deadline_gone. case_test; [by apply rescan_spec|].
  rewrite Habs. destruct Hd as [[-> Hz]|(Hnz & (y & Hy & Hyd) & Hm)]; [left|right]; (split; [done|]).
  - intros e He. apply Hz. set_solver.
  - split; [|intros e He; apply Hm; set_solver]. exists y. split; [|done].
    apply andb_false_iff in E as [E|E]; zbool; [|].
    + assert (y ≠ x) by congruence. set_solver.
    + assert (y ≠ x) by congruence. set_solver.
Qed.

Lemma gone_fields q d :
  let q' := fc_ring_deadline_gone q d in
  q_ring q' = q_ring q ∧ q_cap q' = q_cap q ∧ q_head q' = q_head q ∧ q_tail q' = q_tail q ∧
  q_used q' = q_used q ∧ q_count q' = q_count q ∧ q_band_count q' = q_band_count q ∧ q_same q q'.
Proof. unfold fc_ring_deadline_gone. by case_test. Qed.

(** Queues that agree on the ring represent the same list. *)
Lemma geom_same q q' :
  q_ring q' = q_ring q → q_cap q' = q_cap q → q_head q' = q_head q → q_tail q' = q_tail q →
  q_used q' = q_used q → ring_geom q → ring_geom q' ∧ ring_abs q' = ring_abs q.
Proof.
  intros Hr Hc Hh Ht Hu []. unfold ring_abs, ring_span. rewrite Hr, Hc, Hh, Hu.
  split; [|done]. split; by rewrite ?Hr, ?Hc, ?Hh, ?Ht, ?Hu.
Qed.

(** ** Insertion refines insertion in the list *)

Lemma band_add_spec q l e :
  (∀ b, fc_band_counted b = true → aget (q_band_count q) b = zcount (fun x => e_band x =? b) l) →
  ∀ b, fc_band_counted b = true →
    aget (q_band_count (fc_ring_band_add q (e_band e))) b = zcount (fun x => e_band x =? b) (e :: l).
Proof.
  intros Hb b Hc. unfold fc_ring_band_add. simpl zcount. specialize (Hb b Hc).
  destruct (fc_band_counted (e_band e)) eqn:Ee; simpl.
  - unfold amod. rewrite aget_aset. destruct (e_band e =? b) eqn:Eb; zbool.
    + subst b. rewrite decide_True by done. simpl. lia.
    + rewrite decide_False; [simpl; lia|]. revert Hc Ee Eb.
      unfold fc_band_counted, FC_BAND_CRITICAL, FC_BAND_SHEDDABLE, aidx. repeat case_test; zbool; lia.
  - destruct (e_band e =? b) eqn:Eb; zbool; [congruence|]. simpl. lia.
Qed.

Lemma deadline_add_eq q d :
  q_next_deadline_ns (fc_ring_deadline_add q d) = dl_min (q_next_deadline_ns q) d.
Proof. unfold fc_ring_deadline_add, dl_min. by case_test. Qed.

Lemma insert_refines calloc q e front ordered :
  ring_wf q →
  let r := fc_ring_insert calloc q e front ordered in
  let le := e <| e_live := true |> in
  ring_wf (fst r) ∧ q_same q (fst r) ∧
  match snd r with
  | Some slot =>
      ring_abs (fst r) = abs_insert front ordered le (ring_abs q) ∧
      0 ≤ slot < q_cap (fst r) ∧ zget (q_ring (fst r)) slot = le
  | None => ring_abs (fst r) = ring_abs q
  end.
Proof.
  intros Hwf r le. unfold r, fc_ring_insert. destruct (q_cap q =? 0) eqn:Ec; [done|]. zbool.
  pose proof (rg_cap _ (rw_geom _ Hwf)). pose proof (zlen_nonneg (q_ring q)).
  destruct (make_room_wf calloc q front Hwf ltac:(lia)) as (Hwf1 & Habs1 & Hs1 & Hpos1).
  set (q1 := ring_make_room calloc q front) in *.
  destruct (q_used q1 >=? q_cap q1) eqn:Eu; [done|]. zbool. rewrite <- Habs1.
  destruct (place_spec q1 e front ordered (rw_geom _ Hwf1) Hpos1 Eu) as (Hg2 & Habs2 & Hslot & Hent).
  destruct (place_fields q1 e front ordered) as (Hs2 & Hcap & _ & Hcnt & Hbc & Hnd & _).
  destruct (ring_place q1 e front ordered) as [q2 slot]. cbn [fst snd] in *. fold le in Hg2, Habs2, Hent |- *.
  set (q3 := q2 <| q_ring ::= _ |> <| q_used ::= _ |>) in *.
  set (q4 := q3 <| q_count ::= Z.add 1 |>).
  set (q5 := fc_ring_band_add q4 (e_band e)).
  assert (ring_geom q5 ∧ ring_abs q5 = ring_abs q3) as [Hg5 Habs5].
  { apply geom_same; try done; unfold q5, fc_ring_band_add; by case_test. }
  assert (ring_geom (fc_ring_deadline_add q5 (e_deadline_ns e)) ∧
    ring_abs (fc_ring_deadline_add q5 (e_deadline_ns e)) = ring_abs q5) as [Hg6 Habs6].
  { apply geom_same; try done; unfold fc_ring_deadline_add; by case_test. }
  assert (Hperm : ring_abs q5 ≡ₚ le :: ring_abs q1) by (rewrite Habs5, Habs2; apply abs_insert_perm).
  assert (Hbc5 : ∀ b, fc_band_counted b = true →
    aget (q_band_count q5) b = zcount (fun x => e_band x =? b) (le :: ring_abs q1)).
  { apply (band_add_spec q4 (ring_abs q1) le). intros b Hb. unfold q4. simpl. rewrite Hbc.
    by apply Hwf1. }
  assert (Hcnt5 : q_count q5 = 1 + q_count q1).
  { unfold q5, fc_ring_band_add. case_test; unfold q4; simpl; lia. }
  split; [|split; [|split; [|split]]].
  - split; [done| | |]; rewrite Habs6.
    + replace (q_count _) with (q_count q5) by (unfold fc_ring_deadline_add; by case_test).
      rewrite Hcnt5, (rw_count _ Hwf1), (zlen_perm _ _ Hperm), zlen_cons. done.
    + intros b Hb. rewrite (zcount_perm _ _ _ Hperm), <- Hbc5 by done.
      unfold fc_ring_deadline_add. by case_test.
    + rewrite deadline_add_eq. replace (q_next_deadline_ns q5) with (q_next_deadline_ns q1).
      2:{ rewrite <- Hnd. unfold q5, fc_ring_band_add. by case_test. }
      apply (earliest_perm _ (ring_abs q1 ++ [le])); [|apply (earliest_snoc _ _ le), Hwf1].
      rewrite Hperm. symmetry. apply Permutation_cons_append.
  - eapply q_same_trans; [exact Hs1|]. eapply q_same_trans; [exact Hs2|].
    unfold fc_ring_deadline_add, q5, fc_ring_band_add. case_test; by case_test.
  - by rewrite Habs6, Habs5, Habs2.
  - replace (q_cap _) with (q_cap q1); [done|]. rewrite <- Hcap.
    unfold fc_ring_deadline_add, q5, fc_ring_band_add. case_test; by case_test.
  - replace (q_ring _) with (q_ring q3); [done|].
    unfold fc_ring_deadline_add, q5, fc_ring_band_add. case_test; by case_test.
Qed.

(** An insertion succeeds whenever a live entry fewer than the capacity waits
    and the compaction it may need can allocate. *)
Lemma insert_succeeds calloc q e front ordered :
  ring_wf q → q_count q < q_cap q → (∀ n, calloc n = true) →
  is_Some (snd (fc_ring_insert calloc q e front ordered)).
Proof.
  intros Hwf Hc Hal. unfold fc_ring_insert. pose proof (zlen_nonneg (ring_abs q)).
  pose proof (rw_count _ Hwf). rewrite (proj2 (Z.eqb_neq _ _)) by lia.
  destruct (compact_wf calloc q Hwf ltac:(lia)) as (Hwf1 & Habs1 & _ & Hcap1 & Hu1). specialize (Hu1 (Hal _)).
  assert (q_used (ring_make_room calloc q front) < q_cap (ring_make_room calloc q front)).
  { unfold ring_make_room. destruct (q_used q >=? q_cap q) eqn:Eu; zbool; cbn [andb].
    - rewrite (proj2 (Z.ltb_lt _ _)) by lia.
      replace (q_used (fc_ring_compact calloc q) >=? q_cap (fc_ring_compact calloc q)) with false;
        [simpl; lia|]. rewrite Z.geb_leb. symmetry. apply Z.leb_gt. lia.
    - replace (q_used q >=? q_cap q) with false; [simpl; lia|].
      rewrite Z.geb_leb. symmetry. apply Z.leb_gt. lia. }
  replace (q_used _ >=? q_cap _) with false by (rewrite Z.geb_leb; symmetry; apply Z.leb_gt; lia).
  by destruct (ring_place _ _ _ _).
Qed.

(** ** Dropping the head slot *)

(** Clear the head slot and step past it. *)
Definition ring_advance (q : fc_queue) : fc_queue :=
  q <| q_ring ::= (fun r => zset r (q_head q) ((zget r (q_head q)) <| e_live := false |>)) |>
    <| q_head := fc_ring_wrap q (q_head q + 1) |> <| q_used ::= (fun u => u - 1) |>.

Lemma advance_spec q :
  ring_geom q → 0 < q_used q →
  let x := zget (q_ring q) (q_head q) in
  ring_geom (ring_advance q) ∧
  ring_abs q = (if e_live x then [x] else []) ++ ring_abs (ring_advance q).
Proof.
  intros Hg Hu x. pose proof Hg as [Hc Hm [Hh0 Hh] Hu' Ht Hdead].
  assert (0 < q_cap q) as Hpos by lia. specialize (Hh Hpos). specialize (Ht Hpos).
  assert (fc_ring_wrap q (q_head q + 1) = ring_pos (q_cap q) (q_head q) 1) as Hw.
  { unfold fc_ring_wrap, ring_pos. repeat case_test; zbool; lia. }
  pose proof (ring_pos_bound (q_cap q) (q_head q) 1 ltac:(lia) ltac:(lia)).
  set (x' := x <| e_live := false |>).
  assert (Hspan : ring_span q = x :: ring_span (ring_advance q)).
  { unfold ring_span. simpl q_cap. simpl q_head. simpl q_used. simpl q_ring. rewrite Hw.
    replace (Z.to_nat (q_used q)) with (S (Z.to_nat (q_used q - 1))) by lia.
    rewrite span_cons by lia. fold x. f_equal. apply span_ext. intros k Hk.
    pose proof (ring_pos_bound (q_cap q) (q_head q) (S k) ltac:(lia) ltac:(lia)).
    rewrite ring_pos_shift by lia. symmetry. apply zget_zset_ne; [lia..|].
    intros Heq.
    assert (ring_pos (q_cap q) (q_head q) 0 = ring_pos (q_cap q) (q_head q) (S k)) as Heq'
      by (rewrite ring_pos_0 by lia; done).
    apply ring_pos_inj in Heq'; lia. }
  split.
  - split; simpl; rewrite ?Hw.
    + by rewrite zlen_zset.
    + done.
    + lia.
    + lia.
    + intros _. rewrite Ht, ring_pos_shift by lia. f_equal. lia.
    + intros i Hi Hlive. destruct (decide (i = q_head q)) as [->|Hne].
      { rewrite zget_zset_eq in Hlive by lia. done. }
      rewrite zget_zset_ne in Hlive by lia. destruct (Hdead i Hi Hlive) as ([|k] & ? & ->).
      { by rewrite ring_pos_0 in Hne by lia. }
      exists k. split; [lia|]. by rewrite ring_pos_shift by lia.
  - unfold ring_abs. rewrite Hspan. simpl. by destruct (e_live x).
Qed.

(** Stepping over a tombstone writes nothing new. *)
Lemma advance_dead q :
  ring_geom q → 0 < q_used q → e_live (zget (q_ring q) (q_head q)) = false →
  ring_advance q = q <| q_head ::= (fun h => fc_ring_wrap q (h + 1)) |> <| q_used ::= (fun u => u - 1) |>.
Proof.
  intros [Hc _ [Hh0 Hh] Hu _ _] Hu0 Hd. unfold ring_advance. destruct q; simpl in *. f_equal.
  apply zset_same; [|lia]. destruct (zget _ _); simpl in *. by subst.
Qed.

(** A ring with the same list and the same books. *)
Lemma wf_of_abs q q1 :
  ring_wf q → ring_geom q1 → ring_abs q1 = ring_abs q → q_count q1 = q_count q →
  q_band_count q1 = q_band_count q → q_next_deadline_ns q1 = q_next_deadline_ns q → ring_wf q1.
Proof. intros [_ ? ? ?] ? Ha Hc Hb Hd. by split; rewrite ?Ha, ?Hc, ?Hb, ?Hd. Qed.

Lemma trim_spec k q :
  ring_wf q →
  let q' := ring_trim k q in
  ring_wf q' ∧ ring_abs q' = ring_abs q ∧ q_same q q' ∧ q_cap q' = q_cap q ∧
  ((Z.to_nat (q_used q) ≤ k)%nat →
   q_used q' = 0 ∨ e_live (zget (q_ring q') (q_head q')) = true).
Proof.
  revert q. induction k as [|k IH]; intros q Hwf; cbn [ring_trim].
  { split_and!; try done. pose proof (rg_used _ (rw_geom _ Hwf)). lia. }
  destruct (q_used q >? 0) eqn:Eu; zbool; cbn [andb].
  2:{ split_and!; try done. pose proof (rg_used _ (rw_geom _ Hwf)). lia. }
  destruct (e_live (zget (q_ring q) (q_head q))) eqn:El; cbn [negb].
  { split_and!; try done. by right. }
  destruct (advance_spec q (rw_geom _ Hwf) Eu) as [Hg Habs]. cbn zeta in Habs. rewrite El in Habs.
  rewrite (advance_dead q (rw_geom _ Hwf) Eu El) in Hg, Habs.
  set (q1 := field_set q_used _ _) in *.
  assert (ring_wf q1) as Hwf1 by (by apply (wf_of_abs q)).
  destruct (IH q1 Hwf1) as (? & Ha & Hs & Hc & Hdone). split_and!; [done|by rewrite Ha, Habs|done|done|].
  intros. apply Hdone. unfold q1. simpl. lia.
Qed.

(** ** Removal *)

Lemma band_sub_spec q l1 x l2 :
  (∀ b, fc_band_counted b = true →
     aget (q_band_count q) b = zcount (fun e => e_band e =? b) (l1 ++ x :: l2)) →
  ∀ b, fc_band_counted b = true →
    aget (q_band_count (fc_ring_band_sub q (e_band x))) b
    = zcount (fun e => e_band e =? b) (l1 ++ l2).
Proof.
  intros Hb b Hc. unfold fc_ring_band_sub. pose proof (Hb b Hc) as Hbb.
  rewrite zcount_app in Hbb |- *. simpl in Hbb.
  destruct (fc_band_counted (e_band x)) eqn:Ex; cbn [andb].
  - pose proof (Hb _ Ex) as Hx. rewrite zcount_app in Hx. simpl in Hx. rewrite Z.eqb_refl in Hx. simpl in Hx.
    pose proof (zcount_bounds (fun e => e_band e =? e_band x) l1).
    pose proof (zcount_bounds (fun e => e_band e =? e_band x) l2).
    replace (aget (q_band_count q) (e_band x) >? 0) with true
      by (symmetry; rewrite Z.gtb_ltb; apply Z.ltb_lt; lia).
    simpl. unfold amod. rewrite aget_aset. destruct (e_band x =? b) eqn:Eb; zbool; simpl in Hbb.
    + subst b. rewrite decide_True by done. lia.
    + rewrite decide_False; [lia|]. revert Hc Ex Eb.
      unfold fc_band_counted, FC_BAND_CRITICAL, FC_BAND_SHEDDABLE, aidx. repeat case_test; zbool; lia.
  - destruct (e_band x =? b) eqn:Eb; zbool; simpl in Hbb; [congruence|lia].
Qed.

Lemma band_sub_fields q b :
  let q' := fc_ring_band_sub q b in
  q_ring q' = q_ring q ∧ q_cap q' = q_cap q ∧ q_head q' = q_head q ∧ q_tail q' = q_tail q ∧
  q_used q' = q_used q ∧ q_count q' = q_count q ∧ q_next_deadline_ns q' = q_next_deadline_ns q ∧
  q_same q q'.
Proof. unfold fc_ring_band_sub. by case_test. Qed.

(** Settling the counts once an entry has left the ring. *)
Lemma settle_removed q q1 l1 x l2 :
  ring_wf q → ring_abs q = l1 ++ x :: l2 → ring_geom q1 → ring_abs q1 = l1 ++ l2 →
  q_count q1 = q_count q - 1 → q_band_count q1 = q_band_count q →
  q_next_deadline_ns q1 = q_next_deadline_ns q → q_same q q1 →
  let q' := fc_ring_deadline_gone (fc_ring_band_sub q1 (e_band x)) (e_deadline_ns x) in
  ring_wf q' ∧ ring_abs q' = l1 ++ l2 ∧ q_same q q' ∧ q_cap q' = q_cap q1 ∧ q_used q' = q_used q1.
Proof.
  intros Hwf Habs Hg1 Habs1 Hc Hb Hd Hs q'.
  set (q2 := fc_ring_band_sub q1 (e_band x)) in *.
  destruct (band_sub_fields q1 (e_band x)) as (R1 & R2 & R3 & R4 & R5 & R6 & R7 & R8). fold q2 in R1, R2, R3, R4, R5, R6, R7, R8.
  destruct (geom_same q1 q2) as [Hg2 Habs2]; try done.
  destruct (gone_fields q2 (e_deadline_ns x)) as (S1 & S2 & S3 & S4 & S5 & S6 & S7 & S8). fold q' in S1, S2, S3, S4, S5, S6, S7, S8.
  destruct (geom_same q2 q') as [Hg' Habs']; try done.
  rewrite Habs2, Habs1 in Habs'. assert (q_same q q') by eauto using q_same_trans.
  split; [|split_and!; congruence].
  split; [done| | |].
  - rewrite Habs', S6, R6, Hc, (rw_count _ Hwf), Habs, !zlen_app, zlen_cons. lia.
  - rewrite Habs', S7. apply band_sub_spec. rewrite Hb, <- Habs. apply Hwf.
  - rewrite Habs', <- Habs1, <- Habs2. unfold q'. apply (gone_spec q2 l1 x l2); [done|congruence|].
    rewrite R7, Hd, <- Habs. apply Hwf.
Qed.

(** A live slot of the ring splits the list. *)
Lemma live_slot_split q at_ :
  ring_geom q → 0 ≤ at_ < q_cap q → e_live (zget (q_ring q) at_) = true →
  ∃ S1 S2, ring_span q = S1 ++ zget (q_ring q) at_ :: S2 ∧
    at_ = ring_pos (q_cap q) (q_head q) (length S1).
Proof.
  intros Hg Hi Hl. destruct (rg_dead _ Hg at_ Hi Hl) as (k & Hk & ->).
  set (x := zget _ _). assert (ring_span q !! k = Some x) as Hlk.
  { unfold ring_span. by rewrite span_lookup. }
  exists (take k (ring_span q)), (drop (S k) (ring_span q)). split.
  - by rewrite take_drop_middle.
  - rewrite length_take_le; [done|]. apply lookup_lt_Some in Hlk. lia.
Qed.

Lemma clear_spec q at_ :
  ring_wf q → 0 ≤ at_ < q_cap q → e_live (zget (q_ring q) at_) = true →
  ∃ S1 S2, ring_span q = S1 ++ zget (q_ring q) at_ :: S2 ∧
    at_ = ring_pos (q_cap q) (q_head q) (length S1) ∧ ring_wf (ring_clear q at_) ∧
    ring_abs (ring_clear q at_) = List.filter e_live S1 ++ List.filter e_live S2 ∧
    q_same q (ring_clear q at_) ∧ q_cap (ring_clear q at_) = q_cap q ∧
    q_used (ring_clear q at_) = q_used q.
Proof.
  intros Hwf Hi Hl. pose proof (rw_geom _ Hwf) as Hg. pose proof Hg as [Hc Hm [Hh0 Hh] Hu Ht Hdead].
  destruct (live_slot_split q at_ Hg Hi Hl) as (S1 & S2 & Hspan & Hat).
  set (x := zget (q_ring q) at_) in *. specialize (Hh ltac:(lia)).
  exists S1, S2.
  assert (ring_abs q = List.filter e_live S1 ++ x :: List.filter e_live S2) as Habs.
  { unfold ring_abs. rewrite Hspan, List.filter_app. simpl. by rewrite Hl. }
  split; [done|]. split; [done|]. unfold ring_clear. fold x.
  set (x' := x <| e_live := false |>).
  set (q1 := q <| q_ring ::= (fun r => zset r at_ x') |> <| q_count ::= (fun c => c - 1) |>).
  assert (Hlen : length (ring_span q) = Z.to_nat (q_used q)) by (unfold ring_span; by rewrite length_span).
  rewrite Hspan, length_app in Hlen. simpl in Hlen.
  assert (ring_span q1 = S1 ++ x' :: S2) as Hspan1.
  { unfold ring_span, q1. simpl. rewrite Hat, span_set by lia. fold (ring_span q). by rewrite Hspan, insert_mid. }
  assert (ring_geom q1) as Hg1.
  { split; try done.
    - unfold q1. simpl. by rewrite zlen_zset.
    - unfold q1. simpl. intros i Hi' Hlive. apply Hdead; [done|].
      destruct (decide (i = at_)) as [->|]; [by rewrite zget_zset_eq in Hlive by lia|].
      by rewrite zget_zset_ne in Hlive by lia. }
  assert (ring_abs q1 = List.filter e_live S1 ++ List.filter e_live S2) as Habs1.
  { unfold ring_abs. rewrite Hspan1, List.filter_app. done. }
  destruct (settle_removed q q1 _ x _ Hwf Habs Hg1 Habs1) as (? & ? & ? & ? & ?); done.
Qed.

(** Taking a live slot: the line without the entry of its position. *)
Lemma take_at_span q at_ :
  ring_wf q → 0 ≤ at_ < q_cap q → e_live (zget (q_ring q) at_) = true →
  ∃ S1 S2, ring_span q = S1 ++ zget (q_ring q) at_ :: S2 ∧
    at_ = ring_pos (q_cap q) (q_head q) (length S1) ∧
    ring_wf (fst (fc_ring_take_at q at_)) ∧
    ring_abs (fst (fc_ring_take_at q at_)) = List.filter e_live S1 ++ List.filter e_live S2 ∧
    q_same q (fst (fc_ring_take_at q at_)) ∧ q_cap (fst (fc_ring_take_at q at_)) = q_cap q.
Proof.
  intros Hwf Hi Hl. destruct (clear_spec q at_ Hwf Hi Hl) as (S1 & S2 & Hs & Hat & Hwf1 & Ha1 & Hs1 & Hc1 & _).
  exists S1, S2. unfold fc_ring_take_at. cbn [fst snd].
  destruct (trim_spec (Z.to_nat (q_used (ring_clear q at_))) _ Hwf1) as (? & Ha2 & ? & ? & _).
  split_and!; [done|done|done|by rewrite Ha2|by eapply q_same_trans|congruence].
Qed.

Lemma abs_split q S1 x S2 :
  ring_span q = S1 ++ x :: S2 → e_live x = true →
  ring_abs q = List.filter e_live S1 ++ x :: List.filter e_live S2.
Proof. intros Hs Hl. unfold ring_abs. rewrite Hs, List.filter_app. simpl. by rewrite Hl. Qed.

Lemma take_at_spec q at_ :
  ring_wf q → 0 ≤ at_ < q_cap q → e_live (zget (q_ring q) at_) = true →
  ∃ l1 l2, ring_abs q = l1 ++ snd (fc_ring_take_at q at_) :: l2 ∧
    ring_wf (fst (fc_ring_take_at q at_)) ∧ ring_abs (fst (fc_ring_take_at q at_)) = l1 ++ l2 ∧
    q_same q (fst (fc_ring_take_at q at_)) ∧ q_cap (fst (fc_ring_take_at q at_)) = q_cap q.
Proof.
  intros Hwf Hi Hl. destruct (take_at_span q at_ Hwf Hi Hl) as (S1 & S2 & Hs & _ & H).
  exists (List.filter e_live S1), (List.filter e_live S2). split; [by apply abs_split|done].
Qed.

(** The entries of a list of slots that are live. *)
Definition live_at (q : fc_queue) (slots : list Z) : list fc_queue_ent :=
  List.filter e_live ((fun i => zget (q_ring q) i) <$> slots).

Lemma walk_split q s1 i s2 :
  ring_geom q → ring_walk q = s1 ++ i :: s2 →
  0 ≤ i < q_cap q ∧ i = ring_pos (q_cap q) (q_head q) (length s1) ∧
  ring_span q = ((fun i => zget (q_ring q) i) <$> s1) ++ zget (q_ring q) i :: ((fun i => zget (q_ring q) i) <$> s2).
Proof.
  intros Hg Hw. pose proof (ring_walk_span q Hg) as Hs. rewrite Hw, fmap_app, fmap_cons in Hs.
  assert (ring_walk q !! length s1 = Some i) as Hl by (rewrite Hw; by apply list_lookup_middle).
  rewrite ring_walk_pos in Hl by done. apply list_lookup_fmap_Some in Hl as (k & -> & Hk).
  apply lookup_seq in Hk as [-> Hk]. simpl. split_and!; [| |done..]; pose proof Hg as [? ? [? ?] ? ? ?]; apply ring_pos_bound; lia.
Qed.

Lemma take_at_walk q s1 i s2 :
  ring_wf q → ring_walk q = s1 ++ i :: s2 → e_live (zget (q_ring q) i) = true →
  ring_abs q = live_at q s1 ++ zget (q_ring q) i :: live_at q s2 ∧
  ring_wf (fst (fc_ring_take_at q i)) ∧ ring_abs (fst (fc_ring_take_at q i)) = live_at q s1 ++ live_at q s2 ∧
  q_same q (fst (fc_ring_take_at q i)) ∧ q_cap (fst (fc_ring_take_at q i)) = q_cap q.
Proof.
  intros Hwf Hw Hl. pose proof (rw_geom _ Hwf) as Hg. destruct (walk_split q s1 i s2 Hg Hw) as (Hi & Hp & Hs).
  destruct (take_at_span q i Hwf Hi Hl) as (S1 & S2 & Hs' & Hp' & ? & -> & ? & ?).
  assert (length S1 = length s1) as Hlen.
  { pose proof (f_equal length Hs) as L1. pose proof (f_equal length Hs') as L2.
    unfold ring_span in L1, L2. rewrite length_span in L1, L2. rewrite length_app in L1, L2.
    rewrite length_fmap in L1. simpl in L1, L2.
    pose proof Hg as [? ? [? ?] ? ? ?]. apply (ring_pos_inj (q_cap q) (q_head q)); [lia..|congruence]. }
  rewrite Hs in Hs'. apply app_inj_1 in Hs' as [<- [= <-]]; [|by rewrite length_fmap].
  split_and!; [by apply abs_split|done..].
Qed.

Lemma abs_empty q : q_used q ≤ 0 → ring_abs q = [].
Proof. intros. unfold ring_abs, ring_span. by replace (Z.to_nat (q_used q)) with 0%nat by lia. Qed.

Lemma pop_loop k q :
  ring_wf q → (Z.to_nat (q_used q) ≤ k)%nat →
  let r := ring_pop k q in
  ring_wf (fst r) ∧ q_same q (fst r) ∧
  match snd r with
  | Some e => ring_abs q = e :: ring_abs (fst r)
  | None => ring_abs q = [] ∧ ring_abs (fst r) = []
  end.
Proof.
  revert q. induction k as [|k IH]; intros q Hwf Hk; cbn [ring_pop].
  { pose proof (abs_empty q ltac:(lia)). cbn [fst snd]. by split_and!. }
  destruct (q_used q >? 0) eqn:Eu; zbool.
  2:{ pose proof (abs_empty q ltac:(lia)). cbn [fst snd]. by split_and!. }
  destruct (advance_spec q (rw_geom _ Hwf) Eu) as [Hg Habs]. cbn zeta in Habs.
  set (x := zget (q_ring q) (q_head q)) in *.
  change (field_set q_used _ _) with (ring_advance q).
  set (q1 := ring_advance q) in *.
  destruct (e_live x) eqn:El.
  - set (q2 := q1 <| q_count ::= (fun c => c - 1) |>).
    destruct (geom_same q1 q2) as [Hg2 Ha2]; try done.
    destruct (settle_removed q q2 [] x (ring_abs q1)) as (? & Ha & ? & _); try done.
    cbn [fst snd]. simpl app in Ha. split; [done|]. split; [done|]. by rewrite Ha.
  - assert (ring_wf q1) as Hwf1 by (by apply (wf_of_abs q)).
    rewrite Habs. simpl app. destruct (IH q1 Hwf1) as (? & ? & ?); [unfold q1; simpl; lia|].
    by split_and!.
Qed.

(** ** Lookup *)

Lemma ring_first_spec q P i :
  ring_geom q → ring_first q P (ring_walk q) = Some i →
  0 ≤ i < q_cap q ∧ P (zget (q_ring q) i) = true.
Proof.
  intros Hg Hf. unfold ring_first in Hf. apply List.find_some in Hf as [Hin HP]. split; [|done].
  rewrite ring_walk_pos in Hin by done. apply list_elem_of_In, list_elem_of_fmap in Hin as (k & -> & Hk).
  apply elem_of_seq in Hk. pose proof Hg as [Hc Hm [Hh0 Hh] Hu Ht Hdead].
  apply ring_pos_bound; lia.
Qed.

Lemma find_sound q fd gen hint i :
  ring_wf q → fc_ring_find q fd gen hint = Some i →
  0 ≤ i < q_cap q ∧ e_live (zget (q_ring q) i) = true ∧
  e_fd (zget (q_ring q) i) = fd ∧ e_gen (zget (q_ring q) i) = gen ∧ zget (q_ring q) i ∈ ring_abs q.
Proof.
  intros Hwf Hf. pose proof (u32_fits hint) as [Hh _].
  assert (0 ≤ i < q_cap q ∧ e_live (zget (q_ring q) i) && (e_fd (zget (q_ring q) i) =? fd)
          && (e_gen (zget (q_ring q) i) =? gen) = true) as [Hi Hm].
  { unfold fc_ring_find in Hf. cbn zeta in Hf. case_test_in Hf; [done|]. case_test_in Hf.
    - apply andb_true_iff in E0 as [Hlt Him]. apply Z.ltb_lt in Hlt. simplify_eq. split; [lia|done].
    - eapply (ring_first_spec q (fun e => e_live e && (e_fd e =? fd) && (e_gen e =? gen)));
        [apply Hwf|done]. }
  zbool. split_and!; try done || lia.
  destruct (live_slot_split q i (rw_geom _ Hwf) Hi) as (S1 & S2 & Hs & _); [done|].
  unfold ring_abs. rewrite Hs. apply list_elem_of_In, List.filter_In. split; [|done].
  apply list_elem_of_In. set_solver.
Qed.

Lemma find_complete q fd gen hint e :
  ring_wf q → e ∈ ring_abs q → e_fd e = fd → e_gen e = gen →
  is_Some (fc_ring_find q fd gen hint).
Proof.
  intros Hwf He <- <-. unfold fc_ring_find. cbn zeta.
  destruct (q_cap q =? 0) eqn:Ec; zbool.
  { exfalso. pose proof (abs_le_used q (rw_geom _ Hwf)). pose proof (rg_used _ (rw_geom _ Hwf)).
    destruct (ring_abs q); [by apply not_elem_of_nil in He|]. rewrite zlen_cons in *.
    pose proof (zlen_nonneg l). lia. }
  case_test; [done|]. unfold ring_first.
  destruct (List.find _ _) eqn:Ef; [done|]. exfalso.
  unfold ring_abs in He. rewrite <- ring_walk_span in He by apply Hwf.
  apply list_elem_of_In, List.filter_In in He as [He Hl]. apply list_elem_of_In, list_elem_of_fmap in He as (i & -> & Hi).
  apply list_elem_of_In in Hi. eapply List.find_none in Ef; [|exact Hi]. simpl in Ef.
  by rewrite Hl, !Z.eqb_refl in Ef.
Qed.

Lemma filter_filter_live (P : fc_queue_ent → bool) l :
  List.filter (fun e => e_live e && P e) l = List.filter P (List.filter e_live l).
Proof.
  induction l as [|x l IH]; [done|]. simpl. destruct (e_live x); simpl; [|done].
  destruct (P x); by rewrite IH.
Qed.

Lemma expired_spec q now_ns cap :
  ring_geom q →
  fc_queue_expired q now_ns cap =
  take (Z.to_nat cap)
    (List.filter (fun e => negb (e_deadline_ns e =? 0) && (e_deadline_ns e <=? now_ns)) (ring_abs q)).
Proof.
  intros Hg. unfold fc_queue_expired. rewrite ring_walk_span by done.
  unfold ring_abs. rewrite <- filter_filter_live.
  destruct (q_cap q >? 0) eqn:Ec; zbool.
  - f_equal. apply List.filter_ext. intros e. by rewrite andb_assoc.
  - unfold ring_span. destruct Hg. replace (q_used q) with 0 by lia. simpl. by rewrite take_nil.
Qed.

(** ** Arrival order *)

Definition by_arrival : relation fc_queue_ent := fun a b => e_enqueue_ns a ≤ e_enqueue_ns b.

Lemma ins_front_sorted e l :
  StronglySorted by_arrival l → StronglySorted by_arrival (ins_front e l).
Proof.
  induction 1 as [|x l Hs IH Hx]; simpl; [by repeat constructor|].
  destruct (e_enqueue_ns x >=? e_enqueue_ns e) eqn:E; zbool.
  - constructor; [by constructor|]. constructor; [done|].
    eapply Forall_impl; [exact Hx|]. unfold by_arrival. intros; lia.
  - constructor; [done|]. rewrite ins_front_perm. constructor; [unfold by_arrival; lia|done].
Qed.

Lemma ins_rev_sorted e l :
  StronglySorted (flip by_arrival) l → StronglySorted (flip by_arrival) (ins_rev e l).
Proof.
  induction 1 as [|x l Hs IH Hx]; simpl; [by repeat constructor|].
  destruct (e_enqueue_ns x <=? e_enqueue_ns e) eqn:E; zbool.
  - constructor; [by constructor|]. constructor; [done|].
    eapply Forall_impl; [exact Hx|]. unfold flip, by_arrival. intros; lia.
  - constructor; [done|]. rewrite ins_rev_perm. constructor; [unfold flip, by_arrival; lia|done].
Qed.

Lemma sorted_rev {A} (R : relation A) l : StronglySorted R l → StronglySorted (flip R) (rev l).
Proof.
  induction 1 as [|x l Hs IH Hx]; simpl; [constructor|].
  apply StronglySorted_app_2; [|done|by repeat constructor].
  intros a b Ha Hb. apply list_elem_of_singleton in Hb as ->.
  rewrite Forall_forall in Hx. apply Hx. by rewrite <- (Permutation_rev l) in Ha.
Qed.

Lemma ins_back_sorted e l :
  StronglySorted by_arrival l → StronglySorted by_arrival (ins_back e l).
Proof.
  intros Hs. apply (sorted_rev (flip by_arrival)). apply ins_rev_sorted. by apply sorted_rev.
Qed.

(** The queue of a new pool. *)
Lemma ring_wf_zero : ring_wf fc_queue_zero.
Proof.
  split.
  - split; try done; simpl; lia.
  - done.
  - intros b Hb. unfold aget. cbn. repeat case_test; done.
  - left. split; [done|]. intros e He. by apply not_elem_of_nil in He.
Qed.

(** ** The ring implements a line of waiters *)

(** The operations the queue uses under its lock; a slot hint is unsigned. *)
Inductive ring_op : Type :=
| RInsert (e : fc_queue_ent) (front ordered : bool)
| RPop
| RTake (fd gen : Z) (hint : N)
| RGrow (want : Z)
| RVisit
| RExpired (now_ns : Z) (cap : nat).

(** What the operation hands back: the entry inserted or taken, or the entries
    listed. *)
Definition ring_do (calloc : Z → bool) (q : fc_queue) (op : ring_op) : fc_queue * list fc_queue_ent :=
  match op with
  | RInsert e front ordered =>
      let '(q, slot) := fc_ring_insert calloc q e front ordered in
      (q, match slot with Some i => [zget (q_ring q) i] | None => [] end)
  | RPop => let '(q, e) := fc_ring_pop q in (q, match e with Some e => [e] | None => [] end)
  | RTake fd gen hint =>
      match fc_ring_find q fd gen (Z.of_N hint) with
      | Some i => let '(q, e) := fc_ring_take_at q i in (q, [e])
      | None => (q, [])
      end
  | RGrow want => (fc_ring_grow calloc q want, [])
  | RVisit => (q, fc_queue_visit q)
  | RExpired now_ns cap => (q, fc_queue_expired q now_ns (Z.of_nat cap))
  end.

(** The specification: a line of waiters, oldest first, and the places it may
    hold. [al] says which sizes can be allocated while the operation runs. *)
Record line := mk_line { ln_waiters : list fc_queue_ent; ln_places : Z }.

Definition ring_line (q : fc_queue) : line := mk_line (ring_abs q) (q_cap q).

(** The places a request going back may claim: an eighth more, sixteen at least. *)
Definition grown (c : Z) : Z := Z.min FC_QUEUE_DEPTH_MAX (c + Z.max 16 (c / 8)).

(** No place can be made in the line as it is. *)
Definition spent (al : Z → bool) (l : list fc_queue_ent) (c : Z) : Prop := zlen l = c ∨ al c = false.

(** What an operation does to the line. An insertion is refused only where there
    are no places at all, or the line is full or may not be re-laid for want of
    memory, and then a request going back only when the line can not grow. *)
Inductive line_do (al : Z → bool) : line → ring_op → line → list fc_queue_ent → Prop :=
| ln_insert l c e front ordered :
    let le := e <| e_live := true |> in
    zlen l < c → line_do al (mk_line l c) (RInsert e front ordered) (mk_line (abs_insert front ordered le l) c) [le]
| ln_insert_grown l c e ordered :
    let le := e <| e_live := true |> in
    0 < c < grown c → spent al l c → al (grown c) = true →
    line_do al (mk_line l c) (RInsert e true ordered) (mk_line (abs_insert true ordered le l) (grown c)) [le]
| ln_insert_full l c e front ordered :
    c = 0 ∨ spent al l c ∧ (front = true → c = FC_QUEUE_DEPTH_MAX ∨ al (grown c) = false) →
    line_do al (mk_line l c) (RInsert e front ordered) (mk_line l c) []
| ln_pop e l c : line_do al (mk_line (e :: l) c) RPop (mk_line l c) [e]
| ln_pop_empty c : line_do al (mk_line [] c) RPop (mk_line [] c) []
| ln_take l1 e l2 c fd gen hint :
    e_fd e = fd → e_gen e = gen → line_do al (mk_line (l1 ++ e :: l2) c) (RTake fd gen hint) (mk_line (l1 ++ l2) c) [e]
| ln_take_none l c fd gen hint :
    (∀ e, e ∈ l → ¬ (e_fd e = fd ∧ e_gen e = gen)) → line_do al (mk_line l c) (RTake fd gen hint) (mk_line l c) []
| ln_grow l c want :
    let w := Z.min want FC_QUEUE_DEPTH_MAX in
    line_do al (mk_line l c) (RGrow want) (mk_line l (if (c <? w) && al w then w else c)) []
| ln_visit l c : line_do al (mk_line l c) RVisit (mk_line l c) l
| ln_expired l c now_ns cap :
    line_do al (mk_line l c) (RExpired now_ns cap) (mk_line l c)
      (take cap (List.filter (fun e => negb (e_deadline_ns e =? 0) && (e_deadline_ns e <=? now_ns)) l)).

Lemma grow_any_wf calloc q want :
  ring_wf q → ring_wf (fc_ring_grow calloc q want) ∧ ring_abs (fc_ring_grow calloc q want) = ring_abs q.
Proof.
  intros Hwf. pose proof (rw_geom _ Hwf) as Hg. destruct (decide (0 < q_cap q)).
  - by destruct (grow_wf calloc q want Hwf) as (? & ? & _).
  - pose proof (rg_cap _ Hg). pose proof (zlen_nonneg (q_ring q)).
    destruct (grow_fresh_wf calloc q want) as (? & ? & _); [|lia|done|done].
    apply nil_length_inv. unfold zlen in *. lia.
Qed.

(** The places after a growth. *)
Lemma grow_places calloc q want :
  ring_geom q →
  q_cap (fc_ring_grow calloc q want) =
    (let w := Z.min want FC_QUEUE_DEPTH_MAX in if (q_cap q <? w) && calloc w then w else q_cap q).
Proof.
  intros Hg. unfold fc_ring_grow. cbn zeta.
  replace (if want >? FC_QUEUE_DEPTH_MAX then FC_QUEUE_DEPTH_MAX else want) with (Z.min want FC_QUEUE_DEPTH_MAX)
    by (case_test; zbool; lia).
  set (w := Z.min _ _). rewrite (Z.ltb_antisym w). destruct (w <=? q_cap q); [done|]. cbn [negb andb].
  destruct (calloc w); [|done]. cbn [negb]. destruct (q_ring q); [done|].
  unfold fc_ring_relayout. by destruct (foldl _ _ _) as [[??]?].
Qed.

(** The slots in use after a growth: those of the live entries. *)
Lemma grow_used calloc q want :
  ring_wf q → 0 < q_cap q → q_cap q < q_cap (fc_ring_grow calloc q want) →
  q_used (fc_ring_grow calloc q want) = zlen (ring_abs q).
Proof.
  intros Hwf Hpos. pose proof Hwf as [Hg]. unfold fc_ring_grow.
  pose proof (abs_le_used q Hg). pose proof (rg_used _ Hg). pose proof (rg_cap _ Hg).
  set (w := if want >? _ then _ else _).
  assert (w ≤ FC_QUEUE_DEPTH_MAX) by (unfold w; case_test; zbool; lia).
  destruct (w <=? q_cap q) eqn:Ew; [lia|]. zbool. destruct (calloc w); simpl; [|lia].
  destruct (q_ring q) as [|x r] eqn:Er; [unfold zlen in *; simpl in *; lia|]. intros _.
  by destruct (relayout_wf q w Hg ltac:(lia) ltac:(lia) (rw_deadline _ Hwf)) as (_ & _ & _ & _ & Hu).
Qed.

Lemma grow_same calloc q want : q_cap (fc_ring_grow calloc q want) = q_cap q → fc_ring_grow calloc q want = q.
Proof.
  unfold fc_ring_grow. set (w := if want >? _ then _ else _). destruct (w <=? q_cap q) eqn:Ew; [done|]. zbool.
  destruct (calloc w); simpl; [|done]. destruct (q_ring q); simpl; [lia|].
  unfold fc_ring_relayout. destruct (foldl _ _ _) as [[??]?]. simpl. lia.
Qed.

Lemma grown_max c : 0 ≤ c ≤ FC_QUEUE_DEPTH_MAX → c < grown c ∨ c = FC_QUEUE_DEPTH_MAX ∧ grown c = c.
Proof. unfold grown. lia. Qed.

Lemma geb_true a b : b ≤ a → (a >=? b) = true.
Proof. rewrite Z.geb_leb. apply Z.leb_le. Qed.

Lemma geb_false a b : a < b → (a >=? b) = false.
Proof. rewrite Z.geb_leb. apply Z.leb_gt. Qed.

(** The first half: compaction leaves a free slot, or there is none to be had. *)
Lemma compact_places al q :
  ring_wf q → 0 < q_cap q →
  let q1 := if (q_used q >=? q_cap q) && (q_count q <? q_cap q) then fc_ring_compact al q else q in
  ring_wf q1 ∧ ring_abs q1 = ring_abs q ∧ q_cap q1 = q_cap q ∧
  (q_used q1 < q_cap q ∧ zlen (ring_abs q) < q_cap q ∨ q_cap q ≤ q_used q1 ∧ spent al (ring_abs q) (q_cap q)).
Proof.
  intros Hwf Hpos. pose proof (rw_geom _ Hwf) as Hg. pose proof (abs_le_used q Hg). pose proof (rg_used _ Hg).
  destruct (q_used q >=? q_cap q) eqn:Eu; zbool; cbn [andb]; [|split_and!; try done; left; lia]. rewrite (rw_count _ Hwf).
  destruct (zlen (ring_abs q) <? q_cap q) eqn:El; zbool; [|split_and!; try done; right; split; [lia|left; lia]].
  destruct (compact_wf al q Hwf Hpos) as (? & ? & _ & ? & Hu). split_and!; try done.
  destruct (al (q_cap q)) eqn:Eal; [left; rewrite Hu by done; lia|right]. split; [|by right].
  unfold fc_ring_compact. rewrite (proj2 (Z.eqb_neq _ 0)), Eal by lia. cbn [negb]. lia.
Qed.

(** What making room comes to, on the line. *)
Lemma make_room_places al q front :
  ring_wf q → 0 < q_cap q →
  let q' := ring_make_room al q front in
  let l := ring_abs q in
  let c := q_cap q in
  if q_used q' >=? q_cap q'
  then q_cap q' = c ∧ spent al l c ∧ (front = true → c = FC_QUEUE_DEPTH_MAX ∨ al (grown c) = false)
  else q_cap q' = c ∧ zlen l < c ∨
       front = true ∧ q_cap q' = grown c ∧ c < grown c ∧ spent al l c ∧ al (grown c) = true.
Proof.
  intros Hwf Hpos. pose proof (rw_geom _ Hwf) as Hg. pose proof (abs_le_used q Hg). pose proof (rg_used _ Hg). pose proof (rg_max _ Hg).
  cbn zeta. unfold ring_make_room. destruct (compact_places al q Hwf Hpos) as (Hw1 & Ha1 & Hc1 & Hu1).
  set (q1 := if (_ >=? _) && (_ <? _) then _ else _) in *. clearbody q1. rewrite Hc1.
  destruct Hu1 as [[Hu1 Hl]|[Hu1 Hsp]]; [rewrite (geb_false (q_used q1) (q_cap q)) by done; cbn [andb]; rewrite Hc1, geb_false by done; by left|].
  rewrite (geb_true (q_used q1) (q_cap q)) by done. cbn [andb]. destruct front; [|rewrite Hc1, geb_true by done; by split_and!].
  set (want := q_cap q + _). assert (grown (q_cap q) = Z.min want FC_QUEUE_DEPTH_MAX) as Hgr by (unfold grown, want; case_test; zbool; lia).
  pose proof (grow_places al q1 want (rw_geom _ Hw1)) as Hp. cbn zeta in Hp. rewrite Hc1, <- Hgr in Hp.
  pose proof (grow_used al q1 want Hw1 ltac:(lia)) as Hgu. pose proof (grow_same al q1 want) as Hsame. rewrite Hc1, ?Ha1 in *.
  destruct (grown_max (q_cap q) ltac:(lia)) as [Hlt|[Hmx Hge]].
  - rewrite (proj2 (Z.ltb_lt _ _) Hlt) in Hp. cbn [andb] in Hp. destruct (al (grown (q_cap q))) eqn:Eg.
    + rewrite Hgu, Hp, geb_false by lia. right. by split_and!.
    + rewrite (Hsame Hp), Hc1, geb_true by done. split_and!; [done|done|by right].
  - rewrite (proj2 (Z.ltb_ge _ _)) in Hp by lia. rewrite (Hsame Hp), Hc1, geb_true by done. split_and!; [done|done|by left].
Qed.

(** The places after an insertion are those making room left. *)
Lemma insert_places al q e front ordered :
  q_cap q ≠ 0 →
  let q' := ring_make_room al q front in
  let r := fc_ring_insert al q e front ordered in
  q_cap (fst r) = q_cap q' ∧ (snd r = None ↔ (q_used q' >=? q_cap q') = true).
Proof.
  intros Hc. unfold fc_ring_insert. rewrite (proj2 (Z.eqb_neq _ _) Hc). cbn zeta. set (q' := ring_make_room _ _ _).
  destruct (q_used q' >=? q_cap q') eqn:Eu; [done|]. destruct (place_fields q' e front ordered) as (_ & Hcap & _).
  destruct (ring_place q' e front ordered) as [q2 slot]. cbn [fst snd] in *. split; [|done].
  rewrite <- Hcap. unfold fc_ring_deadline_add, fc_ring_band_add. case_test; by case_test.
Qed.

Lemma insert_line al q e front ordered :
  ring_wf q →
  let r := ring_do al q (RInsert e front ordered) in
  line_do al (ring_line q) (RInsert e front ordered) (ring_line (fst r)) (snd r).
Proof.
  intros Hwf. cbn [ring_do]. pose proof (insert_refines al q e front ordered Hwf) as H. unfold ring_line.
  destruct (decide (q_cap q = 0)) as [Hz|Hc].
  { unfold fc_ring_insert. rewrite (proj2 (Z.eqb_eq _ _) Hz). cbn [fst snd]. apply ln_insert_full. by left. }
  destruct (insert_places al q e front ordered Hc) as [Hcap Hnone]. pose proof (rg_used _ (rw_geom _ Hwf)).
  pose proof (make_room_places al q front Hwf ltac:(lia)) as Hroom. cbn zeta in *.
  destruct (fc_ring_insert al q e front ordered) as [q' [i|]]; cbn [fst snd] in *; destruct H as (_ & _ & H).
  - destruct H as (-> & _ & ->). destruct (_ >=? _) eqn:Eu; [by apply proj2 in Hnone; discriminate Hnone|]. rewrite Hcap.
    destruct Hroom as [[-> Hl]|(-> & -> & ? & ? & ?)]; [by apply ln_insert|]. apply ln_insert_grown; [lia|done|done].
  - rewrite H. apply proj1 in Hnone. rewrite Hnone in Hroom by done. rewrite Hcap. destruct Hroom as (-> & ? & ?).
    apply ln_insert_full. by right.
Qed.

Lemma pop_cap k q : q_cap (fst (ring_pop k q)) = q_cap q.
Proof.
  revert q. induction k as [|k IH]; intros q; cbn [ring_pop]; [done|]. destruct (q_used q >? 0); [|done].
  destruct (e_live _); [|cbn zeta; by rewrite IH]. unfold fc_ring_deadline_gone, fc_ring_deadline_rescan, fc_ring_band_sub. cbn [fst].
  case_test; by case_test.
Qed.

Lemma ring_do_refines al q op :
  ring_wf q →
  ring_wf (fst (ring_do al q op)) ∧
  line_do al (ring_line q) op (ring_line (fst (ring_do al q op))) (snd (ring_do al q op)).
Proof.
  intros Hwf. pose proof (rw_geom _ Hwf) as Hg. destruct op as [e front ordered| |fd gen hint|want| |now_ns cap].
  - split; [|by apply insert_line]. cbn [ring_do]. pose proof (insert_refines al q e front ordered Hwf) as [H _].
    by destruct (fc_ring_insert _ _ _ _ _).
  - cbn [ring_do]. pose proof (pop_loop (Z.to_nat (q_used q)) q Hwf (le_n _)) as H. pose proof (pop_cap (Z.to_nat (q_used q)) q) as Hc. unfold fc_ring_pop, ring_line in *.
    destruct (ring_pop _ _) as [q' [e|]]; simpl in *; destruct H as (? & _ & H); rewrite Hc.
    + split; [done|]. rewrite H. constructor.
    + destruct H as [H1 H2]. split; [done|]. rewrite H1, H2. constructor.
  - cbn [ring_do]. destruct (fc_ring_find q fd gen (Z.of_N hint)) as [i|] eqn:E.
    + apply find_sound in E as (Hi & Hl & <- & <- & _); [|done]. unfold ring_line.
      destruct (take_at_spec q i Hwf Hi Hl) as (l1 & l2 & Ha & ? & Hb & _ & Hc).
      assert (snd (fc_ring_take_at q i) = zget (q_ring q) i) as He by done.
      destruct (fc_ring_take_at q i) as [q' e]. cbn [fst snd] in *. subst e. split; [done|].
      rewrite Ha, Hb, Hc. by constructor.
    + split; [done|]. constructor. intros e He [Hf Hn].
      by destruct (find_complete q fd gen (Z.of_N hint) e Hwf He Hf Hn) as [? Hs]; rewrite E in Hs.
  - cbn [ring_do]. destruct (grow_any_wf al q want Hwf) as [? Ha]. cbn [fst snd]. split; [done|]. unfold ring_line.
    rewrite Ha, (grow_places al q want Hg). constructor.
  - cbn [ring_do]. rewrite fc_queue_visit_spec by done. split; [done|constructor].
  - cbn [ring_do]. rewrite expired_spec, Nat2Z.id by done. split; [done|constructor].
Qed.

(** A run of operations, with what each handed back; [calloc] answers the
    allocations of one operation, and may answer the next differently. *)
Fixpoint ring_run (calloc : nat → Z → bool) (q : fc_queue) (ops : list ring_op) :
    fc_queue * list (list fc_queue_ent) :=
  match ops with
  | [] => (q, [])
  | op :: ops =>
      let '(q, a) := ring_do (calloc O) q op in
      let '(q, bs) := ring_run (λ n, calloc (S n)) q ops in (q, a :: bs)
  end.
Inductive line_run : (nat → Z → bool) → line → list ring_op → line → list (list fc_queue_ent) → Prop :=
| lr_nil al l : line_run al l [] l []
| lr_cons al l op l1 a ops l2 bs :
    line_do (al O) l op l1 a → line_run (λ n, al (S n)) l1 ops l2 bs → line_run al l (op :: ops) l2 (a :: bs).

Lemma ring_run_refines calloc ops q :
  ring_wf q →
  ring_wf (fst (ring_run calloc q ops)) ∧
  line_run calloc (ring_line q) ops (ring_line (fst (ring_run calloc q ops))) (snd (ring_run calloc q ops)).
Proof.
  revert calloc q. induction ops as [|op ops IH]; intros al q Hwf; simpl; [split; [done|constructor]|].
  destruct (ring_do_refines (al O) q op Hwf) as [Hw Hd]. destruct (ring_do (al O) q op) as [q1 a]; simpl in *.
  destruct (IH (λ n, al (S n)) q1 Hw) as [Hw2 Hr]. destruct (ring_run _ q1 ops) as [q2 bs]; simpl in *.
  split; [done|]. by econstructor.
Qed.

(** ** Theorems *)

(** C19. The circular buffer with its tombstones, compaction and growth is a
    line of waiters with a number of places: every run of insertions, pops, takes,
    growths and scans on a new queue, with the allocator free to answer each
    operation differently, leaves a well-formed ring that holds the specified line
    and hands back what the specification says. The specification refuses an
    insertion only when the line is full, or when its tombstones could not be
    re-laid for want of memory; a request going back then still gets in, unless the
    ring is at its maximum or the larger one can not be allocated. *)
Theorem fc_ring_refines_line calloc ops :
  let r := ring_run calloc fc_queue_zero ops in
  ring_wf (fst r) ∧ line_run calloc (mk_line [] 0) ops (ring_line (fst r)) (snd r).
Proof. exact (ring_run_refines calloc ops fc_queue_zero ring_wf_zero). Qed.

(** An insertion into a ring with a free live slot succeeds when memory
    does: tombstones never cost a request its place. The entry is stored at the
    slot handed back and counted. *)
Theorem fc_ring_insert_has_room calloc q e front ordered :
  ring_wf q → q_count q < q_cap q → (∀ n, calloc n = true) →
  ∃ q' slot, fc_ring_insert calloc q e front ordered = (q', Some slot) ∧
    zget (q_ring q') slot = e <| e_live := true |> ∧ q_count q' = q_count q + 1.
Proof.
  intros Hwf Hc Hal. destruct (insert_succeeds calloc q e front ordered Hwf Hc Hal) as [slot Hs].
  pose proof (insert_refines calloc q e front ordered Hwf) as H.
  destruct (fc_ring_insert _ _ _ _ _) as [q' [i|]]; simpl in *; [|done]. destruct H as (Hw & _ & Ha & _ & He).
  exists q', i. split_and!; [done|done|]. rewrite (rw_count _ Hw), (rw_count _ Hwf), Ha.
  rewrite (zlen_perm _ _ (abs_insert_perm _ _ _ _)), zlen_cons. lia.
Qed.

(** A ring of two slots, both used, one of them a tombstone. *)
Definition ent_of (fd at_ns : Z) : fc_queue_ent := mk_fc_queue_ent fd true 0 (-1) 1 at_ns (at_ns + 100).
Definition tombed : fc_queue :=
  fst (ring_run (fun _ _ => true) fc_queue_zero
         [RGrow 2; RInsert (ent_of 5 10) false false; RInsert (ent_of 6 20) false false; RTake 6 1 1]).

Lemma fc_ring_insert_has_room_witness :
  q_used tombed = 2 ∧ ∃ q' slot,
    fc_ring_insert (fun _ => true) tombed (ent_of 7 30) false false = (q', Some slot) ∧
    zget (q_ring q') slot = ent_of 7 30 ∧ q_count q' = 2.
Proof.
  split; [vm_compute; reflexivity|].
  destruct (fc_ring_insert_has_room (fun _ => true) tombed (ent_of 7 30) false false) as (q' & slot & H1 & H2 & H3).
  - apply (ring_run_refines (fun _ _ => true) _ fc_queue_zero ring_wf_zero).
  - vm_compute. reflexivity.
  - reflexivity.
  - exists q', slot. split; [exact H1|split; [exact H2|]]. rewrite H3. vm_compute. reflexivity.
Defined.

(** A request that goes back to the queue regains its place by arrival:
    putting it back at the front, or appending it in order, keeps the waiters
    sorted by the time they arrived, and a plain append does when the request
    arrived after all of them. *)
Theorem fc_ring_keeps_arrival_order calloc q e front ordered :
  ring_wf q → StronglySorted by_arrival (ring_abs q) →
  (front = false → ordered = false → Forall (fun x => e_enqueue_ns x ≤ e_enqueue_ns e) (ring_abs q)) →
  StronglySorted by_arrival (ring_abs (fst (fc_ring_insert calloc q e front ordered))).
Proof.
  intros Hwf Hs Hl. pose proof (insert_refines calloc q e front ordered Hwf) as H.
  destruct (fc_ring_insert _ _ _ _ _) as [q' [i|]]; simpl in *; [|by destruct H as (_ & _ & ->)].
  destruct H as (_ & _ & -> & _). unfold abs_insert. destruct front; [by apply ins_front_sorted|].
  destruct ordered; [by apply ins_back_sorted|].
  specialize (Hl eq_refl eq_refl). rewrite Forall_forall in Hl.
  apply StronglySorted_app_2; [|done|by repeat constructor].
  intros a b Ha Hb. apply list_elem_of_singleton in Hb as ->. exact (Hl a Ha).
Qed.

Lemma fc_ring_keeps_arrival_order_witness :
  let q := fst (ring_run (fun _ _ => true) fc_queue_zero
                  [RGrow 4; RInsert (ent_of 5 10) false false; RInsert (ent_of 6 30) false false]) in
  let q' := fst (fc_ring_insert (fun _ => true) q (ent_of 7 20) true false) in
  e_fd <$> ring_abs q' = [5; 7; 6] ∧ StronglySorted by_arrival (ring_abs q').
Proof.
  split; [vm_compute; reflexivity|].
  apply fc_ring_keeps_arrival_order.
  - apply (ring_run_refines (fun _ _ => true) _ fc_queue_zero ring_wf_zero).
  - vm_compute. repeat constructor; discriminate.
  - discriminate.
Defined.
