(* ===== verification/FcTenant.v ===== *)
(** * Capacity admission: tenant shares (src/common/sockproxy_fc.c)

    The table of tenant slots of a pool, its free list, and the
    open-addressing index that finds a tenant's slot by key. The theorems show
    that the table is a finite map from the keys of the tenants in use to
    their slots ([tenant_wf]): a probe finds a key exactly when a slot holds
    it, a slot taken is a free one, and deletion, which turns a bucket into a
    tombstone, empties the end of a run or lays the index out again, loses no
    other key. Operations that count an anomaly work on [world]. *)

From stdpp Require Import base list gmap numbers sorting strings.
From Stdlib Require Import Ascii.
From S2P Require Import Prelude FcTypes FcConfig.

(** ** Shares *)

Definition fnv_offset : Z := 0xcbf29ce484222325.
Definition fnv_prime : Z := 0x100000001b3.

(** FNV-1a over the bytes of the tenant's name; a NULL name hashes as empty. *)
Fixpoint fnv1a (h : Z) (s : string) : Z :=
  match s with
  | EmptyString => h
  | String c s => fnv1a (u64 (Z.lxor h (Z.of_nat (nat_of_ascii c)) * fnv_prime)) s
  end.
Definition fc_tenant_key (tenant_id : option string) : Z :=
  fnv1a fnv_offset (default EmptyString tenant_id).

Definition fc_share_of (whole pct : Z) : Z :=
  if whole =? 0 then 0
  else
    let n := (whole * pct + 99) / 100 in
    if negb (n =? 0) then u32 n else 1.

Definition fc_tenant_svc_bound (fc : fc_state) : Z :=
  if negb (fc_share_active fc) then 0
  else fc_share_of (fc_svc_cap fc) (c_tenant_share_pct (s_cfg fc)).

Definition fc_tenant_queue_bound (fc : fc_state) : Z :=
  if negb (fc_share_active fc) then 0
  else fc_share_of (c_max_queue_depth (s_cfg fc)) (c_tenant_share_pct (s_cfg fc)).

Definition fc_band_queue_bound (fc : fc_state) (band : Z) : Z :=
  let band := fc_band_of band in
  if aget (c_band_queue_pct (s_cfg fc)) band =? 0 then 0
  else fc_share_of (c_max_queue_depth (s_cfg fc)) (aget (c_band_queue_pct (s_cfg fc)) band).

Definition fc_tenants_active (fc : fc_state) : Z := s_tenants_used fc.

Definition fc_tenant_slots (fc : fc_state) : Z :=
  if negb (s_tenant_slots fc =? 0) then s_tenant_slots fc else FC_TENANT_SLOTS.

(** ** The table *)

Definition tab (fc : fc_state) : list fc_tenant := default [] (s_tenants fc).
Definition tget (fc : fc_state) (i : Z) : fc_tenant := zget (tab fc) i.
Definition tmod (i : Z) (f : fc_tenant → fc_tenant) (fc : fc_state) : fc_state :=
  fc <| s_tenants ::= fmap (fun l => zmod l i f) |>.
Definition iget (fc : fc_state) (b : Z) : Z := zget (s_tenant_index fc) b.
Definition iset (b v : Z) (fc : fc_state) : fc_state :=
  fc <| s_tenant_index ::= (fun l => zset l b v) |>.

Definition FC_TIDX_EMPTY : Z := 0.
Definition FC_TIDX_TOMB : Z := 65535.

Definition fc_tidx_buckets (fc : fc_state) : Z := 2 * s_tenant_slots fc.
Definition fc_tidx_next (fc : fc_state) (b : Z) : Z :=
  if b + 1 =? fc_tidx_buckets fc then 0 else b + 1.
Definition fc_tidx_home (fc : fc_state) (key : Z) : Z :=
  let key := Z.lxor key (Z.shiftr key 33) in
  let key := u64 (key * 0xff51afd7ed558ccd) in
  let key := Z.lxor key (Z.shiftr key 33) in
  key mod fc_tidx_buckets fc.

(** A new table of [n] slots and the shared one, all free, with its index. *)
Definition fresh_table (n : Z) (fc : fc_state) : fc_state :=
  let free i := fc_tenant_zero <| t_next_free := u16 (i + 1) |> in
  fc <| s_tenants := Some ((free <$> zseq n) ++ [fc_tenant_zero]) |>
     <| s_tenant_index := zrep (2 * n) FC_TIDX_EMPTY |>
     <| s_tenant_free := 0 |> <| s_tenants_used := 0 |> <| s_tenant_tombs := 0 |>
     <| s_tenants_runnable_waiting := 0 |> <| s_tenant_bound := 0 |>.

(** The table and its index, made on first use; [false] is the -1 return. *)
Definition fc_tenant_table_ensure (calloc : Z → bool) (fc : fc_state) : fc_state * bool :=
  match s_tenants fc with
  | Some _ => (fc, true)
  | None =>
      if q_dead (s_queue fc) then (fc, false)
      else
        let fc := if s_tenant_slots fc =? 0 then fc <| s_tenant_slots := FC_TENANT_SLOTS |> else fc in
        let n := s_tenant_slots fc in
        if negb (calloc (n + 1)) || negb (calloc (2 * n))
        then (fc <| s_tenants := None |> <| s_tenant_index := [] |>, false)
        else
          (fresh_table n fc, true)
  end.

(** The probe loop: the bucket of the key's slot (the bucket count for none)
    and the bucket a new slot goes in. *)
Fixpoint tidx_probe (fc : fc_state) (key : Z) (k : nat) (b free_bkt : Z) : Z * Z :=
  let nb := fc_tidx_buckets fc in
  match k with
  | O => (nb, free_bkt)
  | S k =>
      let v := iget fc b in
      if v =? FC_TIDX_EMPTY then (nb, if free_bkt =? nb then b else free_bkt)
      else if v =? FC_TIDX_TOMB then
        tidx_probe fc key k (fc_tidx_next fc b) (if free_bkt =? nb then b else free_bkt)
      else if t_key (tget fc (v - 1)) =? key then (b, free_bkt)
      else tidx_probe fc key k (fc_tidx_next fc b) free_bkt
  end.
Definition fc_tidx_find (fc : fc_state) (key : Z) : Z * Z :=
  tidx_probe fc key (Z.to_nat (fc_tidx_buckets fc)) (fc_tidx_home fc key) (fc_tidx_buckets fc).

(** Laying the index out again: each slot in use goes in the first empty
    bucket of its probe run. [k] bounds the inner while loop. *)
Fixpoint relay_seek (fc : fc_state) (k : nat) (b : Z) : Z :=
  match k with
  | O => b
  | S k => if negb (iget fc b =? FC_TIDX_EMPTY) then relay_seek fc k (fc_tidx_next fc b) else b
  end.
Definition relay_slot (fc : fc_state) (i : Z) : fc_state :=
  if negb (t_used (tget fc i)) then fc
  else
    let b := relay_seek fc (Z.to_nat (fc_tidx_buckets fc)) (fc_tidx_home fc (t_key (tget fc i))) in
    iset b (u16 (i + 1)) fc.
Definition fc_tidx_relay (fc : fc_state) : fc_state :=
  let fc := fc <| s_tenant_index ::= (fun _ => zrep (fc_tidx_buckets fc) FC_TIDX_EMPTY) |>
               <| s_tenant_tombs := 0 |> in
  foldl relay_slot fc (zseq (s_tenant_slots fc)).

(** The backward walk of a deletion at the end of a run. *)
Fixpoint drop_tombs (fc : fc_state) (k : nat) (b : Z) : fc_state :=
  match k with
  | O => fc
  | S k =>
      let b := if b =? 0 then fc_tidx_buckets fc - 1 else b - 1 in
      if negb (iget fc b =? FC_TIDX_TOMB) then fc
      else drop_tombs (iset b FC_TIDX_EMPTY fc <| s_tenant_tombs ::= (fun n => n - 1) |>) k b
  end.
Definition fc_tidx_drop (fc : fc_state) (key : Z) : fc_state :=
  let nb := fc_tidx_buckets fc in
  let b := fst (fc_tidx_find fc key) in
  if b =? nb then fc
  else if iget fc (fc_tidx_next fc b) =? FC_TIDX_EMPTY
  then drop_tombs (iset b FC_TIDX_EMPTY fc) (Z.to_nat nb) b
  else
    let fc := iset b FC_TIDX_TOMB fc <| s_tenant_tombs ::= Z.add 1 |> in
    if s_tenant_tombs fc >? nb / 4 then fc_tidx_relay fc else fc.

(** ** Operations *)

(** One anomaly counter up. *)
Definition fc_anomaly (a : Z) (w : world) : world :=
  w <| w_anomaly ::= (fun l => zmod l a (fun n => u64 (n + 1))) |>.

(** A fresh tenant in a slot. *)
Definition tenant_take (key : Z) (t : fc_tenant) : fc_tenant :=
  t <| t_used := true |> <| t_key := key |> <| t_inflight := 0 |> <| t_queued := 0 |>
    <| t_waiting_runnable := false |>.

(** The tenant's slot, taken when it has none: -1 when there is no table. *)
Definition fc_tenant_get (calloc : Z → bool) (w : world) (key : Z) (count : bool) : world * Z :=
  let '(fc, ok) := fc_tenant_table_ensure calloc (w_fc w) in
  let w := w <| w_fc := fc |> in
  if negb ok then (w, -1)
  else
    let nb := fc_tidx_buckets fc in
    let '(b, free_bkt) := fc_tidx_find fc key in
    if negb (b =? nb) then (w, iget fc b - 1)
    else
      let slot := s_tenant_free fc in
      if slot >=? s_tenant_slots fc then
        let slot := s_tenant_slots fc in
        let w := if count then fc_anomaly FC_A_TENANT_TABLE_FULL w else w in
        if negb (t_used (tget fc slot))
        then (on_fc (fun fc => tmod slot (tenant_take key) fc <| s_tenants_used ::= Z.add 1 |>) w, slot)
        else (w, slot)
      else
        let next := t_next_free (tget fc slot) in
        let fc := tmod slot (tenant_take key)
                    (fc <| s_tenant_free := next |>) <| s_tenants_used ::= Z.add 1 |> in
        let fc := if iget fc free_bkt =? FC_TIDX_TOMB
                  then fc <| s_tenant_tombs ::= (fun n => n - 1) |> else fc in
        (w <| w_fc := iset free_bkt (u16 (slot + 1)) fc |>, slot).

(** A slot holding nothing is free again. *)
Definition fc_tenant_put (fc : fc_state) (slot : Z) : fc_state :=
  if negb (bool_decide (is_Some (s_tenants fc))) || (slot <? 0) || (slot >? s_tenant_slots fc)
  then fc
  else
    let t := tget fc slot in
    if negb (t_used t) || negb (t_inflight t =? 0) || negb (t_queued t =? 0) then fc
    else
      let fc := tmod slot (fun t => t <| t_used := false |>) fc
                  <| s_tenants_used ::= (fun n => n - 1) |> in
      if slot =? s_tenant_slots fc then fc
      else
        let fc := fc_tidx_drop fc (t_key t) in
        let fc := tmod slot (fun t => t <| t_next_free := u16 (s_tenant_free fc) |>) fc
                    <| s_tenant_free := slot |> in
        if negb (s_tenant_tombs fc =? 0)
           && (s_tenants_used fc =? Z.b2z (t_used (tget fc (s_tenant_slots fc))))
        then fc_tidx_relay fc else fc.

(** Keep a slot's place in the count of tenants that wait and could run. *)
Definition tenant_runnable (bound : Z) (t : fc_tenant) : bool :=
  t_used t && (t_queued t >? 0) && ((bound =? 0) || (t_inflight t <? bound)).
Definition fc_tenant_mark (fc : fc_state) (slot : Z) : fc_state :=
  let t := tget fc slot in
  let runnable := tenant_runnable (s_tenant_bound fc) t in
  if Bool.eqb runnable (t_waiting_runnable t) then fc
  else
    tmod slot (fun t => t <| t_waiting_runnable := runnable |>) fc
      <| s_tenants_runnable_waiting ::= (fun n => if runnable then n + 1 else n - 1) |>.

(** Move one count of the slot down, never below zero. *)
Definition fc_tenant_dec (w : world) (slot : Z) (queued : bool) : world :=
  let fc := w_fc w in
  if negb (bool_decide (is_Some (s_tenants fc))) || (slot <? 0) || (slot >? s_tenant_slots fc)
     || negb (t_used (tget fc slot))
  then w
  else
    let t := tget fc slot in
    let ctr := if queued then t_queued t else t_inflight t in
    let w :=
      if ctr =? 0 then fc_anomaly FC_A_UNDERFLOW w
      else on_fc (tmod slot (fun t =>
             if queued then t <| t_queued ::= (fun n => n - 1) |>
             else t <| t_inflight ::= (fun n => n - 1) |>)) w in
    on_fc (fun fc => fc_tenant_put (fc_tenant_mark fc slot) slot) w.

Definition fc_tenant_can_run (fc : fc_state) (slot bound : Z) : bool :=
  (slot <? 0) || (bound =? 0) || negb (bool_decide (is_Some (s_tenants fc)))
  || (t_inflight (tget fc slot) <? bound).

(** Whether anybody waiting could take a unit now; the count is taken again
    when the bound moved. *)
Definition fc_tenant_waiter_can_run (fc : fc_state) (bound : Z) : fc_state * bool :=
  if negb (bool_decide (is_Some (s_tenants fc))) then (fc, false)
  else
    let remark fc i := fc_tenant_mark (tmod i (fun t => t <| t_waiting_runnable := false |>) fc) i in
    let fc :=
      if negb (bound =? s_tenant_bound fc)
      then foldl remark (fc <| s_tenant_bound := bound |> <| s_tenants_runnable_waiting := 0 |>)
             (zseq (s_tenant_slots fc + 1))
      else fc in
    (fc, s_tenants_runnable_waiting fc >? 0).

(** ** The index as a finite map *)

(** The [k]-th bucket of a key's probe run. *)
Definition probe_at (fc : fc_state) (key : Z) (k : nat) : Z :=
  (fc_tidx_home fc key + Z.of_nat k) mod fc_tidx_buckets fc.

(** A bucket that holds no slot. *)
Definition bkt_free (v : Z) : Prop := v = FC_TIDX_EMPTY ∨ v = FC_TIDX_TOMB.

(** [own i] is the key the index finds slot [i] by. *)
Record index_wf (fc : fc_state) (own : Z → option Z) : Prop := {
  ix_slots : 0 < s_tenant_slots fc ≤ FC_TENANT_SLOTS_MAX;
  ix_len : zlen (s_tenant_index fc) = fc_tidx_buckets fc;
  ix_range : ∀ i key, own i = Some key → 0 ≤ i < s_tenant_slots fc;
  ix_key : ∀ i key, own i = Some key → t_key (tget fc i) = key;
  ix_inj : ∀ i j key, own i = Some key → own j = Some key → i = j;
  ix_bkt : ∀ b, 0 ≤ b < fc_tidx_buckets fc →
    bkt_free (iget fc b) ∨ ∃ i key, own i = Some key ∧ iget fc b = i + 1;
  ix_found : ∀ i key, own i = Some key → ∃ k,
    Z.of_nat k < fc_tidx_buckets fc ∧ iget fc (probe_at fc key k) = i + 1 ∧
    ∀ j, (j < k)%nat → iget fc (probe_at fc key j) ≠ FC_TIDX_EMPTY;
  ix_uniq : ∀ b b', 0 ≤ b < fc_tidx_buckets fc → 0 ≤ b' < fc_tidx_buckets fc →
    iget fc b = iget fc b' → bkt_free (iget fc b) ∨ b = b'
}.

Lemma slot_not_free fc own i key : index_wf fc own → own i = Some key → ¬ bkt_free (i + 1).
Proof.
  intros Hw Ho. pose proof (ix_range _ _ Hw _ _ Ho). pose proof (ix_slots _ _ Hw).
  unfold bkt_free, FC_TIDX_EMPTY, FC_TIDX_TOMB, FC_TENANT_SLOTS_MAX in *. lia.
Qed.

Lemma home_bound fc own key : index_wf fc own → 0 ≤ fc_tidx_home fc key < fc_tidx_buckets fc.
Proof.
  intros Hw. pose proof (ix_slots _ _ Hw). apply Z.mod_pos_bound. unfold fc_tidx_buckets. lia.
Qed.

Lemma probe_bound fc own key k : index_wf fc own → 0 ≤ probe_at fc key k < fc_tidx_buckets fc.
Proof.
  intros Hw. pose proof (ix_slots _ _ Hw). apply Z.mod_pos_bound. unfold fc_tidx_buckets. lia.
Qed.

Lemma probe_next fc own key k :
  index_wf fc own → fc_tidx_next fc (probe_at fc key k) = probe_at fc key (S k).
Proof.
  intros Hw. pose proof (ix_slots _ _ Hw). pose proof (probe_bound fc own key k Hw) as Hb.
  unfold fc_tidx_next, probe_at in *. set (nb := fc_tidx_buckets fc) in *.
  assert (0 < nb) by (unfold nb, fc_tidx_buckets; lia).
  replace (fc_tidx_home fc key + Z.of_nat (S k)) with (fc_tidx_home fc key + Z.of_nat k + 1) by lia.
  rewrite <- (Zplus_mod_idemp_l (fc_tidx_home fc key + Z.of_nat k) 1).
  case_test; zbool; symmetry.
  - rewrite E. apply Z.mod_same. lia.
  - apply Z.mod_small. lia.
Qed.

Lemma probe_0 fc own key : index_wf fc own → probe_at fc key 0 = fc_tidx_home fc key.
Proof.
  intros Hw. pose proof (home_bound fc own key Hw). unfold probe_at. rewrite Z.add_0_r.
  apply Z.mod_small. lia.
Qed.

Lemma probe_inj fc own key j k :
  index_wf fc own → Z.of_nat j < fc_tidx_buckets fc → Z.of_nat k < fc_tidx_buckets fc →
  probe_at fc key j = probe_at fc key k → j = k.
Proof.
  intros Hw Hj Hk. pose proof (home_bound fc own key Hw). unfold probe_at.
  set (h := fc_tidx_home fc key) in *. set (nb := fc_tidx_buckets fc) in *. intros Heq.
  rewrite (Z.mod_eq (h + Z.of_nat j)), (Z.mod_eq (h + Z.of_nat k)) in Heq by lia.
  set (a := (h + Z.of_nat j) / nb) in *. set (c := (h + Z.of_nat k) / nb) in *.
  assert (a = c) by nia. nia.
Qed.

Lemma probe_onto fc own key b :
  index_wf fc own → 0 ≤ b < fc_tidx_buckets fc →
  ∃ k, Z.of_nat k < fc_tidx_buckets fc ∧ probe_at fc key k = b.
Proof.
  intros Hw Hb. pose proof (home_bound fc own key Hw). unfold probe_at.
  set (h := fc_tidx_home fc key) in *. set (nb := fc_tidx_buckets fc) in *.
  destruct (decide (h ≤ b)).
  - exists (Z.to_nat (b - h)). rewrite Z2Nat.id by lia. split; [lia|].
    replace (h + (b - h)) with b by lia. apply Z.mod_small. lia.
  - exists (Z.to_nat (b - h + nb)). rewrite Z2Nat.id by lia. split; [lia|].
    replace (h + (b - h + nb)) with (b + 1 * nb) by lia. rewrite Z.mod_add by lia.
    apply Z.mod_small. lia.
Qed.

(** More buckets than slots: one is always free. *)
Lemma bucket_free fc own :
  index_wf fc own → ∃ b, 0 ≤ b < fc_tidx_buckets fc ∧ bkt_free (iget fc b).
Proof.
  intros Hw. pose proof (ix_slots _ _ Hw) as Hs.
  set (n := Z.to_nat (s_tenant_slots fc)). set (vals := (fun b => iget fc (Z.of_nat b)) <$> seq 0 (S n)).
  assert (Hd : Exists bkt_free vals ∨ ¬ Exists bkt_free vals).
  { destruct (decide (Exists (fun v => v = FC_TIDX_EMPTY ∨ v = FC_TIDX_TOMB) vals)); auto. }
  assert (Hnb : Z.of_nat (S n) ≤ fc_tidx_buckets fc) by (unfold fc_tidx_buckets; lia).
  destruct Hd as [Hex|Hno].
  { apply Exists_exists in Hex as (v & Hv & Hf). apply list_elem_of_fmap in Hv as (b & -> & Hb).
    apply elem_of_seq in Hb. exists (Z.of_nat b). split; [lia|done]. }
  exfalso. assert (Hnf : ∀ b, (b < S n)%nat → ¬ bkt_free (iget fc (Z.of_nat b))).
  { intros b Hb Hf. apply Hno. apply Exists_exists. eexists. split; [|exact Hf].
    apply list_elem_of_fmap. exists b. split; [done|]. apply elem_of_seq. lia. }
  assert (NoDup vals) as Hnd.
  { apply NoDup_fmap_2_strong; [|apply NoDup_seq]. intros x y Hx Hy Heq.
    apply elem_of_seq in Hx, Hy.
    destruct (ix_uniq _ _ Hw (Z.of_nat x) (Z.of_nat y)) as [Hf|?]; try lia.
    exfalso. eapply (Hnf x); [lia|done]. }
  assert (vals ⊆ Z.of_nat <$> seq 1 n) as Hsub.
  { intros v Hv. apply list_elem_of_fmap in Hv as (b & -> & Hb). apply elem_of_seq in Hb.
    destruct (ix_bkt _ _ Hw (Z.of_nat b)) as [Hf|(i & key & Ho & ->)]; [lia|exfalso; eapply Hnf; [|done]; lia|].
    pose proof (ix_range _ _ Hw _ _ Ho). apply list_elem_of_fmap. exists (Z.to_nat (i + 1)).
    split; [lia|]. apply elem_of_seq. lia. }
  apply (NoDup_submseteq _ _ Hnd), submseteq_length in Hsub.
  unfold vals in Hsub. rewrite !length_fmap, !length_seq in Hsub. lia.
Qed.

(** Free buckets along a key's run: the first one that is empty or a tombstone. *)
Definition free_run (fc : fc_state) (key : Z) (m : nat) : Prop :=
  Z.of_nat m < fc_tidx_buckets fc ∧ bkt_free (iget fc (probe_at fc key m)) ∧
  ∀ j, (j < m)%nat → iget fc (probe_at fc key j) ≠ FC_TIDX_EMPTY.

(** A key with a slot: the probe stops at its bucket. *)
Lemma probe_hit fc own key i n k fr K :
  index_wf fc own → own i = Some key → Z.of_nat K < fc_tidx_buckets fc →
  iget fc (probe_at fc key K) = i + 1 →
  (∀ j, (j < K)%nat → iget fc (probe_at fc key j) ≠ FC_TIDX_EMPTY) →
  (k ≤ K)%nat → (K < n + k)%nat →
  fst (tidx_probe fc key n (probe_at fc key k) fr) = probe_at fc key K.
Proof.
  intros Hw Ho HK Hi Hne. revert k fr. induction n as [|n IH]; intros k fr Hk Hn; [lia|].
  cbn [tidx_probe]. destruct (decide (k = K)) as [->|Hkk].
  { rewrite Hi. pose proof (slot_not_free _ _ _ _ Hw Ho) as Hnf. unfold bkt_free in Hnf.
    destruct (i + 1 =? FC_TIDX_EMPTY) eqn:E1; zbool; [tauto|].
    destruct (i + 1 =? FC_TIDX_TOMB) eqn:E2; zbool; [tauto|].
    replace (i + 1 - 1) with i by lia. by rewrite (ix_key _ _ Hw _ _ Ho), Z.eqb_refl. }
  specialize (Hne k ltac:(lia)) as Hk0.
  destruct (iget fc (probe_at fc key k) =? FC_TIDX_EMPTY) eqn:E1; zbool; [done|].
  rewrite (probe_next _ _ _ _ Hw).
  destruct (iget fc (probe_at fc key k) =? FC_TIDX_TOMB) eqn:E2; zbool; [apply IH; lia|].
  destruct (_ =? key) eqn:E3; zbool; [|apply IH; lia]. exfalso.
  pose proof (probe_bound _ _ key k Hw) as Hb. pose proof (probe_bound _ _ key K Hw) as HbK.
  destruct (ix_bkt _ _ Hw _ Hb) as [[?|?]|(j & key' & Hoj & Hv)]; [done..|].
  rewrite Hv in E3. replace (j + 1 - 1) with j in E3 by lia.
  rewrite (ix_key _ _ Hw _ _ Hoj) in E3. subst key'. assert (j = i) as -> by (by eapply ix_inj).
  destruct (ix_uniq _ _ Hw _ _ Hb HbK) as [Hf|Heq]; [congruence| |].
  - rewrite Hv in Hf. by eapply slot_not_free in Hf.
  - apply (probe_inj _ own) in Heq; [lia|done|lia|lia].
Qed.

(** A key with no slot: the probe reports none, and the bucket to use. *)
Lemma probe_miss fc own key n k fr :
  index_wf fc own → (∀ i, own i ≠ Some key) → (n + k = Z.to_nat (fc_tidx_buckets fc))%nat →
  (∀ j, (j < k)%nat → iget fc (probe_at fc key j) ≠ FC_TIDX_EMPTY) →
  (fr = fc_tidx_buckets fc ∧ ∀ j, (j < k)%nat → ¬ bkt_free (iget fc (probe_at fc key j))) ∨
  (∃ m, free_run fc key m ∧ fr = probe_at fc key m) →
  ∃ f, tidx_probe fc key n (probe_at fc key k) fr = (fc_tidx_buckets fc, f) ∧
    ∃ m, free_run fc key m ∧ f = probe_at fc key m.
Proof.
  intros Hw Hno. pose proof (ix_slots _ _ Hw) as Hs. revert k fr.
  induction n as [|n IH]; intros k fr Hn Hne Hfr; cbn [tidx_probe].
  { exists fr. split; [done|]. destruct Hfr as [[_ Hall]|?]; [exfalso|done].
    destruct (bucket_free _ _ Hw) as (b & Hb & Hf).
    destruct (probe_onto _ _ key b Hw Hb) as (j & Hj & <-). apply (Hall j); [lia|done]. }
  assert (Hkk : Z.of_nat k < fc_tidx_buckets fc) by lia.
  pose proof (probe_bound _ _ key k Hw) as Hb. set (v := iget fc (probe_at fc key k)) in *.
  assert (Hfree : bkt_free v → ∃ m, free_run fc key m ∧
    (if fr =? fc_tidx_buckets fc then probe_at fc key k else fr) = probe_at fc key m).
  { intros Hv. destruct (fr =? fc_tidx_buckets fc) eqn:E; zbool.
    - exists k. by split.
    - by destruct Hfr as [[? _]|?]. }
  destruct (v =? FC_TIDX_EMPTY) eqn:E1; zbool.
  { eexists. split; [done|]. apply Hfree. by left. }
  rewrite (probe_next _ _ _ _ Hw).
  assert (Hne' : ∀ j, (j < S k)%nat → iget fc (probe_at fc key j) ≠ FC_TIDX_EMPTY).
  { intros j Hj. destruct (decide (j = k)) as [->|]; [done|apply Hne; lia]. }
  destruct (v =? FC_TIDX_TOMB) eqn:E2; zbool.
  { apply IH; [lia|done|]. right. apply Hfree. by right. }
  destruct (ix_bkt _ _ Hw _ Hb) as [[?|?]|(i & key' & Ho & Hv)]; [done..|]. fold v in Hv.
  rewrite Hv. replace (i + 1 - 1) with i by lia. rewrite (ix_key _ _ Hw _ _ Ho).
  destruct (key' =? key) eqn:E3; zbool; [by subst; apply Hno in Ho|].
  apply IH; [lia|done|]. destruct Hfr as [[? Hall]|?]; [left|by right]. split; [done|].
  intros j Hj. destruct (decide (j = k)) as [->|]; [fold v; intros []; done|apply Hall; lia].
Qed.

Lemma find_hit fc own key i :
  index_wf fc own → own i = Some key →
  let b := fst (fc_tidx_find fc key) in
  0 ≤ b < fc_tidx_buckets fc ∧ iget fc b = i + 1.
Proof.
  intros Hw Ho. destruct (ix_found _ _ Hw _ _ Ho) as (K & HK & Hi & Hne).
  unfold fc_tidx_find. rewrite <- (probe_0 _ _ key Hw).
  rewrite (probe_hit fc own key i _ 0 _ K) by (done || lia). split; [by eapply probe_bound|done].
Qed.

Lemma find_miss fc own key :
  index_wf fc own → (∀ i, own i ≠ Some key) →
  fst (fc_tidx_find fc key) = fc_tidx_buckets fc ∧
  ∃ m, free_run fc key m ∧ snd (fc_tidx_find fc key) = probe_at fc key m.
Proof.
  intros Hw Hno. unfold fc_tidx_find. rewrite <- (probe_0 _ _ key Hw).
  destruct (probe_miss fc own key (Z.to_nat (fc_tidx_buckets fc)) 0 (fc_tidx_buckets fc))
    as (f & -> & m & Hm & ->); [done|done|lia|lia|left; split; [done|lia]|].
  split; [done|]. by exists m.
Qed.

(** ** Updating the index *)

Definition own_set (own : Z → option Z) (i : Z) (k : option Z) : Z → option Z :=
  fun j => if decide (j = i) then k else own j.

Lemma own_set_eq own i k : own_set own i k i = k.
Proof. unfold own_set. by rewrite decide_True. Qed.
Lemma own_set_ne own i j k : j ≠ i → own_set own i k j = own j.
Proof. intros. unfold own_set. by rewrite decide_False. Qed.
Lemma own_set_some own i k j key :
  own_set own i (Some k) j = Some key → (j = i ∧ key = k) ∨ (j ≠ i ∧ own j = Some key).
Proof. unfold own_set. case_decide; [intros; simplify_eq; auto|auto]. Qed.
Lemma own_set_none own i j key :
  own_set own i None j = Some key → j ≠ i ∧ own j = Some key.
Proof. unfold own_set. by case_decide. Qed.

(** The index only reads the slot count, the buckets and the owners' keys. *)
Lemma index_wf_same fc fc' own own' :
  index_wf fc own → (∀ i, own' i = own i) → s_tenant_slots fc' = s_tenant_slots fc →
  s_tenant_index fc' = s_tenant_index fc →
  (∀ i key, own i = Some key → t_key (tget fc' i) = key) → index_wf fc' own'.
Proof.
  intros [] Ho Hs Hi Hk.
  assert (Hp : ∀ key k, probe_at fc' key k = probe_at fc key k)
    by (intros; unfold probe_at, fc_tidx_home, fc_tidx_buckets; by rewrite Hs).
  assert (Hg : ∀ b, iget fc' b = iget fc b) by (intros; unfold iget; by rewrite Hi).
  assert (Hn : fc_tidx_buckets fc' = fc_tidx_buckets fc) by (unfold fc_tidx_buckets; by rewrite Hs).
  split; rewrite ?Hs, ?Hi, ?Hn; try done.
  - intros i key. rewrite Ho. apply ix_range0.
  - intros i key. rewrite Ho. apply Hk.
  - intros i j key. rewrite !Ho. apply ix_inj0.
  - intros b Hb. rewrite Hg. destruct (ix_bkt0 b Hb) as [?|(i & key & ?)]; [by left|right].
    exists i, key. by rewrite Ho.
  - intros i key. rewrite Ho. intros Hok. destruct (ix_found0 i key Hok) as (k & ? & ? & Hj).
    exists k. rewrite Hp, Hg. split_and!; [done..|]. intros j ?. rewrite Hp, Hg. by apply Hj.
  - intros b b'. rewrite !Hg. apply ix_uniq0.
Qed.

Lemma iget_iset_eq fc own b v :
  index_wf fc own → 0 ≤ b < fc_tidx_buckets fc → iget (iset b v fc) b = v.
Proof. intros Hw Hb. unfold iget, iset. simpl. apply zget_zset_eq. by rewrite (ix_len _ _ Hw). Qed.
Lemma iget_iset_ne fc b c v : 0 ≤ b → 0 ≤ c → b ≠ c → iget (iset b v fc) c = iget fc c.
Proof. intros. unfold iget, iset. simpl. by apply zget_zset_ne. Qed.
Lemma iset_iset b v v' fc : iset b v' (iset b v fc) = iset b v' fc.
Proof. unfold iset, zset. destruct fc; simpl. f_equal. apply list_insert_insert_eq. Qed.

(** A new slot goes in a free bucket of its key's run. *)
Lemma index_insert fc own i key m :
  index_wf fc own → own i = None → (∀ j, own j ≠ Some key) → 0 ≤ i < s_tenant_slots fc →
  t_key (tget fc i) = key → free_run fc key m →
  index_wf (iset (probe_at fc key m) (i + 1) fc) (own_set own i (Some key)).
Proof.
  intros Hw Hi Hno Hr Hkey (Hm & Hfree & Hne). set (b := probe_at fc key m).
  pose proof (probe_bound _ _ key m Hw) as Hb. fold b in Hb, Hfree. pose proof (ix_slots _ _ Hw) as Hs.
  assert (Hnf : ¬ bkt_free (i + 1)).
  { unfold bkt_free, FC_TIDX_EMPTY, FC_TIDX_TOMB, FC_TENANT_SLOTS_MAX in *. lia. }
  assert (Hget : ∀ c, 0 ≤ c → iget (iset b (i + 1) fc) c = if decide (c = b) then i + 1 else iget fc c).
  { intros c Hc. case_decide; [subst; by eapply iget_iset_eq|]. apply iget_iset_ne; lia. }
  assert (Hpb : ∀ k' j, 0 ≤ probe_at fc k' j) by (intros; by eapply probe_bound).
  assert (Hnm : ∀ j k', own j = Some k' → ∀ c, iget fc c = j + 1 → c ≠ b).
  { intros j k' Hj c Hc ->. rewrite Hc in Hfree. by eapply slot_not_free in Hfree. }
  destruct Hw as [Hs1 Hlen Hrange Hk Hinj Hbkt Hfound Huniq]. split; try done.
  - unfold iset. simpl. by rewrite zlen_zset.
  - intros j k' [[-> ->]|[_ ?]]%own_set_some; [done|by eapply Hrange].
  - intros j k' [[-> ->]|[_ ?]]%own_set_some; [done|by apply Hk].
  - intros j j' k' [[-> ->]|[? ?]]%own_set_some [[-> ?]|[? ?]]%own_set_some; subst; try done.
    + by eapply Hno in H0.
    + by eapply Hno in H0.
    + by eapply Hinj.
  - intros c Hc. rewrite Hget by lia. case_decide.
    + right. exists i, key. by rewrite own_set_eq.
    + destruct (Hbkt c Hc) as [?|(j & k' & Hj & Hv)]; [by left|right]. exists j, k'.
      rewrite own_set_ne; [done|]. intros ->. congruence.
  - intros j k' [[-> ->]|[Hji Hj]]%own_set_some.
    + exists m. change (probe_at (iset b (i + 1) fc)) with (probe_at fc).
      split; [done|]. fold b. rewrite Hget by lia. rewrite decide_True by done. split; [done|].
      intros j Hj. rewrite Hget by done. case_decide; [|by apply Hne].
      intros ?. apply Hnf. by left.
    + destruct (Hfound j k' Hj) as (k & Hk' & Hv & Hn). exists k.
      change (probe_at (iset b (i + 1) fc)) with (probe_at fc). split; [done|].
      rewrite Hget by done. rewrite decide_False by (by eapply Hnm). split; [done|].
      intros l Hl. rewrite Hget by done. case_decide; [|by apply Hn]. intros ?. apply Hnf. by left.
  - intros c c' Hc Hc'. rewrite !Hget by lia. repeat case_decide; subst; auto; intros Heq.
    + destruct (Hbkt c' Hc') as [?|(j & k' & Hj & Hv)]; [rewrite Heq; auto|].
      assert (i = j) as -> by lia. congruence.
    + destruct (Hbkt c Hc) as [?|(j & k' & Hj & Hv)]; [auto|].
      assert (i = j) as -> by lia. congruence.
Qed.

(** Deletion: the bucket becomes a tombstone. *)
Lemma index_tomb fc own i key b :
  index_wf fc own → own i = Some key → 0 ≤ b < fc_tidx_buckets fc → iget fc b = i + 1 →
  index_wf (iset b FC_TIDX_TOMB fc) (own_set own i None).
Proof.
  intros Hw Hi Hb Hv. assert (Hget : ∀ c, 0 ≤ c →
    iget (iset b FC_TIDX_TOMB fc) c = if decide (c = b) then FC_TIDX_TOMB else iget fc c).
  { intros c Hc. case_decide; [subst; by eapply iget_iset_eq|]. apply iget_iset_ne; lia. }
  assert (Hpb : ∀ k' j, 0 ≤ probe_at fc k' j) by (intros; by eapply probe_bound).
  destruct Hw as [Hs1 Hlen Hrange Hk Hinj Hbkt Hfound Huniq]. split; try done.
  - unfold iset. simpl. by rewrite zlen_zset.
  - intros j k' [_ ?]%own_set_none. by eapply Hrange.
  - intros j k' [_ ?]%own_set_none. by eapply Hk.
  - intros j j' k' [_ ?]%own_set_none [_ ?]%own_set_none. by eapply Hinj.
  - intros c Hc. rewrite Hget by lia. case_decide; [by left; right|].
    destruct (Hbkt c Hc) as [?|(j & k' & Hj & Hv')]; [by left|].
    destruct (decide (j = i)) as [->|].
    + destruct (Huniq c b Hc Hb); [congruence|by left|done].
    + right. exists j, k'. by rewrite own_set_ne.
  - intros j k' [Hji Hj]%own_set_none. destruct (Hfound j k' Hj) as (k & Hk' & Hv' & Hn). exists k.
    change (probe_at (iset b FC_TIDX_TOMB fc)) with (probe_at fc). split; [done|].
    rewrite Hget by done. rewrite decide_False by (intros Heq; rewrite Heq in Hv'; lia).
    split; [done|]. intros l Hl. rewrite Hget by done. by case_decide; [|apply Hn].
  - intros c c' Hc Hc'. rewrite !Hget by lia. repeat case_decide; subst; auto; intros Heq.
    + left. by right.
    + left. by right.
Qed.

(** A tombstone before an empty bucket may be emptied: no run passes it. *)
Lemma index_empty fc own b :
  index_wf fc own → 0 ≤ b < fc_tidx_buckets fc → iget fc b = FC_TIDX_TOMB →
  iget fc (fc_tidx_next fc b) = FC_TIDX_EMPTY → index_wf (iset b FC_TIDX_EMPTY fc) own.
Proof.
  intros Hw Hb Hv Hnext. assert (Hget : ∀ c, 0 ≤ c →
    iget (iset b FC_TIDX_EMPTY fc) c = if decide (c = b) then FC_TIDX_EMPTY else iget fc c).
  { intros c Hc. case_decide; [subst; by eapply iget_iset_eq|]. apply iget_iset_ne; lia. }
  assert (Hpb : ∀ k' j, 0 ≤ probe_at fc k' j) by (intros; by eapply probe_bound).
  pose proof Hw as [Hs1 Hlen Hrange Hk Hinj Hbkt Hfound Huniq]. split; try done.
  - unfold iset. simpl. by rewrite zlen_zset.
  - intros c Hc. rewrite Hget by lia. case_decide; [by left; left|]. by apply Hbkt.
  - intros j k' Hj. destruct (Hfound j k' Hj) as (k & Hk' & Hv' & Hn). exists k.
    pose proof (slot_not_free _ _ _ _ Hw Hj) as Hnf.
    change (probe_at (iset b FC_TIDX_EMPTY fc)) with (probe_at fc). split; [done|].
    rewrite Hget by done. rewrite decide_False.
    2:{ intros Heq. rewrite Heq, Hv in Hv'. apply Hnf. rewrite <- Hv'. by right. }
    split; [done|]. intros l Hl. rewrite Hget by done. case_decide as Hd; [|by apply Hn].
    rewrite <- Hd, (probe_next _ _ _ _ Hw) in Hnext. destruct (decide (S l = k)) as [<-|].
    + exfalso. apply Hnf. rewrite <- Hv', Hnext. by left.
    + exfalso. apply (Hn (S l)); [lia|done].
  - intros c c' Hc Hc'. rewrite !Hget by lia. repeat case_decide; subst; auto; intros Heq.
    + left. by left.
    + left. by left.
Qed.

Definition tombs (fc : fc_state) : Z := zcount (fun v => v =? FC_TIDX_TOMB) (s_tenant_index fc).

Lemma tombs_iset fc own b v :
  index_wf fc own → 0 ≤ b < fc_tidx_buckets fc →
  tombs (iset b v fc)
  = tombs fc - Z.b2z (iget fc b =? FC_TIDX_TOMB) + Z.b2z (v =? FC_TIDX_TOMB).
Proof.
  intros Hw Hb. unfold tombs, iset, zset, iget, zget. simpl.
  apply (zcount_insert (fun v => v =? FC_TIDX_TOMB)). apply list_lookup_lookup_total_lt.
  pose proof (ix_len _ _ Hw). unfold zlen in *. lia.
Qed.

(** ** Deletion and re-layout *)

(** Only the index and its tombstone count moved. *)
Definition index_only (fc fc' : fc_state) : Prop :=
  ∃ ix n, fc' = fc <| s_tenant_index := ix |> <| s_tenant_tombs := n |>.

Lemma index_only_refl fc : index_only fc fc.
Proof. exists (s_tenant_index fc), (s_tenant_tombs fc). by destruct fc. Qed.
Lemma index_only_trans fc1 fc2 fc3 : index_only fc1 fc2 → index_only fc2 fc3 → index_only fc1 fc3.
Proof. intros (ix & n & ->) (ix' & n' & ->). exists ix', n'. by destruct fc1. Qed.
Lemma index_only_iset fc b v : index_only fc (iset b v fc).
Proof. exists (zset (s_tenant_index fc) b v), (s_tenant_tombs fc). by destruct fc. Qed.
#[local] Hint Resolve index_only_refl index_only_iset : lxb.

(** The index with its tombstones counted. *)
Definition index_ok (fc : fc_state) (own : Z → option Z) : Prop :=
  index_wf fc own ∧ s_tenant_tombs fc = tombs fc.

Lemma prev_bucket fc own b :
  index_wf fc own → 0 ≤ b < fc_tidx_buckets fc →
  let p := if b =? 0 then fc_tidx_buckets fc - 1 else b - 1 in
  0 ≤ p < fc_tidx_buckets fc ∧ fc_tidx_next fc p = b.
Proof.
  intros Hw Hb. unfold fc_tidx_next. repeat case_test; zbool; lia.
Qed.

Lemma drop_tombs_spec k fc own b :
  index_ok fc own → 0 ≤ b < fc_tidx_buckets fc → iget fc b = FC_TIDX_EMPTY →
  index_ok (drop_tombs fc k b) own ∧ index_only fc (drop_tombs fc k b).
Proof.
  revert fc b. induction k as [|k IH]; intros fc b [Hw Ht] Hb Hv; cbn [drop_tombs].
  { split; [done|apply index_only_refl]. }
  destruct (prev_bucket fc own b Hw Hb) as [Hp Hn]. set (p := if b =? 0 then _ else _) in *.
  destruct (iget fc p =? FC_TIDX_TOMB) eqn:E; cbn [negb]; zbool.
  2:{ split; [done|apply index_only_refl]. }
  assert (Hw' := index_empty fc own p Hw Hp E ltac:(by rewrite Hn)).
  assert (Ht' := tombs_iset fc own p FC_TIDX_EMPTY Hw Hp). rewrite E in Ht'. simpl in Ht'.
  set (fc' := iset p FC_TIDX_EMPTY _).
  destruct (IH fc' p) as [? Ho].
  - split; [eapply index_wf_same; [exact Hw'|done..|apply (ix_key _ _ Hw')]|].
    change (tombs fc') with (tombs (iset p FC_TIDX_EMPTY fc)). unfold fc'. simpl. lia.
  - done.
  - by apply (iget_iset_eq fc own).
  - split; [done|]. eapply index_only_trans; [|done]. eexists _, _. unfold fc'. by destruct fc.
Qed.

(** How many slots of a list are in use below [i]. *)
Definition own_of (fc : fc_state) (i : Z) : option Z :=
  if (0 <=? i) && (i <? s_tenant_slots fc) && t_used (tget fc i)
  then Some (t_key (tget fc i)) else None.

Lemma own_of_some fc i key :
  own_of fc i = Some key ↔
  0 ≤ i < s_tenant_slots fc ∧ t_used (tget fc i) = true ∧ t_key (tget fc i) = key.
Proof.
  unfold own_of. split.
  - case_test; intros; simplify_eq. zbool. done.
  - intros ([? ?] & Hu & <-). rewrite Hu.
    replace (0 <=? i) with true by (symmetry; apply Z.leb_le; lia).
    by replace (i <? s_tenant_slots fc) with true by (symmetry; apply Z.ltb_lt; lia).
Qed.

(** The owners among the slots below [n]. *)
Definition own_upto (own : Z → option Z) (n : Z) : Z → option Z :=
  fun i => if decide (i < n) then own i else None.

Lemma seek_spec fc own key n k :
  index_wf fc own → tombs fc = 0 → (n + k = Z.to_nat (fc_tidx_buckets fc))%nat →
  (∀ j, (j < k)%nat → iget fc (probe_at fc key j) ≠ FC_TIDX_EMPTY) →
  ∃ m, free_run fc key m ∧ relay_seek fc n (probe_at fc key k) = probe_at fc key m.
Proof.
  intros Hw Ht. pose proof (ix_slots _ _ Hw) as Hs. revert k.
  assert (Hnt : ∀ b, 0 ≤ b < fc_tidx_buckets fc → iget fc b ≠ FC_TIDX_TOMB).
  { intros b Hb He. assert (1 ≤ tombs fc); [|lia]. unfold tombs.
    apply (zcount_pos _ _ (iget fc b)); [|by rewrite He]. unfold iget, zget.
    apply list_elem_of_lookup_total_2. pose proof (ix_len _ _ Hw). unfold zlen in *. lia. }
  induction n as [|n IH]; intros k Hn Hne; cbn [relay_seek].
  { exfalso. destruct (bucket_free _ _ Hw) as (b & Hb & [Hf|Hf]); [|by apply (Hnt b)].
    destruct (probe_onto _ _ key b Hw Hb) as (j & Hj & <-). apply (Hne j); [lia|done]. }
  destruct (iget fc (probe_at fc key k) =? FC_TIDX_EMPTY) eqn:E; cbn [negb]; zbool.
  { exists k. split; [|done]. split; [lia|]. split; [by left|done]. }
  rewrite (probe_next _ _ _ _ Hw). apply IH; [lia|]. intros j Hj.
  destruct (decide (j = k)) as [->|]; [done|apply Hne; lia].
Qed.

Lemma u16_slot fc own i : index_wf fc own → 0 ≤ i < s_tenant_slots fc → u16 (i + 1) = i + 1.
Proof.
  intros Hw Hi. pose proof (ix_slots _ _ Hw). apply Z.mod_small. unfold FC_TENANT_SLOTS_MAX in *. lia.
Qed.

Lemma relay_loop fc own n :
  (∀ i key, own i = Some key ↔
     0 ≤ i < s_tenant_slots fc ∧ t_used (tget fc i) = true ∧ t_key (tget fc i) = key) →
  (∀ i j key, own i = Some key → own j = Some key → i = j) →
  index_wf fc (own_upto own 0) → tombs fc = 0 → (n ≤ Z.to_nat (s_tenant_slots fc))%nat →
  let fc' := foldl relay_slot fc (Z.of_nat <$> seq 0 n) in
  index_wf fc' (own_upto own (Z.of_nat n)) ∧ tombs fc' = 0 ∧
  fc' = fc <| s_tenant_index := s_tenant_index fc' |>.
Proof.
  intros Hown Hinj Hw Ht. induction n as [|n IH]; intros Hn; cbn zeta.
  { split_and!; [done|done|by destruct fc]. }
  rewrite seq_S, fmap_app, foldl_app. simpl. destruct IH as (Hw1 & Ht1 & He); [lia|].
  set (fc1 := foldl _ _ _) in *. set (i := Z.of_nat n).
  assert (Htab : ∀ j, tget fc1 j = tget fc j) by (intros; rewrite He; done).
  assert (Hsl : s_tenant_slots fc1 = s_tenant_slots fc) by (rewrite He; done).
  assert (Hi : 0 ≤ i < s_tenant_slots fc) by lia.
  unfold relay_slot. destruct (t_used (tget fc1 i)) eqn:Eu; cbn [negb].
  2:{ split; [|done]. eapply index_wf_same; [exact Hw1| |done..|apply (ix_key _ _ Hw1)].
      intros j. unfold own_upto. do 2 case_decide; try done; [|lia].
      assert (j = i) as -> by lia. destruct (own i) eqn:Eo; [|done].
      apply Hown in Eo as (_ & Hu & _). rewrite Htab in Eu. congruence. }
  set (key := t_key (tget fc1 i)).
  assert (Hoi : own i = Some key) by (apply Hown; unfold key; by rewrite <- Htab).
  rewrite <- (probe_0 fc1 _ key Hw1).
  destruct (seek_spec fc1 _ key (Z.to_nat (fc_tidx_buckets fc1)) 0 Hw1 Ht1) as (m & Hm & ->); [lia|lia|].
  rewrite (u16_slot fc1 _ i Hw1) by lia. pose proof (probe_bound _ _ key m Hw1) as Hb. split_and!.
  - eapply index_wf_same; [apply (index_insert fc1 (own_upto own i) i key m)| |done..|]; try done.
    + unfold own_upto. by rewrite decide_False by lia.
    + intros j. unfold own_upto. case_decide; [|done]. intros Hj. assert (j = i); [by eapply Hinj|lia].
    + lia.
    + intros j. unfold own_upto, own_set. repeat case_decide; subst; try done; try lia.
    + intros j k' [[-> ->]|[_ Hj]]%own_set_some; [done|]. by apply Hw1.
  - rewrite (tombs_iset fc1 _ _ _ Hw1 Hb), Ht1.
    destruct Hm as (_ & Hf & _). pose proof (ix_slots _ _ Hw1).
    assert (iget fc1 (probe_at fc1 key m) ≠ FC_TIDX_TOMB).
    { intros Hv. assert (1 ≤ tombs fc1); [|lia]. unfold tombs.
      apply (zcount_pos _ _ (iget fc1 (probe_at fc1 key m))); [|by rewrite Hv]. unfold iget, zget.
      apply list_elem_of_lookup_total_2. pose proof (ix_len _ _ Hw1). unfold zlen in *. lia. }
    destruct (_ =? FC_TIDX_TOMB) eqn:E1; zbool; [done|].
    destruct (i + 1 =? FC_TIDX_TOMB) eqn:E2; zbool; simpl; [|lia].
    unfold FC_TIDX_TOMB, FC_TENANT_SLOTS_MAX in *. lia.
  - rewrite He. by destruct fc.
Qed.

Lemma relay_spec fc :
  0 < s_tenant_slots fc ≤ FC_TENANT_SLOTS_MAX →
  (∀ i j key, own_of fc i = Some key → own_of fc j = Some key → i = j) →
  index_ok (fc_tidx_relay fc) (own_of fc) ∧ index_only fc (fc_tidx_relay fc).
Proof.
  intros Hs Hinj. unfold fc_tidx_relay. set (fc0 := field_set s_tenant_tombs _ _).
  assert (Hg0 : ∀ b, 0 ≤ b < fc_tidx_buckets fc → iget fc0 b = FC_TIDX_EMPTY).
  { intros b Hb. unfold iget, fc0. simpl. by apply zget_zrep. }
  assert (Hz : 0 ≤ fc_tidx_buckets fc) by (unfold fc_tidx_buckets; lia).
  destruct (relay_loop fc0 (own_of fc) (Z.to_nat (s_tenant_slots fc))) as (Hw & Ht & He).
  - intros i key. apply (own_of_some fc i key).
  - done.
  - assert (He : ∀ i key, own_upto (own_of fc) 0 i ≠ Some key).
    { intros i key. unfold own_upto. case_decide; [|done]. rewrite own_of_some. lia. }
    split; try done; try (intros; exfalso; by eapply He).
    + unfold fc0. simpl. by apply zlen_zrep.
    + intros b Hb. left. left. by apply Hg0.
    + intros b b' Hb Hb' _. left. left. by apply Hg0.
  - apply zcount_zero. intros v Hv. unfold fc0 in Hv. simpl in Hv. unfold zrep in Hv.
    by apply elem_of_replicate in Hv as [-> _].
  - done.
  - change (zseq (s_tenant_slots fc0)) with (Z.of_nat <$> seq 0 (Z.to_nat (s_tenant_slots fc))).
    set (fc' := foldl _ _ _) in *. split; [split|].
    + eapply index_wf_same; [exact Hw| |done..|apply (ix_key _ _ Hw)]. intros i. unfold own_upto.
      case_decide; [done|]. destruct (own_of fc i) eqn:E; [|done]. apply own_of_some in E. lia.
    + rewrite Ht. by rewrite He.
    + rewrite He. eexists _, _. by destruct fc.
Qed.

(** Deleting a key: the other keys stay where they are found. *)
Lemma drop_spec fc own i key :
  index_ok fc own → own i = Some key →
  (∀ j k, own_of fc j = Some k ↔ own_set own i None j = Some k) →
  index_ok (fc_tidx_drop fc key) (own_set own i None) ∧ index_only fc (fc_tidx_drop fc key).
Proof.
  intros [Hw Ht] Hi Hof. destruct (find_hit fc own key i Hw Hi) as [Hb Hv].
  unfold fc_tidx_drop. set (b := fst _) in *.
  destruct (b =? fc_tidx_buckets fc) eqn:E; zbool; [lia|].
  assert (Hwt := index_tomb fc own i key b Hw Hi Hb Hv).
  assert (Hnf := slot_not_free _ _ _ _ Hw Hi). rewrite <- Hv in Hnf.
  assert (Htt := tombs_iset fc own b FC_TIDX_TOMB Hw Hb).
  assert ((iget fc b =? FC_TIDX_TOMB) = false) as Hvt.
  { apply Z.eqb_neq. intros ?. apply Hnf. by right. }
  rewrite Hvt in Htt. simpl in Htt.
  destruct (iget fc (fc_tidx_next fc b) =? FC_TIDX_EMPTY) eqn:En; zbool.
  - rewrite <- (iset_iset b FC_TIDX_TOMB).
    destruct (drop_tombs_spec (Z.to_nat (fc_tidx_buckets fc))
      (iset b FC_TIDX_EMPTY (iset b FC_TIDX_TOMB fc)) (own_set own i None) b) as [? Ho].
    + split.
      * apply index_empty; [done|done|by eapply iget_iset_eq|].
        change (fc_tidx_next (iset b FC_TIDX_TOMB fc) b) with (fc_tidx_next fc b).
        pose proof (ix_slots _ _ Hw). rewrite iget_iset_ne; [done|lia| |];
          unfold fc_tidx_next, fc_tidx_buckets in *; case_test; zbool; lia.
      * rewrite (tombs_iset (iset b FC_TIDX_TOMB fc) _ b _ Hwt) by done.
        rewrite (iget_iset_eq fc own) by done. simpl. rewrite Htt. simpl. lia.
    + done.
    + by apply (iget_iset_eq (iset b FC_TIDX_TOMB fc) (own_set own i None)).
    + split; [done|]. eapply index_only_trans; [|done].
      eapply index_only_trans; apply index_only_iset.
  - set (fc1 := iset b FC_TIDX_TOMB _).
    assert (Ho1 : index_only fc fc1) by (eexists _, _; unfold fc1; by destruct fc).
    case_test.
    + destruct (relay_spec fc1) as [[Hwr Htr] Hor].
      * apply Hw.
      * intros j j' k Hj Hj'. change (own_of fc1) with (own_of fc) in *. apply Hof in Hj, Hj'.
        by eapply (ix_inj _ _ Hwt).
      * split; [split; [|done]|exact (index_only_trans _ _ _ Ho1 Hor)].
        eapply index_wf_same; [exact Hwr| |done..|apply (ix_key _ _ Hwr)]. intros j.
        change (own_of fc1) with (own_of fc). destruct (own_set own i None j) eqn:Ej.
        { symmetry. by apply Hof. }
        destruct (own_of fc j) eqn:Ej'; [|done]. apply Hof in Ej'. congruence.
    + split; [split|done]; [eapply index_wf_same; [exact Hwt|done..|apply (ix_key _ _ Hwt)]|].
      change (tombs fc1) with (tombs (iset b FC_TIDX_TOMB fc)). rewrite Htt. unfold fc1. simpl. lia.
Qed.

(** ** The table invariant *)

(** The free list from [f]: the slots of [L] in turn, then the end mark. *)
Fixpoint free_chain (fc : fc_state) (f : Z) (L : list Z) : Prop :=
  match L with
  | [] => f = s_tenant_slots fc
  | i :: L => f = i ∧ free_chain fc (t_next_free (tget fc i)) L
  end.

(** The slots: the index finds the ones in use, the free list has the others. *)
Record tenant_core (fc : fc_state) : Prop := {
  tc_tab : ∃ l, s_tenants fc = Some l ∧ zlen l = s_tenant_slots fc + 1;
  tc_index : index_ok fc (own_of fc);
  tc_used : s_tenants_used fc = zcount t_used (tab fc);
  tc_free : ∃ L, free_chain fc (s_tenant_free fc) L ∧ NoDup L ∧
    ∀ i, i ∈ L ↔ 0 ≤ i < s_tenant_slots fc ∧ t_used (tget fc i) = false
}.

(** A slot's mark is right: it says whether the tenant waits and could run. *)
Definition marked (fc : fc_state) (i : Z) : Prop :=
  t_waiting_runnable (tget fc i) = tenant_runnable (s_tenant_bound fc) (tget fc i).

(** The table, with the marks of the slots in [X] left open. *)
Record tenant_wf_but (X : Z → Prop) (fc : fc_state) : Prop := {
  tw_core : tenant_core fc;
  tw_count : s_tenants_runnable_waiting fc = zcount t_waiting_runnable (tab fc);
  tw_marks : ∀ i, 0 ≤ i ≤ s_tenant_slots fc → ¬ X i → marked fc i
}.
Definition tenant_wf (fc : fc_state) : Prop := tenant_wf_but (fun _ => False) fc.

Lemma tmod_tab fc i f l : s_tenants fc = Some l → tab (tmod i f fc) = zmod l i f.
Proof. intros Hl. unfold tab, tmod. simpl. by rewrite Hl. Qed.

Lemma tget_tmod fc i j f :
  tenant_core fc → 0 ≤ i ≤ s_tenant_slots fc → 0 ≤ j →
  tget (tmod i f fc) j = if decide (j = i) then f (tget fc i) else tget fc j.
Proof.
  intros Hw Hi Hj. destruct (tc_tab _ Hw) as (l & Hl & Hn). unfold tget.
  rewrite (tmod_tab _ _ _ _ Hl). unfold tab. rewrite Hl. simpl. unfold zmod. case_decide.
  - subst. apply zget_zset_eq. lia.
  - apply zget_zset_ne; lia.
Qed.

Lemma zcount_tmod (P : fc_tenant → bool) fc i f :
  tenant_core fc → 0 ≤ i ≤ s_tenant_slots fc →
  zcount P (tab (tmod i f fc))
  = zcount P (tab fc) - Z.b2z (P (tget fc i)) + Z.b2z (P (f (tget fc i))).
Proof.
  intros Hw Hi. destruct (tc_tab _ Hw) as (l & Hl & Hn).
  rewrite (tmod_tab _ _ _ _ Hl). unfold tget, tab. rewrite Hl. simpl. unfold zmod, zset, zget.
  apply zcount_insert, list_lookup_lookup_total_lt. unfold zlen in *. lia.
Qed.

Lemma slot_in_tab fc i : tenant_core fc → 0 ≤ i ≤ s_tenant_slots fc → tget fc i ∈ tab fc.
Proof.
  intros Hw Hi. destruct (tc_tab _ Hw) as (l & Hl & Hn). unfold tget, tab, zget. rewrite Hl. simpl.
  apply list_elem_of_lookup_total_2. unfold zlen in *. lia.
Qed.

Lemma tab_slot fc t :
  tenant_core fc → t ∈ tab fc → ∃ i, 0 ≤ i ≤ s_tenant_slots fc ∧ t = tget fc i.
Proof.
  intros Hw Ht. destruct (tc_tab _ Hw) as (l & Hl & Hn). unfold tget, tab in *. rewrite Hl in *.
  simpl in *. apply list_elem_of_lookup in Ht as (n & Hk). exists (Z.of_nat n).
  pose proof (lookup_lt_Some _ _ _ Hk). unfold zlen, zget in *. split; [lia|].
  rewrite Nat2Z.id. symmetry. by apply list_lookup_total_correct.
Qed.

Lemma free_chain_ext fc fc' f L :
  s_tenant_slots fc' = s_tenant_slots fc →
  (∀ i, i ∈ L → t_next_free (tget fc' i) = t_next_free (tget fc i)) →
  free_chain fc f L → free_chain fc' f L.
Proof.
  intros Hs. revert f. induction L as [|i L IH]; intros f Hn Hc; simpl in *; [congruence|].
  destruct Hc as [-> Hc]. split; [done|]. rewrite Hn by left. apply IH; [|done].
  intros j Hj. apply Hn. by right.
Qed.

Lemma tenant_slots_pos fc : tenant_core fc → 0 < s_tenant_slots fc ≤ FC_TENANT_SLOTS_MAX.
Proof. intros Hw. apply (ix_slots _ _ (proj1 (tc_index _ Hw))). Qed.

Lemma tmod_some fc i f l :
  s_tenants fc = Some l → ∃ l', s_tenants (tmod i f fc) = Some l' ∧ zlen l' = zlen l.
Proof.
  intros Hl. exists (zmod l i f). unfold tmod. simpl. rewrite Hl. split; [done|].
  unfold zmod. apply zlen_zset.
Qed.

(** The table reads only its own fields. *)
Lemma tenant_core_ext fc fc' :
  tenant_core fc → s_tenants fc' = s_tenants fc → s_tenant_slots fc' = s_tenant_slots fc →
  s_tenant_index fc' = s_tenant_index fc → s_tenants_used fc' = s_tenants_used fc →
  s_tenant_free fc' = s_tenant_free fc → s_tenant_tombs fc' = s_tenant_tombs fc → tenant_core fc'.
Proof.
  intros Hw Ht Hs Hi Hu Hf Htb.
  assert (Hg : ∀ j, tget fc' j = tget fc j) by (intros; unfold tget, tab; by rewrite Ht).
  assert (Ho : ∀ j, own_of fc' j = own_of fc j) by (intros; unfold own_of; by rewrite Hs, Hg).
  destruct Hw as [Htab [Hix Hto] Hus (L & Hc & Hnd & HL)]. split.
  - by rewrite Ht, Hs.
  - split; [|unfold tombs; by rewrite Hi, Htb]. eapply index_wf_same; try done.
    intros i key. rewrite Hg. apply Hix.
  - unfold tab in *. by rewrite Hu, Ht.
  - exists L. rewrite Hf. split_and!; [|done|intros; by rewrite Hs, Hg].
    eapply free_chain_ext; [done| |done]. intros. by rewrite Hg.
Qed.

(** An update of one slot that keeps its key, use and free link. *)
Lemma tmod_core fc i f :
  tenant_core fc → 0 ≤ i ≤ s_tenant_slots fc →
  (∀ t, t_used (f t) = t_used t ∧ t_key (f t) = t_key t ∧ t_next_free (f t) = t_next_free t) →
  tenant_core (tmod i f fc).
Proof.
  intros Hw Hi Hf. pose proof (fun j Hj => tget_tmod fc i j f Hw Hi Hj) as Hg.
  assert (Hu : ∀ j, 0 ≤ j → t_used (tget (tmod i f fc) j) = t_used (tget fc j) ∧
    t_key (tget (tmod i f fc) j) = t_key (tget fc j) ∧
    t_next_free (tget (tmod i f fc) j) = t_next_free (tget fc j)).
  { intros j Hj. rewrite Hg by done. case_decide; [subst; apply Hf|done]. }
  pose proof (tenant_slots_pos _ Hw) as Hs.
  assert (Hown : ∀ j, own_of (tmod i f fc) j = own_of fc j).
  { intros j. unfold own_of. change (s_tenant_slots (tmod i f fc)) with (s_tenant_slots fc).
    destruct (0 <=? j) eqn:E; [|done]. zbool. by destruct (Hu j E) as (-> & -> & _). }
  pose proof Hw as [(l & Hl & Hn) [Hix Ht] Hus (L & Hc & Hnd & HL)]. split.
  - destruct (tmod_some fc i f l Hl) as (l' & ? & ?). exists l'. split; [done|]. simpl. lia.
  - split; [|done]. eapply index_wf_same; [exact Hix|done|done|done|].
    intros j key Hj. pose proof (ix_range _ _ Hix _ _ Hj).
    destruct (Hu j) as (_ & -> & _); [lia|by apply Hix].
  - rewrite (zcount_tmod _ _ _ _ Hw Hi). destruct (Hf (tget fc i)) as (-> & _). simpl. lia.
  - exists L. split_and!; [|done|].
    + eapply free_chain_ext; [..|exact Hc]; [done|]. intros j Hj. apply HL in Hj as [? _]. by apply Hu; lia.
    + intros j. rewrite HL. split; intros [? ?]; (split; [done|]);
        destruct (Hu j) as (Hx & _); (lia || congruence).
Qed.

(** An update of one slot's counts leaves its mark open. *)
Lemma tmod_wf X fc i f :
  tenant_wf_but X fc → 0 ≤ i ≤ s_tenant_slots fc →
  (∀ t, t_used (f t) = t_used t ∧ t_key (f t) = t_key t ∧ t_next_free (f t) = t_next_free t) →
  (∀ t, t_waiting_runnable (f t) = t_waiting_runnable t) →
  tenant_wf_but (fun j => X j ∨ j = i) (tmod i f fc).
Proof.
  intros Hw Hi Hf Hf'. pose proof Hw as [Hc Hn Hm]. split; [by apply tmod_core| |].
  - rewrite (zcount_tmod _ _ _ _ Hc Hi), Hf'. simpl. lia.
  - intros j Hj Hx. unfold marked. rewrite tget_tmod by (done || lia).
    rewrite decide_False by tauto. apply Hm; tauto.
Qed.

(** What marking a slot writes. *)
Definition mark_only (fc : fc_state) (i : Z) (fc' : fc_state) : Prop :=
  ∃ r n, fc' = tmod i (fun t => t <| t_waiting_runnable := r |>)
                 (fc <| s_tenants_runnable_waiting := n |>).

(** Marking closes a slot's mark. *)
Lemma mark_wf X fc i :
  tenant_wf_but (fun j => X j ∨ j = i) fc → 0 ≤ i ≤ s_tenant_slots fc →
  tenant_wf_but X (fc_tenant_mark fc i) ∧ mark_only fc i (fc_tenant_mark fc i).
Proof.
  intros Hw Hi. pose proof Hw as [Hc Hn Hm]. unfold fc_tenant_mark, mark_only.
  set (r := tenant_runnable (s_tenant_bound fc) (tget fc i)).
  destruct (Bool.eqb r (t_waiting_runnable (tget fc i))) eqn:E.
  { apply Bool.eqb_prop in E. split.
    - split; try done. intros j Hj Hx.
      destruct (decide (j = i)) as [->|]; [done|]. apply Hm; [done|tauto].
    - exists r, (s_tenants_runnable_waiting fc). destruct (tc_tab _ Hc) as (l & Hl & Hlen).
      unfold tmod. destruct fc; simpl in *. rewrite Hl. f_equal. simpl. f_equal.
      symmetry. apply zset_same; [|lia]. rewrite E. unfold tget, tab. simpl. rewrite Hl. simpl.
      by destruct (zget l i). }
  set (fc1 := fc <| s_tenants_runnable_waiting ::= (fun n => if r then n + 1 else n - 1) |>).
  assert (Hc1 : tenant_core fc1) by (by apply (tenant_core_ext fc)).
  split; [|by eexists _, _]. split.
  - by apply tmod_core.
  - rewrite (zcount_tmod _ _ _ _ Hc1 Hi). change (tab fc1) with (tab fc).
    change (tget fc1 i) with (tget fc i). unfold fc1. simpl. rewrite Hn.
    destruct r, (t_waiting_runnable (tget fc i)); simpl in *; (done || lia).
  - intros j Hj Hx. unfold marked. rewrite tget_tmod by (done || lia).
    change (tget fc1) with (tget fc). case_decide; [by subst|]. apply Hm; [done|tauto].
Qed.

(** ** Taking and freeing slots *)

(** The free list is empty exactly when every named slot is in use. *)
Lemma free_head fc :
  tenant_core fc →
  (s_tenant_free fc < s_tenant_slots fc ∧ 0 ≤ s_tenant_free fc ∧
   t_used (tget fc (s_tenant_free fc)) = false) ∨
  (s_tenant_free fc = s_tenant_slots fc ∧
   ∀ i, 0 ≤ i < s_tenant_slots fc → t_used (tget fc i) = true).
Proof.
  intros Hw. destruct (tc_free _ Hw) as ([|i L] & Hc & Hnd & HL); simpl in Hc.
  - right. split; [done|]. intros i Hi. destruct (t_used (tget fc i)) eqn:E; [done|].
    assert (i ∈ ([] : list Z)) as Hin by (by apply HL). by apply not_elem_of_nil in Hin.
  - left. destruct Hc as [-> _]. assert (i ∈ i :: L) as Hin by left. apply HL in Hin. tauto.
Qed.

Lemma own_of_tmod fc i f j :
  tenant_core fc → 0 ≤ i ≤ s_tenant_slots fc →
  own_of (tmod i f fc) j =
  if decide (j = i ∧ i < s_tenant_slots fc)
  then if t_used (f (tget fc i)) then Some (t_key (f (tget fc i))) else None
  else own_of fc j.
Proof.
  intros Hw Hi. unfold own_of. change (s_tenant_slots (tmod i f fc)) with (s_tenant_slots fc).
  destruct (0 <=? j) eqn:E1, (j <? s_tenant_slots fc) eqn:E2; zbool; simpl;
    try (rewrite decide_False by lia; done).
  rewrite tget_tmod by (done || lia). case_decide as Hd.
  - subst. by rewrite decide_True by lia.
  - by rewrite decide_False by tauto.
Qed.

(** A free slot taken for a new key. *)
Lemma take_slot_wf fc key m :
  tenant_wf fc → (∀ i, own_of fc i ≠ Some key) → s_tenant_free fc < s_tenant_slots fc →
  free_run fc key m →
  let slot := s_tenant_free fc in
  let fc1 := tmod slot (tenant_take key)
               (fc <| s_tenant_free := t_next_free (tget fc slot) |>
                   <| s_tenants_used ::= Z.add 1 |>) in
  let fc2 := if iget fc1 (probe_at fc key m) =? FC_TIDX_TOMB
             then fc1 <| s_tenant_tombs ::= (fun n => n - 1) |> else fc1 in
  tenant_wf (iset (probe_at fc key m) (u16 (slot + 1)) fc2) ∧
  (∀ j, own_of (iset (probe_at fc key m) (u16 (slot + 1)) fc2) j
        = own_set (own_of fc) slot (Some key) j).
Proof.
  intros Hw Hno Hlt Hm slot fc1 fc2. pose proof Hw as [Hc Hn Hmk].
  pose proof (tenant_slots_pos _ Hc) as Hs.
  destruct (free_head fc Hc) as [(_ & H0 & Hun)|[? _]]; [|lia]. fold slot in Hun, H0, Hlt.
  destruct (tc_index _ Hc) as [Hix Htb]. pose proof (probe_bound _ _ key m Hix) as Hb.
  set (b := probe_at fc key m) in *.
  set (fc0 := fc <| s_tenant_free := t_next_free (tget fc slot) |> <| s_tenants_used ::= Z.add 1 |>) in *.
  assert (Hg : ∀ j, 0 ≤ j → tget fc1 j = if decide (j = slot) then tenant_take key (tget fc slot) else tget fc j).
  { intros j Hj. change (tget fc1 j) with (tget (tmod slot (tenant_take key) fc) j).
    apply tget_tmod; [done|lia|done]. }
  assert (Hown : ∀ j, own_of fc1 j = own_set (own_of fc) slot (Some key) j).
  { intros j. change (own_of fc1 j) with (own_of (tmod slot (tenant_take key) fc) j).
    rewrite own_of_tmod by (done || lia). unfold own_set. do 2 case_decide; try done; tauto. }
  assert (Hnone : own_of fc slot = None).
  { destruct (own_of fc slot) eqn:E; [|done]. apply own_of_some in E as (_ & ? & _). congruence. }
  rewrite (u16_slot fc _ slot Hix) by lia.
  assert (Hfc2 : fc2 = fc1 <| s_tenant_tombs := s_tenant_tombs fc - Z.b2z (iget fc b =? FC_TIDX_TOMB) |>).
  { unfold fc2. change (iget fc1 b) with (iget fc b). destruct (iget fc b =? FC_TIDX_TOMB); simpl.
    - done.
    - rewrite Z.sub_0_r. by destruct fc. }
  clearbody fc2. subst fc2.
  set (fc3 := iset b (slot + 1) _).
  assert (Hix3 : index_wf fc3 (own_set (own_of fc) slot (Some key))).
  { eapply index_wf_same; [apply (index_insert fc1 (own_of fc) slot key m)| |done..|]; try done.
    - eapply index_wf_same; [exact Hix|done|done|done|]. intros j k Hj.
      pose proof (ix_range _ _ Hix _ _ Hj). rewrite Hg by lia. rewrite decide_False by congruence.
      by apply Hix.
    - rewrite Hg by lia. by rewrite decide_True.
    - intros j k Hj. change (tget fc3 j) with (tget fc1 j).
      rewrite Hg by (destruct (own_set_some _ _ _ _ _ Hj) as [[-> _]|[_ Hj']];
        [lia|pose proof (ix_range _ _ Hix _ _ Hj'); lia]).
      destruct (own_set_some _ _ _ _ _ Hj) as [[-> ->]|[? Hj']]; [by rewrite decide_True|].
      rewrite decide_False by done. by apply Hix. }
  assert (Ht3 : tombs fc3 = tombs fc - Z.b2z (iget fc b =? FC_TIDX_TOMB)).
  { change (tombs fc3) with (tombs (iset b (slot + 1) fc)).
    rewrite (tombs_iset fc _ b _ Hix Hb). destruct (slot + 1 =? FC_TIDX_TOMB) eqn:E; zbool; simpl; [|lia].
    unfold FC_TIDX_TOMB, FC_TENANT_SLOTS_MAX in *. lia. }
  split; [|exact Hown]. split; [split| |].
  - destruct (tc_tab _ Hc) as (l & Hl & Hlen).
    destruct (tmod_some fc0 slot (tenant_take key) l Hl) as (l' & Hl' & ?). exists l'.
    split; [exact Hl'|]. change (s_tenant_slots fc3) with (s_tenant_slots fc). lia.
  - split; [|rewrite Ht3; unfold fc3; simpl; lia].
    eapply index_wf_same; [exact Hix3|exact Hown|done|done|apply (ix_key _ _ Hix3)].
  - change (tab fc3) with (tab (tmod slot (tenant_take key) fc)).
    rewrite (zcount_tmod _ _ _ _ Hc) by lia. rewrite Hun. unfold fc3. simpl.
    rewrite (tc_used _ Hc). lia.
  - destruct (tc_free _ Hc) as (L & Hch & Hnd & HL).
    destruct L as [|i L]; simpl in Hch; [unfold slot in *; lia|]. destruct Hch as [Hi Hch].
    assert (slot = i) as Hsi by done. apply NoDup_cons in Hnd as [HnL Hnd]. exists L.
    change (s_tenant_free fc3) with (t_next_free (tget fc slot)). split_and!; [|done|].
    + rewrite Hsi. eapply free_chain_ext; [..|exact Hch]; [done|]. intros j Hj.
      assert (j ∈ i :: L) as Hj' by (by right). apply HL in Hj' as [? _].
      change (tget fc3 j) with (tget fc1 j). rewrite Hg by lia. rewrite decide_False; [done|].
      intros ->. by rewrite Hsi in Hj.
    + intros j. change (tget fc3 j) with (tget fc1 j).
      change (s_tenant_slots fc3) with (s_tenant_slots fc). split.
      * intros Hj. assert (j ∈ i :: L) as Hj' by (by right). apply HL in Hj' as [? ?].
        split; [done|]. rewrite Hg by lia. rewrite decide_False; [done|]. intros ->. by rewrite Hsi in Hj.
      * intros [Hj Hu]. rewrite Hg in Hu by lia. case_decide; [by simpl in Hu|].
        assert (j ∈ i :: L) as Hj' by (by apply HL). apply elem_of_cons in Hj' as [->|?]; [congruence|done].
  - change (tab fc3) with (tab (tmod slot (tenant_take key) fc)).
    rewrite (zcount_tmod _ _ _ _ Hc) by lia. unfold fc3. simpl. rewrite Hn.
    assert (marked fc slot) as Hms by (apply Hmk; [lia|auto]). unfold marked, tenant_runnable in Hms.
    rewrite Hms, Hun. simpl. lia.
  - intros j Hj _. unfold marked. change (tget fc3 j) with (tget fc1 j).
    change (s_tenant_bound fc3) with (s_tenant_bound fc). rewrite Hg by lia.
    case_decide; [done|]. apply Hmk; [done|auto].
Qed.

(** The shared last slot taken once the table is full. *)
Lemma take_shared_wf fc key :
  tenant_wf fc → t_used (tget fc (s_tenant_slots fc)) = false →
  let fc' := tmod (s_tenant_slots fc) (tenant_take key) (fc <| s_tenants_used ::= Z.add 1 |>) in
  tenant_wf fc' ∧ (∀ j, own_of fc' j = own_of fc j).
Proof.
  intros Hw Hun fc'. pose proof Hw as [Hc Hn Hmk]. pose proof (tenant_slots_pos _ Hc) as Hs.
  set (slot := s_tenant_slots fc) in *.
  assert (Hg : ∀ j, 0 ≤ j → tget fc' j = if decide (j = slot) then tenant_take key (tget fc slot) else tget fc j).
  { intros j Hj. change (tget fc' j) with (tget (tmod slot (tenant_take key) fc) j).
    apply tget_tmod; [done|lia|done]. }
  assert (Hown : ∀ j, own_of fc' j = own_of fc j).
  { intros j. change (own_of fc' j) with (own_of (tmod slot (tenant_take key) fc) j).
    rewrite own_of_tmod by (done || lia). rewrite decide_False; [done|lia]. }
  split; [|done]. destruct (tc_index _ Hc) as [Hix Htb]. split; [split| |].
  - destruct (tc_tab _ Hc) as (l & Hl & Hlen).
    destruct (tmod_some (fc <| s_tenants_used ::= Z.add 1 |>) slot (tenant_take key) l Hl) as (l' & ? & ?).
    exists l'. split; [done|]. change (s_tenant_slots fc') with slot. lia.
  - split; [|done]. eapply index_wf_same; [exact Hix|done|done|done|]. intros j k Hj.
    pose proof (ix_range _ _ Hix _ _ Hj). rewrite Hg by lia. rewrite decide_False by lia. by apply Hix.
  - change (tab fc') with (tab (tmod slot (tenant_take key) fc)).
    rewrite (zcount_tmod _ _ _ _ Hc) by lia. rewrite Hun. unfold fc'. simpl. rewrite (tc_used _ Hc). lia.
  - destruct (tc_free _ Hc) as (L & Hch & Hnd & HL). exists L. split_and!; [|done|].
    + eapply free_chain_ext; [..|exact Hch]; [done|]. intros j Hj. apply HL in Hj as [? _].
      rewrite Hg by lia. by rewrite decide_False by lia.
    + intros j. rewrite HL. change (s_tenant_slots fc') with slot.
      split; intros [? Hu]; (split; [done|]); rewrite Hg in * by lia; by rewrite decide_False in * by lia.
  - change (tab fc') with (tab (tmod slot (tenant_take key) fc)).
    rewrite (zcount_tmod _ _ _ _ Hc) by lia. unfold fc'. simpl. rewrite Hn.
    assert (marked fc slot) as Hms by (apply Hmk; [lia|auto]). unfold marked, tenant_runnable in Hms.
    rewrite Hms, Hun. simpl. lia.
  - intros j Hj _. unfold marked. change (s_tenant_bound fc') with (s_tenant_bound fc). rewrite Hg by lia.
    case_decide; [done|]. apply Hmk; [done|auto].
Qed.

(** The table while a slot is on its way out: the index finds [own], the free
    list has [L]. *)
Record tenant_part (fc : fc_state) (own : Z → option Z) (L : list Z) : Prop := {
  tp_tab : ∃ l, s_tenants fc = Some l ∧ zlen l = s_tenant_slots fc + 1;
  tp_index : index_ok fc own;
  tp_used : s_tenants_used fc = zcount t_used (tab fc);
  tp_free : free_chain fc (s_tenant_free fc) L;
  tp_nodup : NoDup L;
  tp_range : ∀ i, i ∈ L → 0 ≤ i < s_tenant_slots fc;
  tp_count : s_tenants_runnable_waiting fc = zcount t_waiting_runnable (tab fc);
  tp_marks : ∀ i, 0 ≤ i ≤ s_tenant_slots fc → marked fc i
}.

Definition free_slots (fc : fc_state) (L : list Z) : Prop :=
  ∀ i, i ∈ L ↔ 0 ≤ i < s_tenant_slots fc ∧ t_used (tget fc i) = false.

Lemma part_of_wf fc : tenant_wf fc → ∃ L, tenant_part fc (own_of fc) L ∧ free_slots fc L.
Proof.
  intros [[Ht Hi Hu (L & Hc & Hnd & HL)] Hn Hm]. exists L. split; [|done].
  split; try done; [|by intros; apply Hm; auto]. intros i Hin. apply HL in Hin. tauto.
Qed.

Lemma wf_of_part fc own L :
  tenant_part fc own L → (∀ i, own_of fc i = own i) → free_slots fc L → tenant_wf fc.
Proof.
  intros [] Ho HL. split; [split|done|auto]; try done; [|by exists L].
  destruct tp_index0 as [Hi Ht]. split; [|done]. eapply index_wf_same; [exact Hi|done..|apply Hi].
Qed.

(** A rewritten index. *)
Lemma part_index fc own L fc' own' :
  tenant_part fc own L → index_only fc fc' → index_ok fc' own' → tenant_part fc' own' L.
Proof.
  intros [] (ix & n & ->) Hix. split; try done.
  eapply free_chain_ext; [..|exact tp_free0]; done.
Qed.

(** The slot's bit cleared: it holds nothing, so it does not wait. *)
Lemma part_clear fc own L slot :
  tenant_wf fc → tenant_part fc own L → 0 ≤ slot ≤ s_tenant_slots fc → slot ∉ L →
  t_used (tget fc slot) = true → t_queued (tget fc slot) = 0 →
  tenant_part (tmod slot (fun t => t <| t_used := false |>)
                 (fc <| s_tenants_used ::= (fun n => n - 1) |>)) own L.
Proof.
  intros Hw [] Hi HnL Hu Hq. pose proof Hw as [Hc _ _]. set (clr := fun t : fc_tenant => _).
  set (fc1 := tmod slot clr _). destruct tp_tab0 as (l & Hl & Hlen).
  assert (Hg : ∀ j, 0 ≤ j → tget fc1 j = if decide (j = slot) then clr (tget fc slot) else tget fc j).
  { intros j Hj. change (tget fc1 j) with (tget (tmod slot clr fc) j). by apply tget_tmod. }
  assert (Hms : t_waiting_runnable (tget fc slot) = false).
  { pose proof (tp_marks0 slot Hi) as Hms. unfold marked, tenant_runnable in Hms.
    by rewrite Hms, Hq, andb_false_r. }
  split; try done.
  - destruct (tmod_some (fc <| s_tenants_used ::= (fun n => n - 1) |>) slot clr l Hl) as (l' & ? & ?).
    exists l'. split; [done|]. change (s_tenant_slots fc1) with (s_tenant_slots fc). lia.
  - destruct tp_index0 as [Hix Htb]. split; [|done]. eapply index_wf_same; [exact Hix|done..|].
    intros j k Hj. pose proof (ix_range _ _ Hix _ _ Hj). rewrite Hg by lia.
    case_decide; [subst|]; by apply Hix.
  - change (tab fc1) with (tab (tmod slot clr fc)). rewrite (zcount_tmod _ _ _ _ Hc Hi), Hu.
    unfold fc1. simpl. rewrite tp_used0. lia.
  - eapply free_chain_ext; [..|exact tp_free0]; [done|]. intros j Hj. pose proof (tp_range0 j Hj).
    rewrite Hg by lia. rewrite decide_False; [done|]. by intros ->.
  - change (tab fc1) with (tab (tmod slot clr fc)). rewrite (zcount_tmod _ _ _ _ Hc Hi).
    unfold fc1. simpl. rewrite tp_count0. lia.
  - intros j Hj. unfold marked. change (s_tenant_bound fc1) with (s_tenant_bound fc).
    rewrite Hg by lia. case_decide; [|by apply tp_marks0]. unfold tenant_runnable. simpl. by rewrite Hms.
Qed.

(** The slot put at the head of the free list. *)
Lemma part_link fc own L slot :
  tenant_part fc own L → 0 ≤ slot < s_tenant_slots fc → slot ∉ L →
  tenant_part (tmod slot (fun t => t <| t_next_free := s_tenant_free fc |>)
                 (fc <| s_tenant_free := slot |>)) own (slot :: L).
Proof.
  intros [] Hi HnL. set (link := fun t : fc_tenant => _). set (fc1 := tmod slot link _).
  destruct tp_tab0 as (l & Hl & Hlen).
  assert (Htab : tab fc = l) by (unfold tab; by rewrite Hl).
  assert (Htab1 : tab fc1 = zset l slot (link (zget l slot))) by (unfold tab, fc1, tmod; simpl; by rewrite Hl).
  assert (Hg : ∀ j, 0 ≤ j → tget fc1 j = if decide (j = slot) then link (tget fc slot) else tget fc j).
  { intros j Hj. unfold tget. rewrite Htab, Htab1.
    case_decide; [subst; by apply zget_zset_eq; lia|by apply zget_zset_ne; lia]. }
  assert (Hcnt : ∀ P : fc_tenant → bool, (∀ t, P (link t) = P t) → zcount P (tab fc1) = zcount P (tab fc)).
  { intros P HP. rewrite Htab, Htab1. unfold zset, zget.
    rewrite (zcount_insert P l _ _ (l !!! Z.to_nat slot)), HP; [lia|].
    apply list_lookup_lookup_total_lt. unfold zlen in *. lia. }
  split; try done.
  - destruct (tmod_some (fc <| s_tenant_free := slot |>) slot link l Hl) as (l' & ? & ?).
    exists l'. split; [done|]. change (s_tenant_slots fc1) with (s_tenant_slots fc). lia.
  - destruct tp_index0 as [Hix Htb]. split; [|done]. eapply index_wf_same; [exact Hix|done..|].
    intros j k Hj. pose proof (ix_range _ _ Hix _ _ Hj). rewrite Hg by lia.
    case_decide; [subst|]; by apply Hix.
  - by rewrite Hcnt.
  - simpl. split; [done|]. rewrite Hg by lia. rewrite decide_True by done. simpl.
    eapply free_chain_ext; [..|exact tp_free0]; [done|]. intros j Hj. pose proof (tp_range0 j Hj).
    rewrite Hg by lia. rewrite decide_False; [done|]. by intros ->.
  - by constructor.
  - intros j [->|?]%elem_of_cons; [done|by apply tp_range0].
  - by rewrite Hcnt.
  - intros j Hj. unfold marked. change (s_tenant_bound fc1) with (s_tenant_bound fc).
    rewrite Hg by lia. pose proof (tp_marks0 j Hj). by case_decide; [subst j|].
Qed.

Lemma link_wf fc L slot :
  tenant_part fc (own_of fc) L → 0 ≤ slot < s_tenant_slots fc →
  t_used (tget fc slot) = false → slot ∉ L →
  (∀ i, i ≠ slot → i ∈ L ↔ 0 ≤ i < s_tenant_slots fc ∧ t_used (tget fc i) = false) →
  let fc' := tmod slot (fun t => t <| t_next_free := s_tenant_free fc |>)
               (fc <| s_tenant_free := slot |>) in
  tenant_wf fc' ∧ (∀ j, own_of fc' j = own_of fc j).
Proof.
  intros Hp Hi Hu HnL HL fc'. pose proof (part_link _ _ _ _ Hp Hi HnL) as Hp'. fold fc' in Hp'.
  destruct (tp_tab _ _ _ Hp) as (l & Hl & Hlen).
  assert (Hg : ∀ j, 0 ≤ j → t_used (tget fc' j) = t_used (tget fc j) ∧ t_key (tget fc' j) = t_key (tget fc j)).
  { intros j Hj. unfold tget, tab, fc', tmod. simpl. rewrite Hl. simpl. unfold zmod.
    destruct (decide (j = slot)) as [->|]; [by rewrite zget_zset_eq by lia|by rewrite zget_zset_ne by lia]. }
  assert (Ho : ∀ j, own_of fc' j = own_of fc j).
  { intros j. unfold own_of. change (s_tenant_slots fc') with (s_tenant_slots fc).
    destruct (0 <=? j) eqn:E; [|done]. zbool. by destruct (Hg j E) as [-> ->]. }
  split; [|done]. eapply wf_of_part; [exact Hp'|done|].
  intros j. rewrite elem_of_cons. change (s_tenant_slots fc') with (s_tenant_slots fc).
  destruct (decide (j = slot)) as [->|Hne].
  - split; [intros _|by left]. split; [done|]. destruct (Hg slot) as [-> _]; [lia|done].
  - rewrite (HL j Hne). split.
    + intros [?|[? ?]]; [done|]. split; [done|]. destruct (Hg j) as [-> _]; [lia|done].
    + intros [? Hx]. right. split; [done|]. destruct (Hg j) as [<- _]; [lia|done].
Qed.

Lemma relay_wf fc :
  tenant_wf fc → tenant_wf (fc_tidx_relay fc) ∧ (∀ j, own_of (fc_tidx_relay fc) j = own_of fc j).
Proof.
  intros Hw. destruct (part_of_wf fc Hw) as (L & Hp & HL). pose proof (tw_core _ _ Hw) as Hc.
  destruct (relay_spec fc) as [Hix Hio].
  { by apply tenant_slots_pos. } { apply (ix_inj _ _ (proj1 (tc_index _ Hc))). }
  pose proof (part_index _ _ _ _ _ Hp Hio Hix) as Hp'.
  assert (Ho : ∀ j, own_of (fc_tidx_relay fc) j = own_of fc j) by (by destruct Hio as (? & ? & ->)).
  split; [|done]. eapply wf_of_part; [exact Hp'|done|]. by destruct Hio as (? & ? & ->).
Qed.

(** A slot that holds nothing is put back: its key is gone, the others stay. *)
Lemma put_empty fc slot :
  tenant_wf fc → 0 ≤ slot ≤ s_tenant_slots fc → t_used (tget fc slot) = true →
  t_inflight (tget fc slot) = 0 → t_queued (tget fc slot) = 0 →
  tenant_wf (fc_tenant_put fc slot) ∧
  (∀ j, own_of (fc_tenant_put fc slot) j = own_set (own_of fc) slot None j).
Proof.
  intros Hw Hi Hu Hfl Hq. pose proof Hw as [Hc _ _]. pose proof (tenant_slots_pos _ Hc) as Hs.
  destruct (part_of_wf fc Hw) as (L & Hp & HL).
  assert (HnL : slot ∉ L) by (intros Hin; apply HL in Hin as [_ ?]; congruence).
  unfold fc_tenant_put. rewrite bool_decide_true by (destruct (tc_tab _ Hc) as (l & -> & _); done).
  replace (slot <? 0) with false by (symmetry; apply Z.ltb_ge; lia).
  replace (slot >? s_tenant_slots fc) with false by (symmetry; rewrite Z.gtb_ltb; apply Z.ltb_ge; lia).
  rewrite Hu, Hfl, Hq. cbn [negb orb Z.eqb].
  pose proof (part_clear fc _ L slot Hw Hp Hi HnL Hu Hq) as Hp1. set (fc1 := tmod slot _ _) in *.
  assert (Hg1 : ∀ j, 0 ≤ j → tget fc1 j = if decide (j = slot) then (tget fc slot) <| t_used := false |> else tget fc j).
  { intros j Hj. by apply (tget_tmod fc). }
  assert (Hown1 : ∀ j, own_of fc1 j = own_set (own_of fc) slot None j).
  { intros j. etrans; [by apply (own_of_tmod fc)|]. unfold own_set. do 2 case_decide; try done; [tauto|].
    subst. unfold own_of. by replace (slot <? s_tenant_slots fc) with false
      by (symmetry; apply Z.ltb_ge; lia); rewrite andb_false_r. }
  change (s_tenant_slots fc1) with (s_tenant_slots fc).
  destruct (slot =? s_tenant_slots fc) eqn:Esl; zbool.
  { split; [|done]. eapply wf_of_part; [exact Hp1| |].
    - intros j. rewrite Hown1. unfold own_set. case_decide; [|done]. subst j. unfold own_of.
      by replace (slot <? s_tenant_slots fc) with false by (symmetry; apply Z.ltb_ge; lia); rewrite andb_false_r.
    - intros j. rewrite (HL j). change (s_tenant_slots fc1) with (s_tenant_slots fc).
      split; intros [? Hx]; (split; [done|]); rewrite Hg1 in * by lia; by rewrite decide_False in * by lia. }
  destruct (drop_spec fc1 (own_of fc) slot (t_key (tget fc slot))) as [Hix2 Hio2].
  { apply Hp1. } { apply own_of_some. split_and!; lia || done. } { intros j k. by rewrite Hown1. }
  pose proof (part_index _ _ _ _ _ Hp1 Hio2 Hix2) as Hp2. set (fc2 := fc_tidx_drop fc1 _) in *.
  assert (Heq2 : s_tenant_slots fc2 = s_tenant_slots fc ∧ s_tenant_free fc2 = s_tenant_free fc ∧
    (∀ j, tget fc2 j = tget fc1 j) ∧ s_tenants fc2 = s_tenants fc1)
    by (destruct Hio2 as (ix & n & ->); done). destruct Heq2 as (Hs2 & Hf2 & Hg2 & Ht2).
  assert (Hu16 : u16 (s_tenant_free fc2) = s_tenant_free fc2).
  { rewrite Hf2. apply Z.mod_small. unfold FC_TENANT_SLOTS_MAX in *.
    destruct (free_head fc Hc) as [?|?]; lia. }
  assert (Ho2 : ∀ j, own_of fc2 j = own_set (own_of fc) slot None j).
  { intros j. rewrite <- Hown1. unfold own_of. by rewrite Hs2, Hg2. }
  rewrite Hu16. destruct (link_wf fc2 L slot) as [Hw3 Ho3]; [|lia| |done| |].
  { destruct Hp2. split; try done. destruct Hix2 as [Hi2 ?]. split; [|done].
    eapply index_wf_same; [exact Hi2|done..|apply Hi2]. }
  { rewrite Hg2, Hg1 by lia. by rewrite decide_True. }
  { intros j Hne. rewrite (HL j), Hs2, Hg2.
    split; intros [? Hx]; (split; [done|]); rewrite Hg1 in * by lia; by rewrite decide_False in *. }
  case_test.
  - destruct (relay_wf _ Hw3) as [? Ho4]. split; [done|]. intros j. by rewrite Ho4, Ho3.
  - split; [done|]. intros j. by rewrite Ho3.
Qed.

(** [fc_tenant_put] keeps the table, whatever the slot. *)
Lemma put_wf fc slot : tenant_wf fc → tenant_wf (fc_tenant_put fc slot).
Proof.
  intros Hw. destruct (negb (bool_decide (is_Some (s_tenants fc))) || (slot <? 0)
    || (slot >? s_tenant_slots fc)) eqn:E1; [unfold fc_tenant_put; by rewrite E1|].
  destruct (negb (t_used (tget fc slot)) || negb (t_inflight (tget fc slot) =? 0)
    || negb (t_queued (tget fc slot) =? 0)) eqn:E2; [unfold fc_tenant_put; by rewrite E1, E2|].
  zbool. apply put_empty; lia || done.
Qed.

(** An empty table whose free list links every slot. *)
Lemma fresh_wf fc n l :
  0 < n ≤ FC_TENANT_SLOTS_MAX → s_tenant_slots fc = n → s_tenants fc = Some l → tab fc = l →
  zlen l = n + 1 → s_tenant_index fc = zrep (2 * n) FC_TIDX_EMPTY → s_tenant_free fc = 0 →
  s_tenants_used fc = 0 → s_tenant_tombs fc = 0 → s_tenants_runnable_waiting fc = 0 →
  (∀ t, t ∈ l → t_used t = false ∧ t_waiting_runnable t = false) →
  (∀ i, 0 ≤ i ≤ n → tget fc i ∈ l) → (∀ i, own_of fc i = None) →
  (∀ i, 0 ≤ i < n → t_next_free (tget fc i) = i + 1) → tenant_wf fc.
Proof.
  intros Hn Hsl Hts Htb Hlen Hix Hfr Hus Htm Hrw Hall Htab Hno Hnf.
  assert (Hnb : fc_tidx_buckets fc = 2 * n) by (unfold fc_tidx_buckets; lia).
  assert (Hg : ∀ b, 0 ≤ b < 2 * n → iget fc b = FC_TIDX_EMPTY).
  { intros b Hb. unfold iget. rewrite Hix. by apply zget_zrep. }
  assert (Hchain : ∀ k m, Z.of_nat (m + k) = n → free_chain fc (Z.of_nat m) (Z.of_nat <$> seq m k)).
  { induction k as [|k IH]; intros m Hm; simpl; [lia|]. split; [done|].
    rewrite Hnf by lia. replace (Z.of_nat m + 1) with (Z.of_nat (S m)) by lia. apply IH. lia. }
  split; [split| |].
  - exists l. split; [done|lia].
  - split; [|unfold tombs; rewrite Htm, Hix; symmetry; apply zcount_zero; intros v Hv;
      by apply elem_of_replicate in Hv as [-> _]].
    split; try (intros; rewrite Hno in *; done); try lia.
    + rewrite Hnb, Hix. by apply zlen_zrep; lia.
    + intros b Hb. left. left. apply Hg. lia.
    + intros b b' Hb Hb' _. left. left. apply Hg. lia.
  - rewrite Hus, Htb. symmetry. apply zcount_zero. intros t Ht. by apply Hall.
  - exists (zseq n). rewrite Hfr, Hsl. unfold zseq. split_and!.
    + apply (Hchain _ 0%nat). lia.
    + apply NoDup_fmap_2; [intros ? ?; lia|apply NoDup_seq].
    + intros i. rewrite list_elem_of_fmap. split.
      * intros (k & -> & Hk%elem_of_seq). split; [lia|]. apply Hall, Htab. lia.
      * intros [Hi _]. exists (Z.to_nat i). rewrite elem_of_seq. lia.
  - rewrite Hrw, Htb. symmetry. apply zcount_zero. intros t Ht. by apply Hall.
  - intros i Hi _. unfold marked, tenant_runnable.
    destruct (Hall (tget fc i)) as [-> ->]; [apply Htab; lia|done].
Qed.

(** A table is made empty. *)
Lemma ensure_fresh fc n :
  0 < n ≤ FC_TENANT_SLOTS_MAX → s_tenant_slots fc = n →
  tenant_wf (fresh_table n fc) ∧ ∀ i, own_of (fresh_table n fc) i = None.
Proof.
  intros Hn Hs. set (fc' := fresh_table n fc).
  set (free i := fc_tenant_zero <| t_next_free := u16 (i + 1) |>).
  set (l := (free <$> zseq n) ++ [fc_tenant_zero]).
  assert (Hts : s_tenants fc' = Some l) by done.
  assert (Hf : s_tenant_slots fc' = n ∧ s_tenant_index fc' = zrep (2 * n) FC_TIDX_EMPTY ∧
    s_tenant_free fc' = 0 ∧ s_tenants_used fc' = 0 ∧ s_tenant_tombs fc' = 0 ∧
    s_tenants_runnable_waiting fc' = 0) by done.
  clearbody fc'. destruct Hf as (Hsl & Hix & Hfr & Hus & Htm & Hrw).
  assert (Htb : tab fc' = l) by (unfold tab; by rewrite Hts).
  assert (Hlen : zlen l = n + 1).
  { unfold l, zlen, zseq. rewrite length_app, !length_fmap, length_seq. simpl. lia. }
  assert (Hl0 : ∀ i, 0 ≤ i < n → tget fc' i = free i).
  { intros i Hi. unfold tget, zget. rewrite Htb. apply list_lookup_total_correct. unfold l.
    rewrite lookup_app_l by (unfold zseq; rewrite !length_fmap, length_seq; lia).
    unfold zseq. rewrite !list_lookup_fmap, lookup_seq_lt by lia. simpl. do 2 f_equal. lia. }
  assert (Hall : ∀ t, t ∈ l → t_used t = false ∧ t_waiting_runnable t = false).
  { intros t Ht. unfold l in Ht. apply elem_of_app in Ht as [Ht|Ht].
    - apply list_elem_of_fmap in Ht as (? & -> & _). done.
    - apply list_elem_of_singleton in Ht as ->. done. }
  assert (Htab : ∀ i, 0 ≤ i ≤ n → tget fc' i ∈ l).
  { intros i Hi. unfold tget, zget. rewrite Htb. apply list_elem_of_lookup_total_2.
    unfold zlen in Hlen. lia. }
  assert (Hno : ∀ i, own_of fc' i = None).
  { intros i. destruct (own_of fc' i) eqn:E; [|done]. apply own_of_some in E as (Hi & Hu & _).
    destruct (Hall (tget fc' i)); [apply Htab; lia|congruence]. }
  assert (Hnb : fc_tidx_buckets fc' = 2 * n) by (unfold fc_tidx_buckets; lia).
  split; [|done]. apply (fresh_wf fc' n l); try done.
  intros i Hi. rewrite Hl0 by done. simpl. apply Z.mod_small. unfold FC_TENANT_SLOTS_MAX in *; lia.
Qed.

(** A pool's tenant state: no table yet, or a well-formed one. *)
Definition tenant_inv (fc : fc_state) : Prop :=
  0 ≤ s_tenant_slots fc ≤ FC_TENANT_SLOTS_MAX ∧
  match s_tenants fc with Some _ => tenant_wf fc | None => True end.

(** The slot a live tenant has, as the table records it. *)
Definition slot_of (fc : fc_state) (i : Z) : option Z :=
  match s_tenants fc with Some _ => own_of fc i | None => None end.

Lemma fresh_inv fc :
  0 < s_tenant_slots fc ≤ FC_TENANT_SLOTS_MAX →
  tenant_inv (fresh_table (s_tenant_slots fc) fc) ∧ tenant_wf (fresh_table (s_tenant_slots fc) fc) ∧
  ∀ i, slot_of (fresh_table (s_tenant_slots fc) fc) i = None.
Proof.
  intros Hs. destruct (ensure_fresh fc (s_tenant_slots fc) Hs eq_refl) as [Hw Hno].
  assert (Hsl : s_tenant_slots (fresh_table (s_tenant_slots fc) fc) = s_tenant_slots fc) by done.
  destruct (tc_tab _ (tw_core _ _ Hw)) as (l & Hl & _).
  split_and!; [|done|].
  - unfold tenant_inv. rewrite Hl, Hsl. split; [lia|done].
  - intros i. unfold slot_of. by rewrite Hl.
Qed.

Lemma ensure_spec calloc fc :
  tenant_inv fc →
  let '(fc', ok) := fc_tenant_table_ensure calloc fc in
  tenant_inv fc' ∧ (∀ i, slot_of fc' i = slot_of fc i) ∧
  (ok = true → tenant_wf fc') ∧ (ok = false → s_tenants fc' = None).
Proof.
  intros [Hs Hi]. unfold fc_tenant_table_ensure.
  destruct (s_tenants fc) as [l|] eqn:El.
  { split_and!; try done. split; [done|]. by rewrite El. }
  destruct (q_dead (s_queue fc)).
  { split_and!; try done. split; [done|]. by rewrite El. }
  set (fc1 := if s_tenant_slots fc =? 0 then _ else _).
  assert (Hs1 : 0 < s_tenant_slots fc1 ≤ FC_TENANT_SLOTS_MAX).
  { unfold fc1. unfold FC_TENANT_SLOTS_MAX in *. case_test; zbool; simpl; [unfold FC_TENANT_SLOTS|]; lia. }
  clearbody fc1. assert (Hn : slot_of fc = fun _ => None) by (unfold slot_of; by rewrite El).
  rewrite Hn. case_test.
  - split_and!; try done. split; [simpl; lia|done].
  - destruct (fresh_inv fc1 Hs1) as (? & ? & ?). done.
Qed.

(** ** Lookup and counting *)

(** What looking a key up promises: the tenant's own slot; else a free slot,
    now the key's, all counts zero; else, with every named slot in use, the
    shared slot. *)
Inductive got (fc fc' : fc_state) (key slot : Z) : Prop :=
| got_own :
    own_of fc slot = Some key → fc' = fc → got fc fc' key slot
| got_free :
    (∀ i, own_of fc i ≠ Some key) → 0 ≤ slot < s_tenant_slots fc →
    t_used (tget fc slot) = false →
    (∀ j, own_of fc' j = own_set (own_of fc) slot (Some key) j) → got fc fc' key slot
| got_shared :
    (∀ i, own_of fc i ≠ Some key) →
    (∀ i, 0 ≤ i < s_tenant_slots fc → t_used (tget fc i) = true) →
    slot = s_tenant_slots fc → (∀ j, own_of fc' j = own_of fc j) → got fc fc' key slot.

Lemma own_dec fc key :
  tenant_wf fc → (∃ i, own_of fc i = Some key) ∨ (∀ i, own_of fc i ≠ Some key).
Proof.
  intros Hw. destruct (decide (Exists (fun i => own_of fc i = Some key) (zseq (s_tenant_slots fc)))) as [He|He].
  - left. apply Exists_exists in He as (i & _ & ?). by exists i.
  - right. intros i Hi. apply He, Exists_exists. exists i. split; [|done].
    apply own_of_some in Hi as [Hi _]. unfold zseq. apply list_elem_of_fmap.
    exists (Z.to_nat i). rewrite elem_of_seq. lia.
Qed.

Lemma get_spec calloc w key count :
  tenant_inv (w_fc w) → s_tenants (w_fc w) ≠ None →
  let '(w', slot) := fc_tenant_get calloc w key count in
  tenant_wf (w_fc w') ∧ got (w_fc w) (w_fc w') key slot ∧ w_id w' = w_id w.
Proof.
  intros [_ Hi] Hsome. unfold fc_tenant_get, fc_tenant_table_ensure.
  destruct (s_tenants (w_fc w)) as [l|] eqn:El; [|done]. set (fc := w_fc w) in *. cbn [negb].
  assert (Hw : tenant_wf fc) by done. clear Hi. pose proof (tw_core _ _ Hw) as Hc.
  destruct (tc_index _ Hc) as [Hix Htb].
  destruct (own_dec fc key Hw) as [(i & Hown)|Hno].
  { destruct (find_hit fc _ key i Hix Hown) as [Hb Hv]. destruct (fc_tidx_find fc key) as [b fr].
    simpl in Hb, Hv. destruct (b =? fc_tidx_buckets fc) eqn:E; zbool; [lia|]. cbn [negb].
    rewrite Hv. replace (i + 1 - 1) with i by lia. simpl. split_and!; [done| |done]. by apply got_own. }
  destruct (find_miss fc _ key Hix Hno) as [Hb (m & Hm & Hfr)].
  destruct (fc_tidx_find fc key) as [b fr]. simpl in Hb, Hfr. subst b fr. rewrite Z.eqb_refl. cbn [negb].
  destruct (s_tenant_free fc >=? s_tenant_slots fc) eqn:Ef; zbool.
  - destruct (free_head fc Hc) as [?|[_ Hall]]; [lia|].
    destruct (t_used (tget fc (s_tenant_slots fc))) eqn:Eu; cbn [negb].
    + destruct count; split_and!; try done; by apply got_shared.
    + destruct (take_shared_wf fc key Hw Eu) as [Hw' Ho'].
      destruct count; split_and!; try done; by apply got_shared.
  - destruct (free_head fc Hc) as [(_ & ? & Hun)|?]; [|lia].
    destruct (take_slot_wf fc key m Hw Hno Ef Hm) as [Hw' Ho'].
    cbn [w_fc w_id field_set]. split_and!; [exact Hw'| |done].
    apply got_free; [done|lia|done|exact Ho'].
Qed.

(** One count of a slot up or down, then its mark. *)
Lemma count_mark_wf fc i f :
  tenant_wf fc → 0 ≤ i ≤ s_tenant_slots fc →
  (∀ t, t_used (f t) = t_used t ∧ t_key (f t) = t_key t ∧ t_next_free (f t) = t_next_free t) →
  (∀ t, t_waiting_runnable (f t) = t_waiting_runnable t) →
  tenant_wf (fc_tenant_mark (tmod i f fc) i).
Proof.
  intros Hw Hi Hf Hf'. apply mark_wf; [|done]. eapply tmod_wf in Hw; [|exact Hi|exact Hf|exact Hf']. exact Hw.
Qed.

Lemma mark_closed_wf fc i :
  tenant_wf fc → 0 ≤ i ≤ s_tenant_slots fc → tenant_wf (fc_tenant_mark fc i).
Proof.
  intros [Hc Hn Hm] Hi. apply mark_wf; [|done]. split; [done|done|]. intros j Hj Hx. apply Hm; tauto.
Qed.

Lemma dec_wf w slot queued :
  tenant_inv (w_fc w) → tenant_inv (w_fc (fc_tenant_dec w slot queued)).
Proof.
  intros [Hs Hi]. unfold fc_tenant_dec. case_test; [by split|]. zbool.
  apply bool_decide_eq_true in H as [l El]. rewrite El in Hi.
  assert (Hw : tenant_wf (w_fc w)) by exact Hi. assert (Hr : 0 ≤ slot ≤ s_tenant_slots (w_fc w)) by lia.
  set (w1 := if (_ =? 0) then _ else _).
  assert (Hw1 : tenant_wf (fc_tenant_mark (w_fc w1) slot)).
  { unfold w1. destruct (_ =? 0).
    - exact (mark_closed_wf _ _ Hw Hr).
    - apply (count_mark_wf _ _ _ Hw Hr); by destruct queued. }
  pose proof (put_wf _ slot Hw1) as Hw2.
  change (tenant_inv (fc_tenant_put (fc_tenant_mark (w_fc w1) slot) slot)).
  split; [pose proof (tenant_slots_pos _ (tw_core _ _ Hw2)); lia|].
  destruct (tc_tab _ (tw_core _ _ Hw2)) as (l' & -> & _). exact Hw2.
Qed.

(** Clearing a mark and taking it again. *)
Lemma remark_core fc i :
  tenant_core fc → 0 ≤ i ≤ s_tenant_slots fc →
  let fc' := fc_tenant_mark (tmod i (fun t => t <| t_waiting_runnable := false |>) fc) i in
  tenant_core fc' ∧ s_tenant_slots fc' = s_tenant_slots fc ∧ s_tenant_bound fc' = s_tenant_bound fc ∧
  s_tenants_runnable_waiting fc'
  = s_tenants_runnable_waiting fc + Z.b2z (tenant_runnable (s_tenant_bound fc) (tget fc i)) ∧
  (∀ j, 0 ≤ j → tget fc' j = if decide (j = i)
     then (tget fc i) <| t_waiting_runnable := tenant_runnable (s_tenant_bound fc) (tget fc i) |>
     else tget fc j).
Proof.
  intros Hc Hi. set (clr := fun t : fc_tenant => t <| t_waiting_runnable := false |>).
  assert (Hc1 : tenant_core (tmod i clr fc)) by (by apply tmod_core).
  assert (Hg1 : ∀ j, 0 ≤ j → tget (tmod i clr fc) j = if decide (j = i) then clr (tget fc i) else tget fc j).
  { intros. by apply tget_tmod. }
  unfold fc_tenant_mark. rewrite (Hg1 i) by lia. rewrite decide_True by done.
  change (s_tenant_bound (tmod i clr fc)) with (s_tenant_bound fc).
  change (tenant_runnable (s_tenant_bound fc) (clr (tget fc i)))
    with (tenant_runnable (s_tenant_bound fc) (tget fc i)).
  destruct (tenant_runnable (s_tenant_bound fc) (tget fc i)) eqn:Er; cbn [Bool.eqb clr t_waiting_runnable field_set].
  - set (fc2 := (tmod i clr fc) <| s_tenants_runnable_waiting ::= (fun n => n + 1) |>).
    assert (Hc2 : tenant_core fc2) by (by apply (tenant_core_ext (tmod i clr fc))).
    split_and!; [by apply tmod_core|done|done|done|]. intros j Hj.
    rewrite (tget_tmod fc2) by done. change (tget fc2) with (tget (tmod i clr fc)).
    rewrite !Hg1 by lia. case_decide; [|done]. by rewrite decide_True.
  - split_and!; [done|done|done|simpl; lia|]. intros j Hj. by rewrite Hg1.
Qed.

(** Taking every mark again for a new bound. *)
Lemma remark_all fc n :
  tenant_core fc → Z.of_nat n ≤ s_tenant_slots fc + 1 → s_tenants_runnable_waiting fc = 0 →
  let remark fc i := fc_tenant_mark (tmod i (fun t => t <| t_waiting_runnable := false |>) fc) i in
  let fc' := foldl remark fc (Z.of_nat <$> seq 0 n) in
  tenant_core fc' ∧ s_tenant_slots fc' = s_tenant_slots fc ∧ s_tenant_bound fc' = s_tenant_bound fc ∧
  s_tenants_runnable_waiting fc' = zcount (fun i => t_waiting_runnable (tget fc' (Z.of_nat i))) (seq 0 n) ∧
  (∀ i, 0 ≤ i → tget fc' i = if decide (i < Z.of_nat n)
     then (tget fc i) <| t_waiting_runnable := tenant_runnable (s_tenant_bound fc) (tget fc i) |>
     else tget fc i).
Proof.
  intros Hc Hn H0 remark. induction n as [|n IH]; cbn zeta.
  { split_and!; try done. intros i Hi. by rewrite decide_False by lia. }
  rewrite seq_S, fmap_app, foldl_app. cbn [foldl fmap list_fmap plus].
  destruct IH as (Hc1 & Hs1 & Hb1 & Hr1 & Hg1); [lia|]. set (fc1 := foldl remark fc _) in *.
  destruct (remark_core fc1 (Z.of_nat n) Hc1 ltac:(lia)) as (Hc2 & Hs2 & Hb2 & Hr2 & Hg2).
  fold (remark fc1 (Z.of_nat n)) in Hc2, Hs2, Hb2, Hr2, Hg2. set (fc2 := remark fc1 (Z.of_nat n)) in *.
  assert (Hg : ∀ i, 0 ≤ i → tget fc2 i = if decide (i < Z.of_nat (S n))
     then (tget fc i) <| t_waiting_runnable := tenant_runnable (s_tenant_bound fc) (tget fc i) |>
     else tget fc i).
  { intros i Hi. rewrite Hg2 by done. rewrite Hb1. rewrite !Hg1 by lia.
    destruct (decide (i = Z.of_nat n)) as [->|]; [|repeat case_decide; done || lia].
    rewrite decide_False by lia. by rewrite decide_True by lia. }
  split_and!; [done|congruence|congruence| |exact Hg].
  rewrite Hr2, Hr1, zcount_app. simpl. rewrite Hb1, (Hg1 (Z.of_nat n)), (Hg (Z.of_nat n)) by lia.
  rewrite decide_False, decide_True by lia. simpl. rewrite Z.add_0_r. f_equal.
  apply zcount_ext. intros j Hj%elem_of_seq. rewrite Hg2 by lia. by rewrite decide_False by lia.
Qed.

Lemma zcount_tab (P : fc_tenant → bool) fc :
  tenant_core fc →
  zcount (fun i => P (tget fc (Z.of_nat i))) (seq 0 (Z.to_nat (s_tenant_slots fc + 1))) = zcount P (tab fc).
Proof.
  intros Hc. destruct (tc_tab _ Hc) as (l & Hl & Hlen). unfold tget, tab, zget. rewrite Hl. simpl.
  replace (Z.to_nat (s_tenant_slots fc + 1)) with (length l) by (unfold zlen in Hlen; lia).
  clear. induction l as [|t l IH] using rev_ind; [done|].
  rewrite length_app, Nat.add_1_r, seq_S, !zcount_app. simpl. f_equal.
  - rewrite <- IH. apply zcount_ext. intros j Hj%elem_of_seq. rewrite !Nat2Z.id.
    by rewrite !list_lookup_total_alt, lookup_app_l by lia.
  - rewrite Nat2Z.id. rewrite list_lookup_total_alt, lookup_app_r by lia.
    by rewrite Nat.sub_diag.
Qed.

(** The question the admission gate asks of the table. *)
Lemma waiter_spec fc bound :
  tenant_inv fc →
  let '(fc', r) := fc_tenant_waiter_can_run fc bound in
  tenant_inv fc' ∧ (∀ i, slot_of fc' i = slot_of fc i) ∧
  (r = true ↔ ∃ t, t ∈ tab fc ∧ tenant_runnable bound t = true) ∧
  (∀ i b, 0 ≤ i ≤ s_tenant_slots fc → fc_tenant_can_run fc' i b = fc_tenant_can_run fc i b).
Proof.
  intros [Hs Hi]. unfold fc_tenant_waiter_can_run.
  destruct (s_tenants fc) as [l|] eqn:El.
  2:{ rewrite bool_decide_false by (intros [? ?]; congruence). simpl. split_and!; [by split; [|rewrite El]|done| |done].
      unfold tab. rewrite El. split; [done|]. intros (t & Ht & _). by apply not_elem_of_nil in Ht. }
  rewrite bool_decide_true by done. cbn [negb]. assert (Hw : tenant_wf fc) by exact Hi. clear Hi.
  pose proof (tw_core _ _ Hw) as Hc.
  assert (Hend : ∀ fc', tenant_wf fc' → s_tenant_bound fc' = bound →
    (s_tenants_runnable_waiting fc' >? 0) = true ↔ ∃ t, t ∈ tab fc' ∧ tenant_runnable bound t = true).
  { intros fc' Hw' Hb. rewrite Z.gtb_ltb, Z.ltb_lt, (tw_count _ _ Hw'). split.
    - intros Hp. destruct (zcount_exists t_waiting_runnable (tab fc')) as (t & Ht & Hr); [lia|].
      exists t. split; [done|]. destruct (tab_slot fc' t (tw_core _ _ Hw') Ht) as (i & Hi & ->).
      rewrite <- Hb, <- (tw_marks _ _ Hw' i); [done|done|auto].
    - intros (t & Ht & Hr). destruct (tab_slot fc' t (tw_core _ _ Hw') Ht) as (i & Hi & ->).
      assert (1 ≤ zcount t_waiting_runnable (tab fc')); [|lia]. apply (zcount_pos _ _ _ Ht).
      rewrite (tw_marks _ _ Hw' i), Hb; [done|done|auto]. }
  destruct (bound =? s_tenant_bound fc) eqn:Eb; cbn [negb]; zbool.
  { split_and!; [by split; [|rewrite El]|done|by apply Hend|done]. }
  set (fc0 := field_set s_tenants_runnable_waiting _ _).
  assert (Hc0 : tenant_core fc0) by (by apply (tenant_core_ext fc)).
  destruct (remark_all fc0 (Z.to_nat (s_tenant_slots fc + 1)) Hc0) as (Hc1 & Hs1 & Hb1 & Hr1 & Hg1);
    [simpl; lia|done|]. cbn zeta in Hc1, Hs1, Hb1, Hr1, Hg1. change (Z.of_nat <$> seq 0 (Z.to_nat (s_tenant_slots fc + 1)))
    with (zseq (s_tenant_slots fc + 1)) in *. set (fc1 := foldl _ _ _) in *.
  assert (Hsl : s_tenant_slots fc1 = s_tenant_slots fc) by (by rewrite Hs1).
  assert (Hg : ∀ i, 0 ≤ i ≤ s_tenant_slots fc → tget fc1 i =
    (tget fc i) <| t_waiting_runnable := tenant_runnable bound (tget fc i) |>).
  { intros i Hi. rewrite Hg1 by lia. by rewrite decide_True by lia. }
  assert (Hw1 : tenant_wf fc1).
  { split; [done| |].
    - rewrite Hr1, <- Hsl. by apply (zcount_tab t_waiting_runnable).
    - intros i Hi _. unfold marked. rewrite Hb1, Hg by lia. done. }
  destruct (tc_tab _ Hc1) as (l1 & Hl1 & _). split_and!.
  - split; [lia|]. by rewrite Hl1.
  - intros i. unfold slot_of. rewrite Hl1, El. unfold own_of. rewrite Hsl.
    destruct (0 <=? i) eqn:E1, (i <? s_tenant_slots fc) eqn:E2; zbool; simpl; try done. by rewrite Hg by lia.
  - rewrite (Hend fc1 Hw1) by (by rewrite Hb1). split; intros (t & Ht & Hr).
    + destruct (tab_slot fc1 t Hc1 Ht) as (i & Hi & ->). rewrite Hg in Hr by lia.
      exists (tget fc i). split; [apply slot_in_tab; lia || done|done].
    + destruct (tab_slot fc t Hc Ht) as (i & Hi & ->). exists (tget fc1 i).
      split; [apply slot_in_tab; lia || done|]. by rewrite Hg by lia.
  - intros i b Hi. unfold fc_tenant_can_run. rewrite Hl1, El, Hg by lia. done.
Qed.

(** The table reads nothing of the queue or of the pool's own counters. *)
Lemma tenant_wf_ext fc fc' :
  tenant_wf fc → s_tenants fc' = s_tenants fc → s_tenant_slots fc' = s_tenant_slots fc →
  s_tenant_index fc' = s_tenant_index fc → s_tenants_used fc' = s_tenants_used fc →
  s_tenant_free fc' = s_tenant_free fc → s_tenant_tombs fc' = s_tenant_tombs fc →
  s_tenants_runnable_waiting fc' = s_tenants_runnable_waiting fc →
  s_tenant_bound fc' = s_tenant_bound fc → tenant_wf fc'.
Proof.
  intros [Hc Hn Hm] Ht Hs Hi Hu Hf Htb Hr Hb. split; [by apply (tenant_core_ext fc)| |].
  - unfold tab in *. by rewrite Hr, Ht.
  - intros i Hj Hx. unfold marked, tget, tab in *. rewrite Ht, Hb. apply Hm; [by rewrite <- Hs|done].
Qed.

Lemma tenant_inv_ext fc fc' :
  tenant_inv fc → s_tenants fc' = s_tenants fc → s_tenant_slots fc' = s_tenant_slots fc →
  s_tenant_index fc' = s_tenant_index fc → s_tenants_used fc' = s_tenants_used fc →
  s_tenant_free fc' = s_tenant_free fc → s_tenant_tombs fc' = s_tenant_tombs fc →
  s_tenants_runnable_waiting fc' = s_tenants_runnable_waiting fc →
  s_tenant_bound fc' = s_tenant_bound fc → tenant_inv fc'.
Proof.
  intros [Hs Hw] Ht Hsl **. split; [by rewrite Hsl|]. rewrite Ht.
  destruct (s_tenants fc) eqn:E; [|done]. apply (tenant_wf_ext fc); congruence || done.
Qed.

Lemma tenant_wf_queue fc q : tenant_wf fc → tenant_wf (fc <| s_queue := q |>).
Proof. intros Hw. by apply (tenant_wf_ext fc). Qed.

(** ** Theorems *)

(** Looking a tenant up in a well-formed table returns the slot that
    already holds its key; for a new key it takes a slot that was free and the
    table then maps that slot to the key and no other slot differently; and
    only when every named slot is in use does it hand out the shared slot. The
    table stays well formed. *)
Theorem fc_tenant_get_correct calloc w key count :
  tenant_wf (w_fc w) →
  let '(w', slot) := fc_tenant_get calloc w key count in
  tenant_wf (w_fc w') ∧ got (w_fc w) (w_fc w') key slot.
Proof.
  intros Hw. destruct (tc_tab _ (tw_core _ _ Hw)) as (l & Hl & _).
  pose proof (tenant_slots_pos _ (tw_core _ _ Hw)).
  pose proof (get_spec calloc w key count) as Hg. destruct (fc_tenant_get calloc w key count) as [w' slot].
  destruct Hg as (? & ? & _); [split; [lia|by rewrite Hl]|by rewrite Hl|done].
Qed.

(** A pool with an empty table of 64 slots. *)
Definition pool_with_table : fc_state := fresh_table 64 (fc_state_zero <| s_tenant_slots := 64 |>).

Lemma pool_with_table_wf : tenant_wf pool_with_table.
Proof. by apply ensure_fresh. Qed.

Lemma fc_tenant_get_witness :
  tenant_wf pool_with_table ∧
  let '(w', slot) := fc_tenant_get (fun _ => true) (world_of pool_with_table) 7 true in
  tenant_wf (w_fc w') ∧ got pool_with_table (w_fc w') 7 slot.
Proof.
  split; [exact pool_with_table_wf|].
  exact (fc_tenant_get_correct (fun _ => true) (world_of pool_with_table) 7 true pool_with_table_wf).
Defined.

(** Giving back a slot that holds neither a running nor a waiting request
    takes exactly its key out of the table: every other tenant is still found
    in its own slot, through tombstones, emptied runs and a re-laid index. *)
Theorem fc_tenant_put_correct fc slot :
  tenant_wf fc → 0 ≤ slot ≤ s_tenant_slots fc → t_used (tget fc slot) = true →
  t_inflight (tget fc slot) = 0 → t_queued (tget fc slot) = 0 →
  let fc' := fc_tenant_put fc slot in
  tenant_wf fc' ∧
  ∀ i key, own_of fc i = Some key → i ≠ slot →
    iget fc' (fst (fc_tidx_find fc' key)) = i + 1.
Proof.
  intros Hw Hi Hu Hf Hq. destruct (put_empty fc slot Hw Hi Hu Hf Hq) as [Hw' Ho]. split; [done|].
  intros i key Hown Hne. destruct (tc_index _ (tw_core _ _ Hw')) as [Hix _].
  apply (find_hit _ _ key i Hix). rewrite Ho. by rewrite own_set_ne.
Qed.

(** Two tenants in the table. *)
Definition pool_two_tenants : fc_state :=
  w_fc (fst (fc_tenant_get (fun _ => true)
    (fst (fc_tenant_get (fun _ => true) (world_of pool_with_table) 7 true)) 9 true)).

Lemma pool_two_tenants_wf : tenant_wf pool_two_tenants.
Proof.
  unfold pool_two_tenants.
  pose proof (get_spec (fun _ => true) (world_of pool_with_table) 7 true) as H1.
  destruct (fc_tenant_get _ (world_of pool_with_table) 7 true) as [w1 s1].
  destruct H1 as (Hw1 & _); [split; [done|exact pool_with_table_wf]|done|].
  destruct (tc_tab _ (tw_core _ _ Hw1)) as (l & Hl & _). pose proof (tenant_slots_pos _ (tw_core _ _ Hw1)).
  pose proof (get_spec (fun _ => true) w1 9 true) as H2. cbn [fst].
  destruct (fc_tenant_get _ w1 9 true) as [w2 s2].
  destruct H2 as (Hw2 & _); [split; [lia|by rewrite Hl]|by rewrite Hl|done].
Qed.

Lemma fc_tenant_put_witness :
  own_of pool_two_tenants 1 = Some 9 ∧
  iget (fc_tenant_put pool_two_tenants 0) (fst (fc_tidx_find (fc_tenant_put pool_two_tenants 0) 9)) = 2.
Proof.
  assert (own_of pool_two_tenants 1 = Some 9) as Ho by (vm_compute; reflexivity). split; [exact Ho|].
  destruct (fc_tenant_put_correct pool_two_tenants 0 pool_two_tenants_wf) as [_ Hfind].
  - vm_compute. split; discriminate.
  - vm_compute. reflexivity.
  - vm_compute. reflexivity.
  - vm_compute. reflexivity.
  - exact (Hfind 1 9 Ho ltac:(lia)).
Defined.

(** The count of waiting tenants that could run, kept as the tenants'
    counts move and taken again when the bound moves, answers the gate's
    question exactly: it is positive precisely when some tenant in use has a
    waiter and runs fewer than [bound] requests. *)
Theorem fc_tenant_waiter_can_run_exact fc bound :
  tenant_inv fc →
  snd (fc_tenant_waiter_can_run fc bound) = true ↔
  ∃ t, t ∈ tab fc ∧ t_used t = true ∧ 0 < t_queued t ∧ (bound = 0 ∨ t_inflight t < bound).
Proof.
  intros Hi. pose proof (waiter_spec fc bound Hi) as Hw.
  destruct (fc_tenant_waiter_can_run fc bound) as [fc' r]. destruct Hw as (_ & _ & -> & _).
  apply exist_proper. intros t. unfold tenant_runnable.
  rewrite !andb_true_iff, orb_true_iff, Z.gtb_ltb, !Z.ltb_lt, Z.eqb_eq. tauto.
Qed.

Lemma fc_tenant_waiter_witness :
  tenant_inv pool_two_tenants ∧
  (snd (fc_tenant_waiter_can_run pool_two_tenants 3) = true ↔
   ∃ t, t ∈ tab pool_two_tenants ∧ t_used t = true ∧ 0 < t_queued t ∧ (3 = 0 ∨ t_inflight t < 3)).
Proof.
  assert (tenant_inv pool_two_tenants) as Hi.
  { destruct (tc_tab _ (tw_core _ _ pool_two_tenants_wf)) as (l & Hl & _). split; [vm_compute; split; discriminate|].
    rewrite Hl. exact pool_two_tenants_wf. }
  split; [exact Hi|]. exact (fc_tenant_waiter_can_run_exact pool_two_tenants 3 Hi).
Defined.
