(* ===== verification/FcFloors.v ===== *)
(** * Capacity admission: units, floors and the reserve (src/common/sockproxy_fc.c)

    The counters of units in service, the decision counters, the classifier of
    inference requests, and what an enforcing pool holds back: a band's floor
    (units it is owed while it has a waiter) and the critical reserve (units
    critical is owed whatever it has waiting). The theorems show that the
    claims fit under the ceiling, that no admission eats into the reserve,
    and that the floors never hold every waiter back while there is room. *)

From stdpp Require Import base list gmap numbers strings.
From Stdlib Require Import Ascii.
From S2P Require Import Prelude FcTypes FcRing FcTenant.

(** ** Decision counters *)

Definition fc_count (reason : fc_reason) (fc : fc_state) : fc_state :=
  fc <| s_decisions ::= (fun l => zmod l (fc_reason_ix reason) (fun n => u64 (n + 1))) |>.

(** The first outcome with that reason; -1 for none. *)
Definition fc_band_outcome_of (reason : fc_reason) : Z :=
  default (-1) (List.find (fun o => bool_decide (fc_band_outcome_reason o = reason)) (zseq FC_BO_COUNT)).

Definition fc_count_band (reason : fc_reason) (band : Z) (fc : fc_state) : fc_state :=
  let fc := fc_count reason fc in
  if negb (fc_band_counted band) then fc
  else
    let o := fc_band_outcome_of reason in
    if o >=? 0
    then fc <| s_band_outcome ::= (fun t => amod t band (fun l => zmod l o (fun n => u64 (n + 1)))) |>
    else fc.

(** A band's outcome counter; the standard band is the rest, and the largest
    value read so far is kept. *)
Definition fc_band_outcome (fc : fc_state) (band outcome : Z) : fc_state * Z :=
  if (outcome <? 0) || (outcome >=? FC_BO_COUNT) then (fc, 0)
  else
    let band := fc_band_of band in
    if fc_band_counted band then (fc, zget (aget (s_band_outcome fc) band) outcome)
    else
      let total := zget (s_decisions fc) (fc_reason_ix (fc_band_outcome_reason outcome)) in
      let crit := zget (aget (s_band_outcome fc) FC_BAND_CRITICAL) outcome in
      let shed := zget (aget (s_band_outcome fc) FC_BAND_SHEDDABLE) outcome in
      let std := if total >? u64 (crit + shed) then u64 (total - crit - shed) else 0 in
      let seen := zget (s_band_std_read fc) outcome in
      if std >? seen
      then (fc <| s_band_std_read ::= (fun l => zset l outcome std) |>, std)
      else (fc, seen).

(** ** Whether a band may wait *)

Definition fc_band_may_wait (fc : fc_state) (p : fc_permit) : bool :=
  negb (c_mode (s_cfg fc) =? FC_MODE_ENFORCE) || negb (p_band p =? FC_BAND_SHEDDABLE)
  || c_shed_queue (s_cfg fc).

Definition fc_band_verdict (fc : fc_state) (p : fc_permit) (v : fc_verdict) : fc_verdict :=
  if bool_decide (v = FC_QUEUE ∨ v = FC_SHED) && negb (fc_band_may_wait fc p)
  then FC_BAND_SHED else v.

(** ** Drain *)

Definition fc_drain_set (on : bool) (w : world) : world := w <| w_drain := on |>.
Definition fc_draining (w : world) : bool := w_drain w.

(** ** Classification *)

Definition fc_inference_paths : list string :=
  ["/v1/chat/completions"; "/v1/completions"; "/v1/embeddings"; "/v1/rerank"; "/v1/messages";
   "/v1/responses"; "/generate"; "/generate_stream"].

(** strcspn(path, "?") as the prefix it measures. *)
Fixpoint before_query (s : string) : list ascii :=
  match s with
  | EmptyString => []
  | String "?" _ => []
  | String c s => c :: before_query s
  end.
(** The while loop over trailing slashes, on the reversed prefix. *)
Fixpoint trim_slash (r : list ascii) : list ascii :=
  match r with
  | "/"%char :: ((_ :: _) as r') => trim_slash r'
  | _ => r
  end.
Definition fc_is_inference_request (is_post : bool) (path : option string) : bool :=
  match path with
  | Some (String "/" _ as s) =>
      is_post &&
      existsb (fun want => bool_decide (String.list_ascii_of_string want
                                         = rev (trim_slash (rev (before_query s)))))
        fc_inference_paths
  | _ => false
  end.

(** ** Units *)

(** One unit under a ceiling: the counter's new value, [None] at the ceiling.
    A ceiling of 0 is unlimited. *)
Definition fc_unit_take (ctr cap : Z) : option Z :=
  if negb (cap =? 0) && (ctr >=? cap) then None else Some (u32 (ctr + 1)).

(** One unit back: the counter's new value and whether it was at zero. *)
Definition fc_unit_give (ctr : Z) : Z * bool :=
  if ctr =? 0 then (0, true) else (ctr - 1, false).

(** Giving a unit of the pool back, an underflow counted. *)
Definition give_unit (rd : fc_state → Z) (wr : Z → fc_state → fc_state) (w : world) : world :=
  let '(n, under) := fc_unit_give (rd (w_fc w)) in
  let w := on_fc (wr n) w in
  if under then fc_anomaly FC_A_UNDERFLOW w else w.

Definition give_inflight : world → world :=
  give_unit s_inflight (fun n fc => fc <| s_inflight := n |>).

(** The band counters move with the unit, critical and sheddable only. *)
Definition fc_band_unit_take (p : fc_permit) (fc : fc_state) : fc_state :=
  if fc_band_counted (p_band p)
  then fc <| s_band_inflight ::= (fun a => amod a (p_band p) (fun n => u32 (n + 1))) |> else fc.

Definition fc_band_unit_give (p : fc_permit) (w : world) : world :=
  if fc_band_counted (p_band p)
  then give_unit (fun fc => aget (s_band_inflight fc) (p_band p))
         (fun n fc => fc <| s_band_inflight ::= (fun a => aset a (p_band p) n) |>) w
  else w.

Definition fc_tenants_tracked (fc : fc_state) : bool :=
  fc_share_active fc
  || (negb (c_mode (s_cfg fc) =? FC_MODE_OFF) && (c_tenant_wake (s_cfg fc) =? FC_TENANT_WAKE_RR)).

Definition fc_wake_strict (fc : fc_state) : bool := c_wake_policy (s_cfg fc) =? FC_WAKE_STRICT.

(** ** Floors and the reserve *)

Definition fc_floor_units (cap pct : Z) : Z :=
  if (cap =? 0) || (pct =? 0) then 0
  else if pct >=? 100 then cap
  else
    let u := (cap * pct + 99) / 100 in
    if u >=? cap then cap - 1 else u32 u.

(** The floors of the bands and the reserve, critical first, then by rank
    with what is left. *)
Definition fc_floor_claims (c : fc_cfg) (cap : Z) : arr3 Z * Z :=
  let res := fc_floor_units cap (c_critical_reserve_pct c) in
  let crit := fc_floor_units cap (aget (c_band_min_share_pct c) FC_BAND_CRITICAL) in
  let claim := if res >? crit then res else crit in
  let step '(floor, rest) r :=
    let b := fc_band_at_rank r in
    let u := fc_floor_units cap (aget (c_band_min_share_pct c) b) in
    let f := if u <? rest then u else rest in
    (aset floor b f, u32 (rest - f)) in
  let '(floor, _) := foldl step (aset azero FC_BAND_CRITICAL crit, u32 (cap - claim)) [1; 2] in
  (floor, res).

(** fc_floor_view_t *)
Record fc_floor_view := mk_fc_floor_view {
  fv_cap : Z;
  fv_total : Z;
  fv_reserve : Z;
  fv_floor : arr3 Z;
  fv_claim : arr3 Z;
  fv_in : arr3 Z;
  fv_wait : arr3 bool
}.

Definition fc_floor_view_load (fc : fc_state) (cap : Z) (pend : option (arr3 Z))
    (wait : option (arr3 bool)) : fc_floor_view :=
  let pd := default azero pend in
  let pt := u32 (a_0 pd + a_1 pd + a_2 pd) in
  let crit := u32 (aget (s_band_inflight fc) FC_BAND_CRITICAL + aget pd FC_BAND_CRITICAL) in
  let shed := u32 (aget (s_band_inflight fc) FC_BAND_SHEDDABLE + aget pd FC_BAND_SHEDDABLE) in
  let total := u32 (s_inflight fc + pt) in
  let '(floor, reserve) := fc_floor_claims (s_cfg fc) cap in
  let claim := if reserve >? aget floor FC_BAND_CRITICAL
               then aset floor FC_BAND_CRITICAL reserve else floor in
  let per {A} (f : Z → A) : arr3 A := Arr3 (f 0) (f 1) (f 2) in
  mk_fc_floor_view cap total reserve floor claim
    (per (fc_band_derive total crit shed))
    (match wait with Some wt => wt | None => per (fun b => fc_band_queued fc b >? 0) end).

(** What band [y] holds back from a request of another band. *)
Definition held_for (v : fc_floor_view) (below : bool) (y : Z) : Z :=
  let rd := if (y =? FC_BAND_CRITICAL) && (fv_reserve v >? aget (fv_in v) y)
            then fv_reserve v - aget (fv_in v) y else 0 in
  let fd := if negb below && aget (fv_wait v) y && (aget (fv_floor v) y >? aget (fv_in v) y)
            then aget (fv_floor v) y - aget (fv_in v) y else 0 in
  if rd >? fd then rd else fd.

Definition fc_floor_held_back (v : fc_floor_view) (band : Z) : Z :=
  let below := aget (fv_in v) band <? aget (fv_claim v) band in
  foldl (fun held y => if y =? band then held else u32 (held + held_for v below y)) 0 (zseq FC_BANDS).

Definition fc_floor_may_take (v : fc_floor_view) (band : Z) : bool :=
  let held := fc_floor_held_back v band in
  (held <? fv_cap v) && (fv_total v <? fv_cap v - held).

Definition fc_floors_apply (fc : fc_state) (cap : Z) : bool :=
  negb (cap =? 0) && (c_mode (s_cfg fc) =? FC_MODE_ENFORCE) && fc_floors_on (s_cfg fc).

(** The service counter after a unit taken for [band]; [None] for no unit. *)
Definition fc_unit_take_band (fc : fc_state) (band cap : Z) (wait : option (arr3 bool)) : option Z :=
  if negb (fc_floors_apply fc cap) then fc_unit_take (s_inflight fc) cap
  else
    let held := fc_floor_held_back (fc_floor_view_load fc cap None wait) band in
    if held >=? cap then None else fc_unit_take (s_inflight fc) (cap - held).

Definition fc_band_below_claim (fc : fc_state) (band : Z) : bool :=
  let cap := fc_svc_cap fc in
  if negb (fc_floors_apply fc cap) then false
  else
    let v := fc_floor_view_load fc cap None None in
    aget (fv_in v) band <? aget (fv_claim v) band.

(** Which bands hold a waiter whose tenant could take a unit now. *)
Definition fc_floor_waiting_runnable (fc : fc_state) (bound : Z) : arr3 bool :=
  let q := s_queue fc in
  foldl (fun wait i =>
    let e := zget (q_ring q) i in
    if e_live e && fc_tenant_can_run fc (e_tslot e) bound
    then aset wait (fc_band_of (e_band e)) true else wait)
    (Arr3 false false false) (ring_walk q).

(** Whether a newcomer of [band] waits behind the queue, from the mirrors. *)
Definition fc_waiters_ahead (fc : fc_state) (band : Z) : bool :=
  let rank := fc_band_rank band in
  if fc_queued fc =? 0 then false
  else if fc_band_below_claim fc band then fc_band_queued fc band >? 0
  else if negb (fc_wake_strict fc) || (rank =? FC_BANDS - 1) then true
  else existsb (fun r => fc_band_queued fc (fc_band_at_rank r) >? 0) (zseq (rank + 1)).

(** Whether some entry of the walk satisfies [P]. *)
Definition ring_any (q : fc_queue) (P : fc_queue_ent → bool) : bool :=
  existsb (fun i => P (zget (q_ring q) i)) (ring_walk q).

(** The same on a pool with a share: a waiter that could run is ahead. *)
Definition fc_band_waiter_can_run (fc : fc_state) (band bound : Z) : fc_state * bool :=
  let rank := fc_band_rank band in
  let '(fc, any) := fc_tenant_waiter_can_run fc bound in
  let q := s_queue fc in
  (fc,
   if negb any then false
   else if fc_band_below_claim fc band then
     ring_any q (fun e => e_live e && (e_band e =? band) && fc_tenant_can_run fc (e_tslot e) bound)
   else if negb (fc_wake_strict fc) || (rank =? FC_BANDS - 1) then true
   else
     let has r := negb (fc_ring_band_n q (fc_band_at_rank r) =? 0) in
     let ahead := existsb (fun r => has r && (r <=? rank)) (zseq FC_BANDS) in
     let below := existsb (fun r => has r && negb (r <=? rank)) (zseq FC_BANDS) in
     if negb ahead then false
     else if negb below then true
     else ring_any q (fun e => e_live e && (fc_band_rank (e_band e) <=? rank)
                               && fc_tenant_can_run fc (e_tslot e) bound)).

(** ** The claims fit under the ceiling *)

Lemma floor_units_bound cap pct :
  fits32 cap → 0 ≤ pct → 0 ≤ fc_floor_units cap pct ≤ cap.
Proof.
  unfold fits32, fc_floor_units. intros Hc Hp. destruct (_ || _) eqn:E0; [lia|]. zbool.
  case_test; [lia|]. zbool.
  assert (0 ≤ (cap * pct + 99) / 100) by (apply Z.div_pos; lia).
  case_test; zbool; [lia|]. unfold u32. rewrite Z.mod_small; lia.
Qed.

(** The shares a configuration may hold. *)
Definition pct_ok (c : fc_cfg) : Prop :=
  0 ≤ a_0 (c_band_min_share_pct c) ∧ 0 ≤ a_1 (c_band_min_share_pct c) ∧
  0 ≤ a_2 (c_band_min_share_pct c) ∧ 0 ≤ c_critical_reserve_pct c.

Lemma claims_fit c cap :
  fits32 cap → pct_ok c →
  let '(floor, reserve) := fc_floor_claims c cap in
  0 ≤ reserve ∧ 0 ≤ a_0 floor ∧ 0 ≤ a_1 floor ∧ 0 ≤ a_2 floor ∧
  Z.max reserve (aget floor FC_BAND_CRITICAL) + aget floor FC_BAND_STANDARD
  + aget floor FC_BAND_SHEDDABLE ≤ cap.
Proof.
  intros Hc (P0 & P1 & P2 & Pr). unfold fc_floor_claims.
  pose proof (floor_units_bound cap _ Hc Pr) as Hr.
  pose proof (floor_units_bound cap _ Hc P0) as H0. pose proof (floor_units_bound cap _ Hc P1) as H1.
  pose proof (floor_units_bound cap _ Hc P2) as H2. unfold fits32 in Hc.
  unfold FC_BAND_CRITICAL, FC_BAND_STANDARD, FC_BAND_SHEDDABLE, aget.
  cbn [foldl fc_band_at_rank Z.eqb Pos.eqb FC_BAND_STANDARD FC_BAND_SHEDDABLE].
  set (res := fc_floor_units cap (c_critical_reserve_pct c)) in *.
  set (f0 := fc_floor_units cap (a_0 _)) in *. set (f1 := fc_floor_units cap (a_1 _)) in *.
  set (f2 := fc_floor_units cap (a_2 _)) in *. clearbody res f0 f1 f2.
  assert (Hl : u32 (cap - (if res >? f1 then res else f1)) = cap - Z.max res f1).
  { unfold u32. destruct (res >? f1) eqn:E; zbool; rewrite Z.mod_small; lia. }
  rewrite Hl. set (l0 := cap - Z.max res f1) in *. assert (0 ≤ l0) by lia.
  set (g0 := if f0 <? l0 then f0 else l0). assert (Hg0 : 0 ≤ g0 ≤ l0) by (unfold g0; case_test; zbool; lia).
  rewrite (u32_small (l0 - g0)) by lia.
  set (g2 := if f2 <? l0 - g0 then f2 else l0 - g0).
  assert (Hg2 : 0 ≤ g2 ≤ l0 - g0) by (unfold g2; case_test; zbool; lia).
  cbn. lia.
Qed.

(** ** What is held back *)

(** A view the loader makes: claims that fit, and critical's the larger. *)
Record view_ok (v : fc_floor_view) : Prop := {
  vo_cap : fits32 (fv_cap v);
  vo_floor : 0 ≤ a_0 (fv_floor v) ∧ 0 ≤ a_1 (fv_floor v) ∧ 0 ≤ a_2 (fv_floor v) ∧ 0 ≤ fv_reserve v;
  vo_fit : Z.max (fv_reserve v) (a_1 (fv_floor v)) + a_0 (fv_floor v) + a_2 (fv_floor v) ≤ fv_cap v;
  vo_claim : fv_claim v = Arr3 (a_0 (fv_floor v)) (Z.max (fv_reserve v) (a_1 (fv_floor v))) (a_2 (fv_floor v));
  vo_in : 0 ≤ a_0 (fv_in v) ∧ 0 ≤ a_1 (fv_in v) ∧ 0 ≤ a_2 (fv_in v)
}.

Lemma derive_nonneg total crit shed b :
  fits32 total → 0 ≤ crit → 0 ≤ shed → 0 ≤ fc_band_derive total crit shed b.
Proof.
  intros Ht ? ?. unfold fc_band_derive. repeat case_test; try lia. apply u32_fits.
Qed.

Lemma view_load_ok fc cap pend wait :
  fits32 cap → pct_ok (s_cfg fc) → view_ok (fc_floor_view_load fc cap pend wait).
Proof.
  intros Hc Hp. pose proof (claims_fit _ _ Hc Hp) as Hf. unfold fc_floor_view_load.
  destruct (fc_floor_claims (s_cfg fc) cap) as [floor reserve].
  destruct Hf as (Hr & Hf0 & Hf1 & Hf2 & Hsum).
  unfold aget, FC_BAND_CRITICAL, FC_BAND_STANDARD, FC_BAND_SHEDDABLE in *. cbn in Hsum.
  split; cbn [fv_cap fv_floor fv_reserve fv_claim fv_in]; [done|lia|lia| |].
  - cbn [Z.eqb Pos.eqb]. destruct (reserve >? a_1 floor) eqn:E; zbool; destruct floor; cbn in *; f_equal; lia.
  - cbn [a_0 a_1 a_2]. split_and!; apply derive_nonneg; apply u32_fits.
Qed.

Lemma held_for_bound v below y :
  view_ok v → is_band y → 0 ≤ held_for v below y ≤ aget (fv_claim v) y.
Proof.
  intros [? ? ? Hcl ?] Hy. rewrite Hcl. unfold held_for, FC_BAND_CRITICAL.
  destruct Hy as [->|[->| ->]]; unfold aget; cbn [Z.eqb Pos.eqb a_0 a_1 a_2 andb];
    repeat case_test; zbool; lia.
Qed.

(** The two bands other than [b]. *)
Definition others (b : Z) : Z * Z := if b =? 0 then (1, 2) else if b =? 1 then (0, 2) else (0, 1).

Lemma held_back_sum v b :
  view_ok v → is_band b →
  let below := aget (fv_in v) b <? aget (fv_claim v) b in
  let '(y, z) := others b in
  fc_floor_held_back v b = held_for v below y + held_for v below z ∧
  0 ≤ held_for v below y ∧ 0 ≤ held_for v below z ∧
  held_for v below y + held_for v below z ≤ fv_cap v.
Proof.
  intros Hv Hb below.
  pose proof (held_for_bound v below 0 Hv ltac:(by left)) as H0.
  pose proof (held_for_bound v below 1 Hv ltac:(by right; left)) as H1.
  pose proof (held_for_bound v below 2 Hv ltac:(by right; right)) as H2.
  destruct Hv as [Hc Hf Hs Hcl _]. rewrite Hcl in H0, H1, H2. unfold aget in H0, H1, H2.
  cbn in H0, H1, H2. unfold fits32 in Hc. unfold fc_floor_held_back. fold below. change (zseq FC_BANDS) with [0; 1; 2].
  destruct Hb as [->|[->| ->]]; cbn [others foldl Z.eqb Pos.eqb]; rewrite !u32_small; try lia;
    rewrite ?u32_small; lia.
Qed.

(** Below its claim a band is held back only by the reserve. *)
Lemma held_below v y :
  view_ok v → is_band y → y ≠ FC_BAND_CRITICAL →
  aget (fv_in v) y < aget (fv_claim v) y →
  aget (fv_claim v) FC_BAND_CRITICAL ≤ aget (fv_in v) FC_BAND_CRITICAL →
  fc_floor_held_back v y = 0.
Proof.
  intros Hv Hy Hne Hlt Hcr. pose proof (held_back_sum v y Hv Hy) as Hs. apply Z.ltb_lt in Hlt. rewrite Hlt in Hs.
  destruct Hv as [_ _ _ Hcl _]. rewrite Hcl in Hcr. unfold aget, FC_BAND_CRITICAL in *. cbn in Hcr.
  assert (Hz : ∀ b, is_band b → held_for v true b = 0).
  { intros b Hb. unfold held_for, FC_BAND_CRITICAL. destruct Hb as [->|[->| ->]]; unfold aget; cbn;
      repeat case_test; zbool; lia. }
  destruct Hy as [->|[->| ->]]; cbn [others Z.eqb Pos.eqb] in Hs; destruct Hs as [-> _]; rewrite !Hz; unfold is_band; lia.
Qed.

(** Critical below its claim is held back by nobody. *)
Lemma held_critical_below v :
  view_ok v → aget (fv_in v) FC_BAND_CRITICAL < aget (fv_claim v) FC_BAND_CRITICAL →
  fc_floor_held_back v FC_BAND_CRITICAL = 0.
Proof.
  intros Hv Hlt. pose proof (held_back_sum v FC_BAND_CRITICAL Hv ltac:(by right; left)) as Hs.
  apply Z.ltb_lt in Hlt. rewrite Hlt in Hs. cbn [others FC_BAND_CRITICAL Z.eqb Pos.eqb] in Hs.
  destruct Hs as [-> _]. unfold held_for, FC_BAND_CRITICAL. cbn. lia.
Qed.

Lemma progress_lemma v :
  view_ok v → fv_total v < fv_cap v → 0 ≤ fv_total v →
  fc_floor_may_take v FC_BAND_CRITICAL = true ∨
  ∃ y, is_band y ∧ aget (fv_wait v) y = true ∧ aget (fv_in v) y < aget (fv_floor v) y ∧
       fc_floor_may_take v y = true.
Proof.
  intros Hv Hroom Hpos.
  assert (Hfree : ∀ b, fc_floor_held_back v b = 0 → fc_floor_may_take v b = true).
  { intros b Hb. unfold fc_floor_may_take. rewrite Hb. apply andb_true_iff. split; apply Z.ltb_lt; lia. }
  destruct (decide (aget (fv_in v) FC_BAND_CRITICAL < aget (fv_claim v) FC_BAND_CRITICAL)) as [Hlt|Hge].
  { left. by apply Hfree, held_critical_below. }
  assert (Hshort : ∀ y, is_band y → y ≠ FC_BAND_CRITICAL → 0 < held_for v false y →
    aget (fv_wait v) y = true ∧ aget (fv_in v) y < aget (fv_floor v) y).
  { intros y Hy Hne. unfold held_for, FC_BAND_CRITICAL in *. replace (y =? 1) with false by (symmetry; by apply Z.eqb_neq).
    cbn [negb andb]. destruct (aget (fv_wait v) y), (aget (fv_floor v) y >? aget (fv_in v) y) eqn:E; cbn; zbool; lia || done. }
  assert (Htake : ∀ y, is_band y → y ≠ FC_BAND_CRITICAL → 0 < held_for v false y →
    ∃ y, is_band y ∧ aget (fv_wait v) y = true ∧ aget (fv_in v) y < aget (fv_floor v) y ∧
         fc_floor_may_take v y = true).
  { intros y Hy Hne Hp. destruct (Hshort y Hy Hne Hp) as [? Hlt]. exists y. split_and!; [done..|].
    apply Hfree, held_below; [done|done|done| |lia].
    destruct Hv as [_ _ _ -> _]. unfold FC_BAND_CRITICAL in Hne.
    destruct Hy as [->|[->| ->]]; unfold aget in *; cbn in *; done || lia. }
  pose proof (held_back_sum v FC_BAND_CRITICAL Hv ltac:(by right; left)) as Hs. cbn zeta in Hs.
  replace (aget (fv_in v) FC_BAND_CRITICAL <? aget (fv_claim v) FC_BAND_CRITICAL) with false in Hs
    by (symmetry; apply Z.ltb_ge; lia).
  cbn [others FC_BAND_CRITICAL Z.eqb Pos.eqb] in Hs. destruct Hs as (Hh & Hp0 & Hp2 & _).
  destruct (decide (held_for v false 0 = 0)).
  - destruct (decide (held_for v false 2 = 0)).
    + left. apply Hfree. unfold FC_BAND_CRITICAL in *. lia.
    + right. apply (Htake 2); unfold is_band, FC_BAND_CRITICAL; lia.
  - right. apply (Htake 0); unfold is_band, FC_BAND_CRITICAL; lia.
Qed.

(** ** The reserve is never crossed *)

(** Room for critical to reach its reserve. *)
Definition reserve_ok (fc : fc_state) (cap : Z) : Prop :=
  s_inflight fc
  + Z.max 0 (snd (fc_floor_claims (s_cfg fc) cap) - aget (s_band_inflight fc) FC_BAND_CRITICAL) ≤ cap.

(** The counters of a pool in use: the counted bands are within the total. *)
Definition counts_ok (fc : fc_state) : Prop :=
  0 ≤ aget (s_band_inflight fc) FC_BAND_CRITICAL ∧ 0 ≤ aget (s_band_inflight fc) FC_BAND_SHEDDABLE ∧
  aget (s_band_inflight fc) FC_BAND_CRITICAL + aget (s_band_inflight fc) FC_BAND_SHEDDABLE
  ≤ s_inflight fc ∧ s_inflight fc < 4294967295.

Lemma view_critical fc cap wait :
  counts_ok fc →
  let v := fc_floor_view_load fc cap None wait in
  fv_reserve v = snd (fc_floor_claims (s_cfg fc) cap) ∧ fv_total v = s_inflight fc ∧ fv_cap v = cap ∧
  aget (fv_in v) FC_BAND_CRITICAL = aget (s_band_inflight fc) FC_BAND_CRITICAL.
Proof.
  intros (? & ? & ? & ?). unfold fc_floor_view_load. destruct (fc_floor_claims _ _) as [floor reserve].
  cbn [fv_reserve fv_total fv_cap fv_in snd]. split_and!; try done.
  - cbn. rewrite Z.add_0_r. apply u32_small. lia.
  - unfold fc_band_derive, FC_BAND_CRITICAL, aget in *. cbn in *. rewrite Z.add_0_r. apply u32_small. lia.
Qed.

Lemma take_under ctr cap n :
  0 ≤ ctr < 4294967295 → 0 < cap → fc_unit_take ctr cap = Some n → n = ctr + 1 ∧ ctr < cap.
Proof.
  unfold fc_unit_take. intros Hc Hcap. destruct (_ && _) eqn:E; [done|]. intros; simplify_eq.
  rewrite u32_small by lia. split; [done|].
  destruct (cap =? 0) eqn:E1; zbool; [lia|]. cbn in E. rewrite Z.geb_leb in E. zbool. lia.
Qed.

Lemma reserve_step fc p cap wait n :
  fits32 cap → pct_ok (s_cfg fc) → counts_ok fc → is_band (p_band p) →
  fc_floors_apply fc cap = true → reserve_ok fc cap →
  fc_unit_take_band fc (p_band p) cap wait = Some n →
  reserve_ok (fc_band_unit_take p (fc <| s_inflight := n |>)) cap.
Proof.
  intros Hc Hp Hcnt Hb Hfa Hr. unfold fc_unit_take_band. rewrite Hfa. cbn [negb].
  set (v := fc_floor_view_load fc cap None wait).
  assert (Hv : view_ok v) by (by apply view_load_ok).
  destruct (view_critical fc cap wait Hcnt) as (Hvr & Hvt & Hvc & Hvi). fold v in Hvr, Hvt, Hvc, Hvi.
  pose proof (held_back_sum v _ Hv Hb) as Hh. destruct (others (p_band p)) as [y z] eqn:Eo.
  destruct Hh as (Hheld & Hy & Hz & _). set (held := fc_floor_held_back v (p_band p)) in *.
  destruct (held >=? cap) eqn:Eh; [done|]. zbool. intros Ht.
  destruct Hcnt as (? & ? & ? & ?).
  apply take_under in Ht as [-> Hlt]; [|lia|lia]. unfold reserve_ok in *.
  set (res := snd (fc_floor_claims (s_cfg fc) cap)) in *.
  unfold fc_band_unit_take, fc_band_counted, amod.
  destruct Hb as [Hb|[Hb|Hb]]; rewrite Hb in *; cbn in Eo; injection Eo as <- <-; cbn -[fc_floor_claims aget aset held_for];
    fold res; rewrite ?aget_aset; cbn -[fc_floor_claims aget held_for].
  - assert (Z.max 0 (res - aget (s_band_inflight fc) FC_BAND_CRITICAL) ≤ held); [|lia].
    rewrite Hheld. assert (res - aget (fv_in v) FC_BAND_CRITICAL ≤ held_for v (aget (fv_in v) 0 <? aget (fv_claim v) 0) 1); [|lia].
    unfold held_for. rewrite Hvr. change (1 =? FC_BAND_CRITICAL) with true. change (aget (fv_in v) 1) with (aget (fv_in v) FC_BAND_CRITICAL).
    cbn [andb]. repeat case_test; zbool; lia.
  - change (decide (aidx 1 = aidx FC_BAND_CRITICAL)) with (decide (1 = 1)). rewrite decide_True by done.
    change (aget (s_band_inflight fc) 1) with (aget (s_band_inflight fc) FC_BAND_CRITICAL).
    rewrite u32_small by lia. lia.
  - rewrite decide_False by done.
    assert (Z.max 0 (res - aget (s_band_inflight fc) FC_BAND_CRITICAL) ≤ held); [|lia].
    rewrite Hheld. assert (res - aget (fv_in v) FC_BAND_CRITICAL ≤ held_for v (aget (fv_in v) 2 <? aget (fv_claim v) 2) 1); [|lia].
    unfold held_for. rewrite Hvr. change (1 =? FC_BAND_CRITICAL) with true. change (aget (fv_in v) 1) with (aget (fv_in v) FC_BAND_CRITICAL).
    cbn [andb]. repeat case_test; zbool; lia.
Qed.

(** ** Who a newcomer waits behind *)

(** The queue and the tenant table agree: every waiter's slot is in use, and a
    slot's count of waiters is the number of its entries. *)
Record queue_tenants (fc : fc_state) : Prop := {
  qt_slot : ∀ e, e ∈ ring_abs (s_queue fc) →
    0 ≤ e_tslot e ≤ s_tenant_slots fc ∧ t_used (tget fc (e_tslot e)) = true ∧ is_band (e_band e);
  qt_count : ∀ i, 0 ≤ i ≤ s_tenant_slots fc → t_used (tget fc i) = true →
    t_queued (tget fc i) = zcount (fun e => e_tslot e =? i) (ring_abs (s_queue fc))
}.

(** Only the marks of the table move when the gate asks. *)
Definition marks_only (fc fc' : fc_state) : Prop :=
  ∃ l n b, fc' = fc <| s_tenants := l |> <| s_tenants_runnable_waiting := n |> <| s_tenant_bound := b |>.

Lemma mark_marks_only fc i f : marks_only fc (fc_tenant_mark (tmod i f fc) i).
Proof.
  unfold fc_tenant_mark. case_test; unfold tmod; destruct fc; simpl; eexists _, _, _; reflexivity.
Qed.

Lemma marks_only_trans fc1 fc2 fc3 : marks_only fc1 fc2 → marks_only fc2 fc3 → marks_only fc1 fc3.
Proof. intros (l & n & b & ->) (l' & n' & b' & ->). exists l', n', b'. by destruct fc1. Qed.

Lemma waiter_marks_only fc bound : marks_only fc (fst (fc_tenant_waiter_can_run fc bound)).
Proof.
  assert (Hrefl : marks_only fc fc) by (destruct fc; by eexists _, _, _).
  unfold fc_tenant_waiter_can_run. case_test; [done|]. cbn [fst]. case_test; [|done].
  eapply (marks_only_trans _ (fc <| s_tenant_bound := bound |> <| s_tenants_runnable_waiting := 0 |>)).
  { destruct fc. by eexists _, _, _. }
  generalize (fc <| s_tenant_bound := bound |> <| s_tenants_runnable_waiting := 0 |>). clear Hrefl.
  induction (zseq _) as [|i l IH]; intros fc0; simpl; [destruct fc0; by eexists _, _, _|].
  eapply marks_only_trans; [apply mark_marks_only|apply IH].
Qed.

Lemma ring_any_spec q P :
  ring_geom q → ring_any q (fun e => e_live e && P e) = true ↔ ∃ e, e ∈ ring_abs q ∧ P e = true.
Proof.
  intros Hg. unfold ring_any, ring_abs. rewrite <- ring_walk_span by done. rewrite existsb_exists. split.
  - intros (i & Hi & HP). zbool. exists (zget (q_ring q) i). split; [|done].
    apply list_elem_of_In, List.filter_In. split; [|done].
    apply list_elem_of_In, list_elem_of_fmap. exists i. split; [done|by apply list_elem_of_In].
  - intros (e & He & HP). apply list_elem_of_In, List.filter_In in He as [He Hl].
    apply list_elem_of_In, list_elem_of_fmap in He as (i & -> & Hi). exists i.
    split; [by apply list_elem_of_In|]. by rewrite Hl, HP.
Qed.

(** A band has live entries exactly when its count is not zero. *)
Lemma band_n_spec q b :
  ring_wf q → is_band b → (∀ e, e ∈ ring_abs q → is_band (e_band e)) →
  fc_ring_band_n q b = zcount (fun e => e_band e =? b) (ring_abs q).
Proof.
  intros Hw Hb Hbands. pose proof (rw_bands _ Hw FC_BAND_CRITICAL eq_refl) as Hc.
  pose proof (rw_bands _ Hw FC_BAND_SHEDDABLE eq_refl) as Hs. pose proof (rw_count _ Hw) as Hn.
  assert (Hsum : ∀ l, (∀ e, e ∈ l → is_band (e_band e)) →
    zlen l = zcount (fun e => e_band e =? 0) l + zcount (fun e => e_band e =? 1) l
           + zcount (fun e => e_band e =? 2) l).
  { induction l as [|e l IH]; intros Hl; [done|]. cbn [zcount]. rewrite zlen_cons, IH by (intros; apply Hl; by right).
    destruct (Hl e ltac:(left)) as [->|[->| ->]]; cbn; lia. }
  specialize (Hsum _ Hbands). unfold fc_ring_band_n, fc_band_derive, FC_BAND_CRITICAL, FC_BAND_SHEDDABLE in *.
  pose proof (zcount_bounds (fun e => e_band e =? 0) (ring_abs q)).
  pose proof (zcount_bounds (fun e => e_band e =? 1) (ring_abs q)).
  pose proof (zcount_bounds (fun e => e_band e =? 2) (ring_abs q)).
  pose proof (rg_max _ (rw_geom _ Hw)). pose proof (rg_used _ (rw_geom _ Hw)).
  pose proof (abs_le_used q (rw_geom _ Hw)). unfold FC_QUEUE_DEPTH_MAX in *.
  destruct Hb as [->|[->| ->]]; cbn [Z.eqb Pos.eqb]; [|done|done].
  rewrite (u32_small (_ + _)) by lia. case_test; zbool; [rewrite u32_small|]; lia.
Qed.

(** The reference definition: a waiter whose turn comes before a newcomer of
    [band], and whose tenant could take a unit. *)
Definition ahead_of (fc : fc_state) (band : Z) (e : fc_queue_ent) : Prop :=
  if fc_band_below_claim fc band then e_band e = band
  else if negb (fc_wake_strict fc) then True
  else fc_band_rank (e_band e) ≤ fc_band_rank band.
Definition waiter_ahead (fc : fc_state) (band bound : Z) : Prop :=
  ∃ e, e ∈ ring_abs (s_queue fc) ∧ ahead_of fc band e ∧ fc_tenant_can_run fc (e_tslot e) bound = true.

Lemma can_run_slot fc i bound :
  tenant_core fc → 0 ≤ i →
  fc_tenant_can_run fc i bound = true ↔ bound = 0 ∨ t_inflight (tget fc i) < bound.
Proof.
  intros Hc Hi. destruct (tc_tab _ Hc) as (l & Hl & _). unfold fc_tenant_can_run. rewrite Hl.
  rewrite bool_decide_true by done. replace (i <? 0) with false by (symmetry; apply Z.ltb_ge; lia).
  cbn [negb orb]. rewrite orb_false_r, orb_true_iff, Z.eqb_eq, Z.ltb_lt. done.
Qed.

(** A tenant that waits and could run has an entry that could. *)
Lemma runnable_entry fc bound :
  tenant_wf fc → queue_tenants fc →
  (∃ t, t ∈ tab fc ∧ tenant_runnable bound t = true) ↔
  ∃ e, e ∈ ring_abs (s_queue fc) ∧ fc_tenant_can_run fc (e_tslot e) bound = true.
Proof.
  intros Hw Hq. pose proof (tw_core _ _ Hw) as Hc. split.
  - intros (t & Ht & Hr). destruct (tab_slot fc t Hc Ht) as (i & Hi & ->). unfold tenant_runnable in Hr.
    apply andb_true_iff in Hr as [Hr Hb]. zbool.
    rewrite (qt_count _ Hq i) in * by done.
    destruct (zcount_exists (fun e => e_tslot e =? i) (ring_abs (s_queue fc))) as (e & He & Hei); [lia|].
    zbool. exists e. split; [done|]. rewrite Hei. apply can_run_slot; [done|lia|].
    apply orb_true_iff in Hb as [?|?]; zbool; auto.
  - intros (e & He & Hr). destruct (qt_slot _ Hq e He) as (Hi & Hu & _).
    exists (tget fc (e_tslot e)). split; [by apply slot_in_tab|].
    apply can_run_slot in Hr; [|done|lia]. unfold tenant_runnable. rewrite Hu, (qt_count _ Hq _ Hi Hu).
    assert (1 ≤ zcount (fun e' => e_tslot e' =? e_tslot e) (ring_abs (s_queue fc))).
    { apply (zcount_pos _ _ e He). apply Z.eqb_refl. }
    rewrite !andb_true_iff, orb_true_iff, Z.gtb_ltb, Z.ltb_lt, Z.eqb_eq, Z.ltb_lt. split; [split; [done|lia]|tauto].
Qed.

Lemma existsb_ranks P : existsb P (zseq FC_BANDS) = P 0 || (P 1 || (P 2 || false)).
Proof. done. Qed.

Lemma rank_cases b : is_band b → fc_band_rank b = (if b =? 0 then 1 else if b =? 1 then 0 else 2).
Proof. by intros [->|[->| ->]]. Qed.

(** The scan by rank: bands with live entries at ranks up to, or past, a rank. *)
Lemma has_rank q r :
  ring_wf q → (∀ e, e ∈ ring_abs q → is_band (e_band e)) → 0 ≤ r < FC_BANDS →
  negb (fc_ring_band_n q (fc_band_at_rank r) =? 0) = true ↔
  ∃ e, e ∈ ring_abs q ∧ fc_band_rank (e_band e) = r.
Proof.
  intros Hw Hb Hr. assert (is_band (fc_band_at_rank r)).
  { unfold is_band, FC_BANDS in *. assert (r = 0 ∨ r = 1 ∨ r = 2) as [->|[->| ->]] by lia;
      unfold fc_band_at_rank, FC_BAND_CRITICAL, FC_BAND_STANDARD, FC_BAND_SHEDDABLE; cbn; lia. }
  rewrite (band_n_spec q) by done. rewrite negb_true_iff, Z.eqb_neq.
  pose proof (zcount_bounds (fun e => e_band e =? fc_band_at_rank r) (ring_abs q)). split.
  - intros Hn. destruct (zcount_exists (fun e => e_band e =? fc_band_at_rank r) (ring_abs q)) as (e & He & Hbe); [lia|].
    zbool. exists e. split; [done|]. rewrite Hbe. by apply fc_band_rank_at_rank.
  - intros (e & He & Hre). assert (1 ≤ zcount (fun e => e_band e =? fc_band_at_rank r) (ring_abs q)); [|lia].
    apply (zcount_pos _ _ e He). apply Z.eqb_eq. rewrite <- Hre, fc_band_at_rank_rank.
    destruct (Hb e He) as [->|[->| ->]]; done.
Qed.

Lemma exists_rank q (P : Z → bool) :
  ring_wf q → (∀ e, e ∈ ring_abs q → is_band (e_band e)) →
  existsb (fun r => negb (fc_ring_band_n q (fc_band_at_rank r) =? 0) && P r) (zseq FC_BANDS) = true ↔
  ∃ e, e ∈ ring_abs q ∧ P (fc_band_rank (e_band e)) = true.
Proof.
  intros Hw Hb. rewrite existsb_exists. split.
  - intros (r & Hr & HP). apply andb_true_iff in HP as [Hn HP].
    assert (0 ≤ r < FC_BANDS) by (apply list_elem_of_In in Hr; unfold zseq in Hr;
      apply list_elem_of_fmap in Hr as (k & -> & Hk%elem_of_seq); unfold FC_BANDS in *; lia).
    apply (has_rank q r Hw Hb) in Hn as (e & He & <-); [|done]. by exists e.
  - intros (e & He & HP). pose proof (fc_band_rank_bounds (e_band e)). exists (fc_band_rank (e_band e)). split.
    + apply list_elem_of_In. unfold zseq. apply list_elem_of_fmap. exists (Z.to_nat (fc_band_rank (e_band e))).
      rewrite elem_of_seq. unfold FC_BANDS in *. lia.
    + apply andb_true_iff. split; [|done]. apply (has_rank q); [done|done|done|]. by exists e.
Qed.

(** The walk's test, on the table the gate just asked. *)
Lemma any_ahead fc fc' (P : fc_queue_ent → bool) bound :
  ring_geom (s_queue fc) → queue_tenants fc →
  (∀ i b, 0 ≤ i ≤ s_tenant_slots fc → fc_tenant_can_run fc' i b = fc_tenant_can_run fc i b) →
  ring_any (s_queue fc) (fun e => e_live e && P e && fc_tenant_can_run fc' (e_tslot e) bound) = true ↔
  ∃ e, e ∈ ring_abs (s_queue fc) ∧ P e = true ∧ fc_tenant_can_run fc (e_tslot e) bound = true.
Proof.
  intros Hg Hq Hcr.
  transitivity (ring_any (s_queue fc) (fun e => e_live e && (P e && fc_tenant_can_run fc' (e_tslot e) bound)) = true).
  { unfold ring_any. rewrite !existsb_exists. by setoid_rewrite andb_assoc. }
  rewrite ring_any_spec by done. split; intros (e & He & HP).
  - zbool. exists e. by rewrite <- Hcr by apply (qt_slot _ Hq e He).
  - exists e. split; [done|]. rewrite Hcr by apply (qt_slot _ Hq e He). by apply andb_true_iff.
Qed.

Lemma waiter_ahead_lemma fc band bound :
  ring_wf (s_queue fc) → tenant_wf fc → queue_tenants fc → is_band band →
  snd (fc_band_waiter_can_run fc band bound) = true ↔ waiter_ahead fc band bound.
Proof.
  intros Hr Hw Hq Hb. pose proof (tw_core _ _ Hw) as Hc. unfold fc_band_waiter_can_run.
  assert (Hinv : tenant_inv fc).
  { destruct (tc_tab _ Hc) as (l & Hl & _). pose proof (tenant_slots_pos _ Hc). split; [lia|by rewrite Hl]. }
  pose proof (waiter_spec fc bound Hinv) as Hws. pose proof (waiter_marks_only fc bound) as Hmo.
  destruct (fc_tenant_waiter_can_run fc bound) as [fc' any]. cbn [fst snd] in *.
  destruct Hws as (_ & _ & Hany & Hcr). rewrite (runnable_entry fc bound Hw Hq) in Hany.
  assert (Hsame : s_queue fc' = s_queue fc ∧ fc_band_below_claim fc' band = fc_band_below_claim fc band ∧
    fc_wake_strict fc' = fc_wake_strict fc) by (destruct Hmo as (l & n & b & ->); by destruct fc).
  destruct Hsame as (-> & -> & ->).
  assert (Hbd : ∀ e, e ∈ ring_abs (s_queue fc) → is_band (e_band e)) by (intros e He; by apply (qt_slot _ Hq)).
  unfold waiter_ahead, ahead_of. destruct any; cbn [negb].
  2:{ split; [done|]. intros (e & He & _ & Hrun). apply Hany. by exists e. }
  destruct Hany as [Hany _]. specialize (Hany eq_refl).
  destruct (fc_band_below_claim fc band).
  { rewrite (any_ahead fc fc' (fun e => e_band e =? band)) by (done || apply Hr). by setoid_rewrite Z.eqb_eq. }
  destruct (fc_wake_strict fc); cbn [negb orb].
  2:{ split; [intros _|done]. destruct Hany as (e & ? & ?). by exists e. }
  destruct (fc_band_rank band =? FC_BANDS - 1) eqn:Erk; zbool.
  { split; [intros _|done]. destruct Hany as (e & ? & ?). exists e. split_and!; [done| |done].
    pose proof (fc_band_rank_bounds (e_band e)). lia. }
  destruct (existsb _ (zseq FC_BANDS)) eqn:Ea; cbn [negb].
  2:{ split; [done|]. intros (e & He & Hle & _). apply not_true_iff_false in Ea. exfalso. apply Ea.
      apply (exists_rank _ (fun r => r <=? fc_band_rank band)); [done..|]. exists e. split; [done|by apply Z.leb_le]. }
  destruct (existsb (fun r => _ && negb _) _) eqn:El; cbn [negb].
  - rewrite (any_ahead fc fc' (fun e => fc_band_rank (e_band e) <=? fc_band_rank band)) by (done || apply Hr).
    by setoid_rewrite Z.leb_le.
  - split; [intros _|done]. destruct Hany as (e & He & Hrun). exists e. split_and!; [done| |done].
    apply Z.leb_le. destruct (_ <=? _) eqn:E; [done|]. apply not_true_iff_false in El. exfalso. apply El.
    apply (exists_rank _ (fun r => negb (r <=? fc_band_rank band))); [done..|]. exists e. by rewrite E.
Qed.

(** ** Theorems *)

(** Whatever the configured shares, the units the bands may claim fit
    under the ceiling together: critical's larger of floor and reserve, and
    the floors of the other two bands. *)
Theorem fc_floor_claims_fit c cap :
  fits32 cap → pct_ok c →
  let '(floor, reserve) := fc_floor_claims c cap in
  0 ≤ reserve ∧ 0 ≤ a_0 floor ∧ 0 ≤ a_1 floor ∧ 0 ≤ a_2 floor ∧
  Z.max reserve (aget floor FC_BAND_CRITICAL) + aget floor FC_BAND_STANDARD
  + aget floor FC_BAND_SHEDDABLE ≤ cap.
Proof. exact (claims_fit c cap). Qed.

(** Shares that add up to more than the ceiling. *)
Definition greedy_cfg : fc_cfg :=
  fc_cfg_zero <| c_mode := FC_MODE_ENFORCE |> <| c_max_outstanding := 10 |>
    <| c_band_min_share_pct := Arr3 60 30 80 |> <| c_critical_reserve_pct := 40 |>.

Lemma fc_floor_claims_witness :
  let '(floor, reserve) := fc_floor_claims greedy_cfg 10 in
  reserve = 4 ∧ floor = Arr3 6 3 0 ∧
  Z.max reserve (aget floor FC_BAND_CRITICAL) + aget floor FC_BAND_STANDARD
  + aget floor FC_BAND_SHEDDABLE ≤ 10.
Proof.
  assert (fits32 10) as H1 by (unfold fits32; lia).
  assert (pct_ok greedy_cfg) as H2 by (vm_compute; repeat split; discriminate).
  pose proof (fc_floor_claims_fit greedy_cfg 10 H1 H2) as H. vm_compute in H |- *.
  repeat split; try reflexivity. apply H.
Defined.

(** The floors never hold every waiter back while there is room
    under the ceiling: critical may take a unit, or some band that has a waiter
    and runs less than its floor may. *)
Theorem fc_floor_progress fc cap pend wait :
  fits32 cap → pct_ok (s_cfg fc) →
  let v := fc_floor_view_load fc cap pend wait in
  fv_total v < cap →
  fc_floor_may_take v FC_BAND_CRITICAL = true ∨
  ∃ y, is_band y ∧ aget (fv_wait v) y = true ∧ aget (fv_in v) y < aget (fv_floor v) y ∧
       fc_floor_may_take v y = true.
Proof.
  intros Hc Hp v Hlt. assert (fv_cap v = cap ∧ 0 ≤ fv_total v) as [Hcap H0].
  { unfold v, fc_floor_view_load. destruct (fc_floor_claims _ _). cbn. split; [done|]. apply u32_fits. }
  apply progress_lemma; [by apply view_load_ok|lia|done].
Qed.

(** Nine of ten units in use, two of them critical. *)
Definition busy_pool : fc_state :=
  fc_state_zero <| s_cfg := greedy_cfg |> <| s_inflight := 9 |>
    <| s_band_inflight := Arr3 0 4 0 |> <| s_queued := 1 |>.

Lemma fc_floor_progress_witness :
  let v := fc_floor_view_load busy_pool 10 None None in
  fc_floor_may_take v FC_BAND_CRITICAL = true ∨
  ∃ y, is_band y ∧ aget (fv_wait v) y = true ∧ aget (fv_in v) y < aget (fv_floor v) y ∧
       fc_floor_may_take v y = true.
Proof.
  apply (fc_floor_progress busy_pool 10 None None).
  - unfold fits32; lia.
  - vm_compute. repeat split; discriminate.
  - vm_compute. reflexivity.
Defined.

(** Taking a unit for any band keeps room for critical to reach its
    reserve: with the reserve free before (inflight plus what critical is short
    of fits under the ceiling) it is free after. *)
Theorem fc_unit_take_keeps_reserve fc p cap wait n :
  fits32 cap → pct_ok (s_cfg fc) → counts_ok fc → is_band (p_band p) →
  fc_floors_apply fc cap = true → reserve_ok fc cap →
  fc_unit_take_band fc (p_band p) cap wait = Some n →
  reserve_ok (fc_band_unit_take p (fc <| s_inflight := n |>)) cap.
Proof. apply reserve_step. Qed.

(** A permit of each band, holding nothing. *)
Definition permit_of (band : Z) : fc_permit :=
  mk_fc_permit None FC_P_NONE false false band false false 0 (Arr3 (-1) (-1) (-1)) (-1) 0 0 0 0 0 0 0 (-1).

Lemma fc_unit_take_keeps_reserve_witness :
  let fc := busy_pool <| s_inflight := 5 |> in
  fc_unit_take_band fc FC_BAND_STANDARD 10 None = Some 6 ∧
  reserve_ok (fc_band_unit_take (permit_of FC_BAND_STANDARD) (fc <| s_inflight := 6 |>)) 10.
Proof.
  split; [vm_compute; reflexivity|].
  apply (fc_unit_take_keeps_reserve (busy_pool <| s_inflight := 5 |>) (permit_of FC_BAND_STANDARD) 10 None).
  - unfold fits32; lia.
  - vm_compute. repeat split; discriminate.
  - vm_compute. repeat split; discriminate.
  - left. reflexivity.
  - vm_compute. reflexivity.
  - vm_compute. discriminate.
  - vm_compute. reflexivity.
Defined.

(** On a pool with a tenant share, whether a newcomer waits is decided
    from the tenant counts and the band counts, and only sometimes by a walk;
    the answer is that of the plain definition: some waiter ordered before the
    newcomer belongs to a tenant that could take a unit now. *)
Theorem fc_band_waiter_can_run_exact fc band bound :
  ring_wf (s_queue fc) → tenant_wf fc → queue_tenants fc → is_band band →
  snd (fc_band_waiter_can_run fc band bound) = true ↔ waiter_ahead fc band bound.
Proof. apply waiter_ahead_lemma. Qed.

(** One standard waiter of tenant 7, none of tenant 9. *)
Definition one_waiter : fc_queue_ent := mk_fc_queue_ent 5 true FC_BAND_STANDARD 0 1 100 0.
Definition one_queue : fc_queue := fst (fc_ring_insert (fun _ => true)
  (fc_ring_grow (fun _ => true) fc_queue_zero 8) one_waiter false false).
Definition pool_waiting : fc_state :=
  (fc_tenant_mark (tmod 0 (fun t => t <| t_queued := 1 |>) pool_two_tenants) 0) <| s_queue := one_queue |>.

Lemma one_queue_wf : ring_wf one_queue.
Proof.
  destruct (grow_fresh_wf (fun _ => true) fc_queue_zero 8 eq_refl eq_refl ring_wf_zero) as (Hg & _).
  by apply (insert_refines (fun _ => true) _ one_waiter false false Hg).
Qed.

Lemma pool_waiting_wf : tenant_wf pool_waiting.
Proof.
  apply tenant_wf_queue, count_mark_wf; [exact pool_two_tenants_wf|vm_compute; split; discriminate|done|done].
Qed.

Lemma pool_waiting_agree : queue_tenants pool_waiting.
Proof.
  assert (Ha : ring_abs (s_queue pool_waiting) = [one_waiter]) by (vm_compute; reflexivity).
  assert (Hs : s_tenant_slots pool_waiting = 64) by (vm_compute; reflexivity).
  split; rewrite Ha, Hs.
  - intros e He. apply list_elem_of_singleton in He as ->. split; [cbn; lia|].
    split; [vm_compute; reflexivity|by left].
  - intros i Hi _.
    assert (forallb (fun k => t_queued (tget pool_waiting k) =? zcount (fun e => e_tslot e =? k) [one_waiter])
              (zseq 65) = true) as Hf by (vm_compute; reflexivity).
    rewrite forallb_forall in Hf. apply Z.eqb_eq. apply (Hf i). apply list_elem_of_In.
    unfold zseq. apply list_elem_of_fmap. exists (Z.to_nat i). rewrite elem_of_seq. lia.
Qed.

Lemma fc_band_waiter_can_run_witness :
  snd (fc_band_waiter_can_run pool_waiting FC_BAND_STANDARD 2) = true ∧
  waiter_ahead pool_waiting FC_BAND_STANDARD 2.
Proof.
  assert (snd (fc_band_waiter_can_run pool_waiting FC_BAND_STANDARD 2) = true) as H by (vm_compute; reflexivity).
  split; [exact H|]. apply (fc_band_waiter_can_run_exact pool_waiting FC_BAND_STANDARD 2); [..|exact H].
  - exact one_queue_wf.
  - exact pool_waiting_wf.
  - exact pool_waiting_agree.
  - left. reflexivity.
Defined.
