(* ===== verification/FcCas.v ===== *)
(** * Capacity admission: the lock-free counters (src/common/sockproxy_fc.c)

    fc_unit_take and fc_unit_give move a counter that many workers share, with
    a load and a compare-and-exchange loop. The rest of the library uses them
    as atomic functions of the counter; here the loops are the steps of
    threads that interleave freely, the weak exchange failing for no reason
    too. The theorems: the loops implement the atomic functions (every
    interleaving is, step by step, a run of the atomic calls), no update is
    lost, and no interleaving takes the counter over the ceiling. *)

From stdpp Require Import base list numbers.
From S2P Require Import Prelude FcTypes FcRing FcTenant FcFloors.

(** ** Threads *)

Inductive ucall : Type := CTake (cap : Z) | CGive.

(** Before the load; with [cur] in hand; returned, [true] when a unit moved. *)
Inductive thread : Type :=
| TStart (c : ucall)
| TTry (c : ucall) (cur : Z)
| TDone (c : ucall) (moved : bool).

(** What the loop's test says of the value in hand: return at once? *)
Definition gives_up (c : ucall) (cur : Z) : bool :=
  match c with
  | CTake cap => negb (cap =? 0) && (cur >=? cap)
  | CGive => cur =? 0
  end.

(** What the exchange would store. *)
Definition desired (c : ucall) (cur : Z) : Z :=
  match c with CTake _ => u32 (cur + 1) | CGive => cur - 1 end.

(** One atomic action of a thread at counter [ctr]: the counter after it, the
    underflows it counts, and the thread. *)
Inductive thread_step (ctr : Z) : thread → Z → Z → thread → Prop :=
| ts_load c : thread_step ctr (TStart c) ctr 0 (TTry c ctr)
| ts_give_up c cur :
    gives_up c cur = true →
    thread_step ctr (TTry c cur) ctr (match c with CGive => 1 | CTake _ => 0 end) (TDone c false)
| ts_exchange c :
    gives_up c ctr = false → thread_step ctr (TTry c ctr) (desired c ctr) 0 (TDone c true)
| ts_retry c cur :
    gives_up c cur = false → thread_step ctr (TTry c cur) ctr 0 (TTry c ctr).

(** The counter, the underflows counted, the threads. *)
Record cas := mk_cas { k_ctr : Z; k_under : Z; k_threads : list thread }.

Inductive cas_step : cas → cas → Prop :=
| cs_thread ctr under ts i t ctr' u t' :
    ts !! i = Some t → thread_step ctr t ctr' u t' →
    cas_step (mk_cas ctr under ts) (mk_cas ctr' (under + u) (<[i := t']> ts)).

(** Threads about to make the given calls. *)
Definition cas_start (ctr : Z) (calls : list ucall) : cas := mk_cas ctr 0 (TStart <$> calls).

(** ** The atomic calls *)

(** A call is pending or has returned. *)
Inductive acall : Type := APending (c : ucall) | ADone (c : ucall) (moved : bool).

Definition atomic_call (ctr : Z) (c : ucall) : Z * bool :=
  match c with
  | CTake cap => match fc_unit_take ctr cap with Some n => (n, true) | None => (ctr, false) end
  | CGive => let '(n, under) := fc_unit_give ctr in (n, negb under)
  end.

Inductive atomic_step : Z * list acall → Z * list acall → Prop :=
| as_call ctr ts i c ctr' moved :
    ts !! i = Some (APending c) → atomic_call ctr c = (ctr', moved) →
    atomic_step (ctr, ts) (ctr', <[i := ADone c moved]> ts).

(** A thread with a value it gives up on has made its call: nothing it does
    from there depends on the counter. *)
Definition thread_abs (t : thread) : acall :=
  match t with
  | TStart c => APending c
  | TTry c cur => if gives_up c cur then ADone c false else APending c
  | TDone c moved => ADone c moved
  end.
Definition cas_abs (s : cas) : Z * list acall := (k_ctr s, thread_abs <$> k_threads s).

Lemma atomic_gives_up ctr c : gives_up c ctr = true → atomic_call ctr c = (ctr, false).
Proof.
  destruct c as [cap|]; cbn.
  - unfold fc_unit_take. by intros ->.
  - unfold fc_unit_give. intros E. rewrite E. zbool. by subst.
Qed.

Lemma atomic_moves ctr c : gives_up c ctr = false → atomic_call ctr c = (desired c ctr, true).
Proof.
  destruct c as [cap|]; cbn.
  - unfold fc_unit_take. by intros ->.
  - unfold fc_unit_give. by intros ->.
Qed.

Lemma list_insert_same {A} (l : list A) i x : l !! i = Some x → <[i := x]> l = l.
Proof. apply list_insert_id. Qed.

(** Loading a value: the call is made at once when the loop gives up on it. *)
Lemma load_sim ctr ts i c t :
  ts !! i = Some t → thread_abs t = APending c →
  steps atomic_step (ctr, thread_abs <$> ts) (ctr, thread_abs <$> <[i := TTry c ctr]> ts).
Proof.
  intros Hi Ha. rewrite list_fmap_insert. cbn [thread_abs].
  assert (Hl : (thread_abs <$> ts) !! i = Some (APending c)) by (by rewrite list_lookup_fmap, Hi, <- Ha).
  destruct (gives_up c ctr) eqn:E.
  - eapply steps_cons; [|apply steps_refl]. apply (as_call _ _ _ _ _ _ Hl). by apply atomic_gives_up.
  - rewrite list_insert_same by done. apply steps_refl.
Qed.

Lemma step_sim s s' : cas_step s s' → steps atomic_step (cas_abs s) (cas_abs s').
Proof.
  destruct 1 as [ctr under ts i t ctr' u t' Hi Ht]. unfold cas_abs. cbn [k_ctr k_threads].
  destruct Ht as [c|c cur E|c E|c cur E].
  - by eapply load_sim.
  - rewrite list_fmap_insert. rewrite list_insert_same; [apply steps_refl|].
    rewrite list_lookup_fmap, Hi. cbn. by rewrite E.
  - rewrite list_fmap_insert. eapply steps_cons; [|apply steps_refl].
    apply (as_call _ _ _ c); [|by apply atomic_moves]. rewrite list_lookup_fmap, Hi. cbn. by rewrite E.
  - eapply load_sim; [exact Hi|]. cbn. by rewrite E.
Qed.

(** ** Exact counts *)

Definition took (t : thread) : bool := match t with TDone (CTake _) true => true | _ => false end.
Definition gave (t : thread) : bool := match t with TDone CGive true => true | _ => false end.
Definition under (t : thread) : bool := match t with TDone CGive false => true | _ => false end.
Definition may_take (t : thread) : bool :=
  match t with TStart (CTake _) | TTry (CTake _) _ => true | _ => false end.
Definition cap_ok (cap : Z) (t : thread) : Prop :=
  match t with
  | TStart (CTake c) | TTry (CTake c) _ | TDone (CTake c) _ => 0 < c ≤ cap
  | _ => True
  end.

Record cas_inv (ctr0 : Z) (s : cas) : Prop := {
  ci_count : k_ctr s = ctr0 + zcount took (k_threads s) - zcount gave (k_threads s);
  ci_under : k_under s = zcount under (k_threads s);
  ci_nonneg : 0 ≤ k_ctr s;
  ci_room : k_ctr s + zcount may_take (k_threads s) < 4294967296
}.

Lemma zcount_step {P : thread → bool} ts i t t' :
  ts !! i = Some t → zcount P (<[i := t']> ts) = zcount P ts - Z.b2z (P t) + Z.b2z (P t').
Proof. apply zcount_insert. Qed.

Lemma cas_inv_step ctr0 s s' : cas_inv ctr0 s → cas_step s s' → cas_inv ctr0 s'.
Proof.
  intros [Hc Hu Hn Hr]. destruct 1 as [ctr un ts i t ctr' u t' Hi Ht]. cbn [k_ctr k_under k_threads] in *.
  assert (Hmay : Z.b2z (may_take t) ≤ zcount may_take ts).
  { destruct (may_take t) eqn:E; cbn [Z.b2z].
    - apply (zcount_pos may_take ts t); [|done]. by eapply list_elem_of_lookup_2.
    - apply zcount_bounds. }
  destruct Ht as [c|c cur E|c E|c cur E]; (split; cbn [k_ctr k_under k_threads];
    rewrite ?(zcount_step _ _ _ _ Hi); cbn; destruct c as [cap|]; cbn in *; zbool; rewrite ?u32_small by lia; lia).
Qed.

Lemma cas_start_inv ctr0 calls :
  0 ≤ ctr0 → ctr0 + zlen calls < 4294967296 → cas_inv ctr0 (cas_start ctr0 calls).
Proof.
  intros H0 Hr. assert (Hz : ∀ P : thread → bool, (∀ c, P (TStart c) = false) → zcount P (TStart <$> calls) = 0).
  { intros P HP. apply zcount_zero. intros t Ht. apply list_elem_of_fmap in Ht as (c & -> & _). apply HP. }
  split; cbn [cas_start k_ctr k_under k_threads].
  - rewrite !Hz by (by intros []). lia.
  - by rewrite Hz by (by intros []).
  - done.
  - pose proof (zcount_bounds may_take (TStart <$> calls)) as Hb. unfold zlen in *. rewrite length_fmap in Hb. lia.
Qed.

(** The ceiling: a thread adds a unit only to a value below its cap. *)
Lemma cas_ceiling_step cap s s' :
  0 ≤ k_ctr s → k_ctr s ≤ cap ∧ Forall (cap_ok cap) (k_threads s) → cas_step s s' →
  k_ctr s' ≤ cap ∧ Forall (cap_ok cap) (k_threads s').
Proof.
  intros H0 [Hc Hf]. destruct 1 as [ctr un ts i t ctr' u t' Hi Ht]. cbn [k_ctr k_threads] in *.
  pose proof (Forall_lookup_1 _ _ _ _ Hf Hi) as Hcap. split.
  - destruct Ht as [c|c cur E|c E|c cur E]; try done. destruct c as [k|]; cbn in *; [|lia].
    apply andb_false_iff in E as [E|E]; zbool; [lia|]. unfold u32.
    pose proof (Z.mod_le (ctr + 1) 4294967296). lia.
  - apply Forall_insert; [done|]. by destruct Ht as [[]|[]|[]|[]].
Qed.

(** ** Theorems *)

(** C4. The compare-and-exchange loops implement the atomic calls: every
    interleaving of the workers' loops, whatever exchanges fail, is a run of
    atomic fc_unit_take and fc_unit_give calls on the same counter, and a
    worker that returned returned what its atomic call did. *)
Theorem fc_units_linearizable ctr calls s :
  steps cas_step (cas_start ctr calls) s →
  steps atomic_step (ctr, APending <$> calls) (cas_abs s) ∧
  ∀ i c moved, k_threads s !! i = Some (TDone c moved) → (cas_abs s).2 !! i = Some (ADone c moved).
Proof.
  intros Hs. split.
  - assert (E : (ctr, APending <$> calls) = cas_abs (cas_start ctr calls)).
    { unfold cas_abs, cas_start. cbn [k_ctr k_threads]. by rewrite <- list_fmap_compose. }
    rewrite E. clear E. induction Hs as [s|s1 s2 s3 H1 H2 IH]; [apply steps_refl|].
    eapply steps_trans; [by apply step_sim|exact IH].
  - intros i c moved Hi. unfold cas_abs. cbn [snd]. by rewrite list_lookup_fmap, Hi.
Qed.

(** Two takers under a ceiling of one: the first to exchange wins, the other
    fails its exchange, reloads and gives up. *)
Definition race_calls : list ucall := [CTake 1; CTake 1].
Definition race_end : cas := mk_cas 1 0 [TDone (CTake 1) false; TDone (CTake 1) true].

Lemma race_steps : steps cas_step (cas_start 0 race_calls) race_end.
Proof.
  eapply steps_cons; [eapply (cs_thread 0 0 _ 0); [reflexivity|apply ts_load]|].
  eapply steps_cons; [eapply (cs_thread 0 _ _ 1); [reflexivity|apply ts_load]|].
  eapply steps_cons; [eapply (cs_thread 0 _ _ 1); [reflexivity|by apply ts_exchange]|].
  eapply steps_cons; [eapply (cs_thread _ _ _ 0); [reflexivity|by apply ts_retry]|].
  eapply steps_cons; [eapply (cs_thread _ _ _ 0); [reflexivity|by apply ts_give_up]|].
  apply steps_refl.
Qed.

Lemma fc_units_linearizable_witness :
  steps atomic_step (0, APending <$> race_calls) (1, [ADone (CTake 1) false; ADone (CTake 1) true]).
Proof. exact (proj1 (fc_units_linearizable 0 race_calls race_end race_steps)). Defined.

(** No interleaving loses a unit or goes over the ceiling: with calls that
    cannot overflow the counter, it always equals its first value plus the units
    taken minus the units given back, every give at zero is counted as an
    underflow and moves nothing, and while every taker's ceiling is at most
    [cap] the counter never passes it. *)
Theorem fc_units_race_free ctr calls cap s :
  0 ≤ ctr ≤ cap → ctr + zlen calls < 4294967296 →
  Forall (fun c => match c with CTake k => 0 < k ≤ cap | CGive => True end) calls →
  steps cas_step (cas_start ctr calls) s →
  k_ctr s = ctr + zcount took (k_threads s) - zcount gave (k_threads s) ∧
  k_under s = zcount under (k_threads s) ∧ 0 ≤ k_ctr s ≤ cap.
Proof.
  intros Hc Hr Hf Hs.
  assert (H : cas_inv ctr s ∧ k_ctr s ≤ cap ∧ Forall (cap_ok cap) (k_threads s)).
  { apply (steps_invariant cas_step (fun s => cas_inv ctr s ∧ k_ctr s ≤ cap ∧ Forall (cap_ok cap) (k_threads s))) in Hs; [done| |].
    - intros a b [Ha Hb] Hab. split; [by eapply cas_inv_step|]. by eapply cas_ceiling_step; [apply Ha|..].
    - split; [apply cas_start_inv; lia|]. split; [cbn; lia|]. cbn. apply Forall_fmap. revert Hf. apply List.Forall_impl. by intros []. }
  destruct H as ([H1 H2 H3 _] & H4 & _). by split_and!.
Qed.

Lemma fc_units_race_free_witness : zcount took (k_threads race_end) = 1 ∧ 0 ≤ k_ctr race_end ≤ 1.
Proof.
  destruct (fc_units_race_free 0 race_calls 1 race_end) as (H1 & _ & H2).
  - lia.
  - vm_compute. reflexivity.
  - repeat constructor; lia.
  - exact race_steps.
  - split; [vm_compute; reflexivity|exact H2].
Defined.
