(* ===== verification/FcQueue.v ===== *)
(** * Capacity admission: the wait queue (src/common/sockproxy_fc.c)

    Parking a request, taking it out on its turn, its deadline, its client's
    cancellation or its eviction for a higher band, the choice of the next
    waiter to wake (by floor, by band order or weighted rounds, by tenant
    turn), the wake loop, and the deadline timer. The functions work on
    [world]; the wake hook, the allocator and the functions a caller hands in
    (drain, expire, sweep) are parameters. The owner hooks of a permit's pool
    are taken as installed, as the proxy does at start. *)

From stdpp Require Import base list gmap numbers.
From S2P Require Import Prelude FcTypes FcRing FcTenant FcFloors.

(** ** Permits and their pool *)

(** The owner hooks: one reference of a pool taken or given back. *)
Definition fc_owner_hold (id : Z) (w : world) : world :=
  w <| w_refs ::= (fun m => <[id := default 0 (m !! id) + 1]> m) |>.
Definition fc_owner_drop (id : Z) (w : world) : world :=
  w <| w_refs ::= (fun m => <[id := default 0 (m !! id) - 1]> m) |>.
Definition drop_opt (id : option Z) (w : world) : world :=
  match id with Some id => fc_owner_drop id w | None => w end.

Definition fc_permit_reset : fc_permit :=
  mk_fc_permit None FC_P_NONE false false FC_BAND_STANDARD false false 0
    (Arr3 (-1) (-1) (-1)) (-1) 0 0 0 0 0 0 0 (-1).

Definition fc_permit_unbind (w : world) (p : fc_permit) : world * fc_permit :=
  (drop_opt (p_fc p) w, p <| p_fc := None |>).

Definition fc_permit_init (w : world) (p : fc_permit) : world * fc_permit :=
  (fst (fc_permit_unbind w p), fc_permit_reset).

(** A fresh permit bound to the pool: the new reference before the old goes. *)
Definition fc_permit_bind (w : world) (p : fc_permit) : world * fc_permit :=
  (drop_opt (p_fc p) (fc_owner_hold (w_id w) w), fc_permit_reset <| p_fc := Some (w_id w) |>).

(** ** Mirrors and waits *)

Definition fc_queue_publish (fc : fc_state) : fc_state :=
  let q := s_queue fc in
  fc <| s_queued := q_count q |>
     <| s_band_queued ::= (fun a =>
          aset (aset a FC_BAND_CRITICAL (aget (q_band_count q) FC_BAND_CRITICAL))
            FC_BAND_SHEDDABLE (aget (q_band_count q) FC_BAND_SHEDDABLE)) |>.

(** The first bucket whose bound holds the wait. *)
Definition qwait_bucket_of (wait_ms : Z) : option Z :=
  List.find (fun i => wait_ms <=? zget fc_qwait_bounds_ms i) (zseq FC_QWAIT_BUCKETS).
Definition fc_note_wait (wait_ms : Z) (fc : fc_state) : fc_state :=
  fc <| s_qwait_bucket ::= (fun l => match qwait_bucket_of wait_ms with
                                     | Some i => zmod l i (fun n => u64 (n + 1))
                                     | None => l
                                     end) |>
     <| s_qwait_sum_ms ::= (fun n => u64 (n + wait_ms)) |>
     <| s_qwait_count ::= (fun n => u64 (n + 1)) |>.

(** The wait in whole milliseconds, 0 when the clock did not move. *)
Definition wait_ms_since (now_ns from_ns : Z) : Z :=
  if now_ns >? from_ns then (now_ns - from_ns) / 1000000 else 0.

Definition fc_queue_wait_end (w : world) (p : fc_permit) (now_ns : Z) : world * fc_permit :=
  if negb (p_q_parked p) then (w, p)
  else (on_fc (fc_note_wait (wait_ms_since now_ns (p_q_enqueue_ns p))) w, p <| p_q_parked := false |>).

Definition fc_retry_after_s (fc : fc_state) : Z :=
  if s_qwait_count fc =? 0 then 1
  else
    let s := (s_qwait_sum_ms fc / s_qwait_count fc + 999) / 1000 in
    let s := if s <? 1 then 1 else s in
    if s >? 30 then 30 else s.

Definition fc_queue_memory_bytes (depth : Z) : Z := u64 (Z.shiftl depth 20).

(** ** The deadline timer *)

Definition fc_queue_next_deadline (fc : fc_state) : Z := q_next_deadline_ns (s_queue fc).

(** The loop ends on its second round: nothing else moves [armed_ns]. *)
Definition fc_deadline_settime (d : fc_deadline) (target : Z) : fc_deadline :=
  let cur := d_armed_ns d in
  if (cur =? target) || (cur =? 0) then d <| d_timer_ns := target |> else d <| d_timer_ns := cur |>.

Definition fc_deadline_arm (d : fc_deadline) (deadline_ns : Z) : fc_deadline :=
  if (d_tfd d <=? 0) || (deadline_ns =? 0) then d
  else
    let floor := if negb (d_last_fire_ns d =? 0) then u64 (d_last_fire_ns d + FC_DEADLINE_GRAIN_NS) else 0 in
    let target := if deadline_ns >? floor then deadline_ns else floor in
    let cur := d_armed_ns d in
    if negb (cur =? 0) && (cur <=? target) then d
    else fc_deadline_settime (d <| d_armed_ns := target |>) target.

(** timerfd_create returned [tfd]. *)
Definition fc_deadline_init (tfd : Z) (d : fc_deadline) : fc_deadline * bool :=
  (d <| d_armed_ns := 0 |> <| d_last_fire_ns := 0 |> <| d_wakeups := 0 |> <| d_passes := 0 |>
     <| d_tfd := tfd |>, tfd >? 0).
Definition fc_deadline_close (d : fc_deadline) : fc_deadline :=
  d <| d_tfd := 0 |> <| d_armed_ns := 0 |>.

(** poll returned [ready], read a whole expiration count when [fired]: 1 when
    the timer fired, 0 when not, -1 on an error. *)
Definition fc_deadline_wait (ready : Z) (eintr fired : bool) (d : fc_deadline) : fc_deadline * Z :=
  if d_tfd d <=? 0 then (d, -1)
  else if ready <? 0 then (d, if eintr then 0 else -1)
  else if ready =? 0 then (d, 0)
  else if negb fired then (d, 0)
  else (d <| d_wakeups ::= (fun n => u64 (n + 1)) |>, 1).

Definition arm_timer (deadline_ns : Z) (w : world) : world :=
  w <| w_timer ::= (fun d => fc_deadline_arm d deadline_ns) |>.

(** ** Eviction *)

(** Walking the used span backwards from the youngest slot. *)
Fixpoint evict_walk (q : fc_queue) (k : nat) (i : Z) : option Z :=
  match k with
  | O => None
  | S k =>
      let e := zget (q_ring q) i in
      if e_live e && (e_band e =? FC_BAND_SHEDDABLE) then Some i
      else evict_walk q k (if i =? 0 then q_cap q - 1 else i - 1)
  end.

Definition fc_ring_evict_pick (fc : fc_state) (band : Z) : option Z :=
  let q := s_queue fc in
  if negb (c_shed_queue (s_cfg fc)) || (fc_band_of band =? FC_BAND_SHEDDABLE)
     || (aget (q_band_count q) FC_BAND_SHEDDABLE =? 0) || (zlen (q_evicted q) >=? FC_EVICT_PENDING)
     || (q_used q =? 0)
  then None
  else evict_walk q (Z.to_nat (q_used q)) (fc_ring_wrap q (q_head q + q_used q - 1)).

(** Taking an entry out of the ring with its tenant's count of waiters; the
    ring and the tenant table are disjoint parts of the pool. *)
Definition ring_take_tenant (w : world) (slot : Z) : world * fc_queue_ent :=
  let '(q, e) := fc_ring_take_at (w_queue w) slot in
  (fc_tenant_dec (on_queue (fun _ => q) w) (e_tslot e) true, e).

Definition fc_ring_evict (w : world) (slot now_ns : Z) : world * fc_evicted :=
  let '(w, e) := ring_take_tenant w slot in
  let gone := mk_fc_evicted (e_fd e) (e_gen e) now_ns in
  (on_queue (fun q => q <| q_evicted ::= (fun l => l ++ [gone]) |>) w, gone).

Definition fc_evicted_drop (i : nat) (l : list fc_evicted) : list fc_evicted :=
  take i l ++ drop (S i) l.

(** The first entry of the evicted list that satisfies [P]. *)
Fixpoint evicted_ix (P : fc_evicted → bool) (l : list fc_evicted) : option nat :=
  match l with
  | [] => None
  | v :: l => if P v then Some O else S <$> evicted_ix P l
  end.
Definition evicted_remove (P : fc_evicted → bool) (w : world) : world * bool :=
  match evicted_ix P (q_evicted (w_queue w)) with
  | Some i => (on_queue (fun q => q <| q_evicted ::= fc_evicted_drop i |>) w, true)
  | None => (w, false)
  end.

(** (fd, gen)'s entry off the evicted list; with a permit, settled with it. *)
Definition fc_evicted_take (w : world) (fd gen : Z) (p : option fc_permit) :
    world * option fc_permit * bool :=
  if (fd <? 0) || (fc_queue_evicted (w_fc w) =? 0) then (w, p, false)
  else
    let '(w, hit) := evicted_remove (fun v => (v_fd v =? fd) && (v_gen v =? gen)) w in
    if negb hit then (w, p, false)
    else match p with
    | Some p => let '(p, won) := fc_permit_settle p FC_P_EVICTED in (w, Some p, won)
    | None => (w, None, true)
    end.

Definition fc_queue_evicted_claim (w : world) (fd gen : Z) : world * bool :=
  let '(w, _, won) := fc_evicted_take w fd gen None in (w, won).

Definition fc_queue_evicted_settle (w : world) (p : fc_permit) (fd gen : Z) : world * fc_permit * bool :=
  let '(w, p', won) := fc_evicted_take w fd gen (Some p) in (w, default p p', won).

Definition fc_queue_evicted_sweep (fn : world → fc_queue_ent → world * bool) (w : world)
    (before_ns : Z) : world * Z :=
  if fc_queue_evicted (w_fc w) =? 0 then (w, 0)
  else
    let taken := List.filter (fun v => v_at_ns v <=? before_ns) (q_evicted (w_queue w)) in
    let ask '(w, answered) v :=
      let '(w, yes) := fn w (mk_fc_queue_ent (v_fd v) false FC_BAND_SHEDDABLE (-1) (v_gen v) 0 0) in
      (w, if yes : bool then answered + 1 else answered) in
    let '(w, answered) := foldl ask (w, 0) taken in
    let same t v := (v_fd v =? v_fd t) && (v_gen v =? v_gen t) && (v_at_ns v =? v_at_ns t) in
    (foldl (fun w t => fst (evicted_remove (same t) w)) w taken, answered).

(** ** Parking *)

Section queue.
Context (calloc : Z → bool).
Context (wake_hook : option (list (Z * Z) → Z → Z → bool)).

(** Calling the wake hook: [true] when it delivered. *)
Definition call_wake (w : world) (fd gen : Z) : world * bool :=
  match wake_hook with
  | Some hook => (w <| w_wakes ::= cons (fd, gen) |>, hook (w_wakes w) fd gen)
  | None => (w, false)
  end.

(** The window of a new park: the band's, held inside the rule's, and a
    client's time to live that shortens it. *)
Definition park_window (fc : fc_state) (band ttl_ms : Z) (ttl_cut : bool) : Z * bool :=
  let window_ms := fc_band_wait_ms fc band in
  if c_llmd_headers (s_cfg fc) && negb (ttl_ms =? 0) && (ttl_ms <? window_ms)
  then (ttl_ms, true) else (window_ms, ttl_cut).

(** The tenant's slot and whether its share of the queue is full. *)
Definition push_tenant (w : world) (tkey : Z) (front : bool) : world * Z * bool :=
  if fc_tenants_tracked (w_fc w) then
    let qbound := fc_tenant_queue_bound (w_fc w) in
    let '(w, tslot) := fc_tenant_get calloc w tkey false in
    (w, tslot, (tslot >=? 0) && negb front && negb (qbound =? 0)
               && (t_queued (tget (w_fc w) tslot) >=? qbound))
  else (w, -1, false).

(** The tenant's count of waiters after the insertion. *)
Definition push_settle (w : world) (tslot : Z) (inserted : bool) : world :=
  if tslot >=? 0 then
    if inserted
    then on_fc (fun fc => fc_tenant_mark (tmod tslot (fun t => t <| t_queued ::= (fun n => u32 (n + 1)) |>) fc) tslot) w
    else on_fc (fun fc => fc_tenant_put fc tslot) w
  else w.

(** What a push that was let in does under the lock. *)
Record push_result := mk_push_result {
  pr_slot : option Z;             (* the ring slot, when the request is parked *)
  pr_share : bool;                (* refused by its tenant's share *)
  pr_gone : option (fc_evicted * Z)  (* who was evicted for it, and since when it waited *)
}.

Definition push_locked (w : world) (e : fc_queue_ent) (tkey at_ns : Z) (front ordered : bool)
    (evict : option Z) : world * push_result :=
  let '(w, tslot, over) := push_tenant w tkey front in
  let e := e <| e_tslot := tslot |> in
  if over then (push_settle w tslot false, mk_push_result None true None)
  else
    let '(w, gone) :=
      match evict with
      | Some i =>
          let enq := e_enqueue_ns (zget (q_ring (w_queue w)) i) in
          let '(w, g) := fc_ring_evict w i at_ns in (w, Some (g, enq))
      | None => (w, None)
      end in
    let '(q, slot) := fc_ring_insert calloc (w_queue w) e front ordered in
    let w := on_queue (fun _ => q) w in
    (push_settle w tslot (bool_decide (is_Some slot)), mk_push_result slot false gone).

(** The time the entry is given, whether it is placed by it, and the deadline
    a request going back keeps. *)
Definition push_times (p : fc_permit) (now_ns : Z) (front : bool) : Z * bool * Z :=
  let ordered := negb front && negb (p_q_first_ns p =? 0) && (p_q_first_ns p <? now_ns) in
  let back := front && negb (p_q_deadline_ns p =? 0) in
  (if ordered then p_q_first_ns p else if back then p_q_enqueue_ns p else now_ns,
   ordered,
   if back then p_q_deadline_ns p else 0).

(** The answer an evicted waiter is owed: counted, its wait noted, its owner
    woken. *)
Definition push_evicted (w : world) (at_ns : Z) (gone : option (fc_evicted * Z)) : world :=
  match gone with
  | Some (g, enq) =>
      let w := on_fc (fun fc => fc_note_wait (wait_ms_since at_ns enq)
                                  (fc_count_band FC_R_SHED FC_BAND_SHEDDABLE fc)) w in
      fst (call_wake w (v_fd g) (v_gen g))
  | None => w
  end.

(** fc_queue_push: the outcome is 0 parked, -1 refused as full, -2 refused by
    the tenant's share. *)
Definition fc_queue_push (w : world) (p : fc_permit) (fd gen now_ns : Z) (front : bool) :
    world * fc_permit * Z :=
  if fd <? 0 then (w, p, -1)
  else
    let tkey := p_tkey p in
    let band := p_band p in
    let '(ent_ns, ordered, kept) := push_times p now_ns front in
    let ttl_ms := p_q_ttl_ms p in
    let ttl_cut := if front then p_q_ttl_cut p else false in
    let parked := if front then p_q_parked p else true in
    let '(w, p) := fc_permit_bind w p in
    let fc := w_fc w in
    let '(window_ms, ttl_cut) :=
      if kept =? 0 then park_window fc band ttl_ms ttl_cut else (0, ttl_cut) in
    let deadline := if kept =? 0 then u64 (ent_ns + window_ms * 1000000) else kept in
    let p := p <| p_state := FC_P_QUEUED |> <| p_q_fd := fd |> <| p_q_gen := gen |>
               <| p_q_enqueue_ns := ent_ns |> <| p_tkey := tkey |> <| p_band := band |>
               <| p_q_parked := parked |> <| p_q_deadline_ns := deadline |>
               <| p_q_ttl_cut := ttl_cut |> in
    let q := s_queue fc in
    let open := negb (q_dead q) && fc_queue_enabled fc in
    let band_full :=
      negb front && open && negb (fc_band_queue_bound fc band =? 0)
      && (fc_band_live q band >=? fc_band_queue_bound fc band) in
    let at_depth := q_count q >=? c_max_queue_depth (s_cfg fc) in
    let evict :=
      if negb front && open && at_depth && (deadline >? now_ns)
      then fc_ring_evict_pick fc band else None in
    let e := mk_fc_queue_ent fd true band (-1) gen ent_ns deadline in
    let '(w, r) :=
      if negb band_full && open && (front || negb at_depth || bool_decide (is_Some evict))
      then push_locked w e tkey now_ns front ordered evict
      else (w, mk_push_result None false None) in
    let w := if bool_decide (is_Some (pr_slot r)) || bool_decide (is_Some (pr_gone r))
             then on_fc fc_queue_publish w else w in
    let w := if bool_decide (is_Some (pr_slot r)) then arm_timer deadline w else w in
    let w := push_evicted w now_ns (pr_gone r) in
    match pr_slot r with
    | Some slot =>
        (if front then w else on_fc (fc_count_band FC_R_QUEUED band) w, p <| p_q_slot := slot |>, 0)
    | None =>
        let '(w, p) := fc_permit_bind w p in
        let p := p <| p_tkey := tkey |> <| p_band := band |>
                   <| p_q_parked := if front then parked else false |> in
        (on_fc (fc_count (if pr_share r then FC_R_TENANT_SHARE else FC_R_QUEUE_FULL)) w, p,
         if pr_share r then -2 else -1)
    end.

(** ** Leaving the queue *)

Definition fc_queue_take (w : world) (p : fc_permit) : world * fc_permit * bool :=
  if negb (bool_decide (p_state p = FC_P_QUEUED)) then (w, p, false)
  else
    match fc_ring_find (w_queue w) (p_q_fd p) (p_q_gen p) (p_q_slot p) with
    | None => (w, p, false)
    | Some slot =>
        let '(p, won) := fc_permit_settle p FC_P_ENDED in
        if negb won then (w, p, false)
        else (on_fc fc_queue_publish (fst (ring_take_tenant w slot)), p, true)
    end.

Definition fc_queue_holds (fc : fc_state) (p : fc_permit) : bool :=
  bool_decide (p_state p = FC_P_QUEUED)
  && bool_decide (is_Some (fc_ring_find (s_queue fc) (p_q_fd p) (p_q_gen p) (p_q_slot p))).

Definition fc_queue_pop (w : world) : world * option fc_queue_ent :=
  let '(q, e) := fc_ring_pop (w_queue w) in
  let w := on_queue (fun _ => q) w in
  let w := match e with Some e => fc_tenant_dec w (e_tslot e) true | None => w end in
  (on_fc fc_queue_publish w, e).

(** The woken request takes its turn: QUEUED -> NONE, once. *)
Definition fc_queue_resumed (p : fc_permit) : fc_permit * bool :=
  let '(p, won) := fc_permit_settle p FC_P_NONE in
  if won : bool then (p <| p_woken := true |>, true) else (p, false).

Definition fc_queue_owner_resume (w : world) (p : fc_permit) : world * fc_permit * fc_resume :=
  match p_state p with
  | FC_P_EVICTED | FC_P_ENDED => (w, p, FC_RESUME_DECIDED)
  | FC_P_QUEUED =>
      let '(w, claimed) := fc_queue_evicted_claim w (p_q_fd p) (p_q_gen p) in
      if claimed : bool then
        let '(p, won) := fc_permit_settle p FC_P_NONE in
        if negb won then (w, p, FC_RESUME_DECIDED)
        else (w, p <| p_woken := false |> <| p_q_parked := false |>, FC_RESUME_EVICTED)
      else if fc_queue_holds (w_fc w) p then (w, p, FC_RESUME_WAIT)
      else
        let '(p, won) := fc_queue_resumed p in
        (w, p, if won : bool then FC_RESUME_TURN else FC_RESUME_DECIDED)
  | _ => (w, p, FC_RESUME_NOT_QUEUED)
  end.

(** fc_queue_drain: [fn] is handed every waiter, oldest first. [k] bounds the
    loop; it ends when the queue is empty. *)
Fixpoint queue_drain (fn : world → fc_queue_ent → world * bool) (k : nat) (w : world) : world :=
  match k with
  | O => w
  | S k =>
      let '(w, e) := fc_queue_pop w in
      match e with
      | None => w
      | Some e =>
          let '(w, yes) := fn w e in
          queue_drain fn k (if yes : bool then on_fc (fc_count FC_R_DRAINED) w else w)
      end
  end.
Definition fc_queue_drain (fn : world → fc_queue_ent → world * bool) (w : world) : world :=
  queue_drain fn (S (Z.to_nat (q_count (w_queue w)))) w.

(** ** Choosing whom to wake *)

(** fc_pick_undo_t *)
Record fc_pick_undo := mk_fc_pick_undo {
  un_band : Z;
  un_credit : bool;
  un_rr : bool;
  un_rr_before : Z;
  un_rr_after : Z
}.
#[export] Instance fc_pick_undo_eta : RecordEta fc_pick_undo := fun r =>
  mk_fc_pick_undo (un_band r) (un_credit r) (un_rr r) (un_rr_before r) (un_rr_after r).

Definition fc_rr_key (e : fc_queue_ent) : Z := if e_tslot e <? 0 then 0x7fffffff else e_tslot e.

(** The entry of [band] next in turn: a slot with its key, for the tenants from
    the cursor on ([after]) and for all of them ([wrap]). *)
Definition pick_candidate (fc : fc_state) (band bound i : Z) : bool :=
  let e := zget (q_ring (s_queue fc)) i in
  e_live e && (fc_band_of (e_band e) =? band) && fc_tenant_can_run fc (e_tslot e) bound.
Definition lower_key (key : Z) (best : option (Z * Z)) : bool :=
  match best with None => true | Some (_, k) => key <? k end.
Definition fc_ring_pick_in_band (fc : fc_state) (band bound : Z) : option Z :=
  let q := s_queue fc in
  if negb (c_tenant_wake (s_cfg fc) =? FC_TENANT_WAKE_RR)
  then List.find (pick_candidate fc band bound) (ring_walk q)
  else
    let step '(after, wrap) i :=
      if pick_candidate fc band bound i then
        let key := fc_rr_key (zget (q_ring q) i) in
        (if (key >=? aget (q_rr_next q) band) && lower_key key after then Some (i, key) else after,
         if lower_key key wrap then Some (i, key) else wrap)
      else (after, wrap) in
    let '(after, wrap) := foldl step (None, None) (ring_walk q) in
    fst <$> (match after with Some _ => after | None => wrap end).

(** One scan of the ranks for a candidate with credit. *)
Definition drr_scan (credit : arr3 Z) (cand : arr3 bool) : option Z :=
  fc_band_at_rank <$>
    List.find (fun r => aget cand (fc_band_at_rank r) && (aget credit (fc_band_at_rank r) >? 0)) (zseq FC_BANDS).

(** The credits of a new round. *)
Definition drr_refill (weight : arr3 Z) (cand : arr3 bool) : arr3 Z :=
  let per b := if aget cand b then if negb (aget weight b =? 0) then aget weight b else 1 else 0 in
  Arr3 (per 0) (per 1) (per 2).

Definition drr_spend (q : fc_queue) (b : Z) : fc_queue :=
  q <| q_drr_credit ::= (fun c => amod c b (fun n => n - 1)) |>.

(** The band served, its credit spent; [None] is -1. *)
Definition fc_drr_pick (weight : arr3 Z) (q : fc_queue) (cand : arr3 bool) : fc_queue * option Z :=
  match drr_scan (q_drr_credit q) cand with
  | Some b => (drr_spend q b, Some b)
  | None =>
      let q := q <| q_drr_credit := drr_refill weight cand |> in
      match drr_scan (q_drr_credit q) cand with
      | Some b => (drr_spend q b, Some b)
      | None => (q, None)
      end
  end.

(** The first rank whose band satisfies [P]. *)
Definition first_rank (P : Z → bool) : option Z :=
  fc_band_at_rank <$> List.find (fun r => P (fc_band_at_rank r)) (zseq FC_BANDS).

(** The band the next unit goes to. *)
Definition pick_band (fc : fc_state) (pend : arr3 Z) (floors : bool) : fc_state * option Z * bool :=
  let bound := fc_tenant_svc_bound fc in
  let wait := fc_floor_waiting_runnable fc bound in
  let v := fc_floor_view_load fc (fc_svc_cap fc) (Some pend) (Some wait) in
  let ok b := aget wait b && (negb floors || fc_floor_may_take v b) in
  let under :=
    if floors
    then first_rank (fun b => aget wait b && (aget (fv_in v) b <? aget (fv_claim v) b) && fc_floor_may_take v b)
    else None in
  match under with
  | Some b => (fc, Some b, false)
  | None =>
      if fc_wake_strict fc then (fc, first_rank ok, false)
      else
        let '(q, b) := fc_drr_pick (c_band_weight (s_cfg fc)) (s_queue fc) (Arr3 (ok 0) (ok 1) (ok 2)) in
        (fc <| s_queue := q |>, b, bool_decide (is_Some b))
  end.

Definition fc_ring_pop_banded (fc : fc_state) (pend : arr3 Z) (floors : bool) :
    fc_state * option fc_queue_ent * fc_pick_undo :=
  let '(fc, pick, credit) := pick_band fc pend floors in
  let u := mk_fc_pick_undo (-1) credit false 0 0 in
  match pick with
  | None => (fc, None, u)
  | Some b =>
      match fc_ring_pick_in_band fc b (fc_tenant_svc_bound fc) with
      | None => (fc, None, u)
      | Some idx =>
          let u := u <| un_band := b |> in
          let '(q, e) := fc_ring_take_at (s_queue fc) idx in
          if c_tenant_wake (s_cfg fc) =? FC_TENANT_WAKE_RR then
            let before := aget (q_rr_next q) b in
            let after := u32 (fc_rr_key e + 1) in
            (fc <| s_queue := q <| q_rr_next ::= (fun a => aset a b after) |> |>, Some e,
             u <| un_rr := true |> <| un_rr_before := before |> <| un_rr_after := after |>)
          else (fc <| s_queue := q |>, Some e, u)
      end
  end.

(** The plain pool's scan: the oldest runnable entry of the best rank, stopping
    at rank 0. *)
Fixpoint best_scan (fc : fc_state) (banded : bool) (bound : Z) (slots : list Z) (best : option Z)
    (best_rank : Z) : option Z :=
  match slots with
  | [] => best
  | i :: slots =>
      let e := zget (q_ring (s_queue fc)) i in
      if e_live e && fc_tenant_can_run fc (e_tslot e) bound then
        let r := if banded then fc_band_rank (e_band e) else 0 in
        if r <? best_rank then
          if r =? 0 then Some i else best_scan fc banded bound slots (Some i) r
        else best_scan fc banded bound slots best best_rank
      else best_scan fc banded bound slots best best_rank
  end.

Definition fc_ring_pop_runnable (fc : fc_state) (pend : arr3 Z) :
    fc_state * option fc_queue_ent * fc_pick_undo :=
  let q := s_queue fc in
  let banded := negb (aget (q_band_count q) FC_BAND_CRITICAL =? 0)
                || negb (aget (q_band_count q) FC_BAND_SHEDDABLE =? 0) in
  let floors := fc_floors_apply fc (fc_svc_cap fc) in
  if floors || negb (fc_wake_strict fc) || (c_tenant_wake (s_cfg fc) =? FC_TENANT_WAKE_RR)
  then fc_ring_pop_banded fc pend floors
  else
    let u := mk_fc_pick_undo (-1) false false 0 0 in
    match best_scan fc banded (fc_tenant_svc_bound fc) (ring_walk q) None FC_BANDS with
    | None => (fc, None, u)
    | Some i =>
        let '(q, e) := fc_ring_take_at q i in (fc <| s_queue := q |>, Some e, u)
    end.

(** What a pick spent is given back. *)
Definition undo_pick (u : fc_pick_undo) (q : fc_queue) : fc_queue :=
  if un_band u >=? 0 then
    let q := if un_credit u && (aget (q_drr_credit q) (un_band u) <? FC_BAND_WEIGHT_MAX + 2)
             then q <| q_drr_credit ::= (fun c => amod c (un_band u) (fun n => n + 1)) |> else q in
    if un_rr u && (aget (q_rr_next q) (un_band u) =? un_rr_after u)
    then q <| q_rr_next ::= (fun a => aset a (un_band u) (un_rr_before u)) |> else q
  else q.

Definition fc_queue_wake_head (w : world) (pend : arr3 Z) : world * arr3 Z * bool :=
  let '(fc, e, u) := fc_ring_pop_runnable (w_fc w) pend in
  let w := w <| w_fc := fc_queue_publish fc |> in
  match e with
  | None => (w, pend, false)
  | Some e =>
      let '(w, delivered) := call_wake w (e_fd e) (e_gen e) in
      if negb delivered then
        let '(q, slot) := fc_ring_insert calloc (w_queue w) e true false in
        let w := on_queue (fun _ => q) w in
        let w := match slot with
                 | None => fc_tenant_dec w (e_tslot e) true
                 | Some _ => arm_timer (e_deadline_ns e) w
                 end in
        (on_fc fc_queue_publish (on_queue (undo_pick u) w), pend, false)
      else
        (fc_tenant_dec w (e_tslot e) true,
         amod pend (fc_band_of (e_band e)) (fun n => u32 (n + 1)), true)
  end.

Definition fc_queue_wake_one (w : world) : world :=
  if negb (bool_decide (is_Some wake_hook)) then w
  else if (fc_queued (w_fc w) =? 0) || negb (fc_has_room (w_fc w)) then w
  else fst (fst (fc_queue_wake_head w azero)).

(** The while loop: [n] turns, until one is not given. *)
Fixpoint wake_turns (n : nat) (w : world) (pend : arr3 Z) : world :=
  match n with
  | O => w
  | S n =>
      let '(w, pend, more) := fc_queue_wake_head w pend in
      if more : bool then wake_turns n w pend else w
  end.

(** How many turns the free units allow. *)
Definition wake_budget (fc : fc_state) : Z :=
  let n := fc_queued fc in
  let cap := fc_svc_cap fc in
  if (c_mode (s_cfg fc) =? FC_MODE_ENFORCE) && negb (cap =? 0) then
    if fc_inflight fc >=? cap then 0
    else if cap - fc_inflight fc <? n then cap - fc_inflight fc else n
  else n.

Definition fc_queue_wake_room (w : world) : world :=
  if negb (bool_decide (is_Some wake_hook)) then w
  else wake_turns (Z.to_nat (wake_budget (w_fc w))) w azero.

(** ** The deadline pass *)

(** The batches of one pool: at most 16 of 64 entries. *)
Fixpoint expire_rounds (expire : world → fc_queue_ent → Z → world) (k : nat) (w : world) (now_ns : Z) : world :=
  match k with
  | O => w
  | S k =>
      let batch := fc_queue_expired (w_queue w) now_ns 64 in
      let w := foldl (fun w e => expire w e now_ns) w batch in
      let next := fc_queue_next_deadline (w_fc w) in
      if (zlen batch =? 64) && negb (next =? 0) && (next <=? now_ns)
      then expire_rounds expire k w now_ns else w
  end.

(** The pool's part of a pass, with the earliest deadline left so far. *)
Definition fc_deadline_visit_pool (expire : world → fc_queue_ent → Z → world) (w : world)
    (now_ns earliest : Z) : world * Z :=
  let next := fc_queue_next_deadline (w_fc w) in
  let '(w, next) :=
    if negb (next =? 0) && (next <=? now_ns) then
      let w := expire_rounds expire 16 w now_ns in
      let next := fc_queue_next_deadline (w_fc w) in
      (w, if negb (next =? 0) && (next <=? now_ns) then u64 (now_ns + FC_DEADLINE_GRAIN_NS) else next)
    else (w, next) in
  (w, if negb (next =? 0) && ((earliest =? 0) || (next <? earliest)) then next else earliest).

(** The pass over the process's pools, here the one pool of the world. *)
Definition fc_deadline_pass (expire : world → fc_queue_ent → Z → world) (w : world) (now_ns : Z) :
    world * Z :=
  let w := w <| w_timer ::= (fun d => d <| d_passes ::= (fun n => u64 (n + 1)) |>
                                        <| d_last_fire_ns := now_ns |> <| d_armed_ns := 0 |>) |> in
  let '(w, earliest) := fc_deadline_visit_pool expire w now_ns 0 in
  (if negb (earliest =? 0) then arm_timer earliest w else w, earliest).
End queue.

(** ** Weighted rounds *)

Lemma zseq_bands : zseq FC_BANDS = [0; 1; 2].
Proof. reflexivity. Qed.

(** A band with a candidate and credit. *)
Definition drr_able (credit : arr3 Z) (cand : arr3 bool) (b : Z) : bool := aget cand b && (aget credit b >? 0).

Lemma drr_scan_eq credit cand :
  drr_scan credit cand =
  if drr_able credit cand FC_BAND_CRITICAL then Some FC_BAND_CRITICAL
  else if drr_able credit cand FC_BAND_STANDARD then Some FC_BAND_STANDARD
  else if drr_able credit cand FC_BAND_SHEDDABLE then Some FC_BAND_SHEDDABLE else None.
Proof.
  unfold drr_scan, drr_able. rewrite zseq_bands. cbn [List.find].
  change (fc_band_at_rank 0) with FC_BAND_CRITICAL. change (fc_band_at_rank 1) with FC_BAND_STANDARD.
  change (fc_band_at_rank 2) with FC_BAND_SHEDDABLE. by repeat case_test.
Qed.

Lemma drr_scan_served credit cand b : drr_scan credit cand = Some b → is_band b ∧ drr_able credit cand b = true.
Proof.
  rewrite drr_scan_eq. unfold is_band, FC_BAND_CRITICAL, FC_BAND_STANDARD, FC_BAND_SHEDDABLE.
  repeat case_test; intros [=<-]; auto.
Qed.

Lemma drr_scan_none credit cand b :
  drr_scan credit cand = None → is_band b → drr_able credit cand b = false.
Proof.
  rewrite drr_scan_eq. unfold is_band, FC_BAND_CRITICAL, FC_BAND_STANDARD, FC_BAND_SHEDDABLE.
  repeat case_test; try done. by intros _ [->|[->| ->]].
Qed.

(** What a band is given in a round. *)
Definition drr_share (weight : arr3 Z) (cand : arr3 bool) (b : Z) : Z :=
  if aget cand b then if negb (aget weight b =? 0) then aget weight b else 1 else 0.

Lemma drr_refill_get weight cand b : is_band b → aget (drr_refill weight cand) b = drr_share weight cand b.
Proof. by intros [->|[->| ->]]. Qed.

Lemma drr_refill_able weight cand b :
  is_band b → 0 ≤ aget weight b → drr_able (drr_refill weight cand) cand b = aget cand b.
Proof.
  intros Hb Hw. unfold drr_able. rewrite drr_refill_get by done. unfold drr_share.
  destruct (aget cand b); [|done]. cbn [andb]. rewrite Z.gtb_ltb. apply Z.ltb_lt.
  destruct (aget weight b =? 0) eqn:E; zbool; cbn [negb]; lia.
Qed.

Lemma drr_pick_served weight q cand b q' :
  fc_drr_pick weight q cand = (q', Some b) → is_band b ∧ aget cand b = true.
Proof.
  unfold fc_drr_pick. destruct (drr_scan (q_drr_credit q) cand) as [c|] eqn:E.
  - intros [= _ <-]. apply drr_scan_served in E as [? E]. by apply andb_true_iff in E as [? _].
  - destruct (drr_scan (q_drr_credit (q <| q_drr_credit := _ |>)) cand) as [c|] eqn:E2; [|done].
    intros [= _ <-]. apply drr_scan_served in E2 as [? E2]. by apply andb_true_iff in E2 as [? _].
Qed.

Lemma drr_pick_some weight q cand b :
  (∀ b, is_band b → 0 ≤ aget weight b) → is_band b → aget cand b = true →
  is_Some (snd (fc_drr_pick weight q cand)).
Proof.
  intros Hw Hb Hc. unfold fc_drr_pick. destruct (drr_scan (q_drr_credit q) cand); [done|].
  cbn [q_drr_credit field_set].
  destruct (drr_scan (drr_refill weight cand) cand) eqn:E; [done|].
  pose proof (drr_scan_none _ _ b E Hb) as Hn. rewrite drr_refill_able in Hn by auto. congruence.
Qed.

(** [n] picks in a row while the same bands have candidates. *)
Fixpoint drr_run (weight : arr3 Z) (cand : arr3 bool) (n : nat) (q : fc_queue) : fc_queue * list (option Z) :=
  match n with
  | O => (q, [])
  | S n =>
      let '(q, b) := fc_drr_pick weight q cand in
      let '(q, l) := drr_run weight cand n q in (q, b :: l)
  end.

Lemma drr_run_add weight cand n m q :
  drr_run weight cand (n + m) q =
  let '(q1, l1) := drr_run weight cand n q in
  let '(q2, l2) := drr_run weight cand m q1 in (q2, l1 ++ l2).
Proof.
  revert q. induction n as [|n IH]; intros q; cbn [drr_run Nat.add].
  { by destruct (drr_run _ _ _ _). }
  destruct (fc_drr_pick weight q cand) as [q1 b]. rewrite IH.
  destruct (drr_run weight cand n q1) as [q2 l1]. by destruct (drr_run weight cand m q2).
Qed.

(** The credits with one band's spent. *)
Definition drr_zero (q : fc_queue) (b : Z) : fc_queue := q <| q_drr_credit ::= (fun c => aset c b 0) |>.

(** While nothing is able before it, a band spends its credit. *)
Lemma drr_phase weight cand b k q :
  is_band b → aget cand b = true → aget (q_drr_credit q) b = Z.of_nat k →
  (∀ c, (aget c b >? 0) = true → (∀ b', b' ≠ b → is_band b' → aget c b' = aget (q_drr_credit q) b') →
        drr_scan c cand = Some b) →
  drr_run weight cand k q = (if k is O then q else drr_zero q b, replicate k (Some b)).
Proof.
  intros Hb Hc. revert q. induction k as [|k IH]; intros q Hk Hs; cbn [drr_run replicate]; [done|].
  assert (drr_scan (q_drr_credit q) cand = Some b) as E.
  { apply Hs; [|done]. rewrite Hk, Z.gtb_ltb. apply Z.ltb_lt. lia. }
  unfold fc_drr_pick. rewrite E.
  assert (aget (q_drr_credit (drr_spend q b)) b = Z.of_nat k) as Hk'.
  { cbn. unfold amod. rewrite aget_aset_eq. lia. }
  rewrite IH; [|done|].
  - f_equal. destruct k; unfold drr_zero, drr_spend; cbn; f_equal; unfold amod, aset, aget in *;
      destruct Hb as [->|[->| ->]]; cbn in *; f_equal; lia.
  - intros c Hcb Ho. apply Hs; [done|]. intros b' Hne Hb'. rewrite (Ho b' Hne Hb'). cbn. unfold amod.
    rewrite aget_aset. case_decide as Hd; [|done]. exfalso. apply Hne. revert Hd. unfold aidx.
    destruct Hb as [->|[->| ->]], Hb' as [->|[->| ->]]; cbn; lia.
Qed.

(** A phase a band without a candidate skips. *)
Lemma drr_phase_or weight cand b q :
  is_band b → 0 ≤ aget (q_drr_credit q) b → (aget cand b = false → aget (q_drr_credit q) b = 0) →
  (∀ c, aget cand b = true → (aget c b >? 0) = true →
        (∀ b', b' ≠ b → is_band b' → aget c b' = aget (q_drr_credit q) b') → drr_scan c cand = Some b) →
  let k := Z.to_nat (aget (q_drr_credit q) b) in
  drr_run weight cand k q = (drr_zero q b, replicate k (Some b)).
Proof.
  intros Hb H0 Hz Hs k. assert (aget (q_drr_credit q) b = 0 → drr_zero q b = q) as Hq.
  { intros E. destruct q. unfold drr_zero. cbn in *. f_equal. destruct q_drr_credit. unfold aset, aget in *. cbn in *.
    destruct Hb as [->|[->| ->]]; cbn in *; by subst. }
  destruct (aget cand b) eqn:Hc.
  - unfold k. rewrite (drr_phase weight cand b (Z.to_nat (aget (q_drr_credit q) b)) q); [|done|done|lia|auto].
    destruct (Z.to_nat _) eqn:E; [|done]. by rewrite Hq by lia.
  - unfold k. rewrite Hz by done. cbn. by rewrite Hq by auto.
Qed.

(** One round from full credits, in band order. *)
Lemma drr_round_run weight cand q :
  (∀ b, is_band b → 0 ≤ aget (q_drr_credit q) b) →
  (∀ b, is_band b → aget cand b = false → aget (q_drr_credit q) b = 0) →
  let n b := Z.to_nat (aget (q_drr_credit q) b) in
  drr_run weight cand (n FC_BAND_CRITICAL + (n FC_BAND_STANDARD + n FC_BAND_SHEDDABLE)) q =
  (q <| q_drr_credit := azero |>,
   replicate (n FC_BAND_CRITICAL) (Some FC_BAND_CRITICAL) ++
   replicate (n FC_BAND_STANDARD) (Some FC_BAND_STANDARD) ++
   replicate (n FC_BAND_SHEDDABLE) (Some FC_BAND_SHEDDABLE)).
Proof.
  intros H0 Hz n. assert (is_band FC_BAND_CRITICAL ∧ is_band FC_BAND_STANDARD ∧ is_band FC_BAND_SHEDDABLE) as (B1 & B0 & B2)
    by (unfold is_band, FC_BAND_CRITICAL, FC_BAND_STANDARD, FC_BAND_SHEDDABLE; lia).
  set (q1 := drr_zero q FC_BAND_CRITICAL). set (q2 := drr_zero q1 FC_BAND_STANDARD).
  assert (∀ c b, aget c b = 0 → drr_able c cand b = false) as Hun.
  { intros c b E. unfold drr_able. rewrite E. by destruct (aget cand b). }
  rewrite !drr_run_add. unfold n. rewrite (drr_phase_or weight cand FC_BAND_CRITICAL q); [|done|auto|auto|].
  2: { intros c Hc Hp _. rewrite drr_scan_eq. unfold drr_able. by rewrite Hc, Hp. }
  cbn [drr_run]. fold q1. rewrite drr_run_add.
  change (aget (q_drr_credit q) FC_BAND_STANDARD) with (aget (q_drr_credit q1) FC_BAND_STANDARD).
  rewrite (drr_phase_or weight cand FC_BAND_STANDARD q1); [|done|exact (H0 _ B0)|exact (Hz _ B0)|].
  2: { intros c Hc Hp Ho. rewrite drr_scan_eq, (Hun c FC_BAND_CRITICAL); [unfold drr_able; by rewrite Hc, Hp|].
       rewrite Ho by done. reflexivity. }
  fold q2. change (aget (q_drr_credit q) FC_BAND_SHEDDABLE) with (aget (q_drr_credit q2) FC_BAND_SHEDDABLE).
  rewrite (drr_phase_or weight cand FC_BAND_SHEDDABLE q2); [|done|exact (H0 _ B2)|exact (Hz _ B2)|].
  2: { intros c Hc Hp Ho. rewrite drr_scan_eq, (Hun c FC_BAND_CRITICAL), (Hun c FC_BAND_STANDARD);
         [unfold drr_able; by rewrite Hc, Hp|rewrite Ho by done; reflexivity..]. }
  reflexivity.
Qed.

(** With no credit left the first pick starts the round. *)
Lemma drr_run_refill weight cand n q :
  (∀ b, is_band b → aget cand b = true → aget (q_drr_credit q) b = 0) → n ≠ O →
  drr_scan (drr_refill weight cand) cand ≠ None →
  drr_run weight cand n q = drr_run weight cand n (q <| q_drr_credit := drr_refill weight cand |>).
Proof.
  intros Hz Hn Hs. destruct n; [done|]. cbn [drr_run].
  assert (fc_drr_pick weight q cand = fc_drr_pick weight (q <| q_drr_credit := drr_refill weight cand |>) cand) as ->; [|done].
  unfold fc_drr_pick at 1. destruct (drr_scan (q_drr_credit q) cand) as [b|] eqn:E.
  - apply drr_scan_served in E as [Hb E]. apply andb_true_iff in E as [Hc E]. rewrite (Hz b Hb Hc) in E. done.
  - unfold fc_drr_pick. cbn [q_drr_credit field_set]. by destruct (drr_scan (drr_refill weight cand) cand).
Qed.

(** ** Choosing an entry *)

Lemma find_split {A} (P : A → bool) l x :
  List.find P l = Some x → ∃ l1 l2, l = l1 ++ x :: l2 ∧ P x = true ∧ ∀ y, y ∈ l1 → P y = false.
Proof.
  induction l as [|y l IH]; cbn; [done|]. destruct (P y) eqn:E.
  - intros [= ->]. exists [], l. split_and!; [done|done|]. intros ? H. by apply not_elem_of_nil in H.
  - intros H. destruct (IH H) as (l1 & l2 & -> & ? & Hn). exists (y :: l1), l2. split_and!; [done|done|].
    intros z [->|Hz]%elem_of_cons; auto.
Qed.

Lemma find_none_all {A} (P : A → bool) l : List.find P l = None → ∀ y, y ∈ l → P y = false.
Proof. intros H y Hy. apply (List.find_none P l H). by apply list_elem_of_In. Qed.

(** The first entry with the least key, scanning on from [best]. *)
Definition argmin {A} (P : A → bool) (key : A → Z) (best : option (A * Z)) (l : list A) : option (A * Z) :=
  foldl (fun best i => if P i && match best with None => true | Some (_, k) => key i <? k end
                       then Some (i, key i) else best) best l.

(** It is the first with that key and no other has a lower one. *)
Definition argmin_at {A} (P : A → bool) (key : A → Z) (l : list A) (i : A) : Prop :=
  ∃ l1 l2, l = l1 ++ i :: l2 ∧ P i = true ∧
    (∀ j, j ∈ l1 → P j = true → key i < key j) ∧ (∀ j, j ∈ l2 → P j = true → key i ≤ key j).

Lemma argmin_spec {A} (P : A → bool) (key : A → Z) l best :
  match argmin P key best l with
  | None => best = None ∧ ∀ j, j ∈ l → P j = false
  | Some (i, k) =>
      (best = Some (i, k) ∧ ∀ j, j ∈ l → P j = true → k ≤ key j) ∨
      (k = key i ∧ argmin_at P key l i ∧ match best with Some (_, kb) => k < kb | None => True end)
  end.
Proof.
  revert best. induction l as [|x l IH]; intros best; cbn [argmin foldl].
  { destruct best as [[i k]|]; [left|]; (split; [done|]); intros j Hj; by apply not_elem_of_nil in Hj. }
  fold (argmin P key). set (b1 := if _ && _ then _ else best). specialize (IH b1).
  change (foldl _ b1 l) with (argmin P key b1 l). destruct (argmin P key b1 l) as [[i k]|].
  - destruct IH as [[Hb Hl]|(-> & (l1 & l2 & -> & Hi & H1 & H2) & Hk)].
    + unfold b1 in Hb. destruct (P x) eqn:Ex; cbn [andb] in Hb.
      * destruct (match best with None => true | Some (_, kb) => key x <? kb end) eqn:E.
        -- injection Hb as <- <-. right. split_and!; [done| |].
           ++ exists [], l. split_and!; [done|done| |done]. intros j Hj. by apply not_elem_of_nil in Hj.
           ++ destruct best as [[? kb]|]; [by apply Z.ltb_lt|done].
        -- left. split; [done|]. intros j [->|Hj]%elem_of_cons Pj; [|auto]. subst best. by apply Z.ltb_ge in E.
      * left. split; [done|]. intros j [->|Hj]%elem_of_cons Pj; [congruence|auto].
    + right. split; [done|]. unfold b1 in Hk. split.
      * exists (x :: l1), l2. split_and!; [done|done| |done]. intros j [->|Hj]%elem_of_cons Pj; [|auto].
        rewrite Pj in Hk. cbn [andb] in Hk. destruct best as [[? kb]|]; [|done].
        destruct (key x <? kb) eqn:E; zbool; lia.
      * destruct best as [[? kb]|]; [|done]. destruct (P x && (key x <? kb)) eqn:E; zbool; lia.
  - destruct IH as [Hb Hl]. unfold b1 in Hb. destruct (P x) eqn:Ex; cbn [andb] in Hb.
    + destruct best as [[? ?]|]; [by destruct (_ <? _)|done].
    + split; [done|]. intros j [->|Hj]%elem_of_cons; auto.
Qed.

Lemma argmin_none {A} (P : A → bool) key l : argmin P key None l = None → ∀ j, j ∈ l → P j = false.
Proof. intros H. pose proof (argmin_spec P key l None) as HS. rewrite H in HS. apply HS. Qed.

Lemma argmin_some {A} (P : A → bool) key l i k : argmin P key None l = Some (i, k) → k = key i ∧ argmin_at P key l i.
Proof.
  intros H. pose proof (argmin_spec P key l None) as HS. rewrite H in HS. destruct HS as [[? _]|(? & ? & _)]; done.
Qed.

(** A waiter whose tenant could take a unit now. *)
Definition runnable (fc : fc_state) (e : fc_queue_ent) : bool :=
  fc_tenant_can_run fc (e_tslot e) (fc_tenant_svc_bound fc).

(** The plain scan is the least rank, the oldest of it: it stops at rank 0. *)
Definition scan_rank (fc : fc_state) (banded : bool) (i : Z) : Z :=
  if banded then fc_band_rank (e_band (zget (q_ring (s_queue fc)) i)) else 0.
Definition scan_ok (fc : fc_state) (bound i : Z) : bool :=
  e_live (zget (q_ring (s_queue fc)) i) && fc_tenant_can_run fc (e_tslot (zget (q_ring (s_queue fc)) i)) bound.

Lemma scan_rank_bounds fc banded i : 0 ≤ scan_rank fc banded i < FC_BANDS.
Proof.
  unfold scan_rank. destruct banded; [apply fc_band_rank_bounds|unfold FC_BANDS; lia].
Qed.

Lemma argmin_at_zero {A} (P : A → bool) key (i : A) l :
  key i = 0 → (∀ j, 0 ≤ key j) → argmin P key (Some (i, 0)) l = Some (i, 0).
Proof.
  intros Hi H0. pose proof (argmin_spec P key l (Some (i, 0))) as HS.
  destruct (argmin P key (Some (i, 0)) l) as [[j k]|]; [|by destruct HS].
  destruct HS as [[[= -> ->] _]|(-> & _ & Hk)]; [done|]. pose proof (H0 j). lia.
Qed.

Lemma best_scan_argmin fc banded bound slots best :
  best_scan fc banded bound slots (fst <$> best) (match best with Some (_, k) => k | None => FC_BANDS end) =
  fst <$> argmin (scan_ok fc bound) (scan_rank fc banded) best slots.
Proof.
  revert best. induction slots as [|i slots IH]; intros best; cbn [best_scan argmin foldl]; [done|].
  change (foldl _ ?b slots) with (argmin (scan_ok fc bound) (scan_rank fc banded) b slots).
  change (e_live (zget (q_ring (s_queue fc)) i) && fc_tenant_can_run fc (e_tslot (zget (q_ring (s_queue fc)) i)) bound)
    with (scan_ok fc bound i).
  destruct (scan_ok fc bound i); cbn [andb]; [|apply IH].
  change (if banded then fc_band_rank (e_band (zget (q_ring (s_queue fc)) i)) else 0) with (scan_rank fc banded i).
  pose proof (scan_rank_bounds fc banded i) as Hb.
  assert ((scan_rank fc banded i <? match best with Some (_, k) => k | None => FC_BANDS end) =
          match best with Some (_, k) => scan_rank fc banded i <? k | None => true end) as ->.
  { destruct best as [[? ?]|]; [done|]. apply Z.ltb_lt. lia. }
  destruct (match best with Some (_, k) => scan_rank fc banded i <? k | None => true end); [|apply IH].
  destruct (scan_rank fc banded i =? 0) eqn:E0; zbool.
  - rewrite E0, argmin_at_zero; [done|done|]. intros j. apply scan_rank_bounds.
  - apply (IH (Some (i, scan_rank fc banded i))).
Qed.

(** ** Taking the next waiter out *)

(** Turns of the tenants: how far a key is from the cursor, round the keys. *)
Definition turn_of (cursor key : Z) : Z := if key >=? cursor then key - cursor else key - cursor + 4294967296.

(** What the entries of one band are ordered by: the turn of their tenant, or
    nothing but their age. *)
Definition pick_key (fc : fc_state) (band : Z) (e : fc_queue_ent) : Z :=
  if c_tenant_wake (s_cfg fc) =? FC_TENANT_WAKE_RR
  then turn_of (aget (q_rr_next (s_queue fc)) band) (fc_rr_key e) else 0.

Lemma rr_step_fold fc band bound slots after wrap :
  let q := s_queue fc in
  let cand := pick_candidate fc band bound in
  let key i := fc_rr_key (zget (q_ring q) i) in
  let cur := aget (q_rr_next q) band in
  foldl (fun '(after, wrap) i =>
      if pick_candidate fc band bound i then
        let key := fc_rr_key (zget (q_ring q) i) in
        (if (key >=? aget (q_rr_next q) band) && lower_key key after then Some (i, key) else after,
         if lower_key key wrap then Some (i, key) else wrap)
      else (after, wrap)) (after, wrap) slots =
  (argmin (fun i => cand i && (key i >=? cur)) key after slots, argmin cand key wrap slots).
Proof.
  cbn zeta. revert after wrap. induction slots as [|i slots IH]; intros after wrap; [done|].
  unfold argmin. cbn [foldl]. destruct (pick_candidate fc band bound i); cbn zeta; rewrite IH; reflexivity.
Qed.

(** Ordering by two keys that agree on the candidates. *)
Lemma argmin_at_ext {A} (P Q : A → bool) (key key' : A → Z) l i :
  (P i = true → Q i = true) →
  (∀ j, j ∈ l → P i = true → Q j = true →
     (P j = true → key i < key j → key' i < key' j) ∧ (P j = true → key i ≤ key j → key' i ≤ key' j) ∧
     (P j = false → key' i < key' j)) →
  argmin_at P key l i → argmin_at Q key' l i.
Proof.
  intros Hi Hj (l1 & l2 & -> & HP & H1 & H2). exists l1, l2. split_and!; [done|auto|..]; intros j Hin HQ.
  - destruct (Hj j) as (Ha & Hb & Hc); [set_solver|done|done|]. destruct (P j) eqn:E; auto.
  - destruct (Hj j) as (Ha & Hb & Hc); [set_solver|done|done|]. destruct (P j) eqn:E; [auto|].
    apply Z.lt_le_incl; auto.
Qed.

Lemma argmin_at_in {A} (P : A → bool) key l i : argmin_at P key l i → i ∈ l ∧ P i = true.
Proof. intros (l1 & l2 & -> & ? & _). set_solver. Qed.

(** Tenant slots are ints. *)
Definition tslots_int (q : fc_queue) : Prop := ∀ i, e_tslot (zget (q_ring q) i) < 2147483648.

Lemma rr_key_range q i : tslots_int q → 0 ≤ fc_rr_key (zget (q_ring q) i) < 2147483648.
Proof. intros Ht. unfold fc_rr_key. specialize (Ht i). case_test; zbool; lia. Qed.

Lemma pick_in_band_best fc band bound :
  tslots_int (s_queue fc) →
  let ent i := zget (q_ring (s_queue fc)) i in
  match fc_ring_pick_in_band fc band bound with
  | Some i => argmin_at (pick_candidate fc band bound) (fun i => pick_key fc band (ent i)) (ring_walk (s_queue fc)) i
  | None => ∀ i, i ∈ ring_walk (s_queue fc) → pick_candidate fc band bound i = false
  end.
Proof.
  intros Ht ent. unfold fc_ring_pick_in_band, pick_key. destruct (c_tenant_wake (s_cfg fc) =? FC_TENANT_WAKE_RR); cbn [negb].
  2: { destruct (List.find _ _) as [i|] eqn:E; [|by apply find_none_all].
       apply find_split in E as (l1 & l2 & -> & HP & Hn). exists l1, l2. split_and!; [done|done| |lia].
       intros j Hj Pj. rewrite Hn in Pj; done. }
  rewrite rr_step_fold. cbn zeta. set (cur := aget _ band). set (cand := pick_candidate fc band bound).
  set (key := fun i => fc_rr_key (zget (q_ring (s_queue fc)) i)).
  assert (Hk : ∀ i, 0 ≤ key i < 2147483648) by (intros; by apply rr_key_range).
  destruct (argmin (fun i => cand i && (fc_rr_key (zget (q_ring (s_queue fc)) i) >=? cur)) key None _) as [[i k]|] eqn:E1; cbn [fmap option_fmap option_map fst].
  - apply argmin_some in E1 as [_ H1]. revert H1. apply argmin_at_ext.
    { intros H. by apply andb_true_iff in H as [? _]. }
    intros j _ Hi Qj. apply andb_true_iff in Hi as [_ Hi]. pose proof (Hk i). pose proof (Hk j).
    change (fc_rr_key (ent i)) with (key i). change (fc_rr_key (ent j)) with (key j).
    change (fc_rr_key (zget (q_ring (s_queue fc)) i)) with (key i) in Hi.
    change (fc_rr_key (zget (q_ring (s_queue fc)) j)) with (key j). rewrite Qj. cbn [andb]. unfold turn_of. fold cur.
    rewrite Hi. zbool. destruct (key j >=? cur) eqn:Ej; zbool; split_and!; try done; lia.
  - pose proof (argmin_none _ _ _ E1) as Hn. destruct (argmin cand key None _) as [[i k]|] eqn:E2; cbn [fmap option_fmap option_map fst].
    + apply argmin_some in E2 as [_ H2]. pose proof (argmin_at_in _ _ _ _ H2) as [Hin Pi]. revert H2.
      apply argmin_at_ext; [done|]. intros j Hj _ Qj. pose proof (Hn i Hin) as Ni. pose proof (Hn j Hj) as Nj.
      cbn beta in Ni, Nj. rewrite Pi in Ni. rewrite Qj in Nj. cbn [andb] in Ni, Nj. unfold turn_of. fold cur.
      change (fc_rr_key (ent i)) with (key i). change (fc_rr_key (ent j)) with (key j).
      change (fc_rr_key (zget (q_ring (s_queue fc)) i)) with (key i) in Ni.
      change (fc_rr_key (zget (q_ring (s_queue fc)) j)) with (key j) in Nj.
      rewrite Ni, Nj. split_and!; [lia|lia|congruence].
    + intros i Hi. by apply (argmin_none _ _ _ E2).
Qed.

(** From slots to the line: the entry taken out is the best of the waiters. *)
Lemma take_best fc (p : fc_queue_ent → bool) (kf : fc_queue_ent → Z) P key i :
  let q := s_queue fc in
  ring_wf q → (∀ j, P j = e_live (zget (q_ring q) j) && p (zget (q_ring q) j)) → (∀ j, key j = kf (zget (q_ring q) j)) →
  argmin_at P key (ring_walk q) i →
  let r := fc_ring_take_at q i in
  ∃ l1 l2, ring_abs q = l1 ++ snd r :: l2 ∧ ring_abs (fst r) = l1 ++ l2 ∧ ring_wf (fst r) ∧ q_same q (fst r) ∧
    q_cap (fst r) = q_cap q ∧ p (snd r) = true ∧
    (∀ x, x ∈ l1 → p x = true → kf (snd r) < kf x) ∧ (∀ x, x ∈ l2 → p x = true → kf (snd r) ≤ kf x).
Proof.
  cbn zeta. intros Hwf HP Hkey (s1 & s2 & Hw & Hi & H1 & H2). pose proof Hi as Hi'. rewrite HP in Hi'.
  apply andb_true_iff in Hi' as [Hl Hp].
  destruct (take_at_walk _ s1 i s2 Hwf Hw Hl) as (Ha & Hw' & Ha' & Hs & Hc).
  exists (live_at (s_queue fc) s1), (live_at (s_queue fc) s2). split_and!; [exact Ha|exact Ha'|done|done|done|exact Hp|..].
  all: intros x Hx Px; apply list_elem_of_In, List.filter_In in Hx as [Hx Lx];
    apply list_elem_of_In, list_elem_of_fmap in Hx as (j & -> & Hj); change (snd (fc_ring_take_at (s_queue fc) i)) with (zget (q_ring (s_queue fc)) i);
    rewrite <- !Hkey.
  - apply H1; [done|]. by rewrite HP, Lx, Px.
  - apply H2; [done|]. by rewrite HP, Lx, Px.
Qed.

Lemma pick_in_band_in fc band bound i :
  fc_ring_pick_in_band fc band bound = Some i →
  i ∈ ring_walk (s_queue fc) ∧ pick_candidate fc band bound i = true.
Proof.
  unfold fc_ring_pick_in_band. destruct (negb _).
  { intros H. apply List.find_some in H as [? ?]. by rewrite list_elem_of_In. }
  rewrite rr_step_fold. cbn zeta. destruct (argmin _ _ None _) as [[j k]|] eqn:E1; cbn [fmap option_fmap option_map fst].
  - intros [= <-]. apply argmin_some in E1 as [_ H]. apply argmin_at_in in H as [? H]. by apply andb_true_iff in H as [? _].
  - match goal with |- context [argmin ?a ?b None ?c] => destruct (argmin a b None c) as [[j k]|] eqn:E2 end; cbn; [|done].
    intros [= <-]. apply argmin_some in E2 as [_ H]. by apply argmin_at_in in H.
Qed.

Lemma pick_in_band_none fc band bound :
  fc_ring_pick_in_band fc band bound = None → ∀ i, i ∈ ring_walk (s_queue fc) → pick_candidate fc band bound i = false.
Proof.
  unfold fc_ring_pick_in_band. destruct (negb _); [apply find_none_all|].
  rewrite rr_step_fold. cbn zeta. destruct (argmin _ _ None _) as [[j k]|] eqn:E1; cbn; [done|].
  match goal with |- context [argmin ?a ?b None ?c] => destruct (argmin a b None c) as [[j k]|] eqn:E2 end; cbn; [done|].
  intros _ i Hi. by apply (argmin_none _ _ _ E2).
Qed.

(** A queue whose line lost the entry at a slot of the walk. *)
Lemma take_in_walk q i :
  ring_wf q → i ∈ ring_walk q → e_live (zget (q_ring q) i) = true →
  ∃ l1 l2, ring_abs q = l1 ++ snd (fc_ring_take_at q i) :: l2 ∧ ring_abs (fst (fc_ring_take_at q i)) = l1 ++ l2 ∧
    ring_wf (fst (fc_ring_take_at q i)) ∧ q_same q (fst (fc_ring_take_at q i)) ∧ q_cap (fst (fc_ring_take_at q i)) = q_cap q.
Proof.
  intros Hwf Hi Hl. apply list_elem_of_split in Hi as (s1 & s2 & Hw).
  destruct (take_at_walk q s1 i s2 Hwf Hw Hl) as (? & ? & ? & ? & ?).
  exists (live_at q s1), (live_at q s2). by split_and!.
Qed.

(** Which bands hold a waiter that can be taken. *)
Lemma waiting_fold fc bound b slots wait :
  is_band b →
  aget (foldl (fun wait i =>
    let e := zget (q_ring (s_queue fc)) i in
    if e_live e && fc_tenant_can_run fc (e_tslot e) bound
    then aset wait (fc_band_of (e_band e)) true else wait) wait slots) b = true ↔
  aget wait b = true ∨ ∃ i, i ∈ slots ∧ pick_candidate fc b bound i = true.
Proof.
  intros Hb. revert wait. induction slots as [|i slots IH]; intros wait; cbn [foldl].
  { split; [by left|]. intros [?|(i & Hi & _)]; [done|]. by apply not_elem_of_nil in Hi. }
  rewrite IH. set (e := zget (q_ring (s_queue fc)) i).
  assert (Hx : (∃ j, j ∈ i :: slots ∧ pick_candidate fc b bound j = true) ↔
               pick_candidate fc b bound i = true ∨ ∃ j, j ∈ slots ∧ pick_candidate fc b bound j = true).
  { split; [intros (j & [->|Hj]%elem_of_cons & Hp); [by left|right; by exists j]|].
    intros [Hp|(j & Hj & Hp)]; [exists i|exists j]; (split; [by constructor|done]). }
  rewrite Hx. change (pick_candidate fc b bound i)
    with (e_live e && (fc_band_of (e_band e) =? b) && fc_tenant_can_run fc (e_tslot e) bound).
  pose proof (fc_band_of_is_band (e_band e)) as He. destruct (e_live e), (fc_tenant_can_run fc (e_tslot e) bound); cbn [andb].
  all: rewrite ?andb_true_r, ?andb_false_r.
  2-4: clear; intuition congruence.
  destruct (fc_band_of (e_band e) =? b) eqn:Eb; zbool.
  - subst b. rewrite aget_aset_eq. clear. intuition.
  - rewrite aget_aset. case_decide as Hd; [|clear; intuition congruence]. exfalso. apply Eb. revert Hd. unfold aidx.
    destruct Hb as [->|[->| ->]], He as [->|[->| ->]]; cbn; lia.
Qed.

Lemma waiting_runnable_spec fc bound b :
  is_band b →
  aget (fc_floor_waiting_runnable fc bound) b = true ↔
  ∃ i, i ∈ ring_walk (s_queue fc) ∧ pick_candidate fc b bound i = true.
Proof.
  intros Hb. unfold fc_floor_waiting_runnable. rewrite (waiting_fold fc bound b _ _ Hb).
  split; [|by right]. intros [H|?]; [|done]. exfalso. revert H. unfold aget. by repeat case_test.
Qed.

Lemma first_rank_some P b : first_rank P = Some b → is_band b ∧ P b = true.
Proof.
  unfold first_rank. rewrite zseq_bands. cbn [List.find]. unfold is_band.
  change (fc_band_at_rank 0) with 1. change (fc_band_at_rank 1) with 0. change (fc_band_at_rank 2) with 2.
  repeat case_test; cbn; intros [= <-]; auto.
Qed.
Lemma first_rank_none P b : first_rank P = None → is_band b → P b = false.
Proof.
  unfold first_rank. rewrite zseq_bands. cbn [List.find].
  change (fc_band_at_rank 0) with 1. change (fc_band_at_rank 1) with 0. change (fc_band_at_rank 2) with 2.
  repeat case_test; try done. by intros _ [->|[->| ->]].
Qed.

(** A pool that differs in the weighted credits only. *)
Definition credits_moved (fc fc' : fc_state) : Prop :=
  ∃ c, fc' = fc <| s_queue := (s_queue fc) <| q_drr_credit := c |> |>.

Lemma credits_refl fc : credits_moved fc fc.
Proof. exists (q_drr_credit (s_queue fc)). destruct fc as [????????????[]???????????????]. reflexivity. Qed.

Definition weights_ok (c : fc_cfg) : Prop := ∀ b, is_band b → 0 ≤ aget (c_band_weight c) b.

Lemma drr_pick_queue weight q cand : ∃ c, fst (fc_drr_pick weight q cand) = q <| q_drr_credit := c |>.
Proof.
  unfold fc_drr_pick. destruct (drr_scan (q_drr_credit q) cand) as [b|]; cbn [fst].
  - unfold drr_spend. by eexists.
  - cbn [q_drr_credit field_set]. destruct (drr_scan (drr_refill weight cand) cand); cbn [fst]; by eexists.
Qed.

Lemma pick_band_spec fc pend floors :
  let r := pick_band fc pend floors in
  let wait := fc_floor_waiting_runnable fc (fc_tenant_svc_bound fc) in
  credits_moved fc (fst (fst r)) ∧
  match snd (fst r) with
  | Some b => is_band b ∧ aget wait b = true
  | None => weights_ok (s_cfg fc) → floors = false → ∀ b, is_band b → aget wait b = false
  end.
Proof.
  cbn zeta. unfold pick_band. set (wait := fc_floor_waiting_runnable _ _). set (v := fc_floor_view_load _ _ _ _).
  destruct (if floors then _ else None) as [b|] eqn:Eu.
  { split; [apply credits_refl|]. cbn [fst snd]. destruct floors; [|done].
    apply first_rank_some in Eu as [? Eu]. split; [done|]. by do 2 apply andb_true_iff in Eu as [Eu _]. }
  clear Eu. destruct (fc_wake_strict fc).
  - split; [apply credits_refl|]. cbn [fst snd]. destruct (first_rank _) as [b|] eqn:E.
    + apply first_rank_some in E as [? E]. split; [done|]. by apply andb_true_iff in E as [? _].
    + intros _ -> b Hb. pose proof (first_rank_none _ b E Hb) as H. cbn [negb orb] in H. by rewrite andb_true_r in H.
  - set (cand := Arr3 _ _ _). destruct (drr_pick_queue (c_band_weight (s_cfg fc)) (s_queue fc) cand) as [c Hq].
    assert (Hcand : ∀ b, is_band b → aget cand b = aget wait b && (negb floors || fc_floor_may_take v b))
      by (by intros b [->|[->| ->]]).
    pose proof (fun b Hw Hb Hc => drr_pick_some (c_band_weight (s_cfg fc)) (s_queue fc) cand b Hw Hb Hc) as Hsome.
    pose proof (fun b q' => drr_pick_served (c_band_weight (s_cfg fc)) (s_queue fc) cand b q') as Hserved.
    destruct (fc_drr_pick _ _ _) as [q' [b|]]; cbn [fst snd] in *.
    + split; [exists c; by rewrite <- Hq|]. destruct (Hserved b q' eq_refl) as [Hb Hcb]. split; [done|].
      rewrite Hcand in Hcb by done. by apply andb_true_iff in Hcb as [? _].
    + split; [exists c; by rewrite <- Hq|]. intros Hw -> b Hb. destruct (aget wait b) eqn:E; [|done].
      destruct (Hsome b Hw Hb) as [? Hs]; [by rewrite Hcand, E by done|done].
Qed.

(** One runnable waiter has left the line. *)
Definition popped (fc fc' : fc_state) (e : fc_queue_ent) : Prop :=
  ∃ q' l1 l2, fc' = fc <| s_queue := q' |> ∧ ring_abs (s_queue fc) = l1 ++ e :: l2 ∧ ring_abs q' = l1 ++ l2 ∧
    ring_wf q' ∧ q_cap q' = q_cap (s_queue fc) ∧ q_dead q' = q_dead (s_queue fc) ∧
    q_evicted q' = q_evicted (s_queue fc) ∧ runnable fc e = true.

Lemma abs_of_walk q e :
  ring_geom q → e ∈ ring_abs q ↔ ∃ i, i ∈ ring_walk q ∧ e = zget (q_ring q) i ∧ e_live e = true.
Proof.
  intros Hg. unfold ring_abs. rewrite <- ring_walk_span by done. rewrite list_elem_of_In, List.filter_In, <- list_elem_of_In.
  rewrite list_elem_of_fmap. naive_solver.
Qed.

Lemma ring_slots_ext q q' n i : q_cap q' = q_cap q → ring_slots q' n i = ring_slots q n i.
Proof.
  intros Hc. revert i. induction n as [|n IH]; intros i; cbn [ring_slots]; [done|]. f_equal.
  unfold fc_ring_wrap at 1. rewrite Hc. apply IH.
Qed.

Lemma walk_credits q c : ring_walk (q <| q_drr_credit := c |>) = ring_walk q.
Proof. unfold ring_walk. by apply ring_slots_ext. Qed.

Lemma ring_wf_credits q c : ring_wf q → ring_wf (q <| q_drr_credit := c |>).
Proof. intros [[]]. by split; [split|..]. Qed.

Lemma pop_banded_spec fc pend floors :
  ring_wf (s_queue fc) →
  let r := fc_ring_pop_banded fc pend floors in
  match snd (fst r) with
  | Some e => popped fc (fst (fst r)) e
  | None => credits_moved fc (fst (fst r)) ∧
      (weights_ok (s_cfg fc) → floors = false → ∀ e, e ∈ ring_abs (s_queue fc) → runnable fc e = false)
  end.
Proof.
  intros Hwf. cbn zeta. unfold fc_ring_pop_banded. pose proof (pick_band_spec fc pend floors) as [Hc Hb]. cbn zeta in Hc, Hb.
  destruct (pick_band fc pend floors) as [[fc1 pick] credit]. cbn [fst snd] in Hc, Hb. destruct Hc as [c ->].
  set (fc1 := fc <| s_queue := _ |>). destruct pick as [b|]; cbn [fst snd].
  2: { split; [by exists c|]. intros Hw Hf e He. apply abs_of_walk in He as (i & Hi & -> & Hl); [|apply Hwf].
       destruct (runnable fc (zget (q_ring (s_queue fc)) i)) eqn:E; [|done]. unfold runnable in E.
       pose proof (fc_band_of_is_band (e_band (zget (q_ring (s_queue fc)) i))) as Hbb.
       pose proof (Hb Hw Hf _ Hbb) as Hn. apply not_true_iff_false in Hn. contradict Hn.
       apply waiting_runnable_spec; [done|]. exists i. split; [done|]. unfold pick_candidate.
       by rewrite Hl, Z.eqb_refl, E. }
  destruct Hb as [Hb Hwait]. apply waiting_runnable_spec in Hwait as (i0 & Hi0 & Hcand); [|done].
  destruct (fc_ring_pick_in_band fc1 b (fc_tenant_svc_bound fc1)) as [i|] eqn:E.
  2: { exfalso. pose proof (pick_in_band_none _ _ _ E i0) as Hn.
       change (s_queue fc1) with ((s_queue fc) <| q_drr_credit := c |>) in Hn. rewrite walk_credits in Hn. specialize (Hn Hi0).
       change (pick_candidate fc b (fc_tenant_svc_bound fc) i0 = false) in Hn. congruence. }
  apply pick_in_band_in in E as [Hi Hp]. apply andb_true_iff in Hp as [Hp Hr]. apply andb_true_iff in Hp as [Hl _].
  destruct (take_in_walk (s_queue fc1) i) as (l1 & l2 & Ha & Ha' & Hw' & (_ & _ & Hd & He) & Hcap);
    [by apply ring_wf_credits|done|done|].
  assert (Hrun : runnable fc (snd (fc_ring_take_at (s_queue fc1) i)) = true) by exact Hr.
  destruct (fc_ring_take_at (s_queue fc1) i) as [q' e]. cbn [fst snd] in *.
  destruct (_ =? FC_TENANT_WAKE_RR); cbn [fst snd].
  - exists (q' <| q_rr_next ::= (fun a => aset a b (u32 (fc_rr_key e + 1))) |>), l1, l2.
    split_and!; [done|exact Ha|exact Ha'| |done..]. destruct Hw' as [[]]. by split; [split|..].
  - exists q', l1, l2. by split_and!.
Qed.

(** A strict, first-come pool without floors. *)
Definition plain_pool (fc : fc_state) : bool :=
  negb (fc_floors_apply fc (fc_svc_cap fc)) && fc_wake_strict fc
  && negb (c_tenant_wake (s_cfg fc) =? FC_TENANT_WAKE_RR).

Definition some_banded (q : fc_queue) : bool :=
  negb (aget (q_band_count q) FC_BAND_CRITICAL =? 0) || negb (aget (q_band_count q) FC_BAND_SHEDDABLE =? 0).

Lemma pop_runnable_plain fc pend :
  plain_pool fc = true →
  fc_ring_pop_runnable fc pend =
  match best_scan fc (some_banded (s_queue fc)) (fc_tenant_svc_bound fc) (ring_walk (s_queue fc)) None FC_BANDS with
  | None => (fc, None, mk_fc_pick_undo (-1) false false 0 0)
  | Some i => let '(q, e) := fc_ring_take_at (s_queue fc) i in
      (fc <| s_queue := q |>, Some e, mk_fc_pick_undo (-1) false false 0 0)
  end.
Proof.
  unfold plain_pool, fc_ring_pop_runnable. intros H. apply andb_true_iff in H as [H H3]. apply andb_true_iff in H as [H1 H2].
  apply negb_true_iff in H1, H3. rewrite H1, H2, H3. reflexivity.
Qed.

(** With no waiter of the counted bands every waiter has the same rank. *)
Lemma unbanded_rank q e :
  ring_wf q → some_banded q = false → e ∈ ring_abs q → fc_band_rank (e_band e) = 1.
Proof.
  intros Hwf Hs He. apply orb_false_iff in Hs as [H1 H2]. zbool.
  rewrite (rw_bands q Hwf) in H1, H2 by done. unfold fc_band_rank, fc_band_of.
  assert (∀ b, zcount (fun e => e_band e =? b) (ring_abs q) = 0 → (e_band e =? b) = false) as Hn.
  { intros b Hz. destruct (e_band e =? b) eqn:E; [|done]. pose proof (zcount_pos (fun e => e_band e =? b) _ _ He E). lia. }
  by rewrite (Hn _ H1), (Hn _ H2).
Qed.

Lemma pop_plain_spec fc pend :
  ring_wf (s_queue fc) → plain_pool fc = true →
  let r := fc_ring_pop_runnable fc pend in
  match snd (fst r) with
  | Some e => ∃ l1 l2, ring_abs (s_queue fc) = l1 ++ e :: l2 ∧ runnable fc e = true ∧
      popped fc (fst (fst r)) e ∧ ring_abs (s_queue (fst (fst r))) = l1 ++ l2 ∧
      (∀ x, x ∈ l1 → runnable fc x = true → fc_band_rank (e_band e) < fc_band_rank (e_band x)) ∧
      (∀ x, x ∈ l2 → runnable fc x = true → fc_band_rank (e_band e) ≤ fc_band_rank (e_band x))
  | None => fst (fst r) = fc ∧ ∀ e, e ∈ ring_abs (s_queue fc) → runnable fc e = false
  end.
Proof.
  intros Hwf Hp. cbn zeta. rewrite pop_runnable_plain by done.
  change (best_scan fc ?b ?bd ?s None FC_BANDS) with
    (best_scan fc b bd s (fst <$> (None : option (Z * Z))) (match (None : option (Z * Z)) with Some (_, k) => k | None => FC_BANDS end)).
  rewrite best_scan_argmin. destruct (argmin _ _ None _) as [[i k]|] eqn:E; cbn [fmap option_fmap option_map fst].
  - apply argmin_some in E as [_ E].
    destruct (take_best fc (runnable fc) (fun e => if some_banded (s_queue fc) then fc_band_rank (e_band e) else 0)
      _ _ i Hwf (fun _ => eq_refl) (fun _ => eq_refl) E) as (l1 & l2 & Ha & Ha' & Hw' & (_ & _ & Hd & He) & Hc & Hr & H1 & H2).
    destruct (fc_ring_take_at (s_queue fc) i) as [q' e]. cbn [fst snd] in *.
    assert (Hrank : ∀ x, x ∈ l1 ++ e :: l2 → some_banded (s_queue fc) = false → fc_band_rank (e_band x) = 1).
    { intros x Hx Hs. rewrite <- Ha in Hx. by apply (unbanded_rank (s_queue fc)). }
    exists l1, l2. split_and!; [done|done|exists q', l1, l2; by split_and!|exact Ha'|..]; intros x Hx Rx.
    + specialize (H1 x Hx Rx). destruct (some_banded (s_queue fc)); [done|lia].
    + specialize (H2 x Hx Rx). destruct (some_banded (s_queue fc)) eqn:Es; [done|].
      rewrite !Hrank; [lia|set_solver..].
  - split; [done|]. intros e He. apply abs_of_walk in He as (i & Hi & -> & Hl); [|apply Hwf].
    pose proof (argmin_none _ _ _ E i Hi) as Hn. unfold scan_ok in Hn. rewrite Hl in Hn. exact Hn.
Qed.

Lemma pop_runnable_spec fc pend :
  ring_wf (s_queue fc) →
  let r := fc_ring_pop_runnable fc pend in
  match snd (fst r) with
  | Some e => popped fc (fst (fst r)) e
  | None => credits_moved fc (fst (fst r)) ∧
      (weights_ok (s_cfg fc) → fc_floors_apply fc (fc_svc_cap fc) = false → ∀ e, e ∈ ring_abs (s_queue fc) → runnable fc e = false)
  end.
Proof.
  intros Hwf. cbn zeta. destruct (plain_pool fc) eqn:Hp.
  - pose proof (pop_plain_spec fc pend Hwf Hp) as H. cbn zeta in H.
    destruct (snd (fst (fc_ring_pop_runnable fc pend))); [by destruct H as (? & ? & _ & _ & H & _)|].
    destruct H as [-> H]. split; [apply credits_refl|by intros _ _].
  - pose proof (pop_banded_spec fc pend (fc_floors_apply fc (fc_svc_cap fc)) Hwf) as H. cbn zeta in H.
    unfold fc_ring_pop_runnable. assert (fc_floors_apply fc (fc_svc_cap fc) || negb (fc_wake_strict fc)
      || (c_tenant_wake (s_cfg fc) =? FC_TENANT_WAKE_RR) = true) as ->; [|exact H].
    unfold plain_pool in Hp. by destruct (fc_floors_apply _ _), (fc_wake_strict fc), (_ =? FC_TENANT_WAKE_RR).
Qed.

(** ** Theorems *)

(** The weighted policy is a round robin: from a state where no band with
    a candidate has credit left, and while the same bands have candidates, the
    next picks serve critical, then standard, then sheddable, each exactly as
    often as its weight (a zero weight counts as one), and then the round is
    over and the credits are spent again. *)
Theorem fc_drr_round_exact weight cand q :
  (∀ b, is_band b → 0 ≤ aget weight b) →
  (∀ b, is_band b → aget cand b = true → aget (q_drr_credit q) b = 0) →
  aexists (fun c => c) cand = true →
  let n b := Z.to_nat (drr_share weight cand b) in
  drr_run weight cand (n FC_BAND_CRITICAL + (n FC_BAND_STANDARD + n FC_BAND_SHEDDABLE)) q =
  (q <| q_drr_credit := azero |>,
   replicate (n FC_BAND_CRITICAL) (Some FC_BAND_CRITICAL) ++
   replicate (n FC_BAND_STANDARD) (Some FC_BAND_STANDARD) ++
   replicate (n FC_BAND_SHEDDABLE) (Some FC_BAND_SHEDDABLE)).
Proof.
  intros Hw Hz Hc n. set (q' := q <| q_drr_credit := drr_refill weight cand |>).
  assert (Hcr : ∀ b, is_band b → aget (q_drr_credit q') b = drr_share weight cand b) by (intros; by apply drr_refill_get).
  assert (Hex : ∃ b, is_band b ∧ aget cand b = true).
  { unfold aexists in Hc. apply orb_true_iff in Hc as [Hc|Hc]; [apply orb_true_iff in Hc as [Hc|Hc]|].
    - exists 0. split; [by left|exact Hc].
    - exists 1. split; [by right; left|exact Hc].
    - exists 2. split; [by right; right|exact Hc]. }
  assert (Hb : is_band FC_BAND_CRITICAL ∧ is_band FC_BAND_STANDARD ∧ is_band FC_BAND_SHEDDABLE)
    by (unfold is_band, FC_BAND_CRITICAL, FC_BAND_STANDARD, FC_BAND_SHEDDABLE; lia).
  destruct Hb as (B1 & B0 & B2). destruct Hex as (b & Hbb & Hcb).
  assert (Hpos : 1 ≤ drr_share weight cand b).
  { unfold drr_share. rewrite Hcb. specialize (Hw b Hbb). destruct (aget weight b =? 0) eqn:E; zbool; cbn [negb]; lia. }
  rewrite (drr_run_refill weight cand _ q Hz).
  - unfold n. rewrite <- (Hcr _ B0), <- (Hcr _ B1), <- (Hcr _ B2). apply (drr_round_run weight cand q').
    + intros c Hcc. rewrite Hcr by done. unfold drr_share. specialize (Hw c Hcc). repeat case_test; lia.
    + intros c Hcc E. rewrite Hcr by done. unfold drr_share. by rewrite E.
  - unfold n. destruct Hbb as [->|[->| ->]]; unfold FC_BAND_CRITICAL, FC_BAND_STANDARD, FC_BAND_SHEDDABLE in *; lia.
  - intros E. pose proof (drr_scan_none _ _ b E Hbb) as Hn. rewrite drr_refill_able in Hn by auto. congruence.
Qed.

Lemma fc_drr_round_witness :
  snd (drr_run (Arr3 2 3 0) (Arr3 true true true) 6 fc_queue_zero) =
  [Some FC_BAND_CRITICAL; Some FC_BAND_CRITICAL; Some FC_BAND_CRITICAL; Some FC_BAND_STANDARD; Some FC_BAND_STANDARD;
   Some FC_BAND_SHEDDABLE].
Proof.
  pose proof (fc_drr_round_exact (Arr3 2 3 0) (Arr3 true true true) fc_queue_zero) as H. cbn zeta in H.
  assert (H1 : ∀ b, is_band b → 0 ≤ aget (Arr3 2 3 0) b) by (intros b [->|[->| ->]]; vm_compute; discriminate).
  assert (H2 : ∀ b, is_band b → aget (Arr3 true true true) b = true → aget (q_drr_credit fc_queue_zero) b = 0)
    by (intros b [->|[->| ->]] _; reflexivity).
  specialize (H H1 H2 eq_refl). change (drr_run (Arr3 2 3 0) (Arr3 true true true) 6 fc_queue_zero)
    with (drr_run (Arr3 2 3 0) (Arr3 true true true)
      (Z.to_nat (drr_share (Arr3 2 3 0) (Arr3 true true true) FC_BAND_CRITICAL) +
       (Z.to_nat (drr_share (Arr3 2 3 0) (Arr3 true true true) FC_BAND_STANDARD) +
        Z.to_nat (drr_share (Arr3 2 3 0) (Arr3 true true true) FC_BAND_SHEDDABLE))) fc_queue_zero).
  rewrite H. reflexivity.
Defined.

(** On a strict, first-come pool the wake takes the oldest runnable
    waiter of the highest band: no runnable waiter of a better band is left
    behind, none of the same band is older, and when nobody is taken nobody
    could run. *)
Theorem fc_wake_plain_order fc pend :
  ring_wf (s_queue fc) → plain_pool fc = true →
  let '(fc', pick, _) := fc_ring_pop_runnable fc pend in
  match pick with
  | Some e => ∃ l1 l2, ring_abs (s_queue fc) = l1 ++ e :: l2 ∧ ring_abs (s_queue fc') = l1 ++ l2 ∧ runnable fc e = true ∧
      (∀ x, x ∈ l1 → runnable fc x = true → fc_band_rank (e_band e) < fc_band_rank (e_band x)) ∧
      (∀ x, x ∈ l2 → runnable fc x = true → fc_band_rank (e_band e) ≤ fc_band_rank (e_band x))
  | None => fc' = fc ∧ ∀ e, e ∈ ring_abs (s_queue fc) → runnable fc e = false
  end.
Proof.
  intros Hwf Hp. pose proof (pop_plain_spec fc pend Hwf Hp) as H. cbn zeta in H.
  destruct (fc_ring_pop_runnable fc pend) as [[fc' [e|]] u]; cbn [fst snd] in H; [|done].
  destruct H as (l1 & l2 & H1 & H2 & _ & H3 & H4 & H5). exists l1, l2. by split_and!.
Qed.

(** A queue where a critical request came after a standard one. *)
Definition two_bands : fc_queue :=
  fst (ring_run (fun _ _ => true) fc_queue_zero
    [RGrow 4; RInsert (mk_fc_queue_ent 5 true FC_BAND_STANDARD (-1) 1 10 0) false false;
     RInsert (mk_fc_queue_ent 6 true FC_BAND_CRITICAL (-1) 1 20 0) false false]).

Lemma two_bands_wf : ring_wf two_bands.
Proof. apply (ring_run_refines (fun _ _ => true) _ fc_queue_zero ring_wf_zero). Qed.

Definition two_bands_pool : fc_state :=
  fc_state_zero <| s_cfg := fc_cfg_zero <| c_mode := FC_MODE_ENFORCE |> |> <| s_queue := two_bands |>.

Lemma fc_wake_plain_order_witness :
  let '(fc', pick, _) := fc_ring_pop_runnable two_bands_pool azero in
  e_fd <$> pick = Some 6 ∧ e_fd <$> ring_abs (s_queue fc') = [5].
Proof.
  pose proof (fc_wake_plain_order two_bands_pool azero two_bands_wf eq_refl) as H.
  assert (Hd : e_fd <$> snd (fst (fc_ring_pop_runnable two_bands_pool azero)) = Some 6) by (vm_compute; reflexivity).
  assert (Hl : e_fd <$> ring_abs (s_queue two_bands_pool) = [5; 6]) by (vm_compute; reflexivity).
  destruct (fc_ring_pop_runnable two_bands_pool azero) as [[fc' [e|]] u]; cbn [fst snd fmap option_fmap option_map] in Hd; [|discriminate].
  destruct H as (l1 & l2 & Ha & Hb & _ & _ & _). split; [exact Hd|]. injection Hd as Hd.
  rewrite Ha in Hl. rewrite Hb. rewrite fmap_app, fmap_cons, Hd in Hl. rewrite fmap_app.
  destruct l1 as [|a [|b l1]]; cbn in Hl |- *; [discriminate| |destruct l1; discriminate].
  injection Hl as -> Hl. destruct l2; [reflexivity|discriminate].
Defined.

(** With the tenants in turn, the entry taken from a band is that of the
    runnable waiter whose tenant comes next round from the band's cursor, and
    of that tenant's waiters the oldest. *)
Theorem fc_wake_tenant_turn fc band i :
  ring_wf (s_queue fc) → tslots_int (s_queue fc) → c_tenant_wake (s_cfg fc) = FC_TENANT_WAKE_RR →
  fc_ring_pick_in_band fc band (fc_tenant_svc_bound fc) = Some i →
  let e := zget (q_ring (s_queue fc)) i in
  let turn x := turn_of (aget (q_rr_next (s_queue fc)) band) (fc_rr_key x) in
  let ready x := (fc_band_of (e_band x) =? band) && runnable fc x in
  ready e = true ∧
  ∃ l1 l2, ring_abs (s_queue fc) = l1 ++ e :: l2 ∧
    (∀ x, x ∈ l1 → ready x = true → turn e < turn x) ∧ (∀ x, x ∈ l2 → ready x = true → turn e ≤ turn x).
Proof.
  intros Hwf Ht Hrr Hp. cbn zeta. pose proof (pick_in_band_best fc band (fc_tenant_svc_bound fc) Ht) as H. cbn zeta in H.
  rewrite Hp in H.
  destruct (take_best fc (fun x => (fc_band_of (e_band x) =? band) && runnable fc x) (pick_key fc band) _ _ i Hwf
    (fun j => eq_sym (andb_assoc _ _ _)) (fun _ => eq_refl) H) as (l1 & l2 & Ha & _ & _ & _ & _ & Hr & H1 & H2).
  assert (Hk : ∀ x, pick_key fc band x = turn_of (aget (q_rr_next (s_queue fc)) band) (fc_rr_key x))
    by (intros x; unfold pick_key; by rewrite Hrr).
  change (snd (fc_ring_take_at (s_queue fc) i)) with (zget (q_ring (s_queue fc)) i) in *. split; [exact Hr|].
  exists l1, l2. split_and!; [done|..]; intros x Hx Rx; rewrite <- !Hk; auto.
Qed.

(** Two tenants, the one of slot 0 first in line, the cursor past it. *)
Definition rr_queue : fc_queue :=
  (fst (ring_run (fun _ _ => true) fc_queue_zero
    [RGrow 4; RInsert (mk_fc_queue_ent 5 true FC_BAND_STANDARD 0 1 10 0) false false;
     RInsert (mk_fc_queue_ent 6 true FC_BAND_STANDARD 2 1 20 0) false false])) <| q_rr_next := Arr3 1 0 0 |>.
Definition rr_pool : fc_state :=
  fc_state_zero <| s_cfg := fc_cfg_zero <| c_mode := FC_MODE_ENFORCE |> <| c_tenant_wake := FC_TENANT_WAKE_RR |> |>
                <| s_queue := rr_queue |>.

Lemma rr_queue_wf : ring_wf rr_queue.
Proof.
  assert (ring_wf (fst (ring_run (fun _ _ => true) fc_queue_zero
    [RGrow 4; RInsert (mk_fc_queue_ent 5 true FC_BAND_STANDARD 0 1 10 0) false false;
     RInsert (mk_fc_queue_ent 6 true FC_BAND_STANDARD 2 1 20 0) false false]))) as [[]]
    by (apply (ring_run_refines (fun _ _ => true) _ fc_queue_zero ring_wf_zero)).
  by split; [split|..].
Qed.

Lemma rr_queue_slots : tslots_int rr_queue.
Proof.
  intros i. assert (Forall (fun e => e_tslot e < 2147483648) (q_ring rr_queue)) as Hf by (repeat constructor; vm_compute; reflexivity).
  unfold zget. rewrite list_lookup_total_alt. destruct (q_ring rr_queue !! Z.to_nat i) as [e|] eqn:E; [|reflexivity].
  cbn. exact (Forall_lookup_1 _ _ _ _ Hf E).
Qed.

Lemma fc_wake_tenant_turn_witness :
  fc_ring_pick_in_band rr_pool FC_BAND_STANDARD 0 = Some 1 ∧ e_fd (zget (q_ring rr_queue) 1) = 6 ∧
  ∃ l1 l2, ring_abs rr_queue = l1 ++ zget (q_ring rr_queue) 1 :: l2.
Proof.
  assert (H : fc_ring_pick_in_band rr_pool FC_BAND_STANDARD (fc_tenant_svc_bound rr_pool) = Some 1) by (vm_compute; reflexivity).
  split; [exact H|]. split; [reflexivity|].
  destruct (fc_wake_tenant_turn rr_pool FC_BAND_STANDARD 1 rr_queue_wf rr_queue_slots eq_refl H) as (_ & l1 & l2 & Ha & _).
  exists l1, l2. exact Ha.
Defined.
