(* ===== verification/FcFrame.v ===== *)
(** * Capacity admission: what the queue and the tenants leave alone

    The operations of the wait queue, of the tenant table and of the counters
    move no unit of service and no unit of an endpoint, and keep the
    configuration and the adaptive ceiling: [units_same]. Collected in the hint database [frame], these
    facts let a theorem about units step over any of those calls. *)

From stdpp Require Import base list gmap numbers.
From S2P Require Import Prelude FcTypes FcRing FcTenant FcFloors FcQueue.

Definition units_same (fc fc' : fc_state) : Prop :=
  s_inflight fc' = s_inflight fc ∧ s_band_inflight fc' = s_band_inflight fc ∧
  s_ep_inflight fc' = s_ep_inflight fc ∧ s_cfg fc' = s_cfg fc ∧ s_eff_max fc' = s_eff_max fc.

(** The same for a world: its pool, its identity, the drain flag, the clock. *)
Definition world_same (w w' : world) : Prop :=
  units_same (w_fc w) (w_fc w') ∧ w_id w' = w_id w ∧ w_drain w' = w_drain w ∧ w_now w' = w_now w.

#[export] Instance units_same_preorder : PreOrder units_same.
Proof. split; [done|]. intros x y z (?&?&?&?&?) (?&?&?&?&?). split_and!; congruence. Qed.
#[export] Instance world_same_preorder : PreOrder world_same.
Proof.
  split; [done|]. intros x y z (?&?&?&?) (?&?&?&?). split_and!; [by etrans|congruence..].
Qed.

Create HintDb frame discriminated.

Lemma units_refl fc : units_same fc fc.
Proof. done. Qed.
Lemma units_trans fc1 fc2 fc3 : units_same fc1 fc2 → units_same fc2 fc3 → units_same fc1 fc3.
Proof. by intros; etrans. Qed.
Lemma world_refl w : world_same w w.
Proof. done. Qed.
Lemma world_trans w1 w2 w3 : world_same w1 w2 → world_same w2 w3 → world_same w1 w3.
Proof. by intros; etrans. Qed.
#[export] Hint Resolve units_refl world_refl : frame.

(** ** Tenants

    The tenant table's operations change nothing of the pool but the table. *)

Definition pool_rest (fc : fc_state) :=
  (s_cfg fc, s_inflight fc, s_queued fc, s_band_inflight fc, s_band_queued fc, s_ep_inflight fc, s_queue fc, s_eff_max fc).
Definition tenants_only (fc fc' : fc_state) : Prop := pool_rest fc' = pool_rest fc.
Definition world_tenants (w w' : world) : Prop :=
  tenants_only (w_fc w) (w_fc w') ∧ w_id w' = w_id w ∧ w_drain w' = w_drain w ∧ w_now w' = w_now w ∧
  w_timer w' = w_timer w ∧ w_refs w' = w_refs w ∧ w_wakes w' = w_wakes w.

#[export] Instance tenants_only_preorder : PreOrder tenants_only.
Proof. unfold tenants_only. split; [done|]. intros x y z -> ->. done. Qed.
#[export] Instance world_tenants_preorder : PreOrder world_tenants.
Proof.
  split; [done|]. intros x y z (?&?&?&?&?&?&?) (?&?&?&?&?&?&?). split_and!; [by etrans|congruence..].
Qed.

Lemma tenants_units fc fc' : tenants_only fc fc' → units_same fc fc'.
Proof. unfold tenants_only, pool_rest, units_same. intros [=]. by split_and!. Qed.
Lemma tenants_queue fc fc' :
  tenants_only fc fc' → s_queue fc' = s_queue fc ∧ s_queued fc' = s_queued fc ∧ s_band_queued fc' = s_band_queued fc ∧
    s_cfg fc' = s_cfg fc ∧ s_eff_max fc' = s_eff_max fc.
Proof. unfold tenants_only, pool_rest. intros [=]. by split_and!. Qed.
Lemma world_tenants_same w w' : world_tenants w w' → world_same w w'.
Proof. intros (?&?&?&?&_). split_and!; [by apply tenants_units|done..]. Qed.

Lemma tmod_tenants i f fc : tenants_only fc (tmod i f fc).
Proof. done. Qed.
Lemma iset_tenants b v fc : tenants_only fc (iset b v fc).
Proof. done. Qed.

Lemma mark_tenants fc i : tenants_only fc (fc_tenant_mark fc i).
Proof. unfold fc_tenant_mark. by case_test. Qed.

Lemma relay_tenants fc : tenants_only fc (fc_tidx_relay fc).
Proof.
  unfold fc_tidx_relay. set (fc0 := field_set s_tenant_tombs _ _).
  assert (tenants_only fc fc0) as H0 by done. clearbody fc0. revert fc0 H0. generalize (zseq (s_tenant_slots fc)).
  intros l fc0. generalize (zseq (s_tenant_slots fc0)). clear l. intros l. revert fc0.
  induction l as [|i l IH]; intros fc0 H0; simpl; [done|]. apply IH. etrans; [exact H0|].
  unfold relay_slot. by case_test.
Qed.

Lemma drop_tombs_tenants k fc b : tenants_only fc (drop_tombs fc k b).
Proof.
  revert fc b. induction k as [|k IH]; intros fc b; cbn [drop_tombs]; [done|].
  destruct (negb _); [done|]. etrans; [|apply IH]. done.
Qed.

Lemma drop_tenants fc key : tenants_only fc (fc_tidx_drop fc key).
Proof.
  unfold fc_tidx_drop. repeat case_test; try done.
  - etrans; [|apply drop_tombs_tenants]. done.
  - etrans; [|apply relay_tenants]. done.
Qed.

Lemma put_tenants fc slot : tenants_only fc (fc_tenant_put fc slot).
Proof.
  unfold fc_tenant_put. destruct (_ || _); [done|]. destruct (_ || _); [done|].
  set (fc1 := tmod _ _ _). assert (H1 : tenants_only fc fc1) by done. clearbody fc1.
  destruct (slot =? _); [done|]. pose proof (drop_tenants fc1 (t_key (tget fc slot))) as H2.
  set (fc2 := fc_tidx_drop _ _) in *. clearbody fc2. set (fc3 := tmod _ _ _).
  assert (H3 : tenants_only fc fc3) by (etrans; [exact H1|]; etrans; [exact H2|done]). clearbody fc3.
  destruct (_ && _); [|done]. etrans; [exact H3|apply relay_tenants].
Qed.

Lemma ensure_tenants calloc fc : tenants_only fc (fst (fc_tenant_table_ensure calloc fc)).
Proof.
  unfold fc_tenant_table_ensure. destruct (s_tenants fc); [done|]. destruct (q_dead _); [done|].
  set (fc1 := if s_tenant_slots fc =? 0 then _ else _).
  assert (tenants_only fc fc1) as H1 by (unfold fc1; by case_test). clearbody fc1.
  case_test; cbn [fst]; (etrans; [exact H1|]); done.
Qed.

Lemma get_tenants calloc w key count : world_tenants w (fst (fc_tenant_get calloc w key count)).
Proof.
  unfold fc_tenant_get. pose proof (ensure_tenants calloc (w_fc w)) as H1.
  destruct (fc_tenant_table_ensure calloc (w_fc w)) as [fc ok]. cbn [fst] in H1.
  assert (Hs : ∀ fc', tenants_only fc fc' → world_tenants w (w <| w_fc := fc' |>)).
  { intros fc' H2. split; [|done]. by etrans. }
  destruct ok; cbn [negb]; [|by apply Hs]. destruct (fc_tidx_find fc key) as [b fr].
  destruct (negb (b =? _)); [by apply Hs|]. destruct (_ >=? _).
  - destruct (negb (t_used _)), count; cbn [fst]; (etrans; [by apply (Hs fc)|]); done.
  - set (fc1 := tmod _ _ _). assert (tenants_only fc fc1) by done. clearbody fc1.
    apply Hs. etrans; [|apply iset_tenants]. by case_test.
Qed.

Lemma dec_tenants w slot queued : world_tenants w (fc_tenant_dec w slot queued).
Proof.
  unfold fc_tenant_dec. destruct (_ || _); [done|].
  set (w1 := if (_ =? 0) then _ else _).
  assert (H1 : world_tenants w w1) by (unfold w1; by destruct (_ =? 0)). clearbody w1.
  etrans; [exact H1|]. split; [|done]. cbn [w_fc on_fc field_set].
  etrans; [apply mark_tenants|apply put_tenants].
Qed.


Lemma mark_units fc i : units_same fc (fc_tenant_mark fc i).
Proof. apply tenants_units, mark_tenants. Qed.
Lemma put_units fc slot : units_same fc (fc_tenant_put fc slot).
Proof. apply tenants_units, put_tenants. Qed.
Lemma ensure_units calloc fc : units_same fc (fst (fc_tenant_table_ensure calloc fc)).
Proof. apply tenants_units, ensure_tenants. Qed.
Lemma get_same calloc w key count : world_same w (fst (fc_tenant_get calloc w key count)).
Proof. apply world_tenants_same, get_tenants. Qed.
Lemma dec_same w slot queued : world_same w (fc_tenant_dec w slot queued).
Proof. apply world_tenants_same, dec_tenants. Qed.

Lemma waiter_units fc bound : units_same fc (fst (fc_tenant_waiter_can_run fc bound)).
Proof. destruct (waiter_marks_only fc bound) as (l & n & b & ->). done. Qed.
Lemma band_waiter_units fc band bound : units_same fc (fst (fc_band_waiter_can_run fc band bound)).
Proof.
  unfold fc_band_waiter_can_run. pose proof (waiter_units fc bound) as H.
  by destruct (fc_tenant_waiter_can_run fc bound).
Qed.
#[export] Hint Resolve mark_units put_units get_same dec_same : frame.

(** ** Counters *)

Lemma count_units r fc : units_same fc (fc_count r fc).
Proof. done. Qed.
Lemma count_band_units r b fc : units_same fc (fc_count_band r b fc).
Proof. unfold fc_count_band. by repeat case_test. Qed.
Lemma note_wait_units n fc : units_same fc (fc_note_wait n fc).
Proof. done. Qed.
Lemma publish_units fc : units_same fc (fc_queue_publish fc).
Proof. done. Qed.
#[export] Hint Resolve count_units count_band_units note_wait_units publish_units : frame.

Lemma on_fc_same f w : units_same (w_fc w) (f (w_fc w)) → world_same w (on_fc f w).
Proof. done. Qed.
Lemma on_queue_same f w : world_same w (on_queue f w).
Proof. done. Qed.
Lemma arm_same d w : world_same w (arm_timer d w).
Proof. done. Qed.
Lemma anomaly_same a w : world_same w (fc_anomaly a w).
Proof. done. Qed.
#[export] Hint Resolve on_fc_same on_queue_same arm_same anomaly_same : frame.

Lemma wait_end_same w p t : world_same w (fst (fc_queue_wait_end w p t)).
Proof. unfold fc_queue_wait_end. by case_test. Qed.

Lemma bind_same w p : world_same w (fst (fc_permit_bind w p)).
Proof. unfold fc_permit_bind, drop_opt. by destruct (p_fc p). Qed.

(** ** The queue *)

Lemma ring_take_same w slot : world_same w (fst (ring_take_tenant w slot)).
Proof.
  unfold ring_take_tenant. destruct (fc_ring_take_at _ _) as [q e]. cbn [fst].
  etrans; [apply on_queue_same|apply dec_same].
Qed.
Lemma evict_same w slot t : world_same w (fst (fc_ring_evict w slot t)).
Proof.
  unfold fc_ring_evict. pose proof (ring_take_same w slot) as H.
  destruct (ring_take_tenant w slot) as [w' e]. etrans; [exact H|]. apply on_queue_same.
Qed.
Lemma evicted_claim_same w fd gen : world_same w (fst (fc_queue_evicted_claim w fd gen)).
Proof.
  unfold fc_queue_evicted_claim, fc_evicted_take, evicted_remove. destruct (_ || _); [done|].
  destruct (evicted_ix _ _); done.
Qed.
Lemma take_same w p : world_same w (fst (fst (fc_queue_take w p))).
Proof.
  unfold fc_queue_take. destruct (negb _); [done|]. destruct (fc_ring_find _ _ _ _); [|done].
  unfold fc_permit_settle. case_decide; [|done]. cbn [fst negb].
  etrans; [apply ring_take_same|]. apply on_fc_same, publish_units.
Qed.
Lemma call_wake_same hook w fd gen : world_same w (fst (call_wake hook w fd gen)).
Proof. unfold call_wake. by destruct hook. Qed.

Lemma pick_band_units fc pend floors : units_same fc (fst (fst (pick_band fc pend floors))).
Proof.
  unfold pick_band. destruct (if floors then _ else _); [done|]. destruct (fc_wake_strict fc); [done|].
  by destruct (fc_drr_pick _ _ _) as [q b].
Qed.
Lemma pop_banded_units fc pend floors : units_same fc (fst (fst (fc_ring_pop_banded fc pend floors))).
Proof.
  unfold fc_ring_pop_banded. pose proof (pick_band_units fc pend floors) as H.
  destruct (pick_band fc pend floors) as [[fc1 pick] credit]. cbn [fst] in H.
  destruct pick as [b|]; [|done]. destruct (fc_ring_pick_in_band _ _ _); [|done].
  destruct (fc_ring_take_at _ _) as [q e]. case_test; (etrans; [exact H|]); done.
Qed.
Lemma pop_runnable_units fc pend : units_same fc (fst (fst (fc_ring_pop_runnable fc pend))).
Proof.
  unfold fc_ring_pop_runnable. case_test; [apply pop_banded_units|].
  destruct (best_scan _ _ _ _ _ _); [|done]. by destruct (fc_ring_take_at _ _).
Qed.

Section wakes.
Context (calloc : Z → bool) (wake_hook : option (list (Z * Z) → Z → Z → bool)).

Lemma wake_head_same w pend :
  world_same w (fst (fst (fc_queue_wake_head calloc wake_hook w pend))).
Proof.
  unfold fc_queue_wake_head. pose proof (pop_runnable_units (w_fc w) pend) as H.
  destruct (fc_ring_pop_runnable (w_fc w) pend) as [[fc e] u]. cbn [fst] in H.
  set (w1 := w <| w_fc := fc_queue_publish fc |>).
  assert (H1 : world_same w w1) by (split; [by etrans; [exact H|]|done]). clearbody w1.
  destruct e as [e|]; [|done]. pose proof (call_wake_same wake_hook w1 (e_fd e) (e_gen e)) as H2.
  destruct (call_wake _ _ _ _) as [w2 ok]. cbn [fst] in H2. destruct ok; cbn [negb].
  - cbn [fst]. etrans; [exact H1|]. etrans; [exact H2|apply dec_same].
  - destruct (fc_ring_insert _ _ _ _ _) as [q slot]. cbn [fst].
    etrans; [exact H1|]. etrans; [exact H2|]. destruct slot; [done|].
    etrans; [apply (dec_same (on_queue (fun _ => q) w2))|done].
Qed.

Lemma wake_one_same w : world_same w (fc_queue_wake_one calloc wake_hook w).
Proof. unfold fc_queue_wake_one. repeat case_test; try done. apply wake_head_same. Qed.

Lemma wake_turns_same n w pend : world_same w (wake_turns calloc wake_hook n w pend).
Proof.
  revert w pend. induction n as [|n IH]; intros w pend; cbn [wake_turns]; [done|].
  pose proof (wake_head_same w pend) as H. destruct (fc_queue_wake_head _ _ _ _) as [[w1 pd] more].
  destruct more; [|done]. etrans; [exact H|apply IH].
Qed.

Lemma wake_room_same w : world_same w (fc_queue_wake_room calloc wake_hook w).
Proof. unfold fc_queue_wake_room. case_test; [done|]. apply wake_turns_same. Qed.

(** ** Parking *)

Lemma push_tenant_same w tkey front : world_same w (fst (fst (push_tenant calloc w tkey front))).
Proof.
  unfold push_tenant. case_test; [|done]. pose proof (get_same calloc w tkey false) as H.
  by destruct (fc_tenant_get _ _ _ _).
Qed.
Lemma push_settle_same w tslot ok : world_same w (push_settle w tslot ok).
Proof.
  unfold push_settle. repeat case_test; [| |done].
  - split; [|done]. cbn [w_fc on_fc field_set]. etrans; [|apply mark_units]. done.
  - split; [|done]. apply put_units.
Qed.
Lemma push_locked_same w e tkey t front ordered ev :
  world_same w (fst (push_locked calloc w e tkey t front ordered ev)).
Proof.
  unfold push_locked. pose proof (push_tenant_same w tkey front) as H1.
  destruct (push_tenant _ _ _ _) as [[w1 tslot] over]. cbn [fst] in H1.
  destruct over; [cbn [fst]; etrans; [exact H1|apply push_settle_same]|].
  set (r := match ev with Some i => _ | None => _ end).
  assert (H2 : world_same w1 (fst r)).
  { unfold r. destruct ev as [i|]; [|done]. pose proof (evict_same w1 i t) as H. by destruct (fc_ring_evict _ _ _). }
  destruct r as [w2 gone]. cbn [fst] in H2. destruct (fc_ring_insert _ _ _ _ _) as [q slot]. cbn [fst].
  etrans; [exact H1|]. etrans; [exact H2|]. etrans; [|apply push_settle_same]. done.
Qed.
Lemma push_evicted_same w t gone : world_same w (push_evicted wake_hook w t gone).
Proof.
  unfold push_evicted. destruct gone as [[g enq]|]; [|done].
  etrans; [|apply call_wake_same]. split; [|done]. cbn [w_fc on_fc field_set].
  etrans; [|apply note_wait_units]. apply count_band_units.
Qed.

Lemma push_same w p fd gen t front :
  world_same w (fst (fst (fc_queue_push calloc wake_hook w p fd gen t front))).
Proof.
  unfold fc_queue_push. case_test; [done|]. destruct (push_times _ _ _) as [[ent ordered] kept].
  pose proof (bind_same w p) as H1. destruct (fc_permit_bind w p) as [w1 p1]. cbn [fst] in H1.
  destruct (if kept =? 0 then _ else _) as [win cut]. set (r := if _ && _ then _ else _).
  assert (H2 : world_same w1 (fst r)).
  { unfold r. destruct (_ && _); [apply push_locked_same|done]. }
  destruct r as [w2 r]. cbn [fst] in H2. set (w3 := if _ || _ then _ else w2).
  assert (H3 : world_same w2 w3) by (unfold w3; by destruct (_ || _)). clearbody w3.
  set (w4 := if bool_decide _ then _ else w3).
  assert (H4 : world_same w3 w4) by (unfold w4; by destruct (bool_decide _)). clearbody w4.
  pose proof (push_evicted_same w4 t (pr_gone r)) as H5. set (w5 := push_evicted _ _ _ _) in *. clearbody w5.
  assert (H : world_same w w5) by (do 4 (etrans; [eassumption|]); done).
  destruct (pr_slot r); cbn [fst].
  - destruct front; [done|]. etrans; [exact H|]. apply on_fc_same, count_band_units.
  - set (p2 := field_set p_q_ttl_cut _ _). clearbody p2.
    pose proof (bind_same w5 p2) as H6. destruct (fc_permit_bind w5 p2) as [w6 p6]. cbn [fst] in *.
    etrans; [exact H|]. etrans; [exact H6|]. apply on_fc_same, count_units.
Qed.
End wakes.
