(* ===== verification/FcWait.v ===== *)
(** * Capacity admission: what the wait queue keeps (src/common/sockproxy_fc.c)

    The invariant of a pool's queue, [pool_ok]: a well-formed ring, mirrors
    that publish its counts, an evicted list within its bound. Every operation
    on the queue keeps it, and the theorems say what each does to the line of
    waiters: parking, eviction for a higher band, a turn given and taken, a
    wake that could not be delivered, draining, and the deadline timer. *)

From stdpp Require Import base list gmap numbers sorting.
From S2P Require Import Prelude FcTypes FcRing FcTenant FcFloors FcQueue FcFrame.

(** ** The invariant *)

Definition published (fc : fc_state) : Prop :=
  s_queued fc = q_count (s_queue fc) ∧
  ∀ b, fc_band_counted b = true → aget (s_band_queued fc) b = aget (q_band_count (s_queue fc)) b.

Record pool_ok (fc : fc_state) : Prop := {
  pk_ring : ring_wf (s_queue fc);
  pk_pub : published fc;
  pk_evicted : zlen (q_evicted (s_queue fc)) ≤ FC_EVICT_PENDING
}.

(** The same without the mirrors: what holds under the lock. *)
Record ring_ok (fc : fc_state) : Prop := {
  rk_ring : ring_wf (s_queue fc);
  rk_evicted : zlen (q_evicted (s_queue fc)) ≤ FC_EVICT_PENDING
}.

Lemma pool_ring_ok fc : pool_ok fc → ring_ok fc.
Proof. by intros []. Qed.

Lemma publish_ok fc : ring_ok fc → pool_ok (fc_queue_publish fc).
Proof.
  intros []. split; [done| |done]. split; [done|]. intros b Hb. unfold fc_queue_publish. cbn.
  unfold fc_band_counted in Hb. apply orb_true_iff in Hb as [Hb|Hb]; zbool; subst; reflexivity.
Qed.

(** The parts of a pool its queue invariant reads. *)
Definition queue_view (fc : fc_state) := (s_queue fc, s_queued fc, s_band_queued fc).
Lemma pool_ok_view fc fc' : queue_view fc' = queue_view fc → pool_ok fc → pool_ok fc'.
Proof.
  unfold queue_view. intros [= Hq Hn Hb] [Hr [Hp1 Hp2] He].
  split; [by rewrite Hq|split; [congruence|]|by rewrite Hq]. intros b Hc. rewrite Hb, Hq. by apply Hp2.
Qed.
Lemma ring_ok_queue fc fc' : s_queue fc' = s_queue fc → ring_ok fc → ring_ok fc'.
Proof. intros Hq []. split; by rewrite Hq. Qed.
Lemma tenants_pool_ok fc fc' : tenants_only fc fc' → pool_ok fc → pool_ok fc'.
Proof. intros (H1 & H2 & H3 & _)%tenants_queue. apply pool_ok_view. unfold queue_view. congruence. Qed.
Lemma tenants_ring_ok fc fc' : tenants_only fc fc' → ring_ok fc → ring_ok fc'.
Proof. intros (H1 & _)%tenants_queue. by apply ring_ok_queue. Qed.

(** Fields of the queue outside the ring. *)
Lemma ring_wf_same q q' :
  q_ring q' = q_ring q → q_cap q' = q_cap q → q_head q' = q_head q → q_tail q' = q_tail q → q_used q' = q_used q →
  q_count q' = q_count q → q_band_count q' = q_band_count q → q_next_deadline_ns q' = q_next_deadline_ns q →
  ring_wf q → ring_wf q' ∧ ring_abs q' = ring_abs q.
Proof.
  intros Hr Hc Hh Ht Hu Hn Hb Hd Hwf. destruct (geom_same q q' Hr Hc Hh Ht Hu (rw_geom _ Hwf)) as [Hg Ha].
  split; [|done]. by apply (wf_of_abs q).
Qed.


(** ** Wakes *)

Lemma live_again e : e_live e = true → e <| e_live := true |> = e.
Proof. destruct e. cbn. by intros ->. Qed.

(** A pool whose ring was replaced. *)
Lemma put_queue_ok fc q :
  ring_ok fc → ring_wf q → q_evicted q = q_evicted (s_queue fc) → ring_ok (fc <| s_queue := q |>).
Proof. intros [_ He] Hw Hq. split; [done|]. cbn. by rewrite Hq. Qed.

Lemma popped_ok fc fc' e : ring_ok fc → popped fc fc' e → ring_ok fc'.
Proof. intros Hk (q' & l1 & l2 & -> & _ & _ & Hw & _ & _ & He & _). by apply put_queue_ok. Qed.

Lemma credits_ok fc fc' : ring_ok fc → credits_moved fc fc' → ring_ok fc' ∧ ring_abs (s_queue fc') = ring_abs (s_queue fc).
Proof.
  intros Hk [c ->]. split; [|done]. apply put_queue_ok; [done|by apply ring_wf_credits, Hk|done].
Qed.

Lemma undo_pick_same u q :
  ring_wf q → ring_wf (undo_pick u q) ∧ ring_abs (undo_pick u q) = ring_abs q ∧ q_evicted (undo_pick u q) = q_evicted q.
Proof.
  intros Hw. assert (ring_wf (undo_pick u q) ∧ ring_abs (undo_pick u q) = ring_abs q) as [? ?].
  { apply ring_wf_same; [..|done]; unfold undo_pick; by repeat case_test. }
  split_and!; [done|done|]. unfold undo_pick. by repeat case_test.
Qed.

Section wakes.
Context (calloc : Z → bool) (hook : option (list (Z * Z) → Z → Z → bool)).

(** What one attempt does to the line. *)
Inductive wake_line (fc : fc_state) (line line' : list fc_queue_ent) : bool → Prop :=
| wl_none : line' = line → wake_line fc line line' false
| wl_turn e l1 l2 :
    line = l1 ++ e :: l2 → runnable fc e = true → line' = l1 ++ l2 → wake_line fc line line' true
| wl_back e l1 l2 :
    line = l1 ++ e :: l2 → runnable fc e = true → line' = ins_front e (l1 ++ l2) → wake_line fc line line' false
| wl_lost e l1 l2 :
    line = l1 ++ e :: l2 → runnable fc e = true → line' = l1 ++ l2 → ¬ (∀ n, calloc n = true) → wake_line fc line line' false.

Lemma wake_head_spec w pend :
  pool_ok (w_fc w) →
  let r := fc_queue_wake_head calloc hook w pend in
  pool_ok (w_fc (fst (fst r))) ∧
  wake_line (w_fc w) (ring_abs (w_queue w)) (ring_abs (w_queue (fst (fst r)))) (snd r) ∧
  (snd r = true → ∃ e, w_wakes (fst (fst r)) = (e_fd e, e_gen e) :: w_wakes w) ∧
  (length (w_wakes w) ≤ length (w_wakes (fst (fst r))) ≤ S (length (w_wakes w)))%nat.
Proof using Type.
  intros Hok. cbn zeta. unfold fc_queue_wake_head.
  pose proof (pop_runnable_spec (w_fc w) pend (pk_ring _ Hok)) as Hp. cbn zeta in Hp.
  destruct (fc_ring_pop_runnable (w_fc w) pend) as [[fc1 pick] u]. cbn [fst snd] in Hp.
  pose proof (pool_ring_ok _ Hok) as Hrk. set (w1 := w <| w_fc := fc_queue_publish fc1 |>).
  destruct pick as [e|]; cbn [fst snd].
  2: { destruct (credits_ok _ _ Hrk (proj1 Hp)) as [Hk Ha]. split_and!; [by apply publish_ok|by apply wl_none|done|done|apply le_S, le_n]. }
  pose proof (popped_ok _ _ _ Hrk Hp) as Hk1. destruct Hp as (q1 & l1 & l2 & -> & Ha & Ha1 & Hw1 & Hc1 & _ & He1 & Hr).
  assert (Hlive : e_live e = true).
  { pose proof (abs_live (s_queue (w_fc w))) as Hl. rewrite Forall_forall in Hl. apply Hl. rewrite Ha. apply elem_of_app. right. by left. }
  pose proof (publish_ok _ Hk1) as Hok1. change (pool_ok (w_fc w1)) in Hok1. assert (Hq1 : w_queue w1 = q1) by done.
  assert (Hww : w_wakes w1 = w_wakes w) by done. clearbody w1.
  set (cw := call_wake hook w1 (e_fd e) (e_gen e)).
  assert (Hcw : w_fc (fst cw) = w_fc w1 ∧ (snd cw = true → w_wakes (fst cw) = (e_fd e, e_gen e) :: w_wakes w) ∧
    (length (w_wakes w) ≤ length (w_wakes (fst cw)) ≤ S (length (w_wakes w)))%nat).
  { unfold cw, call_wake. destruct hook; cbn; rewrite ?Hww; split_and!; try done; lia. }
  clearbody cw. destruct cw as [w2 delivered]. cbn [fst snd] in Hcw. destruct Hcw as (Hf2 & Hd & Hlen).
  assert (Hok2 : pool_ok (w_fc w2)) by (by rewrite Hf2).
  assert (Hq2 : w_queue w2 = q1) by (unfold w_queue in *; congruence).
  destruct delivered; cbn [negb].
  - destruct (dec_tenants w2 (e_tslot e) true) as (Ht & _ & _ & _ & _ & _ & Hwk).
    cbn [fst snd]. rewrite Hwk. split_and!; [by eapply tenants_pool_ok| |intros _; exists e; by apply Hd|lia|lia].
    destruct (tenants_queue _ _ Ht) as (Hq & _). unfold w_queue at 2. rewrite Hq. change (s_queue (w_fc w2)) with (w_queue w2).
    rewrite Hq2. by eapply wl_turn.
  - pose proof (insert_refines calloc q1 e true false Hw1) as Hi.
    pose proof (insert_succeeds calloc q1 e true false Hw1) as Hsucc.
    rewrite Hq2. destruct (fc_ring_insert calloc q1 e true false) as [q3 slot] eqn:Eins. cbn [fst snd] in Hi, Hsucc.
    destruct Hi as (Hw3 & (_ & _ & _ & He3) & Habs3).
    set (w3 := on_queue (fun _ => q3) w2).
    assert (Hk3 : ring_ok (w_fc w3)) by (split; [done|]; cbn; rewrite He3, He1; apply Hok).
    set (w4 := match slot with None => _ | Some _ => _ end).
    assert (H4 : ring_ok (w_fc w4) ∧ w_queue w4 = q3 ∧ w_wakes w4 = w_wakes w2).
    { unfold w4. destruct slot; [done|]. destruct (dec_tenants w3 (e_tslot e) true) as (Ht & _ & _ & _ & _ & _ & Hwk).
      destruct (tenants_queue _ _ Ht) as (Hq & _). split_and!; [by eapply tenants_ring_ok|exact Hq|by rewrite Hwk]. }
    clearbody w4. destruct H4 as ([Hw4 He4] & Hq4 & Hwk4). cbn [fst snd].
    destruct (undo_pick_same u (w_queue w4) Hw4) as (Hwu & Hau & Heu).
    set (w5 := on_fc fc_queue_publish (on_queue (undo_pick u) w4)).
    assert (H5 : pool_ok (w_fc w5) ∧ w_queue w5 = undo_pick u (w_queue w4) ∧ w_wakes w5 = w_wakes w2).
    { split_and!; [|done|exact Hwk4]. apply publish_ok. split; [exact Hwu|].
      change (zlen (q_evicted (undo_pick u (w_queue w4))) ≤ FC_EVICT_PENDING). by rewrite Heu. }
    clearbody w5. destruct H5 as (Hok5 & Hq5 & Hwk5). rewrite Hq5, Hwk5, Hau, Hq4.
    split_and!; [done| |done|lia|lia].
    destruct slot as [i|].
    + destruct Habs3 as [-> _]. rewrite (live_again e Hlive), Ha1. by eapply wl_back.
    + rewrite Habs3, Ha1. eapply wl_lost; [done..|].
      intros Hal. apply (is_Some_None (A := Z)), Hsucc; [|done]. rewrite (rw_count _ Hw1), Hc1, Ha1.
      pose proof (abs_le_used _ (rw_geom _ (pk_ring _ Hok))) as Hle. pose proof (rg_used _ (rw_geom _ (pk_ring _ Hok))).
      rewrite Ha, zlen_app, zlen_cons in Hle. rewrite zlen_app. lia.
Qed.

(** A hook that delivers on a pool without a share and without floors: every
    waiter can be taken. *)
Record open_pool (fc : fc_state) : Prop := {
  op_weights : weights_ok (s_cfg fc);
  op_floors : fc_floors_apply fc (fc_svc_cap fc) = false;
  op_share : fc_share_active fc = false
}.

Lemma open_pool_same fc fc' : units_same fc fc' → open_pool fc → open_pool fc'.
Proof using Type.
  intros (_ & _ & _ & Hc & He) [Hw Hf Hs]. assert (fc_svc_cap fc' = fc_svc_cap fc) as Hsv by (unfold fc_svc_cap; by rewrite Hc, He).
  split; [by rewrite Hc|by unfold fc_floors_apply in *; rewrite Hsv, Hc|by unfold fc_share_active in *; rewrite Hc].
Qed.

Lemma open_runnable fc e : open_pool fc → runnable fc e = true.
Proof using Type.
  intros [_ _ Hs]. unfold runnable, fc_tenant_svc_bound. rewrite Hs. cbn [negb]. unfold fc_tenant_can_run.
  cbn [Z.eqb]. by rewrite orb_true_r.
Qed.

Definition delivers : Prop := ∃ h, hook = Some h ∧ ∀ log fd gen, h log fd gen = true.

Lemma wake_head_progress w pend :
  delivers → pool_ok (w_fc w) → open_pool (w_fc w) → ring_abs (w_queue w) ≠ [] →
  snd (fc_queue_wake_head calloc hook w pend) = true.
Proof using Type.
  intros (h & Hh & Hd) Hok Hop Hne. unfold fc_queue_wake_head.
  pose proof (pop_runnable_spec (w_fc w) pend (pk_ring _ Hok)) as Hp. cbn zeta in Hp.
  destruct (fc_ring_pop_runnable (w_fc w) pend) as [[fc1 [e|]] u]; cbn [fst snd] in Hp.
  - unfold call_wake. rewrite Hh. cbn zeta. rewrite Hd. reflexivity.
  - destruct Hp as [_ Hp]. destruct (ring_abs (w_queue w)) as [|e l] eqn:E; [done|]. exfalso.
    assert (runnable (w_fc w) e = false) as Hr; [|by rewrite open_runnable in Hr].
    apply Hp; [apply Hop|apply Hop|]. change (s_queue (w_fc w)) with (w_queue w). rewrite E. by left.
Qed.

Lemma turn_shorter fc l l' : wake_line fc l l' true → zlen l' = zlen l - 1.
Proof using Type. inversion 1; subst. rewrite !zlen_app, zlen_cons. lia. Qed.

Lemma wake_turns_spec n w pend :
  pool_ok (w_fc w) →
  let w' := wake_turns calloc hook n w pend in
  pool_ok (w_fc w') ∧ zlen (w_wakes w) ≤ zlen (w_wakes w') ≤ zlen (w_wakes w) + Z.of_nat n.
Proof using Type.
  revert w pend. induction n as [|n IH]; intros w pend Hok; cbn [wake_turns]; [split; [done|lia]|].
  destruct (wake_head_spec w pend Hok) as (Hok1 & _ & _ & Hl). destruct (fc_queue_wake_head _ _ _ _) as [[w1 pd] more].
  cbn [fst snd] in *. destruct more; [|split; [done|unfold zlen; lia]].
  destruct (IH w1 pd Hok1) as [Hok2 Hl2]. split; [done|]. unfold zlen in *. lia.
Qed.

Lemma wake_turns_all n w pend :
  delivers → pool_ok (w_fc w) → open_pool (w_fc w) → Z.of_nat n ≤ zlen (ring_abs (w_queue w)) →
  let w' := wake_turns calloc hook n w pend in
  zlen (ring_abs (w_queue w')) = zlen (ring_abs (w_queue w)) - Z.of_nat n ∧
  zlen (w_wakes w') = zlen (w_wakes w) + Z.of_nat n.
Proof using Type.
  intros Hd. revert w pend. induction n as [|n IH]; intros w pend Hok Hop Hn; cbn [wake_turns]; [lia|].
  destruct (wake_head_spec w pend Hok) as (Hok1 & Hl & Hwk & _).
  pose proof (wake_head_same calloc hook w pend) as Hs.
  pose proof (wake_head_progress w pend Hd Hok Hop) as Hm.
  destruct (fc_queue_wake_head calloc hook w pend) as [[w1 pd] more]. cbn [fst snd] in *.
  assert (more = true) as -> by (apply Hm; intros E; rewrite E in Hn; unfold zlen in Hn; cbn [length] in Hn; lia).
  apply turn_shorter in Hl. destruct (Hwk eq_refl) as [e Hw1].
  destruct (IH w1 pd) as [H1 H2]; [done|by eapply open_pool_same, Hop; apply Hs|lia|].
  rewrite H1, H2, Hw1, zlen_cons. lia.
Qed.
End wakes.

(** ** Eviction *)

Lemma evict_walk_spec q k :
  ring_geom q → (k ≤ Z.to_nat (q_used q))%nat →
  let shed i := e_live (zget (q_ring q) i) && (e_band (zget (q_ring q) i) =? FC_BAND_SHEDDABLE) in
  match evict_walk q k (ring_pos (q_cap q) (q_head q) (pred k)) with
  | Some i => ∃ j, (j < k)%nat ∧ i = ring_pos (q_cap q) (q_head q) j ∧ shed i = true ∧
      ∀ m, (j < m < k)%nat → shed (ring_pos (q_cap q) (q_head q) m) = false
  | None => ∀ m, (m < k)%nat → shed (ring_pos (q_cap q) (q_head q) m) = false
  end.
Proof.
  intros Hg Hk shed. pose proof Hg as [_ _ [Hh0 Hh] Hu _ _]. induction k as [|k IH]; cbn [evict_walk pred]; [lia|].
  set (pos := ring_pos (q_cap q) (q_head q)) in *.
  change (e_live (zget (q_ring q) (pos k)) && (e_band (zget (q_ring q) (pos k)) =? FC_BAND_SHEDDABLE)) with (shed (pos k)).
  destruct (shed (pos k)) eqn:E.
  { exists k. split_and!; [lia|done|done|]. intros m Hm. lia. }
  destruct k as [|k].
  { cbn [evict_walk]. intros m Hm. by replace m with 0%nat by lia. }
  assert ((if pos (S k) =? 0 then q_cap q - 1 else pos (S k) - 1) = pos (pred (S k))) as ->.
  { cbn [pred]. apply ring_pos_pred; [|lia]. split; [lia|]. apply Hh. lia. }
  specialize (IH ltac:(lia)). destruct (evict_walk q (S k) (pos (pred (S k)))) as [i|].
  - destruct IH as (j & Hj & Hi & Hs & Hm). exists j. split_and!; [lia|done|done|]. intros m Hmm.
    destruct (decide (m = S k)) as [->|]; [done|]. apply Hm. lia.
  - intros m Hm. destruct (decide (m = S k)) as [->|]; [done|]. apply IH. lia.
Qed.

(** The youngest sheddable waiter: one that no sheddable waiter is behind of. *)
Definition youngest_shed (l l1 : list fc_queue_ent) (e : fc_queue_ent) (l2 : list fc_queue_ent) : Prop :=
  l = l1 ++ e :: l2 ∧ e_band e = FC_BAND_SHEDDABLE ∧ ∀ x, x ∈ l2 → e_band x ≠ FC_BAND_SHEDDABLE.

Definition may_evict (fc : fc_state) (band : Z) : bool :=
  c_shed_queue (s_cfg fc) && negb (fc_band_of band =? FC_BAND_SHEDDABLE)
  && (zlen (q_evicted (s_queue fc)) <? FC_EVICT_PENDING).

Lemma evict_pick_walk fc band :
  ring_wf (s_queue fc) →
  let q := s_queue fc in
  let shed i := e_live (zget (q_ring q) i) && (e_band (zget (q_ring q) i) =? FC_BAND_SHEDDABLE) in
  match fc_ring_evict_pick fc band with
  | Some i => may_evict fc band = true ∧ ∃ s1 s2, ring_walk q = s1 ++ i :: s2 ∧ shed i = true ∧ ∀ j, j ∈ s2 → shed j = false
  | None => may_evict fc band = true → ∀ e, e ∈ ring_abs q → e_band e ≠ FC_BAND_SHEDDABLE
  end.
Proof.
  intros Hwf. cbn zeta. unfold fc_ring_evict_pick, may_evict. set (q := s_queue fc) in *. pose proof (rw_geom _ Hwf) as Hg.
  destruct (c_shed_queue (s_cfg fc)); cbn [negb orb andb]; [|done].
  destruct (fc_band_of band =? FC_BAND_SHEDDABLE); cbn [negb orb andb]; [done|].
  rewrite (rw_bands q Hwf FC_BAND_SHEDDABLE eq_refl).
  destruct (zcount _ (ring_abs q) =? 0) eqn:Ec; cbn [orb].
  { intros _ e He Hs. zbool. pose proof (zcount_pos (fun e => e_band e =? FC_BAND_SHEDDABLE) _ _ He (proj2 (Z.eqb_eq _ _) Hs)). lia. }
  rewrite Z.geb_leb. destruct (FC_EVICT_PENDING <=? zlen (q_evicted q)) eqn:Ev; cbn [orb]; zbool.
  { intros Hlt. zbool. lia. }
  assert ((zlen (q_evicted q) <? FC_EVICT_PENDING) = true) as -> by (apply Z.ltb_lt; lia).
  assert (0 < q_used q) as Hu.
  { pose proof (abs_le_used q Hg). pose proof (zcount_bounds (fun e => e_band e =? FC_BAND_SHEDDABLE) (ring_abs q)). lia. }
  rewrite (proj2 (Z.eqb_neq _ 0)) by lia.
  pose proof Hg as [_ _ [Hh0 Hh] Hu' _ _].
  assert (fc_ring_wrap q (q_head q + q_used q - 1) = ring_pos (q_cap q) (q_head q) (pred (Z.to_nat (q_used q)))) as ->.
  { unfold fc_ring_wrap, ring_pos. replace (q_head q + Z.of_nat (pred (Z.to_nat (q_used q)))) with (q_head q + q_used q - 1) by lia. done. }
  pose proof (evict_walk_spec q (Z.to_nat (q_used q)) Hg ltac:(lia)) as Hs. cbn zeta in Hs.
  destruct (evict_walk _ _ _) as [i|].
  - destruct Hs as (j & Hj & -> & Hsh & Hy). split; [done|]. rewrite ring_walk_pos by done.
    exists (ring_pos (q_cap q) (q_head q) <$> seq 0 j), (ring_pos (q_cap q) (q_head q) <$> seq (S j) (Z.to_nat (q_used q) - S j)).
    split_and!; [|done|].
    + rewrite <- fmap_cons, <- fmap_app. f_equal.
      replace (Z.to_nat (q_used q)) with (j + S (Z.to_nat (q_used q) - S j))%nat at 1 by lia. by rewrite seq_app.
    + intros x (m & -> & Hm)%list_elem_of_fmap. apply elem_of_seq in Hm. apply Hy. lia.
  - exfalso. destruct (zcount_exists (fun e => e_band e =? FC_BAND_SHEDDABLE) (ring_abs q)) as (e & He & Heb).
    { pose proof (zcount_bounds (fun e => e_band e =? FC_BAND_SHEDDABLE) (ring_abs q)). lia. }
    apply abs_of_walk in He as (i & Hi & -> & Hl); [|done]. rewrite ring_walk_pos in Hi by done.
    apply list_elem_of_fmap in Hi as (m & -> & Hm). apply elem_of_seq in Hm. specialize (Hs m ltac:(lia)).
    rewrite Hl, Heb in Hs. done.
Qed.

(** Taking the picked waiter out. *)
Lemma evict_pick_spec fc band :
  ring_wf (s_queue fc) →
  match fc_ring_evict_pick fc band with
  | Some i => may_evict fc band = true ∧ i ∈ ring_walk (s_queue fc) ∧ e_live (zget (q_ring (s_queue fc)) i) = true ∧
      ∃ l1 l2, youngest_shed (ring_abs (s_queue fc)) l1 (zget (q_ring (s_queue fc)) i) l2 ∧
        ring_abs (fst (fc_ring_take_at (s_queue fc) i)) = l1 ++ l2
  | None => may_evict fc band = true → ∀ e, e ∈ ring_abs (s_queue fc) → e_band e ≠ FC_BAND_SHEDDABLE
  end.
Proof.
  intros Hwf. pose proof (evict_pick_walk fc band Hwf) as H. cbn zeta in H.
  destruct (fc_ring_evict_pick fc band) as [i|]; [|exact H]. destruct H as (Hm & s1 & s2 & Hw & Hs & Hy).
  apply andb_true_iff in Hs as [Hl Hb]. zbool.
  destruct (take_at_walk _ s1 i s2 Hwf Hw Hl) as (Ha & _ & Ha' & _). split_and!; [done| |done|].
  { rewrite Hw. apply elem_of_app. right. by left. }
  exists (live_at (s_queue fc) s1), (live_at (s_queue fc) s2). split_and!; [|exact Ha']. split_and!; [done|done|].
  intros x Hx Hxb. apply list_elem_of_In, List.filter_In in Hx as [Hx Lx].
  apply list_elem_of_In, list_elem_of_fmap in Hx as (j & -> & Hj). specialize (Hy j Hj). rewrite Lx, Hxb in Hy. done.
Qed.

(** ** Parking *)

Lemma count_band_view r b fc : queue_view (fc_count_band r b fc) = queue_view fc.
Proof. unfold fc_count_band. by repeat case_test. Qed.
Lemma note_wait_view n fc : queue_view (fc_note_wait n fc) = queue_view fc.
Proof. done. Qed.
Lemma view_queue fc fc' : queue_view fc' = queue_view fc → s_queue fc' = s_queue fc.
Proof. unfold queue_view. by intros [=]. Qed.

(** What the mirrors show, with the configuration. *)
Definition mirrors (fc : fc_state) := (s_cfg fc, s_queued fc, s_band_queued fc).
Lemma tenants_mirrors fc fc' : tenants_only fc fc' → s_queue fc' = s_queue fc ∧ mirrors fc' = mirrors fc.
Proof. intros (? & ? & ? & ? & ?)%tenants_queue. unfold mirrors. split; congruence. Qed.

Lemma pool_ok_abs fc fc' :
  pool_ok fc → ring_ok fc' → mirrors fc' = mirrors fc → ring_abs (s_queue fc') = ring_abs (s_queue fc) → pool_ok fc'.
Proof.
  unfold mirrors. intros [Hr [Hp1 Hp2] _] [Hr' He'] [= _ Hq Hb] Ha. split; [done| |done]. split.
  - by rewrite Hq, (rw_count _ Hr'), Ha, Hp1, (rw_count _ Hr).
  - intros b Hc. by rewrite Hb, (rw_bands _ Hr' b Hc), Ha, (Hp2 b Hc), (rw_bands _ Hr b Hc).
Qed.

Lemma ring_take_tenant_spec w i :
  ring_ok (w_fc w) → i ∈ ring_walk (w_queue w) → e_live (zget (q_ring (w_queue w)) i) = true →
  let w' := fst (ring_take_tenant w i) in
  ring_ok (w_fc w') ∧ w_queue w' = fst (fc_ring_take_at (w_queue w) i) ∧
  snd (ring_take_tenant w i) = zget (q_ring (w_queue w)) i ∧ w_wakes w' = w_wakes w ∧ mirrors (w_fc w') = mirrors (w_fc w).
Proof.
  intros Hk Hi Hl. cbn zeta. unfold ring_take_tenant.
  destruct (take_in_walk (w_queue w) i (rk_ring _ Hk) Hi Hl) as (l1 & l2 & _ & _ & Hw & (_ & _ & _ & He) & _).
  assert (snd (fc_ring_take_at (w_queue w) i) = zget (q_ring (w_queue w)) i) as Hs by done.
  destruct (fc_ring_take_at (w_queue w) i) as [q e]. cbn [fst snd] in *.
  destruct (dec_tenants (on_queue (fun _ => q) w) (e_tslot e) true) as (Ht & _ & _ & _ & _ & _ & Hwk).
  destruct (tenants_mirrors _ _ Ht) as (Hq & Hc).
  split_and!; [|exact Hq|done|done|by rewrite Hc]. eapply tenants_ring_ok; [exact Ht|]. split; [done|].
  cbn. rewrite He. apply Hk.
Qed.

Lemma ring_evict_spec w i t :
  ring_ok (w_fc w) → zlen (q_evicted (w_queue w)) < FC_EVICT_PENDING →
  i ∈ ring_walk (w_queue w) → e_live (zget (q_ring (w_queue w)) i) = true →
  let v := zget (q_ring (w_queue w)) i in
  let w' := fst (fc_ring_evict w i t) in
  ring_ok (w_fc w') ∧ ring_abs (w_queue w') = ring_abs (fst (fc_ring_take_at (w_queue w) i)) ∧
  snd (fc_ring_evict w i t) = mk_fc_evicted (e_fd v) (e_gen v) t ∧
  q_evicted (w_queue w') = q_evicted (w_queue w) ++ [mk_fc_evicted (e_fd v) (e_gen v) t] ∧
  mirrors (w_fc w') = mirrors (w_fc w) ∧ q_cap (w_queue w') = q_cap (w_queue w).
Proof.
  intros Hk Hn Hi Hl. cbn zeta. unfold fc_ring_evict.
  destruct (ring_take_tenant_spec w i Hk Hi Hl) as (Hk1 & Hq1 & He & _ & Hc).
  destruct (take_in_walk (w_queue w) i (rk_ring _ Hk) Hi Hl) as (l1 & l2 & _ & _ & _ & (_ & _ & _ & Hev) & Hcap).
  destruct (ring_take_tenant w i) as [w1 e]. cbn [fst snd] in *. subst e.
  rewrite <- Hq1 in Hev, Hcap.
  destruct (ring_wf_same (w_queue w1) ((w_queue w1) <| q_evicted ::= (fun l => l ++ [mk_fc_evicted (e_fd (zget (q_ring (w_queue w)) i))
    (e_gen (zget (q_ring (w_queue w)) i)) t]) |>)) as [Hw Ha]; [done..|apply Hk1|].
  split_and!; [split; [exact Hw|]|by rewrite <- Hq1|done|by cbn; change (s_queue (w_fc w1)) with (w_queue w1); rewrite Hev|done|done].
  cbn. change (s_queue (w_fc w1)) with (w_queue w1). rewrite Hev, zlen_app.
  change (zlen [_]) with 1. lia.
Qed.

(** A ring with an entry taken out has room. *)
Lemma take_leaves_room q i :
  ring_wf q → i ∈ ring_walk q → e_live (zget (q_ring q) i) = true → zlen (ring_abs (fst (fc_ring_take_at q i))) < q_cap q.
Proof.
  intros Hwf Hi Hl. destruct (take_in_walk q i Hwf Hi Hl) as (l1 & l2 & Ha & -> & _).
  pose proof (abs_le_used q (rw_geom _ Hwf)) as Hle. pose proof (rg_used _ (rw_geom _ Hwf)).
  rewrite Ha, zlen_app, zlen_cons in Hle. rewrite zlen_app. lia.
Qed.

Section park.
Context (calloc : Z → bool) (hook : option (list (Z * Z) → Z → Z → bool)).

Lemma push_tenant_spec w tkey front : world_tenants w (fst (fst (push_tenant calloc w tkey front))).
Proof using Type.
  unfold push_tenant. case_test; [|done]. pose proof (get_tenants calloc w tkey false) as H.
  by destruct (fc_tenant_get _ _ _ _).
Qed.

Lemma push_settle_spec w tslot ok : world_tenants w (push_settle w tslot ok).
Proof using Type.
  unfold push_settle. repeat case_test; [| |done]; (split; [|done]); cbn [w_fc on_fc field_set].
  - etrans; [|apply mark_tenants]. done.
  - apply put_tenants.
Qed.

(** The line after a push under the lock, given whom it may evict. *)
Inductive locked_line (w : world) (e : fc_queue_ent) (front ordered : bool) (t : Z) (ev : option Z)
    (w' : world) : push_result → Prop :=
| ll_share : w_queue w' = w_queue w → locked_line w e front ordered t ev w' (mk_push_result None true None)
| ll_plain e' slot :
    ev = None → e' = e <| e_tslot := e_tslot e' |> <| e_live := true |> →
    ring_abs (w_queue w') = abs_insert front ordered e' (ring_abs (w_queue w)) →
    0 ≤ slot → zget (q_ring (w_queue w')) slot = e' → slot < q_cap (w_queue w') →
    q_evicted (w_queue w') = q_evicted (w_queue w) →
    locked_line w e front ordered t ev w' (mk_push_result (Some slot) false None)
| ll_evict i e' slot v gone enq :
    ev = Some i → v = zget (q_ring (w_queue w)) i → gone = mk_fc_evicted (e_fd v) (e_gen v) t →
    e' = e <| e_tslot := e_tslot e' |> <| e_live := true |> →
    ring_abs (w_queue w') = abs_insert front ordered e' (ring_abs (fst (fc_ring_take_at (w_queue w) i))) →
    0 ≤ slot → zget (q_ring (w_queue w')) slot = e' → slot < q_cap (w_queue w') →
    q_evicted (w_queue w') = q_evicted (w_queue w) ++ [gone] →
    locked_line w e front ordered t ev w' (mk_push_result (Some slot) false (Some (gone, enq)))
| ll_full gone :
    ring_abs (w_queue w') =
      match ev with Some i => ring_abs (fst (fc_ring_take_at (w_queue w) i)) | None => ring_abs (w_queue w) end →
    (ev = None ↔ gone = None) → (ev ≠ None → ¬ (∀ n, calloc n = true)) →
    locked_line w e front ordered t ev w' (mk_push_result None false gone).

Lemma push_locked_spec w e tkey t front ordered ev :
  ring_ok (w_fc w) →
  (∀ i, ev = Some i → zlen (q_evicted (w_queue w)) < FC_EVICT_PENDING ∧
        i ∈ ring_walk (w_queue w) ∧ e_live (zget (q_ring (w_queue w)) i) = true) →
  let r := push_locked calloc w e tkey t front ordered ev in
  ring_ok (w_fc (fst r)) ∧ mirrors (w_fc (fst r)) = mirrors (w_fc w) ∧ locked_line w e front ordered t ev (fst r) (snd r).
Proof using Type.
  intros Hk Hev. cbn zeta. unfold push_locked. pose proof (push_tenant_spec w tkey front) as (H1 & _).
  destruct (push_tenant calloc w tkey front) as [[w1 tslot] over]. cbn [fst] in H1.
  destruct (tenants_mirrors _ _ H1) as (Hq1 & Hc1). change (w_queue w1 = w_queue w) in Hq1.
  assert (Hk1 : ring_ok (w_fc w1)) by (by eapply tenants_ring_ok).
  destruct over; cbn [fst snd].
  { destruct (push_settle_spec w1 tslot false) as (H2 & _). destruct (tenants_mirrors _ _ H2) as (Hq2 & Hc2).
    split_and!; [by eapply tenants_ring_ok|congruence|]. apply ll_share. unfold w_queue in *. congruence. }
  set (e1 := e <| e_tslot := tslot |>).
  set (b := match ev with Some i => _ | None => (w1, None) end).
  assert (Hb : ring_ok (w_fc (fst b)) ∧ mirrors (w_fc (fst b)) = mirrors (w_fc w) ∧
    match ev with
    | Some i => ring_abs (w_queue (fst b)) = ring_abs (fst (fc_ring_take_at (w_queue w) i)) ∧
        q_cap (w_queue (fst b)) = q_cap (w_queue w) ∧
        ∃ gone enq, snd b = Some (gone, enq) ∧
          gone = mk_fc_evicted (e_fd (zget (q_ring (w_queue w)) i)) (e_gen (zget (q_ring (w_queue w)) i)) t ∧
          q_evicted (w_queue (fst b)) = q_evicted (w_queue w) ++ [gone]
    | None => w_queue (fst b) = w_queue w ∧ snd b = None
    end).
  { unfold b. destruct ev as [i|]; [|by split_and!]. destruct (Hev i eq_refl) as (Hn & Hi & Hl). rewrite <- Hq1 in Hn, Hi, Hl.
    destruct (ring_evict_spec w1 i t Hk1 Hn Hi Hl) as (Hk2 & Ha2 & Hg2 & He2 & Hc2 & Hcap2).
    destruct (fc_ring_evict w1 i t) as [w2 g]. cbn [fst snd] in *. rewrite Hq1 in *.
    split_and!; [done|congruence|done|done|]. exists g, (e_enqueue_ns (zget (q_ring (w_queue w)) i)).
    split_and!; [done|done|by rewrite Hg2]. }
  clearbody b. destruct b as [w2 gone]. cbn [fst snd] in Hb. destruct Hb as (Hk2 & Hc2 & Hb).
  pose proof (insert_refines calloc (w_queue w2) e1 front ordered (rk_ring _ Hk2)) as Hi.
  pose proof (insert_succeeds calloc (w_queue w2) e1 front ordered (rk_ring _ Hk2)) as Hroom.
  destruct (fc_ring_insert calloc (w_queue w2) e1 front ordered) as [q slot]. cbn [fst snd] in Hi, Hroom.
  destruct Hi as (Hw3 & (_ & _ & _ & He3) & Hi).
  set (w3 := on_queue (fun _ => q) w2). set (ins := bool_decide (is_Some slot)).
  assert (Hk3 : ring_ok (w_fc w3)) by (split; [done|]; cbn; rewrite He3; apply Hk2).
  destruct (push_settle_spec w3 tslot ins) as (H4 & _). destruct (tenants_mirrors _ _ H4) as (Hq4 & Hc4).
  change (w_queue (push_settle w3 tslot ins) = q) in Hq4.
  cbn [fst snd]. split_and!; [by eapply tenants_ring_ok|by rewrite Hc4|]. clearbody ins. destruct slot as [s|].
  - destruct Hi as (Ha & Hs & Hz). destruct ev as [i|].
    + destruct Hb as (Hb1 & _ & g & enq & -> & Hg & Hb3).
      apply (ll_evict _ _ _ _ _ _ _ i (e1 <| e_live := true |>) s (zget (q_ring (w_queue w)) i)); rewrite ?Hq4; try done; try lia.
      * rewrite Ha. by rewrite Hb1.
      * by rewrite He3, Hb3.
    + destruct Hb as (Hb1 & ->).
      apply (ll_plain _ _ _ _ _ _ _ (e1 <| e_live := true |>) s); rewrite ?Hq4; try done; try lia.
      * rewrite Ha. by rewrite Hb1.
      * by rewrite He3, Hb1.
  - apply ll_full; rewrite ?Hq4.
    + rewrite Hi. destruct ev; [apply Hb|]. by destruct Hb as [-> _].
    + destruct ev; [|by destruct Hb as [_ ->]]. destruct Hb as (_ & _ & ? & ? & -> & _). by split.
    + intros Hne Hal. destruct ev as [i|]; [|done]. destruct Hb as (Hb1 & Hb2 & _). destruct (Hev i eq_refl) as (_ & Hi' & Hl').
      apply (is_Some_None (A := Z)), Hroom; [|done]. pose proof (rw_count _ (rk_ring _ Hk2)) as Hn. change (s_queue (w_fc w2)) with (w_queue w2) in Hn. rewrite Hn, Hb1, Hb2.
      by apply take_leaves_room; [apply Hk|..].
Qed.
End park.

(** ** The outcome of a push *)

(** The entry a push makes. *)
Definition push_entry (fd gen band ent_ns deadline tslot : Z) : fc_queue_ent :=
  mk_fc_queue_ent fd true band tslot gen ent_ns deadline.

(** Who makes room: nobody, or the youngest sheddable waiter for a higher band
    at the queue's depth. *)
Inductive room_made (w : world) (band : Z) (base : list fc_queue_ent) : Prop :=
| rm_free : base = ring_abs (w_queue w) → room_made w band base
| rm_evict l1 v l2 :
    youngest_shed (ring_abs (w_queue w)) l1 v l2 → base = l1 ++ l2 → may_evict (w_fc w) band = true →
    c_max_queue_depth (w_cfg w) ≤ zlen (ring_abs (w_queue w)) → room_made w band base.

(** A request that was parked. *)
Record parked_ok (w : world) (p : fc_permit) (fd gen now : Z) (front : bool) (w' : world) (p' : fc_permit) : Prop := {
  pa_state : p_state p' = FC_P_QUEUED;
  pa_key : p_q_fd p' = fd ∧ p_q_gen p' = gen ∧ p_band p' = p_band p;
  pa_times : let '(ent, _, kept) := push_times p now front in
    p_q_enqueue_ns p' = ent ∧
    p_q_deadline_ns p' =
      if kept =? 0
      then u64 (ent + fst (park_window (w_fc w) (p_band p) (p_q_ttl_ms p) (if front then p_q_ttl_cut p else false)) * 1000000)
      else kept;
  pa_slot : 0 ≤ p_q_slot p' < q_cap (w_queue w');
  pa_line : ∃ tslot base,
    let e := push_entry fd gen (p_band p) (p_q_enqueue_ns p') (p_q_deadline_ns p') tslot in
    room_made w (p_band p) base ∧
    ring_abs (w_queue w') = abs_insert front (snd (fst (push_times p now front))) e base ∧
    zget (q_ring (w_queue w')) (p_q_slot p') = e;
  pa_depth : front = false → zlen (ring_abs (w_queue w')) ≤ Z.max (zlen (ring_abs (w_queue w))) (c_max_queue_depth (w_cfg w))
}.

(** A request that was refused: nobody lost a place, unless memory ran out
    between the eviction and the insertion. *)
Definition refused_ok (calloc : Z → bool) (w w' : world) (p' : fc_permit) : Prop :=
  p_state p' = FC_P_NONE ∧
  (ring_abs (w_queue w') = ring_abs (w_queue w) ∨ ¬ (∀ n, calloc n = true)).

Section push.
Context (calloc : Z → bool) (hook : option (list (Z * Z) → Z → Z → bool)).

Lemma push_evicted_view w t gone : queue_view (w_fc (push_evicted hook w t gone)) = queue_view (w_fc w).
Proof using Type.
  unfold push_evicted. destruct gone as [[g enq]|]; [|done]. unfold call_wake.
  destruct hook; cbn [fst w_fc on_fc field_set]; rewrite ?note_wait_view; apply count_band_view.
Qed.

(** What follows the locked part: the mirrors, the timer, the answers. *)
Lemma push_publish w w1 b : pool_ok (w_fc w) → ring_ok (w_fc w1) →
  (b = false → w_queue w1 = w_queue w ∧ queue_view (w_fc w1) = queue_view (w_fc w)) →
  pool_ok (w_fc (if b : bool then on_fc fc_queue_publish w1 else w1)).
Proof using Type.
  intros Hok Hk Hv. destruct b; [by apply publish_ok|]. destruct (Hv eq_refl) as [_ H]. by eapply pool_ok_view.
Qed.

(** The line of a push that was let in, from what happened under the lock. *)
Lemma abs_insert_len front ordered e l : zlen (abs_insert front ordered e l) = zlen l + 1.
Proof using Type. rewrite (zlen_perm _ _ (abs_insert_perm _ _ _ _)), zlen_cons. lia. Qed.

Lemma youngest_len l l1 e l2 : youngest_shed l l1 e l2 → zlen (l1 ++ l2) = zlen l - 1.
Proof using Type. intros [-> _]. rewrite !zlen_app, zlen_cons. lia. Qed.

(** Whom a push may evict. *)
Definition push_evicts (w : world) (band : Z) (front open : bool) (deadline now : Z) : option Z :=
  if negb front && open && (q_count (w_queue w) >=? c_max_queue_depth (w_cfg w)) && (deadline >? now)
  then fc_ring_evict_pick (w_fc w) band else None.

Lemma push_evicts_spec w band front open deadline now i :
  ring_ok (w_fc w) → push_evicts w band front open deadline now = Some i →
  front = false ∧ c_max_queue_depth (w_cfg w) ≤ zlen (ring_abs (w_queue w)) ∧ may_evict (w_fc w) band = true ∧
  zlen (q_evicted (w_queue w)) < FC_EVICT_PENDING ∧ i ∈ ring_walk (w_queue w) ∧
  e_live (zget (q_ring (w_queue w)) i) = true ∧
  ∃ l1 l2, youngest_shed (ring_abs (w_queue w)) l1 (zget (q_ring (w_queue w)) i) l2 ∧
    ring_abs (fst (fc_ring_take_at (w_queue w) i)) = l1 ++ l2.
Proof using Type.
  intros Hk He. unfold push_evicts in He. destruct (_ && _) eqn:Ec; [|done]. zbool.
  pose proof (evict_pick_spec (w_fc w) band (rk_ring _ Hk)) as Hpk. rewrite He in Hpk. destruct Hpk as (Hm & Hi & Hl & Hy).
  pose proof (rw_count _ (rk_ring _ Hk)) as Hn. change (s_queue (w_fc w)) with (w_queue w) in *.
  pose proof Hm as Hm'. unfold may_evict in Hm'. zbool. split_and!; try done; lia.
Qed.

Lemma locked_parked w e front ordered t open w' r :
  let band := e_band e in
  let ev := push_evicts w band front open (e_deadline_ns e) t in
  ring_ok (w_fc w) → locked_line calloc w e front ordered t ev w' r →
  (front || negb (q_count (w_queue w) >=? c_max_queue_depth (w_cfg w)) || bool_decide (is_Some ev)) = true →
  match pr_slot r with
  | Some slot => 0 ≤ slot < q_cap (w_queue w') ∧
      (∃ e' base, e' = e <| e_tslot := e_tslot e' |> <| e_live := true |> ∧ room_made w band base ∧
         ring_abs (w_queue w') = abs_insert front ordered e' base ∧ zget (q_ring (w_queue w')) slot = e') ∧
      (front = false → zlen (ring_abs (w_queue w')) ≤ Z.max (zlen (ring_abs (w_queue w))) (c_max_queue_depth (w_cfg w)))
  | None => ring_abs (w_queue w') = ring_abs (w_queue w) ∨ ¬ (∀ n, calloc n = true)
  end.
Proof using Type.
  cbn zeta. intros Hk Hl Hc. pose proof (rw_count _ (rk_ring _ Hk)) as Hn. change (s_queue (w_fc w)) with (w_queue w) in Hn.
  destruct Hl as [Hq|e' slot Hev He Ha H0 Hz Hs _|i e' slot v gone enq Hev Hv Hg He Ha H0 Hz Hs _|gone Ha _ Hm]; cbn [pr_slot].
  - left. by rewrite Hq.
  - split_and!; [done|done| |].
    + exists e', (ring_abs (w_queue w)). split_and!; [done|by apply rm_free|done|done].
    + intros ->. rewrite Ha, abs_insert_len. rewrite Hev in Hc. cbn [orb] in Hc.
      rewrite bool_decide_false, orb_false_r in Hc by apply is_Some_None. zbool. lia.
  - apply push_evicts_spec in Hev as (Hf & Hd & Hm & _ & _ & _ & l1 & l2 & Hy & Ht); [|done].
    split_and!; [done|done| |].
    + exists e', (l1 ++ l2). split_and!; [done|by eapply rm_evict|by rewrite Ha, Ht|done].
    + intros _. rewrite Ha, abs_insert_len, Ht, (youngest_len _ _ _ _ Hy). lia.
  - destruct (push_evicts _ _ _ _ _ _); [right; by apply Hm|by left].
Qed.
End push.

Section push_outcome.
Context (calloc : Z → bool) (hook : option (list (Z * Z) → Z → Z → bool)).

(** The locked part of a push, whether it was let in or not. *)
Lemma push_inner w e tkey front ordered t open full r :
  let ev := push_evicts w (e_band e) front open (e_deadline_ns e) t in
  let fits := front || negb (q_count (w_queue w) >=? c_max_queue_depth (w_cfg w)) || bool_decide (is_Some ev) in
  pool_ok (w_fc w) →
  r = (if negb full && open && fits then push_locked calloc w e tkey t front ordered ev
       else (w, mk_push_result None false None)) →
  pool_ok (w_fc (if bool_decide (is_Some (pr_slot (snd r))) || bool_decide (is_Some (pr_gone (snd r)))
                 then on_fc fc_queue_publish (fst r) else fst r)) ∧
  match pr_slot (snd r) with
  | Some slot => 0 ≤ slot < q_cap (w_queue (fst r)) ∧
      (∃ e' base, e' = e <| e_tslot := e_tslot e' |> <| e_live := true |> ∧ room_made w (e_band e) base ∧
         ring_abs (w_queue (fst r)) = abs_insert front ordered e' base ∧ zget (q_ring (w_queue (fst r))) slot = e') ∧
      (front = false → zlen (ring_abs (w_queue (fst r))) ≤ Z.max (zlen (ring_abs (w_queue w))) (c_max_queue_depth (w_cfg w)))
  | None => ring_abs (w_queue (fst r)) = ring_abs (w_queue w) ∨ ¬ (∀ n, calloc n = true)
  end.
Proof using Type.
  cbn zeta. intros Hok ->. set (ev := push_evicts _ _ _ _ _ _). destruct (negb full && open && _) eqn:Ec.
  2: { cbn [fst snd pr_slot pr_gone]. rewrite !bool_decide_false by apply is_Some_None. split; [done|by left]. }
  apply andb_true_iff in Ec as [_ Hfit]. pose proof (pool_ring_ok _ Hok) as Hk.
  destruct (push_locked_spec calloc w e tkey t front ordered ev Hk) as (Hk' & Hm & Hl).
  { intros i Hi. apply push_evicts_spec in Hi as (_ & _ & _ & ? & ? & ? & _); done. }
  pose proof (locked_parked calloc w e front ordered t open _ _ Hk Hl Hfit) as Hp.
  destruct (push_locked _ _ _ _ _ _ _ _) as [w' r]. cbn [fst snd] in *. split; [|exact Hp].
  destruct (bool_decide _ || bool_decide _) eqn:Eb; [by apply publish_ok|]. apply orb_false_iff in Eb as [E1 E2].
  apply bool_decide_eq_false, eq_None_not_Some in E1, E2.
  apply (pool_ok_abs (w_fc w)); [done..|]. change (ring_abs (w_queue w') = ring_abs (w_queue w)).
  destruct Hl as [Hq| | |gone Ha Hg _]; cbn [pr_slot pr_gone] in *; [by rewrite Hq|done|done|].
  rewrite Ha. by rewrite (proj2 Hg E2).
Qed.

Lemma push_spec w p fd gen now front :
  pool_ok (w_fc w) → 0 ≤ fd →
  let r := fc_queue_push calloc hook w p fd gen now front in
  pool_ok (w_fc (fst (fst r))) ∧
  ((snd r = 0 ∧ parked_ok w p fd gen now front (fst (fst r)) (snd (fst r))) ∨
   ((snd r = -1 ∨ snd r = -2) ∧ refused_ok calloc w (fst (fst r)) (snd (fst r)))).
Proof using Type.
  intros Hok Hfd. cbn zeta. unfold fc_queue_push. rewrite (proj2 (Z.ltb_ge fd 0)) by done.
  destruct (push_times p now front) as [[ent ordered] kept] eqn:Et.
  assert (Hb : w_fc (fst (fc_permit_bind w p)) = w_fc w) by (unfold fc_permit_bind, drop_opt; by destruct (p_fc p)).
  destruct (fc_permit_bind w p) as [w1 p1]. cbn [fst snd] in Hb. cbn zeta.
  set (pw := if kept =? 0 then park_window _ _ _ _ else _).
  assert (Hpw : (kept =? 0) = true → fst pw = fst (park_window (w_fc w) (p_band p) (p_q_ttl_ms p) (if front then p_q_ttl_cut p else false)))
    by (unfold pw; rewrite Hb; by intros ->).
  clearbody pw. destruct pw as [win cut]. cbn [fst] in Hpw.
  set (deadline := if kept =? 0 then u64 _ else kept). set (open := negb (q_dead _) && _).
  set (e := mk_fc_queue_ent _ _ _ _ _ _ _).
  assert (Hok1 : pool_ok (w_fc w1)) by (by rewrite Hb).
  match goal with |- context [if negb ?f && open && ?g then push_locked ?a ?b ?c ?d ?h ?i ?j ?k else ?z] =>
    pose proof (push_inner w1 e (p_tkey p) front ordered now open f
      (if negb f && open && g then push_locked a b c d h i j k else z) Hok1 eq_refl) as Hi;
    destruct (if negb f && open && g then push_locked a b c d h i j k else z) as [w2 r] end.
  cbn [fst snd] in Hi. destruct Hi as [Hok3 Hr].
  set (w3 := if _ || _ then on_fc fc_queue_publish w2 else w2) in *.
  assert (Hq3 : w_queue w3 = w_queue w2) by (unfold w3; by destruct (_ || _)). clearbody w3.
  set (w4 := if bool_decide _ then arm_timer deadline w3 else w3).
  assert (Hf4 : w_fc w4 = w_fc w3) by (unfold w4; by case_test). clearbody w4.
  pose proof (push_evicted_view hook w4 now (pr_gone r)) as Hv5. set (w5 := push_evicted _ _ _ _) in *. clearbody w5.
  assert (Hok5 : pool_ok (w_fc w5)) by (apply (pool_ok_view (w_fc w4)); [done|by rewrite Hf4]).
  assert (Hq5 : w_queue w5 = w_queue w2) by (apply view_queue in Hv5; unfold w_queue in *; congruence).
  assert (Hq1 : w_queue w1 = w_queue w ∧ w_cfg w1 = w_cfg w) by (unfold w_queue, w_cfg; by rewrite Hb).
  destruct Hq1 as [Hq1 Hc1]. destruct (pr_slot r) as [slot|].
  - set (w6 := if front then w5 else _).
    assert (H6 : pool_ok (w_fc w6) ∧ w_queue w6 = w_queue w2).
    { unfold w6. destruct front; [done|]. split; [|exact (eq_trans (view_queue _ _ (count_band_view _ _ _)) Hq5)].
      apply (pool_ok_view (w_fc w5)); [apply count_band_view|done]. }
    clearbody w6. destruct H6 as [Hok6 Hq6]. cbn [fst snd]. split; [done|]. left. split; [done|].
    destruct Hr as (Hs & (e' & base & He' & Hrm & Ha & Hz) & Hd). rewrite Hq1, Hc1 in Hd. split; rewrite ?Hq6.
    + done.
    + done.
    + rewrite Et. split; [done|]. cbn. unfold deadline. destruct (kept =? 0); [|done]. by rewrite Hpw.
    + exact Hs.
    + exists (e_tslot e'), base. split_and!; [|rewrite Et; exact (eq_trans Ha (f_equal (fun x => abs_insert front ordered x base) He'))|exact (eq_trans Hz He')].
      destruct Hrm as [Hr1|l1 v l2 Hy Hb1 Hm Hdep]; [apply rm_free; by rewrite Hr1, Hq1|].
      rewrite Hq1 in Hy. rewrite Hc1, Hq1 in Hdep. rewrite Hb in Hm. by eapply rm_evict.
    + exact Hd.
  - set (p2 := field_set p_q_ttl_cut _ _). clearbody p2.
    assert (Hb6 : w_fc (fst (fc_permit_bind w5 p2)) = w_fc w5) by (unfold fc_permit_bind, drop_opt; by destruct (p_fc p2)).
    assert (Hs6 : p_state (snd (fc_permit_bind w5 p2)) = FC_P_NONE) by done.
    destruct (fc_permit_bind w5 p2) as [w6 p6]. cbn [fst snd] in *. split.
    { apply (pool_ok_view (w_fc w5)); [|done]. cbn. by rewrite Hb6. }
    right. split; [destruct (pr_share r); auto|]. split; [done|].
    change (w_queue (on_fc _ w6)) with (w_queue w6).
    assert (w_queue w6 = w_queue w2) as -> by (unfold w_queue in *; congruence). by rewrite <- Hq1.
Qed.
End push_outcome.

(** ** Leaving the queue *)

Lemma live_in_walk q i :
  ring_geom q → 0 ≤ i < q_cap q → e_live (zget (q_ring q) i) = true → i ∈ ring_walk q.
Proof.
  intros Hg Hi Hl. destruct (rg_dead _ Hg i Hi Hl) as (k & Hk & ->). rewrite ring_walk_pos by done.
  apply list_elem_of_fmap. exists k. split; [done|]. apply elem_of_seq. lia.
Qed.

(** The entry of a permit. *)
Definition is_entry_of (p : fc_permit) (e : fc_queue_ent) : Prop := e_fd e = p_q_fd p ∧ e_gen e = p_q_gen p.

Lemma take_spec w p :
  pool_ok (w_fc w) →
  let r := fc_queue_take w p in
  pool_ok (w_fc (fst (fst r))) ∧
  (if snd r
   then p_state p = FC_P_QUEUED ∧ snd (fst r) = p <| p_state := FC_P_ENDED |> ∧
     ∃ e l1 l2, is_entry_of p e ∧ ring_abs (w_queue w) = l1 ++ e :: l2 ∧ ring_abs (w_queue (fst (fst r))) = l1 ++ l2
   else fst r = (w, p) ∧ (p_state p = FC_P_QUEUED → ∀ e, e ∈ ring_abs (w_queue w) → ¬ is_entry_of p e)).
Proof.
  intros Hok. cbn zeta. unfold fc_queue_take. destruct (bool_decide (p_state p = FC_P_QUEUED)) eqn:Es; cbn [negb].
  2: { split; [done|]. split; [done|]. intros E. by rewrite bool_decide_true in Es. }
  apply bool_decide_eq_true in Es. destruct (fc_ring_find _ _ _ _) as [i|] eqn:Ef.
  2: { split; [done|]. split; [done|]. intros _ e He [H1 H2].
       by destruct (find_complete (w_queue w) (p_q_fd p) (p_q_gen p) (p_q_slot p) e (pk_ring _ Hok) He H1 H2) as [? Hf]; rewrite Ef in Hf. }
  apply find_sound in Ef as (Hi & Hl & H1 & H2 & _); [|apply Hok].
  pose proof (live_in_walk _ _ (rw_geom _ (pk_ring _ Hok)) Hi Hl) as Hin.
  unfold fc_permit_settle. rewrite decide_True by done. cbn [negb fst snd].
  destruct (ring_take_tenant_spec w i (pool_ring_ok _ Hok) Hin Hl) as (Hk & Hq & _).
  destruct (take_in_walk (w_queue w) i (pk_ring _ Hok) Hin Hl) as (l1 & l2 & Ha & Ha' & _).
  split; [by apply publish_ok|]. split_and!; [done|done|].
  exists (zget (q_ring (w_queue w)) i), l1, l2. split_and!; [done|exact Ha|].
  change (ring_abs (w_queue (fst (ring_take_tenant w i))) = l1 ++ l2). by rewrite Hq.
Qed.

Lemma pop_spec w :
  pool_ok (w_fc w) →
  let r := fc_queue_pop w in
  pool_ok (w_fc (fst r)) ∧
  match snd r with
  | Some e => ring_abs (w_queue w) = e :: ring_abs (w_queue (fst r))
  | None => ring_abs (w_queue w) = [] ∧ ring_abs (w_queue (fst r)) = []
  end.
Proof.
  intros Hok. cbn zeta. unfold fc_queue_pop.
  destruct (pop_loop (Z.to_nat (q_used (w_queue w))) (w_queue w) (pk_ring _ Hok) (le_n _)) as (Hw & (_ & _ & _ & He) & Ha).
  unfold fc_ring_pop. destruct (ring_pop _ _) as [q e]. cbn [fst snd] in *.
  assert (Hk : ring_ok (w_fc (on_queue (fun _ => q) w))) by (split; [done|]; cbn; rewrite He; apply Hok).
  destruct e as [e|]; [|split; [by apply publish_ok|done]].
  destruct (dec_tenants (on_queue (fun _ => q) w) (e_tslot e) true) as (Ht & _).
  destruct (tenants_queue _ _ Ht) as (Hq & _). split; [apply publish_ok; by eapply tenants_ring_ok|].
  rewrite Ha. f_equal. symmetry. change (ring_abs (s_queue (w_fc (fc_tenant_dec (on_queue (fun _ => q) w) (e_tslot e) true))) = ring_abs q).
  by rewrite Hq.
Qed.

Lemma evicted_ix_spec P l i : evicted_ix P l = Some i → ∃ v, l !! i = Some v ∧ P v = true.
Proof.
  revert i. induction l as [|v l IH]; intros i; cbn; [done|]. destruct (P v) eqn:E.
  - intros [= <-]. by exists v.
  - destruct (evicted_ix P l) as [k|]; cbn; [|done]. intros [= <-]. by apply IH.
Qed.
Lemma evicted_ix_none P l : evicted_ix P l = None → ∀ v, v ∈ l → P v = false.
Proof.
  induction l as [|v l IH]; cbn; intros H x Hx; [by apply not_elem_of_nil in Hx|].
  destruct (P v) eqn:E; [done|]. destruct (evicted_ix P l); [done|]. apply elem_of_cons in Hx as [->|Hx]; auto.
Qed.

Lemma evicted_remove_spec P w :
  pool_ok (w_fc w) →
  let r := evicted_remove P w in
  pool_ok (w_fc (fst r)) ∧ ring_abs (w_queue (fst r)) = ring_abs (w_queue w) ∧
  (if snd r
   then ∃ l1 v l2, P v = true ∧ q_evicted (w_queue w) = l1 ++ v :: l2 ∧ q_evicted (w_queue (fst r)) = l1 ++ l2
   else fst r = w ∧ ∀ v, v ∈ q_evicted (w_queue w) → P v = false).
Proof.
  intros Hok. cbn zeta. unfold evicted_remove. destruct (evicted_ix P (q_evicted (w_queue w))) as [i|] eqn:E; cbn [fst snd].
  2: { split_and!; [done|done|done|by apply evicted_ix_none]. }
  apply evicted_ix_spec in E as (v & Hl & HP). set (q' := (w_queue w) <| q_evicted ::= fc_evicted_drop i |>).
  destruct (ring_wf_same (w_queue w) q') as [Hw Ha]; [done..|apply Hok|].
  assert (Hev : q_evicted (w_queue w) = take i (q_evicted (w_queue w)) ++ v :: drop (S i) (q_evicted (w_queue w)))
    by (by rewrite take_drop_middle).
  split_and!; [|exact Ha|by exists (take i (q_evicted (w_queue w))), v, (drop (S i) (q_evicted (w_queue w)))].
  apply (pool_ok_abs (w_fc w)); [done| |done|exact Ha]. split; [exact Hw|].
  change (zlen (fc_evicted_drop i (q_evicted (w_queue w))) ≤ FC_EVICT_PENDING).
  pose proof (pk_evicted _ Hok) as Hn. change (s_queue (w_fc w)) with (w_queue w) in Hn. rewrite Hev in Hn.
  unfold fc_evicted_drop. rewrite !zlen_app, ?zlen_cons in *. lia.
Qed.

(** ** The owner's resume *)

Definition listed (p : fc_permit) (v : fc_evicted) : Prop := v_fd v = p_q_fd p ∧ v_gen v = p_q_gen p.

Lemma claim_spec w p :
  pool_ok (w_fc w) → 0 ≤ p_q_fd p →
  let r := fc_queue_evicted_claim w (p_q_fd p) (p_q_gen p) in
  pool_ok (w_fc (fst r)) ∧ ring_abs (w_queue (fst r)) = ring_abs (w_queue w) ∧
  (if snd r
   then ∃ l1 v l2, listed p v ∧ q_evicted (w_queue w) = l1 ++ v :: l2 ∧ q_evicted (w_queue (fst r)) = l1 ++ l2
   else fst r = w ∧ ∀ v, v ∈ q_evicted (w_queue w) → ¬ listed p v).
Proof.
  intros Hok Hfd. cbn zeta. unfold fc_queue_evicted_claim, fc_evicted_take. rewrite (proj2 (Z.ltb_ge _ 0)) by done. cbn [orb].
  destruct (fc_queue_evicted (w_fc w) =? 0) eqn:E0.
  { cbn [fst snd]. zbool. split_and!; [done|done|done|]. unfold fc_queue_evicted in E0. change (s_queue (w_fc w)) with (w_queue w) in E0.
    destruct (q_evicted (w_queue w)); [|done]. intros v Hv. by apply not_elem_of_nil in Hv. }
  pose proof (evicted_remove_spec (fun v => (v_fd v =? p_q_fd p) && (v_gen v =? p_q_gen p)) w Hok) as H. cbn zeta in H.
  destruct (evicted_remove _ w) as [w' hit]. cbn [fst snd] in H. destruct H as (Hok' & Ha & H). destruct hit; cbn [negb fst snd].
  - destruct H as (l1 & v & l2 & Hv & H1 & H2). zbool. split_and!; [done|done|]. exists l1, v, l2. by split_and!.
  - destruct H as [-> Hn]. split_and!; [done|done|done|]. intros v Hv [H1 H2]. specialize (Hn v Hv). cbn beta in Hn.
    by rewrite H1, H2, !Z.eqb_refl in Hn.
Qed.

Lemma resume_spec w p :
  pool_ok (w_fc w) → 0 ≤ p_q_fd p → p_state p = FC_P_QUEUED →
  let r := fc_queue_owner_resume w p in
  pool_ok (w_fc (fst (fst r))) ∧ ring_abs (w_queue (fst (fst r))) = ring_abs (w_queue w) ∧
  match snd r with
  | FC_RESUME_EVICTED => p_state (snd (fst r)) = FC_P_NONE ∧ p_q_parked (snd (fst r)) = false ∧
      ∃ l1 v l2, listed p v ∧ q_evicted (w_queue w) = l1 ++ v :: l2 ∧ q_evicted (w_queue (fst (fst r))) = l1 ++ l2
  | FC_RESUME_WAIT => fst r = (w, p) ∧ ∃ e, e ∈ ring_abs (w_queue w) ∧ is_entry_of p e
  | FC_RESUME_TURN => fst r = (w, p <| p_state := FC_P_NONE |> <| p_woken := true |>) ∧
      (∀ e, e ∈ ring_abs (w_queue w) → ¬ is_entry_of p e) ∧ (∀ v, v ∈ q_evicted (w_queue w) → ¬ listed p v)
  | FC_RESUME_NOT_QUEUED | FC_RESUME_DECIDED => False
  end.
Proof.
  intros Hok Hfd Hst. cbn zeta. unfold fc_queue_owner_resume. rewrite Hst.
  pose proof (claim_spec w p Hok Hfd) as H. cbn zeta in H.
  destruct (fc_queue_evicted_claim _ _ _) as [w' claimed]. cbn [fst snd] in H. destruct H as (Hok' & Ha & H).
  destruct claimed.
  { unfold fc_permit_settle. rewrite decide_True by done. cbn [negb fst snd]. by split_and!. }
  destruct H as [-> Hn]. unfold fc_queue_holds. rewrite bool_decide_true by done. cbn [andb].
  destruct (fc_ring_find _ _ _ _) as [i|] eqn:Ef; [rewrite bool_decide_true by done|rewrite bool_decide_false by apply is_Some_None].
  - cbn [fst snd]. split_and!; [done|done|done|]. apply find_sound in Ef as (_ & _ & H1 & H2 & Hin); [|apply Hok].
    by exists (zget (q_ring (s_queue (w_fc w))) i).
  - unfold fc_queue_resumed, fc_permit_settle. rewrite decide_True by done. cbn [fst snd]. split_and!; [done|done|done| |done].
    intros e He [H1 H2].
    by destruct (find_complete (w_queue w) (p_q_fd p) (p_q_gen p) (p_q_slot p) e (pk_ring _ Hok) He H1 H2) as [? Hf];
      unfold w_queue in Hf; rewrite Ef in Hf.
Qed.

(** ** One answer per parked request *)

(** The paths that end a park: a deadline, a cancellation or a drain takes the
    entry; the owner resumes; the pass over the evicted settles. *)
Inductive settle_op : Type := SoTake | SoResume | SoEvicted.

Definition settle_do (w : world) (p : fc_permit) (op : settle_op) : world * fc_permit * bool :=
  match op with
  | SoTake => fc_queue_take w p
  | SoResume =>
      let '(w, p, r) := fc_queue_owner_resume w p in
      (w, p, match r with FC_RESUME_TURN | FC_RESUME_EVICTED => true | _ => false end)
  | SoEvicted => fc_queue_evicted_settle w p (p_q_fd p) (p_q_gen p)
  end.

Fixpoint settle_run (w : world) (p : fc_permit) (ops : list settle_op) : world * fc_permit * list bool :=
  match ops with
  | [] => (w, p, [])
  | op :: ops =>
      let '(w, p, won) := settle_do w p op in
      let '(w, p, wins) := settle_run w p ops in (w, p, won :: wins)
  end.

Lemma settle_not_queued p to : p_state p ≠ FC_P_QUEUED → fc_permit_settle p to = (p, false).
Proof. intros. unfold fc_permit_settle. by rewrite decide_False. Qed.

Lemma evicted_take_state w p fd gen :
  let r := fc_evicted_take w fd gen (Some p) in
  ∃ p', snd (fst r) = Some p' ∧ (p_state p ≠ FC_P_QUEUED → snd r = false ∧ p' = p) ∧
    (snd r = true → p_state p' = FC_P_EVICTED).
Proof.
  cbn zeta. unfold fc_evicted_take. destruct (_ || _); [by exists p|]. destruct (evicted_remove _ w) as [w' hit].
  destruct hit; cbn [negb]; [|by exists p]. unfold fc_permit_settle. case_decide as Hd; cbn [fst snd]; eexists; (split; [done|]).
  - split; [by intros Hn|done].
  - by split.
Qed.

Lemma settle_do_state w p op :
  let r := settle_do w p op in
  (p_state p ≠ FC_P_QUEUED → snd r = false ∧ p_state (snd (fst r)) ≠ FC_P_QUEUED) ∧
  (snd r = true → p_state (snd (fst r)) ≠ FC_P_QUEUED).
Proof.
  destruct op; cbn [settle_do]; cbn zeta.
  - unfold fc_queue_take. destruct (bool_decide (p_state p = FC_P_QUEUED)) eqn:Es; cbn [negb]; [|by split].
    apply bool_decide_eq_true in Es. split; [by rewrite Es|]. destruct (fc_ring_find _ _ _ _); [|done].
    unfold fc_permit_settle. by rewrite decide_True by done.
  - unfold fc_queue_owner_resume. destruct (decide (p_state p = FC_P_QUEUED)) as [Es|Es].
    2: { destruct (p_state p) eqn:E; try done; cbn [fst snd]; rewrite E; by split. }
    split; [by rewrite Es|]. rewrite Es. destruct (fc_queue_evicted_claim _ _ _) as [w' claimed]. destruct claimed.
    { unfold fc_permit_settle. by rewrite decide_True by done. }
    destruct (fc_queue_holds _ _); [done|]. unfold fc_queue_resumed, fc_permit_settle. by rewrite decide_True by done.
  - unfold fc_queue_evicted_settle. destruct (evicted_take_state w p (p_q_fd p) (p_q_gen p)) as (p' & Hp & H1 & H2).
    destruct (fc_evicted_take _ _ _ _) as [[w' o] won]. cbn [fst snd] in *. subst o. cbn [default]. split.
    + intros Hn. by destruct (H1 Hn) as [-> ->].
    + intros Hw. cbn [snd] in Hw |- *. specialize (H2 Hw). cbn. congruence.
Qed.

Lemma settle_run_none w p ops :
  p_state p ≠ FC_P_QUEUED → zcount (fun b : bool => b) (snd (settle_run w p ops)) = 0.
Proof.
  revert w p. induction ops as [|op ops IH]; intros w p Hs; cbn [settle_run]; [done|].
  destruct (settle_do_state w p op) as [H _]. destruct (H Hs) as [H1 H2].
  destruct (settle_do w p op) as [[w1 p1] won]. cbn [fst snd] in *. subst won.
  specialize (IH w1 p1 H2). destruct (settle_run w1 p1 ops) as [[w2 p2] wins]. cbn [snd zcount Z.b2z] in *. lia.
Qed.

(** ** Draining *)

(** One waiter handed to [fn]: popped, asked, counted. *)
Definition drain_one (fn : world → fc_queue_ent → world * bool) (w : world) (e : fc_queue_ent) : world :=
  let '(w, yes) := fn (fst (fc_queue_pop w)) e in
  if yes : bool then on_fc (fc_count FC_R_DRAINED) w else w.

Lemma count_view r fc : queue_view (fc_count r fc) = queue_view fc.
Proof. done. Qed.

Lemma queue_drain_spec fn k w :
  (∀ w e, queue_view (w_fc (fst (fn w e))) = queue_view (w_fc w)) →
  pool_ok (w_fc w) → (length (ring_abs (w_queue w)) < k)%nat →
  queue_drain fn k w = fst (fc_queue_pop (foldl (drain_one fn) w (ring_abs (w_queue w)))) ∧
  pool_ok (w_fc (queue_drain fn k w)) ∧ ring_abs (w_queue (queue_drain fn k w)) = [].
Proof.
  intros Hfn. revert w. induction k as [|k IH]; intros w Hok Hk; [lia|]. cbn [queue_drain].
  destruct (pop_spec w Hok) as [Hok1 Hp]. destruct (fc_queue_pop w) as [w1 [e|]] eqn:E; cbn [fst snd] in *.
  2: { destruct Hp as [H1 H2]. rewrite H1. cbn [foldl]. by rewrite E. }
  rewrite Hp. cbn [foldl]. assert (Hd : drain_one fn w e = let '(w2, yes) := fn w1 e in if yes : bool then on_fc (fc_count FC_R_DRAINED) w2 else w2)
    by (unfold drain_one; by rewrite E). rewrite Hd. clear Hd.
  pose proof (Hfn w1 e) as Hv. destruct (fn w1 e) as [w2 yes]. cbn [fst] in Hv.
  set (w3 := if yes : bool then _ else w2).
  assert (Hv3 : queue_view (w_fc w3) = queue_view (w_fc w1)) by (unfold w3; by destruct yes). clearbody w3.
  assert (Hq3 : w_queue w3 = w_queue w1) by (by apply view_queue).
  destruct (IH w3) as (-> & H2 & H3); [by eapply pool_ok_view|rewrite Hq3; rewrite Hp in Hk; cbn in Hk; lia|].
  rewrite Hq3 in *. done.
Qed.

(** ** The timer *)

(** An armed timer is set for the time it is armed for. *)
Definition timer_ok (d : fc_deadline) : Prop := 0 ≤ d_armed_ns d ∧ (d_armed_ns d ≠ 0 → d_timer_ns d = d_armed_ns d).

(** The earliest time the timer may be set for. *)
Definition timer_floor (d : fc_deadline) : Z :=
  if negb (d_last_fire_ns d =? 0) then d_last_fire_ns d + FC_DEADLINE_GRAIN_NS else 0.

Lemma deadline_arm_spec d t :
  timer_ok d → d_tfd d > 0 → 0 < t → 0 ≤ d_last_fire_ns d < 18446744073709551616 - FC_DEADLINE_GRAIN_NS →
  let d' := fc_deadline_arm d t in
  timer_ok d' ∧ 0 < d_armed_ns d' ≤ Z.max t (timer_floor d) ∧
  (d_armed_ns d ≠ 0 → d_armed_ns d' ≤ d_armed_ns d) ∧
  (d_armed_ns d' = d_armed_ns d ∨ timer_floor d ≤ d_armed_ns d') ∧
  d_tfd d' = d_tfd d ∧ d_last_fire_ns d' = d_last_fire_ns d.
Proof.
  intros [H0 Ht] Htfd Hpos Hl. cbn zeta. unfold fc_deadline_arm.
  assert (E1 : (d_tfd d <=? 0) || (t =? 0) = false) by (apply orb_false_iff; split; [apply Z.leb_gt|apply Z.eqb_neq]; lia).
  rewrite E1. unfold FC_DEADLINE_GRAIN_NS in *.
  assert (Hfl : (if negb (d_last_fire_ns d =? 0) then u64 (d_last_fire_ns d + 25000000) else 0) = timer_floor d).
  { unfold timer_floor, FC_DEADLINE_GRAIN_NS. case_test; [|done]. apply u64_small. lia. }
  rewrite Hfl. assert (0 ≤ timer_floor d) by (unfold timer_floor, FC_DEADLINE_GRAIN_NS; case_test; lia).
  set (target := if t >? timer_floor d then t else timer_floor d).
  assert (target = Z.max t (timer_floor d)) as Htg by (unfold target; destruct (t >? timer_floor d) eqn:E; zbool; lia). clearbody target.
  destruct (negb (d_armed_ns d =? 0) && (d_armed_ns d <=? target)) eqn:Ea; zbool.
  - split_and!; done || lia.
  - unfold fc_deadline_settime. cbn [d_armed_ns field_set]. rewrite Z.eqb_refl. cbn.
    assert (d_armed_ns d = 0 ∨ target < d_armed_ns d) as Hc.
    { destruct (d_armed_ns d =? 0) eqn:E0; zbool; [by left|]. cbn in Ea. zbool. by right. }
    unfold timer_ok. cbn. split_and!; done || lia.
Qed.

(** What a pass keeps while it expires waiters. *)
Record pass_ok (w : world) : Prop := {
  ps_pool : pool_ok (w_fc w);
  ps_timer : timer_ok (w_timer w);
  ps_u64 : Forall (fun e => 0 ≤ e_deadline_ns e) (ring_abs (w_queue w))
}.

Section pass.
Context (expire : world → fc_queue_ent → Z → world).
Context (Hexp : ∀ w e t, pass_ok w →
  pass_ok (expire w e t) ∧ d_tfd (w_timer (expire w e t)) = d_tfd (w_timer w) ∧
  d_last_fire_ns (w_timer (expire w e t)) = d_last_fire_ns (w_timer w)).

Lemma expire_batch l w now :
  pass_ok w →
  let w' := foldl (fun w e => expire w e now) w l in
  pass_ok w' ∧ d_tfd (w_timer w') = d_tfd (w_timer w) ∧ d_last_fire_ns (w_timer w') = d_last_fire_ns (w_timer w).
Proof using Hexp.
  revert w. induction l as [|e l IH]; intros w Hok; cbn [foldl]; [done|].
  destruct (Hexp w e now Hok) as (H1 & H2 & H3). destruct (IH _ H1) as (H4 & H5 & H6). split_and!; [done|congruence|congruence].
Qed.

Lemma expire_rounds_ok k w now :
  pass_ok w →
  let w' := expire_rounds expire k w now in
  pass_ok w' ∧ d_tfd (w_timer w') = d_tfd (w_timer w) ∧ d_last_fire_ns (w_timer w') = d_last_fire_ns (w_timer w).
Proof using Hexp.
  revert w. induction k as [|k IH]; intros w Hok; cbn [expire_rounds]; [done|].
  destruct (expire_batch (fc_queue_expired (w_queue w) now 64) w now Hok) as (H1 & H2 & H3).
  set (w1 := foldl _ w _) in *. case_test; [|done].
  destruct (IH w1 H1) as (H4 & H5 & H6). split_and!; [done|congruence|congruence].
Qed.

(** The earliest deadline left covers every waiter. *)
Lemma next_deadline_covers w e :
  pass_ok w → e ∈ ring_abs (w_queue w) → 0 < e_deadline_ns e →
  0 < fc_queue_next_deadline (w_fc w) ≤ e_deadline_ns e.
Proof using Type.
  intros [Hp _ Hu] He Hd. unfold fc_queue_next_deadline. change (s_queue (w_fc w)) with (w_queue w).
  pose proof (rw_deadline _ (pk_ring _ Hp)) as H. change (s_queue (w_fc w)) with (w_queue w) in H.
  destruct H as [[_ Hz]|(Hnz & (x & Hx & Hxd) & Hm)]; [specialize (Hz e He); lia|].
  split; [|apply Hm; [done|lia]]. pose proof (proj1 (Forall_forall _ _) Hu x) as Hx0. cbn beta in Hx0.
  assert (0 ≤ e_deadline_ns x) by (apply Hx0; by first [exact Hx|apply list_elem_of_In]). lia.
Qed.

Lemma next_deadline_nonneg w : pass_ok w → 0 ≤ fc_queue_next_deadline (w_fc w).
Proof using Type.
  intros [Hp _ Hu]. pose proof (rw_deadline _ (pk_ring _ Hp)) as H. unfold fc_queue_next_deadline.
  destruct H as [[-> _]|(_ & (x & Hx & <-) & _)]; [done|]. pose proof (proj1 (Forall_forall _ _) Hu x) as Hx0. cbn beta in Hx0.
  apply Hx0. by first [exact Hx|apply list_elem_of_In].
Qed.

Lemma visit_pool_ok w now :
  pass_ok w → 0 < now < 18446744073709551616 - FC_DEADLINE_GRAIN_NS →
  let r := fc_deadline_visit_pool expire w now 0 in
  pass_ok (fst r) ∧ d_tfd (w_timer (fst r)) = d_tfd (w_timer w) ∧
  d_last_fire_ns (w_timer (fst r)) = d_last_fire_ns (w_timer w) ∧ 0 ≤ snd r ∧
  ∀ e, e ∈ ring_abs (w_queue (fst r)) → 0 < e_deadline_ns e →
    0 < snd r ≤ Z.max (e_deadline_ns e) (now + FC_DEADLINE_GRAIN_NS).
Proof using Hexp.
  intros Hok Hnow. cbn zeta. unfold fc_deadline_visit_pool, FC_DEADLINE_GRAIN_NS in *.
  set (r := if _ && _ then _ else (w, _)).
  assert (Hr : pass_ok (fst r) ∧ d_tfd (w_timer (fst r)) = d_tfd (w_timer w) ∧
    d_last_fire_ns (w_timer (fst r)) = d_last_fire_ns (w_timer w) ∧ 0 ≤ snd r ∧
    (0 < fc_queue_next_deadline (w_fc (fst r)) → 0 < snd r ≤ Z.max (fc_queue_next_deadline (w_fc (fst r))) (now + 25000000))).
  { unfold r. clear r. destruct (_ && _) eqn:E; cbn [fst snd].
    2: { pose proof (next_deadline_nonneg w Hok). split_and!; try done; lia. }
    destruct (expire_rounds_ok 16 w now Hok) as (H1 & H2 & H3). pose proof (next_deadline_nonneg _ H1) as H0.
    set (nx := fc_queue_next_deadline (w_fc (expire_rounds expire 16 w now))) in *. clearbody nx.
    split_and!; [done..| |]; (destruct (negb (nx =? 0) && (nx <=? now)); [rewrite u64_small by lia|]; lia). }
  clearbody r. destruct r as [w' next]. cbn [fst snd] in *. destruct Hr as (H1 & H2 & H3 & H0 & H4).
  split_and!; [done..|case_test; lia|]. intros e He Hd. pose proof (next_deadline_covers w' e H1 He Hd) as Hn.
  specialize (H4 ltac:(lia)). cbn [Z.eqb orb]. rewrite andb_true_r, (proj2 (Z.eqb_neq next 0)) by lia. cbn [negb]. lia.
Qed.

Lemma deadline_pass_ok w now :
  pass_ok w → d_tfd (w_timer w) > 0 → 0 < now < 18446744073709551616 - FC_DEADLINE_GRAIN_NS →
  let w' := fst (fc_deadline_pass expire w now) in
  pass_ok w' ∧
  ∀ e, e ∈ ring_abs (w_queue w') → 0 < e_deadline_ns e →
    0 < d_timer_ns (w_timer w') ≤ Z.max (e_deadline_ns e) (now + FC_DEADLINE_GRAIN_NS).
Proof using Hexp.
  intros [Hp [Ht0 Ht] Hu] Htfd Hnow. cbn zeta. unfold fc_deadline_pass.
  set (w1 := w <| w_timer ::= _ |>).
  assert (Hok1 : pass_ok w1) by (split; [done|by split|done]).
  assert (H1 : d_tfd (w_timer w1) > 0 ∧ d_last_fire_ns (w_timer w1) = now) by done. clearbody w1.
  destruct (visit_pool_ok w1 now Hok1 Hnow) as (H2 & H3 & H4 & H0 & H5).
  destruct (fc_deadline_visit_pool expire w1 now 0) as [w2 earliest]. cbn [fst snd] in *.
  destruct H1 as [Htf Hlf]. rewrite Hlf in H4.
  destruct (earliest =? 0) eqn:E; zbool; cbn [negb].
  { split; [done|]. intros e He Hd. specialize (H5 e He Hd). lia. }
  destruct (deadline_arm_spec (w_timer w2) earliest) as (Ha & Hb & _); [apply H2|lia|lia|lia|].
  assert (Hfl : timer_floor (w_timer w2) = now + FC_DEADLINE_GRAIN_NS).
  { unfold timer_floor. rewrite H4, (proj2 (Z.eqb_neq now 0)) by lia. done. }
  split; [destruct H2 as [? _ ?]; by split|]. intros e He Hd. specialize (H5 e He Hd).
  change (w_timer (arm_timer earliest w2)) with (fc_deadline_arm (w_timer w2) earliest).
  destruct Ha as [_ Ha]. rewrite Ha by lia. lia.
Qed.
End pass.

(** ** A request put back *)

Lemma ins_front_back e l1 l2 :
  StronglySorted (fun a b => e_enqueue_ns a < e_enqueue_ns b) (l1 ++ e :: l2) → ins_front e (l1 ++ l2) = l1 ++ e :: l2.
Proof.
  induction l1 as [|x l1 IH]; cbn [app ins_front]; intros Hs.
  - apply StronglySorted_inv in Hs as [_ Hf]. destruct l2 as [|y l2]; [done|]. cbn. inversion Hf; subst.
    by rewrite Z.geb_leb, (proj2 (Z.leb_le _ _)) by lia.
  - apply StronglySorted_inv in Hs as [Hs Hf]. rewrite IH by done.
    assert (e_enqueue_ns x < e_enqueue_ns e) by (apply Forall_app in Hf as [_ Hf]; by inversion Hf).
    by rewrite Z.geb_leb, (proj2 (Z.leb_gt _ _)) by lia.
Qed.

Lemma wake_head_refused calloc h w pend :
  (∀ log fd gen, h log fd gen = false) → snd (fc_queue_wake_head calloc (Some h) w pend) = false.
Proof.
  intros Hh. unfold fc_queue_wake_head. destruct (fc_ring_pop_runnable (w_fc w) pend) as [[fc1 [e|]] u]; [|done].
  unfold call_wake. rewrite Hh. cbn [negb]. by destruct (fc_ring_insert _ _ _ _ _).
Qed.

Lemma wake_refused_line calloc fc l l' :
  (∀ n, calloc n = true) → wake_line calloc fc l l' false →
  l' ≡ₚ l ∧ (StronglySorted (fun a b => e_enqueue_ns a < e_enqueue_ns b) l → l' = l).
Proof.
  intros Hal H. inversion H; subst; [done| |tauto]. split; [|apply ins_front_back].
  rewrite ins_front_perm. apply Permutation_middle.
Qed.

(** ** Theorems *)

(** A push either parks the request or refuses it. Parked: its permit is
    waiting, its entry stands in the line where it belongs (by arrival when it
    goes back or waited before, else last), at the slot it remembers, with the
    deadline of its window or the one it was first given; a newcomer never takes
    the line past its depth, and makes room only by evicting the youngest
    sheddable waiter, for a band above it, at the depth. Refused: its permit is
    free and, short of memory running out, nobody lost a place. *)
Theorem fc_queue_push_outcome calloc hook w p fd gen now front :
  pool_ok (w_fc w) → 0 ≤ fd →
  let '(w', p', rc) := fc_queue_push calloc hook w p fd gen now front in
  pool_ok (w_fc w') ∧
  ((rc = 0 ∧ parked_ok w p fd gen now front w' p') ∨ ((rc = -1 ∨ rc = -2) ∧ refused_ok calloc w w' p')).
Proof.
  intros Hok Hfd. pose proof (push_spec calloc hook w p fd gen now front Hok Hfd) as H. cbn zeta in H.
  by destruct (fc_queue_push _ _ _ _ _ _ _ _) as [[w' p'] rc].
Qed.

(** A pool with two places to wait. *)
Definition waiting_cfg : fc_cfg :=
  fc_cfg_zero <| c_mode := FC_MODE_ENFORCE |> <| c_max_outstanding := 2 |> <| c_max_queue_depth := 2 |>
    <| c_max_queue_wait_ms := 5000 |> <| c_shed_queue := true |>.
Definition waiting_world : world :=
  world_of (fc_state_zero <| s_cfg := waiting_cfg |> <| s_queue := fc_ring_grow (fun _ => true) fc_queue_zero 2 |>).

Lemma waiting_world_ok : pool_ok (w_fc waiting_world).
Proof.
  split.
  - by destruct (grow_fresh_wf (fun _ => true) fc_queue_zero 2 eq_refl eq_refl ring_wf_zero) as (H & _).
  - split; [reflexivity|]. intros b Hb. unfold fc_band_counted in Hb. apply orb_true_iff in Hb as [Hb|Hb]; zbool; subst; reflexivity.
  - vm_compute. discriminate.
Qed.

(** The worlds after a first, sheddable, and a second request. *)
Definition park1 : world * fc_permit * Z :=
  fc_queue_push (fun _ => true) None waiting_world (fc_permit_reset <| p_band := FC_BAND_SHEDDABLE |>) 5 1 1000 false.
Definition park2 : world * fc_permit * Z :=
  fc_queue_push (fun _ => true) None (fst (fst park1)) fc_permit_reset 6 1 2000 false.

Lemma park1_ok : pool_ok (w_fc (fst (fst park1))).
Proof. exact (proj1 (push_spec (fun _ => true) None _ _ 5 1 1000 false waiting_world_ok ltac:(lia))). Qed.
Lemma park2_ok : pool_ok (w_fc (fst (fst park2))).
Proof. exact (proj1 (push_spec (fun _ => true) None _ _ 6 1 2000 false park1_ok ltac:(lia))). Qed.

Lemma fc_queue_push_outcome_witness :
  let '(w', p', rc) := fc_queue_push (fun _ => true) None waiting_world (fc_permit_reset <| p_band := FC_BAND_SHEDDABLE |>)
                         5 1 1000 false in
  rc = 0 ∧ parked_ok waiting_world (fc_permit_reset <| p_band := FC_BAND_SHEDDABLE |>) 5 1 1000 false w' p'.
Proof.
  pose proof (fc_queue_push_outcome (fun _ => true) None waiting_world (fc_permit_reset <| p_band := FC_BAND_SHEDDABLE |>)
    5 1 1000 false waiting_world_ok ltac:(lia)) as H.
  assert (Hrc : snd (fc_queue_push (fun _ => true) None waiting_world (fc_permit_reset <| p_band := FC_BAND_SHEDDABLE |>)
    5 1 1000 false) = 0) by (vm_compute; reflexivity).
  destruct (fc_queue_push _ _ _ _ _ _ _ _) as [[w' p'] rc]. cbn [snd] in Hrc.
  split; [exact Hrc|]. destruct H as [_ [[_ H]|[[H|H] _]]]; [exact H|congruence|congruence].
Defined.

(** Whoever is evicted is the youngest sheddable waiter, for a request of
    a higher band on a pool that queues sheddable requests, with room left on
    the list of evicted answers; and when all of that holds and nobody is
    picked, no sheddable request waits. *)
Theorem fc_evict_youngest_sheddable fc band :
  ring_wf (s_queue fc) →
  match fc_ring_evict_pick fc band with
  | Some i => may_evict fc band = true ∧
      ∃ l1 l2, youngest_shed (ring_abs (s_queue fc)) l1 (zget (q_ring (s_queue fc)) i) l2 ∧
        ring_abs (fst (fc_ring_take_at (s_queue fc) i)) = l1 ++ l2
  | None => may_evict fc band = true → ∀ e, e ∈ ring_abs (s_queue fc) → e_band e ≠ FC_BAND_SHEDDABLE
  end.
Proof.
  intros Hwf. pose proof (evict_pick_spec fc band Hwf) as H. destruct (fc_ring_evict_pick fc band); [|exact H].
  destruct H as (H1 & _ & _ & H2). by split.
Qed.

Lemma fc_evict_youngest_witness :
  let fc := w_fc (fst (fst park2)) in
  e_fd <$> ring_abs (s_queue fc) = [5; 6] ∧ fc_ring_evict_pick fc FC_BAND_CRITICAL = Some 0 ∧ may_evict fc FC_BAND_CRITICAL = true.
Proof.
  split; [vm_compute; reflexivity|].
  assert (E : fc_ring_evict_pick (w_fc (fst (fst park2))) FC_BAND_CRITICAL = Some 0) by (vm_compute; reflexivity).
  split; [exact E|]. pose proof (fc_evict_youngest_sheddable (w_fc (fst (fst park2))) FC_BAND_CRITICAL (pk_ring _ park2_ok)) as H.
  rewrite E in H. exact (proj1 H).
Defined.

(** The wake loop never promises more turns than there are free units:
    on an enforcing pool with a ceiling the hook is called at most as often as
    units are free, and never more often than requests wait. The queue stays
    well-formed. *)
Theorem fc_wake_room_bounded calloc hook w :
  pool_ok (w_fc w) → fits32 (s_inflight (w_fc w)) → 0 ≤ fc_svc_cap (w_fc w) →
  let w' := fc_queue_wake_room calloc hook w in
  let n := zlen (w_wakes w') - zlen (w_wakes w) in
  pool_ok (w_fc w') ∧ 0 ≤ n ≤ zlen (ring_abs (w_queue w)) ∧
  (c_mode (w_cfg w) = FC_MODE_ENFORCE → fc_svc_cap (w_fc w) ≠ 0 →
   n ≤ Z.max 0 (fc_svc_cap (w_fc w) - s_inflight (w_fc w))).
Proof.
  intros Hok Hi Hc. cbn zeta. unfold fc_queue_wake_room. pose proof (zlen_nonneg (ring_abs (w_queue w))).
  destruct (bool_decide (is_Some hook)); cbn [negb]; [|split; [done|]; split; [lia|]; intros; lia].
  destruct (wake_turns_spec calloc hook (Z.to_nat (wake_budget (w_fc w))) w azero Hok) as [Hok' Hl].
  assert (Hq : fc_queued (w_fc w) = zlen (ring_abs (w_queue w))).
  { unfold fc_queued. destruct (pk_pub _ Hok) as [-> _]. apply (rw_count _ (pk_ring _ Hok)). }
  assert (Hb : 0 ≤ wake_budget (w_fc w) ≤ zlen (ring_abs (w_queue w)) ∧
    (c_mode (w_cfg w) = FC_MODE_ENFORCE → fc_svc_cap (w_fc w) ≠ 0 →
     wake_budget (w_fc w) ≤ Z.max 0 (fc_svc_cap (w_fc w) - s_inflight (w_fc w)))).
  { unfold wake_budget, fc_inflight. rewrite Hq. change (s_cfg (w_fc w)) with (w_cfg w).
    destruct (c_mode (w_cfg w) =? FC_MODE_ENFORCE) eqn:Em, (fc_svc_cap (w_fc w) =? 0) eqn:Ec; zbool; cbn [andb negb];
      repeat case_test; zbool; (split; [lia|]); intros; try congruence; lia. }
  split; [done|]. split; [lia|]. intros Hm Hz. specialize (proj2 Hb Hm Hz). lia.
Qed.

(** A hook that always delivers. *)
Definition hook_ok : option (list (Z * Z) → Z → Z → bool) := Some (fun _ _ _ => true).
(** The two waiters while one unit is free. *)
Definition one_free : world := (fst (fst park2)) <| w_fc ::= (fun fc => fc <| s_inflight := 1 |>) |>.

Lemma inflight_ok w n : pool_ok (w_fc w) → pool_ok (w_fc (w <| w_fc ::= (fun fc => fc <| s_inflight := n |>) |>)).
Proof. by apply pool_ok_view. Qed.
Lemma one_free_ok : pool_ok (w_fc one_free).
Proof. apply inflight_ok, park2_ok. Qed.

Lemma fc_wake_room_bounded_witness :
  zlen (w_wakes (fc_queue_wake_room (fun _ => true) hook_ok one_free)) - zlen (w_wakes one_free) ≤ 1.
Proof.
  destruct (fc_wake_room_bounded (fun _ => true) hook_ok one_free one_free_ok) as (_ & _ & H).
  - vm_compute. split; [discriminate|reflexivity].
  - vm_compute. discriminate.
  - apply H; vm_compute; congruence.
Defined.

(** C39. No free unit is left unused while a request waits: on an enforcing
    pool with a ceiling, without a share and without floors, when the hook
    delivers, the wake loop gives as many turns as there are free units or
    waiters, whichever is less, and the line is shorter by as many. *)
Theorem fc_wake_room_fills calloc hook w :
  delivers hook → pool_ok (w_fc w) → open_pool (w_fc w) →
  c_mode (w_cfg w) = FC_MODE_ENFORCE → fc_svc_cap (w_fc w) ≠ 0 → 0 ≤ fc_svc_cap (w_fc w) →
  let w' := fc_queue_wake_room calloc hook w in
  let n := Z.min (zlen (ring_abs (w_queue w))) (Z.max 0 (fc_svc_cap (w_fc w) - s_inflight (w_fc w))) in
  zlen (ring_abs (w_queue w')) = zlen (ring_abs (w_queue w)) - n ∧ zlen (w_wakes w') = zlen (w_wakes w) + n.
Proof.
  intros Hd Hok Hop Hm Hc Hc0. cbn zeta. unfold fc_queue_wake_room. pose proof (zlen_nonneg (ring_abs (w_queue w))).
  rewrite bool_decide_true by (destruct Hd as (h & -> & _); done). cbn [negb].
  assert (Hq : fc_queued (w_fc w) = zlen (ring_abs (w_queue w))).
  { unfold fc_queued. destruct (pk_pub _ Hok) as [-> _]. apply (rw_count _ (pk_ring _ Hok)). }
  assert (Hb : wake_budget (w_fc w) = Z.min (zlen (ring_abs (w_queue w))) (Z.max 0 (fc_svc_cap (w_fc w) - s_inflight (w_fc w)))).
  { unfold wake_budget, fc_inflight. rewrite Hq. change (s_cfg (w_fc w)) with (w_cfg w).
    rewrite Hm, (proj2 (Z.eqb_neq _ 0)) by done. change (FC_MODE_ENFORCE =? FC_MODE_ENFORCE) with true. cbn [andb negb].
    repeat case_test; zbool; lia. }
  rewrite <- Hb. destruct (wake_turns_all calloc hook (Z.to_nat (wake_budget (w_fc w))) w azero Hd Hok Hop) as [-> ->]; [lia|].
  rewrite Z2Nat.id by lia. done.
Qed.

Lemma fc_wake_room_fills_witness :
  let w' := fc_queue_wake_room (fun _ => true) hook_ok one_free in
  zlen (ring_abs (w_queue w')) = 1 ∧ w_wakes w' = [(6, 1)].
Proof.
  cbn zeta. split; [|vm_compute; reflexivity].
  destruct (fc_wake_room_fills (fun _ => true) hook_ok one_free) as [H _].
  - exists (fun _ _ _ => true). split; reflexivity.
  - exact one_free_ok.
  - split; [intros b [->|[->| ->]]; vm_compute; discriminate|vm_compute; reflexivity|vm_compute; reflexivity].
  - vm_compute. reflexivity.
  - vm_compute. discriminate.
  - vm_compute. discriminate.
  - etransitivity; [exact H|]. vm_compute. reflexivity.
Defined.

(** A wake that cannot be delivered costs nobody a place: while memory
    lasts the same requests wait after it, and when no two of them arrived at
    the same time they wait in the same order. *)
Theorem fc_wake_undelivered_keeps_line calloc h w :
  pool_ok (w_fc w) → (∀ n, calloc n = true) → (∀ log fd gen, h log fd gen = false) →
  let w' := fc_queue_wake_one calloc (Some h) w in
  pool_ok (w_fc w') ∧ ring_abs (w_queue w') ≡ₚ ring_abs (w_queue w) ∧
  (StronglySorted (fun a b => e_enqueue_ns a < e_enqueue_ns b) (ring_abs (w_queue w)) →
   ring_abs (w_queue w') = ring_abs (w_queue w)).
Proof.
  intros Hok Hal Hh. cbn zeta. unfold fc_queue_wake_one. rewrite bool_decide_true by done. cbn [negb].
  destruct (_ || _); [done|]. destruct (wake_head_spec calloc (Some h) w azero Hok) as (Hok' & Hl & _).
  rewrite wake_head_refused in Hl by done. destruct (wake_refused_line _ _ _ _ Hal Hl). done.
Qed.

Lemma fc_wake_undelivered_witness :
  let w' := fc_queue_wake_one (fun _ => true) (Some (fun _ _ _ => false)) one_free in
  w_wakes w' = [(6, 1)] ∧ ring_abs (w_queue w') = ring_abs (w_queue one_free).
Proof.
  cbn zeta. split; [vm_compute; reflexivity|].
  destruct (fc_wake_undelivered_keeps_line (fun _ => true) (fun _ _ _ => false) one_free one_free_ok) as (_ & _ & H).
  - reflexivity.
  - reflexivity.
  - apply H. vm_compute. repeat constructor.
Defined.

(** What the owner of a waiting request is told is where its request is:
    evicted (its answer comes off the list, once), still in line, or neither,
    and then it is its turn. Its resume never takes anybody out of the line. *)
Theorem fc_queue_resume_exact w p :
  pool_ok (w_fc w) → 0 ≤ p_q_fd p → p_state p = FC_P_QUEUED →
  let '(w', p', r) := fc_queue_owner_resume w p in
  pool_ok (w_fc w') ∧ ring_abs (w_queue w') = ring_abs (w_queue w) ∧
  match r with
  | FC_RESUME_EVICTED => p_state p' = FC_P_NONE ∧ p_q_parked p' = false ∧
      ∃ l1 v l2, listed p v ∧ q_evicted (w_queue w) = l1 ++ v :: l2 ∧ q_evicted (w_queue w') = l1 ++ l2
  | FC_RESUME_WAIT => (w', p') = (w, p) ∧ ∃ e, e ∈ ring_abs (w_queue w) ∧ is_entry_of p e
  | FC_RESUME_TURN => (w', p') = (w, p <| p_state := FC_P_NONE |> <| p_woken := true |>) ∧
      (∀ e, e ∈ ring_abs (w_queue w) → ¬ is_entry_of p e) ∧ (∀ v, v ∈ q_evicted (w_queue w) → ¬ listed p v)
  | FC_RESUME_NOT_QUEUED | FC_RESUME_DECIDED => False
  end.
Proof.
  intros Hok Hfd Hs. pose proof (resume_spec w p Hok Hfd Hs) as H. cbn zeta in H.
  by destruct (fc_queue_owner_resume w p) as [[w' p'] r].
Qed.

Lemma fc_queue_resume_witness :
  snd (fc_queue_owner_resume (fst (fst park1)) (snd (fst park1))) = FC_RESUME_WAIT ∧
  ∃ e, e ∈ ring_abs (w_queue (fst (fst park1))) ∧ is_entry_of (snd (fst park1)) e.
Proof.
  pose proof (fc_queue_resume_exact (fst (fst park1)) (snd (fst park1)) park1_ok ltac:(vm_compute; discriminate)
    ltac:(vm_compute; reflexivity)) as H.
  assert (E : snd (fc_queue_owner_resume (fst (fst park1)) (snd (fst park1))) = FC_RESUME_WAIT) by (vm_compute; reflexivity).
  split; [exact E|]. destruct (fc_queue_owner_resume _ _) as [[w' p'] r]. cbn [snd] in E. rewrite E in H.
  destruct H as (_ & _ & _ & H). exact H.
Defined.

(** A parked request is answered once: of all the paths that end a park,
    in any order and any number (its deadline, cancellation or drain, its owner's
    resume, the pass over the evicted), at most one wins the permit. *)
Theorem fc_settle_once w p ops : zcount (fun won : bool => won) (snd (settle_run w p ops)) ≤ 1.
Proof.
  revert w p. induction ops as [|op ops IH]; intros w p; cbn [settle_run]; [done|].
  destruct (settle_do_state w p op) as [_ H]. destruct (settle_do w p op) as [[w1 p1] won]. cbn [fst snd] in H.
  pose proof (settle_run_none w1 p1 ops) as Hn. specialize (IH w1 p1).
  destruct (settle_run w1 p1 ops) as [[w2 p2] wins]. cbn [snd zcount] in *.
  destruct won; cbn [Z.b2z]; [|lia]. specialize (Hn (H eq_refl)). lia.
Qed.

(** Draining empties the queue: the handler is called with every waiter,
    the oldest first, each taken out before it is called, and nobody is left. *)
Theorem fc_queue_drain_all fn w :
  (∀ w e, queue_view (w_fc (fst (fn w e))) = queue_view (w_fc w)) → pool_ok (w_fc w) →
  let w' := fc_queue_drain fn w in
  w' = fst (fc_queue_pop (foldl (drain_one fn) w (ring_abs (w_queue w)))) ∧
  pool_ok (w_fc w') ∧ ring_abs (w_queue w') = [] ∧ s_queued (w_fc w') = 0.
Proof.
  intros Hfn Hok. cbn zeta. unfold fc_queue_drain.
  destruct (queue_drain_spec fn (S (Z.to_nat (q_count (w_queue w)))) w Hfn Hok) as (H1 & H2 & H3).
  { pose proof (rw_count _ (pk_ring _ Hok)) as Hc. change (s_queue (w_fc w)) with (w_queue w) in Hc. rewrite Hc. unfold zlen. lia. }
  split_and!; [done|done|done|]. destruct (pk_pub _ H2) as [-> _]. rewrite (rw_count _ (pk_ring _ H2)).
  change (s_queue (w_fc ?x)) with (w_queue x). by rewrite H3.
Qed.

(** A handler that answers everybody. *)
Definition answer_all : world → fc_queue_ent → world * bool := fun w _ => (w, true).

Lemma fc_queue_drain_witness :
  let w' := fc_queue_drain answer_all (fst (fst park2)) in
  ring_abs (w_queue w') = [] ∧ zget (s_decisions (w_fc w')) (fc_reason_ix FC_R_DRAINED) = 2.
Proof.
  cbn zeta. split; [|vm_compute; reflexivity].
  destruct (fc_queue_drain_all answer_all (fst (fst park2))) as (_ & _ & H & _); [reflexivity|exact park2_ok|exact H].
Defined.

(** No waiter is forgotten by the timer: after a deadline pass the timer is
    set no later than any waiter's deadline, or the next pass time (25 ms on)
    for one that is due, provided the expiry the caller hands in keeps the
    queue and the timer's own fields. *)
Theorem fc_deadline_pass_covers expire w now :
  (∀ w e t, pass_ok w → pass_ok (expire w e t) ∧ d_tfd (w_timer (expire w e t)) = d_tfd (w_timer w) ∧
     d_last_fire_ns (w_timer (expire w e t)) = d_last_fire_ns (w_timer w)) →
  pass_ok w → d_tfd (w_timer w) > 0 → 0 < now < 18446744073709551616 - FC_DEADLINE_GRAIN_NS →
  let w' := fst (fc_deadline_pass expire w now) in
  pass_ok w' ∧
  ∀ e, e ∈ ring_abs (w_queue w') → 0 < e_deadline_ns e →
    0 < d_timer_ns (w_timer w') ≤ Z.max (e_deadline_ns e) (now + FC_DEADLINE_GRAIN_NS).
Proof. intros Hexp. exact (deadline_pass_ok expire Hexp w now). Qed.

(** An expiry that ends the park of the entry it is given. *)
Definition expire_entry (w : world) (e : fc_queue_ent) (_ : Z) : world :=
  fst (fst (fc_queue_take w (fc_permit_reset <| p_state := FC_P_QUEUED |> <| p_q_fd := e_fd e |> <| p_q_gen := e_gen e |>))).

Lemma take_timer w p : w_timer (fst (fst (fc_queue_take w p))) = w_timer w.
Proof.
  unfold fc_queue_take. destruct (negb _); [done|]. destruct (fc_ring_find _ _ _ _) as [i|]; [|done].
  unfold fc_permit_settle. case_decide; [|done]. cbn [negb fst]. unfold ring_take_tenant. destruct (fc_ring_take_at _ _) as [q e].
  cbn [fst]. destruct (dec_tenants (on_queue (fun _ => q) w) (e_tslot e) true) as (_ & _ & _ & _ & Ht & _). exact Ht.
Qed.

Lemma expire_entry_keeps w e t :
  pass_ok w → pass_ok (expire_entry w e t) ∧ d_tfd (w_timer (expire_entry w e t)) = d_tfd (w_timer w) ∧
  d_last_fire_ns (w_timer (expire_entry w e t)) = d_last_fire_ns (w_timer w).
Proof.
  intros [Hp Ht Hu]. unfold expire_entry. set (p := fc_permit_reset <| p_state := FC_P_QUEUED |> <| p_q_fd := _ |> <| p_q_gen := _ |>).
  rewrite !take_timer. split_and!; [|done|done]. destruct (take_spec w p Hp) as [Hok H]. split; [done|by rewrite take_timer|].
  destruct (fc_queue_take w p) as [[w' p'] won]. cbn [fst snd] in *. destruct won.
  - destruct H as (_ & _ & x & l1 & l2 & _ & Ha & ->). rewrite Ha in Hu. apply Forall_app in Hu as [H1 H2]. apply Forall_app. split; [done|].
    by inversion H2.
  - destruct H as [[= -> _] _]. done.
Qed.

(** The two waiters with a running timer. *)
Definition timed (w : world) : world := w <| w_timer := mk_fc_deadline 9 0 0 0 0 0 |>.
Lemma timed_ok w : pool_ok (w_fc w) → pool_ok (w_fc (timed w)).
Proof. done. Qed.

Lemma fc_deadline_pass_witness :
  let w' := fst (fc_deadline_pass expire_entry (timed (fst (fst park2))) 5000001500) in
  e_fd <$> ring_abs (w_queue w') = [6] ∧ 0 < d_timer_ns (w_timer w') ≤ 5025001500.
Proof.
  cbn zeta. split; [vm_compute; reflexivity|].
  destruct (fc_deadline_pass_covers expire_entry (timed (fst (fst park2))) 5000001500 expire_entry_keeps) as [_ H].
  - split; [apply timed_ok, park2_ok|vm_compute; split; congruence|vm_compute; repeat constructor; discriminate].
  - vm_compute. reflexivity.
  - vm_compute. split; reflexivity.
  - assert (He : ring_abs (w_queue (fst (fc_deadline_pass expire_entry (timed (fst (fst park2))) 5000001500))) =
      [mk_fc_queue_ent 6 true 0 (-1) 1 2000 5000002000]) by (vm_compute; reflexivity).
    rewrite He in H. apply (H (mk_fc_queue_ent 6 true 0 (-1) 1 2000 5000002000)); [left|vm_compute; reflexivity].
Defined.
