(* ===== verification/FcAdapt.v ===== *)
(** * Capacity admission: adaptive ceiling, warm-up, TTFT (src/common/sockproxy_fc.c)

    The ceiling a pool runs under while it adapts to telemetry, the ramp of an
    endpoint that has just come up, the time-to-first-token estimate, and the
    values a response may carry. The theorems give the bounds of the adaptive
    ceiling, that stale telemetry never widens it, how fast it tightens and
    recovers, and that the warm-up ramp is monotone and within its cap. *)

From stdpp Require Import base list gmap numbers.
From S2P Require Import Prelude FcTypes FcRing FcTenant FcFloors FcQueue FcFrame.

(** ** Warm-up *)

(** A pool adapts only with a ceiling; [floor] is a quarter of a cap, at least
    one. *)
Definition quarter (cap : Z) : Z := if negb (cap / 4 =? 0) then cap / 4 else 1.

(** [clock] is what fc_now_ns reads when the caller gives no time. *)
Definition fc_ep_cap_now (clock : Z) (fc : fc_state) (ep role now_ns : Z) : Z :=
  if (role <? 0) || (role >=? FC_ROLES) then 0
  else
    let cap := aget (c_ep_cap (s_cfg fc)) role in
    let win := c_warmup_ms (s_cfg fc) in
    if (cap =? 0) || (win =? 0) || (ep <? 0) || (ep >=? FC_MAX_EP) then cap
    else
      let since := zget (s_warm_since_ns fc) ep in
      if since =? 0 then cap
      else
        let now_ns := if now_ns =? 0 then clock else now_ns in
        let elapsed_ms := if now_ns <=? since then 0 else (now_ns - since) / 1000000 in
        if elapsed_ms >=? win then cap
        else u32 (quarter cap + u32 (u64 ((cap - quarter cap) * elapsed_ms) / win)).

Definition fc_ep_warm_start (clock : Z) (ep now_ns : Z) (fc : fc_state) : fc_state :=
  if (ep <? 0) || (ep >=? FC_MAX_EP) || (c_warmup_ms (s_cfg fc) =? 0) then fc
  else
    let now_ns := if now_ns =? 0 then clock else now_ns in
    fc <| s_warm_since_ns ::= (fun l => zset l ep now_ns) |>.

Definition fc_warming_eps (fc : fc_state) (now_ns : Z) : Z :=
  if c_warmup_ms (s_cfg fc) =? 0 then 0
  else
    let win_ns := c_warmup_ms (s_cfg fc) * 1000000 in
    zcount (fun e =>
      let since := zget (s_warm_since_ns fc) e in
      negb (since =? 0) && ((now_ns <=? since) || (now_ns - since <? win_ns))) (zseq FC_MAX_EP).

(** ** Time to first token *)

Definition fc_ttft_fresh (fc : fc_state) (ep now_ns : Z) : bool :=
  if (ep <? 0) || (ep >=? FC_MAX_EP) then false
  else
    let ts := zget (s_ttft_ts_ns fc) ep in
    if ts =? 0 then false
    else (now_ns <=? ts) || (now_ns - ts <=? c_telemetry_stale_ms (s_cfg fc) * 1000000).

Definition fc_ttft_sample (clock : Z) (ep ms now_ns : Z) (fc : fc_state) : fc_state :=
  if (ep <? 0) || (ep >=? FC_MAX_EP) then fc
  else
    let now_ns := if now_ns =? 0 then clock else now_ns in
    let old := zget (s_ttft_ewma_ms fc) ep in
    let next := if (old =? 0) || negb (fc_ttft_fresh fc ep now_ns)
                then if negb (ms =? 0) then ms else 1
                else u32 ((old * 7 + ms + 7) / 8) in
    fc <| s_ttft_ewma_ms ::= (fun l => zset l ep next) |>
       <| s_ttft_ts_ns ::= (fun l => zset l ep now_ns) |>.

Definition fc_ttft_over (fc : fc_state) (ep now_ns : Z) : bool * bool :=
  if c_ttft_target_ms (s_cfg fc) =? 0 then (false, false)
  else
    let f := fc_ttft_fresh fc ep now_ns in
    (f && (zget (s_ttft_ewma_ms fc) ep >? c_ttft_target_ms (s_cfg fc)), f).

(** The permit's own sample, from its dispatch to now. *)
Definition fc_permit_ttft (w : world) (p : fc_permit) : world :=
  if negb (bool_decide (p_state p = FC_P_EXECUTING)) || negb (bool_decide (is_Some (p_fc p)))
     || (p_admit_ns p =? 0)
  then w
  else if c_ttft_target_ms (w_cfg w) =? 0 then w
  else
    let ep := if aget (p_ep p) FC_ROLE_DECODE >=? 0 then aget (p_ep p) FC_ROLE_DECODE
              else aget (p_ep p) FC_ROLE_NORMAL in
    if ep <? 0 then w
    else if w_now w <=? p_admit_ns p then w
    else on_fc (fc_ttft_sample (w_now w) ep (u32 ((w_now w - p_admit_ns p) / 1000000)) (w_now w)) w.

(** ** The adaptive ceiling *)

Section adapt.
Context (calloc : Z → bool).
Context (wake_hook : option (list (Z * Z) → Z → Z → bool)).

(** The step of one tick, and whether it ends in a wake. *)
Definition adapt_step (fc : fc_state) (sig : fc_signal) : fc_state * bool :=
  let ceil := c_max_outstanding (s_cfg fc) in
  let eff := if (s_eff_max fc =? 0) || (s_eff_max fc >? ceil) then ceil else s_eff_max fc in
  let floor := quarter ceil in
  if negb (sig_fresh sig) then
    let fc := fc <| s_adapt_state := if eff <? ceil then FC_AS_FROZEN else FC_AS_OPEN |> in
    (if eff <? ceil then fc <| s_adapt_reason := FC_AR_STALE |> else fc, false)
  else if sig_queued sig || sig_ttft_over sig then
    let reason := if sig_queued sig then FC_AR_QUEUED else FC_AR_TTFT in
    let next := u32 (eff * 4 / 5) in
    let next := if next <? floor then floor else next in
    let fc := if next <? eff
              then fc <| s_eff_max := next |> <| s_adapt_moves ::= (fun m => (u64 (m.1 + 1), m.2)) |>
              else fc in
    (fc <| s_adapt_reason := reason |>
        <| s_adapt_state := if next <? ceil then FC_AS_TIGHTENED else FC_AS_OPEN |>, false)
  else
    let '(fc, eff) :=
      if eff <? ceil
      then (fc <| s_eff_max := eff + 1 |> <| s_adapt_moves ::= (fun m => (m.1, u64 (m.2 + 1))) |>
               <| s_adapt_reason := FC_AR_CLEAR |>, eff + 1)
      else (fc, eff) in
    (fc <| s_adapt_state := if eff <? ceil then FC_AS_TIGHTENED else FC_AS_OPEN |>, true).

Definition fc_adapt_tick (w : world) (sig : fc_signal) : world :=
  if negb (c_adaptive (w_cfg w)) || (c_max_outstanding (w_cfg w) =? 0) then w
  else
    let '(fc, wake) := adapt_step (w_fc w) sig in
    let w := w <| w_fc := fc |> in
    if wake then fc_queue_wake_room calloc wake_hook w else w.
End adapt.

(** The effective ceiling across a configuration change. *)
Definition fc_adapt_reset (fc : fc_state) (old : fc_cfg) : fc_state :=
  let ceil := c_max_outstanding (s_cfg fc) in
  let eff := s_eff_max fc in
  if negb (c_adaptive (s_cfg fc)) || (ceil =? 0)
  then fc <| s_eff_max := ceil |> <| s_adapt_state := FC_AS_OFF |> <| s_adapt_reason := FC_AR_NONE |>
  else
    let eff := if negb (c_adaptive old) || (c_max_outstanding old =? 0) || (eff =? 0) || (eff >? ceil)
                  || (eff >=? c_max_outstanding old)
               then ceil else eff in
    fc <| s_eff_max := eff |> <| s_adapt_state := if eff <? ceil then FC_AS_TIGHTENED else FC_AS_OPEN |>.

(** ** Admission headers *)

Record fc_expose := mk_fc_expose { x_inflight : Z; x_queued : Z; x_limit : Z }.

Definition fc_expose_take (w : world) (p : fc_permit) : option fc_expose :=
  if negb (bool_decide (p_state p = FC_P_EXECUTING)) || negb (bool_decide (is_Some (p_fc p))) then None
  else if negb (fc_active (w_fc w)) || negb (c_expose_headers (w_cfg w)) then None
  else Some (mk_fc_expose (fc_inflight (w_fc w)) (fc_queued (w_fc w)) (fc_svc_cap (w_fc w))).

(** ** Bounds of the ceiling *)

(** The ceiling of an adaptive pool: at least one and never over the limit. *)
Definition eff_ok (fc : fc_state) : Prop :=
  c_adaptive (s_cfg fc) = true → c_max_outstanding (s_cfg fc) ≠ 0 →
  1 ≤ s_eff_max fc ≤ c_max_outstanding (s_cfg fc).

Lemma quarter_bounds cap : 1 ≤ cap → 1 ≤ quarter cap ≤ cap.
Proof.
  intros. unfold quarter. pose proof (Z.div_pos cap 4 ltac:(lia) ltac:(lia)).
  pose proof (Z.div_le_upper_bound cap 4 cap ltac:(lia) ltac:(lia)). case_test; zbool; lia.
Qed.

(** Where one tick takes a ceiling [eff] under the limit [ceil]. *)
Definition tick_target (ceil eff : Z) (sig : fc_signal) : Z :=
  if negb (sig_fresh sig) then eff
  else if sig_queued sig || sig_ttft_over sig then Z.min eff (Z.max (quarter ceil) (eff * 4 / 5))
  else Z.min ceil (eff + 1).

Lemma adapt_step_target fc sig :
  1 ≤ s_eff_max fc ≤ c_max_outstanding (s_cfg fc) → c_max_outstanding (s_cfg fc) < 4294967296 →
  let fc' := fst (adapt_step fc sig) in
  s_cfg fc' = s_cfg fc ∧ s_inflight fc' = s_inflight fc ∧
  s_eff_max fc' = tick_target (c_max_outstanding (s_cfg fc)) (s_eff_max fc) sig.
Proof.
  intros He Hc. unfold adapt_step, tick_target.
  assert ((s_eff_max fc =? 0) || (s_eff_max fc >? c_max_outstanding (s_cfg fc)) = false) as ->.
  { apply orb_false_iff. split; [apply Z.eqb_neq; lia|]. rewrite Z.gtb_ltb. apply Z.ltb_ge. lia. }
  destruct (sig_fresh sig); cbn [negb].
  2: { case_test; split_and!; done. }
  pose proof (quarter_bounds (c_max_outstanding (s_cfg fc)) ltac:(lia)) as Hq.
  destruct (sig_queued sig || sig_ttft_over sig).
  - assert (0 ≤ s_eff_max fc * 4 / 5 ≤ s_eff_max fc).
    { split; [apply Z.div_pos; lia|]. apply Z.div_le_upper_bound; lia. }
    rewrite u32_small by lia. set (next := if _ <? quarter _ then _ else _).
    assert (next = Z.max (quarter (c_max_outstanding (s_cfg fc))) (s_eff_max fc * 4 / 5)) as <-
      by (unfold next; case_test; zbool; lia).
    clearbody next. destruct (next <? s_eff_max fc) eqn:E; zbool; cbn; split_and!; try done; lia.
  - destruct (s_eff_max fc <? _) eqn:E; zbool; cbn; split_and!; try done; lia.
Qed.

Lemma tick_target_bounds ceil eff sig : 1 ≤ eff ≤ ceil → 1 ≤ tick_target ceil eff sig ≤ ceil.
Proof.
  intros. pose proof (quarter_bounds ceil ltac:(lia)). unfold tick_target.
  assert (0 ≤ eff * 4 / 5) by (apply Z.div_pos; lia). case_test; [lia|]. case_test; lia.
Qed.

Lemma adapt_tick_target calloc hook w sig :
  c_adaptive (w_cfg w) = true → 1 ≤ s_eff_max (w_fc w) ≤ c_max_outstanding (w_cfg w) →
  c_max_outstanding (w_cfg w) < 4294967296 →
  let w' := fc_adapt_tick calloc hook w sig in
  w_cfg w' = w_cfg w ∧ s_inflight (w_fc w') = s_inflight (w_fc w) ∧
  s_eff_max (w_fc w') = tick_target (c_max_outstanding (w_cfg w)) (s_eff_max (w_fc w)) sig.
Proof.
  intros Ha He Hc. unfold fc_adapt_tick. rewrite Ha. cbn [negb orb].
  rewrite (proj2 (Z.eqb_neq _ 0)) by lia. destruct (adapt_step_target (w_fc w) sig He Hc) as (H1 & H2 & H3).
  destruct (adapt_step (w_fc w) sig) as [fc wake]. cbn [fst] in *.
  destruct wake; [|done]. destruct (wake_room_same calloc hook (w <| w_fc := fc |>)) as ((E1 & _ & _ & E4 & E5) & _).
  unfold w_cfg. rewrite E1, E4, E5. done.
Qed.

(** [n] ticks of the same signal. *)
Fixpoint ticks (calloc : Z → bool) (hook : option (list (Z * Z) → Z → Z → bool)) (n : nat) (sig : fc_signal)
    (w : world) : world :=
  match n with
  | O => w
  | S n => ticks calloc hook n sig (fc_adapt_tick calloc hook w sig)
  end.
Fixpoint targets (n : nat) (ceil eff : Z) (sig : fc_signal) : Z :=
  match n with
  | O => eff
  | S n => targets n ceil (tick_target ceil eff sig) sig
  end.

Lemma ticks_targets calloc hook n sig w :
  c_adaptive (w_cfg w) = true → 1 ≤ s_eff_max (w_fc w) ≤ c_max_outstanding (w_cfg w) →
  c_max_outstanding (w_cfg w) < 4294967296 →
  let w' := ticks calloc hook n sig w in
  w_cfg w' = w_cfg w ∧ s_eff_max (w_fc w') = targets n (c_max_outstanding (w_cfg w)) (s_eff_max (w_fc w)) sig.
Proof.
  revert w. induction n as [|n IH]; intros w Ha He Hc; cbn [ticks targets]; [done|].
  destruct (adapt_tick_target calloc hook w sig Ha He Hc) as (H1 & _ & H3).
  pose proof (tick_target_bounds _ _ sig He) as Hb.
  destruct (IH (fc_adapt_tick calloc hook w sig)) as [H4 H5]; [by rewrite H1|by rewrite H1, H3|by rewrite H1|].
  by rewrite H4, H5, H1, H3.
Qed.

Lemma targets_clear n ceil eff : 1 ≤ eff ≤ ceil →
  targets n ceil eff (mk_fc_signal true false false) = Z.min ceil (eff + Z.of_nat n).
Proof.
  revert eff. induction n as [|n IH]; intros eff He; cbn [targets]; [lia|]. cbn. rewrite IH; lia.
Qed.

Lemma targets_pressure n ceil eff queued over : 1 ≤ eff ≤ ceil → quarter ceil ≤ eff → queued || over = true →
  eff - Z.of_nat n ≤ quarter ceil → targets n ceil eff (mk_fc_signal true queued over) = quarter ceil.
Proof.
  intros He Hq Hp. revert eff He Hq. induction n as [|n IH]; intros eff He Hq Hn; cbn [targets]; [lia|].
  unfold tick_target. cbn [sig_fresh sig_queued sig_ttft_over negb]. rewrite Hp.
  pose proof (quarter_bounds ceil ltac:(lia)).
  assert (eff * 4 / 5 < eff) by (apply Z.div_lt_upper_bound; lia). apply IH; lia.
Qed.

(** The states of one reset: the pool of a new configuration. *)
Lemma adapt_reset_ok fc old : 0 ≤ c_max_outstanding (s_cfg fc) → 0 ≤ s_eff_max fc → eff_ok (fc_adapt_reset fc old).
Proof.
  intros Hc He. unfold eff_ok, fc_adapt_reset. destruct (c_adaptive (s_cfg fc)) eqn:Ea; cbn [negb orb].
  2: { cbn. by rewrite Ea. }
  destruct (c_max_outstanding (s_cfg fc) =? 0) eqn:Ec; zbool; cbn; [lia|]. intros _ _.
  destruct (_ || (s_eff_max fc >=? _)) eqn:E; [lia|]. zbool. lia.
Qed.

(** ** The ramp *)

Definition ramp (cap win elapsed_ms : Z) : Z :=
  if elapsed_ms >=? win then cap else quarter cap + (cap - quarter cap) * elapsed_ms / win.

Lemma ramp_bounds cap win t : 1 ≤ cap → 1 ≤ win → 0 ≤ t → quarter cap ≤ ramp cap win t ≤ cap.
Proof.
  intros Hc Hw Ht. pose proof (quarter_bounds cap Hc). unfold ramp. case_test; zbool; [lia|].
  assert (0 ≤ (cap - quarter cap) * t / win) by (apply Z.div_pos; nia).
  assert ((cap - quarter cap) * t / win ≤ cap - quarter cap) by (apply Z.div_le_upper_bound; nia). lia.
Qed.

Lemma ramp_mono cap win t t' : 1 ≤ cap → 1 ≤ win → 0 ≤ t ≤ t' → ramp cap win t ≤ ramp cap win t'.
Proof.
  intros Hc Hw Ht. destruct (t' >=? win) eqn:E.
  - unfold ramp at 2. rewrite E. apply ramp_bounds; lia.
  - unfold ramp. rewrite E. zbool.
    destruct (t >=? win) eqn:E2; zbool; [lia|].
    pose proof (quarter_bounds cap Hc). apply Zplus_le_compat_l, Z.div_le_mono; [lia|nia].
Qed.

Definition elapsed_since (since now_ns : Z) : Z := if now_ns <=? since then 0 else (now_ns - since) / 1000000.

Lemma elapsed_mono since t t' : t ≤ t' → 0 ≤ elapsed_since since t ≤ elapsed_since since t'.
Proof.
  intros. unfold elapsed_since. destruct (t <=? since) eqn:E1, (t' <=? since) eqn:E2; zbool; try lia.
  - split; [lia|]. apply Z.div_pos; lia.
  - split; [apply Z.div_pos; lia|]. apply Z.div_le_mono; lia.
Qed.

(** A warming endpoint's cap is the ramp: nothing in it overflows. *)
Lemma ep_cap_now_ramp clock fc ep role t :
  let cap := aget (c_ep_cap (s_cfg fc)) role in
  let win := c_warmup_ms (s_cfg fc) in
  let since := zget (s_warm_since_ns fc) ep in
  0 ≤ role < FC_ROLES → 0 ≤ ep < FC_MAX_EP → 1 ≤ cap < 4294967296 → 1 ≤ win ≤ FC_WARMUP_MS_MAX →
  since ≠ 0 → 0 < t → fc_ep_cap_now clock fc ep role t = ramp cap win (elapsed_since since t).
Proof.
  intros cap win since Hr He Hc Hw Hs Ht. unfold fc_ep_cap_now. fold cap win since.
  unfold FC_ROLES, FC_MAX_EP, FC_WARMUP_MS_MAX in *.
  rewrite (proj2 (Z.ltb_ge role 0)), Z.geb_leb, (proj2 (Z.leb_gt 3 role)) by lia.
  rewrite (proj2 (Z.eqb_neq cap 0)), (proj2 (Z.eqb_neq win 0)), (proj2 (Z.ltb_ge ep 0)),
    Z.geb_leb, (proj2 (Z.leb_gt 32 ep)), (proj2 (Z.eqb_neq since 0)), (proj2 (Z.eqb_neq t 0)) by lia.
  cbn [orb]. fold (elapsed_since since t). pose proof (elapsed_mono since t t (Z.le_refl _)) as [Hel _].
  pose proof (ramp_bounds cap win (elapsed_since since t) ltac:(lia) ltac:(lia) Hel) as Hb. revert Hb.
  unfold ramp. case_test; [done|]. zbool. pose proof (quarter_bounds cap ltac:(lia)). intros Hb.
  rewrite u64_small by nia. rewrite (u32_small (_ / _)) by lia. rewrite u32_small by lia. done.
Qed.

(** The estimate after a sample. *)
Definition ttft_next (fc : fc_state) (ep ms now_ns : Z) : Z :=
  let old := zget (s_ttft_ewma_ms fc) ep in
  if (old =? 0) || negb (fc_ttft_fresh fc ep now_ns) then if negb (ms =? 0) then ms else 1
  else u32 ((old * 7 + ms + 7) / 8).

Lemma ttft_sample_eq clock ep ms now_ns fc :
  0 ≤ ep < FC_MAX_EP → 0 < now_ns →
  fc_ttft_sample clock ep ms now_ns fc =
  fc <| s_ttft_ewma_ms ::= (fun l => zset l ep (ttft_next fc ep ms now_ns)) |>
     <| s_ttft_ts_ns ::= (fun l => zset l ep now_ns) |>.
Proof.
  unfold FC_MAX_EP. intros He Hn. unfold fc_ttft_sample, ttft_next, FC_MAX_EP.
  rewrite (proj2 (Z.ltb_ge ep 0)), Z.geb_leb, (proj2 (Z.leb_gt 32 ep)), (proj2 (Z.eqb_neq now_ns 0)) by lia.
  reflexivity.
Qed.

(** ** Theorems *)

(** One tick moves the ceiling of an adaptive pool exactly as its signal
    says: a stale signal holds it, pressure takes it to four fifths but never
    below a quarter of the limit by its own step, a clear signal gives one unit
    back; the ceiling stays between one and the limit, and no running request
    is touched. *)
Theorem fc_adapt_tick_exact calloc hook w sig :
  c_adaptive (w_cfg w) = true → 1 ≤ s_eff_max (w_fc w) ≤ c_max_outstanding (w_cfg w) →
  c_max_outstanding (w_cfg w) < 4294967296 →
  let w' := fc_adapt_tick calloc hook w sig in
  let ceil := c_max_outstanding (w_cfg w) in
  let eff := s_eff_max (w_fc w) in
  fc_svc_cap (w_fc w') =
    (if negb (sig_fresh sig) then eff
     else if sig_queued sig || sig_ttft_over sig then Z.min eff (Z.max (quarter ceil) (eff * 4 / 5))
     else Z.min ceil (eff + 1)) ∧
  1 ≤ fc_svc_cap (w_fc w') ≤ ceil ∧ s_inflight (w_fc w') = s_inflight (w_fc w).
Proof.
  intros Ha He Hc. destruct (adapt_tick_target calloc hook w sig Ha He Hc) as (H1 & H2 & H3). cbn zeta.
  assert (fc_svc_cap (w_fc (fc_adapt_tick calloc hook w sig)) =
    tick_target (c_max_outstanding (w_cfg w)) (s_eff_max (w_fc w)) sig) as E.
  { unfold fc_svc_cap. change (s_cfg (w_fc (fc_adapt_tick calloc hook w sig))) with (w_cfg (fc_adapt_tick calloc hook w sig)).
    rewrite H1, Ha, (proj2 (Z.eqb_neq _ 0)) by lia. exact H3. }
  rewrite E. split_and!; [done|apply tick_target_bounds, He..|done].
Qed.

(** An adaptive pool of eight. *)
Definition adaptive_world (eff : Z) : world :=
  world_of (fc_state_zero <| s_cfg := fc_cfg_zero <| c_mode := FC_MODE_ENFORCE |> <| c_adaptive := true |>
                                        <| c_max_outstanding := 8 |> |> <| s_eff_max := eff |>).

Lemma fc_adapt_tick_exact_witness :
  fc_svc_cap (w_fc (fc_adapt_tick (fun _ => true) None (adaptive_world 8) (mk_fc_signal true true false))) = 6.
Proof.
  destruct (fc_adapt_tick_exact (fun _ => true) None (adaptive_world 8) (mk_fc_signal true true false)) as (H & _).
  - reflexivity.
  - vm_compute. split; discriminate.
  - reflexivity.
  - rewrite H. reflexivity.
Defined.

(** The ceiling reaches both of its ends: as many clear ticks as it
    is below the limit open the pool fully, and under steady pressure it comes
    down to a quarter of the limit and stays there. *)
Theorem fc_adapt_converges calloc hook n w queued over :
  c_adaptive (w_cfg w) = true → 1 ≤ s_eff_max (w_fc w) ≤ c_max_outstanding (w_cfg w) →
  c_max_outstanding (w_cfg w) < 4294967296 →
  let ceil := c_max_outstanding (w_cfg w) in
  let eff := s_eff_max (w_fc w) in
  (ceil - eff ≤ Z.of_nat n → s_eff_max (w_fc (ticks calloc hook n (mk_fc_signal true false false) w)) = ceil) ∧
  (queued || over = true → quarter ceil ≤ eff → eff - quarter ceil ≤ Z.of_nat n →
   s_eff_max (w_fc (ticks calloc hook n (mk_fc_signal true queued over) w)) = quarter ceil).
Proof.
  intros Ha He Hc ceil eff. split.
  - intros Hn. destruct (ticks_targets calloc hook n (mk_fc_signal true false false) w Ha He Hc) as [_ ->].
    rewrite targets_clear by done. fold ceil eff. lia.
  - intros Hp Hq Hn. destruct (ticks_targets calloc hook n (mk_fc_signal true queued over) w Ha He Hc) as [_ ->].
    apply targets_pressure; [done|done|done|]. fold ceil eff. lia.
Qed.

Lemma fc_adapt_converges_witness :
  s_eff_max (w_fc (ticks (fun _ => true) None 6 (mk_fc_signal true false false) (adaptive_world 2))) = 8 ∧
  s_eff_max (w_fc (ticks (fun _ => true) None 6 (mk_fc_signal true false true) (adaptive_world 8))) = 2.
Proof.
  split.
  - apply (fc_adapt_converges (fun _ => true) None 6 (adaptive_world 2) false false);
      vm_compute; try split; congruence.
  - apply (fc_adapt_converges (fun _ => true) None 6 (adaptive_world 8) false true);
      vm_compute; try split; congruence.
Defined.

(** An endpoint that warms up is allowed at least a quarter of its cap
    and never more than it, the allowance only grows with time, and at the end
    of the window it is the cap. *)
Theorem fc_ep_cap_now_ramps clock fc ep role t t' :
  let cap := aget (c_ep_cap (s_cfg fc)) role in
  let win := c_warmup_ms (s_cfg fc) in
  let since := zget (s_warm_since_ns fc) ep in
  0 ≤ role < FC_ROLES → 0 ≤ ep < FC_MAX_EP → 1 ≤ cap < 4294967296 → 1 ≤ win ≤ FC_WARMUP_MS_MAX →
  0 < since → 0 < t ≤ t' →
  quarter cap ≤ fc_ep_cap_now clock fc ep role t ≤ fc_ep_cap_now clock fc ep role t' ∧
  fc_ep_cap_now clock fc ep role t' ≤ cap ∧
  (since + win * 1000000 ≤ t' → fc_ep_cap_now clock fc ep role t' = cap).
Proof.
  intros cap win since Hr He Hc Hw Hs Ht.
  rewrite !ep_cap_now_ramp by (try done; lia). fold cap win since.
  pose proof (elapsed_mono since t t' ltac:(lia)).
  pose proof (ramp_bounds cap win (elapsed_since since t)). pose proof (ramp_bounds cap win (elapsed_since since t')).
  pose proof (ramp_mono cap win (elapsed_since since t) (elapsed_since since t')).
  split_and!; [lia..|]. intros Hend. unfold ramp. case_test; [done|]. zbool.
  assert (win ≤ elapsed_since since t'); [|lia]. unfold elapsed_since. case_test; zbool; [lia|].
  apply Z.div_le_lower_bound; lia.
Qed.

(** Endpoint 1 with a cap of eight, warming since 1 ms for one second. *)
Definition warming : fc_state :=
  fc_state_zero <| s_cfg := fc_cfg_zero <| c_ep_cap := Arr3 8 0 0 |> <| c_warmup_ms := 1000 |> |>
                <| s_warm_since_ns := zset (zrep FC_MAX_EP 0) 1 1000000 |>.

Lemma fc_ep_cap_now_ramps_witness :
  2 ≤ fc_ep_cap_now 0 warming 1 FC_ROLE_NORMAL 501000000 ≤ fc_ep_cap_now 0 warming 1 FC_ROLE_NORMAL 1001000000 ∧
  fc_ep_cap_now 0 warming 1 FC_ROLE_NORMAL 501000000 = 5 ∧
  fc_ep_cap_now 0 warming 1 FC_ROLE_NORMAL 1001000000 = 8.
Proof.
  destruct (fc_ep_cap_now_ramps 0 warming 1 FC_ROLE_NORMAL 501000000 1001000000) as (H1 & _ & H3);
    try (vm_compute; split; congruence); try reflexivity.
  split; [exact H1|]. split; [reflexivity|]. apply H3. vm_compute. discriminate.
Defined.

(** A fresh time-to-first-token estimate stays between its old value and
    the new sample and is never zero; after a silence it starts over from the
    sample. The sample's time is recorded, so the estimate is fresh at that time. *)
Theorem fc_ttft_sample_between clock ep ms now_ns fc :
  0 ≤ ep < FC_MAX_EP → fits32 ms → 0 < now_ns → fits32 (zget (s_ttft_ewma_ms fc) ep) →
  zlen (s_ttft_ewma_ms fc) = FC_MAX_EP → zlen (s_ttft_ts_ns fc) = FC_MAX_EP →
  let fc' := fc_ttft_sample clock ep ms now_ns fc in
  let old := zget (s_ttft_ewma_ms fc) ep in
  let new := zget (s_ttft_ewma_ms fc') ep in
  fc_ttft_fresh fc' ep now_ns = true ∧ 1 ≤ new ∧
  (if (old =? 0) || negb (fc_ttft_fresh fc ep now_ns) then new = Z.max 1 ms
   else Z.min old ms ≤ new ≤ Z.max old ms).
Proof.
  intros He Hm Hn Ho Hl1 Hl2. cbn zeta. rewrite ttft_sample_eq by done.
  unfold FC_MAX_EP, fits32 in *. set (old := zget (s_ttft_ewma_ms fc) ep) in *.
  cbn [s_ttft_ewma_ms field_set]. rewrite zget_zset_eq by lia. split.
  { unfold fc_ttft_fresh, FC_MAX_EP. rewrite (proj2 (Z.ltb_ge ep 0)), Z.geb_leb, (proj2 (Z.leb_gt 32 ep)) by lia.
    cbn. rewrite zget_zset_eq by lia. rewrite (proj2 (Z.eqb_neq now_ns 0)), Z.leb_refl by lia. done. }
  unfold ttft_next. fold old. destruct (_ || _) eqn:E.
  - destruct (ms =? 0) eqn:E0; zbool; cbn [negb]; lia.
  - zbool. assert (Z.min old ms ≤ (old * 7 + ms + 7) / 8 ≤ Z.max old ms ∧ 1 ≤ (old * 7 + ms + 7) / 8).
    { split_and!; [apply Z.div_le_lower_bound; lia| |apply Z.div_le_lower_bound; lia].
      apply Z.lt_succ_r, Z.div_lt_upper_bound; lia. }
    rewrite u32_small by lia. lia.
Qed.

Lemma fc_ttft_sample_witness :
  let fc := fc_ttft_sample 0 2 100 5 fc_state_zero in
  zget (s_ttft_ewma_ms fc) 2 = 100 ∧ fc_ttft_fresh fc 2 5 = true.
Proof.
  destruct (fc_ttft_sample_between 0 2 100 5 fc_state_zero) as (H1 & _ & H3).
  - vm_compute. split; congruence.
  - vm_compute. split; congruence.
  - reflexivity.
  - vm_compute. split; congruence.
  - reflexivity.
  - reflexivity.
  - split; [exact H3|exact H1].
Defined.
