(* ===== verification/FcExpose.v ===== *)
(** * Capacity admission: headers on admitted responses (src/common/sockproxy_fc.c)

    fc_expose_h1 puts the pool's three admission values into an HTTP/1.x
    response head that a backend sent: it checks the status line, finds the end
    of the head, takes out the backend's own lines of the same names and inserts
    the gateway's. The theorems say what the head becomes line by line, that the
    body is never touched, and that the values can be read back. *)

From stdpp Require Import base list numbers strings.
From Stdlib Require Import Ascii.
From S2P Require Import Prelude FcTypes FcConfig FcAdapt.

(** ** The buffer

    The first [len] bytes of the buffer are a list; [cap] is the room it has. *)

Definition bytes : Type := list ascii.
#[export] Instance ascii_inhabited : Inhabited ascii := populate zero.

Definition CR : ascii := "013"%char.
Definition LF : ascii := "010"%char.
Definition CRLF : bytes := [CR; LF].
Definition lit (s : string) : bytes := String.list_ascii_of_string s.

(** buf[i] == '\r' && buf[i + 1] == '\n' *)
Definition crlf_at (buf : bytes) (i : Z) : bool :=
  Ascii.eqb (zget buf i) CR && Ascii.eqb (zget buf (i + 1)) LF.

Inductive fc_expose_h1_res : Type := FC_EXPOSE_H1_DONE | FC_EXPOSE_H1_INTERIM | FC_EXPOSE_H1_SKIPPED.

Definition FC_EXPOSE_NAME : bytes := lit "x-loxilb-admission-".

(** The loop of fc_h1_head_end from [i], at most [k] turns. *)
Fixpoint head_end (k : nat) (buf : bytes) (i : Z) : Z :=
  match k with
  | O => 0
  | S k =>
      if i + 3 <? zlen buf then
        if crlf_at buf i && crlf_at buf (i + 2) then i + 2 else head_end k buf (i + 1)
      else 0
  end.

Definition fc_h1_head_end (buf : bytes) : Z := head_end (length buf) buf 0.

(** The end of the line that [i] is in: while (i < end && no CRLF at i) i++. *)
Fixpoint line_end (k : nat) (buf : bytes) (end_ i : Z) : Z :=
  match k with
  | O => i
  | S k => if (i <? end_) && negb (crlf_at buf i) then line_end k buf end_ (i + 1) else i
  end.
Definition eol_of (buf : bytes) (end_ i : Z) : Z := line_end (Z.to_nat (end_ - i)) buf end_ i + 2.

(** strncasecmp(at, name, strlen(name)) == 0 *)
Fixpoint prefix_ci (name at_ : bytes) : bool :=
  match name, at_ with
  | [], _ => true
  | a :: name, b :: at_ => Ascii.eqb (ascii_lower b) (ascii_lower a) && prefix_ci name at_
  | _ :: _, [] => false
  end.

(** memmove(buf + i, buf + eol, len - eol); len -= eol - i *)
Definition cut (buf : bytes) (i eol : Z) : bytes := take (Z.to_nat i) buf ++ drop (Z.to_nat eol) buf.

(** The loop that takes out the backend's lines: the buffer and [end] after. *)
Fixpoint strip_lines (k : nat) (buf : bytes) (end_ i : Z) : bytes * Z :=
  match k with
  | O => (buf, end_)
  | S k =>
      if i <? end_ then
        let eol := eol_of buf end_ i in
        if (eol - i >? zlen FC_EXPOSE_NAME) && prefix_ci FC_EXPOSE_NAME (drop (Z.to_nat i) buf)
        then strip_lines k (cut buf i eol) (end_ - (eol - i)) i
        else strip_lines k buf end_ eol
      else (buf, end_)
  end.

(** ** Printing *)

(** %u: the decimal digits of a 32-bit value, ten at most. *)
Definition digit_char (d : Z) : ascii := ascii_of_nat (48 + Z.to_nat d).
Fixpoint dec_digits (k : nat) (n : Z) (acc : bytes) : bytes :=
  match k with
  | O => acc
  | S k =>
      let acc := digit_char (n mod 10) :: acc in
      if n / 10 =? 0 then acc else dec_digits k (n / 10) acc
  end.
Definition print_u32 (n : Z) : bytes := dec_digits 10 n [].

(** A band triple as operators write it, by rank. *)
Definition fc_band_triple_fmt (v : arr3 Z) : bytes :=
  print_u32 (aget v (fc_band_at_rank 0)) ++ lit ":" ++ print_u32 (aget v (fc_band_at_rank 1)) ++ lit ":" ++
  print_u32 (aget v (fc_band_at_rank 2)).

Definition expose_lines (v : fc_expose) : list bytes :=
  [lit "X-Loxilb-Admission-Inflight: " ++ print_u32 (x_inflight v);
   lit "X-Loxilb-Admission-Queued: " ++ print_u32 (x_queued v);
   lit "X-Loxilb-Admission-Limit: " ++ print_u32 (x_limit v)].

(** Lines, each with its CRLF. *)
Definition head_of (lines : list bytes) : bytes := concat ((fun l => l ++ CRLF) <$> lines).

(** What snprintf writes: the three lines. *)
Definition expose_add (v : fc_expose) : bytes := head_of (expose_lines v).

(** ** fc_expose_h1 *)

Definition is_digit_in (lo hi : Z) (c : ascii) : bool :=
  match digit_of c with Some d => (lo <=? d) && (d <=? hi) | None => false end.
Definition digit_val (c : ascii) : Z := default 0 (digit_of c).

(** The status of a response that starts in [buf], when one does. *)
Definition response_status (buf : bytes) : option Z :=
  if (zlen buf <? 12) || negb (bool_decide (take 7 buf = lit "HTTP/1.")) ||
     negb (Ascii.eqb (zget buf 8) " "%char) || negb (is_digit_in 1 5 (zget buf 9)) ||
     negb (is_digit_in 0 9 (zget buf 10)) || negb (is_digit_in 0 9 (zget buf 11))
  then None
  else Some (digit_val (zget buf 9) * 100 + digit_val (zget buf 10) * 10 + digit_val (zget buf 11)).

Definition fc_expose_h1 (buf : bytes) (cap : Z) (v : fc_expose) : bytes * fc_expose_h1_res :=
  match response_status buf with
  | None => (buf, FC_EXPOSE_H1_SKIPPED)
  | Some status =>
      if status <? 200 then (buf, FC_EXPOSE_H1_INTERIM)
      else
        let end_ := fc_h1_head_end buf in
        if end_ =? 0 then (buf, FC_EXPOSE_H1_SKIPPED)
        else
          let '(buf, end_) := strip_lines (length buf) buf end_ (eol_of buf end_ 0) in
          let add := expose_add v in
          let n := zlen add in
          if (n <=? 0) || (n >=? 3 * 64) then (buf, FC_EXPOSE_H1_SKIPPED)
          else if zlen buf + n >? cap then (buf, FC_EXPOSE_H1_SKIPPED)
          else (take (Z.to_nat end_) buf ++ add ++ drop (Z.to_nat end_) buf, FC_EXPOSE_H1_DONE)
  end.

Example expose_example :
  fc_expose_h1 (lit "HTTP/1.1 200 OK" ++ CRLF ++ lit "X-LOXILB-Admission-Limit: 9" ++ CRLF ++
                lit "A: b" ++ CRLF ++ CRLF ++ lit "body") 4096 (mk_fc_expose 12 0 4294967295) =
  (lit "HTTP/1.1 200 OK" ++ CRLF ++ lit "A: b" ++ CRLF ++
   lit "X-Loxilb-Admission-Inflight: 12" ++ CRLF ++ lit "X-Loxilb-Admission-Queued: 0" ++ CRLF ++
   lit "X-Loxilb-Admission-Limit: 4294967295" ++ CRLF ++ CRLF ++ lit "body", FC_EXPOSE_H1_DONE).
Proof. vm_compute. reflexivity. Qed.

(** ** Lines of a head *)

Fixpoint has_crlf (l : bytes) : bool :=
  match l with
  | a :: ((b :: _) as t) => (Ascii.eqb a CR && Ascii.eqb b LF) || has_crlf t
  | _ => false
  end.

(** A line of a head, without its CRLF: not empty, no CRLF inside. *)
Definition line_ok (l : bytes) : Prop := l ≠ [] ∧ has_crlf l = false.

(** [buf] starts with a whole head: its first line, its header lines, the blank
    line, and then the body. *)
Definition whole_head (buf first : bytes) (lines : list bytes) (body : bytes) : Prop :=
  buf = head_of (first :: lines) ++ CRLF ++ body ∧ Forall line_ok (first :: lines).

(** A header line of the gateway's names. *)
Definition ours (l : bytes) : bool := prefix_ci FC_EXPOSE_NAME l.

Definition crlf_head (l : bytes) : bool :=
  match l with a :: b :: _ => Ascii.eqb a CR && Ascii.eqb b LF | _ => false end.

Lemma crlf_at_drop buf i : 0 ≤ i → crlf_at buf i = crlf_head (drop (Z.to_nat i) buf).
Proof.
  intros Hi. unfold crlf_at, zget. replace (Z.to_nat (i + 1)) with (S (Z.to_nat i)) by lia.
  generalize (Z.to_nat i). clear. intros n. revert buf. induction n as [|n IH]; intros [|a buf]; [done| |done|].
  - destruct buf; cbn; by rewrite ?andb_false_r.
  - apply IH.
Qed.

Lemma crlf_at_app pre l i : zlen pre = i → crlf_at (pre ++ l) i = crlf_head l.
Proof.
  intros <-. rewrite crlf_at_drop by (unfold zlen; lia). unfold zlen. rewrite Nat2Z.id. by rewrite drop_app_length.
Qed.

Lemma has_crlf_tail a l : has_crlf (a :: l) = false → has_crlf l = false.
Proof. destruct l; [done|]. cbn. intros H. by apply orb_false_iff in H as [_ ?]. Qed.

Lemma crlf_head_line a l post : has_crlf (a :: l) = false → crlf_head (a :: l ++ CRLF ++ post) = false.
Proof.
  destruct l as [|b l]; cbn; intros H; [|by apply orb_false_iff in H as [? _]].
  by rewrite andb_false_r.
Qed.

Lemma line_end_exact k pre l post end_ :
  has_crlf l = false → zlen pre + zlen l ≤ end_ → (length l ≤ k)%nat →
  line_end k (pre ++ l ++ CRLF ++ post) end_ (zlen pre) = zlen pre + zlen l.
Proof.
  revert k pre. induction l as [|a l IH]; intros k pre Hl He Hk.
  - destruct k; cbn [line_end]; [unfold zlen; cbn; lia|].
    rewrite (crlf_at_app pre _ (zlen pre)) by done. cbn. rewrite andb_false_r. unfold zlen. cbn. lia.
  - destruct k as [|k]; [cbn in Hk; lia|]. cbn [line_end].
    assert (Hz : zlen (a :: l) = 1 + zlen l) by (unfold zlen; cbn; lia).
    assert (Hn : 0 ≤ zlen l) by apply zlen_nonneg.
    rewrite (crlf_at_app pre _ (zlen pre)) by done. rewrite <- app_comm_cons, crlf_head_line by done.
    rewrite (proj2 (Z.ltb_lt _ _)) by lia. cbn [negb andb].
    specialize (IH k (pre ++ [a])). assert (Hp : zlen (pre ++ [a]) = zlen pre + 1) by (unfold zlen; rewrite length_app; cbn; lia).
    rewrite Hp, <- app_assoc in IH. cbn [app] in IH. rewrite IH; [lia|by eapply has_crlf_tail|lia|cbn in Hk; lia].
Qed.

Lemma eol_of_exact pre l post end_ :
  has_crlf l = false → zlen pre + zlen l ≤ end_ →
  eol_of (pre ++ l ++ CRLF ++ post) end_ (zlen pre) = zlen pre + zlen l + 2.
Proof. intros. unfold eol_of. rewrite line_end_exact; [lia|done|done|unfold zlen in *; lia]. Qed.

(** The comparison with the name does not depend on what follows the line. *)
Lemma prefix_ci_line name l post :
  forallb (fun c => negb (Ascii.eqb (ascii_lower CR) (ascii_lower c))) name = true →
  prefix_ci name (l ++ CRLF ++ post) = prefix_ci name l.
Proof.
  revert l. induction name as [|a name IH]; intros l Hn; [by destruct l|].
  cbn [forallb] in Hn. apply andb_true_iff in Hn as [Ha Hn]. apply negb_true_iff in Ha.
  destruct l as [|b l]; cbn [prefix_ci app CRLF]; [by rewrite Ha|]. by rewrite IH.
Qed.

Lemma prefix_ci_length name l : prefix_ci name l = true → zlen name ≤ zlen l.
Proof.
  revert l. induction name as [|a name IH]; intros [|b l] H; cbn in *; try (unfold zlen; cbn; lia || done).
  apply andb_true_iff in H as [_ H]. apply IH in H. unfold zlen in *. cbn. lia.
Qed.

Lemma ours_test l post :
  (zlen l + 2 >? zlen FC_EXPOSE_NAME) && prefix_ci FC_EXPOSE_NAME (l ++ CRLF ++ post) = ours l.
Proof.
  rewrite prefix_ci_line by reflexivity. unfold ours. destruct (prefix_ci _ l) eqn:E; [|by rewrite andb_false_r].
  apply prefix_ci_length in E. rewrite Z.gtb_ltb, (proj2 (Z.ltb_lt _ _)) by lia. done.
Qed.

(** ** Taking the backend's lines out *)

Lemma head_of_cons l lines : head_of (l :: lines) = l ++ CRLF ++ head_of lines.
Proof. unfold head_of. cbn. by rewrite <- app_assoc. Qed.

Lemma head_of_app ls ks : head_of (ls ++ ks) = head_of ls ++ head_of ks.
Proof. unfold head_of. by rewrite fmap_app, concat_app. Qed.

Lemma zlen_head_cons l lines : zlen (head_of (l :: lines)) = zlen l + 2 + zlen (head_of lines).
Proof. rewrite head_of_cons, !zlen_app. unfold CRLF, zlen. cbn. lia. Qed.

Lemma cut_line pre l post :
  cut (pre ++ l ++ CRLF ++ post) (zlen pre) (zlen pre + zlen l + 2) = pre ++ post.
Proof.
  unfold cut, zlen. rewrite Nat2Z.id, take_app_length. f_equal.
  replace (pre ++ l ++ CRLF ++ post) with ((pre ++ l ++ CRLF) ++ post) by (by rewrite <- !app_assoc).
  apply drop_app_length'. rewrite !length_app. cbn. lia.
Qed.

Lemma drop_pre pre (l : bytes) : drop (Z.to_nat (zlen pre)) (pre ++ l) = l.
Proof. unfold zlen. by rewrite Nat2Z.id, drop_app_length. Qed.

Lemma take_pre pre (l : bytes) : take (Z.to_nat (zlen pre)) (pre ++ l) = pre.
Proof. unfold zlen. by rewrite Nat2Z.id, take_app_length. Qed.

Lemma strip_lines_exact lines k pre body :
  Forall line_ok lines → (length lines < k)%nat →
  let kept := List.filter (fun l => negb (ours l)) lines in
  strip_lines k (pre ++ head_of lines ++ CRLF ++ body) (zlen pre + zlen (head_of lines)) (zlen pre) =
  (pre ++ head_of kept ++ CRLF ++ body, zlen pre + zlen (head_of kept)).
Proof.
  revert k pre. induction lines as [|l lines IH]; intros k pre Hok Hk; cbn zeta in *; (destruct k as [|k]; [cbn in Hk; lia|]).
  - cbn [strip_lines List.filter]. cbn. by rewrite Z.add_0_r, Z.ltb_irrefl.
  - apply Forall_cons in Hok as [[Hne Hl] Hok]. cbn [length] in Hk.
    pose proof (zlen_nonneg (head_of lines)). pose proof (zlen_nonneg l).
    cbn [strip_lines]. rewrite zlen_head_cons, (proj2 (Z.ltb_lt _ _)) by lia.
    rewrite head_of_cons, <- !(app_assoc l), <- (app_assoc CRLF). rewrite eol_of_exact by (done || lia).
    rewrite drop_pre. replace (zlen pre + zlen l + 2 - zlen pre) with (zlen l + 2) by lia. rewrite ours_test.
    cbn [List.filter]. destruct (ours l); cbn [negb].
    + rewrite cut_line. replace (zlen pre + (zlen l + 2 + zlen (head_of lines)) - (zlen l + 2))
        with (zlen pre + zlen (head_of lines)) by lia. apply IH; [done|lia].
    + specialize (IH k (pre ++ l ++ CRLF) Hok ltac:(lia)).
      assert (Hp : zlen (pre ++ l ++ CRLF) = zlen pre + zlen l + 2) by (rewrite !zlen_app; unfold CRLF, zlen; cbn; lia).
      rewrite Hp, <- !app_assoc in IH.
      replace (zlen pre + (zlen l + 2 + zlen (head_of lines))) with (zlen pre + zlen l + 2 + zlen (head_of lines)) by lia.
      rewrite IH. rewrite zlen_head_cons, head_of_cons, <- !app_assoc. f_equal. lia.
Qed.

(** ** The end of the head *)

Definition double_at (buf : bytes) (i : Z) : bool := crlf_at buf i && crlf_at buf (i + 2).

Lemma head_end_spec k buf i :
  0 ≤ i → zlen buf - i ≤ Z.of_nat k →
  let e := head_end k buf i in
  (e = 0 ∧ ∀ j, i ≤ j → j + 3 < zlen buf → double_at buf j = false) ∨
  (i + 2 ≤ e ∧ e + 1 < zlen buf ∧ double_at buf (e - 2) = true ∧ ∀ j, i ≤ j < e - 2 → double_at buf j = false).
Proof.
  revert i. induction k as [|k IH]; intros i Hi Hk; cbn zeta; cbn [head_end].
  - left. split; [done|]. lia.
  - case_test; zbool; [|left; split; [done|lia]]. fold (double_at buf i). destruct (double_at buf i) eqn:Ed.
    + right. split_and!; [lia|lia| |lia]. by replace (i + 2 - 2) with i by lia.
    + destruct (IH (i + 1)) as [[He Hj]|(H1 & H2 & H3 & H4)]; [lia|lia| |].
      * left. split; [done|]. intros j ??. destruct (decide (j = i)) as [->|]; [done|]. apply Hj; lia.
      * right. split_and!; [lia|done|done|]. intros j ?. destruct (decide (j = i)) as [->|]; [done|]. apply H4; lia.
Qed.

(** The first line of a buffer that has a CRLF at or before [j]. *)
Lemma first_line buf j :
  0 ≤ j → crlf_at buf j = true → ∃ l rest, buf = l ++ CRLF ++ rest ∧ has_crlf l = false ∧ zlen l ≤ j.
Proof.
  intros Hj. rewrite crlf_at_drop by done. rewrite <- (Z2Nat.id j Hj). rewrite Nat2Z.id. generalize (Z.to_nat j). clear j Hj.
  induction buf as [|a buf IH]; intros n; [by rewrite drop_nil|].
  destruct (crlf_head (a :: buf)) eqn:E.
  - intros _. destruct buf as [|b buf]; [done|]. cbn in E. apply andb_true_iff in E as [Ea Eb].
    apply Ascii.eqb_eq in Ea as ->. apply Ascii.eqb_eq in Eb as ->. exists [], buf. split_and!; [done|done|unfold zlen; cbn; lia].
  - destruct n as [|n]; cbn [drop]; [congruence|]. intros Hc. destruct (IH n Hc) as (l & rest & -> & Hl & Hz).
    exists (a :: l), rest. split_and!; [done| |unfold zlen in *; cbn [length]; lia].
    destruct l as [|b l]; [done|]. change ((Ascii.eqb a CR && Ascii.eqb b LF) || has_crlf (b :: l) = false). cbn in E. by rewrite E, Hl.
Qed.

Lemma double_app pre buf i : 0 ≤ i → double_at (pre ++ buf) (zlen pre + i) = double_at buf i.
Proof.
  intros. pose proof (zlen_nonneg pre). unfold double_at. rewrite !crlf_at_drop by lia.
  replace (Z.to_nat (zlen pre + i)) with (length pre + Z.to_nat i)%nat by (unfold zlen; lia).
  replace (Z.to_nat (zlen pre + i + 2)) with (length pre + Z.to_nat (i + 2))%nat by (unfold zlen; lia).
  by rewrite <- !drop_drop, !drop_app_length.
Qed.

(** A buffer up to its first double CRLF is a list of lines. *)
Lemma head_lines n buf e :
  (Z.to_nat e < n)%nat → 2 ≤ e → crlf_head buf = false → double_at buf (e - 2) = true →
  (∀ j, 0 ≤ j < e - 2 → double_at buf j = false) →
  ∃ first lines body, whole_head buf first lines body ∧ e = zlen (head_of (first :: lines)).
Proof.
  revert buf e. induction n as [|n IH]; intros buf e Hn He Hh Hd Hmin; [lia|].
  pose proof Hd as Hd'. apply andb_true_iff in Hd' as [Hc1 Hc2].
  destruct (first_line buf (e - 2)) as (l & rest & -> & Hl & Hz); [lia|done|].
  assert (Hne : l ≠ []) by (intros ->; done).
  assert (Hp : zlen (l ++ CRLF) = zlen l + 2) by (rewrite zlen_app; done).
  pose proof (zlen_nonneg l) as Hl0.
  assert (Hcl : crlf_at (l ++ CRLF ++ rest) (zlen l) = true) by by rewrite (crlf_at_app l _ (zlen l)).
  assert (Hcr : ∀ i, 0 ≤ i → crlf_at (l ++ CRLF ++ rest) (zlen l + 2 + i) = crlf_at rest i).
  { intros i ?. rewrite !crlf_at_drop by lia. f_equal.
    replace (Z.to_nat (zlen l + 2 + i)) with (length (l ++ CRLF) + Z.to_nat i)%nat by (unfold zlen in *; lia).
    by rewrite app_assoc, <- drop_drop, drop_app_length. }
  destruct (decide (zlen l = e - 2)) as [Heq|Hlt].
  - assert (Hb : crlf_at rest 0 = true) by (rewrite <- Hcr by lia; by replace (zlen l + 2 + 0) with (e - 2 + 2) by lia).
    rewrite crlf_at_drop in Hb by lia. destruct rest as [|a [|b body]]; [done|done|]. cbn in Hb.
    apply andb_true_iff in Hb as [Ea Eb]. apply Ascii.eqb_eq in Ea as ->. apply Ascii.eqb_eq in Eb as ->.
    exists l, [], body. split; [|rewrite zlen_head_cons; change (zlen (head_of [])) with 0; lia]. split; [|repeat constructor; done].
    rewrite head_of_cons. change (head_of []) with (@nil ascii). by rewrite app_nil_r, <- app_assoc.
  - assert (Hne2 : zlen l ≠ e - 3).
    { intros Hx. rewrite (app_assoc l), crlf_at_drop in Hc1 by lia.
      replace (Z.to_nat (e - 2)) with (length l + 1)%nat in Hc1 by (unfold zlen in *; lia).
      rewrite <- app_assoc, <- drop_drop, drop_app_length in Hc1. by destruct rest. }
    assert (Hrest : crlf_head rest = false).
    { pose proof (Hmin (zlen l) ltac:(lia)) as Hx. unfold double_at in Hx. rewrite Hcl in Hx. cbn [andb] in Hx.
      rewrite <- (Z.add_0_r (zlen l + 2)), Hcr in Hx by lia. by rewrite crlf_at_drop in Hx by lia. }
    assert (Hdr : ∀ i, 0 ≤ i → double_at rest i = double_at (l ++ CRLF ++ rest) (zlen l + 2 + i)).
    { intros. rewrite app_assoc, <- Hp. by rewrite double_app by lia. }
    destruct (IH rest (e - (zlen l + 2))) as (first & lines & body & [-> Hok] & He'); [lia|lia|done| | |].
    + rewrite Hdr by lia.
      by replace (zlen l + 2 + (e - (zlen l + 2) - 2)) with (e - 2) by lia.
    + intros j Hj. rewrite Hdr by lia. apply Hmin. lia.
    + exists l, (first :: lines), body. split; [|rewrite zlen_head_cons; lia]. split; [|by constructor].
      rewrite (head_of_cons l), <- !app_assoc. done.
Qed.

Lemma whole_head_double buf first lines body :
  whole_head buf first lines body →
  double_at buf (zlen (head_of (first :: lines)) - 2) = true ∧ zlen (head_of (first :: lines)) + 1 < zlen buf ∧
  2 ≤ zlen (head_of (first :: lines)).
Proof.
  intros [-> _]. assert (Hx : ∃ pre, head_of (first :: lines) = pre ++ CRLF).
  { destruct (exists_last (l := first :: lines)) as (ls & l & Hls); [done|].
    rewrite Hls, head_of_app, head_of_cons. change (head_of []) with (@nil ascii). exists (head_of ls ++ l). by rewrite app_nil_r, <- app_assoc. }
  destruct Hx as [pre ->]. pose proof (zlen_nonneg pre). pose proof (zlen_nonneg body).
  assert (Hp : zlen (pre ++ CRLF) = zlen pre + 2) by by rewrite zlen_app.
  rewrite Hp. split_and!; [|rewrite !zlen_app; unfold CRLF, zlen in *; cbn; lia|lia].
  replace (zlen pre + 2 - 2) with (zlen pre + 0) by lia. rewrite <- app_assoc, double_app by lia. done.
Qed.

(** ** Printing *)

Lemma dec_digits_length k n acc : (length (dec_digits k n acc) ≤ k + length acc)%nat.
Proof.
  revert n acc. induction k as [|k IH]; intros n acc; cbn [dec_digits]; [lia|]. case_test; [cbn; lia|].
  specialize (IH (n / 10) (digit_char (n mod 10) :: acc)). cbn [length] in IH. lia.
Qed.

Lemma dec_digits_nonempty k n acc : (length acc ≤ length (dec_digits k n acc))%nat.
Proof.
  revert n acc. induction k as [|k IH]; intros n acc; cbn [dec_digits]; [lia|]. case_test; [cbn; lia|].
  specialize (IH (n / 10) (digit_char (n mod 10) :: acc)). cbn [length] in IH. lia.
Qed.

Lemma expose_add_length v : 0 < zlen (expose_add v) < 3 * 64.
Proof.
  unfold expose_add, expose_lines. rewrite !zlen_head_cons, !zlen_app. change (zlen (head_of [])) with 0.
  assert (∀ n, 0 ≤ zlen (print_u32 n) ≤ 10).
  { intros n. unfold print_u32, zlen. pose proof (dec_digits_length 10 n []) as H. cbn [length] in H. lia. }
  pose proof (H (x_inflight v)). pose proof (H (x_queued v)). pose proof (H (x_limit v)).
  change (zlen (lit "X-Loxilb-Admission-Inflight: ")) with 29. change (zlen (lit "X-Loxilb-Admission-Queued: ")) with 27.
  change (zlen (lit "X-Loxilb-Admission-Limit: ")) with 26. lia.
Qed.

Lemma digit_of_char d : 0 ≤ d < 10 → digit_of (digit_char d) = Some d.
Proof.
  intros. unfold digit_of, digit_char. rewrite nat_ascii_embedding by lia.
  rewrite (proj2 (Z.leb_le _ _)), (proj2 (Z.leb_le _ _)) by lia. cbn [andb]. f_equal. lia.
Qed.

(** Reading back what was printed. *)
Definition text (l : bytes) : string := String.string_of_list_ascii l.

Lemma scan_dec_digits k n acc :
  0 ≤ n < 10 ^ Z.of_nat k → scan_digits (text (dec_digits k n acc)) 0 = scan_digits (text acc) n.
Proof.
  revert n acc. induction k as [|k IH]; intros n acc Hn; cbn [dec_digits].
  - replace n with 0 by lia. done.
  - pose proof (Z.mod_pos_bound n 10 ltac:(lia)). pose proof (Z.div_mod n 10 ltac:(lia)).
    assert (Hs : ∀ m, scan_digits (text (digit_char (n mod 10) :: acc)) m = scan_digits (text acc) (m * 10 + n mod 10)).
    { intros m. unfold text. cbn [String.string_of_list_ascii scan_digits]. by rewrite digit_of_char by lia. }
    case_test; zbool; [rewrite Hs; f_equal; lia|]. rewrite IH, Hs; [f_equal; lia|].
    rewrite Nat2Z.inj_succ, Z.pow_succ_r in Hn by lia. split; [apply Z.div_pos; lia|apply Z.div_lt_upper_bound; lia].
Qed.

Lemma dec_digits_head k n acc : 0 ≤ n → ∃ d t, dec_digits (S k) n acc = digit_char d :: t ∧ 0 ≤ d < 10.
Proof.
  revert n acc. induction k as [|k IH]; intros n acc Hn;
    (assert (0 ≤ n mod 10 < 10) by (apply Z.mod_pos_bound; lia)).
  - cbn [dec_digits]. case_test; by eexists _, _.
  - change (dec_digits (S (S k)) n acc) with
      (if n / 10 =? 0 then digit_char (n mod 10) :: acc else dec_digits (S k) (n / 10) (digit_char (n mod 10) :: acc)).
    case_test; [by eexists _, _|]. apply IH, Z.div_pos; lia.
Qed.

Lemma strtol_digits d t :
  0 ≤ d < 10 →
  strtol (String " " (text (digit_char d :: t))) =
  let '(v, rest) := scan_digits (text (digit_char d :: t)) 0 in Some (Z.max LONG_MIN (Z.min LONG_MAX v), rest).
Proof.
  intros. assert (d = 0 ∨ d = 1 ∨ d = 2 ∨ d = 3 ∨ d = 4 ∨ d = 5 ∨ d = 6 ∨ d = 7 ∨ d = 8 ∨ d = 9) as Hd by lia.
  destruct_or! Hd; subst d; reflexivity.
Qed.

Lemma strtol_print n : fits32 n → strtol (String " " (text (print_u32 n))) = Some (n, EmptyString).
Proof.
  intros Hn. unfold fits32 in Hn. unfold print_u32.
  pose proof (scan_dec_digits 10 n [] ltac:(lia)) as Hs.
  destruct (dec_digits_head 9 n [] ltac:(lia)) as (d & t & Hd & Hr). rewrite Hd in *.
  rewrite strtol_digits, Hs by done. unfold text. cbn [String.string_of_list_ascii scan_digits]. do 2 f_equal.
  unfold LONG_MIN, LONG_MAX. lia.
Qed.

(** What a reader of a header line takes as its number. *)
Fixpoint after_colon (l : bytes) : bytes :=
  match l with
  | [] => []
  | c :: l => if Ascii.eqb c ":"%char then l else after_colon l
  end.
Definition header_number (l : bytes) : option Z :=
  match strtol (text (after_colon l)) with Some (n, EmptyString) => Some n | _ => None end.

(** The admission lines say what the pool counts: a client that reads the
    number after the colon of each line gets the executing units, the waiting
    requests and the ceiling, for all 32-bit values. *)
Theorem fc_expose_values_read_back v :
  fits32 (x_inflight v) → fits32 (x_queued v) → fits32 (x_limit v) →
  header_number <$> expose_lines v = Some <$> [x_inflight v; x_queued v; x_limit v].
Proof.
  intros H1 H2 H3. apply strtol_print in H1, H2, H3. cbn [expose_lines fmap list_fmap].
  unfold header_number. cbn [lit String.list_ascii_of_string app after_colon Ascii.eqb Bool.eqb].
  unfold text in *. cbn [String.string_of_list_ascii]. by rewrite H1, H2, H3.
Qed.

Lemma fc_expose_values_read_back_witness :
  header_number <$> expose_lines (mk_fc_expose 7 0 4294967295) = [Some 7; Some 0; Some 4294967295].
Proof. apply (fc_expose_values_read_back (mk_fc_expose 7 0 4294967295)); unfold fits32; cbn; lia. Defined.

(** ** The whole rewrite *)

Lemma status_first buf s : response_status buf = Some s → crlf_head buf = false.
Proof.
  unfold response_status. case_test; [done|]. intros _. zbool.
  match goal with H : bool_decide _ = true |- _ => apply bool_decide_eq_true in H; rename H into Ht end.
  by destruct buf as [|a [|b buf]]; simplify_eq/=.
Qed.

Lemma head_end_whole buf s :
  response_status buf = Some s →
  (fc_h1_head_end buf = 0 ∧ ∀ first lines body, ¬ whole_head buf first lines body) ∨
  ∃ first lines body, whole_head buf first lines body ∧ fc_h1_head_end buf = zlen (head_of (first :: lines)) ∧
    fc_h1_head_end buf ≠ 0.
Proof.
  intros Hs. apply status_first in Hs. unfold fc_h1_head_end.
  destruct (head_end_spec (length buf) buf 0) as [[He Hno]|(H1 & H2 & H3 & H4)]; [lia|unfold zlen; lia| |].
  - left. split; [done|]. intros first lines body Hw. destruct (whole_head_double _ _ _ _ Hw) as (Hd & Hl & H2).
    rewrite Hno in Hd by lia. done.
  - right. destruct (head_lines (S (Z.to_nat (head_end (length buf) buf 0))) buf (head_end (length buf) buf 0))
      as (first & lines & body & Hw & He); [lia|lia|done|done|done|].
    exists first, lines, body. split_and!; [done|done|lia].
Qed.

Lemma head_of_length lines : (2 * length lines ≤ length (head_of lines))%nat.
Proof. induction lines as [|l lines IH]; [done|]. rewrite head_of_cons, !length_app. cbn [length CRLF]. lia. Qed.

(** The stripped head of a buffer with a whole head. *)
Lemma strip_whole buf first lines body :
  whole_head buf first lines body →
  let kept := first :: List.filter (fun l => negb (ours l)) lines in
  let end_ := zlen (head_of (first :: lines)) in
  strip_lines (length buf) buf end_ (eol_of buf end_ 0) = (head_of kept ++ CRLF ++ body, zlen (head_of kept)).
Proof.
  intros [-> Hok]. apply Forall_cons in Hok as [[Hne Hl] Hok]. cbn zeta.
  rewrite !head_of_cons, <- !app_assoc.
  pose proof (zlen_nonneg (head_of lines)).
  assert (Hz : zlen (first ++ CRLF ++ head_of lines) = zlen (first ++ CRLF) + zlen (head_of lines)) by (rewrite !zlen_app; lia).
  assert (Hp : zlen (first ++ CRLF) = zlen first + 2) by by rewrite zlen_app.
  pose proof (eol_of_exact [] first (head_of lines ++ CRLF ++ body) (zlen (first ++ CRLF ++ head_of lines)) Hl) as He.
  cbn [app] in He. change (zlen []) with 0 in He. rewrite He by (rewrite Hz, Hp; lia). rewrite Z.add_0_l, <- Hp, Hz.
  rewrite (app_assoc first). rewrite strip_lines_exact; [|done|].
  - rewrite <- !app_assoc. f_equal. rewrite !zlen_app. lia.
  - rewrite !length_app. pose proof (head_of_length lines). cbn [length CRLF]. destruct first; [done|cbn; lia].
Qed.

(** C40. What happens to a response head, for every buffer: an interim
    response and anything that is not a whole final head are left as they are;
    a whole final head loses the backend's lines of the gateway's names and no
    other, and gets the three lines of the gateway last, when they fit in the
    room; its first line, the other lines, their order and the body are what
    the backend sent. *)
Theorem fc_expose_h1_exact buf cap v :
  let '(buf', res) := fc_expose_h1 buf cap v in
  let kept lines := List.filter (fun l => negb (ours l)) lines in
  match res with
  | FC_EXPOSE_H1_INTERIM => buf' = buf ∧ ∃ s, response_status buf = Some s ∧ s < 200
  | FC_EXPOSE_H1_DONE => ∃ s first lines body,
      response_status buf = Some s ∧ 200 ≤ s ∧ whole_head buf first lines body ∧
      buf' = head_of (first :: kept lines ++ expose_lines v) ++ CRLF ++ body ∧ zlen buf' ≤ cap
  | FC_EXPOSE_H1_SKIPPED =>
      (buf' = buf ∧ (response_status buf = None ∨ ∀ first lines body, ¬ whole_head buf first lines body)) ∨
      ∃ first lines body, whole_head buf first lines body ∧
        buf' = head_of (first :: kept lines) ++ CRLF ++ body ∧ cap < zlen buf' + zlen (head_of (expose_lines v))
  end.
Proof.
  unfold fc_expose_h1. destruct (response_status buf) as [s|] eqn:Hs; [|left; by split; [|left]].
  case_test; zbool; [by split; [|exists s]|].
  destruct (head_end_whole buf s Hs) as [[He Hno]|(first & lines & body & Hw & He & Hne)].
  { rewrite He. cbn [Z.eqb]. left. by split; [|right]. }
  rewrite (proj2 (Z.eqb_neq _ _) Hne), He, (strip_whole buf first lines body) by done.
  pose proof (expose_add_length v). rewrite (proj2 (Z.leb_gt _ _)), Z.geb_leb, (proj2 (Z.leb_gt _ _)) by lia. cbn [orb].
  rewrite take_pre, drop_pre. set (kept := head_of (first :: List.filter _ lines)). case_test; zbool.
  - right. exists first, lines, body. split_and!; [done|done|]. unfold expose_add in *. lia.
  - exists s, first, lines, body. split_and!; [done|lia|done| |].
    + rewrite app_comm_cons, head_of_app, <- app_assoc. done.
    + rewrite !zlen_app in *. lia.
Qed.
