(* ===== verification/FcGate.v ===== *)
(** * Capacity admission: the gate (src/common/sockproxy_fc.c)

    A request's way through the gate: its service unit (with or without a
    tenant share), the unit of the endpoint it is dispatched to, moving and
    releasing them, and the life cycle of the pool itself. *)

From stdpp Require Import base list gmap numbers strings.
From S2P Require Import Prelude FcTypes FcConfig FcRing FcTenant FcFloors FcQueue FcAdapt.

Section gate.
Context (calloc : Z → bool).
Context (wake_hook : option (list (Z * Z) → Z → Z → bool)).

(** ** The pool *)

(** The limits the pool holds its configuration to. *)
Definition apply_limits (c : fc_cfg) : fc_cfg :=
  let depth := if c_max_queue_depth c >? FC_QUEUE_DEPTH_MAX then FC_QUEUE_DEPTH_MAX else c_max_queue_depth c in
  let wait := if c_max_queue_wait_ms c >? FC_QUEUE_WAIT_MS_MAX then FC_QUEUE_WAIT_MS_MAX else c_max_queue_wait_ms c in
  c <| c_max_queue_depth := depth |>
    <| c_max_queue_wait_ms := if (depth >? 0) && (wait =? 0) then 5000 else wait |>
    <| c_telemetry_stale_ms ::= (fun n => if n =? 0 then FC_TELEMETRY_STALE_MS_DEFAULT else n) |>
    <| c_warmup_ms ::= (fun n => if n >? FC_WARMUP_MS_MAX then FC_WARMUP_MS_MAX else n) |>
    <| c_ttft_target_ms ::= (fun n => if n >? FC_TTFT_TARGET_MS_MAX then FC_TTFT_TARGET_MS_MAX else n) |>
    <| c_tenant_share_pct ::= (fun n => if n >? 100 then 0 else n) |>.

(** The tenant table comes with the first share; without one the share is off. *)
Definition apply_share (fc : fc_state) : fc_state :=
  if fc_share_active fc then
    let '(fc, ok) := fc_tenant_table_ensure calloc fc in
    if ok then fc
    else fc <| s_cfg ::= (fun c => c <| c_tenant_share_pct := 0 |>
                                     <| c_src ::= (fun l => zset l FC_L_TENANT_SHARE FC_SRC_DEFAULT) |>) |>
  else fc.

(** New weights start a round, a new tenant order starts its turns again, and
    the ring grows to the depth. *)
Definition apply_queue (old new : fc_cfg) (q : fc_queue) : fc_queue :=
  let q := if negb (c_wake_policy old =? c_wake_policy new)
              || negb (arr3_eqb (c_band_weight old) (c_band_weight new))
           then q <| q_drr_credit := azero |> else q in
  let q := if negb (c_tenant_wake old =? c_tenant_wake new) then q <| q_rr_next := azero |> else q in
  if negb (q_dead q) && (c_max_queue_depth new >? q_cap q)
  then fc_ring_grow calloc q (c_max_queue_depth new) else q.

(** A window removed ends every warm-up at once. *)
Definition apply_warm (fc : fc_state) : fc_state :=
  if c_warmup_ms (s_cfg fc) =? 0 then fc <| s_warm_since_ns := zrep FC_MAX_EP 0 |> else fc.

Definition fc_state_apply (fc : fc_state) (cfg : fc_cfg) : fc_state :=
  let old := s_cfg fc in
  let fc := fc_adapt_reset (apply_warm (apply_share (fc <| s_cfg := apply_limits cfg |>))) old in
  fc <| s_queue ::= apply_queue old (s_cfg fc) |>.

Definition fc_state_init_slots (getenv : string → option string) (tenant_slots : Z) : fc_state :=
  fc_state_apply (fc_state_zero <| s_tenant_slots := fc_tenant_slots_clamp tenant_slots |>)
    (fc_cfg_from_env getenv).

Definition fc_state_init (getenv : string → option string) : fc_state :=
  fc_state_init_slots getenv FC_TENANT_SLOTS.

Definition fc_state_destroy (fc : fc_state) : fc_state :=
  let dead q := q <| q_ring := [] |> <| q_cap := 0 |> <| q_head := 0 |> <| q_tail := 0 |>
                  <| q_used := 0 |> <| q_count := 0 |> <| q_band_count := azero |>
                  <| q_dead := true |> <| q_next_deadline_ns := 0 |> in
  fc_queue_publish (fc <| s_queue ::= dead |>)
    <| s_tenants := None |> <| s_tenant_index := [] |> <| s_tenants_used := 0 |>
    <| s_tenant_free := 0 |> <| s_tenant_tombs := 0 |> <| s_tenants_runnable_waiting := 0 |>
    <| s_tenant_bound := 0 |>.

(** ** The service unit *)

Definition fc_bypass (w : world) (p : fc_permit) : world * fc_permit :=
  let '(w, p) := fc_permit_bind w p in
  (if fc_active (w_fc w) then on_fc (fc_count FC_R_BYPASS_NON_INFERENCE) w else w,
   p <| p_state := FC_P_BYPASS |>).

(** What an observing pool counts instead of refusing. *)
Definition observe_reason (fc : fc_state) : fc_reason :=
  if c_max_queue_depth (s_cfg fc) >? 0 then FC_R_OBSERVE_WOULD_QUEUE else FC_R_OBSERVE_WOULD_SHED.

(** The service counter up without a ceiling. *)
Definition take_uncapped (fc : fc_state) : fc_state := fc <| s_inflight ::= (fun n => u32 (n + 1)) |>.

(** The permit that runs. *)
Definition admit_permit (w : world) (p : fc_permit) (slot : Z) (woken : bool) : world * fc_permit :=
  let p := p <| p_tslot := slot |> <| p_svc_held := true |> in
  (on_fc (fc_band_unit_take p) w, p <| p_state := FC_P_EXECUTING |> <| p_woken := woken |>).

(** One service unit, holding back what other bands are owed; whether the pool
    was over. *)
Definition shared_unit (fc : fc_state) (band bound : Z) : fc_state * bool :=
  let cap := fc_svc_cap fc in
  let wait := if fc_floors_apply fc cap && (fc_queued fc >? 0)
              then Some (fc_floor_waiting_runnable fc bound) else None in
  match fc_unit_take_band fc band cap wait with
  | Some n => (fc <| s_inflight := n |>, false)
  | None => (fc, true)
  end.

Definition shared_refuse (w : world) (p : fc_permit) (slot : Z) (v : fc_verdict) :
    world * fc_permit * fc_verdict :=
  (on_fc (fun fc => fc_tenant_put fc slot) w, p <| p_state := FC_P_NONE |>, v).

Definition shared_admit (w : world) (p : fc_permit) (slot : Z) (woken : bool) :
    world * fc_permit * fc_verdict :=
  let w := if slot >=? 0
           then on_fc (fun fc => fc_tenant_mark (tmod slot (fun t => t <| t_inflight ::= (fun n => u32 (n + 1)) |>) fc) slot) w
           else w in
  (admit_permit w p slot woken, FC_ADMIT).

Definition fc_service_acquire_shared (w : world) (p : fc_permit) (can_queue woken : bool) :
    world * fc_permit * fc_verdict :=
  let enforce := c_mode (w_cfg w) =? FC_MODE_ENFORCE in
  let bound := fc_tenant_svc_bound (w_fc w) in
  let '(w, slot) := fc_tenant_get calloc w (p_tkey p) (negb woken) in
  if (slot >=? 0) && negb (bound =? 0) && (t_inflight (tget (w_fc w) slot) >=? bound) then
    if enforce then
      shared_refuse w p slot
        (if can_queue && fc_queue_enabled (w_fc w) && fc_band_may_wait (w_fc w) p
         then FC_QUEUE else FC_TENANT_SHARE)
    else shared_admit (on_fc (fun fc => take_uncapped (fc_count FC_R_OBSERVE_WOULD_SHED fc)) w) p slot woken
  else
    let '(fc, behind) :=
      if enforce && fc_queue_enabled (w_fc w) && negb woken
      then fc_band_waiter_can_run (w_fc w) (p_band p) bound else (w_fc w, false) in
    let '(fc, over) := if behind then (fc, true) else shared_unit fc (p_band p) bound in
    let w := w <| w_fc := fc |> in
    if over then
      if enforce then
        shared_refuse w p slot
          (fc_band_verdict fc p (if can_queue && fc_queue_enabled fc then FC_QUEUE else FC_SHED))
      else shared_admit (on_fc (fun fc => take_uncapped (fc_count (observe_reason fc) fc)) w) p slot woken
    else shared_admit w p slot woken.

(** Binding the permit for its decision: a woken one keeps its park. *)
Definition acquire_bind (w : world) (p : fc_permit) (woken : bool) (tkey band : Z) : world * fc_permit :=
  let keep {A} (v zero : A) := if woken then v else zero in
  let '(w, fresh) := fc_permit_bind w p in
  (w, fresh <| p_q_parked := keep (p_q_parked p) false |> <| p_q_ttl_cut := keep (p_q_ttl_cut p) false |>
            <| p_q_enqueue_ns := keep (p_q_enqueue_ns p) 0 |>
            <| p_q_deadline_ns := keep (p_q_deadline_ns p) 0 |>
            <| p_tkey := tkey |> <| p_band := fc_band_of band |>).

Definition fc_service_acquire__ (w : world) (p : fc_permit) (can_queue woken : bool) (tkey band : Z) :
    world * fc_permit * fc_verdict :=
  let '(w, p) := acquire_bind w p woken tkey band in
  let fc := w_fc w in
  let enforce := c_mode (s_cfg fc) =? FC_MODE_ENFORCE in
  if negb (fc_active fc) then (w, p <| p_state := FC_P_BYPASS |>, FC_ADMIT)
  else if enforce && fc_draining w then (w, p <| p_state := FC_P_NONE |>, FC_DRAINING)
  else if fc_share_active fc then fc_service_acquire_shared w p can_queue woken
  else
    let behind := enforce && fc_queue_enabled fc && negb woken && fc_waiters_ahead fc (p_band p) in
    let unit := if behind then None else fc_unit_take_band fc (p_band p) (fc_svc_cap fc) None in
    match unit with
    | Some n => (admit_permit (w <| w_fc := fc <| s_inflight := n |> |>) p (p_tslot p) woken, FC_ADMIT)
    | None =>
        if enforce then
          (w, p <| p_state := FC_P_NONE |>,
           fc_band_verdict fc p (if can_queue && fc_queue_enabled fc then FC_QUEUE else FC_SHED))
        else (admit_permit (on_fc (fun fc => take_uncapped (fc_count (observe_reason fc) fc)) w)
                p (p_tslot p) woken, FC_ADMIT)
    end.

Definition fc_service_acquire w p :=
  fc_service_acquire__ w p false false (fc_tenant_key None) FC_BAND_STANDARD.
Definition fc_service_acquire_h1 w p woken :=
  fc_service_acquire__ w p true woken (fc_tenant_key None) FC_BAND_STANDARD.
Definition fc_service_acquire_tenant w p tkey :=
  fc_service_acquire__ w p false false tkey FC_BAND_STANDARD.
Definition fc_service_acquire_h1_tenant w p woken tkey :=
  fc_service_acquire__ w p true woken tkey FC_BAND_STANDARD.
Definition fc_service_acquire_band w p tkey band :=
  fc_service_acquire__ w p false false tkey band.
Definition fc_service_acquire_h1_band w p woken tkey band :=
  fc_service_acquire__ w p true woken tkey band.

(** ** Endpoint units *)

Definition valid_leg (ep role : Z) : bool :=
  (0 <=? ep) && (ep <? FC_MAX_EP) && (0 <=? role) && (role <? FC_ROLES).

Definition ep_set (ep role n : Z) (fc : fc_state) : fc_state :=
  fc <| s_ep_inflight ::= (fun l => zmod l ep (fun a => aset a role n)) |>.
Definition ep_get (fc : fc_state) (ep role : Z) : Z := aget (zget (s_ep_inflight fc) ep) role.
Definition give_ep (ep role : Z) : world → world :=
  give_unit (fun fc => ep_get fc ep role) (ep_set ep role).

Definition fc_ep_over_cap (clock : Z) (fc : fc_state) (ep role : Z) : bool :=
  if negb (fc_active fc) || negb (c_mode (s_cfg fc) =? FC_MODE_ENFORCE) then false
  else if negb (valid_leg ep role) then false
  else
    let cap := fc_ep_cap_now clock fc ep role 0 in
    negb (cap =? 0) && (fc_ep_inflight fc ep role >=? cap).

(** One unit of a leg: [None] refuses; an observing pool counts [observed]
    and takes it anyway. *)
Definition take_ep (w : world) (ep role : Z) (observed : fc_reason) : option world :=
  match fc_unit_take (ep_get (w_fc w) ep role) (fc_ep_cap_now (w_now w) (w_fc w) ep role 0) with
  | Some n => Some (on_fc (ep_set ep role n) w)
  | None =>
      if c_mode (w_cfg w) =? FC_MODE_ENFORCE then None
      else Some (on_fc (fun fc => ep_set ep role (u32 (ep_get fc ep role + 1)) (fc_count observed fc)) w)
  end.

Definition fc_ep_acquire (w : world) (p : fc_permit) (ep role : Z) : world * fc_permit * fc_verdict :=
  if negb (fc_active (w_fc w)) || negb (bool_decide (p_state p = FC_P_EXECUTING)) then (w, p, FC_ADMIT)
  else if negb (valid_leg ep role) then (w, p, FC_ADMIT)
  else if aget (p_ep p) role =? ep then (w, p, FC_ADMIT)
  else
    match take_ep w ep role (observe_reason (w_fc w)) with
    | None => (w, p, FC_SHED)
    | Some w =>
        let had_leg := aexists (fun e => e >=? 0) (p_ep p) in
        let w := if aget (p_ep p) role >=? 0 then give_ep (aget (p_ep p) role) role w else w in
        let p := p <| p_ep ::= (fun a => aset a role ep) |> in
        if negb had_leg then
          let w := on_fc (fc_count_band FC_R_ADMITTED (p_band p)) w in
          let p := p <| p_admit_ns := w_now w |> in
          (fc_queue_wait_end w p (w_now w), FC_ADMIT)
        else (w, p, FC_ADMIT)
    end.

(** The other endpoints in order, the ones at their cap passed over. *)
Fixpoint ep_scan (eligible : Z → bool) (role preferred : Z) (eps : list Z) (any : bool)
    (w : world) (p : fc_permit) : world * fc_permit * Z * bool :=
  match eps with
  | [] => (w, p, -1, any)
  | i :: eps =>
      if (i =? preferred) || negb (eligible i) then ep_scan eligible role preferred eps any w p
      else if fc_ep_over_cap (w_now w) (w_fc w) i role then ep_scan eligible role preferred eps true w p
      else
        let '(w, p, v) := fc_ep_acquire w p i role in
        if decide (v = FC_ADMIT) then (w, p, i, true)
        else ep_scan eligible role preferred eps true w p
  end.

Definition fc_ep_acquire_any (w : world) (p : fc_permit) (role preferred n_eps : Z)
    (eligible : Z → bool) : world * fc_permit * Z * fc_verdict :=
  if negb (bool_decide (p_state p = FC_P_EXECUTING)) || negb (fc_active (w_fc w))
  then (w, p, preferred, FC_ADMIT)
  else
    let n_eps := if n_eps >? FC_MAX_EP then FC_MAX_EP else n_eps in
    let try := (preferred >=? 0) && (preferred <? n_eps) && eligible preferred in
    let '(w1, p1, v1) := if try then fc_ep_acquire w p preferred role else (w, p, FC_SHED) in
    if decide (v1 = FC_ADMIT) then (w1, p1, preferred, FC_ADMIT)
    else
      let '(w, p, i, any) := ep_scan eligible role preferred (zseq n_eps) try w1 p1 in
      if i >=? 0 then (w, p, i, FC_ADMIT)
      else if any : bool then (w, p, -1, FC_SHED)
      else (on_fc (fc_count FC_R_NO_HEALTHY_CAPACITY) w, p, -1, FC_NO_CAPACITY).

(** Moving a leg: [true] is the 0 return. *)
Definition fc_permit_move (w : world) (p : fc_permit) (role new_ep : Z) : world * fc_permit * bool :=
  if negb (bool_decide (p_state p = FC_P_EXECUTING)) || (role <? 0) || (role >=? FC_ROLES) then (w, p, true)
  else if negb (bool_decide (is_Some (p_fc p))) || negb (fc_active (w_fc w)) then (w, p, true)
  else if (new_ep <? 0) || (new_ep >=? FC_MAX_EP) then (w, p, false)
  else
    let old := aget (p_ep p) role in
    if old =? new_ep then (w, p, true)
    else
      match take_ep w new_ep role FC_R_OBSERVE_WOULD_SHED with
      | None => (on_fc (fc_count FC_R_CAPACITY_SHED) w, p, false)
      | Some w =>
          (if old >=? 0 then give_ep old role w else w, p <| p_ep ::= (fun a => aset a role new_ep) |>, true)
      end.

(** ** Release *)

Definition fc_release_role (w : world) (p : fc_permit) (role : Z) : world * fc_permit :=
  if negb (bool_decide (p_state p = FC_P_EXECUTING)) || (role <? 0) || (role >=? FC_ROLES) then (w, p)
  else if aget (p_ep p) role <? 0 then (w, p)
  else
    let clear := p <| p_ep ::= (fun a => aset a role (-1)) |> in
    if negb (bool_decide (is_Some (p_fc p))) then (fc_anomaly FC_A_UNKNOWN_PERMIT w, clear)
    else (give_ep (aget (p_ep p) role) role w, clear).

(** The service unit with its band. *)
Definition release_unit (w : world) (p : fc_permit) : world :=
  if p_svc_held p then
    if bool_decide (is_Some (p_fc p)) then fc_band_unit_give p (give_inflight w)
    else fc_anomaly FC_A_UNKNOWN_PERMIT w
  else w.

Definition release_queued (w : world) (p : fc_permit) (wake : bool) : world * fc_permit :=
  let bound := bool_decide (is_Some (p_fc p)) in
  let released p := p <| p_state := FC_P_RELEASED |> in
  let '(w1, p1, taken) := if bound then fc_queue_take w p else (w, p, false) in
  if taken : bool then
    let w1 := on_fc (fc_count_band FC_R_CANCELLED (p_band p1)) w1 in
    let '(w1, p1) := fc_queue_wait_end w1 p1 (w_now w1) in
    (w1, released p1)
  else
    let '(w2, claimed) := if bound then fc_queue_evicted_claim w1 (p_q_fd p1) (p_q_gen p1) else (w1, false) in
    if claimed : bool then
      let '(p2, _) := fc_permit_settle p1 FC_P_RELEASED in
      (w2, released (p2 <| p_q_parked := false |>))
    else
      let '(p2, won) := fc_permit_settle p1 FC_P_RELEASED in
      (if bound && won && wake then fc_queue_wake_one calloc wake_hook w2 else w2, released p2).

Definition fc_permit_release__ (w : world) (p : fc_permit) (wake : bool) : world * fc_permit :=
  match p_state p with
  | FC_P_NONE | FC_P_RELEASED => (w, p)
  | FC_P_BYPASS | FC_P_EVICTED | FC_P_ENDED => (w, p <| p_state := FC_P_RELEASED |>)
  | FC_P_QUEUED => release_queued w p wake
  | FC_P_EXECUTING =>
      let '(w, p) := foldl (fun '(w, p) r => fc_release_role w p r) (w, p) (zseq FC_ROLES) in
      let bound := bool_decide (is_Some (p_fc p)) in
      let w := release_unit w p in
      let w := if (p_tslot p >=? 0) && bound then fc_tenant_dec w (p_tslot p) false else w in
      let p := p <| p_svc_held := false |> <| p_tslot := -1 |> <| p_state := FC_P_RELEASED |> in
      (if bound && wake then fc_queue_wake_one calloc wake_hook w else w, p)
  end.

Definition fc_permit_release w p := fc_permit_release__ w p true.
Definition fc_permit_release_nowake w p := fc_permit_release__ w p false.
End gate.
