(* ===== verification/FcSystem.v ===== *)
(** * Capacity admission: units are conserved

    The pool and the permits of its requests as a transition system: one step
    is one call of the module's interface on one permit, or one event of the
    process (a clock tick, a telemetry tick, a drain, a new rule, a new
    request). The invariant [balance]: the pool counts exactly the units its
    permits hold (service, per band, per endpoint and role), so no unit is
    leaked, none is returned twice, and a counter at its ceiling is one whose
    units are all really held. *)

From stdpp Require Import base list gmap numbers strings.
From S2P Require Import Prelude FcTypes FcConfig FcRing FcTenant FcFloors FcQueue FcFrame FcWait FcAdapt FcGate.

(** ** What a permit holds *)

Definition holds_band (b : Z) (p : fc_permit) : bool := p_svc_held p && (p_band p =? b).
Definition holds_leg (ep role : Z) (p : fc_permit) : bool := aget (p_ep p) role =? ep.

(** A permit bound to pool [id]: units only while it executes. *)
Record permit_ok (id : Z) (p : fc_permit) : Prop := {
  po_band : is_band (p_band p);
  po_exec : p_state p = FC_P_EXECUTING ↔ p_svc_held p = true;
  po_pool : p_state p = FC_P_EXECUTING → p_fc p = Some id;
  po_legs : ∀ r, 0 ≤ r < FC_ROLES → -1 ≤ aget (p_ep p) r < FC_MAX_EP;
  po_leg : ∀ r, 0 ≤ r < FC_ROLES → 0 ≤ aget (p_ep p) r → p_state p = FC_P_EXECUTING
}.

(** The books of a pool: each counter is the number of permits that hold one of
    its units. *)
Record balance (w : world) (ps : list fc_permit) : Prop := {
  ba_ok : ∀ p, p ∈ ps → permit_ok (w_id w) p;
  ba_eps : zlen (s_ep_inflight (w_fc w)) = FC_MAX_EP;
  ba_svc : s_inflight (w_fc w) = zcount p_svc_held ps;
  ba_band : ∀ b, fc_band_counted b = true → aget (s_band_inflight (w_fc w)) b = zcount (holds_band b) ps;
  ba_leg : ∀ ep r, 0 ≤ ep < FC_MAX_EP → 0 ≤ r < FC_ROLES →
    ep_get (w_fc w) ep r = zcount (holds_leg ep r) ps;
  ba_size : zlen ps < 4294967295
}.

(** One permit's step: every counter moves by what the permit gained or lost. *)
Record moves (w : world) (p : fc_permit) (w' : world) (p' : fc_permit) : Prop := {
  mv_id : w_id w' = w_id w;
  mv_ok : permit_ok (w_id w) p';
  mv_eps : zlen (s_ep_inflight (w_fc w')) = zlen (s_ep_inflight (w_fc w));
  mv_svc : s_inflight (w_fc w') = s_inflight (w_fc w) - Z.b2z (p_svc_held p) + Z.b2z (p_svc_held p');
  mv_band : ∀ b, fc_band_counted b = true →
    aget (s_band_inflight (w_fc w')) b
    = aget (s_band_inflight (w_fc w)) b - Z.b2z (holds_band b p) + Z.b2z (holds_band b p');
  mv_leg : ∀ ep r, 0 ≤ ep < FC_MAX_EP → 0 ≤ r < FC_ROLES →
    ep_get (w_fc w') ep r = ep_get (w_fc w) ep r - Z.b2z (holds_leg ep r p) + Z.b2z (holds_leg ep r p')
}.

(** What one permit's step may rely on: the counters cover it and have room. *)
Record covers (w : world) (p : fc_permit) : Prop := {
  co_ok : permit_ok (w_id w) p;
  co_eps : zlen (s_ep_inflight (w_fc w)) = FC_MAX_EP;
  co_svc : Z.b2z (p_svc_held p) ≤ s_inflight (w_fc w) < 4294967295;
  co_band : ∀ b, fc_band_counted b = true →
    Z.b2z (holds_band b p) ≤ aget (s_band_inflight (w_fc w)) b < 4294967295;
  co_leg : ∀ ep r, 0 ≤ ep < FC_MAX_EP → 0 ≤ r < FC_ROLES →
    Z.b2z (holds_leg ep r p) ≤ ep_get (w_fc w) ep r < 4294967295
}.

Lemma zcount_lookup_le {A} (P : A → bool) l i x : l !! i = Some x → Z.b2z (P x) ≤ zcount P l.
Proof.
  intros Hi. destruct (P x) eqn:E; simpl.
  - apply (zcount_pos P l x); [by eapply list_elem_of_lookup_2|done].
  - apply zcount_bounds.
Qed.

Lemma balance_covers w ps i p : balance w ps → ps !! i = Some p → covers w p.
Proof.
  intros [Hok He Hs Hb Hl Hn] Hi. split.
  - apply Hok. by eapply list_elem_of_lookup_2.
  - done.
  - rewrite Hs. pose proof (zcount_bounds p_svc_held ps). split; [by eapply zcount_lookup_le|lia].
  - intros b Hc. rewrite (Hb b Hc). pose proof (zcount_bounds (holds_band b) ps).
    split; [by eapply zcount_lookup_le|lia].
  - intros ep r He' Hr. rewrite (Hl ep r He' Hr). pose proof (zcount_bounds (holds_leg ep r) ps).
    split; [by eapply zcount_lookup_le|lia].
Qed.

Lemma balance_moves w ps i p w' p' :
  balance w ps → ps !! i = Some p → moves w p w' p' → balance w' (<[i := p']> ps).
Proof.
  intros [Hok He Hs Hb Hl Hn] Hi [Mid Mok Me Ms Mb Ml]. split.
  - intros x Hx. rewrite Mid. apply list_elem_of_lookup in Hx as (j & Hj).
    apply list_lookup_insert_Some in Hj as [(_ & -> & _)|[_ Hj]]; [done|].
    apply Hok. by eapply list_elem_of_lookup_2.
  - congruence.
  - rewrite Ms, Hs. by rewrite (zcount_insert _ _ _ _ _ Hi).
  - intros b Hc. rewrite (Mb b Hc), (Hb b Hc). by rewrite (zcount_insert _ _ _ _ _ Hi).
  - intros ep r Hep Hr. rewrite (Ml ep r Hep Hr), (Hl ep r Hep Hr). by rewrite (zcount_insert _ _ _ _ _ Hi).
  - unfold zlen in *. by rewrite length_insert.
Qed.

(** A step of the process that moves no unit. *)
Lemma balance_same w ps w' :
  balance w ps → s_inflight (w_fc w') = s_inflight (w_fc w) →
  s_band_inflight (w_fc w') = s_band_inflight (w_fc w) →
  s_ep_inflight (w_fc w') = s_ep_inflight (w_fc w) → w_id w' = w_id w → balance w' ps.
Proof.
  intros [] H1 H2 H3 H4. split; rewrite ?H1, ?H2, ?H3, ?H4; try done.
  intros ep r He Hr. unfold ep_get in *. rewrite H3. by apply ba_leg0.
Qed.

(** A permit with no units becomes another with none. *)
Lemma moves_idle w p w' p' :
  world_same w w' → permit_ok (w_id w) p' → p_svc_held p = false → p_svc_held p' = false →
  (∀ r, 0 ≤ r < FC_ROLES → aget (p_ep p) r < 0) → (∀ r, 0 ≤ r < FC_ROLES → aget (p_ep p') r < 0) →
  moves w p w' p'.
Proof.
  intros ((Hs & Hb & He & _) & Hid & _) Hok H1 H2 H3 H4. split; try done.
  - by rewrite He.
  - rewrite Hs, H1, H2. simpl. lia.
  - intros b _. unfold holds_band. rewrite Hb, H1, H2. simpl. lia.
  - intros ep r Hep Hr. unfold ep_get, holds_leg. rewrite He. specialize (H3 r Hr). specialize (H4 r Hr).
    destruct (_ =? ep) eqn:E1; zbool; [lia|]. destruct (_ =? ep) eqn:E2; zbool; [lia|]. simpl. lia.
Qed.

(** The permit's unit counts stay, whatever else of it moves. *)
Lemma moves_keep w p w' p' :
  world_same w w' → permit_ok (w_id w) p' → p_svc_held p' = p_svc_held p →
  p_band p' = p_band p → p_ep p' = p_ep p → moves w p w' p'.
Proof.
  intros ((Hs & Hb & He & _) & Hid & _) Hok H1 H2 H3. split; try done.
  - by rewrite He.
  - rewrite Hs, H1. lia.
  - intros b _. unfold holds_band. rewrite Hb, H1, H2. lia.
  - intros ep r _ _. unfold ep_get, holds_leg. rewrite He, H3. lia.
Qed.

Lemma moves_trans w1 p1 w2 p2 w3 p3 : moves w1 p1 w2 p2 → moves w2 p2 w3 p3 → moves w1 p1 w3 p3.
Proof.
  intros [I1 O1 E1 S1 B1 L1] [I2 O2 E2 S2 B2 L2]. split; try congruence.
  - lia.
  - intros b Hb. rewrite (B2 b Hb), (B1 b Hb). lia.
  - intros ep r He Hr. rewrite (L2 ep r He Hr), (L1 ep r He Hr). lia.
Qed.

Lemma moves_covers w p w' p' :
  covers w p → moves w p w' p' → s_inflight (w_fc w') < 4294967295 →
  (∀ b, fc_band_counted b = true → aget (s_band_inflight (w_fc w')) b < 4294967295) →
  (∀ ep r, 0 ≤ ep < FC_MAX_EP → 0 ≤ r < FC_ROLES → ep_get (w_fc w') ep r < 4294967295) →
  covers w' p'.
Proof.
  intros [O E S B L] [MI MO ME MS MB ML] HS HB HL. split.
  - by rewrite MI.
  - congruence.
  - lia.
  - intros b Hb. specialize (B b Hb). specialize (MB b Hb). specialize (HB b Hb). lia.
  - intros ep r He Hr. specialize (L ep r He Hr). specialize (ML ep r He Hr). specialize (HL ep r He Hr). lia.
Qed.

(** ** Endpoint counters *)

Lemma aidx_role r : 0 ≤ r < FC_ROLES → aidx r = r.
Proof. unfold FC_ROLES, aidx. intros. case_tests; zbool; lia. Qed.

Lemma ep_get_set fc ep role n e r :
  zlen (s_ep_inflight fc) = FC_MAX_EP → 0 ≤ ep < FC_MAX_EP → 0 ≤ role < FC_ROLES →
  0 ≤ e < FC_MAX_EP → 0 ≤ r < FC_ROLES →
  ep_get (ep_set ep role n fc) e r = if decide (e = ep ∧ r = role) then n else ep_get fc e r.
Proof.
  intros Hl Hep Hrole He Hr. unfold ep_get, ep_set. cbn [s_ep_inflight field_set]. unfold zmod.
  destruct (decide (e = ep)) as [->|Hne].
  - rewrite zget_zset_eq by lia. rewrite aget_aset, !aidx_role by done.
    repeat case_decide; naive_solver.
  - rewrite zget_zset_ne by lia. by rewrite decide_False by tauto.
Qed.

Lemma ep_set_len ep role n fc : zlen (s_ep_inflight (ep_set ep role n fc)) = zlen (s_ep_inflight fc).
Proof. unfold ep_set. simpl. unfold zmod. apply zlen_zset. Qed.

(** The units of a world with one leg counter set. *)
Definition leg_set (w w' : world) (ep role n : Z) : Prop :=
  w_id w' = w_id w ∧ zlen (s_ep_inflight (w_fc w')) = zlen (s_ep_inflight (w_fc w)) ∧
  s_inflight (w_fc w') = s_inflight (w_fc w) ∧ s_band_inflight (w_fc w') = s_band_inflight (w_fc w) ∧
  ∀ e r, 0 ≤ e < FC_MAX_EP → 0 ≤ r < FC_ROLES →
    ep_get (w_fc w') e r = if decide (e = ep ∧ r = role) then n else ep_get (w_fc w) e r.

Lemma leg_set_here w w1 ep role n :
  zlen (s_ep_inflight (w_fc w)) = FC_MAX_EP → 0 ≤ ep < FC_MAX_EP → 0 ≤ role < FC_ROLES →
  world_same w w1 → leg_set w (on_fc (ep_set ep role n) w1) ep role n.
Proof.
  intros Hl Hep Hr ((Hs & Hb & He & _) & Hid & _). split_and!; try done.
  - cbn [on_fc w_fc field_set]. by rewrite ep_set_len, He.
  - intros e r He' Hr'. cbn [on_fc w_fc field_set]. rewrite ep_get_set by (done || by rewrite He).
    unfold ep_get. by rewrite He.
Qed.

Lemma give_ep_spec w ep role :
  zlen (s_ep_inflight (w_fc w)) = FC_MAX_EP → 0 ≤ ep < FC_MAX_EP → 0 ≤ role < FC_ROLES →
  1 ≤ ep_get (w_fc w) ep role →
  leg_set w (give_ep ep role w) ep role (ep_get (w_fc w) ep role - 1) ∧
  w_anomaly (give_ep ep role w) = w_anomaly w.
Proof.
  intros Hl Hep Hr H1. unfold give_ep, give_unit, fc_unit_give.
  destruct (ep_get (w_fc w) ep role =? 0) eqn:E; zbool; [lia|].
  split; [|done]. by apply leg_set_here.
Qed.

Lemma take_ep_spec w ep role obs w' :
  zlen (s_ep_inflight (w_fc w)) = FC_MAX_EP → 0 ≤ ep < FC_MAX_EP → 0 ≤ role < FC_ROLES →
  0 ≤ ep_get (w_fc w) ep role < 4294967295 →
  take_ep w ep role obs = Some w' →
  leg_set w w' ep role (ep_get (w_fc w) ep role + 1) ∧ w_anomaly w' = w_anomaly w.
Proof.
  intros Hl Hep Hr Hc. unfold take_ep, fc_unit_take. destruct (negb _ && _) eqn:E.
  - case_test; [done|]. intros; simplify_eq. split; [|done].
    change (on_fc (fun fc => ep_set ep role (u32 (ep_get fc ep role + 1)) (fc_count obs fc)) w)
      with (on_fc (ep_set ep role (u32 (ep_get (w_fc w) ep role + 1))) (on_fc (fc_count obs) w)).
    rewrite u32_small by lia. by apply leg_set_here.
  - intros; simplify_eq. split; [|done]. rewrite u32_small by lia. by apply leg_set_here.
Qed.

(** ** Permits that hold nothing *)

Definition idle (p : fc_permit) : Prop :=
  p_svc_held p = false ∧ ∀ r, 0 ≤ r < FC_ROLES → aget (p_ep p) r < 0.

Lemma idle_of_state id p : permit_ok id p → p_state p ≠ FC_P_EXECUTING → idle p.
Proof.
  intros [] Hne. split.
  - apply not_true_iff_false. by rewrite <- po_exec0.
  - intros r Hr. destruct (decide (aget (p_ep p) r < 0)); [done|]. exfalso. apply Hne, (po_leg0 r Hr). lia.
Qed.

Lemma idle_reset : idle fc_permit_reset.
Proof. split; [done|]. intros r _. unfold aget. cbn. case_tests; lia. Qed.

(** An idle permit is well formed in any state that does not execute. *)
Lemma ok_idle id p : is_band (p_band p) → p_state p ≠ FC_P_EXECUTING → p_svc_held p = false →
  p_ep p = Arr3 (-1) (-1) (-1) → permit_ok id p.
Proof.
  intros Hb Hs Hh He. split; [done| |done| |]; rewrite ?He.
  - rewrite Hh. by split.
  - intros r _. unfold aget, FC_MAX_EP. cbn. case_tests; lia.
  - intros r _. unfold aget. cbn. case_tests; lia.
Qed.

Lemma moves_idle' w p w' p' :
  world_same w w' → permit_ok (w_id w) p' → idle p → idle p' → moves w p w' p'.
Proof. intros ? ? [? ?] [? ?]. by apply moves_idle. Qed.

(** ** Admission *)

(** The service counter one up, the other units as they were. *)
Definition one_up (w w1 : world) : Prop :=
  w_id w1 = w_id w ∧ s_inflight (w_fc w1) = s_inflight (w_fc w) + 1 ∧
  s_band_inflight (w_fc w1) = s_band_inflight (w_fc w) ∧ s_ep_inflight (w_fc w1) = s_ep_inflight (w_fc w).

Lemma one_up_l w w1 w2 : world_same w w1 → one_up w1 w2 → one_up w w2.
Proof. intros ((?&?&?&_)&?&_) (?&?&?&?). split_and!; congruence. Qed.
Lemma one_up_r w w1 w2 : one_up w w1 → world_same w1 w2 → one_up w w2.
Proof. intros (?&?&?&?) ((?&?&?&_)&?&_). split_and!; congruence. Qed.

Lemma admit_moves w w1 p slot woken :
  covers w p → idle p → p_fc p = Some (w_id w) → p_ep p = Arr3 (-1) (-1) (-1) → one_up w w1 →
  moves w p (fst (admit_permit w1 p slot woken)) (snd (admit_permit w1 p slot woken)).
Proof.
  intros [Hok He Hs Hb Hl] [Hh Hlegs] Hfc Hep (Hid & Hi & Hbi & Hei).
  unfold admit_permit. cbn [fst snd]. set (p1 := field_set p_svc_held _ _).
  assert (Hunits : ∀ fc, s_inflight (fc_band_unit_take p1 fc) = s_inflight fc ∧
    s_ep_inflight (fc_band_unit_take p1 fc) = s_ep_inflight fc)
    by (intros; unfold fc_band_unit_take; by case_test).
  destruct (Hunits (w_fc w1)) as [Hu1 Hu2]. split; cbn [on_fc w_fc w_id field_set].
  - done.
  - split; [apply Hok|done|done| |].
    + intros r _. change (p_ep _) with (p_ep p). rewrite Hep. unfold aget, FC_MAX_EP. cbn. case_tests; lia.
    + done.
  - by rewrite Hu2, Hei.
  - rewrite Hu1, Hi, Hh. simpl. lia.
  - intros b Hc. unfold fc_band_unit_take. change (p_band p1) with (p_band p). unfold holds_band. rewrite Hh. cbn.
    destruct (fc_band_counted (p_band p)) eqn:Ec.
    + cbn [s_band_inflight field_set]. unfold amod. rewrite aget_aset, Hbi.
      specialize (Hb _ Ec) as Hcb. unfold holds_band in Hcb. rewrite Hh in Hcb. simpl in Hcb.
      rewrite u32_small by lia. unfold fc_band_counted, FC_BAND_CRITICAL, FC_BAND_SHEDDABLE in *.
      destruct (p_band p =? b) eqn:E; zbool; simpl.
      * subst. rewrite decide_True by done. lia.
      * rewrite decide_False; [lia|]. unfold aidx. intros. repeat case_test; zbool; lia.
    + rewrite Hbi. destruct (p_band p =? b) eqn:E; zbool; simpl; [congruence|lia].
  - intros ep r He' Hr. unfold ep_get, holds_leg. rewrite Hu2, Hei. simpl. lia.
Qed.

Lemma take_band_value fc band cap wait n :
  fc_unit_take_band fc band cap wait = Some n → n = u32 (s_inflight fc + 1).
Proof.
  unfold fc_unit_take_band, fc_unit_take. repeat case_test; intros; by simplify_eq.
Qed.

Section steps.
Context (calloc : Z → bool) (wake_hook : option (list (Z * Z) → Z → Z → bool)).

Lemma idle_of_ep p : p_svc_held p = false → p_ep p = Arr3 (-1) (-1) (-1) → idle p.
Proof. intros Hh He. split; [done|]. intros r _. rewrite He. unfold aget. cbn. case_tests; lia. Qed.

Lemma covers_same w p w1 p1 :
  covers w p → world_same w w1 → idle p1 → permit_ok (w_id w) p1 → covers w1 p1.
Proof.
  intros [O E S B L] ((Hs & Hb & He & _) & Hid & _) [Hh Hl] Hok. split.
  - by rewrite Hid.
  - by rewrite He.
  - rewrite Hs, Hh. simpl. destruct (p_svc_held p); simpl in S; lia.
  - intros b Hc. rewrite Hb. unfold holds_band at 1. rewrite Hh. simpl. specialize (B b Hc).
    destruct (holds_band b p); simpl in B; lia.
  - intros ep r Hep Hr. unfold ep_get. rewrite He. fold (ep_get (w_fc w) ep r). specialize (L ep r Hep Hr).
    specialize (Hl r Hr). unfold holds_leg at 1. destruct (_ =? ep) eqn:Ex; zbool; [lia|].
    destruct (holds_leg ep r p); simpl in *; lia.
Qed.

(** What the gate starts from: the permit bound afresh. *)
Record bound_fresh (w : world) (p : fc_permit) : Prop := {
  bf_held : p_svc_held p = false;
  bf_ep : p_ep p = Arr3 (-1) (-1) (-1);
  bf_pool : p_fc p = Some (w_id w);
  bf_band : is_band (p_band p)
}.

Lemma acquire_bind_spec w p woken tkey band :
  let r := acquire_bind w p woken tkey band in
  world_same w (fst r) ∧ bound_fresh (fst r) (snd r) ∧ p_state (snd r) = FC_P_NONE ∧
  p_band (snd r) = fc_band_of band ∧ p_tkey (snd r) = tkey ∧ p_tslot (snd r) = -1.
Proof.
  unfold acquire_bind. pose proof (bind_same w p) as Hs. unfold fc_permit_bind in *. cbn [fst snd] in *.
  split_and!; try done. split; try done; [by destruct Hs as (_ & -> & _)|apply fc_band_of_is_band].
Qed.

(** A fresh permit put in a state that does not execute. *)
Lemma stay_moves w p w' st :
  world_same w w' → bound_fresh w p → st ≠ FC_P_EXECUTING → moves w p w' (p <| p_state := st |>).
Proof.
  intros Hs [Hh He Hf Hb] Hst. apply moves_idle'; [done| | |].
  - by apply ok_idle.
  - by apply idle_of_ep.
  - by apply idle_of_ep.
Qed.

(** A fresh permit admitted on a counter one up. *)
Lemma admit_fresh w w1 p slot woken :
  covers w p → bound_fresh w p → one_up w w1 →
  moves w p (fst (admit_permit w1 p slot woken)) (snd (admit_permit w1 p slot woken)).
Proof. intros Hc [Hh He Hf Hb] Ho. apply admit_moves; try done. by apply idle_of_ep. Qed.

Lemma uncapped_one_up w w1 f :
  world_same w w1 → units_same (w_fc w1) (f (w_fc w1)) → 0 ≤ s_inflight (w_fc w) < 4294967295 →
  one_up w (on_fc (fun fc => take_uncapped (f fc)) w1).
Proof.
  intros ((Hs & Hb & He & _) & Hid & _) (Fs & Fb & Fe & _) Hr. split_and!; cbn; try congruence.
  rewrite Fs, Hs. apply u32_small. lia.
Qed.

Lemma shared_admit_moves w w1 p slot woken :
  covers w p → bound_fresh w p → one_up w w1 →
  let r := fst (shared_admit w1 p slot woken) in moves w p (fst r) (snd r).
Proof.
  intros Hc Hf Ho. unfold shared_admit. cbn [fst]. apply admit_fresh; [done|done|].
  case_test; [|done]. eapply one_up_r; [exact Ho|]. split; [|done]. cbn [w_fc on_fc field_set].
  etrans; [|apply mark_units]. done.
Qed.

Lemma shared_refuse_moves w w1 p slot v :
  world_same w w1 → bound_fresh w p →
  let r := fst (shared_refuse w1 p slot v) in moves w p (fst r) (snd r).
Proof.
  intros Hs Hf. unfold shared_refuse. cbn [fst snd]. apply stay_moves; [|done|done].
  etrans; [exact Hs|]. split; [apply put_units|done].
Qed.

Lemma shared_unit_spec fc band bound :
  0 ≤ s_inflight fc < 4294967295 →
  let '(fc', over) := shared_unit fc band bound in
  if over : bool then fc' = fc
  else s_inflight fc' = s_inflight fc + 1 ∧ s_band_inflight fc' = s_band_inflight fc ∧
       s_ep_inflight fc' = s_ep_inflight fc ∧ s_cfg fc' = s_cfg fc.
Proof.
  intros Hr. unfold shared_unit. destruct (fc_unit_take_band _ _ _ _) as [n|] eqn:E; [|done].
  apply take_band_value in E as ->. split_and!; try done. cbn. apply u32_small. lia.
Qed.

Lemma acquire_shared_moves w p can_queue woken :
  covers w p → bound_fresh w p →
  let r := fst (fc_service_acquire_shared calloc w p can_queue woken) in moves w p (fst r) (snd r).
Proof.
  intros Hc Hf. pose proof (co_svc _ _ Hc) as Hr. rewrite (bf_held _ _ Hf) in Hr. cbn in Hr.
  unfold fc_service_acquire_shared. pose proof (get_same calloc w (p_tkey p) (negb woken)) as H1.
  destruct (fc_tenant_get _ _ _ _) as [w1 slot]. cbn [fst] in H1.
  set (bound := fc_tenant_svc_bound (w_fc w)). set (enforce := c_mode (w_cfg w) =? FC_MODE_ENFORCE).
  destruct (_ && _ && _).
  { destruct enforce; [by apply shared_refuse_moves|].
    apply shared_admit_moves; [done|done|]. by apply uncapped_one_up. }
  set (r := if enforce && _ && _ then _ else _).
  assert (H2 : units_same (w_fc w1) (fst r)).
  { unfold r. destruct (_ && _); [apply band_waiter_units|done]. }
  destruct r as [fc2 behind]. cbn [fst] in H2.
  assert (Hr2 : 0 ≤ s_inflight fc2 < 4294967295).
  { destruct H2 as (-> & _). destruct H1 as ((-> & _) & _). done. }
  set (r3 := if behind then _ else _).
  assert (H3 : world_same w (w1 <| w_fc := fc2 |>)) by (etrans; [exact H1|]; split; [exact H2|done]).
  assert (H4 : if snd r3 then fst r3 = fc2 else one_up w (w1 <| w_fc := fst r3 |>)).
  { unfold r3. destruct behind; [done|]. pose proof (shared_unit_spec fc2 (p_band p) bound Hr2) as Hu.
    destruct (shared_unit fc2 (p_band p) bound) as [fc3 over]. cbn [fst snd]. destruct over; [done|].
    eapply one_up_l; [exact H3|]. destruct Hu as (?&?&?&?). by split_and!. }
  destruct r3 as [fc3 over]. cbn [fst snd] in H4. destruct over.
  - subst fc3. destruct enforce; [by apply shared_refuse_moves|].
    apply shared_admit_moves; [done|done|]. by apply uncapped_one_up.
  - by apply shared_admit_moves.
Qed.

Lemma acquire_moves w p can_queue woken tkey band :
  covers w p → p_state p ≠ FC_P_EXECUTING →
  let r := fst (fc_service_acquire__ calloc w p can_queue woken tkey band) in moves w p (fst r) (snd r).
Proof.
  intros Hc Hst. pose proof (idle_of_state _ _ (co_ok _ _ Hc) Hst) as Hidle.
  unfold fc_service_acquire__. destruct (acquire_bind_spec w p woken tkey band) as (H1 & Hf & Hst1 & _).
  destruct (acquire_bind w p woken tkey band) as [w1 p1]. cbn [fst snd] in *.
  assert (Hid : w_id w1 = w_id w) by apply H1.
  assert (Hok1 : permit_ok (w_id w) p1) by (destruct Hf; apply ok_idle; [done|by rewrite Hst1|done|done]).
  assert (Hi1 : idle p1) by (destruct Hf; by apply idle_of_ep).
  assert (Hc1 : covers w1 p1) by (by eapply covers_same).
  eapply (moves_trans _ _ w1 p1); [by apply moves_idle'|].
  assert (Hr : 0 ≤ s_inflight (w_fc w1) < 4294967295).
  { pose proof (co_svc _ _ Hc1) as Hr. by rewrite (bf_held _ _ Hf) in Hr. }
  destruct (negb _); [by apply stay_moves|]. destruct (_ && fc_draining _); [by apply stay_moves|].
  destruct (fc_share_active _); [by apply acquire_shared_moves|].
  set (unit := if _ && _ && _ && _ then None else _). destruct unit as [n|] eqn:Eu.
  - apply admit_fresh; [done|done|]. split_and!; try done. cbn.
    unfold unit in Eu. destruct (_ && _ && _ && _); [done|]. apply take_band_value in Eu as ->. apply u32_small. lia.
  - destruct (_ =? FC_MODE_ENFORCE); [by apply stay_moves|].
    apply admit_fresh; [done|done|]. by apply uncapped_one_up.
Qed.
End steps.

Lemma bypass_moves w p :
  covers w p → p_state p ≠ FC_P_EXECUTING →
  moves w p (fst (fc_bypass w p)) (snd (fc_bypass w p)).
Proof.
  intros Hc Hst. unfold fc_bypass. pose proof (bind_same w p) as Hs. unfold fc_permit_bind in *.
  cbn [fst snd] in *. apply moves_idle'.
  - case_test; [|done]. etrans; [exact Hs|]. done.
  - by apply ok_idle; [left| | |].
  - by apply (idle_of_state (w_id w)); [apply Hc|].
  - by apply idle_of_ep.
Qed.

(** ** Endpoint legs *)

(** One leg of an executing permit changed from [old] to [new]. *)
Lemma leg_moves w p w' role new :
  covers w p → p_state p = FC_P_EXECUTING → 0 ≤ role < FC_ROLES → -1 ≤ new < FC_MAX_EP →
  w_id w' = w_id w → zlen (s_ep_inflight (w_fc w')) = zlen (s_ep_inflight (w_fc w)) →
  s_inflight (w_fc w') = s_inflight (w_fc w) → s_band_inflight (w_fc w') = s_band_inflight (w_fc w) →
  (∀ e r, 0 ≤ e < FC_MAX_EP → 0 ≤ r < FC_ROLES →
     ep_get (w_fc w') e r = ep_get (w_fc w) e r
       - Z.b2z (bool_decide (r = role) && (aget (p_ep p) role =? e))
       + Z.b2z (bool_decide (r = role) && (new =? e))) →
  ∀ p', p_ep p' = aset (p_ep p) role new → p_state p' = p_state p → p_svc_held p' = p_svc_held p →
    p_band p' = p_band p → p_fc p' = p_fc p → moves w p w' p'.
Proof.
  intros Hc Hex Hr Hnew Hid Hlen Hs Hb Hl p' Hep Hst Hh Hbd Hfc. pose proof (co_ok _ _ Hc) as [].
  assert (Hleg : ∀ r, 0 ≤ r < FC_ROLES → aget (p_ep p') r = if decide (r = role) then new else aget (p_ep p) r).
  { intros r Hr'. rewrite Hep, aget_aset, !aidx_role by done. repeat case_decide; naive_solver. }
  split; try done.
  - split; rewrite ?Hst, ?Hh, ?Hbd, ?Hfc; try done.
    intros r Hr'. rewrite Hleg by done. case_decide; [lia|by apply po_legs0].
  - rewrite Hs, Hh. lia.
  - intros b _. unfold holds_band. rewrite Hb, Hh, Hbd. lia.
  - intros e r He Hr'. rewrite (Hl e r He Hr'). unfold holds_leg. rewrite (Hleg r Hr').
    destruct (decide (r = role)) as [->|Hne].
    + rewrite bool_decide_true by done. simpl. lia.
    + rewrite bool_decide_false by done. simpl. lia.
Qed.

(** Taking the leg's new unit, then giving its old one back. *)
Lemma swap_leg w p w1 role ep :
  covers w p → p_state p = FC_P_EXECUTING → 0 ≤ role < FC_ROLES → 0 ≤ ep < FC_MAX_EP →
  aget (p_ep p) role ≠ ep → leg_set w w1 ep role (ep_get (w_fc w) ep role + 1) →
  let w2 := if aget (p_ep p) role >=? 0 then give_ep (aget (p_ep p) role) role w1 else w1 in
  ∀ p', p_ep p' = aset (p_ep p) role ep → p_state p' = p_state p → p_svc_held p' = p_svc_held p →
    p_band p' = p_band p → p_fc p' = p_fc p → moves w p w2 p'.
Proof.
  intros Hc Hex Hr Hep Hne (Hid & Hlen & Hs & Hb & Hl) w2 p' E1 E2 E3 E4 E5.
  pose proof (po_legs _ _ (co_ok _ _ Hc) role Hr) as Hold. set (old := aget (p_ep p) role) in *.
  assert (Hw2 : w_id w2 = w_id w ∧ zlen (s_ep_inflight (w_fc w2)) = zlen (s_ep_inflight (w_fc w)) ∧
    s_inflight (w_fc w2) = s_inflight (w_fc w) ∧ s_band_inflight (w_fc w2) = s_band_inflight (w_fc w) ∧
    ∀ e r, 0 ≤ e < FC_MAX_EP → 0 ≤ r < FC_ROLES →
      ep_get (w_fc w2) e r = ep_get (w_fc w1) e r - Z.b2z (bool_decide (r = role) && (old =? e))).
  { unfold w2. destruct (old >=? 0) eqn:Eo; zbool.
    - assert (H1 : 1 ≤ ep_get (w_fc w1) old role).
      { rewrite Hl by lia. rewrite decide_False by tauto. pose proof (co_leg _ _ Hc old role ltac:(lia) Hr) as Hlg.
        unfold holds_leg in Hlg. fold old in Hlg. rewrite Z.eqb_refl in Hlg. simpl in Hlg. lia. }
      destruct (give_ep_spec w1 old role) as [(G1 & G2 & G3 & G4 & G5) _]; [by rewrite Hlen; apply Hc|lia|done|done|].
      split_and!; [congruence..|]. intros e r He Hr'. rewrite G5 by done. case_decide as Hd.
      + destruct Hd as [-> ->]. rewrite bool_decide_true, Z.eqb_refl by done. simpl. lia.
      + destruct (decide (r = role)); [|rewrite bool_decide_false by done; simpl; lia].
        destruct (old =? e) eqn:Ee; zbool; [subst; tauto|]. rewrite andb_false_r. simpl. lia.
    - split_and!; [congruence..|]. intros e r He Hr'. destruct (old =? e) eqn:Ee; zbool; [lia|].
      rewrite andb_false_r. simpl. lia. }
  destruct Hw2 as (W1 & W2 & W3 & W4 & W5).
  apply (leg_moves w p w2 role ep); try done; [lia|].
  intros e r He Hr'. fold old. rewrite (W5 e r He Hr'), (Hl e r He Hr'). case_decide as Hd.
  - destruct Hd as [-> ->]. rewrite bool_decide_true, Z.eqb_refl by done. simpl. lia.
  - destruct (decide (r = role)); [|rewrite !bool_decide_false by done; simpl; lia].
    destruct (ep =? e) eqn:Ee; zbool; [subst; tauto|]. rewrite andb_false_r. simpl. lia.
Qed.

Lemma moves_refl w p : permit_ok (w_id w) p → moves w p w p.
Proof. intros. by apply moves_keep. Qed.

Lemma valid_leg_spec ep role : valid_leg ep role = true → 0 ≤ ep < FC_MAX_EP ∧ 0 ≤ role < FC_ROLES.
Proof. unfold valid_leg. intros. zbool. lia. Qed.

Lemma leg_room w p ep role :
  covers w p → 0 ≤ ep < FC_MAX_EP → 0 ≤ role < FC_ROLES → 0 ≤ ep_get (w_fc w) ep role < 4294967295.
Proof.
  intros Hc He Hr. pose proof (co_leg _ _ Hc ep role He Hr). destruct (holds_leg ep role p); simpl in *; lia.
Qed.

Lemma moves_after w p w1 p1 w2 p2 :
  moves w p w1 p1 → world_same w1 w2 → p_svc_held p2 = p_svc_held p1 → p_band p2 = p_band p1 →
  p_ep p2 = p_ep p1 → p_state p2 = p_state p1 → p_fc p2 = p_fc p1 → moves w p w2 p2.
Proof.
  intros Hm Hs H1 H2 H3 H4 H5. eapply moves_trans; [exact Hm|]. apply moves_keep; try done.
  rewrite (mv_id _ _ _ _ Hm). destruct (mv_ok _ _ _ _ Hm). split; rewrite ?H1, ?H2, ?H3, ?H4, ?H5; done.
Qed.

Lemma ep_acquire_moves w p ep role :
  covers w p →
  let r := fst (fc_ep_acquire w p ep role) in moves w p (fst r) (snd r).
Proof.
  intros Hc. unfold fc_ep_acquire. pose proof (moves_refl w p (co_ok _ _ Hc)) as Hrefl.
  destruct (negb (fc_active _) || _) eqn:E1; [done|]. zbool. apply bool_decide_eq_true in H0.
  destruct (valid_leg ep role) eqn:E2; cbn [negb]; [|done]. apply valid_leg_spec in E2 as [Hep Hr].
  destruct (aget (p_ep p) role =? ep) eqn:E3; [done|]. zbool.
  destruct (take_ep _ _ _ _) as [w1|] eqn:E4; [|done].
  apply take_ep_spec in E4 as [Hset _]; [|apply Hc|done|done|by eapply leg_room].
  set (w2 := if aget (p_ep p) role >=? 0 then _ else w1).
  set (p2 := p <| p_ep ::= (fun a => aset a role ep) |>).
  assert (Hm : moves w p w2 p2) by (by apply (swap_leg w p w1 role ep)).
  destruct (negb _); [|done]. set (w3 := on_fc _ w2).
  assert (Hs3 : world_same w2 w3) by (apply on_fc_same, count_band_units).
  set (p3 := p2 <| p_admit_ns := w_now w3 |>).
  pose proof (wait_end_same w3 p3 (w_now w3)) as Hs4. cbn [fst].
  eapply moves_after; [exact Hm|by etrans|..]; unfold fc_queue_wait_end; by destruct (negb _).
Qed.

Lemma permit_move_moves w p role ep :
  covers w p →
  let r := fst (fc_permit_move w p role ep) in moves w p (fst r) (snd r).
Proof.
  intros Hc. unfold fc_permit_move. pose proof (moves_refl w p (co_ok _ _ Hc)) as Hrefl.
  destruct (_ || _ || _) eqn:E1; [done|]. zbool. apply bool_decide_eq_true in H.
  destruct (negb (bool_decide (is_Some (p_fc p))) || negb (fc_active (w_fc w))); [done|].
  destruct ((ep <? 0) || (ep >=? FC_MAX_EP)) eqn:E3; [done|]. zbool.
  destruct (aget (p_ep p) role =? ep) eqn:E4; [done|]. zbool.
  destruct (take_ep _ _ _ _) as [w1|] eqn:E5.
  - apply take_ep_spec in E5 as [Hset _]; [|apply Hc|lia|lia|eapply leg_room; [exact Hc|lia|lia]].
    cbn [fst snd]. apply (swap_leg w p w1 role ep); done || lia.
  - cbn [fst snd]. by apply moves_keep; [apply on_fc_same, count_units|apply Hc|..].
Qed.

Lemma release_role_moves w p role :
  covers w p →
  let r := fc_release_role w p role in moves w p (fst r) (snd r).
Proof.
  intros Hc. unfold fc_release_role. pose proof (moves_refl w p (co_ok _ _ Hc)) as Hrefl.
  destruct (_ || _ || _) eqn:E1; [done|]. zbool. apply bool_decide_eq_true in H.
  destruct (aget (p_ep p) role <? 0) eqn:E2; [done|]. zbool.
  pose proof (co_ok _ _ Hc) as Hok. rewrite (po_pool _ _ Hok H). cbn [bool_decide decide_rel]. rewrite bool_decide_true by done.
  cbn [negb fst snd]. pose proof (po_legs _ _ Hok role ltac:(lia)) as Hold.
  destruct (give_ep_spec w (aget (p_ep p) role) role) as [(G1 & G2 & G3 & G4 & G5) _]; [apply Hc|lia|lia| |].
  { pose proof (co_leg _ _ Hc (aget (p_ep p) role) role ltac:(lia) ltac:(lia)) as Hlg.
    unfold holds_leg in Hlg. rewrite Z.eqb_refl in Hlg. simpl in Hlg. lia. }
  apply (leg_moves w p _ role (-1)); try done.
  intros e r He Hr'. rewrite G5 by done. replace (-1 =? e) with false by (symmetry; apply Z.eqb_neq; lia).
  rewrite andb_false_r. simpl. case_decide as Hd.
  - destruct Hd as [-> ->]. rewrite bool_decide_true, Z.eqb_refl by done. simpl. lia.
  - destruct (decide (r = role)); [|rewrite bool_decide_false by done; simpl; lia].
    destruct (_ =? e) eqn:Ee; zbool; [subst; tauto|]. rewrite andb_false_r. simpl. lia.
Qed.

(** ** Release *)

Lemma release_role_permit w p role :
  let p' := snd (fc_release_role w p role) in
  p_svc_held p' = p_svc_held p ∧ p_band p' = p_band p ∧ p_state p' = p_state p ∧ p_fc p' = p_fc p ∧
  p_tslot p' = p_tslot p ∧
  (∀ r, aget (p_ep p') r = aget (p_ep p) r ∨ aget (p_ep p') r = -1) ∧
  (p_state p = FC_P_EXECUTING → 0 ≤ role < FC_ROLES → aget (p_ep p') role < 0).
Proof.
  unfold fc_release_role. destruct (_ || _ || _) eqn:E1.
  { split_and!; auto. intros Hs Hr. rewrite !orb_true_iff, negb_true_iff, Z.geb_leb, Z.leb_le, Z.ltb_lt in E1.
    rewrite bool_decide_eq_false in E1. destruct E1 as [[?|?]|?]; [done|lia|lia]. }
  destruct (aget (p_ep p) role <? 0) eqn:E2; zbool.
  { split_and!; auto. }
  assert (Hset : ∀ r, aget (aset (p_ep p) role (-1)) r = aget (p_ep p) r ∨ aget (aset (p_ep p) role (-1)) r = -1).
  { intros r. rewrite aget_aset. destruct (decide _); [by right|by left]. }
  destruct (negb _); cbn [snd]; split_and!; try done; intros; cbn; rewrite aget_aset_eq; lia.
Qed.

Lemma release_role_covers w p role :
  covers w p → covers (fst (fc_release_role w p role)) (snd (fc_release_role w p role)).
Proof.
  intros Hc. pose proof (release_role_moves w p role Hc) as Hm.
  destruct (release_role_permit w p role) as (Hh & Hb & _ & _ & _ & Hl & _).
  eapply moves_covers; [exact Hc|exact Hm|..].
  - rewrite (mv_svc _ _ _ _ Hm), Hh. pose proof (co_svc _ _ Hc). lia.
  - intros b Hcb. rewrite (mv_band _ _ _ _ Hm b Hcb). unfold holds_band. rewrite Hh, Hb.
    pose proof (co_band _ _ Hc b Hcb). lia.
  - intros ep r He Hr. rewrite (mv_leg _ _ _ _ Hm ep r He Hr). pose proof (co_leg _ _ Hc ep r He Hr).
    unfold holds_leg in *. destruct (Hl r) as [->| ->]; [lia|].
    replace (-1 =? ep) with false by (symmetry; apply Z.eqb_neq; lia). simpl.
    destruct (_ =? ep); simpl in *; lia.
Qed.

(** Every leg goes, then the service unit with its band. *)
Lemma release_legs w p :
  covers w p → p_state p = FC_P_EXECUTING →
  let r := foldl (fun '(w, p) r => fc_release_role w p r) (w, p) (zseq FC_ROLES) in
  moves w p (fst r) (snd r) ∧ covers (fst r) (snd r) ∧ p_state (snd r) = p_state p ∧
  p_fc (snd r) = p_fc p ∧ p_svc_held (snd r) = p_svc_held p ∧ p_band (snd r) = p_band p ∧
  p_tslot (snd r) = p_tslot p ∧
  (∀ r', 0 ≤ r' < FC_ROLES → aget (p_ep (snd r)) r' < 0).
Proof.
  intros Hc Hst. change (zseq FC_ROLES) with [0; 1; 2]. cbn [foldl].
  pose proof (release_role_moves w p 0 Hc) as M0. pose proof (release_role_covers w p 0 Hc) as C0.
  destruct (release_role_permit w p 0) as (A0 & B0 & S0 & F0 & T0 & L0 & Z0).
  destruct (fc_release_role w p 0) as [w1 p1]. cbn [fst snd] in *.
  pose proof (release_role_moves w1 p1 1 C0) as M1. pose proof (release_role_covers w1 p1 1 C0) as C1.
  destruct (release_role_permit w1 p1 1) as (A1 & B1 & S1 & F1 & T1 & L1 & Z1).
  destruct (fc_release_role w1 p1 1) as [w2 p2]. cbn [fst snd] in *.
  pose proof (release_role_moves w2 p2 2 C1) as M2. pose proof (release_role_covers w2 p2 2 C1) as C2.
  destruct (release_role_permit w2 p2 2) as (A2 & B2 & S2 & F2 & T2 & L2 & Z2).
  destruct (fc_release_role w2 p2 2) as [w3 p3]. cbn [fst snd] in *.
  split_and!; try congruence.
  - eapply moves_trans; [exact M0|]. eapply moves_trans; [exact M1|exact M2].
  - unfold FC_ROLES. intros r Hr. specialize (Z0 Hst ltac:(unfold FC_ROLES; lia)).
    specialize (Z1 ltac:(congruence) ltac:(unfold FC_ROLES; lia)).
    specialize (Z2 ltac:(congruence) ltac:(unfold FC_ROLES; lia)).
    assert (r = 0 ∨ r = 1 ∨ r = 2) as [->|[->| ->]] by lia; [| |done].
    + destruct (L2 0) as [->| ->]; [|lia]. destruct (L1 0) as [->| ->]; lia.
    + destruct (L2 1) as [->| ->]; lia.
Qed.

Lemma release_unit_spec w p :
  covers w p → p_fc p = Some (w_id w) → p_svc_held p = true →
  let w' := release_unit w p in
  w_id w' = w_id w ∧ s_ep_inflight (w_fc w') = s_ep_inflight (w_fc w) ∧
  s_inflight (w_fc w') = s_inflight (w_fc w) - 1 ∧
  (∀ b, fc_band_counted b = true → aget (s_band_inflight (w_fc w')) b
     = aget (s_band_inflight (w_fc w)) b - Z.b2z (p_band p =? b)) ∧
  w_anomaly w' = w_anomaly w ∧ w_drain w' = w_drain w ∧ w_now w' = w_now w.
Proof.
  intros Hc Hf Hh. unfold release_unit. rewrite Hh, Hf, bool_decide_true by done.
  pose proof (co_svc _ _ Hc) as Hs. rewrite Hh in Hs. simpl in Hs.
  unfold give_inflight, give_unit, fc_unit_give, fc_band_unit_give.
  destruct (s_inflight (w_fc w) =? 0) eqn:E; zbool; [lia|].
  destruct (fc_band_counted (p_band p)) eqn:Ec.
  - pose proof (co_band _ _ Hc _ Ec) as Hb. unfold holds_band in Hb. rewrite Hh, Z.eqb_refl in Hb. simpl in Hb.
    unfold give_unit, fc_unit_give. cbn [w_fc on_fc field_set s_band_inflight].
    destruct (aget (s_band_inflight (w_fc w)) (p_band p) =? 0) eqn:E2; zbool; [lia|].
    split_and!; try done. intros b Hcb. cbn. rewrite aget_aset.
    unfold fc_band_counted, FC_BAND_CRITICAL, FC_BAND_SHEDDABLE in *.
    destruct (p_band p =? b) eqn:E3; zbool; simpl.
    + subst. by rewrite decide_True.
    + rewrite decide_False; [lia|]. unfold aidx. repeat case_test; zbool; lia.
  - split_and!; try done. intros b Hcb. cbn. destruct (p_band p =? b) eqn:E3; zbool; [congruence|]. simpl. lia.
Qed.

Section releases.
Context (calloc : Z → bool) (wake_hook : option (list (Z * Z) → Z → Z → bool)).

Lemma release_exec_moves w p wake :
  covers w p → p_state p = FC_P_EXECUTING →
  let r := fc_permit_release__ calloc wake_hook w p wake in
  moves w p (fst r) (snd r) ∧ p_state (snd r) = FC_P_RELEASED.
Proof.
  intros Hc Hst. unfold fc_permit_release__. rewrite Hst.
  destruct (release_legs w p Hc Hst) as (Hm & Hc1 & Hs1 & Hf1 & Hh1 & Hb1 & _ & Hl1).
  destruct (foldl _ _ _) as [w1 p1]. cbn [fst snd] in *. pose proof (co_ok _ _ Hc) as Hok.
  assert (Hpool : p_fc p1 = Some (w_id w1)).
  { rewrite Hf1, (mv_id _ _ _ _ Hm). by apply (po_pool _ _ Hok). }
  assert (Hheld : p_svc_held p1 = true) by (rewrite Hh1; by apply (po_exec _ _ Hok)).
  destruct (release_unit_spec w1 p1 Hc1 Hpool Hheld) as (R1 & R2 & R3 & R4 & _).
  set (w2 := release_unit w1 p1) in *. rewrite Hpool, bool_decide_true by done.
  set (w3 := if _ && true then _ else w2).
  assert (H3 : world_same w2 w3) by (unfold w3; case_test; [apply dec_same|done]). clearbody w3.
  set (p2 := p1 <| p_svc_held := false |> <| p_tslot := -1 |> <| p_state := FC_P_RELEASED |>).
  set (w4 := if true && wake then _ else w3).
  assert (H4 : world_same w3 w4) by (unfold w4; case_test; [apply wake_one_same|done]). clearbody w4.
  split; [|done]. eapply moves_trans; [exact Hm|].
  assert (H : world_same w2 w4) by (by etrans). destruct H as ((E1 & E2 & E3 & _) & E4 & _). split.
  - congruence.
  - pose proof (mv_ok _ _ _ _ Hm) as Hok1. rewrite (mv_id _ _ _ _ Hm). split; try done.
    + apply Hok1.
    + intros r Hr. apply (po_legs _ _ Hok1 r Hr).
    + intros r Hr Hge. specialize (Hl1 r Hr). change (aget (p_ep p2) r) with (aget (p_ep p1) r) in Hge. lia.
  - congruence.
  - rewrite E1, R3, Hheld. simpl. lia.
  - intros b Hcb. rewrite E2, (R4 b Hcb). unfold holds_band. rewrite Hheld. simpl. lia.
  - intros ep r He Hr. unfold ep_get, holds_leg. rewrite E3, R2. simpl. lia.
Qed.

Lemma ok_state id p st :
  permit_ok id p → p_state p ≠ FC_P_EXECUTING → st ≠ FC_P_EXECUTING → permit_ok id (p <| p_state := st |>).
Proof.
  intros Hok Hst Hne. destruct (idle_of_state _ _ Hok Hst) as [Hh Hl]. destruct Hok. split; try done.
  - cbn. rewrite Hh. by split.
  - intros r Hr Hge. specialize (Hl r Hr). cbn in Hge. lia.
Qed.

(** A permit that does not execute, settled, parked again or given back. *)
Lemma idle_moves w p w' p' :
  covers w p → p_state p ≠ FC_P_EXECUTING → world_same w w' → p_state p' ≠ FC_P_EXECUTING →
  p_svc_held p' = p_svc_held p → p_ep p' = p_ep p → is_band (p_band p') → moves w p w' p'.
Proof.
  intros Hc Hst Hs Hst' Hh He Hb. destruct (idle_of_state _ _ (co_ok _ _ Hc) Hst) as [Hh0 Hl0].
  pose proof (co_ok _ _ Hc) as Hok. apply moves_idle'; [done| |done|split; [congruence|by rewrite He]].
  split; [done| |done| |].
  - rewrite Hh, Hh0. by split.
  - rewrite He. apply Hok.
  - intros r Hr. rewrite He. intros Hge. specialize (Hl0 r Hr). lia.
Qed.

Lemma settle_fields p to :
  p_svc_held (fst (fc_permit_settle p to)) = p_svc_held p ∧ p_ep (fst (fc_permit_settle p to)) = p_ep p ∧
  p_band (fst (fc_permit_settle p to)) = p_band p ∧
  (p_state (fst (fc_permit_settle p to)) = to ∨ p_state (fst (fc_permit_settle p to)) = p_state p).
Proof. unfold fc_permit_settle. case_decide; cbn; auto. Qed.

Lemma wait_end_fields w p t :
  let p' := snd (fc_queue_wait_end w p t) in
  p_svc_held p' = p_svc_held p ∧ p_ep p' = p_ep p ∧ p_band p' = p_band p ∧ p_state p' = p_state p.
Proof. unfold fc_queue_wait_end. by destruct (negb _). Qed.

Lemma take_fields w p :
  let p' := snd (fst (fc_queue_take w p)) in
  p_svc_held p' = p_svc_held p ∧ p_ep p' = p_ep p ∧ p_band p' = p_band p ∧
  (p_state p' = p_state p ∨ p_state p' = FC_P_ENDED).
Proof.
  unfold fc_queue_take. destruct (negb _); [auto|]. destruct (fc_ring_find _ _ _ _); [|auto].
  unfold fc_permit_settle. case_decide; cbn; auto.
Qed.

Lemma release_queued_fields w p wake :
  let r := release_queued calloc wake_hook w p wake in
  world_same w (fst r) ∧ p_svc_held (snd r) = p_svc_held p ∧ p_ep (snd r) = p_ep p ∧
  p_band (snd r) = p_band p ∧ p_state (snd r) = FC_P_RELEASED.
Proof.
  unfold release_queued. set (r1 := if bool_decide (is_Some (p_fc p)) then _ else _).
  assert (H1 : world_same w (fst (fst r1))) by (unfold r1; case_test; [apply take_same|done]).
  assert (F1 : p_svc_held (snd (fst r1)) = p_svc_held p ∧ p_ep (snd (fst r1)) = p_ep p ∧
    p_band (snd (fst r1)) = p_band p).
  { unfold r1. case_test; [|done]. destruct (take_fields w p) as (?&?&?&_). done. }
  destruct r1 as [[w1 p1] taken]. cbn [fst snd] in *. destruct F1 as (F1 & F2 & F3). destruct taken.
  { set (w2 := on_fc _ w1). assert (H2 : world_same w1 w2) by apply on_fc_same, count_band_units.
    pose proof (wait_end_same w2 p1 (w_now w2)) as H3. destruct (wait_end_fields w2 p1 (w_now w2)) as (?&?&?&_).
    destruct (fc_queue_wait_end _ _ _) as [w3 p3]. cbn [fst snd] in *. split_and!; try done.
    - etrans; [exact H1|]. by etrans.
    - cbn. congruence.
    - cbn. congruence.
    - cbn. congruence. }
  set (r2 := if bool_decide (is_Some (p_fc p)) then _ else _).
  assert (H2 : world_same w1 (fst r2)) by (unfold r2; case_test; [apply evicted_claim_same|done]).
  destruct r2 as [w2 claimed]. cbn [fst] in H2. destruct (settle_fields p1 FC_P_RELEASED) as (?&?&?&_).
  destruct (fc_permit_settle p1 FC_P_RELEASED) as [p2 won]. cbn [fst snd] in *.
  destruct claimed; cbn [fst snd].
  - split_and!; cbn; try congruence. by etrans.
  - split_and!; cbn; try congruence. etrans; [exact H1|]. etrans; [exact H2|].
    case_test; [apply wake_one_same|done].
Qed.

Lemma release_moves w p wake :
  covers w p →
  let r := fc_permit_release__ calloc wake_hook w p wake in moves w p (fst r) (snd r).
Proof.
  intros Hc. destruct (decide (p_state p = FC_P_EXECUTING)) as [Hst|Hst].
  { by apply release_exec_moves. }
  pose proof (co_ok _ _ Hc) as Hok. pose proof (moves_refl w p Hok) as Hrefl.
  assert (Hrel : moves w p w (p <| p_state := FC_P_RELEASED |>)).
  { apply idle_moves; try done. apply Hok. }
  unfold fc_permit_release__. destruct (p_state p) eqn:E; try done.
  destruct (release_queued_fields w p wake) as (?&?&?&Hb&Hs).
  apply idle_moves; try done; [by rewrite E|by rewrite Hs|rewrite Hb; apply Hok].
Qed.
End releases.

(** ** The queue's operations on a permit *)

Section queue_moves.
Context (calloc : Z → bool) (wake_hook : option (list (Z * Z) → Z → Z → bool)).

Lemma push_fields w p fd gen t front :
  let p' := snd (fst (fc_queue_push calloc wake_hook w p fd gen t front)) in
  p' = p ∨
  (p_svc_held p' = false ∧ p_ep p' = Arr3 (-1) (-1) (-1) ∧ p_band p' = p_band p ∧
   p_state p' ≠ FC_P_EXECUTING).
Proof.
  unfold fc_queue_push. case_test; [by left|]. right. destruct (push_times _ _ _) as [[ent ordered] kept].
  destruct (fc_permit_bind w p) as [w1 p1] eqn:Eb.
  assert (p1 = fc_permit_reset <| p_fc := Some (w_id w) |>) as -> by (by unfold fc_permit_bind in Eb; simplify_eq).
  destruct (if kept =? 0 then _ else _) as [win cut].
  destruct (if _ && _ then _ else _) as [w2 r]. by destruct (pr_slot r).
Qed.

Lemma push_moves w p fd gen t front :
  covers w p → p_state p ≠ FC_P_EXECUTING →
  let r := fst (fc_queue_push calloc wake_hook w p fd gen t front) in moves w p (fst r) (snd r).
Proof.
  intros Hc Hst. pose proof (co_ok _ _ Hc) as Hok. pose proof (push_same calloc wake_hook w p fd gen t front) as Hs.
  destruct (push_fields w p fd gen t front) as [Heq|(Hh & He & Hb & Hst')].
  - cbn zeta. rewrite Heq. by apply moves_keep.
  - apply moves_idle'; [done| | |].
    + apply ok_idle; [rewrite Hb; apply Hok|done|done|done].
    + by eapply idle_of_state.
    + by apply idle_of_ep.
Qed.

Lemma take_moves w p :
  covers w p → p_state p ≠ FC_P_EXECUTING →
  let r := fst (fc_queue_take w p) in moves w p (fst r) (snd r).
Proof.
  intros Hc Hst. destruct (take_fields w p) as (?&?&Hb&Hs). apply idle_moves; try done.
  - apply take_same.
  - by destruct Hs as [->| ->].
  - rewrite Hb. apply Hc.
Qed.

Lemma resume_moves w p :
  covers w p → p_state p ≠ FC_P_EXECUTING →
  let r := fst (fc_queue_owner_resume w p) in moves w p (fst r) (snd r).
Proof.
  intros Hc Hst. pose proof (co_ok _ _ Hc) as Hok. pose proof (moves_refl w p Hok) as Hrefl.
  unfold fc_queue_owner_resume. destruct (p_state p) eqn:E; try done.
  pose proof (evicted_claim_same w (p_q_fd p) (p_q_gen p)) as Hs.
  destruct (fc_queue_evicted_claim _ _ _) as [w1 claimed]. cbn [fst] in Hs.
  assert (Hm : ∀ p', p_svc_held p' = p_svc_held p → p_ep p' = p_ep p → p_band p' = p_band p →
    p_state p' ≠ FC_P_EXECUTING → moves w p w1 p').
  { intros p' H1 H2 H3 H4. apply idle_moves; try done; [by rewrite E|rewrite H3; apply Hok]. }
  unfold fc_queue_resumed, fc_permit_settle. rewrite decide_True by done.
  destruct claimed; [by apply Hm|]. destruct (fc_queue_holds _ _); apply Hm; cbn; try done. by rewrite E.
Qed.

Lemma evicted_settle_moves w p fd gen :
  covers w p → p_state p ≠ FC_P_EXECUTING →
  let r := fst (fc_queue_evicted_settle w p fd gen) in moves w p (fst r) (snd r).
Proof.
  intros Hc Hst. pose proof (co_ok _ _ Hc) as Hok. pose proof (moves_refl w p Hok) as Hrefl.
  unfold fc_queue_evicted_settle, fc_evicted_take, evicted_remove. destruct (_ || _); [done|].
  destruct (evicted_ix _ _); [|done]. cbn [negb]. destruct (settle_fields p FC_P_EVICTED) as (?&?&Hb&Hs).
  destruct (fc_permit_settle p FC_P_EVICTED) as [p2 won]. cbn [fst snd default] in *.
  assert (p_state p2 ≠ FC_P_EXECUTING) by (by destruct Hs as [->| ->]).
  assert (is_band (p_band p2)) by (rewrite Hb; apply Hok). by apply idle_moves.
Qed.

Lemma wait_end_moves w p t :
  covers w p → moves w p (fst (fc_queue_wait_end w p t)) (snd (fc_queue_wait_end w p t)).
Proof.
  intros Hc. destruct (wait_end_fields w p t) as (?&?&?&?). pose proof (co_ok _ _ Hc) as Hok.
  apply moves_keep; try done; [apply wait_end_same|].
  assert (p_fc (snd (fc_queue_wait_end w p t)) = p_fc p) by (unfold fc_queue_wait_end; by destruct (negb _)).
  destruct Hok. split; rewrite ?H, ?H0, ?H1, ?H2, ?H3; done.
Qed.

Lemma ep_acquire_refused w p ep role :
  fc_active (w_fc w) = true →
  snd (fc_ep_acquire w p ep role) ≠ FC_ADMIT → fst (fc_ep_acquire w p ep role) = (w, p).
Proof.
  intros _. unfold fc_ep_acquire. repeat (case_test; [done|]). destruct (take_ep _ _ _ _); [|done].
  destruct (negb (aexists _ _)); cbn [snd]; intros Hx; by destruct Hx.
Qed.

Lemma ep_scan_moves eligible role preferred eps any w p :
  covers w p → fc_active (w_fc w) = true →
  let '(w', p', _, _) := ep_scan eligible role preferred eps any w p in moves w p w' p'.
Proof.
  intros Hc Ha. revert any. induction eps as [|i eps IH]; intros any; cbn [ep_scan].
  { apply moves_refl, Hc. }
  destruct (_ || _); [apply IH|]. destruct (fc_ep_over_cap _ _ _ _); [apply IH|].
  pose proof (ep_acquire_moves w p i role Hc) as Hm. pose proof (ep_acquire_refused w p i role Ha) as Hr.
  destruct (fc_ep_acquire w p i role) as [[w1 p1] v]. cbn [fst snd] in *.
  destruct (decide (v = FC_ADMIT)); [exact Hm|]. specialize (Hr n). simplify_eq. apply IH.
Qed.

Lemma ep_acquire_any_moves w p role preferred n_eps eligible :
  covers w p →
  let '(w', p', _, _) := fc_ep_acquire_any w p role preferred n_eps eligible in moves w p w' p'.
Proof.
  intros Hc. unfold fc_ep_acquire_any. pose proof (moves_refl w p (co_ok _ _ Hc)) as Hrefl.
  destruct (negb (bool_decide _) || negb (fc_active (w_fc w))) eqn:E; [done|].
  assert (Ha : fc_active (w_fc w) = true) by (zbool; done).
  set (n := if n_eps >? FC_MAX_EP then _ else _).
  set (try := _ && _ && _). set (r := if try then _ else (w, p, FC_SHED)).
  assert (Hm : moves w p (fst (fst r)) (snd (fst r))) by (unfold r; case_test; [by apply ep_acquire_moves|done]).
  assert (Hr : snd r ≠ FC_ADMIT → fst r = (w, p)).
  { unfold r. case_test; [|done]. by apply ep_acquire_refused. }
  destruct r as [[w1 p1] v1]. cbn [fst snd] in *. destruct (decide (v1 = FC_ADMIT)); [exact Hm|].
  specialize (Hr n0). simplify_eq. pose proof (ep_scan_moves eligible role preferred (zseq n) try w p Hc Ha) as Hs.
  destruct (ep_scan _ _ _ _ _ _ _) as [[[w2 p2] i] any]. destruct (i >=? 0); [done|]. destruct any; [done|].
  eapply moves_after; [exact Hs|apply on_fc_same, count_units|done..].
Qed.
End queue_moves.

(** ** The transition system *)

Section system.
Context (calloc : Z → bool) (wake_hook : option (list (Z * Z) → Z → Z → bool)).

(** A call of the interface on one permit. The guards are the callers': a
    permit is decided or parked again only once it holds no unit. *)
Inductive permit_step (w : world) (p : fc_permit) : world → fc_permit → Prop :=
| ps_acquire can_queue woken tkey band w' p' v :
    p_state p ≠ FC_P_EXECUTING →
    fc_service_acquire__ calloc w p can_queue woken tkey band = (w', p', v) → permit_step w p w' p'
| ps_bypass w' p' :
    p_state p ≠ FC_P_EXECUTING → fc_bypass w p = (w', p') → permit_step w p w' p'
| ps_ep ep role w' p' v :
    fc_ep_acquire w p ep role = (w', p', v) → permit_step w p w' p'
| ps_ep_any role preferred n_eps eligible w' p' i v :
    fc_ep_acquire_any w p role preferred n_eps eligible = (w', p', i, v) → permit_step w p w' p'
| ps_move role ep w' p' ok :
    fc_permit_move w p role ep = (w', p', ok) → permit_step w p w' p'
| ps_release_role role w' p' :
    fc_release_role w p role = (w', p') → permit_step w p w' p'
| ps_release wake w' p' :
    fc_permit_release__ calloc wake_hook w p wake = (w', p') → permit_step w p w' p'
| ps_push fd gen now front w' p' rc :
    p_state p ≠ FC_P_EXECUTING →
    fc_queue_push calloc wake_hook w p fd gen now front = (w', p', rc) → permit_step w p w' p'
| ps_take w' p' won :
    p_state p ≠ FC_P_EXECUTING → fc_queue_take w p = (w', p', won) → permit_step w p w' p'
| ps_resume w' p' r :
    p_state p ≠ FC_P_EXECUTING → fc_queue_owner_resume w p = (w', p', r) → permit_step w p w' p'
| ps_evicted fd gen w' p' won :
    p_state p ≠ FC_P_EXECUTING → fc_queue_evicted_settle w p fd gen = (w', p', won) → permit_step w p w' p'
| ps_wait_end now w' p' :
    fc_queue_wait_end w p now = (w', p') → permit_step w p w' p'.

(** An event of the process on the pool alone. *)
Inductive pool_step (w : world) : world → Prop :=
| pl_pop : pool_step w (fst (fc_queue_pop w))
| pl_wake_one : pool_step w (fc_queue_wake_one calloc wake_hook w)
| pl_wake_room : pool_step w (fc_queue_wake_room calloc wake_hook w)
| pl_tick sig : pool_step w (fc_adapt_tick calloc wake_hook w sig)
| pl_ttft p : pool_step w (fc_permit_ttft w p)
| pl_warm ep now : pool_step w (on_fc (fc_ep_warm_start (w_now w) ep now) w)
| pl_apply cfg : pool_step w (on_fc (fun fc => fc_state_apply calloc fc cfg) w)
| pl_destroy : pool_step w (on_fc fc_state_destroy w)
| pl_drain on : pool_step w (fc_drain_set on w)
| pl_clock now : pool_step w (w <| w_now := now |>)
| pl_timer d : pool_step w (arm_timer d w).

Record sys := mk_sys { y_w : world; y_ps : list fc_permit }.

Inductive fc_step : sys → sys → Prop :=
| st_permit w ps i p w' p' :
    ps !! i = Some p → permit_step w p w' p' → fc_step (mk_sys w ps) (mk_sys w' (<[i := p']> ps))
| st_pool w ps w' : pool_step w w' → fc_step (mk_sys w ps) (mk_sys w' ps)
| st_new w ps :
    zlen ps < 4294967294 → fc_step (mk_sys w ps) (mk_sys w (ps ++ [fc_permit_reset])).

Lemma permit_step_moves w p w' p' : covers w p → permit_step w p w' p' → moves w p w' p'.
Proof.
  intros Hc. destruct 1 as [???? ??? Hst E|?? Hst E|????? E|???????? E|????? E|??? E|??? E|??????? Hst E
    |??? Hst E|??? Hst E|????? Hst E|??? E].
  - pose proof (acquire_moves calloc w p can_queue woken tkey band Hc Hst) as H. by rewrite E in H.
  - pose proof (bypass_moves w p Hc Hst) as H. by rewrite E in H.
  - pose proof (ep_acquire_moves w p ep role Hc) as H. by rewrite E in H.
  - pose proof (ep_acquire_any_moves w p role preferred n_eps eligible Hc) as H. by rewrite E in H.
  - pose proof (permit_move_moves w p role ep Hc) as H. by rewrite E in H.
  - pose proof (release_role_moves w p role Hc) as H. by rewrite E in H.
  - pose proof (release_moves calloc wake_hook w p wake Hc) as H. by rewrite E in H.
  - pose proof (push_moves calloc wake_hook w p fd gen now front Hc Hst) as H. by rewrite E in H.
  - pose proof (take_moves w p Hc Hst) as H. by rewrite E in H.
  - pose proof (resume_moves w p Hc Hst) as H. by rewrite E in H.
  - pose proof (evicted_settle_moves w p fd gen Hc Hst) as H. by rewrite E in H.
  - pose proof (wait_end_moves w p now Hc) as H. by rewrite E in H.
Qed.

(** The unit counters of a pool. *)
Definition unit_counters (fc : fc_state) := (s_inflight fc, s_band_inflight fc, s_ep_inflight fc).

Lemma units_counters fc fc' : units_same fc fc' → unit_counters fc' = unit_counters fc.
Proof. intros (H1 & H2 & H3 & _). unfold unit_counters. by rewrite H1, H2, H3. Qed.

Lemma counters_queue fc f : unit_counters (fc <| s_queue ::= f |>) = unit_counters fc.
Proof. done. Qed.
Lemma counters_cfg fc f : unit_counters (fc <| s_cfg ::= f |>) = unit_counters fc.
Proof. done. Qed.
Lemma counters_reset fc old : unit_counters (fc_adapt_reset fc old) = unit_counters fc.
Proof. unfold fc_adapt_reset. by case_test. Qed.
Lemma counters_warm fc : unit_counters (apply_warm fc) = unit_counters fc.
Proof. unfold apply_warm. by case_test. Qed.
Lemma counters_share fc : unit_counters (apply_share calloc fc) = unit_counters fc.
Proof.
  unfold apply_share. case_test; [|done]. pose proof (ensure_units calloc fc) as Hu.
  destruct (fc_tenant_table_ensure calloc fc) as [fc' ok]. apply units_counters in Hu. by destruct ok.
Qed.

Lemma counters_ttft clock ep ms now fc : unit_counters (fc_ttft_sample clock ep ms now fc) = unit_counters fc.
Proof. unfold fc_ttft_sample. by case_test. Qed.

Lemma apply_counters fc cfg : unit_counters (fc_state_apply calloc fc cfg) = unit_counters fc.
Proof.
  unfold fc_state_apply. cbv zeta.
  by rewrite counters_queue, counters_reset, counters_warm, counters_share, counters_cfg.
Qed.

Lemma tick_counters w sig : unit_counters (w_fc (fc_adapt_tick calloc wake_hook w sig)) = unit_counters (w_fc w)
  ∧ w_id (fc_adapt_tick calloc wake_hook w sig) = w_id w.
Proof.
  unfold fc_adapt_tick. case_test; [done|].
  assert (H : unit_counters (fst (adapt_step (w_fc w) sig)) = unit_counters (w_fc w)).
  { unfold adapt_step. repeat case_test; done. }
  destruct (adapt_step (w_fc w) sig) as [fc wake]. cbn [fst] in H. destruct wake; [|done].
  pose proof (wake_room_same calloc wake_hook (w <| w_fc := fc |>)) as (Hu & Hid & _).
  apply units_counters in Hu. split; [|done]. etrans; [exact Hu|exact H].
Qed.

Lemma pool_step_counters w w' :
  pool_step w w' → unit_counters (w_fc w') = unit_counters (w_fc w) ∧ w_id w' = w_id w.
Proof.
  assert (Hsame : ∀ w', world_same w w' → unit_counters (w_fc w') = unit_counters (w_fc w) ∧ w_id w' = w_id w).
  { intros w1 (Hu & Hid & _). split; [by apply units_counters|done]. }
  destruct 1.
  - apply Hsame. unfold fc_queue_pop. destruct (fc_ring_pop (w_queue w)) as [q e]. cbn [fst].
    etrans; [|apply on_fc_same, publish_units]. destruct e; [|done].
    etrans; [|apply dec_same]. done.
  - apply Hsame, wake_one_same.
  - apply Hsame, wake_room_same.
  - apply tick_counters.
  - unfold fc_permit_ttft. repeat case_test; try done; (split; [apply counters_ttft|done]).
  - split; [|done]. cbn [w_fc on_fc field_set]. unfold fc_ep_warm_start. by case_test.
  - split; [|done]. apply apply_counters.
  - done.
  - done.
  - done.
  - done.
Qed.

Lemma step_balance s s' :
  balance (y_w s) (y_ps s) → fc_step s s' → balance (y_w s') (y_ps s').
Proof.
  intros Hb. destruct 1 as [w ps i p w' p' Hi Hs|w ps w' Hs|w ps Hn]; cbn [y_w y_ps] in *.
  - eapply balance_moves; [exact Hb|exact Hi|]. apply permit_step_moves; [|done]. by eapply balance_covers.
  - apply pool_step_counters in Hs as [Hc Hid]. unfold unit_counters in Hc. simplify_eq.
    by eapply balance_same.
  - destruct Hb. split; try done.
    + intros q Hq. apply elem_of_app in Hq as [?|Hq]; [by apply ba_ok0|].
      apply list_elem_of_singleton in Hq as ->. apply ok_idle; [by left|done|done|done].
    + rewrite zcount_app, ba_svc0. simpl. lia.
    + intros b Hcb. rewrite zcount_app, (ba_band0 b Hcb). simpl. lia.
    + intros ep r He Hr. rewrite zcount_app, (ba_leg0 ep r He Hr). cbn [zcount].
      replace (holds_leg ep r fc_permit_reset) with false; [simpl; lia|].
      symmetry. apply Z.eqb_neq. pose proof (proj2 idle_reset r Hr). lia.
    + unfold zlen in *. rewrite length_app. simpl. lia.
Qed.
End system.

(** A process at start: one pool, nothing in flight, no request. *)
Definition fresh_system (fc : fc_state) : sys :=
  mk_sys (world_of fc) [].
Definition nothing_held (fc : fc_state) : Prop :=
  s_inflight fc = 0 ∧ s_band_inflight fc = azero ∧ s_ep_inflight fc = zrep FC_MAX_EP azero.

Lemma fresh_balance fc : nothing_held fc → balance (y_w (fresh_system fc)) [].
Proof.
  intros (Hi & Hb & He). split; cbn [fresh_system y_w world_of w_fc zcount]; try done.
  - intros p Hp. by apply not_elem_of_nil in Hp.
  - by rewrite He.
  - intros b _. rewrite Hb. unfold aget. cbn. by case_tests.
  - intros ep r Hep Hr. unfold ep_get. rewrite He, zget_zrep by lia. unfold aget. cbn. by case_tests.
Qed.

Lemma init_nothing_held calloc getenv slots : nothing_held (fc_state_init_slots calloc getenv slots).
Proof.
  unfold fc_state_init_slots, nothing_held.
  pose proof (apply_counters calloc (fc_state_zero <| s_tenant_slots := fc_tenant_slots_clamp slots |>)
    (fc_cfg_from_env getenv)) as H. unfold unit_counters in H.
  set (fc := fc_state_apply _ _ _) in *. clearbody fc. injection H as -> -> ->. done.
Qed.

(** ** The queue's invariant *)

(** Calls that leave the queue and its mirrors alone. *)
Definition queue_kept (w w' : world) : Prop := queue_view (w_fc w') = queue_view (w_fc w).
#[export] Instance queue_kept_preorder : PreOrder queue_kept.
Proof. unfold queue_kept. split; [done|]. intros x y z H1 H2. congruence. Qed.

Lemma queue_kept_ok w w' : queue_kept w w' → pool_ok (w_fc w) → pool_ok (w_fc w').
Proof. apply pool_ok_view. Qed.

Lemma tenants_kept w w' : world_tenants w w' → queue_kept w w'.
Proof. intros (Ht & _). apply tenants_queue in Ht as (H1 & H2 & H3 & _). unfold queue_kept, queue_view. congruence. Qed.

Lemma on_fc_kept f w : queue_view (f (w_fc w)) = queue_view (w_fc w) → queue_kept w (on_fc f w).
Proof. done. Qed.

Lemma give_kept get set w :
  (∀ n fc, queue_view (set n fc) = queue_view fc) → queue_kept w (give_unit get set w).
Proof.
  intros Hs. unfold queue_kept, give_unit. destruct (fc_unit_give _) as [n u]. destruct u; apply Hs.
Qed.

Lemma bind_kept w p : queue_kept w (fst (fc_permit_bind w p)).
Proof. unfold fc_permit_bind, drop_opt, queue_kept. by destruct (p_fc p). Qed.

Lemma admit_kept w p slot woken : queue_kept w (fst (admit_permit w p slot woken)).
Proof. unfold admit_permit, queue_kept, fc_band_unit_take. cbn. by case_test. Qed.

Lemma wait_end_kept w p t : queue_kept w (fst (fc_queue_wait_end w p t)).
Proof. unfold fc_queue_wait_end. by case_test. Qed.

Lemma shared_kept calloc w p can_queue woken :
  queue_kept w (fst (fst (fc_service_acquire_shared calloc w p can_queue woken))).
Proof.
  unfold fc_service_acquire_shared. pose proof (tenants_kept _ _ (get_tenants calloc w (p_tkey p) (negb woken))) as H1.
  destruct (fc_tenant_get _ _ _ _) as [w1 slot]. cbn [fst] in H1.
  assert (Hput : ∀ w2 v, queue_kept w w2 → queue_kept w (fst (fst (shared_refuse w2 p slot v)))).
  { intros w2 v H2. etrans; [exact H2|]. apply tenants_kept. split; [|done]. apply put_tenants. }
  assert (Hadm : ∀ w2, queue_kept w w2 → queue_kept w (fst (fst (shared_admit w2 p slot woken)))).
  { intros w2 H2. etrans; [exact H2|]. unfold shared_admit. cbn [fst]. etrans; [|apply admit_kept].
    case_test; [|done]. apply tenants_kept. split; [|done]. cbn [w_fc on_fc field_set]. etrans; [|apply mark_tenants]. done. }
  destruct (_ && _ && _).
  { destruct (c_mode (w_cfg w) =? FC_MODE_ENFORCE); [by apply Hput|]. apply Hadm. etrans; [exact H1|]. done. }
  set (r := if _ && _ && _ then _ else _).
  assert (H2 : queue_view (fst r) = queue_view (w_fc w1)).
  { unfold r. destruct (_ && _ && _); [|done]. unfold fc_band_waiter_can_run. destruct (waiter_marks_only (w_fc w1) (fc_tenant_svc_bound (w_fc w))) as (l & n & b & E).
    destruct (fc_tenant_waiter_can_run _ _) as [fc' ?]. cbn [fst] in E. subst fc'. done. }
  clearbody r. destruct r as [fc2 behind]. cbn [fst] in H2.
  set (u := if behind then _ else _). assert (H3 : queue_view (fst u) = queue_view fc2).
  { unfold u. destruct behind; [done|]. unfold shared_unit. by destruct (fc_unit_take_band _ _ _ _). }
  clearbody u. destruct u as [fc3 over]. cbn [fst] in H3.
  assert (H4 : queue_kept w (w1 <| w_fc := fc3 |>)) by (unfold queue_kept in *; cbn [w_fc field_set]; congruence).
  destruct over; [|by apply Hadm]. destruct (c_mode (w_cfg w) =? FC_MODE_ENFORCE); [by apply Hput|].
  apply Hadm. etrans; [exact H4|]. done.
Qed.

Lemma acquire_bind_kept w p woken tkey band : queue_kept w (fst (acquire_bind w p woken tkey band)).
Proof. unfold acquire_bind. pose proof (bind_kept w p) as H. by destruct (fc_permit_bind w p). Qed.

Lemma acquire_kept calloc w p can_queue woken tkey band :
  queue_kept w (fst (fst (fc_service_acquire__ calloc w p can_queue woken tkey band))).
Proof.
  unfold fc_service_acquire__. pose proof (acquire_bind_kept w p woken tkey band) as H1.
  destruct (acquire_bind w p woken tkey band) as [w1 p1]. cbn [fst] in H1. etrans; [exact H1|]. clear H1.
  destruct (negb _); [done|]. destruct (_ && _); [done|]. destruct (fc_share_active _); [apply shared_kept|].
  destruct (if _ && _ then None else _) as [n|].
  - etrans; [|apply admit_kept]. done.
  - destruct (_ =? FC_MODE_ENFORCE); [done|]. etrans; [|apply admit_kept]. done.
Qed.

Lemma take_ep_kept w ep role r w' : take_ep w ep role r = Some w' → queue_kept w w'.
Proof. unfold take_ep. destruct (fc_unit_take _ _); [|case_test]; by intros [= <-]. Qed.

Lemma give_ep_kept ep role w : queue_kept w (give_ep ep role w).
Proof. by apply give_kept. Qed.

Lemma ep_acquire_kept w p ep role : queue_kept w (fst (fst (fc_ep_acquire w p ep role))).
Proof.
  unfold fc_ep_acquire. destruct (_ || _); [done|]. destruct (negb _); [done|]. case_test; [done|].
  destruct (take_ep _ _ _ _) as [w1|] eqn:E1; [|done]. apply take_ep_kept in E1. etrans; [exact E1|].
  set (w2 := if aget (p_ep p) role >=? 0 then _ else w1).
  assert (H2 : queue_kept w1 w2) by (unfold w2; case_test; [apply give_ep_kept|done]). clearbody w2.
  etrans; [exact H2|]. destruct (negb _); [|done]. cbn [fst].
  etrans; [|apply wait_end_kept]. apply on_fc_kept, count_band_view.
Qed.

Lemma ep_scan_kept eligible role preferred eps any w p :
  queue_kept w (fst (fst (fst (ep_scan eligible role preferred eps any w p)))).
Proof.
  revert any w p. induction eps as [|i eps IH]; intros any w p; cbn [ep_scan]; [done|].
  destruct (_ || _); [apply IH|]. destruct (fc_ep_over_cap _ _ _ _); [apply IH|].
  pose proof (ep_acquire_kept w p i role) as H. destruct (fc_ep_acquire w p i role) as [[w1 p1] v]. cbn [fst] in H.
  case_decide; [done|]. etrans; [exact H|apply IH].
Qed.

Lemma ep_any_kept w p role preferred n eligible :
  queue_kept w (fst (fst (fst (fc_ep_acquire_any w p role preferred n eligible)))).
Proof.
  unfold fc_ep_acquire_any. destruct (_ || _); [done|]. set (m := if n >? FC_MAX_EP then _ else n).
  set (r := if _ && _ && _ then _ else _).
  assert (H1 : queue_kept w (fst (fst r))) by (unfold r; destruct (_ && _ && _); [apply ep_acquire_kept|done]).
  clearbody r. destruct r as [[w1 p1] v1]. cbn [fst] in H1. case_decide; [done|].
  match goal with |- context [ep_scan ?a ?b ?c ?d ?e ?f ?g] => pose proof (ep_scan_kept a b c d e f g) as H2;
    destruct (ep_scan a b c d e f g) as [[[w2 p2] i] any] end. cbn [fst] in H2.
  case_test; [by etrans|]. destruct any; [by etrans|]. etrans; [exact H1|]. etrans; [exact H2|]. done.
Qed.

Lemma move_kept w p role ep : queue_kept w (fst (fst (fc_permit_move w p role ep))).
Proof.
  unfold fc_permit_move. destruct (_ || _ || _); [done|]. destruct (_ || _); [done|]. destruct (_ || _); [done|].
  case_test; [done|]. destruct (take_ep _ _ _ _) as [w1|] eqn:E1; [|done]. apply take_ep_kept in E1.
  etrans; [exact E1|]. cbn [fst]. case_test; [apply give_ep_kept|done].
Qed.

Lemma release_role_kept w p role : queue_kept w (fst (fc_release_role w p role)).
Proof.
  unfold fc_release_role. destruct (_ || _ || _); [done|]. case_test; [done|]. case_test; [done|]. apply give_ep_kept.
Qed.

(** Calls on the queue. *)

Lemma wake_one_ok calloc hook w : pool_ok (w_fc w) → pool_ok (w_fc (fc_queue_wake_one calloc hook w)).
Proof.
  intros Hok. unfold fc_queue_wake_one. destruct (negb _); [done|]. destruct (_ || _); [done|].
  by destruct (wake_head_spec calloc hook w azero Hok) as (H & _).
Qed.

Lemma wake_room_ok calloc hook w : pool_ok (w_fc w) → pool_ok (w_fc (fc_queue_wake_room calloc hook w)).
Proof.
  intros Hok. unfold fc_queue_wake_room. destruct (negb _); [done|].
  by destruct (wake_turns_spec calloc hook (Z.to_nat (wake_budget (w_fc w))) w azero Hok).
Qed.

Lemma push_ok calloc hook w p fd gen now front :
  pool_ok (w_fc w) → pool_ok (w_fc (fst (fst (fc_queue_push calloc hook w p fd gen now front)))).
Proof.
  intros Hok. destruct (decide (0 ≤ fd)) as [Hfd|Hfd].
  - by destruct (push_spec calloc hook w p fd gen now front Hok Hfd).
  - unfold fc_queue_push. by rewrite (proj2 (Z.ltb_lt fd 0)) by lia.
Qed.

Lemma evicted_take_ok w fd gen p : pool_ok (w_fc w) → pool_ok (w_fc (fst (fst (fc_evicted_take w fd gen p)))).
Proof.
  intros Hok. unfold fc_evicted_take. destruct (_ || _); [done|].
  destruct (evicted_remove_spec (fun v => (v_fd v =? fd) && (v_gen v =? gen)) w Hok) as [H _].
  destruct (evicted_remove _ w) as [w' hit]. cbn [fst] in H. destruct (negb hit); [done|].
  destruct p as [p|]; [|done]. by destruct (fc_permit_settle p FC_P_EVICTED).
Qed.

Lemma claim_ok w fd gen : pool_ok (w_fc w) → pool_ok (w_fc (fst (fc_queue_evicted_claim w fd gen))).
Proof.
  intros Hok. unfold fc_queue_evicted_claim. pose proof (evicted_take_ok w fd gen None Hok) as H.
  by destruct (fc_evicted_take w fd gen None) as [[w' p'] won].
Qed.

Lemma evicted_settle_ok w p fd gen : pool_ok (w_fc w) → pool_ok (w_fc (fst (fst (fc_queue_evicted_settle w p fd gen)))).
Proof.
  intros Hok. unfold fc_queue_evicted_settle. pose proof (evicted_take_ok w fd gen (Some p) Hok) as H.
  by destruct (fc_evicted_take w fd gen (Some p)) as [[w' p'] won].
Qed.

Lemma resume_ok w p : pool_ok (w_fc w) → pool_ok (w_fc (fst (fst (fc_queue_owner_resume w p)))).
Proof.
  intros Hok. unfold fc_queue_owner_resume. destruct (p_state p); try done.
  pose proof (claim_ok w (p_q_fd p) (p_q_gen p) Hok) as H. destruct (fc_queue_evicted_claim _ _ _) as [w' claimed].
  cbn [fst] in H. destruct claimed; [destruct (fc_permit_settle _ _) as [? won]; by destruct (negb won)|].
  destruct (fc_queue_holds _ _); [done|]. by destruct (fc_queue_resumed p).
Qed.

Lemma wait_end_ok w p t : pool_ok (w_fc w) → pool_ok (w_fc (fst (fc_queue_wait_end w p t))).
Proof. apply queue_kept_ok, wait_end_kept. Qed.

Lemma release_queued_ok calloc hook w p wake :
  pool_ok (w_fc w) → pool_ok (w_fc (fst (release_queued calloc hook w p wake))).
Proof.
  intros Hok. unfold release_queued. set (r := if bool_decide _ then fc_queue_take w p else _).
  assert (H1 : pool_ok (w_fc (fst (fst r)))) by (unfold r; case_test; [apply take_spec|]; done).
  clearbody r. destruct r as [[w1 p1] taken]. cbn [fst] in H1. destruct taken.
  { assert (H2 : pool_ok (w_fc (on_fc (fc_count_band FC_R_CANCELLED (p_band p1)) w1)))
      by (apply (pool_ok_view (w_fc w1)); [apply count_band_view|done]).
    set (w2 := on_fc _ w1) in *. clearbody w2. pose proof (wait_end_ok w2 p1 (w_now w2) H2) as H3.
    by destruct (fc_queue_wait_end w2 p1 (w_now w2)). }
  set (c := if bool_decide _ then fc_queue_evicted_claim _ _ _ else _).
  assert (H2 : pool_ok (w_fc (fst c))) by (unfold c; case_test; [apply claim_ok|]; done).
  clearbody c. destruct c as [w2 claimed]. cbn [fst] in H2. destruct (fc_permit_settle p1 FC_P_RELEASED) as [p2 won].
  destruct claimed; [done|]. cbn [fst]. case_test; [by apply wake_one_ok|done].
Qed.

Lemma roles_kept l w p : queue_kept w (fst (foldl (fun '(w, p) r => fc_release_role w p r) (w, p) l)).
Proof.
  revert w p. induction l as [|r l IH]; intros w p; cbn [foldl]; [done|]. pose proof (release_role_kept w p r) as H.
  destruct (fc_release_role w p r) as [w1 p1]. cbn [fst] in H. etrans; [exact H|apply IH].
Qed.

Lemma release_unit_kept w p : queue_kept w (release_unit w p).
Proof.
  unfold release_unit. case_test; [|done]. case_test; [|done]. unfold fc_band_unit_give.
  assert (H : queue_kept w (give_inflight w)) by (by apply give_kept).
  case_test; [|done]. etrans; [exact H|]. by apply give_kept.
Qed.

Lemma release_ok calloc hook w p wake :
  pool_ok (w_fc w) → pool_ok (w_fc (fst (fc_permit_release__ calloc hook w p wake))).
Proof.
  intros Hok. unfold fc_permit_release__. destruct (p_state p); try done; [|by apply release_queued_ok].
  pose proof (roles_kept (zseq FC_ROLES) w p) as H1. destruct (foldl _ (w, p) _) as [w1 p1]. cbn [fst] in H1.
  pose proof (release_unit_kept w1 p1) as H2. set (w2 := release_unit w1 p1) in *. clearbody w2.
  set (w3 := if _ && _ then fc_tenant_dec _ _ _ else w2).
  assert (H3 : queue_kept w2 w3) by (unfold w3; case_test; [apply tenants_kept, dec_tenants|done]). clearbody w3.
  assert (H : pool_ok (w_fc w3)).
  { apply (queue_kept_ok w); [|done]. etrans; [exact H1|]. by etrans. }
  cbn [fst]. case_test; [by apply wake_one_ok|done].
Qed.

(** The life of the pool. *)

Lemma relayout_evicted q n : q_evicted (fc_ring_relayout q n) = q_evicted q.
Proof. unfold fc_ring_relayout. by destruct (foldl _ _ _) as [[? ?] ?]. Qed.

Lemma apply_queue_ok calloc old new q :
  ring_wf q →
  ring_wf (apply_queue calloc old new q) ∧ ring_abs (apply_queue calloc old new q) = ring_abs q ∧
  q_evicted (apply_queue calloc old new q) = q_evicted q.
Proof.
  intros Hwf. unfold apply_queue.
  set (q1 := if _ || _ then _ else q).
  assert (H1 : ring_wf q1 ∧ ring_abs q1 = ring_abs q ∧ q_evicted q1 = q_evicted q).
  { unfold q1. case_test; [|done]. destruct (ring_wf_same q (q <| q_drr_credit := azero |>)) as [? ?]; done. }
  clearbody q1. set (q2 := if negb _ then _ else q1).
  assert (H2 : ring_wf q2 ∧ ring_abs q2 = ring_abs q ∧ q_evicted q2 = q_evicted q).
  { unfold q2. case_test; [|done]. destruct H1 as (Hw & Ha & He).
    destruct (ring_wf_same q1 (q1 <| q_rr_next := azero |>)) as [? Ha']; [done..|]. split_and!; [done|by rewrite Ha'|done]. }
  clearbody q2. case_test; [|done]. destruct H2 as (Hw & Ha & He).
  destruct (grow_any_wf calloc q2 (c_max_queue_depth new) Hw) as [Hw' Ha']. split_and!; [done|by rewrite Ha'|].
  rewrite <- He. destruct (decide (0 < q_cap q2)) as [Hpos|].
  - by destruct (grow_wf calloc q2 (c_max_queue_depth new) Hw Hpos) as (_ & _ & (_ & _ & _ & H) & _).
  - unfold fc_ring_grow. repeat case_test; try done; (destruct (q_ring q2); [done|apply relayout_evicted]).
Qed.

Lemma state_apply_ok calloc fc cfg : pool_ok fc → pool_ok (fc_state_apply calloc fc cfg).
Proof.
  intros Hok. unfold fc_state_apply. set (fc1 := fc_adapt_reset _ _).
  assert (H1 : queue_view fc1 = queue_view fc).
  { unfold fc1, fc_adapt_reset. set (fc0 := fc <| s_cfg := _ |>). assert (E0 : queue_view fc0 = queue_view fc) by done. clearbody fc0.
    assert (Hs : queue_view (apply_share calloc fc0) = queue_view fc).
    { unfold apply_share. case_test; [|done]. pose proof (ensure_tenants calloc fc0) as Ht.
      destruct (fc_tenant_table_ensure calloc fc0) as [fc' ok]. cbn [fst] in Ht. apply tenants_queue in Ht as (E1 & E2 & E3 & _).
      assert (queue_view fc' = queue_view fc) as Ev by (rewrite <- E0; unfold queue_view; congruence). by destruct ok. }
    set (fa := apply_share calloc fc0) in *. clearbody fa.
    assert (Hw : queue_view (apply_warm fa) = queue_view fc) by (unfold apply_warm; by case_test).
    set (fb := apply_warm fa) in *. clearbody fb. by case_test. }
  clearbody fc1. pose proof (pool_ok_view _ _ H1 Hok) as Hok1.
  destruct (apply_queue_ok calloc (s_cfg fc) (s_cfg fc1) (s_queue fc1) (pk_ring _ Hok1)) as (Hw & Ha & He).
  apply (pool_ok_abs fc1); [done| |done|exact Ha]. split; [exact Hw|]. cbn. rewrite He. apply Hok1.
Qed.

Lemma zero_ok slots : pool_ok (fc_state_zero <| s_tenant_slots := slots |>).
Proof.
  split; [exact ring_wf_zero| |vm_compute; discriminate]. split; [done|]. intros b Hb.
  unfold fc_band_counted in Hb. apply orb_true_iff in Hb as [Hb|Hb]; zbool; subst; done.
Qed.

Lemma destroy_ok fc : pool_ok fc → pool_ok (fc_state_destroy fc).
Proof.
  intros [_ _ He]. unfold fc_state_destroy. set (q' := fun q : fc_queue => _). set (fc1 := fc <| s_queue ::= q' |>).
  assert (ring_ok fc1) as Hk.
  { split; [|exact He]. split; [split; try done; cbn; lia|done| |].
    - intros b Hb. unfold fc_band_counted in Hb. apply orb_true_iff in Hb as [Hb|Hb]; zbool; subst; done.
    - left. split; [done|]. intros e He'. by apply not_elem_of_nil in He'. }
  clearbody fc1. apply publish_ok. by apply (ring_ok_queue fc1).
Qed.

Lemma tick_ok calloc hook w sig : pool_ok (w_fc w) → pool_ok (w_fc (fc_adapt_tick calloc hook w sig)).
Proof.
  intros Hok. unfold fc_adapt_tick. destruct (_ || _); [done|].
  assert (H : queue_view (fst (adapt_step (w_fc w) sig)) = queue_view (w_fc w)) by (unfold adapt_step; by repeat case_test).
  destruct (adapt_step (w_fc w) sig) as [fc wake]. cbn [fst] in H.
  assert (Hok1 : pool_ok (w_fc (w <| w_fc := fc |>))) by (by apply (pool_ok_view (w_fc w))).
  destruct wake; [by apply wake_room_ok|done].
Qed.

Lemma step_pool_ok calloc hook s s' :
  pool_ok (w_fc (y_w s)) → fc_step calloc hook s s' → pool_ok (w_fc (y_w s')).
Proof.
  intros Hok. destruct 1 as [w ps i p w' p' _ Hs|w ps w' Hs|]; cbn [y_w] in *; [| |done].
  - destruct Hs as [???? ??? _ E|?? _ E|????? E|???????? E|????? E|??? E|??? E|??????? _ E|??? _ E|??? _ E|????? _ E|??? E].
    + pose proof (acquire_kept calloc w p can_queue woken tkey band) as H. rewrite E in H. by eapply queue_kept_ok.
    + pose proof (bind_kept w p) as H. unfold fc_bypass in E. destruct (fc_permit_bind w p) as [w1 p1]. cbn [fst] in H.
      injection E as <- _. eapply queue_kept_ok; [|done]. etrans; [exact H|]. by case_test.
    + pose proof (ep_acquire_kept w p ep role) as H. rewrite E in H. by eapply queue_kept_ok.
    + pose proof (ep_any_kept w p role preferred n_eps eligible) as H. rewrite E in H. by eapply queue_kept_ok.
    + pose proof (move_kept w p role ep) as H. rewrite E in H. by eapply queue_kept_ok.
    + pose proof (release_role_kept w p role) as H. rewrite E in H. by eapply queue_kept_ok.
    + pose proof (release_ok calloc hook w p wake Hok) as H. by rewrite E in H.
    + pose proof (push_ok calloc hook w p fd gen now front Hok) as H. by rewrite E in H.
    + destruct (take_spec w p Hok) as [H _]. by rewrite E in H.
    + pose proof (resume_ok w p Hok) as H. by rewrite E in H.
    + pose proof (evicted_settle_ok w p fd gen Hok) as H. by rewrite E in H.
    + pose proof (wait_end_ok w p now Hok) as H. by rewrite E in H.
  - destruct Hs as [| | |sig|p|ep now|cfg| |on|now|d].
    + by destruct (pop_spec w Hok) as [H _].
    + by apply wake_one_ok.
    + by apply wake_room_ok.
    + by apply tick_ok.
    + apply (queue_kept_ok w); [|done]. unfold fc_permit_ttft. repeat case_test; try done;
        unfold queue_kept, fc_ttft_sample; cbn; by repeat case_test.
    + apply (queue_kept_ok w); [|done]. unfold queue_kept, fc_ep_warm_start. cbn. by case_test.
    + by apply (state_apply_ok calloc (w_fc w)).
    + by apply destroy_ok.
    + done.
    + done.
    + done.
Qed.

(** ** Choosing an endpoint *)

(** An endpoint at the cap it has now. *)
Definition ep_full (w : world) (ep role : Z) : Prop :=
  let cap := fc_ep_cap_now (w_now w) (w_fc w) ep role 0 in cap ≠ 0 ∧ cap ≤ ep_get (w_fc w) ep role.

Lemma valid_leg_true ep role : 0 ≤ ep < FC_MAX_EP → 0 ≤ role < FC_ROLES → valid_leg ep role = true.
Proof. unfold valid_leg. intros. rewrite !andb_true_iff, !Z.leb_le, !Z.ltb_lt. lia. Qed.

Lemma enforce_active fc : c_mode (s_cfg fc) = FC_MODE_ENFORCE → fc_active fc = true.
Proof. unfold fc_active. by intros ->. Qed.

Lemma ep_acquire_outcome w p ep role :
  c_mode (w_cfg w) = FC_MODE_ENFORCE → p_state p = FC_P_EXECUTING → 0 ≤ ep < FC_MAX_EP → 0 ≤ role < FC_ROLES →
  let '(w', p', v) := fc_ep_acquire w p ep role in
  (v = FC_ADMIT ∧ aget (p_ep p') role = ep) ∨ (v = FC_SHED ∧ w' = w ∧ p' = p ∧ ep_full w ep role).
Proof.
  intros Hm Hst He Hr. unfold fc_ep_acquire. rewrite enforce_active by exact Hm. rewrite bool_decide_true by done.
  rewrite valid_leg_true by done. cbn [negb orb]. case_test; [zbool; by left|].
  unfold take_ep. destruct (fc_unit_take _ _) as [n|] eqn:Et.
  - set (w1 := if _ >=? 0 then _ else _). clearbody w1.
    destruct (negb _); [|left; split; [done|cbn; by rewrite aget_aset_eq]].
    unfold fc_queue_wait_end. destruct (negb _); left; (split; [done|cbn; by rewrite aget_aset_eq]).
  - rewrite Hm. cbn [Z.eqb]. right. split_and!; [done..|]. unfold fc_unit_take in Et. destruct (_ && _) eqn:Ec; [|done]. zbool. split; [done|lia].
Qed.

Lemma over_cap_full w ep role : fc_ep_over_cap (w_now w) (w_fc w) ep role = true → ep_full w ep role.
Proof.
  unfold fc_ep_over_cap, ep_full. destruct (_ || _); [done|]. destruct (valid_leg ep role) eqn:Hv; cbn [negb]; [|done].
  intros H. zbool. split; [done|]. unfold fc_ep_inflight, valid_leg in *. zbool.
  rewrite (proj2 (Z.ltb_ge ep 0)), (proj2 (Z.ltb_ge role 0)), !Z.geb_leb, (proj2 (Z.leb_gt FC_MAX_EP ep)),
    (proj2 (Z.leb_gt FC_ROLES role)) in * by lia. done.
Qed.

Lemma ep_scan_outcome eligible role preferred eps any w p :
  c_mode (w_cfg w) = FC_MODE_ENFORCE → p_state p = FC_P_EXECUTING → 0 ≤ role < FC_ROLES →
  (∀ k, k ∈ eps → 0 ≤ k < FC_MAX_EP) →
  let '(w', p', i, any') := ep_scan eligible role preferred eps any w p in
  (i ∈ eps ∧ eligible i = true ∧ aget (p_ep p') role = i) ∨
  (i = -1 ∧ w' = w ∧ p' = p ∧ (any' = true ↔ any = true ∨ ∃ k, k ∈ eps ∧ k ≠ preferred ∧ eligible k = true) ∧
   ∀ k, k ∈ eps → k ≠ preferred → eligible k = true → ep_full w k role).
Proof.
  intros Hm Hst Hr. revert any. induction eps as [|k eps IH]; intros any Hin; cbn [ep_scan].
  { right. split_and!; [done..| |]; [split; [by left|intros [?|(? & H & _)]; [done|by apply not_elem_of_nil in H]]|].
    intros k H. by apply not_elem_of_nil in H. }
  assert (Hk : 0 ≤ k < FC_MAX_EP) by (apply Hin; by left).
  assert (Hin' : ∀ j, j ∈ eps → 0 ≤ j < FC_MAX_EP) by (intros j Hj; apply Hin; by right).
  destruct ((k =? preferred) || negb (eligible k)) eqn:Es.
  { specialize (IH any Hin'). destruct (ep_scan _ _ _ _ _ _ _) as [[[w' p'] i] any'].
    assert (Hskip : ¬ (k ≠ preferred ∧ eligible k = true)).
    { intros [H1 H2]. rewrite (proj2 (Z.eqb_neq _ _) H1), H2 in Es. done. }
    destruct IH as [(H1 & H2 & H3)|(-> & -> & -> & Ha & Hf)]; [left; split_and!; [by right|done|done]|right].
    split_and!; [done..| |].
    - rewrite Ha. split; (intros [?|(j & Hj & H1 & H2)]; [by left|]); [right; exists j; split_and!; [by right|done|done]|].
      apply elem_of_cons in Hj as [->|Hj]; [tauto|]. right. by exists j.
    - intros j [->|Hj]%elem_of_cons H1 H2; [tauto|auto]. }
  apply orb_false_iff in Es as [E1 E2]. zbool.
  (* An eligible endpoint that is full: it counts and the scan goes on. *)
  assert (Hgo : ep_full w k role →
    let '(w', p', i, any') := ep_scan eligible role preferred eps true w p in
    (i ∈ k :: eps ∧ eligible i = true ∧ aget (p_ep p') role = i) ∨
    (i = -1 ∧ w' = w ∧ p' = p ∧ (any' = true ↔ any = true ∨ ∃ j, j ∈ k :: eps ∧ j ≠ preferred ∧ eligible j = true) ∧
     ∀ j, j ∈ k :: eps → j ≠ preferred → eligible j = true → ep_full w j role)).
  { intros Hfull. specialize (IH true Hin'). destruct (ep_scan _ _ _ _ _ _ _) as [[[w' p'] i] any'].
    destruct IH as [(H1 & H2 & H3)|(-> & -> & -> & Ha & Hf)]; [left; split_and!; [by right|done|done]|right].
    split_and!; [done..| |].
    - split; [|intros _; apply Ha; by left]. intros _. right. exists k. split_and!; [by left|done|done].
    - intros j [->|Hj]%elem_of_cons H1 H2; auto. }
  destruct (fc_ep_over_cap (w_now w) (w_fc w) k role) eqn:Eo; [by apply Hgo, over_cap_full|].
  pose proof (ep_acquire_outcome w p k role Hm Hst Hk Hr) as Ho.
  destruct (fc_ep_acquire w p k role) as [[w1 p1] v]. destruct Ho as [[-> Hp]|(-> & -> & -> & Hfull)].
  - rewrite decide_True by done. left. split_and!; [by left|done|done].
  - rewrite decide_False by done. by apply Hgo.
Qed.

(** ** The ceiling *)

Lemma held_back_nonneg v b : 0 ≤ fc_floor_held_back v b.
Proof.
  unfold fc_floor_held_back. change (zseq FC_BANDS) with [0; 1; 2]. cbn [foldl].
  repeat case_test; try lia; apply u32_fits.
Qed.

Lemma take_band_cap fc band cap wait n :
  cap ≠ 0 → 0 ≤ cap → 0 ≤ s_inflight fc < 4294967295 →
  fc_unit_take_band fc band cap wait = Some n → n = s_inflight fc + 1 ∧ n ≤ cap.
Proof.
  intros Hc Hc0 Hi. unfold fc_unit_take_band. case_test.
  - intros Ht. apply take_under in Ht; lia.
  - set (held := fc_floor_held_back _ _). pose proof (held_back_nonneg (fc_floor_view_load fc cap None wait) band) as Hh.
    fold held in Hh. case_test; [done|]. zbool. intros Ht. apply take_under in Ht; lia.
Qed.

Lemma svc_cap_same fc fc' : units_same fc fc' → fc_svc_cap fc' = fc_svc_cap fc.
Proof. intros (_ & _ & _ & Hc & He). unfold fc_svc_cap. by rewrite Hc, He. Qed.

(** What the gate leaves behind on an enforcing pool with a ceiling. *)
Definition under_ceiling (w w' : world) (p' : fc_permit) (v : fc_verdict) : Prop :=
  (p_svc_held p' = true ∧ v = FC_ADMIT ∧ s_inflight (w_fc w') = s_inflight (w_fc w) + 1 ∧
   s_inflight (w_fc w') ≤ fc_svc_cap (w_fc w)) ∨
  (p_svc_held p' = false ∧ v ≠ FC_ADMIT ∧ s_inflight (w_fc w') = s_inflight (w_fc w)).

Lemma admit_inflight w p slot woken :
  s_inflight (w_fc (fst (admit_permit w p slot woken))) = s_inflight (w_fc w) ∧
  p_svc_held (snd (admit_permit w p slot woken)) = true.
Proof. unfold admit_permit, fc_band_unit_take. cbn. by destruct (fc_band_counted _). Qed.

Lemma band_verdict_refuses fc p v : v ≠ FC_ADMIT → fc_band_verdict fc p v ≠ FC_ADMIT.
Proof. intros. unfold fc_band_verdict. by case_test. Qed.

Lemma shared_refuse_under w w1 p slot v :
  world_same w w1 → p_svc_held p = false → v ≠ FC_ADMIT →
  under_ceiling w (fst (fst (shared_refuse w1 p slot v))) (snd (fst (shared_refuse w1 p slot v)))
    (snd (shared_refuse w1 p slot v)).
Proof.
  intros ((Hs & _) & _) Hh Hv. right. unfold shared_refuse. cbn [fst snd]. split_and!; [done|done|].
  cbn [w_fc on_fc field_set]. destruct (put_units (w_fc w1) slot) as (-> & _). done.
Qed.

Lemma shared_admit_under w w1 p slot woken :
  s_inflight (w_fc w1) = s_inflight (w_fc w) + 1 → s_inflight (w_fc w1) ≤ fc_svc_cap (w_fc w) →
  under_ceiling w (fst (fst (shared_admit w1 p slot woken))) (snd (fst (shared_admit w1 p slot woken)))
    (snd (shared_admit w1 p slot woken)).
Proof.
  intros H1 H2. left. unfold shared_admit. cbn [fst snd]. set (w2 := if slot >=? 0 then _ else w1).
  assert (Hs : s_inflight (w_fc w2) = s_inflight (w_fc w1)).
  { unfold w2. case_test; [|done]. cbn [w_fc on_fc field_set].
    etrans; [apply (proj1 (mark_units _ _))|done]. }
  destruct (admit_inflight w2 p slot woken) as [-> ->]. split_and!; [done|done|congruence|congruence].
Qed.

Lemma shared_under calloc w p can_queue woken :
  c_mode (w_cfg w) = FC_MODE_ENFORCE → 0 < fc_svc_cap (w_fc w) → 0 ≤ s_inflight (w_fc w) < 4294967295 →
  p_svc_held p = false →
  let r := fc_service_acquire_shared calloc w p can_queue woken in
  under_ceiling w (fst (fst r)) (snd (fst r)) (snd r).
Proof.
  intros Hm Hcap Hi Hh. unfold fc_service_acquire_shared. rewrite Hm. change (FC_MODE_ENFORCE =? FC_MODE_ENFORCE) with true.
  pose proof (get_same calloc w (p_tkey p) (negb woken)) as H1. destruct (fc_tenant_get _ _ _ _) as [w1 slot].
  cbn [fst] in H1. set (bound := fc_tenant_svc_bound (w_fc w)). destruct (_ && _ && _).
  { apply shared_refuse_under; [done|done|by case_test]. }
  set (r := if true && _ && _ then _ else _).
  assert (H2 : units_same (w_fc w1) (fst r)) by (unfold r; destruct (_ && _); [apply band_waiter_units|done]).
  destruct r as [fc2 behind]. cbn [fst] in H2.
  assert (H3 : world_same w (w1 <| w_fc := fc2 |>)) by (etrans; [exact H1|]; split; [exact H2|done]).
  assert (Hv : ∀ fc b, fc_band_verdict fc p (if b : bool then FC_QUEUE else FC_SHED) ≠ FC_ADMIT)
    by (intros; apply band_verdict_refuses; by case_test).
  destruct behind; [by apply shared_refuse_under|]. unfold shared_unit.
  assert (Hcap2 : fc_svc_cap fc2 = fc_svc_cap (w_fc w)) by (apply (svc_cap_same (w_fc w)), H3).
  assert (Hi2 : s_inflight fc2 = s_inflight (w_fc w)) by apply H3.
  destruct (fc_unit_take_band _ _ _ _) as [n|] eqn:E; [|by apply shared_refuse_under].
  apply take_band_cap in E as [-> Hle]; [|lia|lia|lia].
  apply shared_admit_under; cbn; lia.
Qed.

Lemma acquire_under calloc w p can_queue woken tkey band :
  c_mode (w_cfg w) = FC_MODE_ENFORCE → 0 < fc_svc_cap (w_fc w) → 0 ≤ s_inflight (w_fc w) < 4294967295 →
  let r := fc_service_acquire__ calloc w p can_queue woken tkey band in
  under_ceiling w (fst (fst r)) (snd (fst r)) (snd r).
Proof.
  intros Hm Hcap Hi. unfold fc_service_acquire__.
  destruct (acquire_bind_spec w p woken tkey band) as (H1 & Hf & _). destruct (acquire_bind w p woken tkey band) as [w1 p1].
  cbn [fst snd] in H1, Hf. pose proof (bf_held _ _ Hf) as Hh.
  destruct H1 as ((Es & _ & _ & Ec & Ee) & _). fold (w_cfg w) in Ec. fold (w_cfg w1) in Ec.
  change (s_cfg (w_fc w1)) with (w_cfg w1). rewrite Ec, Hm. change (FC_MODE_ENFORCE =? FC_MODE_ENFORCE) with true.
  assert (Hcap1 : fc_svc_cap (w_fc w1) = fc_svc_cap (w_fc w)).
  { unfold fc_svc_cap. change (s_cfg (w_fc w1)) with (w_cfg w1). change (s_cfg (w_fc w)) with (w_cfg w). by rewrite Ec, Ee. }
  assert (Hu : ∀ w' p' v, under_ceiling w1 w' p' v → under_ceiling w w' p' v)
    by (intros; unfold under_ceiling in *; by rewrite <- Hcap1, <- Es).
  unfold fc_active. change (s_cfg (w_fc w1)) with (w_cfg w1). rewrite Ec, Hm. cbn [negb Z.eqb FC_MODE_ENFORCE FC_MODE_OFF andb].
  destruct (fc_draining w1); [right; by split_and!|].
  destruct (fc_share_active (w_fc w1)).
  { apply Hu, shared_under; [by rewrite Ec|lia|lia|done]. }
  destruct (if _ && _ then None else _) as [n|] eqn:E.
  - destruct (_ && _); [done|]. apply take_band_cap in E as [-> Hle]; [|lia|lia|lia]. left. cbn [fst snd].
    destruct (admit_inflight (w1 <| w_fc := (w_fc w1) <| s_inflight := s_inflight (w_fc w1) + 1 |> |>) p1 (p_tslot p1) woken)
      as [-> ->]. cbn. split_and!; lia || done.
  - right. cbn [fst snd]. split_and!; [done| |done]. apply band_verdict_refuses. by case_test.
Qed.

(** ** Theorems *)

(** C1. From the start of the process, through any sequence of calls on
    any number of permits and any process events (wakes, telemetry ticks,
    drains, new rules, a destroyed pool), the service, band and endpoint
    counters of the pool equal the units its permits hold: no unit leaks and
    none is returned twice. *)
Theorem fc_units_conserved calloc wake_hook fc s :
  nothing_held fc → steps (fc_step calloc wake_hook) (fresh_system fc) s →
  balance (y_w s) (y_ps s).
Proof.
  intros Hn Hs. apply (steps_invariant (fc_step calloc wake_hook) (fun s => balance (y_w s) (y_ps s))) in Hs.
  - done.
  - intros a b. apply step_balance.
  - by apply fresh_balance.
Qed.

(** A pool that admits two at a time. *)
Definition two_at_a_time : fc_state :=
  fc_state_apply (fun _ => true) fc_state_zero
    (fc_cfg_zero <| c_mode := FC_MODE_ENFORCE |> <| c_max_outstanding := 2 |>).

(** Its first request. *)
Definition first_admit : world * fc_permit * fc_verdict :=
  fc_service_acquire (fun _ => true) (world_of two_at_a_time) fc_permit_reset.


Lemma triple_eta {A B C} (r : A * B * C) : r = (fst (fst r), snd (fst r), snd r).
Proof. by destruct r as [[? ?] ?]. Qed.

Lemma acquire_default_eq :
  fc_service_acquire__ (fun _ => true) (world_of two_at_a_time) fc_permit_reset false false (fc_tenant_key None) FC_BAND_STANDARD =
  (fst (fst first_admit), snd (fst first_admit), snd first_admit).
Proof. unfold first_admit, fc_service_acquire. apply triple_eta. Qed.

Definition first_system : sys := mk_sys (fst (fst first_admit)) [snd (fst first_admit)].

Lemma fc_units_conserved_witness :
  snd first_admit = FC_ADMIT ∧ balance (y_w first_system) (y_ps first_system).
Proof.
  split; [vm_compute; reflexivity|].
  apply (fc_units_conserved (fun _ => true) None two_at_a_time first_system).
  - vm_compute. split; [reflexivity|split; reflexivity].
  - eapply steps_cons; [apply st_new; vm_compute; reflexivity|].
    eapply steps_cons; [|apply steps_refl].
    unfold first_system.
    apply (st_permit (fun _ => true) None (world_of two_at_a_time) [fc_permit_reset] 0 fc_permit_reset
      (fst (fst first_admit)) (snd (fst first_admit))); [reflexivity|].
    eapply ps_acquire; [discriminate|]. apply acquire_default_eq.
Defined.

(** C3. On an enforcing pool with a ceiling the gate either admits the
    request with one more unit in service, still within the ceiling, or refuses
    it and leaves the count as it was. *)
Theorem fc_acquire_within_ceiling calloc w p can_queue woken tkey band :
  c_mode (w_cfg w) = FC_MODE_ENFORCE → 0 < fc_svc_cap (w_fc w) → 0 ≤ s_inflight (w_fc w) < 4294967295 →
  let '(w', p', v) := fc_service_acquire__ calloc w p can_queue woken tkey band in
  (p_svc_held p' = true ∧ v = FC_ADMIT ∧ s_inflight (w_fc w') = s_inflight (w_fc w) + 1 ∧
   s_inflight (w_fc w') ≤ fc_svc_cap (w_fc w)) ∨
  (p_svc_held p' = false ∧ v ≠ FC_ADMIT ∧ s_inflight (w_fc w') = s_inflight (w_fc w)).
Proof.
  intros Hm Hc Hi. pose proof (acquire_under calloc w p can_queue woken tkey band Hm Hc Hi) as H.
  by destruct (fc_service_acquire__ _ _ _ _ _ _ _) as [[w' p'] v].
Qed.

(** The same pool with both units taken. *)
Definition full_world : world := world_of (two_at_a_time <| s_inflight := 2 |>).

Lemma fc_acquire_within_ceiling_witness :
  let '(w', p', v) := fc_service_acquire__ (fun _ => true) full_world fc_permit_reset false false 7 FC_BAND_CRITICAL in
  v = FC_SHED ∧ s_inflight (w_fc w') = 2.
Proof.
  pose proof (fc_acquire_within_ceiling (fun _ => true) full_world fc_permit_reset false false 7 FC_BAND_CRITICAL) as H.
  destruct (fc_service_acquire__ _ _ _ _ _ _ _) as [[w' p'] v] eqn:E.
  assert (v = FC_SHED) as Hv by (vm_compute in E; congruence).
  destruct H as [(_ & Ha & _)|(_ & _ & Hi)].
  - vm_compute. reflexivity.
  - vm_compute. reflexivity.
  - vm_compute. split; [discriminate|reflexivity].
  - congruence.
  - split; [exact Hv|]. rewrite Hi. vm_compute. reflexivity.
Defined.

(** C2. Releasing an executing permit of a balanced pool returns exactly
    what it holds: one service unit, its band's unit and one unit per leg, and
    no other counter moves; releasing it again returns nothing more. *)
Theorem fc_release_exactly_once calloc wake_hook w ps i p wake wake' :
  balance w ps → ps !! i = Some p → p_state p = FC_P_EXECUTING →
  let '(w1, p1) := fc_permit_release__ calloc wake_hook w p wake in
  s_inflight (w_fc w1) = s_inflight (w_fc w) - 1 ∧
  (∀ b, fc_band_counted b = true →
     aget (s_band_inflight (w_fc w1)) b = aget (s_band_inflight (w_fc w)) b - Z.b2z (p_band p =? b)) ∧
  (∀ ep r, 0 ≤ ep < FC_MAX_EP → 0 ≤ r < FC_ROLES →
     ep_get (w_fc w1) ep r = ep_get (w_fc w) ep r - Z.b2z (aget (p_ep p) r =? ep)) ∧
  fc_permit_release__ calloc wake_hook w1 p1 wake' = (w1, p1).
Proof.
  intros Hb Hi Hst. pose proof (balance_covers w ps i p Hb Hi) as Hc.
  pose proof (release_exec_moves calloc wake_hook w p wake Hc Hst) as [Hm Hrel].
  destruct (fc_permit_release__ calloc wake_hook w p wake) as [w1 p1]. cbn [fst snd] in *.
  assert (Hheld : p_svc_held p = true) by (by apply (po_exec _ _ (co_ok _ _ Hc))).
  destruct (idle_of_state _ _ (mv_ok _ _ _ _ Hm)) as [Hh1 Hl1]; [by rewrite Hrel|]. split_and!.
  - rewrite (mv_svc _ _ _ _ Hm), Hheld, Hh1. simpl. lia.
  - intros b Hcb. rewrite (mv_band _ _ _ _ Hm b Hcb). unfold holds_band. rewrite Hheld, Hh1. simpl. lia.
  - intros ep r He Hr. rewrite (mv_leg _ _ _ _ Hm ep r He Hr). unfold holds_leg. specialize (Hl1 r Hr).
    destruct (aget (p_ep p1) r =? ep) eqn:E; zbool; [lia|]. simpl. lia.
  - unfold fc_permit_release__. by rewrite Hrel.
Qed.

(** The first request dispatched to endpoint 3. *)
Definition admitted : world * fc_permit * fc_verdict :=
  fc_ep_acquire (fst (fst first_admit)) (snd (fst first_admit)) 3 FC_ROLE_NORMAL.
Definition admitted_w : world := fst (fst admitted).
Definition admitted_p : fc_permit := snd (fst admitted).

Lemma ep_acquire_eq :
  fc_ep_acquire (fst (fst first_admit)) (snd (fst first_admit)) 3 FC_ROLE_NORMAL =
  (admitted_w, admitted_p, snd admitted).
Proof. unfold admitted_w, admitted_p, admitted. apply triple_eta. Qed.

Lemma step_balance_at calloc hook w ps w' ps' :
  balance w ps → fc_step calloc hook (mk_sys w ps) (mk_sys w' ps') → balance w' ps'.
Proof. intros Hb Hs. exact (step_balance calloc hook (mk_sys w ps) (mk_sys w' ps') Hb Hs). Qed.

Lemma admitted_balance : balance admitted_w [admitted_p].
Proof.
  apply (step_balance_at (fun _ => true) None (fst (fst first_admit)) [snd (fst first_admit)]).
  - apply (step_balance_at (fun _ => true) None (world_of two_at_a_time) [fc_permit_reset]).
    + apply (step_balance_at (fun _ => true) None (world_of two_at_a_time) []).
      * apply (fresh_balance two_at_a_time). vm_compute. split; [reflexivity|split; reflexivity].
      * apply (st_new _ _ (world_of two_at_a_time) []). reflexivity.
    + apply (st_permit (fun _ => true) None (world_of two_at_a_time) [fc_permit_reset] 0 fc_permit_reset
        (fst (fst first_admit)) (snd (fst first_admit))); [reflexivity|].
      eapply ps_acquire; [discriminate|]. apply acquire_default_eq.
  - apply (st_permit (fun _ => true) None (fst (fst first_admit)) [snd (fst first_admit)] 0 (snd (fst first_admit))
      admitted_w admitted_p); [reflexivity|].
    eapply ps_ep. apply ep_acquire_eq.
Qed.

Lemma fc_release_exactly_once_witness :
  let '(w1, p1) := fc_permit_release__ (fun _ => true) None admitted_w admitted_p true in
  s_inflight (w_fc admitted_w) = 1 ∧ s_inflight (w_fc w1) = 0 ∧
  ep_get (w_fc admitted_w) 3 FC_ROLE_NORMAL = 1 ∧ ep_get (w_fc w1) 3 FC_ROLE_NORMAL = 0.
Proof.
  pose proof (fc_release_exactly_once (fun _ => true) None admitted_w [admitted_p] 0 admitted_p true true
    admitted_balance eq_refl) as H.
  destruct (fc_permit_release__ _ _ _ _ _) as [w1 p1].
  destruct H as (H1 & _ & H3 & _); [vm_compute; reflexivity|].
  rewrite H1, (H3 3 FC_ROLE_NORMAL) by (unfold FC_MAX_EP, FC_ROLES, FC_ROLE_NORMAL; lia).
  vm_compute. repeat split; reflexivity.
Defined.

(** C37. From a pool made from the environment, through any sequence of calls
    on any number of permits and any process events, the queue stays intact:
    the ring is well-formed (its span, its counts, its earliest deadline), the
    mirrors show its counts, and the list of evicted answers keeps its bound. *)
Theorem fc_queue_always_intact calloc wake_hook getenv slots s :
  steps (fc_step calloc wake_hook) (fresh_system (fc_state_init_slots calloc getenv slots)) s →
  pool_ok (w_fc (y_w s)).
Proof.
  intros Hs. apply (steps_invariant (fc_step calloc wake_hook) (fun s => pool_ok (w_fc (y_w s)))) in Hs; [done| |].
  - intros a b. apply step_pool_ok.
  - apply state_apply_ok, zero_ok.
Qed.

(** The environment of a pool with two places to wait. *)
Definition small_env (name : string) : option string :=
  if String.eqb name "LLB_FC_MODE" then Some "enforce"
  else if String.eqb name "LLB_FC_MAX_QUEUE_DEPTH" then Some "2" else None.

Definition env_world : world := world_of (fc_state_init_slots (fun _ => true) small_env 64).
Definition env_push : world * fc_permit * Z := fc_queue_push (fun _ => true) None env_world fc_permit_reset 5 1 1000 false.
Definition env_system : sys := mk_sys (fst (fst env_push)) [snd (fst env_push)].

Lemma env_push_eq :
  fc_queue_push (fun _ => true) None env_world fc_permit_reset 5 1 1000 false =
  (fst (fst env_push), snd (fst env_push), snd env_push).
Proof. unfold env_push. apply triple_eta. Qed.

Lemma fc_queue_always_intact_witness :
  snd env_push = 0 ∧ s_queued (w_fc (y_w env_system)) = 1 ∧ pool_ok (w_fc (y_w env_system)).
Proof.
  split; [vm_compute; reflexivity|]. split; [vm_compute; reflexivity|].
  apply (fc_queue_always_intact (fun _ => true) None small_env 64 env_system).
  eapply steps_cons; [apply st_new; reflexivity|]. eapply steps_cons; [|apply steps_refl]. unfold env_system.
  apply (st_permit (fun _ => true) None env_world [fc_permit_reset] 0 fc_permit_reset
    (fst (fst env_push)) (snd (fst env_push))); [reflexivity|].
  eapply ps_push; [discriminate|]. apply env_push_eq.
Defined.

(** On an enforcing pool the choice of an endpoint is complete: an
    executing request gets an eligible endpoint and its unit, or is shed only
    when some endpoint is eligible and every eligible one is at its cap now, or
    is told there is no capacity exactly when none is eligible; a refusal
    changes nothing but its count. *)
Theorem fc_ep_choice_complete w p role preferred n_eps eligible :
  c_mode (w_cfg w) = FC_MODE_ENFORCE → p_state p = FC_P_EXECUTING → 0 ≤ role < FC_ROLES → n_eps ≤ FC_MAX_EP →
  let '(w', p', i, v) := fc_ep_acquire_any w p role preferred n_eps eligible in
  match v with
  | FC_ADMIT => 0 ≤ i < n_eps ∧ eligible i = true ∧ aget (p_ep p') role = i
  | FC_SHED => i = -1 ∧ w' = w ∧ p' = p ∧ (∃ k, 0 ≤ k < n_eps ∧ eligible k = true) ∧
      ∀ k, 0 ≤ k < n_eps → eligible k = true → ep_full w k role
  | FC_NO_CAPACITY => i = -1 ∧ w' = on_fc (fc_count FC_R_NO_HEALTHY_CAPACITY) w ∧ p' = p ∧
      ∀ k, 0 ≤ k < n_eps → eligible k = false
  | _ => False
  end.
Proof.
  intros Hm Hst Hr Hn. unfold fc_ep_acquire_any. rewrite bool_decide_true by done. rewrite enforce_active by exact Hm. cbn [negb orb].
  assert ((if n_eps >? FC_MAX_EP then FC_MAX_EP else n_eps) = n_eps) as -> by (case_test; zbool; lia).
  set (try := (preferred >=? 0) && (preferred <? n_eps) && eligible preferred).
  assert (Htry : try = true ↔ 0 ≤ preferred < n_eps ∧ eligible preferred = true).
  { unfold try. rewrite !andb_true_iff, Z.geb_leb, Z.leb_le, Z.ltb_lt. tauto. }
  set (r := if try then _ else _).
  assert (Ho : let '(w1, p1, v1) := r in
    (v1 = FC_ADMIT ∧ try = true ∧ aget (p_ep p1) role = preferred) ∨
    (v1 = FC_SHED ∧ w1 = w ∧ p1 = p ∧ (try = true → ep_full w preferred role))).
  { unfold r. destruct try; [|by right].
    pose proof (ep_acquire_outcome w p preferred role Hm Hst) as H.
    destruct (fc_ep_acquire w p preferred role) as [[w1 p1] v1]. destruct H as [[? ?]|(? & ? & ? & ?)]; [lia|done|by left|by right]. }
  clearbody r. destruct r as [[w1 p1] v1]. destruct Ho as [(-> & Ht & Hp)|(-> & -> & -> & Hfull)].
  { rewrite decide_True by done. apply Htry in Ht as [Hr1 Hr2]. exact (conj Hr1 (conj Hr2 Hp)). }
  rewrite decide_False by done.
  pose proof (ep_scan_outcome eligible role preferred (zseq n_eps) try w p Hm Hst Hr) as Hs.
  destruct (ep_scan _ _ _ _ _ _ _) as [[[w' p'] i] any].
  destruct Hs as [(Hi & He & Hp)|(-> & -> & -> & Ha & Hf)]; [intros k Hk; apply zseq_in in Hk; lia| |].
  { apply zseq_in in Hi. rewrite Z.geb_leb, (proj2 (Z.leb_le 0 i)) by lia. exact (conj Hi (conj He Hp)). }
  cbn [Z.geb Z.compare]. destruct any.
  - split_and!; [done..| |].
    + destruct (proj1 Ha eq_refl) as [Ht|(k & Hk & _ & He)]; [exists preferred; exact (proj1 Htry Ht)|].
      exists k. split; [by apply zseq_in|done].
    + intros k Hk He. destruct (decide (k = preferred)) as [->|Hne]; [exact (Hfull (proj2 Htry (conj Hk He)))|].
      apply Hf; [by apply zseq_in|done|done].
  - split_and!; [done..|]. intros k Hk. destruct (eligible k) eqn:He; [|done]. exfalso.
    assert (false = true); [|done]. apply Ha. destruct (decide (k = preferred)) as [->|Hne]; [left; exact (proj2 Htry (conj Hk He))|].
    right. exists k. split_and!; [by apply zseq_in|done|done].
Qed.

Lemma fc_ep_choice_complete_witness :
  let '(w', p', i, v) := fc_ep_acquire_any admitted_w admitted_p FC_ROLE_NORMAL 7 4 (fun k => k =? 2) in
  v = FC_ADMIT ∧ i = 2 ∧ aget (p_ep p') FC_ROLE_NORMAL = i.
Proof.
  pose proof (fc_ep_choice_complete admitted_w admitted_p FC_ROLE_NORMAL 7 4 (fun k => k =? 2)) as H.
  assert (Hv : snd (fc_ep_acquire_any admitted_w admitted_p FC_ROLE_NORMAL 7 4 (fun k => k =? 2)) = FC_ADMIT) by (vm_compute; reflexivity).
  destruct (fc_ep_acquire_any _ _ _ _ _ _) as [[[w' p'] i] v]. cbn [snd] in Hv. subst v.
  destruct H as (_ & H1 & H2).
  - vm_compute. reflexivity.
  - vm_compute. reflexivity.
  - vm_compute. split; congruence.
  - vm_compute. congruence.
  - split; [reflexivity|]. split; [apply Z.eqb_eq; exact H1|exact H2].
Defined.
