(* ===== verification/Qsbr.v ===== *)
(** * Grace periods (src/common/sockproxy_qsbr.c)

    Memory that the notify workers read without a lock is given back only after
    a grace period. The first part is the module as sequential functions on its
    state: the reader slots, the epoch, the list of deferred work. The second
    part is the module at work: workers that come online, read and go offline,
    a writer that unlinks and defers, and the reclaimer that reads the slots one
    by one, as steps that interleave freely (sequentially consistent: the
    ordering the module's fences give). The theorems: no object is given back
    while a worker still holds it, and what is run is exactly the work whose
    grace period is over, in the order it was deferred. *)

From stdpp Require Import base list gmap numbers sorting.
From S2P Require Import Prelude.

(** ** The module *)

Definition SP_QSBR_MAX_THREADS : Z := 64.

(** Deferred work: the object it gives back and the stamp it waits for. *)
Record sp_qsbr_work := mk_sp_qsbr_work { qw_obj : Z; qw_epoch : Z }.

Record qsbr := mk_qsbr {
  qs_slot : list Z;               (* qsbr_slot[i].seen *)
  qs_epoch : Z;
  qs_list : list sp_qsbr_work;    (* qsbr_head .. qsbr_tail *)
  qs_waiting : Z
}.

#[export] Instance qsbr_eta : RecordEta qsbr := fun r =>
  mk_qsbr (qs_slot r) (qs_epoch r) (qs_list r) (qs_waiting r).

Definition qsbr_init : qsbr := mk_qsbr (zrep SP_QSBR_MAX_THREADS 0) 1 [] 0.

Definition slot_store (slot v : Z) (q : qsbr) : qsbr := q <| qs_slot ::= (fun l => zset l slot v) |>.

(** [my] is the calling thread's qsbr_my_slot. *)
Definition sp_qsbr_offline (my : Z) (q : qsbr) : qsbr :=
  if my <? 0 then q else slot_store my 0 q.
Definition sp_qsbr_online (my : Z) (q : qsbr) : qsbr :=
  if my <? 0 then q else slot_store my (qs_epoch q) q.
Definition sp_qsbr_register (slot my : Z) (q : qsbr) : Z * qsbr :=
  if (slot <? 0) || (slot >=? SP_QSBR_MAX_THREADS) then (my, q) else (slot, sp_qsbr_online slot q).
Definition sp_qsbr_unregister (my : Z) (q : qsbr) : Z * qsbr := (-1, sp_qsbr_offline my q).

(** What one slot says about a stamp. *)
Definition slot_past (stamp v : Z) : bool := negb (negb (v =? 0) && (v <? stamp)).
Definition qsbr_grace_over (slots : list Z) (stamp : Z) : bool := forallb (slot_past stamp) slots.

Definition sp_qsbr_defer (obj : Z) (q : qsbr) : qsbr :=
  let stamp := u64 (qs_epoch q + 1) in
  q <| qs_epoch := stamp |> <| qs_list ::= (fun l => l ++ [mk_sp_qsbr_work obj stamp]) |>
    <| qs_waiting ::= (fun n => u64 (n + 1)) |>.

(** The loop under the lock: the ready prefix and the rest. *)
Fixpoint take_ready (slots : list Z) (l : list sp_qsbr_work) : list sp_qsbr_work * list sp_qsbr_work :=
  match l with
  | [] => ([], [])
  | w :: l' =>
      if qsbr_grace_over slots (qw_epoch w) then let '(ready, rest) := take_ready slots l' in (w :: ready, rest)
      else ([], l)
  end.

(** [fn] is what the work does; it may defer more. *)
Definition run_work (fn : qsbr → sp_qsbr_work → qsbr) (q : qsbr) (w : sp_qsbr_work) : qsbr :=
  fn (q <| qs_waiting ::= (fun n => u64 (n - 1)) |>) w.
Definition sp_qsbr_run_ready (fn : qsbr → sp_qsbr_work → qsbr) (q : qsbr) : qsbr * Z :=
  let '(ready, rest) := take_ready (qs_slot q) (qs_list q) in
  let q := foldl (run_work fn) (q <| qs_list := rest |>) ready in
  (q, match qs_list q with [] => 0 | _ => s32 (qs_waiting q) end).
Definition sp_qsbr_pending (q : qsbr) : Z := qs_waiting q.

(** ** The prefix that is ready *)

Lemma grace_over_mono slots s s' : s' ≤ s → qsbr_grace_over slots s = true → qsbr_grace_over slots s' = true.
Proof.
  intros Hs. unfold qsbr_grace_over. rewrite !forallb_forall. intros H v Hv. specialize (H v Hv).
  unfold slot_past in *. destruct (v =? 0); [done|]. cbn in *. zbool. apply negb_true_iff, Z.ltb_ge. lia.
Qed.

Definition by_stamp : relation sp_qsbr_work := fun a b => qw_epoch a ≤ qw_epoch b.

Lemma take_ready_filter slots l :
  StronglySorted by_stamp l →
  take_ready slots l =
  (List.filter (fun w => qsbr_grace_over slots (qw_epoch w)) l,
   List.filter (fun w => negb (qsbr_grace_over slots (qw_epoch w))) l).
Proof.
  induction 1 as [|w l Hs IH Hw]; [done|]. cbn [take_ready List.filter].
  destruct (qsbr_grace_over slots (qw_epoch w)) eqn:E; cbn [negb]; [by rewrite IH|].
  assert (Hno : ∀ x, x ∈ l → qsbr_grace_over slots (qw_epoch x) = false).
  { intros x Hx. rewrite Forall_forall in Hw. specialize (Hw x Hx). destruct (qsbr_grace_over slots (qw_epoch x)) eqn:Ex; [|done].
    rewrite (grace_over_mono slots (qw_epoch x) (qw_epoch w) Hw Ex) in E. done. }
  rewrite filter_all_false, filter_all_true; [done| |]; intros x Hx; by rewrite Hno.
Qed.

(** The stamps along the list are in order and past no epoch; every deferral
    keeps it so, short of the epoch wrapping round. *)
Record list_ok (q : qsbr) : Prop := {
  lo_sorted : StronglySorted by_stamp (qs_list q);
  lo_bound : ∀ w, w ∈ qs_list q → qw_epoch w ≤ qs_epoch q
}.

Lemma sorted_snoc {A} (R : relation A) l x : StronglySorted R l → (∀ y, y ∈ l → R y x) → StronglySorted R (l ++ [x]).
Proof.
  induction 1 as [|y l Hs IH Hy]; intros Hx; cbn; [by repeat constructor|]. constructor.
  - apply IH. intros. apply Hx. by right.
  - apply Forall_app. split; [done|]. constructor; [|constructor]. apply Hx. by left.
Qed.

Lemma defer_list_ok obj q : 0 ≤ qs_epoch q < UINT64_MAX → list_ok q → list_ok (sp_qsbr_defer obj q).
Proof.
  unfold UINT64_MAX. intros He [Hs Hb]. split; cbn; rewrite u64_small by lia.
  - apply sorted_snoc; [done|]. intros y Hy. specialize (Hb y Hy). unfold by_stamp. cbn. lia.
  - intros w [Hw|Hw]%elem_of_app; [specialize (Hb w Hw); lia|]. apply list_elem_of_singleton in Hw as ->. cbn. lia.
Qed.

Lemma run_idle l q :
  0 ≤ qs_waiting q - zlen l → fits64 (qs_waiting q) →
  foldl (run_work (fun q _ => q)) q l = q <| qs_waiting := qs_waiting q - zlen l |>.
Proof.
  unfold fits64. revert q. induction l as [|w l IH]; intros q Hl Hf.
  - cbn. destruct q; cbn. by rewrite Z.sub_0_r.
  - rewrite zlen_cons in *. pose proof (zlen_nonneg l). cbn [foldl].
    assert (Hw : run_work (fun q _ => q) q w = q <| qs_waiting := qs_waiting q - 1 |>).
    { unfold run_work. cbn. by rewrite u64_small by lia. }
    rewrite Hw, IH by (cbn; lia). cbn. f_equal. lia.
Qed.

(** ** The module at work *)

(** A worker: offline, between the load of the epoch and the store of its slot,
    or online; and the objects it holds a pointer to. *)
Inductive rphase : Type := ROff | RLoaded (e : Z) | ROn.
Record reader := mk_reader { r_phase : rphase; r_held : gset Z }.
#[export] Instance reader_inhabited : Inhabited reader := populate (mk_reader ROff ∅).

Record qsys := mk_qsys {
  y_q : qsbr;
  y_readers : list reader;         (* worker i owns slot i *)
  y_linked : gset Z;               (* objects a reader can find *)
  y_unlinked : gset Z;             (* unlinked, not yet deferred *)
  y_scan : option Z;               (* the slot the reclaimer reads next, lock held *)
  y_ready : list sp_qsbr_work;     (* taken off the list, not yet run *)
  y_freed : gset Z;
  y_defers : Z                     (* deferrals so far *)
}.

#[export] Instance qsys_eta : RecordEta qsys := fun r =>
  mk_qsys (y_q r) (y_readers r) (y_linked r) (y_unlinked r) (y_scan r) (y_ready r) (y_freed r) (y_defers r).

Definition set_reader (i : Z) (p : rphase) (held : gset Z) (s : qsys) : qsys :=
  s <| y_readers ::= (fun l => zset l i (mk_reader p held)) |>.
Definition known (s : qsys) : gset Z :=
  y_linked s ∪ y_unlinked s ∪ y_freed s ∪ list_to_set (qw_obj <$> (qs_list (y_q s) ++ y_ready s)).
Definition is_slot (i : Z) : Prop := 0 ≤ i < SP_QSBR_MAX_THREADS.

(** The rule a worker keeps: it comes online and goes offline with no pointer
    in hand, and takes one only while online, from what is linked. *)
Inductive qsys_step (s : qsys) : qsys → Prop :=
| qy_load i r : is_slot i → r = zget (y_readers s) i → r_held r = ∅ →
    qsys_step s (set_reader i (RLoaded (qs_epoch (y_q s))) ∅ s)
| qy_store i r e : is_slot i → r = zget (y_readers s) i → r_phase r = RLoaded e →
    qsys_step s (set_reader i ROn ∅ (s <| y_q ::= slot_store i e |>))
| qy_offline i r : is_slot i → r = zget (y_readers s) i → r_held r = ∅ →
    qsys_step s (set_reader i ROff ∅ (s <| y_q ::= sp_qsbr_offline i |>))
| qy_get i r o : is_slot i → r = zget (y_readers s) i → r_phase r = ROn → o ∈ y_linked s →
    qsys_step s (set_reader i ROn (r_held r ∪ {[o]}) s)
| qy_put i r o : is_slot i → r = zget (y_readers s) i →
    qsys_step s (set_reader i (r_phase r) (r_held r ∖ {[o]}) s)
| qy_link o : o ∉ known s → qsys_step s (s <| y_linked ::= (fun l => l ∪ {[o]}) |>)
| qy_unlink o : o ∈ y_linked s →
    qsys_step s (s <| y_linked ::= (fun l => l ∖ {[o]}) |> <| y_unlinked ::= (fun l => l ∪ {[o]}) |>)
| qy_defer o : y_scan s = None → o ∈ y_unlinked s →
    qsys_step s (s <| y_unlinked ::= (fun l => l ∖ {[o]}) |> <| y_q ::= sp_qsbr_defer o |>
                   <| y_defers ::= (fun n => n + 1) |>)
| qy_scan_start w l : y_scan s = None → y_ready s = [] → qs_list (y_q s) = w :: l →
    qsys_step s (s <| y_scan := Some 0 |>)
| qy_scan_next i w l : y_scan s = Some i → is_slot i → qs_list (y_q s) = w :: l →
    slot_past (qw_epoch w) (zget (qs_slot (y_q s)) i) = true →
    qsys_step s (s <| y_scan := Some (i + 1) |>)
| qy_scan_fail i w l : y_scan s = Some i → is_slot i → qs_list (y_q s) = w :: l →
    slot_past (qw_epoch w) (zget (qs_slot (y_q s)) i) = false →
    qsys_step s (s <| y_scan := None |>)
| qy_scan_take w l : y_scan s = Some SP_QSBR_MAX_THREADS → qs_list (y_q s) = w :: l →
    qsys_step s (s <| y_q ::= (fun q => q <| qs_list := l |>) |> <| y_ready ::= (fun r => r ++ [w]) |>
                   <| y_scan := match l with [] => None | _ => Some 0 end |>)
| qy_run w l : y_scan s = None → y_ready s = w :: l →
    qsys_step s (s <| y_ready := l |> <| y_freed ::= (fun f => f ∪ {[qw_obj w]}) |>
                   <| y_q ::= (fun q => q <| qs_waiting ::= (fun n => u64 (n - 1)) |>) |>).

Definition qsys_init : qsys :=
  mk_qsys qsbr_init (zrep SP_QSBR_MAX_THREADS (mk_reader ROff ∅)) ∅ ∅ None [] ∅ 0.

(** ** The invariant *)

Definition holds (s : qsys) (i : Z) (o : Z) : Prop := o ∈ r_held (zget (y_readers s) i).
Definition slot_of_reader (s : qsys) (i : Z) : Z := zget (qs_slot (y_q s)) i.

Definition phase_ok (p : rphase) (held : gset Z) (slot epoch : Z) : Prop :=
  match p with
  | ROff => held = ∅
  | RLoaded e => held = ∅ ∧ 1 ≤ e ≤ epoch
  | ROn => 1 ≤ slot ≤ epoch
  end.

(** Nobody can find [o] any more, and whoever still holds it came online before
    the stamp. *)
Definition before (s : qsys) (o stamp : Z) : Prop :=
  (o ∉ y_linked s) ∧ ∀ i, is_slot i → holds s i o → 1 ≤ slot_of_reader s i < stamp.

Record qinv (s : qsys) : Prop := {
  qi_epoch : qs_epoch (y_q s) = 1 + y_defers s ∧ 0 ≤ y_defers s;
  qi_slots : zlen (qs_slot (y_q s)) = SP_QSBR_MAX_THREADS;
  qi_readers : zlen (y_readers s) = SP_QSBR_MAX_THREADS;
  qi_phase : ∀ i, is_slot i → phase_ok (r_phase (zget (y_readers s) i)) (r_held (zget (y_readers s) i))
    (slot_of_reader s i) (qs_epoch (y_q s));
  qi_unlinked : ∀ o, o ∈ y_unlinked s → o ∉ y_linked s;
  qi_work : ∀ w, w ∈ qs_list (y_q s) → before s (qw_obj w) (qw_epoch w);
  qi_ready : ∀ w, w ∈ y_ready s → (qw_obj w ∉ y_linked s) ∧ ∀ i, is_slot i → ¬ holds s i (qw_obj w);
  qi_freed : ∀ o, o ∈ y_freed s → (o ∉ y_linked s) ∧ ∀ i, is_slot i → ¬ holds s i o;
  qi_scan : ∀ k w l, y_scan s = Some k → qs_list (y_q s) = w :: l →
    ∀ i, is_slot i → i < k → ¬ holds s i (qw_obj w)
}.

Lemma zget_reader (s : qsys) i j p h :
  zlen (y_readers s) = SP_QSBR_MAX_THREADS → is_slot i → is_slot j →
  zget (zset (y_readers s) i (mk_reader p h)) j = if decide (i = j) then mk_reader p h else zget (y_readers s) j.
Proof.
  unfold is_slot, SP_QSBR_MAX_THREADS. intros Hl Hi Hj. case_decide as Hd; [subst; apply zget_zset_eq; lia|]. apply zget_zset_ne; lia.
Qed.

Lemma qinv_init : qinv qsys_init.
Proof.
  assert (Hr : ∀ i, is_slot i → zget (zrep SP_QSBR_MAX_THREADS (mk_reader ROff ∅)) i = mk_reader ROff ∅)
    by (intros; by apply zget_zrep).
  split; cbn; [done|done|done| |set_solver|set_solver|set_solver|set_solver|done].
  intros i Hi. by rewrite Hr by done.
Qed.

(** A reader's step: its phase, its slot and what it holds change, and it gains
    at most what is linked. *)
Lemma reader_inv s i p h q' :
  qinv s → is_slot i → qs_epoch q' = qs_epoch (y_q s) → qs_list q' = qs_list (y_q s) →
  zlen (qs_slot q') = SP_QSBR_MAX_THREADS →
  (∀ j, is_slot j → j ≠ i → zget (qs_slot q') j = slot_of_reader s j) →
  (∀ o, o ∈ h → zget (qs_slot q') i = slot_of_reader s i ∧ (holds s i o ∨ o ∈ y_linked s)) →
  phase_ok p h (zget (qs_slot q') i) (qs_epoch (y_q s)) →
  qinv (set_reader i p h (s <| y_q := q' |>)).
Proof.
  intros Hinv Hi He Hq Hlen Hslot Hh Hp. set (s' := set_reader _ _ _ _).
  pose proof (qi_readers _ Hinv) as Hrl.
  assert (Hholds : ∀ j o, is_slot j → o ∉ y_linked s → holds s' j o → holds s j o ∧ slot_of_reader s' j = slot_of_reader s j).
  { intros j o Hj Ho. unfold s', holds, set_reader, slot_of_reader. cbn. rewrite zget_reader by done. case_decide as Hd; cbn.
    - subst j. intros Hx. destruct (Hh o Hx) as [Hs [?|?]]; [|done]. by split.
    - intros Hx. split; [done|]. apply Hslot; [done|congruence]. }
  split.
  - cbn. rewrite He. apply (qi_epoch _ Hinv).
  - done.
  - cbn. by rewrite zlen_zset.
  - intros j Hj. unfold s', slot_of_reader, set_reader. cbn. rewrite zget_reader by done. case_decide as Hd; cbn.
    + subst j. by rewrite He.
    + rewrite Hslot, He by congruence || done. by apply (qi_phase _ Hinv).
  - apply (qi_unlinked _ Hinv).
  - intros w Hw. unfold s' in Hw. cbn in Hw. rewrite Hq in Hw. destruct (qi_work _ Hinv w Hw) as [Hl Hb]. split; [done|].
    intros j Hj Hx. destruct (Hholds j _ Hj Hl Hx) as [Hx' ->]. by apply Hb.
  - intros w Hw. destruct (qi_ready _ Hinv w Hw) as [Hl Hb]. split; [done|]. intros j Hj Hx.
    destruct (Hholds j _ Hj Hl Hx). by apply (Hb j).
  - intros o Ho. destruct (qi_freed _ Hinv o Ho) as [Hl Hb]. split; [done|]. intros j Hj Hx.
    destruct (Hholds j _ Hj Hl Hx). by apply (Hb j).
  - intros k w l Hk Hw j Hj Hlt Hx. unfold s' in Hw. cbn in Hw. rewrite Hq in Hw.
    assert (Hl : qw_obj w ∉ y_linked s) by (apply (qi_work _ Hinv w); rewrite Hw; left).
    destruct (Hholds j _ Hj Hl Hx) as [Hx' _]. by apply (qi_scan _ Hinv k w l Hk Hw j Hj Hlt).
Qed.

Lemma slot_store_at i v q j :
  zlen (qs_slot q) = SP_QSBR_MAX_THREADS → is_slot i → is_slot j →
  zget (qs_slot (slot_store i v q)) j = if decide (i = j) then v else zget (qs_slot q) j.
Proof.
  unfold is_slot, SP_QSBR_MAX_THREADS. intros Hl Hi Hj. cbn.
  case_decide as Hd; [subst; apply zget_zset_eq; lia|]. apply zget_zset_ne; lia.
Qed.

Lemma store_inv s i v p h :
  qinv s → is_slot i → h = ∅ → phase_ok p h v (qs_epoch (y_q s)) →
  qinv (set_reader i p h (s <| y_q ::= slot_store i v |>)).
Proof.
  intros Hinv Hi -> Hp. pose proof (qi_slots _ Hinv) as Hl. apply reader_inv; [done|done|done|done|..].
  - cbn. by rewrite zlen_zset.
  - intros j Hj Hne. rewrite slot_store_at by done. rewrite decide_False by congruence. done.
  - set_solver.
  - rewrite slot_store_at by done. by rewrite decide_True.
Qed.

(** A step of the writer or the reclaimer leaves the readers and the slots. *)
Definition readers_same (s s' : qsys) : Prop :=
  y_readers s' = y_readers s ∧ qs_slot (y_q s') = qs_slot (y_q s).

Lemma same_holds s s' i o : readers_same s s' → holds s' i o ↔ holds s i o.
Proof. intros [Hr _]. unfold holds. by rewrite Hr. Qed.

Lemma same_slot s s' i : readers_same s s' → slot_of_reader s' i = slot_of_reader s i.
Proof. intros [_ Hs]. unfold slot_of_reader. by rewrite Hs. Qed.

(** The parts of the invariant that only speak of the readers. *)
Lemma same_inv s s' :
  qinv s → readers_same s s' → qs_epoch (y_q s) ≤ qs_epoch (y_q s') →
  qs_epoch (y_q s') = 1 + y_defers s' ∧ 0 ≤ y_defers s' →
  (∀ o, o ∈ y_unlinked s' → o ∉ y_linked s') →
  (∀ w, w ∈ qs_list (y_q s') → (qw_obj w ∉ y_linked s') ∧ ∀ i, is_slot i → holds s i (qw_obj w) → 1 ≤ slot_of_reader s i < qw_epoch w) →
  (∀ w, w ∈ y_ready s' → (qw_obj w ∉ y_linked s') ∧ ∀ i, is_slot i → ¬ holds s i (qw_obj w)) →
  (∀ o, o ∈ y_freed s' → (o ∉ y_linked s') ∧ ∀ i, is_slot i → ¬ holds s i o) →
  (∀ k w l, y_scan s' = Some k → qs_list (y_q s') = w :: l → ∀ i, is_slot i → i < k → ¬ holds s i (qw_obj w)) →
  qinv s'.
Proof.
  intros Hinv Hsame He Hep Hu Hw Hr Hf Hsc. pose proof Hsame as [Hsr Hss].
  split; [done|rewrite Hss; apply Hinv|rewrite Hsr; apply Hinv| |done| | | |].
  - intros i Hi. rewrite (same_slot s s') by done. rewrite Hsr. pose proof (qi_phase _ Hinv i Hi) as Hp.
    destruct (r_phase _); cbn in *; [done|split; [apply Hp|lia]|lia].
  - intros w Hin. destruct (Hw w Hin) as [? Hb]. split; [done|]. intros i Hi. rewrite (same_holds s s'), (same_slot s s') by done. by apply Hb.
  - intros w Hin. destruct (Hr w Hin) as [? Hb]. split; [done|]. intros i Hi. rewrite (same_holds s s') by done. by apply Hb.
  - intros o Hin. destruct (Hf o Hin) as [? Hb]. split; [done|]. intros i Hi. rewrite (same_holds s s') by done. by apply Hb.
  - intros k w l Hk Hl i Hi Hlt. rewrite (same_holds s s') by done. by apply (Hsc k w l Hk Hl i).
Qed.

Lemma held_phase s i o : qinv s → is_slot i → holds s i o → 1 ≤ slot_of_reader s i ≤ qs_epoch (y_q s).
Proof.
  intros Hinv Hi Ho. pose proof (qi_phase _ Hinv i Hi) as Hp. unfold holds in Ho.
  destruct (r_phase _); cbn in Hp; [set_solver|destruct Hp; set_solver|done].
Qed.

Lemma link_inv s o : qinv s → o ∉ known s → qinv (s <| y_linked ::= (fun l => l ∪ {[o]}) |>).
Proof.
  intros Hinv Ho. unfold known in Ho.
  apply (same_inv s); [done|done|done|apply Hinv|..]; cbn.
  - intros x Hx. pose proof (qi_unlinked _ Hinv x Hx). set_solver.
  - intros w Hw. destruct (qi_work _ Hinv w Hw) as [Hl ?]. split; [|done].
    assert (qw_obj w ≠ o); [|set_solver]. intros <-. apply Ho. rewrite !elem_of_union, elem_of_list_to_set. right.
    apply list_elem_of_fmap_2. apply elem_of_app. by left.
  - intros w Hw. destruct (qi_ready _ Hinv w Hw) as [Hl ?]. split; [|done].
    assert (qw_obj w ≠ o); [|set_solver]. intros <-. apply Ho. rewrite !elem_of_union, elem_of_list_to_set. right.
    apply list_elem_of_fmap_2. apply elem_of_app. by right.
  - intros x Hx. destruct (qi_freed _ Hinv x Hx) as [Hl ?]. split; [|done]. set_solver.
  - apply (qi_scan _ Hinv).
Qed.

Lemma unlink_inv s o :
  qinv s → qinv (s <| y_linked ::= (fun l => l ∖ {[o]}) |> <| y_unlinked ::= (fun l => l ∪ {[o]}) |>).
Proof.
  intros Hinv. apply (same_inv s); [done|done|done|apply Hinv|..]; cbn.
  - intros x [Hx|Hx]%elem_of_union; [pose proof (qi_unlinked _ Hinv x Hx)|]; set_solver.
  - intros w Hw. destruct (qi_work _ Hinv w Hw). split; [set_solver|done].
  - intros w Hw. destruct (qi_ready _ Hinv w Hw). split; [set_solver|done].
  - intros x Hx. destruct (qi_freed _ Hinv x Hx). split; [set_solver|done].
  - apply (qi_scan _ Hinv).
Qed.

Lemma defer_inv s o :
  qinv s → y_scan s = None → o ∈ y_unlinked s → y_defers s + 1 < UINT64_MAX →
  qinv (s <| y_unlinked ::= (fun l => l ∖ {[o]}) |> <| y_q ::= sp_qsbr_defer o |> <| y_defers ::= (fun n => n + 1) |>).
Proof.
  unfold UINT64_MAX. intros Hinv Hsc Ho Hb. destruct (qi_epoch _ Hinv) as [He H0].
  apply (same_inv s); [done|done|..]; cbn; rewrite ?u64_small by lia; [lia|lia|..].
  - intros x Hx. apply (qi_unlinked _ Hinv). set_solver.
  - intros w [Hw|Hw]%elem_of_app; [by apply (qi_work _ Hinv)|]. apply list_elem_of_singleton in Hw as ->. cbn.
    split; [by apply (qi_unlinked _ Hinv)|]. intros i Hi Hh. pose proof (held_phase s i o Hinv Hi Hh). lia.
  - apply (qi_ready _ Hinv).
  - apply (qi_freed _ Hinv).
  - rewrite Hsc. done.
Qed.

Lemma scan_inv s k :
  qinv s → (∀ w l i, qs_list (y_q s) = w :: l → is_slot i → i < k → ¬ holds s i (qw_obj w)) →
  qinv (s <| y_scan := Some k |>).
Proof.
  intros Hinv Hk. apply (same_inv s); [done|done|done|apply Hinv|apply (qi_unlinked _ Hinv)|apply (qi_work _ Hinv)|
    apply (qi_ready _ Hinv)|apply (qi_freed _ Hinv)|]. cbn. intros k' w l [= <-] Hl i Hi Hlt. by apply (Hk w l i).
Qed.

Lemma scan_stop_inv s : qinv s → qinv (s <| y_scan := None |>).
Proof.
  intros Hinv. apply (same_inv s); [done|done|done|apply Hinv|apply (qi_unlinked _ Hinv)|apply (qi_work _ Hinv)|
    apply (qi_ready _ Hinv)|apply (qi_freed _ Hinv)|done].
Qed.

(** A slot that lets a stamp pass belongs to a reader that does not hold what
    the stamp is for. *)
Lemma past_free s w i :
  qinv s → w ∈ qs_list (y_q s) → is_slot i → slot_past (qw_epoch w) (slot_of_reader s i) = true → ¬ holds s i (qw_obj w).
Proof.
  intros Hinv Hw Hi Hp Hh. destruct (qi_work _ Hinv w Hw) as [_ Hb]. specialize (Hb i Hi Hh).
  unfold slot_past in Hp. apply negb_true_iff, andb_false_iff in Hp as [Hz|Hz]; zbool; lia.
Qed.

Lemma step_inv s s' : y_defers s' < UINT64_MAX → qinv s → qsys_step s s' → qinv s'.
Proof.
  intros Hb Hinv Hst. destruct (qi_epoch _ Hinv) as [He H0].
  destruct Hst as [i r Hi Hr Hh|i r e Hi Hr Hp|i r Hi Hr Hh|i r o Hi Hr Hp Ho|i r o Hi Hr|o Ho|o Ho|o Hs Ho|w l Hs Hrd Hl|
    i w l Hs Hi Hl Hp|i w l Hs Hi Hl Hp|w l Hs Hl|w l Hs Hl]; subst.
  - apply (reader_inv s i _ ∅ (y_q s)); try done; [apply Hinv|]. cbn. split; [done|lia].
  - pose proof (qi_phase _ Hinv i Hi) as Hph. rewrite Hp in Hph. destruct Hph as [_ ?]. by apply store_inv.
  - replace (sp_qsbr_offline i) with (slot_store i 0); [by apply store_inv|]. unfold sp_qsbr_offline.
    by rewrite (proj2 (Z.ltb_ge _ _)) by (destruct Hi; lia).
  - pose proof (qi_phase _ Hinv i Hi) as Hph. rewrite Hp in Hph.
    apply (reader_inv s i ROn _ (y_q s)); try done; [apply Hinv|]. intros x [Hx|Hx]%elem_of_union; (split; [done|]); [by left|right; set_solver].
  - pose proof (qi_phase _ Hinv i Hi) as Hph.
    apply (reader_inv s i _ _ (y_q s)); try done; [apply Hinv| |].
    + intros x Hx. split; [done|left]. unfold holds. set_solver.
    + destruct (r_phase _); cbn in *; [rewrite Hph; set_solver|destruct Hph as [-> ?]; split; [set_solver|done]|done].
  - by apply link_inv.
  - by apply unlink_inv.
  - apply defer_inv; [done|done|done|]. cbn in Hb. unfold UINT64_MAX in *. lia.
  - apply scan_inv; [done|]. intros ? ? i _ [? _]. lia.
  - apply scan_inv; [done|]. intros w' l' j Hl' Hj Hlt. rewrite Hl in Hl'. simplify_eq. destruct (decide (j = i)) as [->|].
    + apply past_free; [done|rewrite Hl; left|done|done].
    + apply (qi_scan _ Hinv i w' l'); [done|done|done|lia].
  - by apply scan_stop_inv.
  - apply (same_inv s); [done|done|done|apply Hinv|apply (qi_unlinked _ Hinv)| | |apply (qi_freed _ Hinv)|]; cbn.
    + intros x Hx. apply (qi_work _ Hinv). rewrite Hl. by right.
    + intros x [Hx|Hx]%elem_of_app; [by apply (qi_ready _ Hinv)|]. apply list_elem_of_singleton in Hx as ->.
      split; [apply (qi_work _ Hinv w); rewrite Hl; left|]. intros i Hi. apply (qi_scan _ Hinv _ w l Hs Hl i Hi).
      destruct Hi; lia.
    + intros k w' l' Hk Hl' i Hi Hlt. subst l. simplify_eq. destruct Hi. lia.
  - assert (Hw : w ∈ y_ready s) by (rewrite Hl; left). destruct (qi_ready _ Hinv w Hw) as [Hu Hn].
    apply (same_inv s); [done|done|done|apply Hinv|apply (qi_unlinked _ Hinv)|apply (qi_work _ Hinv)| | |]; cbn.
    + intros x Hx. apply (qi_ready _ Hinv). rewrite Hl. by right.
    + intros x [Hx|Hx]%elem_of_union; [by apply (qi_freed _ Hinv)|]. apply elem_of_singleton in Hx as ->. by split.
    + apply (qi_scan _ Hinv).
Qed.

Lemma step_defers s s' : qsys_step s s' → y_defers s ≤ y_defers s'.
Proof. destruct 1; cbn; lia. Qed.

(** C22. No object is given back while a worker may still use it: in every
    interleaving of workers that keep their rule, of the writer and of the
    reclaimer, short of 2^64 - 1 deferrals, no worker holds an object that was
    given back, and none that is about to be. *)
Theorem sp_qsbr_no_use_after_free s :
  steps qsys_step qsys_init s → y_defers s < UINT64_MAX →
  ∀ i o, is_slot i → holds s i o → (o ∉ y_freed s) ∧ ∀ w, w ∈ y_ready s → qw_obj w ≠ o.
Proof.
  intros Hs Hb. assert (Hinv : qinv s).
  { revert Hb. refine (steps_invariant qsys_step (fun s => y_defers s < UINT64_MAX → qinv s) _ s _ (fun _ => qinv_init) Hs).
    intros a b IH Hst Hb. apply (step_inv a b Hb); [|done]. apply IH. pose proof (step_defers a b Hst). lia. }
  intros i o Hi Ho. split; [|intros w Hw <-].
  - intros Hf. by apply (proj2 (qi_freed _ Hinv o Hf) i).
  - by apply (proj2 (qi_ready _ Hinv w Hw) i).
Qed.

(** The reclaimer reads every slot of workers that are all past the stamp. *)
Lemma scan_all s w l n :
  (n ≤ 64)%nat → qs_list (y_q s) = w :: l → (∀ i, is_slot i → slot_past (qw_epoch w) (zget (qs_slot (y_q s)) i) = true) →
  y_scan s = Some (64 - Z.of_nat n) →
  steps qsys_step s (s <| y_scan := Some SP_QSBR_MAX_THREADS |>).
Proof.
  revert s. induction n as [|n IH]; intros s Hn Hl Hp Hs.
  - rewrite Z.sub_0_r in Hs. replace (s <| y_scan := Some SP_QSBR_MAX_THREADS |>) with s; [apply steps_refl|].
    destruct s; cbn in *. by rewrite Hs.
  - assert (Hi : is_slot (64 - Z.of_nat (S n))) by (unfold is_slot, SP_QSBR_MAX_THREADS; lia).
    eapply steps_cons; [apply (qy_scan_next s _ w l Hs Hi Hl (Hp _ Hi))|].
    specialize (IH (s <| y_scan := Some (64 - Z.of_nat (S n) + 1) |>)). cbn in IH. apply IH; [lia|done|done|].
    f_equal. lia.
Qed.

(** A worker that holds object 8 while object 7, which it cannot hold, goes: 7
    is linked, unlinked and deferred before the worker comes online. *)
Definition q1 : qsys := set_reader 3 ROn {[8]} (mk_qsys
  (mk_qsbr (zset (zrep 64 0) 3 2) 2 [mk_sp_qsbr_work 7 2] 1)
  (zrep 64 (mk_reader ROff ∅)) {[8]} ∅ None [] ∅ 1).
Definition q2 : qsys := set_reader 3 ROn {[8]} (mk_qsys
  (mk_qsbr (zset (zrep 64 0) 3 2) 2 [] 0) (zrep 64 (mk_reader ROff ∅)) {[8]} ∅ None [] {[7]} 1).

Lemma q1_reached : steps qsys_step qsys_init q1.
Proof.
  assert (is_slot 3) by (unfold is_slot, SP_QSBR_MAX_THREADS; lia).
  eapply steps_cons; [apply (qy_link _ 7); set_solver|].
  eapply steps_cons; [apply (qy_unlink _ 7); set_solver|].
  eapply steps_cons; [apply (qy_defer _ 7); [done|set_solver]|].
  eapply steps_cons; [apply (qy_link _ 8); vm_compute; intros Hx; set_solver|].
  eapply steps_cons; [eapply (qy_load _ 3); [done|reflexivity|done]|].
  eapply steps_cons; [eapply (qy_store _ 3); [done|reflexivity|reflexivity]|].
  eapply steps_cons; [eapply (qy_get _ 3 _ 8); [done|reflexivity|reflexivity|set_solver]|].
  vm_compute. apply steps_refl.
Qed.

Lemma q2_reached : steps qsys_step q1 q2.
Proof.
  eapply steps_cons; [apply (qy_scan_start _ (mk_sp_qsbr_work 7 2) []); reflexivity|].
  eapply steps_trans; [apply (scan_all _ (mk_sp_qsbr_work 7 2) [] 64); [lia|reflexivity| |reflexivity]|].
  - intros i Hi. cbn. unfold is_slot, SP_QSBR_MAX_THREADS in Hi.
    destruct (decide (i = 3)) as [->|Hne]; [reflexivity|]. rewrite zget_zset_ne, zget_zrep by lia. reflexivity.
  - eapply steps_cons; [apply (qy_scan_take _ (mk_sp_qsbr_work 7 2) []); reflexivity|].
    eapply steps_cons; [apply (qy_run _ (mk_sp_qsbr_work 7 2) []); reflexivity|].
    match goal with |- steps _ ?a ?b => replace a with b; [apply steps_refl|] end. vm_compute. reflexivity.
Qed.

Lemma sp_qsbr_no_use_after_free_witness : 7 ∈ y_freed q2 ∧ holds q2 3 8 ∧ 8 ∉ y_freed q2.
Proof.
  assert (H8 : holds q2 3 8) by (unfold holds; cbn; set_solver).
  split; [cbn; set_solver|]. split; [exact H8|].
  refine (proj1 (sp_qsbr_no_use_after_free q2 _ _ 3 8 _ H8)).
  - exact (steps_trans qsys_step _ _ _ q1_reached q2_reached).
  - reflexivity.
  - unfold is_slot, SP_QSBR_MAX_THREADS. lia.
Defined.

(** A run of the reclaimer runs exactly the deferred work whose grace
    period is over, in the order it was deferred, and keeps the rest in order;
    once every worker is offline or has come online since the last deferral,
    that is all of it. It returns how many still wait when the work defers
    nothing more. *)
Theorem sp_qsbr_run_ready_exact fn q :
  list_ok q →
  let over w := qsbr_grace_over (qs_slot q) (qw_epoch w) in
  fst (sp_qsbr_run_ready fn q) =
    foldl (run_work fn) (q <| qs_list := List.filter (fun w => negb (over w)) (qs_list q) |>) (List.filter over (qs_list q)) ∧
  ((∀ v, v ∈ qs_slot q → v = 0 ∨ v = qs_epoch q) → List.filter over (qs_list q) = qs_list q) ∧
  (qs_waiting q = zlen (qs_list q) → qs_waiting q < 2147483648 →
   snd (sp_qsbr_run_ready (fun q _ => q) q) = zlen (List.filter (fun w => negb (over w)) (qs_list q))).
Proof.
  intros [Hs Hb]. cbn zeta. unfold sp_qsbr_run_ready. rewrite take_ready_filter by done. cbn [fst snd].
  split_and!; [done| |].
  - intros Hq. apply filter_all_true. intros w Hw. unfold qsbr_grace_over. apply forallb_forall. intros v Hv.
    specialize (Hb w Hw). unfold slot_past. apply list_elem_of_In in Hv. destruct (Hq v Hv) as [->| ->]; [done|].
    rewrite (proj2 (Z.ltb_ge _ _)) by lia. by rewrite andb_false_r.
  - intros Hw Hf. set (P := fun w => qsbr_grace_over (qs_slot q) (qw_epoch w)).
    assert (Hlen : ∀ l, zlen (List.filter P l) + zlen (List.filter (fun w => negb (P w)) l) = zlen l).
    { clear. induction l as [|w l IH]; [done|]. cbn [List.filter]. destruct (P w); cbn [negb]; rewrite !zlen_cons; lia. }
    specialize (Hlen (qs_list q)). pose proof (zlen_nonneg (List.filter P (qs_list q))).
    pose proof (zlen_nonneg (List.filter (fun w => negb (P w)) (qs_list q))).
    rewrite run_idle by (unfold fits64; cbn; lia). cbn [qs_list qs_waiting field_set]. unfold P in *. cbn.
    destruct (List.filter (fun w => negb _) _) eqn:E; [done|]. rewrite s32_small by lia. lia.
Qed.

Lemma sp_qsbr_run_ready_witness :
  let q := sp_qsbr_defer 5 (sp_qsbr_online 0 (sp_qsbr_defer 4 qsbr_init)) in
  snd (sp_qsbr_run_ready (fun q _ => q) q) = 1 ∧ qs_list (fst (sp_qsbr_run_ready (fun q _ => q) q)) = [mk_sp_qsbr_work 5 3].
Proof.
  set (q := sp_qsbr_defer _ _).
  destruct (sp_qsbr_run_ready_exact (fun q _ => q) q) as (H1 & _ & H3).
  - assert (list_ok (sp_qsbr_defer 4 qsbr_init)) as [Ha Hb].
    { apply defer_list_ok; [vm_compute; split; congruence|]. split; [constructor|]. intros w Hw. by apply elem_of_nil in Hw. }
    apply defer_list_ok; [vm_compute; split; congruence|]. split; [exact Ha|exact Hb].
  - split; [rewrite H3; vm_compute; reflexivity|].
    rewrite H1. vm_compute. reflexivity.
Defined.
