(* ===== verification/Qos.v ===== *)
(** * The L7 byte shaper (src/common/sockproxy_qos.h, src/common/sockproxy_http.c)

    A token bucket per service and direction meters the payload bytes a relay
    reads: the bucket (take, credit, refill, the ring of parked readers), the
    read of the relay burst loop that uses it, the tick that refills and wakes,
    and the anchor arithmetic of the idle guard. The theorems: whatever the
    interleaving of readers and refills, the bytes that pass are within the
    burst plus the rate, but for the reads that go on without a grant because the
    ring of parked readers is full; and such a read puts tokens in the bucket that
    nobody took. *)

From stdpp Require Import base list gmap numbers.
From S2P Require Import Prelude.

(** ** Configuration and state *)

Definition QOS_DIR_UPLOAD : Z := 1.
Definition QOS_DIR_DOWNLOAD : Z := 2.
Definition QOS_MIN_GRANT : Z := 2048.
Definition QOS_CBS_MIN_BYTES : Z := 16384.
Definition QOS_MAX_PARKED : Z := 256.
Definition QOS_TICK_QUANTUM_NS : Z := 5000000.

Record proxy_qos_cfg := mk_proxy_qos_cfg {
  qc_cir_Bps : Z; qc_pir_Bps : Z; qc_cbs_bytes : Z; qc_dir : Z; qc_mode : Z
}.

Record qos_parked_fd := mk_qos_parked_fd { k_fd : Z; k_owner_thr : Z; k_gen : Z }.

Record proxy_qos_bucket := mk_proxy_qos_bucket {
  b_tokens : Z;
  b_last_refill_ns : Z;
  b_bytes_pass : Z;
  b_bytes_delayed : Z;
  b_parks : Z;
  b_park_ns_total : Z;
  b_parked : list qos_parked_fd        (* parked[0 .. n_parked-1] *)
}.

#[export] Instance proxy_qos_bucket_eta : RecordEta proxy_qos_bucket := fun r =>
  mk_proxy_qos_bucket (b_tokens r) (b_last_refill_ns r) (b_bytes_pass r) (b_bytes_delayed r)
    (b_parks r) (b_park_ns_total r) (b_parked r).

Definition qos_effective_cbs (cfg : proxy_qos_cfg) : Z :=
  if negb (qc_cbs_bytes cfg =? 0) then qc_cbs_bytes cfg
  else
    let derived := qc_cir_Bps cfg / 10 in
    let derived := if derived <? QOS_CBS_MIN_BYTES then QOS_CBS_MIN_BYTES else derived in
    if derived >? UINT32_MAX then UINT32_MAX else derived.

Definition qos_bucket_init (cfg : proxy_qos_cfg) (now_ns : Z) (b : proxy_qos_bucket) : proxy_qos_bucket :=
  b <| b_tokens := qos_effective_cbs cfg |> <| b_last_refill_ns := now_ns |>.

(** The grant, and the bucket after it: the exchange succeeds on the value the
    grant was computed from. *)
Definition qos_bucket_take (want : Z) (b : proxy_qos_bucket) : proxy_qos_bucket * Z :=
  if want =? 0 then (b, 0)
  else
    let cur := b_tokens b in
    if cur <=? 0 then (b, 0)
    else
      let grant := if cur <? want then cur else want in
      if (grant <? want) && (grant <? QOS_MIN_GRANT) then (b, 0)
      else (b <| b_tokens := cur - grant |>, grant).

Definition qos_bucket_credit (unused : Z) (b : proxy_qos_bucket) : proxy_qos_bucket :=
  if unused =? 0 then b else b <| b_tokens ::= (fun n => s64 (n + s64 unused)) |>.

Definition qos_bucket_note_park (park_ns now_ns : Z) (b : proxy_qos_bucket) : proxy_qos_bucket :=
  if (park_ns =? 0) || (now_ns <=? park_ns) then b
  else b <| b_park_ns_total ::= (fun n => u64 (n + (now_ns - park_ns))) |>.

(** The refill in its three atomic parts: the claim of the time since the last
    one (what is to be added), the addition, the clamp. *)
Definition refill_claim (rate_Bps now_ns : Z) (b : proxy_qos_bucket) : option (proxy_qos_bucket * Z) :=
  let last := b_last_refill_ns b in
  if now_ns <=? last then None
  else
    let elapsed := now_ns - last in
    if elapsed <? 1000000 then None
    else Some (b <| b_last_refill_ns := now_ns |>, u64 (rate_Bps * elapsed) / 1000000000).
Definition refill_add (add : Z) (b : proxy_qos_bucket) : proxy_qos_bucket :=
  b <| b_tokens ::= (fun n => s64 (n + add)) |>.
Definition refill_clamp (cbs : Z) (b : proxy_qos_bucket) : proxy_qos_bucket :=
  if b_tokens b >? cbs then b <| b_tokens := cbs |> else b.
Definition qos_bucket_refill (rate_Bps cbs now_ns : Z) (b : proxy_qos_bucket) : proxy_qos_bucket * bool :=
  match refill_claim rate_Bps now_ns b with
  | None => (b, false)
  | Some (b, add) => if add =? 0 then (b, false) else (refill_clamp cbs (refill_add add b), true)
  end.

Definition qos_slide_anchor (anchor span now : Z) : Z :=
  if (anchor <=? 0) || (span <=? 0) then anchor
  else let anchor := anchor + span in if anchor >? now then now else anchor.

(** ** The relay *)

(** The shaper's part of a connection. *)
Record qos_pfe := mk_qos_pfe {
  f_gen : Z; f_parked : bool; f_was_parked : bool; f_read_paused : bool; f_park_ns : Z
}.

#[export] Instance qos_pfe_eta : RecordEta qos_pfe := fun r =>
  mk_qos_pfe (f_gen r) (f_parked r) (f_was_parked r) (f_read_paused r) (f_park_ns r).

(** [owner] is the fd's owner worker, [now] the clock: false when the ring is
    full and the caller reads on. *)
Definition qos_park_reader (owner now fd : Z) (b : proxy_qos_bucket) (p : qos_pfe) :
    proxy_qos_bucket * qos_pfe * bool :=
  if zlen (b_parked b) >=? QOS_MAX_PARKED then (b, p, false)
  else
    (b <| b_parked ::= (fun l => l ++ [mk_qos_parked_fd fd owner (f_gen p)]) |> <| b_parks ::= (fun n => u64 (n + 1)) |>,
     p <| f_parked := true |> <| f_was_parked := true |> <| f_read_paused := true |> <| f_park_ns := now |>, true).

(** [b] is the bucket the connection reads against now, none when its service is
    not shaped any more. *)
Definition qos_resume_reader (now : Z) (b : option proxy_qos_bucket) (p : qos_pfe) :
    option proxy_qos_bucket * qos_pfe * bool :=
  if negb (f_parked p) then (b, p, false)
  else
    (qos_bucket_note_park (f_park_ns p) now <$> b,
     p <| f_park_ns := 0 |> <| f_parked := false |> <| f_read_paused := false |>, true).

(** The readers to wake, and the ring emptied. *)
Definition qos_wake_all_parked (b : proxy_qos_bucket) : proxy_qos_bucket * list qos_parked_fd :=
  (b <| b_parked := [] |>, b_parked b).

(** The tick's work on one bucket. *)
Definition qos_tick_bucket (cfg : proxy_qos_cfg) (now : Z) (b : proxy_qos_bucket) : proxy_qos_bucket * list qos_parked_fd :=
  let b := fst (qos_bucket_refill (qc_cir_Bps cfg) (qos_effective_cbs cfg) now b) in
  if b_tokens b >? 0 then qos_wake_all_parked b else (b, []).

(** What a read that returned [rc] under [grant] does: the unread part of the
    grant goes back, the bytes are counted. *)
Definition qos_settle_read (grant rc : Z) (b : proxy_qos_bucket) (p : qos_pfe) : proxy_qos_bucket * qos_pfe :=
  if rc >? 0 then
    let b := if rc <? grant then qos_bucket_credit (grant - rc) b else b in
    let b := b <| b_bytes_pass ::= (fun n => u64 (n + rc)) |> in
    if f_was_parked p
    then (b <| b_bytes_delayed ::= (fun n => u64 (n + rc)) |>, p <| f_was_parked := false |>)
    else (b, p)
  else if negb (grant =? 0) then (qos_bucket_credit grant b, p)
  else (b, p).

(** One read of the burst loop of handle_client_data on a shaped connection:
    [sock_read n] is what proxy_sock_read returns for a read of [n] bytes. [None]:
    the reader was parked and nothing was read. *)
Definition qos_relay_read (owner now fd rd_want : Z) (sock_read : Z → Z) (b : proxy_qos_bucket) (p : qos_pfe) :
    proxy_qos_bucket * qos_pfe * option Z :=
  let '(b, grant) := if rd_want >? 0 then qos_bucket_take rd_want b else (b, 0) in
  let '(b, p, parked, grant) :=
    if (rd_want >? 0) && (grant =? 0) then
      let '(b, p, parked) := qos_park_reader owner now fd b p in (b, p, parked, rd_want)
    else (b, p, false, grant) in
  if parked : bool then (b, p, None)
  else
    let rc := sock_read (if rd_want >? 0 then grant else rd_want) in
    let '(b, p) := qos_settle_read grant rc b p in (b, p, Some rc).

(** ** Readers and refills together

    Workers take grants, read and give back what they did not read, while ticks
    on any worker claim time, add and clamp. [u_grants] are the grants in use,
    [u_adds] what was claimed and not yet added, [u_passed] the bytes read,
    [u_unpaid] what readers that found the park ring full granted themselves. *)

Record qrun := mk_qrun { u_b : proxy_qos_bucket; u_grants : list Z; u_adds : list Z; u_passed : Z; u_unpaid : Z }.

Definition zsum (l : list Z) : Z := foldr Z.add 0 l.
Arguments zsum : simpl never.

Section conformance.
Context (rate cbs : Z).

Inductive qrun_step (s : qrun) : qrun → Prop :=
| qr_take want b g : 0 ≤ want → qos_bucket_take want (u_b s) = (b, g) → 0 < g →
    qrun_step s (mk_qrun b (u_grants s ++ [g]) (u_adds s) (u_passed s) (u_unpaid s))
| qr_read i g rc p b p' : u_grants s !! i = Some g → rc ≤ g → qos_settle_read g rc (u_b s) p = (b, p') →
    qrun_step s (mk_qrun b (delete i (u_grants s)) (u_adds s) (u_passed s + Z.max 0 rc) (u_unpaid s))
| qr_park owner now fd p b p' : qos_park_reader owner now fd (u_b s) p = (b, p', true) →
    qrun_step s (mk_qrun b (u_grants s) (u_adds s) (u_passed s) (u_unpaid s))
| qr_full owner now fd want p b p' : 0 < want → qos_park_reader owner now fd (u_b s) p = (b, p', false) →
    qrun_step s (mk_qrun b (u_grants s ++ [want]) (u_adds s) (u_passed s) (u_unpaid s + want))
| qr_resume park_ns now :
    qrun_step s (mk_qrun (qos_bucket_note_park park_ns now (u_b s)) (u_grants s) (u_adds s) (u_passed s) (u_unpaid s))
| qr_wake b l : qos_wake_all_parked (u_b s) = (b, l) →
    qrun_step s (mk_qrun b (u_grants s) (u_adds s) (u_passed s) (u_unpaid s))
| qr_claim now b add : refill_claim rate now (u_b s) = Some (b, add) →
    qrun_step s (mk_qrun b (u_grants s) (u_adds s ++ [add]) (u_passed s) (u_unpaid s))
| qr_add i add : u_adds s !! i = Some add →
    qrun_step s (mk_qrun (refill_add add (u_b s)) (u_grants s) (delete i (u_adds s)) (u_passed s) (u_unpaid s))
| qr_clamp : qrun_step s (mk_qrun (refill_clamp cbs (u_b s)) (u_grants s) (u_adds s) (u_passed s) (u_unpaid s)).

(** The most the rate lets pass by the time of the last refill. *)
Definition allowance (t0 last : Z) : Z := cbs + rate * (last - t0) / 1000000000.

Record run_ok (t0 : Z) (s : qrun) : Prop := {
  ro_tokens : 0 ≤ b_tokens (u_b s);
  ro_grants : Forall (fun g => 0 ≤ g) (u_grants s);
  ro_adds : Forall (fun g => 0 ≤ g) (u_adds s);
  ro_passed : 0 ≤ u_passed s;
  ro_time : t0 ≤ b_last_refill_ns (u_b s);
  ro_bound : b_tokens (u_b s) + zsum (u_grants s) + zsum (u_adds s) + u_passed s ≤ allowance t0 (b_last_refill_ns (u_b s)) + u_unpaid s
}.

Lemma zsum_app l k : zsum (l ++ k) = zsum l + zsum k.
Proof. unfold zsum. induction l; cbn; lia. Qed.

Lemma zsum_snoc l x : zsum (l ++ [x]) = zsum l + x.
Proof. rewrite zsum_app. unfold zsum. cbn. lia. Qed.

Lemma zsum_delete l i x : l !! i = Some x → zsum (delete i l) = zsum l - x.
Proof.
  revert i. unfold zsum. induction l as [|y l IH]; intros [|i] H; cbn in *; simplify_eq; [lia|]. etransitivity; [exact (f_equal (Z.add y) (IH i H))|lia].
Qed.

Lemma zsum_nonneg l : Forall (fun g => 0 ≤ g) l → 0 ≤ zsum l.
Proof. unfold zsum. induction 1; cbn; lia. Qed.

Lemma credit_exact n b :
  0 ≤ n → 0 ≤ b_tokens b → b_tokens b + n < 9223372036854775808 →
  qos_bucket_credit n b = b <| b_tokens := b_tokens b + n |>.
Proof.
  intros. unfold qos_bucket_credit. case_test; zbool.
  - subst. destruct b; cbn. by rewrite Z.add_0_r.
  - cbn. by rewrite (s64_small n), s64_small by lia.
Qed.

Lemma settle_exact g rc b p b' p' :
  0 ≤ g → rc ≤ g → 0 ≤ b_tokens b → b_tokens b + g < 9223372036854775808 →
  qos_settle_read g rc b p = (b', p') →
  b_tokens b' = b_tokens b + (g - Z.max 0 rc) ∧ b_last_refill_ns b' = b_last_refill_ns b ∧ b_parked b' = b_parked b.
Proof.
  intros Hg Hrc H0 Hb. unfold qos_settle_read. rewrite Z.gtb_ltb.
  case_test; [case_test|case_test]; zbool; rewrite ?credit_exact by lia; try case_test; intros He; simplify_eq/=; split_and!; done || lia.
Qed.

Lemma take_exact want b b' g :
  qos_bucket_take want b = (b', g) → 0 < g → g ≤ b_tokens b ∧ b' = b <| b_tokens := b_tokens b - g |>.
Proof.
  unfold qos_bucket_take. intros Ht Hg. case_test_in Ht; [simplify_eq; lia|]. case_test_in Ht; [simplify_eq; lia|].
  destruct (b_tokens b <? want) eqn:Ew; case_test_in Ht; simplify_eq; zbool; try lia; split; done || lia.
Qed.

Lemma Forall_Z_nth l i g : Forall (fun g => 0 ≤ g) l → l !! i = Some g → 0 ≤ g.
Proof. intros Hl Hi. exact (proj1 (Forall_lookup _ _) Hl i g Hi). Qed.

Lemma Forall_snoc {A} (P : A → Prop) l x : Forall P l → P x → Forall P (l ++ [x]).
Proof. intros. apply Forall_app. split; [done|]. by apply Forall_singleton. Qed.

Lemma step_run_ok t0 s s' :
  0 ≤ rate → 0 ≤ cbs → allowance t0 (b_last_refill_ns (u_b s')) + u_unpaid s' < 9223372036854775808 →
  run_ok t0 s → qrun_step s s' → run_ok t0 s' ∧ b_last_refill_ns (u_b s) ≤ b_last_refill_ns (u_b s').
Proof.
  intros Hrate Hcbs Hb [Ht Hg Ha Hp Hti Hbd] Hst.
  pose proof (zsum_nonneg _ Hg) as Hgs. pose proof (zsum_nonneg _ Ha) as Has.
  destruct Hst as [want b g Hw Htk Hpos|i g rc p b p' Hi Hrc He|owner now fd p b p' Hpk|owner now fd want p b p' Hw Hpk|park_ns now|b l Hwk|now b add Hc|i add Hi|].
  - destruct (take_exact want (u_b s) b g Htk Hpos) as [Hle ->]. cbn in *. split; [|done].
    split; cbn; [lia|apply Forall_snoc; [done|lia]|done|done|done|]. rewrite zsum_snoc. lia.
  - pose proof (Forall_Z_nth _ _ _ Hg Hi).
    pose proof (zsum_delete _ _ _ Hi) as Hd. pose proof (zsum_nonneg _ (Forall_delete _ _ i Hg)).
    assert (Hlast : b_last_refill_ns b = b_last_refill_ns (u_b s)).
    { unfold qos_settle_read, qos_bucket_credit in He. repeat case_test_in He; by simplify_eq. }
    cbn in Hb. rewrite Hlast in Hb. cbn. rewrite Hlast. split; [|done].
    destruct (settle_exact g rc (u_b s) p b p') as (Htk & _ & _); [lia..|done|].
    split; cbn; rewrite ?Hlast; [lia|by apply Forall_delete|done|lia|done|lia].
  - unfold qos_park_reader in Hpk. case_test_in Hpk; simplify_eq. split; [|done]. by split.
  - unfold qos_park_reader in Hpk. case_test_in Hpk; simplify_eq. cbn in *. split; [|done].
    split; cbn; [lia|apply Forall_snoc; [done|lia]|done|done|done|]. rewrite zsum_snoc. lia.
  - unfold qos_bucket_note_park in *. cbn in *. split; [|by repeat case_test]. split; cbn; by repeat case_test.
  - unfold qos_wake_all_parked in Hwk. simplify_eq. split; [|done]. by split.
  - unfold refill_claim in Hc. repeat case_test_in Hc; simplify_eq; zbool. cbn in *.
    set (last := b_last_refill_ns (u_b s)) in *.
    assert (Hadd : 0 ≤ u64 (rate * (now - last)) / 1000000000 ≤ rate * (now - last) / 1000000000).
    { pose proof (u64_fits (rate * (now - last))) as Hf. unfold fits64 in Hf. split; [apply Z.div_pos; lia|].
      apply Z.div_le_mono; [lia|]. apply Z.mod_le; nia. }
    split; [|lia]. split; cbn; [done|done|apply Forall_snoc; [done|lia]|done|lia|].
    rewrite zsum_snoc. unfold allowance in *.
    assert (rate * (last - t0) / 1000000000 + rate * (now - last) / 1000000000 ≤ rate * (now - t0) / 1000000000); [|lia].
    apply Z.div_le_lower_bound; [lia|].
    pose proof (Z.mul_div_le (rate * (last - t0)) 1000000000 ltac:(lia)).
    pose proof (Z.mul_div_le (rate * (now - last)) 1000000000 ltac:(lia)). lia.
  - pose proof (Forall_Z_nth _ _ _ Ha Hi).
    pose proof (zsum_delete _ _ _ Hi) as Hd. pose proof (zsum_nonneg _ (Forall_delete _ _ i Ha)). cbn in Hb.
    split; [|done]. split; cbn; rewrite ?s64_small by lia; [lia|done|by apply Forall_delete|done|done|lia].
  - unfold refill_clamp in *. cbn in *. case_test; zbool; (split; [|done]); split; cbn; try done; lia.
Qed.

Lemma step_last_mono s s' : qrun_step s s' → b_last_refill_ns (u_b s) ≤ b_last_refill_ns (u_b s') ∧ u_unpaid s ≤ u_unpaid s'.
Proof.
  destruct 1 as [want b g Hw Htk Hpos|i g rc p b p' Hi Hrc He|owner now fd p b p' Hpk|owner now fd want p b p' Hw Hpk|park_ns now|b l Hwk|now b add Hc|i add Hi|]; cbn.
  - destruct (take_exact _ _ _ _ Htk Hpos) as [_ ->]. done.
  - unfold qos_settle_read, qos_bucket_credit in He. repeat case_test_in He; simplify_eq; done.
  - unfold qos_park_reader in Hpk. case_test_in Hpk; simplify_eq. done.
  - unfold qos_park_reader in Hpk. case_test_in Hpk; simplify_eq. lia.
  - unfold qos_bucket_note_park. by repeat case_test.
  - unfold qos_wake_all_parked in Hwk. simplify_eq. done.
  - unfold refill_claim in Hc. repeat case_test_in Hc; simplify_eq; zbool. cbn. lia.
  - done.
  - unfold refill_clamp. by case_test.
Qed.

Lemma steps_last_mono s s' : steps qrun_step s s' → b_last_refill_ns (u_b s) ≤ b_last_refill_ns (u_b s') ∧ u_unpaid s ≤ u_unpaid s'.
Proof. induction 1 as [|a b c Hab _ IH]; [done|]. pose proof (step_last_mono a b Hab). lia. Qed.

Lemma allowance_mono t0 l l' : 0 ≤ rate → l ≤ l' → allowance t0 l ≤ allowance t0 l'.
Proof. intros. unfold allowance. apply Z.add_le_mono_l, Z.div_le_mono; [lia|]. nia. Qed.

Lemma steps_run_ok t0 s s' :
  0 ≤ rate → 0 ≤ cbs → allowance t0 (b_last_refill_ns (u_b s')) + u_unpaid s' < 9223372036854775808 →
  run_ok t0 s → steps qrun_step s s' → run_ok t0 s'.
Proof.
  intros Hr Hc Hb Hok Hs. induction Hs as [|a b c Hab Hbc IH]; [done|]. apply (IH Hb).
  apply (step_run_ok t0 a b); try done.
  destruct (steps_last_mono b c Hbc) as [Hl Hu]. pose proof (allowance_mono t0 _ _ Hr Hl). lia.
Qed.

(** The read of the burst loop is a run of such steps: a grant and its settlement,
    a park, or with the ring full a grant of its own and its settlement. *)
Lemma relay_read_steps owner now fd want sock_read s p b' p' r :
  0 < want → (∀ n, sock_read n ≤ n) → qos_relay_read owner now fd want sock_read (u_b s) p = (b', p', r) →
  ∃ w, (w = 0 ∨ w = want ∧ QOS_MAX_PARKED <= zlen (b_parked (u_b s))) ∧
    steps qrun_step s (mk_qrun b' (u_grants s) (u_adds s) (u_passed s + Z.max 0 (default 0 r)) (u_unpaid s + w)).
Proof.
  intros Hw Hrd. unfold qos_relay_read. rewrite (Z.gtb_ltb want 0), (proj2 (Z.ltb_lt 0 want) Hw). cbn [andb].
  destruct (qos_bucket_take want (u_b s)) as [b g] eqn:Ht. case_test; zbool.
  - assert (b = u_b s) as ->.
    { subst g. unfold qos_bucket_take in Ht. repeat case_test_in Ht; simplify_eq; try done; zbool; lia. }
    destruct (qos_park_reader owner now fd (u_b s) p) as [[b2 p2] [|]] eqn:Hp.
    + intros He. simplify_eq. exists 0. split; [by left|]. cbn. rewrite !Z.add_0_r. eapply steps_cons; [by eapply qr_park|apply steps_refl].
    + assert (b2 = u_b s ∧ p2 = p ∧ QOS_MAX_PARKED <= zlen (b_parked (u_b s))) as (-> & -> & Hfull) by (unfold qos_park_reader in Hp; case_test_in Hp; simplify_eq; zbool; by split_and!).
      destruct (qos_settle_read want (sock_read want) (u_b s) p) as [b3 p3] eqn:He. intros Hx. simplify_eq. exists want. split; [by right|].
      eapply steps_cons; [by eapply (qr_full s owner now fd want p)|]. eapply steps_cons; [|apply steps_refl].
      eapply eq_rect; [by eapply (qr_read _ (length (u_grants s)) want (sock_read want) p b' p'); [apply list_lookup_middle|..]|].
      cbn. f_equal. by rewrite delete_middle, app_nil_r.
  - destruct (qos_settle_read g (sock_read g) b p) as [b2 p2] eqn:He. intros Hx. simplify_eq. exists 0. split; [by left|]. rewrite Z.add_0_r.
    assert (0 < g). { unfold qos_bucket_take in Ht. repeat case_test_in Ht; simplify_eq; zbool; lia. }
    eapply steps_cons; [by eapply (qr_take s want b g); [lia|..]|].
    eapply steps_cons; [|apply steps_refl].
    eapply eq_rect; [by eapply (qr_read _ (length (u_grants s)) g (sock_read g) p b' p'); [apply list_lookup_middle|..]|].
    cbn. f_equal. by rewrite delete_middle, app_nil_r.
Qed.

End conformance.

(** A bucket just armed. *)
Definition qrun_init (cfg : proxy_qos_cfg) (t0 : Z) (b : proxy_qos_bucket) : qrun :=
  mk_qrun (qos_bucket_init cfg t0 b) [] [] 0 0.

Lemma effective_cbs_nonneg cfg : 0 ≤ qc_cbs_bytes cfg → 0 ≤ qos_effective_cbs cfg.
Proof.
  intros. unfold qos_effective_cbs, QOS_CBS_MIN_BYTES, UINT32_MAX. cbv zeta. repeat case_test; zbool; lia.
Qed.

(** C30. From a bucket just armed, while its configuration stays, whatever the
    interleaving of grants, reads, parks, wakes and refills on any number of workers,
    the bytes that passed by the time of the last refill are at most the burst plus
    the rate times the time since arming, plus what readers that found the park ring
    full granted themselves ([u_unpaid]: nothing while fewer than 256 are parked);
    and the bucket is never overdrawn. *)
Theorem qos_passed_within_rate cfg t0 b s :
  0 ≤ qc_cir_Bps cfg → 0 ≤ qc_cbs_bytes cfg →
  steps (qrun_step (qc_cir_Bps cfg) (qos_effective_cbs cfg)) (qrun_init cfg t0 b) s →
  let most := allowance (qc_cir_Bps cfg) (qos_effective_cbs cfg) t0 (b_last_refill_ns (u_b s)) + u_unpaid s in
  most < 9223372036854775808 → u_passed s ≤ most ∧ 0 ≤ b_tokens (u_b s).
Proof.
  intros Hr Hc Hs most Hb. pose proof (effective_cbs_nonneg cfg Hc) as He.
  destruct (steps_run_ok _ _ t0 (qrun_init cfg t0 b) s Hr He Hb) as [Ht Hg Ha Hp Hti Hbd]; [|done|].
  - split; cbn; [done|constructor|constructor|lia|lia|]. unfold allowance, zsum. cbn.
    rewrite Z.sub_diag, Z.mul_0_r. rewrite Z.div_0_l by lia. lia.
  - pose proof (zsum_nonneg _ Hg). pose proof (zsum_nonneg _ Ha). unfold most; split; [lia|done].
Qed.

Definition wit_qos_cfg : proxy_qos_cfg := mk_proxy_qos_cfg 1000000 0 0 QOS_DIR_DOWNLOAD 0.
Definition wit_qos_b0 : proxy_qos_bucket := mk_proxy_qos_bucket 0 0 0 0 0 0 [].
Definition wit_qos_p0 : qos_pfe := mk_qos_pfe 7 false false false 0.
Definition wit_qos_end : qrun :=
  mk_qrun (mk_proxy_qos_bucket 100000 10000005 1000 0 0 0 []) [] [] 1000 0.

(** A grant of 4096, a read of 1000 and a refill 10 ms later. *)
Lemma qos_passed_within_rate_witness : u_passed wit_qos_end ≤ 110000 ∧ 0 ≤ b_tokens (u_b wit_qos_end).
Proof.
  apply (qos_passed_within_rate wit_qos_cfg 5 wit_qos_b0 wit_qos_end); [vm_compute; discriminate..| |reflexivity].
  eapply steps_cons; [eapply (qr_take _ _ _ 4096 _ 4096); [lia|reflexivity|lia]|].
  eapply steps_cons; [eapply (qr_read _ _ _ 0 4096 1000 wit_qos_p0); [reflexivity|lia|reflexivity]|].
  eapply steps_cons; [eapply (qr_claim _ _ _ 10000005); reflexivity|].
  eapply steps_cons; [eapply (qr_add _ _ _ 0); reflexivity|].
  eapply steps_cons; [eapply qr_clamp|]. vm_compute. apply steps_refl.
Defined.

(** The read that finds the park ring full goes on without a grant, and what it
    does not read of it is credited all the same: the bucket ends above where
    it was by the unread part of tokens nobody took (the whole of it when
    nothing was read). *)
Theorem qos_full_ring_read_mints owner now fd want sock_read b p :
  0 < want → snd (qos_bucket_take want b) = 0 → zlen (b_parked b) = QOS_MAX_PARKED →
  0 ≤ b_tokens b → b_tokens b + want < 9223372036854775808 → sock_read want ≤ want →
  let '(b', _, r) := qos_relay_read owner now fd want sock_read b p in
  r = Some (sock_read want) ∧ b_tokens b' = b_tokens b + (want - Z.max 0 (sock_read want)).
Proof.
  intros Hw Ht Hfull H0 Hb Hrd. unfold qos_relay_read. rewrite (Z.gtb_ltb want 0), (proj2 (Z.ltb_lt 0 want) Hw).
  destruct (qos_bucket_take want b) as [b1 g] eqn:Htk. cbn in Ht. subst g.
  assert (b1 = b) as ->.
  { unfold qos_bucket_take in Htk. repeat case_test_in Htk; simplify_eq; try done; zbool; lia. }
  cbn [andb Z.eqb]. unfold qos_park_reader. rewrite Hfull. cbn [Z.geb Z.compare QOS_MAX_PARKED Pos.compare Pos.compare_cont].
  destruct (qos_settle_read want (sock_read want) b p) as [b2 p2] eqn:He.
  split; [done|]. by destruct (settle_exact want (sock_read want) b p b2 p2 ltac:(lia) Hrd H0 Hb He) as [-> _].
Qed.

Definition wit_qos_full : proxy_qos_bucket :=
  mk_proxy_qos_bucket 0 0 0 0 0 0 (replicate 256 (mk_qos_parked_fd 3 0 1)).

(** An empty bucket, a full ring and a read that finds no data: a megabyte of
    tokens appears. *)
Lemma qos_full_ring_read_mints_witness :
  b_tokens (fst (fst (qos_relay_read 0 0 9 1048576 (fun _ => -1) wit_qos_full wit_qos_p0))) = 1048576.
Proof.
  pose proof (qos_full_ring_read_mints 0 0 9 1048576 (fun _ => -1) wit_qos_full wit_qos_p0 eq_refl eq_refl
    eq_refl ltac:(vm_compute; discriminate) eq_refl ltac:(vm_compute; discriminate)) as H.
  destruct (qos_relay_read 0 0 9 1048576 (fun _ => -1) wit_qos_full wit_qos_p0) as [[b' p'] r]. exact (proj2 H).
Defined.
