(* ===== verification/Notify.v ===== *)
(** * The notifier (src/common/notify.c)

    The table of registrations the workers dispatch from: one entry per fd,
    owned by one shard (a relay worker, or the listener worker), with the
    kernel's interest list beside it, the listeners the accept valve paused, and
    a ring per worker of parked fds to resume. Every operation is a function on
    the context under the notifier's lock; epoll_ctl's answer is a parameter and
    what a call does to the interest list is written out, the close of a fd that is
    still registered included. The theorems: the counters and the pause list agree
    with the table, and the kernel polls nothing else, through every operation; the resume ring is a bounded queue; an event never tears
    down a newer registration of its fd; no listener stays paused behind an open
    valve. *)

From stdpp Require Import base list gmap numbers.
From S2P Require Import Prelude.

(** ** Constants *)

Definition MAX_NOTIFY_FDS : Z := 65535.
Definition MAX_NOTIFY_POLL_FDS : Z := 8192.
Definition NOTIFY_MAX_RELAY_SHARDS : Z := 32.
Definition MAX_NOTIFY_THREADS : Z := NOTIFY_MAX_RELAY_SHARDS + 1.
Definition MAX_NOTIFY_RESUME_PENDING : Z := 4096.
Definition MAX_NOTIFY_PAUSED : Z := 1024.

Definition NOTI_TYPE_IN : Z := 1.
Definition NOTI_TYPE_HUP : Z := 2.
Definition NOTI_TYPE_OUT : Z := 4.
Definition NOTI_TYPE_ERROR : Z := 8.
Definition NOTI_TYPE_RDHUP : Z := 32.

(** The kernel's event bits and error numbers. *)
Definition EPOLLIN : Z := 1.
Definition EPOLLOUT : Z := 4.
Definition EPOLLERR : Z := 8.
Definition EPOLLHUP : Z := 16.
Definition EPOLLRDHUP : Z := 8192.
Definition ENOENT : Z := 2.
Definition EBADF : Z := 9.
Definition EEXIST : Z := 17.
Definition EINVAL : Z := 22.
Definition ENOSPC : Z := 28.
Definition ESTALE : Z := 116.

(** ** State *)

Record notify_ent := mk_notify_ent {
  ne_fd : Z; ne_type : Z; ne_events : Z; ne_thr : Z; ne_priv : Z; ne_gen : Z;
  ne_evict : bool; ne_paused : bool; ne_paused_events : Z
}.

#[export] Instance notify_ent_eta : RecordEta notify_ent := fun r =>
  mk_notify_ent (ne_fd r) (ne_type r) (ne_events r) (ne_thr r) (ne_priv r) (ne_gen r)
    (ne_evict r) (ne_paused r) (ne_paused_events r).

(** An entry of the zeroed table. *)
Definition ent0 : notify_ent := mk_notify_ent 0 0 0 0 0 0 false false 0.

Record notify_poll_ctx := mk_notify_poll_ctx {
  pc_n_pfds : Z; pc_epfd : Z; pc_wake_fd : Z;
  pc_rq_gen : list Z; pc_rq : list Z; pc_rq_head : Z; pc_rq_tail : Z; pc_rq_count : Z
}.

#[export] Instance notify_poll_ctx_eta : RecordEta notify_poll_ctx := fun r =>
  mk_notify_poll_ctx (pc_n_pfds r) (pc_epfd r) (pc_wake_fd r) (pc_rq_gen r) (pc_rq r)
    (pc_rq_head r) (pc_rq_tail r) (pc_rq_count r).

Definition poll_ctx0 : notify_poll_ctx :=
  mk_notify_poll_ctx 0 (-1) (-1) (zrep MAX_NOTIFY_RESUME_PENDING 0) (zrep MAX_NOTIFY_RESUME_PENDING 0) 0 0 0.
#[export] Instance poll_ctx_inhabited : Inhabited notify_poll_ctx := populate poll_ctx0.
Arguments poll_ctx0 : simpl never.
Arguments zrep : simpl never.
Arguments zmod : simpl never.
Arguments zget : simpl never.
Arguments zset : simpl never.

Record notify_ctx := mk_notify_ctx {
  nc_earr : gmap Z notify_ent;       (* an absent key is an entry never used *)
  nc_n_fds : Z;
  nc_n_thrs : Z;
  nc_acc_thr : Z;
  nc_paused_fds : list Z;            (* paused_fds[0 .. n_paused_fds-1] *)
  nc_n_paused : Z;
  nc_poll : list notify_poll_ctx;
  nc_ep : gmap (Z * Z) Z             (* the kernel: shard and fd to mask *)
}.

#[export] Instance notify_ctx_eta : RecordEta notify_ctx := fun r =>
  mk_notify_ctx (nc_earr r) (nc_n_fds r) (nc_n_thrs r) (nc_acc_thr r) (nc_paused_fds r)
    (nc_n_paused r) (nc_poll r) (nc_ep r).

Definition ent_at (m : gmap Z notify_ent) (fd : Z) : notify_ent := default ent0 (m !! fd).
Definition set_ent (fd : Z) (e : notify_ent) (n : notify_ctx) : notify_ctx := n <| nc_earr ::= <[fd := e]> |>.
Definition mod_poll (t : Z) (f : notify_poll_ctx → notify_poll_ctx) (n : notify_ctx) : notify_ctx :=
  n <| nc_poll ::= (fun l => zmod l t f) |>.
Definition bad_fd (fd : Z) : bool := (fd <=? 0) || (fd >=? MAX_NOTIFY_FDS).
Definition has (bits b : Z) : bool := negb (Z.land bits b =? 0).

(** ** Event masks *)

Definition notify_conv2poll_events (type : Z) : Z :=
  let events := 0 in
  let events := if has type NOTI_TYPE_IN then Z.lor events EPOLLIN else events in
  let events := if has type NOTI_TYPE_OUT then Z.lor events EPOLLOUT else events in
  let events := if has type NOTI_TYPE_HUP then Z.lor events (Z.lor EPOLLRDHUP EPOLLHUP) else events in
  if has type NOTI_TYPE_ERROR then Z.lor events EPOLLERR else events.

Definition notify_conv4mpoll_events (events : Z) : Z :=
  let type := 0 in
  let type := if has events EPOLLIN then Z.lor type NOTI_TYPE_IN else type in
  let type := if has events EPOLLOUT then Z.lor type NOTI_TYPE_OUT else type in
  let type := if has events EPOLLHUP then Z.lor type NOTI_TYPE_HUP else type in
  let type := if has events EPOLLRDHUP then Z.lor type NOTI_TYPE_RDHUP else type in
  if has events EPOLLERR then Z.lor type NOTI_TYPE_ERROR else type.

(** ** The interest list *)

Inductive ep_op : Set := EPOLL_CTL_ADD | EPOLL_CTL_MOD | EPOLL_CTL_DEL.

Section operations.
(** epoll_ctl's errno for an addition or a change of mask that the instance
    does not refuse for the fd's sake, 0 on success. *)
Context (epoll_ctl : ep_op → Z → Z → Z → Z).

(** The instance refuses to add a fd twice and to change or drop one it does not
    hold; a DEL it accepts takes the fd out. *)
Definition notify_ep_ctl (t : Z) (op : ep_op) (fd events : Z) (n : notify_ctx) : notify_ctx * Z :=
  if pc_epfd (zget (nc_poll n) t) <? 0 then (n, - EBADF)
  else
    let held := match nc_ep n !! (t, fd) with Some _ => true | None => false end in
    let err :=
      match op with
      | EPOLL_CTL_ADD => if held then EEXIST else epoll_ctl op t fd events
      | EPOLL_CTL_MOD => if held then epoll_ctl op t fd events else ENOENT
      | EPOLL_CTL_DEL => if held then 0 else ENOENT
      end in
    if negb (err =? 0) then (n, - err)
    else match op with
    | EPOLL_CTL_DEL => (n <| nc_ep ::= delete (t, fd) |>, 0)
    | _ => (n <| nc_ep ::= <[(t, fd) := events]> |>, 0)
    end.

(** ** Registration *)

Definition notify_add_shard (fd pin_fd want_thr : Z) (n : notify_ctx) : Z :=
  if want_thr >=? 0 then want_thr
  else if (pin_fd >? 0) && (pin_fd <? MAX_NOTIFY_FDS) && (ne_fd (ent_at (nc_earr n) pin_fd) >? 0)
  then ne_thr (ent_at (nc_earr n) pin_fd)
  else Z.rem fd (nc_n_thrs n).

(** A fd that is registered already: its mask is changed in place. *)
Definition notify_add_again (fd events priv : Z) (n : notify_ctx) : notify_ctx * Z :=
  let ent := ent_at (nc_earr n) fd in
  if ne_priv ent =? priv then
    if ne_paused ent then (set_ent fd (ent <| ne_paused_events := events |>) n, 0)
    else if negb (ne_events ent =? events) then
      let '(n, rc) := notify_ep_ctl (ne_thr ent) EPOLL_CTL_MOD fd events n in
      if rc <? 0 then (n, rc) else (set_ent fd (ent <| ne_events := events |>) n, 0)
    else (n, 0)
  else (n, - EEXIST).

Definition __notify_add_ent (fd type priv gen pin_fd want_thr : Z) (n : notify_ctx) : notify_ctx * Z :=
  if bad_fd fd then (n, - EINVAL)
  else if want_thr >=? MAX_NOTIFY_THREADS then (n, - EINVAL)
  else
    let events := notify_conv2poll_events type in
    if events =? 0 then (n, - EINVAL)
    else if ne_fd (ent_at (nc_earr n) fd) >? 0 then notify_add_again fd events priv n
    else
      let tslot := notify_add_shard fd pin_fd want_thr n in
      if pc_n_pfds (zget (nc_poll n) tslot) >=? MAX_NOTIFY_POLL_FDS then (n, - EINVAL)
      else
        let '(n, rc) := notify_ep_ctl tslot EPOLL_CTL_ADD fd events n in
        if rc <? 0 then (n, rc)
        else
          let ent := ent_at (nc_earr n) fd in
          let n := set_ent fd (mk_notify_ent fd type events tslot priv gen false false (ne_paused_events ent)) n in
          let n := n <| nc_n_fds ::= (fun k => k + 1) |> in
          (mod_poll tslot (fun p => p <| pc_n_pfds ::= (fun k => k + 1) |>) n, 0).

Definition notify_add_ent (fd type priv gen : Z) (n : notify_ctx) : notify_ctx * Z :=
  __notify_add_ent fd type priv gen (-1) (-1) n.
Definition notify_add_ent_pinned (fd type priv gen pin_fd : Z) (n : notify_ctx) : notify_ctx * Z :=
  __notify_add_ent fd type priv gen pin_fd (-1) n.
Definition notify_add_ent_listener (fd type priv gen : Z) (n : notify_ctx) : notify_ctx * Z :=
  __notify_add_ent fd type priv gen (-1) (nc_acc_thr n) n.

(** ** Lookups *)

Definition notify_owner_thr (fd : Z) (n : notify_ctx) : Z :=
  if bad_fd fd then -1
  else if ne_fd (ent_at (nc_earr n) fd) >? 0 then ne_thr (ent_at (nc_earr n) fd)
  else if nc_n_thrs n >? 0 then Z.rem fd (nc_n_thrs n) else 0.

(** The registered priv and its gen, none when the fd is not registered. *)
Definition notify_priv_of_fd (fd : Z) (n : notify_ctx) : option (Z * Z) :=
  if bad_fd fd then None
  else if ne_fd (ent_at (nc_earr n) fd) >? 0
  then Some (ne_priv (ent_at (nc_earr n) fd), ne_gen (ent_at (nc_earr n) fd)) else None.

Definition notify_check_slot (fd : Z) (n : notify_ctx) : bool :=
  if bad_fd fd then false else negb (ne_fd (ent_at (nc_earr n) fd) >? 0).

Definition notify_ent_thr (fd : Z) (n : notify_ctx) : Z :=
  if bad_fd fd then -1
  else if ne_fd (ent_at (nc_earr n) fd) >? 0 then ne_thr (ent_at (nc_earr n) fd) else -1.

Definition notify_listener_thr (n : notify_ctx) : Z := nc_acc_thr n.
Definition notify_paused_count (n : notify_ctx) : Z := nc_n_paused n.

(** ** Removal *)

Definition notify_forget_pause (fd : Z) (n : notify_ctx) : notify_ctx :=
  let ent := ent_at (nc_earr n) fd in
  if ne_paused ent
  then set_ent fd (ent <| ne_paused := false |>) n <| nc_n_paused ::= (fun k => k - 1) |>
  else n.

(** What a delete and a deregister do to the table once they go ahead. *)
Definition notify_drop (fd : Z) (n : notify_ctx) : notify_ctx :=
  let ent := ent_at (nc_earr n) fd in
  let tslot := ne_thr ent in
  let n := set_ent fd (mk_notify_ent (-1) 0 0 0 0 (ne_gen ent) (ne_evict ent) (ne_paused ent) (ne_paused_events ent)) n in
  let n := notify_forget_pause fd n in
  let n := fst (notify_ep_ctl tslot EPOLL_CTL_DEL fd 0 n) in
  let n := n <| nc_n_fds ::= (fun k => k - 1) |> in
  mod_poll tslot (fun p => p <| pc_n_pfds ::= (fun k => k - 1) |>) n.

Definition bad_thr (t : Z) : bool := (t <? 0) || (t >=? MAX_NOTIFY_THREADS).

(** The context, the answer, and the priv handed to the destroy callback (0 when
    none is). No result when the assertion on the shard fails. *)
Definition __notify_delete_ent (fd gen : Z) (check_gen : bool) (n : notify_ctx) : option (notify_ctx * Z * Z) :=
  if bad_fd fd then Some (n, - EINVAL, 0)
  else
    let ent := ent_at (nc_earr n) fd in
    if ne_fd ent <=? 0 then Some (n, - ENOENT, 0)
    else if check_gen && negb (ne_gen ent =? gen) then Some (n, - ESTALE, 0)
    else if bad_thr (ne_thr ent) then None
    else Some (notify_drop fd n, 0, ne_priv ent).

Definition notify_delete_ent__ (fd : Z) (n : notify_ctx) : option (notify_ctx * Z * Z) := __notify_delete_ent fd 0 false n.
Definition notify_delete_ent_gen__ (fd gen : Z) (n : notify_ctx) : option (notify_ctx * Z * Z) := __notify_delete_ent fd gen true n.

(** Without HAVE_NOTIFY_EVICT, which no build defines, an eviction is a no-op. *)
Definition notify_delete_ent_evict__ (fd : Z) (n : notify_ctx) : option (notify_ctx * Z * Z) := Some (n, 0, 0).
Definition notify_delete_ent (fd : Z) (evict : bool) (n : notify_ctx) : option (notify_ctx * Z * Z) :=
  if evict then notify_delete_ent_evict__ fd n else notify_delete_ent__ fd n.

Definition notify_deregister_ent (fd : Z) (n : notify_ctx) : option (notify_ctx * Z) :=
  if bad_fd fd then Some (n, - EINVAL)
  else
    let ent := ent_at (nc_earr n) fd in
    if ne_fd ent <=? 0 then Some (n, - ENOENT)
    else if bad_thr (ne_thr ent) then None
    else Some (notify_drop fd n, 0).

Definition notify_disarm_ent (fd : Z) (n : notify_ctx) : notify_ctx * Z :=
  if bad_fd fd then (n, - EINVAL)
  else
    let ent := ent_at (nc_earr n) fd in
    if ne_fd ent <=? 0 then (n, - ENOENT)
    else if bad_thr (ne_thr ent) then (n, - EINVAL)
    else
      let n := set_ent fd (ent <| ne_type := 0 |>) n in
      let n := notify_forget_pause fd n in
      let ent := ent_at (nc_earr n) fd in
      if negb (ne_events ent =? 0) then
        let n := fst (notify_ep_ctl (ne_thr ent) EPOLL_CTL_MOD fd 0 n) in
        (set_ent fd (ent <| ne_events := 0 |>) n, 0)
      else (n, 0).

(** ** Pausing *)

(** One turn of the re-arm loop, with the shards it ORs into the mask. *)
Definition notify_rearm_one (acc : notify_ctx * list Z * Z) (fd : Z) : notify_ctx * list Z * Z :=
  let '(n, shards, k) := acc in
  let ent := ent_at (nc_earr n) fd in
  if (ne_fd ent <=? 0) || negb (ne_paused ent) then (n, shards, k)
  else
    let n := fst (notify_ep_ctl (ne_thr ent) EPOLL_CTL_MOD (ne_fd ent) (ne_paused_events ent) n) in
    let n := set_ent fd (ent <| ne_events := ne_paused_events ent |> <| ne_paused := false |>) n in
    let n := n <| nc_n_paused ::= (fun k => k - 1) |> in
    (n, shards ++ [ne_thr ent], k + 1).

Definition notify_rearm_locked (n : notify_ctx) : notify_ctx * list Z * Z :=
  let '(n, shards, k) := foldl notify_rearm_one (n, [], 0) (nc_paused_fds n) in
  (n <| nc_paused_fds := [] |>, shards, k).

Definition still_paused (n : notify_ctx) (fd : Z) : bool :=
  (ne_fd (ent_at (nc_earr n) fd) >? 0) && ne_paused (ent_at (nc_earr n) fd).

(** The part of notify_pause_ent under its first lock: an answer, or the pause
    taken and the gate to be asked. *)
Definition notify_pause_locked (fd : Z) (n : notify_ctx) : notify_ctx * option Z :=
  let ent := ent_at (nc_earr n) fd in
  if ne_fd ent <=? 0 then (n, Some (- ENOENT))
  else if ne_paused ent then (n, Some 0)
  else
    let n := if zlen (nc_paused_fds n) >=? MAX_NOTIFY_PAUSED
             then n <| nc_paused_fds ::= List.filter (still_paused n) |> else n in
    if zlen (nc_paused_fds n) >=? MAX_NOTIFY_PAUSED then (n, Some (- ENOSPC))
    else
      let ent := ent <| ne_paused_events := ne_events ent |> in
      let n := fst (notify_ep_ctl (ne_thr ent) EPOLL_CTL_MOD fd 0 n) in
      let n := set_ent fd (ent <| ne_events := 0 |> <| ne_paused := true |>) n in
      let n := n <| nc_paused_fds ::= (fun l => l ++ [fd]) |> in
      (n <| nc_n_paused ::= (fun k => k + 1) |>, None).

(** [gate] is what the gate answers after the pause; the shards to wake. *)
Definition notify_pause_ent (fd : Z) (gate : bool) (n : notify_ctx) : notify_ctx * Z * list Z :=
  if bad_fd fd then (n, - EINVAL, [])
  else match notify_pause_locked fd n with
  | (n, Some rc) => (n, rc, [])
  | (n, None) => if negb gate then (n, 1, []) else let '(n, shards, _) := notify_rearm_locked n in (n, 0, shards)
  end.

Definition notify_rearm_paused (gate : bool) (n : notify_ctx) : notify_ctx * Z * list Z :=
  if (nc_n_paused n =? 0) || negb gate then (n, 0, [])
  else let '(n, shards, k) := notify_rearm_locked n in (n, k, shards).

(** ** The resume ring *)

Definition rq_push (fd gen : Z) (p : notify_poll_ctx) : notify_poll_ctx :=
  mk_notify_poll_ctx (pc_n_pfds p) (pc_epfd p) (pc_wake_fd p)
    (zset (pc_rq_gen p) (pc_rq_tail p) gen) (zset (pc_rq p) (pc_rq_tail p) fd)
    (pc_rq_head p) ((pc_rq_tail p + 1) mod MAX_NOTIFY_RESUME_PENDING) (pc_rq_count p + 1).

Definition notify_wake_worker_gen (thr_id fd gen : Z) (n : notify_ctx) : notify_ctx * Z :=
  if (thr_id <? 0) || (thr_id >=? nc_n_thrs n) || (fd <=? 0) then (n, - EINVAL)
  else if pc_rq_count (zget (nc_poll n) thr_id) >=? MAX_NOTIFY_RESUME_PENDING then (n, - ENOSPC)
  else (mod_poll thr_id (rq_push fd gen) n, 0).
Definition notify_wake_worker (thr_id fd : Z) (n : notify_ctx) : notify_ctx * Z := notify_wake_worker_gen thr_id fd 0 n.

(** The head of the ring taken under its lock. *)
Definition rq_pop (p : notify_poll_ctx) : option (Z * Z * notify_poll_ctx) :=
  if pc_rq_count p >? 0
  then Some (zget (pc_rq p) (pc_rq_head p), zget (pc_rq_gen p) (pc_rq_head p),
             p <| pc_rq_head ::= (fun h => (h + 1) mod MAX_NOTIFY_RESUME_PENDING) |> <| pc_rq_count ::= (fun k => k - 1) |>)
  else None.

(** Whether a popped wake is handed to the resume callback. *)
Definition wake_live (n : notify_ctx) (fd gen : Z) : bool :=
  if negb (gen =? 0) then
    match notify_priv_of_fd fd n with
    | Some (priv, g) => negb (priv =? 0) && (g =? gen)
    | None => false
    end
  else true.

(** The drain, for as many turns as the ring holds; [resume] is the callback. *)
Fixpoint notify_drain_resume (fuel : nat) (resume : Z → notify_ctx → notify_ctx) (thread : Z) (n : notify_ctx) : notify_ctx :=
  match fuel with
  | O => n
  | S fuel =>
      match rq_pop (zget (nc_poll n) thread) with
      | None => n
      | Some (fd, gen, p) =>
          let n := mod_poll thread (fun _ => p) n in
          if fd <? 0 then n
          else notify_drain_resume fuel resume thread (if wake_live n fd gen then resume fd n else n)
      end
  end.

(** ** The worker *)

(** The wake fd of a worker, [wfd] being the eventfd it created. *)
Definition notify_add_wake_fd (thread wfd : Z) (n : notify_ctx) : notify_ctx :=
  if wfd <? 0 then n
  else if pc_n_pfds (zget (nc_poll n) thread) <? MAX_NOTIFY_POLL_FDS then
    let '(n, rc) := notify_ep_ctl thread EPOLL_CTL_ADD wfd EPOLLIN n in
    if rc =? 0 then mod_poll thread (fun p => p <| pc_wake_fd := wfd |> <| pc_n_pfds ::= (fun k => k + 1) |>) n else n
  else n.

(** The dispatch of one event of a batch: [notify] is the callback, which may
    change the table; the delete after it is of the registration captured
    before. The priv destroyed, 0 when none is. *)
Definition notify_dispatch (fuel : nat) (resume : Z → notify_ctx → notify_ctx)
    (notify : Z → Z → Z → Z → notify_ctx → notify_ctx) (thread fd events : Z) (n : notify_ctx) : option (notify_ctx * Z) :=
  let type := notify_conv4mpoll_events events in
  let wfd := pc_wake_fd (zget (nc_poll n) thread) in
  if type =? 0 then Some (n, 0)
  else if (wfd >=? 0) && (fd =? wfd) then Some (notify_drain_resume fuel resume thread n, 0)
  else if bad_fd fd then Some (n, 0)
  else
    let ent := ent_at (nc_earr n) fd in
    if ne_fd ent <=? 0 then Some (n, 0)
    else
      let priv := ne_priv ent in
      let gen := ne_gen ent in
      let type := if has type NOTI_TYPE_OUT then Z.lor type NOTI_TYPE_IN else type in
      let n := notify fd type priv gen n in
      if has type (Z.lor NOTI_TYPE_HUP NOTI_TYPE_ERROR)
      then '(n, _, destroyed) ← notify_delete_ent_gen__ fd gen n; Some (n, destroyed)
      else Some (n, 0).
End operations.

(** A new context: [epfds t] is what epoll_create1 returned for shard [t]. *)
Definition notify_ctx_new (n_thrs : Z) (epfds : Z → Z) : option notify_ctx :=
  if (n_thrs <=? 0) || (n_thrs + 1 >? MAX_NOTIFY_THREADS) then None
  else if existsb (fun t => epfds t <? 0) (zseq (n_thrs + 1)) then None
  else
    Some (mk_notify_ctx ∅ 0 n_thrs n_thrs [] 0
      ((fun t => if t <? n_thrs + 1 then poll_ctx0 <| pc_epfd := epfds t |> else poll_ctx0) <$> zseq MAX_NOTIFY_THREADS) ∅).

(** The shift of the wake mask: [1u << t] is defined for a count below the
    width only. *)
Definition shl1 (t : Z) : option Z := if t <? 32 then Some (Z.shiftl 1 t) else None.

(** The wake of the shards of a mask: the wake fds written, no result when a
    shift is undefined. *)
Fixpoint wake_mask_from (mask : Z) (ts : list Z) (n : notify_ctx) : option (list Z) :=
  match ts with
  | [] => Some []
  | t :: ts =>
      b ← shl1 t;
      rest ← wake_mask_from mask ts n;
      let wfd := pc_wake_fd (zget (nc_poll n) t) in
      Some (if has mask b && (wfd >=? 0) then wfd :: rest else rest)
  end.
Definition notify_wake_mask (mask : Z) (n : notify_ctx) : option (list Z) :=
  wake_mask_from mask (zseq MAX_NOTIFY_THREADS) n.

(** ** The table and its counters *)

Definition registered (e : notify_ent) : bool := ne_fd e >? 0.
Definition on_shard (t : Z) (e : notify_ent) : bool := registered e && (ne_thr e =? t).
Definition paused_reg (e : notify_ent) : bool := registered e && ne_paused e.
Definition cnt (P : notify_ent → bool) (m : gmap Z notify_ent) : Z := map_fold (fun _ e k => Z.b2z (P e) + k) 0 m.

Lemma cnt_fresh P m fd e : m !! fd = None → cnt P (<[fd := e]> m) = Z.b2z (P e) + cnt P m.
Proof.
  intros H. unfold cnt. apply (map_fold_insert_L (fun _ e k => Z.b2z (P e) + k)); [|done]. intros. lia.
Qed.

Lemma cnt_set P m fd e :
  P ent0 = false → cnt P (<[fd := e]> m) = cnt P m - Z.b2z (P (ent_at m fd)) + Z.b2z (P e).
Proof.
  intros H0. unfold ent_at. destruct (m !! fd) as [x|] eqn:Hl; cbn.
  - rewrite <- (insert_id m fd x Hl) at 2. rewrite <- (insert_delete_eq m fd x), <- (insert_delete_eq m fd e).
    rewrite !cnt_fresh by apply lookup_delete_eq. lia.
  - rewrite cnt_fresh by done. rewrite H0. cbn. lia.
Qed.

Lemma ent_at_insert_eq m fd e : ent_at (<[fd := e]> m) fd = e.
Proof. unfold ent_at. by rewrite lookup_insert_eq. Qed.
Lemma ent_at_insert_ne m fd k e : k ≠ fd → ent_at (<[fd := e]> m) k = ent_at m k.
Proof. intros. unfold ent_at. by rewrite lookup_insert_ne. Qed.

(** A shard's counters and its instance. *)
Definition pfds (n : notify_ctx) (t : Z) : Z := pc_n_pfds (zget (nc_poll n) t).
Definition epfd (n : notify_ctx) (t : Z) : Z := pc_epfd (zget (nc_poll n) t).
Definition wake_fd (n : notify_ctx) (t : Z) : Z := pc_wake_fd (zget (nc_poll n) t).

(** What an entry must satisfy, given its fd and what the kernel holds for it. *)
Record ent_ok (n_thrs fd : Z) (e : notify_ent) (mask : Z → option Z) (wake : Z → Z) : Prop := {
  eo_fd : registered e = true → ne_fd e = fd ∧ bad_fd fd = false;
  eo_thr : registered e = true → 0 ≤ ne_thr e ≤ n_thrs;
  eo_idle : ne_paused e = true → registered e = true ∧ ne_events e = 0;
  eo_only : ∀ t, 0 ≤ t → is_Some (mask t) → (0 ≤ fd ∧ fd = wake t) ∨ on_shard t e = true
}.

(** [l]: the fds a re-arm will visit. *)
Record table_ok (l : list Z) (n : notify_ctx) : Prop := {
  to_thrs : 0 < nc_n_thrs n ≤ NOTIFY_MAX_RELAY_SHARDS;
  to_acc : nc_acc_thr n = nc_n_thrs n;
  to_len : zlen (nc_poll n) = MAX_NOTIFY_THREADS;
  to_epfd : ∀ t, 0 ≤ t ≤ nc_n_thrs n → 0 ≤ epfd n t;
  to_ent : ∀ fd, ent_ok (nc_n_thrs n) fd (ent_at (nc_earr n) fd) (fun t => nc_ep n !! (t, fd)) (wake_fd n);
  to_fds : nc_n_fds n = cnt registered (nc_earr n);
  to_pfds : ∀ t, 0 ≤ t ≤ nc_n_thrs n →
    pfds n t = cnt (on_shard t) (nc_earr n) + Z.b2z (wake_fd n t >=? 0) ∧ pfds n t ≤ MAX_NOTIFY_POLL_FDS;
  to_paused : nc_n_paused n = cnt paused_reg (nc_earr n);
  to_list : ∀ fd, ne_paused (ent_at (nc_earr n) fd) = true → fd ∈ l
}.

Definition notify_ok (n : notify_ctx) : Prop :=
  table_ok (nc_paused_fds n) n ∧ zlen (nc_paused_fds n) ≤ MAX_NOTIFY_PAUSED.

(** ** One entry changed *)

(** The shards keep everything but their counts. *)
Definition shards_kept (n n' : notify_ctx) : Prop :=
  nc_n_thrs n' = nc_n_thrs n ∧ nc_acc_thr n' = nc_acc_thr n ∧ zlen (nc_poll n') = zlen (nc_poll n) ∧
  (∀ t, epfd n' t = epfd n t) ∧ (∀ t, wake_fd n' t = wake_fd n t).

Lemma table_ok_set l l' n n' fd e' :
  table_ok l n → shards_kept n n' →
  let e := ent_at (nc_earr n) fd in
  nc_earr n' = <[fd := e']> (nc_earr n) →
  (∀ t k, k ≠ fd → nc_ep n' !! (t, k) = nc_ep n !! (t, k)) →
  ent_ok (nc_n_thrs n) fd e' (fun t => nc_ep n' !! (t, fd)) (wake_fd n) →
  nc_n_fds n' = nc_n_fds n - Z.b2z (registered e) + Z.b2z (registered e') →
  (∀ t, 0 ≤ t ≤ nc_n_thrs n →
     pfds n' t = pfds n t - Z.b2z (on_shard t e) + Z.b2z (on_shard t e') ∧ pfds n' t ≤ MAX_NOTIFY_POLL_FDS) →
  nc_n_paused n' = nc_n_paused n - Z.b2z (paused_reg e) + Z.b2z (paused_reg e') →
  (∀ k, k ∈ l → k = fd ∨ k ∈ l') → (ne_paused e' = true → fd ∈ l') →
  table_ok l' n'.
Proof.
  intros [H1 H2 H3 H4 H5 H6 H7 H8 H9] (Ht & Ha & Hl & He & Hw) e Hm Hep Hok Hf Hp Hpa Hin Hfd.
  split; rewrite ?Ht, ?Ha, ?Hl; try done.
  - intros t Hr. rewrite He. by apply H4.
  - intros k. destruct (decide (k = fd)) as [->|Hne].
    + rewrite Hm, ent_at_insert_eq. destruct Hok as [A B C E]. split; try done. intros t Ht2 Hs. rewrite Hw. by apply E.
    + rewrite Hm, ent_at_insert_ne by done. destruct (H5 k) as [A B C E].
      split; try done. intros t. rewrite Hep by done. rewrite Hw. apply E.
  - rewrite Hf, H6, Hm, cnt_set by done. done.
  - intros t Hr. destruct (Hp t Hr) as [Hp1 Hp2]. split; [|done]. destruct (H7 t Hr) as [H7a _].
    rewrite Hp1, H7a, Hm, Hw, cnt_set by done. subst e. lia.
  - rewrite Hpa, H8, Hm, cnt_set by done. done.
  - intros k. rewrite Hm. destruct (decide (k = fd)) as [->|Hne].
    + rewrite ent_at_insert_eq. apply Hfd.
    + rewrite ent_at_insert_ne by done. intros Hk. destruct (Hin k (H9 k Hk)) as [->|]; [done|assumption].
Qed.

Lemma zmod_field {A B} `{Inhabited A} (g : A → B) (f : A → A) l t u :
  (∀ x, g (f x) = g x) → g (zget (zmod l t f) u) = g (zget l u).
Proof.
  intros Hg. unfold zget, zmod, zset, zget. rewrite !list_lookup_total_alt, list_lookup_insert.
  case_decide as Hd; [|done]. destruct Hd as [-> Hlt]. cbn. by rewrite Hg.
Qed.

Lemma zmod_count (l : list notify_poll_ctx) t u (d : Z) :
  0 ≤ t < zlen l → 0 ≤ u →
  pc_n_pfds (zget (zmod l t (fun p => p <| pc_n_pfds ::= (fun k => k + d) |>)) u) =
  pc_n_pfds (zget l u) + (if u =? t then d else 0).
Proof.
  intros Ht Hu. unfold zmod. destruct (u =? t) eqn:E; zbool.
  - subst. rewrite zget_zset_eq by done. done.
  - rewrite zget_zset_ne by lia. lia.
Qed.

Definition count_shard (t d : Z) (n : notify_ctx) : notify_ctx :=
  mod_poll t (fun p => p <| pc_n_pfds ::= (fun k => k + d) |>) n.

Lemma count_shard_kept t d n : shards_kept n (count_shard t d n).
Proof.
  split_and!; cbn; try done.
  - unfold zmod. by rewrite zlen_zset.
  - intros u. apply (zmod_field pc_epfd). done.
  - intros u. apply (zmod_field pc_wake_fd). done.
Qed.

Section table.
Context (epoll_ctl : ep_op → Z → Z → Z → Z).
(** What the kernel documents: an error number is positive. *)
Context (epoll_errno : ∀ op t fd ev, 0 ≤ epoll_ctl op t fd ev).

Lemma ep_add t fd ev n n' rc :
  0 ≤ epfd n t → notify_ep_ctl epoll_ctl t EPOLL_CTL_ADD fd ev n = (n', rc) →
  (rc < 0 ∧ n' = n) ∨ (rc = 0 ∧ nc_ep n !! (t, fd) = None ∧ n' = n <| nc_ep ::= <[(t, fd) := ev]> |>).
Proof using epoll_errno.
  unfold epfd, notify_ep_ctl. intros Hp. rewrite (proj2 (Z.ltb_ge _ _) Hp).
  destruct (nc_ep n !! (t, fd)) as [m|]; cbn.
  - intros He. simplify_eq. left. by vm_compute.
  - pose proof (epoll_errno EPOLL_CTL_ADD t fd ev). case_test; zbool; intros He; simplify_eq; [left; split; [lia|done]|by right].
Qed.

(** A change of mask goes through or leaves the interest list as it was. *)
Lemma ep_mod t fd ev n n' rc :
  notify_ep_ctl epoll_ctl t EPOLL_CTL_MOD fd ev n = (n', rc) →
  ∃ m, n' = n <| nc_ep := m |> ∧ (m = nc_ep n ∨ ∃ v, m = <[(t, fd) := v]> (nc_ep n)) ∧ (rc ≠ 0 → n' = n).
Proof.
  unfold notify_ep_ctl. repeat case_test; intros; simplify_eq; try (exists (nc_ep n'); split_and!; [by destruct n'|by left|done]).
  eexists. split_and!; [reflexivity|right; by eauto|done].
Qed.

Lemma ep_del t fd ev n :
  0 ≤ epfd n t → fst (notify_ep_ctl epoll_ctl t EPOLL_CTL_DEL fd ev n) = n <| nc_ep ::= delete (t, fd) |>.
Proof.
  unfold epfd, notify_ep_ctl. intros Hp. rewrite (proj2 (Z.ltb_ge _ _) Hp). destruct (nc_ep n !! (t, fd)) as [m|] eqn:Hm; [done|].
  cbn. rewrite delete_id by done. by destruct n.
Qed.

(** A change of one entry that stays registered on its shard. *)
Definition same_reg (n_thrs fd : Z) (e e' : notify_ent) : Prop :=
  registered e = true ∧ ne_fd e' = ne_fd e ∧ ne_thr e' = ne_thr e ∧ (ne_paused e' = true → ne_events e' = 0).

Lemma table_ok_change l l' n n' fd e' :
  table_ok l n → shards_kept n n' →
  let e := ent_at (nc_earr n) fd in
  same_reg (nc_n_thrs n) fd e e' →
  nc_earr n' = <[fd := e']> (nc_earr n) →
  (nc_ep n' = nc_ep n ∨ ∃ m, nc_ep n' = <[(ne_thr e, fd) := m]> (nc_ep n)) →
  nc_n_fds n' = nc_n_fds n → (∀ t, pfds n' t = pfds n t) →
  nc_n_paused n' = nc_n_paused n - Z.b2z (ne_paused e) + Z.b2z (ne_paused e') →
  (∀ k, k ∈ l → k = fd ∨ k ∈ l') → (ne_paused e' = true → fd ∈ l') →
  table_ok l' n'.
Proof.
  intros Ht Hk e (Hr & Hf & Hth & Hpe) Hm Hep Hnf Hpf Hpa Hin Hfd.
  assert (Hr' : registered e' = true) by (unfold registered in *; by rewrite Hf).
  assert (Hsh : ∀ t, on_shard t e' = on_shard t e) by (intros t; unfold on_shard; by rewrite Hr, Hr', Hth).
  destruct (to_ent l n Ht fd) as [A B C E]. fold e in A, B, C, E.
  apply (table_ok_set l l' n n' fd e' Ht Hk Hm); try done.
  - intros t k Hne. destruct Hep as [-> |[m ->]]; [done|]. rewrite lookup_insert_ne by congruence. done.
  - split.
    + intros _. rewrite Hf. by apply A.
    + intros _. rewrite Hth. by apply B.
    + intros Hp. split; [done|by apply Hpe].
    + intros t. rewrite Hsh. destruct Hep as [-> |[m ->]]; [apply E|].
      destruct (decide (t = ne_thr e)) as [->|Hne]; [|rewrite lookup_insert_ne by congruence; apply E].
      intros _ _. right. unfold on_shard. by rewrite Hr, Z.eqb_refl.
  - fold e. rewrite Hr, Hr'. cbn. lia.
  - intros t Htr. rewrite Hsh, Hpf. fold e. split; [lia|]. by destruct (to_pfds l n Ht t Htr).
  - unfold paused_reg. fold e. rewrite Hr, Hr'. done.
Qed.

Lemma kept_refl n n' :
  nc_n_thrs n' = nc_n_thrs n → nc_acc_thr n' = nc_acc_thr n → nc_poll n' = nc_poll n → shards_kept n n'.
Proof. intros H1 H2 H3. unfold shards_kept, epfd, wake_fd. rewrite H1, H2, H3. by split_and!. Qed.

Lemma registered_epfd l n fd :
  table_ok l n → registered (ent_at (nc_earr n) fd) = true → 0 ≤ epfd n (ne_thr (ent_at (nc_earr n) fd)).
Proof. intros Ht Hr. destruct (to_ent l n Ht fd) as [A B C E]. apply (to_epfd l n Ht). by apply B. Qed.

Lemma add_again_ok l fd events priv n n' rc :
  table_ok l n → registered (ent_at (nc_earr n) fd) = true →
  notify_add_again epoll_ctl fd events priv n = (n', rc) →
  table_ok l n' ∧ nc_paused_fds n' = nc_paused_fds n.
Proof.
  intros Ht Hr. pose proof (eo_idle _ _ _ _ _ (to_ent l n Ht fd)) as Hidle.
  unfold notify_add_again. case_test; [|by intros; simplify_eq]. case_test.
  - intros He. simplify_eq. split; [|done].
    eapply (table_ok_change l l n _ fd _ Ht); [by apply kept_refl| |reflexivity|by left|done|done| |by right|].
    + split_and!; try done. cbn. intros _. by apply Hidle.
    + cbn. lia.
    + intros _. by apply (to_list l n Ht).
  - case_test; [|by intros; simplify_eq]. destruct (notify_ep_ctl _ _ _ _ _ _) as [n1 rc1] eqn:Hc.
    destruct (ep_mod _ _ _ _ _ _ Hc) as (m & -> & Hm & Hn). case_test; intros He; simplify_eq; zbool.
    { rewrite Hn by lia. done. }
    split; [|done]. eapply (table_ok_change l l n _ fd _ Ht); [by apply kept_refl| |reflexivity|exact Hm|done|done| |by right|].
    + split_and!; try done. cbn. congruence.
    + cbn. lia.
    + cbn. congruence.
Qed.

Lemma add_shard_range l fd pin want n :
  table_ok l n → 0 < fd → want ≤ nc_n_thrs n → 0 ≤ notify_add_shard fd pin want n ≤ nc_n_thrs n.
Proof.
  intros Ht Hf Hw. unfold notify_add_shard. pose proof (to_thrs l n Ht). repeat case_test; zbool; [lia| |].
  - apply (eo_thr _ _ _ _ _ (to_ent l n Ht pin)). unfold registered. by rewrite Z.gtb_ltb, (proj2 (Z.ltb_lt _ _)).
  - rewrite Z.rem_mod_nonneg by lia. pose proof (Z.mod_pos_bound fd (nc_n_thrs n)). lia.
Qed.

Lemma add_ok l fd type priv gen pin want n n' rc :
  table_ok l n → want ≤ nc_n_thrs n → __notify_add_ent epoll_ctl fd type priv gen pin want n = (n', rc) →
  table_ok l n' ∧ nc_paused_fds n' = nc_paused_fds n.
Proof using epoll_errno.
  intros Ht Hw. unfold __notify_add_ent. case_test; [by intros; simplify_eq|]. case_test; [by intros; simplify_eq|].
  case_test; [by intros; simplify_eq|]. case_test; [by apply add_again_ok|]. rename E into Hfd, E2 into Hreg.
  set (ts := notify_add_shard fd pin want n). set (events := notify_conv2poll_events type) in *.
  assert (Hfd0 : 0 < fd) by (unfold bad_fd in Hfd; zbool; lia).
  pose proof (add_shard_range l fd pin want n Ht Hfd0 Hw) as Hts. fold ts in Hts.
  case_test; [by intros; simplify_eq|]. rename E into Hroom. zbool.
  destruct (notify_ep_ctl epoll_ctl ts EPOLL_CTL_ADD fd events n) as [n1 rc1] eqn:Hctl.
  destruct (ep_add ts fd events n n1 rc1 (to_epfd l n Ht ts Hts) Hctl) as [[Hrc ->]|(-> & Hnone & ->)].
  { rewrite (proj2 (Z.ltb_lt _ _)) by done. by intros; simplify_eq. }
  cbn [Z.ltb Z.compare]. intros He. simplify_eq. split; [|done].
  destruct (to_ent l n Ht fd) as [A B C E]. set (e := ent_at (nc_earr n) fd) in *.
  assert (Hnr : registered e = false) by (unfold registered; rewrite Z.gtb_ltb; by apply Z.ltb_ge).
  assert (Hnp : ne_paused e = false) by (apply not_true_is_false; intros Hp; destruct (C Hp); congruence).
  eapply (table_ok_set l l n _ fd _ Ht).
  - exact (count_shard_kept ts 1 _).
  - reflexivity.
  - intros t k Hne. cbn. rewrite lookup_insert_ne by congruence. done.
  - split; cbn.
    + intros _. done.
    + intros _. done.
    + congruence.
    + intros t. destruct (decide (t = ts)) as [->|Hne].
      * intros _ _. right. unfold on_shard, registered. cbn. rewrite Z.gtb_ltb, (proj2 (Z.ltb_lt _ _)) by done. by rewrite Z.eqb_refl.
      * rewrite lookup_insert_ne by congruence. intros Ht0 Hs. destruct (E t Ht0 Hs) as [|Hon]; [by left|].
        unfold on_shard in Hon. by rewrite Hnr in Hon.
  - cbn. fold e. rewrite Hnr. unfold registered. cbn. rewrite Z.gtb_ltb, (proj2 (Z.ltb_lt _ _)) by done. cbn. lia.
  - intros t Htr. unfold pfds at 1 3. cbn. rewrite (zmod_count _ ts t 1) by (rewrite ?(to_len l n Ht) in *; pose proof (to_thrs l n Ht); unfold MAX_NOTIFY_THREADS, NOTIFY_MAX_RELAY_SHARDS in *; lia).
    fold e. unfold on_shard. rewrite Hnr. unfold registered. cbn. rewrite Z.gtb_ltb, (proj2 (Z.ltb_lt _ _)) by done. cbn.
    destruct (to_pfds l n Ht t Htr) as [_ Hmax]. unfold pfds in *. rewrite (Z.eqb_sym ts t). destruct (t =? ts) eqn:Ets; zbool; cbn; [subst t|]; lia.
  - cbn. fold e. unfold paused_reg. rewrite Hnp, !andb_false_r. cbn. lia.
  - by right.
  - done.
Qed.

(** The entry a removal leaves behind. *)
Definition gone (e : notify_ent) : notify_ent :=
  mk_notify_ent (-1) 0 0 0 0 (ne_gen e) (ne_evict e) false (ne_paused_events e).

Lemma forget_pause_eq fd n :
  let e := ent_at (nc_earr n) fd in
  nc_earr (notify_forget_pause fd n) = <[fd := e <| ne_paused := false |>]> (nc_earr n) ∨
    nc_earr (notify_forget_pause fd n) = nc_earr n ∧ ne_paused e = false.
Proof. cbn. unfold notify_forget_pause. case_test; [by left|by right]. Qed.

Lemma drop_eq l fd n :
  table_ok l n → let e := ent_at (nc_earr n) fd in registered e = true →
  notify_drop epoll_ctl fd n =
    count_shard (ne_thr e) (-1)
      (n <| nc_earr ::= <[fd := gone e]> |> <| nc_n_paused ::= (fun k => k - Z.b2z (ne_paused e)) |>
         <| nc_ep ::= delete (ne_thr e, fd) |> <| nc_n_fds ::= (fun k => k - 1) |>).
Proof.
  intros Ht e Hr. pose proof (registered_epfd l n fd Ht Hr) as Hep. fold e in Hep.
  unfold notify_drop. fold e. unfold notify_forget_pause, set_ent. cbn. rewrite ent_at_insert_eq. cbn.
  case_test; (rewrite ep_del; [|exact Hep]); unfold count_shard, mod_poll, gone; cbn.
  - by rewrite insert_insert_eq.
  - by rewrite Z.sub_0_r.
Qed.

Lemma drop_ok l fd n :
  table_ok l n → registered (ent_at (nc_earr n) fd) = true → table_ok l (notify_drop epoll_ctl fd n).
Proof.
  intros Ht Hr. rewrite (drop_eq l fd n Ht Hr). set (e := ent_at (nc_earr n) fd).
  destruct (to_ent l n Ht fd) as [A B C E]. fold e in A, B, C, E, Hr. specialize (B Hr).
  eapply (table_ok_set l l n _ fd (gone e) Ht).
  - exact (count_shard_kept _ (-1) _).
  - reflexivity.
  - intros t k Hne. cbn. rewrite lookup_delete_ne by congruence. done.
  - split; cbn; try done. intros t Ht0 Hs. destruct (decide (t = ne_thr e)) as [->|Hne].
    + rewrite lookup_delete_eq in Hs. by destruct Hs.
    + rewrite lookup_delete_ne in Hs by congruence. destruct (E t Ht0 Hs) as [|Hon]; [by left|].
      unfold on_shard in Hon. zbool. congruence.
  - cbn. fold e. rewrite Hr. cbn. lia.
  - intros t Htr. unfold pfds at 1 3. cbn. rewrite (zmod_count _ (ne_thr e) t (-1)) by (rewrite ?(to_len l n Ht) in *; pose proof (to_thrs l n Ht); unfold MAX_NOTIFY_THREADS, NOTIFY_MAX_RELAY_SHARDS in *; lia).
    fold e. destruct (to_pfds l n Ht t Htr) as [_ Hmax]. unfold pfds, on_shard in *. rewrite Hr, (Z.eqb_sym (ne_thr e) t). cbn.
    destruct (t =? ne_thr e); cbn; lia.
  - cbn. fold e. unfold paused_reg. rewrite Hr. cbn. lia.
  - by right.
  - done.
Qed.

Lemma disarm_ok l fd n n' rc :
  table_ok l n → notify_disarm_ent epoll_ctl fd n = (n', rc) → table_ok l n' ∧ nc_paused_fds n' = nc_paused_fds n.
Proof using epoll_errno.
  intros Ht. unfold notify_disarm_ent. case_test; [by intros; simplify_eq|]. case_test; [by intros; simplify_eq|].
  case_test; [by intros; simplify_eq|]. set (e := ent_at (nc_earr n) fd) in *.
  assert (Hr : registered e = true) by (unfold registered; zbool; rewrite Z.gtb_ltb; by apply Z.ltb_lt).
  pose proof (eo_idle _ _ _ _ _ (to_ent l n Ht fd)) as Hidle. fold e in Hidle.
  unfold notify_forget_pause, set_ent. cbn. rewrite ent_at_insert_eq. cbn.
  destruct (ne_paused e) eqn:Hp.
  - cbn. rewrite ent_at_insert_eq. cbn. destruct (Hidle eq_refl) as [_ Hev]. rewrite Hev. cbn. intros He. simplify_eq. cbn. split; [|done].
    eapply (table_ok_change l l n _ fd _ Ht); [by apply kept_refl| |cbn; by rewrite insert_insert_eq|by left|done|done| |by right|done].
    + split_and!; done.
    + cbn. fold e. rewrite Hp. cbn. lia.
  - cbn. rewrite ent_at_insert_eq. cbn. destruct (ne_events e =? 0) eqn:Hev; cbn.
    + intros He. simplify_eq. split; [|done].
      eapply (table_ok_change l l n _ fd _ Ht); [by apply kept_refl| |reflexivity|by left|done|done| |by right|].
      * split_and!; done.
      * cbn. fold e. rewrite Hp. cbn. lia.
      * cbn. congruence.
    + destruct (notify_ep_ctl _ _ _ _ _ _) as [n1 rc1] eqn:Hc. destruct (ep_mod _ _ _ _ _ _ Hc) as (m & -> & Hm & _). cbn. intros He. simplify_eq. cbn. split; [|done].
      eapply (table_ok_change l l n _ fd _ Ht); [by apply kept_refl| |cbn; by rewrite insert_insert_eq|exact Hm|done|done| |by right|].
      * split_and!; done.
      * cbn. fold e. rewrite Hp. cbn. lia.
      * cbn. congruence.
Qed.

Lemma table_ok_list l l' n n' :
  table_ok l n → n' = n <| nc_paused_fds := nc_paused_fds n' |> →
  (∀ fd, ne_paused (ent_at (nc_earr n) fd) = true → fd ∈ l → fd ∈ l') → table_ok l' n'.
Proof.
  intros [H1 H2 H3 H4 H5 H6 H7 H8 H9] -> Hl. split; cbn; try done. intros fd Hp. by apply Hl, H9.
Qed.

Lemma pause_locked_ok fd n n' r :
  notify_ok n → notify_pause_locked epoll_ctl fd n = (n', r) → notify_ok n'.
Proof using epoll_errno.
  intros [Ht Hlen]. unfold notify_pause_locked. set (e := ent_at (nc_earr n) fd).
  case_test; [by intros; simplify_eq|]. case_test; [by intros; simplify_eq|].
  assert (Hr : registered e = true) by (unfold registered; zbool; rewrite Z.gtb_ltb; by apply Z.ltb_lt).
  set (n1 := if zlen (nc_paused_fds n) >=? MAX_NOTIFY_PAUSED then _ else n).
  assert (Hn1 : table_ok (nc_paused_fds n1) n1 ∧ zlen (nc_paused_fds n1) ≤ MAX_NOTIFY_PAUSED ∧
                nc_earr n1 = nc_earr n).
  { subst n1. case_test; [|done]. split_and!; [|cbn|done].
    - eapply (table_ok_list _ _ n _ Ht); [reflexivity|]. cbn. intros k Hp Hk. apply list_elem_of_In, filter_In.
      apply list_elem_of_In in Hk. split; [done|]. unfold still_paused. destruct (eo_idle _ _ _ _ _ (to_ent _ _ Ht k) Hp) as [Hk2 _].
      unfold registered in Hk2. by rewrite Hk2, Hp.
    - pose proof (List.filter_length_le (still_paused n) (nc_paused_fds n)). unfold zlen in *. lia. }
  clearbody n1. destruct Hn1 as (Ht1 & Hlen1 & He1). case_test; [by intros; simplify_eq|]. intros He. simplify_eq. zbool.
  assert (Hr1 : registered (ent_at (nc_earr n1) fd) = true) by by rewrite He1.
  cbn. destruct (notify_ep_ctl _ _ _ _ _ _) as [n2 rc2] eqn:Hc. destruct (ep_mod _ _ _ _ _ _ Hc) as (m & -> & Hm & _). cbn. split; cbn; [|rewrite zlen_app; change (zlen [fd]) with 1; lia].
  eapply (table_ok_change _ _ n1 _ fd _ Ht1); [by apply kept_refl| |reflexivity|rewrite He1; exact Hm|done|done| | |]; cbn; rewrite ?He1; fold e.
  - split_and!; done.
  - rewrite E0. cbn. lia.
  - intros k Hk. right. set_solver.
  - set_solver.
Qed.

(** An entry after the re-arm. *)
Definition rearmed (e : notify_ent) : notify_ent :=
  if paused_reg e then e <| ne_events := ne_paused_events e |> <| ne_paused := false |> else e.

Lemma rearmed_idem e : rearmed (rearmed e) = rearmed e.
Proof. unfold rearmed, paused_reg. destruct (registered e && ne_paused e) eqn:H; cbn; [by rewrite andb_false_r|by rewrite H]. Qed.

Lemma rearm_one_ok l fd n shards k n' shards' k' :
  table_ok (fd :: l) n → notify_rearm_one epoll_ctl (n, shards, k) fd = (n', shards', k') →
  table_ok l n' ∧ nc_paused_fds n' = nc_paused_fds n ∧ k' = k + (nc_n_paused n - nc_n_paused n') ∧
  (∀ x, ent_at (nc_earr n') x = if decide (x = fd) then rearmed (ent_at (nc_earr n) x) else ent_at (nc_earr n) x).
Proof using epoll_errno.
  intros Ht. unfold notify_rearm_one. set (e := ent_at (nc_earr n) fd).
  pose proof (to_ent _ _ Ht fd) as [A B C E]. fold e in A, B, C, E.
  case_test; intros He; simplify_eq.
  - assert (Hnp : paused_reg e = false).
    { unfold paused_reg, registered. apply orb_true_iff in E0 as [H|H]; zbool; [rewrite Z.gtb_ltb, (proj2 (Z.ltb_ge _ _)) by done; done|].
      by rewrite H, andb_false_r. }
    split_and!; [|done|lia|].
    + eapply table_ok_list; [exact Ht|by destruct n'|]. intros x Hx Hin. apply elem_of_cons in Hin as [->|]; [|done].
      fold e in Hx. unfold paused_reg in Hnp. destruct (C Hx) as [Hr _]. by rewrite Hr, Hx in Hnp.
    + intros x. case_decide; [|done]. subst. fold e. unfold rearmed. by rewrite Hnp.
  - apply orb_false_iff in E0 as [Hf Hp]. apply negb_false_iff in Hp.
    assert (Hr : registered e = true) by (unfold registered; zbool; rewrite Z.gtb_ltb; by apply Z.ltb_lt).
    destruct (A Hr) as [Hfd _]. rewrite Hfd. destruct (notify_ep_ctl _ _ _ _ _ _) as [n1 rc1] eqn:Hc. destruct (ep_mod _ _ _ _ _ _ Hc) as (m & -> & Hm & _).
    cbn. split_and!; [|done|lia|].
    + eapply (table_ok_change _ _ n _ fd _ Ht); [by apply kept_refl| |reflexivity|exact Hm|done|done| | |]; cbn; fold e.
      * split_and!; done.
      * rewrite Hp. cbn. lia.
      * intros x Hx. by apply elem_of_cons in Hx.
      * done.
    + intros x. case_decide as Hd; [subst x; rewrite ent_at_insert_eq|by rewrite ent_at_insert_ne].
      unfold rearmed, paused_reg. fold e. by rewrite Hr, Hp.
Qed.

Lemma rearm_fold_ok l n shards k n' shards' k' :
  table_ok l n → foldl (notify_rearm_one epoll_ctl) (n, shards, k) l = (n', shards', k') →
  table_ok [] n' ∧ k' = k + (nc_n_paused n - nc_n_paused n') ∧
  (∀ x, ent_at (nc_earr n') x = rearmed (ent_at (nc_earr n) x)).
Proof using epoll_errno.
  revert n shards k. induction l as [|fd l IH]; intros n shards k Ht; cbn [foldl].
  - intros He. simplify_eq. split_and!; [done|lia|]. intros x. unfold rearmed, paused_reg.
    destruct (ne_paused (ent_at (nc_earr n') x)) eqn:Hp; [|by rewrite andb_false_r].
    pose proof (to_list _ _ Ht x Hp) as Hx. by apply elem_of_nil in Hx.
  - destruct (notify_rearm_one epoll_ctl (n, shards, k) fd) as [[n1 s1] k1] eqn:H1.
    destruct (rearm_one_ok l fd n shards k n1 s1 k1 Ht H1) as (Ht1 & _ & Hk1 & Hx1). intros He.
    destruct (IH n1 s1 k1 Ht1 He) as (Ht2 & Hk2 & Hx2). split_and!; [done|lia|].
    intros x. rewrite Hx2, Hx1. case_decide; [apply rearmed_idem|done].
Qed.

Lemma cnt_zero P m : (∀ fd, P (ent_at m fd) = false) → cnt P m = 0.
Proof.
  intros HP. unfold cnt. assert (Hm : ∀ fd e, m !! fd = Some e → P e = false).
  { intros fd e He. specialize (HP fd). unfold ent_at in HP. by rewrite He in HP. }
  revert Hm. apply (map_fold_weak_ind (fun k m => (∀ fd e, m !! fd = Some e → P e = false) → k = 0)); [done|].
  intros fd e m' k Hn IH Hm. rewrite (Hm fd e) by apply lookup_insert_eq. rewrite IH; [done|].
  intros x y Hx. apply (Hm x y). rewrite lookup_insert_ne; [done|]. congruence.
Qed.

Lemma rearm_locked_ok n n' shards k :
  notify_ok n → notify_rearm_locked epoll_ctl n = (n', shards, k) →
  notify_ok n' ∧ nc_n_paused n' = 0 ∧ k = nc_n_paused n ∧
  (∀ x, ent_at (nc_earr n') x = rearmed (ent_at (nc_earr n) x)).
Proof using epoll_errno.
  intros [Ht Hlen]. unfold notify_rearm_locked.
  destruct (foldl (notify_rearm_one epoll_ctl) (n, [], 0) (nc_paused_fds n)) as [[n1 s1] k1] eqn:Hf.
  destruct (rearm_fold_ok _ _ _ _ _ _ _ Ht Hf) as (Ht1 & Hk & Hx). intros He. simplify_eq.
  assert (H0 : nc_n_paused n1 = 0).
  { rewrite (to_paused _ _ Ht1). apply cnt_zero. intros fd. unfold paused_reg.
    destruct (ne_paused (ent_at (nc_earr n1) fd)) eqn:Hp; [|by rewrite andb_false_r].
    pose proof (to_list _ _ Ht1 fd Hp) as Hin. by apply elem_of_nil in Hin. }
  split_and!; [split; cbn; [|by vm_compute]|done|lia|done].
  eapply (table_ok_list _ _ n1 _ Ht1); [reflexivity|done].
Qed.

Lemma poll_ok n f t :
  notify_ok n → (∀ p, pc_n_pfds (f p) = pc_n_pfds p) → (∀ p, pc_epfd (f p) = pc_epfd p) → (∀ p, pc_wake_fd (f p) = pc_wake_fd p) →
  notify_ok (mod_poll t f n).
Proof.
  intros [[H1 H2 H3 H4 H5 H6 H7 H8 H9] Hl] Hc He Hw.
  assert (Hpf : ∀ u, pfds (mod_poll t f n) u = pfds n u) by (intros u; by apply (zmod_field pc_n_pfds)).
  assert (Hef : ∀ u, epfd (mod_poll t f n) u = epfd n u) by (intros u; by apply (zmod_field pc_epfd)).
  assert (Hwf : ∀ u, wake_fd (mod_poll t f n) u = wake_fd n u) by (intros u; by apply (zmod_field pc_wake_fd)).
  split; [|done]. split; try done.
  - cbn. unfold zmod. by rewrite zlen_zset.
  - intros u Hu. rewrite Hef. by apply H4.
  - intros fd. destruct (H5 fd) as [A B C E]. split; try done. intros u. rewrite Hwf. apply E.
  - intros u Hu. rewrite Hpf, Hwf. by apply H7.
Qed.

Lemma add_wake_fd_ok t wfd n :
  notify_ok n → 0 ≤ t ≤ nc_n_thrs n → wake_fd n t < 0 → notify_ok (notify_add_wake_fd epoll_ctl t wfd n).
Proof using epoll_errno.
  intros [Ht Hl] Hr Hw. unfold notify_add_wake_fd. case_test; [done|]. case_test; [|done]. zbool.
  destruct (notify_ep_ctl epoll_ctl t EPOLL_CTL_ADD wfd EPOLLIN n) as [n1 rc] eqn:Hctl.
  destruct (ep_add t wfd EPOLLIN n n1 rc (to_epfd _ n Ht t Hr) Hctl) as [[Hrc ->]|(-> & Hnone & ->)].
  { rewrite (proj2 (Z.eqb_neq _ _)) by lia. done. }
  cbn [Z.eqb]. destruct Ht as [H1 H2 H3 H4 H5 H6 H7 H8 H9].
  assert (Htr : 0 ≤ t < zlen (nc_poll n)) by (rewrite H3; unfold MAX_NOTIFY_THREADS, NOTIFY_MAX_RELAY_SHARDS in *; lia).
  set (f := fun p : notify_poll_ctx => _). split; [|done]. split; cbn; try done.
  - unfold zmod. by rewrite zlen_zset.
  - intros u Hu. unfold epfd. cbn. rewrite (zmod_field pc_epfd) by done. by apply H4.
  - intros fd. destruct (H5 fd) as [A B C E1].
    split; try done. intros u Hu0 Hs. unfold wake_fd. cbn. destruct (decide (u = t)) as [->|Hne].
    + unfold zmod. rewrite zget_zset_eq by done. cbn. destruct (decide (fd = wfd)) as [->|Hnf]; [by left|].
      rewrite lookup_insert_ne in Hs by congruence. destruct (E1 t Hu0 Hs) as [[Hx ->]|]; [lia|by right].
    + rewrite lookup_insert_ne in Hs by congruence. unfold zmod. rewrite zget_zset_ne by lia. by apply E1.
  - intros u Hu. destruct (H7 u Hu) as [Ha Hb]. unfold pfds, wake_fd in *. cbn. unfold zmod. destruct (decide (u = t)) as [->|Hne].
    + rewrite zget_zset_eq by done. cbn. rewrite Z.geb_leb in Ha |- *.
      rewrite (proj2 (Z.leb_gt _ _)) in Ha by done. rewrite (proj2 (Z.leb_le _ _)) by done. cbn in *. lia.
    + rewrite zget_zset_ne by lia. done.
Qed.
End table.

(** ** The resume ring as a queue *)

Record ring_ok (p : notify_poll_ctx) : Prop := {
  rk_rq : zlen (pc_rq p) = MAX_NOTIFY_RESUME_PENDING;
  rk_gen : zlen (pc_rq_gen p) = MAX_NOTIFY_RESUME_PENDING;
  rk_head : 0 ≤ pc_rq_head p < MAX_NOTIFY_RESUME_PENDING;
  rk_count : 0 ≤ pc_rq_count p ≤ MAX_NOTIFY_RESUME_PENDING;
  rk_tail : pc_rq_tail p = (pc_rq_head p + pc_rq_count p) mod MAX_NOTIFY_RESUME_PENDING
}.

(** The wakes the ring holds, oldest first. *)
Definition rq_at (p : notify_poll_ctx) (i : Z) : Z * Z :=
  let s := (pc_rq_head p + i) mod MAX_NOTIFY_RESUME_PENDING in (zget (pc_rq p) s, zget (pc_rq_gen p) s).
Definition rq_list (p : notify_poll_ctx) : list (Z * Z) := rq_at p <$> zseq (pc_rq_count p).

Lemma mod_apart h i j n : 0 < n → 0 ≤ i < j → j < i + n → (h + i) mod n ≠ (h + j) mod n.
Proof.
  intros Hn Hij Hj He. assert (Hz : ((h + j) - (h + i)) mod n = 0) by (rewrite Zminus_mod, He, Z.sub_diag; by apply Z.mod_0_l; lia).
  replace (h + j - (h + i)) with (j - i) in Hz by lia. rewrite Z.mod_small in Hz by lia. lia.
Qed.

Lemma rq_push_ok fd gen p :
  ring_ok p → pc_rq_count p < MAX_NOTIFY_RESUME_PENDING →
  ring_ok (rq_push fd gen p) ∧ rq_list (rq_push fd gen p) = rq_list p ++ [(fd, gen)].
Proof.
  intros [H1 H2 H3 H4 H5] Hc. unfold MAX_NOTIFY_RESUME_PENDING in *.
  assert (Htl : 0 ≤ pc_rq_tail p < 4096) by (rewrite H5; apply Z.mod_pos_bound; lia).
  split; [split; cbn; rewrite ?zlen_zset; try done; [unfold MAX_NOTIFY_RESUME_PENDING; lia|]|].
  - rewrite H5. unfold MAX_NOTIFY_RESUME_PENDING. rewrite Z.add_mod_idemp_l by lia. f_equal. lia.
  - unfold rq_list. cbn [pc_rq_count rq_push]. rewrite zseq_snoc by lia. rewrite fmap_app. f_equal.
    + apply list_fmap_ext. intros k i Hk. apply list_elem_of_lookup_2 in Hk. apply zseq_in in Hk.
      unfold rq_at. cbn. unfold MAX_NOTIFY_RESUME_PENDING in *.
      pose proof (Z.mod_pos_bound (pc_rq_head p + i) 4096 ltac:(lia)).
      assert (pc_rq_tail p ≠ (pc_rq_head p + i) mod 4096). { rewrite H5. apply not_eq_sym, mod_apart; lia. }
      rewrite !zget_zset_ne by lia. done.
    + cbn. unfold rq_at. cbn. unfold MAX_NOTIFY_RESUME_PENDING in *. rewrite <- H5. rewrite !zget_zset_eq by lia. done.
Qed.

Lemma rq_pop_ok p :
  ring_ok p →
  match rq_pop p with
  | None => rq_list p = []
  | Some (fd, gen, p') => ring_ok p' ∧ rq_list p = (fd, gen) :: rq_list p'
  end.
Proof.
  intros [H1 H2 H3 H4 H5]. unfold rq_pop. rewrite Z.gtb_ltb. destruct (0 <? pc_rq_count p) eqn:E; zbool.
  - split; [split; cbn; try done|].
    + apply Z.mod_pos_bound. by vm_compute.
    + unfold MAX_NOTIFY_RESUME_PENDING in *. lia.
    + rewrite H5. rewrite Z.add_mod_idemp_l by by vm_compute. f_equal. lia.
    + unfold rq_list. cbn [pc_rq_count field_set]. rewrite zseq_cons by done. cbn. f_equal.
      * unfold rq_at. rewrite Z.add_0_r, Z.mod_small by done. done.
      * rewrite <- list_fmap_compose. apply list_fmap_ext. intros k i Hk. cbn. unfold rq_at. cbn.
        rewrite Z.add_mod_idemp_l by by vm_compute. do 2 f_equal; f_equal; lia.
  - unfold rq_list. assert (pc_rq_count p = 0) as -> by lia. done.
Qed.

(** ** Every run of the notifier *)

Section reach.
Context (epoll_ctl : ep_op → Z → Z → Z → Z).
Context (epoll_errno : ∀ op t fd ev, 0 ≤ epoll_ctl op t fd ev).

(** One critical section. *)
Inductive notify_call (n : notify_ctx) : notify_ctx → Prop :=
| nk_add fd type priv gen pin n' rc :
    notify_add_ent_pinned epoll_ctl fd type priv gen pin n = (n', rc) → notify_call n n'
| nk_listen fd type priv gen n' rc :
    notify_add_ent_listener epoll_ctl fd type priv gen n = (n', rc) → notify_call n n'
| nk_delete fd gen chk n' rc priv :
    __notify_delete_ent epoll_ctl fd gen chk n = Some (n', rc, priv) → notify_call n n'
| nk_deregister fd n' rc : notify_deregister_ent epoll_ctl fd n = Some (n', rc) → notify_call n n'
| nk_disarm fd n' rc : notify_disarm_ent epoll_ctl fd n = (n', rc) → notify_call n n'
| nk_pause fd n' r : notify_pause_locked epoll_ctl fd n = (n', r) → notify_call n n'
| nk_rearm n' shards k : notify_rearm_locked epoll_ctl n = (n', shards, k) → notify_call n n'
| nk_wake thr fd gen n' rc : notify_wake_worker_gen thr fd gen n = (n', rc) → notify_call n n'
| nk_pop thr fd gen p : rq_pop (zget (nc_poll n) thr) = Some (fd, gen, p) → notify_call n (mod_poll thr (fun _ => p) n)
| nk_wake_fd t wfd : 0 ≤ t ≤ nc_n_thrs n → wake_fd n t < 0 → notify_call n (notify_add_wake_fd epoll_ctl t wfd n).

Lemma ok_of_table n n' :
  notify_ok n → table_ok (nc_paused_fds n) n' ∧ nc_paused_fds n' = nc_paused_fds n → notify_ok n'.
Proof. intros [_ Hl] [Ht He]. split; by rewrite He. Qed.

Lemma pop_ok thr fd gen p n :
  notify_ok n → rq_pop (zget (nc_poll n) thr) = Some (fd, gen, p) → notify_ok (mod_poll thr (fun _ => p) n).
Proof.
  intros Hok Hp. set (q := zget (nc_poll n) thr) in *.
  assert (Hpop : pc_n_pfds p = pc_n_pfds q ∧ pc_epfd p = pc_epfd q ∧ pc_wake_fd p = pc_wake_fd q).
  { unfold rq_pop in Hp. case_test_in Hp; by simplify_eq. }
  assert (He : mod_poll thr (fun _ => p) n = mod_poll thr (fun x => mk_notify_poll_ctx (pc_n_pfds x) (pc_epfd x) (pc_wake_fd x)
    (pc_rq_gen p) (pc_rq p) (pc_rq_head p) (pc_rq_tail p) (pc_rq_count p)) n).
  { unfold mod_poll, zmod. cbn. fold q. destruct Hpop as (<- & <- & <-). by destruct p. }
  rewrite He. by apply poll_ok.
Qed.

Lemma delete_cases fd gen chk n n' rc priv :
  __notify_delete_ent epoll_ctl fd gen chk n = Some (n', rc, priv) →
  (n' = n ∧ rc < 0 ∧ priv = 0) ∨
  (registered (ent_at (nc_earr n) fd) = true ∧ (chk = true → ne_gen (ent_at (nc_earr n) fd) = gen) ∧
   n' = notify_drop epoll_ctl fd n ∧ rc = 0 ∧ priv = ne_priv (ent_at (nc_earr n) fd)).
Proof.
  unfold __notify_delete_ent. intros He. case_test_in He; [left; by simplify_eq|]. case_test_in He; [left; by simplify_eq|].
  case_test_in He; [left; by simplify_eq|]. case_test_in He; [done|]. simplify_eq. right. split_and!; try done.
  - unfold registered. zbool. rewrite Z.gtb_ltb. by apply Z.ltb_lt.
  - intros ->. cbn in E1. by zbool.
Qed.

Lemma deregister_cases fd n n' rc :
  notify_deregister_ent epoll_ctl fd n = Some (n', rc) →
  n' = n ∨ registered (ent_at (nc_earr n) fd) = true ∧ n' = notify_drop epoll_ctl fd n.
Proof.
  unfold notify_deregister_ent. intros He. case_test_in He; [left; by simplify_eq|]. case_test_in He; [left; by simplify_eq|].
  case_test_in He; [done|]. simplify_eq. right. split; [|done]. unfold registered. zbool. rewrite Z.gtb_ltb. by apply Z.ltb_lt.
Qed.

Lemma drop_keeps_list l fd n :
  table_ok l n → registered (ent_at (nc_earr n) fd) = true →
  nc_paused_fds (notify_drop epoll_ctl fd n) = nc_paused_fds n.
Proof. intros Ht Hr. by rewrite (drop_eq epoll_ctl l fd n Ht Hr). Qed.

Lemma call_ok n n' : notify_ok n → notify_call n n' → notify_ok n'.
Proof using epoll_errno.
  intros Hok Hs. pose proof Hok as [Ht Hl]. pose proof (to_thrs _ _ Ht) as Hthr. destruct Hs as
    [fd type priv gen pin n' rc He|fd type priv gen n' rc He|fd gen chk n' rc priv He|fd n' rc He|fd n' rc He|fd n' r He
    |n' shards k He|thr fd gen n' rc He|thr fd gen p He|t wfd Hr Hw].
  - eapply ok_of_table; [done|]. eapply (add_ok epoll_ctl epoll_errno); [done| |exact He]. lia.
  - eapply ok_of_table; [done|]. eapply (add_ok epoll_ctl epoll_errno); [done| |exact He]. rewrite (to_acc _ _ Ht). lia.
  - destruct (delete_cases _ _ _ _ _ _ _ He) as [[-> _]|(Hr & _ & -> & _)]; [done|]. eapply ok_of_table; [done|].
    split; [by apply drop_ok|by eapply drop_keeps_list].
  - destruct (deregister_cases _ _ _ _ He) as [->|[Hr ->]]; [done|]. eapply ok_of_table; [done|].
    split; [by apply drop_ok|by eapply drop_keeps_list].
  - eapply ok_of_table; [done|]. by eapply (disarm_ok epoll_ctl epoll_errno).
  - by eapply (pause_locked_ok epoll_ctl epoll_errno).
  - by eapply (rearm_locked_ok epoll_ctl epoll_errno).
  - unfold notify_wake_worker_gen in He. repeat case_test_in He; simplify_eq; try done. by apply poll_ok.
  - by eapply pop_ok.
  - by apply (add_wake_fd_ok epoll_ctl epoll_errno).
Qed.

(** The rings of a context. *)
Definition rings_ok (n : notify_ctx) : Prop := Forall ring_ok (nc_poll n).

Lemma rings_of_poll n n' : rings_ok n → nc_poll n' = nc_poll n → rings_ok n'.
Proof. unfold rings_ok. by intros ? ->. Qed.

Lemma ring_at n t : rings_ok n → ring_ok (zget (nc_poll n) t).
Proof.
  intros Hr. unfold zget. rewrite list_lookup_total_alt. destruct (nc_poll n !! Z.to_nat t) as [p|] eqn:Hp; cbn; [by eapply Forall_lookup_1|].
  split; by vm_compute.
Qed.

Lemma rings_mod n t f : rings_ok n → ring_ok (f (zget (nc_poll n) t)) → rings_ok (mod_poll t f n).
Proof. intros Hr Hf. unfold rings_ok. cbn. unfold zmod, zset. by apply Forall_insert. Qed.

Lemma ep_ctl_poll t op fd ev n : nc_poll (fst (notify_ep_ctl epoll_ctl t op fd ev n)) = nc_poll n.
Proof. unfold notify_ep_ctl. repeat case_test; try done; by destruct op. Qed.

Lemma rings_ctl t op fd ev n : rings_ok n → rings_ok (fst (notify_ep_ctl epoll_ctl t op fd ev n)).
Proof. intros. eapply rings_of_poll; [done|apply ep_ctl_poll]. Qed.

Lemma rings_ctl_to t op fd ev n n1 rc : rings_ok n → notify_ep_ctl epoll_ctl t op fd ev n = (n1, rc) → rings_ok n1.
Proof. intros Hr He. pose proof (rings_ctl t op fd ev n Hr) as H. by rewrite He in H. Qed.

Lemma rings_count t d n : rings_ok n → rings_ok (count_shard t d n).
Proof. intros Hr. apply rings_mod; [done|]. by destruct (ring_at n t Hr). Qed.

Lemma rings_add fd type priv gen pin want n :
  rings_ok n → rings_ok (fst (__notify_add_ent epoll_ctl fd type priv gen pin want n)).
Proof.
  intros Hr. unfold __notify_add_ent. do 4 (case_test; [try done|]).
  - unfold notify_add_again. do 3 (case_test; try done).
    destruct (notify_ep_ctl _ _ _ _ _ _) as [n1 rc] eqn:Hc. pose proof (rings_ctl_to _ _ _ _ _ _ _ Hr Hc). by case_test.
  - case_test; [done|]. set (ts := notify_add_shard _ _ _ _).
    destruct (notify_ep_ctl _ ts _ _ _ _) as [n1 rc] eqn:Hc. pose proof (rings_ctl_to _ _ _ _ _ _ _ Hr Hc).
    case_test; [done|]. cbn [fst]. by apply (rings_count ts 1).
Qed.

Lemma rings_drop fd n : rings_ok n → rings_ok (notify_drop epoll_ctl fd n).
Proof.
  intros Hr. unfold notify_drop. apply (rings_count _ (-1)).
  apply (rings_of_poll (fst (notify_ep_ctl epoll_ctl (ne_thr (ent_at (nc_earr n) fd)) EPOLL_CTL_DEL fd 0
    (notify_forget_pause fd (set_ent fd (mk_notify_ent (-1) 0 0 0 0 (ne_gen (ent_at (nc_earr n) fd)) (ne_evict (ent_at (nc_earr n) fd))
       (ne_paused (ent_at (nc_earr n) fd)) (ne_paused_events (ent_at (nc_earr n) fd))) n))))); [|done].
  apply rings_ctl. unfold notify_forget_pause. by case_test.
Qed.

Lemma rings_rearm l n shards k :
  rings_ok n → rings_ok (fst (fst (foldl (notify_rearm_one epoll_ctl) (n, shards, k) l))).
Proof.
  revert n shards k. induction l as [|fd l IH]; intros n shards k Hr; [done|]. cbn [foldl].
  unfold notify_rearm_one at 2. case_test; [by apply IH|]. apply IH. eapply rings_of_poll; [|reflexivity]. by apply rings_ctl.
Qed.

Lemma call_rings n n' : rings_ok n → notify_call n n' → rings_ok n'.
Proof.
  intros Hr. destruct 1 as
    [fd type priv gen pin n' rc He|fd type priv gen n' rc He|fd gen chk n' rc priv He|fd n' rc He|fd n' rc He|fd n' r He
    |n' shards k He|thr fd gen n' rc He|thr fd gen p He|t wfd Hrg Hw].
  - pose proof (rings_add fd type priv gen pin (-1) n Hr) as H. unfold notify_add_ent_pinned in He. by rewrite He in H.
  - pose proof (rings_add fd type priv gen (-1) (nc_acc_thr n) n Hr) as H. unfold notify_add_ent_listener in He. by rewrite He in H.
  - destruct (delete_cases _ _ _ _ _ _ _ He) as [[-> _]|(_ & _ & -> & _)]; [done|by apply rings_drop].
  - destruct (deregister_cases _ _ _ _ He) as [->|[_ ->]]; [done|by apply rings_drop].
  - unfold notify_disarm_ent in He. do 3 (case_test_in He; [by simplify_eq|]). set (e := ent_at (nc_earr n) fd) in *.
    assert (Hf : rings_ok (notify_forget_pause fd (set_ent fd (e <| ne_type := 0 |>) n))) by (unfold notify_forget_pause; by case_test).
    case_test_in He; simplify_eq; [|done]. by apply rings_ctl.
  - unfold notify_pause_locked in He. do 2 (case_test_in He; [by simplify_eq|]).
    set (n1 := if zlen (nc_paused_fds n) >=? MAX_NOTIFY_PAUSED then _ else n) in *.
    assert (H1 : rings_ok n1) by (subst n1; by case_test). case_test_in He; simplify_eq; [done|]. by apply rings_ctl.
  - unfold notify_rearm_locked in He. pose proof (rings_rearm (nc_paused_fds n) n [] 0 Hr) as H1.
    destruct (foldl _ _ _) as [[n1 s1] k1]. by simplify_eq.
  - unfold notify_wake_worker_gen in He. do 2 (case_test_in He; [by simplify_eq|]). simplify_eq. zbool.
    apply rings_mod; [done|]. by apply rq_push_ok; [apply ring_at|].
  - apply rings_mod; [done|]. pose proof (rq_pop_ok _ (ring_at n thr Hr)) as H. rewrite He in H. by destruct H.
  - unfold notify_add_wake_fd. case_test; [done|]. case_test; [|done]. destruct (notify_ep_ctl _ _ _ _ _ _) as [n1 rc] eqn:Hc.
    pose proof (rings_ctl_to _ _ _ _ _ _ _ Hr Hc) as H1. case_test; [|done]. apply rings_mod; [done|]. by destruct (ring_at n1 t H1).
Qed.
End reach.

(** A fd closed by its owner while it is registered: the kernel drops it from
    every instance, and the table is not told. *)
Definition fd_closed (fd : Z) (n : notify_ctx) : notify_ctx := n <| nc_ep ::= filter (λ x, x.1.2 ≠ fd) |>.

(** The critical sections, in any order on any thread, each with its own answers
    of epoll_ctl, and the closes. *)
Inductive notify_step (n : notify_ctx) : notify_ctx → Prop :=
| ns_call epoll_ctl n' : (∀ op t fd ev, 0 ≤ epoll_ctl op t fd ev) → notify_call epoll_ctl n n' → notify_step n n'
| ns_close fd : notify_step n (fd_closed fd n).

Lemma fd_closed_ok fd n : notify_ok n → notify_ok (fd_closed fd n).
Proof.
  intros [[H1 H2 H3 H4 H5 H6 H7 H8 H9] Hl]. split; [|done]. split; try done. intros k. destruct (H5 k) as [A B C E].
  split; try done. intros t Ht [m Hm]. cbn in Hm. apply map_lookup_filter_Some in Hm as [Hm _]. apply E; [done|by eauto].
Qed.

Lemma step_ok n n' : notify_ok n → notify_step n n' → notify_ok n'.
Proof. intros Hok [ctl n1 Herr Hc|fd]; [by eapply (call_ok ctl)|by apply fd_closed_ok]. Qed.

Lemma step_rings n n' : rings_ok n → notify_step n n' → rings_ok n'.
Proof. intros Hr [ctl n1 _ Hc|fd]; [by eapply (call_rings ctl)|done]. Qed.

Lemma new_ok n_thrs epfds n : notify_ctx_new n_thrs epfds = Some n → notify_ok n ∧ rings_ok n.
Proof.
  unfold notify_ctx_new. case_test; [done|]. case_test; [done|]. intros He. apply (inj Some) in He as <-. zbool.
  set (f := fun t : Z => if t <? n_thrs + 1 then poll_ctx0 <| pc_epfd := epfds t |> else poll_ctx0).
  assert (Hf : ∀ t, 0 ≤ t ≤ n_thrs → zget (f <$> zseq MAX_NOTIFY_THREADS) t = poll_ctx0 <| pc_epfd := epfds t |>).
  { intros t Ht. rewrite zget_fmap_zseq by (unfold MAX_NOTIFY_THREADS, NOTIFY_MAX_RELAY_SHARDS in *; lia). unfold f.
    by rewrite (proj2 (Z.ltb_lt _ _)) by lia. }
  split; [split; [|by vm_compute]; split; cbn|].
  - unfold MAX_NOTIFY_THREADS, NOTIFY_MAX_RELAY_SHARDS in *. lia.
  - done.
  - by vm_compute.
  - intros t Ht. unfold epfd. cbn. rewrite Hf by done. cbn. apply Z.ltb_ge, not_true_is_false. intros Hneg.
    assert (existsb (fun t => epfds t <? 0) (zseq (n_thrs + 1)) = true); [|congruence].
    apply existsb_exists. exists t. split; [|done]. apply list_elem_of_In, zseq_in. lia.
  - intros fd. split; cbn; try done. intros u _ Hs. rewrite lookup_empty in Hs. by destruct Hs.
  - done.
  - intros t Ht. unfold pfds, wake_fd. cbn. rewrite Hf by done. done.
  - done.
  - done.
  - unfold rings_ok. cbn [nc_poll]. apply Forall_fmap, Forall_forall. intros t _. unfold compose, f. case_test; split; by vm_compute.
Qed.

(** ** The theorems *)

(** C25. From a new context, through any sequence of registrations, deletes,
    deregistrations, disarms, pauses, re-arms, wakes, drains and closes of fds still
    registered, with epoll_ctl refusing any addition or change of mask it likes: the
    registration counts of the context and of each shard are the table's, within
    their bounds; what the kernel polls is registered, on the shard that polls it, or
    is that shard's wake fd; every paused fd is registered, with no events recorded,
    and on the list a re-arm walks; every resume ring is well formed; and no removal
    trips its assertion. (The converse is not claimed: the kernel drops a fd closed
    before its delete, [closed_fd_stays_registered].) *)
Theorem notify_table_exact epoll_ctl n_thrs epfds n0 n :
  notify_ctx_new n_thrs epfds = Some n0 → steps notify_step n0 n →
  notify_ok n ∧ rings_ok n ∧
  (∀ fd gen chk, is_Some (__notify_delete_ent epoll_ctl fd gen chk n) ∧ is_Some (notify_deregister_ent epoll_ctl fd n)).
Proof.
  intros Hnew Hs. destruct (new_ok _ _ _ Hnew) as [Hok0 Hr0].
  assert (Hok : notify_ok n) by (refine (steps_invariant notify_step notify_ok _ _ _ _ Hs); [|done]; intros a b; by apply step_ok).
  assert (Hr : rings_ok n) by (refine (steps_invariant notify_step rings_ok _ _ _ _ Hs); [|done]; intros a b; by apply step_rings).
  split_and!; [done..|]. intros fd gen chk. destruct Hok as [Ht _]. pose proof (to_thrs _ _ Ht) as Hthr.
  destruct (to_ent _ _ Ht fd) as [_ B _ _].
  assert (Hthr2 : 0 < ne_fd (ent_at (nc_earr n) fd) → bad_thr (ne_thr (ent_at (nc_earr n) fd)) = false).
  { intros Hf. unfold bad_thr. unfold registered in B. rewrite Z.gtb_ltb, (proj2 (Z.ltb_lt _ _)) in B by done.
    specialize (B eq_refl). unfold MAX_NOTIFY_THREADS. apply orb_false_iff. rewrite Z.geb_leb. split; [apply Z.ltb_ge|apply Z.leb_gt]; lia. }
  unfold __notify_delete_ent, notify_deregister_ent. split; repeat (case_test; try by eauto); zbool; by specialize (Hthr2 E0).
Qed.

Definition wit_ctl : ep_op → Z → Z → Z → Z := fun _ _ _ _ => 0.
Definition wit_n0 : notify_ctx := default (mk_notify_ctx ∅ 0 0 0 [] 0 [] ∅) (notify_ctx_new 2 (fun t => 50 + t)).
Definition wit_n1 : notify_ctx := fst (notify_add_ent_listener wit_ctl 7 NOTI_TYPE_IN 900 1 wit_n0).
Definition wit_n2 : notify_ctx := fst (notify_add_ent_pinned wit_ctl 8 (NOTI_TYPE_IN + NOTI_TYPE_HUP) 901 5 (-1) wit_n1).
Definition wit_n3 : notify_ctx := fst (notify_add_ent_pinned wit_ctl 11 (NOTI_TYPE_IN + NOTI_TYPE_HUP) 902 6 8 wit_n2).
Definition wit_n4 : notify_ctx := fst (notify_pause_locked wit_ctl 7 wit_n3).

Definition wit_n5 : notify_ctx := fd_closed 8 wit_n4.
Definition wit_n6 : notify_ctx := notify_drop wit_ctl 8 wit_n5.

Lemma wit_step n n' : notify_call wit_ctl n n' → notify_step n n'.
Proof. intros H. by apply (ns_call n wit_ctl n'). Qed.

(** A listener on its shard, a client and its pinned backend leg on one worker,
    the listener paused, the client closed before its delete. *)
Lemma notify_table_exact_witness :
  notify_ok wit_n6 ∧ nc_n_fds wit_n6 = 2 ∧ nc_n_paused wit_n6 = 1 ∧ notify_ent_thr 11 wit_n6 = 0 ∧
  pfds wit_n6 2 = 1 ∧ pfds wit_n6 0 = 1 ∧ nc_ep wit_n6 !! (2, 7) = Some 0.
Proof.
  split; [|vm_compute; by split_and!].
  apply (notify_table_exact wit_ctl 2 (fun t => 50 + t) wit_n0 wit_n6); [reflexivity|].
  eapply steps_cons; [apply wit_step; eapply (nk_listen wit_ctl wit_n0 7 NOTI_TYPE_IN 900 1); apply surjective_pairing|].
  eapply steps_cons; [apply wit_step; eapply (nk_add wit_ctl wit_n1 8 (NOTI_TYPE_IN + NOTI_TYPE_HUP) 901 5 (-1)); apply surjective_pairing|].
  eapply steps_cons; [apply wit_step; eapply (nk_add wit_ctl wit_n2 11 (NOTI_TYPE_IN + NOTI_TYPE_HUP) 902 6 8); apply surjective_pairing|].
  eapply steps_cons; [apply wit_step; eapply (nk_pause wit_ctl wit_n3 7); apply surjective_pairing|].
  eapply steps_cons; [apply (ns_close wit_n4 8)|].
  eapply steps_cons; [apply wit_step; eapply (nk_deregister wit_ctl wit_n5 8 wit_n6 0); vm_compute; reflexivity|]. apply steps_refl.
Defined.

(** Between its close and its delete a fd is registered and not polled. *)
Example closed_fd_stays_registered :
  registered (ent_at (nc_earr wit_n5) 8) = true ∧ nc_ep wit_n4 !! (0, 8) = Some 8209 ∧ nc_ep wit_n5 !! (0, 8) = None.
Proof. vm_compute. by split_and!. Qed.

(** The resume ring of a worker is a bounded first-in first-out queue: a wake
    goes to its end, or is refused with the queue alone when it holds 4096; a
    drain takes the oldest; a full ring loses nothing that was queued. *)
Theorem notify_ring_is_queue n t fd gen :
  rings_ok n → 0 ≤ t < nc_n_thrs n → nc_n_thrs n ≤ zlen (nc_poll n) → 0 < fd →
  let q := rq_list (zget (nc_poll n) t) in
  let '(n', rc) := notify_wake_worker_gen t fd gen n in
  (if zlen q <? MAX_NOTIFY_RESUME_PENDING
   then rc = 0 ∧ rings_ok n' ∧ rq_list (zget (nc_poll n') t) = q ++ [(fd, gen)]
   else rc = - ENOSPC ∧ n' = n) ∧
  match rq_pop (zget (nc_poll n) t) with
  | None => q = []
  | Some (fd', gen', p) => rings_ok (mod_poll t (fun _ => p) n) ∧ q = (fd', gen') :: rq_list p
  end.
Proof.
  intros Hr Ht Hl Hf q. pose proof (ring_at n t Hr) as Hring. pose proof (rq_pop_ok _ Hring) as Hpop.
  pose proof (rk_count _ Hring) as Hc.
  assert (Hq : zlen q = pc_rq_count (zget (nc_poll n) t)).
  { subst q. unfold rq_list, zlen, zseq. rewrite !length_fmap, length_seq. lia. }
  assert (Hp : match rq_pop (zget (nc_poll n) t) with
               | None => q = []
               | Some (fd', gen', p) => rings_ok (mod_poll t (fun _ => p) n) ∧ q = (fd', gen') :: rq_list p
               end).
  { destruct (rq_pop _) as [[[fd' gen'] p]|]; [|done]. destruct Hpop. split; [by apply rings_mod|done]. }
  unfold notify_wake_worker_gen. rewrite (proj2 (Z.ltb_ge t 0)), !Z.geb_leb, (proj2 (Z.leb_gt _ t)), (proj2 (Z.leb_gt fd 0)) by lia. cbn [orb].
  rewrite Hq, Z.leb_antisym. destruct (pc_rq_count (zget (nc_poll n) t) <? MAX_NOTIFY_RESUME_PENDING) eqn:E; cbn [negb]; (split; [|exact Hp]); [|done].
  zbool. destruct (rq_push_ok fd gen _ Hring E) as [H1 H2]. split_and!; [done|by apply rings_mod|].
  cbn. unfold zmod. rewrite zget_zset_eq by lia. exact H2.
Qed.

Definition wit_queued : notify_ctx := fst (notify_wake_worker 1 8 wit_n0).

Lemma notify_ring_is_queue_witness :
  snd (notify_wake_worker_gen 1 9 4 wit_queued) = 0 ∧ rq_list (zget (nc_poll (fst (notify_wake_worker_gen 1 9 4 wit_queued))) 1) = [(8, 0); (9, 4)].
Proof.
  assert (Hr : rings_ok wit_queued).
  { apply (call_rings wit_ctl wit_n0); [by apply (new_ok 2 (fun t => 50 + t))|]. eapply (nk_wake _ _ 1 8 0). apply surjective_pairing. }
  pose proof (notify_ring_is_queue wit_queued 1 9 4 Hr ltac:(by vm_compute) ltac:(by vm_compute) ltac:(lia)) as H. cbv zeta in H.
  destruct (notify_wake_worker_gen 1 9 4 wit_queued) as [n' rc]. destruct H as [H _].
  assert (Hq : rq_list (zget (nc_poll wit_queued) 1) = [(8, 0)]) by by vm_compute.
  rewrite Hq in H. cbn in H. destruct H as (-> & _ & H). cbn. rewrite H. done.
Defined.

(** ** The accept valve

    A listener at the bound is paused; whoever lowers the gauge looks for paused
    listeners. The pauser asks the gate once more after its pause. Threads that
    freed a context and have not looked yet are [v_leaving], those about to ask
    the gate [v_asking], those that found it open and are about to re-arm
    [v_arming]. *)

Definition pd_admission_should_accept (cur_inflight bound : Z) : bool :=
  if bound =? 0 then true else cur_inflight <? bound.

Record valve := mk_valve { v_n : notify_ctx; v_inflight : Z; v_leaving : nat; v_asking : nat; v_arming : nat }.

Section valve.
Context (epoll_ctl : ep_op → Z → Z → Z → Z) (bound : Z).
Definition valve_open (s : valve) : bool := pd_admission_should_accept (v_inflight s) bound.

(** What the threads inside notify_pause_ent and notify_rearm_paused do. *)
Inductive valve_work : valve → valve → Prop :=
| vw_none n u l a r : nc_n_paused n = 0 → valve_work (mk_valve n u (S l) a r) (mk_valve n u l a r)
| vw_some n u l a r : nc_n_paused n ≠ 0 → valve_work (mk_valve n u (S l) a r) (mk_valve n u l (S a) r)
| vw_closed n u l a r : pd_admission_should_accept u bound = false → valve_work (mk_valve n u l (S a) r) (mk_valve n u l a r)
| vw_open n u l a r : pd_admission_should_accept u bound = true → valve_work (mk_valve n u l (S a) r) (mk_valve n u l a (S r))
| vw_arm n u l a r n' shards k :
    notify_rearm_locked epoll_ctl n = (n', shards, k) → valve_work (mk_valve n u l a (S r)) (mk_valve n' u l a r).

(** What brings threads there: a pause, a context freed, the health pass; and
    the rest of the notifier, and connections that raise the gauge. *)
Inductive valve_step (s : valve) : valve → Prop :=
| vs_work s' : valve_work s s' → valve_step s s'
| vs_pause fd n' : notify_pause_locked epoll_ctl fd (v_n s) = (n', None) →
    valve_step s (mk_valve n' (v_inflight s) (v_leaving s) (S (v_asking s)) (v_arming s))
| vs_leave : valve_step s (mk_valve (v_n s) (v_inflight s - 1) (S (v_leaving s)) (v_asking s) (v_arming s))
| vs_health : valve_step s (mk_valve (v_n s) (v_inflight s) (S (v_leaving s)) (v_asking s) (v_arming s))
| vs_enter k : 0 ≤ k → valve_step s (mk_valve (v_n s) (v_inflight s + k) (v_leaving s) (v_asking s) (v_arming s))
| vs_other n' : notify_step (v_n s) n' → nc_n_paused n' ≤ nc_n_paused (v_n s) →
    valve_step s (mk_valve n' (v_inflight s) (v_leaving s) (v_asking s) (v_arming s)).

Definition at_rest (s : valve) : Prop := v_leaving s = O ∧ v_asking s = O ∧ v_arming s = O.

(** An open valve with a listener paused has a thread on its way. *)
Definition valve_inv (s : valve) : Prop :=
  notify_ok (v_n s) ∧ 0 ≤ nc_n_paused (v_n s) ∧
  (nc_n_paused (v_n s) ≠ 0 → valve_open s = true → (0 < v_leaving s + v_asking s + v_arming s)%nat).

Lemma cnt_nonneg P m : 0 ≤ cnt P m.
Proof. unfold cnt. apply (map_fold_weak_ind (fun k _ => 0 ≤ k)); [lia|]. intros fd e m' k _ IH. destruct (P e); cbn; lia. Qed.

Lemma paused_nonneg n : notify_ok n → 0 ≤ nc_n_paused n.
Proof. intros [Ht _]. rewrite (to_paused _ _ Ht). apply cnt_nonneg. Qed.

Lemma cnt_pos P m fd : P ent0 = false → P (ent_at m fd) = true → 0 < cnt P m.
Proof.
  intros H0 Hp. pose proof (cnt_set P m fd ent0 H0) as Hs. rewrite Hp, H0 in Hs. cbn in Hs.
  pose proof (cnt_nonneg P (<[fd := ent0]> m)). lia.
Qed.

Lemma none_paused n fd : notify_ok n → nc_n_paused n = 0 → ne_paused (ent_at (nc_earr n) fd) = false.
Proof.
  intros [Ht _] H0. apply not_true_is_false. intros Hp. destruct (eo_idle _ _ _ _ _ (to_ent _ _ Ht fd) Hp) as [Hr _].
  rewrite (to_paused _ _ Ht) in H0. pose proof (cnt_pos paused_reg (nc_earr n) fd eq_refl) as Hc. unfold paused_reg at 1 in Hc.
  rewrite Hr, Hp in Hc. specialize (Hc eq_refl). lia.
Qed.

Context (epoll_errno : ∀ op t fd ev, 0 ≤ epoll_ctl op t fd ev).

Lemma should_accept_mono u u' : u ≤ u' → pd_admission_should_accept u' bound = true → pd_admission_should_accept u bound = true.
Proof. unfold pd_admission_should_accept. case_test; [done|]. intros ? ?. zbool. apply Z.ltb_lt. lia. Qed.

Lemma valve_step_inv s s' : valve_inv s → valve_step s s' → valve_inv s'.
Proof using epoll_errno.
  intros (Hok & Hn & Hw) Hs. unfold valve_inv, valve_open in *.
  destruct Hs as [s' Hwk|fd n' He|  | |k Hk|n' Hst Hle]; cbn in *.
  - destruct Hwk as [n u l a r H|n u l a r H|n u l a r H|n u l a r H|n u l a r n' shards k He]; cbn in *.
    + by split_and!.
    + split_and!; [done..|lia].
    + split_and!; [done..|congruence].
    + split_and!; [done..|lia].
    + destruct (rearm_locked_ok epoll_ctl epoll_errno _ _ _ _ Hok He) as (H1 & H2 & _). split_and!; [done|lia|done].
  - assert (Hok' : notify_ok n') by (by eapply (pause_locked_ok epoll_ctl epoll_errno)).
    split_and!; [done|by apply paused_nonneg|lia].
  - split_and!; [done..|lia].
  - split_and!; [done..|lia].
  - split_and!; [done..|]. intros H1 H2. apply Hw; [done|]. by apply (should_accept_mono _ (v_inflight s + k)); [lia|].
  - assert (Hok' : notify_ok n') by (by eapply step_ok). pose proof (paused_nonneg n' Hok').
    split_and!; [done..|]. intros H1 H2. apply Hw; [lia|done].
Qed.

(** The threads on their way finish. *)
Lemma work_finishes s : ∃ s', steps valve_work s s' ∧ at_rest s' ∧ v_inflight s' = v_inflight s.
Proof.
  remember (3 * v_leaving s + 2 * v_asking s + v_arming s)%nat as m eqn:Hm. revert s Hm.
  induction (lt_wf m) as [m _ IH]. intros [n u l a r] Hm. cbn in Hm.
  assert (Hgo : ∀ s', valve_work (mk_valve n u l a r) s' → v_inflight s' = u → (3 * v_leaving s' + 2 * v_asking s' + v_arming s' < m)%nat →
    ∃ s'', steps valve_work (mk_valve n u l a r) s'' ∧ at_rest s'' ∧ v_inflight s'' = u).
  { intros s' Hw Hu Hlt. destruct (IH _ Hlt s' eq_refl) as (s'' & H1 & H2 & H3). exists s''. split_and!; [by eapply steps_cons|done|congruence]. }
  destruct r as [|r].
  - destruct a as [|a].
    + destruct l as [|l]; [exists (mk_valve n u 0 0 0); split_and!; [apply steps_refl|by split_and!|done]|].
      destruct (decide (nc_n_paused n = 0)); [eapply Hgo; [by apply vw_none|done|cbn; lia]|eapply Hgo; [by apply vw_some|done|cbn; lia]].
    + destruct (pd_admission_should_accept u bound) eqn:Ho; [eapply Hgo; [by apply vw_open|done|cbn; lia]|eapply Hgo; [by apply vw_closed|done|cbn; lia]].
  - destruct (notify_rearm_locked epoll_ctl n) as [[n' shards] k] eqn:He. eapply Hgo; [by eapply vw_arm|done|cbn; lia].
Qed.
End valve.

(** C29. No lost re-arm: whatever the interleaving of pauses, of contexts freed, of
    new connections and of the notifier's other work, when every thread that
    paused or freed has returned, an open valve has no listener paused; and the
    threads still inside can always finish, which leaves none paused if the
    valve is open. *)
Theorem notify_valve_no_lost_rearm epoll_ctl bound n_thrs epfds n0 s :
  (∀ op t fd ev, 0 ≤ epoll_ctl op t fd ev) →
  notify_ctx_new n_thrs epfds = Some n0 → steps (valve_step epoll_ctl bound) (mk_valve n0 0 0 0 0) s →
  let unpaused s := ∀ fd, ne_paused (ent_at (nc_earr (v_n s)) fd) = false in
  (at_rest s → valve_open bound s = true → unpaused s) ∧
  ∃ s', steps (valve_work epoll_ctl bound) s s' ∧ at_rest s' ∧ (valve_open bound s = true → unpaused s').
Proof.
  intros Herr Hnew Hs unpaused. destruct (new_ok _ _ _ Hnew) as [Hok0 _].
  assert (H0 : nc_n_paused n0 = 0).
  { unfold notify_ctx_new in Hnew. repeat case_test_in Hnew; try done. apply (inj Some) in Hnew as <-. done. }
  assert (Hinv : ∀ s', steps (valve_step epoll_ctl bound) (mk_valve n0 0 0 0 0) s' → valve_inv bound s').
  { intros s' Hs'. refine (steps_invariant _ (valve_inv bound) _ _ _ _ Hs'); [intros a b; by apply valve_step_inv|].
    split_and!; cbn; [done|lia|done]. }
  assert (Hrest : ∀ s', valve_inv bound s' → at_rest s' → valve_open bound s' = true → unpaused s').
  { intros s' (Hok & Hn & Hw) (Hl & Ha & Hr) Ho fd. apply none_paused; [done|]. destruct (decide (nc_n_paused (v_n s') = 0)) as [|Hne]; [done|].
    specialize (Hw Hne Ho). lia. }
  split; [by apply Hrest, Hinv|]. destruct (work_finishes epoll_ctl bound s) as (s' & Hw & Hr & Hu). exists s'. split_and!; [done..|].
  intros Ho. apply Hrest; [|done|unfold valve_open in *; by rewrite Hu].
  apply Hinv. eapply steps_trans; [exact Hs|]. clear - Hw. induction Hw as [|a b c Hab _ IH]; [apply steps_refl|].
  eapply steps_cons; [by apply vs_work|done].
Qed.

Definition wit_v : valve := mk_valve wit_n4 9 1 1 0.

(** The listener pauses at a bound of 10 while the gauge falls to 9: the
    threads on their way re-arm it. *)
Lemma notify_valve_no_lost_rearm_witness :
  valve_open 10 wit_v = true ∧ ne_paused (ent_at (nc_earr (v_n wit_v)) 7) = true ∧
  ∃ s', steps (valve_work wit_ctl 10) wit_v s' ∧ ne_paused (ent_at (nc_earr (v_n s')) 7) = false.
Proof.
  split; [done|]. split; [by vm_compute|].
  destruct (notify_valve_no_lost_rearm wit_ctl 10 2 (fun t => 50 + t) wit_n0 wit_v) as (_ & s' & H1 & _ & H2); [done|reflexivity| |].
  - eapply steps_cons; [eapply vs_other; [apply wit_step; eapply (nk_listen wit_ctl wit_n0 7 NOTI_TYPE_IN 900 1); apply surjective_pairing|by vm_compute]|].
    eapply steps_cons; [eapply vs_other; [apply wit_step; eapply (nk_add wit_ctl wit_n1 8 (NOTI_TYPE_IN + NOTI_TYPE_HUP) 901 5 (-1)); apply surjective_pairing|by vm_compute]|].
    eapply steps_cons; [eapply vs_other; [apply wit_step; eapply (nk_add wit_ctl wit_n2 11 (NOTI_TYPE_IN + NOTI_TYPE_HUP) 902 6 8); apply surjective_pairing|by vm_compute]|].
    eapply steps_cons; [apply (vs_enter wit_ctl 10 _ 10); lia|].
    eapply steps_cons; [eapply (vs_pause wit_ctl 10 _ 7 wit_n4); vm_compute; reflexivity|].
    eapply steps_cons; [apply vs_leave|]. exact (steps_refl _ wit_v).
  - exists s'. split; [done|]. by apply H2.
Defined.

(** The type an event is dispatched with. *)
Definition event_type (events : Z) : Z :=
  let type := notify_conv4mpoll_events events in if has type NOTI_TYPE_OUT then Z.lor type NOTI_TYPE_IN else type.

(** Only a full hang-up or an error is fatal; a half-close is not. *)
Lemma event_fatal events :
  has (event_type events) (Z.lor NOTI_TYPE_HUP NOTI_TYPE_ERROR) = has events EPOLLHUP || has events EPOLLERR.
Proof.
  unfold event_type, notify_conv4mpoll_events.
  destruct (has events EPOLLIN), (has events EPOLLOUT), (has events EPOLLHUP), (has events EPOLLRDHUP), (has events EPOLLERR); reflexivity.
Qed.

(** The dispatch of an event on a registered fd calls back with the priv and
    gen of that registration, and afterwards removes a registration only when
    the event was a hang-up or an error and the fd still carries the same gen:
    a registration made in the meantime, or a half-closed one, is left alone. *)
Theorem notify_dispatch_own_registration epoll_ctl fuel resume notify thread fd events n :
  let e := ent_at (nc_earr n) fd in
  registered e = true → bad_fd fd = false → wake_fd n thread ≠ fd → notify_conv4mpoll_events events ≠ 0 →
  let nc := notify fd (event_type events) (ne_priv e) (ne_gen e) n in
  let e' := ent_at (nc_earr nc) fd in
  bad_thr (ne_thr e') = false →
  notify_dispatch epoll_ctl fuel resume notify thread fd events n =
    Some (if (has events EPOLLHUP || has events EPOLLERR) && registered e' && (ne_gen e' =? ne_gen e)
          then (notify_drop epoll_ctl fd nc, ne_priv e') else (nc, 0)).
Proof.
  intros e Hr Hb Hw Ht nc e' Hthr. unfold notify_dispatch. rewrite (proj2 (Z.eqb_neq _ _) Ht).
  rewrite (proj2 (Z.eqb_neq fd _)) by (unfold wake_fd in Hw; congruence). rewrite andb_false_r, Hb. fold e.
  assert (Hf : (ne_fd e <=? 0) = false) by (unfold registered in Hr; zbool; by apply Z.leb_gt). rewrite Hf.
  change (if has (notify_conv4mpoll_events events) NOTI_TYPE_OUT then Z.lor (notify_conv4mpoll_events events) NOTI_TYPE_IN
          else notify_conv4mpoll_events events) with (event_type events). fold nc. rewrite event_fatal.
  destruct (has events EPOLLHUP || has events EPOLLERR); cbn [andb]; [|done].
  unfold notify_delete_ent_gen__, __notify_delete_ent. rewrite Hb. fold e'. rewrite Hthr. cbn [andb]. unfold registered. rewrite Z.gtb_ltb, Z.ltb_antisym.
  destruct (ne_fd e' <=? 0); cbn [negb andb]; [done|]. by destruct (ne_gen e' =? ne_gen e).
Qed.

(** An error event on fd 8 whose callback closed it and let a newer connection
    take the fd: the newer registration stays. *)
Definition wit_reuse (fd type priv gen : Z) (n : notify_ctx) : notify_ctx :=
  match notify_deregister_ent wit_ctl fd n with
  | Some (n, _) => fst (notify_add_ent wit_ctl fd NOTI_TYPE_IN 950 77 n)
  | None => n
  end.

Lemma notify_dispatch_own_registration_witness :
  notify_dispatch wit_ctl 0 (fun _ n => n) wit_reuse 0 8 EPOLLERR wit_n3 = Some (wit_reuse 8 (event_type EPOLLERR) 901 5 wit_n3, 0) ∧
  ne_priv (ent_at (nc_earr (wit_reuse 8 (event_type EPOLLERR) 901 5 wit_n3)) 8) = 950.
Proof.
  split; [|by vm_compute].
  rewrite (notify_dispatch_own_registration wit_ctl 0 (fun _ n => n) wit_reuse 0 8 EPOLLERR wit_n3); vm_compute; [reflexivity|done..].
Defined.

(** The wake of the re-armed shards shifts a 32-bit one by each shard number up
    to 32, which C does not define: no call of it is free of that, whatever the
    mask. *)
Theorem notify_wake_mask_shift_undefined mask n : notify_wake_mask mask n = None.
Proof.
  unfold notify_wake_mask. change (zseq MAX_NOTIFY_THREADS) with (zseq 32 ++ [32]).
  induction (zseq 32) as [|t l IH]; cbn; [done|]. rewrite IH. by destruct (shl1 t).
Qed.
