(* ===== verification/QosCtl.v ===== *)
(** * The byte shaper's control plane (src/common/sockproxy_http.c)

    The store of shaper configurations by service, what an update, a rule
    created anew and a rule removed do to the two buckets of a service, the tick
    over every service, and the wakes handed to the notifier's resume rings. The
    theorems: the store answers a service's last configuration; a burst
    configured below the smallest grant starves its readers; and a wake that the
    notifier refuses leaves its reader parked with nobody to wake it. *)

From stdpp Require Import base list gmap numbers.
From S2P Require Import Prelude Qos Notify.

(** ** Services and their configurations *)

(** What identifies a service (the compared fields of proxy_ent). *)
Record proxy_ent := mk_proxy_ent { pe_xip : Z; pe_xport : Z; pe_protocol : Z }.
#[export] Instance proxy_ent_eq_dec : EqDecision proxy_ent.
Proof. solve_decision. Defined.

Definition cmp_proxy_ent (e1 e2 : proxy_ent) : bool :=
  (pe_xip e1 =? pe_xip e2) && (pe_xport e1 =? pe_xport e2) && (pe_protocol e1 =? pe_protocol e2).

Definition QOS_CFG_STORE_MAX : Z := 512.
Definition QOS_MODE_SHAPE : Z := 1.
Definition EOPNOTSUPP : Z := 95.
Definition qos_cfg0 : proxy_qos_cfg := mk_proxy_qos_cfg 0 0 0 0 0.

Record qos_cfg_slot := mk_qos_cfg_slot { t_key : proxy_ent; t_cfg : proxy_qos_cfg; t_valid : bool }.
#[export] Instance qos_cfg_slot_eta : RecordEta qos_cfg_slot := fun r => mk_qos_cfg_slot (t_key r) (t_cfg r) (t_valid r).
#[export] Instance qos_cfg_slot_inhabited : Inhabited qos_cfg_slot := populate (mk_qos_cfg_slot (mk_proxy_ent 0 0 0) qos_cfg0 false).

(** The shaper's part of a service entry. *)
Record qos_svc := mk_qos_svc {
  s_key : proxy_ent; s_cfg : proxy_qos_cfg; s_up : proxy_qos_bucket; s_down : proxy_qos_bucket
}.
#[export] Instance qos_svc_eta : RecordEta qos_svc := fun r => mk_qos_svc (s_key r) (s_cfg r) (s_up r) (s_down r).

(** The proxy: the store, the services in list order, the notifier, the clock of
    the last tick. *)
Record qos_ctl := mk_qos_ctl { c_store : list qos_cfg_slot; c_svcs : list qos_svc; c_ns : notify_ctx; c_last_tick : Z }.
#[export] Instance qos_ctl_eta : RecordEta qos_ctl := fun r => mk_qos_ctl (c_store r) (c_svcs r) (c_ns r) (c_last_tick r).

(** ** The store *)

(** The scan from slot [i]: the slot of the key, or the first free one seen. *)
Fixpoint store_scan (key : proxy_ent) (i : Z) (free : option Z) (l : list qos_cfg_slot) : Z + option Z :=
  match l with
  | [] => inr free
  | s :: l =>
      if t_valid s then
        if cmp_proxy_ent (t_key s) key then inl i else store_scan key (i + 1) free l
      else store_scan key (i + 1) (match free with Some _ => free | None => Some i end) l
  end.

(** The index of the slot, and the store with an allocated slot cleared and keyed. *)
Definition qos_store_find (key : proxy_ent) (alloc : bool) (store : list qos_cfg_slot) : option Z * list qos_cfg_slot :=
  match store_scan key 0 None store with
  | inl i => (Some i, store)
  | inr (Some i) => if alloc then (Some i, zset store i (mk_qos_cfg_slot key qos_cfg0 false)) else (None, store)
  | inr None => (None, store)
  end.

(** ** Waking *)

(** The wakes of the readers taken off a ring; the notifier's answer is not
    looked at. *)
Definition qos_send_wakes (l : list qos_parked_fd) (n : notify_ctx) : notify_ctx :=
  foldl (fun n w => fst (notify_wake_worker (k_owner_thr w) (k_fd w) n)) n l.
Definition wake_bucket (b : proxy_qos_bucket) (n : notify_ctx) : proxy_qos_bucket * notify_ctx :=
  let '(b, l) := qos_wake_all_parked b in (b, qos_send_wakes l n).
Definition wake_svc (s : qos_svc) (n : notify_ctx) : qos_svc * notify_ctx :=
  let '(up, n) := wake_bucket (s_up s) n in
  let '(down, n) := wake_bucket (s_down s) n in
  (s <| s_up := up |> <| s_down := down |>, n).

(** ** Configuration *)

(** [now_up] and [now_down] are the clock as each bucket is armed. *)
Definition qos_apply_cfg (now_up now_down : Z) (cfg : proxy_qos_cfg) (s : qos_svc) (n : notify_ctx) : qos_svc * notify_ctx :=
  let was_on := negb (qc_cir_Bps (s_cfg s) =? 0) in
  let now_on := negb (qc_cir_Bps cfg =? 0) in
  let s := if negb was_on && now_on
           then s <| s_up ::= (fun b => b <| b_parked := [] |>) |> <| s_down ::= (fun b => b <| b_parked := [] |>) |> else s in
  let s := s <| s_cfg := cfg |> in
  let s := if now_on then s <| s_up ::= qos_bucket_init cfg now_up |> <| s_down ::= qos_bucket_init cfg now_down |> else s in
  if was_on then wake_svc s n else (s, n).

(** The first service of the list with the key, changed by [f]. *)
Fixpoint on_svc (key : proxy_ent) (f : qos_svc → notify_ctx → qos_svc * notify_ctx) (l : list qos_svc) (n : notify_ctx) :
    list qos_svc * notify_ctx :=
  match l with
  | [] => ([], n)
  | s :: l => if cmp_proxy_ent (s_key s) key then let '(s, n) := f s n in (s :: l, n)
              else let '(l, n) := on_svc key f l n in (s :: l, n)
  end.

Definition qos_apply_stored_cfg (now_up now_down : Z) (store : list qos_cfg_slot) (s : qos_svc) (n : notify_ctx) : qos_svc * notify_ctx :=
  match fst (qos_store_find (s_key s) false store) with
  | Some i =>
      let cfg := t_cfg (zget store i) in
      if negb (qc_cir_Bps cfg =? 0) && (qc_cir_Bps (s_cfg s) =? 0) then qos_apply_cfg now_up now_down cfg s n else (s, n)
  | None => (s, n)
  end.

Definition store_drop (key : proxy_ent) (store : list qos_cfg_slot) : list qos_cfg_slot :=
  match fst (qos_store_find key false store) with
  | Some i => zmod store i (fun t => t <| t_valid := false |>)
  | None => store
  end.

Definition qos_service_teardown (key : proxy_ent) (c : qos_ctl) : qos_ctl :=
  let '(svcs, n) := on_svc key (fun s n => if negb (qc_cir_Bps (s_cfg s) =? 0) then wake_svc s n else (s, n)) (c_svcs c) (c_ns c) in
  c <| c_store ::= store_drop key |> <| c_svcs := svcs |> <| c_ns := n |>.

(** The configuration an update asks for. *)
Definition update_cfg (cir_bps pir_bps cbs_bytes dir mode : Z) : proxy_qos_cfg :=
  mk_proxy_qos_cfg (cir_bps / 8) (pir_bps / 8) cbs_bytes
    (if negb (dir =? 0) then dir else QOS_DIR_UPLOAD) (if negb (mode =? 0) then mode else QOS_MODE_SHAPE).

(** The store after an update, none when it is full. *)
Definition store_update (key : proxy_ent) (cfg : proxy_qos_cfg) (store : list qos_cfg_slot) : option (list qos_cfg_slot) :=
  if qc_cir_Bps cfg =? 0 then Some (store_drop key store)
  else match qos_store_find key true store with
  | (Some i, store) => Some (zmod store i (fun t => t <| t_cfg := cfg |> <| t_valid := true |>))
  | (None, _) => None
  end.

Definition proxy_update_qos_config (now_up now_down : Z) (key : proxy_ent) (cir_bps pir_bps cbs_bytes dir mode : Z) (c : qos_ctl) : qos_ctl * Z :=
  let cfg := update_cfg cir_bps pir_bps cbs_bytes dir mode in
  if negb (qc_mode cfg =? QOS_MODE_SHAPE) && negb (qc_cir_Bps cfg =? 0) then (c, - EOPNOTSUPP)
  else match store_update key cfg (c_store c) with
  | None => (c, - ENOSPC)
  | Some store =>
      let '(svcs, n) := on_svc key (qos_apply_cfg now_up now_down cfg) (c_svcs c) (c_ns c) in
      (c <| c_store := store |> <| c_svcs := svcs |> <| c_ns := n |>, 0)
  end.

(** ** The tick and the lookup of a reader's bucket *)

Definition tick_bucket (cfg : proxy_qos_cfg) (now : Z) (b : proxy_qos_bucket) (n : notify_ctx) : proxy_qos_bucket * notify_ctx :=
  let '(b, l) := qos_tick_bucket cfg now b in (b, qos_send_wakes l n).
Fixpoint tick_svcs (now : Z) (l : list qos_svc) (n : notify_ctx) : list qos_svc * notify_ctx :=
  match l with
  | [] => ([], n)
  | s :: l =>
      let '(s, n) :=
        if qc_cir_Bps (s_cfg s) =? 0 then (s, n)
        else
          let '(up, n) := tick_bucket (s_cfg s) now (s_up s) n in
          let '(down, n) := tick_bucket (s_cfg s) now (s_down s) n in
          (s <| s_up := up |> <| s_down := down |>, n) in
      let '(l, n) := tick_svcs now l n in (s :: l, n)
  end.
(** The sweep of the worker that won the quantum; the tick of refused requests that
    it also runs touches nothing of the shaper. *)
Definition proxy_qos_tick (now : Z) (c : qos_ctl) : qos_ctl :=
  if u64 (now - c_last_tick c) <? QOS_TICK_QUANTUM_NS then c
  else
    let '(svcs, n) := tick_svcs now (c_svcs c) (c_ns c) in
    c <| c_last_tick := now |> <| c_svcs := svcs |> <| c_ns := n |>.

(** Which bucket a connection reads against: [odir] 0 is the client's side. *)
Definition qos_bucket_for_pfe (h2 : bool) (odir : Z) (s : qos_svc) : option proxy_qos_bucket :=
  if h2 then None
  else if qc_cir_Bps (s_cfg s) =? 0 then None
  else if (odir =? 0) && negb (Z.land (qc_dir (s_cfg s)) QOS_DIR_UPLOAD =? 0) then Some (s_up s)
  else if (odir =? 1) && negb (Z.land (qc_dir (s_cfg s)) QOS_DIR_DOWNLOAD =? 0) then Some (s_down s)
  else None.

(** ** The store as a map *)

Lemma cmp_eq e1 e2 : cmp_proxy_ent e1 e2 = true ↔ e1 = e2.
Proof.
  unfold cmp_proxy_ent. destruct e1, e2; cbn. split; [intros H; zbool; by subst|]. intros He. simplify_eq. by rewrite !Z.eqb_refl.
Qed.

(** A slot in use for a service. *)
Definition held (key : proxy_ent) (store : list qos_cfg_slot) (i : nat) (s : qos_cfg_slot) : Prop :=
  store !! i = Some s ∧ t_valid s = true ∧ t_key s = key.

Lemma scan_spec key l i free :
  match store_scan key i free l with
  | inl j => ∃ k s, j = i + Z.of_nat k ∧ held key l k s
  | inr f =>
      (∀ k s, ¬ held key l k s) ∧
      match f with
      | Some j => Some j = free ∨ ∃ k s, j = i + Z.of_nat k ∧ l !! k = Some s ∧ t_valid s = false
      | None => free = None ∧ Forall (fun s => t_valid s = true) l
      end
  end.
Proof.
  revert i free. induction l as [|s l IH]; intros i free; cbn [store_scan].
  { split; [intros k s [Hk _]; by rewrite lookup_nil in Hk|]. destruct free; [by left|by split]. }
  destruct (t_valid s) eqn:Hv.
  - destruct (cmp_proxy_ent (t_key s) key) eqn:Hc.
    + exists O, s. split; [lia|]. split_and!; [done..|by apply cmp_eq].
    + specialize (IH (i + 1) free). destruct (store_scan key (i + 1) free l) as [j|f].
      * destruct IH as (k & s' & -> & Hh). exists (S k), s'. split; [lia|exact Hh].
      * destruct IH as [Hn Hf]. split.
        -- intros [|k] s' Hh; [|exact (Hn k s' Hh)]. destruct Hh as (Hl & _ & Hk). cbn in Hl. simplify_eq. apply not_true_iff_false in Hc. by apply Hc, cmp_eq.
        -- destruct f as [j|]; [|destruct Hf; split; [done|by constructor]].
           destruct Hf as [|(k & s' & -> & Hl & Hs)]; [by left|]. right. exists (S k), s'. split; [lia|done].
  - specialize (IH (i + 1) (match free with Some _ => free | None => Some i end)).
    destruct (store_scan key (i + 1) _ l) as [j|f].
    + destruct IH as (k & s' & -> & Hh). exists (S k), s'. split; [lia|exact Hh].
    + destruct IH as [Hn Hf]. split.
      * intros [|k] s' Hh; [|exact (Hn k s' Hh)]. destruct Hh as (Hl & Hv' & _). cbn in Hl. simplify_eq. congruence.
      * destruct f as [j|].
        -- destruct Hf as [Hj|(k & s' & -> & Hl & Hs)]; [|right; exists (S k), s'; split; [lia|done]].
           destruct free as [x|]; [by left|]. simplify_eq. right. exists O, s. split; [lia|done].
        -- destruct Hf as [Hf _]. by destruct free.
Qed.

(** A service has one slot in use at most. *)
Definition store_wf (store : list qos_cfg_slot) : Prop :=
  ∀ key i j s s', held key store i s → held key store j s' → i = j.

(** The configuration stored for a service. *)
Definition store_get (key : proxy_ent) (store : list qos_cfg_slot) : option proxy_qos_cfg :=
  (fun i => t_cfg (zget store i)) <$> fst (qos_store_find key false store).

Lemma find_spec key store :
  match fst (qos_store_find key false store) with
  | Some i => ∃ k s, i = Z.of_nat k ∧ held key store k s
  | None => ∀ k s, ¬ held key store k s
  end.
Proof.
  unfold qos_store_find. pose proof (scan_spec key store 0 None) as H. destruct (store_scan key 0 None store) as [j|[j|]]; cbn; [|by destruct H..].
  destruct H as (k & s & -> & Hh). exists k, s. split; [lia|done].
Qed.

Lemma zget_nat (store : list qos_cfg_slot) k s : store !! k = Some s → zget store (Z.of_nat k) = s.
Proof. intros H. unfold zget. rewrite Nat2Z.id. by apply list_lookup_total_correct. Qed.

Lemma get_iff key store c :
  store_wf store → store_get key store = Some c ↔ ∃ k s, held key store k s ∧ t_cfg s = c.
Proof.
  intros Hwf. unfold store_get. pose proof (find_spec key store) as Hf. destruct (fst (qos_store_find key false store)) as [i|]; cbn.
  - destruct Hf as (k & s & -> & Hh). rewrite (zget_nat store k s) by apply Hh. split; [intros He; simplify_eq; by exists k, s|].
    intros (k' & s' & Hh' & <-). assert (k = k') as -> by (by eapply Hwf). destruct Hh as [H1 _], Hh' as [H2 _]. congruence.
  - split; [done|]. intros (k & s & Hh & _). by destruct (Hf k s).
Qed.

Lemma get_ext key store store' :
  store_wf store → store_wf store' → (∀ c, (∃ k s, held key store' k s ∧ t_cfg s = c) ↔ (∃ k s, held key store k s ∧ t_cfg s = c)) →
  store_get key store' = store_get key store.
Proof. intros H1 H2 He. apply option_eq. intros c. by rewrite !get_iff. Qed.

Lemma zset_nat (store : list qos_cfg_slot) k x : zset store (Z.of_nat k) x = <[k := x]> store.
Proof. unfold zset. by rewrite Nat2Z.id. Qed.

Lemma held_insert key store i x j s :
  (i < length store)%nat → held key (<[i := x]> store) j s ↔ (j = i ∧ s = x ∧ t_valid x = true ∧ t_key x = key) ∨ (j ≠ i ∧ held key store j s).
Proof.
  intros Hi. unfold held. destruct (decide (j = i)) as [->|Hne].
  - rewrite list_lookup_insert_eq by done. split; [intros ([= <-] & H1 & H2); by left|]. intros [(_ & -> & H1 & H2)|[? _]]; done.
  - rewrite list_lookup_insert_ne by done. split; [by right|]. by intros [[? _]|[_ H]].
Qed.

(** What a write of one slot does to the map: the slot held [key] or was free and
    nobody holds [key]. *)
Lemma store_put key store i x s :
  store_wf store → store !! i = Some s → (t_valid s = true → t_key s = key) → (∀ j s', held key store j s' → j = i) →
  (t_valid x = true → t_key x = key) →
  let store' := <[i := x]> store in
  store_wf store' ∧ store_get key store' = (if t_valid x then Some (t_cfg x) else None) ∧
  (∀ key', key' ≠ key → store_get key' store' = store_get key' store).
Proof.
  intros Hwf Hi Hs Hu Hx store'. assert (Hlt : (i < length store)%nat) by (by apply lookup_lt_Some in Hi).
  subst store'. pose proof (fun key' j s1 => held_insert key' store i x j s1 Hlt) as Hins.
  assert (Hwf' : store_wf (<[i := x]> store)).
  { intros k j1 j2 s1 s2 H1 H2. apply held_insert in H1, H2; [|done..].
    destruct H1 as [(-> & -> & Hv & Hk)|[Hn1 H1]], H2 as [(-> & -> & Hv2 & Hk2)|[Hn2 H2]]; [done| | |by eapply Hwf].
    - exfalso. apply Hn2. apply (Hu j2 s2). rewrite <- (Hx Hv), Hk. done.
    - exfalso. apply Hn1. apply (Hu j1 s1). rewrite <- (Hx Hv2), Hk2. done. }
  split_and!; [done| |].
  - apply option_eq. intros c. rewrite get_iff by done. setoid_rewrite Hins. split.
    + intros (k & s1 & [(-> & -> & Hv & Hk)|[Hn Hh]] & <-); [by rewrite Hv|]. exfalso. by apply Hn, (Hu k s1).
    + destruct (t_valid x) eqn:Hv; [|done]. intros [= <-]. exists i, x. split; [left|done]. split_and!; try done. by apply Hx.
  - intros key' Hne. apply get_ext; [done..|]. intros c. setoid_rewrite Hins. split.
    + intros (k & s1 & [(-> & -> & Hv & Hk)|[Hn Hh]] & <-); [exfalso; apply Hne; rewrite <- Hk; by apply Hx|by exists k, s1].
    + intros (k & s1 & Hh & <-). exists k, s1. split; [|done]. right. split; [|done]. intros ->.
      destruct Hh as (Hl & Hv & Hk). rewrite Hi in Hl. simplify_eq. by apply Hne, Hs.
Qed.

Lemma store_drop_spec key store :
  store_wf store →
  store_wf (store_drop key store) ∧ store_get key (store_drop key store) = None ∧
  (∀ key', key' ≠ key → store_get key' (store_drop key store) = store_get key' store).
Proof.
  intros Hwf. unfold store_drop. pose proof (find_spec key store) as Hf.
  destruct (fst (qos_store_find key false store)) as [i|] eqn:Hi.
  - destruct Hf as (k & s & -> & Hh). unfold zmod. rewrite (zget_nat store k s) by apply Hh. rewrite zset_nat.
    cbn. refine (store_put key store k (mk_qos_cfg_slot (t_key s) (t_cfg s) false) s Hwf (proj1 Hh) (fun _ => proj2 (proj2 Hh)) _ _); [|done]. intros j s' Hj. by eapply Hwf.
  - split_and!; [done| |done]. unfold store_get. by rewrite Hi.
Qed.

Lemma store_update_spec key cfg store :
  store_wf store → qc_cir_Bps cfg ≠ 0 →
  match store_update key cfg store with
  | Some store' =>
      store_wf store' ∧ store_get key store' = Some cfg ∧ (∀ key', key' ≠ key → store_get key' store' = store_get key' store)
  | None => Forall (fun s => t_valid s = true) store ∧ store_get key store = None
  end.
Proof.
  intros Hwf Hc. unfold store_update. rewrite (proj2 (Z.eqb_neq _ _) Hc). unfold qos_store_find.
  pose proof (scan_spec key store 0 None) as Hs. destruct (store_scan key 0 None store) as [j|[j|]] eqn:Hscan.
  - destruct Hs as (k & s & -> & Hh). rewrite Z.add_0_l. unfold zmod. rewrite (zget_nat store k s) by apply Hh. rewrite zset_nat.
    cbn. refine (store_put key store k (mk_qos_cfg_slot (t_key s) cfg true) s Hwf (proj1 Hh) (fun _ => proj2 (proj2 Hh)) _ (fun _ => proj2 (proj2 Hh))).
    intros i s' Hi. by eapply Hwf.
  - destruct Hs as [Hn [|(k & s & -> & Hl & Hv)]]; [done|]. rewrite Z.add_0_l. unfold zmod. rewrite !zset_nat.
    rewrite (zget_nat _ k (mk_qos_cfg_slot key qos_cfg0 false)) by (apply list_lookup_insert_eq; by apply lookup_lt_Some in Hl).
    rewrite list_insert_insert_eq. refine (store_put key store k (mk_qos_cfg_slot key cfg true) s Hwf Hl _ _ _); [congruence|intros i s' Hi; by destruct (Hn i s')|done].
  - destruct Hs as [Hn [_ Hall]]. split; [done|]. unfold store_get, qos_store_find. by rewrite Hscan.
Qed.

(** ** The theorems *)

(** An update of a service's shaper is what a rule created later finds for it:
    the store answers the new configuration for the service and every other
    service's as before, an update to no rate (or a service removed) empties its
    entry, and the update is refused only by an unsupported mode, or when every
    slot is in use by another service. *)
Theorem qos_update_then_lookup now_up now_down key cir pir cbs dir mode c :
  store_wf (c_store c) →
  let cfg := update_cfg cir pir cbs dir mode in
  let '(c', rc) := proxy_update_qos_config now_up now_down key cir pir cbs dir mode c in
  if rc =? 0 then
    store_wf (c_store c') ∧
    store_get key (c_store c') = (if qc_cir_Bps cfg =? 0 then None else Some cfg) ∧
    (∀ key', key' ≠ key → store_get key' (c_store c') = store_get key' (c_store c)) ∧
    store_get key (c_store (qos_service_teardown key c')) = None
  else
    c' = c ∧ qc_cir_Bps cfg ≠ 0 ∧
    (qc_mode cfg ≠ QOS_MODE_SHAPE ∨ Forall (fun s => t_valid s = true) (c_store c) ∧ store_get key (c_store c) = None).
Proof.
  intros Hwf cfg. unfold proxy_update_qos_config. fold cfg.
  destruct (negb (qc_mode cfg =? QOS_MODE_SHAPE) && negb (qc_cir_Bps cfg =? 0)) eqn:Em.
  { cbn. zbool. split_and!; [done..|by left]. }
  assert (Ht : ∀ c', store_wf (c_store c') → store_get key (c_store (qos_service_teardown key c')) = None).
  { intros c' Hw. unfold qos_service_teardown. destruct (on_svc _ _ _ _) as [svcs n]. apply (store_drop_spec key (c_store c') Hw). }
  destruct (decide (qc_cir_Bps cfg = 0)) as [H0|H0].
  - unfold store_update. rewrite H0. destruct (store_drop_spec key (c_store c) Hwf) as (H1 & H2 & H3).
    cbn [Z.eqb]. destruct (on_svc key _ _ _) as [svcs n]. cbn. split_and!; [done..|]. by apply Ht.
  - pose proof (store_update_spec key cfg (c_store c) Hwf H0) as Hu. destruct (store_update key cfg (c_store c)) as [store'|].
    + destruct (on_svc key _ _ _) as [svcs n]. cbn [Z.eqb]. rewrite (proj2 (Z.eqb_neq _ _) H0). destruct Hu as (H1 & H2 & H3).
      split_and!; [done..|]. by apply Ht.
    + cbn. split_and!; [done..|by right].
Qed.

Definition wit_store : list qos_cfg_slot := zrep 4 (mk_qos_cfg_slot (mk_proxy_ent 0 0 0) qos_cfg0 false).
Definition wit_ctl0 : qos_ctl := mk_qos_ctl wit_store [] wit_n0 0.
Definition wit_key : proxy_ent := mk_proxy_ent 167772161 443 6.

Lemma qos_update_then_lookup_witness :
  store_get wit_key (c_store (fst (proxy_update_qos_config 1 2 wit_key 8000000 0 0 0 0 wit_ctl0))) =
  Some (mk_proxy_qos_cfg 1000000 0 0 QOS_DIR_UPLOAD QOS_MODE_SHAPE).
Proof.
  assert (Hwf : store_wf (c_store wit_ctl0)).
  { intros key i j s s' (H1 & H2 & _). exfalso. apply lookup_replicate in H1 as [-> _]. done. }
  pose proof (qos_update_then_lookup 1 2 wit_key 8000000 0 0 0 0 wit_ctl0 Hwf) as H. cbv zeta in H.
  destruct (proxy_update_qos_config 1 2 wit_key 8000000 0 0 0 0 wit_ctl0) as [c' rc] eqn:E.
  assert (rc = 0) as -> by exact (f_equal snd (eq_sym E)). exact (proj1 (proj2 H)).
Defined.

Lemma tick_tokens cfg now b :
  b_tokens b ≤ qos_effective_cbs cfg → b_tokens (fst (qos_tick_bucket cfg now b)) ≤ qos_effective_cbs cfg.
Proof.
  intros Hb. unfold qos_tick_bucket. set (b1 := fst (qos_bucket_refill _ _ now b)).
  assert (H1 : b_tokens b1 ≤ qos_effective_cbs cfg).
  { subst b1. unfold qos_bucket_refill, refill_claim. repeat (case_test; try done). cbn. unfold refill_clamp. case_test; cbn; [lia|]. by zbool. }
  case_test; done.
Qed.

(** A burst configured below the smallest grant starves its service: whatever
    ticks refill the bucket, a reader with room for a grant or more is parked
    again every time, and reads nothing. *)
Theorem qos_small_burst_starves cfg t0 b0 ticks owner now fd want sock_read p :
  qos_effective_cbs cfg < QOS_MIN_GRANT → QOS_MIN_GRANT ≤ want →
  let b := foldl (fun b t => fst (qos_tick_bucket cfg t b)) (qos_bucket_init cfg t0 b0) ticks in
  zlen (b_parked b) < QOS_MAX_PARKED →
  let '(b', p', r) := qos_relay_read owner now fd want sock_read b p in r = None ∧ f_parked p' = true ∧ b_tokens b' = b_tokens b.
Proof.
  intros Hc Hw b Hroom. assert (Hb : b_tokens b ≤ qos_effective_cbs cfg).
  { subst b. clear Hroom. assert (Hi : b_tokens (qos_bucket_init cfg t0 b0) ≤ qos_effective_cbs cfg) by done.
    revert Hi. generalize (qos_bucket_init cfg t0 b0). induction ticks as [|t l IH]; intros b Hi; [done|]. apply IH. by apply tick_tokens. }
  clearbody b. unfold QOS_MIN_GRANT in *.
  assert (Ht : qos_bucket_take want b = (b, 0)).
  { unfold qos_bucket_take. rewrite (proj2 (Z.eqb_neq _ _)) by lia. case_test; [done|]. rewrite (proj2 (Z.ltb_lt (b_tokens b) want)) by lia.
    unfold QOS_MIN_GRANT. rewrite (proj2 (Z.ltb_lt (b_tokens b) 2048)), (proj2 (Z.ltb_lt (b_tokens b) want)) by lia. done. }
  unfold qos_relay_read. rewrite (Z.gtb_ltb want 0), (proj2 (Z.ltb_lt 0 want)), Ht by lia. cbn [andb Z.eqb].
  unfold qos_park_reader. rewrite Z.geb_leb, (proj2 (Z.leb_gt _ _)) by done. done.
Qed.

Lemma qos_small_burst_starves_witness :
  snd (qos_relay_read 0 0 9 1048576 (fun n => n)
    (foldl (fun b t => fst (qos_tick_bucket (mk_proxy_qos_cfg 125000000 0 1500 1 1) t b)) (qos_bucket_init (mk_proxy_qos_cfg 125000000 0 1500 1 1) 0 wit_qos_b0)
       [5000000; 10000000; 15000000]) wit_qos_p0) = None.
Proof.
  pose proof (qos_small_burst_starves (mk_proxy_qos_cfg 125000000 0 1500 1 1) 0 wit_qos_b0 [5000000; 10000000; 15000000] 0 0 9 1048576 (fun n => n) wit_qos_p0
    ltac:(by vm_compute) ltac:(by vm_compute) ltac:(by vm_compute)) as H.
  destruct (qos_relay_read _ _ _ _ _ _ _) as [[b' p'] r]. exact (proj1 H).
Defined.

(** The wake of the parked readers forgets a reader whose wake the notifier
    refuses: with the owner's resume ring full the bucket's ring is emptied, and
    no wake is queued for anyone that was on it. *)
Theorem qos_wake_refused_strands b n :
  (∀ w, w ∈ b_parked b → MAX_NOTIFY_RESUME_PENDING ≤ pc_rq_count (zget (nc_poll n) (k_owner_thr w))) →
  wake_bucket b n = (b <| b_parked := [] |>, n).
Proof.
  intros Hf. unfold wake_bucket, qos_wake_all_parked. f_equal. unfold qos_send_wakes.
  induction (b_parked b) as [|w l IH]; [done|]. cbn [foldl].
  assert (Hw : fst (notify_wake_worker (k_owner_thr w) (k_fd w) n) = n).
  { unfold notify_wake_worker, notify_wake_worker_gen. case_test; [done|]. rewrite Z.geb_leb, (proj2 (Z.leb_le _ _)); [done|]. apply Hf. by left. }
  rewrite Hw. apply IH. intros x Hx. apply Hf. by right.
Qed.

(** A worker with 4096 resumes pending and a bucket with one reader of it. *)
Definition wit_full_ring : notify_ctx :=
  mod_poll 1 (fun p => p <| pc_rq := zrep MAX_NOTIFY_RESUME_PENDING 8 |> <| pc_rq_count := MAX_NOTIFY_RESUME_PENDING |>) wit_n0.
Definition wit_one_parked : proxy_qos_bucket := mk_proxy_qos_bucket 65536 0 0 0 1 0 [mk_qos_parked_fd 9 1 4].

Lemma qos_wake_refused_strands_witness :
  ring_ok (zget (nc_poll wit_full_ring) 1) ∧ b_parked (fst (wake_bucket wit_one_parked wit_full_ring)) = [] ∧
  snd (wake_bucket wit_one_parked wit_full_ring) = wit_full_ring.
Proof.
  split; [split; by vm_compute|].
  rewrite (qos_wake_refused_strands wit_one_parked wit_full_ring); [done|].
  intros w Hw. apply list_elem_of_singleton in Hw as ->. by vm_compute.
Defined.
