(* ===== verification/PdTrie.v ===== *)
(** * The prefix tree of the cache-aware choice (src/common/sockproxy_pd_trie.c)

    A compressed radix tree from request text to the endpoint that served it:
    match, insert with its splits, removal of an endpoint in two passes, and
    eviction of the oldest leaf, with the merges and the node count. A node
    carries the address it was allocated at, which is what the prune list and
    the eviction hold. The specification is the set of (text, endpoint) pairs of
    the tree. Here: the operations, and the lemmas on match and insert; [PdTrieInv]
    has the invariant and the theorems. *)

From Stdlib Require Import Wf_nat.
From stdpp Require Import base list gmap numbers.
From S2P Require Import Prelude.

#[local] Set Warnings "-register-all".

(** ** The tree *)

(** Bytes are integers; children are the linked list in order, each under the key
    its entry holds. *)
Inductive node : Type :=
| Node (id : Z) (label : list Z) (ep ts : Z) (children : list (Z * node)).

Definition n_id (n : node) : Z := match n with Node i _ _ _ _ => i end.
Definition n_label (n : node) : list Z := match n with Node _ l _ _ _ => l end.
Definition n_ep (n : node) : Z := match n with Node _ _ e _ _ => e end.
Definition n_ts (n : node) : Z := match n with Node _ _ _ t _ => t end.
Definition n_children (n : node) : list (Z * node) := match n with Node _ _ _ _ cs => cs end.
Definition with_ep (e t : Z) (n : node) : node := match n with Node i l _ _ cs => Node i l e t cs end.
Definition with_ts (t : Z) (n : node) : node := match n with Node i l e _ cs => Node i l e t cs end.
Definition with_label (l : list Z) (n : node) : node := match n with Node i _ e t cs => Node i l e t cs end.
Definition with_children (cs : list (Z * node)) (n : node) : node := match n with Node i l e t _ => Node i l e t cs end.

(** The tree, its count of nodes, and the next address. *)
Record pd_trie := mk_pd_trie { t_root : node; t_node_count : Z; t_next : Z }.
#[export] Instance pd_trie_eta : RecordEta pd_trie := fun r => mk_pd_trie (t_root r) (t_node_count r) (t_next r).

Definition alloc_node (id : Z) (label : list Z) : node := Node id label (-1) 0 [].

Fixpoint shared_prefix_len (a b : list Z) : nat :=
  match a, b with
  | x :: a, y :: b => if x =? y then S (shared_prefix_len a b) else O
  | _, _ => O
  end.

Fixpoint find_entry (cs : list (Z * node)) (key : Z) : option node :=
  match cs with
  | [] => None
  | (k, n) :: cs => if k =? key then Some n else find_entry cs key
  end.
Definition find_child (n : node) (key : Z) : option node := find_entry (n_children n) key.

(** The first entry of a key points to another node. *)
Fixpoint set_entry (cs : list (Z * node)) (key : Z) (n : node) : list (Z * node) :=
  match cs with
  | [] => []
  | (k, m) :: cs => if k =? key then (k, n) :: cs else (k, m) :: set_entry cs key n
  end.
Definition set_child (n : node) (key : Z) (c : node) : node := with_children (set_entry (n_children n) key c) n.

(** [ok] is whether the entry could be allocated; without it the child is not
    linked. *)
Definition add_child (ok : bool) (n : node) (key : Z) (c : node) : node :=
  if ok then with_children ((key, c) :: n_children n) n else n.

Fixpoint remove_entry (cs : list (Z * node)) (key : Z) : list (Z * node) :=
  match cs with
  | [] => []
  | (k, m) :: cs => if k =? key then cs else (k, m) :: remove_entry cs key
  end.
Definition remove_child (n : node) (key : Z) : node := with_children (remove_entry (n_children n) key) n.

(** The node that takes the place of one with a single child and no endpoint,
    under the same key of the grandparent, when the joined label can be allocated
    ([ok]); and whether a node was freed. *)
Definition merge_with_single_child (ok : Z → bool) (n : node) : node * bool :=
  match n with
  | Node id l e _ [(_, c)] => if (e >=? 0) || negb (ok id) then (n, false) else (with_label (l ++ n_label c) c, true)
  | _ => (n, false)
  end.

(** ** Match *)

(** The descent from [cur] with [rest] of the text left at [pos]; the time of each
    node that answers is stamped. *)
Fixpoint match_from (fuel : nat) (now : Z) (cur : node) (rest : list Z) (pos : Z) (best : option (Z * Z)) :
    node * option (Z * Z) :=
  match fuel, rest with
  | S fuel, c :: _ =>
      match find_child cur c with
      | None => (cur, best)
      | Some child =>
          let m := shared_prefix_len (n_label child) rest in
          if (m =? 0)%nat then (cur, best)
          else if (m =? length (n_label child))%nat then
            let pos := pos + Z.of_nat m in
            let '(child, best) := if n_ep child >=? 0 then (with_ts now child, Some (n_ep child, pos)) else (child, best) in
            let '(child, best) := match_from fuel now child (drop m rest) pos best in
            (set_child cur c child, best)
          else (cur, best)
      end
  | _, _ => (cur, best)
  end.

(** The endpoint and how much of the text its node covers. *)
Definition pd_trie_match (now : Z) (text : list Z) (t : pd_trie) : pd_trie * option (Z * Z) :=
  match text with
  | [] => (t, None)
  | _ =>
      let best := if n_ep (t_root t) >=? 0 then Some (n_ep (t_root t), 0) else None in
      let '(root, best) := match_from (length text) now (t_root t) text 0 best in
      (t <| t_root := root |>, best)
  end.

(** ** Insert *)

(** Which of an insert's allocations succeed. *)
Record heap := mk_heap { h_leaf : bool; h_leaf_entry : bool; h_mid : bool; h_suffix : bool; h_child_entry : bool }.
Definition heap_ok : heap := mk_heap true true true true true.

(** A new leaf under [n]; the count of new nodes. *)
Definition insert_leaf (h : heap) (now id : Z) (n : node) (rest : list Z) (ep : Z) : node * Z :=
  match rest with
  | c :: _ => if h_leaf h then (add_child (h_leaf_entry h) n c (with_ep ep now (alloc_node id rest)), 1) else (n, 0)
  | [] => (n, 0)
  end.

(** The split of [child] (reached under [key]) after [m] bytes of its label: the
    node in its place, the new nodes. None: nothing was changed. *)
Definition split_child (h : heap) (now id : Z) (child : node) (m : nat) (rest : list Z) (ep : Z) : option (node * Z) :=
  if negb (h_mid h) then None
  else if negb (h_suffix h) then None
  else
    let mid := alloc_node id (take m (n_label child)) in
    let suffix := drop m (n_label child) in
    let child := with_label suffix child in
    let mid := match suffix with c :: _ => add_child (h_child_entry h) mid c child | [] => mid end in
    match drop m rest with
    | [] => Some (with_ep ep now mid, 1)
    | rest' =>
        if negb (h_leaf h) then Some (mid, 1)
        else
          let '(mid, k) := insert_leaf h now (id + 1) mid rest' ep in
          Some (if n_ep mid <? 0 then with_ep (n_ep child) (n_ts mid) mid else mid, 1 + k)
    end.

Fixpoint insert_from (fuel : nat) (h : heap) (now id : Z) (cur : node) (rest : list Z) (ep : Z) : node * Z :=
  match fuel, rest with
  | S fuel, c :: _ =>
      match find_child cur c with
      | None => insert_leaf h now id cur rest ep
      | Some child =>
          let m := shared_prefix_len (n_label child) rest in
          if (m =? length (n_label child))%nat then
            let '(child, k) := insert_from fuel h now id child (drop m rest) ep in (set_child cur c child, k)
          else
            match split_child h now id child m rest ep with
            | Some (mid, k) => (set_child cur c mid, k)
            | None => (cur, 0)
            end
      end
  | _, _ => (with_ep ep now cur, 0)
  end.

Definition pd_trie_insert (h : heap) (now : Z) (text : list Z) (ep : Z) (t : pd_trie) : pd_trie :=
  match text with
  | [] => t
  | _ =>
      let '(root, k) := insert_from (length text) h now (t_next t) (t_root t) text ep in
      mk_pd_trie root (t_node_count t + k) (t_next t + 2)
  end.

(** ** Removal of an endpoint *)

Definition MAX_PRUNE_BATCH : Z := 256.

(** Pass 1: the endpoint cleared, children first; the childless nodes that lost
    it, as many as the list holds. *)
Fixpoint remove_ep_clear_dfs (ep_idx : Z) (n : node) (prune : list Z) : node * list Z :=
  match n with
  | Node id l e ts cs =>
      let '(cs, prune) :=
        (fix each cs prune :=
           match cs with
           | [] => ([], prune)
           | (k, c) :: cs =>
               let '(c, prune) := remove_ep_clear_dfs ep_idx c prune in
               let '(cs, prune) := each cs prune in ((k, c) :: cs, prune)
           end) cs prune in
      if e =? ep_idx then
        (Node id l (-1) ts cs,
         match cs with [] => if zlen prune <? MAX_PRUNE_BATCH then prune ++ [id] else prune | _ => prune end)
      else (Node id l e ts cs, prune)
  end.

(** The key of the entry whose childless node is at [id]. *)
Fixpoint entry_of (id : Z) (cs : list (Z * node)) : option Z :=
  match cs with
  | [] => None
  | (k, c) :: cs => if n_id c =? id then match n_children c with [] => Some k | _ => None end else entry_of id cs
  end.

(** The node at [id], a childless child somewhere below [n], unlinked and freed,
    and its parent merged unless it is the root: the node in [n]'s place and how
    many were freed. *)
Fixpoint unlink (ok : Z → bool) (root : bool) (id : Z) (n : node) : option (node * Z) :=
  match n with
  | Node _ _ _ _ cs =>
      match entry_of id cs with
      | Some key =>
          let n := remove_child n key in
          if root then Some (n, 1)
          else let '(n, merged) := merge_with_single_child ok n in Some (n, if merged then 2 else 1)
      | None =>
          (fix each done cs :=
             match cs with
             | [] => None
             | (k, c) :: cs =>
                 match unlink ok false id c with
                 | Some (c, freed) => Some (with_children (done ++ (k, c) :: cs) n, freed)
                 | None => each (done ++ [(k, c)]) cs
                 end
             end) [] cs
      end
  end.

(** Pass 2 on one collected node. *)
Definition prune_one (ok : Z → bool) (t : pd_trie) (id : Z) : pd_trie :=
  match unlink ok true id (t_root t) with
  | Some (root, freed) => t <| t_root := root |> <| t_node_count ::= (fun k => k - freed) |>
  | None => t
  end.
Definition pd_trie_remove_ep (ok : Z → bool) (ep_idx : Z) (t : pd_trie) : pd_trie :=
  let '(root, prune) := remove_ep_clear_dfs ep_idx (t_root t) [] in
  foldl (prune_one ok) (t <| t_root := root |>) prune.

(** ** Eviction *)

(** The leaf with an endpoint and the oldest time, the node before its children. *)
Fixpoint find_oldest_leaf (n : node) (oldest : option (Z * Z)) : option (Z * Z) :=
  match n with
  | Node id _ e ts cs =>
      let oldest :=
        match cs with
        | [] => if e >=? 0 then
                  match oldest with
                  | Some (_, ots) => if ts <? ots then Some (id, ts) else oldest
                  | None => Some (id, ts)
                  end
                else oldest
        | _ => oldest
        end in
      foldl (fun o kc => find_oldest_leaf (snd kc) o) oldest cs
  end.

(** One turn of the loop; none when there is nothing to evict. *)
Definition evict_one (ok : Z → bool) (t : pd_trie) : option pd_trie :=
  '(id, _) ← find_oldest_leaf (t_root t) None; Some (prune_one ok t id).
Fixpoint evict_from (ok : Z → bool) (fuel : nat) (max_nodes : Z) (t : pd_trie) : pd_trie :=
  match fuel with
  | O => t
  | S fuel =>
      if t_node_count t >? max_nodes
      then match evict_one ok t with Some t => evict_from ok fuel max_nodes t | None => t end
      else t
  end.
(** Each turn frees a node, so the count of nodes is turns enough. *)
Definition pd_trie_evict_lru (ok : Z → bool) (max_nodes : Z) (t : pd_trie) : pd_trie := evict_from ok (Z.to_nat (t_node_count t)) max_nodes t.

Definition pd_trie_create (id : Z) : pd_trie := mk_pd_trie (alloc_node id []) 1 (id + 1).
(** The release of a whole tree: the count it leaves. *)
Fixpoint free_subtree (n : node) (count : Z) : Z :=
  match n with Node _ _ _ _ cs => foldl (fun count kc => free_subtree (snd kc) count) count cs - 1 end.
Definition pd_trie_free (t : pd_trie) : Z := free_subtree (t_root t) (t_node_count t).
Definition pd_trie_node_count (t : pd_trie) : Z := t_node_count t.

(** ** What a tree records *)

(** The node at a path: the labels from below [n] down to it. *)
Inductive at_path : node → list Z → node → Prop :=
| at_here n : at_path n [] n
| at_child n k c p m : (k, c) ∈ n_children n → at_path c p m → at_path n (n_label c ++ p) m.

(** The text [p] is recorded with endpoint [e]. *)
Definition has_ep (n : node) (p : list Z) (e : Z) : Prop := ∃ m, at_path n p m ∧ n_ep m = e ∧ 0 ≤ e.

(** Entries have distinct keys, each the first byte of its node's label. *)
Inductive tree_ok : node → Prop :=
| tree_ok_node n :
    NoDup (fst <$> n_children n) →
    (∀ k c, (k, c) ∈ n_children n → ∃ l, n_label c = k :: l) →
    (∀ k c, (k, c) ∈ n_children n → tree_ok c) → tree_ok n.

Lemma wf_keys n : tree_ok n → NoDup (fst <$> n_children n).
Proof. by destruct 1. Qed.
Lemma wf_label n k c : tree_ok n → (k, c) ∈ n_children n → ∃ l, n_label c = k :: l.
Proof. destruct 1 as [n _ H _]. apply H. Qed.
Lemma wf_child n k c : tree_ok n → (k, c) ∈ n_children n → tree_ok c.
Proof. destruct 1 as [n _ _ H]. apply H. Qed.

Lemma find_entry_in cs key c : find_entry cs key = Some c → (key, c) ∈ cs.
Proof.
  induction cs as [|[k n] cs IH]; cbn; [done|]. destruct (k =? key) eqn:E; zbool; intros H; simplify_eq; [by left|right; by apply IH].
Qed.

Lemma find_entry_none cs key c : find_entry cs key = None → (key, c) ∉ cs.
Proof.
  induction cs as [|[k n] cs IH]; cbn; [intros _ H; by apply elem_of_nil in H|]. destruct (k =? key) eqn:E; zbool; [done|].
  intros H. apply not_elem_of_cons. split; [congruence|by apply IH].
Qed.

Lemma find_entry_unique cs key c : NoDup (fst <$> cs) → (key, c) ∈ cs → find_entry cs key = Some c.
Proof.
  induction cs as [|[k n] cs IH]; cbn; intros Hn Hin; [by apply elem_of_nil in Hin|]. apply list.NoDup_cons in Hn as [Hk Hn].
  apply elem_of_cons in Hin as [He|Hin]; [simplify_eq; by rewrite Z.eqb_refl|].
  rewrite (proj2 (Z.eqb_neq _ _)); [by apply IH|]. intros ->. apply Hk. apply list_elem_of_fmap. by exists (key, c).
Qed.

(** A path is empty at the node itself, or starts with a child's label. *)
Lemma at_path_inv n p m :
  at_path n p m → (p = [] ∧ m = n) ∨ ∃ k c q, (k, c) ∈ n_children n ∧ p = n_label c ++ q ∧ at_path c q m.
Proof. destruct 1 as [n|n k c p m Hin Hp]; [by left|]. right. by exists k, c, p. Qed.

Lemma at_path_nil n m : tree_ok n → at_path n [] m → m = n.
Proof.
  intros Hw Hp. destruct (at_path_inv n [] m Hp) as [[_ ->]|(k & c & q & Hin & He & _)]; [done|].
  destruct (wf_label n k c Hw Hin) as [l Hl]. by rewrite Hl in He.
Qed.

Lemma at_path_cons n b p m :
  tree_ok n → at_path n (b :: p) m ↔ ∃ c q, find_child n b = Some c ∧ b :: p = n_label c ++ q ∧ at_path c q m.
Proof.
  intros Hw. split.
  - intros Hp. destruct (at_path_inv _ _ _ Hp) as [[H _]|(k & c & q & Hin & He & Hq)]; [done|].
    destruct (wf_label n k c Hw Hin) as [l Hl]. exists c, q. split_and!; [|done..].
    rewrite Hl in He. injection He as -> _. exact (find_entry_unique _ _ _ (wf_keys n Hw) Hin).
  - intros (c & q & Hf & He & Hq). rewrite He. apply (at_child n b c q m); [by apply find_entry_in|exact Hq].
Qed.

Lemma has_ep_nil n e : tree_ok n → has_ep n [] e ↔ n_ep n = e ∧ 0 ≤ e.
Proof.
  intros Hw. split; [intros (m & Hp & He & H0); by rewrite <- (at_path_nil n m Hw Hp)|]. intros [He H0]. exists n. by split; [constructor|].
Qed.

Lemma has_ep_cons n b p e :
  tree_ok n → has_ep n (b :: p) e ↔ ∃ c q, find_child n b = Some c ∧ b :: p = n_label c ++ q ∧ has_ep c q e.
Proof.
  intros Hw. unfold has_ep. split.
  - intros (m & Hp & He). apply at_path_cons in Hp as (c & q & H1 & H2 & H3); [|done]. exists c, q. split_and!; [done..|]. by exists m.
  - intros (c & q & H1 & H2 & m & H3 & He). exists m. split; [|done]. apply at_path_cons; [done|]. by exists c, q.
Qed.

Lemma find_child_wf n b c : tree_ok n → find_child n b = Some c → tree_ok c ∧ ∃ l, n_label c = b :: l.
Proof.
  intros Hw Hf. apply find_entry_in in Hf. split; [by eapply wf_child|]. by eapply wf_label.
Qed.

(** A text has one node, so one endpoint. *)
Lemma has_ep_fun n p e e' : tree_ok n → has_ep n p e → has_ep n p e' → e = e'.
Proof.
  revert n. induction p as [p IH] using (induction_ltof1 _ (@length Z)). unfold ltof in IH. intros n Hw H1 H2.
  destruct p as [|b p]; [apply has_ep_nil in H1 as [<- _], H2 as [<- _]; done|].
  apply has_ep_cons in H1 as (c & q & Hf & Hq & H1); [|done]. apply has_ep_cons in H2 as (c' & q' & Hf' & Hq' & H2); [|done].
  rewrite Hf in Hf'. injection Hf' as <-. destruct (find_child_wf n b c Hw Hf) as [Hwc [l Hl]]. rewrite Hq in Hq'. apply app_inv_head in Hq' as <-.
  eapply (IH q); [|exact Hwc|exact H1|exact H2]. apply (f_equal length) in Hq. rewrite Hl, length_app in Hq. cbn in *. lia.
Qed.

(** ** Match *)

Lemma spl_full a b : shared_prefix_len a b = length a → ∃ q, b = a ++ q ∧ drop (length a) b = q.
Proof.
  revert b. induction a as [|x a IH]; intros b; cbn; [intros _; by exists b|]. destruct b as [|y b]; [done|].
  destruct (x =? y) eqn:E; [|done]. zbool. subst y. intros [= H]. destruct (IH b H) as (q & -> & Hd). exists q. split; [done|]. cbn. by rewrite Hd.
Qed.

Lemma spl_app a q : shared_prefix_len a (a ++ q) = length a.
Proof. induction a as [|x a IH]; cbn; [done|]. by rewrite Z.eqb_refl, IH. Qed.

Lemma spl_le a b : (shared_prefix_len a b ≤ length a)%nat ∧ (shared_prefix_len a b ≤ length b)%nat.
Proof.
  revert b. induction a as [|x a IH]; intros [|y b]; cbn; try lia. destruct (x =? y); [|lia]. destruct (IH b). lia.
Qed.

(** The recorded texts that are prefixes of [rest], the empty one apart. *)
Definition prefix_ep (n : node) (rest p : list Z) (e : Z) : Prop := has_ep n p e ∧ p `prefix_of` rest ∧ p ≠ [].

(** [best'] improves [best] by the longest of them. *)
Definition longest (n : node) (rest : list Z) (pos : Z) (best best' : option (Z * Z)) : Prop :=
  (∃ p e, prefix_ep n rest p e ∧ (∀ p' e', prefix_ep n rest p' e' → (length p' ≤ length p)%nat) ∧ best' = Some (e, pos + zlen p)) ∨
  ((∀ p e, ¬ prefix_ep n rest p e) ∧ best' = best).

(** Trees that record the same. *)
Definition same_eps (n n' : node) : Prop := ∀ p e, has_ep n' p e ↔ has_ep n p e.

Lemma has_ep_with_ts now n p e : has_ep (with_ts now n) p e ↔ has_ep n p e.
Proof.
  destruct n as [i l e0 t cs]. unfold has_ep. split; intros (m & Hp & He); apply at_path_inv in Hp as [[-> ->]|(k & c & q & Hin & -> & Hq)].
  - eexists. split; [constructor|done].
  - exists m. split; [by eapply (at_child (Node i l e0 t cs))|done].
  - eexists. split; [constructor|done].
  - exists m. split; [by eapply (at_child (Node i l e0 now cs))|done].
Qed.

Lemma tree_ok_children n n' : n_children n' = n_children n → tree_ok n → tree_ok n'.
Proof. intros He Hn. constructor; rewrite He; [by apply wf_keys|intros k c; by apply wf_label|intros k c; by apply wf_child]. Qed.

Lemma set_entry_in cs key c k x :
  NoDup (fst <$> cs) → (k, x) ∈ set_entry cs key c ↔ (k ≠ key ∧ (k, x) ∈ cs) ∨ (k = key ∧ x = c ∧ is_Some (find_entry cs key)).
Proof.
  induction cs as [|[k0 n0] cs IH]; cbn; intros Hn.
  - split; [intros H; by apply elem_of_nil in H|]. intros [[_ H]|(_ & _ & [y Hy])]; [by apply elem_of_nil in H|done].
  - apply list.NoDup_cons in Hn as [Hk Hn]. specialize (IH Hn). destruct (k0 =? key) eqn:E; zbool.
    + subst k0. rewrite !elem_of_cons. split.
      * intros [He|Hin]; [simplify_eq; right; eauto|]. left. split; [|by right]. intros ->. apply Hk. apply list_elem_of_fmap. by exists (key, x).
      * intros [[Hne [He|Hin]]|(-> & -> & _)]; [simplify_eq|by right|by left].
    + rewrite !elem_of_cons, IH. split.
      * intros [He|[[Hne Hin]|H]]; [simplify_eq; left; by split; [|left]|left; by split; [|right]|by right].
      * intros [[Hne [He|Hin]]|H]; [simplify_eq; by left|right; left; by split|by right; right].
Qed.

Lemma set_entry_keys cs key c : fst <$> set_entry cs key c = fst <$> cs.
Proof. induction cs as [|[k n] cs IH]; cbn; [done|]. destruct (k =? key); cbn; [done|]. by f_equal. Qed.

Lemma set_child_children n key c : n_children (set_child n key c) = set_entry (n_children n) key c.
Proof. by destruct n. Qed.

(** A child replaced by one with a label of the same first byte. *)
Lemma set_child_ok n b c c' :
  tree_ok n → find_child n b = Some c → tree_ok c' → (∃ l, n_label c' = b :: l) → tree_ok (set_child n b c').
Proof.
  intros Hw Hf Hc Hl. constructor; rewrite set_child_children.
  - rewrite set_entry_keys. by apply wf_keys.
  - intros k x Hin. apply set_entry_in in Hin as [[_ Hin]|(-> & -> & _)]; [exact (wf_label n k x Hw Hin)|done|by apply wf_keys].
  - intros k x Hin. apply set_entry_in in Hin as [[_ Hin]|(-> & -> & _)]; [exact (wf_child n k x Hw Hin)|done|by apply wf_keys].
Qed.

Lemma find_set_child n b c c' k :
  tree_ok n → find_child n b = Some c → find_child (set_child n b c') k = if k =? b then Some c' else find_child n k.
Proof.
  intros Hw Hf. unfold find_child. rewrite set_child_children. unfold find_child in Hf. revert Hf.
  induction (n_children n) as [|[k0 n0] cs IH]; cbn; [done|]. destruct (k0 =? b) eqn:E; zbool; cbn.
  - subst k0. intros [= ->]. rewrite (Z.eqb_sym b k). by destruct (k =? b).
  - intros Hf. destruct (k0 =? k) eqn:E2; zbool; [|by apply IH]. subst k0. by rewrite (proj2 (Z.eqb_neq _ _)).
Qed.

Lemma set_child_ep n b c : n_ep (set_child n b c) = n_ep n ∧ n_label (set_child n b c) = n_label n ∧ n_id (set_child n b c) = n_id n.
Proof. by destruct n. Qed.

(** What a tree records once a child is replaced. *)
Lemma has_ep_set_child n b c c' p e :
  tree_ok n → find_child n b = Some c → tree_ok (set_child n b c') →
  has_ep (set_child n b c') p e ↔
    match p with
    | x :: _ => if x =? b then ∃ q, p = n_label c' ++ q ∧ has_ep c' q e else has_ep n p e
    | [] => has_ep n p e
    end.
Proof.
  intros Hw Hf Hw'. destruct p as [|x p]; [rewrite !has_ep_nil by done; rewrite (proj1 (set_child_ep n b c')); reflexivity|].
  rewrite (has_ep_cons (set_child n b c')) by done. setoid_rewrite (find_set_child n b c c' x Hw Hf).
  destruct (x =? b) eqn:E; [|rewrite (has_ep_cons n) by done; reflexivity].
  split; [intros (c0 & q & [= <-] & H); by exists q|]. intros (q & H). exists c', q. by split.
Qed.

(** The number of nodes. *)
Fixpoint tree_size (n : node) : Z :=
  match n with Node _ _ _ _ cs => 1 + foldr (fun kc acc => tree_size (snd kc) + acc) 0 cs end.
Definition kids_size (cs : list (Z * node)) : Z := foldr (fun kc acc => tree_size (snd kc) + acc) 0 cs.

Lemma tree_size_eq n : tree_size n = 1 + kids_size (n_children n).
Proof. by destruct n. Qed.

Lemma set_entry_size cs key c c' :
  find_entry cs key = Some c → kids_size (set_entry cs key c') = kids_size cs - tree_size c + tree_size c'.
Proof.
  unfold kids_size. induction cs as [|[k n] cs IH]; cbn [find_entry set_entry foldr snd]; [done|]. destruct (k =? key); cbn [foldr snd].
  - intros [= ->]. lia.
  - intros H. rewrite (IH H). lia.
Qed.

Lemma set_child_size n b c c' : find_child n b = Some c → tree_size (set_child n b c') = tree_size n - tree_size c + tree_size c'.
Proof.
  intros H. rewrite !tree_size_eq, set_child_children, (set_entry_size _ _ c c') by exact H. rewrite !tree_size_eq. lia.
Qed.

Lemma prefix_ep_child n b c rest p e :
  tree_ok n → find_child n b = Some c →
  prefix_ep n (b :: rest) p e ↔ ∃ q, p = n_label c ++ q ∧ has_ep c q e ∧ n_label c ++ q `prefix_of` b :: rest.
Proof.
  intros Hw Hf. unfold prefix_ep. split.
  - intros (He & Hp & Hne). destruct p as [|x p]; [done|]. destruct Hp as [k Hk]. cbn in Hk. injection Hk as <- Hk.
    apply has_ep_cons in He as (c0 & q & Hf0 & Hq & He); [|done]. rewrite Hf in Hf0. injection Hf0 as <-.
    exists q. split_and!; [done..|]. rewrite <- Hq. exists k. cbn. by f_equal.
  - intros (q & -> & He & Hp). destruct (find_child_wf n b c Hw Hf) as [_ [l Hl]]. rewrite Hl in *. split_and!; [|done|done].
    cbn. apply has_ep_cons; [done|]. exists c, q. split_and!; [done|by rewrite Hl|done].
Qed.

Lemma no_child_no_prefix n b rest p e : tree_ok n → find_child n b = None → ¬ prefix_ep n (b :: rest) p e.
Proof.
  intros Hw Hf (He & [k Hk] & Hne). destruct p as [|x p]; [done|]. cbn in Hk. injection Hk as <- Hk.
  apply has_ep_cons in He as (c & q & Hf' & _); [|done]. congruence.
Qed.

Lemma longest_ext n n' rest pos best best' : same_eps n n' → longest n' rest pos best best' → longest n rest pos best best'.
Proof.
  intros Hs. assert (Hp : ∀ p e, prefix_ep n' rest p e ↔ prefix_ep n rest p e) by (intros p e; unfold prefix_ep; by rewrite (Hs p e)).
  intros [(p & e & H1 & H2 & H3)|[H1 H2]]; [left; exists p, e; split_and!; [by apply Hp|intros p' e' H; by apply (H2 p' e'), Hp|done]|].
  right. split; [|done]. intros p e H. by apply (H1 p e), Hp.
Qed.

(** One edge matched in full. *)
Lemma longest_step cur b child rest q pos best best' :
  tree_ok cur → find_child cur b = Some child → tree_ok child → b :: rest = n_label child ++ q →
  longest child q (pos + zlen (n_label child)) (if n_ep child >=? 0 then Some (n_ep child, pos + zlen (n_label child)) else best) best' →
  longest cur (b :: rest) pos best best'.
Proof.
  intros Hw Hf Hwc Hq Hlong.
  assert (Hcand : ∀ p e, prefix_ep cur (b :: rest) p e ↔ ∃ p', p = n_label child ++ p' ∧ has_ep child p' e ∧ p' `prefix_of` q).
  { intros p e. rewrite (prefix_ep_child cur b child rest p e Hw Hf), Hq.
    split; intros (p' & H1 & H2 & H3); exists p'; split_and!; [done|done|by eapply prefix_app_inv|done|done|by apply prefix_app]. }
  destruct Hlong as [(p & e & (H1 & H2 & H3) & Hmax & ->)|[Hnone ->]].
  - left. exists (n_label child ++ p), e. split_and!; [apply Hcand; by exists p| |by rewrite zlen_app, Z.add_assoc].
    intros p' e' (p'' & -> & H4 & H5)%Hcand. rewrite !length_app. destruct p'' as [|x p'']; [cbn; lia|].
    specialize (Hmax (x :: p'') e'). unfold prefix_ep in Hmax. cut (length (x :: p'') ≤ length p)%nat; [lia|]. by apply Hmax.
  - assert (Honly : ∀ p' e', has_ep child p' e' → p' `prefix_of` q → p' = []).
    { intros [|x p'] e' H4 H5; [done|]. by destruct (Hnone (x :: p') e'). }
    rewrite Z.geb_leb. destruct (0 <=? n_ep child) eqn:E; zbool.
    + left. exists (n_label child), (n_ep child). split_and!; [|intros p' e' (p'' & -> & H4 & H5)%Hcand; rewrite (Honly p'' e' H4 H5), app_nil_r; lia|done].
      apply Hcand. exists []. rewrite app_nil_r. split_and!; [done|by apply has_ep_nil|apply prefix_nil].
    + right. split; [|done]. intros p e (p' & -> & H4 & H5)%Hcand. rewrite (Honly p' e H4 H5) in H4. apply has_ep_nil in H4; [lia|done].
Qed.

(** A child replaced by one with the same label that records the same. *)
Lemma set_child_same cur b child child' :
  tree_ok cur → find_child cur b = Some child → tree_ok child' → n_label child' = n_label child → same_eps child child' →
  tree_ok (set_child cur b child') ∧ same_eps cur (set_child cur b child').
Proof.
  intros Hw Hf Hw' Hl Hs. destruct (find_child_wf cur b child Hw Hf) as [Hwc [l Hlab]].
  assert (Hok : tree_ok (set_child cur b child')) by (eapply set_child_ok; [done..|exists l; by rewrite Hl]). split; [done|].
  intros p e. rewrite (has_ep_set_child cur b child child' p e Hw Hf Hok). destruct p as [|x p]; [done|].
  destruct (x =? b) eqn:E; zbool; [|done]. subst x. rewrite (has_ep_cons cur) by done. rewrite Hl. split.
  - intros (p' & Hp' & He). exists child, p'. split_and!; [done..|]. by apply Hs.
  - intros (c & p' & Hc & Hp' & He). rewrite Hf in Hc. injection Hc as <-. exists p'. split; [done|]. by apply Hs.
Qed.

Lemma match_from_spec fuel now cur rest pos best cur' best' :
  tree_ok cur → (length rest ≤ fuel)%nat → match_from fuel now cur rest pos best = (cur', best') →
  (tree_ok cur' ∧ same_eps cur cur' ∧ n_label cur' = n_label cur ∧ n_ep cur' = n_ep cur ∧ tree_size cur' = tree_size cur) ∧
  longest cur rest pos best best'.
Proof.
  revert cur rest pos best cur' best'. induction fuel as [|fuel IH]; intros cur rest pos best cur' best' Hw Hl.
  { destruct rest; [|cbn in Hl; lia]. cbn. intros [= <- <-]. split; [by split_and!|]. right. split; [|done].
    intros p e (_ & [k Hk] & Hne). by destruct p. }
  destruct rest as [|b rest]; cbn [match_from].
  { intros [= <- <-]. split; [by split_and!|]. right. split; [|done]. intros p e (_ & [k Hk] & Hne). by destruct p. }
  destruct (find_child cur b) as [child|] eqn:Hf.
  2: { intros [= <- <-]. split; [by split_and!|]. right. split; [|done]. intros p e. by apply no_child_no_prefix. }
  destruct (find_child_wf cur b child Hw Hf) as [Hwc [l Hlab]].
  assert (Hm : (shared_prefix_len (n_label child) (b :: rest) =? 0)%nat = false) by (rewrite Hlab; cbn; by rewrite Z.eqb_refl).
  rewrite Hm. destruct (shared_prefix_len (n_label child) (b :: rest) =? length (n_label child))%nat eqn:Hfull.
  2: { intros [= <- <-]. split; [by split_and!|]. right. split; [|done]. intros p e Hp.
       apply (prefix_ep_child cur b child rest p e Hw Hf) in Hp as (q & -> & _ & [k Hk]). rewrite <- app_assoc in Hk.
       rewrite Hk, spl_app, Nat.eqb_refl in Hfull. done. }
  apply Nat.eqb_eq in Hfull. rewrite Hfull. destruct (spl_full _ _ Hfull) as (q & Hq & ->).
  set (child1 := if n_ep child >=? 0 then with_ts now child else child).
  set (best1 := if n_ep child >=? 0 then Some (n_ep child, pos + Z.of_nat (length (n_label child))) else best).
  assert (Hgo : (if n_ep child >=? 0 then (with_ts now child, Some (n_ep child, pos + Z.of_nat (length (n_label child)))) else (child, best)) = (child1, best1)).
  { subst child1 best1. by destruct (n_ep child >=? 0). }
  rewrite Hgo. destruct (match_from fuel now child1 q _ best1) as [child2 best2] eqn:Hrec. intros [= <- <-].
  assert (H1 : tree_ok child1 ∧ same_eps child child1 ∧ n_label child1 = n_label child ∧ tree_size child1 = tree_size child).
  { subst child1. destruct (n_ep child >=? 0); [|by split_and!]. split_and!; [|by intros p e; apply has_ep_with_ts|by destruct child..].
    apply (tree_ok_children child); [by destruct child|done]. }
  destruct H1 as (Hw1 & Hs1 & Hl1 & Hz1).
  assert (Hlen : (length q ≤ fuel)%nat). { apply (f_equal length) in Hq. rewrite Hlab, length_app in Hq. cbn in *. lia. }
  destruct (IH child1 q _ best1 child2 best2 Hw1 Hlen Hrec) as [(Hw2 & Hs2 & Hl2 & _ & Hz2) Hlong].
  destruct (set_child_same cur b child child2 Hw Hf Hw2) as [Hok Hsame]; [congruence|intros p e; by rewrite (Hs2 p e)|].
  split; [split_and!; [done|done|by destruct cur..|rewrite (set_child_size cur b child child2 Hf); lia]|].
  eapply (longest_step cur b child rest q); [done..|]. by eapply longest_ext.
Qed.

(** ** Insert *)

(** The tree records [rest] with [ep], all it recorded before, and at most one
    more text: the point of a split, a shorter prefix that was no node, with the
    endpoint of a text below it. *)
Definition inserted (n n' : node) (rest : list Z) (ep : Z) : Prop :=
  ∃ ext : option (list Z * Z),
    (∀ q e, has_ep n' q e ↔ (q = rest ∧ e = ep) ∨ (q ≠ rest ∧ has_ep n q e) ∨ ext = Some (q, e)) ∧
    match ext with
    | None => True
    | Some (s, es) => s `prefix_of` rest ∧ s ≠ rest ∧ (∀ e, ¬ has_ep n s e) ∧ ∃ x, x ≠ [] ∧ has_ep n (s ++ x) es
    end.

Lemma spl_take a b : take (shared_prefix_len a b) a = take (shared_prefix_len a b) b.
Proof. revert b. induction a as [|x a IH]; intros [|y b]; cbn; try done. destruct (x =? y) eqn:E; cbn; [|done]. zbool. subst. by f_equal. Qed.

Lemma spl_stop a b x y p q :
  drop (shared_prefix_len a b) a = x :: p → drop (shared_prefix_len a b) b = y :: q → x ≠ y.
Proof.
  revert b. induction a as [|u a IH]; intros [|v b]; cbn; try done. destruct (u =? v) eqn:E; cbn; [apply IH|].
  zbool. intros [= <- _] [= <- _]. done.
Qed.

Lemma has_ep_children n n' p e :
  n_children n' = n_children n → tree_ok n → p ≠ [] → has_ep n' p e ↔ has_ep n p e.
Proof.
  intros Hc Hw Hp. destruct p as [|b p]; [done|].
  rewrite (has_ep_cons n' b p e (tree_ok_children n n' Hc Hw)), (has_ep_cons n b p e Hw).
  unfold find_child. by rewrite Hc.
Qed.

Lemma has_ep_leaf id l e0 ts p e : has_ep (Node id l e0 ts []) p e ↔ p = [] ∧ e = e0 ∧ 0 ≤ e.
Proof.
  split.
  - intros (m & Hp & He & H0). apply at_path_inv in Hp as [[-> ->]|(k & c & q & Hin & _)]; [done|by apply elem_of_nil in Hin].
  - intros (-> & -> & H0). eexists. split; [constructor|done].
Qed.

Lemma leaf_ok id l e ts : tree_ok (Node id l e ts []).
Proof. constructor; cbn; [constructor|intros k c H; by apply elem_of_nil in H..]. Qed.

(** A child linked under a new key. *)
Lemma add_child_ok n b c l :
  tree_ok n → find_child n b = None → tree_ok c → n_label c = b :: l → tree_ok (add_child true n b c).
Proof.
  intros Hw Hf Hc Hl. assert (Hch : n_children (add_child true n b c) = (b, c) :: n_children n) by (by destruct n).
  constructor; rewrite Hch.
  - cbn. apply list.NoDup_cons. split; [|by apply wf_keys]. intros ([k x] & Hk & Hin)%list_elem_of_fmap. cbn in Hk. subst k.
    by apply (find_entry_none _ _ x Hf).
  - intros k x [He|Hin]%elem_of_cons; [simplify_eq; by exists l|exact (wf_label n k x Hw Hin)].
  - intros k x [He|Hin]%elem_of_cons; [by simplify_eq|exact (wf_child n k x Hw Hin)].
Qed.

Lemma has_ep_add_child n b c p e :
  tree_ok n → tree_ok (add_child true n b c) →
  has_ep (add_child true n b c) p e ↔
    match p with
    | x :: _ => if x =? b then ∃ q, p = n_label c ++ q ∧ has_ep c q e else has_ep n p e
    | [] => has_ep n p e
    end.
Proof.
  intros Hw Hw'. assert (Hch : n_children (add_child true n b c) = (b, c) :: n_children n) by (by destruct n).
  destruct p as [|x p]; [rewrite !has_ep_nil by done; by destruct n|].
  rewrite (has_ep_cons (add_child true n b c)) by done. unfold find_child. rewrite Hch. cbn [find_entry].
  rewrite (Z.eqb_sym b x). destruct (x =? b) eqn:E; [|rewrite (has_ep_cons n) by done; reflexivity].
  split; [intros (c0 & q & [= <-] & H); by exists q|]. intros (q & H). exists c, q. by split.
Qed.

Lemma insert_here now n ep : tree_ok n → 0 ≤ ep → tree_ok (with_ep ep now n) ∧ inserted n (with_ep ep now n) [] ep.
Proof.
  intros Hw H0. assert (Hok : tree_ok (with_ep ep now n)) by (apply (tree_ok_children n); [by destruct n|done]). split; [done|].
  exists None. split; [|done]. intros q e. destruct (decide (q = [])) as [->|Hne].
  - rewrite !has_ep_nil by done. replace (n_ep (with_ep ep now n)) with ep by (by destruct n). split; [intros [<- _]; by left|].
    by intros [[_ ->]|[[? _]|?]].
  - rewrite (has_ep_children n) by (done || by destruct n). split; [intros H; right; left; by split|]. by intros [[? _]|[[_ H]|?]].
Qed.

Lemma insert_new_leaf now id n b rest ep :
  tree_ok n → find_child n b = None → 0 ≤ ep →
  let n' := add_child true n b (Node id (b :: rest) ep now []) in
  tree_ok n' ∧ inserted n n' (b :: rest) ep.
Proof.
  intros Hw Hf H0 n'. assert (Hok : tree_ok n') by (eapply add_child_ok; [done..|apply leaf_ok|done]). split; [done|].
  exists None. split; [|done]. intros q e. subst n'. rewrite has_ep_add_child by done. destruct q as [|x q].
  { split; [intros H; right; left; by split|]. by intros [[? _]|[[_ H]|?]]. }
  destruct (x =? b) eqn:E; zbool.
  - subst x. split.
    + intros (p & Hp & He). apply has_ep_leaf in He as (-> & -> & _). rewrite app_nil_r in Hp. left. by rewrite Hp.
    + intros [[Hq ->]|[[_ He]|?]]; [exists []; rewrite app_nil_r; split; [done|by apply has_ep_leaf]| |done].
      apply has_ep_cons in He as (c & p & Hc & _); [congruence|done].
  - split; [intros H; right; left; split; [congruence|done]|]. by intros [[? _]|[[_ H]|?]]; [congruence|..].
Qed.

Lemma kids_cons k c cs : kids_size ((k, c) :: cs) = tree_size c + kids_size cs.
Proof. done. Qed.

Lemma add_child_size n b c : tree_size (add_child true n b c) = tree_size n + tree_size c.
Proof. rewrite (tree_size_eq (add_child true n b c)), (tree_size_eq n). destruct n as [i l e t cs]. cbn [add_child with_children n_children]. rewrite kids_cons. lia. Qed.

Lemma size_by_children n n' : n_children n' = n_children n → tree_size n' = tree_size n.
Proof. intros H. rewrite !tree_size_eq. by rewrite H. Qed.

(** The node a split puts in the child's place. *)
Lemma split_spec now id child rest ep m x suf mid k :
  tree_ok child → 0 ≤ ep → m = shared_prefix_len (n_label child) rest → drop m (n_label child) = x :: suf →
  split_child heap_ok now id child m rest ep = Some (mid, k) →
  tree_ok mid ∧ n_label mid = take m (n_label child) ∧ tree_size mid = tree_size child + k ∧ 0 ≤ k ≤ 2 ∧
  (∀ q e, has_ep mid q e ↔
     (q = drop m rest ∧ e = ep) ∨ (∃ q', q = x :: suf ++ q' ∧ has_ep child q' e) ∨ (q = [] ∧ drop m rest ≠ [] ∧ e = n_ep child ∧ 0 ≤ e)).
Proof.
  intros Hw H0 Hm Hd. unfold split_child. cbn [h_mid h_suffix h_leaf h_child_entry heap_ok negb]. rewrite Hd.
  set (child' := with_label (x :: suf) child). set (mid0 := add_child true (alloc_node id (take m (n_label child))) x child').
  assert (Hw' : tree_ok child') by (apply (tree_ok_children child); [by destruct child|exact Hw]).
  assert (Hl' : n_label child' = x :: suf) by (by destruct child).
  assert (Hok0 : tree_ok mid0) by (eapply (add_child_ok _ x child' suf); [apply leaf_ok|done|exact Hw'|exact Hl']).
  assert (Hs' : tree_size child' = tree_size child) by (apply size_by_children; by destruct child).
  assert (Hsz0 : tree_size mid0 = tree_size child + 1) by (unfold mid0; rewrite add_child_size, Hs'; cbn; lia).
  assert (Hch : ∀ q e, has_ep child' q e ↔ has_ep child q e).
  { intros q e. destruct q as [|b q]; [rewrite (has_ep_nil child' e Hw'), (has_ep_nil child e Hw); by destruct child|].
    apply has_ep_children; [by destruct child|exact Hw|done]. }
  assert (Hcons : ∀ y q e, has_ep mid0 (y :: q) e ↔ y = x ∧ ∃ q', q = suf ++ q' ∧ has_ep child q' e).
  { intros y q e. unfold mid0. rewrite (has_ep_add_child _ x child' (y :: q) e (leaf_ok _ _ _ _) Hok0). rewrite Hl'. destruct (y =? x) eqn:E; zbool.
    - subst y. split; [intros (q' & [= ->] & H); split; [done|]; exists q'; by rewrite <- Hch|].
      intros (_ & q' & -> & H). exists q'. by rewrite Hch.
    - split; [intros (? & _)%has_ep_leaf; done|]. by intros [-> _]. }
  destruct (drop m rest) as [|r rest'] eqn:Hr.
  - intros He. apply (inj Some), (inj2 pair) in He as [<- <-]. destruct (insert_here now mid0 ep Hok0 H0) as [Hok1 _]. split_and!; [exact Hok1|done|transitivity (tree_size mid0); [by apply size_by_children|exact Hsz0]|lia|lia|].
    intros [|y q] e.
    + rewrite (has_ep_nil _ e Hok1). cbn. split; [intros [<- _]; by left|]. intros [[_ ->]|[(q' & ? & _)|(_ & ? & _)]]; done.
    + rewrite (has_ep_children mid0) by (done || exact Hok0). rewrite Hcons. split; [intros (-> & q' & -> & H); right; left; by exists q'|].
      intros [[? _]|[(q' & [= -> ->] & H)|(? & _)]]; [done|split; [done|by exists q']|done].
  - cbn [insert_leaf h_leaf h_leaf_entry heap_ok]. set (leaf := with_ep ep now (alloc_node (id + 1) (r :: rest'))).
    set (mid1 := add_child true mid0 r leaf). assert (Hne : x ≠ r) by (subst m; by eapply spl_stop).
    assert (Hok1 : tree_ok mid1).
    { eapply (add_child_ok _ r leaf rest'); [exact Hok0| |apply leaf_ok|done]. unfold find_child, mid0. cbn. by rewrite (proj2 (Z.eqb_neq _ _)). }
    assert (Hneg : (n_ep mid1 <? 0) = true) by done. rewrite Hneg. intros He. apply (inj Some), (inj2 pair) in He as [<- <-]. set (mid2 := with_ep _ _ mid1).
    assert (Hok2 : tree_ok mid2) by (apply (tree_ok_children mid1); [done|exact Hok1]).
    split_and!; [exact Hok2|done| |lia|lia|].
    { rewrite (size_by_children mid1 mid2) by done. unfold mid1. rewrite add_child_size, Hsz0. cbn. lia. }
    intros [|y q] e.
    + rewrite (has_ep_nil _ e Hok2). replace (n_ep mid2) with (n_ep child) by (by destruct child).
      split; [intros [<- H]; right; right; by split_and!|]. intros [[? _]|[(q' & ? & _)|(_ & _ & -> & H)]]; done.
    + rewrite (has_ep_children mid1) by (done || exact Hok1). unfold mid1. rewrite (has_ep_add_child mid0 r leaf (y :: q) e Hok0 Hok1).
      destruct (y =? r) eqn:E; zbool.
      * subst y. split.
        -- intros (q' & Hq & H). apply has_ep_leaf in H as (-> & -> & _). rewrite app_nil_r in Hq. left. done.
        -- intros [[Hq ->]|[(q' & [= ? _] & _)|(? & _)]]; [|congruence|done]. exists []. rewrite app_nil_r. split; [done|by apply has_ep_leaf].
      * rewrite Hcons. split; [intros (-> & q' & -> & H); right; left; by exists q'|].
        intros [[[= ? _] _]|[(q' & [= -> ->] & H)|(? & _)]]; [congruence|split; [done|by exists q']|done].
Qed.

(** An insert below a child is an insert at the node. *)
Lemma inserted_below cur b child child' q ep :
  tree_ok cur → find_child cur b = Some child → tree_ok child' → n_label child' = n_label child →
  inserted child child' q ep →
  tree_ok (set_child cur b child') ∧ inserted cur (set_child cur b child') (n_label child ++ q) ep.
Proof.
  intros Hw Hf Hw' Hl (ext & Hspec & Hext). destruct (find_child_wf cur b child Hw Hf) as [Hwc [l Hlab]].
  assert (Hok : tree_ok (set_child cur b child')) by (eapply set_child_ok; [exact Hw|exact Hf|exact Hw'|exists l; by rewrite Hl]). split; [exact Hok|].
  assert (Hbelow : ∀ p e, has_ep cur (n_label child ++ p) e ↔ has_ep child p e).
  { intros p e. rewrite Hlab. cbn. rewrite (has_ep_cons cur b _ e Hw). split.
    - intros (c & p' & Hc & Hp & He). rewrite Hf in Hc. injection Hc as <-. rewrite Hlab in Hp. cbn in Hp. injection Hp as Hp. by apply app_inv_head in Hp as ->.
    - intros He. exists child, p. rewrite Hlab. by split_and!. }
  exists ((fun se => (n_label child ++ fst se, snd se)) <$> ext). split.
  - intros p e. rewrite (has_ep_set_child cur b child child' p e Hw Hf Hok). rewrite Hl. destruct p as [|x p].
    + rewrite Hlab. split; [intros H; right; left; by split|]. intros [[? _]|[[_ H]|H]]; [done..|]. destruct ext as [[s es]|]; [|done]. by cbn in H.
    + destruct (x =? b) eqn:E; zbool.
      * subst x. split.
        -- intros (p' & Hp & He). rewrite Hp. apply Hspec in He as [[-> ->]|[[Hne He]|He]]; [by left|right; left|right; right; by rewrite He].
           split; [|by apply Hbelow]. intros Heq. by apply app_inv_head in Heq.
        -- intros [[Hp ->]|[[Hne He]|He]].
           ++ exists q. split; [done|]. apply Hspec. by left.
           ++ apply (has_ep_cons cur b p e Hw) in He as (c & p' & Hc & Hp & He). rewrite Hf in Hc. injection Hc as <-. exists p'. split; [done|].
              apply Hspec. right. left. split; [|done]. intros ->. done.
           ++ destruct ext as [[s es]|]; [|done]. cbn in He. injection He as Hp ->. exists s. split; [done|]. apply Hspec. by right; right.
      * split; [intros H; right; left; split; [intros Hp; rewrite Hlab in Hp; cbn in Hp; congruence|done]|].
        intros [[Hp _]|[[_ H]|H]]; [rewrite Hlab in Hp; cbn in Hp; congruence|done|]. destruct ext as [[s es]|]; [|done]. cbn in H. rewrite Hlab in H. cbn in H. congruence.
  - destruct ext as [[s es]|]; [|done]. cbn. destruct Hext as (H1 & H2 & H3 & y & Hy & H4). split_and!.
    + by apply prefix_app.
    + intros Heq. by apply app_inv_head in Heq.
    + intros e He. apply Hbelow in He. by apply (H3 e).
    + exists y. split; [done|]. rewrite <- app_assoc. by apply Hbelow.
Qed.

(** A split is an insert at the node above it. *)
Lemma inserted_split cur b child rest ep m x suf mid :
  tree_ok cur → find_child cur b = Some child → tree_ok mid → m = shared_prefix_len (n_label child) (b :: rest) →
  drop m (n_label child) = x :: suf → n_label mid = take m (n_label child) →
  (∀ q e, has_ep mid q e ↔
     (q = drop m (b :: rest) ∧ e = ep) ∨ (∃ q', q = x :: suf ++ q' ∧ has_ep child q' e) ∨ (q = [] ∧ drop m (b :: rest) ≠ [] ∧ e = n_ep child ∧ 0 ≤ e)) →
  tree_ok (set_child cur b mid) ∧ inserted cur (set_child cur b mid) (b :: rest) ep.
Proof.
  intros Hw Hf Hwm Hm Hd Hlm Hspec. destruct (find_child_wf cur b child Hw Hf) as [Hwc [l Hlab]].
  set (pre := take m (n_label child)) in *.
  assert (Hpre : pre ++ drop m (b :: rest) = b :: rest). { unfold pre. rewrite Hm, spl_take. apply take_drop. }
  assert (Hlabel : n_label child = pre ++ x :: suf). { unfold pre. by rewrite <- Hd, take_drop. }
  assert (Hp0 : ∃ pre', pre = b :: pre'). { unfold pre. rewrite Hm, Hlab. cbn. rewrite Z.eqb_refl. cbn. by eexists. }
  destruct Hp0 as [pre' Hp0].
  assert (Hok : tree_ok (set_child cur b mid)) by (eapply set_child_ok; [exact Hw|exact Hf|exact Hwm|rewrite Hlm; by exists pre']). split; [exact Hok|].
  assert (Hcur : ∀ p e, has_ep cur (b :: p) e ↔ ∃ q, b :: p = n_label child ++ q ∧ has_ep child q e).
  { intros p e. rewrite (has_ep_cons cur b p e Hw). split; [intros (c & q & Hc & H); rewrite Hf in Hc; injection Hc as <-; by exists q|].
    intros (q & H). exists child, q. by split. }
  exists (if decide (drop m (b :: rest) ≠ [] ∧ 0 ≤ n_ep child) then Some (pre, n_ep child) else None). split.
  - intros p e. rewrite (has_ep_set_child cur b child mid p e Hw Hf Hok), Hlm. destruct p as [|y p].
    + split; [intros H; right; left; by split|]. intros [[? _]|[[_ H]|H]]; [done..|]. case_decide; [rewrite Hp0 in H|]; done.
    + destruct (y =? b) eqn:E; zbool; [subst y|split; [intros H; right; left; split; [congruence|done]|]; intros [[? _]|[[_ H]|H]]; [congruence|done|];
        case_decide; [rewrite Hp0 in H|]; congruence]. split.
      * intros (q & Hq & He). rewrite Hq. apply Hspec in He as [[-> ->]|[(q' & -> & He)|(-> & Hne & -> & H0)]].
        -- left. by rewrite Hpre.
        -- right. left. split; [|rewrite <- Hq; apply Hcur; exists q'; split; [by rewrite Hq, Hlabel, <- app_assoc|done]].
           intros Heq. rewrite <- Hpre in Heq. apply app_inv_head in Heq. rewrite Hm in Hd, Heq. exact (spl_stop (n_label child) (b :: rest) x x suf (suf ++ q') Hd (eq_sym Heq) eq_refl).
        -- right. right. rewrite decide_True by done. by rewrite app_nil_r.
      * intros [[Hq ->]|[[Hne He]|He]].
        -- exists (drop m (b :: rest)). split; [by rewrite Hpre, Hq|]. apply Hspec. by left.
        -- apply Hcur in He as (q & Hq & He). exists (x :: suf ++ q). split; [by rewrite Hq, Hlabel, <- app_assoc|]. apply Hspec. right. left. by exists q.
        -- case_decide as Hdec; [|done]. injection He as Hq <-. exists []. rewrite app_nil_r. split; [done|]. apply Hspec. right. right. by destruct Hdec.
  - case_decide as Hdec; [|done]. destruct Hdec as [Hne H0]. split_and!.
    + exists (drop m (b :: rest)). by rewrite Hpre.
    + intros Heq. apply Hne. apply (app_inv_head pre). by rewrite Hpre, app_nil_r.
    + intros e He. rewrite Hp0 in He. apply Hcur in He as (q & Hq & _). rewrite <- Hp0, Hlabel, <- app_assoc in Hq.
      rewrite <- (app_nil_r pre) in Hq at 1. by apply app_inv_head in Hq.
    + exists (x :: suf). split; [done|]. rewrite <- Hlabel, Hlab. apply Hcur. exists []. rewrite app_nil_r. split; [by rewrite Hlab|]. by apply has_ep_nil.
Qed.

Lemma insert_from_spec fuel now id cur rest ep cur' k :
  tree_ok cur → (length rest ≤ fuel)%nat → 0 ≤ ep → insert_from fuel heap_ok now id cur rest ep = (cur', k) →
  tree_ok cur' ∧ n_label cur' = n_label cur ∧ tree_size cur' = tree_size cur + k ∧ 0 ≤ k ≤ 2 ∧ inserted cur cur' rest ep ∧
  (rest ≠ [] → n_ep cur' = n_ep cur).
Proof.
  revert cur rest cur' k. induction fuel as [|fuel IH]; intros cur rest cur' k Hw Hl H0.
  { destruct rest; [|cbn in Hl; lia]. cbn. intros [= <- <-]. destruct (insert_here now cur ep Hw H0) as [H1 H2].
    split_and!; [exact H1|by destruct cur|rewrite (size_by_children cur) by (by destruct cur); lia|lia|lia|exact H2|done]. }
  destruct rest as [|b rest]; cbn [insert_from].
  { intros [= <- <-]. destruct (insert_here now cur ep Hw H0) as [H1 H2].
    split_and!; [exact H1|by destruct cur|rewrite (size_by_children cur) by (by destruct cur); lia|lia|lia|exact H2|done]. }
  destruct (find_child cur b) as [child|] eqn:Hf.
  2: { cbn. intros He. apply (inj2 pair) in He as [<- <-]. destruct (insert_new_leaf now id cur b rest ep Hw Hf H0) as [H1 H2].
       split_and!; [exact H1|by destruct cur| |lia|lia|exact H2|by destruct cur].
       etransitivity; [exact (add_child_size cur b (Node id (b :: rest) ep now []))|]. cbn. lia. }
  destruct (find_child_wf cur b child Hw Hf) as [Hwc [l Hlab]]. set (m := shared_prefix_len (n_label child) (b :: rest)).
  destruct (m =? length (n_label child))%nat eqn:Hfull.
  - apply Nat.eqb_eq in Hfull. destruct (spl_full _ _ Hfull) as (q & Hq & Hdq). rewrite Hfull, Hdq.
    destruct (insert_from fuel heap_ok now id child q ep) as [child' k'] eqn:Hrec. intros He. apply (inj2 pair) in He as [<- <-].
    assert (Hlen : (length q ≤ fuel)%nat). { apply (f_equal length) in Hq. rewrite Hlab, length_app in Hq. cbn in *. lia. }
    destruct (IH child q child' k' Hwc Hlen H0 Hrec) as (Hw1 & Hl1 & Hz1 & Hk & Hins & _).
    destruct (inserted_below cur b child child' q ep Hw Hf Hw1 Hl1 Hins) as [H1 H2]. rewrite <- Hq in H2.
    split_and!; [exact H1|by destruct cur|rewrite (set_child_size cur b child child' Hf); lia|lia|lia|exact H2|by destruct cur].
  - apply Nat.eqb_neq in Hfull. pose proof (spl_le (n_label child) (b :: rest)) as [Hle _]. fold m in Hle.
    destruct (drop m (n_label child)) as [|x suf] eqn:Hd. { apply (f_equal length) in Hd. rewrite length_drop in Hd. cbn in Hd. lia. }
    destruct (split_child heap_ok now id child m (b :: rest) ep) as [[mid k']|] eqn:Hs.
    2: { unfold split_child in Hs. cbn in Hs. rewrite Hd in Hs. by destruct (drop m (b :: rest)). }
    intros He. apply (inj2 pair) in He as [<- <-].
    destruct (split_spec now id child (b :: rest) ep m x suf mid k' Hwc H0 eq_refl Hd Hs) as (Hwm & Hlm & Hzm & Hk & Hspec).
    destruct (inserted_split cur b child rest ep m x suf mid Hw Hf Hwm eq_refl Hd Hlm Hspec) as [H1 H2].
    split_and!; [exact H1|by destruct cur|rewrite (set_child_size cur b child mid Hf); lia|lia|lia|exact H2|by destruct cur].
Qed.
