(* ===== verification/PdTrieInv.v ===== *)
(** * The prefix tree: its invariant, removal and eviction

    The invariant of a tree of src/common/sockproxy_pd_trie.c (keys, count, an
    unrecorded root, every node at an address of its own) and the theorems on its
    operations: a match answers the longest recorded prefix; an insert records
    its text and loses nothing; a removal forgets exactly one endpoint, in
    whatever order the merges run; an eviction takes the least recently used
    leaves and ends, at its bound or with nothing left to evict. *)

From stdpp Require Import base list gmap numbers.
From S2P Require Import Prelude PdTrie.

#[local] Set Warnings "-register-all".

(** ** Addresses *)

Fixpoint ids (n : node) : list Z :=
  match n with Node i _ _ _ cs => i :: foldr (fun kc acc => ids (snd kc) ++ acc) [] cs end.
Definition kids_ids (cs : list (Z * node)) : list Z := foldr (fun kc acc => ids (snd kc) ++ acc) [] cs.

(** The text [p], the labels from [n]'s own on, leads to a node at [i] with
    endpoint [e]. *)
Definition lives (n : node) (p : list Z) (i e : Z) : Prop :=
  ∃ q m, p = n_label n ++ q ∧ at_path n q m ∧ n_id m = i ∧ n_ep m = e.

(** What holds of a tree between calls. *)
Record trie_ok (t : pd_trie) : Prop := {
  ok_tree : tree_ok (t_root t);
  ok_root : n_label (t_root t) = [] ∧ n_ep (t_root t) < 0;
  ok_count : t_node_count t = tree_size (t_root t);
  ok_ids : NoDup (ids (t_root t));
  ok_next : ∀ i, i ∈ ids (t_root t) → i < t_next t
}.

(** The endpoints a tree records. *)
Definition recorded (t : pd_trie) (p : list Z) (e : Z) : Prop := has_ep (t_root t) p e.

(** A leaf that may be evicted, and the text it stands for. *)
Definition leaf_at (n : node) (p : list Z) (m : node) : Prop := at_path n p m ∧ n_children m = [] ∧ 0 ≤ n_ep m.

(** The abstract step of an eviction: above the bound, the text of a leaf that was
    used no later than any other is forgotten, and nothing else. *)
Definition evicts (max_nodes : Z) (t t' : pd_trie) : Prop :=
  max_nodes < t_node_count t ∧ t_node_count t' < t_node_count t ∧
  ∃ p m, leaf_at (t_root t) p m ∧ (∀ p' m', leaf_at (t_root t) p' m' → n_ts m ≤ n_ts m') ∧
    ∀ q e, recorded t' q e ↔ q ≠ p ∧ recorded t q e.

(** ** Induction on a tree *)

Lemma node_nested (P : node → Prop) :
  (∀ i l e ts cs, (∀ k c, (k, c) ∈ cs → P c) → P (Node i l e ts cs)) → ∀ n, P n.
Proof.
  intros H. fix IH 1. intros [i l e ts cs].
  assert (Hall : Forall (fun kc => P (snd kc)) cs) by (induction cs as [|[k c] cs IHcs]; constructor; [apply IH|exact IHcs]).
  apply H. intros k c Hin. by apply (proj1 (list.Forall_forall _ _) Hall (k, c)).
Qed.

Lemma ids_eq n : ids n = n_id n :: kids_ids (n_children n).
Proof. by destruct n. Qed.

Lemma kids_ids_app cs cs' : kids_ids (cs ++ cs') = kids_ids cs ++ kids_ids cs'.
Proof. unfold kids_ids. induction cs as [|[k c] cs IH]; cbn; [done|]. by rewrite IH, app_assoc. Qed.

Lemma kids_ids_cons k c cs : kids_ids ((k, c) :: cs) = ids c ++ kids_ids cs.
Proof. done. Qed.

Lemma kids_ids_in cs i : i ∈ kids_ids cs ↔ ∃ k c, (k, c) ∈ cs ∧ i ∈ ids c.
Proof.
  induction cs as [|[k c] cs IH]; cbn.
  - split; [intros H; by apply elem_of_nil in H|]. intros (k & c & H & _). by apply elem_of_nil in H.
  - rewrite elem_of_app, IH. split.
    + intros [H|(k' & c' & H & Hi)]; [exists k, c|exists k', c']; by rewrite elem_of_cons; auto.
    + intros (k' & c' & [He|H]%elem_of_cons & Hi); [injection He as -> ->; by left|right; by exists k', c'].
Qed.

(** Two children share no address. *)
Lemma kids_apart cs k c k' c' i :
  NoDup (kids_ids cs) → (k, c) ∈ cs → (k', c') ∈ cs → i ∈ ids c → i ∈ ids c' → (k, c) = (k', c').
Proof.
  induction cs as [|[k0 c0] cs IH]; [intros _ H; by apply elem_of_nil in H|]. rewrite kids_ids_cons.
  intros (Ha & Hd & Hb)%list.NoDup_app H1 H2 Hi Hi'.
  apply elem_of_cons in H1 as [H1|H1], H2 as [H2|H2]; [congruence| | |by apply IH].
  - injection H1 as -> ->. exfalso. apply (Hd i Hi). apply kids_ids_in. by exists k', c'.
  - injection H2 as -> ->. exfalso. apply (Hd i Hi'). apply kids_ids_in. by exists k, c.
Qed.

Lemma kid_ids cs k c : NoDup (kids_ids cs) → (k, c) ∈ cs → NoDup (ids c).
Proof.
  induction cs as [|[k0 c0] cs IH]; [intros _ H; by apply elem_of_nil in H|]. rewrite kids_ids_cons.
  intros (Ha & Hd & Hb)%list.NoDup_app [H|H]%elem_of_cons; [by injection H as -> ->|by apply IH].
Qed.

Lemma ids_child n k c i : (k, c) ∈ n_children n → i ∈ ids c → i ∈ ids n.
Proof. intros Hin Hi. rewrite ids_eq. right. apply kids_ids_in. by exists k, c. Qed.

Lemma at_path_ids n p m : at_path n p m → n_id m ∈ ids n.
Proof. induction 1 as [n|n k c p m Hin Hp IH]; [rewrite ids_eq; left|by eapply ids_child]. Qed.

(** A node is where its address says. *)
Lemma at_path_one n p m p' m' : NoDup (ids n) → at_path n p m → at_path n p' m' → n_id m = n_id m' → p = p' ∧ m = m'.
Proof.
  intros Hn Hp. revert p' m' Hn. induction Hp as [n|n k c p m Hin Hp IH]; intros p' m' Hn Hp' He.
  - apply at_path_inv in Hp' as [[-> ->]|(k & c & q & Hin & -> & Hq)]; [done|]. exfalso. rewrite ids_eq in Hn. apply list.NoDup_cons in Hn as [Hn _].
    apply Hn. rewrite He. apply kids_ids_in. exists k, c. split; [done|]. by eapply at_path_ids.
  - rewrite ids_eq in Hn. apply list.NoDup_cons in Hn as [Hr Hn].
    apply at_path_inv in Hp' as [[-> ->]|(k' & c' & q & Hin' & -> & Hq)].
    + exfalso. apply Hr. rewrite <- He. apply kids_ids_in. exists k, c. split; [done|]. by eapply at_path_ids.
    + assert (Hc : (k, c) = (k', c')).
      { apply (kids_apart _ k c k' c' (n_id m) Hn Hin Hin'); [by eapply at_path_ids|]. rewrite He. by eapply at_path_ids. }
      injection Hc as <- <-. destruct (IH q m') as [-> ->]; [by eapply kid_ids|done..].
Qed.

(** A text leads to one node. *)
Lemma at_path_fun n p m m' : tree_ok n → at_path n p m → at_path n p m' → m = m'.
Proof.
  intros Hw Hp. revert m' Hw. induction Hp as [n|n k c p m Hin Hp IH]; intros m' Hw Hp'; [by rewrite (at_path_nil n m' Hw Hp')|].
  pose proof (wf_child n k c Hw Hin) as Hwc. destruct (wf_label n k c Hw Hin) as [l Hl]. rewrite Hl in Hp'. cbn in Hp'.
  apply (at_path_cons n k (l ++ p) m' Hw) in Hp' as (c' & q & Hf & Hq & Hp'). unfold find_child in Hf.
  rewrite (find_entry_unique _ k c (wf_keys n Hw) Hin) in Hf. injection Hf as <-. rewrite Hl in Hq. cbn in Hq. injection Hq as Hq.
  apply app_inv_head in Hq as <-. by apply IH.
Qed.

Lemma lives_inv n p i e :
  lives n p i e ↔ (p = n_label n ∧ i = n_id n ∧ e = n_ep n) ∨ ∃ k c q, (k, c) ∈ n_children n ∧ p = n_label n ++ q ∧ lives c q i e.
Proof.
  split.
  - intros (q & m & -> & Hp & <- & <-). apply at_path_inv in Hp as [[-> ->]|(k & c & q' & Hin & -> & Hq)]; [left; by rewrite app_nil_r|].
    right. exists k, c, (n_label c ++ q'). split_and!; [done..|]. by exists q', m.
  - intros [(-> & -> & ->)|(k & c & q & Hin & -> & (q' & m & -> & Hp & <- & <-))].
    + exists [], n. rewrite app_nil_r. by split_and!; [..|constructor| |].
    + exists (n_label c ++ q'), m. split_and!; [done|by eapply at_child|done..].
Qed.

Lemma lives_ids n p i e : lives n p i e → i ∈ ids n.
Proof. intros (q & m & _ & Hp & <- & _). by eapply at_path_ids. Qed.

Lemma lives_one n p i e p' e' : NoDup (ids n) → lives n p i e → lives n p' i e' → p = p' ∧ e = e'.
Proof.
  intros Hn (q & m & -> & Hp & <- & <-) (q' & m' & -> & Hp' & Hi & <-). by destruct (at_path_one n q m q' m' Hn Hp Hp' (eq_sym Hi)) as [-> ->].
Qed.

(** What is recorded, by the nodes that record it. *)
Lemma has_ep_lives n p e : has_ep n p e ↔ 0 ≤ e ∧ ∃ i, lives n (n_label n ++ p) i e.
Proof.
  split.
  - intros (m & Hp & He & H0). split; [done|]. exists (n_id m), p, m. done.
  - intros (H0 & i & q & m & Hq & Hp & _ & He). apply app_inv_head in Hq as <-. by exists m.
Qed.

(** ** Match and insert *)

(** The addresses of [n] and [fresh] ones. *)
Definition grown (n n' : node) (fresh : list Z) : Prop := ids n' ≡ₚ ids n ++ fresh.

Lemma set_entry_ids cs key c :
  find_entry cs key = Some c → ∃ r, kids_ids cs ≡ₚ ids c ++ r ∧ ∀ c', kids_ids (set_entry cs key c') ≡ₚ ids c' ++ r.
Proof.
  induction cs as [|[k n] cs IH]; cbn [find_entry set_entry]; [done|]. destruct (k =? key).
  - intros [= ->]. exists (kids_ids cs). done.
  - intros (r & H1 & H2)%IH. exists (ids n ++ r). rewrite kids_ids_cons. split; [|intros c'; rewrite kids_ids_cons].
    + rewrite H1. solve_Permutation.
    + rewrite H2. solve_Permutation.
Qed.

Lemma set_child_grown n b c c' fresh : find_child n b = Some c → grown c c' fresh → grown n (set_child n b c') fresh.
Proof.
  intros Hf Hg. unfold grown in *. rewrite !ids_eq, set_child_children, (proj2 (proj2 (set_child_ep n b c'))).
  destruct (set_entry_ids _ _ _ Hf) as (r & H1 & H2). rewrite H1, H2, Hg. solve_Permutation.
Qed.

Lemma same_grown n n' : n_id n' = n_id n → n_children n' = n_children n → grown n n' [].
Proof. intros H1 H2. unfold grown. by rewrite !ids_eq, H1, H2, app_nil_r. Qed.

Lemma grown_trans n n1 n2 f g : grown n n1 f → grown n1 n2 g → grown n n2 (f ++ g).
Proof. unfold grown. intros H1 H2. by rewrite H2, H1, app_assoc. Qed.

Lemma add_child_grown n b c : grown n (add_child true n b c) (ids c).
Proof. unfold grown. destruct n as [i l e t cs]. cbn. solve_Permutation. Qed.

Lemma match_grown fuel now cur rest pos best cur' best' : match_from fuel now cur rest pos best = (cur', best') → grown cur cur' [].
Proof.
  revert cur rest pos best cur' best'. induction fuel as [|fuel IH]; intros cur rest pos best cur' best'; cbn [match_from].
  { intros [= <- _]. by apply same_grown. }
  destruct rest as [|b rest]; [intros [= <- _]; by apply same_grown|].
  destruct (find_child cur b) as [child|] eqn:Hf; [|intros [= <- _]; by apply same_grown].
  destruct (_ =? 0)%nat; [intros [= <- _]; by apply same_grown|]. destruct (_ =? length _)%nat; [|intros [= <- _]; by apply same_grown].
  set (cb := if n_ep child >=? 0 then _ else _). assert (Hc : grown child (fst cb) []).
  { unfold cb. destruct (n_ep child >=? 0); apply same_grown; by destruct child. }
  destruct cb as [child1 best1]. cbn in Hc. destruct (match_from _ _ _ _ _ _) as [child2 best2] eqn:Hrec.
  intros [= <- _]. apply IH in Hrec. eapply set_child_grown; [exact Hf|]. exact (grown_trans _ _ _ [] [] Hc Hrec).
Qed.

(** What an insert allocates. *)
Definition fresh_from (id : Z) (fresh : list Z) : Prop := NoDup fresh ∧ ∀ i, i ∈ fresh → id ≤ i < id + 2.

Lemma fresh_nil id : fresh_from id [].
Proof. split; [constructor|]. intros i H. by apply elem_of_nil in H. Qed.
Lemma fresh_one id : fresh_from id [id].
Proof. split; [apply NoDup_singleton|]. intros i ->%list_elem_of_singleton. lia. Qed.
Lemma fresh_two id : fresh_from id [id; id + 1].
Proof.
  split; [apply list.NoDup_cons; split; [rewrite list_elem_of_singleton; lia|apply NoDup_singleton]|].
  intros i [->| ->%list_elem_of_singleton]%elem_of_cons; lia.
Qed.

Lemma split_grown now id child m rest ep mid k :
  drop m (n_label child) ≠ [] → split_child heap_ok now id child m rest ep = Some (mid, k) → ∃ fresh, grown child mid fresh ∧ fresh_from id fresh.
Proof.
  intros Hd. unfold split_child. cbn [h_mid h_suffix h_leaf h_child_entry heap_ok negb].
  destruct (drop m (n_label child)) as [|x suf]; [done|]. set (child' := with_label (x :: suf) child).
  set (mid0 := add_child true _ x child'). assert (H0 : grown child mid0 [id]).
  { unfold grown, mid0. cbn. assert (Hc : ids child' = ids child) by (by destruct child). rewrite Hc, app_nil_r. apply Permutation_cons_append. }
  destruct (drop m rest) as [|r rest'].
  - intros He. apply (inj Some), (inj2 pair) in He as [<- _]. exists [id]. split; [|apply fresh_one].
    apply (grown_trans _ mid0 _ [id] [] H0). by apply same_grown.
  - cbn [insert_leaf h_leaf h_leaf_entry heap_ok]. set (mid1 := add_child true mid0 r _). intros He. apply (inj Some), (inj2 pair) in He as [<- _].
    exists [id; id + 1]. split; [|apply fresh_two]. apply (grown_trans _ mid0 _ [id] [id + 1] H0). apply (grown_trans _ mid1 _ [id + 1] []).
    + exact (add_child_grown mid0 r (Node (id + 1) (r :: rest') ep now [])).
    + destruct (n_ep mid1 <? 0); by apply same_grown.
Qed.

Lemma insert_grown fuel now id cur rest ep cur' k :
  tree_ok cur → insert_from fuel heap_ok now id cur rest ep = (cur', k) → ∃ fresh, grown cur cur' fresh ∧ fresh_from id fresh.
Proof.
  assert (Hhere : ∀ n, ∃ fresh, grown n (with_ep ep now n) fresh ∧ fresh_from id fresh).
  { intros n. exists []. split; [|apply fresh_nil]. apply same_grown; by destruct n. }
  revert cur rest cur' k. induction fuel as [|fuel IH]; intros cur rest cur' k Hw; cbn [insert_from]; [intros [= <- _]; by apply Hhere|].
  destruct rest as [|b rest]; [intros [= <- _]; by apply Hhere|]. destruct (find_child cur b) as [child|] eqn:Hf.
  2: { cbn. intros He. apply (inj2 pair) in He as [<- _]. exists [id]. split; [|apply fresh_one]. exact (add_child_grown cur b (Node id (b :: rest) ep now [])). }
  destruct (find_child_wf cur b child Hw Hf) as [Hwc [l Hlab]]. destruct (_ =? length _)%nat eqn:Hfull.
  - destruct (insert_from fuel _ _ _ _ _ _) as [child' k'] eqn:Hrec. intros He. apply (inj2 pair) in He as [<- _].
    destruct (IH _ _ _ _ Hwc Hrec) as (f & Hg & Hfr). exists f. split; [by eapply set_child_grown|done].
  - destruct (split_child _ _ _ _ _ _ _) as [[mid k']|] eqn:Hs.
    2: { intros [= <- _]. exists []. split; [by apply same_grown|apply fresh_nil]. }
    intros He. apply (inj2 pair) in He as [<- _]. apply split_grown in Hs as (f & Hg & Hfr).
    + exists f. split; [by eapply set_child_grown|done].
    + intros Hd. apply Nat.eqb_neq in Hfull. apply (f_equal length) in Hd. rewrite length_drop in Hd. cbn in Hd.
      pose proof (spl_le (n_label child) (b :: rest)). lia.
Qed.

(** ** Removal, pass 1 *)

(** The tree without an endpoint. *)
Fixpoint cleared (ep_idx : Z) (n : node) : node :=
  match n with
  | Node i l e ts cs => Node i l (if e =? ep_idx then -1 else e) ts ((fun kc => (fst kc, cleared ep_idx (snd kc))) <$> cs)
  end.

Lemma clear_dfs_spec ep n : ∀ prune,
  fst (remove_ep_clear_dfs ep n prune) = cleared ep n ∧
  ∀ i, i ∈ snd (remove_ep_clear_dfs ep n prune) → i ∈ prune ∨ ∃ p, lives n p i ep.
Proof.
  induction n as [i l e ts cs IH] using node_nested. intros prune. cbn [remove_ep_clear_dfs cleared].
  match goal with |- context [?f cs prune] => set (go := f) end.
  assert (Hgo : fst (go cs prune) = (fun kc => (fst kc, cleared ep (snd kc))) <$> cs ∧
            ∀ j, j ∈ snd (go cs prune) → j ∈ prune ∨ ∃ k c p, (k, c) ∈ cs ∧ lives c p j ep).
  { clear i l e ts. revert prune IH. induction cs as [|[k c] cs IHcs]; intros prune IH; cbn; [split; [done|by left]|].
    destruct (IH k c (list_elem_of_here _ _) prune) as [H1 H2]. destruct (remove_ep_clear_dfs ep c prune) as [c' pr1]. cbn in H1, H2.
    destruct (IHcs pr1) as [H3 H4]; [intros k0 c0 H; apply (IH k0); by right|]. destruct (go cs pr1) as [cs' pr2]. cbn in *. split; [by rewrite H1, H3|].
    intros j [Hj|(k' & c0 & p & Hin & Hl)]%H4.
    - apply H2 in Hj as [Hj|[p Hl]]; [by left|]. right. exists k, c, p. split; [by left|done].
    - right. exists k', c0, p. split; [by right|done]. }
  destruct (go cs prune) as [cs' prune']. cbn in Hgo. destruct Hgo as [-> Hpr].
  assert (Hbelow : ∀ j, j ∈ prune' → j ∈ prune ∨ ∃ p, lives (Node i l e ts cs) p j ep).
  { intros j [Hj|(k & c & p & Hin & Hl)]%Hpr; [by left|]. right. exists (l ++ p). apply lives_inv. right. by exists k, c, p. }
  destruct (e =? ep) eqn:E; cbn; [|by split]. zbool. subst e. split; [done|]. intros j.
  assert (Hself : lives (Node i l ep ts cs) l i ep) by (apply lives_inv; by left).
  destruct cs as [|x cs]; cbn; [|by apply Hbelow]. destruct (zlen prune' <? MAX_PRUNE_BATCH); [|by apply Hbelow].
  intros [Hj| ->%list_elem_of_singleton]%elem_of_app; [by apply Hbelow|]. right. by exists l.
Qed.

Lemma cleared_children ep n : n_children (cleared ep n) = (fun kc => (fst kc, cleared ep (snd kc))) <$> n_children n.
Proof. by destruct n. Qed.
Lemma cleared_label ep n : n_label (cleared ep n) = n_label n.
Proof. by destruct n. Qed.
Lemma cleared_in ep n k c : (k, c) ∈ n_children (cleared ep n) ↔ ∃ c0, c = cleared ep c0 ∧ (k, c0) ∈ n_children n.
Proof.
  rewrite cleared_children, list_elem_of_fmap. split.
  - intros ([k' c0] & He & H). cbn in He. injection He as -> ->. by exists c0.
  - intros (c0 & -> & H). by exists (k, c0).
Qed.

Lemma cleared_ids ep n : ids (cleared ep n) = ids n.
Proof.
  induction n as [i l e ts cs IH] using node_nested. rewrite !ids_eq, cleared_children. cbn [n_id n_children cleared]. f_equal.
  induction cs as [|[k c] cs IHcs]; [done|]. cbn. rewrite (IH k c) by left. f_equal. apply IHcs. intros k' c' H. apply (IH k'). by right.
Qed.

Lemma cleared_size ep n : tree_size (cleared ep n) = tree_size n.
Proof.
  induction n as [i l e ts cs IH] using node_nested. rewrite !tree_size_eq, cleared_children. cbn [n_children]. f_equal.
  induction cs as [|[k c] cs IHcs]; [done|]. cbn. rewrite (IH k c) by left. f_equal. apply IHcs. intros k' c' H. apply (IH k'). by right.
Qed.

Lemma cleared_ok ep n : tree_ok n → tree_ok (cleared ep n).
Proof.
  induction n as [i l e ts cs IH] using node_nested. intros Hw. constructor.
  - rewrite cleared_children, <- list_fmap_compose. exact (wf_keys _ Hw).
  - intros k c (c0 & -> & Hin)%cleared_in. rewrite cleared_label. exact (wf_label _ k c0 Hw Hin).
  - intros k c (c0 & -> & Hin)%cleared_in. exact (IH k c0 Hin (wf_child _ k c0 Hw Hin)).
Qed.

Lemma cleared_lives ep n p i e : lives (cleared ep n) p i e ↔ ∃ e0, lives n p i e0 ∧ e = if e0 =? ep then -1 else e0.
Proof.
  revert p. induction n as [j l e1 ts cs IH] using node_nested. intros p. rewrite lives_inv. setoid_rewrite (lives_inv (Node j l e1 ts cs)). setoid_rewrite cleared_in. cbn [cleared n_label n_id n_ep n_children]. split.
  - intros [(-> & -> & ->)|(k & c & q & (c0 & -> & Hin) & -> & Hl)].
    + exists e1. split; [by left|done].
    + apply (IH k c0 Hin) in Hl as (e0 & Hl & ->). exists e0. split; [right; by exists k, c0, q|done].
  - intros (e0 & [(-> & -> & ->)|(k & c & q & Hin & -> & Hl)] & ->); [by left|].
    right. exists k, (cleared ep c), q. split_and!; [by exists c|done|]. apply (IH k c Hin). by exists e0.
Qed.

(** ** A node unlinked *)

(** [n'] is what is left of [n] when [gone] holds of the addresses taken: nothing
    else is lost but nodes without an endpoint, and [k] nodes went. *)
Record shrunk (gone : Z → Prop) (n n' : node) (k : Z) : Prop := {
  sh_ok : tree_ok n';
  sh_ids : ids n' ⊆+ ids n;
  sh_size : tree_size n' = tree_size n - k;
  sh_label : ∀ b l, n_label n = b :: l → ∃ l', n_label n' = b :: l';
  sh_lives : ∀ p i e, lives n' p i e → lives n p i e ∧ ¬ gone i;
  sh_kept : ∀ p i e, lives n p i e → ¬ gone i → 0 ≤ e → lives n' p i e
}.

Lemma tree_size_ids n : tree_size n = zlen (ids n).
Proof.
  induction n as [i l e ts cs IH] using node_nested. rewrite tree_size_eq, ids_eq, zlen_cons. cbn [n_children]. f_equal.
  induction cs as [|[k c] cs IHcs]; [done|]. rewrite kids_ids_cons, kids_cons, zlen_app, (IH k c) by left. f_equal.
  apply IHcs. intros k' c' H. apply (IH k'). by right.
Qed.

Lemma merge_shrunk ok n n' b :
  tree_ok n → merge_with_single_child ok n = (n', b) → shrunk (fun _ => False) n n' (if b then 1 else 0).
Proof.
  intros Hw. assert (Hsame : shrunk (fun _ => False) n n 0).
  { split; [exact Hw|done|lia|intros b0 l H; by exists l|intros p i e H; split; [exact H|tauto]|tauto]. }
  destruct n as [i l e ts [|[k c] [|? cs]]]; cbn [merge_with_single_child]; try (intros [= <- <-]; exact Hsame).
  destruct ((e >=? 0) || negb (ok i)) eqn:E; [intros [= <- <-]; exact Hsame|]. intros [= <- <-]. clear Hsame.
  assert (He : e < 0). { apply orb_false_iff in E as [E _]. rewrite Z.geb_leb in E. zbool. lia. }
  assert (Hin : (k, c) ∈ n_children (Node i l e ts [(k, c)])) by left.
  pose proof (wf_child _ k c Hw Hin) as Hwc. destruct (wf_label _ k c Hw Hin) as [lc Hlc].
  assert (Hids : ids (with_label (l ++ n_label c) c) = ids c) by (by destruct c).
  assert (Hlive : ∀ p j x, lives (with_label (l ++ n_label c) c) p j x ↔ ∃ q, p = l ++ q ∧ lives c q j x).
  { intros p j x. rewrite lives_inv. setoid_rewrite (lives_inv c). replace (n_label (with_label (l ++ n_label c) c)) with (l ++ n_label c) by (by destruct c).
    replace (n_id (with_label (l ++ n_label c) c)) with (n_id c) by (by destruct c). replace (n_ep (with_label (l ++ n_label c) c)) with (n_ep c) by (by destruct c).
    replace (n_children (with_label (l ++ n_label c) c)) with (n_children c) by (by destruct c). split.
    - intros [(-> & -> & ->)|(k' & c' & q & H1 & -> & H2)]; [exists (n_label c); split; [done|by left]|].
      exists (n_label c ++ q). split; [by rewrite app_assoc|]. right. by exists k', c', q.
    - intros (q & -> & [(-> & -> & ->)|(k' & c' & q' & H1 & -> & H2)]); [by left|]. right. exists k', c', q'. by rewrite <- app_assoc. }
  split.
  - apply (tree_ok_children c); [by destruct c|exact Hwc].
  - rewrite Hids, (ids_eq (Node i l e ts [(k, c)])). cbn. rewrite app_nil_r. by apply submseteq_cons.
  - rewrite !tree_size_ids, Hids, (ids_eq (Node i l e ts [(k, c)])), zlen_cons. cbn. rewrite app_nil_r. lia.
  - cbn. intros b l0 ->. destruct c as [ic lc0 ec tc cc]. cbn. by eexists.
  - intros p j x (q & -> & Hl)%Hlive. split; [|tauto]. apply lives_inv. right. by exists k, c, q.
  - intros p j x Hl _ H0. apply Hlive. apply lives_inv in Hl as [(-> & -> & ->)|(k' & c' & q & H1 & -> & H2)]; [cbn in H0; lia|].
    apply list_elem_of_singleton in H1. injection H1 as -> ->. by exists q.
Qed.

Lemma shrunk_trans gone n n1 n2 k1 k2 :
  shrunk gone n n1 k1 → shrunk (fun _ => False) n1 n2 k2 → shrunk gone n n2 (k1 + k2).
Proof.
  intros [A1 A2 A3 A4 A5 A6] [B1 B2 B3 B4 B5 B6]. split; [exact B1|by etrans|lia| | |].
  - intros b l (l1 & H1)%A4. by apply (B4 b l1).
  - intros p i e [H _]%B5. by apply A5.
  - intros p i e H Hg H0. apply B6; [by apply A6|tauto|done].
Qed.

(** A childless child unlinked. *)
Lemma remove_entry_split cs key c :
  NoDup (fst <$> cs) → (key, c) ∈ cs → ∃ cs1 cs2, cs = cs1 ++ (key, c) :: cs2 ∧ remove_entry cs key = cs1 ++ cs2.
Proof.
  induction cs as [|[k n] cs IH]; cbn; intros Hn Hin; [by apply elem_of_nil in Hin|]. apply list.NoDup_cons in Hn as [Hk Hn].
  apply elem_of_cons in Hin as [He|Hin]; [injection He as <- <-; exists [], cs; by rewrite Z.eqb_refl|].
  rewrite (proj2 (Z.eqb_neq k key)); [|intros ->; apply Hk, list_elem_of_fmap; by exists (key, c)].
  destruct (IH Hn Hin) as (cs1 & cs2 & -> & ->). by exists ((k, n) :: cs1), cs2.
Qed.

Lemma entry_of_in id cs key : entry_of id cs = Some key → ∃ c, (key, c) ∈ cs ∧ n_id c = id ∧ n_children c = [].
Proof.
  induction cs as [|[k c] cs IH]; cbn; [done|]. destruct (n_id c =? id) eqn:E; zbool.
  - destruct (n_children c) eqn:Hc; [|done]. intros [= <-]. exists c. split; [by left|done].
  - intros (c' & H & Hr)%IH. exists c'. split; [by right|done].
Qed.

Lemma lives_leaf c p i e : n_children c = [] → lives c p i e → i = n_id c.
Proof. intros Hc [(_ & -> & _)|(k & x & q & Hin & _)]%lives_inv; [done|]. rewrite Hc in Hin. by apply elem_of_nil in Hin. Qed.

Lemma nodup_sub {A} (l k : list A) : l ⊆+ k → NoDup k → NoDup l.
Proof. intros [r ->]%submseteq_Permutation. by intros (H & _)%list.NoDup_app. Qed.

(** The children of a node changed at one entry: the rest of the tree stays. *)
Lemma children_shrunk id n cs1 key c cs2 kids k :
  tree_ok n → NoDup (ids n) → n_children n = cs1 ++ (key, c) :: cs2 → id ∈ ids c →
  (kids = [] ∧ n_id c = id ∧ n_children c = [] ∧ k = 1 ∨ ∃ c', kids = [(key, c')] ∧ shrunk (fun i => i = id) c c' k) →
  shrunk (fun i => i = id) n (with_children (cs1 ++ kids ++ cs2) n) k.
Proof.
  intros Hw Hn Hcs Hid Hkids. set (n' := with_children _ n).
  assert (Hch : n_children n' = cs1 ++ kids ++ cs2) by (by destruct n). assert (Hnid : n_id n' = n_id n) by (by destruct n).
  assert (Hlab : n_label n' = n_label n) by (by destruct n). assert (Hep : n_ep n' = n_ep n) by (by destruct n).
  assert (Hc : (key, c) ∈ n_children n) by (rewrite Hcs; apply elem_of_app; right; left).
  pose proof (wf_child n key c Hw Hc) as Hwc.
  assert (Hother : ∀ j x, (j, x) ∈ cs1 ∨ (j, x) ∈ cs2 → (j, x) ∈ n_children n). { intros j x H. rewrite Hcs, elem_of_app, elem_of_cons. tauto. }
  assert (Hin' : ∀ j x, (j, x) ∈ n_children n' ↔ ((j, x) ∈ cs1 ∨ (j, x) ∈ cs2) ∨ (j, x) ∈ kids). { intros j x. rewrite Hch, !elem_of_app. tauto. }
  assert (Hsub : kids_ids kids ⊆+ ids c ∧ (fst <$> kids) ⊆+ [key]).
  { destruct Hkids as [(-> & _)|(c' & -> & Hsh)]; [split; apply submseteq_nil_l|]. cbn. rewrite app_nil_r. split; [exact (sh_ids _ _ _ _ Hsh)|done]. }
  assert (Hidn : id ∈ kids_ids (n_children n)) by (apply kids_ids_in; by exists key, c).
  rewrite ids_eq in Hn. apply list.NoDup_cons in Hn as [Hr Hn].
  assert (Happart : ∀ j x p i e, (j, x) ∈ cs1 ∨ (j, x) ∈ cs2 → lives x p i e → i ≠ id).
  { intros j x p i e Hjx Hl ->. assert (He : (j, x) = (key, c)) by (eapply kids_apart; [exact Hn|by apply Hother|exact Hc|by eapply lives_ids|done]).
    injection He as -> ->. rewrite Hcs, kids_ids_app, kids_ids_cons in Hn.
    assert (Hp : cs1 ++ (key, c) :: cs2 ≡ₚ (key, c) :: cs1 ++ cs2) by (by rewrite Permutation_middle).
    assert (Hn2 : NoDup (ids c ++ kids_ids (cs1 ++ cs2))). { rewrite kids_ids_app. eapply NoDup_Permutation_proper; [|exact Hn]. solve_Permutation. }
    apply list.NoDup_app in Hn2 as (_ & Hd & _). apply (Hd id Hid). apply kids_ids_in. exists key, c. split; [|done]. by rewrite elem_of_app. }
  assert (Hk1 : ∀ j x, (j, x) ∈ kids → tree_ok x ∧ ∃ l, n_label x = j :: l).
  { intros j x Hjx. destruct Hkids as [(-> & _)|(c' & -> & Hsh)]; [by apply elem_of_nil in Hjx|]. apply list_elem_of_singleton in Hjx. injection Hjx as -> ->.
    split; [exact (sh_ok _ _ _ _ Hsh)|]. destruct (wf_label n key c Hw Hc) as [l Hl]. exact (sh_label _ _ _ _ Hsh key l Hl). }
  split.
  - constructor.
    + rewrite Hch, !fmap_app. pose proof (wf_keys n Hw) as Hnd. rewrite Hcs, fmap_app in Hnd. cbn in Hnd. eapply nodup_sub; [|exact Hnd].
      apply submseteq_app; [done|]. change (key :: (fst <$> cs2)) with ([key] ++ (fst <$> cs2)). apply submseteq_app; [by destruct Hsub|done].
    + intros j x [Hjx|Hjx]%Hin'; [exact (wf_label n j x Hw (Hother j x Hjx))|by apply Hk1].
    + intros j x [Hjx|Hjx]%Hin'; [exact (wf_child n j x Hw (Hother j x Hjx))|exact (proj1 (Hk1 j x Hjx))].
  - rewrite !ids_eq, Hnid, Hch, Hcs, !kids_ids_app, kids_ids_cons. apply submseteq_skip. apply submseteq_app; [done|]. apply submseteq_app; [by destruct Hsub|done].
  - rewrite !tree_size_ids, !ids_eq, !zlen_cons, Hch, Hcs, !kids_ids_app, kids_ids_cons, !zlen_app.
    destruct Hkids as [(-> & _ & Hcc & ->)|(c' & -> & Hsh)]; [rewrite (ids_eq c), Hcc, zlen_cons; cbn; lia|].
    pose proof (sh_size _ _ _ _ Hsh) as Hz. rewrite !tree_size_ids in Hz. replace (kids_ids [(key, c')]) with (ids c') by (cbn; by rewrite app_nil_r). lia.
  - intros b l Hl. exists l. by rewrite Hlab.
  - intros p i e [(-> & -> & ->)|(j & x & q & [Hjx|Hjx]%Hin' & -> & Hl)]%lives_inv.
    + rewrite Hnid. split; [apply lives_inv; left; by rewrite Hlab, Hep|]. intros Heq. apply Hr. by rewrite Heq.
    + rewrite Hlab. split; [apply lives_inv; right; exists j, x, q; split_and!; [by apply Hother|done..]|]. by eapply Happart.
    + destruct Hkids as [(-> & _)|(c' & -> & Hsh)]; [by apply elem_of_nil in Hjx|]. apply list_elem_of_singleton in Hjx. injection Hjx as -> ->.
      apply (sh_lives _ _ _ _ Hsh) in Hl as [Hl Hne]. rewrite Hlab. split; [|done]. apply lives_inv. right. by exists key, c, q.
  - intros p i e Hl Hne H0. apply lives_inv. rewrite Hlab, Hnid, Hep. apply lives_inv in Hl as [H|(j & x & q & Hjx & -> & Hl)]; [by left|]. right.
    rewrite Hcs, elem_of_app, elem_of_cons in Hjx. destruct Hjx as [Hjx|[Hjx|Hjx]]; [exists j, x, q; split_and!; [apply Hin'; tauto|done..]| |exists j, x, q; split_and!; [apply Hin'; tauto|done..]].
    injection Hjx as -> ->. destruct Hkids as [(-> & Hi & Hcc & _)|(c' & -> & Hsh)]; [apply (lives_leaf c q i e Hcc) in Hl; congruence|].
    exists key, c', q. split_and!; [apply Hin'; right; left|done|]. by apply (sh_kept _ _ _ _ Hsh).
Qed.

(** The two ways a node below [n] is unlinked. *)
Lemma unlink_cases ok root id i l e ts cs :
  let n := Node i l e ts cs in
  match entry_of id cs with
  | Some key => unlink ok root id n =
      (if root then Some (remove_child n key, 1)
       else Some (fst (merge_with_single_child ok (remove_child n key)), if snd (merge_with_single_child ok (remove_child n key)) then 2 else 1))
  | None =>
      (∀ n' k, unlink ok root id n = Some (n', k) → ∃ cs1 key c cs2 c',
         cs = cs1 ++ (key, c) :: cs2 ∧ unlink ok false id c = Some (c', k) ∧ n' = with_children (cs1 ++ [(key, c')] ++ cs2) n) ∧
      (∀ key c, (key, c) ∈ cs → is_Some (unlink ok false id c) → is_Some (unlink ok root id n))
  end.
Proof.
  cbn [unlink]. destruct (entry_of id cs) as [key|] eqn:E.
  - destruct root; [done|]. by destruct (merge_with_single_child ok _).
  - match goal with |- context [?f [] cs] => set (go := f) end. clear E.
    assert (Hgo : ∀ cs done, (∀ n' k, go done cs = Some (n', k) → ∃ cs1 key c cs2 c',
         cs = cs1 ++ (key, c) :: cs2 ∧ unlink ok false id c = Some (c', k) ∧ n' = Node i l e ts (done ++ cs1 ++ (key, c') :: cs2)) ∧
      (∀ key c, (key, c) ∈ cs → is_Some (unlink ok false id c) → is_Some (go done cs))).
    { intros cs0. induction cs0 as [|[key c] cs0 IH]; intros pre; cbn.
      - split; [done|]. intros key c H. by apply elem_of_nil in H.
      - destruct (unlink ok false id c) as [[c' k']|] eqn:Hu.
        + split; [|by intros; eexists]. intros n' k [= <- <-]. by exists [], key, c, cs0, c'.
        + destruct (IH (pre ++ [(key, c)])) as [H1 H2]. split.
          * intros n' k (cs1 & key1 & c1 & cs2 & c' & -> & H3 & ->)%H1. exists ((key, c) :: cs1), key1, c1, cs2, c'. split_and!; [done..|]. cbn. by rewrite <- app_assoc.
          * intros key1 c1 [He|Hin]%elem_of_cons Hs; [injection He as -> ->; rewrite Hu in Hs; by destruct Hs|by eapply H2]. }
    apply (Hgo cs []).
Qed.

Lemma unlink_spec ok id n root n' k :
  tree_ok n → NoDup (ids n) → unlink ok root id n = Some (n', k) →
  shrunk (fun i => i = id) n n' k ∧ 1 ≤ k ∧ id ∈ kids_ids (n_children n) ∧ (root = true → n_label n' = n_label n ∧ n_ep n' = n_ep n).
Proof.
  revert root n' k. induction n as [i l e ts cs IH] using node_nested. intros root n' k Hw Hn.
  pose proof (unlink_cases ok root id i l e ts cs) as Hc. cbn zeta in Hc. destruct (entry_of id cs) as [key|] eqn:E.
  - rewrite Hc. clear Hc. apply entry_of_in in E as (c & Hin & Hid & Hcc). destruct (remove_entry_split cs key c (wf_keys _ Hw) Hin) as (cs1 & cs2 & Hcs & Hrm).
    assert (Hidc : id ∈ ids c) by (rewrite ids_eq, Hid; left).
    assert (Hsh : shrunk (fun i => i = id) (Node i l e ts cs) (remove_child (Node i l e ts cs) key) 1).
    { unfold remove_child. cbn [n_children]. rewrite Hrm. apply (children_shrunk id _ cs1 key c cs2 [] 1 Hw Hn Hcs Hidc). by left. }
    assert (Hkid : id ∈ kids_ids cs) by (apply kids_ids_in; by exists key, c).
    destruct root; [intros He; apply (inj Some), (inj2 pair) in He as [<- <-]; by split_and!|].
    destruct (merge_with_single_child ok _) as [n1 b] eqn:Hm. cbn [fst snd]. intros He. apply (inj Some), (inj2 pair) in He as [<- <-].
    pose proof (shrunk_trans _ _ _ _ _ _ Hsh (merge_shrunk ok _ _ _ (sh_ok _ _ _ _ Hsh) Hm)) as H. destruct b; by split_and!.
  - intros Hu. destruct (proj1 Hc n' k Hu) as (cs1 & key & c & cs2 & c' & Hcs & Hu' & ->). clear Hc Hu.
    assert (Hin : (key, c) ∈ cs) by (rewrite Hcs; apply elem_of_app; right; left).
    assert (Hnc : NoDup (ids c)). { rewrite ids_eq in Hn. apply list.NoDup_cons in Hn as [_ Hn]. by eapply kid_ids. }
    destruct (IH key c Hin false c' k (wf_child (Node i l e ts cs) key c Hw Hin) Hnc Hu') as (Hsh & Hk & Hid & _).
    assert (Hidc : id ∈ ids c) by (rewrite ids_eq; by right).
    split_and!; [|done|apply kids_ids_in; by exists key, c|done].
    apply (children_shrunk id _ cs1 key c cs2 [(key, c')] k Hw Hn Hcs Hidc). right. by exists c'.
Qed.

(** A childless node below is found. *)
Lemma unlink_finds ok id n root k c q m :
  NoDup (ids n) → (k, c) ∈ n_children n → at_path c q m → n_children m = [] → n_id m = id → is_Some (unlink ok root id n).
Proof.
  revert root k c q. induction n as [i l e ts cs IH] using node_nested. intros root k c q Hn Hin Hp Hm Hid.
  pose proof (unlink_cases ok root id i l e ts cs) as Hc. cbn zeta in Hc. destruct (entry_of id cs) as [key|] eqn:E.
  { rewrite Hc. by destruct root. }
  rewrite ids_eq in Hn. apply list.NoDup_cons in Hn as [_ Hn]. cbn in Hn, Hin. apply (proj2 Hc k c Hin). clear Hc.
  apply at_path_inv in Hp as [[_ ->]|(k' & c' & q' & Hin' & _ & Hq)]; [|exact (IH k c Hin false k' c' q' (kid_ids cs k c Hn Hin) Hin' Hq Hm Hid)].
  exfalso. revert E Hn Hin. clear IH. induction cs as [|[k0 c0] cs IHcs]; [intros _ _ H; by apply elem_of_nil in H|]. cbn [entry_of].
  rewrite kids_ids_cons. intros E (_ & Hd & Hn)%list.NoDup_app Hin. destruct (n_id c0 =? id) eqn:E0; zbool.
  - apply elem_of_cons in Hin as [He|Hin]; [injection He as -> ->; by rewrite Hm in E|]. apply (Hd id); [rewrite ids_eq, <- E0; left|].
    apply kids_ids_in. exists k, c. split; [done|]. rewrite ids_eq, Hid. left.
  - apply elem_of_cons in Hin as [He|Hin]; [injection He as -> ->; congruence|by apply IHcs].
Qed.

(** ** Removal, pass 2 *)

Lemma prune_one_spec ok t id :
  trie_ok t →
  trie_ok (prune_one ok t id) ∧
  (∀ p i e, lives (t_root (prune_one ok t id)) p i e → lives (t_root t) p i e) ∧
  (∀ p i e, lives (t_root t) p i e → i ≠ id → 0 ≤ e → lives (t_root (prune_one ok t id)) p i e) ∧
  (is_Some (unlink ok true id (t_root t)) → t_node_count (prune_one ok t id) < t_node_count t ∧ ∀ p i e, lives (t_root (prune_one ok t id)) p i e → i ≠ id).
Proof.
  intros Hok. unfold prune_one. destruct (unlink ok true id (t_root t)) as [[n' k]|] eqn:Hu; [|by split_and!; [done..|intros []]].
  destruct Hok as [H1 [H2 H2'] H3 H4 H5]. destruct (unlink_spec ok id (t_root t) true n' k H1 H4 Hu) as (Hsh & Hk & _ & Hroot). destruct (Hroot eq_refl) as [Hl He].
  split_and!.
  - split; cbn; [exact (sh_ok _ _ _ _ Hsh)|by rewrite Hl, He|rewrite H3, (sh_size _ _ _ _ Hsh); lia|exact (nodup_sub _ _ (sh_ids _ _ _ _ Hsh) H4)|].
    intros i Hi. apply H5. by apply (elem_of_submseteq _ _ _ Hi), (sh_ids _ _ _ _ Hsh).
  - intros p i e Hp. by apply (sh_lives _ _ _ _ Hsh).
  - intros p i e Hp Hne H0. by apply (sh_kept _ _ _ _ Hsh).
  - intros _. split; [cbn; lia|]. intros p i e Hp. by apply (sh_lives _ _ _ _ Hsh) in Hp as [_ Hp].
Qed.

Lemma recorded_lives t p e : trie_ok t → recorded t p e ↔ 0 ≤ e ∧ ∃ i, lives (t_root t) p i e.
Proof. intros Hok. unfold recorded. rewrite has_ep_lives. by rewrite (proj1 (ok_root t Hok)). Qed.

(** Pruning nodes that record nothing. *)
Lemma prune_all_spec ok prune t :
  trie_ok t → (∀ i p e, i ∈ prune → lives (t_root t) p i e → e < 0) →
  trie_ok (foldl (prune_one ok) t prune) ∧ ∀ p e, recorded (foldl (prune_one ok) t prune) p e ↔ recorded t p e.
Proof.
  revert t. induction prune as [|id prune IH]; intros t Hok Hneg; cbn; [by split|].
  destruct (prune_one_spec ok t id Hok) as (H1 & H2 & H3 & _). destruct (IH (prune_one ok t id) H1) as [H4 H5].
  { intros i p e Hi Hl. apply (Hneg i p e); [by right|]. by apply H2. }
  split; [done|]. intros p e. rewrite H5, !recorded_lives by done. split; intros (H0 & i & Hl); (split; [done|]); exists i; [by apply H2|].
  apply H3; [done| |done]. intros ->. specialize (Hneg id p e (list_elem_of_here _ _) Hl). lia.
Qed.

(** ** The oldest leaf *)

Definition best_leaf (n : node) (o o' : option (Z * Z)) : Prop :=
  (o' = o ∨ ∃ p m, leaf_at n p m ∧ o' = Some (n_id m, n_ts m)) ∧
  (∀ p m, leaf_at n p m → ∃ j u, o' = Some (j, u) ∧ u ≤ n_ts m) ∧
  (∀ j u, o = Some (j, u) → ∃ j' u', o' = Some (j', u') ∧ u' ≤ u).

Lemma leaf_at_inv n p m :
  leaf_at n p m ↔ (p = [] ∧ m = n ∧ n_children n = [] ∧ 0 ≤ n_ep n) ∨ ∃ k c q, (k, c) ∈ n_children n ∧ p = n_label c ++ q ∧ leaf_at c q m.
Proof.
  unfold leaf_at. split.
  - intros (Hp & Hc & He). apply at_path_inv in Hp as [[-> ->]|(k & c & q & Hin & -> & Hq)]; [by left|]. right. by exists k, c, q.
  - intros [(-> & -> & Hc & He)|(k & c & q & Hin & -> & Hq & Hc & He)]; split_and!; try done; [constructor|by eapply at_child].
Qed.

Lemma find_oldest_spec n o : best_leaf n o (find_oldest_leaf n o).
Proof.
  revert o. induction n as [i l e ts cs IH] using node_nested. intros o. cbn [find_oldest_leaf]. set (o1 := match cs with [] => _ | _ => _ end).
  assert (Ho1 : (o1 = o ∨ (cs = [] ∧ 0 ≤ e ∧ o1 = Some (i, ts))) ∧ (cs = [] → 0 ≤ e → ∃ j u, o1 = Some (j, u) ∧ u ≤ ts) ∧
            (∀ j u, o = Some (j, u) → ∃ j' u', o1 = Some (j', u') ∧ u' ≤ u)).
  { unfold o1. destruct cs as [|x cs]; [|split_and!; [by left|done|intros j u ->; exists j, u; by split]]. rewrite Z.geb_leb.
    destruct (0 <=? e) eqn:E; zbool; [|split_and!; [by left|lia|intros j u ->; exists j, u; by split]].
    destruct o as [[j0 u0]|]; [destruct (ts <? u0) eqn:E2; zbool|].
    - split_and!; [by right|intros _ _; exists i, ts; by split|intros j u [= <- <-]; exists i, ts; split; [done|lia]].
    - split_and!; [by left|intros _ _; exists j0, u0; by split|intros j u [= <- <-]; exists j0, u0; by split].
    - split_and!; [by right|intros _ _; exists i, ts; by split|done]. }
  assert (Hfold : ∀ o2, let o3 := foldl (fun o kc => find_oldest_leaf (snd kc) o) o2 cs in
            (o3 = o2 ∨ ∃ k c q m, (k, c) ∈ cs ∧ leaf_at c q m ∧ o3 = Some (n_id m, n_ts m)) ∧
            (∀ k c q m, (k, c) ∈ cs → leaf_at c q m → ∃ j u, o3 = Some (j, u) ∧ u ≤ n_ts m) ∧
            (∀ j u, o2 = Some (j, u) → ∃ j' u', o3 = Some (j', u') ∧ u' ≤ u)).
  { clear o1 Ho1 o. revert IH. induction cs as [|[k c] cs IHcs]; intros IH o2; cbn [foldl snd].
    - split_and!; [by left|intros k c q m H; by apply elem_of_nil in H|intros j u ->; exists j, u; by split].
    - destruct (IH k c (list_elem_of_here _ _) o2) as (A1 & A2 & A3).
      destruct (IHcs (fun k' c' H => IH k' c' (list_elem_of_further _ _ _ H)) (find_oldest_leaf c o2)) as (B1 & B2 & B3). split_and!.
      + destruct B1 as [->|(k' & c' & q & m & Hin & Hl & He)]; [|right; exists k', c', q, m; split_and!; [by right|done..]].
        destruct A1 as [A1|(p & m & Hl & He)]; [by left|]. right. exists k, c, p, m. split_and!; [by left|done..].
      + intros k' c' q m [He|Hin]%elem_of_cons Hl; [|by eapply B2]. injection He as -> ->. destruct (A2 q m Hl) as (j & u & Hj & Hu).
        destruct (B3 j u Hj) as (j' & u' & -> & Hu'). exists j', u'. split; [done|lia].
      + intros j u Ho. destruct (A3 j u Ho) as (j1 & u1 & Hj & Hu). destruct (B3 j1 u1 Hj) as (j' & u' & -> & Hu'). exists j', u'. split; [done|lia]. }
  destruct (Hfold o1) as (B1 & B2 & B3). clear Hfold. destruct Ho1 as (A1 & A2 & A3). split_and!.
  - destruct B1 as [->|(k & c & q & m & Hin & Hl & ->)].
    + destruct A1 as [->|(-> & H0 & ->)]; [by left|]. right. exists [], (Node i l e ts []). split; [|done]. apply leaf_at_inv. by left.
    + right. exists (n_label c ++ q), m. split; [|done]. apply leaf_at_inv. right. by exists k, c, q.
  - intros p m [(-> & -> & Hc & H0)|(k & c & q & Hin & -> & Hl)]%leaf_at_inv; [|by eapply B2]. cbn in Hc, H0. subst cs.
    destruct (A2 eq_refl H0) as (j & u & Hj & Hu). destruct (B3 j u Hj) as (j' & u' & Hj' & Hu'). exists j', u'. split; [done|cbn; lia].
  - intros j u Ho. destruct (A3 j u Ho) as (j1 & u1 & Hj & Hu). destruct (B3 j1 u1 Hj) as (j' & u' & -> & Hu'). exists j', u'. split; [done|lia].
Qed.

(** ** Eviction *)

(** One turn evicts, and only a tree without a leaf to evict gives it up. *)
Lemma evict_one_spec ok max_nodes t :
  trie_ok t → max_nodes < t_node_count t →
  match evict_one ok t with
  | Some t' => trie_ok t' ∧ evicts max_nodes t t'
  | None => ∀ p m, ¬ leaf_at (t_root t) p m
  end.
Proof.
  intros Hok Hmax. unfold evict_one. destruct (find_oldest_spec (t_root t) None) as (H1 & H2 & _).
  destruct (find_oldest_leaf (t_root t) None) as [[id u]|] eqn:Hf; cbn; [|intros p m Hl; by destruct (H2 p m Hl) as (j & u & ? & _)].
  destruct H1 as [?|(p & m & Hl & [= -> ->])]; [done|]. destruct (prune_one_spec ok t (n_id m) Hok) as (Hok' & Hsub & Hkeep & Hgone).
  split; [done|]. destruct (ok_root t Hok) as [Hlab Hroot]. destruct Hl as (Hp & Hm & H0).
  assert (Hlive : lives (t_root t) p (n_id m) (n_ep m)) by (exists p, m; by rewrite Hlab).
  destruct Hgone as [Hless Hne].
  { destruct (at_path_inv _ _ _ Hp) as [[_ ->]|(k & c & q & Hin & _ & Hq)]; [lia|]. by eapply (unlink_finds ok _ _ true k c q m (ok_ids t Hok)). }
  split_and!; [done..|]. exists p, m. split_and!; [done| |].
  - intros p' m' Hl'. destruct (H2 p' m' Hl') as (j & u & [= <- <-] & Hu). done.
  - intros q e. rewrite !recorded_lives by done. split.
    + intros (He & i & Hl). split; [|split; [done|]; exists i; by apply Hsub]. intros ->.
      assert (Heq : recorded t p e) by (apply recorded_lives; [done|]; split; [done|]; exists i; by apply Hsub).
      apply Hsub in Hl as Hl'. destruct Hl' as (q1 & m1 & Hq1 & Hp1 & Hi & He1). rewrite Hlab in Hq1. cbn in Hq1. subst q1.
      apply (Hne p i e Hl). rewrite <- Hi. f_equal. exact (at_path_fun _ p m1 m (ok_tree t Hok) Hp1 Hp).
    + intros (Hqp & He & i & Hl). split; [done|]. exists i. apply Hkeep; [done| |done]. intros ->. by destruct (lives_one _ _ _ _ _ _ (ok_ids t Hok) Hl Hlive).
Qed.

Lemma evict_from_spec ok fuel max_nodes t :
  trie_ok t → t_node_count t ≤ Z.of_nat fuel + Z.max 0 max_nodes →
  let t' := evict_from ok fuel max_nodes t in
  trie_ok t' ∧ rtc (evicts max_nodes) t t' ∧ (t_node_count t' ≤ max_nodes ∨ ∀ p m, ¬ leaf_at (t_root t') p m).
Proof.
  revert t. induction fuel as [|fuel IH]; intros t Hok Hf; cbn [evict_from].
  - split_and!; [done|apply rtc_refl|]. pose proof (ok_count t Hok) as Hc. rewrite tree_size_ids, ids_eq, zlen_cons in Hc.
    pose proof (zlen_nonneg (kids_ids (n_children (t_root t)))). lia.
  - destruct (t_node_count t >? max_nodes) eqn:E; [|split_and!; [done|apply rtc_refl|left; rewrite Z.gtb_ltb in E; zbool; lia]].
    rewrite Z.gtb_ltb in E. zbool. pose proof (evict_one_spec ok max_nodes t Hok E) as Hone.
    destruct (evict_one ok t) as [t1|]; [|split_and!; [done|apply rtc_refl|by right]]. destruct Hone as [Hok1 Hev].
    destruct (IH t1 Hok1) as (H1 & H2 & H3); [destruct Hev as (_ & ? & _); lia|]. split_and!; [done| |done]. by eapply rtc_l.
Qed.

(** ** The operations *)

Lemma create_ok id : trie_ok (pd_trie_create id).
Proof.
  split; cbn; [apply leaf_ok|done|done|apply NoDup_singleton|]. intros i ->%list_elem_of_singleton. lia.
Qed.

(** A release frees every node once. *)
Lemma free_subtree_size n count : free_subtree n count = count - tree_size n.
Proof.
  revert count. induction n as [i l e ts cs IH] using node_nested. intros count. cbn [free_subtree]. rewrite tree_size_eq. cbn [n_children].
  revert count. induction cs as [|[k c] cs IHcs]; intros count; cbn [foldl snd]; [cbn; lia|].
  rewrite kids_cons, (IH k c) by left. rewrite IHcs; [lia|]. intros k' c' H. apply (IH k'). by right.
Qed.
Lemma pd_trie_free_all t : trie_ok t → pd_trie_free t = 0.
Proof. intros Hok. unfold pd_trie_free. rewrite free_subtree_size, (ok_count t Hok). lia. Qed.

Lemma grown_nil_ok n n' : grown n n' [] → (NoDup (ids n) → NoDup (ids n')) ∧ ∀ i, i ∈ ids n' → i ∈ ids n.
Proof. unfold grown. rewrite app_nil_r. intros H. split; [by rewrite H|]. intros i. by rewrite H. Qed.

Lemma root_not_recorded t e : trie_ok t → ¬ recorded t [] e.
Proof. intros Hok [He H0]%(has_ep_nil _ _ (ok_tree t Hok)). destruct (ok_root t Hok). lia. Qed.

(** C34. A match answers the endpoint of the longest recorded text that is a
    prefix of the request, with its length, and answers nothing exactly when no
    recorded text is; the tree stays well formed, counts its nodes right and
    records what it did. *)
Theorem pd_trie_match_longest now text t :
  trie_ok t → text ≠ [] →
  let '(t', best) := pd_trie_match now text t in
  trie_ok t' ∧ (∀ p e, recorded t' p e ↔ recorded t p e) ∧
  match best with
  | Some (e, len) =>
      ∃ p, recorded t p e ∧ p `prefix_of` text ∧ len = zlen p ∧
        ∀ p' e', recorded t p' e' → p' `prefix_of` text → (length p' ≤ length p)%nat
  | None => ∀ p e, recorded t p e → ¬ p `prefix_of` text
  end.
Proof.
  intros Hok Hne. unfold pd_trie_match. destruct text as [|b text]; [done|]. clear Hne. set (txt := b :: text).
  destruct (ok_root t Hok) as [Hlab Hroot]. rewrite Z.geb_leb, (proj2 (Z.leb_gt 0 _) Hroot).
  destruct (match_from _ now (t_root t) txt 0 None) as [root best] eqn:Hm.
  destruct (match_from_spec _ now (t_root t) txt 0 None root best (ok_tree t Hok) (le_n _) Hm) as [(H1 & H2 & H3 & H4 & H5) Hlong].
  destruct (grown_nil_ok _ _ (match_grown _ _ _ _ _ _ _ _ Hm)) as [H6 H7].
  split_and!; [split; cbn; [exact H1|by rewrite H3, H4|rewrite H5; exact (ok_count t Hok)|exact (H6 (ok_ids t Hok))|intros i Hi; by apply (ok_next t Hok), H7]|exact H2|].
  assert (Hnil : ∀ p e, recorded t p e → p ≠ []) by (intros p e Hr ->; by apply (root_not_recorded t e Hok)).
  destruct Hlong as [(p & e & (Hp1 & Hp2 & _) & Hmax & ->)|[Hnone ->]].
  - exists p. split_and!; [done..|]. intros p' e' Hr Hpre. apply (Hmax p' e'). split_and!; [done..|]. by eapply Hnil.
  - intros p e Hr Hpre. apply (Hnone p e). split_and!; [done..|]. by eapply Hnil.
Qed.

(** An insert records its text with its endpoint and loses no other record;
    the only further record it makes is the point of a split, a proper prefix of
    the text that recorded nothing before, with the endpoint of a text below it.
    The tree stays well formed, at most two nodes are added and the count is
    exact. *)
Theorem pd_trie_insert_records now text ep t :
  trie_ok t → text ≠ [] → 0 ≤ ep →
  let t' := pd_trie_insert heap_ok now text ep t in
  trie_ok t' ∧ recorded t' text ep ∧
  (∀ p e, p ≠ text → recorded t p e → recorded t' p e) ∧
  (∃ ext : option (list Z * Z),
     (∀ p e, recorded t' p e → (p = text ∧ e = ep) ∨ recorded t p e ∨ ext = Some (p, e)) ∧
     match ext with
     | Some (s, es) => s `prefix_of` text ∧ s ≠ text ∧ (∀ e, ¬ recorded t s e) ∧ ∃ x, x ≠ [] ∧ recorded t (s ++ x) es
     | None => True
     end) ∧
  t_node_count t ≤ t_node_count t' ≤ t_node_count t + 2.
Proof.
  intros Hok Hne H0. unfold pd_trie_insert. destruct text as [|b text]; [done|]. set (txt := b :: text).
  destruct (insert_from _ heap_ok now (t_next t) (t_root t) txt ep) as [root k] eqn:Hi.
  destruct (insert_from_spec _ now (t_next t) (t_root t) txt ep root k (ok_tree t Hok) (le_n _) H0 Hi) as (H1 & H2 & H3 & H4 & (ext & Hspec & Hext) & H6).
  destruct (insert_grown _ now (t_next t) (t_root t) txt ep root k (ok_tree t Hok) Hi) as (fresh & Hg & Hnd & Hfr).
  destruct (ok_root t Hok) as [Hlab Hroot]. cbn [t_root t_node_count]. split_and!; [|by apply Hspec; left| | |lia..].
  - split; cbn; [exact H1|split; [by rewrite H2|by rewrite (H6 Hne)]|rewrite H3, (ok_count t Hok); lia| |].
    + rewrite Hg. apply list.NoDup_app. split_and!; [exact (ok_ids t Hok)| |done]. intros i Hi1 Hi2. apply (ok_next t Hok) in Hi1. apply Hfr in Hi2. lia.
    + intros i. rewrite Hg. intros [Hin|Hin]%elem_of_app; [apply (ok_next t Hok) in Hin; lia|apply Hfr in Hin; lia].
  - intros p e Hp Hr. apply Hspec. right. by left.
  - exists ext. split; [|done]. intros p e [H|[[_ H]|H]]%Hspec; tauto.
Qed.

Lemma remove_ep_spec ok ep t :
  trie_ok t → 0 ≤ ep →
  let t' := pd_trie_remove_ep ok ep t in
  trie_ok t' ∧ ∀ p e, recorded t' p e ↔ recorded t p e ∧ e ≠ ep.
Proof.
  intros Hok H0. unfold pd_trie_remove_ep. destruct (clear_dfs_spec ep (t_root t) []) as [Hc Hpr].
  destruct (remove_ep_clear_dfs ep (t_root t) []) as [root prune]. cbn in Hc, Hpr. subst root. destruct (ok_root t Hok) as [Hlab Hroot].
  set (t1 := t <| t_root := cleared ep (t_root t) |>).
  assert (Hok1 : trie_ok t1).
  { split; cbn; [exact (cleared_ok ep _ (ok_tree t Hok))|rewrite cleared_label; split; [done|]; destruct (t_root t); cbn in *; by case_match|
      rewrite cleared_size; exact (ok_count t Hok)|rewrite cleared_ids; exact (ok_ids t Hok)|rewrite cleared_ids; exact (ok_next t Hok)]. }
  destruct (prune_all_spec ok prune t1 Hok1) as [H1 H2].
  - intros i p e Hi (e0 & Hl & ->)%cleared_lives. apply Hpr in Hi as [Hi|[p' Hl']]; [by apply elem_of_nil in Hi|].
    destruct (lives_one _ _ _ _ _ _ (ok_ids t Hok) Hl Hl') as [_ ->]. rewrite Z.eqb_refl. lia.
  - split; [done|]. intros p e. rewrite H2, !recorded_lives by done. change (t_root t1) with (cleared ep (t_root t)). setoid_rewrite cleared_lives. split.
    + intros (He & i & e0 & Hl & ->). destruct (e0 =? ep) eqn:E; zbool; [lia|]. split; [split; [done|by exists i]|done].
    + intros ((He & i & Hl) & Hne). split; [done|]. exists i, e. split; [done|]. by rewrite (proj2 (Z.eqb_neq _ _)).
Qed.

(** Removing an endpoint forgets exactly its records: after both passes, with
    whichever merges had memory for their label, a text is recorded if and only
    if it was, with another endpoint; the tree stays well formed and its count
    exact. *)
Theorem pd_trie_remove_ep_exact ok ep t :
  trie_ok t → 0 ≤ ep →
  let t' := pd_trie_remove_ep ok ep t in
  trie_ok t' ∧ ∀ p e, recorded t' p e ↔ recorded t p e ∧ e ≠ ep.
Proof. apply remove_ep_spec. Qed.

(** C36. An eviction ends, and it is a sequence of steps that each forget one
    leaf's text and nothing else, a leaf used no later than any other; it ends at
    the bound, or with no leaf left that records an endpoint. The tree stays well
    formed and its count exact. *)
Theorem pd_trie_evict_lru_oldest_first ok max_nodes t :
  trie_ok t → 0 ≤ max_nodes →
  let t' := pd_trie_evict_lru ok max_nodes t in
  trie_ok t' ∧ rtc (evicts max_nodes) t t' ∧ (t_node_count t' ≤ max_nodes ∨ ∀ p m, ¬ leaf_at (t_root t') p m).
Proof.
  intros Hok H0. apply evict_from_spec; [done|]. lia.
Qed.

(** ** Witnesses *)

(** Two requests that share "ab", served by endpoints 1 and 2, then a longer one
    by endpoint 1. *)
Definition trie_a : pd_trie := pd_trie_insert heap_ok 5 [97; 98; 99] 1 (pd_trie_create 0).
Definition trie_ab : pd_trie := pd_trie_insert heap_ok 6 [97; 98; 100] 2 trie_a.

Lemma trie_a_ok : trie_ok trie_a.
Proof.
  split.
  - eapply (add_child_ok (alloc_node 0 []) 97 (Node 1 [97; 98; 99] 1 5 []) [98; 99]); [apply leaf_ok|done|apply leaf_ok|done].
  - done.
  - done.
  - by apply (bool_decide_eq_true_1 (NoDup [0; 1])).
  - intros i Hi. cbn in Hi. rewrite !elem_of_cons, elem_of_nil in Hi. cbn. lia.
Qed.

Lemma trie_a_records : recorded trie_a [97; 98; 99] 1.
Proof.
  exists (Node 1 [97; 98; 99] 1 5 []). split; [|done]. change [97; 98; 99] with (n_label (Node 1 [97; 98; 99] 1 5 []) ++ []).
  eapply (at_child _ 97); [left|constructor].
Qed.

Lemma pd_trie_match_longest_witness :
  snd (pd_trie_match 7 [97; 98; 99; 100] trie_a) = Some (1, 3) ∧
  ∃ p, recorded trie_a p 1 ∧ p `prefix_of` [97; 98; 99; 100] ∧ 3 = zlen p ∧
    ∀ p' e', recorded trie_a p' e' → p' `prefix_of` [97; 98; 99; 100] → (length p' ≤ length p)%nat.
Proof.
  split; [reflexivity|]. pose proof (pd_trie_match_longest 7 [97; 98; 99; 100] trie_a trie_a_ok ltac:(discriminate)) as H.
  exact (proj2 (proj2 H)).
Defined.

Lemma pd_trie_insert_records_witness :
  snd (pd_trie_match 7 [97; 98; 120] trie_ab) = Some (1, 2) ∧ trie_ok trie_ab ∧ recorded trie_ab [97; 98; 100] 2 ∧ recorded trie_ab [97; 98; 99] 1.
Proof.
  destruct (pd_trie_insert_records 6 [97; 98; 100] 2 trie_a trie_a_ok ltac:(discriminate) ltac:(discriminate)) as (H1 & H2 & H3 & _).
  split; [reflexivity|]. split; [exact H1|]. split; [exact H2|]. apply H3; [discriminate|exact trie_a_records].
Defined.

Lemma pd_trie_remove_ep_exact_witness :
  pd_trie_remove_ep (fun _ => true) 1 trie_a = mk_pd_trie (alloc_node 0 []) 1 3 ∧ ¬ recorded (pd_trie_remove_ep (fun _ => true) 1 trie_a) [97; 98; 99] 1.
Proof.
  split; [reflexivity|]. intros H. apply (proj2 (pd_trie_remove_ep_exact (fun _ => true) 1 trie_a trie_a_ok ltac:(discriminate))) in H as [_ H]. by apply H.
Defined.

Lemma pd_trie_evict_lru_oldest_first_witness :
  t_node_count (pd_trie_evict_lru (fun _ => true) 1 trie_a) = 1 ∧ rtc (evicts 1) trie_a (pd_trie_evict_lru (fun _ => true) 1 trie_a).
Proof.
  split; [reflexivity|]. exact (proj1 (proj2 (pd_trie_evict_lru_oldest_first (fun _ => true) 1 trie_a trie_a_ok ltac:(discriminate)))).
Defined.

(** ** What a removal leaves behind *)

(** A removal collects the nodes that are childless while it walks. A node that
    loses its only child to the prune, and its own endpoint to the walk, is left
    with neither: no later removal collects it, no eviction may choose it, and
    the tree stays above its bound for good. Two requests to one endpoint, one the
    prefix of the other, are enough. *)
Theorem pd_trie_remove_ep_strands ok max_nodes :
  let t := pd_trie_insert heap_ok 6 [97; 98] 1 (pd_trie_insert heap_ok 5 [97] 1 (pd_trie_create 0)) in
  let t' := pd_trie_remove_ep ok 1 t in
  t_node_count t' = 2 ∧ (∀ p e, ¬ recorded t' p e) ∧ pd_trie_evict_lru ok max_nodes t' = t'.
Proof.
  cbn zeta. set (t' := pd_trie_remove_ep _ _ _). assert (Ht : t' = mk_pd_trie (Node 0 [] (-1) 0 [(97, Node 1 [97] (-1) 5 [])]) 2 5) by reflexivity.
  rewrite Ht. split_and!; [done| |].
  - intros p e (m & Hp & He & H0). apply at_path_inv in Hp as [[-> ->]|(k & c & q & Hin & -> & Hp)]; [cbn in He; lia|].
    apply list_elem_of_singleton in Hin. injection Hin as -> ->. apply at_path_inv in Hp as [[-> ->]|(k & c & q' & Hin & _)]; [cbn in He; lia|by apply elem_of_nil in Hin].
  - set (s := mk_pd_trie _ _ _). transitivity (if 2 >? max_nodes then s else s); [reflexivity|by destruct (2 >? max_nodes)].
Qed.
