(* ===== verification/JsonUnescape.v ===== *)
(** * The JSON string decoder (src/common/sockproxy_json_unescape.h)

    The copy of a JSON string that decodes its escapes into a bounded buffer: the
    four hex digits of a \u escape, the UTF-8 of a code point, surrogate pairs,
    raw UTF-8 sequences, and the places where it stops. The theorems: a copy cut
    short by either length holds whole characters and is a prefix of the whole
    decoded text; every way to spell a text decodes to its UTF-8. *)

From Stdlib Require Import ZArith Wf_nat.
From stdpp Require Import base list numbers.
From S2P Require Import Prelude.

#[local] Set Warnings "-register-all".

(** ** The decoder *)

Definition hexdig (c : Z) : option Z :=
  if (48 <=? c) && (c <=? 57) then Some (c - 48)
  else if (97 <=? c) && (c <=? 102) then Some (c - 97 + 10)
  else if (65 <=? c) && (c <=? 70) then Some (c - 65 + 10)
  else None.

Fixpoint hex_from (n : nat) (s : list Z) (v : Z) : option Z :=
  match n, s with
  | O, _ => Some v
  | S n, c :: s => d ← hexdig c; hex_from n s (Z.lor (u32 (Z.shiftl v 4)) d)
  | S _, [] => None
  end.
Definition kv_json__hex4 (s : list Z) : option Z := hex_from 4 s 0.

Definition kv_json__utf8_len (cp : Z) : Z :=
  if cp <? 128 then 1 else if cp <? 2048 then 2 else if cp <? 65536 then 3 else if cp <=? 1114111 then 4 else 0.

Definition cont6 (cp sh : Z) : Z := u8 (Z.lor 128 (Z.land (Z.shiftr cp sh) 63)).
Definition kv_json__utf8_emit (cp : Z) : list Z :=
  if cp <? 128 then [u8 cp]
  else if cp <? 2048 then [u8 (Z.lor 192 (Z.shiftr cp 6)); cont6 cp 0]
  else if cp <? 65536 then [u8 (Z.lor 224 (Z.shiftr cp 12)); cont6 cp 6; cont6 cp 0]
  else [u8 (Z.lor 240 (Z.shiftr cp 18)); cont6 cp 12; cont6 cp 6; cont6 cp 0].

Definition simple_escape (e : Z) : option Z :=
  if e =? 34 then Some 34 else if e =? 92 then Some 92 else if e =? 47 then Some 47
  else if e =? 98 then Some 8 else if e =? 102 then Some 12 else if e =? 110 then Some 10
  else if e =? 114 then Some 13 else if e =? 116 then Some 9 else None.

(** The second half of a surrogate pair, and what follows it. *)
Definition low_half (cp : Z) (src : list Z) : option (Z * list Z) :=
  if zlen src <? 6 then None
  else if negb (zget src 0 =? 92) || negb (zget src 1 =? 117) then None
  else
    lo ← kv_json__hex4 (drop 2 src);
    if (lo <? 56320) || (57343 <? lo) then None
    else Some (u32 (65536 + Z.lor (Z.shiftl (cp - 55296) 10) (lo - 56320)), drop 6 src).

(** A \u escape at the head of [src]: the bytes of its character, what follows. *)
Definition unescape_u (src : list Z) (room : Z) : option (list Z * list Z) :=
  if zlen src <? 6 then None
  else
    cp ← kv_json__hex4 (drop 2 src);
    '(cp, src) ← (if (55296 <=? cp) && (cp <=? 56319) then low_half cp (drop 6 src)
                  else if (56320 <=? cp) && (cp <=? 57343) then None
                  else Some (cp, drop 6 src));
    let need := kv_json__utf8_len cp in
    if need =? 0 then None else if room <? need then None else Some (kv_json__utf8_emit cp, src).

(** The bytes a raw sequence needs, by its first. *)
Definition raw_len (c : Z) : option Z :=
  if Z.land c 224 =? 192 then Some 2 else if Z.land c 240 =? 224 then Some 3 else if Z.land c 248 =? 240 then Some 4 else None.
Definition is_cont (b : Z) : bool := Z.land b 192 =? 128.
Definition raw_seq (c : Z) (src : list Z) (room : Z) : option (list Z * list Z) :=
  need ← raw_len c;
  if zlen src <? need then None
  else if room <? need then None
  else if forallb is_cont (drop 1 (take (Z.to_nat need) src))
    then Some (take (Z.to_nat need) src, drop (Z.to_nat need) src) else None.

(** One turn of the loop with [room] bytes left: what it writes, and the source
    after it. None: the copy stops. *)
Definition unescape_step (src : list Z) (room : Z) : option (list Z * list Z) :=
  match src with
  | [] => None
  | c :: rest =>
      if c =? 92 then
        match rest with
        | [] => None
        | e :: rest =>
            if e =? 117 then unescape_u src room
            else d ← simple_escape e; Some ([d], rest)
        end
      else if c <? 128 then Some ([c], rest)
      else raw_seq c src room
  end.

Fixpoint unescape_from (fuel : nat) (src : list Z) (room : Z) : list Z :=
  match fuel with
  | O => []
  | S fuel =>
      if 0 <? room then
        match unescape_step src room with
        | Some (bs, rest) => bs ++ unescape_from fuel rest (room - zlen bs)
        | None => []
        end
      else []
  end.

(** What the buffer holds up to its NUL; None when there is no buffer. *)
Definition kv_json_unescape_copy (src : option (list Z)) (dstcap : Z) : option (list Z) :=
  if dstcap =? 0 then None
  else Some match src with Some src => unescape_from (length src) src (dstcap - 1) | None => [] end.

(** ** What the decoder means *)

(** The next character of a source, whatever the room. *)
Definition next_char (src : list Z) : option (list Z * list Z) := unescape_step src 4.

Fixpoint chars_from (fuel : nat) (src : list Z) : list (list Z) :=
  match fuel with
  | O => []
  | S fuel => match next_char src with Some (bs, rest) => bs :: chars_from fuel rest | None => [] end
  end.
(** The characters of a source, up to the first place it cannot be decoded. *)
Definition chars (src : list Z) : list (list Z) := chars_from (length src) src.

(** The UTF-8 encoding of a code point, by its arithmetic. *)
Definition utf8 (cp : Z) : list Z :=
  if cp <? 128 then [cp]
  else if cp <? 2048 then [192 + cp / 64; 128 + cp mod 64]
  else if cp <? 65536 then [224 + cp / 4096; 128 + cp / 64 mod 64; 128 + cp mod 64]
  else [240 + cp / 262144; 128 + cp / 4096 mod 64; 128 + cp / 64 mod 64; 128 + cp mod 64].

(** The shape of an encoded character: a first byte and its continuations. *)
Definition utf8_shape (bs : list Z) : Prop :=
  match bs with
  | [c] => 0 ≤ c < 128
  | [c; d] => 192 ≤ c < 224 ∧ 128 ≤ d < 192
  | [c; d; e] => 224 ≤ c < 240 ∧ 128 ≤ d < 192 ∧ 128 ≤ e < 192
  | [c; d; e; f] => 240 ≤ c < 248 ∧ 128 ≤ d < 192 ∧ 128 ≤ e < 192 ∧ 128 ≤ f < 192
  | _ => False
  end.
Definition bytes_ok (src : list Z) : Prop := Forall (fun b => 0 ≤ b < 256) src.

Definition surrogate (cp : Z) : Prop := 55296 ≤ cp ≤ 57343.

(** Four hex digits of any case, and their value. *)
Inductive hex4_of : list Z → Z → Prop :=
| hex4_digits a b c d va vb vc vd :
    hexdig a = Some va → hexdig b = Some vb → hexdig c = Some vc → hexdig d = Some vd →
    hex4_of [a; b; c; d] (4096 * va + 256 * vb + 16 * vc + vd).

(** The ways JSON spells a code point. *)
Inductive spells : list Z → Z → Prop :=
| spell_plain c : 0 ≤ c < 128 → c ≠ 92 → spells [c] c
| spell_simple e c : (e, c) ∈ [(34, 34); (92, 92); (47, 47); (98, 8); (102, 12); (110, 10); (114, 13); (116, 9)] → spells [92; e] c
| spell_u h cp : hex4_of h cp → ¬ surrogate cp → spells (92 :: 117 :: h) cp
| spell_pair h l hi lo :
    hex4_of h hi → hex4_of l lo → 55296 ≤ hi ≤ 56319 → 56320 ≤ lo ≤ 57343 →
    spells ((92 :: 117 :: h) ++ 92 :: 117 :: l) (65536 + 1024 * (hi - 55296) + (lo - 56320))
| spell_raw cp : 128 ≤ cp ≤ 1114111 → ¬ surrogate cp → spells (utf8 cp) cp.

(** ** Bits *)

Lemma lor_lead a k b : 0 ≤ k → 0 ≤ b < 2 ^ k → a mod 2 ^ k = 0 → Z.lor a b = a + b.
Proof.
  intros Hk Hb Ha. assert (H : a = a / 2 ^ k * 2 ^ k) by (pose proof (Z.div_mod a (2 ^ k)); lia). rewrite H. by apply lor_add.
Qed.

Lemma cont6_eq cp sh : 0 ≤ cp → 0 ≤ sh → cont6 cp sh = 128 + cp / 2 ^ sh mod 64.
Proof.
  intros H0 Hs. unfold cont6. change 63 with (Z.ones 6). rewrite Z.land_ones, Z.shiftr_div_pow2 by lia. change (2 ^ 6) with 64.
  pose proof (Z.mod_pos_bound (cp / 2 ^ sh) 64 ltac:(lia)). rewrite (lor_lead 128 7) by (done || (change (2 ^ 7) with 128; lia)). unfold u8. rewrite Z.mod_small by lia. done.
Qed.

(** The emitted bytes are the UTF-8 of the code point. *)
Lemma utf8_emit_eq cp : 0 ≤ cp ≤ 1114111 → kv_json__utf8_emit cp = utf8 cp.
Proof.
  intros H. unfold kv_json__utf8_emit, utf8. rewrite !cont6_eq, !Z.shiftr_div_pow2 by lia. change (2 ^ 0) with 1. change (2 ^ 6) with 64. change (2 ^ 12) with 4096. change (2 ^ 18) with 262144.
  rewrite Z.div_1_r. case_tests; zbool; unfold u8.
  - by rewrite Z.mod_small by lia.
  - assert (0 ≤ cp / 64 < 32) by (split; [apply Z.div_pos; lia|apply Z.div_lt_upper_bound; lia]).
    rewrite (lor_lead 192 5) by (done || (change (2 ^ 5) with 32; lia)). rewrite (Z.mod_small (192 + _)); [done|lia].
  - assert (0 ≤ cp / 4096 < 16) by (split; [apply Z.div_pos; lia|apply Z.div_lt_upper_bound; lia]).
    rewrite (lor_lead 224 4) by (done || (change (2 ^ 4) with 16; lia)). rewrite (Z.mod_small (224 + _)); [done|lia].
  - assert (0 ≤ cp / 262144 < 8) by (split; [apply Z.div_pos; lia|apply Z.div_lt_upper_bound; lia]).
    rewrite (lor_lead 240 3) by (done || (change (2 ^ 3) with 8; lia)). rewrite (Z.mod_small (240 + _)); [done|lia].
Qed.

(** ** Hex digits *)

Lemma hexdig_range c v : hexdig c = Some v → 0 ≤ v < 16.
Proof. unfold hexdig. case_tests; zbool; intros; simplify_eq; lia. Qed.

Lemma hex_shift v d : 0 ≤ v < 65536 → 0 ≤ d < 16 → Z.lor (u32 (Z.shiftl v 4)) d = 16 * v + d.
Proof.
  intros Hv Hd. rewrite Z.shiftl_mul_pow2 by lia. change (2 ^ 4) with 16. rewrite u32_small by lia. change 16 with (2 ^ 4) at 1.
  rewrite lor_add by (change (2 ^ 4) with 16; lia). change (2 ^ 4) with 16. lia.
Qed.

Lemma hex4_complete h v t : hex4_of h v → kv_json__hex4 (h ++ t) = Some v ∧ 0 ≤ v < 65536 ∧ length h = 4%nat.
Proof.
  intros [a b c d va vb vc vd Ha Hb Hc Hd]. apply hexdig_range in Ha as Ra, Hb as Rb, Hc as Rc, Hd as Rd. split_and!; [|lia|lia|done].
  unfold kv_json__hex4. cbn [app hex_from]. rewrite Ha, Hb, Hc, Hd. cbn [mbind option_bind]. rewrite (hex_shift 0 va), (hex_shift _ vb), (hex_shift _ vc), (hex_shift _ vd) by lia. f_equal. lia.
Qed.

Lemma hex4_sound s v : kv_json__hex4 s = Some v → ∃ h t, s = h ++ t ∧ hex4_of h v.
Proof.
  unfold kv_json__hex4. intros H. destruct s as [|a [|b [|c [|d t]]]]; cbn [hex_from] in H;
    repeat match type of H with (hexdig ?x ≫= _) = _ => destruct (hexdig x) as [?|] eqn:?; [cbn [mbind option_bind] in H|done] end; try done.
  exists [a; b; c; d], t. split; [done|]. assert (Hof := hex4_digits a b c d _ _ _ _ ltac:(eassumption) ltac:(eassumption) ltac:(eassumption) ltac:(eassumption)).
  destruct (hex4_complete _ _ t Hof) as [Hc _]. unfold kv_json__hex4 in Hc. cbn [app hex_from] in Hc. simplify_option_eq. congruence.
Qed.

(** ** One character *)

(** What a turn reads, and what it writes for it. *)
Inductive reads : list Z → list Z → Prop :=
| read_plain c : c < 128 → c ≠ 92 → reads [c] [c]
| read_simple e d : simple_escape e = Some d → reads [92; e] [d]
| read_u h cp : hex4_of h cp → ¬ surrogate cp → reads (92 :: 117 :: h) (utf8 cp)
| read_pair h l hi lo :
    hex4_of h hi → hex4_of l lo → 55296 ≤ hi ≤ 56319 → 56320 ≤ lo ≤ 57343 →
    reads ((92 :: 117 :: h) ++ 92 :: 117 :: l) (utf8 (65536 + 1024 * (hi - 55296) + (lo - 56320)))
| read_raw c t n : 128 ≤ c → raw_len c = Some n → zlen (c :: t) = n → forallb is_cont t = true → reads (c :: t) (c :: t).

Lemma utf8_zlen cp : 0 ≤ cp ≤ 1114111 → zlen (utf8 cp) = kv_json__utf8_len cp ∧ 1 ≤ kv_json__utf8_len cp ≤ 4.
Proof. intros H. unfold utf8, kv_json__utf8_len. case_tests; zbool; first [lia|split; [done|lia]]. Qed.

Lemma raw_len_range c n : raw_len c = Some n → 2 ≤ n ≤ 4.
Proof. unfold raw_len. case_tests; intros; simplify_eq; lia. Qed.

Lemma reads_len used bs : reads used bs → 1 ≤ zlen bs ≤ 4 ∧ zlen bs ≤ zlen used.
Proof.
  intros H. destruct H as [c _ _|e d _|h cp Hh Hs|h l hi lo Hh Hl Hhi Hlo|c t n Hc Hn Hz Ht].
  - unfold zlen. cbn [length]. lia.
  - unfold zlen. cbn [length]. lia.
  - destruct (hex4_complete h cp [] Hh) as (_ & Hr & Hlen). destruct (utf8_zlen cp ltac:(lia)) as [-> H]. rewrite !zlen_cons. unfold zlen. lia.
  - destruct (hex4_complete h hi [] Hh) as (_ & Hr & Hlen). destruct (hex4_complete l lo [] Hl) as (_ & Hr' & Hlen').
    destruct (utf8_zlen (65536 + 1024 * (hi - 55296) + (lo - 56320)) ltac:(lia)) as [-> H]. rewrite zlen_app, !zlen_cons. unfold zlen. lia.
  - rewrite Hz. apply raw_len_range in Hn. lia.
Qed.

Lemma pair_code hi lo :
  55296 ≤ hi ≤ 56319 → 56320 ≤ lo ≤ 57343 →
  u32 (65536 + Z.lor (Z.shiftl (hi - 55296) 10) (lo - 56320)) = 65536 + 1024 * (hi - 55296) + (lo - 56320).
Proof.
  intros Hh Hl. rewrite Z.shiftl_mul_pow2, lor_add by (try change (2 ^ 10) with 1024; lia). change (2 ^ 10) with 1024. rewrite u32_small; lia.
Qed.

Lemma zlen_six h t : length h = 4%nat → (zlen (92 :: 117 :: h ++ t) <? 6) = false ∧ drop 6 (92 :: 117 :: h ++ t) = t.
Proof.
  intros H. split; [apply Z.ltb_ge; rewrite !zlen_cons, zlen_app; pose proof (zlen_nonneg t); unfold zlen in *; lia|].
  cbn [drop]. by rewrite <- H, drop_app_length.
Qed.

Lemma drop_two {A} (a b : A) l : drop 2 (a :: b :: l) = l.
Proof. done. Qed.

Lemma reads_step used bs rest room : reads used bs → zlen bs ≤ room → unescape_step (used ++ rest) room = Some (bs, rest).
Proof.
  intros H Hroom. destruct H as [c Hc Hn|e d He|h cp Hh Hs|h l hi lo Hh Hl Hhi Hlo|c t n Hc Hn Hz Ht].
  - cbn. by rewrite (proj2 (Z.eqb_neq c 92) Hn), (proj2 (Z.ltb_lt c 128) Hc).
  - cbn. assert (E : (e =? 117) = false). { destruct (e =? 117) eqn:E; [|done]. zbool. by subst e. }
    by rewrite E, He.
  - destruct (hex4_complete h cp rest Hh) as (Hx & Hr & Hlen). destruct (utf8_zlen cp ltac:(lia)) as [Hz Hl]. cbn [app unescape_step].
    change (92 =? 92) with true. change (117 =? 117) with true. cbn match. unfold unescape_u. destruct (zlen_six h rest Hlen) as [-> ->].
    rewrite drop_two, Hx. cbn [mbind option_bind]. unfold surrogate in Hs.
    replace ((55296 <=? cp) && (cp <=? 56319)) with false by (symmetry; apply andb_false_iff; rewrite !Z.leb_gt; lia).
    replace ((56320 <=? cp) && (cp <=? 57343)) with false by (symmetry; apply andb_false_iff; rewrite !Z.leb_gt; lia).
    cbn [mbind option_bind]. rewrite (proj2 (Z.eqb_neq _ 0)) by lia. rewrite (proj2 (Z.ltb_ge room _)) by lia. by rewrite utf8_emit_eq by lia.
  - destruct (hex4_complete h hi ((92 :: 117 :: l) ++ rest) Hh) as (Hx & Hr & Hlen). destruct (hex4_complete l lo rest Hl) as (Hx' & Hr' & Hlen').
    set (cp := 65536 + 1024 * (hi - 55296) + (lo - 56320)) in *. destruct (utf8_zlen cp ltac:(lia)) as [Hz Hlz].
    rewrite <- app_assoc. cbn [app unescape_step]. change (92 =? 92) with true. change (117 =? 117) with true. cbn match. unfold unescape_u.
    destruct (zlen_six h (92 :: 117 :: l ++ rest) Hlen) as [-> ->]. cbn [app] in *. rewrite drop_two, Hx. cbn [mbind option_bind].
    rewrite (proj2 (andb_true_iff (55296 <=? hi) _)) by (rewrite !Z.leb_le; lia). unfold low_half.
    destruct (zlen_six l rest Hlen') as [-> ->]. change (zget (92 :: 117 :: l ++ rest) 0) with 92. change (zget (92 :: 117 :: l ++ rest) 1) with 117.
    cbn [Z.eqb Pos.eqb negb orb]. rewrite drop_two, Hx'. cbn [mbind option_bind].
    rewrite (proj2 (orb_false_iff (lo <? 56320) _)) by (rewrite !Z.ltb_ge; lia). rewrite pair_code by done. fold cp. cbn [mbind option_bind].
    rewrite (proj2 (Z.eqb_neq _ 0)) by lia. rewrite (proj2 (Z.ltb_ge room _)) by lia. by rewrite utf8_emit_eq by lia.
  - cbn [app unescape_step]. rewrite (proj2 (Z.eqb_neq c 92)) by lia. rewrite (proj2 (Z.ltb_ge c 128)) by lia. unfold raw_seq. rewrite Hn. cbn [mbind option_bind].
    change (c :: t ++ rest) with ((c :: t) ++ rest).
    assert (Hto : Z.to_nat n = length (c :: t)) by (rewrite <- Hz; unfold zlen; lia). rewrite Hto, take_app_length, drop_app_length.
    rewrite (proj2 (Z.ltb_ge _ n)) by (rewrite zlen_app; pose proof (zlen_nonneg rest); lia). rewrite (proj2 (Z.ltb_ge room n)) by lia. change (drop 1 (c :: t)) with t. by rewrite Ht.
Qed.

Lemma step_reads src room bs rest :
  1 ≤ room → unescape_step src room = Some (bs, rest) → ∃ used, src = used ++ rest ∧ reads used bs ∧ zlen bs ≤ room.
Proof.
  intros Hroom. destruct src as [|c src]; [done|]. cbn [unescape_step]. destruct (c =? 92) eqn:E; zbool.
  - subst c. destruct src as [|e src]; [done|]. destruct (e =? 117) eqn:E; zbool.
    + subst e. unfold unescape_u. destruct (zlen _ <? 6); [done|]. destruct (kv_json__hex4 _) as [hi|] eqn:Hx; [|done]. cbn [mbind option_bind].
      rewrite drop_two in Hx. apply hex4_sound in Hx as (h & t & Ht & Hh). subst src. destruct (hex4_complete h hi [] Hh) as (_ & Hr & Hlen). destruct (zlen_six h t Hlen) as [_ ->].
      destruct ((55296 <=? hi) && (hi <=? 56319)) eqn:Eh.
      * apply andb_true_iff in Eh as [E1 E2]. zbool. unfold low_half. destruct (zlen t <? 6); [done|].
        destruct t as [|b1 [|b2 t]]; [done|by destruct (_ || _)|]. change (zget (b1 :: b2 :: t) 0) with b1. change (zget (b1 :: b2 :: t) 1) with b2.
        destruct (negb (b1 =? 92) || negb (b2 =? 117)) eqn:Eb; [done|]. apply orb_false_iff in Eb as [B1 B2]. apply negb_false_iff in B1, B2. zbool. subst b1 b2.
        rewrite drop_two. destruct (kv_json__hex4 t) as [lo|] eqn:Hx; [|done]. cbn [mbind option_bind]. apply hex4_sound in Hx as (l & t' & -> & Hl).
        destruct (hex4_complete l lo [] Hl) as (_ & Hr' & Hlen'). destruct ((lo <? 56320) || (57343 <? lo)) eqn:El; [done|]. apply orb_false_iff in El as [L1 L2]. zbool.
        cbn [mbind option_bind]. rewrite pair_code by lia. rewrite (proj2 (zlen_six l t' Hlen')). set (cp := 65536 + _ + _). destruct (utf8_zlen cp ltac:(lia)) as [Hz Hlz].
        rewrite (proj2 (Z.eqb_neq _ 0)) by lia. destruct (room <? _) eqn:Er; [done|]. zbool. intros [= <- <-]. rewrite utf8_emit_eq by lia.
        exists ((92 :: 117 :: h) ++ 92 :: 117 :: l). split; [by rewrite <- app_assoc|]. split; [by apply read_pair|lia].
      * destruct ((56320 <=? hi) && (hi <=? 57343)) eqn:El; [done|]. cbn [mbind option_bind]. destruct (utf8_zlen hi ltac:(lia)) as [Hz Hlz].
        rewrite (proj2 (Z.eqb_neq _ 0)) by lia. destruct (room <? _) eqn:Er; [done|]. zbool. intros [= <- <-]. rewrite utf8_emit_eq by lia.
        exists (92 :: 117 :: h). split; [done|]. split; [|lia]. apply read_u; [done|]. apply andb_false_iff in Eh, El. rewrite !Z.leb_gt in Eh, El. unfold surrogate. lia.
    + destruct (simple_escape e) as [d|] eqn:He; [|done]. intros [= <- <-]. exists [92; e]. split; [done|]. split; [by apply read_simple|unfold zlen; cbn [length]; lia].
  - destruct (c <? 128) eqn:E2; zbool; [intros [= <- <-]; exists [c]; split; [done|]; split; [by apply read_plain|unfold zlen; cbn [length]; lia]|].
    unfold raw_seq. destruct (raw_len c) as [n|] eqn:Hn; [|done]. cbn [mbind option_bind]. destruct (zlen (c :: src) <? n) eqn:E3; [done|]. destruct (room <? n) eqn:E4; [done|].
    destruct (forallb _ _) eqn:Ef; [|done]. intros [= <- <-]. zbool. pose proof (raw_len_range c n Hn).
    assert (Hz : zlen (take (Z.to_nat n) (c :: src)) = n). { unfold zlen in *. rewrite length_take. lia. }
    destruct (Z.to_nat n) as [|k] eqn:Hk; [lia|]. change (take (S k) (c :: src)) with (c :: take k src) in *.
    change (drop 1 (c :: take k src)) with (take k src) in Ef. change (drop (S k) (c :: src)) with (drop k src). exists (c :: take k src). split; [cbn; by rewrite take_drop|].
    split; [by eapply read_raw|rewrite Hz; lia].
Qed.

(** ** The characters of a source *)

Lemma next_reads src bs rest : next_char src = Some (bs, rest) ↔ ∃ used, src = used ++ rest ∧ reads used bs.
Proof.
  unfold next_char. split.
  - intros (used & H1 & H2 & _)%step_reads; [by exists used|lia].
  - intros (used & -> & Hr). apply reads_step; [done|]. apply reads_len in Hr. lia.
Qed.

Lemma step_room src room :
  1 ≤ room →
  unescape_step src room = match next_char src with Some (bs, rest) => if room <? zlen bs then None else Some (bs, rest) | None => None end.
Proof.
  intros Hroom. destruct (next_char src) as [[bs rest]|] eqn:Hn.
  - apply next_reads in Hn as (used & -> & Hr). destruct (room <? zlen bs) eqn:E; zbool; [|apply reads_step; [done|lia]].
    destruct (unescape_step (used ++ rest) room) as [[bs' rest']|] eqn:Hs; [|done].
    apply step_reads in Hs as (used' & He & Hr' & Hl); [|done].
    assert (Hn : next_char (used ++ rest) = Some (bs', rest')) by (apply next_reads; by exists used').
    assert (Hn' : next_char (used ++ rest) = Some (bs, rest)) by (apply next_reads; by exists used). rewrite Hn in Hn'. injection Hn' as -> ->. lia.
  - destruct (unescape_step src room) as [[bs rest]|] eqn:Hs; [|done]. apply step_reads in Hs as (used & -> & Hr & _); [|done].
    assert (H : next_char (used ++ rest) = Some (bs, rest)) by (apply next_reads; by exists used). congruence.
Qed.

Lemma next_shorter src bs rest : next_char src = Some (bs, rest) → (length rest < length src)%nat.
Proof. intros (used & -> & Hr)%next_reads. apply reads_len in Hr. rewrite length_app. unfold zlen in Hr. lia. Qed.

Lemma chars_from_enough fuel src : (length src ≤ fuel)%nat → chars_from fuel src = chars src.
Proof.
  unfold chars. remember (length src) as n eqn:Hn. assert (Hle : (length src ≤ n)%nat) by lia. clear Hn. revert fuel src Hle.
  induction n as [|n IH]; intros fuel src Hle Hf; (destruct fuel as [|fuel]; [try lia; try done|]).
  - destruct src; [done|cbn in Hle; lia].
  - cbn. destruct (next_char src) as [[bs rest]|] eqn:Hn; [|done]. apply next_shorter in Hn. f_equal. apply IH; lia.
Qed.

Lemma chars_eq src : chars src = match next_char src with Some (bs, rest) => bs :: chars rest | None => [] end.
Proof.
  transitivity (chars_from (S (length src)) src); [symmetry; apply chars_from_enough; lia|]. cbn [chars_from].
  destruct (next_char src) as [[bs rest]|] eqn:Hn; [|done]. apply next_shorter in Hn. rewrite chars_from_enough by lia. done.
Qed.

(** What is read first does not depend on what follows. *)
Lemma chars_reads used bs rest : reads used bs → chars (used ++ rest) = bs :: chars rest.
Proof. intros H. rewrite chars_eq. assert (Hn : next_char (used ++ rest) = Some (bs, rest)) by (apply next_reads; by exists used). by rewrite Hn. Qed.

Lemma chars_prefix src tail : chars src `prefix_of` chars (src ++ tail).
Proof.
  induction src as [src IH] using (induction_ltof1 _ (@length Z)). unfold ltof in IH. rewrite (chars_eq src).
  destruct (next_char src) as [[bs rest]|] eqn:Hn; [|apply prefix_nil]. pose proof (next_shorter _ _ _ Hn) as Hlt. apply next_reads in Hn as (used & -> & Hr).
  rewrite <- app_assoc, (chars_reads used bs (rest ++ tail) Hr). apply prefix_cons. by apply IH.
Qed.

(** The copy takes characters while they fit. *)
Lemma unescape_greedy fuel src room :
  (length src ≤ fuel)%nat → 0 ≤ room →
  ∃ k, unescape_from fuel src room = concat (take k (chars src)) ∧ zlen (concat (take k (chars src))) ≤ room ∧
    (k = length (chars src) ∨ ∃ c, chars src !! k = Some c ∧ room < zlen (concat (take k (chars src))) + zlen c).
Proof.
  revert src room. induction fuel as [|fuel IH]; intros src room Hf H0.
  { destruct src; [|cbn in Hf; lia]. exists 0%nat. cbn. split_and!; [done|unfold zlen; cbn; lia|by left]. }
  cbn [unescape_from]. rewrite chars_eq. destruct (0 <? room) eqn:E; zbool.
  - rewrite step_room by lia. destruct (next_char src) as [[bs rest]|] eqn:Hn; [|exists 0%nat; cbn; split_and!; [done|unfold zlen; cbn; lia|by left]].
    destruct (room <? zlen bs) eqn:E2; zbool.
    + exists 0%nat. cbn. split_and!; [done|unfold zlen; cbn; lia|]. right. exists bs. split; [done|unfold zlen in *; cbn; lia].
    + pose proof (next_shorter _ _ _ Hn). destruct (IH rest (room - zlen bs)) as (k & H1 & H2 & H3); [lia..|]. exists (S k). cbn [take concat]. rewrite zlen_app.
      split_and!; [by rewrite H1|lia|]. destruct H3 as [->|(c & Hc & H3)]; [by left|]. right. exists c. split; [done|lia].
  - exists 0%nat. rewrite take_0. split_and!; [done|unfold zlen; cbn; lia|]. destruct (next_char src) as [[bs rest]|] eqn:Hn; [|by left]. right. exists bs. split; [done|].
    apply next_reads in Hn as (used & _ & Hr). apply reads_len in Hr. unfold zlen in *. cbn. lia.
Qed.

(** ** The shape of what is written *)

Lemma utf8_ok cp : 0 ≤ cp ≤ 1114111 → utf8_shape (utf8 cp).
Proof.
  intros H. unfold utf8. pose proof (Z.mod_pos_bound cp 64). pose proof (Z.mod_pos_bound (cp / 64) 64). pose proof (Z.mod_pos_bound (cp / 4096) 64).
  pose proof (Z.div_mod cp 64). pose proof (Z.div_mod cp 4096). pose proof (Z.div_mod cp 262144). pose proof (Z.mod_pos_bound cp 4096). pose proof (Z.mod_pos_bound cp 262144).
  case_tests; zbool; cbn [utf8_shape]; lia.
Qed.

Definition lead_ok (c : Z) : bool :=
  match raw_len c with
  | Some n => (128 <=? c) && (if n =? 2 then (192 <=? c) && (c <? 224) else if n =? 3 then (224 <=? c) && (c <? 240) else (n =? 4) && (240 <=? c) && (c <? 248))
  | None => true
  end && (if is_cont c then (128 <=? c) && (c <? 192) else true).
Lemma lead_all c : 0 ≤ c < 256 → lead_ok c = true.
Proof.
  intros H. assert (Hall : forallb lead_ok (zseq 256) = true) by (vm_compute; reflexivity).
  rewrite forallb_forall in Hall. apply Hall. by apply list_elem_of_In, zseq_in.
Qed.

Lemma reads_shape used bs : bytes_ok used → reads used bs → utf8_shape bs.
Proof.
  intros Hb H. destruct H as [c Hc Hn|e d He|h cp Hh Hs|h l hi lo Hh Hl Hhi Hlo|c t n Hc Hn Hz Ht].
  - apply list.Forall_cons in Hb as [Hb _]. cbn. lia.
  - cbn. revert He. unfold simple_escape. case_tests; intros; simplify_eq; lia.
  - destruct (hex4_complete h cp [] Hh) as (_ & Hr & _). apply utf8_ok. lia.
  - apply utf8_ok. lia.
  - assert (Hcont : ∀ x, 0 ≤ x < 256 → is_cont x = true → 128 ≤ x < 192).
    { intros x Hx Hi. pose proof (lead_all x Hx) as Hl. unfold lead_ok in Hl. rewrite Hi in Hl. apply andb_true_iff in Hl as [_ Hl]. apply andb_true_iff in Hl as [H1 H2]. zbool. lia. }
    apply list.Forall_cons in Hb as [Hbc Hbt]. pose proof (lead_all c Hbc) as Hl. unfold lead_ok in Hl. rewrite Hn in Hl. apply andb_true_iff in Hl as [Hl _].
    apply andb_true_iff in Hl as [_ Hl]. assert (Htl : ∀ x, x ∈ t → 128 ≤ x < 192).
    { intros x Hx. apply Hcont; [by apply (proj1 (list.Forall_forall _ _) Hbt)|]. rewrite forallb_forall in Ht. by apply Ht, list_elem_of_In. }
    apply raw_len_range in Hn. rewrite zlen_cons in Hz.
    destruct t as [|x [|y [|z [|? ?]]]]; rewrite ?zlen_cons in Hz; change (zlen (@nil Z)) with 0 in Hz; try (pose proof (zlen_nonneg l)); try lia; subst n; cbn in Hl;
      apply andb_true_iff in Hl as [L1 L2]; zbool; cbn; split_and?; try lia; apply Htl; rewrite ?elem_of_cons; tauto.
Qed.

Lemma chars_shape src : bytes_ok src → Forall utf8_shape (chars src).
Proof.
  induction src as [src IH] using (induction_ltof1 _ (@length Z)). unfold ltof in IH. intros Hb. rewrite chars_eq.
  destruct (next_char src) as [[bs rest]|] eqn:Hn; [|constructor]. pose proof (next_shorter _ _ _ Hn) as Hlt. apply next_reads in Hn as (used & -> & Hr).
  apply list.Forall_app in Hb as [Hb1 Hb2]. constructor; [exact (reads_shape used bs Hb1 Hr)|by apply IH].
Qed.

(** ** Spellings *)

Definition class_ok (c : Z) : bool :=
  (if (128 <=? c) && (c <? 192) then is_cont c else true) &&
  (if (192 <=? c) && (c <? 224) then bool_decide (raw_len c = Some 2) else true) &&
  (if (224 <=? c) && (c <? 240) then bool_decide (raw_len c = Some 3) else true) &&
  (if (240 <=? c) && (c <? 248) then bool_decide (raw_len c = Some 4) else true).
Lemma class_all c : 0 ≤ c < 256 → class_ok c = true.
Proof.
  intros H. assert (Hall : forallb class_ok (zseq 256) = true) by (vm_compute; reflexivity).
  rewrite forallb_forall in Hall. apply Hall. by apply list_elem_of_In, zseq_in.
Qed.
Lemma byte_class c :
  0 ≤ c < 256 →
  (128 ≤ c < 192 → is_cont c = true) ∧ (192 ≤ c < 224 → raw_len c = Some 2) ∧ (224 ≤ c < 240 → raw_len c = Some 3) ∧ (240 ≤ c < 248 → raw_len c = Some 4).
Proof.
  intros H. pose proof (class_all c H) as Hc. unfold class_ok in Hc. rewrite !andb_true_iff in Hc. destruct Hc as [[[C1 C2] C3] C4].
  split_and!; intros Hr.
  - by rewrite (proj2 (andb_true_iff (128 <=? c) (c <? 192))) in C1 by (rewrite Z.leb_le, Z.ltb_lt; lia).
  - rewrite (proj2 (andb_true_iff (192 <=? c) (c <? 224))) in C2 by (rewrite Z.leb_le, Z.ltb_lt; lia). by apply bool_decide_eq_true in C2.
  - rewrite (proj2 (andb_true_iff (224 <=? c) (c <? 240))) in C3 by (rewrite Z.leb_le, Z.ltb_lt; lia). by apply bool_decide_eq_true in C3.
  - rewrite (proj2 (andb_true_iff (240 <=? c) (c <? 248))) in C4 by (rewrite Z.leb_le, Z.ltb_lt; lia). by apply bool_decide_eq_true in C4.
Qed.

(** A character of the right shape that is not ASCII is read as it is. *)
Lemma shape_reads bs : utf8_shape bs → (2 ≤ length bs)%nat → reads bs bs.
Proof.
  intros H Hlen. destruct bs as [|c [|d [|e [|f [|? ?]]]]]; cbn in Hlen; try lia; cbn in H; try done.
  - apply (read_raw c [d] 2); [lia|apply byte_class; lia|done|]. cbn. rewrite (proj1 (byte_class d ltac:(lia))) by lia. done.
  - apply (read_raw c [d; e] 3); [lia|apply byte_class; lia|done|]. cbn. rewrite (proj1 (byte_class d ltac:(lia))), (proj1 (byte_class e ltac:(lia))) by lia. done.
  - apply (read_raw c [d; e; f] 4); [lia|apply byte_class; lia|done|]. cbn.
    rewrite (proj1 (byte_class d ltac:(lia))), (proj1 (byte_class e ltac:(lia))), (proj1 (byte_class f ltac:(lia))) by lia. done.
Qed.

Lemma spells_reads used cp : spells used cp → reads used (utf8 cp).
Proof.
  intros H. destruct H as [c Hc Hn|e c He|h cp Hh Hs|h l hi lo Hh Hl Hhi Hlo|cp Hcp Hs].
  - unfold utf8. rewrite (proj2 (Z.ltb_lt c 128)) by lia. apply read_plain; [lia|done].
  - repeat (apply elem_of_cons in He as [He|He]; [injection He as -> ->; by apply read_simple|]). by apply elem_of_nil in He.
  - by apply read_u.
  - by apply read_pair.
  - apply shape_reads; [apply utf8_ok; lia|]. unfold utf8. rewrite (proj2 (Z.ltb_ge cp 128)) by lia. case_tests; cbn; lia.
Qed.

Lemma chars_spells ss cps tail : Forall2 spells ss cps → chars (concat ss ++ tail) = (utf8 <$> cps) ++ chars tail.
Proof.
  induction 1 as [|s cp ss cps Hs _ IH]; [done|]. cbn [concat fmap list_fmap app]. rewrite <- app_assoc, (chars_reads s (utf8 cp)) by (by apply spells_reads). by rewrite IH.
Qed.

(** ** The copy *)

(** A copy of a JSON string, cut short by the end of the source (whatever
    the rest of the string is), by the buffer, or by an escape that cannot be
    decoded, holds whole characters: the buffer has the first ones of the whole
    decoded string, each with its first byte and all its continuation bytes,
    within the buffer and its NUL, and it stops short of the source's last one
    only when the next does not fit. *)
Theorem kv_json_unescape_prefix src tail dstcap :
  bytes_ok src → 1 ≤ dstcap →
  ∃ k, let whole := take k (chars (src ++ tail)) in
    kv_json_unescape_copy (Some src) dstcap = Some (concat whole) ∧ Forall utf8_shape whole ∧ zlen (concat whole) < dstcap ∧
    (k = length (chars src) ∨ ∃ c, chars src !! k = Some c ∧ dstcap ≤ zlen (concat whole) + zlen c).
Proof.
  intros Hb Hcap. unfold kv_json_unescape_copy. rewrite (proj2 (Z.eqb_neq dstcap 0)) by lia.
  destruct (unescape_greedy (length src) src (dstcap - 1) (le_n _) ltac:(lia)) as (k & H1 & H2 & H3).
  assert (Hk : (k ≤ length (chars src))%nat). { destruct H3 as [->|(c & Hc & _)]; [done|]. apply lookup_lt_Some in Hc. lia. }
  assert (Heq : take k (chars (src ++ tail)) = take k (chars src)).
  { destruct (chars_prefix src tail) as [r ->]. rewrite take_app_le by done. done. }
  exists k. cbn zeta. rewrite Heq. split_and!; [by rewrite H1|by apply Forall_take, chars_shape|lia|].
  destruct H3 as [->|(c & Hc & H3)]; [by left|]. right. exists c. split; [done|lia].
Qed.

Lemma kv_json_unescape_prefix_witness :
  kv_json_unescape_copy (Some [104; 92; 110; 226; 130]) 9 = Some [104; 10] ∧
  ∃ k, kv_json_unescape_copy (Some [104; 92; 110; 226; 130]) 9 = Some (concat (take k (chars ([104; 92; 110; 226; 130] ++ [172])))).
Proof.
  split; [reflexivity|].
  destruct (kv_json_unescape_prefix [104; 92; 110; 226; 130] [172] 9) as (k & H & _); [repeat constructor; lia|lia|]. by exists k.
Defined.

(** C38. Whatever way JSON spells a text, plain, by the short escapes, by \u
    escapes of either case, by surrogate pairs or in raw UTF-8, the copy is the UTF-8
    of its first code points, as many whole ones as the buffer has room for beside
    the terminator: of the whole text when it fits, and otherwise cut before the
    first character that does not fit; and what follows the text without being a
    character (a cut escape, a lone surrogate) adds nothing. *)
Theorem kv_json_unescape_roundtrip ss cps tail dstcap :
  Forall2 spells ss cps → next_char tail = None → 0 < dstcap →
  ∃ k, let out := concat (utf8 <$> take k cps) in
    kv_json_unescape_copy (Some (concat ss ++ tail)) dstcap = Some out ∧ zlen out < dstcap ∧
    (take k cps = cps ∨ ∃ c, cps !! k = Some c ∧ dstcap ≤ zlen out + zlen (utf8 c)) ∧
    (zlen (concat (utf8 <$> cps)) < dstcap → take k cps = cps).
Proof.
  intros Hs Ht Hroom. unfold kv_json_unescape_copy. rewrite (proj2 (Z.eqb_neq dstcap 0)) by lia.
  assert (Hch : chars (concat ss ++ tail) = utf8 <$> cps) by (rewrite (chars_spells ss cps tail Hs), (chars_eq tail), Ht; apply app_nil_r).
  destruct (unescape_greedy _ (concat ss ++ tail) (dstcap - 1) (le_n _) ltac:(lia)) as (k & H1 & H2 & H3). rewrite Hch, ?length_fmap, <- ?fmap_take in *.
  exists k. cbn zeta. rewrite H1. split_and!; [done|lia| |].
  - destruct H3 as [->|(c & Hc & H3)]; [left; apply firstn_all|right]. apply list_lookup_fmap_Some in Hc as (x & -> & Hx). exists x. split; [done|lia].
  - intros Hfit. destruct H3 as [->|(c & Hc & H3)]; [apply firstn_all|exfalso]. apply list_lookup_fmap_Some in Hc as (x & -> & Hx).
    rewrite <- (take_drop_middle _ _ _ Hx) in Hfit at 1. rewrite fmap_app, concat_app, zlen_app in Hfit. cbn in Hfit. rewrite zlen_app in Hfit.
    pose proof (zlen_nonneg (concat (utf8 <$> drop (S k) cps))). lia.
Qed.

(** "h", a line feed, a musical clef by its pair, and half an escape, whole in seven
    bytes and cut before the clef in six. *)
Lemma kv_json_unescape_roundtrip_witness :
  let src := concat [[104]; [92; 110]; [92; 117; 100; 56; 51; 52; 92; 117; 68; 68; 49; 69]] ++ [92; 117; 48] in
  kv_json_unescape_copy (Some src) 7 = Some [104; 10; 240; 157; 132; 158] ∧ kv_json_unescape_copy (Some src) 6 = Some [104; 10].
Proof.
  split; [|reflexivity].
  destruct (kv_json_unescape_roundtrip [[104]; [92; 110]; [92; 117; 100; 56; 51; 52; 92; 117; 68; 68; 49; 69]] [104; 10; 119070] [92; 117; 48] 7) as (k & H & _ & _ & Hall); [|reflexivity|lia|].
  - constructor; [by apply spell_plain; [lia|]|]. constructor; [apply spell_simple; do 5 right; left|]. constructor; [|constructor].
    apply (spell_pair [100; 56; 51; 52] [68; 68; 49; 69] 55348 56606); [by apply (hex4_digits 100 56 51 52 13 8 3 4)|by apply (hex4_digits 68 68 49 69 13 13 1 14)|lia|lia].
  - cbn zeta in H. rewrite (Hall ltac:(reflexivity)) in H. exact H.
Defined.
