(* ===== verification/Pool.v ===== *)
(** * A listener's pools and their index (src/common/sockproxy_pool.c)

    The pools of a listener as its table has them (in insertion order), the
    immutable index the notify workers read instead (an open-addressing table
    under FNV-1a), its publication, and the pools that wait because an index
    without them could not be built. The theorems: a lookup in a published index
    ends and answers exactly the table's pool of that key; through every sequence
    of links, unlinks and publications, whichever allocations fail, the readers'
    index holds the pools of the table and the waiting ones, and a pool's table
    reference is given up only when no index holds it. *)

From stdpp Require Import base list gmap numbers.
From S2P Require Import Prelude.

#[local] Set Warnings "-register-all".

(** ** The index *)

(** A pool, by its address, and its ephash_key. *)
Record epval := mk_epval { ep_addr : Z; ephash_key : list Z }.
#[export] Instance epval_inhabited : Inhabited epval := populate (mk_epval 0 []).
#[export] Instance epval_eq_dec : EqDecision epval.
Proof. solve_decision. Defined.

Definition index_hash (s : list Z) : Z := foldl (fun h c => u32 (Z.lxor h (u8 c) * 16777619)) 2166136261 s.

(** A key slot: the hash and the pool, or empty. *)
Definition slot : Type := option (Z * epval).
Record sp_pool_index := mk_sp_pool_index {
  ix_n : Z; ix_mask : Z; ix_first : option epval; ix_order : list epval; ix_slot : list slot
}.

Definition occupied (sl : list slot) (i : Z) : bool := match zget sl i with Some _ => true | None => false end.

(** The doubling loop; 2 * n is a 32-bit product. *)
Fixpoint cap_from (fuel : nat) (cap n : Z) : Z :=
  match fuel with
  | O => cap
  | S fuel => if cap <? u32 (2 * n) then cap_from fuel (u32 (Z.shiftl cap 1)) n else cap
  end.
Definition index_cap (n : Z) : Z := cap_from 30 4 n.

(** The probe for an empty slot; None when there is none in [fuel] slots. *)
Fixpoint probe (fuel : nat) (sl : list slot) (mask i : Z) : option Z :=
  match fuel with
  | O => None
  | S fuel => if occupied sl i then probe fuel sl mask (Z.land (u32 (i + 1)) mask) else Some i
  end.

Definition index_put (mask : Z) (sl : list slot) (p : epval) : option (list slot) :=
  let h := index_hash (ephash_key p) in
  i ← probe (length sl) sl mask (Z.land h mask);
  Some (zset sl i (Some (h, p))).

Fixpoint index_fill (mask : Z) (sl : list slot) (ps : list epval) : option (list slot) :=
  match ps with
  | [] => Some sl
  | p :: ps => sl ← index_put mask sl p; index_fill mask sl ps
  end.

(** The index of a table; none of an empty one. The outer None is a probe that
    does not end. *)
Definition index_build (ps : list epval) : option (option sp_pool_index) :=
  match ps with
  | [] => Some None
  | _ =>
      let cap := index_cap (zlen ps) in
      sl ← index_fill (cap - 1) (zrep cap None) ps;
      Some (Some (mk_sp_pool_index (zlen ps) (cap - 1) (head ps) ps sl))
  end.

(** The lookup loop; the outer None is a loop that has not ended after [fuel]
    slots. *)
Fixpoint find_from (fuel : nat) (ix : sp_pool_index) (h : Z) (key : list Z) (i : Z) : option (option epval) :=
  match fuel with
  | O => None
  | S fuel =>
      match zget (ix_slot ix) i with
      | None => Some None
      | Some (h', p) =>
          if (h' =? h) && bool_decide (ephash_key p = key) then Some (Some p)
          else find_from fuel ix h key (Z.land (u32 (i + 1)) (ix_mask ix))
      end
  end.
Definition sp_pool_index_find (ix : option sp_pool_index) (key : list Z) : option (option epval) :=
  match ix with
  | None => Some None
  | Some ix => let h := index_hash key in find_from (length (ix_slot ix)) ix h key (Z.land h (ix_mask ix))
  end.

(** ** The listener *)

Record listener := mk_listener {
  l_ephash : list epval;                 (* ent->val.ephash, in its hh.next order *)
  l_pools : option sp_pool_index;        (* ent->val.pools *)
  l_waiting : list epval                 (* ent->val.pools_waiting, newest first *)
}.
#[export] Instance listener_eta : RecordEta listener := fun r => mk_listener (l_ephash r) (l_pools r) (l_waiting r).

(** What an operation hands on: the pools whose table reference is given up
    (sp_pool_unlinked), in order. *)
Definition released : Type := list epval.

(** [mem] is whether the index could be allocated; the answer is 0 or -1. *)
Definition sp_pool_index_publish (mem : bool) (l : listener) : option (listener * released * Z) :=
  match l_ephash l with
  | _ :: _ => if mem then ix ← index_build (l_ephash l); Some (mk_listener (l_ephash l) ix [], l_waiting l, 0) else Some (l, [], -1)
  | [] => Some (mk_listener [] None [], l_waiting l, 0)
  end.

Definition hash_del (p : epval) (t : list epval) : list epval := filter (fun x => ep_addr x ≠ ep_addr p) t.

Definition sp_pool_link (mem : bool) (p : epval) (l : listener) : option (listener * released * Z) :=
  '(l, rel, rc) ← sp_pool_index_publish mem (l <| l_ephash ::= (fun t => t ++ [p]) |>);
  if rc =? 0 then Some (l, rel, 0) else Some (l <| l_ephash ::= hash_del p |>, rel, -1).

Definition sp_pool_unlink (mem : bool) (p : epval) (l : listener) : option (listener * released * Z) :=
  '(l, rel, rc) ← sp_pool_index_publish mem (l <| l_ephash ::= hash_del p |>);
  if rc =? 0 then Some (l, rel ++ [p], 0) else Some (l <| l_waiting ::= cons p |>, rel, -1).

Definition sp_pool_first (l : listener) : option epval := l_pools l ≫= ix_first.
Definition sp_pool_find (l : listener) (key : list Z) : option (option epval) := sp_pool_index_find (l_pools l) key.

(** ** Slots *)

(** A table of 2^k slots, within 32 bits. *)
Definition cap_ok (cap : Z) : Prop := ∃ k, 2 ≤ k ≤ 31 ∧ cap = 2 ^ k.
(** The [j]-th slot of a hash's probe. *)
Definition path (cap h : Z) (j : nat) : Z := (h + Z.of_nat j) mod cap.

Lemma cap_pos cap : cap_ok cap → 4 ≤ cap ≤ 2147483648.
Proof.
  intros (k & Hk & ->). change 4 with (2 ^ 2). change 2147483648 with (2 ^ 31). split; apply Z.pow_le_mono_r; lia.
Qed.

Lemma mask_mod cap x : cap_ok cap → Z.land x (cap - 1) = x mod cap.
Proof. intros (k & Hk & ->). replace (2 ^ k - 1) with (Z.ones k) by (rewrite Z.ones_equiv; lia). apply Z.land_ones. lia. Qed.

Lemma path_range cap h j : cap_ok cap → 0 ≤ path cap h j < cap.
Proof. intros H. apply cap_pos in H. apply Z.mod_pos_bound. lia. Qed.

Lemma path_0 cap h : cap_ok cap → Z.land h (cap - 1) = path cap h 0.
Proof. intros H. rewrite mask_mod by done. unfold path. by rewrite Z.add_0_r. Qed.

Lemma path_next cap h j : cap_ok cap → Z.land (u32 (path cap h j + 1)) (cap - 1) = path cap h (S j).
Proof.
  intros H. pose proof (path_range cap h j H). pose proof (cap_pos cap H). rewrite u32_small, mask_mod by (done || lia). unfold path.
  rewrite Zplus_mod_idemp_l. f_equal. lia.
Qed.

(** Every slot is on every probe. *)
Lemma path_onto cap h i : cap_ok cap → 0 ≤ i < cap → ∃ j, (j < Z.to_nat cap)%nat ∧ path cap h j = i.
Proof.
  intros H Hi. pose proof (cap_pos cap H). exists (Z.to_nat ((i - h) mod cap)). pose proof (Z.mod_pos_bound (i - h) cap).
  split; [lia|]. unfold path. rewrite Z2Nat.id by lia. rewrite Zplus_mod_idemp_r. replace (h + (i - h)) with i by lia. by apply Z.mod_small.
Qed.

Lemma cap_from_spec fuel k n :
  2 ≤ k ≤ 31 → 1 ≤ n ≤ 1073741824 → 2 * n ≤ 2 ^ (k + Z.of_nat fuel - 1) →
  ∃ k', k ≤ k' ≤ 31 ∧ cap_from fuel (2 ^ k) n = 2 ^ k' ∧ 2 * n ≤ 2 ^ k'.
Proof.
  revert k. induction fuel as [|fuel IH]; intros k Hk Hn Hf.
  - exists k. replace (k + Z.of_nat 0 - 1) with (k - 1) in Hf by lia. split_and!; [lia|lia|done|].
    transitivity (2 ^ (k - 1)); [done|]. apply Z.pow_le_mono_r; lia.
  - cbn [cap_from]. rewrite u32_small by lia. destruct (2 ^ k <? 2 * n) eqn:E; zbool; [|exists k; split_and!; [lia|lia|done|lia]].
    assert (Hk31 : k < 31). { destruct (Z.lt_ge_cases k 31); [done|]. assert (2 ^ 31 ≤ 2 ^ k) by (apply Z.pow_le_mono_r; lia). change (2 ^ 31) with 2147483648 in *. lia. }
    rewrite Z.shiftl_mul_pow2 by lia. change (2 ^ 1) with 2. replace (2 ^ k * 2) with (2 ^ (k + 1)) by (rewrite Z.pow_add_r by lia; lia).
    rewrite u32_small. 2: { split; [apply Z.pow_nonneg; lia|]. change 4294967296 with (2 ^ 32). apply Z.pow_lt_mono_r; lia. }
    destruct (IH (k + 1)) as (k' & H1 & H2 & H3); [lia|done| |exists k'; split_and!; [lia|lia|done|done]].
    replace (k + 1 + Z.of_nat fuel - 1) with (k + Z.of_nat (S fuel) - 1) by lia. done.
Qed.

Lemma index_cap_ok n : 1 ≤ n ≤ 1073741824 → cap_ok (index_cap n) ∧ 2 * n ≤ index_cap n.
Proof.
  intros Hn. unfold index_cap. change 4 with (2 ^ 2). destruct (cap_from_spec 30 2 n) as (k & Hk & -> & H); [lia|done|change (2 ^ (2 + Z.of_nat 30 - 1)) with 2147483648; lia|].
  split; [|done]. exists k. split; [lia|done].
Qed.

(** ** The slots of a set of pools *)

Definition empty_slot (s : slot) : bool := match s with Some _ => false | None => true end.
Definition reachable_slot (cap : Z) (sl : list slot) (h : Z) (j : nat) : Prop := ∀ j', (j' < j)%nat → occupied sl (path cap h j') = true.

Record slots_ok (cap : Z) (sl : list slot) (ps : list epval) : Prop := {
  so_len : zlen sl = cap;
  so_sound : ∀ i h p, 0 ≤ i < cap → zget sl i = Some (h, p) →
    p ∈ ps ∧ h = index_hash (ephash_key p) ∧ ∃ j, (j < Z.to_nat cap)%nat ∧ i = path cap h j ∧ reachable_slot cap sl h j;
  so_complete : ∀ p, p ∈ ps → ∃ i, 0 ≤ i < cap ∧ zget sl i = Some (index_hash (ephash_key p), p);
  so_empty : zcount empty_slot sl = cap - zlen ps
}.

Lemma slots_ok_nil cap : cap_ok cap → slots_ok cap (zrep cap None) [].
Proof.
  intros Hc. pose proof (cap_pos cap Hc). split.
  - by apply zlen_zrep; lia.
  - intros i h p Hi. by rewrite zget_zrep by lia.
  - intros p Hp. by apply elem_of_nil in Hp.
  - unfold zrep. assert (H0 : ∀ n, zcount empty_slot (replicate n None) = Z.of_nat n) by (induction n; cbn [replicate zcount empty_slot]; [done|rewrite IHn; cbn; lia]).
    rewrite H0. unfold zlen. cbn. lia.
Qed.

(** Where an empty slot is left, every probe finds the first one on its way. *)
Lemma free_slot cap sl h : cap_ok cap → zlen sl = cap → 1 ≤ zcount empty_slot sl → ∃ j, (j < Z.to_nat cap)%nat ∧ occupied sl (path cap h j) = false.
Proof.
  intros Hc Hl Hz. apply zcount_exists in Hz as (s & Hs & He). destruct s; [done|]. apply list_elem_of_lookup in Hs as [i Hi].
  pose proof (lookup_lt_Some _ _ _ Hi) as Hlt. unfold zlen in Hl. destruct (path_onto cap h (Z.of_nat i) Hc) as (j & Hj & Hp); [lia|]. exists j. split; [done|].
  rewrite Hp. unfold occupied, zget. rewrite Nat2Z.id. by rewrite (list_lookup_total_correct _ _ _ Hi).
Qed.

Lemma probe_spec cap sl h fuel j0 j :
  cap_ok cap → reachable_slot cap sl h j → (j ≤ j0 < j + fuel)%nat → occupied sl (path cap h j0) = false →
  ∃ m, (j ≤ m ≤ j0)%nat ∧ probe fuel sl (cap - 1) (path cap h j) = Some (path cap h m) ∧ reachable_slot cap sl h m ∧ occupied sl (path cap h m) = false.
Proof.
  intros Hc. revert j. induction fuel as [|fuel IH]; intros j Hr Hj Ho; [lia|]. cbn [probe]. destruct (occupied sl (path cap h j)) eqn:E.
  - rewrite path_next by done. destruct (decide (j = j0)) as [->|Hne]; [congruence|]. destruct (IH (S j)) as (m & H1 & H2); [|lia|done|exists m; split; [lia|done]].
    intros j' Hj'. destruct (decide (j' = j)) as [->|]; [done|]. apply Hr. lia.
  - exists j. split_and!; [lia|lia|done|done|done].
Qed.

Lemma index_put_ok cap sl ps p :
  cap_ok cap → slots_ok cap sl ps → zlen ps < cap → ∃ sl', index_put (cap - 1) sl p = Some sl' ∧ slots_ok cap sl' (ps ++ [p]).
Proof.
  intros Hc Hok Hlt. pose proof (cap_pos cap Hc). unfold index_put. set (h := index_hash (ephash_key p)). rewrite path_0 by done.
  destruct (free_slot cap sl h Hc (so_len _ _ _ Hok)) as (j0 & Hj0 & Ho); [rewrite (so_empty _ _ _ Hok); lia|].
  destruct (probe_spec cap sl h (length sl) j0 0 Hc) as (m & Hm & Hp & Hr & Hem); [intros j' ?; lia|pose proof (so_len _ _ _ Hok); unfold zlen in *; lia|done|].
  rewrite Hp. cbn [mbind option_bind]. set (i := path cap h m) in *. assert (Hi : 0 ≤ i < cap) by (by apply path_range).
  assert (Hzi : zget sl i = None). { unfold occupied in Hem. by destruct (zget sl i). }
  pose proof (so_len _ _ _ Hok) as Hlen.
  assert (Hget : ∀ x, 0 ≤ x < cap → zget (zset sl i (Some (h, p))) x = if decide (x = i) then Some (h, p) else zget sl x).
  { intros x Hx. case_decide as Hd; [subst x; apply zget_zset_eq; lia|apply zget_zset_ne; lia]. }
  assert (Hocc : ∀ x, 0 ≤ x < cap → occupied sl x = true → occupied (zset sl i (Some (h, p))) x = true).
  { intros x Hx. unfold occupied. rewrite Hget by done. by case_decide. }
  eexists. split; [reflexivity|]. split.
  - by rewrite zlen_zset.
  - intros x hx q Hx. rewrite Hget by done. case_decide as Hd.
    + intros [= <- <-]. subst x. split_and!; [apply elem_of_app; right; left|done|]. exists m. split_and!; [lia|done|].
      intros j' Hj'. apply Hocc; [by apply path_range|by apply Hr].
    + intros Hq. destruct (so_sound _ _ _ Hok x hx q Hx Hq) as (H1 & H2 & j & H3 & H4 & H5). split_and!; [apply elem_of_app; by left|done|].
      exists j. split_and!; [done|done|]. intros j' Hj'. apply Hocc; [by apply path_range|by apply H5].
  - intros q [Hq|Hq]%elem_of_app.
    + destruct (so_complete _ _ _ Hok q Hq) as (x & Hx & Hz). exists x. split; [done|]. rewrite Hget by done. case_decide as Hd; [subst x; congruence|done].
    + apply list_elem_of_singleton in Hq as ->. exists i. split; [done|]. rewrite Hget by done. by rewrite decide_True.
  - assert (Hlk : sl !! Z.to_nat i = Some (None : slot)).
    { destruct (lookup_lt_is_Some_2 sl (Z.to_nat i)) as [x Hx]; [unfold zlen in Hlen; lia|]. rewrite Hx. f_equal.
      unfold zget in Hzi. by rewrite (list_lookup_total_correct _ _ _ Hx) in Hzi. }
    unfold zset. rewrite (zcount_insert empty_slot sl (Z.to_nat i) _ _ Hlk), (so_empty _ _ _ Hok), zlen_app. cbn. unfold zlen. cbn. lia.
Qed.

Lemma index_fill_ok cap sl ps qs :
  cap_ok cap → slots_ok cap sl ps → zlen ps + zlen qs ≤ cap → ∃ sl', index_fill (cap - 1) sl qs = Some sl' ∧ slots_ok cap sl' (ps ++ qs).
Proof.
  intros Hc. revert sl ps. induction qs as [|q qs IH]; intros sl ps Hok Hl; cbn [index_fill]; [exists sl; by rewrite app_nil_r|].
  rewrite zlen_cons in Hl. pose proof (zlen_nonneg qs). destruct (index_put_ok cap sl ps q Hc Hok) as (sl1 & -> & Hok1); [lia|]. cbn [mbind option_bind].
  destruct (IH sl1 (ps ++ [q]) Hok1) as (sl2 & H1 & H2); [rewrite zlen_app; unfold zlen in *; cbn; lia|]. exists sl2. by rewrite <- app_assoc in H2.
Qed.

(** What a built index holds. *)
Definition index_of (ps : list epval) (ix : option sp_pool_index) : Prop :=
  match ix with
  | None => ps = []
  | Some ix => ps ≠ [] ∧ ix_order ix = ps ∧ ix_n ix = zlen ps ∧ ix_first ix = head ps ∧
      ∃ cap, cap_ok cap ∧ zlen ps < cap ∧ ix_mask ix = cap - 1 ∧ slots_ok cap (ix_slot ix) ps
  end.

Lemma index_build_ok ps : zlen ps ≤ 1073741824 → ∃ ix, index_build ps = Some ix ∧ index_of ps ix.
Proof.
  intros Hl. destruct ps as [|p ps]; [by exists None|]. unfold index_build. set (l := p :: ps) in *.
  assert (H1 : 1 ≤ zlen l) by (unfold l; rewrite zlen_cons; pose proof (zlen_nonneg ps); lia). destruct (index_cap_ok (zlen l)) as [Hc Hcap]; [lia|].
  destruct (index_fill_ok (index_cap (zlen l)) _ [] l Hc (slots_ok_nil _ Hc)) as (sl & -> & Hok); [change (zlen (@nil epval)) with 0; lia|]. cbn [mbind option_bind].
  eexists. split; [reflexivity|]. split_and!; [done..|]. exists (index_cap (zlen l)). split_and!; [done|lia|done|done].
Qed.

(** ** Lookup *)

Lemma nodup_by {A B} (f : A → B) l x y : NoDup (f <$> l) → x ∈ l → y ∈ l → f x = f y → x = y.
Proof.
  induction l as [|z l IH]; cbn; [intros _ H; by apply elem_of_nil in H|]. intros [Hz Hn]%list.NoDup_cons [->|Hx]%elem_of_cons [->|Hy]%elem_of_cons He; [done| | |by apply IH].
  - exfalso. apply Hz. rewrite He. by apply list_elem_of_fmap_2.
  - exfalso. apply Hz. rewrite <- He. by apply list_elem_of_fmap_2.
Qed.

Lemma find_from_spec ps ix cap key fuel j j0 :
  cap_ok cap → ix_mask ix = cap - 1 → slots_ok cap (ix_slot ix) ps → NoDup (ephash_key <$> ps) →
  reachable_slot cap (ix_slot ix) (index_hash key) j → (∀ p, p ∈ ps → ephash_key p = key → ∀ i, (i < j)%nat → zget (ix_slot ix) (path cap (index_hash key) i) ≠ Some (index_hash key, p)) →
  (j ≤ j0 < j + fuel)%nat → occupied (ix_slot ix) (path cap (index_hash key) j0) = false →
  ∃ r, find_from fuel ix (index_hash key) key (path cap (index_hash key) j) = Some r ∧ ∀ p, r = Some p ↔ p ∈ ps ∧ ephash_key p = key.
Proof.
  intros Hc Hm Hok Hnd. set (h := index_hash key). revert j. induction fuel as [|fuel IH]; intros j Hr Hno Hj Ho; [lia|]. cbn [find_from].
  destruct (zget (ix_slot ix) (path cap h j)) as [[h' p]|] eqn:Hz.
  - destruct (so_sound _ _ _ Hok _ h' p (path_range cap h j Hc) Hz) as (Hin & Hh & _).
    destruct ((h' =? h) && bool_decide (ephash_key p = key)) eqn:E.
    + exists (Some p). split; [done|]. apply andb_true_iff in E as [_ E]. apply bool_decide_eq_true in E. intros q. split; [by intros [= <-]|].
      intros [Hq Hk]. f_equal. apply (nodup_by ephash_key ps p q Hnd Hin Hq). congruence.
    + rewrite Hm, path_next by done. apply (IH (S j)).
      * intros j' Hj'. destruct (decide (j' = j)) as [->|]; [unfold occupied; by rewrite Hz|apply Hr; lia].
      * intros q Hq Hk i Hi. destruct (decide (i = j)) as [->|]; [|apply (Hno q Hq Hk); lia]. rewrite Hz. intros [= -> ->].
        rewrite Hk in E. rewrite Z.eqb_refl, bool_decide_eq_true_2 in E by done. done.
      * destruct (decide (j = j0)) as [->|]; [|lia]. unfold occupied in Ho. by rewrite Hz in Ho.
      * done.
  - exists None. split; [done|]. intros p. split; [done|]. intros [Hp Hk]. exfalso.
    destruct (so_complete _ _ _ Hok p Hp) as (i & Hi & Hzi). destruct (so_sound _ _ _ Hok i _ p Hi Hzi) as (_ & _ & m & Hm' & -> & Hreach).
    rewrite Hk in Hreach, Hzi. fold h in Hreach, Hzi. destruct (Nat.lt_trichotomy m j) as [Hlt|[->|Hgt]].
    + by apply (Hno p Hp Hk m).
    + congruence.
    + specialize (Hreach j Hgt). unfold occupied in Hreach. by rewrite Hz in Hreach.
Qed.

Lemma index_find_ok ps ix key :
  index_of ps ix → NoDup (ephash_key <$> ps) →
  ∃ r, sp_pool_index_find ix key = Some r ∧ ∀ p, r = Some p ↔ p ∈ ps ∧ ephash_key p = key.
Proof.
  destruct ix as [ix|]; cbn [index_of sp_pool_index_find]; [|intros -> _; exists None; split; [done|]; intros p; split; [done|]; intros [H _]; by apply elem_of_nil in H].
  intros (_ & _ & _ & _ & cap & Hc & Hlt & Hm & Hok) Hnd. rewrite Hm, path_0 by done. pose proof (so_len _ _ _ Hok) as Hlen.
  destruct (free_slot cap (ix_slot ix) (index_hash key) Hc Hlen) as (j0 & Hj0 & Ho); [rewrite (so_empty _ _ _ Hok); lia|].
  apply (find_from_spec ps ix cap key _ 0 j0); [done..|intros j' ?; lia|intros p _ _ i ?; lia|unfold zlen in Hlen; lia|done].
Qed.

(** ** The listener *)

(** The pools a reader can find. *)
Definition visible (l : listener) : list epval := l_ephash l ++ l_waiting l.

Record listener_ok (l : listener) : Prop := {
  lo_index : ∃ base, index_of base (l_pools l) ∧ base ≡ₚ visible l;
  lo_addr : NoDup (ep_addr <$> visible l);
  lo_key : NoDup (ephash_key <$> visible l);
  lo_size : zlen (visible l) ≤ 1073741824
}.

(** A listener over time, and the pools whose table reference it has given up.
    A pool is linked when it is new and its key is not in the table; the
    allocator answers as it likes. *)
Inductive listener_step : listener * released → listener * released → Prop :=
| ls_link mem p l gone l' rel rc :
    ep_addr p ∉ ep_addr <$> visible l ++ gone → ephash_key p ∉ ephash_key <$> l_ephash l → zlen (l_ephash l) < 1073741824 →
    sp_pool_link mem p l = Some (l', rel, rc) → listener_step (l, gone) (l', gone ++ rel)
| ls_unlink mem p l gone l' rel rc :
    p ∈ l_ephash l → sp_pool_unlink mem p l = Some (l', rel, rc) → listener_step (l, gone) (l', gone ++ rel)
| ls_publish mem l gone l' rel rc :
    sp_pool_index_publish mem l = Some (l', rel, rc) → listener_step (l, gone) (l', gone ++ rel).

Definition listener0 : listener := mk_listener [] None [].

Lemma publish_cases mem l :
  NoDup (ep_addr <$> l_ephash l) → NoDup (ephash_key <$> l_ephash l) → zlen (l_ephash l) ≤ 1073741824 →
  (∃ l', sp_pool_index_publish mem l = Some (l', l_waiting l, 0) ∧ l_ephash l' = l_ephash l ∧ l_waiting l' = [] ∧ listener_ok l') ∨
  (sp_pool_index_publish mem l = Some (l, [], -1) ∧ mem = false).
Proof.
  intros Ha Hk Hz. unfold sp_pool_index_publish. destruct (l_ephash l) as [|p ps] eqn:Et.
  { left. eexists. split; [reflexivity|]. split_and!; [done..|]. split; cbn; [exists []; by split|constructor|constructor|unfold zlen; cbn; lia]. }
  destruct mem; [left|by right]. destruct (index_build_ok (p :: ps) Hz) as (ix & -> & Hix). cbn [mbind option_bind]. eexists. split; [reflexivity|].
  split_and!; [done..|]. split; unfold visible; cbn [l_ephash l_waiting l_pools]; rewrite ?app_nil_r; [by exists (p :: ps)|done..].
Qed.

Lemma hash_del_perm p t : NoDup (ep_addr <$> t) → p ∈ t → t ≡ₚ p :: hash_del p t.
Proof.
  unfold hash_del. induction t as [|x t IH]; [intros _ H; by apply elem_of_nil in H|]. cbn [fmap list_fmap]. intros [Hx Hn]%list.NoDup_cons Hin.
  destruct (decide (ep_addr x = ep_addr p)) as [E|E].
  - rewrite filter_cons_False by (intros H; by apply H). assert (Hxp : x = p).
    { apply elem_of_cons in Hin as [->|Hin]; [done|]. exfalso. apply Hx. rewrite E. by apply list_elem_of_fmap_2. }
    subst x. f_equiv. clear IH Hn E Hin. induction t as [|y t IH]; [done|]. cbn in Hx. apply not_elem_of_cons in Hx as [H1 H2]. rewrite filter_cons_True by congruence. f_equiv. by apply IH.
  - apply elem_of_cons in Hin as [->|Hin]; [done|]. rewrite filter_cons_True by done. rewrite (IH Hn Hin) at 1. apply Permutation_swap.
Qed.

Lemma hash_del_new p t : ep_addr p ∉ ep_addr <$> t → hash_del p (t ++ [p]) = t.
Proof.
  intros Hp. unfold hash_del. rewrite list.filter_app, filter_cons_False by (intros H; by apply H). rewrite app_nil_r.
  induction t as [|y t IH]; [done|]. cbn in Hp. apply not_elem_of_cons in Hp as [H1 H2]. rewrite filter_cons_True by congruence. f_equal. by apply IH.
Qed.

Lemma nodup_perm {A B} (f : A → B) l k : l ≡ₚ k → NoDup (f <$> l) → NoDup (f <$> k).
Proof. intros H. by rewrite H. Qed.

(** Every operation ends; it keeps the listener, and what it gives up was
    visible and is no more. *)
Lemma link_ok mem p l :
  listener_ok l → ep_addr p ∉ ep_addr <$> visible l → ephash_key p ∉ ephash_key <$> l_ephash l → zlen (l_ephash l) < 1073741824 →
  ∃ l' rel rc, sp_pool_link mem p l = Some (l', rel, rc) ∧ listener_ok l' ∧
    (rc = 0 ∧ visible l' ++ rel ≡ₚ p :: visible l ∨ rc = -1 ∧ l' = l ∧ rel = []).
Proof.
  intros Hok Hp Hk Hz. unfold visible in Hp. rewrite fmap_app, not_elem_of_app in Hp. destruct Hp as [Hp1 Hp2].
  pose proof (lo_addr l Hok) as Ha. pose proof (lo_key l Hok) as Hky. unfold visible in Ha, Hky. rewrite fmap_app in Ha. rewrite fmap_app in Hky.
  apply list.NoDup_app in Ha as (Ha & _ & _), Hky as (Hky & _ & _). unfold sp_pool_link. set (l1 := l <| l_ephash ::= _ |>).
  destruct (publish_cases mem l1) as [(l' & -> & H1 & H2 & H3)|[-> _]].
  - cbn. rewrite fmap_app. apply list.NoDup_app. split_and!; [done| |apply NoDup_singleton]. intros x Hx ->%list_elem_of_singleton. done.
  - cbn. rewrite fmap_app. apply list.NoDup_app. split_and!; [done| |apply NoDup_singleton]. intros x Hx ->%list_elem_of_singleton. done.
  - cbn. rewrite zlen_app. unfold zlen in *. cbn. lia.
  - exists l', (l_waiting l), 0. split_and!; [done|done|]. left. split; [done|]. unfold visible. rewrite H1, H2. cbn. rewrite app_nil_r. solve_Permutation.
  - exists l, [], (-1). split_and!; [|done|by right]. destruct l as [t ix w]. cbn in Hp1. cbn [mbind option_bind Z.eqb l1]. f_equal. f_equal. f_equal. unfold l1. cbn -[hash_del]. by rewrite hash_del_new.
Qed.

Lemma unlink_ok mem p l :
  listener_ok l → p ∈ l_ephash l →
  ∃ l' rel rc, sp_pool_unlink mem p l = Some (l', rel, rc) ∧ listener_ok l' ∧ visible l' ++ rel ≡ₚ visible l ∧ (rc = 0 → p ∈ rel) ∧ (rc ≠ 0 → rel = []).
Proof.
  intros Hok Hp. pose proof (lo_addr l Hok) as Ha. pose proof (lo_key l Hok) as Hk. pose proof (lo_size l Hok) as Hz. unfold visible in Ha, Hk, Hz.
  pose proof Ha as Ha'. pose proof Hk as Hk'. rewrite fmap_app in Ha'. rewrite fmap_app in Hk'. apply list.NoDup_app in Ha' as (Ha' & _ & _), Hk' as (Hk' & _ & _).
  pose proof (hash_del_perm p (l_ephash l) Ha' Hp) as Hperm.
  assert (Hvis : hash_del p (l_ephash l) ++ p :: l_waiting l ≡ₚ visible l).
  { unfold visible. set (t := hash_del p _) in *. rewrite Hperm. solve_Permutation. }
  unfold sp_pool_unlink. set (l1 := l <| l_ephash ::= _ |>).
  destruct (publish_cases mem l1) as [(l' & -> & H1 & H2 & H3)|[-> _]].
  - apply (nodup_perm ep_addr _ _ Hperm) in Ha'. cbn in Ha'. by apply list.NoDup_cons in Ha' as [_ ?].
  - apply (nodup_perm ephash_key _ _ Hperm) in Hk'. cbn in Hk'. by apply list.NoDup_cons in Hk' as [_ ?].
  - apply Permutation_length in Hperm. rewrite zlen_app in Hz. unfold zlen in *. cbn in *. lia.
  - exists l', (l_waiting l ++ [p]), 0. cbn [mbind option_bind]. split_and!; [done|done| |intros _; apply elem_of_app; right; left|done].
    unfold visible. rewrite H1, H2, app_nil_r. change (l_ephash l1) with (hash_del p (l_ephash l)). set (t := hash_del p _) in *. rewrite Hperm. solve_Permutation.
  - eexists _, [], (-1). split_and!; [reflexivity| | |done|done].
    + assert (Hv : visible (l1 <| l_waiting ::= cons p |>) ≡ₚ visible l) by exact Hvis.
      destruct (lo_index l Hok) as (base & Hb1 & Hb2). split; [exists base; split; [done|by rewrite Hv]|by eapply nodup_perm; [symmetry; exact Hv|]|by eapply nodup_perm; [symmetry; exact Hv|]|].
      apply Permutation_length in Hv. unfold zlen in *. rewrite Hv. exact Hz.
    + rewrite app_nil_r. exact Hvis.
Qed.

Lemma publish_again_ok mem l :
  listener_ok l → ∃ l' rel rc, sp_pool_index_publish mem l = Some (l', rel, rc) ∧ listener_ok l' ∧ visible l' ++ rel ≡ₚ visible l.
Proof.
  intros Hok. pose proof (lo_addr l Hok) as Ha. pose proof (lo_key l Hok) as Hk. pose proof (lo_size l Hok) as Hz. unfold visible in Ha, Hk, Hz.
  rewrite fmap_app in Ha. rewrite fmap_app in Hk. apply list.NoDup_app in Ha as (Ha & _ & _), Hk as (Hk & _ & _). rewrite zlen_app in Hz. pose proof (zlen_nonneg (l_waiting l)).
  destruct (publish_cases mem l Ha Hk ltac:(lia)) as [(l' & -> & H1 & H2 & H3)|[-> _]].
  - exists l', (l_waiting l), 0. split_and!; [done..|]. unfold visible. rewrite H1, H2. by rewrite app_nil_r.
  - exists l, [], (-1). split_and!; [done..|]. by rewrite app_nil_r.
Qed.

Lemma listener_step_ok l gone l' gone' :
  listener_step (l, gone) (l', gone') → listener_ok l → NoDup (ep_addr <$> visible l ++ gone) → listener_ok l' ∧ NoDup (ep_addr <$> visible l' ++ gone').
Proof.
  intros Hst Hok Hnd. inversion Hst as [mem p ? ? ? rel rc Hp Hk Hz Hop|mem p ? ? ? rel rc Hp Hop|mem ? ? ? rel rc Hop]; subst.
  - rewrite fmap_app, not_elem_of_app in Hp. destruct Hp as [Hp1 Hp2]. destruct (link_ok mem p l Hok Hp1 Hk Hz) as (l1 & rel1 & rc1 & He & Hok' & Hv). rewrite Hop in He.
    injection He as <- <- <-. split; [done|]. destruct Hv as [[_ Hv]|(_ & -> & ->)]; [|by rewrite app_nil_r].
    eapply (nodup_perm ep_addr (p :: visible l ++ gone)); [change (p :: visible l ++ gone) with ((p :: visible l) ++ gone); rewrite <- Hv; solve_Permutation|].
    cbn. apply list.NoDup_cons. split; [by rewrite fmap_app, not_elem_of_app|done].
  - destruct (unlink_ok mem p l Hok Hp) as (l1 & rel1 & rc1 & He & Hok' & Hv & _). rewrite Hop in He. injection He as <- <- <-. split; [done|].
    eapply (nodup_perm ep_addr (visible l ++ gone)); [rewrite <- Hv; solve_Permutation|done].
  - destruct (publish_again_ok mem l Hok) as (l1 & rel1 & rc1 & He & Hok' & Hv). rewrite Hop in He. injection He as <- <- <-. split; [done|].
    eapply (nodup_perm ep_addr (visible l ++ gone)); [rewrite <- Hv; solve_Permutation|done].
Qed.

Lemma listener0_ok : listener_ok listener0.
Proof. split; cbn; [exists []; by split|constructor|constructor|unfold zlen; cbn; lia]. Qed.

Lemma listener_reach_ok l gone : steps listener_step (listener0, []) (l, gone) → listener_ok l ∧ NoDup (ep_addr <$> visible l ++ gone).
Proof.
  intros Hs. refine (steps_invariant listener_step (fun s => listener_ok (fst s) ∧ NoDup (ep_addr <$> visible (fst s) ++ snd s)) _ (l, gone) _ _ Hs).
  - intros [l1 g1] [l2 g2] [H1 H2] Hst. by eapply listener_step_ok.
  - split; [exact listener0_ok|constructor].
Qed.

(** C35. Through every sequence of links, unlinks and publications of a listener,
    whichever index allocations fail: every operation ends; a lookup by key ends
    and answers exactly the pool of that key among the table's and the waiting
    ones; a pool whose table reference was given up is in neither, so no lookup
    finds it; and once nothing waits the lookup is the table's own. *)
Theorem sp_pool_index_exact l gone :
  steps listener_step (listener0, []) (l, gone) →
  (∀ key, ∃ r, sp_pool_find l key = Some r ∧ ∀ p, r = Some p ↔ p ∈ l_ephash l ++ l_waiting l ∧ ephash_key p = key) ∧
  (∀ p, p ∈ gone → (p ∉ l_ephash l) ∧ (p ∉ l_waiting l) ∧ sp_pool_find l (ephash_key p) ≠ Some (Some p)) ∧
  (∀ mem, is_Some (sp_pool_index_publish mem l)) ∧
  (l_waiting l = [] → ∀ p, sp_pool_first l = Some p → p ∈ l_ephash l).
Proof.
  intros Hs. destruct (listener_reach_ok l gone Hs) as [Hok Hnd]. destruct (lo_index l Hok) as (base & Hix & Hperm).
  assert (Hfind : ∀ key, ∃ r, sp_pool_find l key = Some r ∧ ∀ p, r = Some p ↔ p ∈ visible l ∧ ephash_key p = key).
  { intros key. destruct (index_find_ok base (l_pools l) key Hix) as (r & H1 & H2); [eapply nodup_perm; [symmetry; exact Hperm|exact (lo_key l Hok)]|].
    exists r. split; [done|]. intros p. by rewrite H2, Hperm. }
  split_and!; [exact Hfind| | |].
  - intros p Hp. rewrite fmap_app in Hnd. apply list.NoDup_app in Hnd as (_ & Hd & _).
    assert (Hv : p ∉ visible l). { intros Hv. apply (Hd (ep_addr p)); by apply list_elem_of_fmap_2. }
    unfold visible in Hv. rewrite not_elem_of_app in Hv. destruct Hv as [Hv1 Hv2]. split_and!; [done|done|]. destruct (Hfind (ephash_key p)) as (r & -> & Hr).
    intros [= ->]. destruct (proj1 (Hr p) eq_refl) as [Hv _]. unfold visible in Hv. apply elem_of_app in Hv. tauto.
  - intros mem. destruct (publish_again_ok mem l Hok) as (l' & rel & rc & -> & _). by eexists.
  - intros Hw p. unfold sp_pool_first. destruct (l_pools l) as [ix|]; [|done]. cbn. destruct Hix as (_ & _ & _ & Hfst & _). rewrite Hfst. intros Hh.
    assert (Hin : p ∈ base) by (destruct base; [done|injection Hh as ->; left]). rewrite Hperm in Hin. unfold visible in Hin. rewrite Hw, app_nil_r in Hin. done.
Qed.

(** Two pools, of which the first is unlinked while no index can be built and so
    waits; the next publication gives it up. *)
Definition pool_a : epval := mk_epval 1 [97].
Definition pool_b : epval := mk_epval 2 [98].
Definition index_after (ps : list epval) : option sp_pool_index := match index_build ps with Some ix => ix | None => None end.
Definition listener1 : listener := mk_listener [pool_a] (index_after [pool_a]) [].
Definition listener2 : listener := mk_listener [pool_a; pool_b] (index_after [pool_a; pool_b]) [].
Definition listener3 : listener := mk_listener [pool_b] (index_after [pool_a; pool_b]) [pool_a].
Definition listener4 : listener := mk_listener [pool_b] (index_after [pool_b]) [].

Lemma listener4_reached : steps listener_step (listener0, []) (listener4, [pool_a]).
Proof.
  eapply steps_cons; [apply (ls_link true pool_a listener0 [] listener1 [] 0); [set_solver|set_solver|done|vm_compute; reflexivity]|].
  eapply steps_cons; [apply (ls_link true pool_b listener1 [] listener2 [] 0); [cbn; set_solver|cbn; set_solver|done|vm_compute; reflexivity]|].
  eapply steps_cons; [apply (ls_unlink false pool_a listener2 [] listener3 [] (-1)); [left|vm_compute; reflexivity]|].
  eapply steps_cons; [apply (ls_publish true listener3 [] listener4 [pool_a] 0); vm_compute; reflexivity|]. apply steps_refl.
Qed.

Lemma sp_pool_index_exact_witness :
  sp_pool_find listener3 [97] = Some (Some pool_a) ∧ sp_pool_find listener4 [97] = Some None ∧ sp_pool_find listener4 (ephash_key pool_a) ≠ Some (Some pool_a).
Proof.
  split; [vm_compute; reflexivity|]. split; [vm_compute; reflexivity|].
  exact (proj2 (proj2 (proj1 (proj2 (sp_pool_index_exact listener4 [pool_a] listener4_reached)) pool_a (list_elem_of_here _ _)))).
Defined.
