(* ===== verification/PoolLife.v ===== *)
(** * The lifetime of a pool (src/common/sockproxy_pool.c over sockproxy_qsbr.c)

    The reference count of a pool, the flag that its deferred work is queued, and
    the two works: the table's reference given back after a grace period, and the
    final free after another. Workers, holders, the thread that changes the
    listener's table and the reclaimer interleave, one atomic operation at a
    time, over the grace periods of [Qsbr]: a pool's place in the index is one of
    its objects, its final free another. The theorem: the count is the table's
    reference and the holders', nothing is queued twice, no release lacks a
    reference, the final free always finds the count at zero, a freed pool has no
    holder and no worker that still sees it, and no pool is forgotten. *)

From stdpp Require Import base list gmap numbers.
From S2P Require Import Prelude Qsbr.

#[local] Set Warnings "-register-all".

(** ** The header *)

Record pool_hdr := mk_pool_hdr { h_refs : Z; h_queued : bool }.
#[export] Instance pool_hdr_eta : RecordEta pool_hdr := fun r => mk_pool_hdr (h_refs r) (h_queued r).

Definition sp_pool_alloc : pool_hdr := mk_pool_hdr 1 false.
Definition sp_pool_get (h : pool_hdr) : pool_hdr := h <| h_refs ::= (fun n => u32 (n + 1)) |>.

(** What a release does next. *)
Inductive put_next : Type := PutDone | PutQueue | PutRefused.
(** The atomic subtraction of a release and what it read. *)
Definition sp_pool_put (h : pool_hdr) : pool_hdr * put_next :=
  let was := h_refs h in
  let h := h <| h_refs ::= (fun n => u32 (n - 1)) |> in
  if was =? 1 then (h, PutQueue)
  else if was =? 0 then (h <| h_refs ::= (fun n => u32 (n + 1)) |>, PutRefused)
  else (h, PutDone).

(** Whether the work goes to the reclaimer. *)
Definition pool_queue (h : pool_hdr) : pool_hdr * bool := (h <| h_queued := true |>, negb (h_queued h)).

(** The final free: whether the memory goes. *)
Definition pool_final_free (h : pool_hdr) : pool_hdr * bool := (h <| h_queued := false |>, h_refs h =? 0).
Definition pool_table_drop (h : pool_hdr) : pool_hdr * put_next := sp_pool_put (h <| h_queued := false |>).

(** A holder field set to a pool (0: none): the field, and the pools to get and
    to put, in order. *)
Definition sp_pool_hold (holder p : Z) : Z * list Z * list Z :=
  if holder =? p then (holder, [], []) else (p, filter (fun x => x ≠ 0) [p], filter (fun x => x ≠ 0) [holder]).

(** ** Pools at work *)

(** The two objects of a pool the grace periods know: its place in the index and
    its memory. *)
Definition place (p : Z) : Z := 2 * p.
Definition memory (p : Z) : Z := 2 * p + 1.

Record pools := mk_pools {
  s_q : qsys;
  s_hdr : gmap Z pool_hdr;       (* the pools ever allocated *)
  s_held : gmap Z Z;             (* references held: connections, permits, threads *)
  s_last : gset Z;               (* a release that read one, before its pool_queue *)
  s_pulled : gset Z;             (* out of every index, before sp_pool_unlinked *)
  s_freed : gset Z;
  s_errors : Z                   (* refused queues and releases, kept memory *)
}.
#[export] Instance pools_eta : RecordEta pools := fun r =>
  mk_pools (s_q r) (s_hdr r) (s_held r) (s_last r) (s_pulled r) (s_freed r) (s_errors r).

Definition hdr (s : pools) (p : Z) : pool_hdr := default (mk_pool_hdr 0 false) (s_hdr s !! p).
Definition held (s : pools) (p : Z) : Z := default 0 (s_held s !! p).

Definition set_hdr (p : Z) (h : pool_hdr) (s : pools) : pools := s <| s_hdr ::= <[p := h]> |>.
Definition add_held (p n : Z) (s : pools) : pools := s <| s_held ::= (fun m => <[p := default 0 (m !! p) + n]> m) |>.
Definition error_if (b : bool) (s : pools) : pools := s <| s_errors ::= (fun n => if b then n + 1 else n) |>.

(** A worker's own steps; a worker takes a pool's place only. *)
Inductive worker_step (q : qsys) : qsys → Prop :=
| wk_load i r : is_slot i → r = zget (y_readers q) i → r_held r = ∅ → worker_step q (set_reader i (RLoaded (qs_epoch (y_q q))) ∅ q)
| wk_store i r e : is_slot i → r = zget (y_readers q) i → r_phase r = RLoaded e → worker_step q (set_reader i ROn ∅ (q <| y_q ::= slot_store i e |>))
| wk_offline i r : is_slot i → r = zget (y_readers q) i → r_held r = ∅ → worker_step q (set_reader i ROff ∅ (q <| y_q ::= sp_qsbr_offline i |>))
| wk_find i r p : is_slot i → r = zget (y_readers q) i → r_phase r = ROn → place p ∈ y_linked q → worker_step q (set_reader i ROn (r_held r ∪ {[place p]}) q)
| wk_leave i r o : is_slot i → r = zget (y_readers q) i → worker_step q (set_reader i (r_phase r) (r_held r ∖ {[o]}) q).

(** The reclaimer's steps under its lock. *)
Inductive scan_step (q : qsys) : qsys → Prop :=
| sc_start w l : y_scan q = None → y_ready q = [] → qs_list (y_q q) = w :: l → scan_step q (q <| y_scan := Some 0 |>)
| sc_next i w l : y_scan q = Some i → is_slot i → qs_list (y_q q) = w :: l → slot_past (qw_epoch w) (zget (qs_slot (y_q q)) i) = true →
    scan_step q (q <| y_scan := Some (i + 1) |>)
| sc_fail i w l : y_scan q = Some i → is_slot i → qs_list (y_q q) = w :: l → slot_past (qw_epoch w) (zget (qs_slot (y_q q)) i) = false →
    scan_step q (q <| y_scan := None |>)
| sc_take w l : y_scan q = Some SP_QSBR_MAX_THREADS → qs_list (y_q q) = w :: l →
    scan_step q (q <| y_q ::= (fun q => q <| qs_list := l |>) |> <| y_ready ::= (fun r => r ++ [w]) |> <| y_scan := match l with [] => None | _ => Some 0 end |>).

(** The writer's steps, each the grace periods' own. *)
Definition q_link (o : Z) (q : qsys) : qsys := q <| y_linked ::= (fun l => l ∪ {[o]}) |>.
Definition q_unlink (o : Z) (q : qsys) : qsys := q <| y_linked ::= (fun l => l ∖ {[o]}) |> <| y_unlinked ::= (fun l => l ∪ {[o]}) |>.
Definition q_defer (o : Z) (q : qsys) : qsys :=
  q <| y_unlinked ::= (fun l => l ∖ {[o]}) |> <| y_q ::= sp_qsbr_defer o |> <| y_defers ::= (fun n => n + 1) |>.
Definition q_run (w : sp_qsbr_work) (l : list sp_qsbr_work) (q : qsys) : qsys :=
  q <| y_ready := l |> <| y_freed ::= (fun f => f ∪ {[qw_obj w]}) |> <| y_q ::= (fun q => q <| qs_waiting ::= (fun n => u64 (n - 1)) |>) |>.

(** Who may take a reference: a worker that found the pool in this round, a
    thread that found it linked under the proxy lock, a holder. *)
Definition may_get (s : pools) (p : Z) : Prop :=
  (∃ i, is_slot i ∧ holds (s_q s) i (place p)) ∨ place p ∈ y_linked (s_q s) ∨ 0 < held s p.

(** A release by one that holds a reference, up to its pool_queue. *)
Definition release (p : Z) (s : pools) : pools :=
  let '(h, next) := sp_pool_put (hdr s p) in
  let s := set_hdr p h s in
  match next with
  | PutQueue => s <| s_last ::= (fun l => l ∪ {[p]}) |>
  | PutRefused => error_if true s
  | PutDone => s
  end.

(** One atomic operation at a time; the store and the subtraction of a table drop
    are one step, and so are the store and the load of a final free. A pool whose
    link fails never had an index. *)
Inductive pools_step (s : pools) : pools → Prop :=
| ps_worker q : worker_step (s_q s) q → pools_step s (s <| s_q := q |>)
| ps_scan q : scan_step (s_q s) q → pools_step s (s <| s_q := q |>)
| ps_new p : s_hdr s !! p = None →
    pools_step s (set_hdr p sp_pool_alloc s <| s_q ::= q_link (place p) |>)
| ps_new_failed p : s_hdr s !! p = None →
    pools_step s (set_hdr p sp_pool_alloc s <| s_q ::= (fun q => q_unlink (place p) (q_link (place p) q)) |> <| s_pulled ::= (fun l => l ∪ {[p]}) |>)
| ps_pull p : place p ∈ y_linked (s_q s) →
    pools_step s (s <| s_q ::= q_unlink (place p) |> <| s_pulled ::= (fun l => l ∪ {[p]}) |>)
| ps_unlinked p : p ∈ s_pulled s → y_scan (s_q s) = None →
    pools_step s (let '(h, go) := pool_queue (hdr s p) in
      error_if (negb go) (set_hdr p h (s <| s_pulled ::= (fun l => l ∖ {[p]}) |>)) <| s_q ::= (if go then q_defer (place p) else id) |>)
| ps_get p : may_get s p → held s p + 1 < UINT32_MAX →
    pools_step s (add_held p 1 (set_hdr p (sp_pool_get (hdr s p)) s))
| ps_put p : 0 < held s p → pools_step s (release p (add_held p (-1) s))
| ps_queue p : p ∈ s_last s → y_scan (s_q s) = None →
    pools_step s (let '(h, go) := pool_queue (hdr s p) in
      error_if (negb go) (set_hdr p h (s <| s_last ::= (fun l => l ∖ {[p]}) |>))
        <| s_q ::= (if go then fun q => q_defer (memory p) (q_unlink (memory p) (q_link (memory p) q)) else id) |>)
| ps_drop p w l : y_scan (s_q s) = None → y_ready (s_q s) = w :: l → qw_obj w = place p →
    pools_step s (let '(h, next) := pool_table_drop (hdr s p) in
      let s := set_hdr p h (s <| s_q ::= q_run w l |>) in
      match next with
      | PutQueue => s <| s_last ::= (fun l => l ∪ {[p]}) |>
      | PutRefused => error_if true s
      | PutDone => s
      end)
| ps_free p w l : y_scan (s_q s) = None → y_ready (s_q s) = w :: l → qw_obj w = memory p →
    pools_step s (let '(h, go) := pool_final_free (hdr s p) in
      error_if (negb go) (set_hdr p h (s <| s_q ::= q_run w l |>)) <| s_freed ::= (if go then fun f => f ∪ {[p]} else id) |>).

Definition pools_init : pools := mk_pools qsys_init ∅ ∅ ∅ ∅ ∅ 0.

(** ** The states of a pool *)

(** Where an object is between its link and the end of its grace period. *)
Inductive ostage : Type := OAbsent | OLinked | OUnlinked | OWork | ODone.
#[export] Instance ostage_eq_dec : EqDecision ostage.
Proof. solve_decision. Defined.
(** How far the last release is. *)
Inductive fstage : Type := FNone | FLast | FWork | FDone.
#[export] Instance fstage_eq_dec : EqDecision fstage.
Proof. solve_decision. Defined.

Definition objs (q : qsys) : list Z := qw_obj <$> (qs_list (y_q q) ++ y_ready q).
Record in_stage (q : qsys) (o : Z) (st : ostage) : Prop := {
  st_linked : o ∈ y_linked q ↔ st = OLinked;
  st_unlinked : o ∈ y_unlinked q ↔ st = OUnlinked;
  st_work : o ∈ objs q ↔ st = OWork;
  st_done : o ∈ y_freed q ↔ st = ODone
}.
Definition memory_stage (f : fstage) : ostage := match f with FWork => OWork | FDone => ODone | _ => OAbsent end.

(** A pool as the table has it ([a]), with [n] holders, its end at [f]. *)
Record pool_at (s : pools) (p : Z) (a : ostage) (f : fstage) (n : Z) : Prop := {
  pa_place : in_stage (s_q s) (place p) a;
  pa_memory : in_stage (s_q s) (memory p) (memory_stage f);
  pa_pulled : p ∈ s_pulled s ↔ a = OUnlinked;
  pa_last : p ∈ s_last s ↔ f = FLast;
  pa_freed : p ∈ s_freed s ↔ f = FDone;
  pa_held : held s p = n
}.

(** What the code keeps true of it. *)
Definition pool_fine (h : pool_hdr) (a : ostage) (f : fstage) (n : Z) : Prop :=
  a ≠ OAbsent ∧ 0 ≤ n < UINT32_MAX ∧ h_refs h = n + (if decide (a = ODone) then 0 else 1) ∧
  h_queued h = bool_decide (a = OWork ∨ f = FWork) ∧ (f ≠ FNone ↔ a = ODone ∧ n = 0).

Record pinv (s : pools) : Prop := {
  pi_q : qinv (s_q s);
  pi_nodup : NoDup (objs (s_q s));
  pi_none : ∀ p, s_hdr s !! p = None → pool_at s p OAbsent FNone 0;
  pi_some : ∀ p h, s_hdr s !! p = Some h → ∃ a f n, pool_at s p a f n ∧ pool_fine h a f n;
  pi_seen : ∀ i o, is_slot i → holds (s_q s) i o → ∃ p, o = place p ∧ is_Some (s_hdr s !! p);
  pi_err : s_errors s = 0
}.

(** ** Stages *)

Lemma stage_known q o : in_stage q o OAbsent → o ∉ known q.
Proof.
  intros [H1 H2 H3 H4]. unfold known. rewrite !elem_of_union, elem_of_list_to_set. fold (objs q). rewrite H1, H2, H3, H4. naive_solver.
Qed.

Lemma stage_link q o o' st :
  in_stage q o OAbsent → in_stage q o' st → in_stage (q_link o q) o' (if decide (o' = o) then OLinked else st).
Proof.
  intros [A1 A2 A3 A4] [B1 B2 B3 B4]. case_decide as Hd; [subst o'|]; split; unfold objs in *; cbn; rewrite ?elem_of_union, ?elem_of_singleton; naive_solver.
Qed.

Lemma stage_unlink q o o' st :
  in_stage q o OLinked → in_stage q o' st → in_stage (q_unlink o q) o' (if decide (o' = o) then OUnlinked else st).
Proof.
  intros [A1 A2 A3 A4] [B1 B2 B3 B4]. case_decide as Hd; [subst o'|]; split; unfold objs in *; cbn; rewrite ?elem_of_difference, ?elem_of_union, ?elem_of_singleton; naive_solver.
Qed.

Lemma objs_defer q o : objs (q_defer o q) ≡ₚ o :: objs q.
Proof. unfold objs. cbn. rewrite !fmap_app. cbn. solve_Permutation. Qed.

Lemma stage_defer q o o' st :
  in_stage q o OUnlinked → in_stage q o' st → in_stage (q_defer o q) o' (if decide (o' = o) then OWork else st).
Proof.
  intros [A1 A2 A3 A4] [B1 B2 B3 B4]. case_decide as Hd; [subst o'|]; split; rewrite ?objs_defer, ?elem_of_cons; cbn; rewrite ?elem_of_difference, ?elem_of_union, ?elem_of_singleton; naive_solver.
Qed.

Lemma objs_run q w l : y_ready q = w :: l → objs q ≡ₚ qw_obj w :: objs (q_run w l q).
Proof. intros H. unfold objs. rewrite H. cbn. rewrite !fmap_app. cbn. solve_Permutation. Qed.

Lemma stage_run q w l o' st :
  y_ready q = w :: l → NoDup (objs q) → in_stage q (qw_obj w) OWork → in_stage q o' st →
  in_stage (q_run w l q) o' (if decide (o' = qw_obj w) then ODone else st).
Proof.
  intros Hr Hn [A1 A2 A3 A4] [B1 B2 B3 B4]. pose proof (objs_run q w l Hr) as Hp. rewrite Hp in Hn. apply list.NoDup_cons in Hn as [Hn _].
  assert (Hin : ∀ x, x ∈ objs q ↔ x = qw_obj w ∨ x ∈ objs (q_run w l q)) by (intros x; by rewrite Hp, elem_of_cons).
  rewrite Hin in A3, B3. case_decide as Hd; [subst o'|]; split; cbn; rewrite ?elem_of_union, ?elem_of_singleton; naive_solver.
Qed.

(** A step that moves no object. *)
Definition unmoved (q q' : qsys) : Prop :=
  y_linked q' = y_linked q ∧ y_unlinked q' = y_unlinked q ∧ y_freed q' = y_freed q ∧ objs q' ≡ₚ objs q ∧ y_defers q' = y_defers q.

Lemma stage_unmoved q q' o st : unmoved q q' → in_stage q o st → in_stage q' o st.
Proof. intros (H1 & H2 & H3 & H4 & _) [A1 A2 A3 A4]. split; [by rewrite H1|by rewrite H2|by rewrite H4|by rewrite H3]. Qed.

Lemma worker_unmoved q q' : worker_step q q' → unmoved q q' ∧ qsys_step q q'.
Proof.
  intros [i r Hi Hr Hh|i r e Hi Hr Hp|i r Hi Hr Hh|i r p Hi Hr Hp Hl|i r o Hi Hr].
  - split; [done|]. by eapply qy_load.
  - split; [done|]. by eapply qy_store.
  - split; [|by eapply qy_offline]. unfold unmoved, objs, sp_qsbr_offline. cbn. by destruct (i <? 0).
  - split; [done|]. by eapply qy_get.
  - split; [done|]. by eapply qy_put.
Qed.

Lemma scan_unmoved q q' : scan_step q q' → unmoved q q' ∧ qsys_step q q' ∧ y_readers q' = y_readers q.
Proof.
  intros [w l H1 H2 H3|i w l H1 H2 H3 H4|i w l H1 H2 H3 H4|w l H1 H2]; (split_and!; [| |done]).
  - done.
  - by eapply qy_scan_start.
  - done.
  - by eapply qy_scan_next.
  - done.
  - by eapply qy_scan_fail.
  - unfold unmoved, objs. cbn. rewrite H2. split_and!; [done..| |done]. rewrite !fmap_app. cbn. solve_Permutation.
  - by eapply qy_scan_take.
Qed.

(** ** One pool changes, the others stay *)

Lemma pool_at_frame s s' p a f n :
  (∀ o st, o = place p ∨ o = memory p → in_stage (s_q s) o st → in_stage (s_q s') o st) →
  (p ∈ s_pulled s' ↔ p ∈ s_pulled s) → (p ∈ s_last s' ↔ p ∈ s_last s) → (p ∈ s_freed s' ↔ p ∈ s_freed s) → held s' p = held s p →
  pool_at s p a f n → pool_at s' p a f n.
Proof.
  intros H1 H2 H3 H4 H5 [A1 A2 A3 A4 A5 A6]. split; [apply H1; auto|apply H1; auto|by rewrite H2|by rewrite H3|by rewrite H4|by rewrite H5].
Qed.

Lemma pinv_one s s' p0 a f n h :
  pinv s → qinv (s_q s') → NoDup (objs (s_q s')) → s_errors s' = s_errors s → s_hdr s' = <[p0 := h]> (s_hdr s) →
  (∀ p a f n, p ≠ p0 → pool_at s p a f n → pool_at s' p a f n) → pool_at s' p0 a f n → pool_fine h a f n →
  (∀ i o, is_slot i → holds (s_q s') i o → holds (s_q s) i o) → pinv s'.
Proof.
  intros [I1 I2 I3 I4 I5 I6] Hq Hn He Hh Hother Hat Hfine Hseen. split; [done|done| | | |by rewrite He].
  - intros p. rewrite Hh. destruct (decide (p = p0)) as [->|Hne]; [by rewrite lookup_insert_eq|]. rewrite lookup_insert_ne by done. intros Hp. by apply Hother, I3.
  - intros p hp. rewrite Hh. destruct (decide (p = p0)) as [->|Hne].
    + rewrite lookup_insert_eq. intros [= <-]. by exists a, f, n.
    + rewrite lookup_insert_ne by done. intros (a' & f' & n' & H1 & H2)%I4. exists a', f', n'. split; [by apply Hother|done].
  - intros i o Hi Ho. destruct (I5 i o Hi (Hseen i o Hi Ho)) as (p & -> & Hp). exists p. split; [done|]. rewrite Hh.
    destruct (decide (p = p0)) as [->|Hne]; [by rewrite lookup_insert_eq|by rewrite lookup_insert_ne].
Qed.

(** The pool an object belongs to. *)
Lemma apart p p0 : p ≠ p0 → place p ≠ place p0 ∧ memory p ≠ memory p0.
Proof. unfold place, memory. lia. Qed.
Lemma place_memory p p0 : place p ≠ memory p0.
Proof. unfold place, memory. lia. Qed.

Lemma stage_fun q o a b : in_stage q o a → in_stage q o b → a = b.
Proof. intros [A1 A2 A3 A4] [B1 B2 B3 B4]. destruct a, b; naive_solver. Qed.

(** A pool whose place or memory is somewhere was allocated. *)
Lemma pool_of s p o st : pinv s → o = place p ∨ o = memory p → in_stage (s_q s) o st → st ≠ OAbsent → is_Some (s_hdr s !! p).
Proof.
  intros Hinv Ho Hst Hne. destruct (s_hdr s !! p) as [h|] eqn:Hp; [done|]. exfalso. apply Hne. pose proof (pi_none s Hinv p Hp) as [P1 P2 _ _ _ _].
  destruct Ho as [-> | ->]; by eapply stage_fun.
Qed.

Lemma pool_linked s p : pinv s → place p ∈ y_linked (s_q s) → ∃ h f n, s_hdr s !! p = Some h ∧ pool_at s p OLinked f n ∧ pool_fine h OLinked f n.
Proof.
  intros Hinv Hl. destruct (s_hdr s !! p) as [h|] eqn:Hp.
  - destruct (pi_some s Hinv p h Hp) as (a & f & n & Hat & Hf). assert (a = OLinked) as -> by (by apply (st_linked _ _ _ (pa_place _ _ _ _ _ Hat))). by exists h, f, n.
  - by apply (st_linked _ _ _ (pa_place _ _ _ _ _ (pi_none s Hinv p Hp))) in Hl.
Qed.

Lemma pool_pulled s p : pinv s → p ∈ s_pulled s → ∃ h f n, s_hdr s !! p = Some h ∧ pool_at s p OUnlinked f n ∧ pool_fine h OUnlinked f n.
Proof.
  intros Hinv Hl. destruct (s_hdr s !! p) as [h|] eqn:Hp.
  - destruct (pi_some s Hinv p h Hp) as (a & f & n & Hat & Hf). assert (a = OUnlinked) as -> by (by apply (pa_pulled _ _ _ _ _ Hat)). by exists h, f, n.
  - by apply (pa_pulled _ _ _ _ _ (pi_none s Hinv p Hp)) in Hl.
Qed.

Lemma pool_last s p : pinv s → p ∈ s_last s → ∃ h a n, s_hdr s !! p = Some h ∧ pool_at s p a FLast n ∧ pool_fine h a FLast n.
Proof.
  intros Hinv Hl. destruct (s_hdr s !! p) as [h|] eqn:Hp.
  - destruct (pi_some s Hinv p h Hp) as (a & f & n & Hat & Hf). assert (f = FLast) as -> by (by apply (pa_last _ _ _ _ _ Hat)). by exists h, a, n.
  - by apply (pa_last _ _ _ _ _ (pi_none s Hinv p Hp)) in Hl.
Qed.

Lemma pool_dropping s p w l : pinv s → y_ready (s_q s) = w :: l → qw_obj w = place p →
  ∃ h f n, s_hdr s !! p = Some h ∧ pool_at s p OWork f n ∧ pool_fine h OWork f n.
Proof.
  intros Hinv Hr Hw. assert (Hl : place p ∈ objs (s_q s)) by (rewrite (objs_run _ w l Hr), Hw; left). destruct (s_hdr s !! p) as [h|] eqn:Hp.
  - destruct (pi_some s Hinv p h Hp) as (a & f & n & Hat & Hf). assert (a = OWork) as -> by (by apply (st_work _ _ _ (pa_place _ _ _ _ _ Hat))). by exists h, f, n.
  - by apply (st_work _ _ _ (pa_place _ _ _ _ _ (pi_none s Hinv p Hp))) in Hl.
Qed.

Lemma pool_ending s p w l : pinv s → y_ready (s_q s) = w :: l → qw_obj w = memory p →
  ∃ h a n, s_hdr s !! p = Some h ∧ pool_at s p a FWork n ∧ pool_fine h a FWork n.
Proof.
  intros Hinv Hr Hw. assert (Hl : memory p ∈ objs (s_q s)) by (rewrite (objs_run _ w l Hr), Hw; left). destruct (s_hdr s !! p) as [h|] eqn:Hp.
  - destruct (pi_some s Hinv p h Hp) as (a & f & n & Hat & Hf). assert (f = FWork) as ->.
    { apply (st_work _ _ _ (pa_memory _ _ _ _ _ Hat)) in Hl. by destruct f. }
    by exists h, a, n.
  - by apply (st_work _ _ _ (pa_memory _ _ _ _ _ (pi_none s Hinv p Hp))) in Hl.
Qed.

Lemma hdr_some s p h : s_hdr s !! p = Some h → hdr s p = h.
Proof. unfold hdr. by intros ->. Qed.

Lemma pinv_init : pinv pools_init.
Proof.
  split; [exact qinv_init|constructor| |done| |done].
  - intros p _. split; [..|done]; try (split; cbn; set_solver); cbn; set_solver.
  - intros i o Hi Ho. unfold holds in Ho. cbn in Ho. rewrite zget_zrep in Ho by done. cbn in Ho. set_solver.
Qed.

(** ** Steps of the workers and of the scan *)

Lemma worker_holds q q' i o :
  worker_step q q' → qinv q → is_slot i → holds q' i o → holds q i o ∨ ∃ p, o = place p ∧ place p ∈ y_linked q.
Proof.
  intros Hw Hq Hi. pose proof (qi_readers _ Hq) as Hlen. unfold holds.
  destruct Hw as [j r Hj -> Hh|j r e Hj -> Hp|j r Hj -> Hh|j r p Hj -> Hp Hl|j r x Hj ->]; unfold set_reader; cbn;
    rewrite zget_reader by done; (case_decide as Hd; [subst i; cbn|by left]).
  - set_solver.
  - set_solver.
  - set_solver.
  - intros [Ho|Ho]%elem_of_union; [by left|]. apply elem_of_singleton in Ho as ->. right. by exists p.
  - intros Ho. left. set_solver.
Qed.

Lemma quiet_pinv s q :
  pinv s → qinv q → unmoved (s_q s) q →
  (∀ i o, is_slot i → holds q i o → holds (s_q s) i o ∨ ∃ p, o = place p ∧ place p ∈ y_linked (s_q s)) → pinv (s <| s_q := q |>).
Proof.
  intros Hinv Hq Hu Hh. assert (Hat : ∀ p a f n, pool_at s p a f n → pool_at (s <| s_q := q |>) p a f n).
  { intros p a f n. apply pool_at_frame; [|done..]. intros o st _. by apply stage_unmoved. }
  split; [done| | | | |exact (pi_err s Hinv)].
  - destruct Hu as (_ & _ & _ & Hu & _). cbn. rewrite Hu. exact (pi_nodup s Hinv).
  - intros p Hp. apply Hat. by apply (pi_none s Hinv).
  - intros p h Hp. destruct (pi_some s Hinv p h Hp) as (a & f & n & H1 & H2). exists a, f, n. split; [by apply Hat|done].
  - intros i o Hi Ho. destruct (Hh i o Hi Ho) as [Ho'|(p & -> & Hl)]; [by apply (pi_seen s Hinv i)|].
    exists p. split; [done|]. destruct (pool_linked s p Hinv Hl) as (h & _ & _ & Hp & _). cbn. by rewrite Hp.
Qed.

(** ** Steps of one pool *)

(** One object of [p0] moves, and only [p0] changes. *)
Lemma move_pinv s s' p0 o a f n h :
  pinv s → qinv (s_q s') → NoDup (objs (s_q s')) → s_errors s' = s_errors s → s_hdr s' = <[p0 := h]> (s_hdr s) →
  o = place p0 ∨ o = memory p0 → (∀ o' st, o' ≠ o → in_stage (s_q s) o' st → in_stage (s_q s') o' st) →
  (∀ p, p ≠ p0 → (p ∈ s_pulled s' ↔ p ∈ s_pulled s) ∧ (p ∈ s_last s' ↔ p ∈ s_last s) ∧ (p ∈ s_freed s' ↔ p ∈ s_freed s) ∧ held s' p = held s p) →
  pool_at s' p0 a f n → pool_fine h a f n → y_readers (s_q s') = y_readers (s_q s) → pinv s'.
Proof.
  intros Hinv Hq Hn He Hh Ho Hst Hother Hat Hf Hr. apply (pinv_one s s' p0 a f n h); [done..| |done|done|].
  - intros p a' f' n' Hne. destruct (Hother p Hne) as (H1 & H2 & H3 & H4). apply pool_at_frame; [|done..]. intros o' st Ho'. apply Hst.
    destruct (apart p p0 Hne). pose proof (place_memory p p0). pose proof (place_memory p0 p). destruct Ho as [-> | ->], Ho' as [-> | ->]; congruence.
  - intros i x Hi. unfold holds. by rewrite Hr.
Qed.

(** The stage of the object moved, and of the others. *)
Lemma pick {q o o'} {st st' : ostage} : in_stage q o' (if decide (o' = o) then st else st') → o' = o → in_stage q o' st.
Proof. intros H ->. by rewrite decide_True in H. Qed.
Lemma skip {q o o'} {st st' : ostage} : in_stage q o' (if decide (o' = o) then st else st') → o' ≠ o → in_stage q o' st'.
Proof. intros H Hne. by rewrite decide_False in H. Qed.

Lemma new_pinv s p :
  pinv s → qinv (q_link (place p) (s_q s)) → s_hdr s !! p = None → pinv (set_hdr p sp_pool_alloc s <| s_q ::= q_link (place p) |>).
Proof.
  intros Hinv Hq Hp. pose proof (pi_none s Hinv p Hp) as [A1 A2 A3 A4 A5 A6]. set (s' := set_hdr _ _ _).
  apply (move_pinv s s' p (place p) OLinked FNone 0 sp_pool_alloc); [done|done|exact (pi_nodup s Hinv)|done|done|by left| |done| | |done].
  - intros o' st Hne Hst. exact (skip (stage_link _ _ o' st A1 Hst) Hne).
  - split; [exact (pick (stage_link _ _ _ _ A1 A1) eq_refl)|exact (skip (stage_link _ _ _ _ A1 A2) (not_eq_sym (place_memory p p)))|split; [intros H; by apply A3 in H|done]|done|done|done].
  - split_and!; [done|lia|done|done|done|]. split; [intros H; by destruct H|by intros [? _]].
Qed.

Lemma new_failed_pinv s p :
  pinv s → qinv (q_unlink (place p) (q_link (place p) (s_q s))) → s_hdr s !! p = None →
  pinv (set_hdr p sp_pool_alloc s <| s_q ::= (fun q => q_unlink (place p) (q_link (place p) q)) |> <| s_pulled ::= (fun l => l ∪ {[p]}) |>).
Proof.
  intros Hinv Hq Hp. pose proof (pi_none s Hinv p Hp) as [A1 A2 A3 A4 A5 A6]. set (s' := set_hdr _ _ _).
  pose proof (pick (stage_link _ _ _ _ A1 A1) eq_refl) as B1. pose proof (skip (stage_link _ _ _ _ A1 A2) (not_eq_sym (place_memory p p))) as B2.
  apply (move_pinv s s' p (place p) OUnlinked FNone 0 sp_pool_alloc); [done|done|exact (pi_nodup s Hinv)|done|done|by left| | | | |done].
  - intros o' st Hne Hst. exact (skip (stage_unlink _ _ o' st B1 (skip (stage_link _ _ o' st A1 Hst) Hne)) Hne).
  - intros p' Hne. split_and!; [cbn; set_solver|done..].
  - split; [exact (pick (stage_unlink _ _ _ _ B1 B1) eq_refl)|exact (skip (stage_unlink _ _ _ _ B1 B2) (not_eq_sym (place_memory p p)))|cbn; set_solver|done|done|done].
  - split_and!; [done|lia|done|done|done|]. split; [intros H; by destruct H|by intros [? _]].
Qed.

Lemma pull_pinv s p :
  pinv s → qinv (q_unlink (place p) (s_q s)) → place p ∈ y_linked (s_q s) →
  pinv (s <| s_q ::= q_unlink (place p) |> <| s_pulled ::= (fun l => l ∪ {[p]}) |>).
Proof.
  intros Hinv Hq Hl. destruct (pool_linked s p Hinv Hl) as (h & f & n & Hp & [A1 A2 A3 A4 A5 A6] & F1 & F2 & F3 & F4 & F5). set (s' := _ <| s_pulled ::= _ |>).
  apply (move_pinv s s' p (place p) OUnlinked f n h); [done|done|exact (pi_nodup s Hinv)|done|by rewrite insert_id|by left| | | | |done].
  - intros o' st Hne Hst. exact (skip (stage_unlink _ _ o' st A1 Hst) Hne).
  - intros p' Hne. split_and!; [cbn; set_solver|done..].
  - split; [exact (pick (stage_unlink _ _ _ _ A1 A1) eq_refl)|exact (skip (stage_unlink _ _ _ _ A1 A2) (not_eq_sym (place_memory p p)))|cbn; set_solver|done|done|done].
  - split_and!; [done|lia..|done| |]; [rewrite F4; apply bool_decide_ext; naive_solver|naive_solver].
Qed.

Lemma nodup_defer q o : NoDup (objs q) → in_stage q o OUnlinked → NoDup (objs (q_defer o q)).
Proof. intros Hn Hst. rewrite objs_defer. apply list.NoDup_cons. split; [rewrite (st_work _ _ _ Hst); done|done]. Qed.

Lemma nodup_run q w l : NoDup (objs q) → y_ready q = w :: l → NoDup (objs (q_run w l q)).
Proof. intros Hn Hr. rewrite (objs_run q w l Hr) in Hn. by apply list.NoDup_cons in Hn as [_ Hn]. Qed.

Lemma fine_none h a f n : pool_fine h a f n → a ≠ ODone ∨ 0 < n → f = FNone.
Proof. intros (_ & _ & _ & _ & F) H. destruct (decide (f = FNone)) as [|Hf]; [done|]. apply F in Hf as [? ?]. destruct H; [done|lia]. Qed.

Lemma unlinked_pinv s p h :
  pinv s → p ∈ s_pulled s → s_hdr s !! p = Some h → qinv (q_defer (place p) (s_q s)) →
  h_queued h = false ∧
  pinv (error_if false (set_hdr p (h <| h_queued := true |>) (s <| s_pulled ::= (fun l => l ∖ {[p]}) |>) <| s_q ::= q_defer (place p) |>)).
Proof.
  intros Hinv Hl Hp Hq. destruct (pool_pulled s p Hinv Hl) as (h' & f & n & Hp' & [A1 A2 A3 A4 A5 A6] & Hf). rewrite Hp in Hp'. injection Hp' as <-.
  assert (f = FNone) as -> by (eapply fine_none; [done|by left]). destruct Hf as (F1 & F2 & F3 & F4 & F5). split; [by rewrite F4|]. set (s' := error_if _ _).
  apply (move_pinv s s' p (place p) OWork FNone n (h <| h_queued := true |>)); [done|done|exact (nodup_defer _ _ (pi_nodup s Hinv) A1)|done|done|by left| | | | |done].
  - intros o' st Hne Hst. exact (skip (stage_defer _ _ o' st A1 Hst) Hne).
  - intros p' Hne. split_and!; [cbn; set_solver|done..].
  - split; [exact (pick (stage_defer _ _ _ _ A1 A1) eq_refl)|exact (skip (stage_defer _ _ _ _ A1 A2) (not_eq_sym (place_memory p p)))|cbn; set_solver|done|done|done].
  - split_and!; [done|lia|lia|done|done|naive_solver].
Qed.

Lemma held_add s p n p' : held (add_held p n s) p' = if decide (p' = p) then held s p + n else held s p'.
Proof.
  unfold held, add_held. cbn. case_decide as Hd; [subst p'; by rewrite lookup_insert_eq|by rewrite lookup_insert_ne].
Qed.

Lemma getable s p : pinv s → may_get s p → ∃ h a n, s_hdr s !! p = Some h ∧ pool_at s p a FNone n ∧ pool_fine h a FNone n ∧ 1 ≤ h_refs h.
Proof.
  intros Hinv Hm. assert (Hp : is_Some (s_hdr s !! p)).
  { destruct Hm as [(i & Hi & Ho)|[Hl|Hh]].
    - destruct (pi_seen s Hinv i _ Hi Ho) as (p' & He & Hp). unfold place in He. replace p with p' by lia. done.
    - destruct (pool_linked s p Hinv Hl) as (h & _ & _ & -> & _). done.
    - destruct (s_hdr s !! p) eqn:Hp; [done|]. pose proof (pa_held _ _ _ _ _ (pi_none s Hinv p Hp)). lia. }
  destruct Hp as [h Hp]. destruct (pi_some s Hinv p h Hp) as (a & f & n & Hat & Hf). pose proof (pa_held _ _ _ _ _ Hat) as Hn.
  assert (Hok : a ≠ ODone ∨ 0 < n).
  { destruct Hm as [(i & Hi & Ho)|[Hl|Hh]]; [left|left|right; lia].
    - intros ->. pose proof (pa_place _ _ _ _ _ Hat) as Hst. destruct (qi_freed _ (pi_q s Hinv) (place p)) as [_ Hno]; [by apply (st_done _ _ _ Hst)|]. by apply (Hno i Hi).
    - intros ->. by apply (st_linked _ _ _ (pa_place _ _ _ _ _ Hat)) in Hl. }
  pose proof (fine_none _ _ _ _ Hf Hok) as ->. exists h, a, n. split_and!; [done..|]. destruct Hf as (_ & F2 & -> & _). case_decide; [|lia]. destruct Hok; [done|lia].
Qed.

Lemma get_pinv s p :
  pinv s → may_get s p → held s p + 1 < UINT32_MAX → pinv (add_held p 1 (set_hdr p (sp_pool_get (hdr s p)) s)).
Proof.
  intros Hinv Hm Hb. destruct (getable s p Hinv Hm) as (h & a & n & Hp & [A1 A2 A3 A4 A5 A6] & (F1 & F2 & F3 & F4 & F5) & Hr). rewrite (hdr_some s p h Hp).
  set (s' := add_held _ _ _).
  apply (move_pinv s s' p (place p) a FNone (n + 1) (sp_pool_get h)); [done|exact (pi_q s Hinv)|exact (pi_nodup s Hinv)|done|done|by left|done| | | |done].
  - intros p' Hne. split_and!; [done..|]. unfold s'. rewrite held_add. by rewrite decide_False.
  - split; [done..|]. unfold s'. rewrite held_add. rewrite decide_True by done. cbn. by rewrite <- A6.
  - split_and!; [done|lia|lia| |done|naive_solver lia]. unfold UINT32_MAX in *. cbn. rewrite u32_small; case_decide; lia.
Qed.

Lemma put_pinv s p : pinv s → 0 < held s p → pinv (release p (add_held p (-1) s)).
Proof.
  intros Hinv Hh. destruct (getable s p Hinv) as (h & a & n & Hp & [A1 A2 A3 A4 A5 A6] & (F1 & F2 & F3 & F4 & F5) & Hr); [by right; right|].
  unfold release. change (hdr (add_held p (-1) s) p) with (hdr s p). rewrite (hdr_some s p h Hp). unfold sp_pool_put.
  assert (H0 : (h_refs h =? 0) = false) by (apply Z.eqb_neq; lia). rewrite H0. unfold UINT32_MAX in *.
  assert (Hsub : u32 (h_refs h - 1) = h_refs h - 1) by (rewrite u32_small; [done|case_decide; lia]).
  destruct (h_refs h =? 1) eqn:E1; zbool.
  - assert (Hdone : a = ODone ∧ n = 1) by (case_decide; split; [done|lia|lia|lia]). destruct Hdone as [-> ->]. set (s' := _ <| s_last ::= _ |>).
    apply (move_pinv s s' p (place p) ODone FLast 0 (h <| h_refs ::= (fun n => u32 (n - 1)) |>)); [done|exact (pi_q s Hinv)|exact (pi_nodup s Hinv)|done|done|by left|done| | | |done].
    + intros p' Hne. split_and!; [done|cbn; set_solver|done|]. change (held s' p') with (held (add_held p (-1) s) p'). rewrite held_add. by rewrite decide_False.
    + split; [done|exact A2|done|cbn; set_solver|split; [intros H; by apply A5 in H|done]|]. change (held s' p) with (held (add_held p (-1) s) p). rewrite held_add, decide_True by done. lia.
    + split_and!; [done|lia|done|cbn; rewrite Hsub; cbn in *; lia|done|naive_solver].
  - set (s' := set_hdr _ _ _).
    apply (move_pinv s s' p (place p) a FNone (n - 1) (h <| h_refs ::= (fun n => u32 (n - 1)) |>)); [done|exact (pi_q s Hinv)|exact (pi_nodup s Hinv)|done|done|by left|done| | | |done].
    + intros p' Hne. split_and!; [done..|]. change (held s' p') with (held (add_held p (-1) s) p'). rewrite held_add. by rewrite decide_False.
    + split; [done..|]. change (held s' p) with (held (add_held p (-1) s) p). rewrite held_add, decide_True by done. lia.
    + split_and!; [done|lia|unfold UINT32_MAX; lia|cbn; rewrite Hsub; lia|done|]. split; [done|]. intros [-> ?]. rewrite decide_True in F3 by done. lia.
Qed.

(** The memory's work, from nothing to the queue. *)
Definition q_final (p : Z) (q : qsys) : qsys := q_defer (memory p) (q_unlink (memory p) (q_link (memory p) q)).

Lemma stage_final q p o' st :
  in_stage q (memory p) OAbsent → in_stage q o' st → in_stage (q_final p q) o' (if decide (o' = memory p) then OWork else st).
Proof.
  intros Ha Hst. pose proof (pick (stage_link _ _ _ _ Ha Ha) eq_refl) as B. pose proof (pick (stage_unlink _ _ _ _ B B) eq_refl) as C. unfold q_final. case_decide as Hd.
  - subst o'. exact (pick (stage_defer _ _ _ _ C C) eq_refl).
  - exact (skip (stage_defer _ _ _ _ C (skip (stage_unlink _ _ _ _ B (skip (stage_link _ _ _ _ Ha Hst) Hd)) Hd)) Hd).
Qed.

Lemma queue_pinv s p h :
  pinv s → p ∈ s_last s → s_hdr s !! p = Some h → qinv (q_final p (s_q s)) →
  h_queued h = false ∧
  pinv (error_if false (set_hdr p (h <| h_queued := true |>) (s <| s_last ::= (fun l => l ∖ {[p]}) |>) <| s_q ::= q_final p |>)).
Proof.
  intros Hinv Hl Hp Hq. destruct (pool_last s p Hinv Hl) as (h' & a & n & Hp' & [A1 A2 A3 A4 A5 A6] & F1 & F2 & F3 & F4 & F5). rewrite Hp in Hp'. injection Hp' as <-.
  destruct (proj1 F5 ltac:(done)) as [-> ->]. split; [by rewrite F4|]. set (s' := error_if _ _).
  apply (move_pinv s s' p (memory p) ODone FWork 0 (h <| h_queued := true |>)); [done|done| |done|done|by right| | | | |done].
  - pose proof (pick (stage_link _ _ _ _ A2 A2) eq_refl) as B. pose proof (pick (stage_unlink _ _ _ _ B B) eq_refl) as C. refine (nodup_defer _ _ _ C). exact (pi_nodup s Hinv).
  - intros o' st Hne Hst. exact (skip (stage_final _ p o' st A2 Hst) Hne).
  - intros p' Hne. split_and!; [done|cbn; set_solver|done..].
  - split; [exact (skip (stage_final _ p _ _ A2 A1) (place_memory p p))|exact (pick (stage_final _ p _ _ A2 A2) eq_refl)|done|cbn; set_solver|split; [intros H; by apply A5 in H|done]|done].
  - split_and!; [done|lia|done|done|done|naive_solver].
Qed.

Lemma drop_pinv s p w l :
  pinv s → y_ready (s_q s) = w :: l → qw_obj w = place p → qinv (q_run w l (s_q s)) →
  pinv (let '(h, next) := pool_table_drop (hdr s p) in
      let s := set_hdr p h (s <| s_q ::= q_run w l |>) in
      match next with
      | PutQueue => s <| s_last ::= (fun l => l ∪ {[p]}) |>
      | PutRefused => error_if true s
      | PutDone => s
      end).
Proof.
  intros Hinv Hr Hw Hq. destruct (pool_dropping s p w l Hinv Hr Hw) as (h & f & n & Hp & [A1 A2 A3 A4 A5 A6] & Hf).
  assert (f = FNone) as -> by (eapply fine_none; [done|by left]). destruct Hf as (F1 & F2 & F3 & F4 & F5). rewrite (hdr_some s p h Hp).
  unfold pool_table_drop, sp_pool_put. cbn [h_refs field_set]. change (h_refs (h <| h_queued := false |>)) with (h_refs h). rewrite decide_False in F3 by done. unfold UINT32_MAX in *.
  assert (Hsub : u32 (h_refs h - 1) = n) by (rewrite u32_small; lia). assert (H0 : (h_refs h =? 0) = false) by (apply Z.eqb_neq; lia). rewrite H0.
  assert (Hw1 : in_stage (s_q s) (qw_obj w) OWork) by (by rewrite Hw).
  pose proof (pi_nodup s Hinv) as Hnd. assert (Hmove : ∀ o' st, o' ≠ place p → in_stage (s_q s) o' st → in_stage (q_run w l (s_q s)) o' st).
  { intros o' st Hne Hst. pose proof (stage_run _ w l o' st Hr Hnd Hw1 Hst) as H. rewrite Hw in H. exact (skip H Hne). }
  assert (Hplace : in_stage (q_run w l (s_q s)) (place p) ODone).
  { pose proof (stage_run _ w l _ _ Hr Hnd Hw1 A1) as H. rewrite Hw in H. exact (pick H eq_refl). }
  set (h' := h <| h_queued := false |> <| h_refs ::= (fun n => u32 (n - 1)) |>). assert (Href : h_refs h' = n) by exact Hsub.
  destruct (h_refs h =? 1) eqn:E1; zbool.
  - assert (n = 0) as -> by lia. match goal with |- pinv ?x => set (s' := x) end.
    apply (move_pinv s s' p (place p) ODone FLast 0 h'); [done|done|exact (nodup_run _ w l Hnd Hr)|done|done|by left|exact Hmove| | | |done].
    + intros p' Hne. split_and!; [done|cbn; set_solver|done..].
    + split; [exact Hplace|apply Hmove; [apply not_eq_sym, place_memory|done]|split; [intros H; by apply A3 in H|done]|cbn; set_solver|split; [intros H; by apply A5 in H|done]|done].
    + split_and!; [done|lia|done|rewrite Href; done|done|naive_solver].
  - match goal with |- pinv ?x => set (s' := x) end.
    apply (move_pinv s s' p (place p) ODone FNone n h'); [done|done|exact (nodup_run _ w l Hnd Hr)|done|done|by left|exact Hmove|done| | |done].
    + split; [exact Hplace|apply Hmove; [apply not_eq_sym, place_memory|done]|split; [intros H; by apply A3 in H|done]|done|done|done].
    + split_and!; [done|lia|unfold UINT32_MAX; lia|rewrite Href, decide_True by done; lia|done|]. split; [done|]. intros [_ ?]. lia.
Qed.

Lemma free_pinv s p w l :
  pinv s → y_ready (s_q s) = w :: l → qw_obj w = memory p → qinv (q_run w l (s_q s)) →
  h_refs (hdr s p) = 0 ∧ pinv (error_if false (set_hdr p ((hdr s p) <| h_queued := false |>) (s <| s_q ::= q_run w l |>) <| s_freed ::= (fun f => f ∪ {[p]}) |>)).
Proof.
  intros Hinv Hr Hw Hq. destruct (pool_ending s p w l Hinv Hr Hw) as (h & a & n & Hp & [A1 A2 A3 A4 A5 A6] & F1 & F2 & F3 & F4 & F5). rewrite (hdr_some s p h Hp).
  destruct (proj1 F5 ltac:(done)) as [-> ->]. split; [by rewrite F3|]. set (s' := error_if _ _). pose proof (pi_nodup s Hinv) as Hnd.
  assert (Hw1 : in_stage (s_q s) (qw_obj w) OWork) by (by rewrite Hw).
  apply (move_pinv s s' p (memory p) ODone FDone 0 (h <| h_queued := false |>)); [done|done|exact (nodup_run _ w l Hnd Hr)|done|done|by right| | | | |done].
  - intros o' st Hne Hst. pose proof (stage_run _ w l o' st Hr Hnd Hw1 Hst) as H. rewrite Hw in H. exact (skip H Hne).
  - intros p' Hne. split_and!; [done|done|cbn; set_solver|done].
  - split; [| |done|split; [intros H; by apply A4 in H|done]|cbn; set_solver|done].
    + pose proof (stage_run _ w l _ _ Hr Hnd Hw1 A1) as H. rewrite Hw in H. exact (skip H (place_memory p p)).
    + pose proof (stage_run _ w l _ _ Hr Hnd Hw1 A2) as H. rewrite Hw in H. exact (pick H eq_refl).
  - split_and!; [done|lia|done|done|done|naive_solver].
Qed.

(** ** Every step *)

Lemma defers_grow s s' : pools_step s s' → y_defers (s_q s) ≤ y_defers (s_q s').
Proof.
  destruct 1 as [q Hq|q Hq|p Hp|p Hp|p Hl|p Hl Hs|p Hm Hb|p Hh|p Hl Hs|p w l Hs Hr Hw|p w l Hs Hr Hw]; cbn; try lia.
  - destruct (worker_unmoved _ _ Hq) as [(_ & _ & _ & _ & ->) _]. lia.
  - destruct (scan_unmoved _ _ Hq) as [(_ & _ & _ & _ & ->) _]. lia.
  - destruct (negb (h_queued (hdr s p))); cbn; lia.
  - unfold release. destruct (sp_pool_put _) as [h [| |]]; cbn; lia.
  - destruct (negb (h_queued (hdr s p))); cbn; lia.
  - destruct (pool_table_drop _) as [h [| |]]; cbn; lia.
Qed.

Lemma pools_step_inv s s' : y_defers (s_q s') < UINT64_MAX → pinv s → pools_step s s' → pinv s'.
Proof.
  intros Hb Hinv Hst. pose proof (defers_grow s s' Hst) as Hgrow. pose proof (pi_q s Hinv) as Hq0.
  destruct Hst as [q Hq|q Hq|p Hp|p Hp|p Hl|p Hl Hs|p Hm Hb'|p Hh|p Hl Hs|p w l Hs Hr Hw|p w l Hs Hr Hw].
  - destruct (worker_unmoved _ _ Hq) as [Hu Hst]. pose proof (step_inv _ _ Hb Hq0 Hst) as Hq'. apply quiet_pinv; [done|done|done|]. intros i o Hi Ho. by eapply worker_holds.
  - destruct (scan_unmoved _ _ Hq) as (Hu & Hst & Hrd). pose proof (step_inv _ _ Hb Hq0 Hst) as Hq'. apply quiet_pinv; [done|done|done|]. intros i o Hi. unfold holds. rewrite Hrd. by left.
  - apply new_pinv; [done| |done]. apply link_inv; [done|]. apply stage_known. exact (pa_place _ _ _ _ _ (pi_none s Hinv p Hp)).
  - apply new_failed_pinv; [done| |done]. apply unlink_inv. apply link_inv; [done|]. apply stage_known. exact (pa_place _ _ _ _ _ (pi_none s Hinv p Hp)).
  - apply pull_pinv; [done| |done]. by apply unlink_inv.
  - destruct (pool_pulled s p Hinv Hl) as (h & f & n & Hp & [A1 _ _ _ _ _] & _). unfold pool_queue in *. rewrite (hdr_some s p h Hp) in *.
    destruct (h_queued h) eqn:Eq.
    + exfalso. destruct (pool_pulled s p Hinv Hl) as (h' & f' & n' & Hp' & _ & Hf). rewrite Hp in Hp'. injection Hp' as <-.
      assert (f' = FNone) as -> by (eapply fine_none; [done|by left]). destruct Hf as (_ & _ & _ & F4 & _). by rewrite F4 in Eq.
    + cbn in Hb. apply (unlinked_pinv s p h Hinv Hl Hp). apply defer_inv; [done|done|by apply (st_unlinked _ _ _ A1)|]. lia.
  - by apply get_pinv.
  - by apply put_pinv.
  - destruct (pool_last s p Hinv Hl) as (h & a & n & Hp & [_ A2 _ _ _ _] & _ & _ & _ & F4 & F5). unfold pool_queue in *. rewrite (hdr_some s p h Hp) in *.
    destruct (proj1 F5 ltac:(done)) as [-> ->]. assert (Eq : h_queued h = false) by (by rewrite F4). rewrite Eq in *. cbn [negb] in *.
    apply (queue_pinv s p h Hinv Hl Hp). pose proof (pick (stage_link _ _ _ _ A2 A2) eq_refl) as B. pose proof (pick (stage_unlink _ _ _ _ B B) eq_refl) as C.
    apply defer_inv; [|done|by apply (st_unlinked _ _ _ C)|exact Hb]. apply unlink_inv. apply link_inv; [done|]. by apply stage_known.
  - apply drop_pinv; [done..|]. apply (step_inv (s_q s)); [exact (Z.le_lt_trans _ _ _ Hgrow Hb)|done|by apply qy_run].
  - assert (Hq' : qinv (q_run w l (s_q s))) by (apply (step_inv (s_q s)); [exact (Z.le_lt_trans _ _ _ Hgrow Hb)|done|by apply qy_run]).
    destruct (free_pinv s p w l Hinv Hr Hw Hq') as [H0 H1]. unfold pool_final_free. rewrite H0. exact H1.
Qed.

(** C23. The lifetime of a pool, in every interleaving of workers, holders, the
    thread that changes the table and the reclaimer, short of 2^64 - 1 deferrals
    and 2^32 - 2 holders of one pool: no work is queued twice, no release lacks a
    reference and no final free finds one left; a pool's count is its holders and
    the table's reference, which lasts until a grace period after the pool left
    the index; a freed pool has no holder, is in no index, and no worker still
    has what it found; and a pool that is not freed is in the index or on its way
    out of it, held, or on its way to its final free. *)
Theorem sp_pool_lifetime s :
  steps pools_step pools_init s → y_defers (s_q s) < UINT64_MAX →
  s_errors s = 0 ∧
  ∀ p h, s_hdr s !! p = Some h →
    h_refs h = held s p + (if bool_decide (place p ∈ y_freed (s_q s)) then 0 else 1) ∧
    (p ∈ s_freed s → held s p = 0 ∧ (place p ∉ y_linked (s_q s)) ∧ ∀ i, is_slot i → ¬ holds (s_q s) i (place p)) ∧
    (p ∉ s_freed s → place p ∈ y_linked (s_q s) ∨ p ∈ s_pulled s ∨ place p ∈ objs (s_q s) ∨ 0 < held s p ∨ p ∈ s_last s ∨ memory p ∈ objs (s_q s)).
Proof.
  intros Hs Hb. assert (Hinv : pinv s).
  { revert Hb. refine (steps_invariant pools_step (fun s => y_defers (s_q s) < UINT64_MAX → pinv s) _ s _ (fun _ => pinv_init) Hs).
    intros a b IH Hst Hb. apply (pools_step_inv a b Hb); [|done]. apply IH. pose proof (defers_grow a b Hst). lia. }
  split; [exact (pi_err s Hinv)|]. intros p h Hp. destruct (pi_some s Hinv p h Hp) as (a & f & n & [A1 A2 A3 A4 A5 A6] & F1 & F2 & F3 & F4 & F5).
  rewrite A6. split_and!.
  - rewrite F3. f_equal. destruct (decide (a = ODone)) as [Ha|Ha]; [rewrite bool_decide_eq_true_2|rewrite bool_decide_eq_false_2]; rewrite ?(st_done _ _ _ A1); done.
  - intros Hf. apply A5 in Hf as ->. destruct (proj1 F5 ltac:(done)) as [-> ->]. split; [done|]. apply (qi_freed _ (pi_q s Hinv)). by apply (st_done _ _ _ A1).
  - intros Hf. destruct a; [done|left; by apply (st_linked _ _ _ A1)|right; left; by apply A3|right; right; left; by apply (st_work _ _ _ A1)|].
    right. right. right. destruct (decide (f = FNone)) as [->|Hne].
    + left. destruct (Z.lt_ge_cases 0 n); [done|]. exfalso. by apply (proj2 F5); [split; [done|lia]|].
    + right. destruct f; [done|left; by apply A4|right; by apply (st_work _ _ _ A2)|]. exfalso. by apply Hf, A5.
Qed.

(** ** A pool's life, with every worker offline *)

Lemma scan_pools s w l n :
  (n ≤ 64)%nat → qs_list (y_q (s_q s)) = w :: l → (∀ i, is_slot i → slot_past (qw_epoch w) (zget (qs_slot (y_q (s_q s))) i) = true) →
  y_scan (s_q s) = Some (64 - Z.of_nat n) →
  steps pools_step s (s <| s_q ::= (fun q => q <| y_scan := Some SP_QSBR_MAX_THREADS |>) |>).
Proof.
  revert s. induction n as [|n IH]; intros s Hn Hl Hp Hs.
  - rewrite Z.sub_0_r in Hs. replace (s <| s_q ::= _ |>) with s; [apply steps_refl|]. destruct s as [[] ? ? ? ? ? ?]. cbn in *. by rewrite Hs.
  - assert (Hi : is_slot (64 - Z.of_nat (S n))) by (unfold is_slot, SP_QSBR_MAX_THREADS; lia).
    eapply steps_cons; [apply ps_scan; apply (sc_next _ _ w l Hs Hi Hl (Hp _ Hi))|].
    match goal with |- steps _ ?x _ => specialize (IH x) end. cbn in IH. apply IH; [lia|done|done|]. f_equal. lia.
Qed.

(** The reclaimer takes the one work there is. *)
Lemma scan_one s w :
  qs_list (y_q (s_q s)) = [w] → y_ready (s_q s) = [] → y_scan (s_q s) = None → (∀ i, is_slot i → zget (qs_slot (y_q (s_q s))) i = 0) →
  steps pools_step s (s <| s_q ::= (fun q => q <| y_q ::= (fun q => q <| qs_list := [] |>) |> <| y_ready := [w] |>) |>).
Proof.
  intros Hl Hr Hs Hz. eapply steps_cons; [apply ps_scan; by apply (sc_start _ w [])|].
  eapply steps_trans; [apply (scan_pools _ w [] 64); [lia|done|intros i Hi; cbn; by rewrite Hz|done]|].
  eapply steps_cons; [apply ps_scan; by apply (sc_take _ w [])|]. match goal with |- steps _ ?x ?y => replace x with y; [apply steps_refl|] end.
  destruct s as [[[] ? ? ? ? ? ? ?] ? ? ? ? ? ?]. cbn in *. by subst.
Qed.

Lemma life_slots i : is_slot i → zget (zrep SP_QSBR_MAX_THREADS 0) i = 0.
Proof. intros Hi. by apply zget_zrep. Qed.

(** Pool 5 linked, held and given back, unlinked, its table reference dropped and
    its memory freed. *)
Lemma life_reached : ∃ s, steps pools_step pools_init s ∧ y_defers (s_q s) = 2 ∧ s_hdr s !! 5 = Some (mk_pool_hdr 0 false) ∧ 5 ∈ s_freed s.
Proof.
  eexists. split; [|].
  - eapply steps_cons; [by apply (ps_new _ 5)|].
    eapply steps_cons; [apply (ps_get _ 5); [right; left; cbn; set_solver|done]|].
    eapply steps_cons; [by apply (ps_put _ 5)|].
    eapply steps_cons; [apply (ps_pull _ 5); cbn; set_solver|].
    eapply steps_cons; [apply (ps_unlinked _ 5); [cbn; set_solver|done]|].
    eapply steps_trans; [eapply scan_one; [reflexivity|reflexivity|reflexivity|intros i Hi; by apply life_slots]|].
    eapply steps_cons; [by eapply (ps_drop _ 5)|].
    eapply steps_cons; [apply (ps_queue _ 5); [cbn; set_solver|done]|].
    eapply steps_trans; [eapply scan_one; [reflexivity|reflexivity|reflexivity|intros i Hi; by apply life_slots]|].
    eapply steps_cons; [by eapply (ps_free _ 5)|]. apply steps_refl.
  - split_and!; [reflexivity|reflexivity|]. cbn. set_solver.
Qed.

Lemma sp_pool_lifetime_witness : ∃ s, steps pools_step pools_init s ∧ 5 ∈ s_freed s ∧ s_errors s = 0 ∧ held s 5 = 0.
Proof.
  destruct life_reached as (s & Hs & Hd & Hp & Hf). exists s. split; [exact Hs|]. split; [exact Hf|].
  destruct (sp_pool_lifetime s Hs) as [He Hall]; [rewrite Hd; reflexivity|]. split; [exact He|].
  exact (proj1 (proj1 (proj2 (Hall 5 _ Hp)) Hf)).
Defined.
