(* ===== verification/Breaker.v ===== *)
(** * The circuit breaker and the healthy-endpoint choice (src/common/sockproxy_health.c)

    The breaker of an endpoint (closed, open, half-open) as sockproxy_health.c,
    circuit_breaker_heal.h and circuit_breaker_origin.h drive it: connect
    failures and successes, origin errors and successes, the check a selection
    makes, the health pass; what a trip does to the pool's prefix tree and its
    parked clients, what a close does to the admission gate; and the choice of a
    healthy endpoint over it. Every operation holds the breakers' lock, so each is
    one step. The theorems: the breaker opens at exactly the configured run of
    failures and the tree then names the endpoint for no text; while it is not
    closed no more than the allowed probes pass, none before the timeout, and an
    origin trip closes on an origin success only; a choice is sound and gives up
    only when every endpoint refuses. *)

From stdpp Require Import base list gmap numbers.
From S2P Require Import Prelude FcTypes FcAdapt PdTrie PdTrieInv.

#[local] Set Warnings "-register-all".

(** ** The breaker *)

Inductive cb_state : Type := CB_STATE_CLOSED | CB_STATE_OPEN | CB_STATE_HALF_OPEN.
#[export] Instance cb_state_eq_dec : EqDecision cb_state.
Proof. solve_decision. Defined.

Definition MAX_PROXY_EP : Z := 32.

Record circuit_breaker := mk_circuit_breaker {
  cb_st : cb_state;
  failure_count : Z; success_count : Z;
  last_failure_ts : Z; open_ts : Z;
  failure_threshold : Z; success_threshold : Z; open_timeout_sec : Z;
  half_open_max_requests : Z; half_open_requests : Z;
  origin_err_streak : Z; origin_tripped : bool
}.
#[export] Instance circuit_breaker_eta : RecordEta circuit_breaker := fun r =>
  mk_circuit_breaker (cb_st r) (failure_count r) (success_count r) (last_failure_ts r) (open_ts r) (failure_threshold r)
    (success_threshold r) (open_timeout_sec r) (half_open_max_requests r) (half_open_requests r) (origin_err_streak r) (origin_tripped r).

Definition circuit_breaker_init : circuit_breaker := mk_circuit_breaker CB_STATE_CLOSED 0 0 0 0 5 1 30 3 0 0 false.
#[export] Instance circuit_breaker_inhabited : Inhabited circuit_breaker := populate circuit_breaker_init.

(** Open, and open for long enough at [now]. *)
Definition open_over (cb : circuit_breaker) (now : Z) : bool := now - open_ts cb >=? open_timeout_sec cb.

Definition circuit_breaker_proactive_heal (now : Z) (cb : circuit_breaker) : circuit_breaker * bool :=
  match cb_st cb with
  | CB_STATE_OPEN =>
      if negb (open_over cb now) then (cb, false)
      else (cb <| cb_st := CB_STATE_HALF_OPEN |> <| half_open_requests := 0 |> <| success_count := 0 |>, true)
  | _ => (cb, false)
  end.

Definition circuit_breaker_origin_note_error (threshold : Z) (cb : circuit_breaker) : circuit_breaker * bool :=
  if threshold <=? 0 then (cb, false)
  else
    match cb_st cb with
    | CB_STATE_CLOSED =>
        let cb := cb <| origin_err_streak ::= (fun n => u32 (n + 1)) |> in
        if origin_err_streak cb >=? threshold then (cb <| origin_err_streak := 0 |> <| origin_tripped := true |>, true) else (cb, false)
    | CB_STATE_HALF_OPEN => (cb <| origin_err_streak := 0 |> <| origin_tripped := true |>, true)
    | CB_STATE_OPEN => (cb, false)
    end.

Definition circuit_breaker_origin_note_success (cb : circuit_breaker) : circuit_breaker * bool :=
  let cb := cb <| origin_err_streak := 0 |> in
  (cb, bool_decide (cb_st cb = CB_STATE_HALF_OPEN) && origin_tripped cb).

(** The check of a selection: whether to skip, and whether the state flipped. *)
Definition cb_should_skip (now : Z) (cb : circuit_breaker) : circuit_breaker * bool :=
  match cb_st cb with
  | CB_STATE_CLOSED => (cb, false)
  | CB_STATE_OPEN =>
      if open_over cb now then (cb <| cb_st := CB_STATE_HALF_OPEN |> <| half_open_requests := 1 |> <| success_count := 0 |>, false) else (cb, true)
  | CB_STATE_HALF_OPEN =>
      if half_open_requests cb >=? half_open_max_requests cb then (cb, true)
      else (cb <| half_open_requests ::= (fun n => u32 (n + 1)) |>, false)
  end.

(** A connect failure: whether it tripped. *)
Definition cb_failure (now : Z) (cb : circuit_breaker) : circuit_breaker * bool :=
  let cb := cb <| last_failure_ts := now |> in
  match cb_st cb with
  | CB_STATE_CLOSED =>
      let cb := cb <| failure_count ::= (fun n => u32 (n + 1)) |> in
      if failure_count cb >=? failure_threshold cb then (cb <| cb_st := CB_STATE_OPEN |> <| open_ts := now |>, true) else (cb, false)
  | CB_STATE_HALF_OPEN => (cb <| cb_st := CB_STATE_OPEN |> <| open_ts := now |> <| failure_count := failure_threshold cb |>, true)
  | CB_STATE_OPEN => (cb, false)
  end.

(** A connect success: whether it closed. *)
Definition cb_success (cb : circuit_breaker) : circuit_breaker * bool :=
  match cb_st cb with
  | CB_STATE_CLOSED => (cb <| failure_count := 0 |>, false)
  | CB_STATE_HALF_OPEN =>
      if origin_tripped cb then (cb, false)
      else
        let cb := cb <| success_count ::= (fun n => u32 (n + 1)) |> in
        if success_count cb >=? success_threshold cb then (cb <| cb_st := CB_STATE_CLOSED |> <| failure_count := 0 |>, true) else (cb, false)
  | CB_STATE_OPEN => (cb, false)
  end.

Definition cb_origin_error (thr now : Z) (cb : circuit_breaker) : circuit_breaker * bool :=
  let '(cb, trip) := circuit_breaker_origin_note_error thr cb in
  if negb trip then (cb, false)
  else (cb <| cb_st := CB_STATE_OPEN |> <| open_ts := now |> <| last_failure_ts := now |> <| failure_count := failure_threshold cb |>, true).

Definition cb_origin_success (cb : circuit_breaker) : circuit_breaker * bool :=
  let '(cb, close) := circuit_breaker_origin_note_success cb in
  if close then (cb <| cb_st := CB_STATE_CLOSED |> <| failure_count := 0 |> <| success_count := 0 |> <| origin_tripped := false |>, true) else (cb, false).

(** ** The pool *)

Record bpool := mk_bpool {
  bp_n_eps : Z;
  bp_enabled : bool;
  bp_cbs : list circuit_breaker;     (* circuit_breakers[MAX_PROXY_EP] *)
  bp_inv : list Z;                   (* eps[].inv *)
  bp_trie : option pd_trie;
  bp_fc : fc_state;
  bp_drained : list Z;               (* pd_parked_drain_ep, in order *)
  bp_flips : Z                       (* global_stats.pd_cb_flips *)
}.
#[export] Instance bpool_eta : RecordEta bpool := fun r =>
  mk_bpool (bp_n_eps r) (bp_enabled r) (bp_cbs r) (bp_inv r) (bp_trie r) (bp_fc r) (bp_drained r) (bp_flips r).

Definition bp_cb (p : bpool) (ep : Z) : circuit_breaker := zget (bp_cbs p) ep.
Definition set_cb (ep : Z) (cb : circuit_breaker) (p : bpool) : bpool := p <| bp_cbs ::= (fun l => zset l ep cb) |>.
Definition ep_in (p : bpool) (ep : Z) : bool := (0 <=? ep) && (ep <? bp_n_eps p) && (ep <? MAX_PROXY_EP).
Definition flip (p : bpool) : bpool := p <| bp_flips ::= (fun n => n + 1) |>.

(** [mem]: which labels the tree's merges can allocate. *)
Definition circuit_breaker_trip_actions (mem : Z → bool) (ep : Z) (p : bpool) : bpool :=
  p <| bp_trie ::= (fun t => pd_trie_remove_ep mem ep <$> t) |> <| bp_drained ::= (fun l => l ++ [ep]) |>.

Definition circuit_breaker_configure_pool (enabled : bool) (failure_thr timeout : Z) (p : bpool) : bpool :=
  let conf (cb : circuit_breaker) :=
    let cb := circuit_breaker_init in
    let cb := if failure_thr =? 0 then cb else cb <| failure_threshold := failure_thr |> in
    if timeout =? 0 then cb else cb <| open_timeout_sec := timeout |> in
  (if enabled then p <| bp_cbs ::= (fun l => imap (fun i cb => if Z.of_nat i <? bp_n_eps p then conf cb else cb) l) |> else p) <| bp_enabled := enabled |>.

Definition circuit_breaker_candidate (now ep : Z) (p : bpool) : bool :=
  if negb (ep_in p ep) then false
  else if negb (bp_enabled p) then true
  else
    let cb := bp_cb p ep in
    match cb_st cb with
    | CB_STATE_CLOSED => true
    | CB_STATE_OPEN => open_over cb now
    | CB_STATE_HALF_OPEN => half_open_requests cb <? half_open_max_requests cb
    end.

Definition circuit_breaker_should_skip (now ep : Z) (p : bpool) : bpool * bool :=
  if negb (ep_in p ep) then (p, true)
  else if negb (bp_enabled p) then (p, false)
  else
    let '(cb, skip) := cb_should_skip now (bp_cb p ep) in
    (set_cb ep cb (if bool_decide (cb_st (bp_cb p ep) = CB_STATE_OPEN) && negb skip then flip p else p), skip).

Definition circuit_breaker_record_failure (mem : Z → bool) (now ep : Z) (p : bpool) : bpool :=
  if negb (bp_enabled p) || negb (ep_in p ep) then p
  else
    let '(cb, trip) := cb_failure now (bp_cb p ep) in
    let p := set_cb ep cb p in
    if trip then circuit_breaker_trip_actions mem ep (flip p) else p.

(** [clock] is the gate's monotonic clock, in nanoseconds. *)
Definition circuit_breaker_record_success (clock ep : Z) (p : bpool) : bpool :=
  if negb (bp_enabled p) || negb (ep_in p ep) then p
  else
    let '(cb, close) := cb_success (bp_cb p ep) in
    let p := set_cb ep cb p in
    if close then flip (p <| bp_fc ::= fc_ep_warm_start clock ep 0 |>) else p.

Definition circuit_breaker_record_origin_error (mem : Z → bool) (thr now ep : Z) (p : bpool) : bpool :=
  if negb (bp_enabled p) || (thr <=? 0) || negb (ep_in p ep) then p
  else
    let '(cb, trip) := cb_origin_error thr now (bp_cb p ep) in
    let p := set_cb ep cb p in
    if trip then circuit_breaker_trip_actions mem ep (flip p) else p.

Definition circuit_breaker_record_origin_success (clock ep : Z) (p : bpool) : bpool :=
  if negb (bp_enabled p) || negb (ep_in p ep) then p
  else
    let '(cb, close) := cb_origin_success (bp_cb p ep) in
    let p := set_cb ep cb p in
    if close then flip (p <| bp_fc ::= fc_ep_warm_start clock ep 0 |>) else p.

(** The health pass on one endpoint. *)
Definition circuit_breaker_heal_guarded (now ep : Z) (p : bpool) : bpool :=
  if negb (bp_enabled p) then p
  else let '(cb, healed) := circuit_breaker_proactive_heal now (bp_cb p ep) in set_cb ep cb (if healed then flip p else p).

(** ** The choice *)

Definition is_endpoint_healthy (now ep : Z) (p : bpool) : bpool * bool :=
  if (ep <? 0) || (ep >=? bp_n_eps p) then (p, false)
  else if negb (zget (bp_inv p) ep =? 0) then (p, false)
  else let '(p, skip) := circuit_breaker_should_skip now ep p in (p, negb skip).

Fixpoint next_healthy (now start : Z) (idxs : list Z) (p : bpool) : bpool * Z :=
  match idxs with
  | [] => (p, -1)
  | i :: idxs =>
      let ep := (start + i) mod bp_n_eps p in
      let '(p, ok) := is_endpoint_healthy now ep p in
      if ok then (p, ep) else next_healthy now start idxs p
  end.
Definition find_next_healthy_endpoint (now start : Z) (p : bpool) : bpool * Z :=
  if bp_n_eps p =? 0 then (p, -1) else next_healthy now start (zseq (bp_n_eps p)) p.

Definition select_healthy_endpoint (now algorithm_selection : Z) (p : bpool) : bpool * Z :=
  if (bp_n_eps p <=? 0) || (bp_n_eps p >? MAX_PROXY_EP) then (p, -1)
  else
    let '(p, ok) :=
      if (algorithm_selection >=? 0) && (algorithm_selection <? bp_n_eps p) then is_endpoint_healthy now algorithm_selection p else (p, false) in
    if ok then (p, algorithm_selection)
    else
      let '(p, r) := find_next_healthy_endpoint now 0 p in
      if (r >=? 0) && (r >=? bp_n_eps p) then (p, -1) else (p, r).

(** ** Opening *)

(** Outcomes of connects to an endpoint: a failure at a time, or a success. *)
Inductive outcome : Type := Failed (now : Z) | Connected.
Definition run_outcome (cb : circuit_breaker) (o : outcome) : circuit_breaker :=
  match o with Failed now => fst (cb_failure now cb) | Connected => fst (cb_success cb) end.

(** The failures in a row at the end of [os], counted from [n]. *)
Definition failing (n : Z) (os : list outcome) : Z :=
  foldl (fun n o => match o with Failed _ => n + 1 | Connected => 0 end) n os.

(** No prefix of [os] ends with [thr] failures in a row. *)
Definition never_runs (thr n : Z) (os : list outcome) : Prop := ∀ k, failing n (take k os) < thr.

Lemma failing_cons n o os : failing n (o :: os) = failing (match o with Failed _ => n + 1 | Connected => 0 end) os.
Proof. done. Qed.

Lemma open_stays cb os : cb_st cb = CB_STATE_OPEN → cb_st (foldl run_outcome cb os) = CB_STATE_OPEN ∧ open_ts (foldl run_outcome cb os) = open_ts cb.
Proof.
  revert cb. induction os as [|o os IH]; intros cb Hs; [done|]. cbn [foldl]. destruct (IH (run_outcome cb o)) as [H1 H2].
  - destruct o; cbn; [unfold cb_failure; cbn; by rewrite Hs|unfold cb_success; by rewrite Hs].
  - split; [done|]. rewrite H2. destruct o; cbn; [unfold cb_failure; cbn; by rewrite Hs|unfold cb_success; by rewrite Hs].
Qed.

Lemma closed_run cb os :
  cb_st cb = CB_STATE_CLOSED → 0 ≤ failure_count cb < failure_threshold cb → failure_threshold cb < 4294967296 →
  let cb' := foldl run_outcome cb os in
  (cb_st cb' = CB_STATE_CLOSED ∧ failure_count cb' = failing (failure_count cb) os ∧ never_runs (failure_threshold cb) (failure_count cb) os) ∨
  (cb_st cb' = CB_STATE_OPEN ∧ ∃ k now, os !! k = Some (Failed now) ∧ open_ts cb' = now ∧
     failing (failure_count cb) (take (S k) os) = failure_threshold cb ∧ ∀ j, (j ≤ k)%nat → failing (failure_count cb) (take j os) < failure_threshold cb).
Proof.
  revert cb. induction os as [|o os IH]; intros cb Hs Hc Ht; cbn zeta.
  { left. split_and!; [done|done|]. intros k. rewrite take_nil. cbn. lia. }
  cbn [foldl]. destruct o as [now|].
  - cbn [run_outcome]. unfold cb_failure. cbn. rewrite Hs. cbn. rewrite u32_small by lia. rewrite Z.geb_leb.
    destruct (failure_threshold cb <=? failure_count cb + 1) eqn:E; zbool; cbn [fst].
    + right. match goal with |- cb_st (foldl run_outcome ?x os) = _ ∧ _ => set (cb1 := x) end. destruct (open_stays cb1 os ltac:(done)) as [H1 H2].
      split; [done|]. exists 0%nat, now. rewrite H2. split_and!; [done|done|cbn; rewrite take_0; cbn; lia|]. intros j Hj. replace j with 0%nat by lia. cbn. lia.
    + match goal with |- (cb_st (foldl run_outcome ?x os) = _ ∧ _) ∨ _ => set (cb1 := x) end.
      destruct (IH cb1) as [(H1 & H2 & H3)|(H1 & k & t & H2 & H3 & H4 & H5)]; [done|cbn; lia|done| |].
      * left. split_and!; [done|exact H2|]. intros [|k]; [cbn; lia|]. exact (H3 k).
      * right. split; [done|]. exists (S k), t. split_and!; [done|done|exact H4|]. intros [|j] Hj; [cbn; lia|]. apply (H5 j). lia.
  - cbn [run_outcome]. unfold cb_success. rewrite Hs. cbn [fst]. match goal with |- (cb_st (foldl run_outcome ?x os) = _ ∧ _) ∨ _ => set (cb1 := x) end.
    destruct (IH cb1) as [(H1 & H2 & H3)|(H1 & k & t & H2 & H3 & H4 & H5)]; [done|cbn; lia|done| |].
    + left. split_and!; [done|exact H2|]. intros [|k]; [cbn; lia|]. exact (H3 k).
    + right. split; [done|]. exists (S k), t. split_and!; [done|done|exact H4|]. intros [|j] Hj; [cbn; lia|]. apply (H5 j). lia.
Qed.

Definition pool_outcome (mem : Z → bool) (clock ep : Z) (p : bpool) (o : outcome) : bpool :=
  match o with Failed now => circuit_breaker_record_failure mem now ep p | Connected => circuit_breaker_record_success clock ep p end.

(** A breaker in use: enabled, of an endpoint of the pool. *)
Record guarded (p : bpool) (ep : Z) : Prop := {
  gd_enabled : bp_enabled p = true;
  gd_ep : ep_in p ep = true;
  gd_len : zlen (bp_cbs p) = MAX_PROXY_EP
}.

Lemma guarded_range p ep : guarded p ep → 0 ≤ ep < MAX_PROXY_EP ∧ ep < bp_n_eps p.
Proof. intros [_ H _]. unfold ep_in in H. rewrite !andb_true_iff in H. destruct H as [[H1 H2] H3]. zbool. lia. Qed.

Lemma bp_cb_set p ep cb ep' :
  guarded p ep → 0 ≤ ep' < MAX_PROXY_EP → bp_cb (set_cb ep cb p) ep' = if decide (ep' = ep) then cb else bp_cb p ep'.
Proof.
  intros Hg He. destruct (guarded_range p ep Hg) as [Hr _]. pose proof (gd_len _ _ Hg) as Hl. unfold MAX_PROXY_EP in *. unfold bp_cb, set_cb. cbn.
  case_decide as Hd; [subst; apply zget_zset_eq; lia|apply zget_zset_ne; lia].
Qed.

(** What one outcome does to the pool. *)
Lemma outcome_pool mem clock ep p o :
  guarded p ep →
  let p' := pool_outcome mem clock ep p o in
  guarded p' ep ∧ bp_cb p' ep = run_outcome (bp_cb p ep) o ∧ (∀ e, 0 ≤ e < MAX_PROXY_EP → e ≠ ep → bp_cb p' e = bp_cb p e) ∧
  (bp_trie p', bp_drained p') =
    match o with
    | Failed now => if snd (cb_failure now (bp_cb p ep)) then (pd_trie_remove_ep mem ep <$> bp_trie p, bp_drained p ++ [ep]) else (bp_trie p, bp_drained p)
    | Connected => (bp_trie p, bp_drained p)
    end.
Proof.
  intros Hg. destruct (guarded_range p ep Hg) as [Hr _]. pose proof Hg as [H1 H2 H3].
  assert (Hset : ∀ cb e, 0 ≤ e < MAX_PROXY_EP → bp_cb (set_cb ep cb p) e = if decide (e = ep) then cb else bp_cb p e) by (intros; by apply bp_cb_set).
  assert (Hlen : ∀ cb, zlen (bp_cbs (set_cb ep cb p)) = MAX_PROXY_EP) by (intros; cbn; by rewrite zlen_zset).
  destruct o as [now|]; cbn [pool_outcome run_outcome].
  - unfold circuit_breaker_record_failure. rewrite H1, H2. cbn [negb orb]. destruct (cb_failure now (bp_cb p ep)) as [cb trip]. cbn [fst snd].
    destruct trip; (split_and!; [split; [done|done|apply Hlen]| | |done]).
    + change (bp_cb (set_cb ep cb p) ep = cb). rewrite Hset by done. by rewrite decide_True.
    + intros e He Hne. change (bp_cb (set_cb ep cb p) e = bp_cb p e). rewrite Hset by done. by rewrite decide_False.
    + rewrite Hset by done. by rewrite decide_True.
    + intros e He Hne. rewrite Hset by done. by rewrite decide_False.
  - unfold circuit_breaker_record_success. rewrite H1, H2. cbn [negb orb]. destruct (cb_success (bp_cb p ep)) as [cb close]. cbn [fst].
    destruct close; (split_and!; [split; [done|done|apply Hlen]| | |done]).
    + change (bp_cb (set_cb ep cb p) ep = cb). rewrite Hset by done. by rewrite decide_True.
    + intros e He Hne. change (bp_cb (set_cb ep cb p) e = bp_cb p e). rewrite Hset by done. by rewrite decide_False.
    + rewrite Hset by done. by rewrite decide_True.
    + intros e He Hne. rewrite Hset by done. by rewrite decide_False.
Qed.

(** A run of outcomes: the tree and the parked clients change with the state. *)
Lemma outcomes_pool mem clock ep os p :
  guarded p ep → cb_st (bp_cb p ep) ≠ CB_STATE_HALF_OPEN →
  let p' := foldl (pool_outcome mem clock ep) p os in
  bp_cb p' ep = foldl run_outcome (bp_cb p ep) os ∧ (∀ e, 0 ≤ e < MAX_PROXY_EP → e ≠ ep → bp_cb p' e = bp_cb p e) ∧
  (bp_trie p', bp_drained p') =
    if decide (cb_st (bp_cb p' ep) = cb_st (bp_cb p ep)) then (bp_trie p, bp_drained p) else (pd_trie_remove_ep mem ep <$> bp_trie p, bp_drained p ++ [ep]).
Proof.
  revert p. induction os as [|o os IH]; intros p Hg Hs; cbn zeta; [cbn; split_and!; [done|done|by rewrite decide_True]|]. cbn [foldl].
  destruct (outcome_pool mem clock ep p o Hg) as (G & Hcb & Hoth & Heff). set (p1 := pool_outcome mem clock ep p o) in *.
  assert (Hone : cb_st (bp_cb p1 ep) ≠ CB_STATE_HALF_OPEN ∧
     (bp_trie p1, bp_drained p1) = (if decide (cb_st (bp_cb p1 ep) = cb_st (bp_cb p ep)) then (bp_trie p, bp_drained p) else (pd_trie_remove_ep mem ep <$> bp_trie p, bp_drained p ++ [ep])) ∧
     (cb_st (bp_cb p ep) = CB_STATE_OPEN → cb_st (bp_cb p1 ep) = CB_STATE_OPEN)).
  { rewrite Hcb, Heff. destruct o as [now|]; cbn [run_outcome].
    - unfold cb_failure. cbn. destruct (cb_st (bp_cb p ep)) eqn:Est; [|cbn; rewrite ?Est; by split_and!|done].
      case_test; cbn; rewrite ?Est; by split_and!.
    - unfold cb_success. destruct (cb_st (bp_cb p ep)) eqn:Est; [cbn|cbn|done]; rewrite ?Est; cbn; by split_and!. }
  destruct Hone as (Hs1 & He1 & Hop). destruct (IH p1 G Hs1) as (H1 & H2 & H3). set (p2 := foldl _ p1 os) in *.
  split_and!; [by rewrite H1, Hcb|intros e He Hne; by rewrite H2, Hoth|]. rewrite H3.
  assert (Hst : cb_st (bp_cb p1 ep) = CB_STATE_OPEN → cb_st (bp_cb p2 ep) = CB_STATE_OPEN). { intros Ho. rewrite H1. by apply open_stays. }
  destruct (decide (cb_st (bp_cb p2 ep) = cb_st (bp_cb p1 ep))) as [E2|E2], (decide (cb_st (bp_cb p1 ep) = cb_st (bp_cb p ep))) as [E1|E1].
  - rewrite decide_True by congruence. done.
  - rewrite decide_False by congruence. done.
  - rewrite decide_False by congruence. by injection He1 as -> ->.
  - exfalso. destruct (cb_st (bp_cb p1 ep)) eqn:Ea; [|rewrite Hst in E2; done|done]. destruct (cb_st (bp_cb p ep)) eqn:Eb; [done|by specialize (Hop eq_refl)|done].
Qed.

(** The breaker of an endpoint opens at exactly the failure that completes the
    configured run of consecutive connect failures: after any sequence of
    outcomes it is still closed if and only if no such run occurred. Opening it
    makes the prefix tree forget the endpoint, so that no text is routed to it,
    and drains the clients parked for it, once; the breakers of the other
    endpoints are as they were. *)
Theorem breaker_opens_exactly mem clock ep os p :
  guarded p ep → cb_st (bp_cb p ep) = CB_STATE_CLOSED → failure_count (bp_cb p ep) = 0 → 1 ≤ failure_threshold (bp_cb p ep) < 4294967296 →
  (∀ t, bp_trie p = Some t → trie_ok t) →
  let p' := foldl (pool_outcome mem clock ep) p os in
  (cb_st (bp_cb p' ep) = CB_STATE_CLOSED ↔ never_runs (failure_threshold (bp_cb p ep)) 0 os) ∧
  (cb_st (bp_cb p' ep) ≠ CB_STATE_CLOSED →
     cb_st (bp_cb p' ep) = CB_STATE_OPEN ∧ bp_drained p' = bp_drained p ++ [ep] ∧ ∀ t text, bp_trie p' = Some t → ¬ recorded t text ep) ∧
  (∀ e, 0 ≤ e < MAX_PROXY_EP → e ≠ ep → bp_cb p' e = bp_cb p e).
Proof.
  intros Hg Hs Hf Ht Htrie. destruct (outcomes_pool mem clock ep os p Hg) as (H1 & H2 & H3); [by rewrite Hs|]. set (p' := foldl _ p os) in *. cbn zeta.
  destruct (closed_run (bp_cb p ep) os Hs ltac:(lia) ltac:(lia)) as [(R1 & R2 & R3)|(R1 & k & now & R2 & R3 & R4 & R5)]; rewrite <- H1 in R1.
  - rewrite Hf in R3. split_and!; [done|intros Hc; by rewrite R1 in Hc|done].
  - split_and!; [|intros _|done].
    + rewrite R1. split; [done|]. intros Hn. specialize (Hn (S k)). rewrite Hf in R4. lia.
    + rewrite decide_False in H3 by (rewrite R1, Hs; done). apply (inj2 pair) in H3 as [H3 H4]. split_and!; [done|done|]. intros t text Ht' Hr.
      rewrite H3 in Ht'. destruct (bp_trie p) as [t0|] eqn:E0; [|done]. apply (inj Some) in Ht'. subst t. destruct (guarded_range p ep Hg) as [[Hep _] _].
      apply (proj2 (remove_ep_spec mem ep t0 (Htrie t0 eq_refl) Hep)) in Hr as [_ Hr]. done.
Qed.

(** ** While the breaker is not closed *)

Inductive cb_event : Type :=
| EvCheck (now : Z) | EvFailure (now : Z) | EvSuccess | EvOriginError (thr now : Z) | EvOriginSuccess | EvHeal (now : Z).

(** The breaker after an event, and whether a request was let through. *)
Definition cb_event_step (cb : circuit_breaker) (ev : cb_event) : circuit_breaker * bool :=
  match ev with
  | EvCheck now => let '(cb, skip) := cb_should_skip now cb in (cb, negb skip)
  | EvFailure now => (fst (cb_failure now cb), false)
  | EvSuccess => (fst (cb_success cb), false)
  | EvOriginError thr now => (fst (cb_origin_error thr now cb), false)
  | EvOriginSuccess => (fst (cb_origin_success cb), false)
  | EvHeal now => (fst (circuit_breaker_proactive_heal now cb), false)
  end.

(** The breaker and the requests let through since it last opened. *)
Definition watch (s : circuit_breaker * Z) (ev : cb_event) : circuit_breaker * Z :=
  let '(cb, n) := s in
  let '(cb', pass) := cb_event_step cb ev in
  (cb', if decide (cb_st cb' = CB_STATE_OPEN) then 0 else n + Z.b2z pass).

Definition same_settings (cb cb' : circuit_breaker) : Prop :=
  half_open_max_requests cb' = half_open_max_requests cb ∧ open_timeout_sec cb' = open_timeout_sec cb ∧ failure_threshold cb' = failure_threshold cb ∧
  success_threshold cb' = success_threshold cb.

Lemma event_settings cb ev : same_settings cb (fst (cb_event_step cb ev)).
Proof.
  unfold same_settings. destruct ev; cbn [cb_event_step]; unfold cb_should_skip, cb_failure, cb_success, cb_origin_error, circuit_breaker_origin_note_error, cb_origin_success,
    circuit_breaker_origin_note_success, circuit_breaker_proactive_heal; cbn; repeat (case_match; cbn; simplify_eq; try done).
Qed.

Definition budget (s : circuit_breaker * Z) : Prop :=
  match cb_st (fst s) with
  | CB_STATE_OPEN => snd s = 0
  | CB_STATE_HALF_OPEN => snd s = half_open_requests (fst s) ∧ 0 ≤ snd s ≤ half_open_max_requests (fst s)
  | CB_STATE_CLOSED => True
  end.

Lemma watch_budget s ev : 1 ≤ half_open_max_requests (fst s) < 4294967296 → budget s → budget (watch s ev).
Proof.
  destruct s as [cb n]. unfold budget, watch. cbn [fst snd]. intros Hm Hb.
  destruct ev as [now|now| |thr now| |now]; cbn [cb_event_step]; unfold cb_should_skip, cb_failure, cb_success, cb_origin_error, circuit_breaker_origin_note_error,
    cb_origin_success, circuit_breaker_origin_note_success, circuit_breaker_proactive_heal; cbn; destruct (cb_st cb) eqn:Es; cbn in *;
    repeat (case_test; cbn in *); rewrite ?Es; cbn in *; zbool; try done; try lia.
  all: first [congruence|rewrite u32_small by lia; lia].
Qed.

(** An open breaker that is only asked before its timeout stays as it is. *)
Definition early (cb : circuit_breaker) (ev : cb_event) : Prop :=
  match ev with EvCheck now | EvHeal now => now < open_ts cb + open_timeout_sec cb | _ => True end.

Lemma early_step cb ev :
  cb_st cb = CB_STATE_OPEN → early cb ev →
  let '(cb', pass) := cb_event_step cb ev in
  cb_st cb' = CB_STATE_OPEN ∧ pass = false ∧ open_ts cb' = open_ts cb ∧ open_timeout_sec cb' = open_timeout_sec cb.
Proof.
  intros Hs He. destruct ev as [now|now| |thr now| |now]; cbn [cb_event_step early] in *; unfold cb_should_skip, cb_failure, cb_success, cb_origin_error,
    circuit_breaker_origin_note_error, cb_origin_success, circuit_breaker_origin_note_success, circuit_breaker_proactive_heal; cbn; rewrite ?Hs; cbn.
  - unfold open_over. rewrite Z.geb_leb, (proj2 (Z.leb_gt _ _)) by lia. done.
  - done.
  - done.
  - destruct (thr <=? 0); cbn; by rewrite ?Hs.
  - done.
  - unfold open_over. rewrite Z.geb_leb, (proj2 (Z.leb_gt _ _)) by lia. done.
Qed.

(** An origin trip ends by an origin success only. *)
Lemma origin_step cb ev :
  cb_st cb ≠ CB_STATE_CLOSED → origin_tripped cb = true → ev ≠ EvOriginSuccess →
  cb_st (fst (cb_event_step cb ev)) ≠ CB_STATE_CLOSED ∧ origin_tripped (fst (cb_event_step cb ev)) = true.
Proof.
  intros Hs Ho Hne. destruct ev as [now|now| |thr now| |now]; [| | | |by destruct Hne|]; cbn [cb_event_step]; unfold cb_should_skip, cb_failure, cb_success, cb_origin_error,
    circuit_breaker_origin_note_error, circuit_breaker_proactive_heal; cbn; destruct (cb_st cb) eqn:Es; try done; cbn; rewrite ?Ho; repeat (case_test; cbn); rewrite ?Es, ?Ho; cbn; rewrite ?Es, ?Ho; split; try done; congruence.
Qed.

(** C33. From the moment the breaker opens, in any order of checks, connect and
    origin results and health passes: while it is open nothing has been let
    through since, and while it is half-open no more than the allowed probes
    have; asked only before the timeout, it stays open; and opened by origin
    errors, it closes on an origin success only, whatever connects succeed. *)
Theorem breaker_probe_budget cb evs :
  cb_st cb = CB_STATE_OPEN → 1 ≤ half_open_max_requests cb < 4294967296 →
  let '(cb', n) := foldl watch (cb, 0) evs in
  (cb_st cb' = CB_STATE_OPEN → n = 0) ∧
  (cb_st cb' = CB_STATE_HALF_OPEN → 0 ≤ n ≤ half_open_max_requests cb) ∧
  (Forall (early cb) evs → cb_st cb' = CB_STATE_OPEN ∧ n = 0) ∧
  (origin_tripped cb = true → EvOriginSuccess ∉ evs → cb_st cb' ≠ CB_STATE_CLOSED).
Proof.
  intros Hs Hm. assert (Hb : ∀ evs s, 1 ≤ half_open_max_requests (fst s) < 4294967296 → budget s →
    budget (foldl watch s evs) ∧ half_open_max_requests (fst (foldl watch s evs)) = half_open_max_requests (fst s)).
  { clear. induction evs as [|ev evs IH]; intros s Hm Hb; [done|]. cbn [foldl]. assert (Hk : half_open_max_requests (fst (watch s ev)) = half_open_max_requests (fst s)).
    { destruct s as [cb n]. unfold watch. destruct (event_settings cb ev) as [Hk _]. by destruct (cb_event_step cb ev). }
    destruct (IH (watch s ev)) as [H1 H2]; [by rewrite Hk|by apply watch_budget|]. split; [done|]. by rewrite H2. }
  assert (He : ∀ evs c, cb_st c = CB_STATE_OPEN → open_ts c + open_timeout_sec c = open_ts cb + open_timeout_sec cb → Forall (early cb) evs →
    cb_st (fst (foldl watch (c, 0) evs)) = CB_STATE_OPEN ∧ snd (foldl watch (c, 0) evs) = 0).
  { clear Hs Hm Hb. intros evs'. induction evs' as [|ev evs' IH]; intros c Hc Ht Hf; [done|]. cbn [foldl]. apply list.Forall_cons in Hf as [Hf1 Hf2].
    assert (Hev : early c ev) by (destruct ev; cbn in *; lia || done). pose proof (early_step c ev Hc Hev) as Hst. unfold watch at 2 4. destruct (cb_event_step c ev) as [c' pass].
    destruct Hst as (H1 & -> & H3 & H4). rewrite decide_True by done. apply IH; [done|lia|done]. }
  assert (Ho : ∀ evs s, cb_st (fst s) ≠ CB_STATE_CLOSED → origin_tripped (fst s) = true → EvOriginSuccess ∉ evs → cb_st (fst (foldl watch s evs)) ≠ CB_STATE_CLOSED).
  { clear. intros evs. induction evs as [|ev evs IH]; intros s H1 H2 H3; [done|]. cbn [foldl]. apply not_elem_of_cons in H3 as [H3 H4].
    destruct s as [c n]. destruct (origin_step c ev H1 H2 (not_eq_sym H3)) as [H5 H6]. apply IH; [|by unfold watch; destruct (cb_event_step c ev)|done]. by unfold watch; destruct (cb_event_step c ev). }
  destruct (Hb evs (cb, 0) Hm) as [H1 H2]; [unfold budget; cbn; by rewrite Hs|]. specialize (He evs cb Hs eq_refl). specialize (Ho evs (cb, 0)).
  destruct (foldl watch (cb, 0) evs) as [cb' n]. unfold budget in H1. cbn [fst snd] in *. split_and!.
  - intros E. by rewrite E in H1.
  - intros E. rewrite E in H1. lia.
  - exact He.
  - intros E1 E2. apply Ho; [by rewrite Hs|done|done].
Qed.

(** ** The choice *)

(** An endpoint that is up and whose breaker would let a request through. *)
Definition healthy (now : Z) (p : bpool) (ep : Z) : bool := (zget (bp_inv p) ep =? 0) && circuit_breaker_candidate now ep p.

(** Asking about an endpoint answers whether it is healthy, and a refusal leaves
    the pool as it was. *)
Lemma is_healthy_spec now ep p :
  0 ≤ ep < bp_n_eps p → bp_n_eps p ≤ MAX_PROXY_EP → zlen (bp_cbs p) = MAX_PROXY_EP →
  snd (is_endpoint_healthy now ep p) = healthy now p ep ∧ (healthy now p ep = false → fst (is_endpoint_healthy now ep p) = p).
Proof.
  intros He Hn Hl. unfold is_endpoint_healthy, healthy, circuit_breaker_candidate, circuit_breaker_should_skip.
  assert (Hin : ep_in p ep = true) by (unfold ep_in; rewrite !andb_true_iff, Z.leb_le, !Z.ltb_lt; lia). rewrite Hin. cbn [negb].
  rewrite (proj2 (orb_false_iff (ep <? 0) _)) by (split; [apply Z.ltb_ge; lia|rewrite Z.geb_leb; apply Z.leb_gt; lia]).
  destruct (zget (bp_inv p) ep =? 0); cbn [negb andb]; [|done]. destruct (bp_enabled p); cbn [negb]; [|done]. unfold cb_should_skip.
  assert (Hself : set_cb ep (bp_cb p ep) p = p).
  { unfold set_cb, bp_cb. unfold MAX_PROXY_EP in *. destruct p. cbn in *. f_equal. apply zset_self. lia. }
  destruct (cb_st (bp_cb p ep)) eqn:Es; cbn.
  - done.
  - destruct (open_over (bp_cb p ep) now); cbn; [done|]. split; [done|]. by intros _.
  - rewrite Z.geb_leb. destruct (half_open_max_requests (bp_cb p ep) <=? half_open_requests (bp_cb p ep)) eqn:E; zbool; cbn.
    + rewrite (proj2 (Z.ltb_ge _ _)) by lia. split; [done|]. by intros _.
    + rewrite (proj2 (Z.ltb_lt _ _)) by lia. done.
Qed.

Lemma healthy_n_eps now ep p : bp_n_eps (fst (is_endpoint_healthy now ep p)) = bp_n_eps p.
Proof.
  unfold is_endpoint_healthy, circuit_breaker_should_skip. destruct (_ || _); [done|]. destruct (negb _); [done|]. destruct (negb (ep_in p ep)); [done|].
  destruct (negb (bp_enabled p)); [done|]. destruct (cb_should_skip now (bp_cb p ep)) as [cb skip]. cbn. by destruct (_ && _).
Qed.

(** The reference: the algorithm's own choice if it is healthy, else the lowest
    healthy endpoint. *)
Fixpoint first_healthy (now : Z) (p : bpool) (eps : list Z) : Z :=
  match eps with [] => -1 | ep :: eps => if healthy now p ep then ep else first_healthy now p eps end.
Definition choose (now sel : Z) (p : bpool) : Z :=
  if (0 <=? sel) && (sel <? bp_n_eps p) && healthy now p sel then sel else first_healthy now p (zseq (bp_n_eps p)).

Lemma next_healthy_spec now p idxs :
  0 < bp_n_eps p ≤ MAX_PROXY_EP → zlen (bp_cbs p) = MAX_PROXY_EP → (∀ i, i ∈ idxs → 0 ≤ i < bp_n_eps p) →
  next_healthy now 0 idxs p =
    let r := first_healthy now p idxs in (if r =? -1 then p else fst (is_endpoint_healthy now r p), r).
Proof.
  intros Hn Hl. induction idxs as [|i idxs IH]; intros Hi; [done|]. cbn [next_healthy first_healthy]. assert (Hri : 0 ≤ i < bp_n_eps p) by (apply Hi; left).
  rewrite Z.mod_small by lia. change (0 + i) with i. destruct (is_healthy_spec now i p Hri ltac:(lia) Hl) as [H1 H2].
  destruct (is_endpoint_healthy now i p) as [p1 ok] eqn:E. cbn in H1, H2. subst ok. destruct (healthy now p i).
  - cbn zeta. rewrite (proj2 (Z.eqb_neq i (-1))) by lia. by rewrite E.
  - rewrite H2 by done. apply IH. intros j Hj. apply Hi. by right.
Qed.

Lemma first_healthy_range now p eps : first_healthy now p eps = -1 ∨ (first_healthy now p eps ∈ eps ∧ healthy now p (first_healthy now p eps) = true).
Proof.
  induction eps as [|e eps IH]; cbn; [by left|]. destruct (healthy now p e) eqn:E; [right; split; [left|done]|].
  destruct IH as [IH|[IH1 IH2]]; [by left|right]. split; [by right|done].
Qed.

Lemma first_healthy_none now p eps : (∀ e, e ∈ eps → 0 ≤ e) → first_healthy now p eps = -1 → ∀ e, e ∈ eps → healthy now p e = false.
Proof.
  induction eps as [|x eps IH]; cbn; intros Hr Hf e He; [by apply elem_of_nil in He|]. destruct (healthy now p x) eqn:E.
  - exfalso. specialize (Hr x (list_elem_of_here _ _)). lia.
  - apply elem_of_cons in He as [->|He]; [done|]. apply IH; [intros y Hy; apply Hr; by right|done|done].
Qed.

(** The choice of a healthy endpoint is the reference: the algorithm's own
    choice when it is up and its breaker would let the request through, else the
    lowest such endpoint; it gives up only when there is none, and then the pool
    is as it was; otherwise the only change is the one request let through. *)
Theorem select_healthy_endpoint_exact now sel p :
  0 < bp_n_eps p ≤ MAX_PROXY_EP → zlen (bp_cbs p) = MAX_PROXY_EP →
  let '(p', r) := select_healthy_endpoint now sel p in
  r = choose now sel p ∧
  ((r = -1 ∧ p' = p ∧ ∀ ep, 0 ≤ ep < bp_n_eps p → healthy now p ep = false) ∨
   (0 ≤ r < bp_n_eps p ∧ healthy now p r = true ∧ p' = fst (is_endpoint_healthy now r p))).
Proof.
  intros Hn Hl. unfold select_healthy_endpoint, choose. unfold MAX_PROXY_EP in *.
  rewrite (proj2 (orb_false_iff (bp_n_eps p <=? 0) _)) by (split; [apply Z.leb_gt; lia|rewrite Z.gtb_ltb; apply Z.ltb_ge; lia]). rewrite (Z.geb_leb sel 0).
  set (inr := (0 <=? sel) && (sel <? bp_n_eps p)).
  assert (Hsel : ∃ p1, (if inr then is_endpoint_healthy now sel p else (p, false)) = (p1, inr && healthy now p sel) ∧ (inr && healthy now p sel = false → p1 = p) ∧
            (inr && healthy now p sel = true → p1 = fst (is_endpoint_healthy now sel p))).
  { destruct inr eqn:Ei; [|by exists p]. unfold inr in Ei. apply andb_true_iff in Ei as [E1 E2]. zbool.
    destruct (is_healthy_spec now sel p ltac:(lia) ltac:(unfold MAX_PROXY_EP; lia) Hl) as [H1 H2]. destruct (is_endpoint_healthy now sel p) as [p1 ok]. cbn in H1, H2. subst ok. exists p1. done. }
  destruct Hsel as (p1 & -> & Hno & Hyes). destruct (inr && healthy now p sel) eqn:Ei.
  - split; [done|]. right. apply andb_true_iff in Ei as [Ei Eh]. unfold inr in Ei. apply andb_true_iff in Ei as [E1 E2]. zbool. split_and!; [lia..|done|by apply Hyes].
  - rewrite (Hno eq_refl). unfold find_next_healthy_endpoint. rewrite (proj2 (Z.eqb_neq _ 0)) by lia.
    rewrite next_healthy_spec by (unfold MAX_PROXY_EP; try lia; try done; intros i Hi; by apply zseq_in). cbn zeta. set (r := first_healthy now p _).
    destruct (first_healthy_range now p (zseq (bp_n_eps p))) as [Hr|[Hr Hh]]; fold r in Hr.
    + rewrite Hr. cbn. split; [done|]. left. split_and!; [done..|]. intros ep He. eapply first_healthy_none; [|exact Hr|by apply zseq_in]. intros e Hin%zseq_in. lia.
    + apply zseq_in in Hr. fold r in Hh. rewrite (proj2 (Z.eqb_neq r (-1))) by lia. rewrite healthy_n_eps.
      rewrite (proj2 (andb_false_iff (r >=? 0) _)) by (right; rewrite Z.geb_leb; apply Z.leb_gt; lia).
      split; [done|]. right. split_and!; [lia..|done|done].
Qed.

(** ** Witnesses *)

(** Two endpoints, the first down, and a tree that names the second. *)
Definition two_eps : bpool := mk_bpool 2 true (zrep MAX_PROXY_EP (circuit_breaker_init <| failure_threshold := 2 |>)) [1; 0] (Some trie_a) fc_state_zero [] 0.
Definition three_failures : list outcome := [Failed 10; Connected; Failed 11; Failed 12].

Lemma breaker_opens_exactly_witness :
  cb_st (bp_cb (foldl (pool_outcome (fun _ => true) 7 1) two_eps three_failures) 1) = CB_STATE_OPEN ∧
  ¬ never_runs 2 0 three_failures ∧
  ∀ t text, bp_trie (foldl (pool_outcome (fun _ => true) 7 1) two_eps three_failures) = Some t → ¬ recorded t text 1.
Proof.
  destruct (breaker_opens_exactly (fun _ => true) 7 1 three_failures two_eps) as (H1 & H2 & _).
  - split; reflexivity.
  - reflexivity.
  - reflexivity.
  - vm_compute. split; [discriminate|reflexivity].
  - intros t Ht. injection Ht as <-. exact trie_a_ok.
  - assert (Ho : cb_st (bp_cb (foldl (pool_outcome (fun _ => true) 7 1) two_eps three_failures) 1) = CB_STATE_OPEN) by (vm_compute; reflexivity).
    split; [exact Ho|]. split; [intros Hn; apply H1 in Hn; rewrite Ho in Hn; discriminate|]. apply H2. rewrite Ho. discriminate.
Defined.

(** Opened at 100 for 30 seconds. *)
Definition opened : circuit_breaker := circuit_breaker_init <| cb_st := CB_STATE_OPEN |> <| open_ts := 100 |> <| origin_tripped := true |>.
Definition five_checks : list cb_event := [EvCheck 110; EvHeal 131; EvCheck 131; EvCheck 131; EvSuccess; EvCheck 131; EvCheck 132].

Lemma breaker_probe_budget_witness :
  snd (foldl watch (opened, 0) five_checks) = 3 ∧ cb_st (fst (foldl watch (opened, 0) five_checks)) ≠ CB_STATE_CLOSED.
Proof.
  pose proof (breaker_probe_budget opened five_checks eq_refl) as H. split; [reflexivity|].
  destruct (foldl watch (opened, 0) five_checks) as [cb' n]. destruct H as (_ & _ & _ & H); [vm_compute; split; [discriminate|reflexivity]|].
  cbn [fst]. apply H; [reflexivity|]. unfold five_checks. intros Hin. repeat (apply elem_of_cons in Hin as [Hin|Hin]; [discriminate|]). by apply elem_of_nil in Hin.
Defined.

Lemma select_healthy_endpoint_exact_witness : snd (select_healthy_endpoint 50 0 two_eps) = 1 ∧ healthy 50 two_eps 1 = true.
Proof.
  pose proof (select_healthy_endpoint_exact 50 0 two_eps) as H. assert (Hs : snd (select_healthy_endpoint 50 0 two_eps) = 1) by (vm_compute; reflexivity).
  split; [exact Hs|]. destruct (select_healthy_endpoint 50 0 two_eps) as [p' r]. cbn in Hs. subst r.
  destruct H as [_ [(? & _)|(_ & H & _)]]; [vm_compute; split; [reflexivity|discriminate]|reflexivity|discriminate|exact H].
Defined.

(** ** A half-open breaker whose probes say nothing *)

(** The events that report neither a connect failure nor an origin result the
    breaker counts: checks, health passes and, on an origin trip, connect
    successes. *)
Definition silent (cb : circuit_breaker) (ev : cb_event) : Prop :=
  match ev with EvCheck _ | EvHeal _ => True | EvSuccess => origin_tripped cb = true | _ => False end.

(** Once the allowed probes are taken, and they end in nothing the breaker counts
    (a request that is dropped, an answer between 400 and 499 on an origin trip),
    the breaker is half-open for good: every later check skips the endpoint, at
    any time, and the health pass does not touch it. *)
Theorem breaker_half_open_wedges cb evs :
  cb_st cb = CB_STATE_HALF_OPEN → half_open_max_requests cb ≤ half_open_requests cb → Forall (silent cb) evs →
  foldl (fun cb ev => fst (cb_event_step cb ev)) cb evs = cb ∧ ∀ now, cb_event_step cb (EvCheck now) = (cb, false).
Proof.
  intros Hs Hm Hf. assert (Hc : ∀ now, cb_event_step cb (EvCheck now) = (cb, false)).
  { intros now. cbn. unfold cb_should_skip. by rewrite Hs, Z.geb_leb, (proj2 (Z.leb_le _ _)) by done. }
  split; [|done]. induction Hf as [|ev evs Hev Hf IH]; [done|]. cbn [foldl].
  assert (Hone : fst (cb_event_step cb ev) = cb).
  { destruct ev as [now|now| |thr now| |now]; cbn in Hev; try done; [by rewrite Hc| |].
    - cbn. unfold cb_success. by rewrite Hs, Hev.
    - cbn. unfold circuit_breaker_proactive_heal. by rewrite Hs. }
  by rewrite Hone.
Qed.

(** Three probes of an origin-tripped breaker answered with 404. *)
Lemma breaker_half_open_wedges_witness :
  let cb := foldl (fun cb ev => fst (cb_event_step cb ev)) opened [EvCheck 131; EvSuccess; EvCheck 132; EvSuccess; EvCheck 133; EvSuccess] in
  cb_st cb = CB_STATE_HALF_OPEN ∧ cb_event_step cb (EvCheck 1000000) = (cb, false).
Proof.
  cbn zeta. set (cb := foldl _ _ _). split; [reflexivity|].
  exact (proj2 (breaker_half_open_wedges cb [] eq_refl ltac:(vm_compute; discriminate) (Forall_nil_2 _)) 1000000).
Defined.
