(* ===== verification/Wrr.v ===== *)
(** * Smooth weighted round-robin (src/common/sockproxy_lb.c)

    The pool as the balancers see it (its endpoints and weights beside the
    breakers of [Breaker]) and the weighted round-robin: the weights' greatest
    common divisor and maximum, the start state and the selection, with the
    endpoints a health flag or an open breaker takes out. The theorems: a run of
    as many selections as the weights add up to gives every usable endpoint
    exactly its weight and comes back to the start, at no moment is an endpoint
    more than one turn ahead of its share, and no counter leaves the C int. *)

From stdpp Require Import base list gmap numbers.
From S2P Require Import Prelude FcTypes Breaker.

(** ** The pool *)

(** One of eps[]; its [inv] flag is with the breakers ([bp_inv]). *)
Record proxy_ep := mk_proxy_ep { xip : Z; xport : Z; weight : Z }.
#[export] Instance proxy_ep_eta : RecordEta proxy_ep := fun r => mk_proxy_ep (xip r) (xport r) (weight r).
#[export] Instance proxy_ep_inhabited : Inhabited proxy_ep := populate (mk_proxy_ep 0 0 0).

(** The round-robin's part of proxy_epval_t. *)
Record wpool := mk_wpool {
  w_b : bpool;
  w_eps : list proxy_ep;
  wrr_current_weights : list Z;
  wrr_gcd_ : Z;
  wrr_max_weight : Z;
  wrr_initialized : bool
}.
#[export] Instance wpool_eta : RecordEta wpool := fun r =>
  mk_wpool (w_b r) (w_eps r) (wrr_current_weights r) (wrr_gcd_ r) (wrr_max_weight r) (wrr_initialized r).

Definition n_eps (w : wpool) : Z := bp_n_eps (w_b w).
Definition ep_weight (w : wpool) (i : Z) : Z := weight (zget (w_eps w) i).
Definition cur_weight (w : wpool) (i : Z) : Z := zget (wrr_current_weights w) i.

(** ** The weights *)

(** while (b != 0): [b] falls at each turn, so [b] turns are enough. *)
Fixpoint gcd_loop (fuel : nat) (a b : Z) : Z :=
  match fuel with
  | O => a
  | S fuel => if b =? 0 then a else gcd_loop fuel b (Z.rem a b)
  end.
Definition wrr_gcd (a b : Z) : Z := gcd_loop (S (Z.to_nat b)) a b.

(** eps[i].weight ? eps[i].weight : 1 *)
Definition weight_or_1 (w : wpool) (i : Z) : Z := if ep_weight w i =? 0 then 1 else ep_weight w i.

Definition wrr_calculate_gcd_weights (w : wpool) : Z :=
  if n_eps w =? 0 then 1
  else
    let r := foldl (fun r i => wrr_gcd r (weight_or_1 w i)) (weight_or_1 w 0) (drop 1 (zseq (n_eps w))) in
    if r =? 0 then 1 else r.

Definition wrr_find_max_weight (w : wpool) : Z :=
  let m := foldl (fun m i => if weight_or_1 w i >? m then weight_or_1 w i else m) 0 (zseq (n_eps w)) in
  if m =? 0 then 1 else m.

(** The loop of wrr_init_state on one endpoint. *)
Definition init_ep (w : wpool) (i : Z) : wpool :=
  (if ep_weight w i =? 0 then w <| w_eps ::= (fun l => zmod l i (fun e => e <| weight := 1 |>)) |> else w)
    <| wrr_current_weights ::= (fun l => zset l i 0) |>.

Definition wrr_init_state (w : wpool) : wpool :=
  let w := foldl init_ep w (zseq (n_eps w)) in
  w <| wrr_gcd_ := wrr_calculate_gcd_weights w |> <| wrr_max_weight := wrr_find_max_weight w |> <| wrr_initialized := true |>.

Definition wrr_recalculate_state (w : wpool) : wpool :=
  if negb (wrr_initialized w) then w
  else
    let w := w <| wrr_gcd_ := wrr_calculate_gcd_weights w |> <| wrr_max_weight := wrr_find_max_weight w |> in
    foldl (fun w i => w <| wrr_current_weights ::= (fun l => zset l i 0) |>) w (zseq (n_eps w)).

(** ** The selection *)

Definition INT_MIN : Z := -2147483648.

(** An endpoint the loop does not [continue] past. *)
Definition wrr_usable (w : wpool) (i : Z) : bool :=
  (zget (bp_inv (w_b w)) i =? 0) &&
  negb (bp_enabled (w_b w) && bool_decide (cb_st (bp_cb (w_b w) i) = CB_STATE_OPEN)).

(** The loop's locals. *)
Record wrr_scan := mk_wrr_scan { sc_w : wpool; sc_total : Z; sc_sel : Z; sc_max : Z }.

Definition scan_ep (s : wrr_scan) (i : Z) : wrr_scan :=
  let w := sc_w s in
  if negb (wrr_usable w i) then s
  else
    let c := s32 (cur_weight w i + ep_weight w i) in
    let w := w <| wrr_current_weights ::= (fun l => zset l i c) |> in
    let total := s32 (sc_total s + ep_weight w i) in
    if c >? sc_max s then mk_wrr_scan w total i c else mk_wrr_scan w total (sc_sel s) (sc_max s).

Definition wrr_select_endpoint (w : wpool) : wpool * Z :=
  if negb (wrr_initialized w) then (w, -1)
  else
    let s := foldl scan_ep (mk_wrr_scan w 0 (-1) INT_MIN) (zseq (n_eps w)) in
    if (sc_sel s <? 0) || (sc_total s =? 0) then (sc_w s, -1)
    else ((sc_w s) <| wrr_current_weights ::= (fun l => zmod l (sc_sel s) (fun c => s32 (c - sc_total s))) |>, sc_sel s).

(** [k] selections in a row: the pool after them and the endpoints chosen. *)
Fixpoint wrr_run (k : nat) (w : wpool) : wpool * list Z :=
  match k with
  | O => (w, [])
  | S k => let '(w, e) := wrr_select_endpoint w in let '(w, es) := wrr_run k w in (w, e :: es)
  end.

(** The loop is Euclid's. *)
Lemma gcd_loop_gcd fuel a b : 0 ≤ a → 0 ≤ b < Z.of_nat fuel → gcd_loop fuel a b = Z.gcd a b.
Proof.
  revert a b. induction fuel as [|fuel IH]; intros a b Ha Hb; [lia|]. cbn [gcd_loop]. destruct (Z.eqb_spec b 0) as [->|Hne].
  - by rewrite Z.gcd_0_r, Z.abs_eq.
  - rewrite Z.rem_mod_nonneg by lia. pose proof (Z.mod_pos_bound a b ltac:(lia)). rewrite IH by lia.
    rewrite Z.gcd_comm, Z.gcd_mod by lia. by rewrite Z.gcd_comm.
Qed.

Lemma wrr_gcd_is_gcd a b : 0 ≤ a → 0 ≤ b → wrr_gcd a b = Z.gcd a b.
Proof. intros. apply gcd_loop_gcd; lia. Qed.

(** ** Shape *)

(** As proxy_add_entry leaves a pool: arrays of MAX_PROXY_EP, one endpoint at
    least, 8-bit weights. *)
Record wpool_ok (w : wpool) : Prop := {
  wo_n : 0 < n_eps w ≤ MAX_PROXY_EP;
  wo_eps : zlen (w_eps w) = MAX_PROXY_EP;
  wo_cw : zlen (wrr_current_weights w) = MAX_PROXY_EP;
  wo_weight : ∀ i, 0 ≤ i < n_eps w → 0 ≤ ep_weight w i < 256
}.

(** The endpoints a selection may choose, and what their weights add up to. *)
Definition usable_eps (w : wpool) : list Z := List.filter (wrr_usable w) (zseq (n_eps w)).
Definition total_weight (w : wpool) : Z := sumz (weight_or_1 w) (usable_eps w).

(** Turns of [i] among the choices. *)
Definition turns (i : Z) (es : list Z) : Z := zcount (Z.eqb i) es.

Lemma usable_in w i : i ∈ usable_eps w ↔ 0 ≤ i < n_eps w ∧ wrr_usable w i = true.
Proof.
  unfold usable_eps. rewrite list_elem_of_In, filter_In, <- list_elem_of_In, zseq_in. done.
Qed.

(** ** One selection *)

(** The scan over [l]: who was raised, by how much, and who leads. *)
Record scanned (w : wpool) (l : list Z) (s : wrr_scan) : Prop := {
  sd_same : w_b (sc_w s) = w_b w ∧ w_eps (sc_w s) = w_eps w ∧ wrr_initialized (sc_w s) = wrr_initialized w;
  sd_len : zlen (wrr_current_weights (sc_w s)) = zlen (wrr_current_weights w);
  sd_total : sc_total s = sumz (ep_weight w) (List.filter (wrr_usable w) l);
  sd_cw : ∀ i, 0 ≤ i < n_eps w → cur_weight (sc_w s) i = cur_weight w i + (if bool_decide (i ∈ l) && wrr_usable w i then ep_weight w i else 0);
  sd_max : List.filter (wrr_usable w) l = [] ∧ sc_sel s = -1 ∧ sc_max s = INT_MIN ∨
    sc_sel s ∈ List.filter (wrr_usable w) l ∧ sc_max s = cur_weight w (sc_sel s) + ep_weight w (sc_sel s) ∧
    ∀ i, i ∈ List.filter (wrr_usable w) l → cur_weight w i + ep_weight w i ≤ sc_max s
}.

(** The counters leave room for one more selection. *)
Definition roomy (w : wpool) : Prop := ∀ i, 0 ≤ i < n_eps w → -1000000 ≤ cur_weight w i ≤ 1000000.

Lemma s32_id z : -2147483648 ≤ z < 2147483648 → s32 z = z.
Proof.
  intros Hz. destruct (decide (0 ≤ z)); [apply s32_small; lia|]. unfold s32, u32.
  replace (z mod 4294967296) with (z + 4294967296) by (apply Z.mod_unique with (-1); lia). rewrite (proj2 (Z.ltb_ge _ _)) by lia. lia.
Qed.

Lemma filter_snoc (P : Z → bool) l i : List.filter P (l ++ [i]) = List.filter P l ++ (if P i then [i] else []).
Proof. rewrite List.filter_app. cbn. by destruct (P i). Qed.

Lemma scan_step w l i s :
  wpool_ok w → roomy w → scanned w l s → 0 ≤ i < n_eps w → i ∉ l → (∀ j, j ∈ l → 0 ≤ j < n_eps w) → zlen l ≤ MAX_PROXY_EP →
  scanned w (l ++ [i]) (scan_ep s i).
Proof.
  intros [Hn Hle Hlc Hw] Hr [(Hb & He & Hi0) Hlen Ht Hc Hm] Hi Hil Hl Hll. unfold scan_ep.
  assert (Hu : wrr_usable (sc_w s) i = wrr_usable w i) by (unfold wrr_usable; by rewrite Hb). rewrite Hu.
  assert (Hpre : 0 ≤ sumz (ep_weight w) (List.filter (wrr_usable w) l) ≤ 256 * 32).
  { split; [apply sumz_nonneg; intros j Hj; apply list_elem_of_In, filter_In in Hj as [Hj _]; apply list_elem_of_In in Hj; specialize (Hl j Hj); pose proof (Hw j ltac:(lia)); lia|].
    transitivity (sumz (λ _, 256) (List.filter (wrr_usable w) l)).
    - apply sumz_le. intros j Hj. apply list_elem_of_In, filter_In in Hj as [Hj _]. apply list_elem_of_In in Hj. specialize (Hl j Hj). pose proof (Hw j ltac:(lia)). lia.
    - rewrite sumz_const. unfold zlen, MAX_PROXY_EP in *. pose proof (List.filter_length_le (wrr_usable w) l). lia. }
  destruct (wrr_usable w i) eqn:E; cbn [negb].
  2: { split; [done|done| | |]; rewrite ?filter_snoc, ?E, ?app_nil_r; [done| |done].
       intros j Hj. rewrite Hc by done. destruct (decide (j = i)) as [->|Hne]; [by rewrite E, !andb_false_r|].
       rewrite (bool_decide_ext (j ∈ l ++ [i]) (j ∈ l)) by set_solver. done. }
  assert (Hci : cur_weight (sc_w s) i = cur_weight w i) by (rewrite Hc, bool_decide_eq_false_2 by done; cbn; lia).
  assert (Hwi : ep_weight (sc_w s) i = ep_weight w i) by (unfold ep_weight; by rewrite He).
  pose proof (Hw i Hi) as Hwb. pose proof (Hr i Hi) as Hcb. rewrite Hci, Hwi, s32_id by lia.
  assert (Hi' : 0 ≤ i < zlen (wrr_current_weights (sc_w s))) by (unfold MAX_PROXY_EP in *; lia).
  assert (Hwi2 : ∀ f : list Z → list Z, ep_weight ((sc_w s) <| wrr_current_weights ::= f |>) i = ep_weight w i) by (intros; unfold ep_weight; cbn; by rewrite He).
  assert (Hcw : ∀ j, 0 ≤ j < n_eps w →
    zget (zset (wrr_current_weights (sc_w s)) i (cur_weight w i + ep_weight w i)) j =
    cur_weight w j + (if bool_decide (j ∈ l ++ [i]) && wrr_usable w j then ep_weight w j else 0)).
  { intros j Hj. destruct (decide (j = i)) as [->|Hne].
    - rewrite zget_zset_eq by lia. rewrite bool_decide_eq_true_2 by set_solver. by rewrite E.
    - rewrite zget_zset_ne by lia. fold (cur_weight (sc_w s) j). rewrite Hc by done. rewrite (bool_decide_ext (j ∈ l ++ [i]) (j ∈ l)) by set_solver. done. }
  rewrite Z.gtb_ltb. destruct (sc_max s <? cur_weight w i + ep_weight w i) eqn:Em; zbool; (split; cbn [sc_w sc_total sc_sel sc_max];
    [done|cbn; by rewrite zlen_zset|rewrite Hwi2, Ht, s32_id by lia; rewrite filter_snoc, E, sumz_app; cbn; lia|exact Hcw|]); right; rewrite filter_snoc, E.
  - split_and!; [set_solver|done|]. intros j Hj. apply elem_of_app in Hj as [Hj|Hj]; [|set_solver].
    destruct Hm as [(Hm & _ & _)|(_ & _ & Hm)]; [rewrite Hm in Hj; set_solver|]. specialize (Hm j Hj). lia.
  - destruct Hm as [(_ & _ & Hm)|(Hm1 & Hm2 & Hm3)]; [unfold INT_MIN in *; lia|]. split_and!; [set_solver|done|]. intros j Hj.
    apply elem_of_app in Hj as [Hj|Hj]; [by apply Hm3|]. apply list_elem_of_singleton in Hj as ->. lia.
Qed.

Lemma wrr_scan_all w : wpool_ok w → roomy w → scanned w (zseq (n_eps w)) (foldl scan_ep (mk_wrr_scan w 0 (-1) INT_MIN) (zseq (n_eps w))).
Proof.
  intros Hok Hr. pose proof (wo_n w Hok) as Hn.
  assert (Hk : ∀ k : nat, Z.of_nat k ≤ n_eps w → scanned w (zseq (Z.of_nat k)) (foldl scan_ep (mk_wrr_scan w 0 (-1) INT_MIN) (zseq (Z.of_nat k)))).
  { induction k as [|k IH]; intros Hk.
    - split; [done|done|done| |by left]. intros i Hi. change (zseq (Z.of_nat 0)) with (@nil Z).
      rewrite bool_decide_eq_false_2 by set_solver. symmetry. apply Z.add_0_r.
    - replace (Z.of_nat (S k)) with (Z.of_nat k + 1) by lia. rewrite zseq_snoc by lia. rewrite foldl_app. cbn [foldl].
      apply scan_step; [done|done|apply IH; lia|lia| | |].
      + rewrite zseq_in. lia.
      + intros j. rewrite zseq_in. lia.
      + unfold zlen, zseq. rewrite length_fmap, length_seq. unfold MAX_PROXY_EP in *. lia. }
  specialize (Hk (Z.to_nat (n_eps w))). rewrite Z2Nat.id in Hk by lia. apply Hk. lia.
Qed.

(** What a selection does to the pool: [e] is chosen. *)
Record selected (w w' : wpool) (e : Z) : Prop := {
  se_same : w_b w' = w_b w ∧ w_eps w' = w_eps w ∧ wrr_initialized w' = true;
  se_len : zlen (wrr_current_weights w') = zlen (wrr_current_weights w);
  se_in : e ∈ usable_eps w;
  se_lead : ∀ i, i ∈ usable_eps w → cur_weight w i + ep_weight w i ≤ cur_weight w e + ep_weight w e;
  se_cw : ∀ i, i ∈ usable_eps w → cur_weight w' i = cur_weight w i + ep_weight w i - (if i =? e then sumz (ep_weight w) (usable_eps w) else 0);
  se_rest : ∀ i, 0 ≤ i < n_eps w → i ∉ usable_eps w → cur_weight w' i = cur_weight w i
}.

Lemma total_bounds w : wpool_ok w → 0 ≤ sumz (ep_weight w) (usable_eps w) ≤ 256 * 32.
Proof.
  intros [Hn _ _ Hw]. split; [apply sumz_nonneg; intros j Hj; apply usable_in in Hj as [Hj _]; apply Hw; lia|].
  transitivity (sumz (λ _, 256) (usable_eps w)).
  - apply sumz_le. intros j Hj. apply usable_in in Hj as [Hj _]. pose proof (Hw j Hj). lia.
  - rewrite sumz_const. unfold usable_eps, zlen. pose proof (List.filter_length_le (wrr_usable w) (zseq (n_eps w))) as H.
    unfold zseq in H at 2. rewrite length_fmap, length_seq in H. unfold MAX_PROXY_EP in *. lia.
Qed.

Lemma select_usable w :
  wpool_ok w → roomy w → wrr_initialized w = true → 0 < sumz (ep_weight w) (usable_eps w) →
  selected w (fst (wrr_select_endpoint w)) (snd (wrr_select_endpoint w)).
Proof.
  intros Hok Hr Hi Hpos. unfold wrr_select_endpoint. rewrite Hi. cbn [negb].
  pose proof (wrr_scan_all w Hok Hr) as Hs. set (s := foldl _ _ _) in *. destruct Hs as [(Hb & He & Hi') Hlen Ht Hc Hm].
  fold (usable_eps w) in Ht, Hm. pose proof (total_bounds w Hok) as Htb. rewrite Ht.
  destruct Hm as [(Hm & _)|(Hsel & Hmax & Hlead)]; [rewrite Hm in Hpos; cbn in Hpos; lia|].
  pose proof (proj1 (usable_in _ _) Hsel) as [Hrange _]. rewrite (proj2 (Z.ltb_ge _ _)) by lia. rewrite (proj2 (Z.eqb_neq _ _)) by lia.
  cbn [orb fst snd]. pose proof (wo_n w Hok). pose proof (wo_cw w Hok) as Hlc. unfold MAX_PROXY_EP in *.
  assert (Hcu : ∀ i, i ∈ usable_eps w → cur_weight (sc_w s) i = cur_weight w i + ep_weight w i).
  { intros i Hin. apply usable_in in Hin as [Hin Hu]. rewrite Hc by lia. rewrite bool_decide_eq_true_2 by (rewrite zseq_in; lia). by rewrite Hu. }
  split; cbn [w_b]; [cbn; by rewrite Hb, He, Hi'|cbn; unfold zmod; rewrite zlen_zset; done|done| | |].
  - intros i Hin. specialize (Hlead i Hin). lia.
  - intros i Hin. pose proof (proj1 (usable_in _ _) Hin) as [Hin' _]. unfold cur_weight at 1. cbn. unfold zmod. fold (cur_weight (sc_w s) (sc_sel s)).
    destruct (Z.eqb_spec i (sc_sel s)) as [->|Hne].
    + rewrite zget_zset_eq by lia. rewrite Hcu, s32_id by (done || (pose proof (Hr (sc_sel s) ltac:(lia)); pose proof (wo_weight w Hok (sc_sel s) ltac:(lia)); rewrite ?Hcu by done; lia)). lia.
    + rewrite zget_zset_ne by lia. fold (cur_weight (sc_w s) i). rewrite Hcu by done. lia.
  - intros i Hin Hnu. unfold cur_weight at 1. cbn. unfold zmod. rewrite zget_zset_ne; [|lia..|intros Heq; apply Hnu; by rewrite <- Heq].
    fold (cur_weight (sc_w s) i). rewrite Hc by lia. destruct (wrr_usable w i) eqn:E; [exfalso; apply Hnu, usable_in; by split|]. rewrite andb_false_r. lia.
Qed.

(** ** A run of selections *)

(** After [k] selections since the counters of the usable endpoints were zero,
    [es] chosen. *)
Record in_cycle (w0 w : wpool) (k : Z) (es : list Z) : Prop := {
  ic_same : w_b w = w_b w0 ∧ w_eps w = w_eps w0 ∧ wrr_initialized w = true;
  ic_len : zlen (wrr_current_weights w) = zlen (wrr_current_weights w0);
  ic_in : ∀ e, e ∈ es → e ∈ usable_eps w0;
  ic_cw : ∀ i, i ∈ usable_eps w0 → cur_weight w i = k * ep_weight w0 i - turns i es * sumz (ep_weight w0) (usable_eps w0);
  ic_low : ∀ i, i ∈ usable_eps w0 → - sumz (ep_weight w0) (usable_eps w0) < cur_weight w i;
  ic_rest : ∀ i, 0 ≤ i < n_eps w0 → i ∉ usable_eps w0 → cur_weight w i = cur_weight w0 i;
  ic_k : zlen es = k
}.

Lemma turns_total us es : NoDup us → (∀ e, e ∈ es → e ∈ us) → sumz (λ i, turns i es) us = zlen es.
Proof.
  intros Hnd. induction es as [|e es IH]; intros Hin.
  - unfold turns. cbn [zcount]. rewrite sumz_const. done.
  - unfold turns in *. cbn [zcount]. rewrite sumz_add, IH by (intros; apply Hin; by right). rewrite zlen_cons. f_equal.
    assert (He : e ∈ us) by (apply Hin; left). clear IH Hin. induction Hnd as [|u us Hu Hnd IH]; [set_solver|]. cbn.
    apply elem_of_cons in He as [<-|He].
    + rewrite Z.eqb_refl. enough (sumz (λ i, Z.b2z (i =? e)) us = 0) by (cbn; lia).
      rewrite (sumz_ext _ (λ _, 0)), sumz_const; [lia|]. intros x Hx. destruct (Z.eqb_spec x e); [by subst|done].
    + rewrite IH by done. destruct (Z.eqb_spec u e); [by subst|]. done.
Qed.

Lemma zseq_NoDup n : NoDup (zseq n).
Proof. unfold zseq. apply NoDup_fmap_2; [intros ???; lia|apply NoDup_seq]. Qed.

Lemma usable_NoDup w : NoDup (usable_eps w).
Proof. unfold usable_eps. apply NoDup_ListNoDup, List.NoDup_filter, NoDup_ListNoDup, zseq_NoDup. Qed.

(** The counters of the usable endpoints balance. *)
Lemma cycle_sum w0 w k es :
  in_cycle w0 w k es → sumz (cur_weight w) (usable_eps w0) = 0.
Proof.
  intros [_ _ Hin Hcw _ _ Hk]. rewrite (sumz_ext _ (λ i, k * ep_weight w0 i + (- sumz (ep_weight w0) (usable_eps w0)) * turns i es)) by (intros i Hi; rewrite Hcw by done; lia).
  rewrite sumz_add, !sumz_mul, turns_total, Hk by (done || apply usable_NoDup). lia.
Qed.

Lemma cycle_high w0 w k es i :
  wpool_ok w0 → in_cycle w0 w k es → i ∈ usable_eps w0 → cur_weight w i ≤ 256 * 32 * 32.
Proof.
  intros Hok Hc Hi. pose proof (cycle_sum _ _ _ _ Hc) as Hs. pose proof (total_bounds w0 Hok) as Ht.
  pose proof (sumz_term (cur_weight w) (usable_eps w0) i (- (256 * 32)) Hi) as H. rewrite Hs in H.
  assert (Hl : zlen (usable_eps w0) ≤ 32).
  { unfold usable_eps, zlen. pose proof (List.filter_length_le (wrr_usable w0) (zseq (n_eps w0))) as Hf. unfold zseq in Hf at 2. rewrite length_fmap, length_seq in Hf.
    pose proof (wo_n _ Hok). unfold MAX_PROXY_EP in *. lia. }
  assert (∀ y, y ∈ usable_eps w0 → - (256 * 32) ≤ cur_weight w y) by (intros y Hy; pose proof (ic_low _ _ _ _ Hc y Hy); lia). specialize (H H0). lia.
Qed.

Lemma same_usable w w' : w_b w' = w_b w → usable_eps w' = usable_eps w.
Proof. intros H. unfold usable_eps, n_eps, wrr_usable. by rewrite H. Qed.

Lemma cycle_ok w0 w k es : wpool_ok w0 → in_cycle w0 w k es → wpool_ok w.
Proof.
  intros [Hn He Hc Hw] [(Hb & Hep & _) Hl _ _ _ _ _]. unfold n_eps, ep_weight in *. split; unfold n_eps, ep_weight; rewrite ?Hb, ?Hep; [done|done|congruence|done].
Qed.

Lemma cycle_roomy w0 w k es : wpool_ok w0 → roomy w0 → in_cycle w0 w k es → roomy w.
Proof.
  intros Hok Hr Hc i Hi. unfold n_eps in Hi. rewrite (proj1 (ic_same _ _ _ _ Hc)) in Hi.
  destruct (decide (i ∈ usable_eps w0)) as [Hin|Hin]; [|rewrite (ic_rest _ _ _ _ Hc) by done; by apply Hr].
  pose proof (cycle_high _ _ _ _ i Hok Hc Hin). pose proof (ic_low _ _ _ _ Hc i Hin). pose proof (total_bounds w0 Hok). lia.
Qed.

(** One more selection. *)
Lemma cycle_step w0 w k es :
  wpool_ok w0 → roomy w0 → 0 < sumz (ep_weight w0) (usable_eps w0) → in_cycle w0 w k es →
  let '(w', e) := wrr_select_endpoint w in in_cycle w0 w' (k + 1) (es ++ [e]).
Proof.
  intros Hok Hr Hpos Hc. pose proof (cycle_ok _ _ _ _ Hok Hc) as Hok'. pose proof (cycle_roomy _ _ _ _ Hok Hr Hc) as Hr'.
  pose proof (cycle_sum _ _ _ _ Hc) as Hsum. destruct Hc as [(Hb & He & Hi) Hl Hin Hcw Hlow Hrest Hk].
  pose proof (same_usable _ _ Hb) as Hu. assert (Hw : ∀ i, ep_weight w i = ep_weight w0 i) by (intros; unfold ep_weight; by rewrite He).
  assert (HW : sumz (ep_weight w) (usable_eps w0) = sumz (ep_weight w0) (usable_eps w0)) by (apply sumz_ext; intros; apply Hw).
  pose proof (select_usable w Hok' Hr' Hi ltac:(by rewrite Hu, HW)) as Hs. destruct (wrr_select_endpoint w) as [w' e]. cbn [fst snd] in Hs.
  destruct Hs as [(Hb2 & He2 & Hi2) Hl2 Hein Hlead Hcw2 Hrest2]. rewrite Hu, HW in *.
  assert (Hpe : 0 < cur_weight w e + ep_weight w0 e).
  { destruct (Z.lt_ge_cases 0 (cur_weight w e + ep_weight w0 e)) as [|Hneg]; [done|]. exfalso.
    assert (sumz (λ i, cur_weight w i + ep_weight w0 i) (usable_eps w0) ≤ sumz (λ _, 0) (usable_eps w0)).
    { apply sumz_le. intros i Hi'. specialize (Hlead i Hi'). rewrite !Hw in Hlead. lia. }
    rewrite sumz_add, sumz_const, Hsum in H. lia. }
  split; [by rewrite Hb2, He2|congruence| | | | |].
  - intros x Hx. apply elem_of_app in Hx as [Hx|Hx]; [by apply Hin|]. apply list_elem_of_singleton in Hx as ->. done.
  - intros i Hi'. rewrite Hcw2, Hcw, Hw by done. unfold turns. rewrite zcount_app. cbn. destruct (i =? e); cbn; lia.
  - intros i Hi'. rewrite Hcw2, Hw by done. specialize (Hlow i Hi'). apply usable_in in Hi' as [Hi' _]. pose proof (wo_weight _ Hok i Hi').
    destruct (Z.eqb_spec i e) as [->|]; lia.
  - intros i Hi' Hni. rewrite Hrest2 by (unfold n_eps in *; by rewrite ?Hb). by apply Hrest.
  - rewrite zlen_app, Hk. done.
Qed.

Lemma cycle_run w0 m w k es :
  wpool_ok w0 → roomy w0 → 0 < sumz (ep_weight w0) (usable_eps w0) → in_cycle w0 w k es →
  let '(w', es') := wrr_run m w in in_cycle w0 w' (k + Z.of_nat m) (es ++ es').
Proof.
  intros Hok Hr Hpos. revert w k es. induction m as [|m IH]; intros w k es Hc; cbn [wrr_run].
  - rewrite app_nil_r. by replace (k + Z.of_nat 0) with k by lia.
  - pose proof (cycle_step _ _ _ _ Hok Hr Hpos Hc) as Hs. destruct (wrr_select_endpoint w) as [w1 e].
    specialize (IH w1 _ _ Hs). destruct (wrr_run m w1) as [w2 es']. replace (k + Z.of_nat (S m)) with (k + 1 + Z.of_nat m) by lia.
    by rewrite cons_middle, app_assoc.
Qed.

(** A whole number of rounds: every usable endpoint had its weight that many
    times, and the counters are back at zero. *)
Lemma cycle_exact w0 w m es i :
  0 < sumz (ep_weight w0) (usable_eps w0) → in_cycle w0 w (m * sumz (ep_weight w0) (usable_eps w0)) es → i ∈ usable_eps w0 →
  turns i es = m * ep_weight w0 i ∧ cur_weight w i = 0.
Proof.
  set (W := sumz (ep_weight w0) (usable_eps w0)). intros Hpos Hc Hi. pose proof (cycle_sum _ _ _ _ Hc) as Hsum. destruct Hc as [_ _ _ Hcw Hlow _ _]. fold W in Hcw, Hlow.
  assert (Hq : ∀ j, j ∈ usable_eps w0 → cur_weight w j = W * (m * ep_weight w0 j - turns j es)) by (intros j Hj; rewrite (Hcw j Hj); ring).
  assert (Hz : ∀ j, j ∈ usable_eps w0 → 0 ≤ cur_weight w j).
  { intros j Hj. specialize (Hlow j Hj). rewrite (Hq j Hj) in *. assert (0 ≤ m * ep_weight w0 j - turns j es) by nia. nia. }
  assert (Hi0 : cur_weight w i = 0).
  { pose proof (sumz_term (cur_weight w) (usable_eps w0) i 0 Hi Hz) as Ht. rewrite Hsum in Ht. specialize (Hz i Hi). lia. }
  split; [|done]. rewrite (Hq i Hi) in Hi0. nia.
Qed.

(** ** The start state *)

Lemma init_fold w l :
  wpool_ok w → (∀ i, i ∈ l → 0 ≤ i < n_eps w) →
  let w' := foldl init_ep w l in
  w_b w' = w_b w ∧ wpool_ok w' ∧
  (∀ i, 0 ≤ i < n_eps w → ep_weight w' i = if bool_decide (i ∈ l) then weight_or_1 w i else ep_weight w i) ∧
  (∀ i, 0 ≤ i < n_eps w → cur_weight w' i = if bool_decide (i ∈ l) then 0 else cur_weight w i).
Proof.
  revert w. induction l as [|a l IH]; intros w Hok Hl; cbn zeta; [split_and!; [done|done| |]; intros; by rewrite bool_decide_eq_false_2 by set_solver|].
  cbn [foldl]. pose proof Hok as [Hn He Hc Hw]. pose proof (Hl a ltac:(left)) as Ha. unfold MAX_PROXY_EP in *.
  assert (Hb1 : w_b (init_ep w a) = w_b w) by (unfold init_ep; case_test; done).
  assert (Hc1 : ∀ i, 0 ≤ i < n_eps w → cur_weight (init_ep w a) i = if i =? a then 0 else cur_weight w i).
  { intros i Hi. unfold cur_weight, init_ep. case_test; cbn; (destruct (Z.eqb_spec i a) as [->|]; [by rewrite zget_zset_eq by lia|by rewrite zget_zset_ne by lia]). }
  assert (Hw1 : ∀ i, 0 ≤ i < n_eps w → ep_weight (init_ep w a) i = if i =? a then weight_or_1 w i else ep_weight w i).
  { intros i Hi. unfold ep_weight, init_ep, weight_or_1. fold (ep_weight w a) (ep_weight w i). destruct (ep_weight w a =? 0) eqn:E; cbn; unfold zmod.
    - destruct (Z.eqb_spec i a) as [->|]; [rewrite zget_zset_eq by lia; by rewrite E|by rewrite zget_zset_ne by lia].
    - destruct (Z.eqb_spec i a) as [->|]; [by rewrite E|done]. }
  assert (Hok1 : wpool_ok (init_ep w a)).
  { split; [by unfold n_eps; rewrite Hb1| | |].
    - unfold init_ep. case_test; cbn; unfold zmod; by rewrite ?zlen_zset.
    - unfold init_ep. case_test; cbn; by rewrite zlen_zset.
    - unfold n_eps. rewrite Hb1. fold (n_eps w). intros i Hi. rewrite Hw1 by done. pose proof (Hw i Hi). unfold weight_or_1. case_tests; zbool; lia. }
  assert (Hn1 : n_eps (init_ep w a) = n_eps w) by (unfold n_eps; by rewrite Hb1).
  destruct (IH (init_ep w a) Hok1) as (H1 & H2 & H3 & H4); [intros i Hi; rewrite Hn1; apply Hl; by right|]. rewrite Hn1 in *.
  split_and!; [congruence|done| |]; intros i Hi.
  - rewrite H3 by done. unfold weight_or_1. rewrite Hw1 by done. destruct (Z.eqb_spec i a) as [->|Hne].
    + rewrite (bool_decide_eq_true_2 (a ∈ a :: l)) by left. unfold weight_or_1. repeat case_test; zbool; try done; lia.
    + rewrite (bool_decide_ext (i ∈ a :: l) (i ∈ l)) by set_solver. done.
  - rewrite H4, Hc1 by done. destruct (Z.eqb_spec i a) as [->|Hne].
    + rewrite (bool_decide_eq_true_2 (a ∈ a :: l)) by left. by case_test.
    + rewrite (bool_decide_ext (i ∈ a :: l) (i ∈ l)) by set_solver. done.
Qed.

Lemma init_state w :
  wpool_ok w →
  let w' := wrr_init_state w in
  w_b w' = w_b w ∧ wpool_ok w' ∧ wrr_initialized w' = true ∧ ∀ i, 0 ≤ i < n_eps w → ep_weight w' i = weight_or_1 w i ∧ cur_weight w' i = 0.
Proof.
  intros Hok. cbn zeta. destruct (init_fold w (zseq (n_eps w)) Hok) as (H1 & [A B C D] & H3 & H4); [by intros i; rewrite zseq_in|].
  unfold wrr_init_state. set (w1 := foldl init_ep w (zseq (n_eps w))) in *. split_and!; [done|by split|done|].
  intros i Hi. split; [change (ep_weight w1 i = weight_or_1 w i); rewrite H3 by done|change (cur_weight w1 i = 0); rewrite H4 by done]; by rewrite bool_decide_eq_true_2 by (by rewrite zseq_in).
Qed.

Lemma init_cycle w : wpool_ok w → in_cycle (wrr_init_state w) (wrr_init_state w) 0 [].
Proof.
  intros Hok. destruct (init_state w Hok) as (H1 & H2 & H3 & H4). cbn zeta in *. set (w1 := wrr_init_state w) in *.
  assert (Hn : n_eps w1 = n_eps w) by (unfold n_eps; by rewrite H1).
  split; [done|done|set_solver| | |done|done].
  - intros i Hi. apply usable_in in Hi as [Hi _]. rewrite Hn in Hi. rewrite (proj2 (H4 i Hi)). unfold turns. cbn [zcount]. lia.
  - intros i Hi. pose proof Hi as Hi2. apply usable_in in Hi2 as [Hi2 _]. rewrite Hn in Hi2. rewrite (proj2 (H4 i Hi2)).
    assert (0 < ep_weight w1 i).
    { rewrite (proj1 (H4 i Hi2)). pose proof (wo_weight w Hok i Hi2). unfold weight_or_1. case_test; zbool; lia. }
    pose proof (sumz_term (ep_weight w1) (usable_eps w1) i 0 Hi). assert (0 ≤ zlen (usable_eps w1)) by (unfold zlen; lia).
    assert (∀ y, y ∈ usable_eps w1 → 0 ≤ ep_weight w1 y) as Hy by (intros y Hy; apply usable_in in Hy as [Hy _]; pose proof (wo_weight w1 H2 y Hy); lia).
    specialize (H0 Hy). lia.
Qed.

Lemma init_total w : wpool_ok w → sumz (ep_weight (wrr_init_state w)) (usable_eps (wrr_init_state w)) = total_weight w.
Proof.
  intros Hok. destruct (init_state w Hok) as (H1 & H2 & H3 & H4). unfold total_weight. rewrite (same_usable w (wrr_init_state w) H1).
  apply sumz_ext. intros i Hi. apply usable_in in Hi as [Hi _]. by apply H4.
Qed.

Lemma usable_total_pos w : wpool_ok w → usable_eps w ≠ [] → 0 < total_weight w.
Proof.
  intros Hok Hne. unfold total_weight. destruct (usable_eps w) as [|i us] eqn:E; [done|].
  assert (Hw : ∀ y, y ∈ i :: us → 1 ≤ weight_or_1 w y).
  { intros y Hy. rewrite <- E in Hy. apply usable_in in Hy as [Hy _]. pose proof (wo_weight w Hok y Hy). unfold weight_or_1. case_test; zbool; lia. }
  pose proof (sumz_term (weight_or_1 w) (i :: us) i 1 ltac:(left) Hw). rewrite zlen_cons in H. specialize (Hw i ltac:(left)). unfold zlen in *. lia.
Qed.

(** C21. Smooth weighted round-robin is exact: from the start state of any
    pool, with the endpoints that are up staying the same, every choice is a
    usable endpoint; after [k] selections an endpoint's counter is [k] times its
    weight less its turns times the total, so none is ever a whole turn ahead of
    its share [k * weight / total]; and each time [k] is a multiple of the
    total weight, every usable endpoint has had exactly its weight that many
    times and the counters are back at zero. *)
Theorem wrr_exact_shares (w : wpool) (k : nat) :
  wpool_ok w → usable_eps w ≠ [] →
  let '(w', es) := wrr_run k (wrr_init_state w) in
  let W := total_weight w in
  length es = k ∧ (∀ e, e ∈ es → e ∈ usable_eps w) ∧
  ∀ i, i ∈ usable_eps w →
    cur_weight w' i = Z.of_nat k * weight_or_1 w i - turns i es * W ∧
    turns i es * W < Z.of_nat k * weight_or_1 w i + W ∧
    ∀ m, Z.of_nat k = m * W → turns i es = m * weight_or_1 w i ∧ cur_weight w' i = 0.
Proof.
  intros Hok Hne. destruct (init_state w Hok) as (H1 & H2 & H3 & H4). pose proof (init_total w Hok) as HW. pose proof (usable_total_pos w Hok Hne) as Hpos.
  assert (Hr : roomy (wrr_init_state w)) by (intros i Hi; unfold n_eps in Hi; rewrite H1 in Hi; rewrite (proj2 (H4 i Hi)); lia).
  pose proof (cycle_run (wrr_init_state w) k _ 0 [] H2 Hr ltac:(lia) (init_cycle w Hok)) as Hrun.
  destruct (wrr_run k (wrr_init_state w)) as [w' es]. cbn zeta. cbn [app] in Hrun.
  assert (Hw : ∀ i, i ∈ usable_eps w → ep_weight (wrr_init_state w) i = weight_or_1 w i) by (intros i Hi; apply usable_in in Hi as [Hi _]; by apply H4).
  pose proof (λ m i, cycle_exact (wrr_init_state w) w' m es i) as Hx. pose proof Hrun as [_ _ Hin Hcw Hlow _ Hk]. rewrite HW, (same_usable w _ H1) in *.
  split_and!; [unfold zlen in Hk; lia|done|]. intros i Hi. specialize (Hcw i Hi) as Hcwi. rewrite Hw in Hcwi by done. specialize (Hlow i Hi) as Hlowi.
  split_and!; [rewrite Hcwi; lia|lia|]. intros m Hm. rewrite <- Hw by done. apply Hx; [done| |done]. by rewrite <- Hm.
Qed.

(** Three endpoints of weights 5, 1 and 1, and a fourth that is down. *)
Definition wrr_example : wpool :=
  mk_wpool (mk_bpool 4 false (zrep 32 circuit_breaker_init) ([0; 0; 0; 1] ++ zrep 28 0) None fc_state_zero [] 0)
    ([mk_proxy_ep 1 80 5; mk_proxy_ep 2 80 1; mk_proxy_ep 3 80 0; mk_proxy_ep 4 80 9] ++ zrep 28 (mk_proxy_ep 0 0 0)) (zrep 32 7) 0 0 false.

Lemma wrr_example_ok : wpool_ok wrr_example.
Proof.
  split; [done|done|done|]. intros i Hi. assert (i = 0 ∨ i = 1 ∨ i = 2 ∨ i = 3) as [->|[->|[->| ->]]] by (cbn in Hi; lia); vm_compute; by split.
Qed.

Lemma wrr_exact_shares_witness :
  snd (wrr_run 7 (wrr_init_state wrr_example)) = [0; 0; 1; 0; 2; 0; 0] ∧ turns 0 (snd (wrr_run 7 (wrr_init_state wrr_example))) = 5.
Proof.
  split; [vm_compute; reflexivity|].
  pose proof (wrr_exact_shares wrr_example 7 wrr_example_ok ltac:(by vm_compute)) as H.
  destruct (wrr_run 7 (wrr_init_state wrr_example)) as [w es] eqn:E. destruct H as (_ & _ & H).
  assert (H0 : 0 ∈ usable_eps wrr_example) by (vm_compute; constructor).
  destruct (H 0 H0) as (_ & _ & Hm). exact (proj1 (Hm 1 eq_refl)).
Defined.
