(* ===== verification/Chwbl.v ===== *)
(** * Consistent hashing with bounded loads (src/common/sockproxy_lb.c)

    The hash ring and the load counters of a pool: building the plain and the
    weighted ring, the look-up, the selection under the load bound, the runtime
    configuration and its carry-over across an update, the counters, the prefix
    hash that feeds them (sockproxy_json.c). The hash function XXH64 is a
    parameter (a vendored library); qsort is any sort of its specification
    ([QSort]). A selection holds the pool's lock shared; the definitions take one
    selection at a time. The theorems: the weighted ring has exactly the budget
    with the largest-remainder shares; a look-up answers the first virtual node
    at or after the hash; a selection takes a healthy endpoint and, when all are
    healthy, keeps it within the bound. *)

From stdpp Require Import base list gmap numbers sorting strings.
From Stdlib Require Import Ascii.
From S2P Require Import Prelude FcTypes FcExpose Breaker Wrr.

(** ** Data *)

Record chwbl_vnode := mk_chwbl_vnode { vn_hash : Z; vn_ep : Z }.
#[export] Instance chwbl_vnode_inhabited : Inhabited chwbl_vnode := populate (mk_chwbl_vnode 0 0).
#[export] Instance chwbl_vnode_eq_dec : EqDecision chwbl_vnode.
Proof. solve_decision. Defined.

Record chwbl_ring := mk_chwbl_ring { r_replication : Z; r_n_vnodes : Z; r_n_eps : Z; r_vnodes : list chwbl_vnode }.
#[export] Instance chwbl_ring_eta : RecordEta chwbl_ring := fun r => mk_chwbl_ring (r_replication r) (r_n_vnodes r) (r_n_eps r) (r_vnodes r).

Record ep_load := mk_ep_load { active_conns : Z; total_requests : Z; last_update_ts : Z; ep_available : bool }.
#[export] Instance ep_load_eta : RecordEta ep_load := fun r => mk_ep_load (active_conns r) (total_requests r) (last_update_ts r) (ep_available r).
#[export] Instance ep_load_inhabited : Inhabited ep_load := populate (mk_ep_load 0 0 0 false).

Record chwbl_config := mk_chwbl_config {
  mean_load_factor : Z; replication : Z; ep_loads : list ep_load;
  prefix_hash_level : Z; prefix_hash_flags : Z; enable_cache_salt : bool
}.
#[export] Instance chwbl_config_eta : RecordEta chwbl_config := fun r =>
  mk_chwbl_config (mean_load_factor r) (replication r) (ep_loads r) (prefix_hash_level r) (prefix_hash_flags r) (enable_cache_salt r).

Definition PROXY_SEL_CHWBL : Z := 4.
Definition PROXY_SEL_WRR_HASH : Z := 7.

(** The pool: the round-robin's part and the ring's. *)
Record lpool := mk_lpool { l_w : wpool; l_select : Z; l_ring : option chwbl_ring; l_config : option chwbl_config }.
#[export] Instance lpool_eta : RecordEta lpool := fun r => mk_lpool (l_w r) (l_select r) (l_ring r) (l_config r).

Definition l_n_eps (p : lpool) : Z := n_eps (l_w p).
Definition l_inv (p : lpool) (i : Z) : Z := zget (bp_inv (w_b (l_w p))) i.
Definition l_weight (p : lpool) (i : Z) : Z := ep_weight (l_w p) i.

(** ** Sorting *)

(** compare_vnodes(a, b) <= 0 *)
Definition vnode_le (a b : chwbl_vnode) : Prop := vn_hash a ≤ vn_hash b.
#[export] Instance vnode_le_dec a b : Decision (vnode_le a b).
Proof. unfold vnode_le. apply _. Defined.
#[export] Instance vnode_le_total : Total vnode_le.
Proof. intros a b. unfold vnode_le. lia. Qed.
#[export] Instance vnode_le_trans : Transitive vnode_le.
Proof. intros a b c. unfold vnode_le. lia. Qed.

(** What C says of qsort: the same elements, in order; nothing about the order of
    equal ones. *)
Class QSort := {
  qsort : list chwbl_vnode → list chwbl_vnode;
  qsort_perm l : qsort l ≡ₚ l;
  qsort_sorted l : Sorted vnode_le (qsort l)
}.

(** One such sort. *)
Definition qsort_merge : QSort.
Proof.
  refine {| qsort := merge_sort vnode_le |}.
  - apply merge_sort_Permutation.
  - intros l. apply Sorted_merge_sort. apply _.
Defined.

(** ** Building a ring *)

Section rings.
Context `{QSort} (XXH64 : bytes → Z → Z).

Definition chwbl_alloc_ring (mem : bool) (n_eps n_vnodes replication : Z) : option chwbl_ring :=
  if (n_eps <=? 0) || (n_eps >? MAX_PROXY_EP) || (n_vnodes <=? 0) then None
  else if negb mem then None
  else Some (mk_chwbl_ring replication n_vnodes n_eps (zrep n_vnodes (mk_chwbl_vnode 0 0))).

(** snprintf(vnode_key, ..., "%u:%u#%d", xip, xport, j) *)
Definition vnode_key (e : proxy_ep) (j : Z) : bytes := print_u32 (xip e) ++ lit ":" ++ print_u32 (xport e) ++ lit "#" ++ print_u32 j.
Definition vnode_of (p : lpool) (i j : Z) : chwbl_vnode :=
  mk_chwbl_vnode (XXH64 (vnode_key (zget (w_eps (l_w p)) i) j) (u32 (3735928559 + i * 7919))) i.

(** The nodes the two filling loops write, [alloc i] of endpoint [i]. *)
Definition fill_vnodes (p : lpool) (alloc : Z → Z) : list chwbl_vnode :=
  concat ((λ i, vnode_of p i <$> zseq (alloc i)) <$> zseq (l_n_eps p)).

Definition INT32_MAX : Z := 2147483647.

Definition chwbl_create_ring (mem : bool) (p : lpool) (replication : Z) : option chwbl_ring :=
  if (l_n_eps p <=? 0) || (l_n_eps p >? MAX_PROXY_EP) || (replication <=? 0) then None
  else
    let total := l_n_eps p * replication in
    if total >? INT32_MAX then None
    else
      ring ← chwbl_alloc_ring mem (l_n_eps p) total replication;
      Some (ring <| r_vnodes := qsort (fill_vnodes p (λ _, replication)) |>).

(** eps[i].inv == 0 && eps[i].weight > 0 *)
Definition positive_ep (p : lpool) (i : Z) : bool := (l_inv p i =? 0) && (l_weight p i >? 0).

(** The first loop: how many such endpoints and their weight. *)
Definition count_positive (p : lpool) : Z * Z :=
  foldl (λ '(k, t) i, if positive_ep p i then (k + 1, u64 (t + l_weight p i)) else (k, t)) (0, 0) (zseq (l_n_eps p)).

(** The second: allocation[], remainder[] and allocated. *)
Definition first_shares (p : lpool) (distributable total : Z) : list Z * list Z * Z :=
  foldl (λ '(al, rm, n) i,
    if negb (positive_ep p i) then (al, rm, n)
    else
      let product := u64 (distributable * l_weight p i) in
      let a := 1 + product / total in
      (zset al i a, zset rm i (product mod total), n + a)) (zrep MAX_PROXY_EP 0, zrep MAX_PROXY_EP 0, 0) (zseq (l_n_eps p)).

(** The endpoint of the largest remainder, the first of them. *)
Definition best_remainder (p : lpool) (rm : list Z) : Z :=
  foldl (λ best i, if negb (positive_ep p i) then best else if (best <? 0) || (zget rm i >? zget rm best) then i else best) (-1) (zseq (l_n_eps p)).

(** while (allocated < budget): one turn for each node still to give. *)
Fixpoint hand_out (k : nat) (p : lpool) (al rm : list Z) : option (list Z) :=
  match k with
  | O => Some al
  | S k =>
      let best := best_remainder p rm in
      if best <? 0 then None else hand_out k p (zmod al best (Z.add 1)) (zset rm best 0)
  end.

(** The nodes of each endpoint in a weighted ring of [budget]. *)
Definition weighted_shares (p : lpool) (budget : Z) : option (list Z) :=
  if (l_n_eps p <=? 0) || (l_n_eps p >? MAX_PROXY_EP) || (budget <=? 0) then None
  else
    let '(positive, total) := count_positive p in
    if (positive =? 0) || (budget <? positive) || (total =? 0) then None
    else
      let '(al, rm, allocated) := first_shares p (budget - positive) total in
      hand_out (Z.to_nat (budget - allocated)) p al rm.

Definition chwbl_create_weighted_ring (mem : bool) (p : lpool) (budget : Z) : option chwbl_ring :=
  al ← weighted_shares p budget;
  ring ← chwbl_alloc_ring mem (l_n_eps p) budget budget;
  Some (ring <| r_vnodes := qsort (fill_vnodes p (zget al)) |>).

(** Both builders install what they made, or answer -1. *)
Definition install_ring (p : lpool) (r : option chwbl_ring) : lpool * Z :=
  match r with Some r => (p <| l_ring := Some r |>, 0) | None => (p, -1) end.
Definition chwbl_build_ring (mem : bool) (p : lpool) (replication : Z) : lpool * Z :=
  install_ring p (chwbl_create_ring mem p replication).
Definition chwbl_build_weighted_ring (mem : bool) (p : lpool) : lpool * Z :=
  install_ring p (chwbl_create_weighted_ring mem p (match l_config p with Some c => replication c | None => 0 end)).

(** ** The runtime configuration *)

(** The fields of proxy_arg it reads. *)
Record chwbl_arg := mk_chwbl_arg { a_level : Z; a_flags : Z; a_salt : bool; a_factor : Z; a_replication : Z }.

Definition PREFIX_HAS_LORA : Z := 1.
Definition PREFIX_HAS_IMAGE : Z := 2.
Definition PREFIX_HAS_AUDIO : Z := 4.
Definition PREFIX_HAS_CACHE_SALT : Z := 8.
Definition PREFIX_HAS_TOOL_SCHEMAS : Z := 16.
Definition PREFIX_HAS_SESSION_CTX : Z := 32.
Definition PREFIX_HAS_RAG_TEMPLATE : Z := 64.
Definition PREFIX_HAS_RAG_DOC_IDS : Z := 128.

Definition level_mask (level : Z) : Z :=
  let m := 31 in
  let m := if level >=? 2 then Z.lor m PREFIX_HAS_SESSION_CTX else m in
  if level >=? 3 then Z.lor m (Z.lor PREFIX_HAS_RAG_TEMPLATE PREFIX_HAS_RAG_DOC_IDS) else m.

(** The condition that refuses a configuration. *)
Definition config_refused (c : chwbl_config) : bool :=
  (prefix_hash_level c <? 1) || (prefix_hash_level c >? 3) ||
  (mean_load_factor c <? 100) || (mean_load_factor c >? 300) || (replication c <? 1) || (replication c >? 1024) ||
  (negb (prefix_hash_flags c =? 0) && negb (Z.land (prefix_hash_flags c) (Z.lnot (level_mask (prefix_hash_level c))) =? 0)) ||
  (enable_cache_salt c && negb (prefix_hash_flags c =? 0) && (Z.land (prefix_hash_flags c) PREFIX_HAS_CACHE_SALT =? 0)).

Definition or_default (v d : Z) : Z := if v =? 0 then d else v.

(** The first endpoint of [previous] with the address of [e]. *)
Definition previous_index (previous : lpool) (e : proxy_ep) : option Z :=
  List.find (λ j, (xip e =? xip (zget (w_eps (l_w previous)) j)) && (xport e =? xport (zget (w_eps (l_w previous)) j))) (zseq (l_n_eps previous)).

(** The counters endpoint [i] starts with; uint32_t active, requests. *)
Definition carried_load (previous : option lpool) (e : proxy_ep) : Z * Z :=
  match previous with
  | Some prev =>
      match l_config prev with
      | Some c =>
          match previous_index prev e with
          | Some j => (active_conns (zget (ep_loads c) j), u32 (total_requests (zget (ep_loads c) j)))
          | None => (0, 0)
          end
      | None => (0, 0)
      end
  | None => (0, 0)
  end.

Definition start_loads (now : Z) (p : lpool) (previous : option lpool) : list ep_load :=
  foldl (λ ls i,
    let '(active, requests) := carried_load previous (zget (w_eps (l_w p)) i) in
    zset ls i (mk_ep_load active requests now (l_inv p i =? 0))) (zrep MAX_PROXY_EP (mk_ep_load 0 0 0 false)) (zseq (l_n_eps p)).

(** [mem_cfg], [mem_ring]: whether the allocations succeed; [now]: time(NULL). *)
Definition chwbl_prepare_runtime (mem_cfg mem_ring : bool) (now : Z) (p : lpool) (arg : chwbl_arg) (previous : option lpool) : lpool * Z :=
  let p := p <| l_ring := None |> <| l_config := None |> in
  if negb (l_select p =? PROXY_SEL_CHWBL) && negb (l_select p =? PROXY_SEL_WRR_HASH) then (p, 0)
  else if (l_n_eps p <=? 0) || (l_n_eps p >? MAX_PROXY_EP) then (p, -1)
  else if negb mem_cfg then (p, -1)
  else
    let c := mk_chwbl_config (or_default (a_factor arg) 175) (or_default (a_replication arg) 256) [] (or_default (a_level arg) 1) (a_flags arg) (a_salt arg) in
    if config_refused c then (p, -1)
    else
      let c := c <| ep_loads := start_loads now p previous |> in
      let ring := if l_select p =? PROXY_SEL_CHWBL then chwbl_create_ring mem_ring p (replication c) else chwbl_create_weighted_ring mem_ring p (replication c) in
      match ring with
      | None => (p, -1)
      | Some r => (p <| l_config := Some c |> <| l_ring := Some r |>, 0)
      end.

Definition chwbl_release_runtime (p : lpool) : lpool := p <| l_ring := None |> <| l_config := None |>.
End rings.

(** ** The look-up *)

(** while (left < right): the interval shrinks at each turn, so its length is
    fuel enough. *)
Fixpoint ring_search (fuel : nat) (vs : list chwbl_vnode) (hash left right : Z) : Z :=
  match fuel with
  | O => left
  | S fuel =>
      if left <? right then
        let mid := left + (right - left) / 2 in
        if vn_hash (zget vs mid) <? hash then ring_search fuel vs hash (mid + 1) right else ring_search fuel vs hash left mid
      else left
  end.

Definition chwbl_ring_lookup (r : chwbl_ring) (hash : Z) : Z :=
  let left := 0 in
  let right := r_n_vnodes r - 1 in
  if r_n_vnodes r =? 0 then -1
  else
    let left := ring_search (Z.to_nat (r_n_vnodes r)) (r_vnodes r) hash left right in
    let left := if left >=? r_n_vnodes r then 0 else left in
    vn_ep (zget (r_vnodes r) left).

(** ** The selection *)

Definition load_of (c : chwbl_config) (i : Z) : Z := active_conns (zget (ep_loads c) i).
Definition set_load (c : chwbl_config) (i : Z) (f : Z → Z) : chwbl_config :=
  c <| ep_loads ::= (λ ls, zmod ls i (λ e, e <| active_conns ::= (λ n, u32 (f n)) |>)) |>.

(** uint32_t total_load, summed over the endpoints. *)
Definition total_load (c : chwbl_config) (n : Z) : Z := foldl (λ t i, u32 (t + load_of c i)) 0 (zseq n).

Definition max_load_of (c : chwbl_config) (n : Z) : Z :=
  let future_total := u64 (total_load c n + 1) in
  let denominator := u64 (n * 100) in
  let m := u32 (u64 (u64 (future_total * mean_load_factor c) + denominator - 1) / denominator) in
  if m <? 1 then 1 else m.

(** The fallback loop: the least loaded healthy endpoint, the first of them. *)
Fixpoint least_loaded (now : Z) (c : chwbl_config) (idxs : list Z) (b : bpool) (min_load sel : Z) : bpool * Z :=
  match idxs with
  | [] => (b, sel)
  | i :: idxs =>
      let '(b, ok) := is_endpoint_healthy now i b in
      if ok && (load_of c i <? min_load) then least_loaded now c idxs b (load_of c i) i else least_loaded now c idxs b min_load sel
  end.

(** Steps 1 and 2: the endpoint of the ring, or the next healthy one; -1: none. *)
Definition initial_pick (now : Z) (r : chwbl_ring) (hash : Z) (b : bpool) : bpool * Z :=
  let e := chwbl_ring_lookup r hash in
  if (e <? 0) || (e >=? bp_n_eps b) then (b, -1)
  else
    let '(b, ok) := is_endpoint_healthy now e b in
    if ok then (b, e) else find_next_healthy_endpoint now e b.

(** Steps 3 to 5: where the load bound sends it. *)
Definition bounded_pick (now : Z) (r : chwbl_ring) (c : chwbl_config) (hash : Z) (b : bpool) (e : Z) : bpool * Z :=
  let max_load := max_load_of c (bp_n_eps b) in
  if u64 (load_of c e + 1) >? max_load then
    let probe := chwbl_ring_lookup r (u64 (hash + 1)) in
    let '(b, ok) := if (probe >=? 0) && (probe <? bp_n_eps b) then is_endpoint_healthy now probe b else (b, false) in
    if ok && (load_of c probe <? max_load) then (b, probe)
    else least_loaded now c (zseq (bp_n_eps b)) b UINT32_MAX (-1)
  else (b, e).

(** The whole selection, with -1 where the code returns it. *)
Definition bounded_select (now : Z) (r : chwbl_ring) (c : chwbl_config) (hash : Z) (b : bpool) : bpool * chwbl_config * Z :=
  let '(b, e) := initial_pick now r hash b in
  if e <? 0 then (b, c, -1)
  else
    let '(b, sel) := bounded_pick now r c hash b e in
    if sel <? 0 then (b, c, -1) else (b, set_load c sel (λ n, n + 1), sel).

(** A selection on the pool: None where the pointers are missing or no endpoint
    is found (the code returns -1 and leaves *selected_ep alone). *)
Definition chwbl_select_endpoint (now hash : Z) (p : lpool) : lpool * option Z :=
  match l_ring p, l_config p with
  | Some r, Some c =>
      let '(b, c, sel) := bounded_select now r c hash (w_b (l_w p)) in
      (p <| l_w ::= (λ w, w <| w_b := b |>) |> <| l_config := Some c |>, if sel <? 0 then None else Some sel)
  | _, _ => (p, None)
  end.

(** The same body over the weighted ring. *)
Definition wrr_hash_select_endpoint (now hash : Z) (p : lpool) : lpool * option Z :=
  match l_ring p, l_config p with
  | Some r, Some c =>
      let '(b, c, sel) := bounded_select now r c hash (w_b (l_w p)) in
      (p <| l_w ::= (λ w, w <| w_b := b |>) |> <| l_config := Some c |>, if sel <? 0 then None else Some sel)
  | _, _ => (p, None)
  end.

Definition chwbl_select_runtime (now hash : Z) (p : lpool) : lpool * option Z :=
  if l_select p =? PROXY_SEL_CHWBL then chwbl_select_endpoint now hash p
  else if l_select p =? PROXY_SEL_WRR_HASH then wrr_hash_select_endpoint now hash p
  else (p, None).

(** ** The counters *)

Definition chwbl_dec_load (now ep_idx : Z) (c : chwbl_config) : chwbl_config :=
  if (ep_idx <? 0) || (ep_idx >=? MAX_PROXY_EP) then c
  else
    let c := if load_of c ep_idx >? 0 then set_load c ep_idx (λ n, n - 1) else c in
    c <| ep_loads ::= (λ ls, zmod ls ep_idx (λ e, e <| last_update_ts := now |>)) |>.

Definition hashes (p : lpool) : bool := (l_select p =? PROXY_SEL_CHWBL) || (l_select p =? PROXY_SEL_WRR_HASH).

Definition chwbl_dec_runtime (now ep_idx : Z) (p : lpool) : lpool :=
  if hashes p then p <| l_config ::= fmap (chwbl_dec_load now ep_idx) |> else p.

Definition chwbl_inc_runtime (ep_idx : Z) (p : lpool) : lpool :=
  if (ep_idx <? 0) || (ep_idx >=? MAX_PROXY_EP) then p
  else if hashes p then p <| l_config ::= fmap (λ c, set_load c ep_idx (λ n, n + 1)) |> else p.

(** 0 when no counter looks leaked, -1 otherwise. *)
Definition chwbl_validate_load_counters (p : lpool) : Z :=
  match l_config p with
  | None => 0
  | Some c =>
      if negb (l_select p =? PROXY_SEL_CHWBL) then 0
      else if existsb (λ i, (i <? MAX_PROXY_EP) && (load_of c i >? 10000)) (zseq (l_n_eps p)) then -1 else 0
  end.

(** ** The key that is hashed *)

Record llm_prefix_key := mk_llm_prefix_key {
  pk_prefix : bytes; pk_model : bytes; pk_flags : Z;
  pk_lora : bytes; pk_image : bytes; pk_audio : bytes; pk_salt : bytes; pk_tools : bytes;
  pk_session : bytes; pk_rag_template : bytes; pk_rag_docs : bytes;
  pk_hash : Z; pk_valid : bool; pk_level : Z; pk_salt_invalid : bool
}.
#[export] Instance llm_prefix_key_eta : RecordEta llm_prefix_key := fun r =>
  mk_llm_prefix_key (pk_prefix r) (pk_model r) (pk_flags r) (pk_lora r) (pk_image r) (pk_audio r) (pk_salt r) (pk_tools r) (pk_session r)
    (pk_rag_template r) (pk_rag_docs r) (pk_hash r) (pk_valid r) (pk_level r) (pk_salt_invalid r).

(** The policy of the pool on a request's key: 0, -1 (no prefix) or -2 (a salt
    that is malformed or missing). *)
Definition chwbl_apply_hash_policy (c : chwbl_config) (k : llm_prefix_key) : llm_prefix_key * Z :=
  if pk_salt_invalid k then (k, -2)
  else if enable_cache_salt c && (Z.land (pk_flags k) PREFIX_HAS_CACHE_SALT =? 0) then (k, -2)
  else if negb (pk_valid k) then (k, -1)
  else
    (k <| pk_level := prefix_hash_level c |>
       <| pk_flags ::= (λ f, Z.land f (if prefix_hash_flags c =? 0 then level_mask (prefix_hash_level c) else prefix_hash_flags c)) |>, 0).

Definition flag_part (k : llm_prefix_key) (flag : Z) (part : bytes) : bytes := if Z.land (pk_flags k) flag =? 0 then [] else part.

(** What the XXH64_update calls feed, in order. *)
Definition prefix_bytes (k : llm_prefix_key) : bytes :=
  pk_prefix k ++ pk_model k ++ flag_part k PREFIX_HAS_LORA (pk_lora k) ++ flag_part k PREFIX_HAS_IMAGE (pk_image k) ++
  flag_part k PREFIX_HAS_AUDIO (pk_audio k) ++ flag_part k PREFIX_HAS_CACHE_SALT (pk_salt k) ++ flag_part k PREFIX_HAS_TOOL_SCHEMAS (pk_tools k) ++
  (if pk_level k =? 1 then []
   else
     flag_part k PREFIX_HAS_SESSION_CTX (pk_session k) ++
     (if pk_level k =? 2 then [] else flag_part k PREFIX_HAS_RAG_TEMPLATE (pk_rag_template k) ++ flag_part k PREFIX_HAS_RAG_DOC_IDS (pk_rag_docs k))).

Definition compute_prefix_hash (XXH64 : bytes → Z → Z) (mem : bool) (k : llm_prefix_key) : Z :=
  if negb (pk_valid k) then 0 else if negb mem then 0 else XXH64 (prefix_bytes k) 0.

Definition chwbl_hash_and_select_runtime (XXH64 : bytes → Z → Z) (mem : bool) (now : Z) (p : lpool) (k : llm_prefix_key) : lpool * llm_prefix_key * Z * option Z :=
  match l_config p with
  | None => (p, k, -1, None)
  | Some c =>
      let '(k, rc) := chwbl_apply_hash_policy c k in
      if negb (rc =? 0) then (p, k, rc, None)
      else
        let k := k <| pk_hash := compute_prefix_hash XXH64 mem k |> in
        let '(p, sel) := chwbl_select_runtime now (pk_hash k) p in
        (p, k, match sel with Some _ => 0 | None => -1 end, sel)
  end.

(** ** The look-up is a search of the ring *)

(** A ring as the builders leave it. *)
Record ring_ok (r : chwbl_ring) : Prop := {
  ro_n : r_n_vnodes r = zlen (r_vnodes r);
  ro_pos : 0 < r_n_vnodes r;
  ro_sorted : Sorted vnode_le (r_vnodes r)
}.

(** The node of [vs] that owns [h]: the first at or after it, or the last one
    when all are before it. *)
Definition owner (vs : list chwbl_vnode) (h : Z) (v : chwbl_vnode) : Prop :=
  v ∈ vs ∧ ((h ≤ vn_hash v ∧ ∀ u, u ∈ vs → h ≤ vn_hash u → vn_hash v ≤ vn_hash u) ∨
            ((∀ u, u ∈ vs → vn_hash u < h) ∧ ∀ u, u ∈ vs → vn_hash u ≤ vn_hash v)).

Lemma sorted_get vs i j : Sorted vnode_le vs → 0 ≤ i ≤ j → j < zlen vs → vn_hash (zget vs i) ≤ vn_hash (zget vs j).
Proof.
  intros Hs Hij Hj. apply Sorted_StronglySorted in Hs; [|apply _]. unfold zget, zlen in *. destruct (decide (i = j)) as [->|Hne]; [lia|].
  rewrite <- (take_drop (Z.to_nat j) vs) in Hs. apply StronglySorted_app in Hs as (Hs & _ & _). apply Hs.
  - apply list_elem_of_lookup. exists (Z.to_nat i). rewrite lookup_take_lt by lia. apply list_lookup_lookup_total_lt. lia.
  - apply list_elem_of_lookup. exists 0%nat. rewrite lookup_drop, Nat.add_0_r. apply list_lookup_lookup_total_lt. lia.
Qed.

Lemma zget_elem (vs : list chwbl_vnode) i : 0 ≤ i < zlen vs → zget vs i ∈ vs.
Proof. intros. unfold zget, zlen in *. apply list_elem_of_lookup. exists (Z.to_nat i). apply list_lookup_lookup_total_lt. lia. Qed.

Lemma elem_zget (vs : list chwbl_vnode) v : v ∈ vs → ∃ i, 0 ≤ i < zlen vs ∧ zget vs i = v.
Proof.
  intros [k Hk]%list_elem_of_lookup. exists (Z.of_nat k). unfold zget, zlen. rewrite Nat2Z.id. pose proof (lookup_lt_Some _ _ _ Hk). split; [lia|].
  by apply list_lookup_total_correct.
Qed.

(** All before [left] are below the hash; [right] is not, unless it is the end. *)
Lemma ring_search_spec fuel vs h left right :
  Sorted vnode_le vs → 0 ≤ left ≤ right → right < zlen vs → right - left < Z.of_nat fuel →
  (∀ i, 0 ≤ i < left → vn_hash (zget vs i) < h) → (right = zlen vs - 1 ∨ h ≤ vn_hash (zget vs right)) →
  let k := ring_search fuel vs h left right in
  left ≤ k ≤ right ∧ (∀ i, 0 ≤ i < k → vn_hash (zget vs i) < h) ∧ (k = zlen vs - 1 ∨ h ≤ vn_hash (zget vs k)).
Proof.
  intros Hs. revert left right. induction fuel as [|fuel IH]; intros left right Hlr Hr Hf Hl Hh; [lia|]. cbn [ring_search].
  destruct (Z.ltb_spec left right) as [Hlt|Hge].
  2: { cbn zeta. assert (left = right) as -> by lia. split_and!; [lia|lia|done|done]. }
  pose proof (Z.div_lt (right - left) 2 ltac:(lia) ltac:(lia)). pose proof (Z.div_pos (right - left) 2 ltac:(lia) ltac:(lia)).
  set (mid := left + (right - left) / 2) in *. cbn zeta. destruct (Z.ltb_spec (vn_hash (zget vs mid)) h) as [Hm|Hm].
  - destruct (IH (mid + 1) right) as (H1 & H2 & H3); [lia|lia|lia| |done|split_and!; [lia|lia|done|done]].
    intros i Hi. eapply Z.le_lt_trans; [apply (sorted_get vs i mid); [done|lia|lia]|done].
  - destruct (IH left mid) as (H1 & H2 & H3); [lia|lia|lia|done|by right|split_and!; [lia|lia|done|done]].
Qed.

Lemma lookup_owner r h : ring_ok r → ∃ v, owner (r_vnodes r) h v ∧ chwbl_ring_lookup r h = vn_ep v.
Proof.
  intros [Hn Hp Hs]. unfold chwbl_ring_lookup. cbn zeta. rewrite (proj2 (Z.eqb_neq _ _)) by lia.
  destruct (ring_search_spec (Z.to_nat (r_n_vnodes r)) (r_vnodes r) h 0 (r_n_vnodes r - 1)) as (H1 & H2 & H3); [done|lia|lia|lia|intros; lia|left; lia|].
  set (k := ring_search _ _ _ _ _) in *. rewrite Z.geb_leb, (proj2 (Z.leb_gt _ _)) by lia. exists (zget (r_vnodes r) k). split; [|done].
  split; [apply zget_elem; lia|]. destruct (Z.le_gt_cases h (vn_hash (zget (r_vnodes r) k))) as [Hge|Hlt].
  - left. split; [done|]. intros u Hu Hhu. apply elem_zget in Hu as (i & Hi & <-). destruct (Z.lt_ge_cases i k) as [Hik|Hik]; [specialize (H2 i ltac:(lia)); lia|].
    apply sorted_get; [done|lia|lia].
  - right. destruct H3 as [H3|H3]; [|lia]. assert (Hall : ∀ u, u ∈ r_vnodes r → vn_hash u ≤ vn_hash (zget (r_vnodes r) k)).
    { intros u Hu. apply elem_zget in Hu as (i & Hi & <-). apply sorted_get; [done|lia|lia]. }
    split; [intros u Hu; specialize (Hall u Hu); lia|done].
Qed.

(** The reference: the first node at or after the hash in ring order, else the
    last node. *)
Definition ring_reference (vs : list chwbl_vnode) (h : Z) : option chwbl_vnode :=
  match List.find (λ v, h <=? vn_hash v) vs with Some v => Some v | None => last vs end.

Lemma find_first (vs : list chwbl_vnode) h k :
  0 ≤ k < zlen vs → (∀ i, 0 ≤ i < k → vn_hash (zget vs i) < h) → h ≤ vn_hash (zget vs k) → List.find (λ v, h <=? vn_hash v) vs = Some (zget vs k).
Proof.
  revert k. induction vs as [|v vs IH]; intros k Hk Hlt Hge; [unfold zlen in Hk; cbn in Hk; lia|]. rewrite zlen_cons in Hk. cbn [List.find].
  destruct (decide (k = 0)) as [->|Hne]; [change (zget (v :: vs) 0) with v in *; by rewrite (proj2 (Z.leb_le _ _))|].
  assert (Hget : ∀ i, 0 < i → zget (v :: vs) i = zget vs (i - 1)) by (intros i Hi; unfold zget; replace (Z.to_nat i) with (S (Z.to_nat (i - 1))) by lia; done).
  pose proof (Hlt 0 ltac:(lia)) as H0. change (zget (v :: vs) 0) with v in H0. rewrite (proj2 (Z.leb_gt _ _)) by lia.
  rewrite Hget in * by lia. apply IH; [lia| |done]. intros i Hi. specialize (Hlt (i + 1) ltac:(lia)). rewrite Hget in Hlt by lia. by replace (i + 1 - 1) with i in Hlt by lia.
Qed.

Lemma lookup_reference r h : ring_ok r → Some (chwbl_ring_lookup r h) = vn_ep <$> ring_reference (r_vnodes r) h.
Proof.
  intros [Hn Hp Hs]. unfold chwbl_ring_lookup. cbn zeta. rewrite (proj2 (Z.eqb_neq _ _)) by lia.
  destruct (ring_search_spec (Z.to_nat (r_n_vnodes r)) (r_vnodes r) h 0 (r_n_vnodes r - 1)) as (H1 & H2 & H3); [done|lia|lia|lia|intros; lia|left; lia|].
  set (k := ring_search _ _ _ _ _) in *. rewrite Z.geb_leb, (proj2 (Z.leb_gt _ _)) by lia. unfold ring_reference.
  destruct (Z.le_gt_cases h (vn_hash (zget (r_vnodes r) k))) as [Hge|Hlt]; [by rewrite (find_first _ _ k) by (done || lia)|].
  destruct H3 as [H3|H3]; [|lia]. assert (Hnone : List.find (λ v, h <=? vn_hash v) (r_vnodes r) = None).
  { destruct (List.find _ _) as [u|] eqn:E; [|done]. exfalso. apply List.find_some in E as [Hu Hhu]. apply list_elem_of_In, elem_zget in Hu as (i & Hi & <-). zbool.
    pose proof (sorted_get (r_vnodes r) i k Hs ltac:(lia) ltac:(lia)). lia. }
  rewrite Hnone, last_lookup. unfold zget, zlen in *. cbn. replace (Nat.pred (length (r_vnodes r))) with (Z.to_nat k) by lia.
  rewrite (list_lookup_lookup_total_lt (r_vnodes r) (Z.to_nat k)) by lia. done.
Qed.

(** Moving the hash past no node changes nothing. *)
Lemma lookup_probe r h : ring_ok r → (∀ v, v ∈ r_vnodes r → vn_hash v ≠ h) → chwbl_ring_lookup r (h + 1) = chwbl_ring_lookup r h.
Proof.
  intros Hok Hne. apply (inj Some). rewrite !lookup_reference by done. unfold ring_reference.
  enough (Hf : List.find (λ v, h + 1 <=? vn_hash v) (r_vnodes r) = List.find (λ v, h <=? vn_hash v) (r_vnodes r)) by (by rewrite Hf).
  destruct Hok as [_ _ _]. induction (r_vnodes r) as [|v vs IH]; [done|]. cbn. pose proof (Hne v ltac:(left)).
  rewrite IH by (intros; apply Hne; by right). destruct (Z.leb_spec (h + 1) (vn_hash v)), (Z.leb_spec h (vn_hash v)); try done; lia.
Qed.

(** ** The rings the builders make *)

Section ring_facts.
Context `{QSort} (XXH64 : bytes → Z → Z).

Lemma concat_length {A B} (f : A → list B) (l : list A) : zlen (concat (f <$> l)) = sumz (λ x, zlen (f x)) l.
Proof. induction l as [|x l IH]; [done|]. cbn [fmap list_fmap concat sumz]. rewrite zlen_app, IH. done. Qed.

Lemma zlen_zseq n : 0 ≤ n → zlen (zseq n) = n.
Proof. intros. unfold zlen, zseq. rewrite length_fmap, length_seq. lia. Qed.

Lemma fill_length p alloc : (∀ i, 0 ≤ alloc i) → zlen (fill_vnodes XXH64 p alloc) = sumz alloc (zseq (l_n_eps p)).
Proof.
  intros Ha. unfold fill_vnodes. rewrite concat_length. apply sumz_ext. intros i _. unfold zlen. rewrite length_fmap. fold (zlen (zseq (alloc i))). by apply zlen_zseq.
Qed.

(** Nodes of endpoint [i]. *)
Definition nodes_of (i : Z) (vs : list chwbl_vnode) : Z := zcount (λ v, vn_ep v =? i) vs.

Lemma nodes_of_perm i vs us : vs ≡ₚ us → nodes_of i vs = nodes_of i us.
Proof. unfold nodes_of. rewrite <- !sumz_zcount. apply sumz_perm. Qed.

Lemma fill_nodes p alloc i :
  (∀ j, 0 ≤ alloc j) → 0 ≤ i < l_n_eps p → nodes_of i (fill_vnodes XXH64 p alloc) = alloc i.
Proof.
  intros Ha Hi. unfold fill_vnodes, nodes_of.
  assert (Hone : ∀ j, zcount (λ v, vn_ep v =? i) (vnode_of XXH64 p j <$> zseq (alloc j)) = if i =? j then alloc j else 0).
  { intros j. assert (Hl : ∀ l : list Z, zcount (λ v, vn_ep v =? i) (vnode_of XXH64 p j <$> l) = if i =? j then zlen l else 0).
    { induction l as [|x l IH]; [by case_test|]. cbn [fmap list_fmap zcount]. rewrite IH. cbn. rewrite zlen_cons. rewrite (Z.eqb_sym j i). case_test; cbn; lia. }
    rewrite Hl, zlen_zseq by done. done. }
  assert (Hall : ∀ l, NoDup l → zcount (λ v, vn_ep v =? i) (concat ((λ j, vnode_of XXH64 p j <$> zseq (alloc j)) <$> l)) = if bool_decide (i ∈ l) then alloc i else 0).
  { induction 1 as [|x l Hx Hnd IH]; [by rewrite bool_decide_eq_false_2 by set_solver|]. cbn [fmap list_fmap concat]. rewrite zcount_app, Hone, IH.
    destruct (Z.eqb_spec i x) as [->|Hne].
    - rewrite (bool_decide_eq_false_2 (x ∈ l)) by done. rewrite bool_decide_eq_true_2 by left. lia.
    - rewrite (bool_decide_ext (i ∈ x :: l) (i ∈ l)) by set_solver. done. }
  rewrite Hall by apply zseq_NoDup. by rewrite bool_decide_eq_true_2 by (by rewrite zseq_in).
Qed.

Lemma created_ring mem p r replication :
  chwbl_create_ring XXH64 mem p replication = Some r →
  ring_ok r ∧ r_vnodes r ≡ₚ fill_vnodes XXH64 p (λ _, replication) ∧ r_n_vnodes r = l_n_eps p * replication ∧
  0 < l_n_eps p ≤ MAX_PROXY_EP ∧ 0 < replication.
Proof.
  unfold chwbl_create_ring, chwbl_alloc_ring. intros Hr. repeat (case_test_in Hr; [done|]). zbool. cbn in Hr. simplify_eq. cbn. pose proof (qsort_perm (fill_vnodes XXH64 p (λ _, replication))) as Hp.
  split_and!; [|done|done|lia|lia|lia]. split; cbn; [|lia|apply qsort_sorted].
  unfold zlen. rewrite (Permutation_length Hp). fold (zlen (fill_vnodes XXH64 p (λ _, replication))). rewrite fill_length, sumz_const, zlen_zseq by lia. lia.
Qed.
End ring_facts.

(** ** Consistency *)

(** [p'] is [p] with one more endpoint at the end. *)
Definition one_more (p p' : lpool) : Prop :=
  l_n_eps p' = l_n_eps p + 1 ∧ ∀ i, 0 ≤ i < l_n_eps p → zget (w_eps (l_w p')) i = zget (w_eps (l_w p)) i.

Section consistency.
Context `{QSort} (XXH64 : bytes → Z → Z).

Lemma fill_one_more p p' k :
  one_more p p' → 0 ≤ l_n_eps p →
  fill_vnodes XXH64 p' (λ _, k) = fill_vnodes XXH64 p (λ _, k) ++ (vnode_of XXH64 p' (l_n_eps p) <$> zseq k).
Proof.
  intros [Hn He] Hp. unfold fill_vnodes. rewrite Hn, zseq_snoc, fmap_app, concat_app by done. cbn. rewrite app_nil_r. f_equal. f_equal.
  apply list_fmap_ext. intros j i Hi. apply list_elem_of_lookup_2, zseq_in in Hi. apply list_fmap_ext. intros _ x _. unfold vnode_of. by rewrite He.
Qed.

(** An owner in a larger ring that is a node of the smaller one owned it there. *)
Lemma owner_sub vs vs' h v : (∀ u, u ∈ vs → u ∈ vs') → v ∈ vs → owner vs' h v → owner vs h v.
Proof. intros Hsub Hv [_ [[H1 H2]|[H1 H2]]]; (split; [done|]); [left|right]; naive_solver. Qed.

Lemma owner_hash vs h v u : owner vs h v → owner vs h u → vn_hash v = vn_hash u.
Proof.
  intros [Hv [[H1 H2]|[H1 H2]]] [Hu [[H3 H4]|[H3 H4]]].
  - pose proof (H2 u Hu H3). pose proof (H4 v Hv H1). lia.
  - pose proof (H3 v Hv). lia.
  - pose proof (H1 u Hu). lia.
  - pose proof (H2 u Hu). pose proof (H4 v Hv). lia.
Qed.

(** C27. The hashing is consistent: when an endpoint is appended to a
    pool and the ring is built again with the same replication, whatever the hash
    function and wherever the new nodes fall, equal to old ones included, the lookup
    of every hash on the ring answers the endpoint it answered or the new one, as
    long as no two nodes of the old ring have the same hash (the order a sort gives
    those is not fixed). The lookup is the ring's own answer, before the load bound
    may pass a request on. *)
Theorem chwbl_ring_consistent mem mem' p p' replication r r' :
  chwbl_create_ring XXH64 mem p replication = Some r → chwbl_create_ring XXH64 mem' p' replication = Some r' →
  one_more p p' → NoDup (vn_hash <$> fill_vnodes XXH64 p (λ _, replication)) →
  ∀ h, chwbl_ring_lookup r' h = chwbl_ring_lookup r h ∨ chwbl_ring_lookup r' h = l_n_eps p.
Proof.
  intros Hr Hr' Hone Hnd h. destruct (created_ring _ _ _ _ _ Hr) as (Hok & Hp & _ & Hn & _). destruct (created_ring _ _ _ _ _ Hr') as (Hok' & Hp' & _ & _ & _).
  rewrite (fill_one_more p p') in Hp' by (done || lia). destruct (lookup_owner r h Hok) as (v & Hv & ->). destruct (lookup_owner r' h Hok') as (v' & Hv' & ->).
  pose proof (proj1 Hv') as Hin. rewrite Hp' in Hin. apply elem_of_app in Hin as [Hin|Hin].
  - left. rewrite <- Hp in Hin. pose proof (owner_sub (r_vnodes r) (r_vnodes r') h v' ltac:(intros u; rewrite Hp, Hp'; set_solver) Hin Hv') as Ho.
    pose proof (owner_hash _ _ _ _ Ho Hv) as Hh. f_equal. pose proof (proj1 Hv) as Hvin. rewrite Hp in Hin, Hvin.
    apply list_elem_of_lookup in Hin as [a Ha]. apply list_elem_of_lookup in Hvin as [b Hb].
    assert (a = b) as -> by (apply (NoDup_lookup _ _ _ (vn_hash v) Hnd); rewrite list_lookup_fmap, ?Ha, ?Hb; cbn; congruence). congruence.
  - right. apply list_elem_of_fmap in Hin as (j & -> & _). done.
Qed.
End consistency.

(** ** The weighted shares *)

Definition positive_eps (p : lpool) : list Z := List.filter (positive_ep p) (zseq (l_n_eps p)).
Definition positive_weight (p : lpool) : Z := sumz (l_weight p) (positive_eps p).

Lemma positive_in p i : i ∈ positive_eps p ↔ 0 ≤ i < l_n_eps p ∧ l_inv p i = 0 ∧ 0 < l_weight p i.
Proof.
  unfold positive_eps. rewrite list_elem_of_In, filter_In, <- list_elem_of_In, zseq_in. unfold positive_ep. rewrite andb_true_iff, Z.gtb_ltb, Z.eqb_eq, Z.ltb_lt. done.
Qed.

Lemma positive_NoDup p : NoDup (positive_eps p).
Proof. unfold positive_eps. apply NoDup_ListNoDup, List.NoDup_filter, NoDup_ListNoDup, zseq_NoDup. Qed.

(** A loop over the endpoints that skips the others is a loop over them. *)
Lemma foldl_positive {A} (p : lpool) (f : A → Z → A) (g : A → Z → A) a l :
  (∀ a i, i ∈ l → positive_ep p i = true → f a i = g a i) → (∀ a i, i ∈ l → positive_ep p i = false → f a i = a) →
  foldl f a l = foldl g a (List.filter (positive_ep p) l).
Proof.
  revert a. induction l as [|i l IH]; intros a Ht Hf; [done|]. cbn. destruct (positive_ep p i) eqn:E; cbn; [rewrite Ht by (done || left)|rewrite Hf by (done || left)];
    apply IH; intros; (apply Ht || apply Hf); by try right.
Qed.

Lemma positive_len p : 0 ≤ l_n_eps p ≤ MAX_PROXY_EP → zlen (positive_eps p) ≤ MAX_PROXY_EP.
Proof.
  intros Hn. unfold positive_eps, zlen. pose proof (List.filter_length_le (positive_ep p) (zseq (l_n_eps p))) as Hf. unfold zseq in Hf at 2. rewrite length_fmap, length_seq in Hf. lia.
Qed.

Lemma sumz_zset (l : list Z) (a : list Z) x v :
  NoDup l → x ∈ l → (∀ i, i ∈ l → 0 ≤ i < zlen a) → sumz (zget (zset a x v)) l = sumz (zget a) l + v - zget a x.
Proof.
  intros Hnd Hx Hl. induction Hnd as [|y l Hy Hnd IH]; [set_solver|]. cbn. pose proof (Hl x Hx) as Hxr. pose proof (Hl y ltac:(left)) as Hyr. destruct (decide (x = y)) as [->|Hne].
  - rewrite zget_zset_eq by lia. rewrite (sumz_ext _ (zget a)); [lia|]. intros i Hi. pose proof (Hl i ltac:(by right)). apply zget_zset_ne; [lia|lia|]. intros ->. done.
  - rewrite zget_zset_ne by lia. rewrite IH; [lia|set_solver|]. intros; apply Hl; by right.
Qed.

Section weighted.
Context (p : lpool).
Hypothesis (Hok : wpool_ok (l_w p)).

Lemma n_ok : 0 < l_n_eps p ≤ MAX_PROXY_EP.
Proof using Hok. exact (wo_n _ Hok). Qed.

Lemma positive_range i : i ∈ positive_eps p → 0 ≤ i < l_n_eps p ∧ 0 < l_weight p i < 256.
Proof using Hok. intros Hi. apply positive_in in Hi as (H1 & _ & H2). pose proof (wo_weight _ Hok i H1). unfold l_weight in *. lia. Qed.

Lemma positive_weight_bounds : zlen (positive_eps p) ≤ positive_weight p ≤ 256 * 32.
Proof using Hok.
  pose proof n_ok. pose proof (positive_len p ltac:(lia)). unfold positive_weight, MAX_PROXY_EP in *. split.
  - rewrite <- (Z.mul_1_l (zlen _)), <- sumz_const. apply sumz_le. intros i Hi. apply positive_range in Hi. lia.
  - transitivity (sumz (λ _, 256) (positive_eps p)); [apply sumz_le; intros i Hi; apply positive_range in Hi; lia|]. rewrite sumz_const. lia.
Qed.

Lemma count_positive_eq : count_positive p = (zlen (positive_eps p), positive_weight p).
Proof using Hok.
  unfold count_positive. rewrite (foldl_positive p _ (λ '(k, t) i, (k + 1, u64 (t + l_weight p i)))); [|intros [k t] i _ E; by rewrite E|intros [k t] i _ E; by rewrite E].
  pose proof positive_weight_bounds as [_ Hb]. fold (positive_eps p). unfold positive_weight in *.
  assert (Hrun : ∀ l k t, (∀ i, i ∈ l → 0 ≤ l_weight p i) → 0 ≤ t → t + sumz (l_weight p) l < 2 ^ 64 →
    foldl (λ '(k, t) i, (k + 1, u64 (t + l_weight p i))) (k, t) l = (k + zlen l, t + sumz (l_weight p) l)).
  { induction l as [|i l IH]; intros k t Hw Ht Hs; [unfold zlen; cbn; f_equal; lia|]. cbn [foldl sumz] in *. pose proof (Hw i ltac:(left)).
    assert (0 ≤ sumz (l_weight p) l) by (apply sumz_nonneg; intros; apply Hw; by right). rewrite u64_small by lia.
    rewrite IH; [|intros; apply Hw; by right|lia|lia]. rewrite zlen_cons. f_equal; lia. }
  rewrite Hrun; [f_equal; lia| |lia|lia]. intros i Hi. apply positive_range in Hi. lia.
Qed.

(** The integer share and the remainder of endpoint [i] when [d] nodes are split. *)
Definition quota (d i : Z) : Z := (d * l_weight p i) / positive_weight p.
Definition rest (d i : Z) : Z := (d * l_weight p i) mod positive_weight p.

Lemma first_shares_eq d :
  0 ≤ d ≤ INT32_MAX → 0 < positive_weight p →
  let '(al, rm, n) := first_shares p d (positive_weight p) in
  zlen al = MAX_PROXY_EP ∧ zlen rm = MAX_PROXY_EP ∧ n = sumz (λ i, 1 + quota d i) (positive_eps p) ∧
  ∀ i, 0 ≤ i < MAX_PROXY_EP → zget al i = (if bool_decide (i ∈ positive_eps p) then 1 + quota d i else 0) ∧
    zget rm i = (if bool_decide (i ∈ positive_eps p) then rest d i else 0).
Proof using Hok.
  intros Hd HT. unfold first_shares.
  rewrite (foldl_positive p _ (λ '(al, rm, n) i, (zset al i (1 + quota d i), zset rm i (rest d i), n + (1 + quota d i)))).
  2: { intros [[al rm] n] i Hi E. rewrite E. cbn [negb]. assert (Hin : i ∈ positive_eps p) by (apply list_elem_of_In, filter_In; split; [by apply list_elem_of_In|done]).
       pose proof (positive_range i Hin). unfold INT32_MAX in *. rewrite u64_small by nia. done. }
  2: { intros [[al rm] n] i Hi E. by rewrite E. }
  fold (positive_eps p).
  assert (Hrun : ∀ l al rm n, NoDup l → (∀ i, i ∈ l → 0 ≤ i < MAX_PROXY_EP) → zlen al = MAX_PROXY_EP → zlen rm = MAX_PROXY_EP →
    let '(al', rm', n') := foldl (λ '(al, rm, n) i, (zset al i (1 + quota d i), zset rm i (rest d i), n + (1 + quota d i))) (al, rm, n) l in
    zlen al' = MAX_PROXY_EP ∧ zlen rm' = MAX_PROXY_EP ∧ n' = n + sumz (λ i, 1 + quota d i) l ∧
    ∀ i, 0 ≤ i < MAX_PROXY_EP → zget al' i = (if bool_decide (i ∈ l) then 1 + quota d i else zget al i) ∧
      zget rm' i = (if bool_decide (i ∈ l) then rest d i else zget rm i)).
  { intros l. induction l as [|x l IH]; intros al rm n Hnd Hl Ha Hm.
    - cbn. split_and!; [done|done|lia|]. intros i Hi. by rewrite bool_decide_eq_false_2 by set_solver.
    - apply NoDup_cons in Hnd as [Hx Hnd]. cbn [foldl]. pose proof (Hl x ltac:(left)) as Hxr.
      specialize (IH (zset al x (1 + quota d x)) (zset rm x (rest d x)) (n + (1 + quota d x)) Hnd ltac:(intros; apply Hl; by right) ltac:(by rewrite zlen_zset) ltac:(by rewrite zlen_zset)).
      destruct (foldl _ _ l) as [[al' rm'] n']. destruct IH as (H1 & H2 & H3 & H4). split_and!; [done|done|cbn; lia|]. intros i Hi. specialize (H4 i Hi) as [H4 H5].
      rewrite H4, H5. destruct (decide (i = x)) as [->|Hne].
      + rewrite (bool_decide_eq_false_2 (x ∈ l)), (bool_decide_eq_true_2 (x ∈ x :: l)) by (done || left). rewrite !zget_zset_eq by lia. done.
      + rewrite (bool_decide_ext (i ∈ x :: l) (i ∈ l)) by set_solver. rewrite !zget_zset_ne by lia. done. }
  specialize (Hrun (positive_eps p) (zrep MAX_PROXY_EP 0) (zrep MAX_PROXY_EP 0) 0 (positive_NoDup p)). 
  assert (Hin : ∀ i, i ∈ positive_eps p → 0 ≤ i < MAX_PROXY_EP) by (intros i Hi; apply positive_range in Hi; pose proof n_ok; lia).
  specialize (Hrun Hin eq_refl eq_refl). destruct (foldl _ _ _) as [[al rm] n]. destruct Hrun as (H1 & H2 & H3 & H4). split_and!; [done|done|done|].
  intros i Hi. specialize (H4 i Hi) as [-> ->]. rewrite zget_zrep by done. done.
Qed.

(** The best remainder is one of the largest. *)
Lemma best_remainder_spec rm :
  positive_eps p ≠ [] →
  best_remainder p rm ∈ positive_eps p ∧ ∀ i, i ∈ positive_eps p → zget rm i ≤ zget rm (best_remainder p rm).
Proof using Hok.
  intros Hne. unfold best_remainder.
  rewrite (foldl_positive p _ (λ best i, if (best <? 0) || (zget rm i >? zget rm best) then i else best)); [|intros a i _ E; by rewrite E|intros a i _ E; by rewrite E].
  fold (positive_eps p). assert (Hin : ∀ i, i ∈ positive_eps p → 0 ≤ i) by (intros i Hi; apply positive_range in Hi; lia).
  assert (Hrun : ∀ l best, (∀ i, i ∈ l → 0 ≤ i) → 0 ≤ best →
    let b := foldl (λ best i, if (best <? 0) || (zget rm i >? zget rm best) then i else best) best l in
    (b = best ∨ b ∈ l) ∧ zget rm best ≤ zget rm b ∧ ∀ i, i ∈ l → zget rm i ≤ zget rm b).
  { induction l as [|x l IH]; intros best Hl Hb; cbn zeta; [cbn; split_and!; [by left|lia|set_solver]|]. cbn [foldl].
    rewrite (proj2 (Z.ltb_ge best 0)) by lia. cbn [orb]. rewrite Z.gtb_ltb. pose proof (Hl x ltac:(left)). destruct (Z.ltb_spec (zget rm best) (zget rm x)) as [Hlt|Hge].
    - destruct (IH x ltac:(intros; apply Hl; by right) ltac:(lia)) as (H1 & H2 & H3). split_and!; [right; set_solver|lia|]. intros i Hi. apply elem_of_cons in Hi as [->|Hi]; [done|by apply H3].
    - destruct (IH best ltac:(intros; apply Hl; by right) Hb) as (H1 & H2 & H3). split_and!; [set_solver|lia|]. intros i Hi. apply elem_of_cons in Hi as [->|Hi]; [lia|by apply H3]. }
  destruct (positive_eps p) as [|x l] eqn:E; [done|]. cbn [foldl]. cbn [Z.ltb orb]. change (-1 <? 0) with true. cbn [orb].
  destruct (Hrun l x ltac:(intros; apply Hin; by right) ltac:(apply Hin; left)) as (H1 & H2 & H3). split; [set_solver|].
  intros i Hi. apply elem_of_cons in Hi as [->|Hi]; [done|by apply H3].
Qed.

(** While [k] nodes are still to be given: who has had one more. *)
Record handing (d k : Z) (al rm : list Z) : Prop := {
  ha_len : zlen al = MAX_PROXY_EP ∧ zlen rm = MAX_PROXY_EP;
  ha_left : k * positive_weight p ≤ sumz (zget rm) (positive_eps p);
  ha_one : ∀ i, i ∈ positive_eps p →
    zget al i = 1 + quota d i ∧ zget rm i = rest d i ∨
    zget al i = 2 + quota d i ∧ zget rm i = 0 ∧ 0 < rest d i ∧ ∀ j, j ∈ positive_eps p → zget rm j ≤ rest d i;
  ha_none : ∀ i, 0 ≤ i < MAX_PROXY_EP → i ∉ positive_eps p → zget al i = 0
}.

Lemma rest_bounds d i : 0 < positive_weight p → 0 ≤ rest d i < positive_weight p.
Proof. intros. unfold rest. apply Z.mod_pos_bound. lia. Qed.

Lemma hand_out_spec d k al rm :
  0 < positive_weight p → handing d (Z.of_nat k) al rm →
  ∃ al' rm', hand_out k p al rm = Some al' ∧ handing d 0 al' rm' ∧ sumz (zget al') (positive_eps p) = sumz (zget al) (positive_eps p) + Z.of_nat k.
Proof using Hok.
  intros HT. revert al rm. induction k as [|k IH]; intros al rm Hh; [exists al, rm; split_and!; [done|done|lia]|].
  assert (Hne : positive_eps p ≠ []) by (intros E; unfold positive_weight in HT; rewrite E in HT; cbn in HT; lia).
  destruct (best_remainder_spec rm Hne) as [Hb Hmax]. cbn [hand_out]. set (b := best_remainder p rm) in *. destruct Hh as [[Hla Hlr] Hleft Hone Hnone].
  pose proof (positive_range b Hb) as [Hbr _]. rewrite (proj2 (Z.ltb_ge b 0)) by lia. pose proof n_ok as Hn.
  assert (Hpos : 0 < zget rm b).
  { destruct (Z.lt_ge_cases 0 (zget rm b)); [done|]. exfalso.
    assert (sumz (zget rm) (positive_eps p) ≤ sumz (λ _, 0) (positive_eps p)) by (apply sumz_le; intros i Hi; specialize (Hmax i Hi); lia). rewrite sumz_const in *. nia. }
  destruct (Hone b Hb) as [[Hab Hrb]|(_ & Hrb & _)]; [|lia]. pose proof (rest_bounds d b HT).
  assert (Hrange : ∀ i, i ∈ positive_eps p → 0 ≤ i < MAX_PROXY_EP) by (intros i Hi; apply positive_range in Hi; lia).
  destruct (IH (zmod al b (Z.add 1)) (zset rm b 0)) as (al' & rm' & H1 & H2 & H3).
  - unfold zmod. split; [by rewrite !zlen_zset| | |].
    + rewrite sumz_zset; [|apply positive_NoDup|done|intros i Hi; rewrite Hlr; by apply Hrange]. lia.
    + intros i Hi. pose proof (Hrange i Hi) as Hir. destruct (decide (i = b)) as [->|Hni].
      * right. rewrite !zget_zset_eq by lia. split_and!; [lia|done|lia|]. intros j Hj. pose proof (Hrange j Hj). destruct (decide (j = b)) as [->|]; [rewrite zget_zset_eq by lia; lia|].
        rewrite zget_zset_ne by lia. rewrite <- Hrb. by apply Hmax.
      * rewrite !zget_zset_ne by lia. destruct (Hone i Hi) as [?|(? & ? & ? & Hj)]; [by left|]. right. split_and!; [done|done|done|]. intros j Hj'. specialize (Hj j Hj'). pose proof (Hrange j Hj').
        destruct (decide (j = b)) as [->|]; [rewrite zget_zset_eq by lia; lia|by rewrite zget_zset_ne by lia].
    + intros i Hi Hni. rewrite zget_zset_ne; [by apply Hnone|lia|lia|intros ->; done].
  - exists al', rm'. split_and!; [done|done|]. rewrite H3. unfold zmod. rewrite sumz_zset; [lia|apply positive_NoDup|done|intros i Hi; rewrite Hla; by apply Hrange].
Qed.

Lemma quota_rest d : sumz (λ i, positive_weight p * quota d i + rest d i) (positive_eps p) = d * positive_weight p.
Proof using Hok.
  rewrite (sumz_ext _ (λ i, d * l_weight p i)), sumz_mul; [done|]. intros i Hi. unfold quota, rest.
  assert (0 < positive_weight p) by (pose proof positive_weight_bounds; pose proof (list_elem_of_split _ _ Hi) as (l1 & l2 & E); rewrite E in H at 1; rewrite zlen_app, zlen_cons in H; unfold zlen in H; lia).
  symmetry. apply Z.div_mod. lia.
Qed.

Lemma weighted_shares_eq budget :
  0 < zlen (positive_eps p) ≤ budget → budget ≤ INT32_MAX →
  ∃ al rm, weighted_shares p budget = Some al ∧ handing (budget - zlen (positive_eps p)) 0 al rm ∧ sumz (zget al) (positive_eps p) = budget.
Proof using Hok.
  intros Hk Hb. unfold weighted_shares. pose proof n_ok as Hn. rewrite (proj2 (Z.leb_gt _ _)), Z.gtb_ltb, (proj2 (Z.ltb_ge _ _)), (proj2 (Z.leb_gt budget 0)) by lia. cbn [orb].
  rewrite count_positive_eq. pose proof positive_weight_bounds as HT. rewrite (proj2 (Z.eqb_neq _ _)), (proj2 (Z.ltb_ge budget _)), (proj2 (Z.eqb_neq (positive_weight p) 0)) by lia. cbn [orb].
  set (d := budget - zlen (positive_eps p)). pose proof (first_shares_eq d ltac:(lia) ltac:(lia)) as Hf. destruct (first_shares p d (positive_weight p)) as [[al rm] n]. destruct Hf as (Hla & Hlr & -> & Hget).
  assert (Hrange : ∀ i, i ∈ positive_eps p → 0 ≤ i < MAX_PROXY_EP) by (intros i Hi; apply positive_range in Hi; lia).
  assert (Hal : sumz (zget al) (positive_eps p) = sumz (λ i, 1 + quota d i) (positive_eps p)).
  { apply sumz_ext. intros i Hi. rewrite (proj1 (Hget i (Hrange i Hi))). by rewrite bool_decide_eq_true_2. }
  assert (Hrm : sumz (zget rm) (positive_eps p) = sumz (rest d) (positive_eps p)).
  { apply sumz_ext. intros i Hi. rewrite (proj2 (Hget i (Hrange i Hi))). by rewrite bool_decide_eq_true_2. }
  pose proof (quota_rest d) as Hq. rewrite sumz_add, sumz_mul in Hq.
  assert (Hn1 : sumz (λ i, 1 + quota d i) (positive_eps p) = zlen (positive_eps p) + sumz (quota d) (positive_eps p)) by (rewrite sumz_add, sumz_const; lia).
  assert (0 ≤ sumz (rest d) (positive_eps p)) by (apply sumz_nonneg; intros; apply rest_bounds; lia).
  rewrite Hn1. destruct (hand_out_spec d (Z.to_nat (budget - (zlen (positive_eps p) + sumz (quota d) (positive_eps p)))) al rm) as (al' & rm' & H1 & H2 & H3); [lia| |].
  - split; [done| | |].
    + rewrite Hrm, Z2Nat.id by nia. subst d. nia.
    + intros i Hi. left. specialize (Hget i (Hrange i Hi)). rewrite bool_decide_eq_true_2 in Hget by done. done.
    + intros i Hi Hni. specialize (Hget i Hi). rewrite bool_decide_eq_false_2 in Hget by done. by destruct Hget.
  - exists al', rm'. split_and!; [done|done|]. rewrite H3, Hal, Hn1. subst d. nia.
Qed.
End weighted.

Section weighted_ring.
Context `{QSort} (XXH64 : bytes → Z → Z).

(** C28. The weighted ring follows the weights exactly: for every pool with a
    live endpoint of positive weight and a budget of at least one node each, the
    build succeeds (given the memory) with exactly [budget] nodes in hash order;
    the endpoints out of service or of weight zero have none; every other one has
    one node, its whole share of the rest, and at most one more, and those that
    have one more are those of the largest remainders. *)
Theorem chwbl_weighted_ring_exact p budget :
  wpool_ok (l_w p) → 0 < zlen (positive_eps p) ≤ budget → budget ≤ INT32_MAX →
  let d := budget - zlen (positive_eps p) in
  ∃ r, chwbl_create_weighted_ring XXH64 true p budget = Some r ∧
    ring_ok r ∧ r_n_vnodes r = budget ∧
    (∀ i, 0 ≤ i < l_n_eps p → i ∉ positive_eps p → nodes_of i (r_vnodes r) = 0) ∧
    (∀ i, i ∈ positive_eps p → nodes_of i (r_vnodes r) = 1 + quota p d i ∨ nodes_of i (r_vnodes r) = 2 + quota p d i ∧ 0 < rest p d i) ∧
    (∀ i j, i ∈ positive_eps p → j ∈ positive_eps p → nodes_of i (r_vnodes r) = 2 + quota p d i → nodes_of j (r_vnodes r) = 1 + quota p d j → rest p d j ≤ rest p d i).
Proof.
  intros Hok Hk Hb d. destruct (weighted_shares_eq p Hok budget Hk Hb) as (al & rm & Hs & [[Hla _] _ Hone Hnone] & Hsum). fold d in Hone.
  unfold chwbl_create_weighted_ring. rewrite Hs. cbn [mbind option_bind]. pose proof (wo_n _ Hok) as Hn. fold (l_n_eps p) in Hn.
  unfold chwbl_alloc_ring. rewrite (proj2 (Z.leb_gt _ _)), Z.gtb_ltb, (proj2 (Z.ltb_ge _ _)), (proj2 (Z.leb_gt budget 0)) by lia. cbn [orb negb mbind option_bind].
  eexists. split; [reflexivity|]. pose proof (qsort_perm (fill_vnodes XXH64 p (zget al))) as Hp.
  assert (Hq : ∀ i, i ∈ positive_eps p → 0 ≤ quota p d i).
  { intros i Hi. pose proof (positive_weight_bounds p Hok). apply (positive_range p Hok) in Hi. apply Z.div_pos; [subst d; nia|lia]. }
  assert (Ha : ∀ i, 0 ≤ i < MAX_PROXY_EP → 0 ≤ zget al i).
  { intros i Hi. destruct (decide (i ∈ positive_eps p)) as [Hin|Hni]; [specialize (Hq i Hin); destruct (Hone i Hin) as [[-> _]|(-> & _)]; lia|by rewrite Hnone]. }
  assert (Ha' : ∀ i, 0 ≤ zget al i).
  { intros i. destruct (decide (0 ≤ i < MAX_PROXY_EP)) as [Hi|Hi]; [by apply Ha|]. unfold zget, zlen in *. destruct (decide (i < 0)) as [Hneg|Hpos].
    - rewrite Z2Nat.inj_neg || replace (Z.to_nat i) with 0%nat by lia. apply (Ha 0). unfold MAX_PROXY_EP. lia.
    - rewrite list_lookup_total_alt, lookup_ge_None_2 by lia. done. }
  assert (Hnodes : ∀ i, 0 ≤ i < l_n_eps p → nodes_of i (qsort (fill_vnodes XXH64 p (zget al))) = zget al i).
  { intros i Hi. rewrite (nodes_of_perm i _ _ Hp). by apply fill_nodes. }
  cbn -[nodes_of quota rest Z.add]. split_and!; [|done| | |].
  - split; cbn; [|lia|apply qsort_sorted]. unfold zlen. rewrite (Permutation_length Hp). fold (zlen (fill_vnodes XXH64 p (zget al))). rewrite fill_length by done. rewrite <- Hsum.
    unfold positive_eps in *. assert (Hz : ∀ i, i ∈ zseq (l_n_eps p) → positive_ep p i = false → zget al i = 0).
    { intros i Hi E. apply Hnone; [rewrite zseq_in in Hi; lia|]. intros Hin. apply list_elem_of_In, filter_In in Hin as [_ Hin]. congruence. }
    clear - Hz. induction (zseq (l_n_eps p)) as [|x l IH]; [done|]. cbn [List.filter sumz]. rewrite <- IH by (intros; apply Hz; [by right|done]).
    destruct (positive_ep p x) eqn:E; cbn [sumz]; [by rewrite IH by (intros; apply Hz; [by right|done])|]. rewrite Hz by (done || left). by rewrite IH by (intros; apply Hz; [by right|done]).
  - intros i Hi Hni. rewrite Hnodes by done. apply Hnone; [lia|done].
  - intros i Hi. pose proof (positive_range p Hok i Hi) as [Hir _]. rewrite Hnodes by done. destruct (Hone i Hi) as [[-> _]|(-> & _ & ? & _)]; [by left|by right].
  - intros i j Hi Hj Hni Hnj. pose proof (positive_range p Hok i Hi) as [Hir _]. pose proof (positive_range p Hok j Hj) as [Hjr _]. rewrite Hnodes in Hni, Hnj by done.
    destruct (Hone i Hi) as [[Hi1 _]|(_ & _ & _ & Hmax)]; [lia|]. destruct (Hone j Hj) as [[_ Hj2]|(Hj1 & _)]; [|lia]. rewrite <- Hj2. by apply Hmax.
Qed.
End weighted_ring.

(** ** The bound *)

(** ceil((total + 1) * factor / (n * 100)), without the machine's widths. *)
Definition load_bound (c : chwbl_config) (n : Z) : Z :=
  ((sumz (load_of c) (zseq n) + 1) * mean_load_factor c + n * 100 - 1) / (n * 100).

(** Counters as the pool keeps them, far from wrapping. *)
Record loads_ok (c : chwbl_config) (n : Z) : Prop := {
  lo_len : zlen (ep_loads c) = MAX_PROXY_EP;
  lo_nonneg : ∀ i, 0 ≤ i < n → 0 ≤ load_of c i;
  lo_total : sumz (load_of c) (zseq n) < 1073741824;
  lo_factor : 100 ≤ mean_load_factor c ≤ 300
}.

Lemma load_term c n i : loads_ok c n → 0 ≤ i < n → load_of c i ≤ sumz (load_of c) (zseq n).
Proof.
  intros [_ Hnn _ _] Hi. pose proof (sumz_term (load_of c) (zseq n) i 0 ltac:(by apply zseq_in)) as H.
  specialize (H ltac:(intros y Hy; rewrite zseq_in in Hy; by apply Hnn)). lia.
Qed.

Lemma total_load_eq c n : loads_ok c n → total_load c n = sumz (load_of c) (zseq n).
Proof.
  intros [_ Hnn Ht _]. unfold total_load.
  assert (Hrun : ∀ l t, (∀ i, i ∈ l → 0 ≤ load_of c i) → 0 ≤ t → t + sumz (load_of c) l < 4294967296 →
    foldl (λ t i, u32 (t + load_of c i)) t l = t + sumz (load_of c) l).
  { induction l as [|i l IH]; intros t Hl Ht0 Hs; [cbn; lia|]. cbn [foldl sumz] in *. pose proof (Hl i ltac:(left)).
    assert (0 ≤ sumz (load_of c) l) by (apply sumz_nonneg; intros; apply Hl; by right). rewrite u32_small by lia.
    rewrite IH; [lia|intros; apply Hl; by right|lia|lia]. }
  rewrite Hrun; [lia| |lia|lia]. intros i Hi. rewrite zseq_in in Hi. by apply Hnn.
Qed.

Lemma load_bound_pos c n : loads_ok c n → 0 < n → 1 ≤ load_bound c n.
Proof.
  intros Hl Hn. pose proof (lo_factor _ _ Hl). assert (0 ≤ sumz (load_of c) (zseq n)) by (apply sumz_nonneg; intros i Hi; rewrite zseq_in in Hi; by apply (lo_nonneg _ _ Hl)).
  unfold load_bound. apply Z.div_le_lower_bound; [lia|]. nia.
Qed.

Lemma max_load_eq c n : loads_ok c n → 0 < n ≤ MAX_PROXY_EP → max_load_of c n = load_bound c n.
Proof.
  intros Hl Hn. unfold max_load_of. cbn zeta. rewrite total_load_eq by done. pose proof (lo_factor _ _ Hl). pose proof (lo_total _ _ Hl).
  assert (0 ≤ sumz (load_of c) (zseq n)) by (apply sumz_nonneg; intros i Hi; rewrite zseq_in in Hi; by apply (lo_nonneg _ _ Hl)).
  unfold MAX_PROXY_EP in *. rewrite (u64_small (sumz _ _ + 1)), (u64_small (n * 100)) by lia. rewrite (u64_small (_ * mean_load_factor c)) by nia.
  rewrite u64_small by nia. pose proof (load_bound_pos c n Hl ltac:(lia)) as Hp. unfold load_bound in *. rewrite u32_small.
  - rewrite (proj2 (Z.ltb_ge _ _)); [done|done].
  - split; [lia|]. apply Z.div_lt_upper_bound; [lia|]. nia.
Qed.

(** An endpoint no more loaded than the others has room for one more. *)
Lemma least_has_room c n i :
  loads_ok c n → 0 < n → (∀ j, 0 ≤ j < n → load_of c i ≤ load_of c j) → load_of c i + 1 ≤ load_bound c n.
Proof.
  intros Hl Hn Hmin. pose proof (lo_factor _ _ Hl).
  assert (n * load_of c i ≤ sumz (load_of c) (zseq n)).
  { rewrite <- (zlen_zseq n) at 1 by lia. rewrite Z.mul_comm, <- sumz_const. apply sumz_le. intros j Hj. rewrite zseq_in in Hj. by apply Hmin. }
  unfold load_bound. apply Z.div_le_lower_bound; [lia|].
  assert (0 ≤ sumz (load_of c) (zseq n)) by (apply sumz_nonneg; intros j Hj; rewrite zseq_in in Hj; by apply (lo_nonneg _ _ Hl)).
  set (t := sumz _ _) in *. set (l := load_of c i) in *. assert ((t + 1) * 100 ≤ (t + 1) * mean_load_factor c) by nia. nia.
Qed.

(** ** Health *)

(** Every endpoint in service, no breaker off its closed state. *)
Record all_up (b : bpool) : Prop := {
  au_n : 0 < bp_n_eps b ≤ MAX_PROXY_EP;
  au_len : zlen (bp_cbs b) = MAX_PROXY_EP;
  au_inv : ∀ i, 0 ≤ i < bp_n_eps b → zget (bp_inv b) i = 0;
  au_closed : ∀ i, 0 ≤ i < bp_n_eps b → cb_st (bp_cb b i) = CB_STATE_CLOSED
}.

Lemma up_healthy now i b : all_up b → 0 ≤ i < bp_n_eps b → is_endpoint_healthy now i b = (b, true).
Proof.
  intros [Hn Hlen Hinv Hcl] Hi. unfold is_endpoint_healthy. rewrite (proj2 (Z.ltb_ge _ _)), Z.geb_leb, (proj2 (Z.leb_gt _ _)) by lia. cbn [orb].
  rewrite Hinv by done. cbn. unfold circuit_breaker_should_skip, ep_in. rewrite (proj2 (Z.leb_le _ _)), (proj2 (Z.ltb_lt _ _)), (proj2 (Z.ltb_lt i MAX_PROXY_EP)) by lia. cbn [andb negb].
  destruct (bp_enabled b) eqn:E; [|done]. cbn [negb]. unfold cb_should_skip. rewrite Hcl by done. cbn.
  unfold set_cb. f_equal. destruct b as [n en cbs inv t fc dr fl]. cbn in *. f_equal. apply zset_same; [done|]. unfold MAX_PROXY_EP in *. lia.
Qed.

(** What a health check may change: the breakers only. *)
Definition same_eps (b b' : bpool) : Prop := bp_n_eps b' = bp_n_eps b ∧ bp_inv b' = bp_inv b.

Lemma healthy_same now i b : same_eps b (fst (is_endpoint_healthy now i b)).
Proof.
  unfold is_endpoint_healthy. do 2 (case_test; [done|]). unfold circuit_breaker_should_skip. do 2 (case_test; [done|]).
  destruct (cb_should_skip now (bp_cb b i)) as [cb skip]. cbn. by destruct (bool_decide _ && negb skip).
Qed.

Lemma healthy_in now i b b' : is_endpoint_healthy now i b = (b', true) → 0 ≤ i < bp_n_eps b ∧ zget (bp_inv b) i = 0.
Proof.
  unfold is_endpoint_healthy. intros H. case_test_in H; [done|]. zbool. case_test_in H; [done|]. zbool. split; [lia|done].
Qed.

Lemma next_same now start idxs b : same_eps b (fst (next_healthy now start idxs b)).
Proof.
  revert b. induction idxs as [|i idxs IH]; intros b; cbn [next_healthy]; [done|].
  pose proof (healthy_same now ((start + i) mod bp_n_eps b) b) as [H1 H2]. destruct (is_endpoint_healthy _ _ b) as [b' ok]. cbn in H1, H2.
  destruct ok; [done|]. destruct (IH b') as [H3 H4]. split; congruence.
Qed.

Lemma next_in now start idxs b b' e : next_healthy now start idxs b = (b', e) → 0 ≤ e → 0 ≤ e < bp_n_eps b ∧ zget (bp_inv b) e = 0.
Proof.
  revert b. induction idxs as [|i idxs IH]; intros b; cbn [next_healthy]; [intros; simplify_eq; lia|].
  pose proof (healthy_same now ((start + i) mod bp_n_eps b) b) as [H1 H2]. destruct (is_endpoint_healthy _ _ b) as [b1 ok] eqn:E. cbn in H1, H2.
  destruct ok; [intros H He; simplify_eq; by apply (healthy_in now _ _ _ E)|]. intros H He. rewrite <- H1, <- H2. by apply (IH b1).
Qed.

Lemma initial_sound now r h b :
  same_eps b (fst (initial_pick now r h b)) ∧ (0 ≤ snd (initial_pick now r h b) → 0 ≤ snd (initial_pick now r h b) < bp_n_eps b ∧ zget (bp_inv b) (snd (initial_pick now r h b)) = 0).
Proof.
  unfold initial_pick. case_test; [cbn; split; [done|lia]|]. pose proof (healthy_same now (chwbl_ring_lookup r h) b) as [H1 H2].
  destruct (is_endpoint_healthy _ _ b) as [b1 ok] eqn:Eh. cbn in H1, H2. destruct ok; [cbn; split; [done|]; intros _; by apply (healthy_in now _ _ _ Eh)|].
  unfold find_next_healthy_endpoint. case_test; [cbn; split; [done|lia]|]. pose proof (next_same now (chwbl_ring_lookup r h) (zseq (bp_n_eps b1)) b1) as [H3 H4].
  destruct (next_healthy _ _ _ b1) as [b2 e] eqn:En. cbn in *. split; [split; congruence|]. intros He. rewrite <- H1, <- H2. by apply (next_in now _ _ _ _ _ En).
Qed.

Lemma least_sound now c idxs b m sel :
  same_eps b (fst (least_loaded now c idxs b m sel)) ∧
  (snd (least_loaded now c idxs b m sel) = sel ∨ 0 ≤ snd (least_loaded now c idxs b m sel) < bp_n_eps b ∧ zget (bp_inv b) (snd (least_loaded now c idxs b m sel)) = 0).
Proof.
  revert b m sel. induction idxs as [|i idxs IH]; intros b m sel; cbn [least_loaded]; [split; [done|by left]|].
  pose proof (healthy_same now i b) as [H1 H2]. destruct (is_endpoint_healthy now i b) as [b1 ok] eqn:E. cbn in H1, H2.
  destruct (ok && (load_of c i <? m)) eqn:Eo.
  - zbool. destruct (IH b1 (load_of c i) i) as [[H3 H4] H5]. split; [split; congruence|]. right. destruct H5 as [->|H5]; [subst ok; by apply (healthy_in now _ _ _ E)|by rewrite <- H1, <- H2].
  - destruct (IH b1 m sel) as [[H3 H4] H5]. split; [split; congruence|]. destruct H5 as [->|H5]; [by left|right; by rewrite <- H1, <- H2].
Qed.

Lemma bounded_sound now r c h b e :
  0 ≤ e < bp_n_eps b → zget (bp_inv b) e = 0 →
  let '(b', sel) := bounded_pick now r c h b e in
  same_eps b b' ∧ (0 ≤ sel → 0 ≤ sel < bp_n_eps b ∧ zget (bp_inv b) sel = 0).
Proof.
  intros He Hinv. unfold bounded_pick. case_test; [|done]. set (probe := chwbl_ring_lookup r (u64 (h + 1))).
  assert (Hp : ∀ b1 ok, (if (probe >=? 0) && (probe <? bp_n_eps b) then is_endpoint_healthy now probe b else (b, false)) = (b1, ok) →
    same_eps b b1 ∧ (ok = true → 0 ≤ probe < bp_n_eps b ∧ zget (bp_inv b) probe = 0)).
  { intros b1 ok H. case_test_in H; [|simplify_eq; done]. pose proof (healthy_same now probe b) as Hs. rewrite H in Hs. split; [done|]. intros ->. by apply (healthy_in now _ _ _ H). }
  destruct (if (probe >=? 0) && (probe <? bp_n_eps b) then _ else _) as [b1 ok]. destruct (Hp b1 ok eq_refl) as [[H1 H2] H3].
  destruct (ok && _) eqn:Eo; [zbool; split; [done|]; intros _; by apply H3|].
  pose proof (least_sound now c (zseq (bp_n_eps b1)) b1 UINT32_MAX (-1)) as [[H4 H5] H6]. destruct (least_loaded _ _ _ _ _ _) as [b2 sel]. cbn in *.
  split; [split; congruence|]. intros Hs. destruct H6 as [->|H6]; [lia|]. by rewrite <- H1, <- H2.
Qed.

Lemma set_load_get c n i j f :
  loads_ok c n → 0 ≤ i < MAX_PROXY_EP → 0 ≤ j → load_of (set_load c i f) j = if j =? i then u32 (f (load_of c i)) else load_of c j.
Proof.
  intros Hl Hi Hj. unfold load_of, set_load. cbn. unfold zmod. pose proof (lo_len _ _ Hl). destruct (Z.eqb_spec j i) as [->|]; [rewrite zget_zset_eq by lia|rewrite zget_zset_ne by lia]; done.
Qed.

(** When all are up the fallback is the least loaded endpoint. *)
Lemma least_up now c n idxs b m sel :
  all_up b → (∀ i, i ∈ idxs → 0 ≤ i < bp_n_eps b) → (sel = -1 ∨ m = load_of c sel) →
  loads_ok c n → n = bp_n_eps b →
  let '(b', e) := least_loaded now c idxs b m sel in
  b' = b ∧ (e = sel ∨ e ∈ idxs) ∧ (e = sel → ∀ i, i ∈ idxs → m ≤ load_of c i) ∧ (e ≠ sel → ∀ i, i ∈ idxs → load_of c e ≤ load_of c i) ∧ (e ≠ sel → load_of c e < m).
Proof.
  intros Hup. revert m sel. induction idxs as [|i idxs IH]; intros m sel Hr Hm Hl ->; cbn [least_loaded]; [split_and!; [done|by left|set_solver|done|done]|].
  rewrite (up_healthy now i b Hup) by (apply Hr; left). cbn [andb]. destruct (Z.ltb_spec (load_of c i) m) as [Hlt|Hge].
  - specialize (IH (load_of c i) i ltac:(intros; apply Hr; by right) ltac:(by right) Hl eq_refl). destruct (least_loaded _ _ _ _ _ _) as [b' e].
    destruct IH as (-> & H1 & H2 & H3 & H4). split_and!; [done|set_solver| | |].
    + intros -> j Hj. destruct (decide (sel = i)) as [->|Hne]; [destruct Hm as [Hm|Hm]; [|lia]; specialize (Hr i ltac:(left)); lia|].
      specialize (H4 Hne). destruct Hm as [->|Hm]; [exfalso; destruct H1 as [H1|H1]; [done|specialize (Hr (-1) ltac:(by right)); lia]|]. lia.
    + intros _ j Hj. destruct (decide (e = i)) as [->|Hne]; [apply elem_of_cons in Hj as [->|Hj]; [lia|by apply H2]|].
      specialize (H4 Hne). apply elem_of_cons in Hj as [->|Hj]; [lia|by apply H3].
    + intros _. destruct (decide (e = i)) as [->|Hne]; [done|specialize (H4 Hne); lia].
  - specialize (IH m sel ltac:(intros; apply Hr; by right) Hm Hl eq_refl). destruct (least_loaded _ _ _ _ _ _) as [b' e].
    destruct IH as (-> & H1 & H2 & H3 & H4). split_and!; [done|set_solver| | |done].
    + intros He j Hj. apply elem_of_cons in Hj as [->|Hj]; [lia|by apply H2].
    + intros He j Hj. apply elem_of_cons in Hj as [->|Hj]; [specialize (H4 He); lia|by apply H3].
Qed.

Lemma bounded_up now r c h b e :
  all_up b → loads_ok c (bp_n_eps b) → 0 ≤ e < bp_n_eps b →
  let '(b', sel) := bounded_pick now r c h b e in
  b' = b ∧ 0 ≤ sel < bp_n_eps b ∧ load_of c sel + 1 ≤ load_bound c (bp_n_eps b) ∧ (load_of c e + 1 ≤ load_bound c (bp_n_eps b) → sel = e).
Proof.
  intros Hup Hl He. pose proof (au_n _ Hup) as Hn. unfold bounded_pick. rewrite max_load_eq by done. pose proof (lo_nonneg _ _ Hl e He) as Hle. pose proof (load_term _ _ e Hl He) as Hlt. pose proof (lo_total _ _ Hl) as Htot.
  rewrite u64_small by lia. rewrite Z.gtb_ltb. destruct (Z.ltb_spec (load_bound c (bp_n_eps b)) (load_of c e + 1)) as [Hov|Hfit]; [|split_and!; [done|lia|lia|lia|done]].
  set (probe := chwbl_ring_lookup r (u64 (h + 1))).
  assert (Hp : (if (probe >=? 0) && (probe <? bp_n_eps b) then is_endpoint_healthy now probe b else (b, false)) = (b, (probe >=? 0) && (probe <? bp_n_eps b))).
  { destruct ((probe >=? 0) && (probe <? bp_n_eps b)) eqn:E; [|done]. zbool. apply up_healthy; [done|lia]. }
  rewrite Hp. destruct ((probe >=? 0) && (probe <? bp_n_eps b) && (load_of c probe <? load_bound c (bp_n_eps b))) eqn:E; [zbool; split_and!; [done|lia|lia|lia|lia]|].
  pose proof (least_up now c (bp_n_eps b) (zseq (bp_n_eps b)) b UINT32_MAX (-1) Hup ltac:(intros i; by rewrite zseq_in) ltac:(by left) Hl eq_refl) as Hls.
  destruct (least_loaded _ _ _ _ _ _) as [b' sel]. destruct Hls as (-> & H1 & H2 & H3 & _). destruct (decide (sel = -1)) as [->|Hne].
  { specialize (H2 eq_refl e ltac:(by apply zseq_in)). unfold UINT32_MAX in *. lia. }
  destruct H1 as [->|H1]; [done|]. rewrite zseq_in in H1. split_and!; [done|lia|lia| |lia].
  apply least_has_room; [done|lia|]. intros j Hj. apply H3; [done|by apply zseq_in].
Qed.

(** C26. A hashed selection respects health and the load bound, whatever the
    ring holds: it answers an endpoint that is in service and adds one to that
    endpoint's counter and to no other, or answers none and moves no counter. When
    every endpoint is up it always answers one, that endpoint's new load is within
    ceil((total + 1) * factor / (100 * n)), and the ring's own endpoint is the one
    chosen whenever it has room under that bound. *)
Theorem chwbl_select_bounded now hash p r c :
  l_ring p = Some r → l_config p = Some c → loads_ok c (l_n_eps p) → 0 < l_n_eps p ≤ MAX_PROXY_EP →
  let '(p', sel) := chwbl_select_endpoint now hash p in
  ∃ c', l_config p' = Some c' ∧
  match sel with
  | None => ∀ i, 0 ≤ i < MAX_PROXY_EP → load_of c' i = load_of c i
  | Some e => 0 ≤ e < l_n_eps p ∧ l_inv p e = 0 ∧ ∀ i, 0 ≤ i < MAX_PROXY_EP → load_of c' i = load_of c i + (if i =? e then 1 else 0)
  end ∧
  (all_up (w_b (l_w p)) → 0 ≤ chwbl_ring_lookup r hash < l_n_eps p →
   ∃ e, sel = Some e ∧ load_of c' e ≤ load_bound c (l_n_eps p) ∧
     (load_of c (chwbl_ring_lookup r hash) + 1 ≤ load_bound c (l_n_eps p) → e = chwbl_ring_lookup r hash)).
Proof.
  intros Hr Hc Hl Hn. unfold chwbl_select_endpoint, bounded_select. rewrite Hr, Hc. change (l_n_eps p) with (bp_n_eps (w_b (l_w p))) in *. unfold l_inv. set (b := w_b (l_w p)) in *.
  destruct (initial_sound now r hash b) as [Hs Hin].
  assert (Hup1 : all_up b → 0 ≤ chwbl_ring_lookup r hash < bp_n_eps b → initial_pick now r hash b = (b, chwbl_ring_lookup r hash)).
  { intros Hup He. unfold initial_pick. rewrite (proj2 (Z.ltb_ge _ _)), Z.geb_leb, (proj2 (Z.leb_gt _ _)) by lia. cbn [orb]. by rewrite up_healthy. }
  destruct (initial_pick now r hash b) as [b1 e]. cbn in Hs, Hin. destruct Hs as [Hs1 Hs2]. destruct (Z.ltb_spec e 0) as [Hneg|Hpos].
  - cbn. exists c. split; [done|]. split; [done|]. intros Hup He. specialize (Hup1 Hup He). simplify_eq. lia.
  - specialize (Hin Hpos) as [He1 He2]. pose proof (bounded_sound now r c hash b1 e ltac:(by rewrite Hs1) ltac:(by rewrite Hs2)) as Hb.
    assert (Hup2 : all_up b → 0 ≤ chwbl_ring_lookup r hash < bp_n_eps b → b1 = b ∧ e = chwbl_ring_lookup r hash) by (intros Hup He; specialize (Hup1 Hup He); by simplify_eq).
    pose proof (λ Hup, bounded_up now r c hash b1 e Hup) as Hbu. destruct (bounded_pick now r c hash b1 e) as [b2 sel]. destruct Hb as [[Hb1 Hb2] Hb3].
    assert (Hld : ∀ i, 0 ≤ i < bp_n_eps b → 0 ≤ load_of c i < 1073741824) by (intros i Hi; pose proof (load_term _ _ i Hl Hi); pose proof (lo_nonneg _ _ Hl i Hi); pose proof (lo_total _ _ Hl); lia).
    destruct (Z.ltb_spec sel 0) as [Hsn|Hsp]; cbn [Z.ltb].
    + cbn. exists c. split; [done|]. split; [done|]. intros Hup He. destruct (Hup2 Hup He) as [-> ->]. destruct (Hbu Hup Hl He) as (_ & Hx & _). lia.
    + rewrite (proj2 (Z.ltb_ge sel 0)) by lia. specialize (Hb3 Hsp) as [Hs3 Hs4]. rewrite Hs1, Hs2 in *. exists (set_load c sel (λ n, n + 1)). split; [done|].
      pose proof (Hld sel Hs3) as Hlsel.
      assert (Hget : ∀ i, 0 ≤ i < MAX_PROXY_EP → load_of (set_load c sel (λ n, n + 1)) i = load_of c i + (if i =? sel then 1 else 0)).
      { intros i Hi. rewrite (set_load_get c _ sel i _ Hl) by lia. destruct (Z.eqb_spec i sel) as [->|]; [rewrite u32_small by lia; lia|lia]. }
      split; [split_and!; [lia|lia|done|exact Hget]|]. intros Hup He. destruct (Hup2 Hup He) as [-> ->]. destruct (Hbu Hup Hl He) as (_ & _ & Hx & Hy).
      exists sel. split; [done|]. split; [rewrite Hget by lia; rewrite Z.eqb_refl; lia|done].
Qed.

(** The binary search answers what a walk along the ring would: the
    endpoint of the first virtual node whose hash is not below the request's, and
    of the last node when there is none; so asking again at the next hash value
    gives the same endpoint unless a node has exactly that hash. *)
Theorem chwbl_ring_lookup_exact r h :
  ring_ok r →
  Some (chwbl_ring_lookup r h) = vn_ep <$> ring_reference (r_vnodes r) h ∧
  ((∀ v, v ∈ r_vnodes r → vn_hash v ≠ h) → chwbl_ring_lookup r (h + 1) = chwbl_ring_lookup r h).
Proof. intros Hok. split; [by apply lookup_reference|by apply lookup_probe]. Qed.

(** A hash above every node goes to the last node, not round to the first. *)
Theorem chwbl_lookup_never_wraps r h v :
  ring_ok r → last (r_vnodes r) = Some v → (∀ u, u ∈ r_vnodes r → vn_hash u < h) → chwbl_ring_lookup r h = vn_ep v.
Proof.
  intros Hok Hlast Hall. apply (inj Some). rewrite lookup_reference by done. unfold ring_reference.
  destruct (List.find _ _) as [u|] eqn:E; [|by rewrite Hlast]. apply List.find_some in E as [Hu Hh]. apply list_elem_of_In in Hu. specialize (Hall u Hu). zbool. lia.
Qed.

(** ** Carrying the counters over *)

Lemma start_loads_get now p prev i :
  0 ≤ l_n_eps p ≤ MAX_PROXY_EP → 0 ≤ i < l_n_eps p →
  zget (start_loads now p prev) i =
    mk_ep_load (fst (carried_load prev (zget (w_eps (l_w p)) i))) (snd (carried_load prev (zget (w_eps (l_w p)) i))) now (l_inv p i =? 0).
Proof.
  intros Hn Hi. unfold start_loads.
  assert (Hk : ∀ k : nat, Z.of_nat k ≤ l_n_eps p → let ls := foldl (λ ls i, let '(active, requests) := carried_load prev (zget (w_eps (l_w p)) i) in
      zset ls i (mk_ep_load active requests now (l_inv p i =? 0))) (zrep MAX_PROXY_EP (mk_ep_load 0 0 0 false)) (zseq (Z.of_nat k)) in
    zlen ls = MAX_PROXY_EP ∧ (∀ j, 0 ≤ j < Z.of_nat k → zget ls j =
      mk_ep_load (fst (carried_load prev (zget (w_eps (l_w p)) j))) (snd (carried_load prev (zget (w_eps (l_w p)) j))) now (l_inv p j =? 0))).
  { induction k as [|k IH]; intros Hk; cbn zeta; [split; [done|intros; lia]|]. replace (Z.of_nat (S k)) with (Z.of_nat k + 1) by lia.
    rewrite zseq_snoc, foldl_app by lia. cbn [foldl]. destruct (IH ltac:(lia)) as [H1 H2]. destruct (carried_load prev (zget (w_eps (l_w p)) (Z.of_nat k))) as [a q] eqn:E.
    split; [by rewrite zlen_zset|]. intros j Hj. destruct (decide (j = Z.of_nat k)) as [->|Hne].
    - rewrite zget_zset_eq by lia. by rewrite E.
    - rewrite zget_zset_ne by lia. apply H2. lia. }
  destruct (Hk (Z.to_nat (l_n_eps p)) ltac:(lia)) as [_ H2]. rewrite Z2Nat.id in H2 by lia. by apply H2.
Qed.

(** A new generation of a pool is either refused whole, with no ring and no
    configuration, or has both, a configuration within its bounds, and for each
    endpoint the connections its address had before. *)
Theorem chwbl_prepare_keeps_loads `{QSort} XXH64 mc mr now p arg prev :
  wpool_ok (l_w p) → hashes p = true →
  let '(p', rc) := chwbl_prepare_runtime XXH64 mc mr now p arg prev in
  rc = -1 ∧ l_ring p' = None ∧ l_config p' = None ∨
  rc = 0 ∧ ∃ r c, l_ring p' = Some r ∧ l_config p' = Some c ∧
    1 ≤ prefix_hash_level c ≤ 3 ∧ 100 ≤ mean_load_factor c ≤ 300 ∧ 1 ≤ replication c ≤ 1024 ∧
    ∀ i, 0 ≤ i < l_n_eps p → load_of c i = fst (carried_load prev (zget (w_eps (l_w p)) i)).
Proof.
  intros Hok Hh. unfold chwbl_prepare_runtime. change (l_select (p <| l_ring := None |> <| l_config := None |>)) with (l_select p).
  change (l_n_eps (p <| l_ring := None |> <| l_config := None |>)) with (l_n_eps p). set (p0 := p <| l_ring := None |> <| l_config := None |>).
  unfold hashes in Hh. apply orb_true_iff in Hh. assert (Hsel : negb (l_select p =? PROXY_SEL_CHWBL) && negb (l_select p =? PROXY_SEL_WRR_HASH) = false) by (destruct Hh as [-> | ->]; by rewrite ?andb_false_r).
  rewrite Hsel. pose proof (wo_n _ Hok) as Hn. fold (l_n_eps p) in Hn. rewrite (proj2 (Z.leb_gt _ _)), Z.gtb_ltb, (proj2 (Z.ltb_ge _ _)) by lia. cbn [orb].
  destruct mc; cbn [negb]; [|by left]. set (c := mk_chwbl_config _ _ _ _ _ _). destruct (config_refused c) eqn:Ec; [by left|].
  cbn zeta. destruct (if l_select p =? PROXY_SEL_CHWBL then _ else _) as [r|]; [|by left]. right. split; [done|]. eexists r, _. split; [done|]. split; [done|].
  unfold config_refused in Ec. zbool. cbn -[c]. split_and!; [lia|lia|lia|lia|lia|lia|]. intros i Hi. unfold load_of. cbn.
  rewrite (start_loads_get now p0 prev i) by (change (l_n_eps p0) with (l_n_eps p); lia). done.
Qed.

(** ** Examples *)

(** A hash that adds up the bytes of the key. *)
Definition toy_hash (k : bytes) (seed : Z) : Z := u64 (seed * 977 + 131 * sumz (λ c, Z.of_nat (nat_of_ascii c)) k).

Definition two_up : lpool :=
  mk_lpool (mk_wpool (mk_bpool 2 true (zrep 32 circuit_breaker_init) (zrep 32 0) None fc_state_zero [] 0)
    ([mk_proxy_ep 1 80 3; mk_proxy_ep 2 80 1] ++ zrep 30 (mk_proxy_ep 0 0 0)) (zrep 32 0) 1 3 true)
    PROXY_SEL_WRR_HASH None (Some (mk_chwbl_config 175 5 (zrep 32 (mk_ep_load 4 0 0 true)) 1 0 false)).

(** The same with a third endpoint at the end. *)
Definition three_up : lpool :=
  two_up <| l_w ::= (λ w, w <| w_b ::= (λ b, b <| bp_n_eps := 3 |>) |> <| w_eps := [mk_proxy_ep 1 80 3; mk_proxy_ep 2 80 1; mk_proxy_ep 3 80 1] ++ zrep 29 (mk_proxy_ep 0 0 0) |>) |>.

Lemma two_up_ok : wpool_ok (l_w two_up).
Proof. split; [done|done|done|]. intros i Hi. assert (i = 0 ∨ i = 1) as [->| ->] by (cbn in Hi; lia); by vm_compute. Qed.

Lemma two_up_all_up : all_up (w_b (l_w two_up)).
Proof. split; [done|done| |]; intros i Hi; (assert (i = 0 ∨ i = 1) as [->| ->] by (cbn in Hi; lia)); done. Qed.

Lemma two_up_loads : loads_ok (mk_chwbl_config 175 5 (zrep 32 (mk_ep_load 4 0 0 true)) 1 0 false) 2.
Proof. split; [done| |done|done]. intros i Hi. assert (i = 0 ∨ i = 1) as [->| ->] by lia; by vm_compute. Qed.

Definition small_ring : chwbl_ring := mk_chwbl_ring 2 4 2 [mk_chwbl_vnode 10 0; mk_chwbl_vnode 20 1; mk_chwbl_vnode 30 0; mk_chwbl_vnode 40 1].

Lemma small_ring_ok : ring_ok small_ring.
Proof. split; [done|done|]. repeat constructor; unfold vnode_le; cbn; lia. Qed.

Lemma chwbl_ring_lookup_exact_witness : chwbl_ring_lookup small_ring 21 = 0 ∧ chwbl_ring_lookup small_ring 22 = 0.
Proof.
  destruct (chwbl_ring_lookup_exact small_ring 21 small_ring_ok) as [H1 H2].
  assert (H0 : chwbl_ring_lookup small_ring 21 = 0) by (apply (inj Some); rewrite H1; reflexivity). split; [exact H0|]. transitivity (chwbl_ring_lookup small_ring 21); [|exact H0]. apply H2. intros v Hv. cbn in Hv.
  repeat (apply elem_of_cons in Hv as [->|Hv]; [done|]). by apply elem_of_nil in Hv.
Defined.

Lemma chwbl_lookup_never_wraps_witness : chwbl_ring_lookup small_ring 41 = 1 ∧ vn_ep <$> head (r_vnodes small_ring) = Some 0.
Proof.
  split; [|done]. apply (chwbl_lookup_never_wraps small_ring 41 (mk_chwbl_vnode 40 1) small_ring_ok eq_refl). intros u Hu. cbn in Hu.
  repeat (apply elem_of_cons in Hu as [->|Hu]; [done|]). by apply elem_of_nil in Hu.
Defined.

Lemma chwbl_ring_consistent_witness :
  ∃ r r', chwbl_create_ring (H := qsort_merge) toy_hash true two_up 3 = Some r ∧ chwbl_create_ring (H := qsort_merge) toy_hash true three_up 3 = Some r' ∧
    (chwbl_ring_lookup r' 7 = chwbl_ring_lookup r 7 ∨ chwbl_ring_lookup r' 7 = 2).
Proof.
  eexists _, _. split; [vm_compute; reflexivity|]. split; [vm_compute; reflexivity|].
  apply (chwbl_ring_consistent (H := qsort_merge) toy_hash true true two_up three_up 3); [vm_compute; reflexivity|vm_compute; reflexivity| |].
  - split; [done|]. intros i Hi. assert (i = 0 ∨ i = 1) as [->| ->] by (cbn in Hi; lia); done.
  - apply (bool_decide_unpack _). by vm_compute.
Defined.

Lemma chwbl_weighted_ring_exact_witness :
  ∃ r, chwbl_create_weighted_ring (H := qsort_merge) toy_hash true two_up 5 = Some r ∧ r_n_vnodes r = 5 ∧
    (nodes_of 0 (r_vnodes r) = 3 ∨ nodes_of 0 (r_vnodes r) = 4 ∧ 0 < 1).
Proof.
  destruct (chwbl_weighted_ring_exact (H := qsort_merge) toy_hash two_up 5 two_up_ok ltac:(by vm_compute) ltac:(by vm_compute)) as (r & H1 & _ & H2 & _ & H3 & _).
  exists r. split; [exact H1|]. split; [exact H2|]. assert (Hi : 0 ∈ positive_eps two_up) by (vm_compute; constructor). exact (H3 0 Hi).
Defined.

Lemma chwbl_select_bounded_witness : ∃ e, snd (chwbl_select_endpoint 0 21 (two_up <| l_ring := Some small_ring |>)) = Some e ∧ e = 0.
Proof.
  pose proof (chwbl_select_bounded 0 21 (two_up <| l_ring := Some small_ring |>) small_ring _ eq_refl eq_refl two_up_loads ltac:(by vm_compute)) as H.
  destruct (chwbl_select_endpoint 0 21 _) as [p' sel]. destruct H as (c' & _ & _ & H).
  destruct (H two_up_all_up ltac:(by vm_compute)) as (e & He & _ & H3). exists e. split; [exact He|]. apply H3. by vm_compute.
Defined.

(** The fallback asks every endpoint and so spends a half-open endpoint's probe
    without choosing it: three endpoints, the ring's own one at its bound, the
    second half-open with one probe left and loaded most; the third is chosen and
    the second has no probe left. *)
Definition half_open_pool : lpool :=
  mk_lpool
    ((l_w three_up) <| w_b ::= (λ b, b <| bp_cbs ::= (λ l, zset l 1 (circuit_breaker_init <| cb_st := CB_STATE_HALF_OPEN |> <| half_open_requests := 2 |>)) |>) |>)
    PROXY_SEL_CHWBL (Some (mk_chwbl_ring 1 1 3 [mk_chwbl_vnode 10 0]))
    (Some (mk_chwbl_config 100 1 ([mk_ep_load 6 0 0 true; mk_ep_load 9 0 0 true] ++ zrep 30 (mk_ep_load 0 0 0 true)) 1 0 false)).

Theorem chwbl_fallback_spends_probes :
  let '(p', sel) := chwbl_select_endpoint 0 5 half_open_pool in
  sel = Some 2 ∧ half_open_requests (bp_cb (w_b (l_w half_open_pool)) 1) < half_open_max_requests (bp_cb (w_b (l_w half_open_pool)) 1) ∧
  half_open_requests (bp_cb (w_b (l_w p')) 1) = half_open_max_requests (bp_cb (w_b (l_w p')) 1).
Proof. vm_compute. done. Qed.
