(* ===== verification/TraceRing.v ===== *)
(** * The trace rings (src/common/lxb_ring.h, lxb_ring.c)

    Each worker writes its trace events into a ring of its own, in shared memory,
    which a reader outside the process empties; neither waits for the other. The
    operations first as functions; then the two sides step by step, every load,
    store and copy apart, in any order: the ring is a queue, no slot is written
    while it is read, an event is dropped only when the ring is full. Beside them
    the table that gives each worker its ring, and the generator of trace ids. *)

From stdpp Require Import base list gmap numbers.
From S2P Require Import Prelude.

Definition LXB_RING_CAP : Z := 8192.
Definition LXB_RING_MASK : Z := LXB_RING_CAP - 1.

(** ** One ring *)

Section ring.
Context {E : Type} `{Inhabited E}.

(** The cap field and the notification descriptor are left out: neither is read
    by an operation that decides. *)
Record lxb_ring := mk_lxb_ring { r_w : Z; r_r : Z; r_dropped : Z; r_ev : list E }.
#[export] Instance lxb_ring_eta : RecordEta lxb_ring := fun r => mk_lxb_ring (r_w r) (r_r r) (r_dropped r) (r_ev r).

Definition next (i : Z) : Z := Z.land (u32 (i + 1)) LXB_RING_MASK.

Definition lxb_ring_push (rb : lxb_ring) (e : E) : lxb_ring * Z :=
  let w := r_w rb in
  let r := r_r rb in
  if next w =? r then (rb <| r_dropped ::= (λ d, u32 (d + 1)) |>, -1)
  else (rb <| r_ev ::= (λ l, zset l w e) |> <| r_w := next w |>, 0).

Definition lxb_ring_pop (rb : lxb_ring) : lxb_ring * option E :=
  let r := r_r rb in
  let w := r_w rb in
  if r =? w then (rb, None) else (rb <| r_r := next r |>, Some (zget (r_ev rb) r)).

Definition lxb_ring_size (rb : lxb_ring) : Z := Z.land (u32 (r_w rb - r_r rb)) LXB_RING_MASK.
Definition lxb_ring_dropped (rb : lxb_ring) : Z := r_dropped rb.

(** ** The two sides, step by step *)

(** Where the writer is: it has loaded w; it has loaded r and found room; it has
    copied the event; it has found the ring full. *)
Inductive wstate := WIdle | WLoadedW (e : E) (w : Z) | WRoom (e : E) (w : Z) | WCopied (e : E) (w : Z) | WFull (e : E).
(** Where the reader is: it has loaded r; it has loaded w and found an event; it
    has copied the event. *)
Inductive rstate := RIdle | RLoadedR (r : Z) | RSome (r : Z) | RCopied (r : Z) (e : E).

(** The ring and both sides, with what has been accepted and taken so far and,
    for each event dropped, how many were in the ring when the writer looked. *)
Record rsys := mk_rsys { s_ring : lxb_ring; s_wr : wstate; s_rd : rstate; s_accepted : list E; s_taken : list E; s_drops : list Z }.
#[export] Instance rsys_eta : RecordEta rsys := fun r => mk_rsys (s_ring r) (s_wr r) (s_rd r) (s_accepted r) (s_taken r) (s_drops r).

Inductive ring_step : rsys → rsys → Prop :=
| step_load_w s e : s_wr s = WIdle → ring_step s (s <| s_wr := WLoadedW e (r_w (s_ring s)) |>)
| step_room s e w : s_wr s = WLoadedW e w → next w ≠ r_r (s_ring s) → ring_step s (s <| s_wr := WRoom e w |>)
| step_full s e w : s_wr s = WLoadedW e w → next w = r_r (s_ring s) → ring_step s (s <| s_wr := WFull e |> <| s_drops ::= (λ l, l ++ [lxb_ring_size (s_ring s)]) |>)
| step_drop s e : s_wr s = WFull e → ring_step s (s <| s_ring ::= (λ rb, rb <| r_dropped ::= (λ d, u32 (d + 1)) |>) |> <| s_wr := WIdle |>)
| step_copy s e w : s_wr s = WRoom e w → ring_step s (s <| s_ring ::= (λ rb, rb <| r_ev ::= (λ l, zset l w e) |>) |> <| s_wr := WCopied e w |>)
| step_publish s e w : s_wr s = WCopied e w → ring_step s (s <| s_ring ::= (λ rb, rb <| r_w := next w |>) |> <| s_wr := WIdle |> <| s_accepted ::= (λ l, l ++ [e]) |>)
| step_load_r s : s_rd s = RIdle → ring_step s (s <| s_rd := RLoadedR (r_r (s_ring s)) |>)
| step_empty s r : s_rd s = RLoadedR r → r = r_w (s_ring s) → ring_step s (s <| s_rd := RIdle |>)
| step_some s r : s_rd s = RLoadedR r → r ≠ r_w (s_ring s) → ring_step s (s <| s_rd := RSome r |>)
| step_read s r : s_rd s = RSome r → ring_step s (s <| s_rd := RCopied r (zget (r_ev (s_ring s)) r) |>)
| step_advance s r e : s_rd s = RCopied r e → ring_step s (s <| s_ring ::= (λ rb, rb <| r_r := next r |>) |> <| s_rd := RIdle |> <| s_taken ::= (λ l, l ++ [e]) |>).

Definition ring_zero (ev : list E) : lxb_ring := mk_lxb_ring 0 0 0 ev.
Definition sys_zero (ev : list E) : rsys := mk_rsys (ring_zero ev) WIdle RIdle [] [] [].

(** ** The queue a ring stands for *)

Definition queue (rb : lxb_ring) : list E := (λ k, zget (r_ev rb) ((r_r rb + k) mod LXB_RING_CAP)) <$> zseq ((r_w rb - r_r rb) mod LXB_RING_CAP).

Record lxb_ok (rb : lxb_ring) : Prop := { ro_w : 0 <= r_w rb < LXB_RING_CAP; ro_r : 0 <= r_r rb < LXB_RING_CAP; ro_ev : zlen (r_ev rb) = LXB_RING_CAP }.

Lemma ring_mask_mod z : 0 <= z → Z.land z LXB_RING_MASK = z mod LXB_RING_CAP.
Proof. intros Hz. change LXB_RING_MASK with (Z.ones 13). rewrite Z.land_ones by lia. done. Qed.

Lemma next_mod i : 0 <= i < LXB_RING_CAP → next i = (i + 1) mod LXB_RING_CAP.
Proof. intros Hi. unfold next. unfold LXB_RING_CAP in Hi. rewrite u32_small by lia. apply ring_mask_mod. lia. Qed.

Lemma next_range i : 0 <= i < LXB_RING_CAP → 0 <= next i < LXB_RING_CAP.
Proof. intros Hi. rewrite next_mod by done. apply Z.mod_pos_bound. done. Qed.

Lemma size_queue rb : lxb_ok rb → lxb_ring_size rb = zlen (queue rb).
Proof.
  intros [Hw Hr _]. unfold lxb_ring_size, queue. pose proof (Z.mod_pos_bound (r_w rb - r_r rb) LXB_RING_CAP ltac:(done)) as Hm.
  assert (E1 : zlen ((λ k, zget (r_ev rb) ((r_r rb + k) mod LXB_RING_CAP)) <$> zseq ((r_w rb - r_r rb) mod LXB_RING_CAP)) = (r_w rb - r_r rb) mod LXB_RING_CAP) by (unfold zlen, zseq; rewrite !length_fmap, length_seq; lia). rewrite E1.
  unfold u32. rewrite ring_mask_mod by (apply Z.mod_pos_bound; done). change 4294967296 with (LXB_RING_CAP * 524288). apply Z.mod_mod_divide. by exists 524288.
Qed.

Lemma gap_cases w r : 0 <= w < LXB_RING_CAP → 0 <= r < LXB_RING_CAP → (w - r) mod LXB_RING_CAP = if r <=? w then w - r else w - r + LXB_RING_CAP.
Proof.
  intros Hw Hr. unfold LXB_RING_CAP in *. destruct (Z.leb_spec r w); [apply Z.mod_small; lia|]. rewrite <- (Z.mod_add (w - r) 1) by lia. apply Z.mod_small. lia.
Qed.

Lemma next_cases i : 0 <= i < LXB_RING_CAP → next i = if i + 1 =? LXB_RING_CAP then 0 else i + 1.
Proof. intros Hi. rewrite next_mod by done. unfold LXB_RING_CAP in *. destruct (Z.eqb_spec (i + 1) 8192) as [->|]; [done|]. apply Z.mod_small. lia. Qed.

(** How many events there are *)
Definition gap (rb : lxb_ring) : Z := (r_w rb - r_r rb) mod LXB_RING_CAP.

Lemma gap_range rb : 0 <= gap rb < LXB_RING_CAP.
Proof. unfold gap. by apply Z.mod_pos_bound. Qed.

Lemma gap_zero rb : lxb_ok rb → gap rb = 0 ↔ r_r rb = r_w rb.
Proof. intros [Hw Hr _]. unfold gap. rewrite gap_cases by done. unfold LXB_RING_CAP in *. destruct (Z.leb_spec (r_r rb) (r_w rb)); lia. Qed.

Lemma gap_full rb : lxb_ok rb → gap rb = LXB_RING_CAP - 1 ↔ next (r_w rb) = r_r rb.
Proof. intros [Hw Hr _]. unfold gap. rewrite gap_cases, next_cases by done. unfold LXB_RING_CAP in *. destruct (Z.leb_spec (r_r rb) (r_w rb)), (Z.eqb_spec (r_w rb + 1) 8192); lia. Qed.

Lemma gap_push rb : lxb_ok rb → gap rb < LXB_RING_CAP - 1 → gap (rb <| r_w := next (r_w rb) |>) = gap rb + 1.
Proof.
  intros Hok Hg. pose proof Hok as [Hw Hr _]. unfold gap in *. cbn [r_w r_r field_set lxb_ring_eta]. change (r_w (rb <| r_w := next (r_w rb) |>)) with (next (r_w rb)). change (r_r (rb <| r_w := next (r_w rb) |>)) with (r_r rb).
  rewrite !gap_cases in * by (done || by apply next_range). rewrite next_cases by done. unfold LXB_RING_CAP in *. destruct (Z.leb_spec (r_r rb) (r_w rb)), (Z.eqb_spec (r_w rb + 1) 8192); case_match; zbool; lia.
Qed.

Lemma gap_pop rb : lxb_ok rb → 0 < gap rb → gap (rb <| r_r := next (r_r rb) |>) = gap rb - 1.
Proof.
  intros Hok Hg. pose proof Hok as [Hw Hr _]. unfold gap in *. change (r_w (rb <| r_r := next (r_r rb) |>)) with (r_w rb). change (r_r (rb <| r_r := next (r_r rb) |>)) with (next (r_r rb)).
  rewrite !gap_cases in * by (done || by apply next_range). rewrite next_cases by done. unfold LXB_RING_CAP in *. destruct (Z.leb_spec (r_r rb) (r_w rb)), (Z.eqb_spec (r_r rb + 1) 8192); case_match; zbool; lia.
Qed.

(** Where an event is *)
Lemma slot_of rb k : lxb_ok rb → 0 <= k < LXB_RING_CAP → (r_r rb + k) mod LXB_RING_CAP = r_w rb ↔ k = gap rb.
Proof.
  intros [Hw Hr _] Hk. unfold gap. unfold LXB_RING_CAP in *. split; [intros <-|intros ->].
  - replace ((r_r rb + k) mod 8192 - r_r rb) with (((r_r rb + k) mod 8192) - r_r rb mod 8192) by (rewrite (Z.mod_small (r_r rb)) by lia; done). rewrite <- Zminus_mod. replace (r_r rb + k - r_r rb) with k by lia. symmetry. by apply Z.mod_small.
  - rewrite Zplus_mod_idemp_r. replace (r_r rb + (r_w rb - r_r rb)) with (r_w rb) by lia. by apply Z.mod_small.
Qed.

Lemma queue_copy rb e : lxb_ok rb → queue (rb <| r_ev ::= (λ l, zset l (r_w rb) e) |>) = queue rb.
Proof.
  intros Hok. pose proof Hok as [Hw Hr Hl]. unfold queue. cbn [r_w r_r r_ev]. apply list_fmap_ext. intros n k Hk. apply list_elem_of_lookup_2 in Hk. rewrite zseq_in in Hk. fold (gap rb) in Hk. pose proof (gap_range rb).
  change (r_ev (rb <| r_ev ::= (λ l, zset l (r_w rb) e) |>)) with (zset (r_ev rb) (r_w rb) e). pose proof (Z.mod_pos_bound (r_r rb + k) LXB_RING_CAP ltac:(done)) as Hm. change (r_r (rb <| r_ev ::= (λ l, zset l (r_w rb) e) |>)) with (r_r rb).
  apply zget_zset_ne; [lia|lia|]. intros Heq. symmetry in Heq. apply slot_of in Heq; [lia|done|lia].
Qed.

Lemma queue_publish rb e : lxb_ok rb → gap rb < LXB_RING_CAP - 1 → zget (r_ev rb) (r_w rb) = e → queue (rb <| r_w := next (r_w rb) |>) = queue rb ++ [e].
Proof.
  intros Hok Hg He. pose proof (gap_push rb Hok Hg) as Hp. unfold queue. fold (gap (rb <| r_w := next (r_w rb) |>)) (gap rb). rewrite Hp. pose proof (gap_range rb). rewrite zseq_snoc by lia. rewrite fmap_app. f_equal. cbn [fmap list_fmap]. f_equal.
  change (r_ev (rb <| r_w := next (r_w rb) |>)) with (r_ev rb). change (r_r (rb <| r_w := next (r_w rb) |>)) with (r_r rb). rewrite (proj2 (slot_of rb (gap rb) Hok ltac:(lia)) eq_refl). done.
Qed.

Lemma queue_take rb : lxb_ok rb → 0 < gap rb → queue rb = zget (r_ev rb) (r_r rb) :: queue (rb <| r_r := next (r_r rb) |>).
Proof.
  intros Hok Hg. pose proof Hok as [Hw Hr _]. pose proof (gap_pop rb Hok Hg) as Hp. unfold queue. fold (gap (rb <| r_r := next (r_r rb) |>)) (gap rb). rewrite Hp. rewrite (zseq_cons (gap rb)) by done. cbn [fmap list_fmap].
  change (r_ev (rb <| r_r := next (r_r rb) |>)) with (r_ev rb). change (r_r (rb <| r_r := next (r_r rb) |>)) with (next (r_r rb)). f_equal; [rewrite Z.add_0_r, Z.mod_small by done; done|].
  rewrite <- list_fmap_compose. apply list_fmap_ext. intros n k Hk. cbn. f_equal. rewrite next_mod by done. rewrite Zplus_mod_idemp_l. f_equal. lia.
Qed.

(** ** Every order of the two sides *)

Definition wr_inv (rb : lxb_ring) (s : wstate) : Prop :=
  match s with
  | WIdle | WFull _ => True
  | WLoadedW _ w => w = r_w rb
  | WRoom _ w => w = r_w rb ∧ gap rb < LXB_RING_CAP - 1
  | WCopied e w => w = r_w rb ∧ gap rb < LXB_RING_CAP - 1 ∧ zget (r_ev rb) w = e
  end.
Definition rd_inv (rb : lxb_ring) (s : rstate) : Prop :=
  match s with
  | RIdle => True
  | RLoadedR r => r = r_r rb
  | RSome r => r = r_r rb ∧ 0 < gap rb
  | RCopied r e => r = r_r rb ∧ 0 < gap rb ∧ zget (r_ev rb) r = e
  end.
Definition pending (s : wstate) : Z := match s with WFull _ => 1 | _ => 0 end.

Record rsys_inv (s : rsys) : Prop := {
  si_ok : lxb_ok (s_ring s); si_fifo : s_accepted s = s_taken s ++ queue (s_ring s); si_wr : wr_inv (s_ring s) (s_wr s); si_rd : rd_inv (s_ring s) (s_rd s);
  si_full : Forall (λ n, n = LXB_RING_CAP - 1) (s_drops s); si_count : r_dropped (s_ring s) = u32 (zlen (s_drops s) - pending (s_wr s))
}.

Lemma gap_of w r d ev d' ev' : gap (mk_lxb_ring w r d ev) = gap (mk_lxb_ring w r d' ev').
Proof. done. Qed.

Lemma copy_inv w r d ev wr rd acc tk dr e : rsys_inv (mk_rsys (mk_lxb_ring w r d ev) wr rd acc tk dr) → wr = WRoom e w → rsys_inv (mk_rsys (mk_lxb_ring w r d (zset ev w e)) (WCopied e w) rd acc tk dr).
Proof.
  intros [Ok Fi Wr Rd Fu Co] ->. cbn in *. pose proof Ok as [Hw Hr Hl]. cbn in *. destruct Wr as [_ Hg].
  assert (Hok' : lxb_ok (mk_lxb_ring w r d (zset ev w e))) by (split; [done|done|cbn; by rewrite zlen_zset]).
  split; cbn; [done|rewrite Fi; f_equal; symmetry; exact (queue_copy (mk_lxb_ring w r d ev) e Ok)|split; [done|split; [done|by rewrite zget_zset_eq by lia]]| |done|done].
  destruct rd as [|r0|r0|r0 x]; cbn in *; [done|done|done|]. destruct Rd as (-> & Hp & Hx). split; [done|]. split; [done|]. rewrite zget_zset_ne; [done|lia|lia|]. intros Heq. symmetry in Heq. apply (gap_zero (mk_lxb_ring w r d ev) Ok) in Heq. lia.
Qed.

Lemma publish_inv w r d ev rd acc tk dr e : rsys_inv (mk_rsys (mk_lxb_ring w r d ev) (WCopied e w) rd acc tk dr) → rsys_inv (mk_rsys (mk_lxb_ring (next w) r d ev) WIdle rd (acc ++ [e]) tk dr).
Proof.
  intros [Ok Fi (_ & Hg & He) Rd Fu Co]. cbn in *. pose proof Ok as [Hw Hr Hl]. cbn in *. pose proof (gap_push (mk_lxb_ring w r d ev) Ok Hg) as Hp. change (gap (mk_lxb_ring (next w) r d ev) = gap (mk_lxb_ring w r d ev) + 1) in Hp. pose proof (gap_range (mk_lxb_ring w r d ev)).
  split; cbn; [split; cbn; [by apply next_range|done|done]| |done| |done|done].
  - rewrite Fi, <- app_assoc. f_equal. symmetry. exact (queue_publish (mk_lxb_ring w r d ev) e Ok Hg He).
  - destruct rd as [|r0|r0|r0 x]; cbn in *; [done|done|split; [apply Rd|lia]|split; [apply Rd|split; [lia|apply Rd]]].
Qed.

Lemma advance_inv w r d ev wr acc tk dr x : rsys_inv (mk_rsys (mk_lxb_ring w r d ev) wr (RCopied r x) acc tk dr) → rsys_inv (mk_rsys (mk_lxb_ring w (next r) d ev) wr RIdle acc (tk ++ [x]) dr).
Proof.
  intros [Ok Fi Wr (_ & Hg & He) Fu Co]. cbn in *. pose proof Ok as [Hw Hr Hl]. cbn in *. pose proof (gap_pop (mk_lxb_ring w r d ev) Ok Hg) as Hp. change (gap (mk_lxb_ring w (next r) d ev) = gap (mk_lxb_ring w r d ev) - 1) in Hp.
  split; cbn; [split; cbn; [done|by apply next_range|done]| | |done|done|done].
  - rewrite Fi. rewrite (queue_take (mk_lxb_ring w r d ev) Ok Hg). cbn [r_ev r_r]. rewrite He, <- app_assoc. done.
  - destruct wr as [|e0 w0|e0 w0|e0 w0|e0]; cbn in *; [done|done|split; [apply Wr|lia]|split; [apply Wr|split; [lia|apply Wr]]|done].
Qed.

Lemma ring_step_inv s s' : rsys_inv s → ring_step s s' → rsys_inv s'.
Proof.
  intros Hs Hst. destruct Hst as [s e Hw|s e w Hw Hn|s e w Hw Hn|s e Hw|s e w Hw|s e w Hw|s Hr|s r Hr Hn|s r Hr Hn|s r Hr|s r e Hr]; destruct s as [[rw rr d ev] wr rd acc tk dr]; cbn in *; subst.
  - destruct Hs; by split.
  - destruct Hs as [Ok Fi Wr Rd Fu Co]. cbn in *. subst w. split; cbn; [done|done| |done|done|done]. split; [done|]. pose proof (gap_range (mk_lxb_ring rw rr d ev)). assert (gap (mk_lxb_ring rw rr d ev) ≠ LXB_RING_CAP - 1) by (intros E1; by apply gap_full in E1). lia.
  - destruct Hs as [Ok Fi Wr Rd Fu Co]. cbn in *. subst w. split; cbn; [done|done|done|done| |].
    + apply Forall_app. split; [done|]. constructor; [|done]. rewrite size_queue by done. rewrite <- (proj2 (gap_full _ Ok) eq_refl). pose proof (gap_range (mk_lxb_ring rw (next rw) d ev)). unfold queue, zlen, zseq. rewrite !length_fmap, length_seq. unfold gap in *. cbn [r_w r_r] in *. lia.
    + rewrite Co, zlen_app. change (zlen [_]) with 1. f_equal. lia.
  - destruct Hs as [Ok Fi Wr Rd Fu Co]. cbn in *. split; cbn; [destruct Ok; by split|done|done|done|done|]. rewrite Co. unfold u32. rewrite Zplus_mod_idemp_l. f_equal. lia.
  - pose proof (si_wr _ Hs) as [Hw _]. cbn in Hw. subst w. by eapply copy_inv.
  - pose proof (si_wr _ Hs) as [Hw _]. cbn in Hw. subst w. by apply publish_inv.
  - destruct Hs; by split.
  - destruct Hs; by split.
  - destruct Hs as [Ok Fi Wr Rd Fu Co]. cbn in *. subst r. split; cbn; [done|done|done| |done|done]. split; [done|]. pose proof (gap_range (mk_lxb_ring rw rr d ev)). assert (gap (mk_lxb_ring rw rr d ev) ≠ 0) by (intros E1; by apply gap_zero in E1). lia.
  - destruct Hs as [Ok Fi Wr Rd Fu Co]. cbn in *. destruct Rd as [-> Hg]. by split.
  - pose proof (si_rd _ Hs) as [Hr _]. cbn in Hr. subst r. by apply advance_inv.
Qed.

Lemma sys_zero_inv ev : zlen ev = LXB_RING_CAP → rsys_inv (sys_zero ev).
Proof. intros Hl. split; cbn; [by split|done|done|done|done|done]. Qed.

(** C24. A trace ring is a queue. With the writer and the reader
    interleaved in any way, load by load and copy by copy: the events taken are
    the first of those accepted, in their order, and the rest are in the ring,
    8191 at most; the slot the writer copies into is never the one the reader
    copies from; every event that was dropped found the ring full, and the counter
    of drops is their number. *)
Theorem trace_ring_is_queue ev s : zlen ev = LXB_RING_CAP → steps ring_step (sys_zero ev) s →
  s_accepted s = s_taken s ++ queue (s_ring s) ∧ lxb_ring_size (s_ring s) = zlen (queue (s_ring s)) ∧ zlen (queue (s_ring s)) <= LXB_RING_CAP - 1 ∧
  (∀ e w r, s_wr s = WRoom e w → s_rd s = RSome r → w ≠ r) ∧
  Forall (λ n, n = LXB_RING_CAP - 1) (s_drops s) ∧ (s_wr s = WIdle → lxb_ring_dropped (s_ring s) = u32 (zlen (s_drops s))).
Proof.
  intros Hl Hs. apply (steps_invariant ring_step rsys_inv) in Hs; [|exact ring_step_inv|by apply sys_zero_inv]. destruct Hs as [Ok Fi Wr Rd Fu Co]. pose proof (gap_range (s_ring s)) as Hg.
  assert (Hq : zlen (queue (s_ring s)) = gap (s_ring s)) by (unfold queue, zlen, zseq, gap in *; rewrite !length_fmap, length_seq; lia).
  split_and!; [done|by apply size_queue|rewrite Hq; lia| |done|].
  - intros e w r Hw Hr. rewrite Hw in Wr. rewrite Hr in Rd. destruct Wr as [-> _], Rd as [-> Hp]. intros Heq. symmetry in Heq. apply gap_zero in Heq; [lia|done].
  - intros Hw. unfold lxb_ring_dropped. rewrite Co, Hw. cbn. f_equal. lia.
Qed.

End ring.

(** ** The functions are runs of one side *)

Section alone.
Context {E : Type} `{Inhabited E}.
Local Abbreviation lxb_ring := (lxb_ring (E := E)).
Local Abbreviation rsys := (rsys (E := E)).

Lemma push_alone (s : rsys) e : s_wr s = WIdle → let '(rb, rc) := lxb_ring_push (s_ring s) e in
  ∃ s', steps ring_step s s' ∧ s_ring s' = rb ∧ s_wr s' = WIdle ∧ s_rd s' = s_rd s ∧ s_taken s' = s_taken s ∧ s_accepted s' = s_accepted s ++ (if rc =? 0 then [e] else []).
Proof.
  destruct s as [rb wr rd acc tk dr]. cbn. intros ->. unfold lxb_ring_push. destruct (Z.eqb_spec (next (r_w rb)) (r_r rb)) as [Hf|Hf]; eexists; (split; [eapply steps_cons; [apply (step_load_w _ e); done|]|]).
  - eapply steps_cons; [eapply step_full; done|]. eapply steps_cons; [eapply step_drop; done|]. apply steps_refl.
  - cbn. by rewrite app_nil_r.
  - eapply steps_cons; [eapply step_room; done|]. eapply steps_cons; [eapply step_copy; done|]. eapply steps_cons; [eapply step_publish; done|]. apply steps_refl.
  - cbn. by destruct rb.
Qed.

Lemma pop_alone (s : rsys) : s_rd s = RIdle → let '(rb, x) := lxb_ring_pop (s_ring s) in
  ∃ s', steps ring_step s s' ∧ s_ring s' = rb ∧ s_rd s' = RIdle ∧ s_wr s' = s_wr s ∧ s_accepted s' = s_accepted s ∧ s_taken s' = s_taken s ++ (match x with Some e => [e] | None => [] end).
Proof.
  destruct s as [rb wr rd acc tk dr]. cbn. intros ->. unfold lxb_ring_pop. destruct (Z.eqb_spec (r_r rb) (r_w rb)) as [Hf|Hf]; eexists; (split; [eapply steps_cons; [apply step_load_r; done|]|]).
  - eapply steps_cons; [eapply step_empty; done|]. apply steps_refl.
  - cbn. by rewrite app_nil_r.
  - eapply steps_cons; [eapply step_some; done|]. eapply steps_cons; [eapply step_read; done|]. eapply steps_cons; [eapply step_advance; done|]. apply steps_refl.
  - done.
Qed.

End alone.

(** ** Whose ring it is *)

Definition MAX_WORKERS : Z := 32.

(** [g_rings] says which rings are mapped; a thread is a positive number, and the
    thread-local variables are maps from threads. *)
Record workers := mk_workers { g_num_workers : Z; g_rings : list bool; g_worker_tids : list Z; g_worker_id : gmap Z Z; g_rng_state : gmap Z Z }.
#[export] Instance workers_eta : RecordEta workers := fun r => mk_workers (g_num_workers r) (g_rings r) (g_worker_tids r) (g_worker_id r) (g_rng_state r).

Definition ring_at (st : workers) (i : Z) : option Z := if zget (g_rings st) i then Some i else None.

(** The first [num_workers] entries *)
Definition set_rings (on : bool) (num : Z) (l : list bool) : list bool := foldl (λ l i, zset l i on) l (zseq num).

(** [ok] is that every ring could be made and mapped. *)
Definition lxb_ring_init (ok : bool) (num_workers : Z) (st : workers) : workers * Z :=
  if num_workers >? MAX_WORKERS then (st, -1)
  else
    let st := st <| g_num_workers := num_workers |> in
    if ok then (st <| g_rings ::= set_rings true num_workers |>, 0) else (st <| g_rings ::= set_rings false num_workers |>, -1).

Definition lxb_ring_cleanup (st : workers) : workers := st <| g_rings ::= set_rings false (g_num_workers st) |>.
Definition lxb_ring_is_initialized (st : workers) : bool := (g_num_workers st >? 0) && zget (g_rings st) 0.

Definition RNG_SEED : Z := 1311768467463790320.
Definition worker_seed (worker_id sec nsec : Z) : Z :=
  let s := Z.lor (Z.lor (u64 (Z.shiftl worker_id 48)) (u64 (Z.shiftl sec 32))) nsec in if s =? 0 then RNG_SEED else s.

(** [self] calls; the clock shows [sec] and [nsec]. *)
Definition lxb_ring_set_worker_id (self sec nsec worker_id : Z) (st : workers) : workers :=
  let st := if (worker_id >=? 0) && (worker_id <? MAX_WORKERS) then st <| g_worker_tids ::= (λ l, zset l worker_id self) |> else st in
  if g_num_workers st =? 0 then st
  else if (worker_id <? 0) || (worker_id >=? g_num_workers st) then st
  else st <| g_worker_id ::= <[self := worker_id]> |> <| g_rng_state ::= <[self := worker_seed worker_id sec nsec]> |>.

Definition id_of (st : workers) (self : Z) : Z := default (-1) (g_worker_id st !! self).

Definition lxb_ring_get (self sec nsec : Z) (st : workers) : workers * option Z :=
  let id := id_of st self in
  if (id >=? 0) && (id <? g_num_workers st) then (st, ring_at st id)
  else if (g_num_workers st >? 0) && (id <? 0) then
    match List.find (λ i, zget (g_worker_tids st) i =? self) (zseq (g_num_workers st)) with
    | Some i => (lxb_ring_set_worker_id self sec nsec i st, ring_at st i)
    | None => (st <| g_worker_id ::= <[self := g_num_workers st]> |>, None)
    end
  else (st, None).

(** lxb_trace_get_stats (sockproxy_trace.c): the events waiting and dropped and the
    use of each ring, for rings of the sizes and drops given *)
Definition PROXY_MAX_THREADS : Z := 32.
Definition lxb_trace_get_stats (self sec nsec : Z) (size dropped : Z → Z) (st : workers) : workers * (Z * Z * list Z) :=
  foldl (λ '(st, (total, drops, util)) i,
      match lxb_ring_get self sec nsec st with
      | (st, Some r) => (st, (u64 (total + size r), u64 (drops + dropped r), zset util i (size r)))
      | (st, None) => (st, (total, drops, util))
      end) (st, (0, 0, zrep PROXY_MAX_THREADS 0)) (zseq PROXY_MAX_THREADS).

(** ** Trace ids *)

Definition xorshift64star (state : Z) : Z * Z :=
  let x := Z.lxor state (Z.shiftr state 12) in
  let x := Z.lxor x (u64 (Z.shiftl x 25)) in
  let x := Z.lxor x (Z.shiftr x 27) in
  (x, u64 (x * 2685821657736338717)).

(** The state of the thread and the id *)
Definition lxb_gen_trace_id_part (sec nsec state : Z) : Z * Z :=
  let state := if state =? 0 then let s := Z.lor (u64 (Z.shiftl sec 32)) nsec in if s =? 0 then RNG_SEED else s else state in
  xorshift64star state.
Definition lxb_gen_span_id (sec nsec state : Z) : Z * Z := lxb_gen_trace_id_part sec nsec state.
Definition lxb_gen_trace_id (sec nsec state : Z) : Z * (Z * Z) :=
  let '(state, hi) := lxb_gen_trace_id_part sec nsec state in let '(state, lo) := lxb_gen_trace_id_part sec nsec state in (state, (hi, lo)).

(** A thread registers only under its own number ([role]); anybody may ask for a
    ring; the rings are made, or not, and unmapped. *)
Section owners.
Context (role : Z → option Z) (n : Z).

Inductive workers_step : workers → workers → Prop :=
| ws_set st self sec nsec i : 0 < self → role self = Some i → workers_step st (lxb_ring_set_worker_id self sec nsec i st)
| ws_get st self sec nsec : 0 < self → workers_step st (lxb_ring_get self sec nsec st).1
| ws_init st ok : lxb_ring_is_initialized st = false → workers_step st (lxb_ring_init ok n st).1
| ws_cleanup st : workers_step st (lxb_ring_cleanup st).

Definition workers_zero : workers := mk_workers 0 (zrep MAX_WORKERS false) (zrep MAX_WORKERS 0) ∅ ∅.

Record workers_inv (st : workers) : Prop := {
  wi_num : g_num_workers st = 0 ∨ g_num_workers st = n;
  wi_len : zlen (g_worker_tids st) = MAX_WORKERS;
  wi_tids : ∀ i t, 0 <= i < MAX_WORKERS → zget (g_worker_tids st) i = t → 0 < t → role t = Some i;
  wi_ids : ∀ t i, g_worker_id st !! t = Some i → i < n → role t = Some i
}.

Context (n_ok : 0 < n <= MAX_WORKERS).

Lemma set_inv st self sec nsec i : 0 < self → role self = Some i → workers_inv st → workers_inv (lxb_ring_set_worker_id self sec nsec i st).
Proof using n_ok.
  intros Hs Hr Hi. unfold lxb_ring_set_worker_id.
  assert (Ht : workers_inv (if (i >=? 0) && (i <? MAX_WORKERS) then st <| g_worker_tids ::= (λ l, zset l i self) |> else st)).
  { destruct ((i >=? 0) && (i <? MAX_WORKERS)) eqn:Ei; [|done]. apply andb_true_iff in Ei as [E1 E2]. destruct Hi as [Hn Hl Ht Hd]. split; cbn; [done|by rewrite zlen_zset| |done].
    intros j t Hj Hg Hp. destruct (decide (j = i)) as [->|Hne]; [rewrite zget_zset_eq in Hg by lia; by subst t|]. rewrite zget_zset_ne in Hg by lia. by eapply Ht. }
  generalize dependent (if (i >=? 0) && (i <? MAX_WORKERS) then st <| g_worker_tids ::= (λ l, zset l i self) |> else st). intros st1 Ht. destruct (g_num_workers st1 =? 0); [done|]. destruct ((i <? 0) || (i >=? g_num_workers st1)); [done|]. destruct Ht as [Hn Hl Ht Hd]. split; cbn; [done|done|done|].
  intros t j Hj Hlt. destruct (decide (t = self)) as [->|Hne]; [rewrite lookup_insert_eq in Hj; by injection Hj as <-|]. rewrite lookup_insert_ne in Hj by done. by eapply Hd.
Qed.

Lemma find_tid st self i : workers_inv st → 0 < self → List.find (λ i, zget (g_worker_tids st) i =? self) (zseq (g_num_workers st)) = Some i → role self = Some i.
Proof using n_ok.
  intros [Hn Hl Ht Hd] Hs Hf. apply List.find_some in Hf as [Hin Hf]. apply Z.eqb_eq in Hf. apply list_elem_of_In in Hin. rewrite zseq_in in Hin. eapply Ht; [|exact Hf|done]. lia.
Qed.

(** A ring is given only to the thread whose number it has. *)
Lemma get_role st self sec nsec i : workers_inv st → 0 < self → (lxb_ring_get self sec nsec st).2 = Some i → role self = Some i.
Proof using n_ok.
  intros Hi Hs. unfold lxb_ring_get, ring_at. destruct ((id_of st self >=? 0) && (id_of st self <? g_num_workers st)) eqn:E1.
  - cbn [snd]. destruct (zget (g_rings st) (id_of st self)); [|done]. intros [= <-]. apply andb_true_iff in E1 as [E1 E2]. unfold id_of in *. destruct (g_worker_id st !! self) as [k|] eqn:Ek; [|cbn in E1; lia]. cbn in *. eapply wi_ids; [done|done|]. pose proof (wi_num _ Hi). lia.
  - destruct ((g_num_workers st >? 0) && (id_of st self <? 0)); [|done]. destruct (List.find _ _) as [k|] eqn:Ef; [|done]. cbn [snd]. destruct (zget (g_rings st) k); [|done]. intros [= <-]. by eapply find_tid.
Qed.

Lemma workers_step_inv st st' : workers_inv st → workers_step st st' → workers_inv st'.
Proof using n_ok.
  intros Hi Hst. destruct Hst as [st self sec nsec i Hs Hr|st self sec nsec Hs|st ok Hn|st].
  - by apply set_inv.
  - unfold lxb_ring_get. destruct (_ && _); [done|]. destruct ((g_num_workers st >? 0) && (id_of st self <? 0)) eqn:E; [|done]. apply andb_true_iff in E as [E _]. destruct (List.find _ _) as [k|] eqn:Ef; cbn [fst]; [apply set_inv; [done|by eapply find_tid|done]|].
    destruct Hi as [Hn Hl Ht Hd]. split; cbn; [done|done|done|]. intros t j Hj Hlt. destruct (decide (t = self)) as [->|Hne]; [rewrite lookup_insert_eq in Hj; injection Hj as <-; lia|]. rewrite lookup_insert_ne in Hj by done. by eapply Hd.
  - unfold lxb_ring_init. destruct (n >? MAX_WORKERS); [done|]. destruct Hi as [_ Hl Ht Hd]. destruct ok; split; cbn; by auto.
  - destruct Hi as [Hn Hl Ht Hd]. by split.
Qed.

Lemma workers_zero_inv : workers_inv workers_zero.
Proof.
  split; cbn; [by left|done| |intros t i Hi; by rewrite lookup_empty in Hi]. intros i t Hi Ht Hp. rewrite zget_zrep in Ht by done. lia.
Qed.

(** One writer to a ring: whatever threads register, each under its own number, and
    ask, two that are given the same ring are one; so the ring's steps above have
    one writer. *)
Theorem one_writer_per_ring st t1 t2 sec1 nsec1 sec2 nsec2 i : (∀ a b k, role a = Some k → role b = Some k → a = b) → steps workers_step workers_zero st → 0 < t1 → 0 < t2 →
  (lxb_ring_get t1 sec1 nsec1 st).2 = Some i → (lxb_ring_get t2 sec2 nsec2 st).2 = Some i → t1 = t2.
Proof using n_ok.
  intros Hinj Hs H1 H2 G1 G2. apply (steps_invariant workers_step workers_inv) in Hs; [|exact workers_step_inv|exact workers_zero_inv]. eapply Hinj; by eapply get_role.
Qed.

End owners.

(** ** Ids are never zero *)

Lemma lxor_zero a b : Z.lxor a b = 0 → a = b.
Proof. apply Z.lxor_eq. Qed.

Lemma log2_u64 a : 0 <= a < 2 ^ 64 → Z.log2 a < 64.
Proof. intros Ha. destruct (Z.eq_dec a 0) as [->|]; [done|]. apply Z.log2_lt_pow2; lia. Qed.

Lemma lxor_u64 a b : 0 <= a < 18446744073709551616 → 0 <= b < 18446744073709551616 → 0 <= Z.lxor a b < 18446744073709551616.
Proof.
  intros Ha Hb. split; [apply Z.lxor_nonneg; lia|]. change 18446744073709551616 with (2 ^ 64) in *. destruct (Z.eq_dec (Z.lxor a b) 0) as [->|Hz]; [done|]. assert (Hp : 0 < Z.lxor a b) by (assert (0 <= Z.lxor a b) by (apply Z.lxor_nonneg; lia); lia).
  apply Z.log2_lt_pow2; [done|]. pose proof (Z.log2_lxor a b ltac:(lia) ltac:(lia)) as Hl. pose proof (log2_u64 a Ha). pose proof (log2_u64 b Hb). lia.
Qed.

Lemma lor_u64 a b : 0 <= a < 18446744073709551616 → 0 <= b < 18446744073709551616 → 0 <= Z.lor a b < 18446744073709551616.
Proof.
  intros Ha Hb. assert (H0 : 0 <= Z.lor a b) by (apply Z.lor_nonneg; lia). split; [done|]. change 18446744073709551616 with (2 ^ 64) in *. destruct (Z.eq_dec (Z.lor a b) 0) as [->|Hz]; [done|].
  apply Z.log2_lt_pow2; [lia|]. rewrite Z.log2_lor by lia. pose proof (log2_u64 a Ha). pose proof (log2_u64 b Hb). lia.
Qed.

(** An odd factor loses nothing. *)
Lemma odd_cancels k x : Z.gcd 18446744073709551616 k = 1 → 0 <= x < 18446744073709551616 → u64 (k * x) = 0 → x = 0.
Proof.
  intros Hg Hx H. unfold u64 in H. apply Z.mod_divide in H; [|lia]. apply Z.gauss in H; [|done]. destruct H as [q ->]. nia.
Qed.

Lemma shift_right_mixes x k : 0 < x < 18446744073709551616 → 0 < k → 0 < Z.lxor x (Z.shiftr x k) < 18446744073709551616.
Proof.
  intros Hx Hk. assert (Hs : 0 <= Z.shiftr x k < x) by (rewrite Z.shiftr_div_pow2 by lia; split; [apply Z.div_pos; lia|apply Z.div_lt; [lia|]; apply (Z.pow_gt_1 2 k); lia]).
  pose proof (lxor_u64 x (Z.shiftr x k) ltac:(lia) ltac:(lia)). destruct (Z.eq_dec (Z.lxor x (Z.shiftr x k)) 0) as [E|]; [apply lxor_zero in E; lia|lia].
Qed.

Lemma shift_left_mixes x : 0 < x < 18446744073709551616 → 0 < Z.lxor x (u64 (Z.shiftl x 25)) < 18446744073709551616.
Proof.
  intros Hx. pose proof (Z.mod_pos_bound (Z.shiftl x 25) 18446744073709551616 ltac:(lia)) as Hu. fold (u64 (Z.shiftl x 25)) in Hu. pose proof (lxor_u64 x (u64 (Z.shiftl x 25)) ltac:(lia) ltac:(lia)).
  destruct (Z.eq_dec (Z.lxor x (u64 (Z.shiftl x 25))) 0) as [E|]; [|lia]. apply lxor_zero in E. rewrite Z.shiftl_mul_pow2 in E by lia. enough (x = 0) by lia. apply (odd_cancels 33554431); [vm_compute; reflexivity|lia|].
  unfold u64 in *. change (2 ^ 25) with 33554432 in E. replace (33554431 * x) with (x * 33554432 - x) by lia. rewrite Zminus_mod, <- E, (Z.mod_small x) by lia. rewrite Z.sub_diag. done.
Qed.

(** A trace id is never zero, the value that stands for none, and the generator is
    never stuck, whatever the clock shows and whether it was seeded or not. *)
Theorem trace_ids_nonzero sec nsec state : 0 <= nsec < 18446744073709551616 → 0 <= state < 18446744073709551616 →
  let '(state', id) := lxb_gen_trace_id_part sec nsec state in 0 < state' < 18446744073709551616 ∧ 0 < id < 18446744073709551616.
Proof.
  intros Hn Hs. unfold lxb_gen_trace_id_part. set (s := if state =? 0 then _ else state).
  assert (H : 0 < s < 18446744073709551616).
  { unfold s. destruct (Z.eqb_spec state 0) as [->|]; [|lia]. cbn zeta. pose proof (Z.mod_pos_bound (Z.shiftl sec 32) 18446744073709551616 ltac:(lia)) as Hu. fold (u64 (Z.shiftl sec 32)) in Hu. set (v := Z.lor (u64 (Z.shiftl sec 32)) nsec).
    assert (Hv : 0 <= v < 18446744073709551616) by (unfold v; by apply lor_u64). destruct (Z.eqb_spec v 0); [unfold RNG_SEED; lia|lia]. }
  clearbody s. unfold xorshift64star. cbn zeta. apply (shift_right_mixes s 12) in H; [|lia]. apply shift_left_mixes in H. apply (shift_right_mixes _ 27) in H; [|lia]. set (x := Z.lxor _ (Z.shiftr _ 27)) in *. split; [done|].
  pose proof (Z.mod_pos_bound (x * 2685821657736338717) 18446744073709551616 ltac:(lia)) as Hu. fold (u64 (x * 2685821657736338717)) in Hu. destruct (Z.eq_dec (u64 (x * 2685821657736338717)) 0) as [E|]; [|lia]. rewrite Z.mul_comm in E. apply odd_cancels in E; [lia|vm_compute; reflexivity|lia].
Qed.

(** ** Examples *)

Lemma trace_ring_is_queue_witness : ∃ s : rsys (E := Z), s_accepted s = [7] ∧ s_wr s = WIdle ∧ s_accepted s = s_taken s ++ queue (s_ring s).
Proof.
  pose proof (push_alone (sys_zero (zrep LXB_RING_CAP 0)) 7 eq_refl) as H. destruct (lxb_ring_push (s_ring (sys_zero (zrep LXB_RING_CAP 0))) 7) as [rb rc] eqn:Ep. destruct H as (s & Hs & _ & Hw & _ & _ & Ha).
  assert (Hrc : rc = 0) by (apply (f_equal snd) in Ep; vm_compute in Ep; congruence). subst rc. exists s. split; [exact Ha|]. split; [exact Hw|]. exact (proj1 (trace_ring_is_queue (zrep LXB_RING_CAP 0) s ltac:(vm_compute; reflexivity) Hs)).
Defined.

(** The statistics of the rings are those of the caller's own ring, once for every
    possible worker, and nothing for a caller that is no worker. *)
Definition two_workers : workers :=
  lxb_ring_set_worker_id 102 0 0 1 (lxb_ring_set_worker_id 101 0 0 0 (lxb_ring_init true 2 workers_zero).1).
Example stats_of_caller_only :
  let size r := if r =? 0 then 5 else 9 in
  (lxb_trace_get_stats 103 0 0 size (λ _, 1) two_workers).2 = (0, 0, zrep 32 0) ∧ (lxb_trace_get_stats 101 0 0 size (λ _, 1) two_workers).2 = (160, 32, zrep 32 5).
Proof. vm_compute. split; reflexivity. Qed.
