(* ===== verification/L7Head.v ===== *)
(** * L7 policy: edits of a request head (src/common/sockproxy_h1_hdr.h, sockproxy_l7hdr_guard.h)

    The proxy edits the head of an HTTP/1.1 request in the buffer it was read
    into: it strips every header of a name, or of a family, and splices one line
    in before the blank line. The file refines these byte edits to edits of the
    list of header lines, for every buffer that starts with a whole head. *)

From stdpp Require Import base list numbers strings.
From Stdlib Require Import Ascii.
From S2P Require Import Prelude FcTypes FcConfig FcExpose.

(** ** Searching *)

Definition is_prefix (p l : bytes) : bool := bool_decide (take (length p) l = p).

(** memmem and strstr: where [p] first is in [l]. *)
Fixpoint find_sub (p l : bytes) : option nat :=
  if is_prefix p l then Some O else match l with [] => None | _ :: l => S <$> find_sub p l end.

(** memmem over the bytes of [msg] from [a] up to [b]: a position in [msg]. *)
Definition memmem (p msg : bytes) (a b : Z) : option Z :=
  (λ n, a + Z.of_nat n) <$> find_sub p (take (Z.to_nat (b - a)) (drop (Z.to_nat a) msg)).

Definition CRLF2 : bytes := CRLF ++ CRLF.

(** A C string: what a char array holds up to its first NUL. *)
Definition NUL : ascii := "000"%char.
Fixpoint cstr (l : bytes) : bytes := match l with [] => [] | c :: l => if Ascii.eqb c NUL then [] else c :: cstr l end.

(** ** Stripping *)

Definition L7_HDR_NAME_MAX : Z := 64.
Definition L7_HDR_VALUE_MAX : Z := 256.

(** The walk over the header lines: [line] is the CRLF before the next one, [hit]
    the test on what is left of the block there. The buffer after it and where the
    head ends, if it still does; at most [k] turns. *)
Fixpoint strip_walk (hit : bytes → Z → bool) (k : nat) (msg : bytes) (headers_end : Z) (line : option Z) : bytes * option Z :=
  match k, line with
  | S k, Some line =>
      if line <? headers_end then
        let hdr := line + 2 in
        if hdr >=? headers_end then (msg, Some headers_end)
        else if hit (drop (Z.to_nat hdr) msg) (headers_end - hdr) then
          match memmem CRLF msg hdr (zlen msg) with
          | None => (msg, Some headers_end)
          | Some line_end =>
              let msg := cut msg hdr (line_end + 2) in
              match memmem CRLF2 msg 0 (zlen msg) with
              | None => (msg, None)
              | Some headers_end => strip_walk hit k msg headers_end (Some line)
              end
          end
        else strip_walk hit k msg headers_end (memmem CRLF msg hdr headers_end)
      else (msg, Some headers_end)
  | _, _ => (msg, Some headers_end)
  end.

Definition strip_all (hit : bytes → Z → bool) (msg : bytes) : bytes * option Z :=
  match memmem CRLF2 msg 0 (zlen msg) with
  | None => (msg, None)
  | Some headers_end => strip_walk hit (length msg) msg headers_end (memmem CRLF msg 0 headers_end)
  end.

(** The name, and the colon after it *)
Definition hdr_named (name l : bytes) (room : Z) : bool := (room >? zlen name) && prefix_ci name l && Ascii.eqb (zget l (zlen name)) ":"%char.
Definition hdr_family (prefix l : bytes) (room : Z) : bool := (room >? zlen prefix) && prefix_ci prefix l.

Definition l7h1_strip_header (msg name : bytes) : bytes * option Z :=
  if zlen name =? 0 then (msg, memmem CRLF2 msg 0 (zlen msg)) else strip_all (hdr_named name) msg.
Definition l7h1_strip_header_prefix (msg prefix : bytes) : bytes * option Z :=
  if zlen prefix =? 0 then (msg, memmem CRLF2 msg 0 (zlen msg)) else strip_all (hdr_family prefix) msg.

(** ** Splicing *)

Definition l7_hdr_field_has_break (s : bytes) : bool := existsb (λ c, Ascii.eqb c CR || Ascii.eqb c LF) s.
Definition l7_hdr_pair_unsafe (name value : bytes) : bool :=
  (zlen name =? 0) || l7_hdr_field_has_break name || l7_hdr_field_has_break value.

(** The line, without its CRLF, and the buffer it is built in *)
Definition hdr_line (name value : bytes) : bytes := name ++ lit ": " ++ value.
Definition INJECT_BUF : Z := L7_HDR_NAME_MAX + L7_HDR_VALUE_MAX + 8.

Definition l7h1_splice_header (msg : bytes) (bufsize : Z) (name value : bytes) : bytes * Z :=
  if l7_hdr_pair_unsafe name value then (msg, -1)
  else
    let inject := hdr_line name value ++ CRLF in
    if zlen inject >=? INJECT_BUF then (msg, -1)
    else
      match memmem CRLF2 msg 0 (zlen msg) with
      | None => (msg, -1)
      | Some headers_end =>
          if zlen msg + zlen inject >=? bufsize then (msg, -1)
          else (take (Z.to_nat (headers_end + 2)) msg ++ inject ++ drop (Z.to_nat (headers_end + 2)) msg, 0)
      end.

(** sockproxy_http.c *)
Definition sp_h1_req_header_set (msg : bytes) (bufsize : Z) (name value : bytes) : bytes * Z :=
  match l7h1_strip_header msg name with
  | (msg, None) => (msg, -1)
  | (msg, Some _) => l7h1_splice_header msg bufsize name value
  end.
Definition sp_h1_req_header_remove (msg name : bytes) : bytes * Z :=
  let '(msg, e) := l7h1_strip_header msg name in (msg, match e with Some _ => 0 | None => -1 end).

(** The operations of a header filter (l7_hdr_op_t), and the one applied to a
    request buffer: l7h1_emit. *)
Inductive l7_hdr_op : Type := L7HDR_SET | L7HDR_ADD | L7HDR_REMOVE.
#[export] Instance l7_hdr_op_eq_dec : EqDecision l7_hdr_op.
Proof. solve_decision. Defined.

Definition l7h1_emit (bufsize : Z) (msg : bytes) (op : l7_hdr_op) (name value : bytes) : bytes :=
  match op with
  | L7HDR_SET =>
      match l7h1_strip_header msg name with
      | (msg, None) => msg
      | (msg, Some _) => (l7h1_splice_header msg bufsize name value).1
      end
  | L7HDR_ADD => (l7h1_splice_header msg bufsize name value).1
  | L7HDR_REMOVE => (l7h1_strip_header msg name).1
  end.

(** ** Edits of the header lines *)

(** The line is a header of that name. *)
Definition named (name l : bytes) : bool := prefix_ci name l && Ascii.eqb (zget l (zlen name)) ":"%char.
Definition without (hit : bytes → bool) (lines : list bytes) : list bytes := List.filter (λ l, negb (hit l)) lines.

(** The new line has room beside [used] bytes. *)
Definition line_fits (bufsize used : Z) (name value : bytes) : bool :=
  negb (l7_hdr_pair_unsafe name value) && (zlen (hdr_line name value) + 2 <? INJECT_BUF) && (used + zlen (hdr_line name value) + 2 <? bufsize).

Definition head_size (first : bytes) (lines : list bytes) (body : bytes) : Z := zlen (head_of (first :: lines)) + 2 + zlen body.

Definition add_line (bufsize : Z) (first body name value : bytes) (lines : list bytes) : list bytes :=
  if line_fits bufsize (head_size first lines body) name value then lines ++ [hdr_line name value] else lines.

Definition edit_lines (bufsize : Z) (first body : bytes) (op : l7_hdr_op) (name value : bytes) (lines : list bytes) : list bytes :=
  match op with
  | L7HDR_SET => add_line bufsize first body name value (without (named name) lines)
  | L7HDR_ADD => add_line bufsize first body name value lines
  | L7HDR_REMOVE => without (named name) lines
  end.

(** ** Finding *)

Lemma is_prefix_app p l : is_prefix p (p ++ l) = true.
Proof. unfold is_prefix. rewrite take_app_length. by apply bool_decide_true. Qed.

Lemma is_prefix_true p l : is_prefix p l = true → ∃ r, l = p ++ r.
Proof. intros H%bool_decide_eq_true. exists (drop (length p) l). rewrite <- H at 1. by rewrite take_drop. Qed.

Lemma find_sub_skip p a l : is_prefix p (a :: l) = false → find_sub p (a :: l) = S <$> find_sub p l.
Proof. intros H. cbn [find_sub]. by rewrite H. Qed.

Lemma find_sub_hit p l : find_sub p (p ++ l) = Some O.
Proof. pose proof (is_prefix_app p l) as H. destruct (p ++ l); cbn [find_sub]; by rewrite H. Qed.

(** A line has its own CRLF first. *)
Lemma crlf_prefix l : is_prefix CRLF l = crlf_head l.
Proof.
  destruct l as [|a [|b l]]; [done| |]; unfold is_prefix; cbn.
  - apply bool_decide_false. done.
  - destruct (Ascii.eqb_spec a CR) as [->|Ha], (Ascii.eqb_spec b LF) as [->|Hb]; cbn; [by apply bool_decide_true|apply bool_decide_false; intros H; by inversion H..].
Qed.

Lemma crlf2_prefix l : is_prefix CRLF2 l = crlf_head l && crlf_head (drop 2 l).
Proof.
  destruct (crlf_head l) eqn:E.
  - rewrite <- crlf_prefix in E. apply is_prefix_true in E as [r ->]. cbn [CRLF app drop]. cbn [andb]. rewrite <- crlf_prefix. unfold is_prefix. cbn [CRLF2 CRLF app length take].
    apply bool_decide_ext. rewrite drop_0. split; [intros H; by inversion H|by intros ->].
  - cbn [andb]. destruct (is_prefix CRLF2 l) eqn:H; [|done]. apply is_prefix_true in H as [r ->]. done.
Qed.

Lemma find_line l post : has_crlf l = false → find_sub CRLF (l ++ CRLF ++ post) = Some (length l).
Proof.
  induction l as [|a l IH]; intros Hl; [apply (find_sub_hit CRLF post)|]. rewrite <- app_comm_cons, find_sub_skip; [|by rewrite crlf_prefix, crlf_head_line].
  rewrite IH by (by eapply has_crlf_tail). done.
Qed.

Lemma find_none l : has_crlf l = false → find_sub CRLF l = None.
Proof.
  induction l as [|a l IH]; intros Hl; [done|]. rewrite find_sub_skip; [rewrite IH by (by eapply has_crlf_tail); done|]. rewrite crlf_prefix. destruct l; [done|]. cbn in *. by apply orb_false_iff in Hl as [? _].
Qed.

Lemma find_double_line l post : has_crlf l = false → crlf_head post = false → find_sub CRLF2 (l ++ CRLF ++ post) = (λ n, length l + 2 + n)%nat <$> find_sub CRLF2 post.
Proof.
  intros Hl Hp. induction l as [|a l IH].
  - cbn [app CRLF length]. rewrite find_sub_skip by (rewrite crlf2_prefix; change (drop 2 (CR :: LF :: post)) with (drop 0 post); by rewrite drop_0, Hp, andb_false_r). rewrite find_sub_skip by (rewrite crlf2_prefix; by destruct post). by destruct (find_sub CRLF2 post).
  - rewrite <- app_comm_cons, find_sub_skip by (by rewrite crlf2_prefix, crlf_head_line). rewrite IH by (by eapply has_crlf_tail). by destruct (find_sub CRLF2 post).
Qed.

Lemma line_starts l post : line_ok l → crlf_head (l ++ CRLF ++ post) = false.
Proof. intros [Hne Hl]. destruct l as [|a l]; [done|]. by apply crlf_head_line. Qed.

Lemma find_double first lines body : Forall line_ok (first :: lines) →
  find_sub CRLF2 (head_of (first :: lines) ++ CRLF ++ body) = Some (length (head_of (first :: lines)) - 2)%nat.
Proof.
  revert first. induction lines as [|l lines IH]; intros first Hok; apply Forall_cons in Hok as [Hf Hok]; rewrite head_of_cons, <- !app_assoc.
  - change (head_of []) with (@nil ascii). cbn [app]. destruct Hf as [_ Hf]. induction first as [|a first IHf].
    + rewrite app_nil_l. change (CRLF ++ CRLF ++ body) with (CRLF2 ++ body). rewrite find_sub_hit. done.
    + rewrite <- app_comm_cons, find_sub_skip by (by rewrite crlf2_prefix, crlf_head_line). rewrite IHf by (by eapply has_crlf_tail). cbn. f_equal. rewrite !length_app. cbn. lia.
  - rewrite find_double_line; [|apply Hf|rewrite head_of_cons, <- !app_assoc; apply line_starts; by inversion Hok]. rewrite IH by done. cbn [fmap option_fmap option_map]. f_equal.
    assert (2 <= length (head_of (l :: lines)))%nat by (rewrite head_of_cons, !length_app; cbn; lia). rewrite !length_app. change (length CRLF) with 2%nat. lia.
Qed.

Lemma memmem_at p msg a n : 0 <= a → find_sub p (drop (Z.to_nat a) msg) = Some n → memmem p msg a (zlen msg) = Some (a + Z.of_nat n).
Proof. intros Ha H. unfold memmem. rewrite take_ge; [by rewrite H|]. rewrite length_drop. unfold zlen. lia. Qed.

Lemma drop_zlen (pre l : bytes) : drop (Z.to_nat (zlen pre)) (pre ++ l) = l.
Proof. unfold zlen. rewrite Nat2Z.id. apply drop_app_length. Qed.

Lemma memmem_double first lines body : Forall line_ok (first :: lines) → let msg := head_of (first :: lines) ++ CRLF ++ body in
  memmem CRLF2 msg 0 (zlen msg) = Some (zlen (head_of (first :: lines)) - 2).
Proof.
  intros Hok msg. rewrite (memmem_at CRLF2 msg 0 (length (head_of (first :: lines)) - 2)); [f_equal|lia|rewrite drop_0; by apply find_double].
  unfold zlen. rewrite head_of_cons, !length_app. cbn. lia.
Qed.

Lemma done_nonempty d : d ≠ [] → 2 <= zlen (head_of d).
Proof. destruct d as [|x d]; [done|]. intros _. rewrite zlen_head_cons. pose proof (zlen_nonneg x). pose proof (zlen_nonneg (head_of d)). lia. Qed.

Lemma find_double_app d lines body : d ≠ [] → Forall line_ok d → Forall line_ok lines → let msg := head_of d ++ head_of lines ++ CRLF ++ body in
  memmem CRLF2 msg 0 (zlen msg) = Some (zlen (head_of d) + zlen (head_of lines) - 2).
Proof.
  intros Hd H1 H2. destruct d as [|f d]; [done|]. cbn zeta. rewrite app_assoc, <- head_of_app, <- app_comm_cons. rewrite memmem_double by (rewrite app_comm_cons; by apply Forall_app).
  rewrite app_comm_cons, head_of_app, zlen_app. done.
Qed.

Lemma next_line d l post b : has_crlf l = false → zlen (head_of d) + zlen l + 2 <= b → memmem CRLF (head_of d ++ l ++ CRLF ++ post) (zlen (head_of d)) b = Some (zlen (head_of d) + zlen l).
Proof.
  intros Hl Hb. unfold memmem. rewrite drop_zlen.
  assert (E : take (Z.to_nat (b - zlen (head_of d))) (l ++ CRLF ++ post) = l ++ CRLF ++ take (Z.to_nat (b - zlen (head_of d)) - length l - 2) post).
  { unfold zlen in *. rewrite !take_app, (take_ge l) by lia. f_equal. rewrite (take_ge CRLF) by (cbn; lia). do 2 f_equal. }
  rewrite E, find_line by done. cbn. done.
Qed.

Lemma no_next_line d l post : has_crlf l = false → memmem CRLF (head_of d ++ l ++ CRLF ++ post) (zlen (head_of d)) (zlen (head_of d) + zlen l) = None.
Proof.
  intros Hl. unfold memmem. rewrite drop_zlen. replace (Z.to_nat (zlen (head_of d) + zlen l - zlen (head_of d))) with (length l) by (unfold zlen; lia). rewrite take_app_length. by rewrite find_none.
Qed.

Lemma lines_length lines : (length lines <= length (head_of lines))%nat.
Proof. induction lines as [|x lines IH]; [cbn; lia|]. rewrite head_of_cons, !length_app. cbn [length CRLF]. lia. Qed.

Section walk.
Context (hit : bytes → Z → bool) (h : bytes → bool).
Definition hit_is (lines : list bytes) : Prop := ∀ l post room, l ∈ lines → zlen l <= room → hit (l ++ CRLF ++ post) room = h l.

Lemma strip_walk_exact lines k d body : d ≠ [] → Forall line_ok d → Forall line_ok lines → hit_is lines → (length lines < k)%nat →
  strip_walk hit k (head_of d ++ head_of lines ++ CRLF ++ body) (zlen (head_of d) + zlen (head_of lines) - 2) (Some (zlen (head_of d) - 2)) =
  (head_of d ++ head_of (without h lines) ++ CRLF ++ body, Some (zlen (head_of d) + zlen (head_of (without h lines)) - 2)).
Proof.
  revert k d. induction lines as [|l lines IH]; intros k d Hd Hok Hl Hh Hk; (destruct k as [|k]; [cbn in Hk; lia|]); pose proof (done_nonempty d Hd) as Hdn.
  - cbn [strip_walk]. change (head_of []) with (@nil ascii). change (zlen (@nil ascii)) with 0. rewrite (proj2 (Z.ltb_ge _ _)) by lia. done.
  - apply Forall_cons in Hl as [Hl Hls]. pose proof Hl as [Hne Hcr]. cbn [length] in Hk. assert (1 <= zlen l) by (destruct l; [done|rewrite zlen_cons; pose proof (zlen_nonneg l); lia]).
    pose proof (zlen_nonneg (head_of lines)) as Hn. cbn [strip_walk]. rewrite zlen_head_cons, (proj2 (Z.ltb_lt _ _)) by lia. cbn zeta. rewrite Z.geb_leb, (proj2 (Z.leb_gt _ _)) by lia.
    replace (zlen (head_of d) - 2 + 2) with (zlen (head_of d)) by lia. rewrite head_of_cons, <- !app_assoc, drop_zlen. rewrite (Hh l _ _ ltac:(by left)) by lia.
    assert (Hh' : hit_is lines) by (intros x post room Hx; apply Hh; by right). unfold without. cbn [List.filter]. destruct (h l); cbn [negb].
    + rewrite (next_line d l _ _ Hcr) by (rewrite !zlen_app; change (zlen CRLF) with 2; pose proof (zlen_nonneg body); lia).
      rewrite (cut_line (head_of d) l). rewrite find_double_app by done. apply IH; [done..|lia].
    + assert (Hnext : strip_walk hit k (head_of d ++ l ++ CRLF ++ head_of lines ++ CRLF ++ body) (zlen (head_of d) + (zlen l + 2 + zlen (head_of lines)) - 2) (Some (zlen (head_of d) + zlen l)) =
        (head_of d ++ l ++ CRLF ++ head_of (without h lines) ++ CRLF ++ body, Some (zlen (head_of d) + (zlen l + 2 + zlen (head_of (without h lines))) - 2))).
      { pose proof (IH k (d ++ [l]) ltac:(by destruct d) ltac:(apply Forall_app; split; [done|by constructor]) Hls Hh' ltac:(lia)) as E. rewrite !(app_assoc l CRLF), !(app_assoc (head_of d) (l ++ CRLF)). rewrite head_of_app, zlen_app, zlen_head_cons in E.
        rewrite head_of_cons in E. change (head_of []) with (@nil ascii) in E. change (zlen []) with 0 in E. rewrite app_nil_r in E.
        replace (zlen (head_of d) + (zlen l + 2 + zlen (head_of lines)) - 2) with (zlen (head_of d) + (zlen l + 2 + 0) + zlen (head_of lines) - 2) by lia.
        replace (zlen (head_of d) + zlen l) with (zlen (head_of d) + (zlen l + 2 + 0) - 2) by lia. etransitivity; [exact E|]. f_equal. f_equal. lia. }
      rewrite zlen_head_cons, head_of_cons, <- !app_assoc. etransitivity; [|exact Hnext]. clear Hnext IH. destruct lines as [|l2 lines].
      * change (head_of []) with (@nil ascii). change (zlen []) with 0. replace (zlen (head_of d) + (zlen l + 2 + 0) - 2) with (zlen (head_of d) + zlen l) by lia. rewrite (no_next_line d l) by done.
        destruct k; [cbn in Hk; lia|]. cbn [strip_walk]. by rewrite Z.ltb_irrefl.
      * rewrite (next_line d l) by (done || (rewrite zlen_head_cons; pose proof (zlen_nonneg (head_of lines)); pose proof (zlen_nonneg l2); apply Forall_cons in Hls as [[Hl2 _] _]; destruct l2; [done|]; lia)). done.
Qed.

Lemma strip_all_exact first lines body : Forall line_ok (first :: lines) → hit_is lines →
  strip_all hit (head_of (first :: lines) ++ CRLF ++ body) = (head_of (first :: without h lines) ++ CRLF ++ body, Some (zlen (head_of (first :: without h lines)) - 2)).
Proof.
  intros Hok Hh. unfold strip_all. rewrite memmem_double by done. pose proof Hok as Hok'. apply Forall_cons in Hok as [Hf Hls].
  assert (Hlen : (length lines < length (head_of (first :: lines) ++ CRLF ++ body))%nat).
  { rewrite !length_app, head_of_cons, !length_app. pose proof (lines_length lines). cbn. lia. }
  pose proof (strip_walk_exact lines _ [first] body ltac:(done) ltac:(by constructor) Hls Hh Hlen) as E.
  rewrite (zlen_head_cons first []) in E. change (zlen (head_of [])) with 0 in E. rewrite (head_of_cons first []) in E. change (head_of []) with (@nil ascii) in E. rewrite app_nil_r in E.
  rewrite !zlen_head_cons, !head_of_cons, <- !app_assoc. rewrite <- !app_assoc, !Z.add_0_r in E.
  destruct lines as [|l lines].
  - pose proof (no_next_line [] first (CRLF ++ body) (proj2 Hf)) as En. change (head_of [] ++ ?x) with x in En. change (zlen (head_of [])) with 0 in *. change (head_of []) with (@nil ascii) in *.
    rewrite Z.add_0_l in En. replace (zlen first + 2 + 0 - 2) with (zlen first) by lia. rewrite app_nil_l. change (without h []) with (@nil bytes). change (head_of []) with (@nil ascii). rewrite app_nil_l. rewrite En.
    change (zlen []) with 0. replace (zlen first + 2 + 0 - 2) with (zlen first) by lia. match goal with |- strip_walk _ ?k _ _ _ = _ => by destruct k end.
  - pose proof (next_line [] first (head_of (l :: lines) ++ CRLF ++ body) (zlen first + 2 + zlen (head_of (l :: lines)) - 2) (proj2 Hf)) as En. change (zlen (head_of [])) with 0 in En. change (head_of [] ++ ?x) with x in En.
    rewrite En; [|rewrite zlen_head_cons; pose proof (zlen_nonneg (head_of lines)); pose proof (zlen_nonneg l); lia].
    replace (0 + zlen first) with (zlen first + 2 - 2) by lia. rewrite (head_of_cons first), <- !app_assoc in E. exact E.
Qed.
End walk.

(** A name no line break is in. *)
Definition no_cr_name (name : bytes) : Prop := forallb (λ c, negb (Ascii.eqb (ascii_lower CR) (ascii_lower c))) name = true.

Lemma zget_line (l post : bytes) i : 0 <= i <= zlen l → Ascii.eqb (zget (l ++ CRLF ++ post) i) ":"%char = Ascii.eqb (zget l i) ":"%char.
Proof.
  intros Hi. destruct (decide (i = zlen l)) as [->|Hne]; [|by rewrite zget_app_l by lia]. rewrite zget_app_r, Z.sub_diag by lia.
  change (zget (CRLF ++ post) 0) with CR. unfold zget. rewrite list_lookup_total_alt, lookup_ge_None_2; [done|unfold zlen; lia].
Qed.

Lemma named_hit name lines : no_cr_name name → hit_is (hdr_named name) (named name) lines.
Proof.
  intros Hn l post room _ Hr. unfold hdr_named, named. rewrite prefix_ci_line by done. destruct (prefix_ci name l) eqn:E; [|by rewrite andb_false_r]. apply prefix_ci_length in E. pose proof (zlen_nonneg name).
  rewrite zget_line by lia. cbn [andb]. rewrite andb_true_r. destruct (Ascii.eqb_spec (zget l (zlen name)) ":"%char) as [Hc|]; [|by rewrite andb_false_r]. rewrite andb_true_r. apply Z.gtb_lt.
  destruct (decide (zlen name = zlen l)) as [He|]; [|lia]. rewrite He in Hc. unfold zget in Hc. rewrite list_lookup_total_alt, lookup_ge_None_2 in Hc; [done|unfold zlen; lia].
Qed.

(** ** Each edit *)

Lemma strip_header_lines first lines body name : Forall line_ok (first :: lines) → no_cr_name name → name ≠ [] →
  l7h1_strip_header (head_of (first :: lines) ++ CRLF ++ body) name =
  (head_of (first :: without (named name) lines) ++ CRLF ++ body, Some (zlen (head_of (first :: without (named name) lines)) - 2)).
Proof. intros Hok Hp Hn. unfold l7h1_strip_header. destruct name; [done|]. rewrite (proj2 (Z.eqb_neq _ _)) by (rewrite zlen_cons; pose proof (zlen_nonneg name); lia). apply strip_all_exact; [done|by apply named_hit]. Qed.

Lemma splice_header_lines first lines body bufsize name value : Forall line_ok (first :: lines) →
  (l7h1_splice_header (head_of (first :: lines) ++ CRLF ++ body) bufsize name value).1 = head_of (first :: add_line bufsize first body name value lines) ++ CRLF ++ body.
Proof.
  intros Hok. unfold l7h1_splice_header, add_line, line_fits. destruct (l7_hdr_pair_unsafe name value); [done|]. cbn [negb andb]. rewrite zlen_app. change (zlen CRLF) with 2. rewrite Z.geb_leb.
  destruct (Z.ltb_spec (zlen (hdr_line name value) + 2) INJECT_BUF) as [H1|H1]; [rewrite (proj2 (Z.leb_gt _ _)) by lia|by rewrite (proj2 (Z.leb_le _ _)) by lia]. cbn [andb].
  rewrite memmem_double by done. rewrite Z.geb_leb. unfold head_size. rewrite !(zlen_app (head_of _)), zlen_app. change (zlen CRLF) with 2.
  replace (zlen (head_of (first :: lines)) + (2 + zlen body) + (zlen (hdr_line name value) + 2)) with (zlen (head_of (first :: lines)) + 2 + zlen body + zlen (hdr_line name value) + 2) by lia.
  destruct (Z.ltb_spec (zlen (head_of (first :: lines)) + 2 + zlen body + zlen (hdr_line name value) + 2) bufsize) as [H2|H2]; [rewrite (proj2 (Z.leb_gt _ _)) by lia|by rewrite (proj2 (Z.leb_le _ _)) by lia]. cbn [fst].
  replace (zlen (head_of (first :: lines)) - 2 + 2) with (zlen (head_of (first :: lines))) by lia. rewrite take_pre, drop_zlen.
  change (first :: lines ++ [hdr_line name value]) with ((first :: lines) ++ [hdr_line name value]). rewrite (head_of_app (first :: lines)), (head_of_cons (hdr_line name value)). change (head_of []) with (@nil ascii).
  by rewrite app_nil_r, <- !app_assoc.
Qed.

Lemma has_crlf_break l : l7_hdr_field_has_break l = false → has_crlf l = false.
Proof.
  induction l as [|a l IH]; [done|]. cbn [l7_hdr_field_has_break existsb]. intros [Ha Hl]%orb_false_iff. apply orb_false_iff in Ha as [Ha _]. destruct l as [|b l]; [done|].
  change ((Ascii.eqb a CR && Ascii.eqb b LF) || has_crlf (b :: l) = false). by rewrite Ha, IH.
Qed.

Lemma break_app s t : l7_hdr_field_has_break (s ++ t) = l7_hdr_field_has_break s || l7_hdr_field_has_break t.
Proof. apply existsb_app. Qed.

Lemma hdr_line_ok name value : l7_hdr_pair_unsafe name value = false → line_ok (hdr_line name value).
Proof.
  intros [[Hn H1]%orb_false_iff H2]%orb_false_iff. split; [by destruct name|]. apply has_crlf_break. unfold hdr_line. by rewrite !break_app, H1, H2.
Qed.

Lemma without_ok hit lines : Forall line_ok lines → Forall line_ok (without hit lines).
Proof. rewrite !list.Forall_forall. intros H x Hx. apply H. apply list_elem_of_In in Hx. apply list_elem_of_In. unfold without in Hx. by apply List.filter_In in Hx as [? _]. Qed.

Lemma add_line_ok bufsize first body name value lines : Forall line_ok lines → Forall line_ok (add_line bufsize first body name value lines).
Proof.
  intros H. unfold add_line, line_fits. destruct (l7_hdr_pair_unsafe name value) eqn:E; [done|]. destruct (_ && _); [|done]. apply Forall_app. split; [done|]. constructor; [by apply hdr_line_ok|done].
Qed.

Lemma emit_lines first lines body bufsize op name value : Forall line_ok (first :: lines) → no_cr_name name → name ≠ [] →
  l7h1_emit bufsize (head_of (first :: lines) ++ CRLF ++ body) op name value = head_of (first :: edit_lines bufsize first body op name value lines) ++ CRLF ++ body ∧
  Forall line_ok (first :: edit_lines bufsize first body op name value lines).
Proof.
  intros Hok Hp Hn. pose proof Hok as Hok'. apply Forall_cons in Hok' as [Hf Hls]. pose proof (without_ok (named name) lines Hls) as Hw.
  destruct op; cbn [l7h1_emit edit_lines].
  - rewrite strip_header_lines by done. split; [|constructor; [done|by apply add_line_ok]]. apply splice_header_lines. by constructor.
  - split; [by apply splice_header_lines|]. constructor; [done|by apply add_line_ok].
  - rewrite strip_header_lines by done. split; [done|by constructor].
Qed.

(** A list of edits, on the bytes and on the lines *)
Definition hdr_edit : Type := l7_hdr_op * bytes * bytes.
Definition emit_all (bufsize : Z) (ops : list hdr_edit) (msg : bytes) : bytes := foldl (λ m '(op, name, value), l7h1_emit bufsize m op name value) msg ops.
Definition edit_all (bufsize : Z) (first body : bytes) (ops : list hdr_edit) (lines : list bytes) : list bytes := foldl (λ ls '(op, name, value), edit_lines bufsize first body op name value ls) lines ops.
Definition edit_ok (e : hdr_edit) : Prop := no_cr_name e.1.2 ∧ e.1.2 ≠ [].

Lemma emit_all_lines bufsize ops first lines body : Forall line_ok (first :: lines) → Forall edit_ok ops →
  emit_all bufsize ops (head_of (first :: lines) ++ CRLF ++ body) = head_of (first :: edit_all bufsize first body ops lines) ++ CRLF ++ body ∧
  Forall line_ok (first :: edit_all bufsize first body ops lines).
Proof.
  revert lines. induction ops as [|[[op name] value] ops IH]; intros lines Hok Ho; [done|]. apply Forall_cons in Ho as [[Hp Hn] Ho]. cbn in Hp, Hn.
  destruct (emit_lines first lines body bufsize op name value Hok Hp Hn) as [E Hok2]. cbn [emit_all edit_all foldl]. fold (emit_all bufsize ops) (edit_all bufsize first body ops). rewrite E. by apply IH.
Qed.
