(* ===== verification/L7Trust.v ===== *)
(** * L7 policy: which address a request came from (src/common/sockproxy_l7trust.h)

    A listener may be told the address ranges of the proxies in front of it. It
    then reads the inbound forwarding chain, all its header lines as one list of
    hops kept at its right end, and attributes the request to the right-most hop
    that is not in the ranges; it passes the chain on with its own peer added.
    The theorems: nothing a client writes changes what it is attributed to. *)

From stdpp Require Import base list numbers strings.
From Stdlib Require Import Ascii.
From S2P Require Import Prelude FcTypes FcConfig FcExpose L7Head.

Definition L7_MAX_TRUSTED_RANGES : Z := 16.
Definition L7_MAX_HOPS : Z := 16.
Definition L7_HOP_TEXT_MAX : Z := 46.
Definition INET_ADDRSTRLEN : Z := 16.

(** ** Addresses *)

(** inet_pton for IPv4: decimal octets without leading zeros, a dot between.
    [tp] is the octet being read, [saw] whether it has a digit. *)
Fixpoint pton4 (s : bytes) (done : list Z) (tp : Z) (saw : bool) : option (list Z) :=
  match s with
  | [] => if (zlen done =? 3) && saw then Some (done ++ [tp]) else None
  | ch :: s =>
      match digit_of ch with
      | Some d =>
          if (saw && (tp =? 0)) || (tp * 10 + d >? 255) then None
          else pton4 s done (tp * 10 + d) true
      | None => if Ascii.eqb ch "."%char && saw && (zlen done <? 3) then pton4 s (done ++ [tp]) 0 false else None
      end
  end.

(** The address as the number its four octets make; the code keeps it in network
    order, and compares under masks in network order. *)
Definition inet_pton4 (s : bytes) : option Z := (λ l, foldl (λ a o, a * 256 + o) 0 l) <$> pton4 s [] 0 false.

Record l7_trusted_range := mk_range { tr_addr : Z; tr_prefix_len : Z }.

Definition l7_trust_mask (prefix_len : Z) : Z :=
  if prefix_len =? 0 then 0 else if prefix_len >=? 32 then UINT32_MAX else u32 (Z.shiftl UINT32_MAX (32 - prefix_len)).

(** The digits after the slash *)
Fixpoint cidr_prefix (s : bytes) (prefix : Z) : option Z :=
  match s with
  | [] => Some prefix
  | c :: s => match digit_of c with Some d => if prefix * 10 + d >? 32 then None else cidr_prefix s (prefix * 10 + d) | None => None end
  end.

(** Where a character first is *)
Definition find_char (c : ascii) (l : bytes) : option nat := find_sub [c] l.

Definition l7_trust_parse_cidr (text : bytes) : option l7_trusted_range :=
  let slash := find_char "/"%char text in
  let addr_text := match slash with Some n => take n text | None => text end in
  if (zlen addr_text =? 0) || (zlen addr_text >=? INET_ADDRSTRLEN) then None
  else
    let prefix := match slash with
                  | Some n => let p := drop (S n) text in match p with [] => None | _ => cidr_prefix p 0 end
                  | None => Some 32
                  end in
    match prefix, inet_pton4 addr_text with
    | Some prefix, Some addr => Some (mk_range (Z.land addr (l7_trust_mask prefix)) prefix)
    | _, _ => None
    end.

Definition in_range (addr : Z) (r : l7_trusted_range) : bool :=
  let mask := l7_trust_mask (tr_prefix_len r) in Z.land addr mask =? Z.land (tr_addr r) mask.

(** [ranges] are the first n_ranges entries of the listener's array. *)
Definition l7_trust_contains (ranges : list l7_trusted_range) (text : bytes) : bool :=
  if (zlen ranges =? 0) || (zlen text =? 0) then false
  else match inet_pton4 text with Some addr => existsb (in_range addr) (take (Z.to_nat L7_MAX_TRUSTED_RANGES) ranges) | None => false end.

(** ** Hops *)

Record l7_hop_list := mk_hops { hop : list bytes; truncated : Z }.
#[export] Instance l7_hop_list_eta : RecordEta l7_hop_list := fun r => mk_hops (hop r) (truncated r).
Definition hops_zero : l7_hop_list := mk_hops [] 0.
Definition n_hops (h : l7_hop_list) : Z := zlen (hop h).

Definition is_blank (c : ascii) : bool := Ascii.eqb c " "%char || Ascii.eqb c "009"%char.
Fixpoint ltrim (l : bytes) : bytes := match l with c :: t => if is_blank c then ltrim t else l | [] => [] end.
Definition rtrim (l : bytes) : bytes := reverse (ltrim (reverse l)).

(** A port is cut from text with one colon. *)
Definition cut_port (s : bytes) : bytes :=
  match find_char ":"%char s with
  | Some n => match find_char ":"%char (drop (S n) s) with None => take n s | Some _ => s end
  | None => s
  end.

(** l7_hop_normalise into a field of [outlen] bytes: the C string it leaves. *)
Definition l7_hop_normalise (seg : bytes) (outlen : Z) : bytes :=
  let seg := rtrim (ltrim seg) in
  let '(bracketed, seg) :=
    match seg with
    | "["%char :: _ :: _ => match find_char "]"%char seg with Some n => (true, take (n - 1) (drop 1 seg)) | None => (false, seg) end
    | _ => (false, seg)
    end in
  if (zlen seg =? 0) || (zlen seg >=? outlen) then []
  else if bracketed : bool then cstr seg else cut_port (cstr seg).

(** The elements of a chain, at its commas. *)
Fixpoint segments (text acc : bytes) : list bytes :=
  match text with
  | [] => [acc]
  | c :: text => if Ascii.eqb c ","%char then acc :: segments text [] else segments text (acc ++ [c])
  end.

Definition add_hop (out : l7_hop_list) (seg : bytes) : l7_hop_list :=
  let h := l7_hop_normalise seg L7_HOP_TEXT_MAX in
  if zlen h =? 0 then out
  else
    let out := if n_hops out =? L7_MAX_HOPS then out <| hop ::= drop 1 |> <| truncated := 1 |> else out in
    out <| hop ::= (λ l, l ++ [h]) |>.

Definition l7_hop_list_append_n (text : bytes) (out : l7_hop_list) : l7_hop_list :=
  if zlen text =? 0 then out else foldl add_hop out (segments text []).

Definition l7_hop_list_from_xff (text : bytes) : l7_hop_list := l7_hop_list_append_n text hops_zero.

(** l7_capture_inbound_chain (sockproxy.h), for one header of the request *)
Definition xff_name : bytes := lit "X-Forwarded-For".
Definition name_eq_ci (a b : bytes) : bool := (zlen a =? zlen b) && prefix_ci a b.
Definition l7_capture_inbound_chain (hops : l7_hop_list) (name value : bytes) : l7_hop_list :=
  if zlen value =? 0 then hops
  else if negb (name_eq_ci xff_name name) then hops else l7_hop_list_append_n value hops.

(** ** Attribution *)

(** The walk over the hops from the right, [walked] of them passed. *)
Fixpoint walk_hops (ranges : list l7_trusted_range) (rev : list bytes) (walked : Z) : option bytes * Z :=
  match rev with
  | [] => (None, walked)
  | h :: rev => if l7_trust_contains ranges h then walk_hops ranges rev (walked + 1) else (Some h, walked)
  end.

(** The answer (1 when it came from the chain), the address and the hops passed,
    for a field of [outlen] bytes. *)
Definition l7_attribute_origin (hops : l7_hop_list) (ranges : list l7_trusted_range) (peer_ip : bytes) (outlen : Z) : Z * bytes * Z :=
  let fits s := negb (zlen s =? 0) && (zlen s <? outlen) in
  let peer := if fits peer_ip then peer_ip else [] in
  match walk_hops ranges (reverse (take (Z.to_nat L7_MAX_HOPS) (hop hops))) 0 with
  | (Some h, walked) => if fits h then (1, h, u8 walked) else (0, peer, u8 walked)
  | (None, walked) => (0, peer, u8 walked)
  end.

Definition l7_origin_for_listener (hops : l7_hop_list) (ranges : list l7_trusted_range) (peer_ip : bytes) (outlen : Z) : Z * bytes * Z :=
  if zlen ranges =? 0 then (0, if negb (zlen peer_ip =? 0) && (zlen peer_ip <? outlen) then peer_ip else [], 0)
  else l7_attribute_origin hops ranges peer_ip outlen.

(** ** The chain to pass on *)

(** One element more in a buffer of [outlen] bytes *)
Definition chain_put (outlen : Z) (out : option bytes) (s : bytes) : option bytes :=
  match out with
  | None => None
  | Some out =>
      let need := zlen s + (if zlen out =? 0 then 0 else 2) in
      if zlen out + need >=? outlen then None else Some ((if zlen out =? 0 then [] else out ++ lit ", ") ++ s)
  end.

(** None where the code answers 0. *)
Definition l7_chain_append_peer (hops : l7_hop_list) (peer_ip : bytes) (outlen : Z) : option bytes :=
  if zlen peer_ip =? 0 then None
  else chain_put outlen (foldl (chain_put outlen) (Some []) (take (Z.to_nat L7_MAX_HOPS) (hop hops))) peer_ip.

Example hops_example :
  hop (l7_hop_list_from_xff (lit " 10.0.0.1:80 ,[2001:db8::1]:443,, unknown,1.2.3.4")) = [lit "10.0.0.1"; lit "2001:db8::1"; lit "unknown"; lit "1.2.3.4"] ∧
  l7_trust_parse_cidr (lit "10.1.2.3/8") = Some (mk_range 167772160 8) ∧ l7_trust_parse_cidr (lit "10.1.2.3/33") = None ∧ inet_pton4 (lit "1.2.3.04") = None ∧
  l7_trust_contains [mk_range 167772160 8] (lit "10.255.0.1") = true ∧ l7_trust_contains [mk_range 167772160 8] (lit "11.0.0.1") = false.
Proof. vm_compute. repeat split; reflexivity. Qed.

(** ** What the list holds *)

(** The right end of a list, as much as the hop list has room for *)
Definition keep (l : list bytes) : list bytes := drop (length l - Z.to_nat L7_MAX_HOPS) l.

Lemma keep_app a b : keep (keep a ++ b) = keep (a ++ b).
Proof.
  unfold keep. set (m := Z.to_nat L7_MAX_HOPS). rewrite !length_app, length_drop. destruct (le_lt_dec (length a) m) as [H|H].
  - replace (length a - m)%nat with O by lia. by rewrite drop_0, Nat.sub_0_r.
  - replace (drop (length a + length b - m) (a ++ b)) with (drop (length b) (drop (length a - m) (a ++ b))) by (rewrite drop_drop; f_equal; lia).
    rewrite (drop_app_le a b (length a - m)) by lia. f_equal. lia.
Qed.

Lemma keep_length l : (length (keep l) <= Z.to_nat L7_MAX_HOPS)%nat.
Proof. unfold keep. rewrite length_drop. lia. Qed.

Lemma keep_end a b : (length b <= Z.to_nat L7_MAX_HOPS)%nat → ∃ a', keep (a ++ b) = a' ++ b.
Proof. intros H. unfold keep. rewrite length_app. exists (drop (length a + length b - Z.to_nat L7_MAX_HOPS) a). apply drop_app_le. lia. Qed.

Definition hop_of (seg : bytes) : list bytes := let h := l7_hop_normalise seg L7_HOP_TEXT_MAX in if zlen h =? 0 then [] else [h].
Definition hops_of (value : bytes) : list bytes := if zlen value =? 0 then [] else concat (hop_of <$> segments value []).
Definition chain_hops (headers : list (bytes * bytes)) : list bytes := concat ((λ '(name, value), if name_eq_ci xff_name name then hops_of value else []) <$> headers).
Definition captured (headers : list (bytes * bytes)) : l7_hop_list := foldl (λ h '(name, value), l7_capture_inbound_chain h name value) hops_zero headers.

Lemma add_hop_keep out seg l : hop out = keep l → hop (add_hop out seg) = keep (l ++ hop_of seg).
Proof.
  intros E. pose proof (keep_length l) as Hk. rewrite <- E in Hk. unfold add_hop, hop_of. set (h := l7_hop_normalise seg L7_HOP_TEXT_MAX). destruct (zlen h =? 0); [by rewrite app_nil_r|]. cbn zeta. rewrite <- keep_app, <- E. clear E l.
  assert (D : ∀ l : list bytes, (length l <= Z.to_nat L7_MAX_HOPS)%nat → keep (l ++ [h]) = (if zlen l =? L7_MAX_HOPS then drop 1 l else l) ++ [h]).
  { intros l Hl. unfold keep. rewrite length_app. cbn [length]. destruct (Z.eqb_spec (zlen l) L7_MAX_HOPS) as [He|He]; unfold zlen, L7_MAX_HOPS in *.
    - replace (length l + 1 - Z.to_nat 16)%nat with 1%nat by lia. rewrite drop_app_le by lia. done.
    - replace (length l + 1 - Z.to_nat 16)%nat with O by lia. by rewrite drop_0. }
  rewrite (D _ Hk). unfold n_hops. by destruct (zlen (hop out) =? L7_MAX_HOPS).
Qed.

Lemma add_hops_keep segs out l : hop out = keep l → hop (foldl add_hop out segs) = keep (l ++ concat (hop_of <$> segs)).
Proof.
  revert out l. induction segs as [|s segs IH]; intros out l E; [by rewrite app_nil_r|]. cbn [foldl fmap list_fmap concat]. rewrite app_assoc. apply IH. by apply add_hop_keep.
Qed.

Lemma append_keep value out l : hop out = keep l → hop (l7_hop_list_append_n value out) = keep (l ++ hops_of value).
Proof. intros E. unfold l7_hop_list_append_n, hops_of. destruct (zlen value =? 0); [by rewrite app_nil_r|by apply add_hops_keep]. Qed.

(** The list holds the right end of all hops of all lines, in order. *)
Lemma captured_keep headers : hop (captured headers) = keep (chain_hops headers).
Proof.
  unfold captured. assert (G : ∀ out l, hop out = keep l → hop (foldl (λ h '(name, value), l7_capture_inbound_chain h name value) out headers) = keep (l ++ chain_hops headers)); [|by apply (G hops_zero [])].
  induction headers as [|[n v] headers IH]; intros out l E; [by rewrite app_nil_r|]. cbn [foldl]. unfold chain_hops. cbn [fmap list_fmap concat]. rewrite app_assoc. apply IH.
  unfold l7_capture_inbound_chain. destruct (name_eq_ci xff_name n); cbn [negb].
  - destruct (zlen v =? 0) eqn:Ev; [unfold hops_of; by rewrite Ev, app_nil_r|by apply append_keep].
  - rewrite app_nil_r. by destruct (zlen v =? 0).
Qed.

Lemma segments_app a t acc : segments (a ++ ","%char :: t) acc = segments a acc ++ segments t [].
Proof. revert acc. induction a as [|c a IH]; intros acc; [done|]. cbn [app segments]. destruct (Ascii.eqb c ","%char); [|apply IH]. by rewrite IH. Qed.

Lemma segments_plain a acc : Forall (λ c, c ≠ ","%char) a → segments a acc = [acc ++ a].
Proof.
  revert acc. induction a as [|c a IH]; intros acc H; [by rewrite app_nil_r|]. apply Forall_cons in H as [Hc H]. cbn [segments]. rewrite (proj2 (Ascii.eqb_neq _ _) Hc), IH by done. by rewrite <- app_assoc.
Qed.

(** ** Texts of addresses *)

(** A hop as a proxy writes it: no comma, blank, colon, bracket or NUL. *)
Definition hop_char (c : ascii) : bool := negb (existsb (Ascii.eqb c) [","%char; " "%char; "009"%char; ":"%char; "["%char; NUL]).
Definition hop_text (a : bytes) : Prop := a ≠ [] ∧ zlen a < L7_HOP_TEXT_MAX ∧ forallb hop_char a = true.

(** Addresses with a comma and a space between *)
Definition chain_text (l : list bytes) : bytes := match l with [] => [] | a :: l => foldl (λ t s, t ++ lit ", " ++ s) a l end.

Lemma chain_text_snoc l a : l ≠ [] → chain_text (l ++ [a]) = chain_text l ++ lit ", " ++ a.
Proof. destruct l as [|x l]; [done|]. intros _. cbn [app chain_text]. by rewrite foldl_app. Qed.

Lemma hop_char_not a c : forallb hop_char a = true → hop_char c = false → Forall (λ x, x ≠ c) a.
Proof. intros H Hc. apply list.Forall_forall. intros x Hx ->. rewrite forallb_forall in H. rewrite (H c) in Hc; [done|]. by apply list_elem_of_In. Qed.

Lemma find_char_none c a : Forall (λ x, x ≠ c) a → find_char c a = None.
Proof.
  unfold find_char. induction a as [|x a IH]; intros H; [done|]. apply Forall_cons in H as [Hx H]. cbn [find_sub]. unfold is_prefix. cbn [length take]. rewrite bool_decide_false by (intros E; by inversion E). by rewrite IH.
Qed.

Lemma cstr_plain a : Forall (λ x, x ≠ NUL) a → cstr a = a.
Proof. induction a as [|x a IH]; intros H; [done|]. apply Forall_cons in H as [Hx H]. cbn [cstr]. by rewrite (proj2 (Ascii.eqb_neq _ _) Hx), IH. Qed.

Lemma ltrim_plain a : Forall (λ c, is_blank c = false) a → ltrim a = a.
Proof. destruct a as [|c a]; [done|]. intros [H _]%Forall_cons. cbn [ltrim]. by rewrite H. Qed.

Lemma hop_blank c : hop_char c = true → is_blank c = false.
Proof. unfold hop_char, is_blank. cbn [existsb]. destruct (Ascii.eqb c " "%char), (Ascii.eqb c "009"%char); cbn; rewrite ?orb_true_r; done. Qed.

Lemma normalise_hop pre a : forallb is_blank pre = true → hop_text a → l7_hop_normalise (pre ++ a) L7_HOP_TEXT_MAX = a.
Proof.
  intros Hp (Hne & Hl & Hc). assert (Hb : Forall (λ c, is_blank c = false) a) by (apply list.Forall_forall; intros x Hx; apply hop_blank; rewrite forallb_forall in Hc; apply Hc; by apply list_elem_of_In).
  assert (E : ltrim (pre ++ a) = a) by (clear Hc Hl Hne; induction pre as [|c pre IH]; [by apply ltrim_plain|]; cbn in Hp |- *; apply andb_true_iff in Hp as [-> Hp]; by apply IH).
  unfold l7_hop_normalise. rewrite E. unfold rtrim. rewrite ltrim_plain by by apply Forall_reverse. rewrite reverse_involutive.
  assert (Hz : (zlen a =? 0) = false) by (destruct a as [|x t]; [done|]; rewrite zlen_cons; pose proof (zlen_nonneg t); lia).
  assert (Hbr : (match a with "["%char :: _ :: _ => match find_char "]"%char a with Some n => (true, take (n - 1) (drop 1 a)) | None => (false, a) end | _ => (false, a) end) = (false, a)).
  { pose proof (hop_char_not a "["%char Hc eq_refl) as Hn. destruct a as [|x [|y a]]; [done|by repeat case_match|]. apply Forall_cons in Hn as [Hn _]. repeat case_match; simplify_eq; done. }
  rewrite Hbr, Hz. rewrite Z.geb_leb, (proj2 (Z.leb_gt _ _)) by done. cbn [orb]. rewrite cstr_plain by by apply hop_char_not. unfold cut_port. by rewrite find_char_none by by apply hop_char_not.
Qed.

Lemma hop_of_text pre a : forallb is_blank pre = true → hop_text a → hop_of (pre ++ a) = [a].
Proof. intros Hp Ha. unfold hop_of. rewrite normalise_hop by done. destruct Ha as [Hne _]. destruct a as [|x t]; [done|]. rewrite zlen_cons. pose proof (zlen_nonneg t). by rewrite (proj2 (Z.eqb_neq _ _)) by lia. Qed.

Lemma chain_segments pre l : forallb is_blank pre = true → l ≠ [] → Forall hop_text l → concat (hop_of <$> segments (pre ++ chain_text l) []) = l.
Proof.
  intros Hp Hne. induction l as [|a l IH] using rev_ind; [done|]. intros [Hl Ha]%Forall_app. apply Forall_cons in Ha as [Ha _]. assert (Hcm : Forall (λ c, c ≠ ","%char) a) by (by apply hop_char_not; [apply Ha|]).
  destruct (decide (l = [])) as [->|Hn].
  - cbn [app chain_text foldl]. rewrite segments_plain by (apply Forall_app; split; [|done]; apply list.Forall_forall; intros x Hx ->; rewrite forallb_forall in Hp; by specialize (Hp _ (proj1 (list_elem_of_In _ _) Hx))).
    cbn [fmap list_fmap concat]. rewrite app_nil_r. by apply (hop_of_text pre a).
  - rewrite chain_text_snoc by done. change (lit ", " ++ a) with (","%char :: " "%char :: a). rewrite app_assoc, segments_app, fmap_app, concat_app, IH by done.
    rewrite segments_plain by (by constructor). cbn [fmap list_fmap concat]. rewrite app_nil_r. f_equal. by apply (hop_of_text [" "%char] a).
Qed.

Lemma chain_text_nonempty l : l ≠ [] → Forall hop_text l → zlen (chain_text l) ≠ 0.
Proof.
  destruct l as [|a l] using rev_ind; [done|]. intros _ [_ Ha]%Forall_app. apply Forall_cons in Ha as [(Hne & _) _]. assert (1 <= zlen a) by (destruct a as [|x a]; [done|rewrite zlen_cons; pose proof (zlen_nonneg a); lia]).
  destruct (decide (l = [])) as [->|Hn]; [cbn [app chain_text foldl]; lia|]. rewrite chain_text_snoc, !zlen_app by done. pose proof (zlen_nonneg (chain_text l)). pose proof (zlen_nonneg (lit ", ")). lia.
Qed.

(** A line that ends in a chain, whatever is before it *)
Definition ends_in_chain (v : bytes) (l : list bytes) : Prop := v = chain_text l ∨ ∃ junk, v = junk ++ lit ", " ++ chain_text l.

Lemma hops_of_chain v l : ends_in_chain v l → l ≠ [] → Forall hop_text l → ∃ a, hops_of v = a ++ l.
Proof.
  intros Hv Hne Hl. pose proof (chain_text_nonempty l Hne Hl) as Hz. unfold hops_of. destruct Hv as [->|[junk ->]].
  - rewrite (proj2 (Z.eqb_neq _ _)) by done. exists []. by apply (chain_segments []).
  - rewrite (proj2 (Z.eqb_neq _ _)) by (rewrite !zlen_app; pose proof (zlen_nonneg junk); pose proof (zlen_nonneg (lit ", ")); pose proof (zlen_nonneg (chain_text l)); lia).
    change (lit ", " ++ chain_text l) with (","%char :: " "%char :: chain_text l). rewrite segments_app, fmap_app, concat_app. eexists. f_equal. by apply (chain_segments [" "%char]).
Qed.

Lemma walk_past ranges ps rest w : Forall (λ p, l7_trust_contains ranges p = true) ps → walk_hops ranges (ps ++ rest) w = walk_hops ranges rest (w + zlen ps).
Proof.
  revert w. induction ps as [|p ps IH]; intros w H; [change (zlen []) with 0; by rewrite Z.add_0_r|]. apply Forall_cons in H as [Hp H]. cbn [app walk_hops]. rewrite Hp, IH by done. f_equal. rewrite zlen_cons. lia.
Qed.

Lemma attribute_end hops ranges peer a c ps : hop hops = keep (a ++ c :: ps) → (length ps < Z.to_nat L7_MAX_HOPS)%nat → hop_text c →
  l7_trust_contains ranges c = false → Forall (λ p, l7_trust_contains ranges p = true) ps → l7_attribute_origin hops ranges peer L7_HOP_TEXT_MAX = (1, c, zlen ps).
Proof.
  intros E Hn Hc Ht Hp. unfold l7_attribute_origin. rewrite take_ge by (rewrite E; apply keep_length). rewrite E. destruct (keep_end a (c :: ps)) as [a' ->]; [cbn; lia|].
  rewrite reverse_app, reverse_cons, <- !app_assoc. rewrite walk_past by (by apply Forall_reverse). cbn [app walk_hops]. rewrite Ht. destruct Hc as (Hne & Hl & _).
  rewrite (proj2 (Z.eqb_neq _ _)) by (destruct c as [|x c]; [done|rewrite zlen_cons; pose proof (zlen_nonneg c); lia]). rewrite (proj2 (Z.ltb_lt _ _)) by done. cbn [negb andb].
  unfold u8, zlen in *. rewrite length_reverse, Z.mod_small by (unfold L7_MAX_HOPS in Hn; lia). by rewrite Z.add_0_l.
Qed.

(** C12. A client cannot choose what it is attributed to. Whatever headers a
    request carries, in whatever spelling and number, and whatever the last line of
    the chain begins with: when that line ends in the address the outermost of our
    proxies saw, followed by those of our proxies (at most fifteen), the listener
    attributes the request to that address and counts those proxies. *)
Theorem origin_unforgeable ranges before n v after peer c ps :
  ranges ≠ [] → name_eq_ci xff_name n = true → Forall (λ h : bytes * bytes, name_eq_ci xff_name h.1 = false) after → ends_in_chain v (c :: ps) → Forall hop_text (c :: ps) →
  (length ps < Z.to_nat L7_MAX_HOPS)%nat → l7_trust_contains ranges c = false → Forall (λ p, l7_trust_contains ranges p = true) ps →
  l7_origin_for_listener (captured (before ++ (n, v) :: after)) ranges peer L7_HOP_TEXT_MAX = (1, c, zlen ps).
Proof.
  intros Hr Hn Ha Hv Hh Hl Hc Hp. destruct (hops_of_chain v (c :: ps) Hv ltac:(done) Hh) as [a Ea]. unfold l7_origin_for_listener. rewrite (proj2 (Z.eqb_neq _ _)) by (destruct ranges as [|r ranges]; [done|rewrite zlen_cons; pose proof (zlen_nonneg ranges); lia]).
  apply (attribute_end _ _ _ (chain_hops before ++ a)); [|done|by inversion Hh|done|done]. rewrite captured_keep. f_equal. unfold chain_hops. rewrite fmap_app, concat_app. cbn [fmap list_fmap concat]. rewrite Hn, Ea.
  assert (E : concat ((λ '(name, value), if name_eq_ci xff_name name then hops_of value else []) <$> after) = []).
  { clear -Ha. induction Ha as [|[n v] after H _ IH]; [done|]. cbn [fmap list_fmap concat]. cbn [fst] in H. by rewrite H. }
  rewrite E, app_nil_r, <- app_assoc. done.
Qed.

(** ** The chain passed on *)

Lemma chain_put_text outlen l s : Forall hop_text l → (l = [] ∨ zlen (chain_text l) ≠ 0) → zlen (chain_text (l ++ [s])) < outlen → chain_put outlen (Some (chain_text l)) s = Some (chain_text (l ++ [s])).
Proof.
  intros Hl Hn Hz. unfold chain_put. destruct (decide (l = [])) as [->|Hne].
  - cbn [app chain_text foldl] in *. change (zlen []) with 0. cbn [Z.eqb]. rewrite Z.geb_leb, (proj2 (Z.leb_gt _ _)) by lia. done.
  - destruct Hn as [?|Hn]; [done|]. rewrite (proj2 (Z.eqb_neq _ _) Hn). rewrite chain_text_snoc in * by done. rewrite !zlen_app in Hz. change (zlen (lit ", ")) with 2 in Hz. rewrite Z.geb_leb, (proj2 (Z.leb_gt _ _)) by lia. by rewrite <- app_assoc.
Qed.

Lemma chain_text_mono l s : zlen (chain_text l) <= zlen (chain_text (l ++ [s])).
Proof. destruct (decide (l = [])) as [->|Hn]; [apply zlen_nonneg|]. rewrite chain_text_snoc, !zlen_app by done. pose proof (zlen_nonneg (lit ", ")). pose proof (zlen_nonneg s). lia. Qed.

Lemma chain_fold outlen l : Forall hop_text l → zlen (chain_text l) < outlen → foldl (chain_put outlen) (Some []) l = Some (chain_text l).
Proof.
  induction l as [|s l IH] using rev_ind; [done|]. intros Hl Hz. pose proof Hl as Hl'. apply Forall_app in Hl' as [Hl1 _]. rewrite foldl_app. cbn [foldl]. pose proof (chain_text_mono l s). rewrite IH by (done || lia).
  apply chain_put_text; [done| |done]. destruct (decide (l = [])) as [->|Hn]; [by left|right; by apply chain_text_nonempty].
Qed.

(** The chain with the peer added, when it fits. *)
Lemma chain_append hops peer outlen : Forall hop_text (hop hops) → hop_text peer → n_hops hops <= L7_MAX_HOPS → zlen (chain_text (hop hops ++ [peer])) < outlen →
  l7_chain_append_peer hops peer outlen = Some (chain_text (hop hops ++ [peer])).
Proof.
  intros Hh Hp Hn Hz. unfold l7_chain_append_peer. destruct Hp as (Hne & _). rewrite (proj2 (Z.eqb_neq _ _)) by (destruct peer as [|x p]; [done|rewrite zlen_cons; pose proof (zlen_nonneg p); lia]).
  rewrite take_ge by (unfold n_hops, zlen in Hn; lia). pose proof (chain_text_mono (hop hops) peer). rewrite chain_fold by (done || lia).
  apply chain_put_text; [done| |done]. destruct (decide (hop hops = [])) as [->|Hn']; [by left|right; by apply chain_text_nonempty].
Qed.

Lemma origin_unforgeable_witness :
  let ranges := [mk_range 167772160 8] in
  l7_origin_for_listener (captured [(lit "x-forwarded-for", lit "8.8.8.8, 10.0.0.1"); (lit "Host", lit "a"); (lit "X-Forwarded-For", lit ",,[x,10.9.9.9:1 , 203.0.113.7, 10.0.0.5"); (lit "B", lit "c")]) ranges (lit "10.0.0.6") L7_HOP_TEXT_MAX = (1, lit "203.0.113.7", 1).
Proof.
  cbn zeta. pose proof (origin_unforgeable [mk_range 167772160 8] [(lit "x-forwarded-for", lit "8.8.8.8, 10.0.0.1"); (lit "Host", lit "a")] (lit "X-Forwarded-For") (lit ",,[x,10.9.9.9:1 , 203.0.113.7, 10.0.0.5") [(lit "B", lit "c")] (lit "10.0.0.6") (lit "203.0.113.7") [lit "10.0.0.5"]) as H.
  apply H; [done|vm_compute; reflexivity|by constructor|right; exists (lit ",,[x,10.9.9.9:1 "); vm_compute; reflexivity| | |vm_compute; reflexivity|].
  - repeat constructor; vm_compute; done.
  - vm_compute. lia.
  - constructor; [vm_compute; reflexivity|done].
Defined.
