(* ===== verification/L7Match.v ===== *)
(** * L7 policy: matching a request against routes (src/common/sockproxy_l7policy.c)

    A listener may carry routes, each with a position, sets of conditions (any set
    must hold, with all its conditions) and an action; the first in the order of
    positions that matches decides. The conditions compare a field of the parsed
    request; the file models how each field is found (with the cookie and query
    parsers of sockproxy_http.c and the host of sockproxy_ep.c), the comparison,
    the evaluation, and how a policy is put on and taken off a listener. The
    regular-expression library is an argument; so is the sort. *)

From stdpp Require Import base list numbers strings sorting.
From Stdlib Require Import Ascii.
From S2P Require Import Prelude FcTypes FcConfig FcExpose QosCtl L7Head L7Trust.

(** ** The request *)

Definition L7_MAX_CAPTURED_HEADERS : Z := 32.

(** The fields of struct proxy_fd_ent the policy reads, as C strings; the headers
    are the filled slots of l7_headers. *)
Record l7_req := mk_l7_req { host_url : bytes; request_path : bytes; url_path : bytes; http_method : bytes; l7_headers : list (bytes * bytes); r_ssl : bool }.
#[export] Instance l7_req_eta : RecordEta l7_req := fun r => mk_l7_req (host_url r) (request_path r) (url_path r) (http_method r) (l7_headers r) (r_ssl r).

(** What snprintf and the bounded copies leave in a field of [size] bytes *)
Definition fit (size : Z) (s : bytes) : bytes := take (Z.to_nat (size - 1)) s.

(** l7_store_header_n, the chain and the slots *)
Definition l7_store_header_n (name value : bytes) (hops : l7_hop_list) (req : l7_req) : l7_hop_list * l7_req :=
  let hops := l7_capture_inbound_chain hops name value in
  if zlen (l7_headers req) >=? L7_MAX_CAPTURED_HEADERS then (hops, req)
  else (hops, req <| l7_headers ::= (λ l, l ++ [(cstr (fit L7_HDR_NAME_MAX name), cstr (fit L7_HDR_VALUE_MAX value))]) |>).

(** ** Routes *)

Definition L7_MAX_CONDS_PER_SET : Z := 8.
Definition L7_MAX_SETS_PER_ROUTE : Z := 8.
Definition L7_REGEX_INPUT_MAX : Z := 1024.
Definition L7_MAX_HDR_FILTERS : Z := 8.

Inductive l7_field := L7F_HOST | L7F_PATH | L7F_HEADER | L7F_COOKIE | L7F_FILE_TYPE | L7F_METHOD | L7F_QUERY | L7F_unknown.
Inductive l7_op := L7OP_EQUAL | L7OP_PREFIX | L7OP_SEGMENT_PREFIX | L7OP_SUFFIX | L7OP_CONTAINS | L7OP_REGEX | L7OP_unknown.
Inductive l7_path_op := L7PATH_NONE | L7PATH_REPLACE_FULL | L7PATH_REPLACE_PREFIX.

Record l7_forward := mk_l7_forward { refs : list (Z * Z); n_refs : Z }.
Record l7_redirect := mk_l7_redirect { rd_scheme : bytes; rd_host : bytes; rd_port : Z; rd_path_op : l7_path_op; rd_value : bytes; rd_status : Z }.
Inductive l7_action := L7A_FORWARD (fwd : l7_forward) | L7A_REDIRECT (redir : l7_redirect) | L7A_REJECT (status_code : Z) | L7A_unknown.

Record l7_hdr_filter := mk_l7_hdr_filter { hf_op : l7_hdr_op; hf_name : bytes; hf_value : bytes }.

Section policy.
(** A compiled program, as the condition holds it when re_valid is set *)
Context {regex_t : Type}.

Record l7_condition := mk_l7_condition { c_field : l7_field; c_op : l7_op; c_key : bytes; c_value : bytes; c_invert : bool; c_re : option regex_t }.
Record l7_match_set := mk_l7_match_set { conds : list l7_condition; n_conds : Z }.
Record l7_route := mk_l7_route { position : Z; sets : list l7_match_set; n_sets : Z; action : l7_action; hdr_filters : list l7_hdr_filter; n_hdr_filters : Z; cookie_persist : Z }.

End policy.
Arguments l7_condition : clear implicits.
Arguments l7_match_set : clear implicits.
Arguments l7_route : clear implicits.

(** ** Comparing *)

Definition l7_str_ends_with (s suffix : bytes) : bool :=
  if zlen suffix >? zlen s then false else bool_decide (drop (length s - length suffix) s = suffix).

Definition l7_path_segment_prefix (s value : bytes) : bool :=
  let lv := zlen value in
  let lv := if (lv >? 1) && Ascii.eqb (zget value (lv - 1)) "/"%char then lv - 1 else lv in
  if lv =? 0 then true
  else if negb (is_prefix (take (Z.to_nat lv) value) s) then false
  else match drop (Z.to_nat lv) s with [] => true | after :: _ => Ascii.eqb after "/"%char end.

(** ** Finding a field *)

Fixpoint find_last (c : ascii) (l : bytes) : option nat :=
  match l with
  | [] => None
  | x :: l => match find_last c l with Some n => Some (S n) | None => if Ascii.eqb x c then Some O else None end
  end.

(** sockproxy_ep.c *)
Definition strip_port_from_hostname (h : bytes) (size : Z) : bytes :=
  match find_last ":"%char h with
  | Some port =>
      match find_char "]"%char (drop port h) with
      | Some b => fit size (take (port + b + 1) h)
      | None => fit size (take port h)
      end
  | None => fit size h
  end.

(** strpbrk: the bytes before the first of [stop] *)
Fixpoint until (stop : bytes) (l : bytes) : bytes :=
  match l with [] => [] | c :: l => if existsb (Ascii.eqb c) stop then [] else c :: until stop l end.

Definition after_sub (p l : bytes) : option bytes := (λ n, drop (n + length p) l) <$> find_sub p l.

(** sockproxy_http.c *)
Definition extract_cookie_by_name (headers cookie_name : bytes) (value_size : Z) : option bytes :=
  match find_sub (lit "Cookie:") headers with
  | None => None
  | Some n =>
      match after_sub (fit 256 (cookie_name ++ lit "=")) (drop n headers) with
      | None => None
      | Some value => match until (lit ";" ++ CRLF ++ lit " ") value with [] => None | v => Some (fit value_size v) end
      end
  end.

Definition hex_digit (c : ascii) : option Z :=
  let n := Z.of_nat (nat_of_ascii c) in
  if (48 <=? n) && (n <=? 57) then Some (n - 48)
  else if (65 <=? n) && (n <=? 70) then Some (n - 55)
  else if (97 <=? n) && (n <=? 102) then Some (n - 87) else None.

(** strtol(hex, &endptr, 16) on two characters, when it takes both: a sign or a
    blank is taken too. *)
Definition strtol_hex2 (a b : ascii) : option Z :=
  match hex_digit a, hex_digit b with
  | Some x, Some y => Some (x * 16 + y)
  | None, Some y => if Ascii.eqb a "-"%char then Some (- y) else if Ascii.eqb a "+"%char || is_space a then Some y else None
  | _, None => None
  end.

Fixpoint url_decode (l : bytes) : bytes :=
  match l with
  | [] => []
  | c :: t =>
      if Ascii.eqb c "%"%char then
        match t with
        | a :: b :: rest => match strtol_hex2 a b with Some d => ascii_of_nat (Z.to_nat (u8 d)) :: url_decode rest | None => c :: url_decode t end
        | _ => c :: url_decode t
        end
      else (if Ascii.eqb c "+"%char then " "%char else c) :: url_decode t
  end.

(** The value of a query parameter, decoded: the C string it leaves. *)
Definition extract_query_param_value (url param_name : bytes) (value_size : Z) : option bytes :=
  match find_char "?"%char url with
  | None => None
  | Some q =>
      let query := drop q url in
      let pat := fit 256 (param_name ++ lit "=") in
      match find_sub pat query with
      | None => None
      | Some p =>
          if negb (Z.of_nat p =? 1) && negb (Ascii.eqb (zget url (Z.of_nat q + Z.of_nat p - 1)) "&"%char) then None
          else match until (lit "& #" ++ CRLF) (drop (p + length pat) query) with
               | [] => None
               | v => Some (cstr (url_decode (fit value_size v)))
               end
      end
  end.

Definition find_header (name : bytes) (hs : list (bytes * bytes)) : option bytes := snd <$> List.find (λ h, name_eq_ci h.1 name) hs.

Definition nonempty (s : bytes) : option bytes := match s with [] => None | _ => Some s end.

(** The extension of the last segment of the path *)
Definition file_type (path : bytes) (buflen : Z) : option bytes :=
  let p := fit buflen (match find_char "?"%char path with Some q => take q path | None => path end) in
  let seg := match find_last "/"%char p with Some s => drop s p | None => p end in
  match find_last "."%char seg with Some d => nonempty (drop (S d) seg) | None => None end.

Section eval.
Context {regex_t : Type} (regexec : regex_t → bytes → bool) (have_http_trace : bool).

Definition l7_op_matches (op : l7_op) (operand : option bytes) (value : bytes) (re : option regex_t) : bool :=
  match operand with
  | None => false
  | Some operand =>
      match op with
      | L7OP_EQUAL => bool_decide (operand = value)
      | L7OP_PREFIX => is_prefix value operand
      | L7OP_SEGMENT_PREFIX => l7_path_segment_prefix operand value
      | L7OP_SUFFIX => l7_str_ends_with operand value
      | L7OP_CONTAINS => match find_sub value operand with Some _ => true | None => false end
      | L7OP_REGEX => match re with Some re => regexec re (fit L7_REGEX_INPUT_MAX operand) | None => false end
      | L7OP_unknown => false
      end
  end.

Definition l7_resolve_operand (req : l7_req) (field : l7_field) (key : bytes) (buflen : Z) : option bytes :=
  match field with
  | L7F_HOST => match host_url req with [] => None | h => Some (strip_port_from_hostname h buflen) end
  | L7F_PATH => nonempty (request_path req)
  | L7F_FILE_TYPE => match request_path req with [] => None | p => file_type p buflen end
  | L7F_METHOD => if have_http_trace then nonempty (http_method req) else None
  | L7F_HEADER => find_header key (l7_headers req)
  | L7F_COOKIE =>
      match find_header (lit "Cookie") (l7_headers req) with
      | None => None
      | Some v => extract_cookie_by_name (fit (L7_HDR_VALUE_MAX + 16) (lit "Cookie: " ++ v)) key buflen
      end
  | L7F_QUERY => match url_path req with [] => None | u => extract_query_param_value u key buflen end
  | L7F_unknown => None
  end.

Definition l7_condition_matches (req : l7_req) (c : l7_condition regex_t) : bool :=
  let raw := l7_op_matches (c_op c) (l7_resolve_operand req (c_field c) (c_key c) L7_REGEX_INPUT_MAX) (c_value c) (c_re c) in
  if c_invert c then negb raw else raw.

(** The entries of an array that its count, held to the array's size, covers *)
Definition first_n {A} (max n : Z) (l : list A) : list A := take (Z.to_nat (Z.min n max)) l.

Definition l7_set_matches (req : l7_req) (s : l7_match_set regex_t) : bool :=
  if n_conds s =? 0 then false else forallb (l7_condition_matches req) (first_n L7_MAX_CONDS_PER_SET (n_conds s) (conds s)).

Definition l7_route_matches (req : l7_req) (r : l7_route regex_t) : bool :=
  existsb (l7_set_matches req) (first_n L7_MAX_SETS_PER_ROUTE (n_sets r) (sets r)).

(** The decision: the index of the route and its action; nobody reads it when the
    answer is -1. *)
Record l7_decision := mk_l7_decision { route_index : Z; d_action : l7_action }.

Fixpoint evaluate_from (req : l7_req) (i : Z) (routes : list (l7_route regex_t)) : Z * l7_decision :=
  match routes with
  | [] => (-1, mk_l7_decision 0 (L7A_REJECT 0))
  | r :: routes =>
      if l7_route_matches req r then
        (match action r with L7A_unknown => -1 | _ => 0 end, mk_l7_decision i (action r))
      else evaluate_from req (i + 1) routes
  end.

Definition l7_policy_evaluate (req : l7_req) (routes : list (l7_route regex_t)) : Z * l7_decision := evaluate_from req 0 routes.

Definition l7_first_matching_route (req : l7_req) (routes : list (l7_route regex_t)) : option (l7_route regex_t) := List.find (l7_route_matches req) routes.

End eval.

(** ** Putting a policy on a listener *)

Definition L7_CURSORS : Z := 256.

(** The fields of struct proxy_map_ent the policy keeps: [m_mcp] is that the first
    pool is a stateless MCP one; no routes is a NULL l7_routes. *)
Record map_ent {regex_t : Type} := mk_map_ent {
  m_key : proxy_ent; m_mcp : bool; has_l7_policy : bool; l7_routes : list (l7_route regex_t); l7_rr_ticket : list Z; l7_trusted_ranges : list l7_trusted_range
}.
Arguments map_ent : clear implicits.
#[export] Instance map_ent_eta {R} : RecordEta (map_ent R) := fun r => mk_map_ent _ (m_key r) (m_mcp r) (has_l7_policy r) (l7_routes r) (l7_rr_ticket r) (l7_trusted_ranges r).

Section attach.
Context {regex_t : Type} (regcomp : bytes → option regex_t) (qsort : list (l7_route regex_t) → list (l7_route regex_t)).
Local Abbreviation l7_condition := (l7_condition regex_t).
Local Abbreviation l7_match_set := (l7_match_set regex_t).
Local Abbreviation l7_route := (l7_route regex_t).
Local Abbreviation map_ent := (map_ent regex_t).

(** The first [n] entries through a function that may fail *)
Fixpoint map_first {A} (f : A → option A) (n : nat) (l : list A) : option (list A) :=
  match n, l with
  | S n, x :: l => match f x, map_first f n l with Some y, Some l => Some (y :: l) | _, _ => None end
  | _, _ => Some l
  end.

Definition compile_cond (c : l7_condition) : option l7_condition :=
  let with_re re := mk_l7_condition (c_field c) (c_op c) (c_key c) (c_value c) (c_invert c) re in
  match c_op c with
  | L7OP_REGEX => match regcomp (c_value c) with Some re => Some (with_re (Some re)) | None => None end
  | _ => Some (with_re None)
  end.

Definition compile_set (s : l7_match_set) : option l7_match_set :=
  let n := Z.min (n_conds s) L7_MAX_CONDS_PER_SET in
  (λ cs, mk_l7_match_set cs n) <$> map_first compile_cond (Z.to_nat n) (conds s).

Definition compile_route (r : l7_route) : option l7_route :=
  let n := Z.min (n_sets r) L7_MAX_SETS_PER_ROUTE in
  (λ ss, mk_l7_route (position r) ss n (action r) (hdr_filters r) (n_hdr_filters r) (cookie_persist r)) <$> map_first compile_set (Z.to_nat n) (sets r).

Definition l7_clear_attached (e : map_ent) : map_ent := e <| l7_routes := [] |> <| has_l7_policy := false |>.

(** The first listener of the key *)
Fixpoint on_ent (key : proxy_ent) (f : map_ent → option map_ent) (ents : list map_ent) : option (list map_ent) :=
  match ents with
  | [] => None
  | e :: ents => if cmp_proxy_ent (m_key e) key then (λ e, e :: ents) <$> f e else (λ es, e :: es) <$> on_ent key f ents
  end.

(** A header the policy of an MCP pool may not set *)
Definition mcp_refuses_hdr (f : l7_hdr_filter) : bool :=
  (zlen (hf_name f) >=? L7_HDR_NAME_MAX) || prefix_ci (lit "mcp-") (hf_name f) || name_eq_ci (lit "content-type") (hf_name f) || name_eq_ci (lit "content-length") (hf_name f) ||
  name_eq_ci (lit "transfer-encoding") (hf_name f) || name_eq_ci (lit "accept") (hf_name f).

Definition mcp_refuses (routes : list l7_route) : bool :=
  (zlen routes >? 256) ||
  existsb (λ r, negb (cookie_persist r =? 0) || (n_hdr_filters r >? L7_MAX_HDR_FILTERS) || existsb mcp_refuses_hdr (first_n L7_MAX_HDR_FILTERS (n_hdr_filters r) (hdr_filters r))) routes.

Definition install (copy : list l7_route) (e : map_ent) : option map_ent :=
  if m_mcp e && mcp_refuses copy then None
  else Some ((l7_clear_attached e) <| l7_rr_ticket := zrep L7_CURSORS 0 |> <| l7_routes := copy |> <| has_l7_policy := true |>).

Definition proxy_detach_l7_policy (key : proxy_ent) (ents : list map_ent) : list map_ent * Z :=
  (default ents (on_ent key (λ e, Some ((l7_clear_attached e) <| l7_trusted_ranges := [] |>)) ents), 0).

(** [mem] is that calloc succeeds. *)
Definition proxy_attach_l7_policy (mem : bool) (key : proxy_ent) (routes : list l7_route) (ents : list map_ent) : list map_ent * Z :=
  match routes with
  | [] => proxy_detach_l7_policy key ents
  | _ =>
      if negb mem then (ents, -1)
      else match map_first compile_route (length routes) routes with
           | None => (ents, -1)
           | Some copy => match on_ent key (install (qsort copy)) ents with Some ents => (ents, 0) | None => (ents, -1) end
           end
  end.

Definition proxy_attach_l7_trusted_ranges (key : proxy_ent) (ranges : list l7_trusted_range) (ents : list map_ent) : list map_ent * Z :=
  if zlen ranges >? L7_MAX_TRUSTED_RANGES then (ents, -1)
  else match on_ent key (λ e, Some (e <| l7_trusted_ranges := ranges |>)) ents with Some ents => (ents, 0) | None => (ents, -1) end.

(** The headers an MCP request must capture: those a condition reads. *)
Definition cond_reads (name : bytes) (c : l7_condition) : bool :=
  match c_field c with
  | L7F_HEADER => name_eq_ci (c_key c) name
  | L7F_COOKIE => name_eq_ci (lit "cookie") name
  | _ => false
  end.
Definition l7_mcp_header_used (e : map_ent) (name : bytes) : bool :=
  has_l7_policy e && existsb (λ r, existsb (λ s, existsb (cond_reads name) (take (Z.to_nat (n_conds s)) (conds s))) (take (Z.to_nat (n_sets r)) (sets r))) (l7_routes e).

End attach.

(** ** What a policy means *)

Section meaning.
Context {regex_t : Type} (regcomp : bytes → option regex_t) (regexec : regex_t → bytes → bool) (have_http_trace : bool).
Local Abbreviation route := (l7_route regex_t).
Implicit Types (req : l7_req) (r : route).

(** A condition as it is written, its pattern not compiled yet *)
Definition cond_holds req (c : l7_condition regex_t) : Prop :=
  l7_op_matches regexec (c_op c) (l7_resolve_operand have_http_trace req (c_field c) (c_key c) L7_REGEX_INPUT_MAX) (c_value c) (regcomp (c_value c)) = negb (c_invert c).

Definition set_holds req (s : l7_match_set regex_t) : Prop :=
  n_conds s ≠ 0 ∧ ∀ i c, Z.of_nat i < n_conds s → Z.of_nat i < L7_MAX_CONDS_PER_SET → conds s !! i = Some c → cond_holds req c.

(** Some set of the route holds. *)
Definition route_holds req r : Prop := ∃ i s, Z.of_nat i < n_sets r ∧ Z.of_nat i < L7_MAX_SETS_PER_ROUTE ∧ sets r !! i = Some s ∧ set_holds req s.

Lemma map_first_some {A} (f : A → option A) n l l' : map_first f n l = Some l' →
  length l' = length l ∧ ∀ i x, l !! i = Some x → ∃ y, l' !! i = Some y ∧ if decide (i < n)%nat then f x = Some y else y = x.
Proof.
  revert l l'. induction n as [|n IH]; intros [|x l] l' H; cbn in H; try (simplify_eq; split; [done|]; intros i y Hi; exists y; split; [done|]; by case_decide; [lia|]).
  - by simplify_eq.
  - destruct (f x) as [y|] eqn:E; [|done]. destruct (map_first f n l) as [l2|] eqn:E2; [|done]. simplify_eq. destruct (IH l l2 E2) as [H1 H2]. split; [cbn; congruence|].
    intros [|i] z Hz; cbn in Hz; [simplify_eq; exists y; split; [done|]; by rewrite decide_True by lia|]. destruct (H2 i z Hz) as (w & Hw & Hf). exists w. split; [done|]. repeat case_decide; done || lia.
Qed.

(** What the first [n] entries become *)
Lemma map_first_zip {A} (f : A → option A) n l l' : map_first f n l = Some l' → Forall2 (λ x y, f x = Some y) (take n l) (take n l').
Proof.
  revert l l'. induction n as [|n IH]; intros [|x l] l' H; cbn in H; try (simplify_eq; constructor).
  destruct (f x) as [y|] eqn:E; [|done]. destruct (map_first f n l) as [l2|] eqn:E2; [|done]. simplify_eq. cbn. constructor; [done|by apply IH].
Qed.

Lemma compiled_cond req c c' : compile_cond regcomp c = Some c' → l7_condition_matches regexec have_http_trace req c' = true ↔ cond_holds req c.
Proof.
  unfold compile_cond, cond_holds, l7_condition_matches. intros H.
  assert (E : l7_op_matches regexec (c_op c') (l7_resolve_operand have_http_trace req (c_field c') (c_key c') L7_REGEX_INPUT_MAX) (c_value c') (c_re c') =
              l7_op_matches regexec (c_op c) (l7_resolve_operand have_http_trace req (c_field c) (c_key c) L7_REGEX_INPUT_MAX) (c_value c) (regcomp (c_value c)) ∧ c_invert c' = c_invert c).
  { destruct (c_op c) eqn:Eo; try (injection H as <-; cbn; rewrite ?Eo; by destruct (l7_resolve_operand _ _ _ _ _)). destruct (regcomp (c_value c)); [|done]. injection H as <-. cbn. by rewrite ?Eo. }
  destruct E as [-> ->]. by destruct (l7_op_matches _ _ _ _ _), (c_invert c).
Qed.

Lemma first_n_forall {A} (P : A → Prop) max n (l : list A) : Forall P (first_n max n l) ↔ ∀ i x, Z.of_nat i < n → Z.of_nat i < max → l !! i = Some x → P x.
Proof.
  unfold first_n. rewrite Forall_lookup. split.
  - intros H i x H1 H2 Hx. apply (H i). rewrite lookup_take_lt by lia. done.
  - intros H i x Hx. apply lookup_take_Some in Hx as [Hx Hi]. apply (H i); [lia|lia|done].
Qed.

Lemma first_n_min {A} max n (l : list A) : first_n max (Z.min n max) l = first_n max n l.
Proof. unfold first_n. by rewrite <- Z.min_assoc, Z.min_id. Qed.

Lemma forallb_iff {A} (f : A → bool) (P : A → Prop) (l k : list A) : Forall2 (λ x y, f y = true ↔ P x) k l → forallb f l = true ↔ Forall P k.
Proof.
  intros H. induction H as [|x y k l Hxy H IH]; [done|]. cbn [forallb]. rewrite andb_true_iff, Forall_cons, Hxy, IH. done.
Qed.
Lemma existsb_iff {A} (f : A → bool) (P : A → Prop) (l k : list A) : Forall2 (λ x y, f y = true ↔ P x) k l → existsb f l = true ↔ Exists P k.
Proof.
  intros H. induction H as [|x y k l Hxy H IH]; [cbn; by rewrite Exists_nil|]. cbn [existsb]. rewrite orb_true_iff, Exists_cons, Hxy, IH. done.
Qed.

Lemma compiled_set req s s' : compile_set regcomp s = Some s' → l7_set_matches regexec have_http_trace req s' = true ↔ set_holds req s.
Proof.
  unfold compile_set. intros H. apply fmap_Some in H as (cs & H & ->). unfold l7_set_matches, set_holds. cbn [n_conds conds]. rewrite first_n_min.
  destruct (Z.eqb_spec (Z.min (n_conds s) L7_MAX_CONDS_PER_SET) 0) as [E|E]; [unfold L7_MAX_CONDS_PER_SET in E; split; [done|intros [? _]; lia]|].
  rewrite <- first_n_forall. unfold first_n. rewrite (forallb_iff _ (cond_holds req) _ (take (Z.to_nat (Z.min (n_conds s) L7_MAX_CONDS_PER_SET)) (conds s))); [split; [split; [unfold L7_MAX_CONDS_PER_SET in E; lia|done]|by intros [_ ?]]|].
  eapply Forall2_impl; [by apply map_first_zip|]. intros x y Hxy. by apply compiled_cond.
Qed.

Lemma compiled_route req r r' : compile_route regcomp r = Some r' → position r' = position r ∧ action r' = action r ∧ (l7_route_matches regexec have_http_trace req r' = true ↔ route_holds req r).
Proof.
  unfold compile_route. intros H. apply fmap_Some in H as (ss & H & ->). cbn [position action]. split_and!; [done|done|]. unfold l7_route_matches, route_holds. cbn [n_sets sets]. rewrite first_n_min. unfold first_n.
  rewrite (existsb_iff _ (set_holds req) _ (take (Z.to_nat (Z.min (n_sets r) L7_MAX_SETS_PER_ROUTE)) (sets r))).
  - rewrite Exists_exists. split.
    + intros (s & Hs & Hh). apply list_elem_of_lookup in Hs as [i Hi]. apply lookup_take_Some in Hi as [Hi Hn]. exists i, s. split_and!; [lia|lia|done|done].
    + intros (i & s & H1 & H2 & Hi & Hh). exists s. split; [|done]. apply list_elem_of_lookup. exists i. rewrite lookup_take_lt by lia. done.
  - eapply Forall2_impl; [by apply map_first_zip|]. intros x y Hxy. by apply compiled_set.
Qed.

(** ** Evaluation *)

(** The route the walk takes, and its place *)
Lemma evaluate_spec req i (routes : list route) :
  match l7_first_matching_route regexec have_http_trace req routes with
  | None => (evaluate_from regexec have_http_trace req i routes).1 = -1 ∧ Forall (λ r, l7_route_matches regexec have_http_trace req r = false) routes
  | Some r => ∃ a b, routes = a ++ r :: b ∧ Forall (λ r, l7_route_matches regexec have_http_trace req r = false) a ∧ l7_route_matches regexec have_http_trace req r = true ∧
      evaluate_from regexec have_http_trace req i routes = (match action r with L7A_unknown => -1 | _ => 0 end, mk_l7_decision (i + zlen a) (action r))
  end.
Proof.
  revert i. induction routes as [|r routes IH]; intros i; [done|]. cbn. destruct (l7_route_matches regexec have_http_trace req r) eqn:E.
  - exists [], routes. split_and!; [done|done|done|]. change (zlen []) with 0. by rewrite Z.add_0_r.
  - specialize (IH (i + 1)). unfold l7_first_matching_route in IH. destruct (List.find _ routes) as [x|].
    + destruct IH as (a & b & -> & Ha & Hx & He). exists (r :: a), b. split_and!; [done|by constructor|done|]. rewrite He. do 2 f_equal. rewrite zlen_cons. lia.
    + destruct IH as [He Ha]. split; [done|by constructor].
Qed.

Definition by_position (a b : route) : Prop := position a <= position b.

Lemma sorted_before (a b : list route) r x : StronglySorted by_position (a ++ r :: b) → x ∈ b → position r <= position x.
Proof.
  induction a as [|y a IH]; cbn; intros H Hx; apply StronglySorted_inv in H as [H1 H2]; [|by apply IH]. rewrite list.Forall_forall in H2. by apply H2.
Qed.

(** Of routes in the order of their positions, the first that matches has the least
    position of those that do. *)
Lemma evaluate_least req (routes : list route) : StronglySorted by_position routes →
  let M r := l7_route_matches regexec have_http_trace req r = true in
  let '(rc, d) := l7_policy_evaluate regexec have_http_trace req routes in
  (rc = -1 ∧ ∀ r, r ∈ routes → ¬ M r) ∨
  (∃ r, r ∈ routes ∧ M r ∧ (∀ r', r' ∈ routes → M r' → position r <= position r') ∧ d_action d = action r ∧ rc = match action r with L7A_unknown => -1 | _ => 0 end).
Proof.
  intros Hs M. unfold l7_policy_evaluate. pose proof (evaluate_spec req 0 routes) as H. destruct (l7_first_matching_route _ _ req routes) as [r|].
  - destruct H as (a & b & -> & Ha & Hr & ->). right. exists r. split_and!; [apply elem_of_app; right; by left|done| |done|done]. intros r' Hr' HM.
    apply elem_of_app in Hr' as [Hr'|Hr']; [rewrite list.Forall_forall in Ha; unfold M in HM; rewrite Ha in HM by done; done|]. apply elem_of_cons in Hr' as [->|Hr']; [done|]. by apply (sorted_before a b).
  - destruct (evaluate_from _ _ req 0 routes) as [rc d]. destruct H as [H1 H2]. left. split; [exact H1|]. intros r Hr HM. rewrite list.Forall_forall in H2. unfold M in HM. by rewrite H2 in HM.
Qed.

(** ** Attaching *)

Lemma on_ent_split (key : proxy_ent) f (ents ents' : list (map_ent regex_t)) : on_ent key f ents = Some ents' →
  ∃ a e b e', ents = a ++ e :: b ∧ Forall (λ x, cmp_proxy_ent (m_key x) key = false) a ∧ cmp_proxy_ent (m_key e) key = true ∧ f e = Some e' ∧ ents' = a ++ e' :: b.
Proof.
  revert ents'. induction ents as [|e ents IH]; intros ents' H; [done|]. cbn in H. destruct (cmp_proxy_ent (m_key e) key) eqn:E.
  - apply fmap_Some in H as (e' & He & ->). by exists [], e, ents, e'.
  - apply fmap_Some in H as (es & He & ->). destruct (IH es He) as (a & x & b & x' & -> & Ha & Hx & Hf & ->). exists (e :: a), x, b, x'. split_and!; [done|by constructor|done|done|done].
Qed.

Lemma compile_all (routes copy : list route) : map_first (compile_route regcomp) (length routes) routes = Some copy → Forall2 (λ r r', compile_route regcomp r = Some r') routes copy.
Proof. intros H. pose proof (map_first_some _ _ _ _ H) as [Hl _]. apply map_first_zip in H. rewrite !take_ge in H by lia. done. Qed.

(** qsort with l7_route_cmp_position: the same routes, by position; equal positions
    in any order. *)
Context (qsort : list route → list route) (qsort_ok : ∀ l, qsort l ≡ₚ l ∧ StronglySorted by_position (qsort l)).

(** C13. First match wins. After routes have been attached to a listener, a
    request meets exactly the routes as they were written, patterns compiled: if
    none of them holds the evaluation says so, and otherwise the decision is the
    action of one that holds and that no route before it in position does. The
    listener keeps its trusted ranges, and no other listener changes. *)
Theorem policy_first_match mem key routes ents ents' : routes ≠ [] → proxy_attach_l7_policy regcomp qsort mem key routes ents = (ents', 0) →
  ∃ a e b e', ents = a ++ e :: b ∧ ents' = a ++ e' :: b ∧ cmp_proxy_ent (m_key e) key = true ∧ Forall (λ x, cmp_proxy_ent (m_key x) key = false) a ∧
    m_key e' = m_key e ∧ has_l7_policy e' = true ∧ l7_trusted_ranges e' = l7_trusted_ranges e ∧
    ∀ req, let '(rc, d) := l7_policy_evaluate regexec have_http_trace req (l7_routes e') in
      (rc = -1 ∧ ∀ r, r ∈ routes → ¬ route_holds req r) ∨
      (∃ r, r ∈ routes ∧ route_holds req r ∧ (∀ r', r' ∈ routes → route_holds req r' → position r <= position r') ∧ d_action d = action r ∧ rc = match action r with L7A_unknown => -1 | _ => 0 end).
Proof using qsort_ok.
  intros Hne H. unfold proxy_attach_l7_policy in H. destruct routes as [|r0 rs] eqn:Er; [done|]. rewrite <- Er in *. clear Er r0 rs. destruct mem; cbn [negb] in H; [|done].
  destruct (map_first _ _ _) as [copy|] eqn:Ec; [|done]. apply compile_all in Ec. destruct (on_ent _ _ _) as [es|] eqn:Eo; [|done]. injection H as <-.
  apply on_ent_split in Eo as (a & e & b & e' & -> & Ha & He & Hf & ->). unfold install in Hf. destruct (m_mcp e && mcp_refuses (qsort copy)); [done|]. injection Hf as <-.
  exists a, e, b. eexists. split; [done|]. split; [done|]. split; [done|]. split; [done|]. split; [done|]. split; [done|]. split; [done|]. intros req. cbn [l7_routes field_set map_ent_eta].
  destruct (qsort_ok copy) as [Hp Hs]. pose proof (evaluate_least req (qsort copy) Hs) as Hev. cbn zeta in Hev. change (l7_routes _) with (qsort copy). destruct (l7_policy_evaluate _ _ req (qsort copy)) as [rc d].
  assert (Hto : ∀ r, r ∈ routes → ∃ r', r' ∈ qsort copy ∧ compile_route regcomp r = Some r').
  { intros r Hr. apply list_elem_of_lookup in Hr as [i Hi]. destruct (Forall2_lookup_l _ _ _ _ _ Ec Hi) as (r' & Hr' & Hc). exists r'. split; [|done]. rewrite Hp. by eapply list_elem_of_lookup_2. }
  assert (Hfrom : ∀ r', r' ∈ qsort copy → ∃ r, r ∈ routes ∧ compile_route regcomp r = Some r').
  { intros r' Hr. rewrite Hp in Hr. apply list_elem_of_lookup in Hr as [i Hi]. destruct (Forall2_lookup_r _ _ _ _ _ Ec Hi) as (r & Hr & Hc). exists r. split; [by eapply list_elem_of_lookup_2|done]. }
  destruct Hev as [[Hrc Hno]|(r' & Hr' & HM & Hleast & Hd & Hrc)].
  - left. split; [done|]. intros r Hr Hh. destruct (Hto r Hr) as (r' & Hr' & Hc). apply (Hno r' Hr'). by apply (compiled_route req r r' Hc).
  - right. destruct (Hfrom r' Hr') as (r & Hr & Hc). destruct (compiled_route req r r' Hc) as (Hpos & Hact & Hm). exists r. split; [done|]. split; [by apply Hm|]. split; [|rewrite <- Hact; done].
    intros x Hx Hh. destruct (Hto x Hx) as (x' & Hx' & Hcx). destruct (compiled_route req x x' Hcx) as (Hpx & _ & Hmx). rewrite <- Hpos, <- Hpx. apply Hleast; [done|by apply Hmx].
Qed.

Lemma map_first_is_some {A} (f : A → option A) n l : is_Some (map_first f n l) ↔ Forall (λ x, is_Some (f x)) (take n l).
Proof.
  revert l. induction n as [|n IH]; intros [|x l]; cbn; try (split; [by constructor|by eauto]). rewrite Forall_cons, <- IH. destruct (f x), (map_first f n l); cbn; split; intros H; try (by destruct H as [[??] [??]]); try (by destruct H); eauto.
Qed.

(** Every pattern the routes would compile is one the library takes. *)
Definition patterns_ok (routes : list route) : Prop :=
  Forall (λ r, Forall (λ s, Forall (λ c, c_op c = L7OP_REGEX → is_Some (regcomp (c_value c))) (first_n L7_MAX_CONDS_PER_SET (n_conds s) (conds s))) (first_n L7_MAX_SETS_PER_ROUTE (n_sets r) (sets r))) routes.

Lemma compile_ok (routes : list route) : is_Some (map_first (compile_route regcomp) (length routes) routes) ↔ patterns_ok routes.
Proof.
  rewrite map_first_is_some, take_ge by lia. apply Forall_iff. intros r. unfold compile_route. rewrite fmap_is_Some, map_first_is_some. apply Forall_iff. intros s. unfold compile_set. rewrite fmap_is_Some, map_first_is_some. apply Forall_iff. intros c.
  unfold compile_cond. destruct (c_op c); try (split; [done|by eauto]). destruct (regcomp (c_value c)); split; intros H; try done; try by eauto. destruct (H eq_refl) as [? ?]; done.
Qed.

Lemma existsb_perm {A} (f : A → bool) (l k : list A) : l ≡ₚ k → existsb f l = existsb f k.
Proof. intros H. induction H; cbn; [done|congruence|by rewrite !orb_assoc, (orb_comm (f y))|congruence]. Qed.

Lemma mcp_refuses_compiled (routes copy : list route) : Forall2 (λ r r', compile_route regcomp r = Some r') routes copy → mcp_refuses (qsort copy) = mcp_refuses routes.
Proof using qsort_ok.
  intros H. destruct (qsort_ok copy) as [Hp _]. unfold mcp_refuses. f_equal.
  - unfold zlen. by rewrite Hp, (Forall2_length _ _ _ H).
  - rewrite (existsb_perm _ _ _ Hp). clear Hp. induction H as [|r r' routes copy Hc H IH]; [done|]. cbn [existsb]. rewrite IH. f_equal. unfold compile_route in Hc. apply fmap_Some in Hc as (ss & _ & ->). done.
Qed.

Lemma on_ent_none (key : proxy_ent) f (ents : list (map_ent regex_t)) : on_ent key f ents = None ↔ ∀ e, List.find (λ e, cmp_proxy_ent (m_key e) key) ents = Some e → f e = None.
Proof.
  induction ents as [|e ents IH]; cbn; [done|]. destruct (cmp_proxy_ent (m_key e) key); rewrite fmap_None; [|exact IH]. split; [by intros H ? [= <-]|intros H; by apply H].
Qed.

(** C16. An attachment is all or nothing: it succeeds exactly when memory
    lasts, every pattern is one the library takes, the listener exists and, on an
    MCP pool, the policy is one such a pool allows; when it fails it says so and
    every listener, with the policy it had, is as before. *)
Theorem policy_attach_all_or_nothing mem key routes ents : routes ≠ [] → let '(ents', rc) := proxy_attach_l7_policy regcomp qsort mem key routes ents in
  (rc = 0 ↔ mem = true ∧ patterns_ok routes ∧ ∃ e, List.find (λ e, cmp_proxy_ent (m_key e) key) ents = Some e ∧ (m_mcp e = true → mcp_refuses routes = false)) ∧
  (rc ≠ 0 → rc = -1 ∧ ents' = ents).
Proof using qsort_ok.
  intros Hne. unfold proxy_attach_l7_policy. destruct routes as [|r0 rs] eqn:Er; [done|]. rewrite <- Er in *. clear Er r0 rs. destruct mem; cbn [negb]; [|split; [split; [done|by intros [? _]]|done]].
  destruct (map_first _ _ _) as [copy|] eqn:Ec.
  2: { split; [|done]. split; [done|]. intros (_ & Hp & _). apply compile_ok in Hp. rewrite Ec in Hp. by destruct Hp. }
  assert (Hp : patterns_ok routes) by (apply compile_ok; rewrite Ec; by eauto). pose proof (mcp_refuses_compiled routes copy (compile_all _ _ Ec)) as Hm.
  destruct (on_ent _ _ _) as [es|] eqn:Eo.
  - split; [|done]. split; [|done]. intros _. split; [done|]. split; [done|]. apply on_ent_split in Eo as (a & e & b & e' & -> & Ha & He & Hf & _). exists e. split.
    + clear -Ha He. induction Ha as [|x a Hx Ha IH]; cbn; [by rewrite He|by rewrite Hx].
    + unfold install in Hf. rewrite Hm in Hf. destruct (m_mcp e); [|done]. destruct (mcp_refuses routes); [done|done].
  - split; [|done]. split; [done|]. intros (_ & _ & e & He & Hr). rewrite on_ent_none in Eo. specialize (Eo e He). unfold install in Eo. rewrite Hm in Eo. destruct (m_mcp e); [|done]. by rewrite Hr in Eo.
Qed.

End meaning.

(** ** Paths by segment *)

Definition drop_slash (v : bytes) : bytes := if (zlen v >? 1) && Ascii.eqb (zget v (zlen v - 1)) "/"%char then take (length v - 1) v else v.

(** A path prefix matches whole segments: the path is the prefix (less a
    final slash), or goes on after it with a slash; an empty prefix matches
    everything. *)
Theorem segment_prefix_exact s value : l7_path_segment_prefix s value = true ↔ value = [] ∨ s = drop_slash value ∨ ∃ r, s = drop_slash value ++ "/"%char :: r.
Proof.
  unfold l7_path_segment_prefix, drop_slash. set (b := (zlen value >? 1) && Ascii.eqb (zget value (zlen value - 1)) "/"%char).
  set (p := if b then take (length value - 1) value else value). assert (Hb : b = true → 1 < zlen value) by (unfold b; intros [H _]%andb_true_iff; lia).
  assert (Hp : take (Z.to_nat (if b then zlen value - 1 else zlen value)) value = p ∧ length p = Z.to_nat (if b then zlen value - 1 else zlen value)).
  { unfold p, zlen in *. destruct b; [split; [f_equal; lia|rewrite length_take; lia]|rewrite Nat2Z.id, take_ge by lia; done]. }
  destruct Hp as [-> Hl]. destruct (Z.eqb_spec (if b then zlen value - 1 else zlen value) 0) as [Hz|Hz].
  { split; [|done]. intros _. left. destruct b; [specialize (Hb eq_refl); lia|]. destruct value; [done|]. rewrite zlen_cons in Hz. pose proof (zlen_nonneg value). lia. }
  rewrite <- Hl. destruct (is_prefix p s) eqn:Ep; cbn [negb].
  - apply is_prefix_true in Ep as [r ->]. rewrite drop_app_length. split.
    + destruct r as [|c r]; intros H; [right; left; by rewrite app_nil_r|]. apply Ascii.eqb_eq in H as ->. right. right. by exists r.
    + intros [->|[H|[r' H]]]; [done| |]; destruct r as [|c r]; [done| |done|].
      * change (p ++ c :: r = p) in H. apply (f_equal length) in H. rewrite length_app in H. cbn [length] in H. lia.
      * change (p ++ c :: r = p ++ "/"%char :: r') in H. apply app_inv_head in H. injection H as -> _. apply Ascii.eqb_refl.
  - split; [done|]. intros [->|[->|[r ->]]]; [done| |].
    + pose proof (is_prefix_app p []) as E. rewrite app_nil_r in E. change (is_prefix p p = false) in Ep. congruence.
    + change (is_prefix p (p ++ "/"%char :: r) = false) in Ep. rewrite is_prefix_app in Ep. done.
Qed.

(** ** Examples *)

Definition req0 : l7_req := mk_l7_req (lit "shop.example:8080") (lit "/img/logo.png") (lit "/img/logo.png?id=7&name=a%20b") (lit "GET") [(lit "Host", lit "shop.example:8080"); (lit "cookie", lit "xsid=1; sid=2")] true.

Example operands :
  l7_resolve_operand true req0 L7F_HOST [] 1024 = Some (lit "shop.example") ∧ l7_resolve_operand true req0 L7F_FILE_TYPE [] 1024 = Some (lit "png") ∧
  l7_resolve_operand true req0 L7F_QUERY (lit "name") 1024 = Some (lit "a b") ∧ l7_resolve_operand true req0 L7F_HEADER (lit "HOST") 1024 = Some (lit "shop.example:8080") ∧
  strip_port_from_hostname (lit "[2001:db8::1]:8080") 256 = lit "[2001:db8::1]" ∧ strip_port_from_hostname (lit "[2001:db8::1]") 256 = lit "[2001:db8::1]".
Proof. vm_compute. repeat split; reflexivity. Qed.

(** A prefix of one slash is meant to match every path; it matches the root only. *)
Example root_prefix_matches_root_only :
  l7_path_segment_prefix (lit "/") (lit "/") = true ∧ l7_path_segment_prefix (lit "/foo") (lit "/") = false ∧ l7_path_segment_prefix (lit "/foo") [] = true.
Proof. vm_compute. repeat split; reflexivity. Qed.

(** A cookie whose name ends in the name looked for is taken for it. *)
Example cookie_name_confused : l7_resolve_operand true req0 L7F_COOKIE (lit "sid") 1024 = Some (lit "1").
Proof. vm_compute. reflexivity. Qed.

(** A parameter behind one whose name ends in its name is not found. *)
Example query_param_hidden : extract_query_param_value (lit "/a?xid=1&id=2") (lit "id") 1024 = None ∧ extract_query_param_value (lit "/a?id=2&xid=1") (lit "id") 1024 = Some (lit "2").
Proof. vm_compute. split; reflexivity. Qed.

(** Two routes attached in the wrong order; a pattern is a text to be found. *)
Definition sub_exec (p s : bytes) : bool := match find_sub p s with Some _ => true | None => false end.
#[export] Instance by_position_dec {R} : RelDecision (@by_position R).
Proof. intros a b. unfold by_position. apply _. Defined.
Definition sort_routes {R} (l : list (l7_route R)) : list (l7_route R) := merge_sort by_position l.
Lemma sort_routes_ok {R} (l : list (l7_route R)) : sort_routes l ≡ₚ l ∧ StronglySorted by_position (sort_routes l).
Proof.
  split; [apply merge_sort_Permutation|]. apply StronglySorted_merge_sort; unfold by_position; [intros a b c H1 H2|intros a b]; lia.
Qed.

Definition cond1 (f : l7_field) (op : l7_op) (v : bytes) : l7_condition bytes := mk_l7_condition f op [] v false None.
Definition route1 (pos : Z) (c : l7_condition bytes) (a : l7_action) : l7_route bytes := mk_l7_route pos [mk_l7_match_set [c] 1] 1 a [] 0 0.
Definition routes0 : list (l7_route bytes) := [route1 20 (cond1 L7F_PATH L7OP_PREFIX (lit "/")) (L7A_REJECT 410); route1 10 (cond1 L7F_PATH L7OP_REGEX (lit "logo")) (L7A_REJECT 403)].
Definition key0 : proxy_ent := mk_proxy_ent 1 2 6.
Definition listener0 : map_ent bytes := mk_map_ent _ key0 false false [] [] [].

Lemma policy_first_match_witness :
  ∃ e', (proxy_attach_l7_policy Some sort_routes true key0 routes0 [listener0]).1 = [e'] ∧ l7_policy_evaluate sub_exec true req0 (l7_routes e') = (0, mk_l7_decision 0 (L7A_REJECT 403)).
Proof.
  destruct (proxy_attach_l7_policy Some sort_routes true key0 routes0 [listener0]) as [ents' rc] eqn:E. assert (Hrc : rc = 0) by (apply (f_equal snd) in E; vm_compute in E; congruence). subst rc.
  pose proof (policy_first_match Some sub_exec true sort_routes sort_routes_ok true key0 routes0 [listener0] ents' ltac:(done) E) as (a & e & b & e' & H1 & H2 & _ & _ & _ & _ & _ & H).
  exists e'. assert (Ha : a = [] ∧ b = []) by (destruct a as [|? [|? ?]]; [by inversion H1|done|done]). destruct Ha as [-> ->]. cbn in H2. subst ents'. split; [done|].
  specialize (H req0). apply (f_equal fst) in E. vm_compute in E. injection E as <-. vm_compute. reflexivity.
Defined.

Lemma policy_attach_all_or_nothing_witness :
  ∃ e, (proxy_attach_l7_policy (λ _, None) sort_routes true key0 routes0 [listener0]) = ([e], -1) ∧ e = listener0.
Proof.
  pose proof (policy_attach_all_or_nothing (λ _ : bytes, @None bytes) sort_routes sort_routes_ok true key0 routes0 [listener0] ltac:(done)) as H.
  destruct (proxy_attach_l7_policy (λ _, None) sort_routes true key0 routes0 [listener0]) as [ents' rc] eqn:E. assert (Hrc : rc = -1) by (apply (f_equal snd) in E; vm_compute in E; congruence). subst rc.
  destruct H as [_ H]. destruct (H ltac:(done)) as [_ ->]. by exists listener0.
Defined.
