(* ===== verification/L7Route.v ===== *)
(** * L7 policy: acting on the decision (src/common/sockproxy_l7policy.c, sockproxy_http.c)

    The dispatch of a request under a policy: an answer of the proxy's own (a
    refusal or a redirection, on HTTP/1 as text, on HTTP/2 as header fields), or a
    forward to the listener's pool, perhaps to some of its members; and, for what
    is forwarded, the request's header filters, applied to the head of an HTTP/1
    request by the edits of [L7Head] with the forwarding chain of [L7Trust]. *)

From stdpp Require Import base list numbers strings.
From Stdlib Require Import Ascii.
From S2P Require Import Prelude FcTypes FcConfig FcExpose Breaker L7Head L7Trust L7Match.

(** ** Answers *)

(** Text on the connection, which is then shut down; header fields on the HTTP/2
    stream; nothing but the shutdown. *)
Inductive l7_answer := Ans_raw (resp : bytes) | Ans_h2 (fields : list (bytes * bytes)) | Ans_none.

Definition l7_reason_phrase (code : Z) : bytes :=
  if code =? 301 then lit "Moved Permanently" else if code =? 302 then lit "Found" else if code =? 303 then lit "See Other"
  else if code =? 307 then lit "Temporary Redirect" else if code =? 308 then lit "Permanent Redirect" else if code =? 400 then lit "Bad Request"
  else if code =? 401 then lit "Unauthorized" else if code =? 403 then lit "Forbidden" else if code =? 404 then lit "Not Found"
  else if code =? 405 then lit "Method Not Allowed" else if code =? 410 then lit "Gone" else if code =? 429 then lit "Too Many Requests" else lit "Error".

Definition l7_has_crlf (s : bytes) : bool := l7_hdr_field_has_break s.

(** sockproxy_h2.c, with a stream under dispatch *)
Definition proxy_h2_send_l7_synthetic (status_code : Z) (location : option bytes) : list (bytes * bytes) :=
  (lit ":status", print_u32 status_code) :: match location with Some ((_ :: _) as l) => [(lit "location", l)] | _ => [] end ++ [(lit "content-length", lit "0")].

Definition status_line (code : Z) : bytes := lit "HTTP/1.1 " ++ print_u32 code ++ lit " " ++ l7_reason_phrase code.

(** Text of fewer than [size] bytes is sent. *)
Definition send_if (size : Z) (resp : bytes) : l7_answer := if zlen resp <? size then Ans_raw resp else Ans_none.

Definition reject_code (code : Z) : Z :=
  let code := if code =? 0 then 403 else code in if (code <? 400) || (code >? 599) then 403 else code.

Definition l7_send_reject (h2 : bool) (status_code : Z) (body : option bytes) : l7_answer :=
  let code := reject_code status_code in
  let safe_body := match body with Some b => if l7_has_crlf b then lit "Request rejected by policy" else b | None => lit "Request rejected by policy" end in
  if h2 then Ans_h2 (proxy_h2_send_l7_synthetic code None)
  else send_if 512 (head_of [status_line code; lit "Content-Type: text/plain"; lit "Connection: close"] ++ CRLF ++ safe_body ++ CRLF).

Definition L7_REDIRECT_LOCATION_MAX : Z := 512.
Definition L7_VALUE_MAX : Z := 256.

Definition redirect_code (code : Z) : Z := if existsb (Z.eqb code) [301; 302; 303; 307; 308] then code else 302.

Definition l7_send_redirect (h2 : bool) (status_code : Z) (location : bytes) : l7_answer :=
  let code := redirect_code status_code in
  if (zlen location =? 0) || l7_has_crlf location then l7_send_reject h2 400 (Some (lit "Invalid redirect target"))
  else if h2 then Ans_h2 (proxy_h2_send_l7_synthetic code (Some location))
  else send_if (L7_REDIRECT_LOCATION_MAX + 256) (head_of [status_line code; hdr_line (lit "Location") location; lit "Content-Length: 0"; lit "Connection: close"] ++ CRLF).

(** The URL of a redirection, when there is one: [] where the code leaves it empty. *)
Definition l7_assemble_redirect_location (req : l7_req) (redir : l7_redirect) (outsz : Z) : bytes :=
  let scheme := match rd_scheme redir with [] => if r_ssl req then lit "https" else lit "http" | s => s end in
  let host := match rd_host redir, host_url req with
              | (_ :: _) as h, _ => strip_port_from_hostname h 256
              | [], (_ :: _) as h => strip_port_from_hostname h 256
              | [], [] => []
              end in
  match host with
  | [] => []
  | _ =>
      let dflt := if bool_decide (scheme = lit "https") then 443 else 80 in
      let portbuf := if negb (rd_port redir =? 0) && negb (rd_port redir =? dflt) then lit ":" ++ print_u32 (rd_port redir) else [] in
      let req_path := match request_path req with [] => lit "/" | p => p end in
      let path :=
        match rd_path_op redir with
        | L7PATH_REPLACE_FULL => rd_value redir
        | L7PATH_REPLACE_PREFIX =>
            let v := rd_value redir in
            let rp := if negb (zlen v =? 0) && Ascii.eqb (zget v (zlen v - 1)) "/"%char && Ascii.eqb (zget req_path 0) "/"%char then drop 1 req_path else req_path in
            fit (L7_VALUE_MAX + 256) (v ++ rp)
        | L7PATH_NONE => req_path
        end in
      let out := scheme ++ lit "://" ++ host ++ portbuf ++ path in
      if (zlen out >=? outsz) || l7_has_crlf out then [] else out
  end.

(** ** Forwarding *)

(** What a forward leaves on the connection: whether the request is held to some
    members, which, with which weights, the cursor's slot and the ticket taken. *)
Record fwd_state := mk_fwd_state { route_active : bool; route_mask : Z; route_weights : list Z; route_slot : option Z; route_ticket : Z }.
#[export] Instance fwd_state_eta : RecordEta fwd_state := fun r => mk_fwd_state (route_active r) (route_mask r) (route_weights r) (route_slot r) (route_ticket r).

(** The listener's first pool: how many members, and whether a stateless MCP one *)
Record pool_view := mk_pool_view { pv_n_eps : Z; pv_mcp : bool }.

(** One reference of a forward *)
Definition add_ref (n_eps : Z) (f : fwd_state) (r : Z * Z) : fwd_state :=
  let ei := r.1 in
  if (ei >=? n_eps) || (ei >=? MAX_PROXY_EP) then f
  else f <| route_mask ::= (λ m, Z.lor m (Z.shiftl 1 ei)) |> <| route_weights ::= (λ w, zset w ei r.2) |>.

(** The state of the connection, the cursors, and whether there is a pool *)
Definition l7_route_pool (f : fwd_state) (tickets : list Z) (pool0 : option pool_view) (index : Z) (fwd : l7_forward) (mcp : bool) : fwd_state * list Z * bool :=
  match pool0 with
  | None => (f, tickets, false)
  | Some p =>
      if (n_refs fwd =? 0) && negb mcp then (f, tickets, true)
      else if (index <? 0) || (mcp && (index >=? 256)) then (f, tickets, false)
      else
        let slot := Z.rem index 256 in
        let f := f <| route_mask := 0 |> <| route_weights := zrep MAX_PROXY_EP 0 |> in
        let f := foldl (add_ref (pv_n_eps p)) f (first_n MAX_PROXY_EP (n_refs fwd) (refs fwd)) in
        let f := if n_refs fwd =? 0 then foldl (λ f ei, f <| route_mask ::= (λ m, Z.lor m (Z.shiftl 1 ei)) |>) f (zseq (Z.min (pv_n_eps p) MAX_PROXY_EP)) else f in
        if route_mask f =? 0 then (f, tickets, false)
        else (f <| route_slot := Some slot |> <| route_active := true |> <| route_ticket := zget tickets slot |>, zset tickets slot (u64 (zget tickets slot + 1)), true)
  end.

Inductive l7_outcome := L7_DISPATCH_FALLTHROUGH | L7_DISPATCH_FORWARD (pool : bool) | L7_DISPATCH_TERMINATED (answer : l7_answer).

Section dispatch.
Context {regex_t : Type} (regexec : regex_t → bytes → bool) (have_http_trace : bool).
Local Abbreviation map_ent := (map_ent regex_t).

(** The outcome, the connection's state and the listener's cursors *)
Definition l7_route_dispatch (h2 : bool) (req : l7_req) (f : fwd_state) (e : map_ent) (pool0 : option pool_view) : l7_outcome * fwd_state * map_ent :=
  let mcp := match pool0 with Some p => pv_mcp p | None => false end in
  if negb (has_l7_policy e) then (L7_DISPATCH_FALLTHROUGH, f, e)
  else
    let '(rc, d) := l7_policy_evaluate regexec have_http_trace req (l7_routes e) in
    if rc =? 0 then
      match d_action d with
      | L7A_REJECT code => (L7_DISPATCH_TERMINATED (l7_send_reject h2 code None), f, e)
      | L7A_REDIRECT redir =>
          (L7_DISPATCH_TERMINATED (l7_send_redirect h2 (rd_status redir) (l7_assemble_redirect_location req redir L7_REDIRECT_LOCATION_MAX)), f, e)
      | L7A_FORWARD fwd =>
          let '(f, tickets, ok) := l7_route_pool f (l7_rr_ticket e) pool0 (route_index d) fwd mcp in
          let e := e <| l7_rr_ticket := tickets |> in
          if mcp && negb ok then (L7_DISPATCH_TERMINATED (l7_send_reject h2 503 None), f, e) else (L7_DISPATCH_FORWARD ok, f, e)
      | L7A_unknown => (L7_DISPATCH_TERMINATED (l7_send_reject h2 404 None), f, e)
      end
    else (L7_DISPATCH_TERMINATED (l7_send_reject h2 404 None), f, e).

(** ** Header filters *)

(** A byte of a name, of a value, that may be written *)
Definition code_of (c : ascii) : Z := Z.of_nat (nat_of_ascii c).
Definition name_char (c : ascii) : bool := negb ((code_of c <? 32) || (code_of c =? 127) || Ascii.eqb c ":"%char).
Definition value_char (c : ascii) : bool := (code_of c =? 9) || negb ((code_of c <? 32) || (code_of c =? 127)).

Definition l7_hdr_name_valid (name : bytes) : bool := negb (zlen name =? 0) && (zlen name <=? L7_HDR_NAME_MAX) && forallb name_char name.
Definition l7_hdr_value_valid (value : bytes) : bool := (zlen value <=? L7_HDR_VALUE_MAX) && forallb value_char value.

Definition l7_hsts_synthesize (max_age : Z) (include_subdomains preload : bool) (outlen : Z) : bytes :=
  if max_age =? 0 then []
  else
    let v := lit "max-age=" ++ print_u32 max_age ++ (if include_subdomains then lit "; includeSubDomains" else []) ++ (if preload then lit "; preload" else []) in
    if zlen v >=? outlen then [] else v.

(** SP_XFF_* *)
Inductive xff_verdict := SP_XFF_NONE | SP_XFF_REPLACED | SP_XFF_EXTENDED.

(** The value of X-Forwarded-For on this listener *)
Definition xff_value (ranges : list l7_trusted_range) (hops : l7_hop_list) (xff_ip : bytes) : xff_verdict * bytes :=
  if 0 <? zlen ranges then
    match l7_chain_append_peer hops xff_ip L7_HDR_VALUE_MAX with
    | Some chain => if l7_hdr_value_valid chain then (SP_XFF_EXTENDED, chain) else (SP_XFF_REPLACED, xff_ip)
    | None => (SP_XFF_REPLACED, xff_ip)
    end
  else (SP_XFF_REPLACED, xff_ip).

Definition filter_edits (filters : list l7_hdr_filter) : list hdr_edit :=
  omap (λ f, if negb (l7_hdr_name_valid (hf_name f)) then None
             else match hf_op f with
                  | L7HDR_REMOVE => Some (L7HDR_REMOVE, hf_name f, [])
                  | op => if l7_hdr_value_valid (hf_value f) then Some (op, hf_name f, hf_value f) else None
                  end) filters.

(** The edits, in order; the verdict; the origin with the hops passed, where one
    was derived. *)
Definition l7_apply_req_filters (req : l7_req) (e : map_ent) (hops : l7_hop_list) (xff_ip : option bytes) (listener_port : Z) (xfproto : bytes) :
    list hdr_edit * xff_verdict * option (bytes * Z) :=
  let '(xff, verdict, origin) :=
    match xff_ip with
    | Some ip =>
        if l7_hdr_value_valid ip then
          let '(_, origin, skipped) := l7_origin_for_listener hops (l7_trusted_ranges e) ip L7_HOP_TEXT_MAX in
          let '(verdict, v) := xff_value (l7_trusted_ranges e) hops ip in
          ([(L7HDR_SET, xff_name, v)], verdict, Some (origin, skipped))
        else ([], SP_XFF_NONE, None)
    | None => ([], SP_XFF_NONE, None)
    end in
  let port := [(L7HDR_SET, lit "X-Forwarded-Port", print_u32 listener_port)] in
  let proto := if l7_hdr_value_valid xfproto then [(L7HDR_SET, lit "X-Forwarded-Proto", xfproto)] else [] in
  let filters := match l7_first_matching_route regexec have_http_trace req (l7_routes e) with
                 | Some r => filter_edits (first_n L7_MAX_HDR_FILTERS (n_hdr_filters r) (hdr_filters r))
                 | None => []
                 end in
  (xff ++ port ++ proto ++ filters, verdict, origin).

(** ** The head of an HTTP/1 request *)

Definition h1_methods : list bytes := [lit "GET "; lit "POST"; lit "PUT "; lit "DELE"; lit "HEAD"; lit "PATC"].

Definition h1_editable (buf : bytes) : bool :=
  existsb (λ m, is_prefix m buf) h1_methods &&
  match find_sub CRLF2 buf with Some _ => true | None => false end &&
  negb (let scan := take 2048 buf in
        match find_sub (lit "Transfer-Encoding: chunked") scan, find_sub (lit "transfer-encoding: chunked") scan with None, None => false | _, _ => true end).

(** l7_inject_req_headers_h1: [peer] is the client's IPv4 address, if it has one. *)
Definition l7_inject_req_headers_h1 (req : l7_req) (e : map_ent) (hops : l7_hop_list) (peer : option bytes) (port : Z) (https : bool) (bufsize : Z) (buf : bytes) : bytes :=
  if negb (h1_editable buf) then buf
  else emit_all bufsize (l7_apply_req_filters req e hops peer port (if https then lit "https" else lit "http")).1.1 buf.

End dispatch.

(** ** Answers stay one message *)

Lemma line_plain l : l ≠ [] → l7_hdr_field_has_break l = false → line_ok l.
Proof. intros Hn Hb. split; [done|by apply has_crlf_break]. Qed.

Lemma digit_plain d : l7_hdr_field_has_break [digit_char (d mod 10)] = false.
Proof.
  pose proof (Z.mod_pos_bound d 10 ltac:(lia)) as H. set (k := d mod 10) in *. clearbody k.
  assert (k = 0 ∨ k = 1 ∨ k = 2 ∨ k = 3 ∨ k = 4 ∨ k = 5 ∨ k = 6 ∨ k = 7 ∨ k = 8 ∨ k = 9) as C by lia.
  repeat destruct C as [->|C]; [vm_compute; reflexivity..|]. subst k. vm_compute. reflexivity.
Qed.

Lemma dec_plain k n acc : l7_hdr_field_has_break (dec_digits k n acc) = l7_hdr_field_has_break acc.
Proof.
  revert n acc. induction k as [|k IH]; intros n acc; [done|]. cbn [dec_digits].
  assert (E : l7_hdr_field_has_break (digit_char (n mod 10) :: acc) = l7_hdr_field_has_break acc) by (change (digit_char (n mod 10) :: acc) with ([digit_char (n mod 10)] ++ acc); by rewrite break_app, digit_plain).
  case_match; [done|]. by rewrite IH.
Qed.

Lemma print_plain n : l7_hdr_field_has_break (print_u32 n) = false.
Proof. apply dec_plain. Qed.

Lemma print_length n : zlen (print_u32 n) <= 10.
Proof. unfold print_u32, zlen. pose proof (dec_digits_length 10 n []) as H. cbn [length] in H. lia. Qed.

Lemma reason_plain code : l7_hdr_field_has_break (l7_reason_phrase code) = false ∧ zlen (l7_reason_phrase code) <= 18.
Proof. unfold l7_reason_phrase. repeat case_match; vm_compute; done. Qed.

Lemma status_line_ok code : line_ok (status_line code) ∧ zlen (status_line code) <= 38.
Proof.
  destruct (reason_plain code) as [H1 H2]. pose proof (print_length code). unfold status_line. split.
  - apply line_plain; [done|]. rewrite !break_app, print_plain, H1. done.
  - rewrite !zlen_app. change (zlen (lit "HTTP/1.1 ")) with 9. change (zlen (lit " ")) with 1. lia.
Qed.

Lemma reject_fits code body : zlen body <= 300 → l7_send_reject false code (Some body) = Ans_none → False.
Proof.
  intros Hb. unfold l7_send_reject, send_if. set (safe := if l7_has_crlf body then lit "Request rejected by policy" else body). assert (Hs : zlen safe <= 300) by (unfold safe; destruct (l7_has_crlf body); [vm_compute; done|done]).
  destruct (Z.ltb_spec (zlen (head_of [status_line (reject_code code); lit "Content-Type: text/plain"; lit "Connection: close"] ++ CRLF ++ safe ++ CRLF)) 512) as [|Hge]; [done|]. exfalso.
  pose proof (proj2 (status_line_ok (reject_code code))). rewrite !zlen_app, !zlen_head_cons in Hge. change (zlen (head_of [])) with 0 in Hge. change (zlen (lit "Content-Type: text/plain")) with 24 in Hge.
  change (zlen (lit "Connection: close")) with 17 in Hge. change (zlen CRLF) with 2 in Hge. lia.
Qed.

(** What an answer of the policy is: on HTTP/1 a whole head with exactly these
    lines, and a body that is one line. *)
Definition answer_ok (resp : bytes) : Prop :=
  (∃ code body, whole_head resp (status_line code) [lit "Content-Type: text/plain"; lit "Connection: close"] (body ++ CRLF) ∧ 400 <= code <= 599 ∧ has_crlf body = false) ∨
  (∃ code loc, whole_head resp (status_line code) [hdr_line (lit "Location") loc; lit "Content-Length: 0"; lit "Connection: close"] [] ∧
     code ∈ [301; 302; 303; 307; 308] ∧ loc ≠ [] ∧ l7_hdr_field_has_break loc = false).

Lemma reject_code_range code : 400 <= reject_code code <= 599.
Proof. unfold reject_code. cbn zeta. destruct (code =? 0); [cbn; lia|]. destruct (Z.ltb_spec code 400), (Z.gtb_spec code 599); cbn; lia. Qed.

Lemma reject_ok code body : (∀ b, body = Some b → zlen b <= 300) → ∃ resp, l7_send_reject false code body = Ans_raw resp ∧ answer_ok resp.
Proof.
  intros Hb. set (b := match body with Some b => b | None => lit "Request rejected by policy" end).
  assert (E : l7_send_reject false code body = l7_send_reject false code (Some b)) by (unfold b; by destruct body).
  assert (Hl : zlen b <= 300) by (unfold b; destruct body; [by apply Hb|by vm_compute]). rewrite E. destruct (l7_send_reject false code (Some b)) eqn:R.
  - exists resp. split; [done|]. left. unfold l7_send_reject, send_if in R. case_match; [|done]. injection R as <-. exists (reject_code code), (if l7_has_crlf b then lit "Request rejected by policy" else b). split; [|split; [apply reject_code_range|]].
    + split; [done|]. constructor; [apply status_line_ok|]. repeat constructor; done.
    + destruct (l7_has_crlf b) eqn:Ec; [done|by apply has_crlf_break].
  - unfold l7_send_reject, send_if in R. by case_match.
  - exfalso. by apply (reject_fits code b).
Qed.

Lemma redirect_code_in code : redirect_code code ∈ [301; 302; 303; 307; 308].
Proof.
  unfold redirect_code. destruct (existsb (Z.eqb code) [301; 302; 303; 307; 308]) eqn:E; [|by right; left]. apply existsb_exists in E as (x & Hx & Ex). apply Z.eqb_eq in Ex as ->. by apply list_elem_of_In.
Qed.

Lemma redirect_ok code loc : zlen loc < L7_REDIRECT_LOCATION_MAX → ∃ resp, l7_send_redirect false code loc = Ans_raw resp ∧ answer_ok resp.
Proof.
  intros Hl. unfold l7_send_redirect. destruct ((zlen loc =? 0) || l7_has_crlf loc) eqn:Eb; [apply reject_ok; intros b [= <-]; by vm_compute|]. apply orb_false_iff in Eb as [Hz Hc].
  unfold send_if. destruct (Z.ltb_spec (zlen (head_of [status_line (redirect_code code); hdr_line (lit "Location") loc; lit "Content-Length: 0"; lit "Connection: close"] ++ CRLF)) (L7_REDIRECT_LOCATION_MAX + 256)) as [_|Hge].
  - eexists. split; [done|]. right. exists (redirect_code code), loc. split; [|split; [apply redirect_code_in|split; [intros ->; done|done]]]. split; [by rewrite app_nil_r|]. constructor; [apply status_line_ok|].
    constructor; [|repeat constructor; done]. apply line_plain; [done|]. unfold l7_has_crlf in Hc. unfold hdr_line. by rewrite !break_app, Hc.
  - exfalso. pose proof (proj2 (status_line_ok (redirect_code code))). unfold L7_REDIRECT_LOCATION_MAX in *. rewrite !zlen_app, !zlen_head_cons in Hge. change (zlen (head_of [])) with 0 in Hge. unfold hdr_line in Hge. rewrite !zlen_app in Hge.
    change (zlen (lit "Location")) with 8 in Hge. change (zlen (lit ": ")) with 2 in Hge. change (zlen (lit "Content-Length: 0")) with 17 in Hge. change (zlen (lit "Connection: close")) with 17 in Hge. change (zlen CRLF) with 2 in Hge. lia.
Qed.

Lemma assemble_fits req redir n : 0 < n → zlen (l7_assemble_redirect_location req redir n) < n.
Proof.
  intros Hn. unfold l7_assemble_redirect_location. cbn zeta. case_match; [done|]. destruct (_ || _) eqn:E; [done|]. apply orb_false_iff in E as [E _]. lia.
Qed.

Section answers.
Context {regex_t : Type} (regexec : regex_t → bytes → bool) (have_http_trace : bool).

(** C15. The proxy's own answers cannot be split. Whatever the request and
    the policy hold, line breaks included, on HTTP/1 a request the policy ends is
    always answered, with one whole message: a status line, exactly the header
    lines of a refusal (status 400 to 599) or of a redirection (one of five codes,
    a location without CR or LF), and a body of one line or none. *)
Theorem l7_answers_well_formed req f (e : map_ent regex_t) pool0 :
  match (l7_route_dispatch regexec have_http_trace false req f e pool0).1.1 with
  | L7_DISPATCH_TERMINATED a => ∃ resp, a = Ans_raw resp ∧ answer_ok resp
  | L7_DISPATCH_FALLTHROUGH => has_l7_policy e = false
  | L7_DISPATCH_FORWARD pool => has_l7_policy e = true ∧ (pool = false → ∀ p, pool0 = Some p → pv_mcp p = false)
  end.
Proof.
  unfold l7_route_dispatch. destruct (has_l7_policy e); cbn [negb]; [|done]. destruct (l7_policy_evaluate _ _ _ _) as [rc d]. destruct (rc =? 0); [|by apply reject_ok].
  destruct (d_action d) as [fwd|redir|code|]; [|apply redirect_ok; by apply assemble_fits|by apply reject_ok|by apply reject_ok].
  destruct (l7_route_pool _ _ _ _ _ _) as [[f' tickets] ok]. destruct pool0 as [p|]; cbn [andb].
  - destruct (pv_mcp p) eqn:Em; cbn [andb]; [destruct ok; cbn [negb]; [done|by apply reject_ok]|split; [done|]; intros _ q [= <-]; done].
  - done.
Qed.

End answers.

(** ** The forwarded head *)

Lemma name_char_plain name : forallb name_char name = true → no_cr_name name.
Proof.
  unfold no_cr_name. rewrite !forallb_forall. intros H c Hc. specialize (H c Hc). destruct (Ascii.eqb_spec (ascii_lower CR) (ascii_lower c)) as [E|]; [|done]. exfalso.
  assert (Hx : ∀ n : nat, (n < 256)%nat → name_char (ascii_of_nat n) = true → ascii_lower CR ≠ ascii_lower (ascii_of_nat n)).
  { assert (A : forallb (λ n, negb (name_char (ascii_of_nat n)) || negb (Ascii.eqb (ascii_lower CR) (ascii_lower (ascii_of_nat n)))) (seq 0 256) = true) by (vm_compute; reflexivity).
    intros n Hn Hv He. rewrite forallb_forall in A. specialize (A n ltac:(apply in_seq; lia)). rewrite Hv, He, Ascii.eqb_refl in A. done. }
  rewrite <- (ascii_nat_embedding c) in H, E. apply (Hx (nat_of_ascii c)) in H; [done|]. apply nat_ascii_bounded.
Qed.

Lemma valid_edit name op value : l7_hdr_name_valid name = true → edit_ok (op, name, value).
Proof. intros [[H1 _]%andb_true_iff H2]%andb_true_iff. split; [by apply name_char_plain|]. cbn. by destruct name. Qed.

Definition no_colon (s : bytes) : Prop := Forall (λ c, c ≠ ":"%char) s.

Lemma lower_colon c : ascii_lower c = ascii_lower ":"%char → c = ":"%char.
Proof.
  intros E. assert (A : forallb (λ n, negb (Ascii.eqb (ascii_lower (ascii_of_nat n)) (ascii_lower ":"%char)) || Ascii.eqb (ascii_of_nat n) ":"%char) (seq 0 256) = true) by (vm_compute; reflexivity).
  rewrite forallb_forall in A. pose proof (nat_ascii_bounded c). specialize (A (nat_of_ascii c) ltac:(apply in_seq; lia)). rewrite ascii_nat_embedding, E, Ascii.eqb_refl in A. by apply Ascii.eqb_eq.
Qed.

(** Whether a new line is of a name *)
Lemma named_line n m v : no_colon n → no_colon m → named n (hdr_line m v) = name_eq_ci n m.
Proof.
  unfold named, hdr_line, name_eq_ci. revert m. induction n as [|a n IH]; intros [|b m] Hn Hm; cbn [prefix_ci app].
  - done.
  - apply Forall_cons in Hm as [Hb _]. change (zget (b :: m ++ lit ": " ++ v) (zlen [])) with b. by rewrite (proj2 (Ascii.eqb_neq _ _) Hb).
  - apply Forall_cons in Hn as [Ha Hn]. change (lit ": " ++ v) with (":"%char :: " "%char :: v). cbn [prefix_ci]. destruct (Ascii.eqb_spec (ascii_lower ":"%char) (ascii_lower a)) as [E|]; [symmetry in E; by apply lower_colon in E|]. cbn. by rewrite andb_false_r.
  - apply Forall_cons in Hn as [Ha Hn]. apply Forall_cons in Hm as [Hb Hm]. specialize (IH m Hn Hm). rewrite !zlen_cons.
    replace (1 + zlen n =? 1 + zlen m) with (zlen n =? zlen m) by (destruct (Z.eqb_spec (zlen n) (zlen m)), (Z.eqb_spec (1 + zlen n) (1 + zlen m)); lia || done).
    assert (Ez : zget (b :: m ++ lit ": " ++ v) (1 + zlen n) = zget (m ++ lit ": " ++ v) (zlen n)) by (unfold zget, zlen; by replace (Z.to_nat (1 + Z.of_nat (length n))) with (S (Z.to_nat (Z.of_nat (length n)))) by lia).
    rewrite Ez. destruct (Ascii.eqb (ascii_lower b) (ascii_lower a)); cbn [andb]; [exact IH|by rewrite andb_false_r].
Qed.

Lemma name_eq_refl n : name_eq_ci n n = true.
Proof. unfold name_eq_ci. rewrite Z.eqb_refl. cbn [andb]. induction n as [|a n IH]; [done|]. cbn [prefix_ci]. by rewrite Ascii.eqb_refl. Qed.

Definition with_name (n : bytes) (lines : list bytes) : list bytes := List.filter (named n) lines.


Lemma prefix_ci_lower n m l : length n = length m → prefix_ci n m = true → prefix_ci n l = prefix_ci m l.
Proof.
  revert m l. induction n as [|a n IH]; intros [|b m] l Hl Hp; try done. cbn [prefix_ci] in *. apply andb_true_iff in Hp as [Hab Hp]. apply Ascii.eqb_eq in Hab. destruct l as [|c l]; [done|]. rewrite Hab. f_equal. apply IH; [by injection Hl|done].
Qed.

Lemma named_eq n m l : name_eq_ci n m = true → named n l = named m l.
Proof. intros [Hz%Z.eqb_eq Hp]%andb_true_iff. unfold named. rewrite Hz. f_equal. apply prefix_ci_lower; [unfold zlen in Hz; lia|done]. Qed.

(** A line has one name. *)
Lemma named_unique n m l : no_colon n → no_colon m → named n l = true → named m l = true → name_eq_ci n m = true.
Proof.
  unfold named, name_eq_ci. revert m l. induction n as [|a n IH]; intros [|b m] [|c l] Hn Hm H1 H2; try done.
  - apply Forall_cons in Hm as [Hb _]. cbn [prefix_ci] in H2. apply andb_true_iff in H1 as [_ H1]. change (zget (c :: l) (zlen [])) with c in H1. apply Ascii.eqb_eq in H1 as ->. apply andb_true_iff in H2 as [[E _]%andb_true_iff _]. apply Ascii.eqb_eq in E. symmetry in E. by apply lower_colon in E.
  - apply Forall_cons in Hn as [Ha _]. cbn [prefix_ci] in H1. apply andb_true_iff in H2 as [_ H2]. change (zget (c :: l) (zlen [])) with c in H2. apply Ascii.eqb_eq in H2 as ->. apply andb_true_iff in H1 as [[E _]%andb_true_iff _]. apply Ascii.eqb_eq in E. symmetry in E. by apply lower_colon in E.
  - apply Forall_cons in Hn as [Ha Hn]. apply Forall_cons in Hm as [Hb Hm]. cbn [prefix_ci] in *. rewrite !zlen_cons in *.
    assert (Ez : ∀ k : bytes, zget (c :: l) (1 + zlen k) = zget l (zlen k)) by (intros k; unfold zget, zlen; by replace (Z.to_nat (1 + Z.of_nat (length k))) with (S (Z.to_nat (Z.of_nat (length k)))) by lia).
    rewrite Ez in *. apply andb_true_iff in H1 as [[E1 P1]%andb_true_iff C1]. apply andb_true_iff in H2 as [[E2 P2]%andb_true_iff C2]. apply Ascii.eqb_eq in E1, E2.
    specialize (IH m l Hn Hm ltac:(by rewrite P1, C1) ltac:(by rewrite P2, C2)). apply andb_true_iff in IH as [I1%Z.eqb_eq I2]. rewrite I1, Z.eqb_refl, I2. rewrite <- E1, <- E2, Ascii.eqb_refl. done.
Qed.

Lemma with_name_without n m lines : no_colon n → no_colon m → with_name n (without (named m) lines) = if name_eq_ci n m then [] else with_name n lines.
Proof.
  intros Hn Hm. unfold with_name, without. induction lines as [|l lines IH]; [by destruct (name_eq_ci n m)|]. cbn [List.filter].
  destruct (name_eq_ci n m) eqn:E.
  - rewrite <- (named_eq n m l E). destruct (named n l) eqn:N; cbn [negb]; [done|]. cbn [List.filter]. by rewrite N.
  - destruct (named m l) eqn:M; cbn [negb].
    + destruct (named n l) eqn:N; [rewrite (named_unique n m l) in E by done; done|done].
    + cbn [List.filter]. by rewrite IH.
Qed.

Definition op_name (e : hdr_edit) : bytes := e.1.2.
Definition op_line (e : hdr_edit) : bytes := hdr_line e.1.2 e.2.
Definition edits_size (ops : list hdr_edit) : Z := sumz (λ e, zlen (op_line e) + 2) ops.

(** An edit as the filters make them *)
Definition good_edit (e : hdr_edit) : Prop := l7_hdr_name_valid (op_name e) = true ∧ l7_hdr_value_valid e.2 = true.

Lemma name_chars name : l7_hdr_name_valid name = true → no_colon name ∧ l7_hdr_field_has_break name = false ∧ name ≠ [] ∧ zlen name <= L7_HDR_NAME_MAX.
Proof.
  intros [[H1 H2]%andb_true_iff H3]%andb_true_iff. split_and!; [| |by destruct name|lia].
  - apply list.Forall_forall. intros c Hc ->. rewrite forallb_forall in H3. specialize (H3 ":"%char (proj1 (list_elem_of_In _ _) Hc)). done.
  - apply not_true_iff_false. intros B. apply existsb_exists in B as (c & Hc & B). rewrite forallb_forall in H3. specialize (H3 c Hc). apply orb_true_iff in B as [B|B]; apply Ascii.eqb_eq in B as ->; done.
Qed.

Lemma value_chars value : l7_hdr_value_valid value = true → l7_hdr_field_has_break value = false ∧ zlen value <= L7_HDR_VALUE_MAX.
Proof.
  intros [H2 H3]%andb_true_iff. split; [|lia]. apply not_true_iff_false. intros B. apply existsb_exists in B as (c & Hc & B). rewrite forallb_forall in H3. specialize (H3 c Hc). apply orb_true_iff in B as [B|B]; apply Ascii.eqb_eq in B as ->; done.
Qed.

Lemma good_fits bufsize used e : good_edit e → used + zlen (op_line e) + 2 < bufsize → line_fits bufsize used e.1.2 e.2 = true.
Proof.
  intros [Hn Hv] Hr. destruct (name_chars _ Hn) as (_ & Hb & Hne & Hl). destruct (value_chars _ Hv) as [Hvb Hvl]. unfold line_fits, l7_hdr_pair_unsafe. unfold op_name in *.
  rewrite Hb, Hvb. rewrite (proj2 (Z.eqb_neq _ _)) by (destruct e.1.2 as [|x n]; [done|rewrite zlen_cons; pose proof (zlen_nonneg n); lia]). cbn [orb negb andb]. apply andb_true_iff. split.
  - apply Z.ltb_lt. unfold hdr_line. rewrite !zlen_app. change (zlen (lit ": ")) with 2. unfold INJECT_BUF. lia.
  - apply Z.ltb_lt. exact Hr.
Qed.

Lemma head_size_without first body hit lines : head_size first (without hit lines) body <= head_size first lines body.
Proof.
  unfold head_size. rewrite !zlen_head_cons. cut (zlen (head_of (without hit lines)) <= zlen (head_of lines)); [lia|]. unfold without. induction lines as [|l lines IH]; [done|]. cbn [List.filter].
  pose proof (zlen_nonneg l). destruct (hit l); cbn [negb]; rewrite ?zlen_head_cons; lia.
Qed.

Lemma head_size_add first body lines l : head_size first (lines ++ [l]) body = head_size first lines body + zlen l + 2.
Proof. unfold head_size. rewrite !zlen_head_cons, head_of_app, zlen_app, zlen_head_cons. change (zlen (head_of [])) with 0. lia. Qed.

(** One edit that fits *)
Lemma edit_fits bufsize first body e lines : good_edit e → head_size first lines body + zlen (op_line e) + 2 < bufsize →
  edit_lines bufsize first body e.1.1 e.1.2 e.2 lines =
    match e.1.1 with L7HDR_SET => without (named e.1.2) lines ++ [op_line e] | L7HDR_ADD => lines ++ [op_line e] | L7HDR_REMOVE => without (named e.1.2) lines end ∧
  head_size first (edit_lines bufsize first body e.1.1 e.1.2 e.2 lines) body <= head_size first lines body + zlen (op_line e) + 2.
Proof.
  intros Hg Hr. pose proof (head_size_without first body (named e.1.2) lines) as Hw. pose proof (zlen_nonneg (op_line e)). unfold edit_lines, add_line.
  destruct e as [[op n] v]. cbn [fst snd] in *. destruct op; rewrite ?(good_fits bufsize _ (_, n, v)) by (done || (unfold op_line in *; cbn [fst snd] in *; lia)); (split; [done|]); rewrite ?head_size_add; unfold op_line in *; cbn [fst snd] in *; lia.
Qed.

(** What edits that fit do to the lines of a name *)
Definition name_effect (n : bytes) (ls : list bytes) (e : hdr_edit) : list bytes :=
  if name_eq_ci n (op_name e) then match e.1.1 with L7HDR_SET => [op_line e] | L7HDR_ADD => ls ++ [op_line e] | L7HDR_REMOVE => [] end else ls.

Lemma with_name_app n a b : with_name n (a ++ b) = with_name n a ++ with_name n b.
Proof. apply List.filter_app. Qed.

Lemma with_name_line n e : no_colon n → good_edit e → with_name n [op_line e] = if name_eq_ci n (op_name e) then [op_line e] else [].
Proof. intros Hn [Hg _]. destruct (name_chars _ Hg) as (Hc & _). unfold with_name, op_line. cbn [List.filter]. by rewrite named_line. Qed.

Lemma edit_all_cons bufsize first body e ops lines : edit_all bufsize first body (e :: ops) lines = edit_all bufsize first body ops (edit_lines bufsize first body e.1.1 e.1.2 e.2 lines).
Proof. by destruct e as [[? ?] ?]. Qed.

Lemma edits_fold bufsize first body n ops lines : no_colon n → Forall good_edit ops → head_size first lines body + edits_size ops < bufsize →
  with_name n (edit_all bufsize first body ops lines) = foldl (name_effect n) (with_name n lines) ops.
Proof.
  intros Hn. revert lines. induction ops as [|e ops IH]; intros lines Hg Hr; [done|]. apply Forall_cons in Hg as [Hge Hg]. unfold edits_size in Hr. cbn [sumz] in Hr. fold (edits_size ops) in Hr.
  assert (H0 : 0 <= edits_size ops) by (apply sumz_nonneg; intros x _; pose proof (zlen_nonneg (op_line x)); lia).
  destruct (edit_fits bufsize first body e lines Hge ltac:(lia)) as [E Hs]. rewrite edit_all_cons. cbn [foldl]. destruct e as [[op m] v]. cbn [fst snd] in *.
  rewrite IH by (done || lia). f_equal. rewrite E. unfold name_effect. cbn [fst snd]. destruct (name_chars _ (proj1 Hge)) as (Hc & _). unfold op_name in *. cbn [fst snd] in *.
  destruct op; rewrite ?with_name_app, ?with_name_without, ?with_name_line by done; unfold op_name; cbn [fst snd]; destruct (name_eq_ci n m); by rewrite ?app_nil_r.
Qed.

(** The lines of no edit's name stay, in their order. *)
Definition untouched (ops : list hdr_edit) (l : bytes) : bool := forallb (λ e, negb (named (op_name e) l)) ops.

Lemma edit_untouched P bufsize first body e lines : good_edit e → (∀ l, named (op_name e) l = true → P l = false) →
  List.filter P (edit_lines bufsize first body e.1.1 e.1.2 e.2 lines) = List.filter P lines.
Proof.
  intros [Hg _] HP. destruct (name_chars _ Hg) as (Hc & _). destruct e as [[op m] v]. unfold op_name in *. cbn [fst snd] in *.
  assert (Hw : ∀ ls, List.filter P (without (named m) ls) = List.filter P ls).
  { intros ls. unfold without. induction ls as [|l ls IH]; [done|]. cbn [List.filter]. destruct (named m l) eqn:E; cbn [negb]; [by rewrite (HP l E)|]. cbn [List.filter]. by rewrite IH. }
  assert (Ha : ∀ ls, List.filter P (add_line bufsize first body m v ls) = List.filter P ls).
  { intros ls. unfold add_line. destruct (line_fits _ _ _ _); [|done]. rewrite List.filter_app. cbn [List.filter]. rewrite HP by (by rewrite named_line, name_eq_refl). by rewrite app_nil_r. }
  destruct op; cbn [edit_lines]; by rewrite ?Ha, ?Hw.
Qed.

Lemma edits_untouched P bufsize first body ops lines : Forall good_edit ops → (∀ e l, e ∈ ops → named (op_name e) l = true → P l = false) →
  List.filter P (edit_all bufsize first body ops lines) = List.filter P lines.
Proof.
  revert lines. induction ops as [|e ops IH]; intros lines Hg HP; [done|]. apply Forall_cons in Hg as [Hge Hg]. rewrite edit_all_cons.
  rewrite IH; [|done|intros x l Hx; apply HP; by right]. apply edit_untouched; [done|]. intros l. apply HP. by left.
Qed.

Section head.
Context {regex_t : Type} (regexec : regex_t → bytes → bool) (have_http_trace : bool).
Implicit Types (e : map_ent regex_t).

Lemma digit_value d : value_char (digit_char (d mod 10)) = true.
Proof.
  pose proof (Z.mod_pos_bound d 10 ltac:(lia)) as H. set (k := d mod 10) in *. clearbody k. assert (k = 0 ∨ k = 1 ∨ k = 2 ∨ k = 3 ∨ k = 4 ∨ k = 5 ∨ k = 6 ∨ k = 7 ∨ k = 8 ∨ k = 9) as C by lia.
  repeat destruct C as [->|C]; [vm_compute; reflexivity..|]. subst k. vm_compute. reflexivity.
Qed.

Lemma print_value n : l7_hdr_value_valid (print_u32 n) = true.
Proof.
  unfold l7_hdr_value_valid. rewrite (proj2 (Z.leb_le _ _)) by (pose proof (print_length n); unfold L7_HDR_VALUE_MAX; lia). cbn [andb]. unfold print_u32.
  assert (G : ∀ k n acc, forallb value_char acc = true → forallb value_char (dec_digits k n acc) = true); [|by apply G].
  induction k as [|k IH]; intros m acc Ha; [done|]. cbn [dec_digits]. assert (E : forallb value_char (digit_char (m mod 10) :: acc) = true) by (cbn [forallb]; by rewrite digit_value). case_match; [done|by apply IH].
Qed.

Lemma filter_edits_good filters : Forall good_edit (filter_edits filters).
Proof.
  apply list.Forall_forall. intros x Hx. unfold filter_edits in Hx. apply list_elem_of_omap in Hx as (f & _ & Hx). destruct (l7_hdr_name_valid (hf_name f)) eqn:En; cbn [negb] in Hx; [|done].
  destruct (hf_op f); [destruct (l7_hdr_value_valid (hf_value f)) eqn:Ev; [|done]..|]; injection Hx as <-; by split.
Qed.

(** The edits the applier asks for: the filters of the route come last. *)
Definition route_filters req e : list hdr_edit :=
  match l7_first_matching_route regexec have_http_trace req (l7_routes e) with Some r => filter_edits (first_n L7_MAX_HDR_FILTERS (n_hdr_filters r) (hdr_filters r)) | None => [] end.

Lemma apply_edits req e hops ip port proto : l7_hdr_value_valid ip = true → l7_hdr_value_valid proto = true →
  (l7_apply_req_filters regexec have_http_trace req e hops (Some ip) port proto).1.1 =
    [(L7HDR_SET, xff_name, (xff_value (l7_trusted_ranges e) hops ip).2); (L7HDR_SET, lit "X-Forwarded-Port", print_u32 port); (L7HDR_SET, lit "X-Forwarded-Proto", proto)] ++ route_filters req e.
Proof.
  intros Hi Hp. unfold l7_apply_req_filters. rewrite Hi, Hp. destruct (l7_origin_for_listener _ _ _ _) as [[a b] c]. destruct (xff_value _ _ _) as [v x]. done.
Qed.

Lemma xff_value_valid ranges hops ip : l7_hdr_value_valid ip = true → l7_hdr_value_valid (xff_value ranges hops ip).2 = true.
Proof. intros Hi. unfold xff_value. destruct (0 <? zlen ranges); [|done]. destruct (l7_chain_append_peer _ _ _) as [c|]; [|done]. destruct (l7_hdr_value_valid c) eqn:E; done. Qed.

Lemma foldl_other n ops ls : Forall (λ x, name_eq_ci n (op_name x) = false) ops → foldl (name_effect n) ls ops = ls.
Proof. revert ls. induction ops as [|x ops IH]; intros ls H; [done|]. apply Forall_cons in H as [Hx H]. cbn [foldl]. unfold name_effect at 2. rewrite Hx. by apply IH. Qed.

Lemma route_filters_good req e : Forall good_edit (route_filters req e).
Proof. unfold route_filters. case_match; [apply filter_edits_good|done]. Qed.

Lemma scheme_valid (https : bool) : l7_hdr_value_valid (if https then lit "https" else lit "http") = true.
Proof. by destruct https. Qed.

(** C14. What the backend sees of a request head. A request head the proxy edits
    (one of the six methods, not chunked), from a client at [ip], with room for the
    new lines: the first line and the body stay, byte for byte; there is exactly
    one X-Forwarded-For, one X-Forwarded-Port and one X-Forwarded-Proto, whatever
    the client sent under these names and however it spelled them, unless a filter
    of the route itself names them; every header no edit names stays, in its
    order; and every line is still one line. *)
Theorem forwarded_head_exact req e hops ip port (https : bool) bufsize buf first lines body : let fs := route_filters req e in let proto := if https then lit "https" else lit "http" in let xff := (xff_value (l7_trusted_ranges e) hops ip).2 in
  let ops := [(L7HDR_SET, xff_name, xff); (L7HDR_SET, lit "X-Forwarded-Port", print_u32 port); (L7HDR_SET, lit "X-Forwarded-Proto", proto)] ++ fs in
  whole_head buf first lines body → h1_editable buf = true → l7_hdr_value_valid ip = true → head_size first lines body + edits_size ops < bufsize →
  Forall (λ x, Forall (λ n, name_eq_ci n (op_name x) = false) [xff_name; lit "X-Forwarded-Port"; lit "X-Forwarded-Proto"]) fs →
  ∃ lines', whole_head (l7_inject_req_headers_h1 regexec have_http_trace req e hops (Some ip) port https bufsize buf) first lines' body ∧
    with_name xff_name lines' = [hdr_line xff_name xff] ∧ with_name (lit "X-Forwarded-Port") lines' = [hdr_line (lit "X-Forwarded-Port") (print_u32 port)] ∧
    with_name (lit "X-Forwarded-Proto") lines' = [hdr_line (lit "X-Forwarded-Proto") proto] ∧ List.filter (untouched ops) lines' = List.filter (untouched ops) lines.
Proof.
  cbn zeta. intros [-> Hok] He Hi Hr Hf. unfold l7_inject_req_headers_h1. rewrite He. cbn [negb]. rewrite (apply_edits req e hops ip port _ Hi (scheme_valid https)).
  set (proto := if https then lit "https" else lit "http") in *. set (xff := (xff_value (l7_trusted_ranges e) hops ip).2) in *. set (fs := route_filters req e) in *.
  set (ops := [(L7HDR_SET, xff_name, xff); (L7HDR_SET, lit "X-Forwarded-Port", print_u32 port); (L7HDR_SET, lit "X-Forwarded-Proto", proto)] ++ fs) in *.
  assert (Hg : Forall good_edit ops).
  { apply Forall_app. split; [|apply route_filters_good]. repeat constructor; [apply xff_value_valid, Hi|apply print_value|apply scheme_valid]. }
  assert (Ho : Forall edit_ok ops) by (eapply Forall_impl; [exact Hg|]; intros [[op n] v] [Hn _]; by apply valid_edit).
  destruct (emit_all_lines bufsize ops first lines body Hok Ho) as [E Hok']. exists (edit_all bufsize first body ops lines). split; [split; [exact E|exact Hok']|].
  assert (Hn : ∀ n, n ∈ [xff_name; lit "X-Forwarded-Port"; lit "X-Forwarded-Proto"] → no_colon n ∧ Forall (λ x, name_eq_ci n (op_name x) = false) fs).
  { intros n Hn. split; [|apply list.Forall_forall; intros x Hx; rewrite list.Forall_forall in Hf; specialize (Hf x Hx); rewrite list.Forall_forall in Hf; by apply Hf].
    unfold no_colon. repeat (apply elem_of_cons in Hn as [->|Hn]); [apply (bool_decide_unpack _); vm_compute; exact I..|]. by apply not_elem_of_nil in Hn. }
  assert (G : ∀ n, n ∈ [xff_name; lit "X-Forwarded-Port"; lit "X-Forwarded-Proto"] → with_name n (edit_all bufsize first body ops lines) = foldl (name_effect n) (with_name n lines) (take 3 ops)).
  { intros n Hin. destruct (Hn n Hin) as [H1 H2]. rewrite (edits_fold bufsize first body n ops lines H1 Hg Hr). unfold ops. rewrite foldl_app. by rewrite foldl_other. }
  split_and!.
  - rewrite G by (by left). reflexivity.
  - rewrite G by (by right; left). reflexivity.
  - rewrite G by (by right; right; left). reflexivity.
  - apply edits_untouched; [done|]. intros x l Hx Hx2. unfold untouched. apply not_true_iff_false. intros F. rewrite forallb_forall in F. specialize (F x (proj1 (list_elem_of_In _ _) Hx)). by rewrite Hx2 in F.
Qed.

End head.

(** ** A chain of proxies *)

(** The forwarding chain after an edge listener, which replaces what the client [c]
    sent, and listeners behind it that trust [ranges] and see the proxies [ps] in
    turn as their peers. *)
Definition chain_through (ranges : list l7_trusted_range) (c : bytes) (ps : list bytes) : bytes := foldl (λ v p, (xff_value ranges (l7_hop_list_from_xff v) p).2) (xff_value [] hops_zero c).2 ps.

(** An address as inet_ntop writes one *)
Definition ip_text (a : bytes) : Prop := hop_text a ∧ zlen a <= 15 ∧ forallb value_char a = true.

Lemma chain_text_length l : Forall ip_text l → zlen (chain_text l) <= 17 * zlen l.
Proof.
  induction l as [|a l IH] using rev_ind; [done|]. intros [Hl Ha]%Forall_app. apply Forall_cons in Ha as [(_ & Ha & _) _]. specialize (IH Hl). rewrite zlen_app. change (zlen [a]) with 1. destruct (decide (l = [])) as [->|Hn].
  - cbn [app chain_text foldl]. change (zlen []) with 0. lia.
  - rewrite chain_text_snoc, !zlen_app by done. change (zlen (lit ", ")) with 2. lia.
Qed.

Lemma chain_text_valid l : Forall ip_text l → forallb value_char (chain_text l) = true.
Proof.
  induction l as [|a l IH] using rev_ind; [done|]. intros [Hl Ha]%Forall_app. apply Forall_cons in Ha as [(_ & _ & Ha) _]. destruct (decide (l = [])) as [->|Hn]; [done|]. rewrite chain_text_snoc, !forallb_app, IH, Ha by done. done.
Qed.

Lemma from_xff_chain l : l ≠ [] → Forall ip_text l → (length l <= Z.to_nat L7_MAX_HOPS)%nat → hop (l7_hop_list_from_xff (chain_text l)) = l.
Proof.
  intros Hne Hl Hn. assert (Hh : Forall hop_text l) by (eapply Forall_impl; [exact Hl|]; by intros x [? _]). unfold l7_hop_list_from_xff. rewrite (append_keep (chain_text l) hops_zero []) by done.
  unfold hops_of. rewrite (proj2 (Z.eqb_neq _ _)) by (by apply chain_text_nonempty). pose proof (chain_segments [] l eq_refl Hne Hh) as E. rewrite !app_nil_l in *. rewrite E. unfold keep. by replace (length l - Z.to_nat L7_MAX_HOPS)%nat with O by lia.
Qed.

Lemma chain_through_text ranges c ps : ranges ≠ [] → Forall ip_text (c :: ps) → (length ps <= 14)%nat → chain_through ranges c ps = chain_text (c :: ps).
Proof.
  intros Hr. induction ps as [|p ps IH] using rev_ind; [done|]. intros Hi Hl. rewrite length_app in Hl. cbn in Hl. rewrite app_comm_cons in *. pose proof Hi as Hi0. apply Forall_app in Hi as [Hi Hp]. apply Forall_cons in Hp as [Hp _].
  unfold chain_through in *. rewrite foldl_app. cbn [foldl]. rewrite IH by (done || lia). unfold xff_value. rewrite (proj2 (Z.ltb_lt _ _)) by (destruct ranges as [|x ranges]; [done|rewrite zlen_cons; pose proof (zlen_nonneg ranges); lia]).
  pose proof (from_xff_chain (c :: ps) ltac:(done) Hi ltac:(cbn; unfold L7_MAX_HOPS; lia)) as Eh. pose proof (chain_text_length _ Hi0) as Hz. assert (Hzl : zlen ((c :: ps) ++ [p]) <= 15) by (unfold zlen; rewrite length_app; cbn; lia).
  rewrite chain_append.
  - rewrite Eh. unfold l7_hdr_value_valid. rewrite chain_text_valid by done. rewrite (proj2 (Z.leb_le _ _)) by (unfold L7_HDR_VALUE_MAX; lia). done.
  - rewrite Eh. eapply Forall_impl; [exact Hi|]. by intros x [? _].
  - apply Hp.
  - unfold n_hops, zlen. rewrite Eh. unfold L7_MAX_HOPS. cbn. lia.
  - rewrite Eh. unfold L7_HDR_VALUE_MAX. lia.
Qed.

(** The address of a client survives an edge proxy and up to fourteen more: every
    listener on the way attributes the request to it. *)
Theorem origin_end_to_end ranges c ps peer : ranges ≠ [] → Forall ip_text (c :: ps) → (length ps <= 14)%nat → l7_trust_contains ranges c = false → Forall (λ p, l7_trust_contains ranges p = true) ps →
  l7_origin_for_listener (l7_hop_list_from_xff (chain_through ranges c ps)) ranges peer L7_HOP_TEXT_MAX = (1, c, zlen ps).
Proof.
  intros Hr Hi Hl Hc Hp. rewrite chain_through_text by done. unfold l7_origin_for_listener. rewrite (proj2 (Z.eqb_neq _ _)) by (destruct ranges as [|x ranges]; [done|rewrite zlen_cons; pose proof (zlen_nonneg ranges); lia]).
  apply (attribute_end _ _ _ []); [|unfold L7_MAX_HOPS; lia|by apply Forall_cons in Hi as [[? _] _]|done|done]. rewrite from_xff_chain by (done || (cbn; unfold L7_MAX_HOPS; lia)). rewrite app_nil_l. unfold keep, L7_MAX_HOPS. cbn [length]. by replace (S (length ps) - Z.to_nat 16)%nat with O by lia.
Qed.

(** ** Examples *)

Definition get_buf : bytes := head_of [lit "GET / HTTP/1.1"; lit "Host: a"; lit "x-forwarded-FOR: 1.1.1.1"; lit "A: b"; lit "X-Forwarded-For: 2.2.2.2"] ++ CRLF ++ lit "body".

Example head_edited :
  l7_inject_req_headers_h1 sub_exec true req0 listener0 (captured [(xff_name, lit "1.1.1.1"); (xff_name, lit "2.2.2.2")]) (Some (lit "9.9.9.9")) 443 true 4096 get_buf =
  head_of [lit "GET / HTTP/1.1"; lit "Host: a"; lit "A: b"; lit "X-Forwarded-For: 9.9.9.9"; lit "X-Forwarded-Port: 443"; lit "X-Forwarded-Proto: https"] ++ CRLF ++ lit "body".
Proof. vm_compute. reflexivity. Qed.

Lemma forwarded_head_exact_witness :
  ∃ lines', whole_head (l7_inject_req_headers_h1 sub_exec true req0 listener0 hops_zero (Some (lit "9.9.9.9")) 443 true 4096 get_buf) (lit "GET / HTTP/1.1") lines' (lit "body") ∧ with_name xff_name lines' = [lit "X-Forwarded-For: 9.9.9.9"].
Proof.
  destruct (forwarded_head_exact sub_exec true req0 listener0 hops_zero (lit "9.9.9.9") 443 true 4096 get_buf (lit "GET / HTTP/1.1") [lit "Host: a"; lit "x-forwarded-FOR: 1.1.1.1"; lit "A: b"; lit "X-Forwarded-For: 2.2.2.2"] (lit "body")) as (lines' & H1 & H2 & _).
  - split; [reflexivity|]. repeat constructor; vm_compute; done.
  - vm_compute. reflexivity.
  - vm_compute. reflexivity.
  - vm_compute. reflexivity.
  - vm_compute. constructor.
  - exists lines'. split; [exact H1|]. rewrite H2. vm_compute. reflexivity.
Defined.

(** A request with a chunked body is not edited: what the client says it is goes
    to the backend. *)
Example chunked_head_spoofed :
  let buf := head_of [lit "POST / HTTP/1.1"; lit "X-Forwarded-For: 8.8.8.8"; lit "Transfer-Encoding: chunked"] ++ CRLF ++ lit "0" ++ CRLF ++ CRLF in
  l7_inject_req_headers_h1 sub_exec true req0 listener0 hops_zero (Some (lit "9.9.9.9")) 443 true 4096 buf = buf.
Proof. vm_compute. reflexivity. Qed.

(** A client behind two proxies of ours sends a chain that the first still passes on
    with the client added, and the second no longer: the third attributes the
    request to the second. *)
Definition our_range : list l7_trusted_range := [mk_range 167772160 8].
Example long_chain_hides_client :
  let forged := chain_text (replicate 14 (lit "198.151.100.100") ++ [lit "1.1"]) in
  let v1 := xff_value our_range (l7_hop_list_from_xff forged) (lit "203.0.113.7") in
  let v2 := xff_value our_range (l7_hop_list_from_xff v1.2) (lit "10.0.0.1") in
  v1.1 = SP_XFF_EXTENDED ∧ (l7_origin_for_listener (l7_hop_list_from_xff v1.2) our_range (lit "10.0.0.1") 46).1.2 = lit "203.0.113.7" ∧
  v2.1 = SP_XFF_REPLACED ∧ (l7_origin_for_listener (l7_hop_list_from_xff v2.2) our_range (lit "10.0.0.2") 46) = (0, lit "10.0.0.2", 1).
Proof. vm_compute. repeat split; reflexivity. Qed.
