(* ===== verification/L7Select.v ===== *)
(** * L7 policy: selecting a member (src/common/sockproxy_mcp_rr.h)

    A request a route holds to some members of the pool is sent to one of them
    that is in service: in turn when their weights are equal, by smooth weighted
    round-robin otherwise, with a cursor the listener keeps for the route. The
    theorems: the members are exactly those the route names, the choice is one of
    them that is in service whenever there is one, turns go round, and weighted
    turns are those of the pool's own weighted round-robin ([Wrr]), so they are
    exact. *)

From stdpp Require Import base list gmap numbers.
From S2P Require Import Prelude FcTypes FcGate PdTrie Breaker Wrr L7Match L7Route.

(** ** The two selectors *)

Definition SLOTS : Z := 32.
Definition bit_set (m i : Z) : bool := negb (Z.land m (Z.shiftl 1 i) =? 0).

(** The ordinal-th set bit *)
Fixpoint pick_bit (eligible : Z) (idxs : list Z) (ordinal : Z) : Z :=
  match idxs with
  | [] => -1
  | i :: idxs => if bit_set eligible i then (if ordinal =? 0 then i else pick_bit eligible idxs (ordinal - 1)) else pick_bit eligible idxs ordinal
  end.

Definition sp_mcp_rr_index (eligible ticket : Z) : Z :=
  let count := zcount (bit_set eligible) (zseq SLOTS) in
  if count =? 0 then -1 else pick_bit eligible (zseq SLOTS) (ticket mod count).

(** sp_mcp_selector_state; its flag only keeps others out. *)
Record sel_state := mk_sel_state { sl_eligible : Z; sl_weights : list Z; sl_current : list Z }.
Definition sel_zero : sel_state := mk_sel_state 0 (zrep SLOTS 0) (zrep SLOTS 0).

Definition INT64_MIN : Z := -9223372036854775808.

(** The locals of the loop *)
Record sel_scan := mk_sel_scan { sn_current : list Z; sn_total : Z; sn_sel : Z; sn_largest : Z }.
Definition scan_slot (ws : list Z) (s : sel_scan) (i : Z) : sel_scan :=
  if zget ws i =? 0 then s
  else
    let c := s64 (zget (sn_current s) i + zget ws i) in
    let s := mk_sel_scan (zset (sn_current s) i c) (s64 (sn_total s + zget ws i)) (sn_sel s) (sn_largest s) in
    if c >? sn_largest s then mk_sel_scan (sn_current s) (sn_total s) i c else s.

Definition slot_weight (eligible : Z) (weights : list Z) (i : Z) : Z := if bit_set eligible i then (if zget weights i =? 0 then 1 else zget weights i) else 0.

Definition sp_mcp_wrr_index (st : sel_state) (eligible : Z) (weights : list Z) : sel_state * Z :=
  let ws := slot_weight eligible weights <$> zseq SLOTS in
  let st := if negb (sl_eligible st =? eligible) || negb (bool_decide (sl_weights st = ws)) then mk_sel_state eligible ws (zrep SLOTS 0) else st in
  let s := foldl (scan_slot (sl_weights st)) (mk_sel_scan (sl_current st) 0 (-1) INT64_MIN) (zseq SLOTS) in
  let cur := if sn_sel s >=? 0 then zset (sn_current s) (sn_sel s) (s64 (zget (sn_current s) (sn_sel s) - sn_total s)) else sn_current s in
  (mk_sel_state (sl_eligible st) (sl_weights st) cur, sn_sel s).

(** ** The choice for a request *)

Definition sp_mcp_candidate_locked (now : Z) (p : bpool) (ep : Z) : bool :=
  if (ep <? 0) || (ep >=? bp_n_eps p) || (ep >=? MAX_PROXY_EP) || negb (zget (bp_inv p) ep =? 0) then false else circuit_breaker_candidate now ep p.

Definition sp_route_allows (f : fwd_state) (ep : Z) : bool :=
  negb (route_active f) || ((0 <=? ep) && (ep <? MAX_PROXY_EP) && bit_set (route_mask f) ep).
Definition sp_route_subset (f : fwd_state) (mcp_stateless : bool) : bool := route_active f && negb mcp_stateless.
Definition sp_mcp_fc_eligible (now : Z) (f : fwd_state) (p : bpool) (ep : Z) : bool :=
  if (ep <? 0) || (ep >=? MAX_PROXY_EP) then false
  else if route_active f && negb (bit_set (route_mask f) ep) then false else sp_mcp_candidate_locked now p ep.

(** The loop's locals: the set, the weights, whether they differ, the first. *)
Record sel_gather := mk_sel_gather { ga_eligible : Z; ga_weights : list Z; ga_weighted : bool; ga_first : Z }.
Definition gather_ep (now : Z) (f : fwd_state) (w : wpool) (g : sel_gather) (i : Z) : sel_gather :=
  if (negb (route_active f) || bit_set (route_mask f) i) && sp_mcp_candidate_locked now (w_b w) i then
    let wt := if route_active f && negb (zget (route_weights f) i =? 0) then zget (route_weights f) i else ep_weight w i in
    let wt := if wt =? 0 then 1 else wt in
    mk_sel_gather (Z.lor (ga_eligible g) (Z.shiftl 1 i)) (zset (ga_weights g) i wt)
      (ga_weighted g || (negb (ga_first g =? 0) && negb (ga_first g =? wt) && route_active f)) (if ga_first g =? 0 then wt else ga_first g)
  else g.
Definition gather (now : Z) (f : fwd_state) (w : wpool) (sel_wrr : bool) : sel_gather :=
  foldl (gather_ep now f w) (mk_sel_gather 0 (zrep SLOTS 0) sel_wrr 0) (zseq (Z.min (n_eps w) MAX_PROXY_EP)).

(** sp_mcp_request_select: [route_st] is the selector of the route's slot, if the
    connection has one; [pool_st] and [pool_ticket] are the pool's own. *)
Definition sp_mcp_request_select (now : Z) (w : wpool) (sel_wrr : bool) (f : fwd_state) (route_st : option sel_state) (pool_st : sel_state) (pool_ticket : Z) :
    option sel_state * sel_state * Z * Z :=
  let g := gather now f w sel_wrr in
  let '(ticket, pool_ticket) := if route_active f then (route_ticket f, pool_ticket) else (pool_ticket, u64 (pool_ticket + 1)) in
  if ga_weighted g then
    if route_active f then
      match route_st with
      | None => (None, pool_st, pool_ticket, -1)
      | Some st => let '(st, e) := sp_mcp_wrr_index st (ga_eligible g) (ga_weights g) in (Some st, pool_st, pool_ticket, e)
      end
    else let '(st, e) := sp_mcp_wrr_index pool_st (ga_eligible g) (ga_weights g) in (route_st, st, pool_ticket, e)
  else (route_st, pool_st, pool_ticket, sp_mcp_rr_index (ga_eligible g) ticket).

(** ** Sets of members *)

Lemma bit_set_test m i : 0 <= m → 0 <= i → bit_set m i = Z.testbit m i.
Proof.
  intros Hm Hi. unfold bit_set. destruct (Z.testbit m i) eqn:E.
  - apply negb_true_iff, Z.eqb_neq. intros H. apply (f_equal (λ z, Z.testbit z i)) in H. rewrite Z.land_spec, Z.shiftl_spec, Z.sub_diag, E, Z.bits_0 in H by done. done.
  - apply negb_false_iff, Z.eqb_eq. apply Z.bits_inj'. intros j Hj. rewrite Z.land_spec, Z.shiftl_spec, Z.bits_0 by done. destruct (decide (j = i)) as [->|Hn]; [by rewrite E|].
    replace (Z.testbit 1 (j - i)) with false; [by rewrite andb_false_r|]. symmetry. destruct (decide (0 <= j - i)); [|by apply Z.testbit_neg_r; lia]. by rewrite Z.bits_above_log2 by (cbn; lia).
Qed.

Lemma bit_set_add m j i : 0 <= m → 0 <= j → 0 <= i → bit_set (Z.lor m (Z.shiftl 1 j)) i = bit_set m i || (i =? j).
Proof.
  intros Hm Hj Hi. assert (H1 : 0 <= Z.shiftl 1 j) by (apply Z.shiftl_nonneg; lia). rewrite !bit_set_test by (done || by apply Z.lor_nonneg). rewrite Z.lor_spec, Z.shiftl_spec by done. f_equal.
  destruct (Z.eqb_spec i j) as [->|Hn]; [by rewrite Z.sub_diag|]. destruct (decide (0 <= i - j)); [|by apply Z.testbit_neg_r; lia]. by rewrite Z.bits_above_log2 by (cbn; lia).
Qed.

Lemma lor_bit_nonneg m j : 0 <= m → 0 <= Z.lor m (Z.shiftl 1 j).
Proof. intros Hm. apply Z.lor_nonneg. split; [done|]. apply Z.shiftl_nonneg. lia. Qed.

Lemma bit_zero i : bit_set 0 i = false.
Proof. unfold bit_set. by rewrite Z.land_0_l. Qed.

Lemma bit_nonzero m : 0 <= m → m ≠ 0 → ∃ i, 0 <= i ∧ bit_set m i = true.
Proof.
  intros Hm Hz. exists (Z.log2 m). pose proof (Z.log2_nonneg m). split; [done|]. rewrite bit_set_test by done. apply Z.bit_log2. lia.
Qed.

(** ** What a forward names *)

(** A member of the pool the route refers to *)
Definition names_member (fwd : l7_forward) (n_eps i : Z) : Prop := 0 <= i < n_eps ∧ i < MAX_PROXY_EP ∧ i ∈ (first_n MAX_PROXY_EP (n_refs fwd) (refs fwd)).*1.

Lemma add_refs_mask n rs f i : 0 <= i → 0 <= route_mask f → Forall (λ r : Z * Z, 0 <= r.1) rs →
  0 <= route_mask (foldl (add_ref n) f rs) ∧ (bit_set (route_mask (foldl (add_ref n) f rs)) i = true ↔ bit_set (route_mask f) i = true ∨ (i < n ∧ i < MAX_PROXY_EP ∧ i ∈ rs.*1)).
Proof.
  intros Hi. revert f. induction rs as [|r rs IH]; intros f Hm Hr; cbn [foldl].
  - split; [done|]. split; [by left|]. intros [H|(_ & _ & H)]; [done|]. by apply not_elem_of_nil in H.
  - apply list.Forall_cons in Hr as [Hr0 Hr]. unfold add_ref at 2 4. cbn zeta. destruct ((r.1 >=? n) || (r.1 >=? MAX_PROXY_EP)) eqn:Eb.
    + destruct (IH f Hm Hr) as [H1 H2]. split; [done|]. rewrite H2. cbn [fmap list_fmap]. rewrite elem_of_cons. split; [intros [H|(?&?&?)]; [by left|right; by auto]|]. intros [H|(?&?&[->|?])]; [by left| |right; by auto].
      apply orb_true_iff in Eb as [Eb|Eb]; lia.
    + apply orb_false_iff in Eb as [E1 E2]. match goal with |- context [foldl _ ?f' rs] => set (f1 := f') end.
      assert (Hm1 : 0 <= route_mask f1) by (by apply lor_bit_nonneg). destruct (IH f1 Hm1 Hr) as [H1 H2]. split; [done|]. rewrite H2.
      assert (E : bit_set (route_mask f1) i = bit_set (route_mask f) i || (i =? r.1)) by (by apply bit_set_add). rewrite E, orb_true_iff, Z.eqb_eq. cbn [fmap list_fmap]. rewrite elem_of_cons. split.
      * intros [[H| ->]|(?&?&?)]; [by left|right; split_and!; [lia|lia|by left]|right; by auto].
      * intros [H|(?&?&[->|?])]; [by left; left|left; by right|right; by auto].
Qed.

(** A forward that names members holds the request to exactly them. *)
Lemma route_pool_members f tickets p index fwd mcp : n_refs fwd ≠ 0 → 0 <= index < 256 → Forall (λ r : Z * Z, 0 <= r.1) (refs fwd) →
  let '(f', _, ok) := l7_route_pool f tickets (Some p) index fwd mcp in
  (ok = true ↔ ∃ i, names_member fwd (pv_n_eps p) i) ∧ 0 <= route_mask f' ∧ (∀ i, 0 <= i → bit_set (route_mask f') i = true ↔ names_member fwd (pv_n_eps p) i) ∧
  (ok = true → route_active f' = true ∧ route_slot f' = Some index ∧ route_ticket f' = zget tickets index).
Proof.
  intros Hn Hi Hr. unfold l7_route_pool. rewrite (proj2 (Z.eqb_neq _ _) Hn). cbn [andb]. rewrite (proj2 (Z.ltb_ge _ _)), Z.geb_leb, (proj2 (Z.leb_gt _ _)), andb_false_r by lia. cbn [orb].
  set (f0 := f <| route_mask := 0 |> <| route_weights := zrep MAX_PROXY_EP 0 |>). set (rs := first_n MAX_PROXY_EP (n_refs fwd) (refs fwd)).
  assert (Hrs : Forall (λ r : Z * Z, 0 <= r.1) rs) by (by apply Forall_take). set (f1 := foldl (add_ref (pv_n_eps p)) f0 rs).
  assert (Hb : ∀ i, 0 <= i → bit_set (route_mask f1) i = true ↔ names_member fwd (pv_n_eps p) i).
  { intros i Hi0. destruct (add_refs_mask (pv_n_eps p) rs f0 i Hi0 ltac:(done) Hrs) as [_ H]. fold f1 in H. rewrite H. unfold names_member. fold rs. change (route_mask f0) with 0. rewrite bit_zero. split; [intros [?|(?&?&?)]; [done|by auto]|intros (?&?&?); right; split_and!; [lia|done|done]]. }
  assert (Hm : 0 <= route_mask f1) by (apply (add_refs_mask (pv_n_eps p) rs f0 0 ltac:(lia) ltac:(done) Hrs)).
  destruct (Z.eqb_spec (route_mask f1) 0) as [Hz|Hz].
  - split_and!; [|done|done|done]. split; [done|]. intros [i Hin]. pose proof Hin as [H0 _]. apply Hb in Hin; [|lia]. by rewrite Hz, bit_zero in Hin.
  - rewrite Z.rem_small by lia. split_and!; [|done|done|done]. split; [|done]. intros _. destruct (bit_nonzero _ Hm Hz) as (i & Hi0 & Hbi). exists i. by apply Hb.
Qed.

(** ** The set to choose from *)

Lemma zseq_lt n i : i ∈ zseq n → 0 <= i.
Proof. rewrite zseq_in. lia. Qed.

Definition eligible_ep (now : Z) (f : fwd_state) (w : wpool) (i : Z) : bool := (negb (route_active f) || bit_set (route_mask f) i) && sp_mcp_candidate_locked now (w_b w) i.

Lemma gather_spec now f w l g i : 0 <= i → 0 <= ga_eligible g → Forall (λ j, 0 <= j) l →
  let g' := foldl (gather_ep now f w) g l in
  0 <= ga_eligible g' ∧ bit_set (ga_eligible g') i = bit_set (ga_eligible g) i || (bool_decide (i ∈ l) && eligible_ep now f w i).
Proof.
  intros Hi. revert g. induction l as [|j l IH]; intros g Hg Hl; cbn zeta; cbn [foldl].
  - split; [done|]. rewrite bool_decide_false by (by intros ?%not_elem_of_nil). by rewrite orb_false_r.
  - apply list.Forall_cons in Hl as [Hj Hl]. unfold gather_ep at 2 4. fold (eligible_ep now f w j). destruct (eligible_ep now f w j) eqn:Ee.
    + set (g1 := mk_sel_gather (Z.lor (ga_eligible g) (Z.shiftl 1 j)) _ _ _). destruct (IH g1 ltac:(by apply lor_bit_nonneg) Hl) as [H1 H2]. split; [done|]. rewrite H2. unfold g1. cbn [ga_eligible]. rewrite bit_set_add by done.
      rewrite <- orb_assoc. f_equal. destruct (Z.eqb_spec i j) as [->|Hn].
      * rewrite Ee. rewrite (bool_decide_true (j ∈ j :: l)) by left. done.
      * cbn [orb]. f_equal. apply bool_decide_ext. rewrite elem_of_cons. intuition.
    + destruct (IH g Hg Hl) as [H1 H2]. split; [done|]. rewrite H2. f_equal. destruct (decide (i = j)) as [->|Hn]; [by rewrite Ee, !andb_false_r|]. f_equal. apply bool_decide_ext. rewrite elem_of_cons. intuition.
Qed.

Lemma candidate_range now p i : sp_mcp_candidate_locked now p i = true → 0 <= i < bp_n_eps p ∧ i < MAX_PROXY_EP.
Proof. unfold sp_mcp_candidate_locked. destruct ((i <? 0) || (i >=? bp_n_eps p) || (i >=? MAX_PROXY_EP) || negb (zget (bp_inv p) i =? 0)) eqn:E; [done|]. intros _. repeat (apply orb_false_iff in E as [E ?]). lia. Qed.

Lemma gather_eligible now f w sel_wrr i : 0 <= i → 0 <= ga_eligible (gather now f w sel_wrr) ∧ bit_set (ga_eligible (gather now f w sel_wrr)) i = eligible_ep now f w i.
Proof.
  intros Hi. destruct (gather_spec now f w (zseq (Z.min (n_eps w) MAX_PROXY_EP)) (mk_sel_gather 0 (zrep SLOTS 0) sel_wrr 0) i Hi ltac:(done)) as [H1 H2]; [apply list.Forall_forall; intros j; apply zseq_lt|].
  split; [exact H1|]. etransitivity; [exact H2|]. cbn [ga_eligible]. rewrite bit_zero. cbn [orb]. destruct (eligible_ep now f w i) eqn:E; [|by rewrite andb_false_r]. rewrite andb_true_r. apply bool_decide_true. rewrite zseq_in.
  unfold eligible_ep in E. apply andb_true_iff in E as [_ E]. apply candidate_range in E. unfold n_eps. lia.
Qed.

(** ** Turns *)

Definition members (eligible : Z) : list Z := List.filter (bit_set eligible) (zseq SLOTS).

Lemma pick_bit_nth eligible idxs o : 0 <= o → pick_bit eligible idxs o = default (-1) (List.filter (bit_set eligible) idxs !! Z.to_nat o).
Proof.
  revert o. induction idxs as [|i idxs IH]; intros o Ho; [done|]. cbn [pick_bit List.filter]. destruct (bit_set eligible i); [|by apply IH].
  destruct (Z.eqb_spec o 0) as [->|Hn]; [done|]. rewrite IH by lia. by replace (Z.to_nat o) with (S (Z.to_nat (o - 1))) by lia.
Qed.

Lemma zcount_filter {A} (P : A → bool) l : zcount P l = zlen (List.filter P l).
Proof. induction l as [|x l IH]; [done|]. cbn [zcount List.filter]. destruct (P x); rewrite ?zlen_cons, IH; cbn; lia. Qed.

Lemma count_members eligible : zcount (bit_set eligible) (zseq SLOTS) = zlen (members eligible).
Proof. unfold members. apply zcount_filter. Qed.
Lemma pick_members eligible o : 0 <= o → pick_bit eligible (zseq SLOTS) o = default (-1) (members eligible !! Z.to_nat o).
Proof. unfold members. apply pick_bit_nth. Qed.

Lemma rr_index_none eligible ticket : members eligible = [] → sp_mcp_rr_index eligible ticket = -1.
Proof. intros E. unfold sp_mcp_rr_index. by rewrite count_members, E. Qed.

Lemma rr_index_some eligible ticket : members eligible ≠ [] → let n := zlen (members eligible) in 0 < n ∧ members eligible !! Z.to_nat (ticket mod n) = Some (sp_mcp_rr_index eligible ticket).
Proof.
  intros Hne. unfold sp_mcp_rr_index. rewrite count_members. cbn zeta. generalize (pick_members eligible). generalize dependent (members eligible). intros l Hne Hpick.
  assert (Hp : 0 < zlen l) by (destruct l as [|x l]; [done|rewrite zlen_cons; pose proof (zlen_nonneg l); lia]). split; [done|]. rewrite (proj2 (Z.eqb_neq _ _)) by lia. pose proof (Z.mod_pos_bound ticket _ Hp) as Hb.
  rewrite Hpick by lia. destruct (lookup_lt_is_Some_2 l (Z.to_nat (ticket mod zlen l))) as [x Hx]; [unfold zlen in *; lia|]. by rewrite Hx.
Qed.

Lemma members_in eligible i : i ∈ members eligible ↔ 0 <= i < SLOTS ∧ bit_set eligible i = true.
Proof. unfold members. rewrite list_elem_of_In, List.filter_In, <- list_elem_of_In, zseq_in. done. Qed.

Lemma rr_index_in eligible ticket : (sp_mcp_rr_index eligible ticket = -1 ∧ members eligible = []) ∨ sp_mcp_rr_index eligible ticket ∈ members eligible.
Proof.
  destruct (decide (members eligible = [])) as [E|E]; [left; split; [by apply rr_index_none|done]|right]. destruct (rr_index_some eligible ticket E) as [_ H]. by eapply list_elem_of_lookup_2.
Qed.

(** ** Weighted turns are the pool's *)

Lemma s64_id z : -2147483648 <= z < 2147483648 → s64 z = z.
Proof.
  intros Hz. destruct (decide (0 <= z)); [apply s64_small; lia|]. unfold s64, u64.
  replace (z mod 18446744073709551616) with (z + 18446744073709551616) by (apply Z.mod_unique with (-1); lia). rewrite (proj2 (Z.ltb_ge _ _)) by lia. lia.
Qed.

(** The pool of the weighted round-robin that a selector stands for *)
Definition as_pool (ws cur : list Z) : wpool :=
  mk_wpool (mk_bpool SLOTS false (zrep SLOTS circuit_breaker_init) ((λ w, if w =? 0 then 1 else 0) <$> ws) None fc_state_zero [] 0) ((λ w, mk_proxy_ep 0 0 w) <$> ws) cur 0 0 true.

Definition slot_bytes (ws : list Z) : Prop := zlen ws = SLOTS ∧ Forall (λ w, 0 <= w < 256) ws.

Lemma zget_fmap {A B} `{Inhabited A, Inhabited B} (f : A → B) (l : list A) i : 0 <= i < zlen l → zget (f <$> l) i = f (zget l i).
Proof.
  intros Hi. unfold zget. destruct (lookup_lt_is_Some_2 l (Z.to_nat i)) as [x Hx]; [unfold zlen in Hi; lia|]. rewrite (list_lookup_total_correct l _ x Hx). apply list_lookup_total_correct. by rewrite list_lookup_fmap, Hx.
Qed.

Lemma as_weight ws cur i : zlen ws = SLOTS → 0 <= i < SLOTS → ep_weight (as_pool ws cur) i = zget ws i.
Proof. intros Hl Hi. unfold ep_weight, as_pool. cbn [w_eps]. rewrite zget_fmap by (by rewrite Hl). done. Qed.

Lemma as_usable ws cur i : zlen ws = SLOTS → 0 <= i < SLOTS → wrr_usable (as_pool ws cur) i = negb (zget ws i =? 0).
Proof. intros Hl Hi. unfold wrr_usable, as_pool. cbn [w_b bp_inv bp_enabled andb negb]. rewrite zget_fmap by (by rewrite Hl). rewrite andb_true_r. by destruct (zget ws i =? 0). Qed.

Lemma weight_at ws i : slot_bytes ws → 0 <= i < SLOTS → 0 <= zget ws i < 256.
Proof.
  intros [Hl Hf] Hi. rewrite list.Forall_forall in Hf. apply Hf. unfold zget. apply list_elem_of_lookup. exists (Z.to_nat i). apply list_lookup_lookup_total_lt. unfold zlen, SLOTS in *. lia.
Qed.

Record scan_sim (ws cur : list Z) (B : Z) (s : sel_scan) (s' : wrr_scan) : Prop := {
  sm_w : sc_w s' = (as_pool ws cur) <| wrr_current_weights := sn_current s |>;
  sm_len : zlen (sn_current s) = SLOTS; sm_bound : ∀ i, 0 <= i < SLOTS → - B <= zget (sn_current s) i <= B;
  sm_total : sn_total s = sc_total s' ∧ 0 <= sc_total s' <= B; sm_sel : sn_sel s = sc_sel s';
  sm_max : (sn_largest s = INT64_MIN ∧ sc_max s' = INT_MIN) ∨ sn_largest s = sc_max s'
}.

Lemma scan_sim_step ws cur B s s' i : slot_bytes ws → 0 <= i < SLOTS → B + 256 < 2147483648 → scan_sim ws cur B s s' → scan_sim ws cur (B + 256) (scan_slot ws s i) (scan_ep s' i).
Proof.
  intros Hw Hi HB [Sw Sl Sb [St1 St2] Ss Sm]. pose proof (weight_at ws i Hw Hi) as Hwi. pose proof (Sb i Hi) as Hbi. unfold scan_slot, scan_ep. rewrite Sw.
  set (w1 := (as_pool ws cur) <| wrr_current_weights := sn_current s |>). assert (Hu : wrr_usable w1 i = negb (zget ws i =? 0)) by (apply (as_usable ws (sn_current s)); [apply Hw|done]).
  assert (He : ∀ w2, w_eps w2 = w_eps w1 → ep_weight w2 i = zget ws i) by (intros w2 E2; unfold ep_weight; rewrite E2; apply (as_weight ws (sn_current s)); [apply Hw|done]).
  rewrite Hu. destruct (zget ws i =? 0); cbn [negb].
  { split; [done|done|intros j Hj; specialize (Sb j Hj); lia|lia|done|done]. }
  rewrite !He by done. change (cur_weight w1 i) with (zget (sn_current s) i). rewrite !s64_id, !s32_id by lia. cbn zeta. cbn [sn_current sn_total sn_sel sn_largest].
  set (c := zget (sn_current s) i + zget ws i).
  assert (Hc : (c >? sn_largest s) = (c >? sc_max s')) by (destruct Sm as [[-> ->]| ->]; [unfold INT64_MIN, INT_MIN, c; rewrite !Z.gtb_ltb, !(proj2 (Z.ltb_lt _ _)) by lia; done|done]). rewrite Hc.
  assert (Hb' : ∀ j, 0 <= j < SLOTS → - (B + 256) <= zget (zset (sn_current s) i c) j <= B + 256).
  { intros j Hj. destruct (decide (j = i)) as [->|Hn]; [rewrite zget_zset_eq by (by rewrite Sl); unfold c; lia|]. rewrite zget_zset_ne by (rewrite ?Sl; lia). specialize (Sb j Hj). lia. }
  destruct (c >? sc_max s'); (split; cbn [sn_current sn_total sn_sel sn_largest sc_w sc_total sc_sel sc_max]; [done|by rewrite zlen_zset|exact Hb'|lia|done|first [by right|done]]).
Qed.

Lemma scan_sim_all ws cur B : slot_bytes ws → zlen cur = SLOTS → 0 <= B <= 1000000 → (∀ i, 0 <= i < SLOTS → - B <= zget cur i <= B) →
  ∃ B', B' <= 1010000 ∧ scan_sim ws cur B' (foldl (scan_slot ws) (mk_sel_scan cur 0 (-1) INT64_MIN) (zseq SLOTS)) (foldl scan_ep (mk_wrr_scan (as_pool ws cur) 0 (-1) INT_MIN) (zseq SLOTS)).
Proof.
  intros Hw Hl HB Hb. assert (G : ∀ (l : list Z) B s s', Forall (λ i, 0 <= i < SLOTS) l → B + 256 * zlen l < 2147483648 → scan_sim ws cur B s s' → scan_sim ws cur (B + 256 * zlen l) (foldl (scan_slot ws) s l) (foldl scan_ep s' l)).
  { clear -Hw. intros l. induction l as [|i l IH]; intros B s s' Hi Hb Hs; [change (zlen []) with 0; by rewrite Z.mul_0_r, Z.add_0_r|]. apply list.Forall_cons in Hi as [Hi Hl]. rewrite zlen_cons in *. pose proof (zlen_nonneg l). cbn [foldl].
    replace (B + 256 * (1 + zlen l)) with (B + 256 + 256 * zlen l) by lia. apply IH; [done|lia|]. apply scan_sim_step; [done|done|lia|done]. }
  assert (Hz : B + 256 * zlen (zseq SLOTS) <= 1010000) by (change (zlen (zseq SLOTS)) with 32; lia).
  exists (B + 256 * zlen (zseq SLOTS)). split; [exact Hz|]. apply (G (zseq SLOTS)); [apply list.Forall_forall; intros i; by rewrite zseq_in|lia|].
  split; [done|done|done|cbn; lia|done|by left].
Qed.

(** What the selector is after [k] turns since it was last reset, [es] chosen *)
Definition sel_cycle (st : sel_state) (k : Z) (es : list Z) : Prop :=
  slot_bytes (sl_weights st) ∧ zlen (sl_current st) = SLOTS ∧ in_cycle (as_pool (sl_weights st) (zrep SLOTS 0)) (as_pool (sl_weights st) (sl_current st)) k es.

Lemma as_pool_ok ws cur : slot_bytes ws → zlen cur = SLOTS → wpool_ok (as_pool ws cur).
Proof.
  intros Hw Hc. pose proof Hw as [Hl _]. split; [done|cbn; unfold zlen in *; by rewrite length_fmap|done|]. intros i Hi. rewrite as_weight by done. by apply weight_at.
Qed.

Lemma zero_roomy ws : roomy (as_pool ws (zrep SLOTS 0)).
Proof. intros i Hi. change (cur_weight (as_pool ws (zrep SLOTS 0)) i) with (zget (zrep SLOTS 0) i). rewrite zget_zrep by exact Hi. lia. Qed.

Lemma sel_usable ws cur : usable_eps (as_pool ws cur) = usable_eps (as_pool ws (zrep SLOTS 0)).
Proof. by apply same_usable. Qed.

Lemma as_n ws cur : n_eps (as_pool ws cur) = SLOTS.
Proof. done. Qed.

Lemma as_set ws cur c : (as_pool ws cur) <| wrr_current_weights := c |> = as_pool ws c.
Proof. done. Qed.

Lemma as_mod ws c f : (as_pool ws c) <| wrr_current_weights ::= f |> = as_pool ws (f c).
Proof. done. Qed.

(** The pool's turn, its loop's result named *)
Lemma select_scan w s : wrr_initialized w = true → foldl scan_ep (mk_wrr_scan w 0 (-1) INT_MIN) (zseq (n_eps w)) = s →
  wrr_select_endpoint w = if (sc_sel s <? 0) || (sc_total s =? 0) then (sc_w s, -1) else ((sc_w s) <| wrr_current_weights ::= (fun l => zmod l (sc_sel s) (fun c => s32 (c - sc_total s))) |>, sc_sel s).
Proof. intros Hi Hs. unfold wrr_select_endpoint. rewrite Hi. cbn [negb]. rewrite Hs. done. Qed.

(** One turn of the selector that is not reset is one of the pool's. *)
Lemma wrr_turn st k es : sel_cycle st k es → 0 < sumz (ep_weight (as_pool (sl_weights st) (zrep SLOTS 0))) (usable_eps (as_pool (sl_weights st) (zrep SLOTS 0))) →
  let s := foldl (scan_slot (sl_weights st)) (mk_sel_scan (sl_current st) 0 (-1) INT64_MIN) (zseq SLOTS) in
  let cur := if sn_sel s >=? 0 then zset (sn_current s) (sn_sel s) (s64 (zget (sn_current s) (sn_sel s) - sn_total s)) else sn_current s in
  sn_sel s ∈ usable_eps (as_pool (sl_weights st) (zrep SLOTS 0)) ∧ sel_cycle (mk_sel_state (sl_eligible st) (sl_weights st) cur) (k + 1) (es ++ [sn_sel s]).
Proof.
  intros (Hw & Hl & Hc) Hpos. cbn zeta. set (w0 := as_pool (sl_weights st) (zrep SLOTS 0)) in *. pose proof (as_pool_ok (sl_weights st) (zrep SLOTS 0) Hw ltac:(done)) as Hok. pose proof (zero_roomy (sl_weights st)) as Hr0.
  pose proof (cycle_roomy _ _ _ _ Hok Hr0 Hc) as Hr. destruct (scan_sim_all (sl_weights st) (sl_current st) 1000000 Hw Hl ltac:(lia)) as (B & HB & Sim); [intros i Hi; apply (Hr i Hi)|].
  pose proof (cycle_step _ _ _ _ Hok Hr0 Hpos Hc) as Hs. rewrite (select_scan (as_pool (sl_weights st) (sl_current st)) _ eq_refl eq_refl), as_n in Hs.
  generalize dependent (foldl scan_ep (mk_wrr_scan (as_pool (sl_weights st) (sl_current st)) 0 (-1) INT_MIN) (zseq SLOTS)). generalize (foldl (scan_slot (sl_weights st)) (mk_sel_scan (sl_current st) 0 (-1) INT64_MIN) (zseq SLOTS)). intros s s' Sim Hs. destruct Sim as [Sw Sl Sb [St1 St2] Ss Sm].
  assert (Hin : ∀ w e, in_cycle w0 w (k + 1) (es ++ [e]) → e ∈ usable_eps w0 ∧ 0 <= e < SLOTS).
  { intros w e Hi. assert (He : e ∈ usable_eps w0) by (apply (ic_in _ _ _ _ Hi), elem_of_app; right; by apply list_elem_of_singleton). split; [done|]. apply usable_in in He as [He _]. unfold w0 in He. by rewrite as_n in He. }
  destruct ((sc_sel s' <? 0) || (sc_total s' =? 0)) eqn:Eb; [destruct (Hin _ _ Hs) as [_ Hbad]; lia|]. destruct (Hin _ _ Hs) as [Hu Hr1]. rewrite Ss, Z.geb_leb, (proj2 (Z.leb_le _ _)) by lia. split; [done|].
  split; [done|]. split; [cbn [sl_current]; by rewrite zlen_zset|]. cbn [sl_weights sl_current]. fold w0. pose proof (Sb _ Hr1) as Hb1. rewrite Sw in Hs. rewrite s64_id by lia. cbn [sl_current sl_weights] in *.
  rewrite as_set, as_mod in Hs. unfold zmod in Hs. rewrite s32_id in Hs by lia. by rewrite St1.
Qed.

(** ** A selector's weighted turns *)

(** Since it last took on a set of members and their weights *)
Definition sel_inv (st : sel_state) : Prop := ∃ k es, sel_cycle st k es.

Definition pool_of (ws : list Z) : wpool := as_pool ws (zrep SLOTS 0).

Lemma slots_len {A} (f : Z → A) : zlen (f <$> zseq SLOTS) = SLOTS.
Proof. unfold zlen, zseq. by rewrite !length_fmap, length_seq. Qed.

Lemma slots_ok e ws : Forall (λ w, 0 <= w < 256) ws → zlen ws = SLOTS → slot_bytes (slot_weight e ws <$> zseq SLOTS).
Proof.
  intros Hw Hl. split; [apply slots_len|]. apply list.Forall_forall. intros x Hx. apply list_elem_of_fmap in Hx as (i & -> & Hi). rewrite zseq_in in Hi. pose proof (weight_at ws i (conj Hl Hw) Hi). unfold slot_weight. repeat case_match; lia.
Qed.

Lemma pool_usable ws i : zlen ws = SLOTS → i ∈ usable_eps (pool_of ws) ↔ 0 <= i < SLOTS ∧ zget ws i ≠ 0.
Proof.
  intros Hl. rewrite usable_in. unfold pool_of at 1. rewrite as_n. split; intros [Hi Hu]; (split; [done|]); unfold pool_of in *; rewrite as_usable in * by done; [by apply negb_true_iff, Z.eqb_neq in Hu|by apply negb_true_iff, Z.eqb_neq].
Qed.

Lemma slot_usable e ws i : zlen ws = SLOTS → i ∈ usable_eps (pool_of (slot_weight e ws <$> zseq SLOTS)) ↔ i ∈ members e.
Proof.
  intros Hl. rewrite pool_usable by apply slots_len. rewrite members_in. split; intros [Hi Hu]; (split; [done|]); rewrite zget_fmap_zseq in * by done; unfold slot_weight in *; destruct (bit_set e i); try done. destruct (Z.eqb_spec (zget ws i) 0); lia.
Qed.

Lemma reset_cycle e ws : slot_bytes ws → sel_cycle (mk_sel_state e ws (zrep SLOTS 0)) 0 [].
Proof.
  intros Hw. split_and!; [done|done|]. cbn [sl_weights sl_current]. pose proof (as_pool_ok ws (zrep SLOTS 0) Hw ltac:(done)) as Hok.
  assert (Hcw : ∀ i, i ∈ usable_eps (pool_of ws) → cur_weight (pool_of ws) i = 0) by (intros i Hi; apply pool_usable in Hi as [Hi _]; [|apply Hw]; unfold pool_of; change (zget (zrep SLOTS 0) i = 0); by apply zget_zrep).
  split; [done|done|intros e' He; by apply not_elem_of_nil in He| | |done|done].
  - intros i Hi. rewrite Hcw by done. change (turns i []) with 0. lia.
  - intros i Hi. rewrite Hcw by done. pose proof (proj1 (pool_usable ws i (proj1 Hw)) Hi) as [Hr Hn]. pose proof (weight_at ws i Hw Hr).
    pose proof (sumz_term (ep_weight (pool_of ws)) (usable_eps (pool_of ws)) i 0 Hi) as Ht. unfold pool_of in *. rewrite as_weight in Ht by (done || apply Hw). 
    assert (Hy : ∀ y, y ∈ usable_eps (as_pool ws (zrep SLOTS 0)) → 0 <= ep_weight (as_pool ws (zrep SLOTS 0)) y) by (intros y Hy; apply usable_in in Hy as [Hy _]; apply (wo_weight _ Hok y Hy)). specialize (Ht Hy). lia.
Qed.

Lemma weights_pos ws : slot_bytes ws → usable_eps (pool_of ws) ≠ [] → 0 < sumz (ep_weight (pool_of ws)) (usable_eps (pool_of ws)).
Proof.
  intros Hw Hne. assert (H1 : ∀ y, y ∈ usable_eps (pool_of ws) → 1 <= ep_weight (pool_of ws) y).
  { intros y Hy. apply pool_usable in Hy as [Hy Hn]; [|apply Hw]. unfold pool_of. rewrite as_weight by (done || apply Hw). pose proof (weight_at ws y Hw Hy). lia. }
  destruct (usable_eps (pool_of ws)) as [|i us]; [done|]. pose proof (sumz_term (ep_weight (pool_of ws)) (i :: us) i 1 ltac:(left) H1) as H. rewrite zlen_cons in H. pose proof (zlen_nonneg us). specialize (H1 i ltac:(left)). lia.
Qed.

(** With no member nothing is chosen. *)
Lemma scan_empty ws l s : (∀ i, i ∈ l → zget ws i = 0) → foldl (scan_slot ws) s l = s.
Proof.
  revert s. induction l as [|i l IH]; intros s H; [done|]. cbn [foldl]. replace (scan_slot ws s i) with s; [apply IH; intros j Hj; apply H; by right|]. unfold scan_slot. by rewrite (H i) by left.
Qed.

(** The set and the weights the selector works with from now on *)
Definition taken_on (st : sel_state) (e : Z) (ws : list Z) : sel_state :=
  if negb (sl_eligible st =? e) || negb (bool_decide (sl_weights st = ws)) then mk_sel_state e ws (zrep SLOTS 0) else st.

Lemma taken_on_is st e ws : sl_eligible (taken_on st e ws) = e ∧ sl_weights (taken_on st e ws) = ws.
Proof. unfold taken_on. destruct (Z.eqb_spec (sl_eligible st) e); [|done]. by case_bool_decide. Qed.

Lemma taken_on_cycle st e ws : sel_inv st → slot_bytes ws → sel_inv (taken_on st e ws).
Proof. intros Hi Hw. unfold taken_on. case_match; [|done]. eexists _, _. by apply reset_cycle. Qed.

Lemma taken_on_same st e ws : sl_eligible st = e → sl_weights st = ws → taken_on st e ws = st.
Proof. intros He Hs. unfold taken_on. rewrite (proj2 (Z.eqb_eq _ _) He), bool_decide_true by done. done. Qed.

(** The scan of a taken_on selector *)
Definition scan_of (st : sel_state) : sel_scan := foldl (scan_slot (sl_weights st)) (mk_sel_scan (sl_current st) 0 (-1) INT64_MIN) (zseq SLOTS).
Definition after_turn (st : sel_state) (s : sel_scan) : sel_state :=
  mk_sel_state (sl_eligible st) (sl_weights st) (if sn_sel s >=? 0 then zset (sn_current s) (sn_sel s) (s64 (zget (sn_current s) (sn_sel s) - sn_total s)) else sn_current s).

Lemma wrr_index_turn st e weights : let st1 := taken_on st e (slot_weight e weights <$> zseq SLOTS) in sp_mcp_wrr_index st e weights = (after_turn st1 (scan_of st1), sn_sel (scan_of st1)).
Proof. unfold sp_mcp_wrr_index, taken_on, after_turn, scan_of. done. Qed.

Lemma turn_chooses st k es : sel_cycle st k es → usable_eps (pool_of (sl_weights st)) ≠ [] →
  sn_sel (scan_of st) ∈ usable_eps (pool_of (sl_weights st)) ∧ sel_cycle (after_turn st (scan_of st)) (k + 1) (es ++ [sn_sel (scan_of st)]).
Proof. intros Hc Hne. exact (wrr_turn st k es Hc (weights_pos _ (proj1 Hc) Hne)). Qed.

Lemma turn_empty st : zlen (sl_weights st) = SLOTS → usable_eps (pool_of (sl_weights st)) = [] → scan_of st = mk_sel_scan (sl_current st) 0 (-1) INT64_MIN.
Proof.
  intros Hl He. apply scan_empty. intros i Hi. rewrite zseq_in in Hi. destruct (decide (zget (sl_weights st) i = 0)) as [|Hn]; [done|]. exfalso.
  assert (Hu : i ∈ usable_eps (pool_of (sl_weights st))) by (by apply pool_usable). rewrite He in Hu. by apply not_elem_of_nil in Hu.
Qed.

Lemma after_empty st s : s = mk_sel_scan (sl_current st) 0 (-1) INT64_MIN → after_turn st s = st.
Proof. intros ->. by destruct st. Qed.

(** A weighted choice is one of the set, or there is none. *)
Lemma wrr_index_in st e weights : sel_inv st → Forall (λ w, 0 <= w < 256) weights → zlen weights = SLOTS →
  sel_inv (sp_mcp_wrr_index st e weights).1 ∧ (((sp_mcp_wrr_index st e weights).2 = -1 ∧ members e = []) ∨ (sp_mcp_wrr_index st e weights).2 ∈ members e).
Proof.
  intros Hst Hw Hl. rewrite wrr_index_turn. cbn [fst snd]. pose proof (slots_ok e weights Hw Hl) as Hok. set (ws := slot_weight e weights <$> zseq SLOTS) in *.
  pose proof (taken_on_cycle st e ws Hst Hok) as (k & es & Hc). pose proof (taken_on_is st e ws) as [_ Hs2]. generalize dependent (taken_on st e ws). intros st1 Hc Hs2.
  pose proof (λ i, slot_usable e weights i Hl) as Hu. fold ws in Hu. rewrite <- Hs2 in Hu.
  destruct (decide (usable_eps (pool_of (sl_weights st1)) = [])) as [E|E].
  - pose proof (turn_empty st1 (proj1 (proj1 Hc)) E) as Ht. rewrite (after_empty _ _ Ht). split; [by exists k, es|]. left. rewrite Ht. split; [done|].
    destruct (members e) as [|i l]; [done|]. exfalso. assert (Hi : i ∈ usable_eps (pool_of (sl_weights st1))) by (apply Hu; left). rewrite E in Hi. by apply not_elem_of_nil in Hi.
  - destruct (turn_chooses st1 k es Hc E) as [H1 H2]. split; [by eexists _, _|]. right. by apply Hu.
Qed.

(** [n] turns in a row with the same set and weights *)
Fixpoint select_run (n : nat) (st : sel_state) (e : Z) (weights : list Z) : sel_state * list Z :=
  match n with
  | O => (st, [])
  | S n => let '(st, x) := sp_mcp_wrr_index st e weights in let '(st, xs) := select_run n st e weights in (st, x :: xs)
  end.

Lemma select_run_cycle n e weights st k es : Forall (λ w, 0 <= w < 256) weights → zlen weights = SLOTS → members e ≠ [] →
  sl_eligible st = e → sl_weights st = slot_weight e weights <$> zseq SLOTS → sel_cycle st k es →
  let '(st', es') := select_run n st e weights in sl_weights st' = slot_weight e weights <$> zseq SLOTS ∧ sel_cycle st' (k + Z.of_nat n) (es ++ es').
Proof.
  intros Hw Hl Hne. revert st k es. induction n as [|n IH]; intros st k es He Hs Hc; cbn [select_run].
  { rewrite app_nil_r. by replace (k + Z.of_nat 0) with k by lia. }
  rewrite wrr_index_turn. rewrite (taken_on_same st e _ He Hs).
  assert (Hu : usable_eps (pool_of (sl_weights st)) ≠ []).
  { destruct (members e) as [|i l] eqn:E; [done|]. intros Hn. assert (Hi : i ∈ usable_eps (pool_of (sl_weights st))) by (rewrite Hs; apply slot_usable; [done|]; rewrite E; left). rewrite Hn in Hi. by apply not_elem_of_nil in Hi. }
  destruct (turn_chooses st k es Hc Hu) as [_ H2]. cbn zeta. specialize (IH (after_turn st (scan_of st)) _ _ He Hs H2). destruct (select_run n _ e weights) as [st' es'].
  replace (k + Z.of_nat (S n)) with (k + 1 + Z.of_nat n) by lia. by rewrite cons_middle, app_assoc.
Qed.

Lemma first_takes_on n st e weights : (0 < n)%nat → select_run n st e weights = select_run n (taken_on st e (slot_weight e weights <$> zseq SLOTS)) e weights.
Proof.
  intros Hn. destruct n as [|n]; [lia|]. cbn [select_run]. rewrite !wrr_index_turn. set (ws := slot_weight e weights <$> zseq SLOTS). pose proof (taken_on_is st e ws) as [H1 H2]. by rewrite (taken_on_same (taken_on st e ws) e ws H1 H2).
Qed.

(** The weighted turns of a route are exact: when a selector takes on
    a set of members and weights other than the ones it had, then for as long as
    they stay, every turn goes to a member; and each time the number of turns is
    a multiple [m] of the total weight, every member has had exactly [m] times its
    weight (a weight 0 counts as 1). *)
Theorem route_shares_exact (n : nat) (m : Z) (st : sel_state) (e : Z) (weights : list Z) :
  Forall (λ w, 0 <= w < 256) weights → zlen weights = SLOTS → members e ≠ [] → (0 < n)%nat →
  (sl_eligible st ≠ e ∨ sl_weights st ≠ slot_weight e weights <$> zseq SLOTS) →
  let W := sumz (slot_weight e weights) (members e) in
  (∀ x, x ∈ (select_run n st e weights).2 → x ∈ members e) ∧
  (Z.of_nat n = m * W → ∀ i, i ∈ members e → turns i (select_run n st e weights).2 = m * slot_weight e weights i).
Proof.
  intros Hw Hl Hne Hn Hnew. cbn zeta. rewrite (first_takes_on n st e weights Hn). pose proof (slots_ok e weights Hw Hl) as Hok. set (ws := slot_weight e weights <$> zseq SLOTS) in *.
  assert (Hset : taken_on st e ws = mk_sel_state e ws (zrep SLOTS 0)).
  { unfold taken_on. destruct (Z.eqb_spec (sl_eligible st) e); [|done]. rewrite bool_decide_false; [done|]. by destruct Hnew. }
  rewrite Hset. pose proof (select_run_cycle n e weights (mk_sel_state e ws (zrep SLOTS 0)) 0 [] Hw Hl Hne ltac:(done) ltac:(done) (reset_cycle e ws Hok)) as H. destruct (select_run n _ e weights) as [st' es]. cbn [snd] in *.
  destruct H as [Hs (Hw' & Hl' & Hc)]. rewrite Hs in Hc. cbn [app] in Hc. rewrite Z.add_0_l in Hc. pose proof (λ i, slot_usable e weights i Hl) as Hu. fold ws (pool_of ws) in Hu, Hc.
  assert (HW : sumz (ep_weight (pool_of ws)) (usable_eps (pool_of ws)) = sumz (slot_weight e weights) (members e)).
  { transitivity (sumz (slot_weight e weights) (usable_eps (pool_of ws))).
    - apply sumz_ext. intros i Hi. apply Hu, members_in in Hi as [Hi _]. unfold pool_of. rewrite as_weight by (done || apply slots_len). by apply zget_fmap_zseq.
    - apply sumz_perm. apply NoDup_Permutation; [apply usable_NoDup| |done]. unfold members. apply NoDup_ListNoDup, List.NoDup_filter, NoDup_ListNoDup, zseq_NoDup. }
  split; [intros x Hx; apply Hu, (ic_in _ _ _ _ Hc), Hx|]. intros Hm i Hi. pose proof (proj1 (members_in e i) Hi) as [Hr _]. rewrite <- HW in Hm. rewrite Hm in Hc.
  assert (Hpos : 0 < sumz (ep_weight (pool_of ws)) (usable_eps (pool_of ws))).
  { apply weights_pos; [done|]. intros E. apply Hu in Hi. rewrite E in Hi. by apply not_elem_of_nil in Hi. }
  destruct (cycle_exact _ _ m es i Hpos Hc ltac:(by apply Hu)) as [Ht _]. rewrite Ht. f_equal. unfold pool_of. rewrite as_weight by (done || apply slots_len). by apply zget_fmap_zseq.
Qed.

(** ** From the route to the member *)

Lemma byte_zset l i v : Forall (λ w, 0 <= w < 256) l → 0 <= v < 256 → Forall (λ w, 0 <= w < 256) (zset l i v).
Proof. intros Hl Hv. unfold zset. by apply Forall_insert. Qed.

Lemma byte_zget l i : Forall (λ w, 0 <= w < 256) l → 0 <= zget l i < 256.
Proof. intros Hl. unfold zget. rewrite list_lookup_total_alt. destruct (l !! Z.to_nat i) as [x|] eqn:E; [by apply (Forall_lookup_1 _ _ _ _ Hl E)|cbn; lia]. Qed.

Lemma add_refs_bytes n rs f : Forall (λ r : Z * Z, 0 <= r.2 < 256) rs → Forall (λ w, 0 <= w < 256) (route_weights f) → Forall (λ w, 0 <= w < 256) (route_weights (foldl (add_ref n) f rs)).
Proof.
  revert f. induction rs as [|r rs IH]; intros f Hr Hf; [done|]. apply list.Forall_cons in Hr as [Hr0 Hr]. cbn [foldl]. apply IH; [done|]. unfold add_ref. cbn zeta. case_match; [done|]. cbn. by apply byte_zset.
Qed.

Lemma zero_bytes : Forall (λ w, 0 <= w < 256) (zrep SLOTS 0).
Proof. apply Forall_replicate. lia. Qed.

Lemma route_pool_bytes f tickets p index fwd mcp : n_refs fwd ≠ 0 → 0 <= index < 256 → Forall (λ r : Z * Z, 0 <= r.2 < 256) (refs fwd) →
  Forall (λ w, 0 <= w < 256) (route_weights (l7_route_pool f tickets (Some p) index fwd mcp).1.1).
Proof.
  intros Hn Hi Hr. unfold l7_route_pool. rewrite (proj2 (Z.eqb_neq _ _) Hn). cbn [andb]. rewrite (proj2 (Z.ltb_ge _ _)), Z.geb_leb, (proj2 (Z.leb_gt _ _)), andb_false_r by lia. cbn [orb]. cbn zeta.
  match goal with |- context [foldl (add_ref _) ?f0 ?rs] => assert (H : Forall (λ w, 0 <= w < 256) (route_weights (foldl (add_ref (pv_n_eps p)) f0 rs))) by (apply add_refs_bytes; [by apply Forall_take|exact zero_bytes]); generalize dependent (foldl (add_ref (pv_n_eps p)) f0 rs) end.
  intros f1 H. by destruct (route_mask f1 =? 0).
Qed.

Lemma gather_bytes now f w l g : (∀ i, 0 <= ep_weight w i < 256) → Forall (λ w, 0 <= w < 256) (route_weights f) → Forall (λ w, 0 <= w < 256) (ga_weights g) →
  Forall (λ w, 0 <= w < 256) (ga_weights (foldl (gather_ep now f w) g l)) ∧ zlen (ga_weights (foldl (gather_ep now f w) g l)) = zlen (ga_weights g).
Proof.
  intros Hw Hf. revert g. induction l as [|i l IH]; intros g Hg; [done|]. cbn [foldl]. assert (H : Forall (λ w, 0 <= w < 256) (ga_weights (gather_ep now f w g i)) ∧ zlen (ga_weights (gather_ep now f w g i)) = zlen (ga_weights g)).
  { unfold gather_ep. case_match; [|done]. cbn zeta. cbn [ga_weights]. split; [|by rewrite zlen_zset]. apply byte_zset; [done|]. pose proof (Hw i). pose proof (byte_zget (route_weights f) i Hf). repeat case_match; lia. }
  destruct H as [H1 H2]. destruct (IH _ H1) as [H3 H4]. split; [done|congruence].
Qed.

(** C17. A forward that names members of the pool sends the request to one
    of them: the choice, by turn or by weight, is a member the route refers to and
    in service (its endpoint up and its breaker a candidate); there is no choice
    exactly when none of the members the route refers to is in service; and the
    selector is left fit for the next request. *)
Theorem forward_selects_members (now : Z) (f : fwd_state) (tickets : list Z) (p : pool_view) (index : Z) (fwd : l7_forward) (mcp : bool) (w : wpool) (sel_wrr : bool) (st pool_st : sel_state) (pool_ticket : Z) :
  n_refs fwd ≠ 0 → 0 <= index < 256 → Forall (λ r : Z * Z, 0 <= r.1 ∧ 0 <= r.2 < 256) (refs fwd) → pv_n_eps p = n_eps w → (∀ i, 0 <= ep_weight w i < 256) → sel_inv st →
  let '(f', _, ok) := l7_route_pool f tickets (Some p) index fwd mcp in
  let '(st', _, _, e) := sp_mcp_request_select now w sel_wrr f' (Some st) pool_st pool_ticket in
  (ok = true ↔ ∃ i, names_member fwd (n_eps w) i) ∧
  (ok = true → (∃ st1, st' = Some st1 ∧ sel_inv st1) ∧
    ((e = -1 ∧ ∀ i, names_member fwd (n_eps w) i → sp_mcp_candidate_locked now (w_b w) i = false) ∨
     (names_member fwd (n_eps w) e ∧ sp_mcp_candidate_locked now (w_b w) e = true))).
Proof.
  intros Hn Hi Hr Hp Hw Hst. pose proof (route_pool_members f tickets p index fwd mcp Hn Hi (List.Forall_impl _ (λ _ H, proj1 H) Hr)) as Hm.
  pose proof (route_pool_bytes f tickets p index fwd mcp Hn Hi (List.Forall_impl _ (λ _ H, proj2 H) Hr)) as Hb. destruct (l7_route_pool f tickets (Some p) index fwd mcp) as [[f' ts] ok].
  destruct Hm as (Hok & Hm0 & Hm & Ha). rewrite Hp in *. unfold sp_mcp_request_select. cbn zeta.
  pose proof (λ i, gather_eligible now f' w sel_wrr i) as Hg. pose proof (gather_bytes now f' w (zseq (Z.min (n_eps w) MAX_PROXY_EP)) (mk_sel_gather 0 (zrep SLOTS 0) sel_wrr 0) Hw Hb zero_bytes) as [Hg1 Hg2]. fold (gather now f' w sel_wrr) in Hg1, Hg2. change (zlen (ga_weights (mk_sel_gather 0 (zrep SLOTS 0) sel_wrr 0))) with SLOTS in Hg2.
  generalize dependent (gather now f' w sel_wrr). intros g Hg Hg1 Hg2.
  assert (Hmem : ok = true → ∀ i, i ∈ members (ga_eligible g) ↔ names_member fwd (n_eps w) i ∧ sp_mcp_candidate_locked now (w_b w) i = true).
  { intros Hk i. rewrite members_in. destruct (Ha Hk) as [Hact _]. split.
    - intros [Hr1 Hs]. rewrite (proj2 (Hg i ltac:(lia))) in Hs. unfold eligible_ep in Hs. rewrite Hact in Hs. cbn [negb orb] in Hs. apply andb_true_iff in Hs as [Hs Hc]. split; [by apply Hm; [lia|]|done].
    - intros [Hnm Hc]. pose proof Hnm as (Hr1 & Hr2 & _). split; [unfold SLOTS, MAX_PROXY_EP in *; lia|]. rewrite (proj2 (Hg i ltac:(lia))). unfold eligible_ep. rewrite Hact, Hc, (proj2 (Hm i ltac:(lia)) Hnm). done. }
  assert (Hfin : ∀ e, ok = true → (e = -1 ∧ members (ga_eligible g) = []) ∨ e ∈ members (ga_eligible g) → (e = -1 ∧ ∀ i, names_member fwd (n_eps w) i → sp_mcp_candidate_locked now (w_b w) i = false) ∨ (names_member fwd (n_eps w) e ∧ sp_mcp_candidate_locked now (w_b w) e = true)).
  { intros e Hk [[-> He]|He]; [left; split; [done|]|right; by apply Hmem]. intros i Hin. destruct (sp_mcp_candidate_locked now (w_b w) i) eqn:Ec; [|done]. exfalso. assert (Hx : i ∈ members (ga_eligible g)) by (by apply Hmem). rewrite He in Hx. by apply not_elem_of_nil in Hx. }
  pose proof (wrr_index_in st (ga_eligible g) (ga_weights g) Hst Hg1 Hg2) as [Hw1 Hw2]. pose proof (rr_index_in (ga_eligible g) (route_ticket f')) as Hrr.
  destruct (sp_mcp_wrr_index st (ga_eligible g) (ga_weights g)) as [st1 e1]. cbn [fst snd] in *. destruct ok.
  - destruct (Ha eq_refl) as [Hact _]. rewrite Hact. destruct (ga_weighted g); (split; [done|]); intros _; (split; [by eexists|]); by apply Hfin.
  - destruct (route_active f'), (ga_weighted g); (split; [done|]; done).
Qed.

(** Three members of weights 5, 1 and 1 (the third's 0 counts as 1), of a pool of four *)
Definition shares_example : list Z := [5; 1; 0; 9] ++ zrep 28 0.

Lemma shares_example_ok : Forall (λ w, 0 <= w < 256) shares_example ∧ zlen shares_example = SLOTS.
Proof. split; [repeat (constructor; [lia|]); constructor|done]. Qed.

Lemma route_shares_exact_witness : (select_run 7 sel_zero 7 shares_example).2 = [0; 0; 1; 0; 2; 0; 0] ∧ turns 0 (select_run 7 sel_zero 7 shares_example).2 = 5.
Proof.
  split; [vm_compute; reflexivity|]. destruct shares_example_ok as [H1 H2].
  destruct (route_shares_exact 7 1 sel_zero 7 shares_example H1 H2 ltac:(by vm_compute) ltac:(lia) ltac:(by left)) as [_ H].
  exact (H ltac:(vm_compute; reflexivity) 0 ltac:(apply members_in; split; [vm_compute; by split|done])).
Defined.

(** A route to the members 0 and 2 of a pool of four, of which 0 is down *)
Definition forward_example : l7_forward := mk_l7_forward [(0, 3); (2, 1)] 2.
Definition forward_pool : wpool :=
  mk_wpool (mk_bpool 4 false (zrep 32 circuit_breaker_init) ([1; 0; 0; 0] ++ zrep 28 0) None fc_state_zero [] 0) (zrep 32 (mk_proxy_ep 0 0 0)) (zrep 32 0) 0 0 false.

Lemma forward_pool_weights i : 0 <= ep_weight forward_pool i < 256.
Proof. unfold ep_weight, zget. rewrite list_lookup_total_alt. destruct (w_eps forward_pool !! Z.to_nat i) as [x|] eqn:E; [|cbn; lia]. apply lookup_replicate in E as [-> _]. cbn. lia. Qed.

Lemma zero_inv : sel_inv sel_zero.
Proof. exists 0, []. apply reset_cycle. split; [done|apply zero_bytes]. Qed.

Definition fwd_zero : fwd_state := mk_fwd_state false 0 (zrep 32 0) None 0.

Lemma forward_selects_members_witness :
  let '(f, _, _) := l7_route_pool fwd_zero (zrep 256 0) (Some (mk_pool_view 4 false)) 0 forward_example false in
  (sp_mcp_request_select 0 forward_pool false f (Some sel_zero) sel_zero 0).2 = 2 ∧ names_member forward_example 4 2.
Proof.
  pose proof (forward_selects_members 0 fwd_zero (zrep 256 0) (mk_pool_view 4 false) 0 forward_example false forward_pool false sel_zero sel_zero 0 ltac:(done) ltac:(lia) ltac:(repeat constructor; cbn; lia) ltac:(done) forward_pool_weights zero_inv) as H.
  destruct (l7_route_pool fwd_zero (zrep 256 0) (Some (mk_pool_view 4 false)) 0 forward_example false) as [[f ts] ok] eqn:E.
  assert (He : (sp_mcp_request_select 0 forward_pool false f (Some sel_zero) sel_zero 0).2 = 2) by (vm_compute in E; inversion E; vm_compute; reflexivity). split; [exact He|].
  destruct (sp_mcp_request_select 0 forward_pool false f (Some sel_zero) sel_zero 0) as [[[st' ps] pt] e]. cbn [snd] in He. subst e. destruct H as [_ H]. destruct (H ltac:(by vm_compute in E; inversion E)) as [_ [[Hb _]|[Hn _]]]; [done|exact Hn].
Defined.
