(* ===== verification/L7Cookie.v ===== *)
(** * L7 policy: persistence cookies (src/common/sockproxy_cookie.h)

    A route may ask that a client comes back to the endpoint that served it. The
    proxy then sends a cookie whose value is a keyed hash of the endpoint's
    address, and on a later request hashes every endpoint in service again and
    takes the one whose value the client presents. Nothing is stored. The hash is
    a library's: an argument. HTTP/2 sends the cookie and reads it; HTTP/1 sends it,
    and no selection of its L7 path reads it. The theorems: an endpoint is taken only
    for its own token; over HTTP/2 the token a response carries comes back as the
    endpoint that sent it; and the edit of an HTTP/1 response that carries it. *)

From stdpp Require Import base list gmap numbers strings.
From Stdlib Require Import Ascii.
From S2P Require Import Prelude FcTypes FcConfig FcExpose QosCtl Breaker Wrr L7Head L7Trust L7Match L7Route L7Select.

Definition LB_COOKIE_NAME : bytes := lit "OCTAVIA_SESSION".
Definition LB_COOKIE_ROOT_KEY : bytes := lit "loxilb-octavia-http-cookie-v1".
Definition LB_COOKIE_TOKEN_RAW_LEN : Z := 16.
Definition LB_COOKIE_TOKEN_MAX : Z := 40.
Definition SHA256_DIGEST_LENGTH : Z := 32.
Definition L7_COOKIE_MISS : Z := -1.

(** ** The text of a token *)

Definition lb_cookie_b64url_tbl : bytes := lit "ABCDEFGHIJKLMNOPQRSTUVWXYZabcdefghijklmnopqrstuvwxyz0123456789-_".
Definition b64 (v sh : Z) : ascii := zget lb_cookie_b64url_tbl (Z.land (Z.shiftr v sh) 63).

(** The groups of three: what is left and the output. *)
Fixpoint b64_groups (inp out : bytes) (outsz : Z) : bytes * bytes :=
  match inp with
  | a :: b :: c :: rest =>
      if zlen out + 4 >=? outsz then (inp, out)
      else
        let v := Z.lor (Z.lor (Z.shiftl (code_of a) 16) (Z.shiftl (code_of b) 8)) (code_of c) in
        b64_groups rest (out ++ [b64 v 18; b64 v 12; b64 v 6; b64 v 0]) outsz
  | _ => (inp, out)
  end.

(** The last one or two bytes *)
Definition b64_rest (inp out : bytes) (outsz : Z) : bytes :=
  match inp with
  | [] => out
  | a :: t =>
      let two := zlen inp =? 2 in
      let v := Z.shiftl (code_of a) 16 in
      let v := if two then Z.lor v (Z.shiftl (code_of (zget inp 1)) 8) else v in
      if zlen out + 2 <? outsz then
        out ++ [b64 v 18; b64 v 12] ++ (if two && (zlen out + 2 + 1 <? outsz) then [b64 v 6] else [])
      else out
  end.

Definition lb_cookie_b64url (inp : bytes) (outsz : Z) : bytes :=
  let '(rest, out) := b64_groups inp [] outsz in b64_rest rest out outsz.

(** ** Tokens *)

Section cookie.
(** HMAC-SHA256 of the library: a key, a message; none when it fails. *)
Context (hmac : bytes → bytes → option bytes).

(** The digest, when it has the length the code asks for *)
Definition hmac_sha256 (key msg : bytes) : option bytes :=
  match hmac key msg with Some d => if zlen d =? SHA256_DIGEST_LENGTH then Some d else None | None => None end.

Definition l7_cookie_derive_vip_secret (vip_port : bytes) : option bytes := hmac_sha256 LB_COOKIE_ROOT_KEY vip_port.

(** The token, where the code answers its length *)
Definition l7_cookie_derive_token (member_id secret : bytes) (outsz : Z) : option bytes :=
  if outsz <? LB_COOKIE_TOKEN_MAX then None
  else match hmac_sha256 secret member_id with
       | None => None
       | Some mac => let t := lb_cookie_b64url (take (Z.to_nat LB_COOKIE_TOKEN_RAW_LEN) mac) outsz in if zlen t >? 0 then Some t else None
       end.

(** An address and a port as they are, which also name a listener *)
Definition l7_cookie_member_id (xip xport bufsz : Z) : option bytes :=
  let s := print_u32 xip ++ lit ":" ++ print_u32 xport in if zlen s <? bufsz then Some s else None.

(** strnlen *)
Definition strnlen (s : bytes) (n : Z) : Z := Z.min (zlen s) n.

(** The loop over the longer of the two: the bits that differ *)
Definition ct_diff (presented candidate : bytes) : Z :=
  let lp := strnlen presented LB_COOKIE_TOKEN_MAX in
  let lc := strnlen candidate LB_COOKIE_TOKEN_MAX in
  foldl (λ diff i,
      let a := if i <? lp then code_of (zget presented i) else 0 in
      let b := if i <? lc then code_of (zget candidate i) else 0 in
      Z.lor diff (u8 (Z.lxor a b)))
    (u8 (Z.lxor lp lc)) (zseq (Z.max lp lc)).
Definition l7_cookie_token_eq_ct (presented candidate : bytes) : bool := ct_diff presented candidate =? 0.

(** One member of the scan: [m] is the match so far. *)
Definition match_ep (token secret : bytes) (w : wpool) (m i : Z) : Z :=
  if negb (zget (bp_inv (w_b w)) i =? 0) then m
  else match l7_cookie_member_id (xip (zget (w_eps w) i)) (xport (zget (w_eps w) i)) 64 with
       | None => m
       | Some mid =>
           match l7_cookie_derive_token mid secret LB_COOKIE_TOKEN_MAX with
           | None => m
           | Some cand => if l7_cookie_token_eq_ct token cand then i else m
           end
       end.

Definition l7_cookie_match_token_eps (token secret : bytes) (w : wpool) (n : Z) : Z :=
  if (zlen token =? 0) || (n <=? 0) then L7_COOKIE_MISS else foldl (match_ep token secret w) L7_COOKIE_MISS (zseq n).

(** ** A listener's tokens (sockproxy_l7policy.c) *)

(** %u:%u of the listener's key, which always fits in 64 bytes *)
Definition l7_cookie_node_vip_secret (key : proxy_ent) : option bytes :=
  l7_cookie_derive_vip_secret (fit 64 (print_u32 (pe_xip key) ++ lit ":" ++ print_u32 (pe_xport key))).

Definition l7_cookie_node_token_for_ep (key : proxy_ent) (w : wpool) (ep_idx : Z) (outsz : Z) : option bytes :=
  if (ep_idx <? 0) || (ep_idx >=? n_eps w) then None
  else match l7_cookie_node_vip_secret key with
       | None => None
       | Some secret =>
           match l7_cookie_member_id (xip (zget (w_eps w) ep_idx)) (xport (zget (w_eps w) ep_idx)) 64 with
           | None => None
           | Some mid => l7_cookie_derive_token mid secret outsz
           end
       end.

Definition l7_cookie_node_match (key : proxy_ent) (w : wpool) (token : bytes) : Z :=
  if zlen token =? 0 then L7_COOKIE_MISS
  else match l7_cookie_node_vip_secret key with
       | None => L7_COOKIE_MISS
       | Some secret => l7_cookie_match_token_eps token secret w (Z.min (n_eps w) MAX_PROXY_EP)
       end.

Definition l7_cookie_read_presented (req : l7_req) (outsz : Z) : option bytes :=
  match find_header (lit "Cookie") (l7_headers req) with
  | None => None
  | Some v => extract_cookie_by_name (fit (L7_HDR_VALUE_MAX + 16) (lit "Cookie: " ++ v)) LB_COOKIE_NAME outsz
  end.

Section request.
Context {regex_t : Type} (regexec : regex_t → bytes → bool) (have_http_trace : bool).

(** [pool0] is the listener's first pool. *)
Definition l7_cookie_persist_active (req : l7_req) (e : map_ent regex_t) (pool0 : option pool_view) : bool :=
  if match pool0 with Some p => pv_mcp p | None => false end then false
  else if has_l7_policy e then
    match l7_first_matching_route regexec have_http_trace req (l7_routes e) with Some r => negb (cookie_persist r =? 0) | None => false end
  else false.

(** The pin of a request to the endpoint of its cookie (a step of
    proxy_h2_forward_to_backend): the pool, its breaker asked, and the endpoint or -1. *)
Definition cookie_pin (now : Z) (req : l7_req) (e : map_ent regex_t) (pool0 : option pool_view) (f : fwd_state) (w : wpool) : wpool * Z :=
  if has_l7_policy e && l7_cookie_persist_active req e pool0 then
    match l7_cookie_read_presented req LB_COOKIE_TOKEN_MAX with
    | None => (w, -1)
    | Some presented =>
        let cep := l7_cookie_node_match (m_key e) w presented in
        if negb (cep =? L7_COOKIE_MISS) && (cep >=? 0) && (cep <? n_eps w) then
          let '(b, healthy) := is_endpoint_healthy now cep (w_b w) in
          (w <| w_b := b |>, if healthy && sp_route_allows f cep then cep else -1)
        else (w, -1)
    end
  else (w, -1).

(** ** The response that carries it (sockproxy_http.c) *)

(** A response head that may be edited *)
Definition is_response (buf : bytes) : bool :=
  negb (zlen buf <? 12) && is_prefix (lit "HTTP/") buf && match find_sub CRLF2 buf with Some _ => true | None => false end.

Definition set_cookie_line (token : bytes) (is_ssl : bool) : bytes := LB_COOKIE_NAME ++ lit "=" ++ token ++ lit "; Path=/; HttpOnly" ++ (if is_ssl then lit "; Secure" else []).

(** [ep_num] is the endpoint of the response. *)
Definition l7_inject_set_cookie_h1 (req : l7_req) (e : map_ent regex_t) (pool0 : option pool_view) (w : wpool) (ep_num : Z) (is_ssl : bool) (bufsize : Z) (buf : bytes) : bytes :=
  if negb (has_l7_policy e) then buf
  else if negb (l7_cookie_persist_active req e pool0) then buf
  else if (ep_num <? 0) || (ep_num >=? n_eps w) then buf
  else if negb (is_response buf) then buf
  else match l7_cookie_node_token_for_ep (m_key e) w ep_num LB_COOKIE_TOKEN_MAX with
       | None => buf
       | Some token =>
           let line := set_cookie_line token is_ssl in
           if zlen line >=? L7_HDR_VALUE_MAX then buf
           else (l7h1_splice_header buf bufsize (lit "Set-Cookie") line).1
       end.

(** ** The same over HTTP/2 (sockproxy_h2.c) *)

(** The response headers collected for a stream (stream_mapping_t): none allocated
    yet, or the filled ones, and the places. *)
Record stream_mapping := mk_stream_mapping { response_headers : option (list (bytes * bytes)); response_headers_capacity : Z }.
Definition rh_list (m : stream_mapping) : list (bytes * bytes) := default [] (response_headers m).

(** The loop over the headers to add; [alloc k] is the answer to the [k]-th
    allocation of the call. *)
Fixpoint inject_each (alloc : nat → bool) (k : nat) (extra : list (bytes * bytes)) (hs : list (bytes * bytes)) (cap injected : Z) : stream_mapping * Z :=
  match extra with
  | [] => (mk_stream_mapping (Some hs) cap, injected)
  | (name, value) :: extra =>
      if zlen name =? 0 then inject_each alloc k extra hs cap injected
      else
        let full := zlen hs >=? cap in
        if full && negb (alloc k) then (mk_stream_mapping (Some hs) cap, injected)
        else
          let '(k, cap) := if full then (S k, if negb (cap =? 0) then cap * 2 else 16) else (k, cap) in
          if negb (alloc k && alloc (S k)) then (mk_stream_mapping (Some hs) cap, injected)
          else inject_each alloc (S (S k)) extra (hs ++ [(name, value)]) cap (injected + 1)
  end.

Definition proxy_h2_inject_resp_headers (alloc : nat → bool) (m : stream_mapping) (extra : list (bytes * bytes)) : stream_mapping * Z :=
  if zlen extra =? 0 then (m, 0)
  else match response_headers m with
       | Some hs => inject_each alloc 0 extra hs (response_headers_capacity m) 0
       | None => if alloc O then inject_each alloc 1 extra [] 16 0 else (mk_stream_mapping None 0, -1)
       end.

(** The Set-Cookie step of the relay of a final response; [ep_idx] is the endpoint
    of the backend session, [w] its pool. *)
Definition h2_inject_set_cookie (alloc : nat → bool) (req : l7_req) (e : map_ent regex_t) (pool0 : option pool_view) (w : wpool) (ep_idx : Z) (is_ssl : bool) (m : stream_mapping) : stream_mapping :=
  if has_l7_policy e && l7_cookie_persist_active req e pool0 then
    if (ep_idx >=? 0) && (ep_idx <? n_eps w) then
      match l7_cookie_node_token_for_ep (m_key e) w ep_idx LB_COOKIE_TOKEN_MAX with
      | None => m
      | Some token =>
          let cookie_val := set_cookie_line token is_ssl in
          if zlen cookie_val <? L7_HDR_VALUE_MAX then (proxy_h2_inject_resp_headers alloc m [(lit "set-cookie", cookie_val)]).1 else m
      end
    else m
  else m.

End request.
End cookie.

(** The headers of a request captured on its connection, as the parser hands them
    over one by one. *)
Definition h2_captured (hs : list (bytes * bytes)) (req : l7_req) : l7_req :=
  foldl (λ r h, (l7_store_header_n h.1 h.2 hops_zero r).2) req hs.

(** The HSTS header of a response: the message the buffer holds and the length the
    code answers for it. [have_ssl] is that the listener ends TLS. *)
Definition hsts_name : bytes := lit "Strict-Transport-Security".
Definition l7_inject_hsts_h1 (policy have_ssl : bool) (max_age : Z) (include_subdomains preload : bool) (bufsize : Z) (buf : bytes) : bytes * Z :=
  if negb policy || (max_age =? 0) || negb have_ssl || negb (is_response buf) then (buf, zlen buf)
  else
    let v := l7_hsts_synthesize max_age include_subdomains preload L7_HDR_VALUE_MAX in
    if (zlen v =? 0) || negb (l7_hdr_value_valid v) then (buf, zlen buf)
    else
      let cur := (l7h1_strip_header buf hsts_name).1 in
      let '(cur, rc) := l7h1_splice_header cur bufsize hsts_name v in
      if negb (rc =? 0) then (cur, zlen buf) else (cur, zlen cur).

(** ** Base 64 reads back *)

Lemma code_range c : 0 <= code_of c < 256.
Proof. unfold code_of. pose proof (nat_ascii_bounded c). lia. Qed.

Lemma code_inj a b : code_of a = code_of b → a = b.
Proof. unfold code_of. intros H. rewrite <- (ascii_nat_embedding a), <- (ascii_nat_embedding b). f_equal. lia. Qed.

(** The place of a character in the table *)
Definition b64_val (c : ascii) : Z := match find_char c lb_cookie_b64url_tbl with Some n => Z.of_nat n | None => 0 end.

Lemma b64_table : forallb (λ i, b64_val (zget lb_cookie_b64url_tbl i) =? i) (zseq 64) = true.
Proof. vm_compute. reflexivity. Qed.

Lemma b64_val_at v sh : 0 <= v → 0 <= sh → b64_val (b64 v sh) = v / 2 ^ sh mod 64.
Proof.
  intros Hv Hs. unfold b64. change 63 with (Z.ones 6). rewrite Z.land_ones, Z.shiftr_div_pow2 by lia. change (2 ^ 6) with 64. set (i := v / 2 ^ sh mod 64).
  pose proof (Z.mod_pos_bound (v / 2 ^ sh) 64 ltac:(lia)) as Hi. fold i in Hi. apply Z.eqb_eq. apply (proj1 (List.forallb_forall _ _) b64_table). apply list_elem_of_In, zseq_in. lia.
Qed.

Lemma b64_group_value a b c : Z.lor (Z.lor (Z.shiftl (code_of a) 16) (Z.shiftl (code_of b) 8)) (code_of c) = code_of a * 65536 + code_of b * 256 + code_of c.
Proof.
  pose proof (code_range a). pose proof (code_range b). pose proof (code_range c). rewrite !Z.shiftl_mul_pow2 by lia.
  rewrite lor_add by lia. replace (code_of a * 2 ^ 16 + code_of b * 2 ^ 8) with ((code_of a * 256 + code_of b) * 2 ^ 8) by lia. rewrite lor_add by lia. lia.
Qed.

(** What the encoder writes, when there is room *)
Fixpoint b64_text (inp : bytes) : bytes :=
  match inp with
  | a :: b :: c :: rest => let v := code_of a * 65536 + code_of b * 256 + code_of c in [b64 v 18; b64 v 12; b64 v 6; b64 v 0] ++ b64_text rest
  | [a; b] => let v := code_of a * 65536 + code_of b * 256 in [b64 v 18; b64 v 12; b64 v 6]
  | [a] => let v := code_of a * 65536 in [b64 v 18; b64 v 12]
  | [] => []
  end.

Lemma list_ind3 {A} (P : list A → Prop) : P [] → (∀ a, P [a]) → (∀ a b, P [a; b]) → (∀ a b c l, P l → P (a :: b :: c :: l)) → ∀ l, P l.
Proof. intros H0 H1 H2 H3. fix IH 1. intros [|a [|b [|c l]]]; [exact H0|apply H1|apply H2|apply H3, IH]. Qed.

Lemma b64_writes inp outsz : ∀ out, zlen out + 2 * zlen inp + 4 <= outsz → (let '(rest, out') := b64_groups inp out outsz in b64_rest rest out' outsz) = out ++ b64_text inp.
Proof.
  induction inp as [|a|a b|a b c l IH] using list_ind3; intros out Hr.
  - by rewrite app_nil_r.
  - cbn [b64_groups b64_text]. unfold b64_rest. change (zlen [a]) with 1 in *. cbn [Z.eqb]. change (1 =? 2) with false. cbn iota. rewrite (proj2 (Z.ltb_lt _ _)) by lia. cbn [andb]. rewrite app_nil_r. rewrite Z.shiftl_mul_pow2 by lia. done.
  - cbn [b64_groups b64_text]. unfold b64_rest. change (zlen [a; b]) with 2 in *. change (2 =? 2) with true. cbn iota. rewrite !(proj2 (Z.ltb_lt _ _)) by lia. cbn [andb]. change (zget [a; b] 1) with b.
    pose proof (code_range b). rewrite !Z.shiftl_mul_pow2, lor_add by lia. done.
  - cbn [b64_groups]. rewrite !zlen_cons in Hr. rewrite Z.geb_leb, (proj2 (Z.leb_gt _ _)) by (pose proof (zlen_nonneg l); lia). rewrite b64_group_value. cbn zeta.
    rewrite IH by (rewrite zlen_app; change (zlen [_; _; _; _]) with 4; lia). rewrite <- app_assoc. done.
Qed.

Definition chr (n : Z) : ascii := ascii_of_nat (Z.to_nat n).
Lemma chr_code c : chr (code_of c) = c.
Proof. unfold chr, code_of. rewrite Nat2Z.id. apply ascii_nat_embedding. Qed.

(** The reader *)
Fixpoint b64_decode (l : bytes) : bytes :=
  match l with
  | w :: x :: y :: z :: rest =>
      let v := b64_val w * 262144 + b64_val x * 4096 + b64_val y * 64 + b64_val z in [chr (v / 65536); chr (v / 256 mod 256); chr (v mod 256)] ++ b64_decode rest
  | [w; x; y] => let v := b64_val w * 262144 + b64_val x * 4096 + b64_val y * 64 in [chr (v / 65536); chr (v / 256 mod 256)]
  | [w; x] => let v := b64_val w * 262144 + b64_val x * 4096 in [chr (v / 65536)]
  | _ => []
  end.

(** A number of 24 bits from its four digits to the base of 64, and its bytes *)
Lemma sextets v : 0 <= v < 16777216 → v / 2 ^ 18 mod 64 * 262144 + v / 2 ^ 12 mod 64 * 4096 + v / 2 ^ 6 mod 64 * 64 + v / 2 ^ 0 mod 64 = v.
Proof. intros Hv. Z.to_euclidean_division_equations. lia. Qed.

Lemma octets a b c : 0 <= a < 256 → 0 <= b < 256 → 0 <= c < 256 → let v := a * 65536 + b * 256 + c in v / 65536 = a ∧ v / 256 mod 256 = b ∧ v mod 256 = c.
Proof. intros Ha Hb Hc v. unfold v. split_and!; Z.to_euclidean_division_equations; lia. Qed.

Lemma b64_reads_back inp : b64_decode (b64_text inp) = inp.
Proof.
  induction inp as [|a|a b|a b c l IH] using list_ind3; [done| | |].
  - pose proof (code_range a). cbn [b64_text b64_decode app]. rewrite !b64_val_at by lia. pose proof (octets (code_of a) 0 0 ltac:(lia) ltac:(lia) ltac:(lia)) as (H1 & _ & _). cbn zeta in H1. rewrite !Z.add_0_r in H1.
    pose proof (sextets (code_of a * 65536) ltac:(lia)) as Hs. replace (_ + _) with (code_of a * 65536); [by rewrite H1, chr_code|]. rewrite <- Hs at 1. Z.to_euclidean_division_equations. lia.
  - pose proof (code_range a). pose proof (code_range b). cbn [b64_text b64_decode app]. rewrite !b64_val_at by lia. pose proof (octets (code_of a) (code_of b) 0 ltac:(lia) ltac:(lia) ltac:(lia)) as (H1 & H2 & _). cbn zeta in H1, H2. rewrite !Z.add_0_r in H1, H2.
    pose proof (sextets (code_of a * 65536 + code_of b * 256) ltac:(lia)) as Hs. match goal with |- [chr (?v / 65536); _] = _ => replace v with (code_of a * 65536 + code_of b * 256) end; [by rewrite H1, H2, !chr_code|]. rewrite <- Hs at 1. Z.to_euclidean_division_equations. lia.
  - pose proof (code_range a). pose proof (code_range b). pose proof (code_range c). cbn [b64_text app]. cbn [b64_decode]. rewrite !b64_val_at by lia. rewrite sextets by lia. destruct (octets (code_of a) (code_of b) (code_of c)) as (E1 & E2 & E3); [done..|]. cbn zeta in *.
    rewrite E1, E2, E3, !chr_code, IH. done.
Qed.

Lemma b64url_decodes inp outsz : 2 * zlen inp + 4 <= outsz → b64_decode (lb_cookie_b64url inp outsz) = inp.
Proof. intros H. unfold lb_cookie_b64url. rewrite b64_writes by (change (zlen []) with 0; lia). cbn [app]. apply b64_reads_back. Qed.

(** Its characters are those of the table: none ends a cookie. *)
Definition token_char (c : ascii) : bool := existsb (Ascii.eqb c) lb_cookie_b64url_tbl.

Lemma b64_char v sh : token_char (b64 v sh) = true.
Proof.
  unfold b64. change 63 with (Z.ones 6). rewrite Z.land_ones by lia. change (2 ^ 6) with 64. pose proof (Z.mod_pos_bound (Z.shiftr v sh) 64 ltac:(lia)) as Hi. set (i := Z.shiftr v sh mod 64) in *.
  apply existsb_exists. exists (zget lb_cookie_b64url_tbl i). split; [|apply Ascii.eqb_refl]. apply list_elem_of_In. unfold zget. apply list_elem_of_lookup. exists (Z.to_nat i). apply list_lookup_lookup_total_lt. change (length lb_cookie_b64url_tbl) with 64%nat. lia.
Qed.

Lemma b64_text_chars inp : forallb token_char (b64_text inp) = true.
Proof. induction inp as [|a|a b|a b c l IH] using list_ind3; cbn [b64_text app forallb]; rewrite ?b64_char, ?IH; done. Qed.

Lemma b64_text_length inp : zlen (b64_text inp) <= 2 * zlen inp ∧ zlen inp <= zlen (b64_text inp).
Proof. induction inp as [|a|a b|a b c l IH] using list_ind3; [done|by vm_compute..|]. cbn [b64_text app]. rewrite !zlen_cons. lia. Qed.

(** ** Comparing tokens *)

Lemma byte_bits a i : 0 <= a < 256 → 8 <= i → Z.testbit a i = false.
Proof. intros Ha Hi. rewrite <- (Z.mod_small a (2 ^ 8)) by lia. by apply Z.mod_pow2_bits_high. Qed.

Lemma u8_lxor_zero a b : 0 <= a < 256 → 0 <= b < 256 → u8 (Z.lxor a b) = 0 ↔ a = b.
Proof.
  intros Ha Hb. split; [|intros ->; by rewrite Z.lxor_nilpotent]. intros H. apply Z.bits_inj'. intros i Hi. destruct (decide (8 <= i)) as [H8|H8]; [by rewrite !byte_bits|].
  apply (f_equal (λ z, Z.testbit z i)) in H. unfold u8 in H. change 256 with (2 ^ 8) in H. rewrite Z.mod_pow2_bits_low, Z.lxor_spec, Z.bits_0 in H by lia. by destruct (Z.testbit a i), (Z.testbit b i).
Qed.

Lemma u8_nonneg z : 0 <= u8 z.
Proof. unfold u8. apply Z.mod_pos_bound. lia. Qed.

Lemma fold_lor_zero (f : Z → Z) l d : 0 <= d → (∀ i, 0 <= f i) → foldl (λ d i, Z.lor d (f i)) d l = 0 ↔ d = 0 ∧ ∀ i, i ∈ l → f i = 0.
Proof.
  intros Hd Hf. revert d Hd. induction l as [|i l IH]; intros d Hd; cbn [foldl].
  - split; [intros ->; split; [done|]; intros i Hi; by apply not_elem_of_nil in Hi|by intros []].
  - rewrite IH by (apply Z.lor_nonneg; split; [done|apply Hf]). rewrite Z.lor_eq_0_iff. split.
    + intros [[-> H1] H2]. split; [done|]. intros j Hj. apply elem_of_cons in Hj as [->|Hj]; auto.
    + intros [-> H]. split; [split; [done|apply H; left]|]. intros j Hj. apply H. by right.
Qed.

(** The comparison is equality, for texts a token's buffer can hold. *)
Lemma token_eq_ct p c : zlen p <= LB_COOKIE_TOKEN_MAX → zlen c <= LB_COOKIE_TOKEN_MAX → l7_cookie_token_eq_ct p c = true ↔ p = c.
Proof.
  intros Hp Hc. unfold l7_cookie_token_eq_ct, ct_diff, strnlen. rewrite !Z.min_l by done. rewrite Z.eqb_eq. pose proof (zlen_nonneg p). pose proof (zlen_nonneg c). unfold LB_COOKIE_TOKEN_MAX in *.
  rewrite fold_lor_zero; [|apply u8_nonneg|intros; apply u8_nonneg]. rewrite u8_lxor_zero by lia. split.
  - intros [Hl He]. apply (list_eq_same_length _ _ (length p)); [unfold zlen in Hl; lia|done|]. intros i x y Hi Hx Hy. specialize (He (Z.of_nat i)). rewrite zseq_in, Z.max_l in He by lia. unfold zlen in *. specialize (He ltac:(lia)).
    rewrite !(proj2 (Z.ltb_lt _ _)), u8_lxor_zero in He by (lia || apply code_range). unfold zget in He. rewrite Nat2Z.id, (list_lookup_total_correct _ _ _ Hx), (list_lookup_total_correct _ _ _ Hy) in He. by apply code_inj.
  - intros ->. split; [done|]. intros i _. by rewrite Z.lxor_nilpotent.
Qed.

(** ** Who a token names *)

Section named.
Context (hmac : bytes → bytes → option bytes).

(** A member in service *)
Definition cookie_live (w : wpool) (i : Z) : Prop := 0 <= i < n_eps w ∧ i < MAX_PROXY_EP ∧ zget (bp_inv (w_b w)) i = 0.

Lemma token_fits mid secret t : l7_cookie_derive_token hmac mid secret LB_COOKIE_TOKEN_MAX = Some t → zlen t <= 32 ∧ t ≠ [] ∧ forallb token_char t = true.
Proof.
  unfold l7_cookie_derive_token. change (LB_COOKIE_TOKEN_MAX <? LB_COOKIE_TOKEN_MAX) with false. cbn iota. unfold hmac_sha256. destruct (hmac secret mid) as [d|]; [|done]. destruct (zlen d =? SHA256_DIGEST_LENGTH); [|done]. unfold lb_cookie_b64url. set (raw := take (Z.to_nat LB_COOKIE_TOKEN_RAW_LEN) d).
  assert (Hr : zlen raw <= 16) by (unfold zlen, raw; rewrite length_take; change (Z.to_nat LB_COOKIE_TOKEN_RAW_LEN) with 16%nat; lia). rewrite b64_writes by (change (zlen []) with 0; unfold LB_COOKIE_TOKEN_MAX; lia). cbn [app].
  pose proof (b64_text_length raw). destruct (zlen (b64_text raw) >? 0) eqn:E; [|done]. intros [= <-]. split_and!; [lia|intros Hn; by rewrite Hn in E|apply b64_text_chars].
Qed.

Lemma match_fold token secret w l m : zlen token <= LB_COOKIE_TOKEN_MAX → Forall (λ i, 0 <= i < n_eps w ∧ i < MAX_PROXY_EP) l →
  let tok i := match l7_cookie_member_id (xip (zget (w_eps w) i)) (xport (zget (w_eps w) i)) 64 with Some mid => l7_cookie_derive_token hmac mid secret LB_COOKIE_TOKEN_MAX | None => None end in
  let r := foldl (match_ep hmac token secret w) m l in
  (r = m ∧ ∀ i, i ∈ l → zget (bp_inv (w_b w)) i = 0 → tok i ≠ Some token) ∨ (r ∈ l ∧ cookie_live w r ∧ tok r = Some token).
Proof.
  intros Ht Hl tok. revert m. induction Hl as [|i l Hi Hl IH]; intros m; cbn zeta; cbn [foldl].
  { left. split; [done|]. intros i Hi. by apply not_elem_of_nil in Hi. }
  assert (Hm : (match_ep hmac token secret w m i = m ∧ (zget (bp_inv (w_b w)) i = 0 → tok i ≠ Some token)) ∨ (match_ep hmac token secret w m i = i ∧ cookie_live w i ∧ tok i = Some token)).
  { unfold match_ep, tok. destruct (Z.eqb_spec (zget (bp_inv (w_b w)) i) 0) as [Hv|Hv]; cbn [negb]; [|by left]. destruct (l7_cookie_member_id _ _ _) as [mid|]; [|by left]. destruct (l7_cookie_derive_token hmac mid secret _) as [cand|] eqn:Ec; [|by left].
    destruct (l7_cookie_token_eq_ct token cand) eqn:Ee.
    - right. apply token_eq_ct in Ee as ->; [|done|apply token_fits in Ec as [? _]; unfold LB_COOKIE_TOKEN_MAX; lia]. split; [done|]. split; [|done]. by split; [|split]; apply Hi || done.
    - left. split; [done|]. intros _ [= ->]. rewrite (proj2 (token_eq_ct token token ltac:(done) ltac:(done)) eq_refl) in Ee. done. }
  destruct (IH (match_ep hmac token secret w m i)) as [[Hr Hn]|(Hr & Hlv & Htk)].
  - destruct Hm as [[Hm Hno]|(Hm & Hlv & Htk)].
    + left. split; [congruence|]. intros j Hj. apply elem_of_cons in Hj as [->|Hj]; [done|by apply Hn].
    + right. rewrite Hr, Hm. split; [left|done].
  - right. split; [by right|done].
Qed.

End named.

Section match_named.
Context (hmac : bytes → bytes → option bytes).

Lemma id_some ip port : fits32 ip → fits32 port → l7_cookie_member_id ip port 64 = Some (print_u32 ip ++ lit ":" ++ print_u32 port).
Proof.
  intros H1 H2. unfold l7_cookie_member_id. rewrite (proj2 (Z.ltb_lt _ _)); [done|]. rewrite !zlen_app. pose proof (print_length ip). pose proof (print_length port). change (zlen (lit ":")) with 1. lia.
Qed.

(** A token names a member in service whose token it is; it misses exactly when it
    is nobody's. *)
Lemma node_match_names key w token : zlen token <= LB_COOKIE_TOKEN_MAX →
  let r := l7_cookie_node_match hmac key w token in
  (r = L7_COOKIE_MISS ∧ ∀ i, cookie_live w i → l7_cookie_node_token_for_ep hmac key w i LB_COOKIE_TOKEN_MAX ≠ Some token) ∨
  (cookie_live w r ∧ l7_cookie_node_token_for_ep hmac key w r LB_COOKIE_TOKEN_MAX = Some token).
Proof.
  intros Ht. cbn zeta. unfold l7_cookie_node_match.
  assert (Htok : ∀ i, cookie_live w i → l7_cookie_node_token_for_ep hmac key w i LB_COOKIE_TOKEN_MAX = match l7_cookie_node_vip_secret hmac key with Some secret => match l7_cookie_member_id (xip (zget (w_eps w) i)) (xport (zget (w_eps w) i)) 64 with Some mid => l7_cookie_derive_token hmac mid secret LB_COOKIE_TOKEN_MAX | None => None end | None => None end).
  { intros i (Hi & _ & _). unfold l7_cookie_node_token_for_ep. rewrite (proj2 (Z.ltb_ge _ _)), Z.geb_leb, (proj2 (Z.leb_gt _ _)) by lia. done. }
  destruct (Z.eqb_spec (zlen token) 0) as [Hz|Hz].
  { left. split; [done|]. intros i Hi. rewrite Htok by done. destruct (l7_cookie_node_vip_secret hmac key); [|done]. destruct (l7_cookie_member_id _ _ _); [|done]. intros H. apply token_fits in H as (_ & Hn & _). destruct token; [done|]. rewrite zlen_cons in Hz. pose proof (zlen_nonneg token). lia. }
  destruct (l7_cookie_node_vip_secret hmac key) as [secret|]; [|left; split; [done|]; intros i Hi; by rewrite Htok].
  unfold l7_cookie_match_token_eps. rewrite (proj2 (Z.eqb_neq _ _) Hz). cbn [orb]. set (n := Z.min (n_eps w) MAX_PROXY_EP). destruct (Z.leb_spec n 0) as [Hn|Hn].
  { left. split; [done|]. intros i (Hi & Hi2 & _). unfold n in Hn. unfold MAX_PROXY_EP in *. lia. }
  destruct (match_fold hmac token secret w (zseq n) L7_COOKIE_MISS Ht) as [[Hr Hno]|(Hr & Hl & He)].
  { apply list.Forall_forall. intros i Hi. rewrite zseq_in in Hi. unfold n in Hi. lia. }
  - left. split; [done|]. intros i Hi. rewrite Htok by done. apply Hno; [|apply Hi]. rewrite zseq_in. unfold n. destruct Hi as (? & ? & _). lia.
  - right. split; [done|]. by rewrite Htok.
Qed.

(** The digests the library makes of the members in service differ where their
    addresses do, in the part a token keeps. *)
Definition distinct_macs (secret : bytes) (w : wpool) : Prop := ∀ i j, cookie_live w i → cookie_live w j →
  let id k := print_u32 (xip (zget (w_eps w) k)) ++ lit ":" ++ print_u32 (xport (zget (w_eps w) k)) in
  ∀ d d', hmac secret (id i) = Some d → hmac secret (id j) = Some d' → take (Z.to_nat LB_COOKIE_TOKEN_RAW_LEN) d = take (Z.to_nat LB_COOKIE_TOKEN_RAW_LEN) d' → id i = id j.

Lemma print_inj n m : fits32 n → fits32 m → print_u32 n = print_u32 m → n = m.
Proof. intros Hn Hm H. apply strtol_print in Hn, Hm. rewrite H in Hn. rewrite Hm in Hn. by injection Hn. Qed.

Lemma print_no_colon n : 0 <= n → Forall (λ c, c ≠ ":"%char) (print_u32 n).
Proof.
  intros Hn. unfold print_u32. assert (G : ∀ k n acc, 0 <= n → Forall (λ c, c ≠ ":"%char) acc → Forall (λ c, c ≠ ":"%char) (dec_digits k n acc)); [|by apply G].
  clear. intros k. induction k as [|k IH]; intros n acc Hn Ha; [done|]. cbn [dec_digits]. assert (Hc : Forall (λ c, c ≠ ":"%char) (digit_char (n mod 10) :: acc)).
  { constructor; [|done]. pose proof (Z.mod_pos_bound n 10 ltac:(lia)) as Hm. intros E. apply (f_equal digit_of) in E. rewrite digit_of_char in E by lia. done. }
  case_match; [done|]. apply IH; [apply Z.div_pos; lia|done].
Qed.

Lemma split_colon (a b a' b' : bytes) : Forall (λ c, c ≠ ":"%char) a → Forall (λ c, c ≠ ":"%char) a' → a ++ lit ":" ++ b = a' ++ lit ":" ++ b' → a = a' ∧ b = b'.
Proof.
  intros Ha. revert a'. induction Ha as [|c a Hc Ha IH]; intros a' Ha' H; destruct Ha' as [|c' a' Hc' Ha'].
  - injection H as ->. done.
  - injection H as <- _. done.
  - injection H as -> _. done.
  - injection H as <- H. destruct (IH a' Ha' H) as [-> ->]. done.
Qed.

(** Equal tokens are of equal addresses. *)
Lemma tokens_distinct key secret w i j t : l7_cookie_node_vip_secret hmac key = Some secret → distinct_macs secret w → cookie_live w i → cookie_live w j →
  (∀ k, cookie_live w k → fits32 (xip (zget (w_eps w) k)) ∧ fits32 (xport (zget (w_eps w) k))) →
  l7_cookie_node_token_for_ep hmac key w i LB_COOKIE_TOKEN_MAX = Some t → l7_cookie_node_token_for_ep hmac key w j LB_COOKIE_TOKEN_MAX = Some t →
  xip (zget (w_eps w) i) = xip (zget (w_eps w) j) ∧ xport (zget (w_eps w) i) = xport (zget (w_eps w) j).
Proof.
  intros Hs Hd Hi Hj Hf Ti Tj. destruct (Hf i Hi) as [Fi1 Fi2]. destruct (Hf j Hj) as [Fj1 Fj2]. 
  assert (Hx : ∀ k, cookie_live w k → l7_cookie_node_token_for_ep hmac key w k LB_COOKIE_TOKEN_MAX = Some t → ∃ d, hmac secret (print_u32 (xip (zget (w_eps w) k)) ++ lit ":" ++ print_u32 (xport (zget (w_eps w) k))) = Some d ∧ take (Z.to_nat LB_COOKIE_TOKEN_RAW_LEN) d = b64_decode t).
  { intros k Hk. destruct (Hf k Hk) as [F1 F2]. unfold l7_cookie_node_token_for_ep. case_match; [done|]. rewrite Hs, id_some by done. unfold l7_cookie_derive_token. change (LB_COOKIE_TOKEN_MAX <? LB_COOKIE_TOKEN_MAX) with false. cbn iota. unfold hmac_sha256.
    destruct (hmac secret _) as [d|]; [|done]. destruct (zlen d =? SHA256_DIGEST_LENGTH); [|done]. cbn zeta. case_match; [|done]. intros [= <-]. exists d. split; [done|]. symmetry. apply b64url_decodes.
    unfold zlen. rewrite length_take. change (Z.to_nat LB_COOKIE_TOKEN_RAW_LEN) with 16%nat. unfold LB_COOKIE_TOKEN_MAX. lia. }
  destruct (Hx i Hi Ti) as (d & Hd1 & Hd2). destruct (Hx j Hj Tj) as (d' & Hd1' & Hd2'). specialize (Hd i j Hi Hj d d' Hd1 Hd1' ltac:(congruence)). cbn zeta in Hd.
  apply split_colon in Hd as [E1 E2]; [|apply print_no_colon; apply Fi1|apply print_no_colon; apply Fj1]. split; by apply print_inj.
Qed.

End match_named.

(** ** Reading a cookie back *)

(** Text before a cookie: none, or it ends in a blank, as a browser writes it *)
Definition blank_end (l : bytes) : Prop := l = [] ∨ last l = Some " "%char.

Lemma find_after p pre r : Forall (λ c, c ≠ " "%char) p → blank_end pre → find_sub p pre = None → find_sub p (pre ++ p ++ r) = Some (length pre).
Proof.
  intros Hp. induction pre as [|a pre IH]; intros Hb Hn; [exact (find_sub_hit p r)|].
  assert (Hl : last (a :: pre) = Some " "%char) by (by destruct Hb).
  assert (Hf : is_prefix p (a :: pre) = false ∧ find_sub p pre = None) by (cbn [find_sub] in Hn; destruct (is_prefix p (a :: pre)); [done|split; [done|]; by destruct (find_sub p pre)]). destruct Hf as [Hf Hn'].
  assert (Hq : is_prefix p ((a :: pre) ++ p ++ r) = false).
  { unfold is_prefix in *. apply bool_decide_eq_false in Hf. apply bool_decide_eq_false. intros E. destruct (decide (length p <= length (a :: pre))%nat) as [Hle|Hgt].
    - apply Hf. rewrite <- E at 2. by rewrite take_app_le.
    - rewrite take_app_ge in E by lia. rewrite last_lookup in Hl. rewrite list.Forall_forall in Hp. apply (Hp " "%char); [|done]. rewrite <- E. apply elem_of_app. left. by eapply list_elem_of_lookup_2. }
  change ((a :: pre) ++ p ++ r) with (a :: (pre ++ p ++ r)) in *. rewrite find_sub_skip by done. rewrite IH; [done| |done]. destruct pre as [|b pre]; [by left|right; exact Hl].
Qed.

Lemma until_stops stop t post : forallb (λ c, negb (existsb (Ascii.eqb c) stop)) t = true → (post = [] ∨ ∃ c q, post = c :: q ∧ existsb (Ascii.eqb c) stop = true) → until stop (t ++ post) = t.
Proof.
  intros Ht Hpost. induction t as [|c t IH]; cbn [app].
  - destruct Hpost as [->|(c & q & -> & Hc)]; [done|]. cbn [until]. by rewrite Hc.
  - cbn [forallb] in Ht. apply andb_true_iff in Ht as [Hc Ht]. cbn [until]. apply negb_true_iff in Hc. rewrite Hc. f_equal. by apply IH.
Qed.

Lemma token_stops t : forallb token_char t = true → forallb (λ c, negb (existsb (Ascii.eqb c) (lit ";" ++ CRLF ++ lit " "))) t = true.
Proof.
  intros H. rewrite List.forallb_forall in *. intros c Hc. specialize (H c Hc). unfold token_char in H. apply existsb_exists in H as (x & Hx & Ex). apply Ascii.eqb_eq in Ex as ->. clear Hc t.
  revert x Hx. apply List.Forall_forall. vm_compute. repeat (constructor; [done|]). constructor.
Qed.

(** What may follow the value *)
Definition cookie_end (post : bytes) : Prop := post = [] ∨ ∃ q, post = ";"%char :: q.

(** The cookie header a client sends back: other cookies may come before it. *)
Definition presents (req : l7_req) (t : bytes) : Prop := ∃ pre post, find_header (lit "Cookie") (l7_headers req) = Some (pre ++ LB_COOKIE_NAME ++ lit "=" ++ t ++ post) ∧
  zlen (pre ++ LB_COOKIE_NAME ++ lit "=" ++ t ++ post) < L7_HDR_VALUE_MAX ∧ blank_end pre ∧ find_sub (LB_COOKIE_NAME ++ lit "=") (lit "Cookie: " ++ pre) = None ∧ cookie_end post.

Lemma presented_read req t : presents req t → t ≠ [] → zlen t <= 32 → forallb token_char t = true → l7_cookie_read_presented req LB_COOKIE_TOKEN_MAX = Some t.
Proof.
  intros (pre & post & Hh & Hl & Hb & Hn & He) Ht Hs Hc. unfold l7_cookie_read_presented. rewrite Hh. set (v := pre ++ LB_COOKIE_NAME ++ lit "=" ++ t ++ post) in *.
  assert (Hf : fit (L7_HDR_VALUE_MAX + 16) (lit "Cookie: " ++ v) = lit "Cookie: " ++ v).
  { unfold fit. apply take_ge. unfold zlen, L7_HDR_VALUE_MAX in *. rewrite length_app. change (length (lit "Cookie: ")) with 8%nat. lia. }
  rewrite Hf. unfold extract_cookie_by_name. change (fit 256 (LB_COOKIE_NAME ++ lit "=")) with (LB_COOKIE_NAME ++ lit "="). change (lit "Cookie: " ++ v) with (lit "Cookie:" ++ lit " " ++ v) at 1. rewrite find_sub_hit. rewrite drop_0.
  unfold v, after_sub. rewrite (app_assoc LB_COOKIE_NAME), (app_assoc (lit "Cookie: ")).
  rewrite find_after; [| |destruct Hb as [->|Hb]; right; [done|]|done].
  - cbn [fmap option_fmap option_map]. rewrite (app_assoc (lit "Cookie: " ++ pre)), <- (length_app (lit "Cookie: " ++ pre)), drop_app_length. rewrite until_stops; [|by apply token_stops|destruct He as [->|[q ->]]; [by left|right; by eexists _, _]].
    destruct t as [|c t]; [done|]. f_equal. unfold fit. apply take_ge. unfold zlen in Hs. change (Z.to_nat (LB_COOKIE_TOKEN_MAX - 1)) with 39%nat. lia.
  - vm_compute. repeat (constructor; [done|]). constructor.
  - rewrite last_app, Hb. done.
Qed.

(** ** What the connection's store holds of a request *)

Definition capture (h : bytes * bytes) : bytes * bytes := (cstr (fit L7_HDR_NAME_MAX h.1), cstr (fit L7_HDR_VALUE_MAX h.2)).

Lemma captured_app hs : ∀ req hs1 hs2, hs = hs1 ++ hs2 → zlen (l7_headers req) + zlen hs1 <= L7_MAX_CAPTURED_HEADERS →
  ∃ rest, l7_headers (h2_captured hs req) = l7_headers req ++ (capture <$> hs1) ++ rest.
Proof.
  induction hs as [|h hs IH]; intros req hs1 hs2 E Hl.
  { destruct hs1; [|done]. exists []. cbn. by rewrite app_nil_r. }
  unfold h2_captured. cbn [foldl]. fold (h2_captured hs (l7_store_header_n h.1 h.2 hops_zero req).2).
  unfold l7_store_header_n at 1. destruct hs1 as [|h1 hs1].
  - destruct (zlen (l7_headers req) >=? L7_MAX_CAPTURED_HEADERS) eqn:Ef; cbn [snd].
    + destruct (IH req [] hs eq_refl Hl) as [rest H]. by exists rest.
    + destruct (IH (req <| l7_headers ::= (λ l, l ++ [capture h]) |>) [] hs eq_refl) as [rest H]; [cbn; rewrite zlen_app; change (zlen [_]) with 1; change (zlen []) with 0; zbool; lia|].
      exists (capture h :: rest). etransitivity; [exact H|]. cbn. by rewrite <- app_assoc.
  - injection E as <- ->. rewrite zlen_cons in Hl. pose proof (zlen_nonneg hs1). rewrite Z.geb_leb, (proj2 (Z.leb_gt _ _)) by lia. cbn [snd].
    destruct (IH (req <| l7_headers ::= (λ l, l ++ [capture h]) |>) hs1 hs2 eq_refl) as [rest Hr]; [cbn; rewrite zlen_app; change (zlen [_]) with 1; lia|].
    exists rest. etransitivity; [exact Hr|]. cbn. by rewrite <- app_assoc.
Qed.

(** A client's request that presents the cookie, as its headers come: no earlier
    header of that name, among the first 32, in a value short enough to be kept whole;
    other cookies may come before it. *)
Definition sends_cookie (hs : list (bytes * bytes)) (t : bytes) : Prop :=
  ∃ (hs1 : list (bytes * bytes)) (pre post : bytes) (hs2 : list (bytes * bytes)), let v : bytes := pre ++ LB_COOKIE_NAME ++ lit "=" ++ t ++ post in
  hs = hs1 ++ (lit "cookie", v) :: hs2 ∧ zlen hs1 < L7_MAX_CAPTURED_HEADERS ∧ Forall (λ h, name_eq_ci (cstr (fit L7_HDR_NAME_MAX h.1)) (lit "Cookie") = false) hs1 ∧
  zlen v < L7_HDR_VALUE_MAX ∧ Forall (λ c, c ≠ NUL) v ∧ blank_end pre ∧ find_sub (LB_COOKIE_NAME ++ lit "=") (lit "Cookie: " ++ pre) = None ∧ cookie_end post.

Lemma find_header_skip name l1 l2 : Forall (λ h, name_eq_ci h.1 name = false) l1 → find_header name (l1 ++ l2) = find_header name l2.
Proof. unfold find_header. induction 1 as [|h l1 Hh _ IH]; [done|]. cbn. by rewrite Hh. Qed.

Lemma sent_presents hs t req : l7_headers req = [] → sends_cookie hs t → presents (h2_captured hs req) t.
Proof.
  intros Hnew (hs1 & pre & post & hs2 & -> & Hl & Hn1 & Hv & Hz & Hb & Hn & He). cbn zeta in *. set (v := pre ++ LB_COOKIE_NAME ++ lit "=" ++ t ++ post) in *. exists pre, post. fold v. split_and!; try done.
  match goal with |- context [h2_captured ?l req] => destruct (captured_app l req (hs1 ++ [(lit "cookie", v)]) hs2) as [rest Hc] end; [by rewrite <- app_assoc|rewrite Hnew, zlen_app, zlen_cons; unfold zlen in *; cbn [length]; lia|].
  rewrite Hc, Hnew, fmap_app. cbn [app]. rewrite <- app_assoc, find_header_skip.
  - unfold find_header. cbn [fmap list_fmap app List.find]. change (name_eq_ci (capture (lit "cookie", v)).1 (lit "Cookie")) with true. cbn.
    unfold fit. rewrite take_ge by (unfold zlen, L7_HDR_VALUE_MAX in *; lia). by rewrite cstr_plain.
  - apply Forall_fmap. eapply Forall_impl; [exact Hn1|]. by intros [].
Qed.

(** ** A client comes back *)

Section back.
Context (hmac : bytes → bytes → option bytes).
(** The library answers, with a digest of its length. *)
Hypothesis hmac_answers : ∀ key msg, ∃ d, hmac key msg = Some d ∧ zlen d = SHA256_DIGEST_LENGTH.
Context {regex_t : Type} (regexec : regex_t → bytes → bool) (have_http_trace : bool).

Lemma hmac_sha256_answers key msg : ∃ d, hmac_sha256 hmac key msg = Some d ∧ hmac key msg = Some d ∧ zlen d = SHA256_DIGEST_LENGTH.
Proof using hmac_answers. destruct (hmac_answers key msg) as (d & H & Hl). exists d. unfold hmac_sha256. rewrite H, Hl. done. Qed.

Lemma token_made mid secret : ∃ t, l7_cookie_derive_token hmac mid secret LB_COOKIE_TOKEN_MAX = Some t.
Proof using hmac_answers.
  unfold l7_cookie_derive_token. change (LB_COOKIE_TOKEN_MAX <? LB_COOKIE_TOKEN_MAX) with false. cbn iota. destruct (hmac_sha256_answers secret mid) as (d & -> & _ & Hl). unfold lb_cookie_b64url. set (raw := take (Z.to_nat LB_COOKIE_TOKEN_RAW_LEN) d).
  assert (Hr : zlen raw = 16) by (unfold zlen, raw, SHA256_DIGEST_LENGTH in *; rewrite length_take; change (Z.to_nat LB_COOKIE_TOKEN_RAW_LEN) with 16%nat; lia). rewrite b64_writes by (change (zlen []) with 0; unfold LB_COOKIE_TOKEN_MAX; lia). cbn [app].
  pose proof (b64_text_length raw). eexists. destruct (zlen (b64_text raw) >? 0) eqn:E; [done|lia].
Qed.

Lemma token_no_break t : forallb token_char t = true → l7_hdr_field_has_break t = false.
Proof.
  intros H. apply token_stops in H. unfold l7_hdr_field_has_break. apply not_true_iff_false. intros Hb. apply existsb_exists in Hb as (c & Hc & Hb). rewrite List.forallb_forall in H. specialize (H c Hc). apply negb_true_iff in H.
  apply orb_true_iff in Hb as [Hb|Hb]; apply Ascii.eqb_eq in Hb as ->; vm_compute in H; done.
Qed.

Lemma set_cookie_length t is_ssl : zlen t <= 32 → zlen (set_cookie_line t is_ssl) <= 80.
Proof.
  intros Ht. unfold set_cookie_line. rewrite !zlen_app. change (zlen LB_COOKIE_NAME) with 15. change (zlen (lit "=")) with 1. change (zlen (lit "; Path=/; HttpOnly")) with 18.
  destruct is_ssl; [change (zlen (lit "; Secure")) with 8|change (zlen []) with 0]; lia.
Qed.

Lemma set_cookie_spliced first lines body bufsize t is_ssl : zlen t <= 32 → forallb token_char t = true → Forall line_ok (first :: lines) → head_size first lines body + 100 < bufsize →
  let line := set_cookie_line t is_ssl in zlen line < L7_HDR_VALUE_MAX ∧
  whole_head (l7h1_splice_header (head_of (first :: lines) ++ CRLF ++ body) bufsize (lit "Set-Cookie") line).1 first (lines ++ [hdr_line (lit "Set-Cookie") line]) body.
Proof.
  intros Ht Hc Hok Hr. cbn zeta. set (line := set_cookie_line t is_ssl).
  assert (Hl : zlen line <= 80) by (by apply set_cookie_length).
  assert (Hu : l7_hdr_pair_unsafe (lit "Set-Cookie") line = false).
  { unfold l7_hdr_pair_unsafe. change ((zlen (lit "Set-Cookie") =? 0) || l7_hdr_field_has_break (lit "Set-Cookie")) with false. cbn [orb]. unfold line, set_cookie_line. rewrite !break_app, (token_no_break t Hc). by destruct is_ssl. }
  split; [unfold L7_HDR_VALUE_MAX; lia|]. rewrite splice_header_lines by done. assert (Hlen : zlen (hdr_line (lit "Set-Cookie") line) <= 92) by (unfold hdr_line; rewrite !zlen_app; change (zlen (lit "Set-Cookie")) with 10; change (zlen (lit ": ")) with 2; lia).
  unfold add_line, line_fits. rewrite Hu. change INJECT_BUF with 328. rewrite !(proj2 (Z.ltb_lt _ _)) by lia. cbn [negb andb]. split; [done|]. apply list.Forall_cons in Hok as [H1 H2]. constructor; [done|]. apply Forall_app. split; [done|]. constructor; [by apply hdr_line_ok|done].
Qed.

(** The token of an endpoint in service, and that it names it. *)
Lemma token_names (key : proxy_ent) (w : wpool) (i : Z) :
  (∀ secret, l7_cookie_node_vip_secret hmac key = Some secret → distinct_macs hmac secret w) →
  (∀ k, cookie_live w k → fits32 (xip (zget (w_eps w) k)) ∧ fits32 (xport (zget (w_eps w) k))) →
  (∀ j k, cookie_live w j → cookie_live w k → xip (zget (w_eps w) j) = xip (zget (w_eps w) k) → xport (zget (w_eps w) j) = xport (zget (w_eps w) k) → j = k) →
  cookie_live w i →
  ∃ t, l7_cookie_node_token_for_ep hmac key w i LB_COOKIE_TOKEN_MAX = Some t ∧ zlen t <= 32 ∧ t ≠ [] ∧ forallb token_char t = true ∧ l7_cookie_node_match hmac key w t = i.
Proof using hmac_answers.
  intros Hd Hf Ha Hi. pose proof Hi as (Hr & Hm & Hv). destruct (Hf i Hi) as [F1 F2].
  destruct (hmac_sha256_answers LB_COOKIE_ROOT_KEY (fit 64 (print_u32 (pe_xip key) ++ lit ":" ++ print_u32 (pe_xport key)))) as (secret & Hs & _ & _).
  change (l7_cookie_node_vip_secret hmac key = Some secret) in Hs. destruct (token_made (print_u32 (xip (zget (w_eps w) i)) ++ lit ":" ++ print_u32 (xport (zget (w_eps w) i))) secret) as [t Ht].
  assert (Htok : l7_cookie_node_token_for_ep hmac key w i LB_COOKIE_TOKEN_MAX = Some t).
  { unfold l7_cookie_node_token_for_ep. rewrite (proj2 (Z.ltb_ge _ _)), Z.geb_leb, (proj2 (Z.leb_gt _ _)) by lia. cbn [orb]. by rewrite Hs, id_some. }
  apply token_fits in Ht as (Hlt & Hnt & Hct). exists t. split_and!; try done.
  destruct (node_match_names hmac key w t) as [[_ Hno]|[Hl Hj]]; [unfold LB_COOKIE_TOKEN_MAX; lia|by destruct (Hno i Hi)|]. destruct (tokens_distinct hmac key secret w _ i t Hs (Hd secret Hs) Hl Hi Hf Hj Htok) as [E1 E2]. by apply Ha.
Qed.

(** The HTTP/1 response of an endpoint, with room for it, goes out with one line more:
    its cookie. *)
Theorem h1_response_carries_cookie (e : map_ent regex_t) pool0 (w : wpool) (i : Z) t req is_ssl bufsize buf first lines body :
  l7_cookie_node_token_for_ep hmac (m_key e) w i LB_COOKIE_TOKEN_MAX = Some t → zlen t <= 32 → forallb token_char t = true →
  0 <= i < n_eps w → has_l7_policy e = true → l7_cookie_persist_active regexec have_http_trace req e pool0 = true →
  whole_head buf first lines body → is_response buf = true → head_size first lines body + 100 < bufsize →
  whole_head (l7_inject_set_cookie_h1 hmac regexec have_http_trace req e pool0 w i is_ssl bufsize buf) first (lines ++ [hdr_line (lit "Set-Cookie") (set_cookie_line t is_ssl)]) body.
Proof.
  intros Htok Hlt Hct Hr Hpol Hact [-> Hok] Hresp Hroom. destruct (set_cookie_spliced first lines body bufsize t is_ssl Hlt Hct Hok Hroom) as [Hline Hw]. unfold l7_inject_set_cookie_h1.
  rewrite Hpol, Hact, Hresp, (proj2 (Z.ltb_ge _ _)), Z.geb_leb, (proj2 (Z.leb_gt _ _)) by lia. cbn [negb orb]. rewrite Htok. cbn zeta. rewrite Z.geb_leb, (proj2 (Z.leb_gt _ _)) by lia. exact Hw.
Qed.

(** One header added, or none for want of memory. *)
Lemma inject_one alloc m name value : name ≠ [] →
  let m' := (proxy_h2_inject_resp_headers alloc m [(name, value)]).1 in
  (rh_list m' = rh_list m ∨ rh_list m' = rh_list m ++ [(name, value)]) ∧ ((∀ k, alloc k = true) → rh_list m' = rh_list m ++ [(name, value)]).
Proof.
  intros Hn. assert (Hz : (zlen name =? 0) = false) by (destruct name; [done|]; apply Z.eqb_neq; rewrite zlen_cons; pose proof (zlen_nonneg name); lia).
  assert (G : ∀ k hs cap, let m' := (inject_each alloc k [(name, value)] hs cap 0).1 in (rh_list m' = hs ∨ rh_list m' = hs ++ [(name, value)]) ∧ ((∀ k, alloc k = true) → rh_list m' = hs ++ [(name, value)])).
  { intros k hs cap. cbn [inject_each]. rewrite Hz. split.
    - destruct (_ && negb (alloc k)); [by left|]. destruct (zlen hs >=? cap); (destruct (negb _); [by left|by right]).
    - intros Hall. rewrite !Hall. cbn [negb andb]. rewrite andb_false_r. destruct (zlen hs >=? cap); by rewrite !Hall. }
  unfold proxy_h2_inject_resp_headers. change (zlen [(name, value)] =? 0) with false. cbn iota zeta. unfold rh_list at 2 4 6. destruct (response_headers m) as [hs|]; [apply G|].
  destruct (alloc O) eqn:E0; [apply (G 1%nat [] 16)|]. split; [by left|]. intros Hall. by rewrite Hall in E0.
Qed.

(** C18. Over HTTP/2 a client comes back to the endpoint that served it. With a
    hash that tells the endpoints in service apart and no two of them at one address,
    on a listener whose policy asks for cookies: the response of endpoint [i] leaves
    with its headers and one more, the cookie, or as it was where memory runs out; and
    the first request of a later connection that presents this cookie, in a first
    cookie header of less than 256 bytes among the first 32 headers, is pinned to [i],
    unless [i]'s breaker or the request's route forbid it. (HTTP/1 sends the cookie
    too, [h1_response_carries_cookie], but does not read it; a later request of a
    connection is read by its first one's cookies, [later_cookie_unread].) *)
Theorem cookie_comes_back (e : map_ent regex_t) pool0 (w : wpool) (i : Z) req is_ssl :
  (∀ secret, l7_cookie_node_vip_secret hmac (m_key e) = Some secret → distinct_macs hmac secret w) →
  (∀ k, cookie_live w k → fits32 (xip (zget (w_eps w) k)) ∧ fits32 (xport (zget (w_eps w) k))) →
  (∀ j k, cookie_live w j → cookie_live w k → xip (zget (w_eps w) j) = xip (zget (w_eps w) k) → xport (zget (w_eps w) j) = xport (zget (w_eps w) k) → j = k) →
  cookie_live w i → has_l7_policy e = true → l7_cookie_persist_active regexec have_http_trace req e pool0 = true →
  ∃ t, (∀ alloc m, let hs := rh_list (h2_inject_set_cookie hmac regexec have_http_trace alloc req e pool0 w i is_ssl m) in
      let hs' := rh_list m ++ [(lit "set-cookie", set_cookie_line t is_ssl)] in
      (hs = rh_list m ∨ hs = hs') ∧ ((∀ k, alloc k = true) → hs = hs')) ∧
    ∀ now hs req0 f, let req' := h2_captured hs req0 in
      l7_headers req0 = [] → sends_cookie hs t → l7_cookie_persist_active regexec have_http_trace req' e pool0 = true →
      (cookie_pin hmac regexec have_http_trace now req' e pool0 f w).2 = if (is_endpoint_healthy now i (w_b w)).2 && sp_route_allows f i then i else -1.
Proof using hmac_answers.
  intros Hd Hf Ha Hi Hpol Hact. pose proof Hi as (Hr & _ & _). destruct (token_names (m_key e) w i Hd Hf Ha Hi) as (t & Htok & Hlt & Hnt & Hct & Hmatch). exists t. split.
  - intros alloc m. cbn zeta. unfold h2_inject_set_cookie. rewrite Hpol, Hact, Z.geb_leb, (proj2 (Z.leb_le _ _)), (proj2 (Z.ltb_lt _ _)) by lia. cbn [andb]. rewrite Htok. cbn zeta.
    pose proof (set_cookie_length t is_ssl Hlt). rewrite (proj2 (Z.ltb_lt _ _)) by (unfold L7_HDR_VALUE_MAX; lia). by apply inject_one.
  - intros now hs rq f req' Hnew Hs Hact'. unfold cookie_pin. rewrite Hpol, Hact'. cbn [andb]. rewrite (presented_read req' t (sent_presents hs t rq Hnew Hs) Hnt Hlt Hct), Hmatch.
    rewrite (proj2 (Z.eqb_neq _ _)), Z.geb_leb, (proj2 (Z.leb_le _ _)), (proj2 (Z.ltb_lt _ _)) by (unfold L7_COOKIE_MISS; lia). cbn [negb andb]. by destruct (is_endpoint_healthy now i (w_b w)).
Qed.

End back.

Lemma presented_length req t : l7_cookie_read_presented req LB_COOKIE_TOKEN_MAX = Some t → zlen t <= LB_COOKIE_TOKEN_MAX.
Proof.
  unfold l7_cookie_read_presented, extract_cookie_by_name. destruct (find_header _ _); [|done]. destruct (find_sub _ _); [|done]. destruct (after_sub _ _); [|done]. destruct (until _ _) as [|c l]; [done|]. intros [= <-].
  unfold fit, zlen. rewrite length_take. change (Z.to_nat (LB_COOKIE_TOKEN_MAX - 1)) with 39%nat. unfold LB_COOKIE_TOKEN_MAX. lia.
Qed.

(** A request is sent by its cookie only to an endpoint in service whose token it
    presents: a forged or stale one changes nothing. *)
Theorem pinned_by_own_token hmac {regex_t} (regexec : regex_t → bytes → bool) trace now req (e : map_ent regex_t) pool0 f w :
  let r := (cookie_pin hmac regexec trace now req e pool0 f w).2 in
  r = -1 ∨ (cookie_live w r ∧ sp_route_allows f r = true ∧ ∃ t, l7_cookie_read_presented req LB_COOKIE_TOKEN_MAX = Some t ∧ l7_cookie_node_token_for_ep hmac (m_key e) w r LB_COOKIE_TOKEN_MAX = Some t).
Proof.
  cbn zeta. unfold cookie_pin. destruct (_ && _); [|by left]. destruct (l7_cookie_read_presented req LB_COOKIE_TOKEN_MAX) as [t|] eqn:Et; [|by left].
  assert (Hl : zlen t <= LB_COOKIE_TOKEN_MAX) by (by eapply presented_length). destruct (node_match_names hmac (m_key e) w t Hl) as [[Hm _]|[Hlv Hm]]; [rewrite Hm; by left|].
  set (r := l7_cookie_node_match hmac (m_key e) w t) in *. destruct (_ && _); [|by left]. destruct (is_endpoint_healthy now r (w_b w)) as [b h]. destruct (h && sp_route_allows f r) eqn:E; [|by left]. apply andb_true_iff in E as [_ E]. right. split; [done|]. split; [done|]. by exists t.
Qed.

(** ** Examples *)

(** A stand-in for the library's hash, and a pool of two endpoints and a third that is down *)
Definition pad_hash (key msg : bytes) : option bytes := Some (take 32 (msg ++ replicate 32 NUL)).
Lemma pad_hash_answers key msg : ∃ d, pad_hash key msg = Some d ∧ zlen d = SHA256_DIGEST_LENGTH.
Proof. eexists. split; [done|]. unfold zlen, SHA256_DIGEST_LENGTH. rewrite length_take, length_app, length_replicate. lia. Qed.

Definition cookie_pool : wpool :=
  mk_wpool (mk_bpool 3 false (zrep 32 circuit_breaker_init) ([0; 0; 1] ++ zrep 29 0) None fc_state_zero [] 0) ([mk_proxy_ep 1 80 1; mk_proxy_ep 2 80 1; mk_proxy_ep 1 80 1] ++ zrep 29 (mk_proxy_ep 0 0 0)) (zrep 32 0) 0 0 false.
Definition cookie_listener : map_ent bytes :=
  mk_map_ent _ key0 false true [mk_l7_route 1 [mk_l7_match_set [cond1 L7F_PATH L7OP_PREFIX (lit "/")] 1] 1 (L7A_FORWARD (mk_l7_forward [] 0)) [] 0 1] (zrep 256 0) [].
Definition response0 : bytes := head_of [lit "HTTP/1.1 200 OK"; lit "Content-Length: 2"] ++ CRLF ++ lit "ok".
Definition request0 (cookie : bytes) : l7_req := req0 <| l7_headers := [(lit "cookie", cookie)] |>.

Lemma cookie_pool_live k : cookie_live cookie_pool k → k = 0 ∨ k = 1.
Proof. intros (Hk & _ & Hv). assert (k = 0 ∨ k = 1 ∨ k = 2) as [->|[->| ->]] by (cbn in Hk; lia); [by left|by right|done]. Qed.

Definition cookie_headers (t : bytes) : list (bytes * bytes) := [(lit ":method", lit "GET"); (lit "cookie", lit "a=b; OCTAVIA_SESSION=" ++ t); (lit "cookie", lit "c=d")].
Definition fresh_req : l7_req := req0 <| l7_headers := [] |>.

Lemma cookie_comes_back_witness :
  let t := lit "MTo4MAAAAAAAAAAAAAAAAA" in
    rh_list (h2_inject_set_cookie pad_hash sub_exec true (λ _, true) req0 cookie_listener None cookie_pool 0 true (mk_stream_mapping (Some [(lit ":status", lit "200")]) 16)) =
      [(lit ":status", lit "200"); (lit "set-cookie", lit "OCTAVIA_SESSION=MTo4MAAAAAAAAAAAAAAAAA; Path=/; HttpOnly; Secure")] ∧
    (cookie_pin pad_hash sub_exec true 0 (h2_captured (cookie_headers t) fresh_req) cookie_listener None (mk_fwd_state false 0 [] None 0) cookie_pool).2 = 0.
Proof.
  destruct (cookie_comes_back pad_hash pad_hash_answers sub_exec true cookie_listener None cookie_pool 0 req0 true) as (t & H1 & H2); [| | |vm_compute; by repeat split|done|vm_compute; reflexivity|].
  - intros secret _ i j Hi Hj. apply cookie_pool_live in Hi as [-> | ->], Hj as [-> | ->]; cbn zeta; intros d d' [= <-] [= <-] H; vm_compute in H; [done|discriminate H|discriminate H|done].
  - intros k Hk. apply cookie_pool_live in Hk as [-> | ->]; vm_compute; by repeat split.
  - intros j k Hj Hk. apply cookie_pool_live in Hj as [-> | ->], Hk as [-> | ->]; vm_compute; congruence.
  - split; [vm_compute; reflexivity|]. destruct (H1 (λ _, true) (mk_stream_mapping None 0)) as [_ H]. specialize (H (λ _, eq_refl)).
    assert (E : t = lit "MTo4MAAAAAAAAAAAAAAAAA").
    { assert (H4 : rh_list (h2_inject_set_cookie pad_hash sub_exec true (λ _, true) req0 cookie_listener None cookie_pool 0 true (mk_stream_mapping None 0)) = [(lit "set-cookie", set_cookie_line (lit "MTo4MAAAAAAAAAAAAAAAAA") true)]) by (vm_compute; reflexivity).
      rewrite H4 in H. apply (f_equal (λ l, (default ([], []) (head l)).2)) in H.
      assert (H3 : set_cookie_line (lit "MTo4MAAAAAAAAAAAAAAAAA") true = set_cookie_line t true) by exact H. unfold set_cookie_line in H3. do 2 apply app_inv_head in H3. by apply app_inv_tail in H3. }
    cbn zeta. rewrite <- E. rewrite H2; [vm_compute; reflexivity|done| |rewrite E; vm_compute; reflexivity]. rewrite E.
    exists [(lit ":method", lit "GET")], (lit "a=b; "), [], [(lit "cookie", lit "c=d")]. cbn zeta. split_and!; try (vm_compute; reflexivity); [repeat constructor| |by right|by left].
    vm_compute. repeat (constructor; [done|]). constructor.
Defined.

(** The store belongs to the connection and nothing empties it between its requests:
    a cookie the client was given by the first response is not read on its next
    request when the first one had a cookie header of its own. *)
Example later_cookie_unread :
  let first := h2_captured [(lit ":method", lit "GET"); (lit "cookie", lit "c=d")] fresh_req in
  let second := h2_captured [(lit ":method", lit "GET"); (lit "cookie", lit "OCTAVIA_SESSION=MTo4MAAAAAAAAAAAAAAAAA")] first in
  l7_cookie_read_presented second LB_COOKIE_TOKEN_MAX = None.
Proof. vm_compute. reflexivity. Qed.

(** The HSTS edit strips the backend's own line before it knows that its own has
    room; when it has not, it answers the old length for the shorter message. *)
Example hsts_no_room_answers_old_length :
  let buf := head_of [lit "HTTP/1.1 200 OK"; lit "Strict-Transport-Security: max-age=1"; lit "A: b"] ++ CRLF in
  let '(out, len) := l7_inject_hsts_h1 true true 31536000 true true (zlen buf + 8) buf in
  out = head_of [lit "HTTP/1.1 200 OK"; lit "A: b"] ++ CRLF ∧ len = zlen out + 38.
Proof. vm_compute. split; reflexivity. Qed.
