(* ===== verification/KTypes.v ===== *)
(** * Kernel datapath: data model (src/common/llb_dp_mdi.h, src/common/llb_dpapi.h)

    What the eBPF programs pass from stage to stage (struct xfi, the fields the
    modelled stages read or write), and the keys and values of the connection
    table, the NAT rules and their per-rule counters. Addresses are four 32-bit
    words; integers are [Z] at their width; a bit field that only says yes or no
    is a [bool]. *)

From stdpp Require Import base list gmap numbers.
From S2P Require Import Prelude.

(** ** Addresses *)

Definition xaddr : Type := Z * Z * Z * Z.
Definition xaddr_zero : xaddr := (0, 0, 0, 0).
(** addr[0], the IPv4 address *)
Definition addr4 (a : xaddr) : Z := let '(a0, _, _, _) := a in a0.
Definition set_addr4 (v : Z) (a : xaddr) : xaddr := let '(_, a1, a2, a3) := a in (v, a1, a2, a3).
Definition DP_XADDR_ISZR (a : xaddr) : bool :=
  let '(a0, a1, a2, a3) := a in (a0 =? 0) && (a1 =? 0) && (a2 =? 0) && (a3 =? 0).

Lemma iszr_spec a : DP_XADDR_ISZR a = true ↔ a = xaddr_zero.
Proof.
  destruct a as [[[a0 a1] a2] a3]. unfold DP_XADDR_ISZR, xaddr_zero. rewrite !andb_true_iff, !Z.eqb_eq. split.
  - intros [[[-> ->] ->] ->]. done.
  - intros. by simplify_eq.
Qed.

(** Byte order of a 32-bit field read raw from the wire. *)
Definition bswap32 (z : Z) : Z :=
  Z.lor (Z.lor (Z.shiftl (Z.land z 255) 24) (Z.shiftl (Z.land (Z.shiftr z 8) 255) 16))
    (Z.lor (Z.shiftl (Z.land (Z.shiftr z 16) 255) 8) (Z.land (Z.shiftr z 24) 255)).

(** ** Constants *)

Definition IPPROTO_ICMP : Z := 1.
Definition IPPROTO_TCP : Z := 6.
Definition IPPROTO_UDP : Z := 17.
Definition IPPROTO_ICMPV6 : Z := 58.
Definition IPPROTO_SCTP : Z := 132.

Definition LLB_TCP_FIN : Z := 1.
Definition LLB_TCP_SYN : Z := 2.
Definition LLB_TCP_RST : Z := 4.
Definition LLB_TCP_ACK : Z := 16.

Definition LLB_NAT_DST : Z := 1.
Definition LLB_NAT_SRC : Z := 2.
Definition LLB_NAT_HDST : Z := 4.
Definition LLB_NAT_HSRC : Z := 8.

Definition LLB_PIPE_DROP : Z := 2.
Definition LLB_PIPE_PASS : Z := 8.
Definition LLB_PIPE_RDR_PRIO : Z := 32.
Definition LLB_PIPE_RC_ACL_TRAP : Z := 2.
Definition LLB_PIPE_RC_PLERR : Z := 1024.
Definition LLB_PIPE_RC_ACT_DROP : Z := 8192.
Definition LLB_PIPE_RC_PLCT_ERR : Z := 4096.
Definition LLB_PIPE_RC_ACT_UNK : Z := 16384.
Definition LLB_PIPE_RC_POL_DRP : Z := 1048576.
Definition LLB_PIPE_CT_ERR : Z := 134217728.

Definition LLB_DP_CTM_HIT : Z := 2.
Definition LLB_DP_CTSI_HIT : Z := 256.
Definition LLB_DP_CTSO_HIT : Z := 512.
Definition LLB_DP_NAT_HIT : Z := 1024.

Definition LLB_MARK_NAT : Z := 2147483648.
Definition LLB_MARK_SRC : Z := 1073741824.
Definition LLB_MARK_SNAT_EGR : Z := 536870912.

Definition LLB_MAX_NXFRMS : Z := 32.
Definition LLB_MAX_MHOSTS : Z := 3.

Definition DP_SET_SNAT : Z := 1.
Definition DP_SET_DNAT : Z := 2.
Definition DP_SET_TOCP : Z := 6.
Definition DP_SET_NOP : Z := 12.
Definition DP_SET_RDR_PORT : Z := 16.
Definition DP_SET_DO_CT : Z := 20.
Definition DP_SET_NACT_SESS : Z := 25.

Definition has (flags bit : Z) : bool := negb (Z.land flags bit =? 0).

Inductive ct_dir : Type := CT_DIR_IN | CT_DIR_OUT.
#[export] Instance ct_dir_eq_dec : EqDecision ct_dir.
Proof. solve_decision. Defined.
Definition other_dir (d : ct_dir) : ct_dir := match d with CT_DIR_IN => CT_DIR_OUT | CT_DIR_OUT => CT_DIR_IN end.

(** ** The packet's metadata *)

(** struct xfi, by part: l2m (v6: dl_type is IPv6), l34m, tm, nm, qm, pm. *)
Record xfi := mk_xfi {
  x_v6 : bool; x_ssnid : Z;
  x_saddr : xaddr; x_daddr : xaddr; x_source : Z; x_dest : Z; x_proto : Z;
  x_tun_decap : bool; x_tunnel_id : Z; x_tun_type : Z;
  x_nxip : xaddr; x_nrip : xaddr; x_nxport : Z; x_nv6 : Z; x_dsr : Z; x_cdis : Z; x_nppv2 : Z;
  x_npmhh : Z; x_pmhh : Z * Z * Z; x_sel_aid : Z; x_ito : Z;
  x_icol : Z; x_ocol : Z; x_rpolid : Z;
  x_zone : Z; x_nf : Z; x_rule_id : Z; x_fw_rid : Z; x_dp_rec : Z; x_dp_mark : Z; x_l3_len : Z; x_tcp_flags : Z;
  x_dir : ct_dir; x_l4fin : bool; x_il4fin : bool; x_goct : bool; x_ppv2 : bool; x_oppv2 : bool; x_ippv2 : bool;
  x_phit : Z; x_pipe_act : Z; x_rcode : Z; x_oport : Z; x_l4_off : Z; x_l3_adj : Z; x_seq : Z; x_ack : Z
}.
#[export] Instance xfi_eta : RecordEta xfi := fun r =>
  mk_xfi (x_v6 r) (x_ssnid r) (x_saddr r) (x_daddr r) (x_source r) (x_dest r) (x_proto r) (x_tun_decap r) (x_tunnel_id r) (x_tun_type r)
    (x_nxip r) (x_nrip r) (x_nxport r) (x_nv6 r) (x_dsr r) (x_cdis r) (x_nppv2 r) (x_npmhh r) (x_pmhh r) (x_sel_aid r) (x_ito r)
    (x_icol r) (x_ocol r) (x_rpolid r) (x_zone r) (x_nf r) (x_rule_id r) (x_fw_rid r) (x_dp_rec r) (x_dp_mark r) (x_l3_len r) (x_tcp_flags r)
    (x_dir r) (x_l4fin r) (x_il4fin r) (x_goct r) (x_ppv2 r) (x_oppv2 r) (x_ippv2 r) (x_phit r) (x_pipe_act r) (x_rcode r) (x_oport r) (x_l4_off r) (x_l3_adj r) (x_seq r) (x_ack r).

Definition xfi_zero : xfi :=
  mk_xfi false 0 xaddr_zero xaddr_zero 0 0 0 false 0 0 xaddr_zero xaddr_zero 0 0 0 0 0 0 (0, 0, 0) 0 0 0 0 0 0 0 0 0 0 0 0 0
    CT_DIR_IN false false false false false false 0 0 0 0 0 0 0 0.

Definition LLBS_PPLN_DROPC (rc : Z) (xf : xfi) : xfi :=
  xf <| x_pipe_act ::= (λ a, Z.lor a LLB_PIPE_DROP) |> <| x_rcode ::= (λ a, Z.lor a rc) |>.

Definition LLBS_PPLN_PASSC (rc : Z) (xf : xfi) : xfi :=
  xf <| x_pipe_act ::= (λ a, Z.lor a LLB_PIPE_PASS) |> <| x_rcode ::= (λ a, Z.lor a rc) |>.

(** ** The connection table's key *)

Record dp_ct_key := mk_dp_ct_key {
  k_daddr : xaddr; k_saddr : xaddr; k_sport : Z; k_dport : Z; k_zone : Z; k_l4proto : Z; k_v6 : Z; k_ident : Z; k_type : Z
}.
#[export] Instance dp_ct_key_eta : RecordEta dp_ct_key := fun r =>
  mk_dp_ct_key (k_daddr r) (k_saddr r) (k_sport r) (k_dport r) (k_zone r) (k_l4proto r) (k_v6 r) (k_ident r) (k_type r).
#[export] Instance dp_ct_key_eq_dec : EqDecision dp_ct_key.
Proof. solve_decision. Defined.
#[export] Instance dp_ct_key_countable : Countable dp_ct_key.
Proof.
  refine (inj_countable' (λ k, (k_daddr k, k_saddr k, k_sport k, k_dport k, (k_zone k, k_l4proto k, k_v6 k, k_ident k, k_type k)))
    (λ t, let '(d, s, sp, dp, (z, l, v, i, t)) := t in mk_dp_ct_key d s sp dp z l v i t) _). by intros [].
Defined.

(** CT_KEY_GEN *)
Definition CT_KEY_GEN (xf : xfi) : dp_ct_key :=
  mk_dp_ct_key (x_daddr xf) (x_saddr xf) (x_source xf) (x_dest xf) (x_zone xf) (x_proto xf) (Z.b2z (x_v6 xf))
    (if x_tun_decap xf then 0 else x_tunnel_id xf) (if x_tun_decap xf then 0 else x_tun_type xf).

(** ** NAT information *)

(** struct mf_xfrm_inf *)
Record nxfrm_inf := mk_nxfrm_inf {
  nat_flags : Z; nx_inactive : Z; nv6 : Z; dsr : Z; mhon : Z; mhs : Z;
  nat_xip : xaddr; nat_rip : xaddr; nat_xport : Z; osp : Z; odp : Z
}.
#[export] Instance nxfrm_inf_eta : RecordEta nxfrm_inf := fun r =>
  mk_nxfrm_inf (nat_flags r) (nx_inactive r) (nv6 r) (dsr r) (mhon r) (mhs r) (nat_xip r) (nat_rip r) (nat_xport r) (osp r) (odp r).
Definition nxfrm_zero : nxfrm_inf := mk_nxfrm_inf 0 0 0 0 0 0 xaddr_zero xaddr_zero 0 0 0.
#[export] Instance nxfrm_inhabited : Inhabited nxfrm_inf := populate nxfrm_zero.

(** struct dp_nat_act *)
Record dp_nat_act := mk_dp_nat_act {
  na_xip : xaddr; na_rip : xaddr; na_xport : Z; na_fr : Z; na_doct : Z; na_rid : Z; na_aid : Z;
  na_nv6 : Z; na_dsr : Z; na_cdis : Z; na_nmh : Z; na_ppv2 : Z; na_polid : Z
}.
#[export] Instance dp_nat_act_eta : RecordEta dp_nat_act := fun r =>
  mk_dp_nat_act (na_xip r) (na_rip r) (na_xport r) (na_fr r) (na_doct r) (na_rid r) (na_aid r) (na_nv6 r) (na_dsr r) (na_cdis r) (na_nmh r) (na_ppv2 r) (na_polid r).
Definition dp_nat_act_zero : dp_nat_act := mk_dp_nat_act xaddr_zero xaddr_zero 0 0 0 0 0 0 0 0 0 0 0.

(** struct dp_nat_epacts: the counters of one rule, and its [act_type]. *)
Record dp_nat_epacts := mk_dp_nat_epacts {
  ea_act_type : Z; active_sess : list Z; conc_conns : Z; total_conns : Z; cum_bytes_in : Z; cum_bytes_out : Z
}.
#[export] Instance dp_nat_epacts_eta : RecordEta dp_nat_epacts := fun r =>
  mk_dp_nat_epacts (ea_act_type r) (active_sess r) (conc_conns r) (total_conns r) (cum_bytes_in r) (cum_bytes_out r).

(** ** Small facts *)

Lemma has_land f b : has f b = true ↔ Z.land f b ≠ 0.
Proof. unfold has. rewrite negb_true_iff, Z.eqb_neq. done. Qed.
