(* ===== verification/KPolicer.v ===== *)
(** * Kernel datapath: the policer (src/kernel/llb_kern_policer.c)

    The two-rate three-colour policer that polices ports and rules: a committed
    and an excess bucket refilled by the clock, the colour of a packet, and
    whether it is dropped. The lock is held for the whole update, so a packet is
    one step; the clock is read before the lock is taken, so a step comes with a
    reading of its own and readings need not be in order. The theorem: over any
    sequence of packets the bytes coloured green are within the committed burst and
    rate, those coloured green or yellow within the excess ones, but for what a
    reading out of order adds, and a bucket never holds more than its burst. *)

From stdpp Require Import base list gmap numbers.
From S2P Require Import Prelude KTypes.

Definition LLB_PIPE_COL_NONE : Z := 0.
Definition LLB_PIPE_COL_GREEN : Z := 1.
Definition LLB_PIPE_COL_YELLOW : Z := 2.
Definition LLB_PIPE_COL_RED : Z := 3.
Definition NSECS_IN_USEC : Z := 1000.

(** struct dp_policer_act *)
Record dp_policer_act := mk_dp_policer_act {
  color_aware : bool; drop_prio : Z; cbs : Z; ebs : Z; tok_c : Z; tok_e : Z;
  toksc_pus : Z; tokse_pus : Z; lastc_uts : Z; laste_uts : Z; drop_packets : Z; pass_packets : Z
}.
#[export] Instance dp_policer_act_eta : RecordEta dp_policer_act := fun r =>
  mk_dp_policer_act (color_aware r) (drop_prio r) (cbs r) (ebs r) (tok_c r) (tok_e r) (toksc_pus r) (tokse_pus r) (lastc_uts r) (laste_uts r) (drop_packets r) (pass_packets r).

(** The refill of a bucket of [tok] tokens, burst [bs], rate [pus], last filled at
    [last]: the tokens and the time it counts from now. *)
Definition refill (ts_now bs tok pus last : Z) : Z * Z :=
  let usecs_elapsed := u64 (ts_now - last) / NSECS_IN_USEC in
  let acc_toks := u64 (pus * usecs_elapsed) in
  if acc_toks >? 0 then
    (if bs >? tok then
       let ntoks := u32 (bs - tok) in
       if acc_toks >? ntoks then u32 (tok + ntoks) else u32 (tok + acc_toks)
     else tok, ts_now)
  else (tok, last).

Definition pol_refill (ts_now : Z) (p : dp_policer_act) : dp_policer_act :=
  let '(tc, lc) := refill ts_now (cbs p) (tok_c p) (toksc_pus p) (lastc_uts p) in
  let '(te, le) := refill ts_now (ebs p) (tok_e p) (tokse_pus p) (laste_uts p) in
  p <| tok_c := tc |> <| lastc_uts := lc |> <| tok_e := te |> <| laste_uts := le |>.

(** The colour of a packet of [inbytes], and the tokens it takes; [ret] is -1 for
    an uncoloured packet in colour-aware mode, whose [ocol] stays what it was. *)
Definition pol_colour (inbytes : Z) (xf : xfi) (p : dp_policer_act) : dp_policer_act * xfi * Z :=
  let take_e := p <| tok_e ::= (λ t, u32 (t - inbytes)) |> in
  let take_ce := take_e <| tok_c ::= (λ t, u32 (t - inbytes)) |> in
  if negb (color_aware p) then
    if tok_e p <? inbytes then (p, xf <| x_ocol := LLB_PIPE_COL_RED |>, 0)
    else if tok_c p <? inbytes then (take_e, xf <| x_ocol := LLB_PIPE_COL_YELLOW |>, 0)
    else (take_ce, xf <| x_ocol := LLB_PIPE_COL_GREEN |>, 0)
  else if x_icol xf =? LLB_PIPE_COL_NONE then (p, xf, -1)
  else if x_icol xf =? LLB_PIPE_COL_RED then (p, xf <| x_ocol := LLB_PIPE_COL_RED |>, 0)
  else if tok_e p <? inbytes then (p, xf <| x_ocol := LLB_PIPE_COL_RED |>, 0)
  else if tok_c p <? inbytes then
    (take_e, xf <| x_ocol := (if x_icol xf =? LLB_PIPE_COL_GREEN then LLB_PIPE_COL_YELLOW else x_icol xf) |>, 0)
  else (take_ce, xf <| x_ocol := x_icol xf |>, 0).

(** [pla]: what polx_map answers for the id. *)
Definition do_dp_policer (ts_now : Z) (xf : xfi) (pla : option dp_policer_act) : option dp_policer_act * xfi * Z :=
  match pla with
  | None => (None, xf, 0)
  | Some p =>
      let '(p, xf, ret) := pol_colour (x_l3_len xf) xf (pol_refill ts_now p) in
      if drop_prio p <? x_ocol xf then
        (Some (p <| drop_packets ::= (λ n, u64 (n + 1)) |>), LLBS_PPLN_DROPC LLB_PIPE_RC_POL_DRP xf, 1)
      else (Some (p <| pass_packets ::= (λ n, u64 (n + 1)) |>), xf, ret)
  end.

(** ** A sequence of packets *)

(** A packet at a time: its colour in and its length. *)
Record pkt := mk_pkt { pk_ts : Z; pk_icol : Z; pk_len : Z }.
Definition pkt_xf (k : pkt) : xfi := xfi_zero <| x_icol := pk_icol k |> <| x_l3_len := pk_len k |>.

(** The packets' colours out, whether each was dropped, and the policer after. *)
Fixpoint police (p : dp_policer_act) (ks : list pkt) : dp_policer_act * list (Z * bool) :=
  match ks with
  | [] => (p, [])
  | k :: ks =>
      match do_dp_policer (pk_ts k) (pkt_xf k) (Some p) with
      | (Some p', xf, _) => let '(p', os) := police p' ks in (p', (x_ocol xf, has (x_pipe_act xf) LLB_PIPE_DROP) :: os)
      | (None, _, _) => (p, [])
      end
  end.

(** Bytes of the packets of [ks] that [sel] picks by colour and drop. *)
Fixpoint bytes_of (sel : Z * bool → bool) (ks : list pkt) (os : list (Z * bool)) : Z :=
  match ks, os with
  | k :: ks, o :: os => (if sel o then pk_len k else 0) + bytes_of sel ks os
  | _, _ => 0
  end.

(** ** The invariant *)

(** Tokens within the bursts, at their widths, last filled no later than [hi]. *)
Record pol_ok (hi : Z) (p : dp_policer_act) : Prop := {
  po_c : 0 ≤ tok_c p ≤ cbs p ∧ cbs p < 4294967296;
  po_e : 0 ≤ tok_e p ≤ ebs p ∧ ebs p < 4294967296;
  po_rates : 0 ≤ toksc_pus p ∧ 0 ≤ tokse_pus p;
  po_last : 0 ≤ lastc_uts p ≤ hi ∧ 0 ≤ laste_uts p ≤ hi
}.

(** Packets of 16-bit lengths and 8-bit colours, with any readings of the clock. *)
Definition pkt_ok (k : pkt) : Prop := 0 ≤ pk_ts k ∧ 0 ≤ pk_icol k < 256 ∧ 0 ≤ pk_len k < 65536.

(** The latest reading, from [hi] on. *)
Definition end_ts (hi : Z) (ks : list pkt) : Z := foldl (λ h k, Z.max h (pk_ts k)) hi ks.

(** No refill in the order of the clock overflows 64 bits. *)
Definition no_wrap (p : dp_policer_act) (t : Z) : Prop :=
  t < 18446744073709551616 ∧ toksc_pus p * t < 18446744073709551616 ∧ tokse_pus p * t < 18446744073709551616.

(** What one packet can add beyond the rate: the clock is read before the lock is
    taken, so a packet may come with a reading before the latest, [hi], that was
    used; the elapsed time then wraps, fills the bucket, and sets its time back. *)
Definition late (bs pus hi ts : Z) : Z := if ts <? hi then bs + pus * ((hi - ts + 999) / 1000) else 0.

Fixpoint slip (bs pus hi : Z) (ks : list pkt) : Z :=
  match ks with
  | [] => 0
  | k :: ks => late bs pus hi (pk_ts k) + slip bs pus (Z.max hi (pk_ts k)) ks
  end.

(** Packets a colour-aware policer does not look at. *)
Definition uncoloured (aware : bool) (k : pkt) : bool := aware && (pk_icol k =? LLB_PIPE_COL_NONE).
Definition unpoliced (aware : bool) (ks : list pkt) : Z := foldr (λ k n, (if uncoloured aware k then pk_len k else 0) + n) 0 ks.

(** What a bucket may have been given by [now]: tokens and whole microseconds. *)
Lemma refill_bound now bs tok pus last :
  0 ≤ tok ≤ bs → bs < 4294967296 → 0 ≤ pus → 0 ≤ last ≤ now → now < 18446744073709551616 → pus * now < 18446744073709551616 →
  let '(tok', last') := refill now bs tok pus last in
  tok ≤ tok' ≤ bs ∧ last ≤ last' ≤ now ∧ tok' ≤ tok + pus * ((last' - last) / 1000).
Proof.
  intros Ht Hb Hp Hl Hn Hw. unfold refill, NSECS_IN_USEC. rewrite (u64_small (now - last)) by lia.
  assert (Hq : 0 ≤ (now - last) / 1000 ≤ now) by (split; [apply Z.div_pos; lia|apply Z.div_le_upper_bound; lia]).
  rewrite (u64_small (pus * _)) by nia. rewrite !Z.gtb_ltb. destruct (Z.ltb_spec 0 (pus * ((now - last) / 1000))) as [Hpos|Hz].
  - destruct (Z.ltb_spec tok bs) as [Hlt|Hge]; [|split_and!; nia].
    rewrite (u32_small (bs - tok)) by lia. destruct (Z.ltb_spec (bs - tok) (pus * ((now - last) / 1000))) as [Hc|Hc]; rewrite u32_small by lia; split_and!; lia.
  - rewrite Z.sub_diag. change (0 / 1000) with 0. lia.
Qed.

(** Whatever the reading, a bucket is at most filled. *)
Lemma refill_any now bs tok pus last :
  0 ≤ tok ≤ bs → bs < 4294967296 →
  let '(tok', last') := refill now bs tok pus last in tok ≤ tok' ≤ bs ∧ (last' = now ∨ last' = last).
Proof.
  intros Ht Hb. unfold refill. set (acc := u64 (pus * _)). assert (0 ≤ acc) by (unfold acc, u64; apply Z.mod_pos_bound; lia).
  clearbody acc. rewrite !Z.gtb_ltb. destruct (Z.ltb_spec 0 acc); [|lia]. destruct (Z.ltb_spec tok bs); [|lia].
  rewrite (u32_small (bs - tok)) by lia. destruct (Z.ltb_spec (bs - tok) acc); rewrite u32_small by lia; lia.
Qed.

Lemma late_nonneg bs pus hi ts : 0 ≤ bs → 0 ≤ pus → 0 ≤ late bs pus hi ts.
Proof. intros. unfold late. destruct (Z.ltb_spec ts hi); [|lia]. assert (0 ≤ (hi - ts + 999) / 1000) by (apply Z.div_pos; lia). nia. Qed.

(** One refill, in or out of the order of the clock. *)
Lemma refill_step hi now bs tok pus last :
  0 ≤ tok ≤ bs → bs < 4294967296 → 0 ≤ pus → 0 ≤ last ≤ hi → 0 ≤ now →
  Z.max hi now < 18446744073709551616 → pus * Z.max hi now < 18446744073709551616 →
  let '(tok', last') := refill now bs tok pus last in
  tok ≤ tok' ≤ bs ∧ 0 ≤ last' ≤ Z.max hi now ∧ tok' ≤ tok + pus * ((last' - last) / 1000) + late bs pus hi now.
Proof.
  intros Ht Hb Hp Hl Hnow Hm Hw. unfold late. destruct (Z.ltb_spec now hi) as [Hlt|Hge].
  - pose proof (refill_any now bs tok pus last Ht Hb) as H. destruct (refill _ _ _ _ _) as [tok' last']. destruct H as [H [-> | ->]].
    + assert (0 ≤ (now - last) / 1000 + (hi - now + 999) / 1000) by (Z.to_euclidean_division_equations; lia). split_and!; [lia..|nia].
    + rewrite Z.sub_diag. change (0 / 1000) with 0. assert (0 ≤ (hi - now + 999) / 1000) by (apply Z.div_pos; lia). split_and!; [lia..|nia].
  - rewrite Z.max_r in * by lia. pose proof (refill_bound now bs tok pus last Ht Hb Hp ltac:(lia) Hm Hw) as H.
    destruct (refill _ _ _ _ _) as [tok' last']. lia.
Qed.

(** Whole microseconds of two spans add up to no more than those of the whole. *)
Lemma usecs_add a b c : (b - a) / 1000 + (c - b) / 1000 ≤ (c - a) / 1000.
Proof. Z.to_euclidean_division_equations; lia. Qed.

Definition green (o : Z * bool) : bool := fst o =? LLB_PIPE_COL_GREEN.
Definition conforming (o : Z * bool) : bool := (fst o =? LLB_PIPE_COL_GREEN) || (fst o =? LLB_PIPE_COL_YELLOW).
Definition passed (o : Z * bool) : bool := negb (snd o).

(** Every outcome's drop is its colour against the priority, and only a packet the
    policer does not look at has no colour. *)
Definition drops_by (aware : bool) (prio : Z) (k : pkt) (o : Z * bool) : Prop :=
  snd o = (prio <? fst o) ∧ 0 ≤ fst o ∧ (fst o = 0 → uncoloured aware k = true).

(** Everything but the buckets and the counts. *)
Definition pol_same (p p' : dp_policer_act) : Prop :=
  color_aware p' = color_aware p ∧ drop_prio p' = drop_prio p ∧ cbs p' = cbs p ∧ ebs p' = ebs p ∧ toksc_pus p' = toksc_pus p ∧ tokse_pus p' = tokse_pus p.

(** One packet. *)
Lemma police_one hi p k :
  pol_ok hi p → pkt_ok k → no_wrap p (Z.max hi (pk_ts k)) →
  ∃ p' xf r, do_dp_policer (pk_ts k) (pkt_xf k) (Some p) = (Some p', xf, r) ∧ pol_ok (Z.max hi (pk_ts k)) p' ∧ pol_same p p' ∧
    (if green (x_ocol xf, false) then pk_len k else 0) + tok_c p' ≤ tok_c p + toksc_pus p * ((lastc_uts p' - lastc_uts p) / 1000) + late (cbs p) (toksc_pus p) hi (pk_ts k) ∧
    (if conforming (x_ocol xf, false) then pk_len k else 0) + tok_e p' ≤ tok_e p + tokse_pus p * ((laste_uts p' - laste_uts p) / 1000) + late (ebs p) (tokse_pus p) hi (pk_ts k) ∧
    drops_by (color_aware p) (drop_prio p) k (x_ocol xf, has (x_pipe_act xf) LLB_PIPE_DROP).
Proof.
  intros [Hc He [Hrc Hre] [Hlc Hle]] (Hnow & Hcol & Hlen) (Hw & Hwc & Hwe). unfold do_dp_policer, pol_refill.
  pose proof (refill_step hi (pk_ts k) (cbs p) (tok_c p) (toksc_pus p) (lastc_uts p)) as Hfc. pose proof (refill_step hi (pk_ts k) (ebs p) (tok_e p) (tokse_pus p) (laste_uts p)) as Hfe.
  destruct (refill _ (cbs p) _ _ _) as [tc lc]. destruct (refill _ (ebs p) _ _ _) as [te le].
  destruct Hfc as (Htc & Hlc' & Hbc); [lia..|]. destruct Hfe as (Hte & Hle' & Hbe); [lia..|].
  revert Hbc Hbe. generalize (late (cbs p) (toksc_pus p) hi (pk_ts k)) (late (ebs p) (tokse_pus p) hi (pk_ts k)). intros sc se Hbc Hbe.
  unfold pol_colour, drops_by, uncoloured. cbn [color_aware tok_e tok_c field_set x_icol x_l3_len pkt_xf]. unfold LLB_PIPE_COL_NONE, LLB_PIPE_COL_RED, LLB_PIPE_COL_YELLOW, LLB_PIPE_COL_GREEN.
  destruct (color_aware p) eqn:Ea; cbn -[Z.div Z.mul Z.land Z.lor].
  - destruct (Z.eqb_spec (pk_icol k) 0) as [Hz|Hnz]; [|destruct (Z.eqb_spec (pk_icol k) 3) as [Hr|Hnr];
      [|destruct (Z.ltb_spec te (pk_len k)) as [Hov|Hfit]; [|destruct (Z.ltb_spec tc (pk_len k)) as [Hovc|Hfitc]; [destruct (Z.eqb_spec (pk_icol k) 1) as [Hg|Hng]|]]]];
      cbn -[Z.div Z.mul Z.land Z.lor]; (destruct (drop_prio p <? _) eqn:Ed; eexists _, _, _; (split; [reflexivity|]); unfold pol_same; cbn -[Z.div Z.mul Z.land Z.lor]; rewrite ?u32_small by lia;
        (split; [split; cbn; lia|]); unfold green, conforming, LLB_PIPE_COL_GREEN, LLB_PIPE_COL_YELLOW; cbn [fst snd];
        split_and!; try done; try lia; case_tests; zbool; lia).
  - destruct (Z.ltb_spec te (pk_len k)) as [Hov|Hfit]; [|destruct (Z.ltb_spec tc (pk_len k)) as [Hovc|Hfitc]];
      cbn -[Z.div Z.mul Z.land Z.lor]; (destruct (drop_prio p <? _) eqn:Ed; eexists _, _, _; (split; [reflexivity|]); unfold pol_same; cbn -[Z.div Z.mul Z.land Z.lor]; rewrite ?u32_small by lia;
        (split; [split; cbn; lia|]); unfold green, conforming, LLB_PIPE_COL_GREEN, LLB_PIPE_COL_YELLOW; cbn [fst snd];
        split_and!; try done; try lia; case_tests; zbool; lia).
Qed.

Lemma end_ts_ge hi ks : hi ≤ end_ts hi ks.
Proof. unfold end_ts. revert hi. induction ks as [|k ks IH]; intros hi; cbn; [lia|]. specialize (IH (Z.max hi (pk_ts k))). lia. Qed.

Lemma police_run hi p ks :
  pol_ok hi p → Forall pkt_ok ks → no_wrap p (end_ts hi ks) →
  let '(p', os) := police p ks in
  let T := end_ts hi ks in
  pol_ok T p' ∧ pol_same p p' ∧ Forall2 (drops_by (color_aware p) (drop_prio p)) ks os ∧
  bytes_of green ks os + tok_c p' ≤ tok_c p + toksc_pus p * ((lastc_uts p' - lastc_uts p) / 1000) + slip (cbs p) (toksc_pus p) hi ks ∧
  bytes_of conforming ks os + tok_e p' ≤ tok_e p + tokse_pus p * ((laste_uts p' - laste_uts p) / 1000) + slip (ebs p) (tokse_pus p) hi ks.
Proof.
  revert hi p. induction ks as [|k ks IH]; intros hi p Hok Hk Hw; cbn [police].
  - cbn zeta. cbn. rewrite !Z.sub_diag. change (0 / 1000) with 0. split_and!; [done|done|constructor|lia|lia].
  - inversion Hk as [|? ? Hk1 Hk2]; subst. change (end_ts hi (k :: ks)) with (end_ts (Z.max hi (pk_ts k)) ks) in *. pose proof (end_ts_ge (Z.max hi (pk_ts k)) ks) as Hend.
    assert (Hw1 : no_wrap p (Z.max hi (pk_ts k))).
    { destruct Hw as (A & B & C). pose proof (po_rates _ _ Hok) as [D E]. split_and!; [lia|nia|nia]. }
    destruct (police_one hi p k Hok Hk1 Hw1) as (p1 & xf & r & -> & Hok1 & Hsame & Hg & Hc & Hdrop). pose proof Hsame as (Ha & Hd & Hcb & Heb & Hrc & Hre).
    specialize (IH _ p1 Hok1 Hk2 ltac:(unfold no_wrap in *; by rewrite Hrc, Hre)). destruct (police p1 ks) as [p' os].
    cbn zeta in *. destruct IH as (I1 & I2 & I3 & I6 & I7). cbn [bytes_of slip].
    change (green (x_ocol xf, has (x_pipe_act xf) LLB_PIPE_DROP)) with (green (x_ocol xf, false)).
    change (conforming (x_ocol xf, has (x_pipe_act xf) LLB_PIPE_DROP)) with (conforming (x_ocol xf, false)).
    pose proof (po_rates _ _ Hok) as [Hr1 Hr2]. rewrite Hrc, Hcb in I6. rewrite Hre, Heb in I7. rewrite Ha, Hd in I3.
    pose proof (usecs_add (lastc_uts p) (lastc_uts p1) (lastc_uts p')). pose proof (usecs_add (laste_uts p) (laste_uts p1) (laste_uts p')).
    split_and!; [done|unfold pol_same in *; intuition congruence|by constructor|nia|nia].
Qed.

(** Bytes picked by [P] are picked by [Q] or not looked at. *)
Lemma bytes_of_split (P Q : Z * bool → bool) aware prio ks os :
  Forall pkt_ok ks → Forall2 (drops_by aware prio) ks os → (∀ k o, drops_by aware prio k o → P o = true → Q o = true ∨ uncoloured aware k = true) →
  bytes_of P ks os ≤ bytes_of Q ks os + unpoliced aware ks.
Proof.
  intros Hk Ho HPQ. induction Ho as [|k o ks os Hd Ho IH]; [done|]. inversion Hk as [|? ? (_ & _ & Hl) Hk2]; subst. specialize (IH Hk2). cbn [bytes_of unpoliced foldr] in *.
  change (foldr _ 0 ks) with (unpoliced aware ks). destruct (P o) eqn:EP; [destruct (HPQ k o Hd EP) as [-> | ->]|]; case_tests; lia.
Qed.

(** C20. The policer lets no more through than its rates, and exactly what
    escapes them is named. Over any packets, in the order they take the lock and
    with any clock readings, from any state within the bursts: the bytes coloured
    green are at most the committed tokens there were plus the committed rate times
    the whole microseconds up to the latest reading, plus, for each packet whose
    reading is before one already used, a committed burst and the rate over the time
    set back ([slip]: none when the readings come in order); those coloured green or
    yellow the same of the excess bucket; so with red dropped the bytes that pass
    are within the excess allowance, with yellow dropped too within the committed
    one, but for the packets a colour-aware policer finds uncoloured, which pass
    unpoliced; and the buckets stay within their bursts. *)
Theorem policer_within_rates hi p ks :
  pol_ok hi p → Forall pkt_ok ks → no_wrap p (end_ts hi ks) →
  let '(p', os) := police p ks in
  let T := end_ts hi ks in
  let allow_c := tok_c p + toksc_pus p * ((T - lastc_uts p) / 1000) + slip (cbs p) (toksc_pus p) hi ks in
  let allow_e := tok_e p + tokse_pus p * ((T - laste_uts p) / 1000) + slip (ebs p) (tokse_pus p) hi ks in
  pol_ok T p' ∧ length os = length ks ∧
  bytes_of green ks os ≤ allow_c ∧ bytes_of conforming ks os ≤ allow_e ∧
  (drop_prio p < LLB_PIPE_COL_RED → bytes_of passed ks os ≤ allow_e + unpoliced (color_aware p) ks) ∧
  (drop_prio p < LLB_PIPE_COL_YELLOW → bytes_of passed ks os ≤ allow_c + unpoliced (color_aware p) ks).
Proof.
  intros Hok Hk Hw. pose proof (police_run hi p ks Hok Hk Hw) as H. destruct (police p ks) as [p' os]. cbn zeta in *. destruct H as (H1 & _ & H3 & H6 & H7).
  pose proof (po_last _ _ H1) as [Hl1 Hl2]. pose proof (po_rates _ _ Hok) as [Hr1 Hr2].
  assert ((lastc_uts p' - lastc_uts p) / 1000 ≤ (end_ts hi ks - lastc_uts p) / 1000) by (apply Z.div_le_mono; lia).
  assert ((laste_uts p' - laste_uts p) / 1000 ≤ (end_ts hi ks - laste_uts p) / 1000) by (apply Z.div_le_mono; lia).
  pose proof (po_c _ _ H1). pose proof (po_e _ _ H1).
  assert (Hg : bytes_of green ks os ≤ tok_c p + toksc_pus p * ((end_ts hi ks - lastc_uts p) / 1000) + slip (cbs p) (toksc_pus p) hi ks) by nia.
  assert (Hc : bytes_of conforming ks os ≤ tok_e p + tokse_pus p * ((end_ts hi ks - laste_uts p) / 1000) + slip (ebs p) (tokse_pus p) hi ks) by nia.
  split_and!; [done|symmetry; by eapply Forall2_length|done|done| |]; intros Hd;
    (etransitivity; [eapply bytes_of_split; [exact Hk|exact H3|]|apply Z.add_le_mono_r; eassumption]);
    intros k [col dr] (Ho & Hcol & Hz) Hp; cbn in *; unfold passed, green, conforming, LLB_PIPE_COL_RED, LLB_PIPE_COL_YELLOW, LLB_PIPE_COL_GREEN in *; cbn in *; subst dr; zbool;
    (destruct (decide (col = 0)) as [-> |]; [right; by apply Hz|left]; rewrite ?orb_true_iff, ?Z.eqb_eq; lia).
Qed.

(** 1000 bytes of committed burst at one byte per microsecond, 2000 of excess. *)
Definition small_policer : dp_policer_act := mk_dp_policer_act false 2 1000 2000 1000 2000 1 1 0 0 0 0.
Definition three_pkts : list pkt := [mk_pkt 5000 0 900; mk_pkt 6000 0 900; mk_pkt 7000 0 900].

Lemma policer_within_rates_witness :
  snd (police small_policer three_pkts) = [(1, false); (2, false); (3, true)] ∧ bytes_of passed three_pkts (snd (police small_policer three_pkts)) ≤ 2007.
Proof.
  split; [vm_compute; reflexivity|].
  assert (Hok : pol_ok 0 small_policer) by (split; cbn; lia). assert (Hk : Forall pkt_ok three_pkts) by (repeat constructor; cbn; lia).
  assert (Hw : no_wrap small_policer (end_ts 0 three_pkts)) by (unfold no_wrap; cbn; lia).
  pose proof (policer_within_rates 0 small_policer three_pkts Hok Hk Hw) as H. destruct (police small_policer three_pkts) as [p' os].
  destruct H as (_ & _ & _ & _ & H & _). exact (H ltac:(done)).
Defined.

(** Two packets whose processors read the clock in one order and took the lock in
    the other: the second finds its reading in the past, and the buckets full. *)
Example late_reading_refills :
  let ks := [mk_pkt 6000 0 1000; mk_pkt 5000 0 1000; mk_pkt 6001 0 1000] in
  snd (police small_policer ks) = [(1, false); (1, false); (2, false)] ∧
  bytes_of passed ks (snd (police small_policer ks)) = 3000.
Proof. split; vm_compute; reflexivity. Qed.

(** A colour-aware policer of no burst and no rate at all passes every packet:
    nothing gives a packet its incoming colour. *)
Example aware_policer_passes_all :
  snd (police (mk_dp_policer_act true 0 0 0 0 0 0 0 0 0 0 0) three_pkts) = [(0, false); (0, false); (0, false)].
Proof. vm_compute. reflexivity. Qed.
