(* ===== verification/KCtSm.v ===== *)
(** * Kernel datapath: protocol state machines of connection tracking (src/kernel/llb_kern_ct.c)

    What a connection-table entry remembers and how a packet moves it: the L3,
    TCP, UDP, ICMP and ICMPv6 machines, with the error counters. The first entry
    of a machine is always the forward one (client to service), the second its
    twin; the forward entry's lock is held for a step. The trace build's
    timestamps are left out. Theorems: a TCP connection is only ever taken for
    established after a full three-way handshake with matching numbers; both
    entries always agree on the state; a half-closed connection is torn down by
    the acknowledgements of its own closing side. *)

From stdpp Require Import base list gmap numbers.
From S2P Require Import Prelude KTypes.

(** ** What an entry remembers *)

Inductive tcp_state : Type :=
  CT_TCP_CLOSED | CT_TCP_SS | CT_TCP_SA | CT_TCP_EST | CT_TCP_FINI | CT_TCP_FINI2 | CT_TCP_FINI3 | CT_TCP_CW | CT_TCP_ERR | CT_TCP_PEST.
#[export] Instance tcp_state_eq_dec : EqDecision tcp_state.
Proof. solve_decision. Defined.
(** nstate & CT_TCP_FIN_MASK *)
Definition tcp_fin_mask (s : tcp_state) : bool := match s with CT_TCP_FINI | CT_TCP_FINI2 | CT_TCP_FINI3 | CT_TCP_CW => true | _ => false end.

(** ct_tcp_pinfd_t *)
Record tcp_pinfd := mk_tcp_pinfd { init_acks : Z; td_ppv2 : bool; td_seq : Z; td_pack : Z; td_pseq : Z }.
#[export] Instance tcp_pinfd_eta : RecordEta tcp_pinfd := fun r => mk_tcp_pinfd (init_acks r) (td_ppv2 r) (td_seq r) (td_pack r) (td_pseq r).
Definition tcp_pinfd_zero : tcp_pinfd := mk_tcp_pinfd 0 false 0 0 0.

(** ct_tcp_pinf_t; tcp_cts[CT_DIR_IN] and tcp_cts[CT_DIR_OUT] *)
Record tcp_pinf := mk_tcp_pinf { t_state : tcp_state; t_fndir : ct_dir; t_in : tcp_pinfd; t_out : tcp_pinfd }.
#[export] Instance tcp_pinf_eta : RecordEta tcp_pinf := fun r => mk_tcp_pinf (t_state r) (t_fndir r) (t_in r) (t_out r).
Definition tcp_pinf_zero : tcp_pinf := mk_tcp_pinf CT_TCP_CLOSED CT_DIR_IN tcp_pinfd_zero tcp_pinfd_zero.

Inductive udp_state : Type := CT_UDP_CNI | CT_UDP_UEST | CT_UDP_EST | CT_UDP_FINI | CT_UDP_CW.
#[export] Instance udp_state_eq_dec : EqDecision udp_state.
Proof. solve_decision. Defined.
Record udp_pinf := mk_udp_pinf { u_state : udp_state; pkts_seen : Z; rpkts_seen : Z; u_fndir : ct_dir }.
#[export] Instance udp_pinf_eta : RecordEta udp_pinf := fun r => mk_udp_pinf (u_state r) (pkts_seen r) (rpkts_seen r) (u_fndir r).

(** ct_icmp_pinf_t; its states are bits of an 8-bit field. *)
Record icmp_pinf := mk_icmp_pinf { i_state : Z; i_errs : Z; i_lseq : Z }.
#[export] Instance icmp_pinf_eta : RecordEta icmp_pinf := fun r => mk_icmp_pinf (i_state r) (i_errs r) (i_lseq r).
Definition CT_ICMP_CLOSED : Z := 0.
Definition CT_ICMP_REQS : Z := 1.
Definition CT_ICMP_REPS : Z := 2.
Definition CT_ICMP_DUNR : Z := 8.
Definition CT_ICMP_TTL : Z := 16.
Definition CT_ICMP_RDR : Z := 32.
Definition CT_ICMP_UNK : Z := 64.

Inductive sctp_state : Type :=
  CT_SCTP_CLOSED | CT_SCTP_INIT | CT_SCTP_INITA | CT_SCTP_COOKIE | CT_SCTP_COOKIEA | CT_SCTP_PRE_EST | CT_SCTP_EST |
  CT_SCTP_SHUT | CT_SCTP_SHUTA | CT_SCTP_SHUTC | CT_SCTP_ERR | CT_SCTP_ABRT.
#[export] Instance sctp_state_eq_dec : EqDecision sctp_state.
Proof. solve_decision. Defined.
(** ct_sctp_pinfd_t; mh_host has LLB_MAX_MHOSTS + 1 places. *)
Record sctp_pinfd := mk_sctp_pinfd { s_nh : Z; s_odst : Z; s_osrc : Z; mh_host : list Z }.
#[export] Instance sctp_pinfd_eta : RecordEta sctp_pinfd := fun r => mk_sctp_pinfd (s_nh r) (s_odst r) (s_osrc r) (mh_host r).
Record sctp_pinf := mk_sctp_pinf { s_state : sctp_state; s_itag : Z; s_otag : Z; s_cookie : Z; s_in : sctp_pinfd; s_out : sctp_pinfd }.
#[export] Instance sctp_pinf_eta : RecordEta sctp_pinf := fun r => mk_sctp_pinf (s_state r) (s_itag r) (s_otag r) (s_cookie r) (s_in r) (s_out r).
Definition sctp_pinfd_zero : sctp_pinfd := mk_sctp_pinfd 0 0 0 [0; 0; 0; 0].
Definition sctp_pinf_zero : sctp_pinf := mk_sctp_pinf CT_SCTP_CLOSED 0 0 0 sctp_pinfd_zero sctp_pinfd_zero.

Inductive l3_state : Type := CT_STATE_NONE | CT_STATE_REQ | CT_STATE_REP | CT_STATE_EST.
#[export] Instance l3_state_eq_dec : EqDecision l3_state.
Proof. solve_decision. Defined.

(** ct_pinf_t. The four protocols share a union in C; an entry's protocol is part
    of its key, so it only ever uses one of them. *)
Record ct_pinf := mk_ct_pinf {
  pi_t : tcp_pinf; pi_u : udp_pinf; pi_i : icmp_pinf; pi_s : sctp_pinf;
  pi_frag : Z; pi_npmhh : Z; pi_pmhh : Z * Z * Z; pi_l3 : l3_state
}.
#[export] Instance ct_pinf_eta : RecordEta ct_pinf := fun r =>
  mk_ct_pinf (pi_t r) (pi_u r) (pi_i r) (pi_s r) (pi_frag r) (pi_npmhh r) (pi_pmhh r) (pi_l3 r).
Definition ct_pinf_zero : ct_pinf :=
  mk_ct_pinf tcp_pinf_zero (mk_udp_pinf CT_UDP_CNI 0 0 CT_DIR_IN) (mk_icmp_pinf 0 0 0) sctp_pinf_zero 0 0 (0, 0, 0) CT_STATE_NONE.

Inductive ct_smr : Type :=
  CT_SMR_ERR | CT_SMR_INPROG | CT_SMR_EST | CT_SMR_UEST | CT_SMR_FIN | CT_SMR_CTD | CT_SMR_UNT | CT_SMR_INIT.
#[export] Instance ct_smr_eq_dec : EqDecision ct_smr.
Proof. solve_decision. Defined.

(** struct dp_ct_dat *)
Record dp_ct_dat := mk_dp_ct_dat {
  d_rid : Z; d_aid : Z; d_nid : Z; d_pi : ct_pinf; d_dir : ct_dir; d_smr : ct_smr; d_xi : nxfrm_inf; pb_bytes : Z; pb_packets : Z
}.
#[export] Instance dp_ct_dat_eta : RecordEta dp_ct_dat := fun r =>
  mk_dp_ct_dat (d_rid r) (d_aid r) (d_nid r) (d_pi r) (d_dir r) (d_smr r) (d_xi r) (pb_bytes r) (pb_packets r).

(** struct dp_ct_tact, and its scratch twin *)
Record dp_ct_tact := mk_dp_ct_tact {
  ca_act_type : Z; ca_ftrap : Z; ca_oaux : Z; ca_cidx : Z; ca_fwrid : Z; ca_record : Z;
  ctd : dp_ct_dat; c_ito : Z; c_lts : Z; c_nat : dp_nat_act
}.
#[export] Instance dp_ct_tact_eta : RecordEta dp_ct_tact := fun r =>
  mk_dp_ct_tact (ca_act_type r) (ca_ftrap r) (ca_oaux r) (ca_cidx r) (ca_fwrid r) (ca_record r) (ctd r) (c_ito r) (c_lts r) (c_nat r).
Definition dp_ct_tact_zero : dp_ct_tact :=
  mk_dp_ct_tact 0 0 0 0 0 0 (mk_dp_ct_dat 0 0 0 ct_pinf_zero CT_DIR_IN CT_SMR_INPROG nxfrm_zero 0 0) 0 0 dp_nat_act_zero.

(** The protocol states of an entry. *)
Definition e_t (e : dp_ct_tact) : tcp_pinf := pi_t (d_pi (ctd e)).
Definition e_u (e : dp_ct_tact) : udp_pinf := pi_u (d_pi (ctd e)).
Definition e_i (e : dp_ct_tact) : icmp_pinf := pi_i (d_pi (ctd e)).
Definition e_s (e : dp_ct_tact) : sctp_pinf := pi_s (d_pi (ctd e)).
Definition on_pi (f : ct_pinf → ct_pinf) (e : dp_ct_tact) : dp_ct_tact := e <| ctd ::= (λ d, d <| d_pi ::= f |>) |>.
Definition on_t (f : tcp_pinf → tcp_pinf) : dp_ct_tact → dp_ct_tact := on_pi (λ p, p <| pi_t ::= f |>).
Definition on_u (f : udp_pinf → udp_pinf) : dp_ct_tact → dp_ct_tact := on_pi (λ p, p <| pi_u ::= f |>).
Definition on_i (f : icmp_pinf → icmp_pinf) : dp_ct_tact → dp_ct_tact := on_pi (λ p, p <| pi_i ::= f |>).
Definition on_s (f : sctp_pinf → sctp_pinf) : dp_ct_tact → dp_ct_tact := on_pi (λ p, p <| pi_s ::= f |>).

(** pb.bytes += l3_len; pb.packets += 1 *)
Definition count_packet (len : Z) (e : dp_ct_tact) : dp_ct_tact :=
  e <| ctd ::= (λ d, d <| pb_bytes ::= (λ n, u64 (n + len)) |> <| pb_packets ::= (λ n, u64 (n + 1)) |>) |>.
(** The packet is counted on the entry of its direction. *)
Definition count_dir (dir : ct_dir) (len : Z) (at_ axt : dp_ct_tact) : dp_ct_tact * dp_ct_tact :=
  match dir with CT_DIR_IN => (count_packet len at_, axt) | CT_DIR_OUT => (at_, count_packet len axt) end.

(** ** Error counters (ct_err_stats) *)

Record ct_err_stats := mk_ct_err_stats { CT_ERR_STAT_TCP_RST_CLIENT : Z; CT_ERR_STAT_TCP_RST_SERVER : Z; CT_ERR_STAT_TCP_ERR : Z; CT_ERR_STAT_SCTP_ABORT : Z; CT_ERR_STAT_SCTP_ERR : Z }.
#[export] Instance ct_err_stats_eta : RecordEta ct_err_stats := fun r =>
  mk_ct_err_stats (CT_ERR_STAT_TCP_RST_CLIENT r) (CT_ERR_STAT_TCP_RST_SERVER r) (CT_ERR_STAT_TCP_ERR r) (CT_ERR_STAT_SCTP_ABORT r) (CT_ERR_STAT_SCTP_ERR r).
Definition bump (n : Z) : Z := u64 (n + 1).

(** ** L3 *)

Definition dp_ct3_sm (dir : ct_dir) (e : dp_ct_tact) : dp_ct_tact * Z :=
  let st := pi_l3 (d_pi (ctd e)) in
  let go new := (on_pi (λ p, p <| pi_l3 := new |>) e, if decide (new = CT_STATE_EST) then 1 else 0) in
  match st, dir with
  | CT_STATE_NONE, CT_DIR_IN => go CT_STATE_REQ
  | CT_STATE_NONE, CT_DIR_OUT => (e, -1)
  | CT_STATE_REQ, CT_DIR_OUT => go CT_STATE_REP
  | CT_STATE_REP, CT_DIR_IN => go CT_STATE_EST
  | _, _ => go st
  end.

(** ** TCP *)

(** The header's numbers, in host order. *)
Record tcp_hdr := mk_tcp_hdr { th_seq : Z; th_ack : Z }.

(** What the switch decides: the next state and what it wrote on the way. *)
Record tcp_sw := mk_tcp_sw { sw_state : tcp_state; sw_td : tcp_pinfd; sw_rtd : tcp_pinfd; sw_fndir : ct_dir; sw_ppv2 : bool; sw_defer : bool }.
#[export] Instance tcp_sw_eta : RecordEta tcp_sw := fun r => mk_tcp_sw (sw_state r) (sw_td r) (sw_rtd r) (sw_fndir r) (sw_ppv2 r) (sw_defer r).

Definition CT_TCP_INIT_ACK_THRESHOLD : Z := 3.

Definition cts (dir : ct_dir) (t : tcp_pinf) : tcp_pinfd := match dir with CT_DIR_IN => t_in t | CT_DIR_OUT => t_out t end.
Definition set_cts (dir : ct_dir) (v : tcp_pinfd) (t : tcp_pinf) : tcp_pinf := match dir with CT_DIR_IN => t <| t_in := v |> | CT_DIR_OUT => t <| t_out := v |> end.

(** Marking both sides for a proxy-protocol header, or putting it off for a
    merged packet. *)
Definition sw_mark_ppv2 (is_gso : bool) (w : tcp_sw) : tcp_sw :=
  if td_ppv2 (sw_td w) then w
  else if is_gso then w <| sw_defer := true |>
  else w <| sw_ppv2 := true |> <| sw_td ::= (λ d, d <| td_ppv2 := true |>) |> <| sw_rtd ::= (λ d, d <| td_ppv2 := true |>) |>.

(** switch (ts->state), from the test of RST on. [nstate] starts at 0, which is
    CT_TCP_CLOSED, and stays so in the branches that do not set it. *)
Definition tcp_switch (xf : xfi) (h : tcp_hdr) (is_gso : bool) (dir : ct_dir) (ts : tcp_pinf) : tcp_sw :=
  let flags := x_tcp_flags xf in
  let td := cts dir ts in
  let rtd := cts (other_dir dir) ts in
  let w := mk_tcp_sw CT_TCP_CLOSED td rtd (t_fndir ts) false false in
  let to s := w <| sw_state := s |> in
  let seq_to s := w <| sw_state := s |> <| sw_td := td <| td_seq := th_seq h |> |> in
  let acks := th_ack h =? u32 (td_seq rtd + 1) in
  if has flags LLB_TCP_RST then to CT_TCP_CW
  else
    match t_state ts with
    | CT_TCP_CLOSED =>
        if negb (x_dsr xf =? 0) then to CT_TCP_EST
        else if has flags LLB_TCP_ACK then
          let w := w <| sw_td := td <| td_seq := th_seq h |> |> in
          if negb (init_acks td =? 0) && (th_ack h >? u32 (td_seq rtd + 2)) then w <| sw_state := CT_TCP_ERR |>
          else
            let n := u8 (init_acks td + 1) in
            let w := w <| sw_td ::= (λ d, d <| init_acks := n |>) |> in
            if (n >=? CT_TCP_INIT_ACK_THRESHOLD) && (init_acks rtd >=? CT_TCP_INIT_ACK_THRESHOLD) then w <| sw_state := CT_TCP_EST |>
            else w <| sw_state := CT_TCP_ERR |>
        else if negb (has flags LLB_TCP_SYN) then to CT_TCP_ERR
        else if negb (th_ack h =? 0) && bool_decide (dir ≠ CT_DIR_IN) then to CT_TCP_ERR
        else seq_to CT_TCP_SS
    | CT_TCP_SS =>
        if decide (dir ≠ CT_DIR_OUT) then if has flags LLB_TCP_SYN then seq_to CT_TCP_SS else to CT_TCP_ERR
        else if negb (has flags LLB_TCP_SYN && has flags LLB_TCP_ACK) then to CT_TCP_ERR
        else if negb acks then to CT_TCP_ERR
        else seq_to CT_TCP_SA
    | CT_TCP_SA =>
        if decide (dir ≠ CT_DIR_IN) then
          if negb (has flags LLB_TCP_SYN && has flags LLB_TCP_ACK) then to CT_TCP_ERR
          else if negb acks then to CT_TCP_ERR
          else to CT_TCP_SA
        else if has flags LLB_TCP_SYN then seq_to CT_TCP_SS
        else if negb (has flags LLB_TCP_ACK) then to CT_TCP_ERR
        else if negb acks then to CT_TCP_ERR
        else if negb (x_nppv2 xf =? 0) then sw_mark_ppv2 is_gso (seq_to CT_TCP_PEST)
        else seq_to CT_TCP_EST
    | CT_TCP_PEST =>
        if has flags LLB_TCP_FIN then (seq_to CT_TCP_FINI) <| sw_fndir := dir |>
        else if decide (dir = CT_DIR_IN) then sw_mark_ppv2 is_gso (to CT_TCP_PEST) else to CT_TCP_PEST
    | CT_TCP_EST => if has flags LLB_TCP_FIN then (seq_to CT_TCP_FINI) <| sw_fndir := dir |> else to CT_TCP_EST
    | CT_TCP_FINI =>
        if decide (t_fndir ts ≠ dir) then
          if has flags LLB_TCP_FIN && has flags LLB_TCP_ACK then seq_to CT_TCP_FINI3
          else if has flags LLB_TCP_ACK then seq_to CT_TCP_FINI2
          else w
        else w
    | CT_TCP_FINI2 => if decide (t_fndir ts ≠ dir) then if has flags LLB_TCP_FIN then seq_to CT_TCP_FINI3 else w else w
    | CT_TCP_FINI3 => if decide (t_fndir ts = dir) then if has flags LLB_TCP_ACK then to CT_TCP_CW else w else w
    | CT_TCP_CW | CT_TCP_ERR => w
    end.

Definition tcp_smr (s : tcp_state) : ct_smr :=
  match s with
  | CT_TCP_EST => CT_SMR_EST
  | CT_TCP_CW => CT_SMR_CTD
  | CT_TCP_ERR => CT_SMR_ERR
  | s => if tcp_fin_mask s then CT_SMR_FIN else CT_SMR_INPROG
  end.

(** The error accounting of a transition from [old] to [new]. *)
Definition tcp_account (dir : ct_dir) (old new : tcp_state) (st : ct_err_stats) : ct_err_stats :=
  if decide (old = new) then st
  else
    match new with
    | CT_TCP_CW => match dir with CT_DIR_IN => st <| CT_ERR_STAT_TCP_RST_CLIENT ::= bump |> | CT_DIR_OUT => st <| CT_ERR_STAT_TCP_RST_SERVER ::= bump |> end
    | CT_TCP_ERR => if bool_decide (old = CT_TCP_EST) || tcp_fin_mask old then st <| CT_ERR_STAT_TCP_ERR ::= bump |> else st
    | _ => st
    end.

(** What the raw header writes to the entry of its direction before the switch. *)
Definition note_raw (h : tcp_hdr) (e : dp_ct_tact) : dp_ct_tact :=
  on_t (λ t, t <| t_in ::= (λ d, d <| td_pseq := bswap32 (th_seq h) |> <| td_pack := bswap32 (th_ack h) |>) |>) e.

(** [h] is None when the header does not fit the packet. *)
Definition dp_ct_tcp_sm (xf : xfi) (h : option tcp_hdr) (is_gso : bool) (at_ axt : dp_ct_tact) (dir : ct_dir) (st : ct_err_stats) :
    xfi * dp_ct_tact * dp_ct_tact * ct_err_stats * ct_smr :=
  match h with
  | None => (LLBS_PPLN_DROPC LLB_PIPE_RC_PLCT_ERR xf, at_, axt, st, CT_SMR_ERR)
  | Some h =>
      let '(at_, axt) := match dir with CT_DIR_IN => (note_raw h at_, axt) | CT_DIR_OUT => (at_, note_raw h axt) end in
      let '(at_, axt) := count_dir dir (x_l3_len xf) at_ axt in
      let ts := e_t at_ in
      let xf := if td_ppv2 (cts dir ts) then match dir with CT_DIR_IN => xf <| x_oppv2 := true |> | CT_DIR_OUT => xf <| x_ippv2 := true |> end else xf in
      let w := tcp_switch xf h is_gso dir ts in
      let at_ := on_t (λ t, (set_cts (other_dir dir) (sw_rtd w) (set_cts dir (sw_td w) t)) <| t_fndir := sw_fndir w |> <| t_state := sw_state w |>) at_ in
      let axt := on_t (λ t, t <| t_state := sw_state w |>) axt in
      let axt := if decide (sw_state w ≠ CT_TCP_ERR ∧ dir = CT_DIR_OUT) then on_t (λ t, t <| t_in ::= (λ d, d <| td_seq := th_seq h |>) |>) axt else axt in
      let xf := if sw_ppv2 w then xf <| x_ppv2 := true |> else xf in
      let xf := if sw_defer w then LLBS_PPLN_DROPC LLB_PIPE_RC_PLERR xf else xf in
      (xf, at_, axt, tcp_account dir (t_state ts) (sw_state w) st, tcp_smr (sw_state w))
  end.

(** ** UDP *)

Definition CT_UDP_CONN_THRESHOLD : Z := 4.

Definition udp_next (xf : xfi) (dir : ct_dir) (us : udp_pinf) : udp_pinf :=
  match u_state us with
  | CT_UDP_CNI =>
      if negb (x_dsr xf =? 0) || negb (x_ssnid xf =? 0) then us <| u_state := CT_UDP_EST |>
      else if negb (pkts_seen us =? 0) && negb (rpkts_seen us =? 0) then us <| u_state := CT_UDP_EST |>
      else if pkts_seen us >? CT_UDP_CONN_THRESHOLD then us <| u_state := CT_UDP_UEST |>
      else us
  | CT_UDP_UEST => if negb (rpkts_seen us =? 0) || (pkts_seen us >? 2 * CT_UDP_CONN_THRESHOLD) then us <| u_state := CT_UDP_EST |> else us
  | CT_UDP_EST => if x_l4fin xf then us <| u_state := CT_UDP_FINI |> <| u_fndir := dir |> else us
  | CT_UDP_FINI => if x_l4fin xf && bool_decide (u_fndir us ≠ dir) then us <| u_state := CT_UDP_CW |> else us
  | CT_UDP_CW => us
  end.

Definition udp_smr (s : udp_state) : ct_smr :=
  match s with CT_UDP_UEST => CT_SMR_UEST | CT_UDP_EST => CT_SMR_EST | CT_UDP_CW => CT_SMR_CTD | CT_UDP_FINI => CT_SMR_FIN | CT_UDP_CNI => CT_SMR_INPROG end.

Definition dp_ct_udp_sm (xf : xfi) (at_ axt : dp_ct_tact) (dir : ct_dir) : dp_ct_tact * dp_ct_tact * ct_smr :=
  let '(at_, axt) := count_dir dir (x_l3_len xf) at_ axt in
  let at_ := on_u (λ u, match dir with CT_DIR_IN => u <| pkts_seen ::= (λ n, u16 (n + 1)) |> | CT_DIR_OUT => u <| rpkts_seen ::= (λ n, u16 (n + 1)) |> end) at_ in
  let us := udp_next xf dir (e_u at_) in
  (on_u (λ _, us) at_, on_u (λ u, u <| u_state := u_state us |>) axt, udp_smr (u_state us)).

(** ** ICMP *)

Definition ICMP_ECHOREPLY : Z := 0.
Definition ICMP_DEST_UNREACH : Z := 3.
Definition ICMP_REDIRECT : Z := 5.
Definition ICMP_ECHO : Z := 8.
Definition ICMP_TIME_EXCEEDED : Z := 11.
Definition ICMPV6_DEST_UNREACH : Z := 1.
Definition ICMPV6_TIME_EXCEED : Z := 3.
Definition ICMPV6_ECHO_REQUEST : Z := 128.
Definition ICMPV6_ECHO_REPLY : Z := 129.

Record icmp_hdr := mk_icmp_hdr { ih_type : Z; ih_seq : Z }.

(** switch (is->state) on an echo message: the entry's data and the next state. *)
Definition icmp_echo (xf : xfi) (request reply : bool) (seq : Z) (i : icmp_pinf) : icmp_pinf * Z :=
  if i_state i =? CT_ICMP_CLOSED then
    if negb (x_dsr xf =? 0) then (i, CT_ICMP_REPS)
    else if negb request then (i <| i_errs := 1 |>, i_state i)
    else (i <| i_lseq := seq |>, CT_ICMP_REQS)
  else if i_state i =? CT_ICMP_REQS then
    if request then (i <| i_lseq := seq |>, i_state i)
    else if reply then if negb (i_lseq i =? seq) then (i <| i_errs := 1 |>, i_state i) else (i <| i_lseq := seq |>, CT_ICMP_REPS)
    else (i, i_state i)
  else (i, i_state i).

(** The end of both machines: is->state = xis->state = nstate. *)
Definition icmp_end (r : icmp_pinf * Z) (at_ axt : dp_ct_tact) : dp_ct_tact * dp_ct_tact * ct_smr :=
  let '(i, nstate) := r in
  (on_i (λ _, i <| i_state := nstate |>) at_, on_i (λ x, x <| i_state := nstate |>) axt, if nstate =? CT_ICMP_REPS then CT_SMR_EST else CT_SMR_INPROG).

(** is->state |= bit; goto end, with [nstate] read before. *)
Definition icmp_flag (bit : Z) (i : icmp_pinf) : icmp_pinf * Z := (i <| i_state ::= (λ s, Z.lor s bit) |>, i_state i).

Definition dp_ct_icmp_sm (xf : xfi) (h : option icmp_hdr) (at_ axt : dp_ct_tact) (dir : ct_dir) : xfi * dp_ct_tact * dp_ct_tact * ct_smr :=
  match h with
  | None => (LLBS_PPLN_DROPC LLB_PIPE_RC_PLCT_ERR xf, at_, axt, CT_SMR_ERR)
  | Some h =>
      let '(at_, axt) := count_dir dir (x_l3_len xf) at_ axt in
      let i := e_i at_ in
      let r :=
        if ih_type h =? ICMP_DEST_UNREACH then icmp_flag CT_ICMP_DUNR i
        else if ih_type h =? ICMP_TIME_EXCEEDED then icmp_flag CT_ICMP_TTL i
        else if ih_type h =? ICMP_REDIRECT then icmp_flag CT_ICMP_RDR i
        else if (ih_type h =? ICMP_ECHOREPLY) || (ih_type h =? ICMP_ECHO) then icmp_echo xf (ih_type h =? ICMP_ECHO) (ih_type h =? ICMP_ECHOREPLY) (ih_seq h) i
        else icmp_flag CT_ICMP_UNK i in
      let '(at_, axt, smr) := icmp_end r at_ axt in (xf, at_, axt, smr)
  end.

Definition dp_ct_icmp6_sm (xf : xfi) (h : option icmp_hdr) (at_ axt : dp_ct_tact) (dir : ct_dir) : xfi * dp_ct_tact * dp_ct_tact * ct_smr :=
  match h with
  | None => (LLBS_PPLN_DROPC LLB_PIPE_RC_PLCT_ERR xf, at_, axt, CT_SMR_ERR)
  | Some h =>
      let '(at_, axt) := count_dir dir (x_l3_len xf) at_ axt in
      let i := e_i at_ in
      let r :=
        if ih_type h =? ICMPV6_DEST_UNREACH then icmp_flag CT_ICMP_DUNR i
        else if ih_type h =? ICMPV6_TIME_EXCEED then icmp_flag CT_ICMP_TTL i
        else if (ih_type h =? ICMPV6_ECHO_REPLY) || (ih_type h =? ICMPV6_ECHO_REQUEST) then
          icmp_echo xf (ih_type h =? ICMPV6_ECHO_REQUEST) (ih_type h =? ICMPV6_ECHO_REPLY) (ih_seq h) i
        else icmp_flag CT_ICMP_UNK i in
      let '(at_, axt, smr) := icmp_end r at_ axt in (xf, at_, axt, smr)
  end.

(** ** TCP: the handshake *)

(** A TCP packet as the machine sees it. *)
Record tpkt := mk_tpkt { tp_xf : xfi; tp_hdr : tcp_hdr; tp_gso : bool; tp_dir : ct_dir }.
Definition tp_has (b : Z) (p : tpkt) : Prop := has (x_tcp_flags (tp_xf p)) b = true.

(** The packets of a connection in order, from its first (which makes the entry);
    None once the entry is torn down (CT_SMR_ERR or CT_SMR_CTD). *)
Fixpoint tcp_track (ps : list tpkt) (at_ axt : dp_ct_tact) (st : ct_err_stats) : option (dp_ct_tact * dp_ct_tact * ct_err_stats) :=
  match ps with
  | [] => Some (at_, axt, st)
  | p :: ps =>
      let '(_, at_, axt, st, smr) := dp_ct_tcp_sm (tp_xf p) (Some (tp_hdr p)) (tp_gso p) at_ axt (tp_dir p) st in
      if decide (smr = CT_SMR_ERR ∨ smr = CT_SMR_CTD) then None else tcp_track ps at_ axt st
  end.

(** The client's SYN, the service's SYN-ACK of it, the client's ACK of that. *)
Definition is_syn (p : tpkt) : Prop := tp_dir p = CT_DIR_IN ∧ tp_has LLB_TCP_SYN p.
Definition is_synack (p q : tpkt) : Prop :=
  tp_dir q = CT_DIR_OUT ∧ tp_has LLB_TCP_SYN q ∧ tp_has LLB_TCP_ACK q ∧ th_ack (tp_hdr q) = u32 (th_seq (tp_hdr p) + 1).
Definition is_ack (q r : tpkt) : Prop :=
  tp_dir r = CT_DIR_IN ∧ tp_has LLB_TCP_ACK r ∧ ¬ tp_has LLB_TCP_SYN r ∧ th_ack (tp_hdr r) = u32 (th_seq (tp_hdr q) + 1).

Definition handshake (ps : list tpkt) : Prop :=
  ∃ a p b q c r d, ps = a ++ p :: b ++ q :: c ++ r :: d ∧ is_syn p ∧ is_synack p q ∧ is_ack q r.

(** How far the packets so far have come, for an entry in TCP state [t]. *)
Inductive hs_progress (ps : list tpkt) (t : tcp_pinf) : Prop :=
| hs_fresh : ps = [] → t_state t = CT_TCP_CLOSED → hs_progress ps t
| hs_syn a p b : ps = a ++ p :: b → is_syn p → t_state t = CT_TCP_SS → td_seq (t_in t) = th_seq (tp_hdr p) → hs_progress ps t
| hs_synack a p b q c : ps = a ++ p :: b ++ q :: c → is_syn p → is_synack p q → t_state t = CT_TCP_SA → td_seq (t_out t) = th_seq (tp_hdr q) →
    td_seq (t_in t) = th_seq (tp_hdr p) → hs_progress ps t
| hs_done : handshake ps → hs_progress ps t.

Lemma handshake_snoc ps x : handshake ps → handshake (ps ++ [x]).
Proof.
  intros (a & p & b & q & c & r & d & -> & H). exists a, p, b, q, c, r, (d ++ [x]). split; [|done].
  by rewrite <- !app_assoc, <- !app_comm_cons, <- !app_assoc, <- !app_comm_cons, <- !app_assoc, <- app_comm_cons.
Qed.

(** What one step does to the forward entry's TCP data. *)
Definition after_switch (w : tcp_sw) (dir : ct_dir) (t : tcp_pinf) : tcp_pinf :=
  (set_cts (other_dir dir) (sw_rtd w) (set_cts dir (sw_td w) t)) <| t_fndir := sw_fndir w |> <| t_state := sw_state w |>.

(** The forward entry's data when the switch runs. *)
Definition raw_noted (h : tcp_hdr) (dir : ct_dir) (t : tcp_pinf) : tcp_pinf :=
  match dir with CT_DIR_IN => t <| t_in ::= (λ d, d <| td_pseq := bswap32 (th_seq h) |> <| td_pack := bswap32 (th_ack h) |>) |> | CT_DIR_OUT => t end.

Lemma tcp_sm_step xf h gso at_ axt dir st :
  let t := raw_noted h dir (e_t at_) in
  ∃ xf' xf'' at' axt' st', dp_ct_tcp_sm xf (Some h) gso at_ axt dir st = (xf', at', axt', st', tcp_smr (sw_state (tcp_switch xf'' h gso dir t))) ∧
    e_t at' = after_switch (tcp_switch xf'' h gso dir t) dir t ∧ t_state (e_t axt') = t_state (e_t at') ∧
    x_tcp_flags xf'' = x_tcp_flags xf ∧ x_dsr xf'' = x_dsr xf ∧ x_nppv2 xf'' = x_nppv2 xf.
Proof.
  cbn zeta. unfold dp_ct_tcp_sm.
  set (xf2 := if td_ppv2 (cts dir (raw_noted h dir (e_t at_))) then match dir with CT_DIR_IN => xf <| x_oppv2 := true |> | CT_DIR_OUT => xf <| x_ippv2 := true |> end else xf).
  destruct dir; eexists _, xf2, _, _, _; (split; [cbn [count_dir]; reflexivity|]); (split; [done|]); (split; [|unfold xf2; by destruct (td_ppv2 _)]); by case_decide.
Qed.

Lemma seq_of_noted h dir t : td_seq (t_in (raw_noted h dir t)) = td_seq (t_in t) ∧ td_seq (t_out (raw_noted h dir t)) = td_seq (t_out t) ∧ t_state (raw_noted h dir t) = t_state t.
Proof. by destruct dir. Qed.

(** The switch from each state of the opening. *)
Lemma switch_closed xf h gso dir t :
  t_state t = CT_TCP_CLOSED → x_dsr xf = 0 → init_acks (cts (other_dir dir) t) = 0 →
  let w := tcp_switch xf h gso dir t in
  sw_state w = CT_TCP_CW ∨ sw_state w = CT_TCP_ERR ∨
  sw_state w = CT_TCP_SS ∧ has (x_tcp_flags xf) LLB_TCP_SYN = true ∧ td_seq (sw_td w) = th_seq h ∧ sw_rtd w = cts (other_dir dir) t.
Proof.
  intros Hs Hd Ha. unfold tcp_switch. rewrite Hs, Hd, Ha. cbn zeta. destruct (has (x_tcp_flags xf) LLB_TCP_RST); [by left|]. right. cbn [negb Z.eqb].
  destruct (has (x_tcp_flags xf) LLB_TCP_ACK); [case_test; [by left|]; rewrite andb_false_r; by left|]. destruct (has (x_tcp_flags xf) LLB_TCP_SYN); [|by left].
  cbn [negb]. case_test; [by left|]. right. done.
Qed.

Lemma switch_ss xf h gso dir t :
  t_state t = CT_TCP_SS →
  let w := tcp_switch xf h gso dir t in
  sw_state w = CT_TCP_CW ∨ sw_state w = CT_TCP_ERR ∨
  dir = CT_DIR_IN ∧ has (x_tcp_flags xf) LLB_TCP_SYN = true ∧ sw_state w = CT_TCP_SS ∧ td_seq (sw_td w) = th_seq h ∨
  dir = CT_DIR_OUT ∧ has (x_tcp_flags xf) LLB_TCP_SYN = true ∧ has (x_tcp_flags xf) LLB_TCP_ACK = true ∧ th_ack h = u32 (td_seq (t_in t) + 1) ∧
    sw_state w = CT_TCP_SA ∧ td_seq (sw_td w) = th_seq h ∧ sw_rtd w = t_in t.
Proof.
  intros Hs. unfold tcp_switch. rewrite Hs. cbn zeta. destruct (has (x_tcp_flags xf) LLB_TCP_RST); [by left|]. right.
  destruct dir; cbn [cts other_dir]; (case_decide as Hd; try done).
  - destruct (has (x_tcp_flags xf) LLB_TCP_SYN); [right; by left|by left].
  - destruct (has (x_tcp_flags xf) LLB_TCP_SYN); [|by left]. destruct (has (x_tcp_flags xf) LLB_TCP_ACK); [|by left]. cbn [negb andb].
    destruct (Z.eqb_spec (th_ack h) (u32 (td_seq (t_in t) + 1))); [|by left]. right. right. done.
Qed.

Lemma switch_sa xf h gso dir t :
  t_state t = CT_TCP_SA →
  let w := tcp_switch xf h gso dir t in
  sw_state w = CT_TCP_CW ∨ sw_state w = CT_TCP_ERR ∨
  dir = CT_DIR_OUT ∧ sw_state w = CT_TCP_SA ∧ sw_td w = t_out t ∧ sw_rtd w = t_in t ∨
  dir = CT_DIR_IN ∧ has (x_tcp_flags xf) LLB_TCP_SYN = true ∧ sw_state w = CT_TCP_SS ∧ td_seq (sw_td w) = th_seq h ∨
  dir = CT_DIR_IN ∧ has (x_tcp_flags xf) LLB_TCP_SYN = false ∧ has (x_tcp_flags xf) LLB_TCP_ACK = true ∧ th_ack h = u32 (td_seq (t_out t) + 1).
Proof.
  intros Hs. unfold tcp_switch. rewrite Hs. cbn zeta. destruct (has (x_tcp_flags xf) LLB_TCP_RST); [by left|]. right.
  destruct dir; cbn [cts other_dir]; (case_decide as Hd; try done).
  - destruct (has (x_tcp_flags xf) LLB_TCP_SYN); [right; right; by left|]. destruct (has (x_tcp_flags xf) LLB_TCP_ACK); [|by left]. cbn [negb].
    destruct (Z.eqb_spec (th_ack h) (u32 (td_seq (t_out t) + 1))); [|by left]. right. right. by right.
  - case_test; [by left|]. case_test; [by left|]. right. by left.
Qed.

Lemma hs_step ps p at_ axt st :
  x_dsr (tp_xf p) = 0 → (ps = [] → tp_dir p = CT_DIR_IN ∧ e_t at_ = tcp_pinf_zero) → hs_progress ps (e_t at_) →
  let '(_, at', axt', _, smr) := dp_ct_tcp_sm (tp_xf p) (Some (tp_hdr p)) (tp_gso p) at_ axt (tp_dir p) st in
  (smr = CT_SMR_ERR ∨ smr = CT_SMR_CTD) ∨ hs_progress (ps ++ [p]) (e_t at') ∧ t_state (e_t axt') = t_state (e_t at').
Proof.
  intros Hdsr Hfirst Hp. destruct (tcp_sm_step (tp_xf p) (tp_hdr p) (tp_gso p) at_ axt (tp_dir p) st) as (xf' & xf2 & at' & axt' & st' & -> & Hat & Haxt & Hfl & Hd2 & _).
  set (t := raw_noted (tp_hdr p) (tp_dir p) (e_t at_)) in *. destruct (seq_of_noted (tp_hdr p) (tp_dir p) (e_t at_)) as (Hin & Hout & Hst). fold t in Hin, Hout, Hst.
  assert (Hclose : ∀ s, s = CT_TCP_CW ∨ s = CT_TCP_ERR → tcp_smr s = CT_SMR_ERR ∨ tcp_smr s = CT_SMR_CTD) by (intros s [->| ->]; [by right|by left]).
  set (w := tcp_switch xf2 (tp_hdr p) (tp_gso p) (tp_dir p) t) in *.
  destruct Hp as [Hps Hs|a p0 b Hps Hsyn Hs Hseq|a p0 b q c Hps Hsyn Hsa Hs Hseq Hseqi|Hdone].
  - destruct (Hfirst Hps) as [Hdir Hz]. subst ps. rewrite Hs in Hst.
    assert (Hacks : init_acks (cts (other_dir (tp_dir p)) t) = 0) by (subst t; rewrite Hdir, Hz; done).
    pose proof (switch_closed xf2 (tp_hdr p) (tp_gso p) (tp_dir p) t Hst ltac:(congruence) Hacks) as Hsw; cbn zeta in Hsw; fold w in Hsw; destruct Hsw as [H|[H|(H1 & H2 & H3 & _)]]; [left; apply Hclose; by left|left; apply Hclose; by right|].
    right. split; [|done]. apply (hs_syn _ _ [] p []); [done|split; [done|unfold tp_has; congruence]|rewrite Hat; done|]. rewrite Hat, Hdir. exact H3.
  - rewrite Hs in Hst. pose proof (switch_ss xf2 (tp_hdr p) (tp_gso p) (tp_dir p) t Hst) as Hsw; cbn zeta in Hsw; fold w in Hsw; destruct Hsw as [H|[H|[(H1 & H2 & H3 & H4)|(H1 & H2 & H3 & H4 & H5 & H6 & H7)]]];
      [left; apply Hclose; by left|left; apply Hclose; by right| |]; right; (split; [|done]).
    + apply (hs_syn _ _ ps p []); [done|split; [done|unfold tp_has; congruence]|rewrite Hat; done|]. rewrite Hat, H1. exact H4.
    + apply (hs_synack _ _ a p0 b p []); [by rewrite Hps, <- app_assoc, <- app_comm_cons|done| |rewrite Hat; done| |].
      * unfold is_synack, tp_has. rewrite <- Hfl. split_and!; [done|done|done|congruence].
      * rewrite Hat, H1. exact H6.
      * rewrite Hat, H1. cbn. rewrite H7. congruence.
  - rewrite Hs in Hst. pose proof (switch_sa xf2 (tp_hdr p) (tp_gso p) (tp_dir p) t Hst) as Hsw; cbn zeta in Hsw; fold w in Hsw; destruct Hsw as [H|[H|[(H1 & H2 & H3 & H4)|[(H1 & H2 & H3 & H4)|(H1 & H2 & H3 & H4)]]]];
      [left; apply Hclose; by left|left; apply Hclose; by right| | |]; right; (split; [|done]).
    + apply (hs_synack _ _ a p0 b q (c ++ [p])); [by rewrite Hps, <- app_assoc, <- app_comm_cons, <- app_assoc, <- app_comm_cons|done|done|rewrite Hat; done| |].
      * rewrite Hat, H1. cbn. rewrite H3. congruence.
      * rewrite Hat, H1. cbn. rewrite H4. congruence.
    + apply (hs_syn _ _ ps p []); [done|split; [done|unfold tp_has; congruence]|rewrite Hat; done|]. rewrite Hat, H1. exact H4.
    + apply hs_done. exists a, p0, b, q, c, p, []. split; [by rewrite Hps, <- app_assoc, <- app_comm_cons, <- app_assoc, <- app_comm_cons|]. split_and!; [done|done|].
      unfold is_ack, tp_has. rewrite <- Hfl. split_and!; [done|done|congruence|congruence].
  - destruct (decide (tcp_smr (sw_state w) = CT_SMR_ERR ∨ tcp_smr (sw_state w) = CT_SMR_CTD)); [by left|]. right. split; [|done]. by apply hs_done, handshake_snoc.
Qed.

Lemma hs_track ps0 ps at_ axt st at' axt' st' :
  Forall (λ p, x_dsr (tp_xf p) = 0) ps → (ps0 = [] → e_t at_ = tcp_pinf_zero ∧ ∀ p, head ps = Some p → tp_dir p = CT_DIR_IN) →
  hs_progress ps0 (e_t at_) → (ps0 ≠ [] → t_state (e_t axt) = t_state (e_t at_)) → tcp_track ps at_ axt st = Some (at', axt', st') →
  hs_progress (ps0 ++ ps) (e_t at') ∧ (ps0 ++ ps ≠ [] → t_state (e_t axt') = t_state (e_t at')).
Proof.
  revert ps0 at_ axt st. induction ps as [|p ps IH]; intros ps0 at_ axt st Hd Hf Hp Hm Ht; cbn [tcp_track] in Ht.
  - simplify_eq. by rewrite app_nil_r.
  - inversion Hd as [|? ? Hd1 Hd2]; subst. pose proof (hs_step ps0 p at_ axt st Hd1 ltac:(intros E; destruct (Hf E); eauto) Hp) as Hs.
    destruct (dp_ct_tcp_sm _ _ _ _ _ _ _) as [[[[xf1 at1] axt1] st1] smr]. case_decide as Hc; [done|]. destruct Hs as [Hs|[Hs Hm1]]; [done|].
    rewrite cons_middle, app_assoc. apply (IH (ps0 ++ [p]) at1 axt1 st1); try done. intros E. by apply app_eq_nil in E as [_ E].
Qed.

(** C9. A TCP connection of a service without direct server return (a
    direct-return entry is taken for established at its first packet) is never taken
    for established without a three-way handshake: for the packets of any
    connection, from its first one (which comes from the client's side) and as long
    as the entry lives, if the entry is past the opening states then somewhere among
    them are, in this order, a SYN from the client, a SYN-ACK from the service that
    acknowledges exactly that SYN and an ACK from the client that acknowledges
    exactly that SYN-ACK; and the two entries of the connection are in the same
    state. The code means to accept a connection older than itself after three ACKs
    of each side; this never happens, since the first of them ends in CT_TCP_ERR and
    takes the entry away ([midstream_never_accepted]). *)
Theorem tcp_established_after_handshake ps axt st at' axt' st' :
  Forall (λ p, x_dsr (tp_xf p) = 0) ps → (∀ p, head ps = Some p → tp_dir p = CT_DIR_IN) → ps ≠ [] →
  tcp_track ps dp_ct_tact_zero axt st = Some (at', axt', st') →
  t_state (e_t axt') = t_state (e_t at') ∧ (t_state (e_t at') ≠ CT_TCP_SS → t_state (e_t at') ≠ CT_TCP_SA → handshake ps).
Proof.
  intros Hd Hf Hne Ht. destruct (hs_track [] ps dp_ct_tact_zero axt st at' axt' st' Hd) as [Hp Hm]; [done|by apply hs_fresh|done|done|]. cbn [app] in *.
  split; [by apply Hm|]. intros H1 H2. destruct Hp; done.
Qed.

(** ** TCP: a half-closed connection *)

Definition plain_ack (p : tpkt) : Prop :=
  tp_dir p = CT_DIR_IN ∧ x_dsr (tp_xf p) = 0 ∧ tp_has LLB_TCP_ACK p ∧ has (x_tcp_flags (tp_xf p)) LLB_TCP_RST = false.

(** An established connection whose client has sent its FIN is forgotten at the
    client's second acknowledgement after that, whatever the service is still
    sending: the first falls back to CT_TCP_CLOSED, because the branch for the
    closing side's own packets leaves nstate at 0, and the second is an error
    there. *)
Theorem tcp_half_close_torn_down at_ axt st f a1 a2 :
  t_state (e_t at_) = CT_TCP_EST → init_acks (t_in (e_t at_)) = 0 → init_acks (t_out (e_t at_)) = 0 →
  tp_dir f = CT_DIR_IN → tp_has LLB_TCP_FIN f → has (x_tcp_flags (tp_xf f)) LLB_TCP_RST = false →
  plain_ack a1 → plain_ack a2 →
  tcp_track [f; a1; a2] at_ axt st = None ∧ ∃ at' axt' st', tcp_track [f; a1] at_ axt st = Some (at', axt', st') ∧ t_state (e_t at') = CT_TCP_CLOSED.
Proof.
  intros Hs Hi Ho Hdf Hff Hrf (Hd1 & _ & Ha1 & Hr1) (Hd2 & Hdsr & Ha2 & Hr2). unfold tp_has in *. cbn [tcp_track].
  destruct (tcp_sm_step (tp_xf f) (tp_hdr f) (tp_gso f) at_ axt (tp_dir f) st) as (xf1 & xf2 & at1 & axt1 & st1 & -> & Hat1 & _ & Hfl1 & _). rewrite Hdf in *.
  set (t0 := raw_noted (tp_hdr f) CT_DIR_IN (e_t at_)) in *.
  assert (Hw1 : tcp_switch xf2 (tp_hdr f) (tp_gso f) CT_DIR_IN t0 = mk_tcp_sw CT_TCP_FINI ((t_in t0) <| td_seq := th_seq (tp_hdr f) |>) (t_out t0) CT_DIR_IN false false).
  { unfold tcp_switch. rewrite Hfl1, Hrf, Hff. change (t_state t0) with (t_state (e_t at_)). by rewrite Hs. }
  rewrite Hw1 in *. change (tcp_smr (sw_state (mk_tcp_sw CT_TCP_FINI _ _ _ _ _))) with CT_SMR_FIN. rewrite decide_False by (intros [?|?]; done).
  destruct (tcp_sm_step (tp_xf a1) (tp_hdr a1) (tp_gso a1) at1 axt1 (tp_dir a1) st1) as (xf3 & xf4 & at2 & axt2 & st2 & -> & Hat2 & _ & Hfl2 & _). rewrite Hd1 in *.
  set (t1 := raw_noted (tp_hdr a1) CT_DIR_IN (e_t at1)) in *.
  assert (Hst1 : t_state t1 = CT_TCP_FINI ∧ t_fndir t1 = CT_DIR_IN ∧ init_acks (t_in t1) = 0 ∧ init_acks (t_out t1) = 0) by (subst t1; rewrite Hat1; cbn; done).
  destruct Hst1 as (Hst1 & Hfd1 & Hi1 & Ho1).
  assert (Hw2 : tcp_switch xf4 (tp_hdr a1) (tp_gso a1) CT_DIR_IN t1 = mk_tcp_sw CT_TCP_CLOSED (t_in t1) (t_out t1) CT_DIR_IN false false).
  { unfold tcp_switch. rewrite Hfl2, Hr1, Hst1, Hfd1. cbn zeta. by rewrite decide_False by (intros H; apply H; done). }
  rewrite Hw2 in *. change (tcp_smr (sw_state (mk_tcp_sw CT_TCP_CLOSED _ _ _ _ _))) with CT_SMR_INPROG. rewrite decide_False by (intros [?|?]; done).
  split; [|eexists _, _, _; split; [reflexivity|by rewrite Hat2]].
  destruct (tcp_sm_step (tp_xf a2) (tp_hdr a2) (tp_gso a2) at2 axt2 (tp_dir a2) st2) as (xf5 & xf6 & at3 & axt3 & st3 & -> & _ & _ & Hfl3 & Hds3 & _). rewrite Hd2 in *.
  set (t2 := raw_noted (tp_hdr a2) CT_DIR_IN (e_t at2)) in *.
  assert (Hst2 : t_state t2 = CT_TCP_CLOSED ∧ init_acks (t_in t2) = 0 ∧ init_acks (t_out t2) = 0) by (subst t2; rewrite Hat2; cbn; done). destruct Hst2 as (Hst2 & Hi2 & Ho2).
  assert (Hw3 : sw_state (tcp_switch xf6 (tp_hdr a2) (tp_gso a2) CT_DIR_IN t2) = CT_TCP_ERR).
  { unfold tcp_switch. cbn [cts other_dir]. rewrite Hfl3, Hr2, Ha2, Hst2, Hds3, Hdsr, Hi2, Ho2. cbn. done. }
  rewrite Hw3. cbn. by rewrite decide_True by (by left).
Qed.

(** ** Examples *)

Definition tcp_pkt (flags seq ack : Z) (dir : ct_dir) : tpkt := mk_tpkt (xfi_zero <| x_tcp_flags := flags |> <| x_l3_len := 60 |>) (mk_tcp_hdr seq ack) false dir.
Definition ct_err_zero : ct_err_stats := mk_ct_err_stats 0 0 0 0 0.

(** SYN, SYN-ACK, ACK, some data. *)
Definition opening : list tpkt :=
  [tcp_pkt 2 100 0 CT_DIR_IN; tcp_pkt 18 4294967295 101 CT_DIR_OUT; tcp_pkt 16 101 0 CT_DIR_IN; tcp_pkt 24 101 0 CT_DIR_IN].

Lemma tcp_established_after_handshake_witness : handshake opening.
Proof.
  destruct (tcp_track opening dp_ct_tact_zero dp_ct_tact_zero ct_err_zero) as [[[at' axt'] st']|] eqn:E; [|vm_compute in E; discriminate].
  destruct (tcp_established_after_handshake opening dp_ct_tact_zero ct_err_zero at' axt' st') as [_ H]; [repeat constructor|intros p Hp; cbn in Hp; simplify_eq; done|done|exact E|].
  apply H; vm_compute in E; simplify_eq; done.
Defined.

(** A connection older than the datapath: the first ACK seen is counted as the
    first of three, answered with CT_TCP_ERR, and the entry is gone with its count. *)
Example midstream_never_accepted :
  let ack d := tcp_pkt 16 500 900 d in
  tcp_track [ack CT_DIR_IN] dp_ct_tact_zero dp_ct_tact_zero ct_err_zero = None ∧
  tcp_track [ack CT_DIR_IN; ack CT_DIR_OUT; ack CT_DIR_IN; ack CT_DIR_OUT; ack CT_DIR_IN; ack CT_DIR_OUT] dp_ct_tact_zero dp_ct_tact_zero ct_err_zero = None.
Proof. vm_compute. split; reflexivity. Qed.

Definition est_entry : dp_ct_tact := on_t (λ t, t <| t_state := CT_TCP_EST |>) dp_ct_tact_zero.

Lemma tcp_half_close_torn_down_witness :
  tcp_track [tcp_pkt 17 200 0 CT_DIR_IN; tcp_pkt 16 201 0 CT_DIR_IN; tcp_pkt 16 201 1400 CT_DIR_IN] est_entry est_entry ct_err_zero = None.
Proof.
  apply (tcp_half_close_torn_down est_entry est_entry ct_err_zero (tcp_pkt 17 200 0 CT_DIR_IN) (tcp_pkt 16 201 0 CT_DIR_IN) (tcp_pkt 16 201 1400 CT_DIR_IN));
    repeat split; reflexivity.
Defined.
