(* ===== verification/KSctp.v ===== *)
(** * Kernel datapath: SCTP connection tracking (src/kernel/llb_kern_ct.c, dp_ct_sctp_sm)

    The SCTP machine reads and writes the packet's bytes: it follows the
    association's chunks (INIT, INIT-ACK, COOKIE-ECHO, ...), collects the address
    parameters of a multi-homed endpoint, rewrites them to the service's own
    addresses and appends those that are missing. A packet is its linear bytes and
    its full length; growing it is the kernel's bpf_skb_change_tail, an argument.
    Theorems: an association is only taken for established after INIT and
    INIT-ACK with matching verification tags (or mid-stream, by the client), and
    the tables of addresses are never overrun. *)

From stdpp Require Import base list gmap numbers.
From S2P Require Import Prelude KTypes KCtSm.

(** ** Packets *)

Record skb := mk_skb { sk_data : list Z; sk_len : Z }.
#[export] Instance skb_eta : RecordEta skb := fun r => mk_skb (sk_data r) (sk_len r).

(** [n] bytes at [off] lie before data_end. *)
Definition fits (sk : skb) (off n : Z) : bool := off + n <=? zlen (sk_data sk).
Definition ld8 (sk : skb) (off : Z) : Z := sk_data sk !!! Z.to_nat off.
Definition be16 (sk : skb) (off : Z) : Z := 256 * ld8 sk off + ld8 sk (off + 1).
(** A 32-bit field as the (little-endian) program holds it. *)
Definition ld32 (sk : skb) (off : Z) : Z := ld8 sk off + 256 * (ld8 sk (off + 1) + 256 * (ld8 sk (off + 2) + 256 * ld8 sk (off + 3))).
Definition st8 (off v : Z) (sk : skb) : skb := sk <| sk_data ::= <[Z.to_nat off := v]> |>.
Definition st_be16 (off v : Z) (sk : skb) : skb := st8 (off + 1) (v `mod` 256) (st8 off (v / 256 `mod` 256) sk).
Definition st32 (off v : Z) (sk : skb) : skb :=
  st8 (off + 3) (v / 16777216 `mod` 256) (st8 (off + 2) (v / 65536 `mod` 256) (st8 (off + 1) (v / 256 `mod` 256) (st8 off (v `mod` 256) sk))).

(** sizeof of the headers *)
Definition SCTPHDR : Z := 12.
Definition SCTP_DCH : Z := 4.
Definition SCTP_INIT_CH : Z := 16.
Definition SCTP_PARAM : Z := 4.

Definition SCTP_DATA : Z := 0.
Definition SCTP_INIT_CHUNK : Z := 1.
Definition SCTP_INIT_CHUNK_ACK : Z := 2.
Definition SCTP_SACK : Z := 3.
Definition SCTP_HB_REQ : Z := 4.
Definition SCTP_HB_ACK : Z := 5.
Definition SCTP_ABORT : Z := 6.
Definition SCTP_SHUT : Z := 7.
Definition SCTP_SHUT_ACK : Z := 8.
Definition SCTP_ERROR : Z := 9.
Definition SCTP_COOKIE_ECHO : Z := 10.
Definition SCTP_COOKIE_ACK : Z := 11.
Definition SCTP_SHUT_COMPLETE : Z := 14.
Definition SCTP_IPV4_ADDR_PARAM : Z := 5.
Definition SCTP_MAX_INIT_ACK_SZ : Z := 2000.
Definition LLB_MAX_SCTP_CHUNKS_INIT : nat := 8.

(** ** Address parameters *)

Definition pmhh_get (t : Z * Z * Z) (i : Z) : Z := let '(a, b, c) := t in if i =? 0 then a else if i =? 1 then b else c.

(** The address to put in place of the [i]-th one: the service's own [i]-th, else
    its first, else the NAT address; None: left as it is. *)
Definition host_for (nv6 : Z) (pmhh : Z * Z * Z) (nat_ip i : Z) : option Z :=
  if negb (nv6 =? 0) then None
  else if (i <? LLB_MAX_MHOSTS) && negb (pmhh_get pmhh i =? 0) then Some (pmhh_get pmhh i)
  else if negb (pmhh_get pmhh 0 =? 0) then Some (pmhh_get pmhh 0)
  else if negb (nat_ip =? 0) then Some nat_ip
  else None.

Definition put_host (h : option Z) (off : Z) (sk : skb) : skb := match h with Some v => st32 off v sk | None => sk end.

(** The walk over a chunk's parameters; [pw_bad]: it left the first 4096 bytes. *)
Record pwalk := mk_pwalk { pw_skb : skb; pw_d : sctp_pinfd; pw_bad : bool }.

Fixpoint sctp_params (n : nat) (host : Z → option Z) (poff nh : Z) (sk : skb) (d : sctp_pinfd) : pwalk :=
  match n with
  | O => mk_pwalk sk d false
  | S n =>
      if poff >=? 4096 then mk_pwalk sk d true
      else if negb (fits sk poff SCTP_PARAM) then mk_pwalk sk d false
      else
        let next sk := u16 (poff + Z.land (be16 sk (poff + 2) + 3) (Z.lnot 3)) in
        if be16 sk poff =? SCTP_IPV4_ADDR_PARAM then
          let ipo := poff + SCTP_PARAM in
          if negb (fits sk ipo 4) then mk_pwalk sk d false
          else
            let ip := ld32 sk ipo in
            let new := (nh <=? LLB_MAX_MHOSTS) && negb (ip =? s_osrc d) in
            let d := if new then d <| mh_host ::= <[Z.to_nat nh := ip]> |> <| s_nh ::= (λ k, u32 (k + 1)) |> else d in
            let nh := if new then nh + 1 else nh in
            let sk := put_host (host (nh - 1)) ipo sk in
            sctp_params n host (next sk) nh sk d
        else sctp_params n host (next sk) nh sk d
  end.

(** mh_host[0] = saddr, nh = 1, and both addresses of the packet *)
Definition first_host (xf : xfi) (d : sctp_pinfd) : sctp_pinfd :=
  mk_sctp_pinfd 1 (addr4 (x_daddr xf)) (addr4 (x_saddr xf)) (<[0%nat := addr4 (x_saddr xf)]> (mh_host d)).

(** The loop that appends address parameters at the packet's end. *)
Fixpoint sctp_append (n : nat) (host : Z → option Z) (i diff pm poff : Z) (sk : skb) : skb :=
  match n with
  | O => sk
  | S n =>
      if i >=? diff then sk
      else if poff >? SCTP_MAX_INIT_ACK_SZ then sk
      else
        let pm := pm + poff in
        if negb (fits sk pm SCTP_PARAM) then sk
        else
          let sk := st_be16 (pm + 2) (SCTP_PARAM + 4) (st_be16 pm SCTP_IPV4_ADDR_PARAM sk) in
          if negb (fits sk (pm + SCTP_PARAM) 4) then sk
          else sctp_append n host (i + 1) diff pm (SCTP_PARAM + 4) (put_host (host i) (pm + SCTP_PARAM) sk)
  end.

Definition s16 (z : Z) : Z := (z + 32768) `mod` 65536 - 32768.

Section machine.

(** bpf_skb_change_tail: the packet at its new length, or failure. *)
Context (change_tail : skb → Z → option skb).

(** add_nph0 and add_nph1: the addresses the endpoint did not name. *)
Definition sctp_add_nph (host : Z → option Z) (npmhh nh : Z) (xf : xfi) (sk : skb) : xfi * skb * bool :=
  if u32 (nh - 1) <? npmhh then
    let diff := npmhh - nh + 1 in
    let grow := diff * (SCTP_PARAM + 4) in
    let poff := u16 (sk_len sk) in
    match change_tail sk (grow + poff) with
    | None => (LLBS_PPLN_DROPC LLB_PIPE_RC_PLCT_ERR xf, sk, false)
    | Some sk =>
        if negb (fits sk 0 SCTP_PARAM) then (xf, sk, false)
        else
          let sk := sctp_append (Z.to_nat LLB_MAX_MHOSTS) host 0 diff 0 poff sk in
          let so := x_l4_off xf in
          if negb (fits sk so SCTPHDR) || negb (fits sk (so + SCTPHDR) SCTP_DCH) then (xf, sk, false)
          else
            let co := so + SCTPHDR in
            (xf <| x_l3_adj := s16 grow |>, st_be16 (co + 2) (u16 (be16 sk (co + 2) + grow)) sk, true)
    end
  else (xf, sk, true).

(** What the switch leaves: [so_next] None is the early return of -1. *)
Record sctp_out := mk_sctp_out { so_next : option sctp_state; so_ss : sctp_pinf; so_xf : xfi; so_skb : skb; so_mhon : bool }.

(** case CT_SCTP_CLOSED *)
Definition sctp_closed (xf : xfi) (sk : skb) (at_ : dp_ct_tact) (dir : ct_dir) (ss : sctp_pinf) : sctp_out :=
  let co := x_l4_off xf + SCTPHDR in
  let ctype := ld8 sk co in
  let vtag := ld32 sk (x_l4_off xf + 4) in
  let to s := mk_sctp_out (Some s) ss xf sk false in
  if negb (x_dsr xf =? 0) then to CT_SCTP_EST
  else if bool_decide (dir = CT_DIR_IN) && negb (nat_flags (d_xi (ctd at_)) =? 0) && negb (vtag =? 0) &&
          ((ctype =? SCTP_DATA) || (ctype =? SCTP_SACK) || (ctype =? SCTP_HB_REQ) || (ctype =? SCTP_HB_ACK)) then to CT_SCTP_EST
  else if negb (ctype =? SCTP_INIT_CHUNK) || bool_decide (dir ≠ CT_DIR_IN) then to CT_SCTP_ERR
  else
    let io := co + SCTP_DCH in
    if negb (fits sk io SCTP_INIT_CH) then to (s_state ss)
    else
      let ss := ss <| s_itag := ld32 sk io |> in
      let host := host_for (na_nv6 (c_nat at_)) (pi_pmhh (d_pi (ctd at_))) (addr4 (na_rip (c_nat at_))) in
      let npmhh := pi_npmhh (d_pi (ctd at_)) in
      let po := io + SCTP_INIT_CH in
      if negb (fits sk po SCTP_PARAM) then
        let '(xf, sk, _) := sctp_add_nph host npmhh (s_nh (s_in ss)) xf sk in mk_sctp_out (Some CT_SCTP_INIT) ss xf sk false
      else if x_v6 xf || (nat_flags (d_xi (ctd at_)) =? 0) then mk_sctp_out (Some CT_SCTP_INIT) ss xf sk false
      else
        let w := sctp_params LLB_MAX_SCTP_CHUNKS_INIT host po 1 sk (first_host xf (s_in ss)) in
        let ss := ss <| s_in := pw_d w |> in
        if pw_bad w then mk_sctp_out None ss (LLBS_PPLN_DROPC LLB_PIPE_RC_PLCT_ERR xf) (pw_skb w) false
        else let '(xf, sk, _) := sctp_add_nph host npmhh (s_nh (s_in ss)) xf (pw_skb w) in mk_sctp_out (Some CT_SCTP_INIT) ss xf sk false.

(** case CT_SCTP_INIT *)
Definition sctp_init (xf : xfi) (sk : skb) (at_ axt : dp_ct_tact) (dir : ct_dir) (ss : sctp_pinf) : sctp_out :=
  let co := x_l4_off xf + SCTPHDR in
  let ctype := ld8 sk co in
  let vtag := ld32 sk (x_l4_off xf + 4) in
  let to s := mk_sctp_out (Some s) ss xf sk false in
  if negb (ctype =? SCTP_INIT_CHUNK) && negb (ctype =? SCTP_INIT_CHUNK_ACK) then to CT_SCTP_ERR
  else if ((ctype =? SCTP_INIT_CHUNK) && bool_decide (dir ≠ CT_DIR_IN)) || ((ctype =? SCTP_INIT_CHUNK_ACK) && bool_decide (dir ≠ CT_DIR_OUT)) then to CT_SCTP_ERR
  else
    let io := co + SCTP_DCH in
    if negb (fits sk io SCTP_INIT_CH) then to (s_state ss)
    else if negb (ctype =? SCTP_INIT_CHUNK) && negb (vtag =? s_itag ss) then to CT_SCTP_ERR
    else
      let '(ss, nstate) :=
        if ctype =? SCTP_INIT_CHUNK then (ss <| s_itag := ld32 sk io |> <| s_otag := 0 |>, CT_SCTP_INIT)
        else (ss <| s_otag := ld32 sk io |>, CT_SCTP_INITA) in
      if x_v6 xf || (nat_flags (d_xi (ctd at_)) =? 0) then mk_sctp_out (Some nstate) ss xf sk false
      else
        let pmhh := pi_pmhh (d_pi (ctd axt)) in
        let nat_ip := addr4 (na_xip (c_nat axt)) in
        let npmhh := pi_npmhh (d_pi (ctd at_)) in
        let po := io + SCTP_INIT_CH in
        let w :=
          if negb (fits sk po SCTP_PARAM) then mk_pwalk sk (s_out ss) false
          else sctp_params LLB_MAX_SCTP_CHUNKS_INIT (host_for (na_nv6 (c_nat axt)) pmhh nat_ip) po 1 sk (first_host xf (s_out ss)) in
        let ss := ss <| s_out := pw_d w |> in
        if pw_bad w then mk_sctp_out None ss (LLBS_PPLN_DROPC LLB_PIPE_RC_PLCT_ERR xf) (pw_skb w) false
        else
          let '(xf, sk, ok) := sctp_add_nph (host_for 0 pmhh nat_ip) npmhh (s_nh (s_out ss)) xf (pw_skb w) in
          mk_sctp_out (Some nstate) ss xf sk (ok && (npmhh >? 0)).

(** The cases after INIT-ACK, which only look at the packet. *)
Definition sctp_later (xf : xfi) (sk : skb) (dir : ct_dir) (ss : sctp_pinf) : sctp_out :=
  let co := x_l4_off xf + SCTPHDR in
  let ctype := ld8 sk co in
  let vtag := ld32 sk (x_l4_off xf + 4) in
  let io := co + SCTP_DCH in
  let with_ss s ss := mk_sctp_out (Some s) ss xf sk false in
  let to s := with_ss s ss in
  let isin := bool_decide (dir = CT_DIR_IN) in
  match s_state ss with
  | CT_SCTP_INITA =>
      if (negb (ctype =? SCTP_INIT_CHUNK) && negb isin) && (negb (ctype =? SCTP_COOKIE_ECHO) && negb isin) then to CT_SCTP_ERR
      else if ctype =? SCTP_INIT_CHUNK then
        if negb (fits sk io SCTP_INIT_CH) then to (s_state ss)
        else with_ss CT_SCTP_INIT (ss <| s_itag := ld32 sk io |> <| s_otag := 0 |>)
      else if negb (fits sk io 4) then to (s_state ss)
      else if negb (s_otag ss =? vtag) then to CT_SCTP_ERR
      else with_ss CT_SCTP_COOKIE (ss <| s_cookie := ld32 sk io |>)
  | CT_SCTP_COOKIE =>
      if negb (ctype =? SCTP_COOKIE_ACK) && isin then to CT_SCTP_ERR
      else if negb (s_itag ss =? vtag) then to CT_SCTP_ERR
      else to CT_SCTP_COOKIEA
  | CT_SCTP_COOKIEA => to CT_SCTP_EST
  | CT_SCTP_PRE_EST => if isin then to CT_SCTP_EST else to (s_state ss)
  | CT_SCTP_ABRT => to CT_SCTP_ABRT
  | CT_SCTP_SHUT => if negb (ctype =? SCTP_SHUT_ACK) && isin then to CT_SCTP_ERR else to CT_SCTP_SHUTA
  | CT_SCTP_SHUTA => if negb (ctype =? SCTP_SHUT_COMPLETE) && negb isin then to CT_SCTP_ERR else to CT_SCTP_SHUTC
  | s => to s
  end.

Definition sctp_switch (xf : xfi) (sk : skb) (at_ axt : dp_ct_tact) (dir : ct_dir) : sctp_out :=
  let ss := e_s at_ in
  let ctype := ld8 sk (x_l4_off xf + SCTPHDR) in
  if ctype =? SCTP_ERROR then mk_sctp_out (Some CT_SCTP_ERR) ss xf sk false
  else if ctype =? SCTP_SHUT then mk_sctp_out (Some CT_SCTP_SHUT) ss xf sk false
  else if ctype =? SCTP_ABORT then mk_sctp_out (Some CT_SCTP_ABRT) ss xf sk false
  else
    match s_state ss with
    | CT_SCTP_CLOSED => sctp_closed xf sk at_ dir ss
    | CT_SCTP_INIT => sctp_init xf sk at_ axt dir ss
    | _ => sctp_later xf sk dir ss
    end.

Definition sctp_account (old new : sctp_state) (st : ct_err_stats) : ct_err_stats :=
  if decide (old = new) then st
  else match new with
       | CT_SCTP_ABRT => st <| CT_ERR_STAT_SCTP_ABORT ::= bump |>
       | CT_SCTP_ERR => st <| CT_ERR_STAT_SCTP_ERR ::= bump |>
       | _ => st
       end.

Definition sctp_smr (s : sctp_state) : ct_smr :=
  match s with
  | CT_SCTP_EST => CT_SMR_EST
  | CT_SCTP_SHUTC => CT_SMR_CTD
  | CT_SCTP_ERR => CT_SMR_ERR
  | CT_SCTP_SHUT | CT_SCTP_SHUTA | CT_SCTP_ABRT => CT_SMR_FIN
  | _ => CT_SMR_INPROG
  end.

Definition set_mhon (e : dp_ct_tact) : dp_ct_tact := e <| ctd ::= (λ d, d <| d_xi ::= (λ x, x <| mhon := 1 |>) |>) |>.

Definition dp_ct_sctp_sm (xf : xfi) (sk : skb) (at_ axt : dp_ct_tact) (dir : ct_dir) (st : ct_err_stats) :
    xfi * skb * dp_ct_tact * dp_ct_tact * ct_err_stats * ct_smr :=
  if negb (fits sk (x_l4_off xf) SCTPHDR) || negb (fits sk (x_l4_off xf + SCTPHDR) SCTP_DCH) then
    (LLBS_PPLN_DROPC LLB_PIPE_RC_PLCT_ERR xf, sk, at_, axt, st, CT_SMR_ERR)
  else
    let '(at_, axt) := count_dir dir (x_l3_len xf) at_ axt in
    let o := sctp_switch xf sk at_ axt dir in
    let old := s_state (e_s at_) in
    let at_ := on_s (λ _, so_ss o) at_ in
    let '(at_, axt) := if so_mhon o then (set_mhon at_, set_mhon axt) else (at_, axt) in
    match so_next o with
    | None => (so_xf o, so_skb o, at_, axt, st, CT_SMR_ERR)
    | Some nstate =>
        let nstate := if negb (s_nh (s_in (so_ss o)) =? 0) && bool_decide (nstate = CT_SCTP_COOKIE) then CT_SCTP_EST else nstate in
        (so_xf o, so_skb o, on_s (λ s, s <| s_state := nstate |>) at_, on_s (λ s, s <| s_state := nstate |>) axt,
         sctp_account old nstate st, sctp_smr nstate)
    end.

End machine.

(** ** Following an association *)

Record spkt := mk_spkt { sp_xf : xfi; sp_skb : skb; sp_dir : ct_dir }.
Definition sp_chunk (p : spkt) : Z := ld8 (sp_skb p) (x_l4_off (sp_xf p) + SCTPHDR).
Definition sp_vtag (p : spkt) : Z := ld32 (sp_skb p) (x_l4_off (sp_xf p) + 4).
(** The initiate tag of an INIT or INIT-ACK chunk, and a cookie's first word *)
Definition sp_tag (p : spkt) : Z := ld32 (sp_skb p) (x_l4_off (sp_xf p) + SCTPHDR + SCTP_DCH).

Section track.
Context (change_tail : skb → Z → option skb).

Fixpoint sctp_track (ps : list spkt) (at_ axt : dp_ct_tact) (st : ct_err_stats) : option (dp_ct_tact * dp_ct_tact * ct_err_stats) :=
  match ps with
  | [] => Some (at_, axt, st)
  | p :: ps =>
      let '(_, _, at_, axt, st, smr) := dp_ct_sctp_sm change_tail (sp_xf p) (sp_skb p) at_ axt (sp_dir p) st in
      if decide (smr = CT_SMR_ERR ∨ smr = CT_SMR_CTD) then None else sctp_track ps at_ axt st
  end.

(** The client is in the middle of an association: a data or heartbeat chunk with a
    tag. *)
Definition midstream (p : spkt) : Prop :=
  sp_dir p = CT_DIR_IN ∧ sp_vtag p ≠ 0 ∧ sp_chunk p ∈ [SCTP_DATA; SCTP_SACK; SCTP_HB_REQ; SCTP_HB_ACK].
Definition is_init (p : spkt) : Prop := sp_chunk p = SCTP_INIT_CHUNK.
(** A client's INIT cut before its end, which leaves a closed entry closed. *)
Definition cut_init (p : spkt) : Prop :=
  is_init p ∧ sp_dir p = CT_DIR_IN ∧ fits (sp_skb p) (x_l4_off (sp_xf p) + SCTPHDR + SCTP_DCH) SCTP_INIT_CH = false.
(** The service's INIT-ACK of [p] carries the tag [p] proposed. *)
Definition is_init_ack (p q : spkt) : Prop := sp_dir q = CT_DIR_OUT ∧ sp_chunk q = SCTP_INIT_CHUNK_ACK ∧ sp_vtag q = sp_tag p.
(** The next step carries the tag of the INIT-ACK [q]; from the service it has to
    be a COOKIE-ECHO, from the client any chunk is taken for one. *)
Definition is_cookie (q r : spkt) : Prop := sp_vtag r = sp_tag q ∧ (sp_dir r = CT_DIR_IN ∨ sp_chunk r = SCTP_COOKIE_ECHO).

(** The packets of an established entry whose translation flags are [nf]: its first
    packet, but for cut INITs, joins in the middle, which only a translated entry
    allows; or they hold the opening exchange. *)
Definition association (nf : Z) (ps : list spkt) : Prop :=
  (nf ≠ 0 ∧ ∃ a p d, ps = a ++ p :: d ∧ Forall cut_init a ∧ midstream p) ∨
  ∃ a p b q c r d, ps = a ++ p :: b ++ q :: c ++ r :: d ∧ is_init p ∧ is_init_ack p q ∧ is_cookie q r.

Lemma snoc3 {A} (a b c : list A) p q x : (a ++ p :: b ++ q :: c) ++ [x] = a ++ p :: b ++ q :: (c ++ [x]).
Proof. by rewrite <- app_assoc, <- app_comm_cons, <- app_assoc, <- app_comm_cons. Qed.

Lemma association_snoc nf ps x : association nf ps → association nf (ps ++ [x]).
Proof.
  intros [(Hnf & a & p & d & -> & H)|(a & p & b & q & c & r & d & -> & H)]; [left; split; [done|]; exists a, p, (d ++ [x]); split; [by rewrite <- app_assoc|done]|].
  right. exists a, p, b, q, c, r, (d ++ [x]). split; [|done]. by rewrite snoc3, <- app_assoc.
Qed.

Inductive sctp_progress (nf : Z) (ps : list spkt) (ss : sctp_pinf) : Prop :=
| sp_fresh : s_state ss = CT_SCTP_CLOSED → Forall cut_init ps → sctp_progress nf ps ss
| sp_init a p b : ps = a ++ p :: b → is_init p → s_state ss = CT_SCTP_INIT → s_itag ss = sp_tag p → sctp_progress nf ps ss
| sp_inita a p b q c : ps = a ++ p :: b ++ q :: c → is_init p → is_init_ack p q → s_state ss = CT_SCTP_INITA → s_otag ss = sp_tag q → sctp_progress nf ps ss
| sp_closing : s_state ss ∈ [CT_SCTP_SHUT; CT_SCTP_SHUTA; CT_SCTP_ABRT] → sctp_progress nf ps ss
| sp_done : association nf ps → sctp_progress nf ps ss.

(** The outcomes of the switch in the opening states. *)
Lemma closed_outcomes p at_ : x_dsr (sp_xf p) = 0 → s_state (e_s at_) = CT_SCTP_CLOSED →
  let o := sctp_closed change_tail (sp_xf p) (sp_skb p) at_ (sp_dir p) (e_s at_) in
  so_next o = None ∨ so_next o = Some CT_SCTP_ERR ∨ (so_next o = Some CT_SCTP_CLOSED ∧ cut_init p) ∨ (so_next o = Some CT_SCTP_EST ∧ midstream p ∧ nat_flags (d_xi (ctd at_)) ≠ 0) ∨
  (so_next o = Some CT_SCTP_INIT ∧ is_init p ∧ s_itag (so_ss o) = sp_tag p).
Proof.
  intros Hd Hs. unfold sctp_closed. rewrite Hd. cbn zeta. cbn [negb Z.eqb]. fold (sp_chunk p) (sp_vtag p).
  destruct (_ && _ && _ && _) eqn:Em.
  - do 3 right. left. split; [done|]. rewrite !andb_true_iff, !orb_true_iff, bool_decide_eq_true, !Z.eqb_eq, !negb_true_iff, !Z.eqb_neq in Em.
    destruct Em as [[[Hdir Hnf] Hv] Hc]. split; [|done]. split; [done|]. split; [done|]. destruct Hc as [[[-> | ->]| ->]| ->]; repeat (first [by left|right]).
  - clear Em. destruct (Z.eqb_spec (sp_chunk p) SCTP_INIT_CHUNK) as [Hc|]; cbn [negb orb]; [|by right; left].
    case_bool_decide as Hdir; [by right; left|]. destruct (fits _ _ SCTP_INIT_CH) eqn:Ef; cbn [negb];
      [|rewrite Hs; do 2 right; left; split; [done|]; split_and!; [done|by destruct (sp_dir p)|exact Ef]].
    set (ss1 := (e_s at_) <| s_itag := _ |>). assert (Ht : s_itag ss1 = sp_tag p) by done.
    destruct (fits _ _ SCTP_PARAM); cbn [negb].
    + destruct (x_v6 _ || _); [by do 4 right|]. destruct (pw_bad _); [by left|]. destruct (sctp_add_nph _ _ _ _ _ _) as [[xf' sk'] ok]. by do 4 right.
    + destruct (sctp_add_nph _ _ _ _ _ _) as [[xf' sk'] ok]. by do 4 right.
Qed.

Lemma init_outcomes p at_ axt : s_state (e_s at_) = CT_SCTP_INIT →
  let o := sctp_init change_tail (sp_xf p) (sp_skb p) at_ axt (sp_dir p) (e_s at_) in
  so_next o = None ∨ so_next o = Some CT_SCTP_ERR ∨ (so_next o = Some CT_SCTP_INIT ∧ so_ss o = e_s at_) ∨
  (so_next o = Some CT_SCTP_INIT ∧ is_init p ∧ s_itag (so_ss o) = sp_tag p) ∨
  (so_next o = Some CT_SCTP_INITA ∧ sp_dir p = CT_DIR_OUT ∧ sp_chunk p = SCTP_INIT_CHUNK_ACK ∧ sp_vtag p = s_itag (e_s at_) ∧ s_otag (so_ss o) = sp_tag p).
Proof.
  intros Hs. unfold sctp_init. cbn zeta. fold (sp_chunk p) (sp_vtag p).
  destruct (Z.eqb_spec (sp_chunk p) SCTP_INIT_CHUNK) as [Hc|Hc]; cbn [negb andb orb].
  - case_bool_decide; cbn [orb]; [by right; left|]. rewrite Hc. cbn [Z.eqb SCTP_INIT_CHUNK SCTP_INIT_CHUNK_ACK Pos.eqb andb].
    destruct (fits _ _ SCTP_INIT_CH); cbn [negb]; [|by rewrite Hs; do 2 right; left].
    set (ss1 := (e_s at_) <| s_itag := _ |> <| s_otag := _ |>). assert (Ht : s_itag ss1 = sp_tag p) by done.
    destruct (x_v6 _ || _); [by do 3 right; left|]. destruct (pw_bad _); [by left|]. destruct (sctp_add_nph _ _ _ _ _ _) as [[xf' sk'] ok]. by do 3 right; left.
  - destruct (Z.eqb_spec (sp_chunk p) SCTP_INIT_CHUNK_ACK) as [Ha|]; cbn [negb andb]; [|by right; left].
    destruct (decide (sp_dir p = CT_DIR_OUT)) as [Hdir|Hdir]; [rewrite bool_decide_false by (by intros ?)|rewrite bool_decide_true by done; by right; left]. destruct (fits _ _ SCTP_INIT_CH); cbn [negb]; [|by rewrite Hs; do 2 right; left].
    destruct (Z.eqb_spec (sp_vtag p) (s_itag (e_s at_))) as [Hv|]; cbn [negb]; [|by right; left].
    set (ss1 := (e_s at_) <| s_otag := _ |>). assert (Ht : s_otag ss1 = sp_tag p) by done.
    destruct (x_v6 _ || _); [by do 4 right|]. destruct (pw_bad _); [by left|]. destruct (sctp_add_nph _ _ _ _ _ _) as [[xf' sk'] ok]. by do 4 right.
Qed.

Lemma inita_outcomes p at_ : s_state (e_s at_) = CT_SCTP_INITA →
  let o := sctp_later (sp_xf p) (sp_skb p) (sp_dir p) (e_s at_) in
  so_next o = Some CT_SCTP_ERR ∨ (so_next o = Some CT_SCTP_INITA ∧ so_ss o = e_s at_) ∨
  (so_next o = Some CT_SCTP_INIT ∧ is_init p ∧ s_itag (so_ss o) = sp_tag p) ∨
  (so_next o = Some CT_SCTP_COOKIE ∧ sp_vtag p = s_otag (e_s at_) ∧ (sp_dir p = CT_DIR_IN ∨ sp_chunk p = SCTP_COOKIE_ECHO)).
Proof.
  intros Hs. unfold sctp_later. cbn zeta. rewrite Hs. fold (sp_chunk p) (sp_vtag p).
  destruct (Z.eqb_spec (sp_chunk p) SCTP_INIT_CHUNK) as [Hc|Hc]; cbn [negb andb].
  - destruct (fits _ _ SCTP_INIT_CH); cbn [negb]; [by do 2 right; left|by right; left].
  - destruct (negb (bool_decide (sp_dir p = CT_DIR_IN)) && (negb (sp_chunk p =? SCTP_COOKIE_ECHO) && negb (bool_decide (sp_dir p = CT_DIR_IN)))) eqn:Eg; [by left|].
    destruct (fits _ _ 4); cbn [negb]; [|by right; left]. destruct (Z.eqb_spec (s_otag (e_s at_)) (sp_vtag p)) as [Hv|]; cbn [negb]; [|by left].
    do 3 right. split; [done|]. split; [done|]. case_bool_decide; [by left|]. right. cbn in Eg. rewrite andb_true_r in Eg. apply negb_false_iff, Z.eqb_eq in Eg. done.
Qed.

Definition promoted (nstate : sctp_state) (ss : sctp_pinf) : sctp_state :=
  if negb (s_nh (s_in ss) =? 0) && bool_decide (nstate = CT_SCTP_COOKIE) then CT_SCTP_EST else nstate.

(** A packet that does not tear the entry down. *)
Lemma sctp_sm_step p at_ axt st :
  let r := dp_ct_sctp_sm change_tail (sp_xf p) (sp_skb p) at_ axt (sp_dir p) st in
  r.2 ≠ CT_SMR_ERR → ∃ at1 axt1 n, e_s at1 = e_s at_ ∧ d_xi (ctd at1) = d_xi (ctd at_) ∧ let o := sctp_switch change_tail (sp_xf p) (sp_skb p) at1 axt1 (sp_dir p) in
    so_next o = Some n ∧ e_s r.1.1.1.2 = (so_ss o) <| s_state := promoted n (so_ss o) |> ∧ r.2 = sctp_smr (promoted n (so_ss o)).
Proof.
  cbn zeta. unfold dp_ct_sctp_sm. destruct (negb _ || negb _); [done|].
  destruct (count_dir (sp_dir p) (x_l3_len (sp_xf p)) at_ axt) as [at1 axt1] eqn:Ec.
  assert (He : e_s at1 = e_s at_) by (unfold count_dir in Ec; destruct (sp_dir p); by simplify_eq).
  assert (Hx : d_xi (ctd at1) = d_xi (ctd at_)) by (unfold count_dir in Ec; destruct (sp_dir p); by simplify_eq).
  set (o := sctp_switch change_tail (sp_xf p) (sp_skb p) at1 axt1 (sp_dir p)). intros Hr. exists at1, axt1. fold o.
  destruct (so_next o) as [n|] eqn:En; [|by destruct (so_mhon o)]. exists n. fold (promoted n (so_ss o)) in *. by destruct (so_mhon o).
Qed.

(** A packet leaves the translation flags alone. *)
Lemma sctp_sm_flags xf sk at_ axt dir st : nat_flags (d_xi (ctd (dp_ct_sctp_sm change_tail xf sk at_ axt dir st).1.1.1.2)) = nat_flags (d_xi (ctd at_)).
Proof.
  unfold dp_ct_sctp_sm. destruct (negb _ || negb _); [done|]. destruct (count_dir dir (x_l3_len xf) at_ axt) as [at1 axt1] eqn:Ec.
  assert (Hx : d_xi (ctd at1) = d_xi (ctd at_)) by (unfold count_dir in Ec; destruct dir; by simplify_eq).
  destruct (so_mhon _), (so_next _); cbn; by rewrite Hx.
Qed.

Lemma sctp_progress_step nf ps ss p at_ axt st : x_dsr (sp_xf p) = 0 → e_s at_ = ss → nat_flags (d_xi (ctd at_)) = nf → sctp_progress nf ps ss →
  let r := dp_ct_sctp_sm change_tail (sp_xf p) (sp_skb p) at_ axt (sp_dir p) st in
  r.2 ≠ CT_SMR_ERR → r.2 ≠ CT_SMR_CTD → sctp_progress nf (ps ++ [p]) (e_s r.1.1.1.2).
Proof.
  cbn zeta. intros Hd He Hnf Hp Hr1 Hr2. destruct (sctp_sm_step p at_ axt st Hr1) as (at1 & axt1 & n & He1 & Hx1 & Hn & Hs & Hsmr).
  rewrite Hs. rewrite Hsmr in Hr1, Hr2. clear Hs Hsmr. rewrite <- He, <- He1 in Hp. rewrite <- Hx1 in Hnf. clear He He1 Hx1 ss at_. unfold sctp_switch in *.
  set (ct := ld8 (sp_skb p) (x_l4_off (sp_xf p) + SCTPHDR)) in *.
  assert (Hkeep : ∀ n ss, n ≠ CT_SCTP_COOKIE → promoted n ss = n) by (intros n' ss' H; unfold promoted; rewrite (bool_decide_false _ H); by rewrite andb_false_r).
  destruct (ct =? SCTP_ERROR); [cbn in Hn; simplify_eq; by rewrite Hkeep in Hr1|].
  destruct (ct =? SCTP_SHUT); [cbn in Hn; simplify_eq; apply sp_closing; cbn; rewrite Hkeep by done; by left|].
  destruct (ct =? SCTP_ABORT); [cbn in Hn; simplify_eq; apply sp_closing; cbn; rewrite Hkeep by done; by do 2 right; left|].
  destruct Hp as [Hst Hcut|a i b -> Hi Hst Ht|a i b q c -> Hi Hq Hst Ht|Hst|Ha].
  - rewrite Hst in *. destruct (closed_outcomes p at1 Hd Hst) as [E|[E|[[E Hc]|[(E & Hm & Hz)|(E & Hi & Ht)]]]]; rewrite E in Hn; simplify_eq; rewrite ?Hkeep in * by done; [done| | |].
    + apply sp_fresh; [done|]. apply list.Forall_app. by split; [|constructor].
    + apply sp_done. left. split; [done|]. by exists ps, p, [].
    + by apply (sp_init _ _ _ ps p []).
  - rewrite Hst in *. destruct (init_outcomes p at1 axt1 Hst) as [E|[E|[(E & Es)|[(E & Hi2 & Ht2)|(E & Hdir & Hc & Hv & Ho)]]]]; rewrite E in Hn; simplify_eq; rewrite ?Hkeep in * by done; [done| | |].
    + apply (sp_init _ _ _ a i (b ++ [p])); [by rewrite <- app_assoc|done|done|by rewrite Es].
    + by apply (sp_init _ _ _ (a ++ i :: b) p []).
    + apply (sp_inita _ _ _ a i b p []); [by rewrite <- app_assoc|done| |done|done]. split; [done|]. split; [done|]. by rewrite Hv.
  - rewrite Hst in *. destruct (inita_outcomes p at1 Hst) as [E|[(E & Es)|[(E & Hi2 & Ht2)|(E & Hv & Hdir)]]]; rewrite E in Hn; simplify_eq; rewrite ?Hkeep in * by done; [done| | |].
    + apply (sp_inita _ _ _ a i b q (c ++ [p])); [by rewrite snoc3|done|done|done|by rewrite Es].
    + by apply (sp_init _ _ _ (a ++ i :: b ++ q :: c) p []).
    + apply sp_done. right. exists a, i, b, q, c, p, []. split; [by rewrite snoc3|]. split; [done|]. split; [done|]. split; [by rewrite Hv|done].
  - apply sp_closing. rewrite !elem_of_cons, elem_of_nil in Hst. unfold sctp_later in *.
    destruct Hst as [Hst|[Hst|[Hst|[]]]]; rewrite Hst in *; cbn zeta in *.
    + destruct (negb _ && _); cbn in Hn; simplify_eq; rewrite Hkeep in * by done; [done|]. cbn. rewrite ?Hkeep by done. by right; left.
    + destruct (negb _ && _); cbn in Hn; simplify_eq; rewrite Hkeep in * by done; done.
    + cbn in Hn. simplify_eq. cbn. rewrite Hkeep by done. by do 2 right; left.
  - apply sp_done, association_snoc, Ha.
Qed.

Lemma sctp_track_progress nf ps2 : ∀ ps1 at_ axt st at' axt' st', Forall (λ p, x_dsr (sp_xf p) = 0) ps2 → nat_flags (d_xi (ctd at_)) = nf → sctp_progress nf ps1 (e_s at_) →
  sctp_track ps2 at_ axt st = Some (at', axt', st') → sctp_progress nf (ps1 ++ ps2) (e_s at').
Proof.
  induction ps2 as [|p ps2 IH]; intros ps1 at_ axt st at' axt' st' Hd Hnf Hp Ht; [cbn in Ht; simplify_eq; by rewrite app_nil_r|].
  apply list.Forall_cons in Hd as [Hdp Hd]. cbn [sctp_track] in Ht.
  pose proof (sctp_progress_step nf ps1 _ p at_ axt st Hdp eq_refl Hnf Hp) as Hstep. pose proof (sctp_sm_flags (sp_xf p) (sp_skb p) at_ axt (sp_dir p) st) as Hfl. cbn zeta in Hstep.
  destruct (dp_ct_sctp_sm change_tail (sp_xf p) (sp_skb p) at_ axt (sp_dir p) st) as [[[[[xf' sk'] at1] axt1] st1] smr]. cbn in Hstep, Hfl.
  case_decide as Hsmr; [done|]. rewrite (app_assoc ps1 [p] ps2 : ps1 ++ p :: ps2 = _). apply (IH (ps1 ++ [p]) at1 axt1 st1 _ axt' st' Hd); [congruence| |done].
  apply Hstep; intros ->; apply Hsmr; [by left|by right].
Qed.

(** C31. A new SCTP entry, without direct server return, is only ever taken for
    established after an INIT, the service's INIT-ACK carrying the INIT's tag and a
    further packet carrying the INIT-ACK's tag, in this order; or, for a translated
    entry alone, when the very first packet it tracks, but for INITs cut short, is
    the client's data, SACK or heartbeat with a non-zero tag: in no later state does
    such a packet stand in for the exchange. *)
Theorem sctp_established_after_init ps at0 axt0 st at' axt' st' :
  s_state (e_s at0) = CT_SCTP_CLOSED → Forall (λ p, x_dsr (sp_xf p) = 0) ps →
  sctp_track ps at0 axt0 st = Some (at', axt', st') → s_state (e_s at') = CT_SCTP_EST → association (nat_flags (d_xi (ctd at0))) ps.
Proof.
  intros H0 Hd Ht He. pose proof (sctp_track_progress _ ps [] at0 axt0 st at' axt' st' Hd eq_refl (sp_fresh _ [] _ H0 ltac:(constructor)) Ht) as Hp. cbn [app] in Hp.
  destruct Hp as [Hs _|a p b _ _ Hs _|a p b q c _ _ _ Hs _|Hs|Ha]; [congruence|congruence|congruence| |done].
  rewrite He, !elem_of_cons, elem_of_nil in Hs. by destruct Hs as [?|[?|[?|[]]]].
Qed.

(** ** The address tables *)

(** A side's table: LLB_MAX_MHOSTS + 1 places, at most that many in use, the
    first the address the chunk came from and no other one equal to it. *)
Definition hosts_ok (d : sctp_pinfd) : Prop :=
  zlen (mh_host d) = LLB_MAX_MHOSTS + 1 ∧ 0 <= s_nh d <= LLB_MAX_MHOSTS + 1 ∧
  (s_nh d ≠ 0 → mh_host d !! 0%nat = Some (s_osrc d)) ∧
  ∀ i x, 1 <= Z.of_nat i < s_nh d → mh_host d !! i = Some x → x ≠ s_osrc d.

Lemma first_host_ok xf d : zlen (mh_host d) = LLB_MAX_MHOSTS + 1 → hosts_ok (first_host xf d).
Proof.
  intros Hl. unfold first_host, hosts_ok. cbn. unfold zlen in *. rewrite length_insert. split; [done|]. split; [unfold LLB_MAX_MHOSTS; lia|]. split; [|lia].
  intros _. rewrite list_lookup_insert. rewrite decide_True; [done|]. unfold LLB_MAX_MHOSTS in *. lia.
Qed.

Lemma sctp_params_ok n host poff sk d nh : hosts_ok d → s_nh d = nh → 1 <= nh → hosts_ok (pw_d (sctp_params n host poff nh sk d)).
Proof.
  revert poff sk d nh. induction n as [|n IH]; intros poff sk d nh Hd Hnh H1; [done|]. cbn [sctp_params].
  destruct (poff >=? 4096); [done|]. destruct (negb (fits _ _ SCTP_PARAM)); [done|]. destruct (be16 _ _ =? _); [|by apply IH].
  destruct (negb (fits _ _ 4)); [done|]. set (ip := ld32 sk _).
  destruct ((nh <=? LLB_MAX_MHOSTS) && negb (ip =? s_osrc d)) eqn:En; [|by apply IH].
  apply andb_true_iff in En as [En1 En2]. apply Z.leb_le in En1. apply negb_true_iff, Z.eqb_neq in En2. destruct Hd as (Hl & Hn & H0 & Hr).
  assert (Hu : u32 (s_nh d + 1) = nh + 1) by (rewrite Hnh; apply u32_small; unfold LLB_MAX_MHOSTS in *; lia).
  apply IH; [|cbn; lia|lia]. unfold hosts_ok. cbn. rewrite Hu. unfold zlen in *. rewrite length_insert. split; [done|]. split; [unfold LLB_MAX_MHOSTS in *; lia|]. split.
  - intros _. rewrite list_lookup_insert_ne by lia. apply H0. lia.
  - intros i x Hi Hx. destruct (decide (i = Z.to_nat nh)) as [->|Hne].
    + rewrite list_lookup_insert, decide_True in Hx by (split; [done|]; unfold LLB_MAX_MHOSTS in *; lia). by simplify_eq.
    + rewrite list_lookup_insert_ne in Hx by done. apply (Hr i); [lia|done].
Qed.

Definition tables_ok (ss : sctp_pinf) : Prop := hosts_ok (s_in ss) ∧ hosts_ok (s_out ss).

Lemma switch_tables xf sk at_ axt dir : tables_ok (e_s at_) → tables_ok (so_ss (sctp_switch change_tail xf sk at_ axt dir)).
Proof.
  intros [Hi Ho]. unfold sctp_switch. repeat (destruct (_ =? _); [done|]). destruct (s_state (e_s at_)) eqn:Es; try (unfold sctp_later; rewrite Es; cbn zeta; repeat case_match; done).
  - unfold sctp_closed. cbn zeta. destruct (negb (x_dsr xf =? 0)); [done|]. destruct (_ && _ && _ && _); [done|]. destruct (_ || _); [done|]. destruct (negb (fits _ _ SCTP_INIT_CH)); [done|].
    destruct (negb (fits _ _ SCTP_PARAM)); [destruct (sctp_add_nph _ _ _ _ _ _) as [[? ?] ?]; done|]. destruct (x_v6 xf || _); [done|].
    assert (Hp : ∀ host poff, hosts_ok (pw_d (sctp_params LLB_MAX_SCTP_CHUNKS_INIT host poff 1 sk (first_host xf (s_in (e_s at_)))))) by (intros; apply sctp_params_ok; [apply first_host_ok, Hi|done..]).
    destruct (pw_bad _); [split; [apply Hp|done]|]. destruct (sctp_add_nph _ _ _ _ _ _) as [[? ?] ?]. split; [apply Hp|done].
  - unfold sctp_init. cbn zeta. destruct (_ && _); [done|]. destruct (_ || _); [done|]. destruct (negb (fits _ _ SCTP_INIT_CH)); [done|]. destruct (_ && _); [done|].
    destruct (ld8 _ _ =? _); (destruct (x_v6 xf || _); [done|]); (destruct (negb (fits _ _ SCTP_PARAM)); [cbn; destruct (sctp_add_nph _ _ _ _ _ _) as [[? ?] ?]; done|]);
      (assert (Hp : ∀ host poff, hosts_ok (pw_d (sctp_params LLB_MAX_SCTP_CHUNKS_INIT host poff 1 sk (first_host xf (s_out (e_s at_)))))) by (intros; apply sctp_params_ok; [apply first_host_ok, Ho|done..]));
      (destruct (pw_bad _); [split; [done|apply Hp]|]; destruct (sctp_add_nph _ _ _ _ _ _) as [[? ?] ?]; split; [done|apply Hp]).
Qed.

(** C32. The address tables of an association stay well formed whatever the
    packet, its length, its parameter lengths or their number: never more than
    LLB_MAX_MHOSTS + 1 entries in use, none outside the table, the first the
    sender's address and none of the others equal to it. *)
Theorem sctp_tables_ok xf sk at_ axt dir st : tables_ok (e_s at_) →
  tables_ok (e_s (dp_ct_sctp_sm change_tail xf sk at_ axt dir st).1.1.1.2).
Proof.
  intros Hok. unfold dp_ct_sctp_sm. destruct (_ || _); [done|]. destruct (count_dir dir (x_l3_len xf) at_ axt) as [at1 axt1] eqn:Ec.
  assert (He : e_s at1 = e_s at_) by (unfold count_dir in Ec; destruct dir; by simplify_eq).
  pose proof (switch_tables xf sk at1 axt1 dir) as Hs. rewrite He in Hs. specialize (Hs Hok).
  destruct (so_mhon _), (so_next _); exact Hs.
Qed.

End track.

(** ** Examples *)

(** A packet with an SCTP header at offset 0: verification tag, chunk type, tag. *)
Definition sctp_bytes (vtag chunk tag : Z) : list Z :=
  [0; 80; 0; 80; vtag; 0; 0; 0; 0; 0; 0; 0] ++ [chunk; 0; 0; 20] ++ [tag; 0; 0; 0] ++ replicate 12 0.
Definition sctp_pkt (vtag chunk tag : Z) (dir : ct_dir) : spkt := mk_spkt xfi_zero (mk_skb (sctp_bytes vtag chunk tag) 32) dir.
Definition sctp_opening : list spkt :=
  [sctp_pkt 0 SCTP_INIT_CHUNK 7 CT_DIR_IN; sctp_pkt 7 SCTP_INIT_CHUNK_ACK 9 CT_DIR_OUT; sctp_pkt 9 SCTP_COOKIE_ECHO 0 CT_DIR_IN;
   sctp_pkt 7 SCTP_COOKIE_ACK 0 CT_DIR_OUT; sctp_pkt 9 SCTP_DATA 0 CT_DIR_IN].

Lemma sctp_established_after_init_witness : association 0 sctp_opening.
Proof.
  destruct (sctp_track (λ _ _, None) sctp_opening dp_ct_tact_zero dp_ct_tact_zero ct_err_zero) as [[[at' axt'] st']|] eqn:E; [|vm_compute in E; discriminate].
  apply (sctp_established_after_init (λ _ _, None) sctp_opening dp_ct_tact_zero dp_ct_tact_zero ct_err_zero at' axt' st' eq_refl); [repeat constructor|exact E|].
  vm_compute in E. by simplify_eq.
Defined.

Lemma sctp_tables_ok_witness : tables_ok (e_s (dp_ct_sctp_sm (λ _ _, None) xfi_zero (mk_skb (sctp_bytes 0 SCTP_INIT_CHUNK 7) 32) dp_ct_tact_zero dp_ct_tact_zero CT_DIR_IN ct_err_zero).1.1.1.2).
Proof. apply (sctp_tables_ok (λ _ _, None)). split; (split; [done|]); (split; [done|]); (split; [done|]); cbn; lia. Defined.

(** A client's data chunk with the right tag does for the COOKIE-ECHO. *)
Example data_for_cookie :
  option_map (λ r, s_state (e_s r.1.1))
    (sctp_track (λ _ _, None) [sctp_pkt 0 SCTP_INIT_CHUNK 7 CT_DIR_IN; sctp_pkt 7 SCTP_INIT_CHUNK_ACK 9 CT_DIR_OUT; sctp_pkt 9 SCTP_DATA 0 CT_DIR_IN]
       dp_ct_tact_zero dp_ct_tact_zero ct_err_zero) = Some CT_SCTP_COOKIE.
Proof. vm_compute. reflexivity. Qed.
