(* ===== verification/KNat.v ===== *)
(** * Kernel datapath: NAT rules and endpoint selection (src/kernel/llb_kern_natlbfwd.c)

    dp_do_nat looks a packet's rule up, picks an endpoint of it (dp_sel_nat_ep)
    and fills the packet's NAT metadata; dp_do_dec_nat_sess gives a
    least-connections session back. The rule table is written back with what the
    selectors change in it (the round-robin hint, the persistence window).
    The build is the default one (source persistence with its time factor). The
    packet's hash and the clock are inputs. Theorems: round robin serves every
    active slot exactly once per round; every selector picks an active slot when
    there is one; least connections picks a least loaded one; persistence keeps a
    client's slot as long as it is heard from; the connection-limit gate. *)

From stdpp Require Import base list gmap numbers.
From S2P Require Import Prelude KTypes.

(** ** A rule *)

Definition NAT_LB_SEL_RR : Z := 0.
Definition NAT_LB_SEL_HASH : Z := 1.
Definition NAT_LB_SEL_PRIO : Z := 2.
Definition NAT_LB_SEL_RR_PERSIST : Z := 3.
Definition NAT_LB_SEL_LC : Z := 4.
Definition NAT_LB_SEL_N3 : Z := 6.
Definition NAT_LB_PERSIST_TIMEOUT : Z := 10800000000000.
Definition NAT_LB_OP_CHKSRC : Z := 1.
Definition LLB_TUN_GTP : Z := 2.

(** struct dp_nat_key *)
Record dp_nat_key := mk_dp_nat_key { nk_daddr : xaddr; nk_dport : Z; nk_zone : Z; nk_mark : Z; nk_l4proto : Z; nk_v6 : Z }.
#[export] Instance dp_nat_key_eta : RecordEta dp_nat_key := fun r => mk_dp_nat_key (nk_daddr r) (nk_dport r) (nk_zone r) (nk_mark r) (nk_l4proto r) (nk_v6 r).
#[export] Instance dp_nat_key_eq_dec : EqDecision dp_nat_key.
Proof. solve_decision. Defined.
#[export] Instance dp_nat_key_countable : Countable dp_nat_key.
Proof.
  refine (inj_countable' (λ k, (nk_daddr k, nk_dport k, nk_zone k, nk_mark k, nk_l4proto k, nk_v6 k))
    (λ t, let '(d, p, z, m, l, v) := t in mk_dp_nat_key d p z m l v) _). by intros [].
Defined.

(** struct dp_proxy_tacts: what the kernel reads or writes of it. [nxfrms] has
    LLB_MAX_NXFRMS places. *)
Record dp_proxy_tacts := mk_dp_proxy_tacts {
  pa_act_type : Z; pa_cidx : Z; pa_oaux : Z; pa_ito : Z; pa_pto : Z; pa_nxfrm : Z; pa_opflags : Z; pa_cdis : Z; pa_npmhh : Z;
  pa_sel_hint : Z; pa_sel_type : Z; pa_ppv2 : Z; pa_lts : Z; pa_base_to : Z; pa_pmhh : Z * Z * Z; pa_nxfrms : list nxfrm_inf;
  pa_conn_limit : Z; pa_polid : Z
}.
#[export] Instance dp_proxy_tacts_eta : RecordEta dp_proxy_tacts := fun r =>
  mk_dp_proxy_tacts (pa_act_type r) (pa_cidx r) (pa_oaux r) (pa_ito r) (pa_pto r) (pa_nxfrm r) (pa_opflags r) (pa_cdis r) (pa_npmhh r)
    (pa_sel_hint r) (pa_sel_type r) (pa_ppv2 r) (pa_lts r) (pa_base_to r) (pa_pmhh r) (pa_nxfrms r) (pa_conn_limit r) (pa_polid r).

Abbreviation nat_table := (gmap dp_nat_key dp_proxy_tacts).
(** nat_ep_map, by rule number *)
Abbreviation ep_table := (gmap Z dp_nat_epacts).

(** Slot [i] takes traffic: nxfrms[i].inactive == 0. *)
Definition slot_active (nx : list nxfrm_inf) (i : Z) : bool := nx_inactive (nx !!! Z.to_nat i) =? 0.
Definition in_slots (sel : Z) : bool := (0 <=? sel) && (sel <? LLB_MAX_NXFRMS).
(** (uint16_t)(-1) *)
Definition NO_SEL : Z := 65535.

(** ** Selectors *)

(** The round-robin scan: [n] slots still to look at, from [i]. *)
Fixpoint rr_scan (nx : list nxfrm_inf) (n : nat) (i : Z) : option Z :=
  match n with
  | O => None
  | S n =>
      if in_slots i && slot_active nx i then Some i
      else let i := u16 (i + 1) in rr_scan nx n (if i >=? LLB_MAX_NXFRMS then 0 else i)
  end.

Definition sel_rr (act : dp_proxy_tacts) : Z * dp_proxy_tacts :=
  match rr_scan (pa_nxfrms act) (Z.to_nat LLB_MAX_NXFRMS) (pa_sel_hint act) with
  | Some i => (i, act <| pa_sel_hint := (i + 1) `mod` LLB_MAX_NXFRMS |>)
  | None => (NO_SEL, act)
  end.

(** The fallback loops: the first active slot from [i] on. *)
Fixpoint first_active (nx : list nxfrm_inf) (n : nat) (i : Z) : option Z :=
  match n with
  | O => None
  | S n => if slot_active nx i then Some i else first_active nx n (i + 1)
  end.
Definition first_active_from (nx : list nxfrm_inf) (dflt : Z) : Z := default dflt (first_active nx (Z.to_nat LLB_MAX_NXFRMS) 0).

Definition sel_hash (pkt_hash : Z) (act : dp_proxy_tacts) : Z :=
  let sel := u16 (pkt_hash `mod` pa_nxfrm act) in
  if in_slots sel && negb (slot_active (pa_nxfrms act) sel) then first_active_from (pa_nxfrms act) NO_SEL else sel.

(** dp_get_tun_hash *)
Definition dp_get_tun_hash (xf : xfi) : Z :=
  Z.lxor (Z.land (Z.shiftr (x_tunnel_id xf) 16) 65535) (Z.land (x_tunnel_id xf) 65535).

Definition sel_n3 (xf : xfi) (act : dp_proxy_tacts) : Z :=
  if x_tun_type xf =? LLB_TUN_GTP then
    let sel := u16 (dp_get_tun_hash xf `mod` pa_nxfrm act) in
    if in_slots sel && negb (slot_active (pa_nxfrms act) sel) then first_active_from (pa_nxfrms act) sel else sel
  else NO_SEL.

(** Byte [k] of the IPv4 source address *)
Definition sbyte (xf : xfi) (k : Z) : Z := Z.land (Z.shiftr (addr4 (x_saddr xf)) (8 * k)) 255.

Definition sel_persist (now : Z) (xf : xfi) (act : dp_proxy_tacts) : Z * dp_proxy_tacts :=
  let act := if (pa_base_to act =? 0) || (u64 (now - pa_lts act) >? pa_pto act) then act <| pa_base_to := now |> else act in
  let base := pa_base_to act in
  let '(tfc, act) :=
    if negb (pa_pto act =? 0) then (base / pa_pto act, act)
    else (base / NAT_LB_PERSIST_TIMEOUT, act <| pa_pto := NAT_LB_PERSIST_TIMEOUT |>) in
  let tf := Z.land tfc 255 in
  let sel := Z.lxor (Z.lxor (sbyte xf 0) (sbyte xf 3)) tf `mod` pa_nxfrm act in
  let act := act <| pa_lts := now |> in
  let nx := pa_nxfrms act in
  if in_slots sel && negb (slot_active nx sel) then
    let sel := Z.lxor (Z.lxor (sbyte xf 1) (sbyte xf 2)) tf `mod` pa_nxfrm act in
    (if in_slots sel && negb (slot_active nx sel) then first_active_from nx sel else sel, act)
  else (sel, act).

(** The least-connections scan over the first half of the slots. *)
Fixpoint lc_scan (nx : list nxfrm_inf) (sess : list Z) (n : nat) (i lc sel : Z) : Z * Z :=
  match n with
  | O => (sel, lc)
  | S n =>
      let as_ := sess !!! Z.to_nat i in
      if slot_active nx i && ((lc >? as_) || (sel =? NO_SEL)) then lc_scan nx sess n (i + 1) as_ i
      else lc_scan nx sess n (i + 1) lc sel
  end.

Definition LC_SLOTS : Z := LLB_MAX_NXFRMS / 2.

Definition sel_lc (act : dp_proxy_tacts) (eps : ep_table) : Z * ep_table :=
  match eps !! u16 (pa_cidx act) with
  | None => (NO_SEL, eps)
  | Some epa =>
      let epa := epa <| ea_act_type := DP_SET_NACT_SESS |> in
      let '(sel, _) := lc_scan (pa_nxfrms act) (active_sess epa) (Z.to_nat LC_SLOTS) 0 0 NO_SEL in
      let epa := if (0 <=? sel) && (sel <? LC_SLOTS) then epa <| active_sess ::= alter (λ n, u16 (n + 1)) (Z.to_nat sel) |> else epa in
      (sel, <[u16 (pa_cidx act) := epa]> eps)
  end.

(** dp_sel_nat_ep: the slot, and the rule and counters it left. *)
Definition dp_sel_nat_ep (pkt_hash now : Z) (xf : xfi) (act : dp_proxy_tacts) (eps : ep_table) : Z * dp_proxy_tacts * ep_table :=
  let t := pa_sel_type act in
  if (t =? NAT_LB_SEL_RR) || (t =? NAT_LB_SEL_PRIO) then (sel_rr act, eps)
  else if t =? NAT_LB_SEL_HASH then (sel_hash pkt_hash act, act, eps)
  else if t =? NAT_LB_SEL_N3 then (sel_n3 xf act, act, eps)
  else if t =? NAT_LB_SEL_RR_PERSIST then (sel_persist now xf act, eps)
  else if t =? NAT_LB_SEL_LC then let '(sel, eps) := sel_lc act eps in (sel, act, eps)
  else (NO_SEL, act, eps).

(** ** The handlers *)

Definition dp_do_dec_nat_sess (rule aid : Z) (eps : ep_table) : ep_table :=
  match eps !! rule with
  | Some epa =>
      if (ea_act_type epa =? DP_SET_NACT_SESS) && (aid <? LLB_MAX_NXFRMS)
      then <[rule := epa <| active_sess ::= alter (λ n, u16 (n - 1)) (Z.to_nat aid) |>]> eps else eps
  | None => eps
  end.

Definition nat_key_of (xf : xfi) : dp_nat_key :=
  let key := mk_dp_nat_key xaddr_zero 0 0 (x_dp_mark xf) 0 0 in
  if has (nk_mark key) LLB_MARK_NAT then key
  else
    let key := key <| nk_daddr := x_daddr xf |> <| nk_dport := if negb (x_proto xf =? IPPROTO_ICMP) then x_dest xf else 0 |>
                   <| nk_zone := x_zone xf |> <| nk_l4proto := x_proto xf |> <| nk_v6 := Z.b2z (x_v6 xf) |> in
    if has (nk_mark key) (Z.lor (Z.lor LLB_MARK_SRC LLB_MARK_SNAT_EGR) LLB_MARK_NAT) then key <| nk_mark := 0 |> else key.

(** The connection-limit gate's test *)
Definition over_limit (act : dp_proxy_tacts) (eps : ep_table) : bool :=
  negb (pa_conn_limit act =? 0) &&
  match eps !! pa_cidx act with Some epa => conc_conns epa >=? pa_conn_limit act | None => false end.

(** What a rule says of every packet it matches, endpoint or not. *)
Definition nat_common (act : dp_proxy_tacts) (xf : xfi) : xfi :=
  xf <| x_dsr := if pa_oaux act =? 0 then 0 else 1 |> <| x_cdis := if pa_cdis act =? 0 then 0 else 1 |>
     <| x_nppv2 := if pa_ppv2 act =? 0 then 0 else 1 |>
     <| x_nf := if pa_act_type act =? DP_SET_SNAT then LLB_NAT_SRC else LLB_NAT_DST |>
     <| x_npmhh := pa_npmhh act |> <| x_pmhh := pa_pmhh act |>
     <| x_dp_mark ::= (λ m, Z.land m (Z.lnot LLB_MARK_SNAT_EGR)) |>.

(** The chosen endpoint's part *)
Definition nat_endpoint (act : dp_proxy_tacts) (sel : Z) (xf : xfi) : xfi :=
  let nx := pa_nxfrms act !!! Z.to_nat sel in
  let xf := xf <| x_nxip := nat_xip nx |> <| x_nrip := nat_rip nx |> <| x_nxport := nat_xport nx |>
               <| x_nv6 := if nv6 nx =? 0 then 0 else 1 |> <| x_sel_aid := sel |> <| x_ito := pa_ito act |>
               <| x_rule_id := u16 (pa_cidx act) |> <| x_rpolid := pa_polid act |> in
  if (x_nv6 xf =? 0) && (addr4 (x_saddr xf) =? addr4 (x_nxip xf)) && (x_nf xf =? LLB_NAT_DST)
  then xf <| x_nxip ::= set_addr4 0 |> else xf.

(** NAT_LB_OP_CHKSRC: the source must carry the rule's bit of the mark. *)
Definition chksrc_refuses (act : dp_proxy_tacts) (xf : xfi) : bool :=
  has (pa_opflags act) NAT_LB_OP_CHKSRC && negb (has (x_dp_mark xf) (Z.land (Z.shiftl 1 (pa_cidx act `mod` 32)) 16777215)).

(** The tables of this stage *)
Record nat_st := mk_nat_st { nat_map : nat_table; nat_ep_map : ep_table }.
#[export] Instance nat_st_eta : RecordEta nat_st := fun r => mk_nat_st (nat_map r) (nat_ep_map r).

Definition dp_do_nat (pkt_hash now : Z) (xf : xfi) (st : nat_st) : Z * xfi * nat_st :=
  if x_l4fin xf || x_il4fin xf then (0, xf, st)
  else
    let key := nat_key_of xf in
    match nat_map st !! key with
    | None => (0, xf <| x_nf ::= (λ f, Z.land f (Z.lnot LLB_NAT_SRC)) |>, st)
    | Some act =>
        let xf := xf <| x_phit ::= (λ p, Z.lor p LLB_DP_NAT_HIT) |> in
        if chksrc_refuses act xf then (1, LLBS_PPLN_DROPC LLB_PIPE_RC_ACT_UNK xf, st)
        else if (pa_act_type act =? DP_SET_SNAT) || (pa_act_type act =? DP_SET_DNAT) then
          let '(sel, act, eps) := dp_sel_nat_ep pkt_hash now xf act (nat_ep_map st) in
          let sel := if over_limit act eps then NO_SEL else sel in
          let xf := nat_common act xf in
          let st := mk_nat_st (<[key := act]> (nat_map st)) eps in
          (1, if in_slots sel then nat_endpoint act sel xf else xf <| x_nf := 0 |>, st)
        else (1, LLBS_PPLN_DROPC LLB_PIPE_RC_ACT_UNK xf, st)
    end.

(** ** Facts shared by the theorems *)

(** What the control plane installs: the slots, and a hint among them. *)
Definition rule_ok (act : dp_proxy_tacts) : Prop :=
  zlen (pa_nxfrms act) = LLB_MAX_NXFRMS ∧ 0 <= pa_sel_hint act < LLB_MAX_NXFRMS ∧ 0 < pa_nxfrm act <= LLB_MAX_NXFRMS.

(** The packets a rule is asked about, one after the other. *)
Record nreq := mk_nreq { nr_hash : Z; nr_now : Z; nr_xf : xfi }.
Fixpoint sel_run (ps : list nreq) (act : dp_proxy_tacts) (eps : ep_table) : list Z :=
  match ps with
  | [] => []
  | p :: ps => let '(s, act', eps') := dp_sel_nat_ep (nr_hash p) (nr_now p) (nr_xf p) act eps in s :: sel_run ps act' eps'
  end.

(** The slots that take traffic. *)
Definition active_slots (act : dp_proxy_tacts) : list Z := List.filter (slot_active (pa_nxfrms act)) (seqZ 0 LLB_MAX_NXFRMS).

Lemma in_slots_spec s : in_slots s = true ↔ 0 <= s < LLB_MAX_NXFRMS.
Proof. unfold in_slots. lia. Qed.

(** ** Round robin *)

(** The slots in the order they are looked at from [h]. *)
Definition rot (h : Z) : list Z := seqZ h (LLB_MAX_NXFRMS - h) ++ seqZ 0 h.

Fixpoint cyc (n : nat) (i : Z) : list Z :=
  match n with O => [] | S n => i :: cyc n (if u16 (i + 1) >=? LLB_MAX_NXFRMS then 0 else u16 (i + 1)) end.

Lemma cyc_rot h : 0 <= h < LLB_MAX_NXFRMS → cyc (Z.to_nat LLB_MAX_NXFRMS) h = rot h.
Proof.
  intros Hh. assert (H : Forall (λ h, cyc (Z.to_nat LLB_MAX_NXFRMS) h = rot h) (seqZ 0 LLB_MAX_NXFRMS)) by (apply (bool_decide_unpack _); vm_compute; exact I).
  rewrite list.Forall_forall in H. apply H, elem_of_seqZ. lia.
Qed.

(** Rotating the order just past its entry [j]. *)
Lemma rot_rotate h (j : nat) : 0 <= h < LLB_MAX_NXFRMS → Z.of_nat j < LLB_MAX_NXFRMS →
  rot ((rot h !!! j + 1) `mod` LLB_MAX_NXFRMS) = drop (S j) (rot h) ++ take (S j) (rot h).
Proof.
  intros Hh Hj.
  assert (H : Forall (λ h, Forall (λ j : nat, rot ((rot h !!! j + 1) `mod` LLB_MAX_NXFRMS) = drop (S j) (rot h) ++ take (S j) (rot h)) (seq 0 32)) (seqZ 0 LLB_MAX_NXFRMS)) by (apply (bool_decide_unpack _); vm_compute; exact I).
  rewrite list.Forall_forall in H. specialize (H h ltac:(apply elem_of_seqZ; lia)). rewrite list.Forall_forall in H. apply H, elem_of_seq. unfold LLB_MAX_NXFRMS in *. lia.
Qed.

Lemma rot_perm h : 0 <= h < LLB_MAX_NXFRMS → rot h ≡ₚ seqZ 0 LLB_MAX_NXFRMS.
Proof. intros Hh. unfold rot. replace (LLB_MAX_NXFRMS) with (h + (LLB_MAX_NXFRMS - h)) at 2 by lia. rewrite (seqZ_app 0 h) by lia. rewrite Z.add_0_l. apply Permutation_app_comm. Qed.

Lemma rot_length h : 0 <= h < LLB_MAX_NXFRMS → length (rot h) = Z.to_nat LLB_MAX_NXFRMS.
Proof. intros Hh. rewrite (rot_perm h Hh). by rewrite length_seqZ. Qed.

Lemma rot_in h x : 0 <= h < LLB_MAX_NXFRMS → x ∈ rot h ↔ 0 <= x < LLB_MAX_NXFRMS.
Proof. intros Hh. rewrite (rot_perm h Hh). rewrite elem_of_seqZ. lia. Qed.

Lemma rr_scan_head nx n i : 0 <= i < LLB_MAX_NXFRMS → rr_scan nx n i = head (List.filter (slot_active nx) (cyc n i)).
Proof.
  revert i. induction n as [|n IH]; intros i Hi; [done|]. cbn [rr_scan cyc List.filter]. rewrite (proj2 (in_slots_spec i) Hi). cbn [andb].
  destruct (slot_active nx i); [done|]. apply IH. unfold u16. rewrite Z.mod_small by (unfold LLB_MAX_NXFRMS in *; lia).
  destruct (Z.geb_spec (i + 1) LLB_MAX_NXFRMS); unfold LLB_MAX_NXFRMS in *; lia.
Qed.

(** Where the first passing entry of a list is. *)
Lemma filter_cons_split {A} (P : A → bool) l x r : List.filter P l = x :: r →
  ∃ l1 l2, l = l1 ++ x :: l2 ∧ List.filter P l1 = [] ∧ P x = true ∧ List.filter P l2 = r.
Proof.
  induction l as [|y l IH]; [done|]. cbn. destruct (P y) eqn:Hy.
  - intros [= -> <-]. by exists [], l.
  - intros H. destruct (IH H) as (l1 & l2 & -> & H1 & H2 & H3). exists (y :: l1), l2. cbn. by rewrite Hy.
Qed.

Definition rr_order (act : dp_proxy_tacts) : list Z := List.filter (slot_active (pa_nxfrms act)) (rot (pa_sel_hint act)).

Lemma rr_order_perm act : rule_ok act → rr_order act ≡ₚ active_slots act.
Proof.
  intros (_ & Hh & _). unfold rr_order, active_slots.
  assert (H : ∀ l k : list Z, l ≡ₚ k → List.filter (slot_active (pa_nxfrms act)) l ≡ₚ List.filter (slot_active (pa_nxfrms act)) k).
  { induction 1 as [|x l k Hp IH|x y l|l k m H1 IH1 H2 IH2]; [done|cbn; destruct (slot_active _ x); by rewrite ?IH|cbn; repeat destruct (slot_active _ _); try done; apply perm_swap|by rewrite IH1]. }
  apply H, rot_perm, Hh.
Qed.

(** One selection takes the head of the order and moves it to the back. *)
Lemma sel_rr_rotates act x r : rule_ok act → rr_order act = x :: r →
  ∃ act', sel_rr act = (x, act') ∧ rule_ok act' ∧ rr_order act' = r ++ [x] ∧ pa_sel_type act' = pa_sel_type act ∧ pa_nxfrms act' = pa_nxfrms act.
Proof.
  intros Hok Ho. pose proof Hok as (Hl & Hh & Hn). unfold rr_order in Ho. unfold sel_rr. rewrite (rr_scan_head _ _ _ Hh), (cyc_rot _ Hh), Ho. cbn [head].
  destruct (filter_cons_split _ _ _ _ Ho) as (l1 & l2 & Hs & H1 & H2 & H3).
  assert (Hx : 0 <= x < LLB_MAX_NXFRMS) by (apply (rot_in (pa_sel_hint act)); [done|]; rewrite Hs; apply elem_of_app; right; by left).
  eexists. split; [done|]. split; [|split; [|done]].
  - unfold rule_ok. cbn. repeat split; try apply Hok; apply Z.mod_pos_bound; done.
  - unfold rr_order. cbn. pose proof (rot_rotate (pa_sel_hint act) (length l1) Hh) as Hr.
    assert (Hj : (rot (pa_sel_hint act) !!! length l1) = x) by (rewrite Hs; by rewrite lookup_total_app_r, Nat.sub_diag by lia).
    rewrite Hj in Hr. rewrite Hr.
    + rewrite Hs. replace (drop (S (length l1)) (l1 ++ x :: l2)) with l2 by (rewrite drop_app_ge by lia; by replace (S (length l1) - length l1)%nat with 1%nat by lia).
      replace (take (S (length l1)) (l1 ++ x :: l2)) with (l1 ++ [x]) by (rewrite take_app_ge by lia; by replace (S (length l1) - length l1)%nat with 1%nat by lia).
      rewrite !List.filter_app, H1, H3. cbn. by rewrite H2.
    + pose proof (rot_length _ Hh) as Hlen. rewrite Hs, length_app in Hlen. cbn in Hlen. unfold LLB_MAX_NXFRMS in *. lia.
Qed.

(** A run of round-robin selections goes through the order again and again. *)
Fixpoint rounds (m : nat) (o : list Z) : list Z := match m with O => [] | S m => o ++ rounds m o end.

Definition rr_type (act : dp_proxy_tacts) : Prop := pa_sel_type act = NAT_LB_SEL_RR ∨ pa_sel_type act = NAT_LB_SEL_PRIO.

Lemma rr_dispatch h now xf act eps : rr_type act → dp_sel_nat_ep h now xf act eps = (sel_rr act, eps).
Proof. unfold dp_sel_nat_ep. intros [-> | ->]; done. Qed.

Lemma rr_walk o2 : ∀ o1 ps act eps, rule_ok act → rr_type act → rr_order act = o1 ++ o2 → length ps = length o1 → o1 ++ o2 ≠ [] →
  ∃ act', rule_ok act' ∧ rr_type act' ∧ rr_order act' = o2 ++ o1 ∧ ∀ qs, sel_run (ps ++ qs) act eps = o1 ++ sel_run qs act' eps.
Proof.
  intros o1. revert o2. induction o1 as [|x o1 IH]; intros o2 ps act eps Hok Ht Ho Hlen Hne.
  - destruct ps; [|done]. exists act. rewrite app_nil_r. done.
  - destruct ps as [|p ps]; [done|]. cbn in Hlen.
    destruct (sel_rr_rotates act x (o1 ++ o2) Hok Ho) as (act1 & E & Hok1 & Ho1 & Ht1 & _).
    assert (Htt : rr_type act1) by (unfold rr_type in *; by rewrite Ht1).
    destruct (IH (o2 ++ [x]) ps act1 eps Hok1 Htt) as (act2 & Hok2 & Ht2 & Ho2 & Hrun); [by rewrite Ho1, app_assoc|lia|by destruct o1, o2|].
    exists act2. split; [done|]. split; [done|]. split; [by rewrite Ho2, <- app_assoc|].
    intros qs. cbn [sel_run app]. rewrite (rr_dispatch _ _ _ _ _ Ht), E. cbn. by rewrite Hrun.
Qed.

(** Round robin is exact: with k active slots, m * k selections in a row
    (whatever the packets) are m rounds of one and the same order of the active
    slots. Each active slot is taken exactly m times, an inactive one never; a
    slot's share is its share of the slots, which is how the weights of
    NAT_LB_SEL_PRIO rules are realised. *)
Theorem round_robin_exact act eps : rule_ok act → rr_type act → active_slots act ≠ [] →
  ∃ order, order ≡ₚ active_slots act ∧
    ∀ m ps, length ps = (m * length (active_slots act))%nat → sel_run ps act eps = rounds m order.
Proof.
  intros Hok Ht Hne. exists (rr_order act). pose proof (rr_order_perm act Hok) as Hp. split; [done|].
  assert (Hlen : length (rr_order act) = length (active_slots act)) by by rewrite Hp. rewrite <- Hlen.
  assert (Hne2 : rr_order act ≠ []) by (intros E; apply Hne; rewrite E in Hp; by apply Permutation_nil_l in Hp).
  clear Hp Hlen Hne. intros m. revert act Hok Ht Hne2. induction m as [|m IH]; intros act Hok Ht Hne ps Hps; [by destruct ps|].
  rewrite Nat.mul_succ_l in Hps. rewrite <- (take_drop (length (rr_order act)) ps).
  destruct (rr_walk [] (rr_order act) (take (length (rr_order act)) ps) act eps Hok Ht) as (act' & Hok' & Ht' & Ho' & Hrun); [by rewrite app_nil_r|rewrite length_take; lia|by rewrite app_nil_r|].
  rewrite Hrun. cbn [rounds]. f_equal. cbn in Ho'. rewrite <- Ho'. apply IH; [done|done|by rewrite Ho'|]. rewrite length_drop, Ho'. lia.
Qed.

(** ** Every selector picks an active slot *)

Lemma first_active_head nx n i : first_active nx n i = head (List.filter (slot_active nx) (seqZ i (Z.of_nat n))).
Proof.
  revert i. induction n as [|n IH]; intros i; [done|]. cbn [first_active]. rewrite seqZ_cons by lia. cbn [List.filter].
  destruct (slot_active nx i); [done|]. rewrite IH. by replace (Z.pred (Z.of_nat (S n))) with (Z.of_nat n) by lia.
Qed.

Lemma active_slots_spec act s : s ∈ active_slots act ↔ 0 <= s < LLB_MAX_NXFRMS ∧ slot_active (pa_nxfrms act) s = true.
Proof. unfold active_slots. rewrite list_elem_of_In, filter_In, <- list_elem_of_In, elem_of_seqZ. by rewrite Z.add_0_l. Qed.

Lemma first_active_from_in act d : active_slots act ≠ [] → first_active_from (pa_nxfrms act) d ∈ active_slots act.
Proof.
  unfold first_active_from, active_slots. rewrite first_active_head. replace (Z.of_nat (Z.to_nat LLB_MAX_NXFRMS)) with LLB_MAX_NXFRMS by done.
  destruct (List.filter _ _); [done|]. intros _. by left.
Qed.

(** The hash selectors: a slot below [nxfrm], or the first active one. *)
Lemma hashed_slot_in act s d : pa_nxfrm act <= LLB_MAX_NXFRMS → active_slots act ≠ [] → 0 <= s < pa_nxfrm act →
  (if in_slots s && negb (slot_active (pa_nxfrms act) s) then first_active_from (pa_nxfrms act) d else s) ∈ active_slots act.
Proof.
  intros Hn Hne Hs. rewrite (proj2 (in_slots_spec s)) by lia. cbn [andb].
  destruct (slot_active _ s) eqn:E; cbn [negb]; [apply active_slots_spec; split; [lia|done]|by apply first_active_from_in].
Qed.

Lemma lxor3_nonneg a b c : 0 <= a → 0 <= b → 0 <= c → 0 <= Z.lxor (Z.lxor a b) c.
Proof. intros. repeat (apply Z.lxor_nonneg; split; intros _); done. Qed.

Lemma sbyte_nonneg xf k : 0 <= sbyte xf k.
Proof. unfold sbyte. apply Z.land_nonneg. by right. Qed.

(** What the persistent selector leaves of the rule, and the slot it gives. *)
Definition persist_act (now : Z) (act : dp_proxy_tacts) : dp_proxy_tacts :=
  let act := if (pa_base_to act =? 0) || (u64 (now - pa_lts act) >? pa_pto act) then act <| pa_base_to := now |> else act in
  (if negb (pa_pto act =? 0) then act else act <| pa_pto := NAT_LB_PERSIST_TIMEOUT |>) <| pa_lts := now |>.

Definition persist_slot (act : dp_proxy_tacts) (xf : xfi) : Z :=
  let tf := Z.land (pa_base_to act / pa_pto act) 255 in
  let nx := pa_nxfrms act in
  let sel := Z.lxor (Z.lxor (sbyte xf 0) (sbyte xf 3)) tf `mod` pa_nxfrm act in
  if in_slots sel && negb (slot_active nx sel) then
    let sel := Z.lxor (Z.lxor (sbyte xf 1) (sbyte xf 2)) tf `mod` pa_nxfrm act in
    if in_slots sel && negb (slot_active nx sel) then first_active_from nx sel else sel
  else sel.

Lemma sel_persist_eq now xf act : sel_persist now xf act = (persist_slot (persist_act now act) xf, persist_act now act).
Proof.
  unfold sel_persist, persist_act, persist_slot. destruct ((pa_base_to act =? 0) || (u64 (now - pa_lts act) >? pa_pto act)); cbn;
    destruct (pa_pto act =? 0); cbn; by case_match.
Qed.

Lemma persist_slot_in act xf : 0 < pa_nxfrm act <= LLB_MAX_NXFRMS → active_slots act ≠ [] → persist_slot act xf ∈ active_slots act.
Proof.
  intros Hn Hne. unfold persist_slot.
  set (tf := Z.land (pa_base_to act / pa_pto act) 255). assert (0 <= tf) by (apply Z.land_nonneg; by right).
  set (s1 := Z.lxor (Z.lxor (sbyte xf 0) _) tf `mod` _). set (s2 := Z.lxor (Z.lxor (sbyte xf 1) _) tf `mod` _).
  assert (0 <= s1 < pa_nxfrm act) by (apply Z.mod_pos_bound; lia). assert (0 <= s2 < pa_nxfrm act) by (apply Z.mod_pos_bound; lia).
  destruct (in_slots s1 && negb (slot_active (pa_nxfrms act) s1)) eqn:E; [apply hashed_slot_in; [lia|done..]|].
  rewrite (proj2 (in_slots_spec s1)) in E by lia. apply active_slots_spec. split; [lia|]. by destruct (slot_active _ s1).
Qed.

(** Whatever the selector of the rule among round robin, weighted round
    robin, flow hash, GTP tunnel hash and source persistence, and whatever the
    packet: as long as one slot of the rule takes traffic, the slot chosen is one
    that takes traffic. *)
Theorem selected_slot_active h now xf act eps : rule_ok act → active_slots act ≠ [] →
  (rr_type act ∨ pa_sel_type act = NAT_LB_SEL_HASH ∨ pa_sel_type act = NAT_LB_SEL_RR_PERSIST ∨ (pa_sel_type act = NAT_LB_SEL_N3 ∧ x_tun_type xf = LLB_TUN_GTP)) →
  (dp_sel_nat_ep h now xf act eps).1.1 ∈ active_slots act.
Proof.
  intros Hok Hne Ht. pose proof Hok as (_ & _ & Hn).
  assert (Hu : ∀ z, 0 <= u16 (z `mod` pa_nxfrm act) < pa_nxfrm act).
  { intros z. pose proof (Z.mod_pos_bound z (pa_nxfrm act) ltac:(lia)). unfold u16. rewrite Z.mod_small by (unfold LLB_MAX_NXFRMS in *; lia). done. }
  destruct Ht as [Ht|[Ht|[Ht|[Ht Hg]]]].
  - rewrite (rr_dispatch _ _ _ _ _ Ht). destruct (rr_order act) as [|x r] eqn:Ho.
    + pose proof (rr_order_perm act Hok) as Hp. rewrite Ho in Hp. by apply Permutation_nil_l in Hp.
    + destruct (sel_rr_rotates act x r Hok Ho) as (act' & -> & _). cbn. rewrite <- (rr_order_perm act Hok), Ho. by left.
  - unfold dp_sel_nat_ep. rewrite Ht. cbn. apply hashed_slot_in; [lia|done|apply Hu].
  - unfold dp_sel_nat_ep. rewrite Ht. cbn. rewrite sel_persist_eq. cbn.
    assert (E : active_slots act = active_slots (persist_act now act)) by (unfold active_slots, persist_act; by repeat case_match).
    rewrite E in *. apply persist_slot_in; [|done]. unfold persist_act. by repeat case_match.
  - unfold dp_sel_nat_ep. rewrite Ht. cbn. unfold sel_n3. rewrite Hg. cbn. apply hashed_slot_in; [lia|done|apply Hu].
Qed.

(** ** Least connections *)

(** [sel] is a least loaded active slot below [i], or there is none. *)
Definition lc_best (nx : list nxfrm_inf) (sess : list Z) (i sel : Z) : Prop :=
  (sel = NO_SEL ∧ ∀ j, 0 <= j < i → slot_active nx j = false) ∨
  (0 <= sel < i ∧ slot_active nx sel = true ∧ ∀ j, 0 <= j < i → slot_active nx j = true → sess !!! Z.to_nat sel <= sess !!! Z.to_nat j).

Lemma lc_scan_best nx sess n i lc sel : 0 <= i → i + Z.of_nat n <= LLB_MAX_NXFRMS →
  lc_best nx sess i sel → (sel ≠ NO_SEL → lc = sess !!! Z.to_nat sel) → lc_best nx sess (i + Z.of_nat n) (lc_scan nx sess n i lc sel).1.
Proof.
  revert i lc sel. induction n as [|n IH]; intros i lc sel Hi Hn Hb Hlc; [by rewrite Z.add_0_r|].
  cbn [lc_scan]. replace (i + Z.of_nat (S n)) with (i + 1 + Z.of_nat n) by lia.
  assert (Hstep : ∀ j, 0 <= j < i + 1 → 0 <= j < i ∨ j = i) by lia.
  destruct (slot_active nx i) eqn:Ea; cbn [andb]; [destruct ((lc >? sess !!! Z.to_nat i) || (sel =? NO_SEL)) eqn:Eb|].
  - apply IH; [lia|lia| |done]. right. split; [lia|]. split; [done|]. intros j Hj Hja. destruct (Hstep j Hj) as [Hj'| ->]; [|lia].
    destruct Hb as [[-> Hno]|(Hs & _ & Hmin)]; [by rewrite Hno in Hja|]. specialize (Hmin j Hj' Hja).
    rewrite orb_true_iff in Eb. destruct Eb as [Eb|Eb]; [rewrite (Hlc ltac:(unfold NO_SEL, LLB_MAX_NXFRMS in *; lia)) in Eb; lia|unfold NO_SEL, LLB_MAX_NXFRMS in *; lia].
  - rewrite orb_false_iff in Eb. destruct Eb as [Eb1 Eb2]. assert (Hne : sel ≠ NO_SEL) by lia. rewrite (Hlc Hne) in *.
    apply IH; [lia|lia| |done]. destruct Hb as [[? _]|(Hs & Hsa & Hmin)]; [done|]. right. split; [lia|]. split; [done|].
    intros j Hj Hja. destruct (Hstep j Hj) as [Hj'| ->]; [by apply Hmin|lia].
  - apply IH; [lia|lia| |done]. destruct Hb as [[-> Hno]|(Hs & Hsa & Hmin)].
    + left. split; [done|]. intros j Hj. destruct (Hstep j Hj) as [Hj'| ->]; [by apply Hno|done].
    + right. split; [lia|]. split; [done|]. intros j Hj Hja. destruct (Hstep j Hj) as [Hj'| ->]; [by apply Hmin|by rewrite Ea in Hja].
Qed.

(** The least-connections selector: if one of the first LLB_MAX_NXFRMS / 2
    slots takes traffic, it picks one that does and has the fewest sessions among
    them, and counts one more session on it and on it only; otherwise it picks
    none and counts none. *)
Theorem least_connections_exact h now xf act eps epa : pa_sel_type act = NAT_LB_SEL_LC → eps !! u16 (pa_cidx act) = Some epa →
  let r := dp_sel_nat_ep h now xf act eps in
  let sel := r.1.1 in
  lc_best (pa_nxfrms act) (active_sess epa) LC_SLOTS sel ∧ r.1.2 = act ∧
  ∃ epa', r.2 = <[u16 (pa_cidx act) := epa']> eps ∧ conc_conns epa' = conc_conns epa ∧
    active_sess epa' = if decide (sel = NO_SEL) then active_sess epa else alter (λ n, u16 (n + 1)) (Z.to_nat sel) (active_sess epa).
Proof.
  intros Ht He. cbn zeta. unfold dp_sel_nat_ep. rewrite Ht. cbn [Z.eqb NAT_LB_SEL_LC NAT_LB_SEL_RR NAT_LB_SEL_PRIO NAT_LB_SEL_HASH NAT_LB_SEL_N3 NAT_LB_SEL_RR_PERSIST Pos.eqb orb].
  unfold sel_lc. rewrite He. cbn [active_sess].
  pose proof (lc_scan_best (pa_nxfrms act) (active_sess epa) (Z.to_nat LC_SLOTS) 0 0 NO_SEL) as Hb.
  destruct (lc_scan _ _ _ _ _ _) as [sel lc] eqn:E. specialize (Hb ltac:(done) ltac:(done)).
  change (0 + Z.of_nat (Z.to_nat LC_SLOTS)) with LC_SLOTS in Hb. cbn [fst] in Hb.
  assert (Hb' : lc_best (pa_nxfrms act) (active_sess epa) LC_SLOTS sel) by (apply Hb; [left; split; [done|lia]|done]).
  change (active_sess (epa <| ea_act_type := DP_SET_NACT_SESS |>)) with (active_sess epa). cbn [fst snd]. split; [done|]. split; [done|].
  eexists. split; [done|]. unfold LC_SLOTS, LLB_MAX_NXFRMS in *. change (32 / 2) with 16 in *.
  destruct Hb' as [[-> _]|(Hs & _)]; [by rewrite decide_True|].
  rewrite decide_False by (unfold NO_SEL; lia). replace ((0 <=? sel) && (sel <? 16)) with true by lia. done.
Qed.

(** ** Source persistence *)

(** The times between the packets of a rule, from [t0] on. *)
Fixpoint gaps_within (pto t0 : Z) (ps : list nreq) : Prop :=
  match ps with
  | [] => True
  | p :: ps => t0 <= nr_now p <= t0 + pto ∧ nr_now p < 18446744073709551616 ∧ gaps_within pto (nr_now p) ps
  end.

Lemma persist_dispatch h now xf act eps : pa_sel_type act = NAT_LB_SEL_RR_PERSIST →
  dp_sel_nat_ep h now xf act eps = (persist_slot (persist_act now act) xf, persist_act now act, eps).
Proof. intros Ht. unfold dp_sel_nat_ep. rewrite Ht. cbn. by rewrite sel_persist_eq. Qed.

(** Within the window the rule only moves its time of last use. *)
Lemma persist_act_quiet now act : pa_base_to act ≠ 0 → 0 < pa_pto act → 0 <= pa_lts act → pa_lts act <= now <= pa_lts act + pa_pto act → now < 18446744073709551616 →
  persist_act now act = act <| pa_lts := now |>.
Proof.
  intros Hb Hp Hl Hn Hn64. unfold persist_act. rewrite (proj2 (Z.eqb_neq _ _) Hb). cbn [orb]. rewrite u64_small by lia.
  replace (now - pa_lts act >? pa_pto act) with false by lia. by replace (pa_pto act =? 0) with false by lia.
Qed.

Lemma persist_run act ps eps : pa_sel_type act = NAT_LB_SEL_RR_PERSIST → pa_base_to act ≠ 0 → 0 < pa_pto act → 0 <= pa_lts act →
  gaps_within (pa_pto act) (pa_lts act) ps → sel_run ps act eps = (persist_slot act ∘ nr_xf) <$> ps.
Proof.
  revert act. induction ps as [|p ps IH]; intros act Ht Hb Hp Hl Hg; [done|]. cbn in Hg. destruct Hg as (Hg1 & Hg2 & Hg3).
  cbn [sel_run]. rewrite persist_dispatch by done. rewrite persist_act_quiet by done.
  change (persist_slot (act <| pa_lts := nr_now p |>) (nr_xf p)) with (persist_slot act (nr_xf p)). cbn [fmap list_fmap compose].
  rewrite IH by (cbn; first [done|lia]). done.
Qed.

(** Source persistence: from a rule's first packet at [t0] on, for as
    long as the rule is never idle for more than its persistence timeout, two
    packets from the same IPv4 source get the same slot, whoever else uses the
    rule meanwhile. *)
Theorem persistence_sticky act eps p0 ps i j p q : pa_sel_type act = NAT_LB_SEL_RR_PERSIST → 0 <= pa_pto act →
  0 < nr_now p0 < 18446744073709551616 → pa_base_to act = 0 →
  gaps_within (if pa_pto act =? 0 then NAT_LB_PERSIST_TIMEOUT else pa_pto act) (nr_now p0) ps →
  (p0 :: ps) !! i = Some p → (p0 :: ps) !! j = Some q → addr4 (x_saddr (nr_xf p)) = addr4 (x_saddr (nr_xf q)) →
  ∃ s, sel_run (p0 :: ps) act eps !! i = Some s ∧ sel_run (p0 :: ps) act eps !! j = Some s.
Proof.
  intros Ht Hp0 Hnow Hb Hg Hi Hj Hsrc. set (act1 := persist_act (nr_now p0) act).
  assert (H1 : pa_sel_type act1 = NAT_LB_SEL_RR_PERSIST ∧ pa_base_to act1 = nr_now p0 ∧ pa_lts act1 = nr_now p0 ∧
               pa_pto act1 = if pa_pto act =? 0 then NAT_LB_PERSIST_TIMEOUT else pa_pto act).
  { unfold act1, persist_act. rewrite Hb. cbn. destruct (pa_pto act =? 0); cbn; done. }
  destruct H1 as (H1 & H2 & H3 & H4).
  assert (Hpos : 0 < pa_pto act1) by (rewrite H4; destruct (Z.eqb_spec (pa_pto act) 0); unfold NAT_LB_PERSIST_TIMEOUT; lia).
  assert (Hrun : sel_run (p0 :: ps) act eps = (persist_slot act1 ∘ nr_xf) <$> (p0 :: ps)).
  { cbn [sel_run]. rewrite persist_dispatch by done. fold act1. rewrite persist_run; [done|done|lia|done|lia|by rewrite H3, H4]. }
  rewrite Hrun, !list_lookup_fmap, Hi, Hj. cbn. eexists. split; [done|]. unfold persist_slot, sbyte. by rewrite Hsrc.
Qed.

(** ** Examples *)

(** A rule with slots 0, 1 and 3 taking traffic. *)
Definition demo_slot (i : nat) : nxfrm_inf :=
  nxfrm_zero <| nx_inactive := if bool_decide (i ∈ [0; 1; 3]%nat) then 0 else 1 |> <| nat_xip := (10 + Z.of_nat i, 0, 0, 0) |> <| nat_xport := 8080 |>.
Definition demo_rule (sel_type : Z) : dp_proxy_tacts :=
  mk_dp_proxy_tacts DP_SET_DNAT 7 0 0 0 4 0 0 0 2 sel_type 0 0 0 (0, 0, 0) (demo_slot <$> seq 0 32) 2 0.
Definition demo_req (now src : Z) : nreq := mk_nreq 5 now (xfi_zero <| x_saddr := (src, 0, 0, 0) |>).
Definition demo_eps : ep_table := {[ 7 := mk_dp_nat_epacts 0 ([3; 1; 0; 1] ++ replicate 28 0) 0 0 0 0 ]}.

Lemma demo_rule_ok t : rule_ok (demo_rule t).
Proof. repeat split; try done. Qed.

Lemma round_robin_exact_witness : ∃ order, order ≡ₚ [0; 1; 3] ∧ sel_run (replicate 6 (demo_req 1 1)) (demo_rule NAT_LB_SEL_RR) ∅ = order ++ order.
Proof.
  destruct (round_robin_exact (demo_rule NAT_LB_SEL_RR) ∅) as (order & Hp & H); [apply demo_rule_ok|by left|by vm_compute|].
  exists order. split; [exact Hp|]. rewrite (H 2%nat) by (vm_compute; reflexivity). cbn [rounds]. by rewrite app_nil_r.
Defined.

Lemma selected_slot_active_witness : (dp_sel_nat_ep 2 1 xfi_zero (demo_rule NAT_LB_SEL_HASH) ∅).1.1 ∈ [0; 1; 3].
Proof. apply (selected_slot_active 2 1 xfi_zero (demo_rule NAT_LB_SEL_HASH) ∅); [apply demo_rule_ok|by vm_compute|by right; left]. Defined.

Lemma least_connections_exact_witness : lc_best (demo_slot <$> seq 0 32) ([3; 1; 0; 1] ++ replicate 28 0) LC_SLOTS 1.
Proof.
  pose proof (least_connections_exact 0 1 xfi_zero (demo_rule NAT_LB_SEL_LC) demo_eps (mk_dp_nat_epacts 0 ([3; 1; 0; 1] ++ replicate 28 0) 0 0 0 0) eq_refl eq_refl) as [H _].
  replace (dp_sel_nat_ep 0 1 xfi_zero (demo_rule NAT_LB_SEL_LC) demo_eps).1.1 with 1 in H by (vm_compute; reflexivity). exact H.
Defined.

Lemma persistence_sticky_witness :
  ∃ s, sel_run [demo_req 5 77; demo_req 9 12; demo_req 11 77] (demo_rule NAT_LB_SEL_RR_PERSIST) ∅ !! 0%nat = Some s ∧
       sel_run [demo_req 5 77; demo_req 9 12; demo_req 11 77] (demo_rule NAT_LB_SEL_RR_PERSIST) ∅ !! 2%nat = Some s.
Proof.
  apply (persistence_sticky (demo_rule NAT_LB_SEL_RR_PERSIST) ∅ (demo_req 5 77) [demo_req 9 12; demo_req 11 77] 0 2 (demo_req 5 77) (demo_req 11 77));
    [reflexivity|done|done|reflexivity|cbn; unfold NAT_LB_PERSIST_TIMEOUT; lia|reflexivity|reflexivity|reflexivity].
Defined.

(** With no slot taking traffic the persistent selector still names one. *)
Example persist_names_inactive :
  let act := (demo_rule NAT_LB_SEL_RR_PERSIST) <| pa_nxfrms := replicate 32 (nxfrm_zero <| nx_inactive := 1 |>) |> in
  active_slots act = [] ∧ in_slots (dp_sel_nat_ep 0 5 xfi_zero act ∅).1.1 = true.
Proof. split; vm_compute; reflexivity. Qed.
