(* ===== verification/KCt.v ===== *)
(** * Kernel datapath: connection tracking (src/kernel/llb_kern_ct.c, src/kernel/llb_kern_l3fwd.c)

    Every tracked connection has two entries, one per direction, each under its
    own key; the key of the other direction is computed from a packet's key and
    its NAT information (dp_ct_proto_xfk_init). dp_do_ctops applies an entry to a
    packet, dp_ct_in makes, follows and removes the pair, keeps the rule's counters
    and the list of offload events. The two per-CPU scratch entries the program
    builds new entries in keep what earlier packets left in them. The table is a
    bounded hash. Packets whose two keys coincide (both pointers then name one
    entry) are outside the model. *)

From stdpp Require Import base list gmap numbers.
From S2P Require Import Prelude KTypes KCtSm KSctp KNat.

(** ** The other direction's key and NAT information *)

Definition rev_key (k : dp_ct_key) : dp_ct_key :=
  mk_dp_ct_key (k_saddr k) (k_daddr k) (k_dport k) (k_sport k) (k_zone k) (k_l4proto k) (k_v6 k) (k_ident k) (k_type k).

(** The four NAT blocks of dp_ct_proto_xfk_init, on (xi, xkey, xxi). *)
Definition xfk : Type := nxfrm_inf * dp_ct_key * nxfrm_inf.

Definition xfk_dst (key : dp_ct_key) (s : xfk) : xfk :=
  let '(xi, xkey, xxi) := s in
  let ported := negb (k_l4proto key =? IPPROTO_ICMP) in
  let xkey := xkey <| k_v6 := nv6 xi |> <| k_saddr := nat_xip xi |> in
  let '(xkey, xxi) := if negb (DP_XADDR_ISZR (nat_rip xi)) then (xkey <| k_daddr := nat_rip xi |>, xxi <| nat_rip := k_saddr key |>) else (xkey, xxi) in
  let '(xkey, xi) :=
    if ported then if negb (nat_xport xi =? 0) then (xkey <| k_sport := nat_xport xi |>, xi) else (xkey, xi <| nat_xport := k_dport key |>) else (xkey, xi) in
  let xxi := xxi <| nat_flags := LLB_NAT_SRC |> <| nv6 := k_v6 key |> <| nat_xip := k_daddr key |> in
  (xi, xkey, if ported then xxi <| nat_xport := k_dport key |> else xxi).

Definition xfk_src (key : dp_ct_key) (s : xfk) : xfk :=
  let '(xi, xkey, xxi) := s in
  let ported := negb (k_l4proto key =? IPPROTO_ICMP) in
  let xkey := xkey <| k_v6 := nv6 xi |> <| k_daddr := nat_xip xi |> in
  let '(xkey, xxi) := if negb (DP_XADDR_ISZR (nat_rip xi)) then (xkey <| k_saddr := nat_rip xi |>, xxi <| nat_rip := k_daddr key |>) else (xkey, xxi) in
  let '(xkey, xi) :=
    if ported then if negb (nat_xport xi =? 0) then (xkey <| k_dport := nat_xport xi |>, xi) else (xkey, xi <| nat_xport := k_sport key |>) else (xkey, xi) in
  let xxi := xxi <| nat_flags := LLB_NAT_DST |> <| nv6 := k_v6 key |> <| nat_xip := k_saddr key |> in
  (xi, xkey, if ported then xxi <| nat_xport := k_sport key |> else xxi).

Definition xfk_hdst (key : dp_ct_key) (s : xfk) : xfk :=
  let '(xi, xkey, xxi) := s in
  let ported := negb (k_l4proto key =? IPPROTO_ICMP) in
  let xkey := xkey <| k_saddr := k_saddr key |> <| k_daddr := k_daddr key |> in
  let '(xkey, xi) :=
    if ported then if negb (nat_xport xi =? 0) then (xkey <| k_sport := nat_xport xi |>, xi) else (xkey, xi <| nat_xport := k_dport key |>) else (xkey, xi) in
  let xxi := xxi <| nat_flags := LLB_NAT_HSRC |> <| nv6 := k_v6 key |> <| nat_xip := xaddr_zero |> in
  (xi <| nat_xip := xaddr_zero |>, xkey, if ported then xxi <| nat_xport := k_dport key |> else xxi).

Definition xfk_hsrc (key : dp_ct_key) (s : xfk) : xfk :=
  let '(xi, xkey, xxi) := s in
  let ported := negb (k_l4proto key =? IPPROTO_ICMP) in
  let xkey := xkey <| k_saddr := k_saddr key |> <| k_daddr := k_daddr key |> in
  let '(xkey, xi) :=
    if ported then if negb (nat_xport xi =? 0) then (xkey <| k_dport := nat_xport xi |>, xi) else (xkey, xi <| nat_xport := k_sport key |>) else (xkey, xi) in
  let xxi := xxi <| nat_flags := LLB_NAT_HDST |> <| nv6 := k_v6 key |> <| nat_xip := xaddr_zero |> in
  (xi <| nat_xip := xaddr_zero |>, xkey, if ported then xxi <| nat_xport := k_sport key |> else xxi).

(** if (xi->nat_flags & bit) { ... } *)
Definition xfk_when (bit : Z) (f : dp_ct_key → xfk → xfk) (key : dp_ct_key) (s : xfk) : xfk := if has (nat_flags s.1.1) bit then f key s else s.

Definition dp_ct_proto_xfk_init (key : dp_ct_key) (xi xxi : nxfrm_inf) : xfk :=
  let xkey := rev_key key in
  if negb (dsr xi =? 0) then
    let xxi := if has (nat_flags xi) LLB_NAT_DST
               then xxi <| nat_flags := LLB_NAT_SRC |> <| nat_xip := k_daddr key |> <| nat_xport := k_dport key |> <| nv6 := nv6 xi |> else xxi in
    (xi, xkey, xxi <| dsr := dsr xi |>)
  else
    xfk_when LLB_NAT_HSRC xfk_hsrc key (xfk_when LLB_NAT_HDST xfk_hdst key (xfk_when LLB_NAT_SRC xfk_src key (xfk_when LLB_NAT_DST xfk_dst key (xi, xkey, xxi)))).

(** ** The state of this stage *)

(** struct dp_ct_ctrtact *)
Record ct_ctr := mk_ct_ctr { cc_start : Z; cc_counter : Z; cc_entries : Z }.
#[export] Instance ct_ctr_eta : RecordEta ct_ctr := fun r => mk_ct_ctr (cc_start r) (cc_counter r) (cc_entries r).

(** struct dp_fcv4_key *)
Definition dp_fcv4_key : Type := Z * Z * Z * Z * Z.
(** struct ll_dp_ct_hwev: rid, saddr, daddr, sport, dport, l4proto *)
Definition hwev : Type := Z * Z * Z * Z * Z * Z.

Record ct_st := mk_ct_st {
  ct_map : gmap dp_ct_key dp_ct_tact; ct_max : Z; xctk_a : dp_ct_tact; xctk_x : dp_ct_tact; ctr : ct_ctr; fc_v4_map : gset dp_fcv4_key;
  ct_eps : ep_table; ct_errs : ct_err_stats
}.
#[export] Instance ct_st_eta : RecordEta ct_st := fun r =>
  mk_ct_st (ct_map r) (ct_max r) (xctk_a r) (xctk_x r) (ctr r) (fc_v4_map r) (ct_eps r) (ct_errs r).

(** bpf_map_update_elem(&ct_map, ..., BPF_ANY) *)
Definition ct_update (cap : Z) (k : dp_ct_key) (e : dp_ct_tact) (m : gmap dp_ct_key dp_ct_tact) : gmap dp_ct_key dp_ct_tact :=
  if bool_decide (is_Some (m !! k)) || (Z.of_nat (size m) <? cap) then <[k := e]> m else m.

(** dp_ct_get_newctr: the counter's value, and the base of the range. *)
Definition dp_ct_get_newctr (c : ct_ctr) : Z * Z * ct_ctr :=
  let v := cc_counter c in
  let n := u32 (v + 2) in
  (v, cc_start c, c <| cc_counter := if n >=? cc_entries c then cc_start c else n |>).

Definition dp_ct_related_fc_rm (k : dp_ct_key) (fc : gset dp_fcv4_key) : gset dp_fcv4_key :=
  if negb (k_v6 k =? 0) || negb (k_ident k =? 0) || negb (k_type k =? 0) then fc
  else fc ∖ {[ (addr4 (k_daddr k), addr4 (k_saddr k), k_sport k, k_dport k, k_l4proto k) ]}.

(** ** Applying an entry to a packet (dp_pipe_set_nat, dp_do_ctops) *)

Definition dp_pipe_set_nat (na : dp_nat_act) (do_snat : bool) (xf : xfi) : xfi :=
  xf <| x_nf := if do_snat then LLB_NAT_SRC else LLB_NAT_DST |> <| x_nxip := na_xip na |> <| x_nrip := na_rip na |> <| x_nxport := na_xport na |>
     <| x_nv6 := if na_nv6 na =? 0 then 0 else 1 |> <| x_dsr := na_dsr na |> <| x_cdis := na_cdis na |> <| x_nppv2 := if na_ppv2 na =? 0 then 0 else 1 |>
     <| x_npmhh := na_nmh na |> <| x_rpolid := na_polid na |>.

(** struct dp_rdr_act shares its place with xip[0]: oport below, fr above. *)
Definition rdr_oport (e : dp_ct_tact) : Z := addr4 (na_xip (c_nat e)) `mod` 65536.
Definition rdr_fr (e : dp_ct_tact) : Z := addr4 (na_xip (c_nat e)) / 65536.
Definition set_rdr_fr (e : dp_ct_tact) : dp_ct_tact := e <| c_nat ::= (λ n, n <| na_xip ::= set_addr4 (65536 + rdr_oport e) |>) |>.

(** dp_run_ctact_helper *)
Definition dp_run_ctact_helper (xf : xfi) (e : dp_ct_tact) : dp_ct_tact :=
  if (ca_act_type e =? DP_SET_NOP) || (ca_act_type e =? DP_SET_SNAT) || (ca_act_type e =? DP_SET_DNAT)
  then on_t (λ t, t <| t_in ::= (λ d, d <| td_pseq := x_seq xf |> <| td_pack := x_ack xf |>) |>) e else e.

(** The packet and the entry after the action; true: on to the CT program
    (ct_trk), false: done here. *)
Definition ctops_act (xf : xfi) (e : dp_ct_tact) : xfi * dp_ct_tact * bool :=
  let t := ca_act_type e in
  if t =? DP_SET_DO_CT then (xf, e, true)
  else if t =? DP_SET_NOP then
    let e := if x_l4fin xf then set_rdr_fr e else e in (xf, e, rdr_fr e =? 1)
  else if t =? DP_SET_RDR_PORT then
    let e := if x_l4fin xf then set_rdr_fr e else e in
    if rdr_fr e =? 1 then (xf, e, true)
    else (xf <| x_pipe_act ::= (λ a, Z.lor a LLB_PIPE_RDR_PRIO) |> <| x_oport := rdr_oport e |>, e, false)
  else if (t =? DP_SET_SNAT) || (t =? DP_SET_DNAT) then
    let e := if x_l4fin xf then e <| c_nat ::= (λ n, n <| na_fr := 1 |>) |> else e in
    let xf := dp_pipe_set_nat (c_nat e) (t =? DP_SET_SNAT) xf in
    if (na_fr (c_nat e) =? 1) || negb (na_doct (c_nat e) =? 0) || x_goct xf then (xf, e, true)
    else (xf <| x_phit ::= (λ p, Z.lor p LLB_DP_NAT_HIT) |>, e, false)
  else if t =? DP_SET_TOCP then (LLBS_PPLN_PASSC LLB_PIPE_RC_ACL_TRAP xf, e, false)
  else (LLBS_PPLN_DROPC LLB_PIPE_RC_ACT_DROP xf, e, false).

Definition dp_do_ctops (now : Z) (xf : xfi) (e : dp_ct_tact) : xfi * dp_ct_tact * bool :=
  let xf := xf <| x_phit ::= (λ p, Z.lor p LLB_DP_CTM_HIT) |> <| x_fw_rid := ca_fwrid e |> in
  let '(xf, e, trk) := ctops_act xf (e <| c_lts := now |>) in
  if trk then (xf, e, true)
  else
    let e := if x_proto xf =? IPPROTO_TCP then dp_run_ctact_helper xf e else e in
    (if negb (ca_fwrid e =? 0) && negb (ca_record e =? 0) then xf <| x_dp_rec := u8 (ca_record e) |> else xf, e, false).

(** dp_do_ingress_ct: true when the packet goes on to the CT program. *)
Definition dp_do_ingress_ct (now : Z) (xf : xfi) (st : ct_st) : xfi * ct_st * bool :=
  let key := CT_KEY_GEN xf in
  match ct_map st !! key with
  | None => (xf, st, true)
  | Some e => let '(xf, e, trk) := dp_do_ctops now xf e in (xf, st <| ct_map ::= <[key := e]> |>, trk)
  end.

(** ** After establishment (dp_ct_est) and at teardown (dp_ct_ctd) *)

Definition key_saddr0 (v : Z) (k : dp_ct_key) : dp_ct_key := k <| k_saddr ::= set_addr4 v |>.
Definition key_daddr0 (v : Z) (k : dp_ct_key) : dp_ct_key := k <| k_daddr ::= set_addr4 v |>.
Definition on_xi (f : nxfrm_inf → nxfrm_inf) (e : dp_ct_tact) : dp_ct_tact := e <| ctd ::= (λ d, d <| d_xi ::= f |>) |>.

(** CP_CT_NAT_TACTS copies every part of an entry but its lock. *)
Definition CP_CT_NAT_TACTS (src : dp_ct_tact) : dp_ct_tact := src.

(** The locals of dp_ct_est *)
Record est_st := mk_est_st { es_key : dp_ct_key; es_xkey : dp_ct_key; es_a : dp_ct_tact; es_x : dp_ct_tact; es_map : gmap dp_ct_key dp_ct_tact }.
#[export] Instance est_st_eta : RecordEta est_st := fun r => mk_est_st (es_key r) (es_xkey r) (es_a r) (es_x r) (es_map r).

(** One more pair of an SCTP association: the client's [i]-th address against
    the service's [j]-th one. *)
Definition est_assoc (cap : Z) (pss tpxss : sctp_pinfd) (pmhh : Z * Z * Z) (primary_ep i j : Z) (s : est_st) : est_st :=
  let src := mh_host pss !!! Z.to_nat i in
  let mhvip := pmhh_get pmhh j in
  if negb (mhvip =? 0) && negb (src =? 0) then
    let sec := if negb (mh_host tpxss !!! Z.to_nat i =? 0) then mh_host tpxss !!! Z.to_nat i else primary_ep in
    let key := key_daddr0 mhvip (key_saddr0 src (es_key s)) in
    let xkey := key_saddr0 sec (key_daddr0 mhvip (es_xkey s)) in
    let a := (on_xi (λ x, x <| nat_rip ::= set_addr4 mhvip |> <| nat_xip ::= set_addr4 sec |>) (es_a s))
               <| c_nat ::= (λ n, n <| na_rip ::= set_addr4 mhvip |> <| na_xip ::= set_addr4 sec |>) |> in
    let x := (on_xi (λ x, x <| nat_xip ::= set_addr4 mhvip |> <| nat_rip ::= set_addr4 src |>) (es_x s))
               <| c_nat ::= (λ n, n <| na_xip ::= set_addr4 mhvip |> <| na_rip ::= set_addr4 src |>) |> in
    mk_est_st key xkey a x (ct_update cap key a (ct_update cap xkey x (es_map s)))
  else s.

(** The first loop, from [i]; what it leaves and the [i] it ends at. *)
Fixpoint est_loop1 (n : nat) (cap : Z) (pss tpxss : sctp_pinfd) (pmhh : Z * Z * Z) (ep i : Z) (s : est_st) : Z * est_st :=
  match n with
  | O => (i, s)
  | S n => if (i <? s_nh pss) && (i <? LLB_MAX_MHOSTS) then est_loop1 n cap pss tpxss pmhh ep (i + 1) (est_assoc cap pss tpxss pmhh ep i (i - 1) s) else (i, s)
  end.
(** The second, over the service's addresses from [j], for the first client one. *)
Fixpoint est_loop2 (n : nat) (cap : Z) (pss tpxss : sctp_pinfd) (pmhh : Z * Z * Z) (ep j : Z) (s : est_st) : est_st :=
  match n with
  | O => s
  | S n => if j <? LLB_MAX_MHOSTS then est_loop2 n cap pss tpxss pmhh ep (j + 1) (est_assoc cap pss tpxss pmhh ep 0 j s) else s
  end.

Definition from_known_host (pss : sctp_pinfd) (src : Z) : bool :=
  existsb (λ i, (i <? s_nh pss) && (mh_host pss !!! Z.to_nat i =? src)) [0; 1; 2].

Definition dp_ct_est (cap : Z) (xf : xfi) (at_ axt : dp_ct_tact) (s : est_st) : est_st :=
  let xi := d_xi (ctd at_) in
  if negb (dsr xi =? 0) || negb (nv6 xi =? 0) then s
  else
    let s := s <| es_a := CP_CT_NAT_TACTS at_ |> <| es_x := CP_CT_NAT_TACTS axt |> in
    if x_proto xf =? IPPROTO_UDP then
      if negb (x_ssnid xf =? 0) then
        let frag (k : dp_ct_key) (e : dp_ct_tact) : dp_ct_key * dp_ct_tact :=
          (k <| k_sport := x_ssnid xf |> <| k_dport := x_ssnid xf |>,
           on_pi (λ p, p <| pi_frag := 1 |>) (on_xi (λ x, x <| osp := k_sport k |> <| odp := k_dport k |>) e)) in
        match x_dir xf with
        | CT_DIR_IN => let '(k, a) := frag (es_key s) (es_a s) in s <| es_key := k |> <| es_a := a |> <| es_map ::= ct_update cap k a |>
        | CT_DIR_OUT => let '(k, x) := frag (es_xkey s) (es_x s) in s <| es_xkey := k |> <| es_x := x |> <| es_map ::= ct_update cap k x |>
        end
      else s
    else if x_proto xf =? IPPROTO_SCTP then
      if x_goct xf then s
      else if negb (mhon xi =? 0) && bool_decide (x_dir xf = CT_DIR_IN) then
        let pss := s_in (e_s at_) in
        let tpxss := s_out (e_s at_) in
        let ep := if from_known_host pss (addr4 (x_saddr xf)) then s_osrc tpxss else 0 in
        if ep =? 0 then s
        else
          let s := s <| es_a ::= on_xi (λ x, x <| mhon := 0 |> <| mhs := 1 |>) |> <| es_x ::= on_xi (λ x, x <| mhon := 0 |> <| mhs := 1 |>) |> in
          let pmhh := pi_pmhh (d_pi (ctd at_)) in
          let '(i, s) := est_loop1 (Z.to_nat LLB_MAX_MHOSTS) cap pss tpxss pmhh ep 1 s in
          est_loop2 (Z.to_nat LLB_MAX_MHOSTS) cap pss tpxss pmhh ep (i - 1) s
      else s
    else s.

Definition hosts_of (d : sctp_pinfd) : list Z := take (Z.to_nat (Z.min (s_nh d) LLB_MAX_MHOSTS)) (mh_host d).
Definition pmhh_list (t : Z * Z * Z) : list Z := let '(a, b, c) := t in [a; b; c].

(** The inner loops of dp_ct_ctd: the pairs of client address [h]; those of a
    service address [h]. *)
Definition ctd_client (pmhh : Z * Z * Z) (odst h : Z) (s : dp_ct_key * dp_ct_key * gmap dp_ct_key dp_ct_tact) :=
  let '(key, xkey, m) := s in
  let key := key_saddr0 h key in
  let '(key, xkey, m) :=
    foldl (λ s v, let '(key, xkey, m) := s in
             if negb (v =? 0) && negb (h =? 0) then let key := key_daddr0 v key in let xkey := key_daddr0 v xkey in (key, xkey, delete xkey (delete key m)) else s)
      (key, xkey, m) (pmhh_list pmhh) in
  let key := key_daddr0 odst key in (key, xkey, delete key m).
Definition ctd_service (pmhh : Z * Z * Z) (odst h : Z) (s : dp_ct_key * dp_ct_key * gmap dp_ct_key dp_ct_tact) :=
  let '(key, xkey, m) := s in
  let xkey := key_saddr0 h xkey in
  let '(xkey, m) :=
    foldl (λ s v, let '(xkey, m) := s in if negb (v =? 0) && negb (h =? 0) then let xkey := key_daddr0 v xkey in (xkey, delete xkey m) else s)
      (xkey, m) (pmhh_list pmhh) in
  let xkey := key_daddr0 odst xkey in (key, xkey, delete xkey m).

Definition dp_ct_ctd (xf : xfi) (key xkey : dp_ct_key) (at_ axt : dp_ct_tact) (m : gmap dp_ct_key dp_ct_tact) : gmap dp_ct_key dp_ct_tact :=
  if (x_proto xf =? IPPROTO_SCTP) && negb (x_npmhh xf =? 0) then
    let pss := s_in (e_s at_) in
    let pxss := s_out (e_s at_) in
    let s := foldl (λ s h, ctd_client (pi_pmhh (d_pi (ctd at_))) (s_odst pss) h s) (key, xkey, m) (hosts_of pss) in
    (foldl (λ s h, ctd_service (pi_pmhh (d_pi (ctd axt))) (s_odst pxss) h s) s (hosts_of pxss)).2
  else m.

(** ** dp_ct_in *)

(** xi and xxi from the packet, over what the scratch entries held. *)
Definition xi_of (xf : xfi) (old : nxfrm_inf) : nxfrm_inf :=
  let xi := old <| nat_flags := x_nf xf |> <| nat_xip := x_nxip xf |> <| nat_rip := x_nrip xf |> <| nat_xport := x_nxport xf |>
                <| nv6 := x_nv6 xf |> <| dsr := x_dsr xf |> in
  if has (x_nf xf) (Z.lor LLB_NAT_DST LLB_NAT_SRC) && DP_XADDR_ISZR (x_nxip xf) then
    if x_nf xf =? LLB_NAT_DST then xi <| nat_flags := LLB_NAT_HDST |>
    else if x_nf xf =? LLB_NAT_SRC then xi <| nat_flags := LLB_NAT_HSRC |> else xi
  else xi.
Definition xxi_clear (old : nxfrm_inf) : nxfrm_inf :=
  old <| nat_flags := 0 |> <| nat_xport := 0 |> <| nat_xip := xaddr_zero |> <| nat_rip := xaddr_zero |>.

(** The NAT action of a new entry with NAT information [xi]. *)
Definition new_nat (xf : xfi) (xi : nxfrm_inf) (nv6v : Z) (old : dp_nat_act) : dp_nat_act :=
  mk_dp_nat_act (nat_xip xi) (nat_rip xi) (nat_xport xi) (na_fr old) 1 (x_rule_id xf) (x_sel_aid xf) nv6v (x_dsr xf) (x_cdis xf) (x_npmhh xf) (x_nppv2 xf) (x_rpolid xf).

Definition new_entry (xf : xfi) (xi : nxfrm_inf) (nv6v cidx nid lts : Z) (dir : ct_dir) (old : dp_ct_tact) : dp_ct_tact :=
  let natted := negb (nat_flags xi =? 0) in
  let d := mk_dp_ct_dat (x_rule_id xf) (x_sel_aid xf) nid (ct_pinf_zero <| pi_npmhh := x_npmhh xf |> <| pi_pmhh := x_pmhh xf |>) dir CT_SMR_INIT xi 0 0 in
  mk_dp_ct_tact
    (if natted then if has (nat_flags xi) (Z.lor LLB_NAT_DST LLB_NAT_HDST) then DP_SET_DNAT else DP_SET_SNAT else DP_SET_DO_CT)
    0 0 cidx (x_fw_rid xf) (x_dp_rec xf) d (if natted then x_ito xf else 0) lts (if natted then new_nat xf xi nv6v (c_nat old) else c_nat old).

(** conc_conns++, total_conns++ *)
Definition conn_opened (rule : Z) (eps : ep_table) : ep_table :=
  alter (λ e, e <| conc_conns ::= (λ n, u32 (n + 1)) |> <| total_conns ::= (λ n, u32 (n + 1)) |>) rule eps.
(** conc_conns-- unless 0, and the connection's bytes *)
Definition conn_closed (rule bin bout : Z) (eps : ep_table) : ep_table :=
  alter (λ e, e <| conc_conns ::= (λ n, if n >? 0 then n - 1 else n) |> <| cum_bytes_in ::= (λ n, u64 (n + bin)) |> <| cum_bytes_out ::= (λ n, u64 (n + bout)) |>) rule eps.

Definition trackable (proto : Z) : bool :=
  (proto =? IPPROTO_TCP) || (proto =? IPPROTO_UDP) || (proto =? IPPROTO_ICMP) || (proto =? IPPROTO_SCTP) || (proto =? IPPROTO_ICMPV6).

Section ct_in.

(** dp_ct_sm for the packet at hand: the protocol's machine on the pair of
    entries, the forward one first. *)
Context (sm : xfi → dp_ct_tact → dp_ct_tact → ct_dir → ct_err_stats → xfi * dp_ct_tact * dp_ct_tact * ct_err_stats * ct_smr).

(** Making the pair. None: the other key is taken. The scratch entries and the
    counters have changed by then. *)
Definition ct_create (xf : xfi) (key xkey : dp_ct_key) (xi xxi : nxfrm_inf) (st : ct_st) : ct_st * bool :=
  let '(cidx, nid, c) := dp_ct_get_newctr (ctr st) in
  let a := new_entry xf xi (if x_nv6 xf =? 0 then 0 else 1) cidx nid (c_lts (xctk_a st)) CT_DIR_IN (xctk_a st) in
  let x := new_entry xf xxi (if k_v6 key =? 0 then 0 else 1) (u32 (cidx + 1)) nid (c_lts a) CT_DIR_OUT (xctk_x st) in
  let st := st <| xctk_a := a |> <| xctk_x := x |> <| ctr := c |> <| ct_eps ::= (if negb (nat_flags xi =? 0) then conn_opened (x_rule_id xf) else id) |> in
  if bool_decide (is_Some (ct_map st !! xkey)) then (st, false)
  else (st <| ct_map ::= (λ m, ct_update (ct_max st) key a (ct_update (ct_max st) xkey x m)) |>, true).

(** On an established connection: offload events, the extra entries. *)
Definition ct_established (xf : xfi) (key xkey : dp_ct_key) (natted : bool) (at_ axt : dp_ct_tact) (st : ct_st) : ct_st * list hwev :=
  let offload := (k_v6 key =? 0) && ((k_l4proto key =? IPPROTO_TCP) || (k_l4proto key =? IPPROTO_UDP)) in
  let ev (k : dp_ct_key) : hwev := (d_rid (ctd at_), addr4 (k_saddr k), addr4 (k_daddr k), k_sport k, k_dport k, k_l4proto key) in
  if natted then
    let first_est := negb (na_doct (c_nat at_) =? 0) in
    let clear e := e <| c_nat ::= (λ n, n <| na_doct := 0 |>) |> in
    let at_ := clear at_ in
    let axt := clear axt in
    let '(key', xkey', st) :=
      match d_dir (ctd at_) with
      | CT_DIR_IN =>
          let s := dp_ct_est (ct_max st) xf at_ axt (mk_est_st key xkey (xctk_a st) (xctk_x st) (<[key := at_]> (<[xkey := axt]> (ct_map st)))) in
          (es_key s, es_xkey s, st <| ct_map := es_map s |> <| xctk_a := es_a s |> <| xctk_x := es_x s |>)
      | CT_DIR_OUT =>
          let s := dp_ct_est (ct_max st) xf axt at_ (mk_est_st xkey key (xctk_a st) (xctk_x st) (<[key := at_]> (<[xkey := axt]> (ct_map st)))) in
          (es_xkey s, es_key s, st <| ct_map := es_map s |> <| xctk_a := es_a s |> <| xctk_x := es_x s |>)
      end in
    let st := st <| ct_map ::= (λ m, alter (on_xi (λ x, x <| mhon := 0 |>)) key (alter (on_xi (λ x, x <| mhon := 0 |>)) xkey m)) |> in
    (st, if first_est && offload then [ev key'; ev xkey'] else [])
  else
    let first_est := negb (ca_act_type at_ =? DP_SET_NOP) in
    let nop e := e <| ca_act_type := DP_SET_NOP |> in
    (st <| ct_map ::= (λ m, <[key := nop at_]> (<[xkey := nop axt]> m)) |>, if first_est && offload then [ev key] else []).

(** On an error or a close: both entries go, and what hangs on them. *)
Definition ct_teardown (xf : xfi) (key xkey : dp_ct_key) (natted : bool) (at_ axt : dp_ct_tact) (st : ct_st) : ct_st :=
  let st := st <| ct_map ::= (λ m, delete key (delete xkey m)) |> <| fc_v4_map ::= (λ f, dp_ct_related_fc_rm key (dp_ct_related_fc_rm xkey f)) |> in
  let isin := bool_decide (d_dir (ctd at_) = CT_DIR_IN) in
  let st := st <| ct_map ::= (if isin then dp_ct_ctd xf key xkey at_ axt else dp_ct_ctd xf xkey key axt at_) |> in
  if natted then
    let bytes e := pb_bytes (ctd e) in
    let '(bin, bout) := if isin then (bytes at_, bytes axt) else (bytes axt, bytes at_) in
    st <| ct_eps ::= (λ p, conn_closed (d_rid (ctd at_)) bin bout (dp_do_dec_nat_sess (d_rid (ctd at_)) (d_aid (ctd at_)) p)) |>
  else st.

(** From the pair on: the machine, and what follows from its answer. *)
Definition ct_follow (now : Z) (xf : xfi) (key xkey : dp_ct_key) (natted : bool) (at_ axt : dp_ct_tact) (st : ct_st) : ct_st * xfi * ct_smr * list hwev :=
  let at_ := at_ <| c_lts := now |> in
  let axt := axt <| c_lts := now |> in
  let dir := d_dir (ctd at_) in
  let xf := xf <| x_dir := dir |> <| x_phit ::= (λ p, Z.lor p (match dir with CT_DIR_IN => LLB_DP_CTSI_HIT | CT_DIR_OUT => LLB_DP_CTSO_HIT end)) |> in
  let '(xf, at_, axt, errs, smr) :=
    match dir with
    | CT_DIR_IN => sm xf at_ axt CT_DIR_IN (ct_errs st)
    | CT_DIR_OUT => let '(xf, f, r, errs, smr) := sm xf axt at_ CT_DIR_OUT (ct_errs st) in (xf, r, f, errs, smr)
    end in
  let st := st <| ct_errs := errs |> in
  if decide (smr = CT_SMR_EST ∨ smr = CT_SMR_UEST) then let '(st, evs) := ct_established xf key xkey natted at_ axt st in (st, xf, smr, evs)
  else if decide (smr = CT_SMR_ERR ∨ smr = CT_SMR_CTD) then (ct_teardown xf key xkey natted at_ axt st, xf, smr, [])
  else (st <| ct_map ::= (λ m, <[key := at_]> (<[xkey := axt]> m)) |>, xf, smr, []).

Definition dp_ct_in (now : Z) (xf : xfi) (st : ct_st) : ct_st * xfi * ct_smr * list hwev :=
  let key := CT_KEY_GEN xf in
  if negb (trackable (k_l4proto key)) then (st, xf, CT_SMR_INPROG, [])
  else
    let '(xi, xkey, xxi) := dp_ct_proto_xfk_init key (xi_of xf (d_xi (ctd (xctk_a st)))) (xxi_clear (d_xi (ctd (xctk_x st)))) in
    let st := st <| xctk_a ::= on_xi (λ _, xi) |> <| xctk_x ::= on_xi (λ _, xxi) |> in
    let natted := negb (nat_flags xi =? 0) in
    let '(st, ok) := match ct_map st !! key with
                     | None => ct_create xf key xkey xi xxi st
                     | Some _ => (st, bool_decide (is_Some (ct_map st !! xkey)))
                     end in
    if ok then
      match ct_map st !! key, ct_map st !! xkey with
      | Some at_, Some axt => ct_follow now xf key xkey natted at_ axt st
      | _, _ => (st, xf, CT_SMR_ERR, [])
      end
    else (st, LLBS_PPLN_DROPC LLB_PIPE_CT_ERR xf, CT_SMR_INPROG, []).

End ct_in.

(** ** The protocol's machine (dp_ct_sm) *)

(** What the machines read of the packet beyond its metadata. *)
Record l4_pkt := mk_l4_pkt { lp_tcp : option tcp_hdr; lp_gso : bool; lp_icmp : option icmp_hdr; lp_skb : skb }.

Definition dp_ct_sm (change_tail : skb → Z → option skb) (pk : l4_pkt) (xf : xfi) (at_ axt : dp_ct_tact) (dir : ct_dir) (st : ct_err_stats) :
    xfi * dp_ct_tact * dp_ct_tact * ct_err_stats * ct_smr :=
  let p := x_proto xf in
  if p =? IPPROTO_TCP then dp_ct_tcp_sm xf (lp_tcp pk) (lp_gso pk) at_ axt dir st
  else if p =? IPPROTO_UDP then let '(a, x, smr) := dp_ct_udp_sm xf at_ axt dir in (xf, a, x, st, smr)
  else if p =? IPPROTO_ICMP then let '(xf, a, x, smr) := dp_ct_icmp_sm xf (lp_icmp pk) at_ axt dir in (xf, a, x, st, smr)
  else if p =? IPPROTO_SCTP then let '(xf, _, a, x, st, smr) := dp_ct_sctp_sm change_tail xf (lp_skb pk) at_ axt dir st in (xf, a, x, st, smr)
  else if p =? IPPROTO_ICMPV6 then let '(xf, a, x, smr) := dp_ct_icmp6_sm xf (lp_icmp pk) at_ axt dir in (xf, a, x, st, smr)
  else (xf, at_, axt, st, CT_SMR_UNT).

(** What the control side reads of an entry to find its mate: slot, fragment mark,
    NAT information. *)
Definition user_of (e : dp_ct_tact) : Z * Z * (Z * xaddr * xaddr * Z * Z * Z) :=
  let xi := d_xi (ctd e) in
  (d_aid (ctd e), pi_frag (d_pi (ctd e)), (nat_flags xi, nat_xip xi, nat_rip xi, nat_xport xi, nv6 xi, dsr xi)).

(** What a machine may not touch: an entry's action, rule, direction and NAT
    information, and the packet's identity. *)
Definition ident (e : dp_ct_tact) : Z * Z * ct_dir * dp_nat_act * (Z * Z * (Z * xaddr * xaddr * Z * Z * Z)) :=
  (ca_act_type e, d_rid (ctd e), d_dir (ctd e), c_nat e, user_of e).

Definition ct_machine : Type := xfi → dp_ct_tact → dp_ct_tact → ct_dir → ct_err_stats → xfi * dp_ct_tact * dp_ct_tact * ct_err_stats * ct_smr.
Class CtMachine (sm : ct_machine) : Prop := ct_frame : ∀ xf a x dir st,
  let r := sm xf a x dir st in ident r.1.1.1.2 = ident a ∧ ident r.1.1.2 = ident x ∧ x_proto r.1.1.1.1 = x_proto xf ∧ x_ssnid r.1.1.1.1 = x_ssnid xf.

Lemma count_dir_ident dir len a x : ident (count_dir dir len a x).1 = ident a ∧ ident (count_dir dir len a x).2 = ident x.
Proof. by destruct dir. Qed.

Lemma tcp_ident xf h gso a x dir st :
  let r := dp_ct_tcp_sm xf h gso a x dir st in ident r.1.1.1.2 = ident a ∧ ident r.1.1.2 = ident x ∧ x_proto r.1.1.1.1 = x_proto xf ∧ x_ssnid r.1.1.1.1 = x_ssnid xf.
Proof.
  cbn zeta. unfold dp_ct_tcp_sm. destruct h as [h|]; [|done]. destruct dir; cbn [count_dir].
  all: set (w := tcp_switch _ _ _ _ _); clearbody w; cbn zeta; repeat case_match; done.
Qed.

Lemma udp_ident xf a x dir : let r := dp_ct_udp_sm xf a x dir in ident r.1.1 = ident a ∧ ident r.1.2 = ident x.
Proof. by destruct dir. Qed.

Lemma icmp_end_ident r a x : ident (icmp_end r a x).1.1 = ident a ∧ ident (icmp_end r a x).1.2 = ident x.
Proof. by destruct r. Qed.

Lemma icmp_ident xf h a x dir :
  let r := dp_ct_icmp_sm xf h a x dir in ident r.1.1.2 = ident a ∧ ident r.1.2 = ident x ∧ x_proto r.1.1.1 = x_proto xf ∧ x_ssnid r.1.1.1 = x_ssnid xf.
Proof.
  cbn zeta. unfold dp_ct_icmp_sm. destruct h as [h|]; [|done]. pose proof (count_dir_ident dir (x_l3_len xf) a x) as [<- <-]. destruct (count_dir _ _ _ _) as [a1 x1].
  set (r := if ih_type h =? ICMP_DEST_UNREACH then _ else _). pose proof (icmp_end_ident r a1 x1) as [Ha Hx]. by destruct (icmp_end r a1 x1) as [[a2 x2] smr].
Qed.

Lemma icmp6_ident xf h a x dir :
  let r := dp_ct_icmp6_sm xf h a x dir in ident r.1.1.2 = ident a ∧ ident r.1.2 = ident x ∧ x_proto r.1.1.1 = x_proto xf ∧ x_ssnid r.1.1.1 = x_ssnid xf.
Proof.
  cbn zeta. unfold dp_ct_icmp6_sm. destruct h as [h|]; [|done]. pose proof (count_dir_ident dir (x_l3_len xf) a x) as [<- <-]. destruct (count_dir _ _ _ _) as [a1 x1].
  set (r := if ih_type h =? ICMPV6_DEST_UNREACH then _ else _). pose proof (icmp_end_ident r a1 x1) as [Ha Hx]. by destruct (icmp_end r a1 x1) as [[a2 x2] smr].
Qed.

Lemma add_nph_xf ch host npmhh nh xf sk : let xf' := (sctp_add_nph ch host npmhh nh xf sk).1.1 in x_proto xf' = x_proto xf ∧ x_ssnid xf' = x_ssnid xf.
Proof. cbn zeta. unfold sctp_add_nph. by repeat case_match. Qed.

Lemma sctp_switch_xf ch xf sk a x dir : let xf' := so_xf (sctp_switch ch xf sk a x dir) in x_proto xf' = x_proto xf ∧ x_ssnid xf' = x_ssnid xf.
Proof.
  cbn zeta. unfold sctp_switch. destruct (_ =? _); [done|]. destruct (_ =? _); [done|]. destruct (_ =? _); [done|].
  destruct (s_state (e_s a)) eqn:Es; try (unfold sctp_later; rewrite Es; cbn zeta; repeat case_match; done).
  - unfold sctp_closed. cbn zeta. destruct (negb (x_dsr xf =? 0)); [done|]. destruct (_ && _ && _ && _); [done|]. destruct (_ || _); [done|]. destruct (negb (fits _ _ SCTP_INIT_CH)); [done|].
    destruct (negb (fits _ _ SCTP_PARAM)); [|destruct (x_v6 xf || _); [done|]; destruct (pw_bad _); [done|]];
    match goal with |- context [sctp_add_nph ch ?h ?n ?m xf ?s] => pose proof (add_nph_xf ch h n m xf s) as Hx; destruct (sctp_add_nph ch h n m xf s) as [[? ?] ?] end; exact Hx.
  - unfold sctp_init. cbn zeta. destruct (_ && _); [done|]. destruct (_ || _); [done|]. destruct (negb (fits _ _ SCTP_INIT_CH)); [done|]. destruct (_ && _); [done|].
    destruct (ld8 _ _ =? _); (destruct (x_v6 xf || _); [done|]); (destruct (pw_bad _); [done|]);
    match goal with |- context [sctp_add_nph ch ?h ?n ?m xf ?s] => pose proof (add_nph_xf ch h n m xf s) as Hx; destruct (sctp_add_nph ch h n m xf s) as [[? ?] ?] end; exact Hx.
Qed.

Lemma sctp_ident ch xf sk a x dir st :
  let r := dp_ct_sctp_sm ch xf sk a x dir st in ident r.1.1.1.2 = ident a ∧ ident r.1.1.2 = ident x ∧ x_proto r.1.1.1.1.1 = x_proto xf ∧ x_ssnid r.1.1.1.1.1 = x_ssnid xf.
Proof.
  cbn zeta. unfold dp_ct_sctp_sm. destruct (_ || _); [done|]. pose proof (count_dir_ident dir (x_l3_len xf) a x) as [<- <-]. destruct (count_dir _ _ _ _) as [a1 x1]. cbn [fst snd].
  pose proof (sctp_switch_xf ch xf sk a1 x1 dir) as Hx. destruct (sctp_switch ch xf sk a1 x1 dir) as [n ss xf' sk' mh]. cbn in *. by destruct mh, n.
Qed.

#[export] Instance dp_ct_sm_machine ch pk : CtMachine (dp_ct_sm ch pk).
Proof.
  intros xf a x dir st. cbn zeta. unfold dp_ct_sm. destruct (x_proto xf =? IPPROTO_TCP); [apply tcp_ident|].
  destruct (x_proto xf =? IPPROTO_UDP); [pose proof (udp_ident xf a x dir) as [Ha Hx]; by destruct (dp_ct_udp_sm _ _ _ _) as [[? ?] ?]|].
  destruct (x_proto xf =? IPPROTO_ICMP); [pose proof (icmp_ident xf (lp_icmp pk) a x dir) as H; by destruct (dp_ct_icmp_sm _ _ _ _ _) as [[[? ?] ?] ?]|].
  destruct (x_proto xf =? IPPROTO_SCTP); [pose proof (sctp_ident ch xf (lp_skb pk) a x dir st) as H; by destruct (dp_ct_sctp_sm _ _ _ _ _ _ _) as [[[[[? ?] ?] ?] ?] ?]|].
  destruct (x_proto xf =? IPPROTO_ICMPV6); [pose proof (icmp6_ident xf (lp_icmp pk) a x dir) as H; by destruct (dp_ct_icmp6_sm _ _ _ _ _) as [[[? ?] ?] ?]|done].
Qed.

(** ** The two keys of a connection *)

(** The zero address and the zero port stand for "not translated". A connection
    with NAT information [xi] can be told apart from one without. *)
Definition translatable (key : dp_ct_key) : Prop :=
  k_saddr key ≠ xaddr_zero ∧ k_daddr key ≠ xaddr_zero ∧ (k_l4proto key ≠ IPPROTO_ICMP → k_sport key ≠ 0 ∧ k_dport key ≠ 0).

Lemma iszr_false a : a ≠ xaddr_zero → DP_XADDR_ISZR a = false.
Proof. intros H. destruct (DP_XADDR_ISZR a) eqn:E; [|done]. by apply iszr_spec in E. Qed.

Lemma xfk_flags key s :
  nat_flags (xfk_dst key s).1.1 = nat_flags s.1.1 ∧ nat_flags (xfk_src key s).1.1 = nat_flags s.1.1 ∧ nat_flags (xfk_hdst key s).1.1 = nat_flags s.1.1.
Proof.
  destruct s as [[xi xkey] xxi]. unfold xfk_dst, xfk_src, xfk_hdst. cbn [fst].
  destruct (DP_XADDR_ISZR (nat_rip xi)), (k_l4proto key =? IPPROTO_ICMP), (nat_xport xi =? 0); done.
Qed.

Lemma xfk_hit bit f key s b : nat_flags s.1.1 = b → has b bit = true → xfk_when bit f key s = f key s.
Proof. intros <- H. unfold xfk_when. by rewrite H. Qed.
Lemma xfk_miss bit f key s b : nat_flags s.1.1 = b → has b bit = false → xfk_when bit f key s = s.
Proof. intros <- H. unfold xfk_when. by rewrite H. Qed.

(** One kind of NAT at a time: only its block runs. *)
Lemma xfk_one key xi xxi (bit : Z) f : dsr xi = 0 → nat_flags xi = bit →
  (bit, f) ∈ [(LLB_NAT_DST, xfk_dst); (LLB_NAT_SRC, xfk_src); (LLB_NAT_HDST, xfk_hdst); (LLB_NAT_HSRC, xfk_hsrc)] →
  dp_ct_proto_xfk_init key xi xxi = f key (xi, rev_key key, xxi).
Proof.
  intros Hd Hb Hin. unfold dp_ct_proto_xfk_init. rewrite Hd. cbn [negb Z.eqb]. set (s := (xi, rev_key key, xxi)).
  assert (Hs : nat_flags s.1.1 = bit) by done. clearbody s. destruct (xfk_flags key s) as (F1 & F2 & F3). rewrite Hs in *.
  rewrite !elem_of_cons, elem_of_nil in Hin. destruct Hin as [Hin|[Hin|[Hin|[Hin|[]]]]]; injection Hin as -> ->.
  - rewrite (xfk_hit _ _ key s _ Hs), (xfk_miss _ _ key _ _ F1), (xfk_miss _ _ key _ _ F1), (xfk_miss _ _ key _ _ F1) by done. done.
  - rewrite (xfk_miss _ _ key s _ Hs), (xfk_hit _ _ key s _ Hs), (xfk_miss _ _ key _ _ F2), (xfk_miss _ _ key _ _ F2) by done. done.
  - rewrite (xfk_miss _ _ key s _ Hs), (xfk_miss _ _ key s _ Hs), (xfk_hit _ _ key s _ Hs), (xfk_miss _ _ key _ _ F3) by done. done.
  - rewrite (xfk_miss _ _ key s _ Hs), (xfk_miss _ _ key s _ Hs), (xfk_miss _ _ key s _ Hs), (xfk_hit _ _ key s _ Hs) by done. done.
Qed.

Lemma xfk_none key xi xxi : nat_flags xi = 0 → (dp_ct_proto_xfk_init key xi xxi).1.2 = rev_key key.
Proof.
  intros Hf. unfold dp_ct_proto_xfk_init. destruct (negb _); [done|]. by rewrite !(xfk_miss _ _ key (xi, rev_key key, xxi) 0).
Qed.

Lemma rev_key_involutive k : rev_key (rev_key k) = k.
Proof. by destruct k. Qed.

Lemma xfk_flags_hsrc key s : nat_flags (xfk_hsrc key s).1.1 = nat_flags s.1.1.
Proof. destruct s as [[xi xkey] xxi]. unfold xfk_hsrc. cbn [fst]. destruct (k_l4proto key =? IPPROTO_ICMP), (nat_xport xi =? 0); done. Qed.

Lemma xfk_when_flags bit f key s : (∀ s, nat_flags (f key s).1.1 = nat_flags s.1.1) → nat_flags (xfk_when bit f key s).1.1 = nat_flags s.1.1.
Proof. intros Hf. unfold xfk_when. by destruct (has _ _). Qed.

Lemma xfk_flags_keep key s :
  nat_flags (xfk_when LLB_NAT_HSRC xfk_hsrc key (xfk_when LLB_NAT_HDST xfk_hdst key (xfk_when LLB_NAT_SRC xfk_src key (xfk_when LLB_NAT_DST xfk_dst key s)))).1.1 = nat_flags s.1.1.
Proof.
  rewrite xfk_when_flags by apply xfk_flags_hsrc. rewrite xfk_when_flags by (intros; apply xfk_flags). rewrite xfk_when_flags by (intros; apply xfk_flags). apply xfk_when_flags. intros; apply xfk_flags.
Qed.

Definition ported (key : dp_ct_key) : bool := negb (k_l4proto key =? IPPROTO_ICMP).
Definition or_else (a b : xaddr) : xaddr := if DP_XADDR_ISZR a then b else a.
Definition port_or (key : dp_ct_key) (p dflt : Z) : Z := if ported key && negb (p =? 0) then p else dflt.
Definition filled_port (key : dp_ct_key) (p dflt : Z) : Z := if ported key && (p =? 0) then dflt else p.

(** The key of the other direction, by kind of NAT. *)
Definition dst_key (key : dp_ct_key) (xi : nxfrm_inf) : dp_ct_key :=
  mk_dp_ct_key (or_else (nat_rip xi) (k_saddr key)) (nat_xip xi) (port_or key (nat_xport xi) (k_dport key)) (k_sport key)
    (k_zone key) (k_l4proto key) (nv6 xi) (k_ident key) (k_type key).
Definition src_key (key : dp_ct_key) (xi : nxfrm_inf) : dp_ct_key :=
  mk_dp_ct_key (nat_xip xi) (or_else (nat_rip xi) (k_daddr key)) (k_dport key) (port_or key (nat_xport xi) (k_sport key))
    (k_zone key) (k_l4proto key) (nv6 xi) (k_ident key) (k_type key).
Definition hdst_key (key : dp_ct_key) (xi : nxfrm_inf) : dp_ct_key :=
  mk_dp_ct_key (k_daddr key) (k_saddr key) (port_or key (nat_xport xi) (k_dport key)) (k_sport key)
    (k_zone key) (k_l4proto key) (k_v6 key) (k_ident key) (k_type key).
Definition hsrc_key (key : dp_ct_key) (xi : nxfrm_inf) : dp_ct_key :=
  mk_dp_ct_key (k_daddr key) (k_saddr key) (k_dport key) (port_or key (nat_xport xi) (k_sport key))
    (k_zone key) (k_l4proto key) (k_v6 key) (k_ident key) (k_type key).

(** Everything a block leaves that matters later: this side's addresses and port
    as they are kept, the other side's key, flags, addresses, port. *)
Definition seen (s : xfk) : xaddr * xaddr * Z * Z * dp_ct_key * (Z * xaddr * xaddr * Z) :=
  (nat_xip s.1.1, nat_rip s.1.1, nat_xport s.1.1, nat_flags s.1.1, s.1.2, (nat_flags s.2, nat_xip s.2, nat_rip s.2, nat_xport s.2)).

Lemma seen_dst key xi o : seen (xfk_dst key (xi, rev_key key, xxi_clear o)) =
  (nat_xip xi, nat_rip xi, filled_port key (nat_xport xi) (k_dport key), nat_flags xi, dst_key key xi,
   (LLB_NAT_SRC, k_daddr key, if DP_XADDR_ISZR (nat_rip xi) then xaddr_zero else k_saddr key, if ported key then k_dport key else 0)).
Proof. unfold xfk_dst, dst_key, or_else, port_or, filled_port, ported. destruct (DP_XADDR_ISZR (nat_rip xi)), (k_l4proto key =? IPPROTO_ICMP), (nat_xport xi =? 0); done. Qed.

Lemma seen_src key xi o : seen (xfk_src key (xi, rev_key key, xxi_clear o)) =
  (nat_xip xi, nat_rip xi, filled_port key (nat_xport xi) (k_sport key), nat_flags xi, src_key key xi,
   (LLB_NAT_DST, k_saddr key, if DP_XADDR_ISZR (nat_rip xi) then xaddr_zero else k_daddr key, if ported key then k_sport key else 0)).
Proof. unfold xfk_src, src_key, or_else, port_or, filled_port, ported. destruct (DP_XADDR_ISZR (nat_rip xi)), (k_l4proto key =? IPPROTO_ICMP), (nat_xport xi =? 0); done. Qed.

Lemma seen_hdst key xi o : seen (xfk_hdst key (xi, rev_key key, xxi_clear o)) =
  (xaddr_zero, nat_rip xi, filled_port key (nat_xport xi) (k_dport key), nat_flags xi, hdst_key key xi,
   (LLB_NAT_HSRC, xaddr_zero, xaddr_zero, if ported key then k_dport key else 0)).
Proof. unfold xfk_hdst, hdst_key, port_or, filled_port, ported. destruct (k_l4proto key =? IPPROTO_ICMP), (nat_xport xi =? 0); done. Qed.

Lemma seen_hsrc key xi o : seen (xfk_hsrc key (xi, rev_key key, xxi_clear o)) =
  (xaddr_zero, nat_rip xi, filled_port key (nat_xport xi) (k_sport key), nat_flags xi, hsrc_key key xi,
   (LLB_NAT_HDST, xaddr_zero, xaddr_zero, if ported key then k_sport key else 0)).
Proof. unfold xfk_hsrc, hsrc_key, port_or, filled_port, ported. destruct (k_l4proto key =? IPPROTO_ICMP), (nat_xport xi =? 0); done. Qed.

(** ** What a packet that hits an entry computes *)

(** The metadata an entry gives a packet that came without any. *)
Definition natting (e : dp_ct_tact) : bool := (ca_act_type e =? DP_SET_SNAT) || (ca_act_type e =? DP_SET_DNAT).
Definition entry_xf (e : dp_ct_tact) : xfi := if natting e then dp_pipe_set_nat (c_nat e) (ca_act_type e =? DP_SET_SNAT) xfi_zero else xfi_zero.
(** The key under which its packets look for the entry of the other direction. *)
Definition partner (k : dp_ct_key) (e : dp_ct_tact) : dp_ct_key := (dp_ct_proto_xfk_init k (xi_of (entry_xf e) nxfrm_zero) (xxi_clear nxfrm_zero)).1.2.

(** ctm_proto_xfk_init of loxilb_libdp.c: the same key as the control side computes
    it, from the NAT information the entry keeps. *)
Definition ctm_key (key : dp_ct_key) (xi : nxfrm_inf) (frag : Z) : dp_ct_key :=
  let xkey := rev_key key in
  if negb (dsr xi =? 0) || negb (frag =? 0) then xkey
  else
    let ports := negb (k_l4proto key =? IPPROTO_ICMP) && negb (nat_xport xi =? 0) in
    let xkey :=
      if has (nat_flags xi) LLB_NAT_DST then
        let xkey := xkey <| k_v6 := nv6 xi |> <| k_saddr := nat_xip xi |> in
        let xkey := if negb (DP_XADDR_ISZR (nat_rip xi)) then xkey <| k_daddr := nat_rip xi |> else xkey in
        if ports then xkey <| k_sport := nat_xport xi |> else xkey
      else xkey in
    let xkey :=
      if has (nat_flags xi) LLB_NAT_SRC then
        let xkey := xkey <| k_v6 := nv6 xi |> <| k_daddr := nat_xip xi |> in
        let xkey := if negb (DP_XADDR_ISZR (nat_rip xi)) then xkey <| k_saddr := nat_rip xi |> else xkey in
        if ports then xkey <| k_dport := nat_xport xi |> else xkey
      else xkey in
    let xkey :=
      if has (nat_flags xi) LLB_NAT_HDST then
        let xkey := xkey <| k_saddr := k_saddr key |> <| k_daddr := k_daddr key |> in
        if ports then xkey <| k_sport := nat_xport xi |> else xkey
      else xkey in
    if has (nat_flags xi) LLB_NAT_HSRC then
      let xkey := xkey <| k_saddr := k_saddr key |> <| k_daddr := k_daddr key |> in
      if ports then xkey <| k_dport := nat_xport xi |> else xkey
    else xkey.
Definition ctm_proto_xfk_init (key : dp_ct_key) (e : dp_ct_tact) : dp_ct_key := ctm_key key (d_xi (ctd e)) (pi_frag (d_pi (ctd e))).

(** The metadata that decide NAT. *)
Definition nat_md (xf : xfi) : Z * xaddr * xaddr * Z * Z * Z := (x_nf xf, x_nxip xf, x_nrip xf, x_nxport xf, x_nv6 xf, x_dsr xf).
Definition kind (nf : Z) (xip : xaddr) : Z :=
  if has nf (Z.lor LLB_NAT_DST LLB_NAT_SRC) && DP_XADDR_ISZR xip then if nf =? LLB_NAT_DST then LLB_NAT_HDST else if nf =? LLB_NAT_SRC then LLB_NAT_HSRC else nf else nf.

Lemma xi_of_fields xf o : let xi := xi_of xf o in
  nat_flags xi = kind (x_nf xf) (x_nxip xf) ∧ nat_xip xi = x_nxip xf ∧ nat_rip xi = x_nrip xf ∧ nat_xport xi = x_nxport xf ∧ nv6 xi = x_nv6 xf ∧ dsr xi = x_dsr xf.
Proof. cbn zeta. unfold xi_of, kind. by repeat case_match. Qed.

(** Packets a rule has been applied to, or that no rule matches. *)
Definition nat_valid (xf : xfi) : Prop :=
  (x_nf xf = 0 ∨ x_nf xf = LLB_NAT_DST ∨ x_nf xf = LLB_NAT_SRC) ∧ (x_nv6 xf = 0 ∨ x_nv6 xf = 1) ∧ (x_nf xf ≠ 0 → translatable (CT_KEY_GEN xf)).

(** The key of the other direction, as one function of the metadata. *)
Definition other_key (key : dp_ct_key) (nf : Z) (xi : nxfrm_inf) : dp_ct_key :=
  if (nf =? 0) || negb (dsr xi =? 0) then rev_key key
  else if nf =? LLB_NAT_DST then if DP_XADDR_ISZR (nat_xip xi) then hdst_key key xi else dst_key key xi
  else if DP_XADDR_ISZR (nat_xip xi) then hsrc_key key xi else src_key key xi.

Lemma xkey_other key xf o o2 : (x_nf xf = 0 ∨ x_nf xf = LLB_NAT_DST ∨ x_nf xf = LLB_NAT_SRC) →
  (dp_ct_proto_xfk_init key (xi_of xf o) (xxi_clear o2)).1.2 = other_key key (x_nf xf) (xi_of xf o).
Proof.
  intros Hnf. destruct (xi_of_fields xf o) as (Hk & Hx & Hr & Hp & Hv & Hd). unfold other_key. destruct (Z.eqb_spec (dsr (xi_of xf o)) 0) as [Hd0|Hd0]; cbn [negb orb].
  2: { rewrite orb_true_r. unfold dp_ct_proto_xfk_init. apply Z.eqb_neq in Hd0. by rewrite Hd0. }
  rewrite orb_false_r. unfold kind in Hk. rewrite <- Hx in Hk.
  destruct Hnf as [Hnf|[Hnf|Hnf]]; rewrite Hnf in *; cbn in Hk |- *; [by apply xfk_none|..]; destruct (DP_XADDR_ISZR (nat_xip (xi_of xf o))); cbn in Hk.
  - rewrite (xfk_one _ _ _ _ xfk_hdst Hd0 Hk) by (do 2 right; by left). pose proof (seen_hdst key (xi_of xf o) o2) as E. unfold seen in E. by simplify_eq.
  - rewrite (xfk_one _ _ _ _ xfk_dst Hd0 Hk) by (by left). pose proof (seen_dst key (xi_of xf o) o2) as E. unfold seen in E. by simplify_eq.
  - rewrite (xfk_one _ _ _ _ xfk_hsrc Hd0 Hk) by (do 3 right; by left). pose proof (seen_hsrc key (xi_of xf o) o2) as E. unfold seen in E. by simplify_eq.
  - rewrite (xfk_one _ _ _ _ xfk_src Hd0 Hk) by (right; by left). pose proof (seen_src key (xi_of xf o) o2) as E. unfold seen in E. by simplify_eq.
Qed.

Lemma other_key_ext key nf xi xi2 : nat_xip xi = nat_xip xi2 → nat_rip xi = nat_rip xi2 → nat_xport xi = nat_xport xi2 → nv6 xi = nv6 xi2 → dsr xi = dsr xi2 →
  other_key key nf xi = other_key key nf xi2.
Proof. intros H1 H2 H3 H4 H5. unfold other_key, hdst_key, dst_key, hsrc_key, src_key. by rewrite H1, H2, H3, H4, H5. Qed.

Lemma xi_pick xf o o2 : let '(f, g) := (xi_of xf o, xi_of xf o2) in nat_xip f = nat_xip g ∧ nat_rip f = nat_rip g ∧ nat_xport f = nat_xport g ∧ nv6 f = nv6 g ∧ dsr f = dsr g.
Proof. cbn. pose proof (xi_of_fields xf o) as (_ & -> & -> & -> & -> & ->). pose proof (xi_of_fields xf o2) as (_ & -> & -> & -> & -> & ->). done. Qed.

(** The other key does not depend on what the scratch entries held. *)
Lemma other_key_scratch key nf xf o o2 : other_key key nf (xi_of xf o) = other_key key nf (xi_of xf o2).
Proof. pose proof (xi_pick xf o o2) as H. destruct H as (? & ? & ? & ? & ?). by apply other_key_ext. Qed.

Lemma entry_nf e : x_nf (entry_xf e) = 0 ∨ x_nf (entry_xf e) = LLB_NAT_DST ∨ x_nf (entry_xf e) = LLB_NAT_SRC.
Proof. unfold entry_xf. destruct (natting e); [|by left]. cbn. destruct (_ =? _); [by right; right|by right; left]. Qed.

Lemma partner_other k e : partner k e = other_key k (x_nf (entry_xf e)) (xi_of (entry_xf e) nxfrm_zero).
Proof. unfold partner. apply xkey_other, entry_nf. Qed.

Definition nat_info (nv6v dsrv : Z) (xip rip : xaddr) (xport : Z) : nxfrm_inf := mk_nxfrm_inf 0 0 nv6v dsrv 0 0 xip rip xport 0 0.

Lemma new_entry_natting xf xi v c n l d old : natting (new_entry xf xi v c n l d old) = negb (nat_flags xi =? 0).
Proof. unfold natting, new_entry. cbn. destruct (nat_flags xi =? 0); cbn; [done|]. by destruct (has (nat_flags xi) _). Qed.

Lemma new_entry_partner k xf xi v c n l d old :
  partner k (new_entry xf xi v c n l d old) =
  if nat_flags xi =? 0 then rev_key k
  else other_key k (if has (nat_flags xi) (Z.lor LLB_NAT_DST LLB_NAT_HDST) then LLB_NAT_DST else LLB_NAT_SRC)
         (nat_info (if v =? 0 then 0 else 1) (x_dsr xf) (nat_xip xi) (nat_rip xi) (nat_xport xi)).
Proof.
  rewrite partner_other. unfold entry_xf. rewrite new_entry_natting. destruct (nat_flags xi =? 0) eqn:Ef; cbn [negb]; [done|].
  unfold new_entry. rewrite Ef. cbn [negb ca_act_type c_nat].
  destruct (has (nat_flags xi) (Z.lor LLB_NAT_DST LLB_NAT_HDST)); cbn [x_nf]; apply other_key_ext; unfold xi_of; by case_match.
Qed.

(** The key arithmetic of a pair. *)
Lemma port_or_filled key p d : port_or key (filled_port key p d) d = port_or key p d.
Proof. unfold port_or, filled_port. destruct (ported key), (Z.eqb_spec p 0); cbn; try done; [destruct (d =? 0); done|]. apply Z.eqb_neq in n. by rewrite n. Qed.

Lemma or_else_back a b : b ≠ xaddr_zero → or_else (if DP_XADDR_ISZR a then xaddr_zero else b) (or_else a b) = b.
Proof. intros Hb. unfold or_else. destruct (DP_XADDR_ISZR a); [done|]. by rewrite iszr_false. Qed.

Lemma port_back key p d : (ported key = true → d ≠ 0) → port_or key (if ported key then d else 0) (port_or key p d) = d.
Proof. intros Hd. unfold port_or. destruct (ported key); cbn; [|done]. destruct (Z.eqb_spec d 0) as [->|]; cbn; [by destruct Hd|done]. Qed.

Lemma translatable_ports key : translatable key → ported key = true → k_sport key ≠ 0 ∧ k_dport key ≠ 0.
Proof. intros (_ & _ & H). unfold ported. rewrite negb_true_iff, Z.eqb_neq. apply H. Qed.

Lemma dst_src_back key xi v w dd : translatable key → (v = k_v6 key) →
  src_key (dst_key key xi) (nat_info v w (k_daddr key) (if DP_XADDR_ISZR (nat_rip xi) then xaddr_zero else k_saddr key) (if ported key then k_dport key else dd)) =
  key <| k_dport := port_or key (if ported key then k_dport key else dd) (port_or key (nat_xport xi) (k_dport key)) |>.
Proof. intros (Hs & _) ->. unfold src_key, dst_key, nat_info. cbn. rewrite or_else_back by done. by destruct key. Qed.

Lemma src_dst_back key xi v w dd : translatable key → (v = k_v6 key) →
  dst_key (src_key key xi) (nat_info v w (k_saddr key) (if DP_XADDR_ISZR (nat_rip xi) then xaddr_zero else k_daddr key) (if ported key then k_sport key else dd)) =
  key <| k_sport := port_or key (if ported key then k_sport key else dd) (port_or key (nat_xport xi) (k_sport key)) |>.
Proof. intros (_ & Hd & _) ->. unfold src_key, dst_key, nat_info. cbn. rewrite or_else_back by done. by destruct key. Qed.

Lemma set_dport_same key p : p = k_dport key → key <| k_dport := p |> = key.
Proof. intros ->. by destruct key. Qed.
Lemma set_sport_same key p : p = k_sport key → key <| k_sport := p |> = key.
Proof. intros ->. by destruct key. Qed.

(** The entries made from a packet, whatever the scratch entries held before. *)
Definition fwd_entry (xf : xfi) (r : xfk) (c n l : Z) (old : dp_ct_tact) : dp_ct_tact := new_entry xf r.1.1 (if x_nv6 xf =? 0 then 0 else 1) c n l CT_DIR_IN old.
Definition rev_entry (xf : xfi) (r : xfk) (c n l : Z) (old : dp_ct_tact) : dp_ct_tact := new_entry xf r.2 (if k_v6 (CT_KEY_GEN xf) =? 0 then 0 else 1) c n l CT_DIR_OUT old.

Lemma bit_norm v : v = 0 ∨ v = 1 → (if (if v =? 0 then 0 else 1) =? 0 then 0 else 1) = v.
Proof. by intros [-> | ->]. Qed.

Lemma key_v6_bit xf : k_v6 (CT_KEY_GEN xf) = 0 ∨ k_v6 (CT_KEY_GEN xf) = 1.
Proof. cbn. destruct (x_v6 xf); [by right|by left]. Qed.

(** The five shapes of the computation. *)
Lemma xfk_shapes xf o1 o2 : nat_valid xf → let key := CT_KEY_GEN xf in let r := dp_ct_proto_xfk_init key (xi_of xf o1) (xxi_clear o2) in
  (r.1.2 = rev_key key ∧ (nat_flags r.1.1 = 0 ∨ x_dsr xf ≠ 0) ∧ (nat_flags r.2 = 0 ∨ x_dsr xf ≠ 0)) ∨
  (x_dsr xf = 0 ∧ translatable key ∧ ∃ xi, nv6 xi = x_nv6 xf ∧
    ((DP_XADDR_ISZR (nat_xip xi) = false ∧ nat_flags xi = LLB_NAT_DST ∧ seen r = seen (xfk_dst key (xi, rev_key key, xxi_clear o2))) ∨
     (DP_XADDR_ISZR (nat_xip xi) = false ∧ nat_flags xi = LLB_NAT_SRC ∧ seen r = seen (xfk_src key (xi, rev_key key, xxi_clear o2))) ∨
     (nat_flags xi = LLB_NAT_HDST ∧ seen r = seen (xfk_hdst key (xi, rev_key key, xxi_clear o2))) ∨
     (nat_flags xi = LLB_NAT_HSRC ∧ seen r = seen (xfk_hsrc key (xi, rev_key key, xxi_clear o2))))).
Proof.
  intros (Hnf & _ & Ht). cbn zeta. destruct (xi_of_fields xf o1) as (Hk & Hx & _ & _ & Hv & Hd).
  destruct (decide (x_nf xf = 0)) as [H0|H0].
  { left. rewrite H0 in Hk. cbn in Hk. unfold dp_ct_proto_xfk_init. rewrite Hk. destruct (negb (dsr _ =? 0)); [cbn; by repeat split; left|].
    rewrite !(xfk_miss _ _ _ (xi_of xf o1, rev_key (CT_KEY_GEN xf), xxi_clear o2) 0) by done. by repeat split; left. }
  specialize (Ht H0). destruct (Z.eqb_spec (x_dsr xf) 0) as [Hd0|Hd0].
  2: { left. unfold dp_ct_proto_xfk_init. rewrite Hd. rewrite (proj2 (Z.eqb_neq _ _) Hd0). cbn. split; [done|]. by split; right. }
  right. split; [done|]. split; [done|]. exists (xi_of xf o1). split; [done|]. rewrite Hd0 in Hd. unfold kind in Hk. rewrite <- Hx in Hk.
  destruct Hnf as [?|[Hnf|Hnf]]; [done|..]; rewrite Hnf in Hk; cbn in Hk; destruct (DP_XADDR_ISZR (nat_xip (xi_of xf o1))); cbn in Hk.
  - right; right; left. rewrite (xfk_one _ _ _ _ xfk_hdst Hd Hk) by (do 2 right; by left). done.
  - left. rewrite (xfk_one _ _ _ _ xfk_dst Hd Hk) by (by left). done.
  - right; right; right. rewrite (xfk_one _ _ _ _ xfk_hsrc Hd Hk) by (do 3 right; by left). done.
  - right; left. rewrite (xfk_one _ _ _ _ xfk_src Hd Hk) by (right; by left). done.
Qed.

Lemma other_rev key nf v d x r p : nf = 0 ∨ d ≠ 0 → other_key key nf (nat_info v d x r p) = rev_key key.
Proof. intros [-> |Hd]; [done|]. unfold other_key. cbn. apply Z.eqb_neq in Hd. by rewrite Hd, orb_true_r. Qed.

(** Both entries of a new pair, whatever the kind of NAT. *)
Lemma pair_keys xf o1 o2 c n l ol c' n' l' ol' : nat_valid xf →
  let key := CT_KEY_GEN xf in
  let r := dp_ct_proto_xfk_init key (xi_of xf o1) (xxi_clear o2) in
  partner key (fwd_entry xf r c n l ol) = r.1.2 ∧ partner r.1.2 (rev_entry xf r c' n' l' ol') = key.
Proof.
  intros Hok. pose proof (xfk_shapes xf o1 o2 Hok) as Hs. cbn zeta in *. set (key := CT_KEY_GEN xf) in *. set (r := dp_ct_proto_xfk_init _ _ _) in *. clearbody r.
  unfold fwd_entry, rev_entry. rewrite !new_entry_partner. pose proof Hok as (_ & Hv & _). rewrite (bit_norm _ Hv), (bit_norm _ (key_v6_bit xf)). fold key. clearbody key.
  destruct Hs as [(Hk & Ha & Hx)|(Hd & Ht & xi & Hv6 & Hs)].
  { rewrite Hk. split; [destruct (Z.eqb_spec (nat_flags r.1.1) 0) as [|Hf]|destruct (Z.eqb_spec (nat_flags r.2) 0) as [|Hf]]; rewrite ?rev_key_involutive; try done.
    - apply other_rev. destruct Ha; [done|by right].
    - rewrite other_rev by (destruct Hx; [done|by right]). apply rev_key_involutive. }
  rewrite Hd. pose proof (translatable_ports key Ht) as Hp. assert (Hsa : k_saddr key ≠ xaddr_zero ∧ k_daddr key ≠ xaddr_zero) by (split; apply Ht). destruct Hsa as [Hsa Hda].
  destruct Hs as [(Hz & Hf & Hs)|[(Hz & Hf & Hs)|[(Hf & Hs)|(Hf & Hs)]]].
  - rewrite seen_dst in Hs. unfold seen in Hs. injection Hs as -> -> -> -> -> -> -> -> ->. rewrite Hf. cbn [Z.eqb]. unfold other_key. cbn. rewrite Hz, (iszr_false _ Hda). split.
    + unfold dst_key. cbn. rewrite port_or_filled, Hv6. done.
    + rewrite dst_src_back by done. apply set_dport_same, port_back. intros; by apply Hp.
  - rewrite seen_src in Hs. unfold seen in Hs. injection Hs as -> -> -> -> -> -> -> -> ->. rewrite Hf. cbn [Z.eqb]. unfold other_key. cbn. rewrite Hz, (iszr_false _ Hsa). split.
    + unfold src_key. cbn. rewrite port_or_filled, Hv6. done.
    + rewrite src_dst_back by done. apply set_sport_same, port_back. intros; by apply Hp.
  - rewrite seen_hdst in Hs. unfold seen in Hs. injection Hs as -> -> -> -> -> -> -> -> ->. rewrite Hf. cbn [Z.eqb]. unfold other_key. cbn. split.
    + unfold hdst_key. cbn. by rewrite port_or_filled.
    + transitivity (key <| k_dport := port_or key (if ported key then k_dport key else 0) (port_or key (nat_xport xi) (k_dport key)) |>); [by destruct key|].
      apply set_dport_same, port_back. intros; by apply Hp.
  - rewrite seen_hsrc in Hs. unfold seen in Hs. injection Hs as -> -> -> -> -> -> -> -> ->. rewrite Hf. cbn [Z.eqb]. unfold other_key. cbn. split.
    + unfold hsrc_key. cbn. by rewrite port_or_filled.
    + transitivity (key <| k_sport := port_or key (if ported key then k_sport key else 0) (port_or key (nat_xport xi) (k_sport key)) |>); [by destruct key|].
      apply set_sport_same, port_back. intros; by apply Hp.
Qed.

(** ** The control side finds the mate of every new entry *)

(** What the control side computes, by kind of NAT. *)
Lemma ctm_shape key xi : dsr xi = 0 →
  (nat_flags xi = 0 → ctm_key key xi 0 = rev_key key) ∧ (nat_flags xi = LLB_NAT_DST → ctm_key key xi 0 = dst_key key xi) ∧
  (nat_flags xi = LLB_NAT_SRC → ctm_key key xi 0 = src_key key xi) ∧ (nat_flags xi = LLB_NAT_HDST → ctm_key key xi 0 = hdst_key key xi) ∧
  (nat_flags xi = LLB_NAT_HSRC → ctm_key key xi 0 = hsrc_key key xi).
Proof.
  intros Hd. unfold ctm_key. rewrite Hd. cbn [Z.eqb negb orb]. split_and!; intros ->; cbn [Z.eqb negb];
    unfold dst_key, src_key, hdst_key, hsrc_key, or_else, port_or, ported; [done|..]; destruct (negb (k_l4proto key =? IPPROTO_ICMP) && negb (nat_xport xi =? 0)); try destruct (DP_XADDR_ISZR (nat_rip xi)); done.
Qed.

(** The part of the NAT information a block leaves alone. *)
Lemma block_rest key xi o f : f ∈ [xfk_dst; xfk_src; xfk_hdst; xfk_hsrc] → let r := f key (xi, rev_key key, xxi_clear o) in
  nv6 r.1.1 = nv6 xi ∧ dsr r.1.1 = dsr xi ∧ nv6 r.2 = k_v6 key ∧ dsr r.2 = dsr o.
Proof.
  intros Hin. cbn zeta. unfold xfk_dst, xfk_src, xfk_hdst, xfk_hsrc in Hin.
  repeat (apply elem_of_cons in Hin as [->|Hin]; [destruct (k_l4proto key =? IPPROTO_ICMP), (nat_xport xi =? 0); try destruct (DP_XADDR_ISZR (nat_rip xi)); done|]). by apply elem_of_nil in Hin.
Qed.

Lemma ctm_dst key xi o : translatable key → dsr xi = 0 → nat_flags xi = LLB_NAT_DST →
  let r := xfk_dst key (xi, rev_key key, xxi_clear o) in ctm_key key r.1.1 0 = r.1.2 ∧ (dsr r.2 = 0 → ctm_key r.1.2 r.2 0 = key).
Proof.
  intros Ht Hd Hf. pose proof (seen_dst key xi o) as E. destruct (block_rest key xi o xfk_dst) as (R1 & R2 & R3 & R4); [by left|]. cbn zeta in *.
  set (r := xfk_dst key _) in *. clearbody r. unfold seen in E. injection E as E1 E2 E3 E4 E5 E6 E7 E8 E9. rewrite Hd in R2. clear R4. split.
  - rewrite (proj1 (proj2 (ctm_shape key r.1.1 R2))) by congruence. rewrite E5. unfold dst_key. by rewrite E1, E2, E3, R1, port_or_filled.
  - intros R4. rewrite (proj1 (proj2 (proj2 (ctm_shape r.1.2 r.2 R4)))) by done. rewrite E5.
    transitivity (src_key (dst_key key xi) (nat_info (k_v6 key) 0 (k_daddr key) (if DP_XADDR_ISZR (nat_rip xi) then xaddr_zero else k_saddr key) (if ported key then k_dport key else 0))).
    { unfold src_key. cbn. by rewrite E7, E8, E9, R3. }
    rewrite dst_src_back by done. apply set_dport_same, port_back. intros; by apply (translatable_ports key).
Qed.

Lemma ctm_src key xi o : translatable key → dsr xi = 0 → nat_flags xi = LLB_NAT_SRC →
  let r := xfk_src key (xi, rev_key key, xxi_clear o) in ctm_key key r.1.1 0 = r.1.2 ∧ (dsr r.2 = 0 → ctm_key r.1.2 r.2 0 = key).
Proof.
  intros Ht Hd Hf. pose proof (seen_src key xi o) as E. destruct (block_rest key xi o xfk_src) as (R1 & R2 & R3 & R4); [right; by left|]. cbn zeta in *.
  set (r := xfk_src key _) in *. clearbody r. unfold seen in E. injection E as E1 E2 E3 E4 E5 E6 E7 E8 E9. rewrite Hd in R2. clear R4. split.
  - rewrite (proj1 (proj2 (proj2 (ctm_shape key r.1.1 R2)))) by congruence. rewrite E5. unfold src_key. by rewrite E1, E2, E3, R1, port_or_filled.
  - intros R4. rewrite (proj1 (proj2 (ctm_shape r.1.2 r.2 R4))) by done. rewrite E5.
    transitivity (dst_key (src_key key xi) (nat_info (k_v6 key) 0 (k_saddr key) (if DP_XADDR_ISZR (nat_rip xi) then xaddr_zero else k_daddr key) (if ported key then k_sport key else 0))).
    { unfold dst_key. cbn. by rewrite E7, E8, E9, R3. }
    rewrite src_dst_back by done. apply set_sport_same, port_back. intros; by apply (translatable_ports key).
Qed.

Lemma ctm_hdst key xi o : translatable key → dsr xi = 0 → nat_flags xi = LLB_NAT_HDST →
  let r := xfk_hdst key (xi, rev_key key, xxi_clear o) in ctm_key key r.1.1 0 = r.1.2 ∧ (dsr r.2 = 0 → ctm_key r.1.2 r.2 0 = key).
Proof.
  intros Ht Hd Hf. pose proof (seen_hdst key xi o) as E. destruct (block_rest key xi o xfk_hdst) as (_ & R2 & _ & R4); [do 2 right; by left|]. cbn zeta in *.
  set (r := xfk_hdst key _) in *. clearbody r. unfold seen in E. injection E as _ _ E3 E4 E5 E6 _ _ E9. rewrite Hd in R2. clear R4. split.
  - rewrite (proj1 (proj2 (proj2 (proj2 (ctm_shape key r.1.1 R2))))) by congruence. rewrite E5. unfold hdst_key. by rewrite E3, port_or_filled.
  - intros R4. rewrite (proj2 (proj2 (proj2 (proj2 (ctm_shape r.1.2 r.2 R4))))) by done. rewrite E5.
    transitivity (key <| k_dport := port_or key (if ported key then k_dport key else 0) (port_or key (nat_xport xi) (k_dport key)) |>); [unfold hsrc_key; cbn; rewrite E9; by destruct key|].
    apply set_dport_same, port_back. intros; by apply (translatable_ports key).
Qed.

Lemma ctm_hsrc key xi o : translatable key → dsr xi = 0 → nat_flags xi = LLB_NAT_HSRC →
  let r := xfk_hsrc key (xi, rev_key key, xxi_clear o) in ctm_key key r.1.1 0 = r.1.2 ∧ (dsr r.2 = 0 → ctm_key r.1.2 r.2 0 = key).
Proof.
  intros Ht Hd Hf. pose proof (seen_hsrc key xi o) as E. destruct (block_rest key xi o xfk_hsrc) as (_ & R2 & _ & R4); [do 3 right; by left|]. cbn zeta in *.
  set (r := xfk_hsrc key _) in *. clearbody r. unfold seen in E. injection E as _ _ E3 E4 E5 E6 _ _ E9. rewrite Hd in R2. clear R4. split.
  - rewrite (proj2 (proj2 (proj2 (proj2 (ctm_shape key r.1.1 R2))))) by congruence. rewrite E5. unfold hsrc_key. by rewrite E3, port_or_filled.
  - intros R4. rewrite (proj1 (proj2 (proj2 (proj2 (ctm_shape r.1.2 r.2 R4))))) by done. rewrite E5.
    transitivity (key <| k_sport := port_or key (if ported key then k_sport key else 0) (port_or key (nat_xport xi) (k_sport key)) |>); [unfold hdst_key; cbn; rewrite E9; by destruct key|].
    apply set_sport_same, port_back. intros; by apply (translatable_ports key).
Qed.

Lemma ctm_keys xf o1 o2 : nat_valid xf →
  let key := CT_KEY_GEN xf in
  let r := dp_ct_proto_xfk_init key (xi_of xf o1) (xxi_clear o2) in
  ctm_key key r.1.1 0 = r.1.2 ∧ (dsr r.2 = 0 → ctm_key r.1.2 r.2 0 = key).
Proof.
  intros (Hnf & _ & Ht). cbn zeta. destruct (xi_of_fields xf o1) as (Hk & Hx & _). set (key := CT_KEY_GEN xf) in *. set (xi := xi_of xf o1) in *. clearbody xi key.
  destruct (Z.eqb_spec (dsr xi) 0) as [Hd0|Hd0].
  2: { pose proof (proj2 (Z.eqb_neq _ _) Hd0) as Hd. unfold dp_ct_proto_xfk_init. rewrite Hd. cbn [negb fst snd]. split; [unfold ctm_key; by rewrite Hd|]. intros E. by destruct Hd0. }
  unfold kind in Hk. rewrite <- Hx in Hk. destruct (decide (x_nf xf = 0)) as [H0|H0].
  { rewrite H0 in Hk. cbn in Hk. unfold dp_ct_proto_xfk_init. rewrite Hd0, Hk. cbn [negb Z.eqb]. rewrite !(xfk_miss _ _ key (xi, rev_key key, xxi_clear o2) 0) by done. cbn [fst snd].
    split; [by apply (ctm_shape key xi Hd0)|]. intros Ho. rewrite (proj1 (ctm_shape (rev_key key) (xxi_clear o2) Ho)) by done. apply rev_key_involutive. }
  specialize (Ht H0). destruct Hnf as [?|[Hnf|Hnf]]; [done|..]; rewrite Hnf in Hk; cbn in Hk; destruct (DP_XADDR_ISZR (nat_xip xi)); cbn in Hk.
  - rewrite (xfk_one _ _ _ _ xfk_hdst Hd0 Hk) by (do 2 right; by left). by apply ctm_hdst.
  - rewrite (xfk_one _ _ _ _ xfk_dst Hd0 Hk) by (by left). by apply ctm_dst.
  - rewrite (xfk_one _ _ _ _ xfk_hsrc Hd0 Hk) by (do 3 right; by left). by apply ctm_hsrc.
  - rewrite (xfk_one _ _ _ _ xfk_src Hd0 Hk) by (right; by left). by apply ctm_src.
Qed.

(** C8. The two entries made for a connection name each other: the key a
    packet of either direction computes for the other direction, from its own
    entry's NAT action, is the key the other entry is stored under. For packets
    with source NAT, destination NAT, full NAT, NAT of a host to itself, direct
    server return or none, IPv4, IPv6 or between them, ports kept or changed,
    whatever the scratch entries held before; provided a translated connection
    has non-zero addresses and ports, zero standing for "not translated". *)
Theorem pair_names_each_other xf o1 o2 c n l ol c' n' l' ol' : nat_valid xf →
  let key := CT_KEY_GEN xf in
  let r := dp_ct_proto_xfk_init key (xi_of xf o1) (xxi_clear o2) in
  partner key (fwd_entry xf r c n l ol) = r.1.2 ∧ partner r.1.2 (rev_entry xf r c' n' l' ol') = key.
Proof. apply pair_keys. Qed.

(** ** The table of connections *)

Definition flags_of (e : dp_ct_tact) : Z := nat_flags (d_xi (ctd e)).
Definition dir_of (e : dp_ct_tact) : ct_dir := d_dir (ctd e).
Definition rid_of (e : dp_ct_tact) : Z := d_rid (ctd e).

(** The entry of the client's direction, of a pair. *)
Definition inward (e e2 : dp_ct_tact) : dp_ct_tact := match dir_of e with CT_DIR_IN => e | CT_DIR_OUT => e2 end.

(** Entries come in pairs that name each other, of opposite directions and the same
    rule and slot; when packets of one side are translated the connection is one
    that was counted. The control side finds the mate of an entry of the client's
    direction, and that of the other one's when it has no DSR mark. *)
Record mates (m : gmap dp_ct_key dp_ct_tact) (k : dp_ct_key) (e e2 : dp_ct_tact) : Prop := mk_mates {
  mt_there : m !! partner k e = Some e2; mt_back : partner (partner k e) e2 = k; mt_other : partner k e ≠ k;
  mt_dir : dir_of e2 = other_dir (dir_of e); mt_rid : rid_of e2 = rid_of e; mt_nat : natting e = true → flags_of (inward e e2) ≠ 0;
  mt_user : (dir_of e = CT_DIR_IN ∨ dsr (d_xi (ctd e)) = 0 → ctm_proto_xfk_init k e = partner k e) ∧ d_aid (ctd e2) = d_aid (ctd e) ∧ pi_frag (d_pi (ctd e)) = 0
}.
Definition paired (m : gmap dp_ct_key dp_ct_tact) : Prop := ∀ k e, m !! k = Some e → ∃ e2, mates m k e e2.

(** An entry that changed without changing what its pair relies on. *)
Record sim (k : dp_ct_key) (e e' : dp_ct_tact) : Prop := mk_sim {
  sim_partner : partner k e' = partner k e; sim_nat : natting e' = true → natting e = true;
  sim_rid : rid_of e' = rid_of e; sim_dir : dir_of e' = dir_of e; sim_user : user_of e' = user_of e
}.
Lemma sim_flags k e e' : sim k e e' → flags_of e' = flags_of e.
Proof. intros [_ _ _ _ [=]]. done. Qed.
Lemma user_key k e e' : user_of e' = user_of e → ctm_proto_xfk_init k e' = ctm_proto_xfk_init k e.
Proof. intros [= _ H1 H2 H3 H4 H5 H6 H7]. unfold ctm_proto_xfk_init, ctm_key. by rewrite H1, H2, H3, H4, H5, H6, H7. Qed.
Lemma sim_refl k e : sim k e e.
Proof. done. Qed.
Lemma sim_trans k e1 e2 e3 : sim k e1 e2 → sim k e2 e3 → sim k e1 e3.
Proof. intros [A1 A2 A3 A4 A5] [B1 B2 B3 B4 B5]. split; [congruence|auto|congruence..]. Qed.

(** Keys, entries: the same keys, similar entries. *)
Definition map_sim (m m' : gmap dp_ct_key dp_ct_tact) : Prop := ∀ k,
  match m !! k, m' !! k with Some e, Some e' => sim k e e' | None, None => True | _, _ => False end.

Lemma map_sim_some m m' k e' : map_sim m m' → m' !! k = Some e' → ∃ e, m !! k = Some e ∧ sim k e e'.
Proof. intros H E. specialize (H k). rewrite E in H. destruct (m !! k) as [e|]; [by exists e|done]. Qed.
Lemma map_sim_some2 m m' k e : map_sim m m' → m !! k = Some e → ∃ e', m' !! k = Some e' ∧ sim k e e'.
Proof. intros H E. specialize (H k). rewrite E in H. destruct (m' !! k) as [e'|]; [by exists e'|done]. Qed.

Lemma map_sim_insert m k e e' : m !! k = Some e → sim k e e' → map_sim m (<[k := e']> m).
Proof.
  intros Hk Hs k'. destruct (decide (k = k')) as [<-|Hne]; [rewrite Hk, lookup_insert_eq; done|]. rewrite lookup_insert_ne by done. by destruct (m !! k').
Qed.
Lemma map_sim_trans m1 m2 m3 : map_sim m1 m2 → map_sim m2 m3 → map_sim m1 m3.
Proof.
  intros H1 H2 k. specialize (H1 k). specialize (H2 k). destruct (m1 !! k), (m2 !! k), (m3 !! k); try done. by eapply sim_trans.
Qed.
Lemma map_sim_refl m : map_sim m m.
Proof. intros k. by destruct (m !! k). Qed.

Lemma paired_sim m m' : map_sim m m' → paired m → paired m'.
Proof.
  intros Hs Hp k e' He'. destruct (map_sim_some _ _ _ _ Hs He') as (e & He & [S1 S2 S3 S4 S5]). destruct (Hp k e He) as (e2 & [M1 M2 M3 M4 M5 M6 M7]).
  destruct (map_sim_some2 _ _ _ _ Hs M1) as (e2' & He2' & T). pose proof (sim_flags _ _ _ T) as Tf. destruct T as [T1 T2 T3 T4 T5].
  assert (Hf : flags_of e' = flags_of e) by (by injection S5). exists e2'. split; rewrite ?S1; try done; [congruence..| |].
  - intros Hn. specialize (M6 (S2 Hn)). unfold inward in *. rewrite S4. destruct (dir_of e); congruence.
  - rewrite (user_key k e e' S5). destruct M7 as (U1 & U2 & U3). unfold user_of in S5, T5. split; [|split; congruence].
    intros [H|H]; apply U1; [left|right]; congruence.
Qed.

(** Removing a pair leaves the others paired. *)
Lemma paired_delete m k e : paired m → m !! k = Some e → paired (delete k (delete (partner k e) m)).
Proof.
  intros Hp Hk k' e' He'. rewrite lookup_delete_Some, lookup_delete_Some in He'. destruct He' as (Hne & Hne2 & He').
  destruct (Hp k' e' He') as (e2 & [M1 M2 M3 M4 M5 M6 M7]). exists e2. split; try done. destruct (Hp k e Hk) as (f & [N1 N2 _ _ _ _ _]).
  assert (partner k' e' ≠ k) by (intros E; rewrite E in M1, M2; rewrite Hk in M1; injection M1 as <-; done).
  assert (partner k' e' ≠ partner k e) by (intros E; rewrite E in M1, M2; rewrite N1 in M1; injection M1 as <-; congruence).
  by rewrite !lookup_delete_ne.
Qed.

(** Adding a pair. *)
Lemma paired_add m k x a b : paired m → m !! k = None → m !! x = None → k ≠ x → partner k a = x → partner x b = k →
  dir_of b = other_dir (dir_of a) → rid_of b = rid_of a → dir_of a = CT_DIR_IN → (natting a = true ∨ natting b = true → flags_of a ≠ 0) →
  ctm_proto_xfk_init k a = x → (dsr (d_xi (ctd b)) = 0 → ctm_proto_xfk_init x b = k) → d_aid (ctd b) = d_aid (ctd a) → pi_frag (d_pi (ctd a)) = 0 → pi_frag (d_pi (ctd b)) = 0 →
  paired (<[k := a]> (<[x := b]> m)).
Proof.
  intros Hp Hk Hx Hne Ha Hb Hdir Hrid Hin Hna Ua Ub Haid Fa Fb k' e' He'. destruct (decide (k' = k)) as [->|Hnk].
  { rewrite lookup_insert_eq in He'. injection He' as <-. exists b. split; rewrite ?Ha; [by rewrite lookup_insert_ne, lookup_insert_eq by done|done..| |done]. intros H. unfold inward. rewrite Hin. apply Hna. by left. }
  rewrite lookup_insert_ne in He' by done. destruct (decide (k' = x)) as [->|Hnx].
  { rewrite lookup_insert_eq in He'. injection He' as <-. exists a. split; rewrite ?Hb; try done; [by rewrite lookup_insert_eq|rewrite Hdir; by destruct (dir_of a)| |].
    - intros H. unfold inward. rewrite Hdir, Hin. cbn. apply Hna. by right.
    - split; [|done]. rewrite Hdir, Hin. intros [?|?]; [done|by apply Ub]. }
  rewrite lookup_insert_ne in He' by done. destruct (Hp k' e' He') as (e2 & [M1 M2 M3 M4 M5 M6 M7]). exists e2. split; try done.
  rewrite !lookup_insert_ne; [done|intros E; rewrite <- E in M1; congruence..].
Qed.

(** ** Counting a rule's connections *)

Definition counted (r : Z) (ke : dp_ct_key * dp_ct_tact) : Prop := dir_of ke.2 = CT_DIR_IN ∧ rid_of ke.2 = r ∧ flags_of ke.2 ≠ 0.
#[export] Instance counted_dec r ke : Decision (counted r ke).
Proof. unfold counted. apply _. Defined.
(** The connections of rule [r] that are in the table. *)
Definition live (r : Z) (m : gmap dp_ct_key dp_ct_tact) : Z := Z.of_nat (size (filter (counted r) m)).
Definition one (r : Z) (k : dp_ct_key) (e : dp_ct_tact) : Z := if decide (counted r (k, e)) then 1 else 0.

Lemma live_insert r m k e : m !! k = None → live r (<[k := e]> m) = live r m + one r k e.
Proof.
  intros Hk. unfold live, one. rewrite map_filter_insert. case_decide.
  - rewrite map_size_insert_None; [lia|]. apply map_lookup_filter_None. by left.
  - rewrite map_filter_delete, delete_id; [lia|]. apply map_lookup_filter_None. by left.
Qed.

Lemma live_delete r m k e : m !! k = Some e → live r (delete k m) = live r m - one r k e.
Proof.
  intros Hk. pose proof (live_insert r (delete k m) k e (lookup_delete_eq m k)) as H. rewrite insert_delete_id in H by done. lia.
Qed.

Lemma live_sim r m m' : map_sim m m' → live r m' = live r m.
Proof.
  intros Hs. unfold live. f_equal. rewrite <- !size_dom. f_equal. apply set_eq. intros k. rewrite !elem_of_dom. split.
  - intros [e' He']. apply map_lookup_filter_Some in He' as [He' [C1 [C2 C3]]]. destruct (map_sim_some _ _ _ _ Hs He') as (e & He & S). pose proof (sim_flags _ _ _ S) as S5. destruct S as [_ _ S3 S4 _].
    exists e. apply map_lookup_filter_Some. split; [done|]. unfold counted. cbn in *. by rewrite <- S4, <- S3, <- S5.
  - intros [e He]. apply map_lookup_filter_Some in He as [He [C1 [C2 C3]]]. destruct (map_sim_some2 _ _ _ _ Hs He) as (e' & He' & S). pose proof (sim_flags _ _ _ S) as S5. destruct S as [_ _ S3 S4 _].
    exists e'. apply map_lookup_filter_Some. split; [done|]. unfold counted. cbn in *. by rewrite S4, S3, S5.
Qed.

Lemma live_nonneg r m : 0 <= live r m.
Proof. unfold live. lia. Qed.

(** ** What each part does to the table *)

(** Not a fragment of a session-id flow and not SCTP: one pair per connection. *)
Definition plain (xf : xfi) : Prop := x_proto xf ≠ IPPROTO_SCTP ∧ (x_proto xf = IPPROTO_UDP → x_ssnid xf = 0).

Lemma partner_plain k e : natting e = false → partner k e = rev_key k.
Proof. intros Hn. rewrite partner_other. unfold entry_xf. by rewrite Hn. Qed.

Lemma ident_sim k e e' : ident e' = ident e → sim k e e'.
Proof.
  unfold ident. intros [= H1 H2 H3 H4]. split; unfold partner, entry_xf, natting, rid_of, dir_of; rewrite ?H1, ?H2, ?H3, ?H4; try done. unfold user_of. congruence.
Qed.

Lemma map_sim_alter f k m : (∀ e, sim k e (f e)) → map_sim m (alter f k m).
Proof.
  intros Hf k'. destruct (decide (k = k')) as [<-|Hne]; [rewrite lookup_alter_eq; destruct (m !! k); cbn; [apply Hf|done]|].
  rewrite lookup_alter_ne by done. by destruct (m !! k').
Qed.

Lemma map_sim_two m key xkey e x e' x' : key ≠ xkey → m !! key = Some e → m !! xkey = Some x → sim key e e' → sim xkey x x' →
  map_sim m (<[key := e']> (<[xkey := x']> m)).
Proof.
  intros Hne He Hx Se Sx. eapply map_sim_trans; [by eapply (map_sim_insert _ xkey)|]. eapply map_sim_insert; [|exact Se]. by rewrite lookup_insert_ne.
Qed.

Lemma est_plain cap xf a x s : plain xf → es_map (dp_ct_est cap xf a x s) = es_map s.
Proof.
  intros [Hs Hu]. unfold dp_ct_est. destruct (_ || _); [done|]. destruct (Z.eqb_spec (x_proto xf) IPPROTO_UDP) as [Hp|Hp].
  - rewrite (Hu Hp). done.
  - destruct (Z.eqb_spec (x_proto xf) IPPROTO_SCTP); done.
Qed.

Lemma ctd_plain xf key xkey a x m : plain xf → dp_ct_ctd xf key xkey a x m = m.
Proof. intros [Hs _]. unfold dp_ct_ctd. destruct (Z.eqb_spec (x_proto xf) IPPROTO_SCTP); done. Qed.

Definition clear_doct (e : dp_ct_tact) : dp_ct_tact := e <| c_nat ::= (λ n, n <| na_doct := 0 |>) |>.
Lemma clear_doct_sim k e : sim k e (clear_doct e).
Proof. by split. Qed.

Lemma mhon_sim k e : sim k e (on_xi (λ x, x <| mhon := 0 |>) e).
Proof. by apply ident_sim. Qed.

Lemma nop_sim k e e' : sim k e e' → partner k e = rev_key k → sim k e (e' <| ca_act_type := DP_SET_NOP |>).
Proof. intros [S1 S2 S3 S4 S5] Hp. by split. Qed.

Lemma established_sim xf key xkey natted a x st e0 x0 : plain xf → ct_map st !! key = Some e0 → ct_map st !! xkey = Some x0 → key ≠ xkey →
  sim key e0 a → sim xkey x0 x → (natted = false → partner key e0 = rev_key key ∧ partner xkey x0 = rev_key xkey) →
  let st' := (ct_established xf key xkey natted a x st).1 in map_sim (ct_map st) (ct_map st') ∧ ct_eps st' = ct_eps st.
Proof.
  intros Hp He Hx Hne Sa Sx Hn. cbn zeta. unfold ct_established. destruct natted.
  - fold (clear_doct a) (clear_doct x). set (m := <[key := clear_doct a]> (<[xkey := clear_doct x]> (ct_map st))).
    assert (Hm : map_sim (ct_map st) m) by (apply (map_sim_two _ key xkey e0 x0); try done; (eapply sim_trans; [eassumption|apply clear_doct_sim])).
    assert (Hm2 : map_sim (ct_map st) (alter (on_xi (λ x, x <| mhon := 0 |>)) key (alter (on_xi (λ x, x <| mhon := 0 |>)) xkey m))).
    { eapply map_sim_trans; [exact Hm|]. eapply map_sim_trans; [|apply map_sim_alter, mhon_sim]. apply map_sim_alter, mhon_sim. }
    change (d_dir (ctd (clear_doct a))) with (d_dir (ctd a)). destruct (d_dir (ctd a)); cbn [ct_map ct_eps fst]; rewrite est_plain by done; done.
  - destruct (Hn eq_refl) as [Hk Hxk]. cbn. split; [|done]. apply (map_sim_two _ key xkey e0 x0); try done; by apply nop_sim.
Qed.

(** ** The counters *)

Definition conc (eps : ep_table) (r : Z) : option Z := conc_conns <$> eps !! r.

Lemma conc_dec_sess r aid eps r' : conc (dp_do_dec_nat_sess r aid eps) r' = conc eps r'.
Proof.
  unfold conc, dp_do_dec_nat_sess. destruct (eps !! r) as [epa|] eqn:E; [|done]. destruct (_ && _); [|done].
  destruct (decide (r = r')) as [<-|]; [by rewrite lookup_insert_eq, E|by rewrite lookup_insert_ne].
Qed.

Lemma conc_closed r bin bout eps r' : conc (conn_closed r bin bout eps) r' = (λ n, if decide (r' = r) then if n >? 0 then n - 1 else n else n) <$> conc eps r'.
Proof.
  unfold conc, conn_closed. destruct (decide (r' = r)) as [->|Hne]; [rewrite lookup_alter_eq; by destruct (eps !! r)|].
  rewrite lookup_alter_ne by done. by destruct (eps !! r').
Qed.

Lemma conc_opened r eps r' : conc (conn_opened r eps) r' = (λ n, if decide (r' = r) then u32 (n + 1) else n) <$> conc eps r'.
Proof.
  unfold conc, conn_opened. destruct (decide (r' = r)) as [->|Hne]; [rewrite lookup_alter_eq; by destruct (eps !! r)|].
  rewrite lookup_alter_ne by done. by destruct (eps !! r').
Qed.

(** Every limited rule: its connections in the table, its counter, its limit. *)
Definition within (lim : Z → Z → Prop) (m : gmap dp_ct_key dp_ct_tact) (eps : ep_table) : Prop :=
  ∀ r L n, lim r L → conc eps r = Some n → live r m <= n <= L.

Lemma within_sim lim m m' eps : map_sim m m' → within lim m eps → within lim m' eps.
Proof. intros Hs Hw r L n Hl Hn. rewrite (live_sim r _ _ Hs). by apply Hw. Qed.

Lemma one_bounds r k e : 0 <= one r k e <= 1.
Proof. unfold one. case_decide; lia. Qed.

(** Of a translated pair exactly one entry is counted, for its rule. *)
Lemma pair_counts r k e k2 e2 : flags_of (inward e e2) ≠ 0 → dir_of e2 = other_dir (dir_of e) → rid_of e2 = rid_of e →
  one r k e + one r k2 e2 = if decide (r = rid_of e) then 1 else 0.
Proof.
  intros F Hd Hr. unfold one. unfold inward in F. assert (H1 : counted r (k, e) ↔ dir_of e = CT_DIR_IN ∧ r = rid_of e) by (unfold counted; cbn; destruct (dir_of e); naive_solver).
  assert (H2 : counted r (k2, e2) ↔ dir_of e = CT_DIR_OUT ∧ r = rid_of e) by (unfold counted; cbn; rewrite Hd, Hr; destruct (dir_of e); naive_solver).
  rewrite (decide_ext _ _ _ _ H1), (decide_ext _ _ _ _ H2). destruct (decide (r = rid_of e)), (dir_of e); repeat case_decide; try lia; intuition congruence.
Qed.

Lemma teardown_eps xf key xkey a x st : ∃ bin bout,
  ct_eps (ct_teardown xf key xkey true a x st) = conn_closed (rid_of a) bin bout (dp_do_dec_nat_sess (rid_of a) (d_aid (ctd a)) (ct_eps st)).
Proof. unfold ct_teardown. cbn zeta. destruct (bool_decide _); by eexists _, _. Qed.

Lemma teardown_inv lim xf key xkey natted a x st e0 x0 : plain xf → paired (ct_map st) → within lim (ct_map st) (ct_eps st) →
  ct_map st !! key = Some e0 → ct_map st !! xkey = Some x0 → partner key e0 = xkey → sim key e0 a → (natted = true → natting e0 = true) →
  let st' := ct_teardown xf key xkey natted a x st in paired (ct_map st') ∧ within lim (ct_map st') (ct_eps st').
Proof.
  intros Hp Hpair Hw He Hx Hk Sa Hn. cbn zeta. pose proof (Hpair key e0 He) as (e2 & [M1 M2 M3 M4 M5 M6 M7]). rewrite Hk in *. rewrite Hx in M1. injection M1 as <-.
  assert (Hm : ct_map (ct_teardown xf key xkey natted a x st) = delete key (delete xkey (ct_map st))).
  { unfold ct_teardown. cbn zeta. destruct (bool_decide _), natted; cbn; by rewrite ctd_plain. }
  rewrite Hm. split; [rewrite <- Hk; by apply paired_delete|].
  assert (Hlive : ∀ r, live r (delete key (delete xkey (ct_map st))) = live r (ct_map st) - one r xkey x0 - one r key e0).
  { intros r. rewrite (live_delete r _ key e0), (live_delete r _ xkey x0); [lia|done|]. by rewrite lookup_delete_ne. }
  intros r L n Hl Hc. rewrite Hlive. pose proof (one_bounds r xkey x0). pose proof (one_bounds r key e0). destruct natted.
  - specialize (M6 (Hn eq_refl)). pose proof (pair_counts r key e0 xkey x0 M6 M4 M5) as Hone.
    assert (Hc2 : ∃ n0, conc (ct_eps st) r = Some n0 ∧ n = if decide (r = rid_of a) then if n0 >? 0 then n0 - 1 else n0 else n0).
    { destruct (teardown_eps xf key xkey a x st) as (bin & bout & E). rewrite E, conc_closed, conc_dec_sess in Hc. apply fmap_Some in Hc as (n0 & Hn0 & ->). by exists n0. }
    destruct Hc2 as (n0 & Hn0 & ->). pose proof (Hw r L n0 Hl Hn0) as Hb. pose proof (live_nonneg r (delete key (delete xkey (ct_map st)))) as Hpos. rewrite Hlive in Hpos.
    rewrite (sim_rid _ _ _ Sa). destruct (decide (r = rid_of e0)); [destruct (Z.gtb_spec n0 0)|]; lia.
  - assert (Hc2 : conc (ct_eps st) r = Some n) by (revert Hc; unfold ct_teardown; cbn zeta; destruct (bool_decide _); done). specialize (Hw r L n Hl Hc2). lia.
Qed.

Section steps.
Context (sm : ct_machine) `{!CtMachine sm}.

Definition inv (lim : Z → Z → Prop) (st : ct_st) : Prop := paired (ct_map st) ∧ within lim (ct_map st) (ct_eps st).

Lemma follow_inv lim now xf key xkey natted e x st : plain xf → inv lim st →
  ct_map st !! key = Some e → ct_map st !! xkey = Some x → partner key e = xkey → natted = natting e →
  inv lim (ct_follow sm now xf key xkey natted e x st).1.1.1.
Proof using CtMachine0.
  intros Hp [Hpair Hw] He Hx Hk Hn. pose proof (Hpair key e He) as (x' & M). assert (x' = x) as -> by (destruct M as [M1]; rewrite Hk in M1; congruence).
  destruct M as [_ M2 M3 _ _ _ _]. rewrite Hk in M2, M3. unfold ct_follow.
  set (e1 := e <| c_lts := now |>). set (x1 := x <| c_lts := now |>). set (xf1 := xf <| x_dir := _ |> <| x_phit ::= _ |>).
  assert (Hsm : ∃ xf2 a b errs smr, (match d_dir (ctd e1) with
      | CT_DIR_IN => sm xf1 e1 x1 CT_DIR_IN (ct_errs st)
      | CT_DIR_OUT => let '(xf, f, r, errs, smr) := sm xf1 x1 e1 CT_DIR_OUT (ct_errs st) in (xf, r, f, errs, smr) end) = (xf2, a, b, errs, smr) ∧
      ident a = ident e ∧ ident b = ident x ∧ x_proto xf2 = x_proto xf ∧ x_ssnid xf2 = x_ssnid xf).
  { destruct (d_dir (ctd e1)).
    - pose proof (ct_frame xf1 e1 x1 CT_DIR_IN (ct_errs st)) as F. destruct (sm xf1 e1 x1 CT_DIR_IN (ct_errs st)) as [[[[xf2 a] b] errs] smr]. by exists xf2, a, b, errs, smr.
    - pose proof (ct_frame xf1 x1 e1 CT_DIR_OUT (ct_errs st)) as F. destruct (sm xf1 x1 e1 CT_DIR_OUT (ct_errs st)) as [[[[xf2 b] a] errs] smr]. exists xf2, a, b, errs, smr. destruct F as (F1 & F2 & F3 & F4). split; [done|]. split; [exact F2|]. split; [exact F1|done]. }
  destruct Hsm as (xf2 & a & b & errs & smr & -> & Ha & Hb & Hpr & Hss). assert (Hp2 : plain xf2) by (unfold plain; by rewrite Hpr, Hss).
  pose proof (ident_sim key e a Ha) as Sa. pose proof (ident_sim xkey x b Hb) as Sb.
  set (st1 := st <| ct_errs := errs |>).
  case_decide; [|case_decide].
  - destruct (established_sim xf2 key xkey natted a b st1 e x) as [Hm Heps]; try done.
    { intros Hf. rewrite Hn in Hf. assert (Hr : partner key e = rev_key key) by by apply partner_plain. split; [done|]. rewrite M2, <- Hk, Hr. by rewrite rev_key_involutive. }
    destruct (ct_established xf2 key xkey natted a b st1) as [st2 evs]. cbn in Hm, Heps |- *. split; [by eapply paired_sim|]. rewrite Heps. by eapply within_sim.
  - apply (teardown_inv lim xf2 key xkey natted a b st1 e x); try done. by rewrite Hn.
  - assert (Hm : map_sim (ct_map st) (<[key := a]> (<[xkey := b]> (ct_map st)))) by (by apply (map_sim_two _ key xkey e x)).
    split; [by eapply paired_sim|by eapply within_sim].
Qed.

(** A packet that hit its entry. *)
Lemma tracked_inv lim now xf st e : plain xf → inv lim st → ct_map st !! CT_KEY_GEN xf = Some e → nat_md xf = nat_md (entry_xf e) →
  inv lim (dp_ct_in sm now xf st).1.1.1.
Proof using CtMachine0.
  intros Hp Hi He Hmd. unfold dp_ct_in. destruct (negb (trackable _)); [done|].
  set (key := CT_KEY_GEN xf) in *. set (xi0 := xi_of xf _).
  assert (Hnf : x_nf xf = x_nf (entry_xf e)) by (unfold nat_md in Hmd; congruence).
  assert (Hxk : (dp_ct_proto_xfk_init key xi0 (xxi_clear (d_xi (ctd (xctk_x st))))).1.2 = partner key e).
  { subst xi0. rewrite xkey_other by (rewrite Hnf; apply entry_nf). rewrite partner_other, Hnf. unfold nat_md in Hmd.
    destruct (xi_of_fields xf (d_xi (ctd (xctk_a st)))) as (_ & X1 & X2 & X3 & X4 & X5). destruct (xi_of_fields (entry_xf e) nxfrm_zero) as (_ & Y1 & Y2 & Y3 & Y4 & Y5).
    apply other_key_ext; congruence. }
  assert (Hfl : negb (nat_flags (dp_ct_proto_xfk_init key xi0 (xxi_clear (d_xi (ctd (xctk_x st))))).1.1 =? 0) = natting e).
  { assert (Hkeep : nat_flags (dp_ct_proto_xfk_init key xi0 (xxi_clear (d_xi (ctd (xctk_x st))))).1.1 = nat_flags xi0).
    { unfold dp_ct_proto_xfk_init. destruct (negb (dsr xi0 =? 0)); [done|]. apply xfk_flags_keep. }
    rewrite Hkeep. subst xi0. destruct (xi_of_fields xf (d_xi (ctd (xctk_a st)))) as (-> & _). rewrite Hnf. unfold nat_md in Hmd. assert (x_nxip xf = x_nxip (entry_xf e)) as -> by congruence.
    unfold entry_xf. destruct (natting e); [|done]. cbn [x_nf x_nxip dp_pipe_set_nat]. unfold kind. by destruct (ca_act_type e =? DP_SET_SNAT), (DP_XADDR_ISZR _). }
  destruct (dp_ct_proto_xfk_init key xi0 _) as [[xi xkey] xxi]. cbn [fst snd] in Hxk, Hfl. subst xkey.
  destruct (proj1 Hi key e He) as (x & M). destruct M as [M1 _ _ _ _ _ _].
  set (st1 := st <| xctk_a ::= _ |> <| xctk_x ::= _ |>). assert (Hi1 : inv lim st1) by exact Hi.
  assert (He1 : ct_map st1 !! key = Some e) by done. assert (M2 : ct_map st1 !! partner key e = Some x) by done. clearbody st1.
  rewrite He1, bool_decide_true by (by rewrite M2). rewrite He1, M2. by apply follow_inv.
Qed.

(** ** New connections *)

Lemma update_room cap k e (m : gmap dp_ct_key dp_ct_tact) : Z.of_nat (size m) < cap → ct_update cap k e m = <[k := e]> m.
Proof. intros H. unfold ct_update. rewrite (proj2 (Z.ltb_lt _ _) H). by rewrite orb_true_r. Qed.

Lemma update_room2 cap k e k2 e2 (m : gmap dp_ct_key dp_ct_tact) : m !! k2 = None → Z.of_nat (size m) + 2 <= cap →
  ct_update cap k e (ct_update cap k2 e2 m) = <[k := e]> (<[k2 := e2]> m).
Proof. intros H2 Hc. rewrite (update_room cap k2) by lia. apply update_room. rewrite map_size_insert_None by done. lia. Qed.

(** The flags of the two sides. *)
Lemma xfk_fwd_flags xf key o1 o2 : nat_flags (dp_ct_proto_xfk_init key (xi_of xf o1) (xxi_clear o2)).1.1 = kind (x_nf xf) (x_nxip xf).
Proof.
  transitivity (nat_flags (xi_of xf o1)); [|apply xi_of_fields]. unfold dp_ct_proto_xfk_init. destruct (negb _); [done|]. apply xfk_flags_keep.
Qed.

Lemma kind_zero nf xip : nf = 0 ∨ nf = LLB_NAT_DST ∨ nf = LLB_NAT_SRC → (kind nf xip =? 0) = (nf =? 0).
Proof. unfold kind. intros [-> |[-> | ->]]; [done|..]; by destruct (DP_XADDR_ISZR xip). Qed.

Lemma xfk_rev_flags xf key o1 o2 : x_nf xf = 0 → nat_flags (dp_ct_proto_xfk_init key (xi_of xf o1) (xxi_clear o2)).2 = 0.
Proof.
  intros H0. destruct (xi_of_fields xf o1) as (Hk & _). rewrite H0 in Hk. cbn in Hk. unfold dp_ct_proto_xfk_init. rewrite Hk. destruct (negb _); [done|].
  by rewrite !(xfk_miss _ _ key (xi_of xf o1, rev_key key, xxi_clear o2) 0).
Qed.

(** The other key of a packet. *)
Definition xkey_of (xf : xfi) : dp_ct_key := other_key (CT_KEY_GEN xf) (x_nf xf) (xi_of xf nxfrm_zero).

Definition opens (xf : xfi) (eps : ep_table) : ep_table := if negb (x_nf xf =? 0) then conn_opened (x_rule_id xf) eps else eps.

Lemma opens_within lim xf m m' eps : within lim m eps → (∀ r, live r m' <= live r m + if bool_decide (r = x_rule_id xf ∧ x_nf xf ≠ 0) then 1 else 0) →
  (x_nf xf ≠ 0 → ∀ L n, lim (x_rule_id xf) L → conc eps (x_rule_id xf) = Some n → 0 <= n < L ∧ n < 4294967295) → within lim m' (opens xf eps).
Proof.
  intros Hw Hlive Hg r L n Hl Hc. specialize (Hlive r). unfold opens in Hc. destruct (Z.eqb_spec (x_nf xf) 0) as [H0|H0]; cbn [negb] in Hc.
  - rewrite bool_decide_false in Hlive by (intros [_ ?]; done). specialize (Hw r L n Hl Hc). lia.
  - rewrite conc_opened in Hc. apply fmap_Some in Hc as (n0 & Hn0 & ->). specialize (Hw r L n0 Hl Hn0). destruct (decide (r = x_rule_id xf)) as [->|Hne].
    + rewrite bool_decide_true in Hlive by done. destruct (Hg H0 L n0 Hl Hn0) as [Hn HL]. rewrite u32_small by lia. lia.
    + rewrite bool_decide_false in Hlive by (intros [? _]; done). lia.
Qed.

Lemma new_inv lim now xf st : plain xf → nat_valid xf → inv lim st → ct_map st !! CT_KEY_GEN xf = None → Z.of_nat (size (ct_map st)) + 2 <= ct_max st →
  CT_KEY_GEN xf ≠ xkey_of xf →
  (x_nf xf ≠ 0 → ∀ L n, lim (x_rule_id xf) L → conc (ct_eps st) (x_rule_id xf) = Some n → 0 <= n < L ∧ n < 4294967295) →
  inv lim (dp_ct_in sm now xf st).1.1.1.
Proof using CtMachine0.
  intros Hp Hv [Hpair Hw] Hnone Hroom Hne Hgate. unfold dp_ct_in. destruct (negb (trackable _)); [done|].
  set (key := CT_KEY_GEN xf) in *. set (o1 := d_xi (ctd (xctk_a st))). set (o2 := d_xi (ctd (xctk_x st))).
  pose proof (pair_keys xf o1 o2) as Hpk. cbn zeta in Hpk. fold key in Hpk. pose proof (xfk_fwd_flags xf key o1 o2) as Hff. pose proof (xfk_rev_flags xf key o1 o2) as Hrf. pose proof (ctm_keys xf o1 o2 Hv) as Hck. cbn zeta in Hck. fold key in Hck.
  assert (Hxk : (dp_ct_proto_xfk_init key (xi_of xf o1) (xxi_clear o2)).1.2 = xkey_of xf).
  { rewrite xkey_other by apply Hv. apply other_key_scratch. }
  pose proof (kind_zero (x_nf xf) (x_nxip xf) (proj1 Hv)) as Hkz.
  destruct (dp_ct_proto_xfk_init key (xi_of xf o1) (xxi_clear o2)) as [[xi xkey] xxi] eqn:Er. cbn [fst snd] in *. rewrite <- Hff in Hkz. rewrite <- Hxk in Hne.
  set (st1 := st <| xctk_a ::= _ |> <| xctk_x ::= _ |>). assert (Em : ct_map st1 = ct_map st) by done. assert (Ee : ct_eps st1 = ct_eps st) by done. assert (Ec : ct_max st1 = ct_max st) by done.
  clearbody st1. rewrite Em, Hnone. unfold ct_create. destruct (dp_ct_get_newctr (ctr st1)) as [[cidx nid] c].
  set (a := new_entry xf xi _ _ _ _ CT_DIR_IN _). set (x := new_entry xf xxi _ _ _ _ CT_DIR_OUT _).
  specialize (Hpk cidx nid (c_lts (xctk_a st1)) (xctk_a st1) (u32 (cidx + 1)) nid (c_lts a) (xctk_x st1) Hv).
  change (fwd_entry xf (xi, xkey, xxi) cidx nid _ _) with a in Hpk. change (rev_entry xf (xi, xkey, xxi) (u32 (cidx + 1)) nid _ _) with x in Hpk. destruct Hpk as [Hpa Hpx].
  set (st2 := st1 <| xctk_a := a |> <| xctk_x := x |> <| ctr := c |> <| ct_eps ::= _ |>).
  assert (Em2 : ct_map st2 = ct_map st) by (by rewrite <- Em). assert (Ec2 : ct_max st2 = ct_max st) by (by rewrite <- Ec).
  assert (Ee2 : ct_eps st2 = opens xf (ct_eps st)) by (unfold opens; rewrite <- Ee, <- Hkz; by destruct (nat_flags xi =? 0)).
  assert (Hna : natting a = negb (x_nf xf =? 0)) by (unfold a; rewrite new_entry_natting; by rewrite Hkz).
  assert (Hra : rid_of a = x_rule_id xf ∧ dir_of a = CT_DIR_IN ∧ flags_of a = nat_flags xi) by done. destruct Hra as (Hra & Hda & Hfa).
  assert (Hrx : rid_of x = x_rule_id xf ∧ dir_of x = CT_DIR_OUT) by done. destruct Hrx as (Hrx & Hdx).
  assert (Hnx : natting x = true → x_nf xf ≠ 0).
  { unfold x. rewrite new_entry_natting. intros H H0. by rewrite (Hrf H0) in H. }
  assert (Hu : ctm_proto_xfk_init key a = xkey ∧ (dsr (d_xi (ctd x)) = 0 → ctm_proto_xfk_init xkey x = key) ∧ d_aid (ctd x) = d_aid (ctd a) ∧ pi_frag (d_pi (ctd a)) = 0 ∧ pi_frag (d_pi (ctd x)) = 0).
  { split; [exact (proj1 Hck)|]. split; [exact (proj2 Hck)|done]. }
  destruct Hu as (Hu1 & Hu2 & Hu3 & Hu4 & Hu5).
  clearbody st2 a x. case_bool_decide as Hcol; cbn [fst].
  { unfold inv. cbn. rewrite Em2, Ee2. split; [done|]. apply (opens_within lim xf (ct_map st)); [done| |done]. intros r. case_bool_decide; lia. }
  rewrite Em2 in Hcol. assert (Hnx2 : ct_map st !! xkey = None) by (destruct (ct_map st !! xkey); [by destruct Hcol|done]).
  rewrite Ec2. set (st3 := st2 <| ct_map ::= _ |>).
  assert (Em3 : ct_map st3 = <[key := a]> (<[xkey := x]> (ct_map st))) by (change (ct_map st3) with (ct_update (ct_max st) key a (ct_update (ct_max st) xkey x (ct_map st2))); rewrite Em2; by apply update_room2).
  assert (Ee3 : ct_eps st3 = opens xf (ct_eps st)) by (by rewrite <- Ee2). clearbody st3.
  rewrite Em3, lookup_insert_eq, lookup_insert_ne, lookup_insert_eq by done.
  apply follow_inv; [done| |by rewrite Em3, lookup_insert_eq|by rewrite Em3, lookup_insert_ne, lookup_insert_eq|done|by rewrite Hna, <- Hkz].
  assert (Hflag : x_nf xf ≠ 0 ↔ flags_of a ≠ 0) by (rewrite Hfa, <- !Z.eqb_neq, Hkz; done).
  unfold inv. rewrite Em3, Ee3. split.
  - apply paired_add; try done; [by rewrite Hdx, Hda|by rewrite Hrx, Hra|]. intros [H|H]; apply Hflag; [rewrite Hna in H; by apply negb_true_iff, Z.eqb_neq in H|by apply Hnx].
  - apply (opens_within lim xf (ct_map st)); [done| |done]. intros r. rewrite live_insert by (by rewrite lookup_insert_ne). rewrite live_insert by done.
    assert (one r xkey x = 0) by (unfold one; rewrite decide_False; [done|]; unfold counted; cbn; rewrite Hdx; intros [? _]; done).
    unfold one at 2. destruct (decide (counted r (key, a))) as [(_ & H1 & H2)|]; [|case_bool_decide; lia]. rewrite bool_decide_true; [lia|]. split; [by rewrite <- Hra|by apply Hflag].
Qed.

End steps.

(** ** The stages around it *)

(** Metadata as the parser leaves it: nothing decided about NAT. *)
Definition fresh (xf : xfi) : Prop := nat_md xf = nat_md xfi_zero.
(** The routing and policing between two stages: the packet's identity and its NAT
    metadata stay. *)
Definition carried (xf xf' : xfi) : Prop :=
  CT_KEY_GEN xf' = CT_KEY_GEN xf ∧ nat_md xf' = nat_md xf ∧ x_rule_id xf' = x_rule_id xf ∧ x_proto xf' = x_proto xf ∧ x_ssnid xf' = x_ssnid xf.

Lemma carried_plain xf xf' : carried xf xf' → plain xf → plain xf'.
Proof. intros (_ & _ & _ & Hp & Hs) [H1 H2]. unfold plain. by rewrite Hp, Hs. Qed.

(** An entry applied to a packet: the pair is as it was, and a packet that goes on
    to tracking carries the entry's NAT metadata. *)
Lemma ctops_facts now xf e k : fresh xf →
  let '(xf', e', trk) := dp_do_ctops now xf e in
  sim k e e' ∧ (trk = true → nat_md xf' = nat_md (entry_xf e')) ∧ CT_KEY_GEN xf' = CT_KEY_GEN xf ∧ x_proto xf' = x_proto xf ∧ x_ssnid xf' = x_ssnid xf.
Proof.
  intros Hf. unfold fresh in Hf. unfold dp_do_ctops.
  set (xf0 := xf <| x_phit ::= _ |> <| x_fw_rid := _ |>). set (e0 := e <| c_lts := now |>).
  assert (Hact : let '(xf', e', trk) := ctops_act xf0 e0 in
    sim k e e' ∧ (trk = true → nat_md xf' = nat_md (entry_xf e')) ∧ CT_KEY_GEN xf' = CT_KEY_GEN xf ∧ x_proto xf' = x_proto xf ∧ x_ssnid xf' = x_ssnid xf).
  { assert (Hplain : ∀ e', natting e' = false → nat_md xf0 = nat_md (entry_xf e')).
    { intros e' Hn. unfold entry_xf. rewrite Hn. exact Hf. }
    unfold ctops_act. change (ca_act_type e0) with (ca_act_type e). assert (Hnat : natting e = (ca_act_type e =? DP_SET_SNAT) || (ca_act_type e =? DP_SET_DNAT)) by done.
    destruct (Z.eqb_spec (ca_act_type e) DP_SET_DO_CT) as [Ht|_]; [split; [done|]; split; [|done]; intros _; apply Hplain; change (natting e0) with (natting e); unfold natting; by rewrite Ht|].
    destruct (Z.eqb_spec (ca_act_type e) DP_SET_NOP) as [Ht|_].
    { set (e1 := if x_l4fin xf0 then set_rdr_fr e0 else e0). assert (Hn : natting e1 = false) by (unfold natting, e1; destruct (x_l4fin xf0); cbn; by rewrite Ht).
      assert (Hn0 : natting e = false) by (unfold natting; by rewrite Ht).
      split; [|split; [intros _; by apply Hplain|done]]. split; [by rewrite !partner_plain|by rewrite Hn|unfold e1; by destruct (x_l4fin xf0)..]. }
    destruct (Z.eqb_spec (ca_act_type e) DP_SET_RDR_PORT) as [Ht|_].
    { set (e1 := if x_l4fin xf0 then set_rdr_fr e0 else e0). assert (Hn : natting e1 = false) by (unfold natting, e1; destruct (x_l4fin xf0); cbn; by rewrite Ht).
      assert (Hn0 : natting e = false) by (unfold natting; by rewrite Ht).
      assert (Hs : sim k e e1) by (split; [by rewrite !partner_plain|by rewrite Hn|unfold e1; by destruct (x_l4fin xf0)..]).
      destruct (rdr_fr e1 =? 1); (split; [done|]); (split; [|done]); [intros _; by apply Hplain|done]. }
    destruct ((ca_act_type e =? DP_SET_SNAT) || (ca_act_type e =? DP_SET_DNAT)).
    { set (e1 := if x_l4fin xf0 then e0 <| c_nat ::= _ |> else e0). assert (Hs : sim k e e1) by (unfold e1; destruct (x_l4fin xf0); by split).
      assert (Hn : natting e1 = true) by (unfold e1; by destruct (x_l4fin xf0)). assert (Ht : ca_act_type e1 = ca_act_type e) by (unfold e1; by destruct (x_l4fin xf0)).
      assert (Hmd : nat_md (dp_pipe_set_nat (c_nat e1) (ca_act_type e =? DP_SET_SNAT) xf0) = nat_md (entry_xf e1)) by (unfold entry_xf; rewrite Hn, Ht; done).
      destruct (_ || _ || _); (split; [exact Hs|]); (split; [first [discriminate|intros _; exact Hmd]|]); (split; [reflexivity|split; reflexivity]). }
    destruct (ca_act_type e =? DP_SET_TOCP); (split; [done|]); (split; [done|done]). }
  destruct (ctops_act xf0 e0) as [[xf1 e1] trk]. destruct Hact as (Hs & Hmd & Hk & Hp & Hss). destruct trk; [done|].
  set (e2 := if x_proto xf1 =? IPPROTO_TCP then dp_run_ctact_helper xf1 e1 else e1).
  assert (Hs2 : sim k e e2) by (unfold e2, dp_run_ctact_helper; destruct (x_proto xf1 =? IPPROTO_TCP); [|done]; destruct (_ || _ || _); [|done]; eapply sim_trans; [exact Hs|]; by apply ident_sim).
  split; [done|]. split; [done|]. destruct (negb (ca_fwrid e2 =? 0) && negb (ca_record e2 =? 0)); done.
Qed.

(** Selecting an endpoint leaves the rule's number, its limit and its count. *)
Lemma sel_keeps h now xf act eps : let '(sel, act', eps') := dp_sel_nat_ep h now xf act eps in
  pa_cidx act' = pa_cidx act ∧ pa_conn_limit act' = pa_conn_limit act ∧ pa_act_type act' = pa_act_type act ∧ ∀ r, conc eps' r = conc eps r.
Proof.
  unfold dp_sel_nat_ep. destruct (_ || _); [unfold sel_rr; by destruct (rr_scan _ _ _)|]. destruct (_ =? _); [done|]. destruct (_ =? _); [done|].
  destruct (_ =? _); [rewrite sel_persist_eq; unfold persist_act; by repeat case_match|]. destruct (_ =? _); [|done].
  unfold sel_lc. destruct (eps !! u16 (pa_cidx act)) as [epa|] eqn:E; [|done]. destruct (lc_scan _ _ _ _ _ _) as [sel lc]. split; [done|]. split; [done|]. split; [done|].
  intros r. unfold conc. destruct (decide (u16 (pa_cidx act) = r)) as [<-|]; [rewrite lookup_insert_eq, E; by destruct (_ && _)|by rewrite lookup_insert_ne].
Qed.

(** A packet a rule was applied to. *)
Lemma nat_facts h now xf st : fresh xf → let '(ret, xf', st') := dp_do_nat h now xf st in
  (x_nf xf' = 0 ∨ x_nf xf' = LLB_NAT_DST ∨ x_nf xf' = LLB_NAT_SRC) ∧ (x_nv6 xf' = 0 ∨ x_nv6 xf' = 1) ∧
  CT_KEY_GEN xf' = CT_KEY_GEN xf ∧ x_proto xf' = x_proto xf ∧ x_ssnid xf' = x_ssnid xf ∧ (∀ r, conc (nat_ep_map st') r = conc (nat_ep_map st) r) ∧
  (nat_map st' = nat_map st ∨ ∃ k act act', nat_map st !! k = Some act ∧ nat_map st' = <[k := act']> (nat_map st) ∧ pa_cidx act' = pa_cidx act ∧ pa_conn_limit act' = pa_conn_limit act) ∧
  (x_nf xf' ≠ 0 → ∃ k act, nat_map st !! k = Some act ∧ x_rule_id xf' = u16 (pa_cidx act) ∧
     (pa_conn_limit act ≠ 0 → ∀ n, conc (nat_ep_map st) (pa_cidx act) = Some n → n < pa_conn_limit act)).
Proof.
  intros Hf. assert (Hnf : x_nf xf = 0) by exact (f_equal (λ t, t.1.1.1.1.1) Hf). assert (Hv6 : x_nv6 xf = 0) by exact (f_equal (λ t, t.1.2) Hf).
  unfold dp_do_nat. destruct (_ || _); [repeat split; try done; [by left|by left|by left]|].
  set (key := nat_key_of xf). destruct (nat_map st !! key) as [act|] eqn:Ek.
  2: { cbn. rewrite Hnf. cbn. repeat split; try done; [by left|by left|by left]. }
  set (xf0 := xf <| x_phit ::= _ |>). destruct (chksrc_refuses act xf0); [repeat split; try done; [by left|by left|by left]|].
  destruct (_ || _); [|repeat split; try done; [by left|by left|by left]].
  pose proof (sel_keeps h now xf0 act (nat_ep_map st)) as Hk. destruct (dp_sel_nat_ep h now xf0 act (nat_ep_map st)) as [[sel act'] eps']. destruct Hk as (Hc & Hl & Ht & Hconc).
  assert (Hdir : x_nf (nat_common act' xf0) = LLB_NAT_DST ∨ x_nf (nat_common act' xf0) = LLB_NAT_SRC) by (cbn; destruct (_ =? _); [by right|by left]).
  assert (Hend : ∀ s, let xf' := nat_endpoint act' s (nat_common act' xf0) in x_nf xf' = x_nf (nat_common act' xf0) ∧ (x_nv6 xf' = 0 ∨ x_nv6 xf' = 1) ∧ x_rule_id xf' = u16 (pa_cidx act') ∧
    CT_KEY_GEN xf' = CT_KEY_GEN xf ∧ x_proto xf' = x_proto xf ∧ x_ssnid xf' = x_ssnid xf).
  { intros s. cbn zeta. unfold nat_endpoint. set (xf1 := (nat_common act' xf0) <| x_nxip := _ |> <| x_nrip := _ |> <| x_nxport := _ |> <| x_nv6 := _ |> <| x_sel_aid := _ |> <| x_ito := _ |> <| x_rule_id := _ |> <| x_rpolid := _ |>).
    assert (Hx1 : x_nv6 xf1 = 0 ∨ x_nv6 xf1 = 1) by (cbn; destruct (nv6 _ =? 0); [by left|by right]). cbn in Hx1. unfold CT_KEY_GEN. destruct (_ && _ && _); cbn; (split; [reflexivity|]); (split; [exact Hx1|]); repeat split; reflexivity. }
  assert (Hmap : ∃ k act0 act1, nat_map st !! k = Some act0 ∧ <[key := act']> (nat_map st) = <[k := act1]> (nat_map st) ∧ pa_cidx act1 = pa_cidx act0 ∧ pa_conn_limit act1 = pa_conn_limit act0) by (by exists key, act, act').
  destruct (over_limit act' eps') eqn:Eo; [cbn; repeat split; try done; [by left|by left|by right]|].
  destruct (in_slots sel).
  - specialize (Hend sel). cbn zeta in Hend. revert Hend Hdir. generalize (x_nf (nat_common act' xf0)) as nf. generalize (nat_endpoint act' sel (nat_common act' xf0)) as xf2. intros xf2 nf (E1 & E2 & E3 & E4 & E5 & E6) Hdir. split; [rewrite E1; by right|]. split; [done|]. split; [done|]. split; [done|]. split; [done|]. split; [done|]. split; [by right|].
    intros _. exists key, act. split; [done|]. split; [by rewrite E3, Hc|]. intros HL n Hn. unfold over_limit in Eo. rewrite Hl, Hc in Eo. apply Z.eqb_neq in HL. rewrite HL in Eo. cbn [negb andb] in Eo.
    rewrite <- Hconc in Hn. unfold conc in Hn. destruct (eps' !! pa_cidx act); [|done]. cbn in Hn. simplify_eq. lia.
  - cbn. repeat split; try done; [by left|by left|by right].
Qed.

(** ** The stages composed *)

Record dp_sys := mk_dp_sys { s_ct : ct_st; s_nat : nat_table }.

(** A packet's way through: taken care of by its entry (fast), tracked on its
    entry, or new: rules, then tracking. Packets of one CPU, one after the other.
    A packet that opens a connection finds room for a pair and is not its own
    reply. *)
Inductive dp_step (s : dp_sys) : dp_sys → Prop :=
| step_fast now xf xf1 ct1 :
    fresh xf → dp_do_ingress_ct now xf (s_ct s) = (xf1, ct1, false) → dp_step s (mk_dp_sys ct1 (s_nat s))
| step_tracked ch pk now xf xf1 xf2 ct1 :
    fresh xf → plain xf → is_Some (ct_map (s_ct s) !! CT_KEY_GEN xf) → dp_do_ingress_ct now xf (s_ct s) = (xf1, ct1, true) → carried xf1 xf2 →
    dp_step s (mk_dp_sys (dp_ct_in (dp_ct_sm ch pk) now xf2 ct1).1.1.1 (s_nat s))
| step_new ch pk h now xf xf1 xf2 ret ns :
    fresh xf → plain xf → ct_map (s_ct s) !! CT_KEY_GEN xf = None →
    dp_do_nat h now xf (mk_nat_st (s_nat s) (ct_eps (s_ct s))) = (ret, xf1, ns) → carried xf1 xf2 →
    (x_nf xf2 ≠ 0 → translatable (CT_KEY_GEN xf2)) → CT_KEY_GEN xf2 ≠ xkey_of xf2 → Z.of_nat (size (ct_map (s_ct s))) + 2 <= ct_max (s_ct s) →
    dp_step s (mk_dp_sys (dp_ct_in (dp_ct_sm ch pk) now xf2 ((s_ct s) <| ct_eps := nat_ep_map ns |>)).1.1.1 (nat_map ns)).

(** Rule [r] is limited to [L] connections. *)
Definition limited (nat : nat_table) (r L : Z) : Prop := ∃ k act, nat !! k = Some act ∧ pa_cidx act = r ∧ pa_conn_limit act = L ∧ L ≠ 0.
(** Rule numbers and limits at their widths; the entries of one rule agree. *)
Definition rules_ok (nat : nat_table) : Prop := ∀ k act, nat !! k = Some act →
  0 <= pa_cidx act < 65536 ∧ 0 <= pa_conn_limit act < 4294967296 ∧
  ∀ k2 act2, nat !! k2 = Some act2 → pa_cidx act2 = pa_cidx act → pa_conn_limit act2 = pa_conn_limit act.

(** The limits, passed by [sl] at most. *)
Definition slack (sl : Z → Z) (lim : Z → Z → Prop) (r L' : Z) : Prop := ∃ L, lim r L ∧ L' = L + sl r.
Definition sys_inv (sl : Z → Z) (s : dp_sys) : Prop := rules_ok (s_nat s) ∧ inv (slack sl (limited (s_nat s))) (s_ct s).

Lemma limited_update (nat nat' : nat_table) k act act' : nat !! k = Some act → nat' = <[k := act']> nat → pa_cidx act' = pa_cidx act → pa_conn_limit act' = pa_conn_limit act →
  (∀ k2 b, nat' !! k2 = Some b → ∃ b0, nat !! k2 = Some b0 ∧ pa_cidx b = pa_cidx b0 ∧ pa_conn_limit b = pa_conn_limit b0).
Proof.
  intros Hk -> Hc Hl k2 b Hb. destruct (decide (k = k2)) as [<-|Hne]; [rewrite lookup_insert_eq in Hb; simplify_eq; by exists act|].
  rewrite lookup_insert_ne in Hb by done. by exists b.
Qed.

Lemma nat_step_rules (nat nat' : nat_table) : rules_ok nat → (∀ k2 b, nat' !! k2 = Some b → ∃ b0, nat !! k2 = Some b0 ∧ pa_cidx b = pa_cidx b0 ∧ pa_conn_limit b = pa_conn_limit b0) →
  rules_ok nat' ∧ ∀ r L, limited nat' r L → limited nat r L.
Proof.
  intros Hr Hsub. split.
  - intros k b Hb. destruct (Hsub k b Hb) as (b0 & Hb0 & Hc & Hl). destruct (Hr k b0 Hb0) as (H1 & H2 & H3). rewrite Hc, Hl. split; [done|]. split; [done|].
    intros k2 c Hc2 Heq. destruct (Hsub k2 c Hc2) as (c0 & Hc0 & Hcc & Hcl). rewrite Hcl. apply (H3 k2 c0 Hc0). congruence.
  - intros r L (k & b & Hb & Hbr & HbL & HL). destruct (Hsub k b Hb) as (b0 & Hb0 & Hc & Hl). exists k, b0. repeat split; congruence.
Qed.

Lemma ingress_sim now xf st xf1 st1 trk : fresh xf → dp_do_ingress_ct now xf st = (xf1, st1, trk) →
  map_sim (ct_map st) (ct_map st1) ∧ ct_eps st1 = ct_eps st ∧ CT_KEY_GEN xf1 = CT_KEY_GEN xf ∧ x_proto xf1 = x_proto xf ∧ x_ssnid xf1 = x_ssnid xf ∧
  (is_Some (ct_map st !! CT_KEY_GEN xf) → trk = true → ∃ e, ct_map st1 !! CT_KEY_GEN xf = Some e ∧ nat_md xf1 = nat_md (entry_xf e)).
Proof.
  intros Hf. unfold dp_do_ingress_ct. destruct (ct_map st !! CT_KEY_GEN xf) as [e|] eqn:He.
  - pose proof (ctops_facts now xf e (CT_KEY_GEN xf) Hf) as Hc. destruct (dp_do_ctops now xf e) as [[xf' e'] trk']. destruct Hc as (Hs & Hmd & Hk & Hp & Hss). intros [= -> <- ->].
    split; [by apply (map_sim_insert _ _ e)|]. split; [done|]. split; [done|]. split; [done|]. split; [done|]. intros _ Ht. exists e'. split; [apply lookup_insert_eq|by apply Hmd].
  - intros [= <- <- <-]. split; [apply map_sim_refl|]. repeat split; done.
Qed.

(** A packet changes neither the numbers nor the limits of the rules. *)
Lemma dp_step_rules s s' k2 b : dp_step s s' → s_nat s' !! k2 = Some b → ∃ b0, s_nat s !! k2 = Some b0 ∧ pa_cidx b = pa_cidx b0 ∧ pa_conn_limit b = pa_conn_limit b0.
Proof.
  intros [now xf xf1 ct1 _ _|ch pk now xf xf1 xf2 ct1 _ _ _ _ _|ch pk h now xf xf1 xf2 ret ns Hf _ _ Hn _ _ _ _]; cbn; intros Hb; [by exists b..|].
  pose proof (nat_facts h now xf (mk_nat_st (s_nat s) (ct_eps (s_ct s))) Hf) as F. rewrite Hn in F. destruct F as (_ & _ & _ & _ & _ & _ & F & _).
  destruct F as [E|(k & a & a' & Ha & Hmap & Hcc & Hll)]; [rewrite E in Hb; by exists b|by eapply limited_update].
Qed.

Lemma slack_mono sl (lim lim' : Z → Z → Prop) r L' : (∀ r L, lim' r L → lim r L) → slack sl lim' r L' → slack sl lim r L'.
Proof. intros H (L & Hl & ->). exists L. split; [by apply H|done]. Qed.

Lemma dp_step_inv sl s s' : (∀ r, 0 <= sl r) → sys_inv sl s → dp_step s s' → sys_inv sl s'.
Proof.
  intros Hsl [Hr [Hpair Hw]] Hs. destruct Hs as [now xf xf1 ct1 Hf Hi|ch pk now xf xf1 xf2 ct1 Hf Hp Hsome Hi Hc|ch pk h now xf xf1 xf2 ret ns Hf Hp Hnone Hn Hc Ht Hne Hroom].
  - destruct (ingress_sim _ _ _ _ _ _ Hf Hi) as (Hm & He & _). split; [done|]. split; cbn; [by eapply paired_sim|]. rewrite He. by eapply within_sim.
  - destruct (ingress_sim _ _ _ _ _ _ Hf Hi) as (Hm & He & Hk & Hp1 & Hs1 & Hhit). destruct (Hhit Hsome eq_refl) as (e & Hkey & Hmd).
    destruct Hc as (C1 & C2 & _ & C4 & C5). split; [done|]. cbn.
    apply (tracked_inv (dp_ct_sm ch pk) _ now xf2 ct1 e); [|split; [by eapply paired_sim|rewrite He; by eapply within_sim]|by rewrite C1, Hk|by rewrite C2].
    unfold plain. rewrite C4, C5, Hp1, Hs1. exact Hp.
  - pose proof (nat_facts h now xf (mk_nat_st (s_nat s) (ct_eps (s_ct s))) Hf) as Hfacts. rewrite Hn in Hfacts. cbn [nat_map nat_ep_map] in Hfacts.
    destruct Hfacts as (F1 & F2 & F3 & F4 & F5 & F6 & F7 & F8). destruct Hc as (C1 & C2 & C3 & C4 & C5). unfold nat_md in C2.
    assert (Hnf : x_nf xf2 = x_nf xf1) by congruence. assert (Hnv : x_nv6 xf2 = x_nv6 xf1) by congruence.
    assert (Hsub : ∀ k2 b, nat_map ns !! k2 = Some b → ∃ b0, s_nat s !! k2 = Some b0 ∧ pa_cidx b = pa_cidx b0 ∧ pa_conn_limit b = pa_conn_limit b0).
    { destruct F7 as [-> |(k & a & a' & Ha & Hmap & Hcc & Hll)]; [intros k2 b Hb; by exists b|by eapply limited_update]. }
    destruct (nat_step_rules _ _ Hr Hsub) as [Hr' Hlim]. split; [done|]. cbn.
    apply new_inv; try apply _; try done.
    + unfold plain. rewrite C4, C5, F4, F5. exact Hp.
    + split; [by rewrite Hnf|]. split; [by rewrite Hnv|done].
    + split; cbn; [done|]. intros r L n Hl Hn2. rewrite F6 in Hn2. apply (Hw r L n); [by eapply slack_mono|done].
    + cbn. by rewrite C1, F3.
    + cbn. intros H0 L n Hl Hn2. rewrite F6 in Hn2. rewrite Hnf in H0. destruct (F8 H0) as (k & act & Hact & Hrid & Hgate). destruct (Hr k act Hact) as (R1 & R2 & R3).
      rewrite C3, Hrid in Hl, Hn2. unfold u16 in Hl, Hn2. rewrite Z.mod_small in Hl, Hn2 by lia. apply (slack_mono sl (limited (s_nat s))) in Hl; [|done].
      pose proof (Hw _ L n Hl Hn2) as Hb. pose proof (live_nonneg (pa_cidx act) (ct_map (s_ct s))). destruct Hl as (L0 & (k2 & a2 & Ha2 & Hr2 & HL2 & HL0) & ->).
      rewrite (R3 k2 a2 Ha2 Hr2) in HL2. subst L0. specialize (Hsl (pa_cidx act)). specialize (Hgate HL0 n Hn2). lia.
Qed.

(** Before the first packet: no connections, rules at their widths. *)
Definition sys_start (s : dp_sys) : Prop := rules_ok (s_nat s) ∧ ct_map (s_ct s) = ∅ ∧ ∀ r, conc (ct_eps (s_ct s)) r = None ∨ conc (ct_eps (s_ct s)) r = Some 0.

Lemma start_inv sl s : (∀ r, 0 <= sl r) → sys_start s → sys_inv sl s.
Proof.
  intros Hsl.
  intros (Hr & Hm & Hc). split; [done|]. split; rewrite Hm; [intros k e He; by rewrite lookup_empty in He|].
  intros r L n (L0 & (k & act & Ha & _ & HL & HL0) & ->) Hn. destruct (Hr k act Ha) as (_ & Hb & _). specialize (Hsl r). unfold live. rewrite map_filter_empty, map_size_empty. destruct (Hc r) as [E|E]; rewrite E in Hn; simplify_eq. lia.
Qed.

(** ** Examples *)

(** A service at (9):80, rule 7, with two endpoint slots and room for [limit]
    connections; the endpoints see the source address [rip]. *)
Definition svc_rule (limit : Z) (rip : xaddr) : dp_proxy_tacts :=
  (demo_rule NAT_LB_SEL_RR) <| pa_conn_limit := limit |> <| pa_nxfrms := (λ i, (demo_slot i) <| nat_rip := rip |>) <$> replicate 32 0%nat |>.
Definition svc_key : dp_nat_key := mk_dp_nat_key (9, 0, 0, 0) 80 0 0 6 0.
Definition svc_eps : ep_table := {[ 7 := mk_dp_nat_epacts 0 (replicate 32 0) 0 0 0 0 ]}.
Definition svc_start (limit : Z) (rip : xaddr) : dp_sys :=
  mk_dp_sys (mk_ct_st ∅ 1000 dp_ct_tact_zero dp_ct_tact_zero (mk_ct_ctr 0 0 100) ∅ svc_eps ct_err_zero) {[ svc_key := svc_rule limit rip ]}.

(** A SYN of a client. *)
Definition svc_syn (client port : Z) : xfi :=
  xfi_zero <| x_saddr := (client, 0, 0, 0) |> <| x_daddr := (9, 0, 0, 0) |> <| x_source := port |> <| x_dest := 80 |> <| x_proto := 6 |> <| x_tcp_flags := 2 |>.
Definition svc_l4 : l4_pkt := mk_l4_pkt (Some (mk_tcp_hdr 100 0)) false None (mk_skb [] 0).
(** The rules stage and then tracking, as step_new composes them. *)
Definition svc_nat (xf : xfi) (s : dp_sys) : Z * xfi * nat_st := dp_do_nat 0 1 xf (mk_nat_st (s_nat s) (ct_eps (s_ct s))).
Definition svc_open (xf : xfi) (s : dp_sys) : dp_sys :=
  let '(_, xf1, ns) := svc_nat xf s in
  mk_dp_sys (dp_ct_in (dp_ct_sm (λ _ _, None) svc_l4) 1 xf1 ((s_ct s) <| ct_eps := nat_ep_map ns |>)).1.1.1 (nat_map ns).

Definition svc_one : dp_sys := svc_open (svc_syn 1 1000) (svc_start 1 xaddr_zero).

Lemma svc_start_ok limit rip : 0 <= limit < 4294967296 → sys_start (svc_start limit rip).
Proof.
  intros Hl. split; [|split; [done|]].
  - intros k act Ha. cbn in Ha. apply lookup_singleton_Some in Ha as [<- <-]. split; [done|]. split; [done|]. intros k2 act2 Ha2. cbn in Ha2. apply lookup_singleton_Some in Ha2 as [<- <-]. done.
  - intros r. change (ct_eps (s_ct (svc_start limit rip))) with svc_eps. unfold conc, svc_eps. destruct (decide (r = 7)) as [->|Hr]; [right; done|left]. by rewrite lookup_singleton_ne.
Qed.

Lemma open_step xf s : fresh xf → plain xf → ct_map (s_ct s) !! CT_KEY_GEN xf = None → translatable (CT_KEY_GEN xf) →
  CT_KEY_GEN xf ≠ xkey_of (svc_nat xf s).1.2 → Z.of_nat (size (ct_map (s_ct s))) + 2 <= ct_max (s_ct s) → dp_step s (svc_open xf s).
Proof.
  intros Hf Hp Hn Ht Hne Hr. unfold svc_open. pose proof (nat_facts 0 1 xf (mk_nat_st (s_nat s) (ct_eps (s_ct s))) Hf) as F. fold (svc_nat xf s) in F.
  destruct (svc_nat xf s) as [[ret xf1] ns] eqn:E. destruct F as (_ & _ & Hk & _). cbn in Hne.
  apply (step_new _ (λ _ _, None) svc_l4 0 1 xf xf1 xf1 ret ns); rewrite ?Hk; done.
Qed.

Lemma svc_one_step : dp_step (svc_start 1 xaddr_zero) svc_one.
Proof. apply open_step; [reflexivity|split; done|reflexivity|split; [done|]; split; done|vm_compute; discriminate|vm_compute; discriminate]. Qed.

Definition svc_act : dp_proxy_tacts := default (svc_rule 1 xaddr_zero) (s_nat svc_one !! svc_key).

Lemma svc_one_rule : s_nat svc_one !! svc_key = Some svc_act.
Proof. vm_compute. reflexivity. Qed.
Lemma svc_one_limit : pa_cidx svc_act = 7 ∧ pa_conn_limit svc_act = 1.
Proof. vm_compute. split; reflexivity. Qed.
Lemma svc_one_conc : conc (ct_eps (s_ct svc_one)) 7 = Some 1.
Proof. vm_compute. reflexivity. Qed.
Lemma svc_one_run : steps dp_step (svc_start 1 xaddr_zero) svc_one.
Proof. exact (steps_cons _ _ _ _ svc_one_step (steps_refl _ _)). Qed.

Lemma svc_one_entry : is_Some (ct_map (s_ct svc_one) !! CT_KEY_GEN (svc_syn 1 1000)).
Proof. vm_compute. eexists. reflexivity. Qed.

Lemma pair_names_each_other_witness :
  let xf := (svc_nat (svc_syn 1 1000) (svc_start 1 (5, 0, 0, 0))).1.2 in
  let r := dp_ct_proto_xfk_init (CT_KEY_GEN xf) (xi_of xf nxfrm_zero) (xxi_clear nxfrm_zero) in
  partner r.1.2 (rev_entry xf r 1 0 0 dp_ct_tact_zero) = CT_KEY_GEN (svc_syn 1 1000).
Proof.
  intros xf r. apply (pair_names_each_other xf nxfrm_zero nxfrm_zero 0 0 0 dp_ct_tact_zero 1 0 0 dp_ct_tact_zero). unfold xf. vm_compute. split; [by right; left|]. split; [by left|]. intros _. split; [done|]. done.
Defined.

(** A connection over the limit is not translated, but it is tracked: it gets a
    pair of entries of its own, without NAT and not counted. *)
Example refused_is_tracked :
  let s := svc_open (svc_syn 1 1001) svc_one in
  x_nf (svc_nat (svc_syn 1 1001) svc_one).1.2 = 0 ∧ size (ct_map (s_ct s)) = 4%nat ∧ conc (ct_eps (s_ct s)) 7 = Some 1 ∧
  ca_act_type <$> ct_map (s_ct s) !! CT_KEY_GEN (svc_syn 1 1001) = Some DP_SET_DO_CT.
Proof. vm_compute. repeat split; reflexivity. Qed.

(** Two clients with the same source port behind one endpoint-facing address: the
    second's reply key is taken, its packet is dropped, no entry is made, and yet
    the rule's count has grown. *)
Example collision_is_counted :
  let s1 := svc_open (svc_syn 1 1000) (svc_start 5 (5, 0, 0, 0)) in
  let s2 := svc_open (svc_syn 2 1000) s1 in
  size (ct_map (s_ct s1)) = 2%nat ∧ size (ct_map (s_ct s2)) = 2%nat ∧ live 7 (ct_map (s_ct s2)) = 1 ∧ conc (ct_eps (s_ct s2)) 7 = Some 2.
Proof. vm_compute. repeat split; reflexivity. Qed.
