(* ===== verification/KCtAge.v ===== *)
(** * Kernel datapath: ageing and flushing of connections (src/kernel/loxilb_libdp.c)

    The control side walks the connection table: ll_age_ctmap removes the
    connections that were idle for their timeout, and a change of the rules or of
    the firewall flushes those it concerns (ll_map_ct_rm_related,
    ll_map_ct_rm_any, llb_flush_ct_by_nat). A walk visits the keys in the order
    the kernel's hash gives them, an argument; so are the clock, the per-CPU
    counters it reads on the way, and what an uninitialised variable holds. The
    counters of the kernel that a removal clears are not part of the state. The
    file ends with the datapath ([KCt]) and these walks as one system. *)

From stdpp Require Import base list gmap numbers.
From S2P Require Import Prelude KTypes KCtSm KSctp KNat KCt.

(** ** Timeouts, in nanoseconds *)

Definition CT_V4_CPTO : Z := 1800000000000.
Definition CT_TCP_FN_CPTO : Z := 10000000000.
Definition CT_SCTP_FN_CPTO : Z := 10000000000.
Definition CT_UDP_FN_CPTO : Z := 5000000000.
Definition CT_UDP_EST_CPTO : Z := 10000000000.
Definition CT_ICMP_EST_CPTO : Z := 20000000000.
Definition CT_ICMP_FN_CPTO : Z := 5000000000.
Definition CT_MISMATCH_FN_CPTO : Z := 180000000000.
Definition DP_ST_LTO : Z := 10000000000.
Definition CT_OUT_PERIOD : Z := 120000000000.

(** ** What an entry's state says *)

(** ll_ct_get_state on (est, to, bidir) as the caller starts them. *)
Definition ll_ct_get_state (key : dp_ct_key) (e : dp_ct_tact) : bool * Z * bool :=
  let p := k_l4proto key in
  if p =? IPPROTO_TCP then
    match t_state (e_t e) with
    | CT_TCP_FINI | CT_TCP_FINI2 | CT_TCP_FINI3 | CT_TCP_CW | CT_TCP_ERR | CT_TCP_SS | CT_TCP_SA | CT_TCP_CLOSED => (false, CT_TCP_FN_CPTO, true)
    | CT_TCP_EST | CT_TCP_PEST => (true, CT_V4_CPTO, true)
    end
  else if p =? IPPROTO_UDP then
    if negb (pi_frag (d_pi (ctd e)) =? 0) then (false, CT_UDP_FN_CPTO, false)
    else match u_state (e_u e) with
         | CT_UDP_UEST | CT_UDP_EST => (true, CT_UDP_EST_CPTO, false)
         | _ => (false, CT_UDP_FN_CPTO, false)
         end
  else if (p =? IPPROTO_ICMP) || (p =? IPPROTO_ICMPV6) then
    if i_state (e_i e) =? CT_ICMP_REPS then (true, CT_ICMP_EST_CPTO, true) else (false, CT_ICMP_FN_CPTO, true)
  else if p =? IPPROTO_SCTP then
    match s_state (e_s e) with
    | CT_SCTP_SHUT | CT_SCTP_SHUTA | CT_SCTP_SHUTC | CT_SCTP_ABRT | CT_SCTP_ERR
    | CT_SCTP_INIT | CT_SCTP_INITA | CT_SCTP_COOKIE | CT_SCTP_COOKIEA | CT_SCTP_CLOSED => (false, CT_SCTP_FN_CPTO, true)
    | CT_SCTP_EST => (true, CT_V4_CPTO, true)
    | CT_SCTP_PRE_EST => (false, CT_V4_CPTO, true)
    end
  else (false, CT_V4_CPTO, true).

(** ** Statistics *)

(** struct dp_pbc_stats *)
Record dp_pbc_stats := mk_dp_pbc_stats { st_packets : Z; st_bytes : Z; lts_used : Z; pb_used : Z }.
#[export] Instance dp_pbc_stats_eta : RecordEta dp_pbc_stats := fun r => mk_dp_pbc_stats (st_packets r) (st_bytes r) (lts_used r) (pb_used r).
Definition pbc_zero : dp_pbc_stats := mk_dp_pbc_stats 0 0 0 0.

(** The sums over the CPUs, packets and bytes *)
Definition pcpu_sum (values : list (Z * Z)) : Z * Z := foldl (λ a v, (u64 (a.1 + v.1), u64 (a.2 + v.2))) (0, 0) values.

(** ll_get_stats_pcpu_arr, given what the lookup answers and the time *)
Definition ll_get_stats_pcpu_arr (values : option (list (Z * Z))) (cts : Z) (s : dp_pbc_stats) : dp_pbc_stats :=
  match values with
  | None => s
  | Some values =>
      let opc := st_packets s in
      let s := if lts_used s =? 0 then s <| lts_used := cts |> else s in
      let '(sum_pkts, sum_bytes) := pcpu_sum values in
      let s := s <| st_packets := sum_pkts |> <| st_bytes := sum_bytes |> in
      if negb (sum_pkts =? 0) || negb (sum_bytes =? 0) then
        if sum_pkts >? opc then s <| pb_used := 1 |> <| lts_used := cts |>
        else if u64 (cts - lts_used s) <? DP_ST_LTO then s <| pb_used := 1 |> else s
      else s
  end.

(** ** The control side's state *)

(** The datapath's tables, the cached statistics by index, the number of readings
    of clock and counters so far, the resets sent (key, sequence number), lctts,
    and the count of a flush. *)
Record ctl := mk_ctl { cl_ct : ct_st; cl_pbs : gmap Z dp_pbc_stats; cl_tick : nat; cl_rst : list (dp_ct_key * Z); cl_lctts : Z; cl_aged : Z }.
#[export] Instance ctl_eta : RecordEta ctl := fun r => mk_ctl (cl_ct r) (cl_pbs r) (cl_tick r) (cl_rst r) (cl_lctts r) (cl_aged r).
Definition cl_map (u : ctl) : gmap dp_ct_key dp_ct_tact := ct_map (cl_ct u).

Definition pbs_at (u : ctl) (e : Z) : dp_pbc_stats := default pbc_zero (cl_pbs u !! e).

(** llb_nat_dec_act_sessions: the lookup's answer is 0 when it succeeds. *)
Definition ep_lookup (rid : Z) (eps : ep_table) : Z * dp_nat_epacts :=
  match eps !! rid with Some epa => (0, epa) | None => (-1, mk_dp_nat_epacts 0 (zrep LLB_MAX_NXFRMS 0) 0 0 0 0) end.
(** bpf_map_update_elem on an array: only a place it has *)
Definition ep_update (rid : Z) (epa : dp_nat_epacts) (eps : ep_table) : ep_table := if bool_decide (is_Some (eps !! rid)) then <[rid := epa]> eps else eps.

Definition llb_nat_dec_act_sessions (rid aid : Z) (eps : ep_table) : ep_table :=
  let '(ret, epa) := ep_lookup rid eps in
  if negb (ret =? 0) then
    if zget (active_sess epa) aid >? 0 then ep_update rid (epa <| active_sess ::= (λ l, zset l aid (zget l aid - 1)) |>) eps else eps
  else eps.

Definition llb_nat_rst_act_sessions (rid : Z) (eps : ep_table) : ep_table :=
  let '(ret, epa) := ep_lookup rid eps in
  if negb (ret =? 0) then ep_update rid (mk_dp_nat_epacts 0 (zrep LLB_MAX_NXFRMS 0) 0 0 0 0) eps else eps.

(** ll_send_ctep_reset *)
Definition ll_send_ctep_reset (ep : dp_ct_key) (e : dp_ct_tact) (u : ctl) : ctl :=
  if negb (k_l4proto ep =? IPPROTO_TCP) then u
  else if negb (bool_decide (t_state (e_t e) = CT_TCP_EST)) then u
  else u <| cl_rst ::= (λ l, l ++ [(ep, bswap32 (td_pack (t_in (e_t e))))]) |>.

Definition on_ct (f : ct_st → ct_st) (u : ctl) : ctl := u <| cl_ct ::= f |>.
Definition fc_rm (key : dp_ct_key) (u : ctl) : ctl := on_ct (λ c, c <| fc_v4_map ::= dp_ct_related_fc_rm key |>) u.
Definition ct_rm (key : dp_ct_key) (u : ctl) : ctl := on_ct (λ c, c <| ct_map ::= delete key |>) u.

Section walk.

(** The clock and the per-CPU counters of an index as the n-th reading finds them;
    what the variable [axdat] of ll_ct_map_ent_has_aged holds before it is set. *)
Context (clk : nat → Z) (pcpu : nat → Z → option (list (Z * Z))) (junk : nat → dp_ct_tact).

(** llb_fetch_map_stats_cached(LL_DP_CT_STATS_MAP, e, 1, ...) *)
Definition llb_fetch_map_stats_cached (e : Z) (u : ctl) : ctl :=
  u <| cl_pbs ::= <[e := ll_get_stats_pcpu_arr (pcpu (cl_tick u) e) (clk (cl_tick u)) (pbs_at u e)]> |> <| cl_tick ::= S |>.
(** llb_fetch_map_stats_used(LL_DP_CT_STATS_MAP, e, 1, &used) *)
Definition llb_fetch_map_stats_used (e : Z) (u : ctl) : bool * ctl :=
  (negb (pb_used (pbs_at u e) =? 0), u <| cl_pbs ::= <[e := (pbs_at u e) <| pb_used := 0 |>]> |>).

(** From the two entries on; [axdat] is the other one. *)
Definition aged_pair (now : Z) (key xkey : dp_ct_key) (adat axdat : dp_ct_tact) (u : ctl) : bool * ctl :=
  let latest_ns := if c_lts adat >? c_lts axdat then c_lts adat else c_lts axdat in
  let u := llb_fetch_map_stats_cached (ca_cidx adat) u in
  let u := llb_fetch_map_stats_cached (ca_cidx axdat) u in
  let '(est, to, bidir) := ll_ct_get_state key adat in
  if now <? latest_ns then (false, u)
  else
    let to := if est && negb (c_ito adat =? 0) then c_ito adat else to in
    let '(used1, u) := llb_fetch_map_stats_used (ca_cidx adat) u in
    let '(used2, u) := llb_fetch_map_stats_used (ca_cidx axdat) u in
    let any_used := if bidir : bool then used1 && used2 else used1 || used2 in
    if (u64 (now - latest_ns) >? to) && (negb est || negb any_used) then
      let u := ll_send_ctep_reset key adat u in
      let u := if negb (nat_flags (d_xi (ctd adat)) =? 0) then on_ct (λ c, c <| ct_eps ::= llb_nat_dec_act_sessions (d_rid (ctd adat)) (d_aid (ctd adat)) |>) u else u in
      let u := if pi_frag (d_pi (ctd adat)) =? 0 then fc_rm xkey (ct_rm xkey (ll_send_ctep_reset xkey axdat u)) else u in
      (true, fc_rm key u)
    else (false, u).

Definition ll_ct_map_ent_has_aged (now : Z) (dir : ct_dir) (key : dp_ct_key) (adat : dp_ct_tact) (u : ctl) : bool * ctl :=
  if negb (bool_decide (dir = d_dir (ctd adat))) then (false, u)
  else
    let xkey := ctm_proto_xfk_init key adat in
    if negb (pi_frag (d_pi (ctd adat)) =? 0) then aged_pair now key xkey adat dp_ct_tact_zero u
    else
      match cl_map u !! xkey with
      | None =>
          let est := (ll_ct_get_state xkey (junk (cl_tick u))).1.1 in
          if est && (u64 (now - c_lts adat) <? CT_MISMATCH_FN_CPTO) then (false, u)
          else (true, fc_rm key u)
      | Some axdat => aged_pair now key xkey adat axdat u
      end.

(** ** The walk *)

(** llb_map_loop_and_delete over the keys bpf_map_get_next_key gives, at most [n]
    of them; a key that is gone by then is not given. *)
Fixpoint llb_map_loop_and_delete (cb : dp_ct_key → dp_ct_tact → ctl → bool * ctl) (n : nat) (keys : list dp_ct_key) (u : ctl) : ctl :=
  match keys with
  | [] => u
  | k :: keys =>
      match cl_map u !! k, n with
      | None, _ => llb_map_loop_and_delete cb n keys u
      | Some _, O => u
      | Some e, S n =>
          let '(del, u) := cb k e u in
          llb_map_loop_and_delete cb n keys (if del then ct_rm k u else u)
      end
  end.

Definition map_loop (cb : dp_ct_key → dp_ct_tact → ctl → bool * ctl) (keys : list dp_ct_key) (u : ctl) : ctl :=
  llb_map_loop_and_delete cb (Z.to_nat (ct_max (cl_ct u))) keys u.

(** ll_age_ctmap at time [ns]: the client's direction, and the other one when that
    was not done for two minutes. *)
Definition ll_age_ctmap (ns : Z) (keys keys2 : list dp_ct_key) (u : ctl) : ctl :=
  let u := map_loop (ll_ct_map_ent_has_aged ns CT_DIR_IN) keys u in
  if u64 (ns - cl_lctts u) >? CT_OUT_PERIOD then (map_loop (ll_ct_map_ent_has_aged ns CT_DIR_OUT) keys2 u) <| cl_lctts := ns |> else u.

End walk.

(** ** Flushing *)

Section flush.

(** The index in the value of a fast-path entry *)
Context (fc_cidx : dp_fcv4_key → Z).

Definition llb_del_map_elem_with_cidx (cidx : Z) (u : ctl) : ctl := on_ct (λ c, c <| fc_v4_map ::= filter (λ k, fc_cidx k ≠ cidx) |>) u.
Definition fc_flush (key : dp_ct_key) (e : dp_ct_tact) (u : ctl) : ctl := if k_v6 key =? 0 then llb_del_map_elem_with_cidx (ca_cidx e) u else u.





(** ll_addr4_eq, ll_addr6_eq by the key's family *)
Definition tuple_addr_eq (v6 : Z) (a b : xaddr) : bool := if v6 =? 0 then addr4 a =? addr4 b else bool_decide (a = b).

Definition ll_ct_map_ent_rm_vtuple (zero_only : bool) (rid : Z) (nk : dp_nat_key) (key : dp_ct_key) (e : dp_ct_tact) (u : ctl) : bool * ctl :=
  let r := d_rid (ctd e) in
  if negb ((k_v6 key =? nk_v6 nk) && (k_l4proto key =? nk_l4proto nk) && (k_zone key =? nk_zone nk)) then (false, u)
  else if (if zero_only then negb (r =? 0) else negb (rid =? 0) && negb (r =? rid) && negb (r =? 0)) then (false, u)
  else
    let dm := tuple_addr_eq (k_v6 key) (k_daddr key) (nk_daddr nk) in
    let sm := tuple_addr_eq (k_v6 key) (k_saddr key) (nk_daddr nk) in
    if negb ((dm && (k_dport key =? nk_dport nk)) || (sm && (k_sport key =? nk_dport nk))) then (false, u)
    else (true, (fc_flush key e u) <| cl_aged ::= (λ n, n + 1) |>).

Definition ENOMEM : Z := 12.
(** llb_flush_ct_by_nat: the answer is the number of entries flushed. *)
Definition llb_flush_ct_by_nat (mem : bool) (nk : dp_nat_key) (rid : Z) (keys : list dp_ct_key) (u : ctl) : ctl * Z :=
  if negb mem then (u, - ENOMEM)
  else
    let zero_only := Z.testbit rid 31 in
    let rid := Z.land rid (Z.lnot (2 ^ 31)) in
    let u := map_loop (ll_ct_map_ent_rm_vtuple zero_only rid nk) keys (u <| cl_aged := 0 |>) in
    (u, cl_aged u).

End flush.

(** ** When a connection is due *)

Definition last_seen (e x : dp_ct_tact) : Z := Z.max (c_lts e) (c_lts x).
Definition is_est (key : dp_ct_key) (e : dp_ct_tact) : bool := (ll_ct_get_state key e).1.1.
(** The timeout: a rule's own for an established connection, or that of the state. *)
Definition timeout_of (key : dp_ct_key) (e : dp_ct_tact) : Z :=
  if is_est key e && negb (c_ito e =? 0) then c_ito e else (ll_ct_get_state key e).1.2.
Definition expired (now : Z) (key : dp_ct_key) (e x : dp_ct_tact) : bool :=
  (last_seen e x <=? now) && (u64 (now - last_seen e x) >? timeout_of key e).

Lemma max_gtb a b : (if a >? b then a else b) = Z.max a b.
Proof. destruct (Z.gtb_spec a b); lia. Qed.

Lemma dec_act_keeps rid aid eps : llb_nat_dec_act_sessions rid aid eps = eps.
Proof.
  unfold llb_nat_dec_act_sessions, ep_lookup. destruct (eps !! rid) as [epa|] eqn:E; [done|]. cbn [negb Z.eqb].
  destruct (_ >? _); [|done]. unfold ep_update. rewrite bool_decide_false; [done|]. rewrite E. by intros [? ?].
Qed.

Lemma reset_keeps_ct ep e u : cl_ct (ll_send_ctep_reset ep e u) = cl_ct u ∧ cl_pbs (ll_send_ctep_reset ep e u) = cl_pbs u ∧ cl_tick (ll_send_ctep_reset ep e u) = cl_tick u.
Proof. unfold ll_send_ctep_reset. by repeat case_match. Qed.

Section stats.
Context (clk : nat → Z) (pcpu : nat → Z → option (list (Z * Z))).
Implicit Types (u : ctl) (i : Z).

(** The counters of an index stand still, and have stood still for a while. *)
Definition quiet u i : Prop :=
  let s := pbs_at u i in
  pb_used s = 0 ∧ lts_used s ≠ 0 ∧ (∀ t, (cl_tick u <= t)%nat → DP_ST_LTO <= u64 (clk t - lts_used s)) ∧
  ∃ pk, pk <= st_packets s ∧ ∀ t vs, (cl_tick u <= t)%nat → pcpu t i = Some vs → (pcpu_sum vs).1 = pk.

(** They have moved since they were last read, or not long before; and the walk
    takes less than that. *)
Definition busy u i : Prop :=
  let s := pbs_at u i in
  (∀ t, (cl_tick u <= t)%nat → ∃ vs, pcpu t i = Some vs ∧ 0 < (pcpu_sum vs).1) ∧
  (∀ t t', (cl_tick u <= t <= t')%nat → u64 (clk t' - clk t) < DP_ST_LTO) ∧
  (lts_used s = 0 ∨ (∀ t, (cl_tick u <= t)%nat → u64 (clk t - lts_used s) < DP_ST_LTO) ∨
   (∀ t vs, (cl_tick u <= t)%nat → pcpu t i = Some vs → st_packets s < (pcpu_sum vs).1)).

(** Neither depends on more than the statistics. *)
Definition same_stats u u' : Prop := cl_pbs u' = cl_pbs u ∧ cl_tick u' = cl_tick u.
Lemma quiet_same u u' i : same_stats u u' → quiet u i → quiet u' i.
Proof. intros [H1 H2]. unfold quiet, pbs_at. by rewrite H1, H2. Qed.
Lemma busy_same u u' i : same_stats u u' → busy u i → busy u' i.
Proof. intros [H1 H2]. unfold busy, pbs_at. by rewrite H1, H2. Qed.

Lemma pbs_at_cached u i j :
  pbs_at (llb_fetch_map_stats_cached clk pcpu j u) i = if decide (i = j) then ll_get_stats_pcpu_arr (pcpu (cl_tick u) j) (clk (cl_tick u)) (pbs_at u j) else pbs_at u i.
Proof. unfold pbs_at at 1, llb_fetch_map_stats_cached. cbn. case_decide as H; [subst; by rewrite lookup_insert_eq|by rewrite lookup_insert_ne]. Qed.
Lemma pbs_at_used u i j : pbs_at (llb_fetch_map_stats_used j u).2 i = if decide (i = j) then (pbs_at u j) <| pb_used := 0 |> else pbs_at u i.
Proof. unfold pbs_at at 1, llb_fetch_map_stats_used. cbn. case_decide as H; [subst; by rewrite lookup_insert_eq|by rewrite lookup_insert_ne]. Qed.

Lemma quiet_cached u i j : quiet u i → quiet (llb_fetch_map_stats_cached clk pcpu j u) i.
Proof.
  intros (Hu & Hl & Ht & pk & Hpk & Hc). unfold quiet. rewrite pbs_at_cached. change (cl_tick (llb_fetch_map_stats_cached clk pcpu j u)) with (S (cl_tick u)).
  case_decide as E; [subst j|split_and!; try done; [intros; apply Ht; lia|]; exists pk; split; [done|]; intros; apply (Hc t); [lia|done]].
  unfold ll_get_stats_pcpu_arr. destruct (pcpu (cl_tick u) i) as [vs|] eqn:Ev; [|split_and!; try done; [intros; apply Ht; lia|]; exists pk; split; [done|]; intros; apply (Hc t); [lia|done]].
  pose proof (Hc (cl_tick u) vs ltac:(lia) Ev) as Hs. destruct (pcpu_sum vs) as [sp sb]. cbn in Hs. subst sp. apply Z.eqb_neq in Hl. rewrite Hl. apply Z.eqb_neq in Hl.
  assert (Hnot : (pk >? st_packets (pbs_at u i)) = false) by lia. rewrite Hnot. pose proof (proj2 (Z.ltb_ge _ _) (Ht (cl_tick u) ltac:(lia))) as Hold. cbn -[u64 Z.ltb]. rewrite Hold.
  destruct (_ || _); (split_and!; [done|done|cbn; intros; apply Ht; lia|]; exists pk; cbn; split; [lia|]; intros; apply (Hc t); [lia|done]).
Qed.

Lemma quiet_used u i j : quiet u i → quiet (llb_fetch_map_stats_used j u).2 i.
Proof. intros H. unfold quiet. rewrite pbs_at_used. case_decide as E; [subst j|exact H]. destruct H as (_ & H). split; [done|exact H]. Qed.

Lemma quiet_answer u i : quiet u i → (llb_fetch_map_stats_used i u).1 = false.
Proof. intros (Hu & _). unfold llb_fetch_map_stats_used. cbn. by rewrite Hu. Qed.

(** A reading of a busy index finds it used. *)
Lemma busy_read u i : busy u i → let s := pbs_at (llb_fetch_map_stats_cached clk pcpu i u) i in
  pb_used s = 1 ∧ (∀ t, (S (cl_tick u) <= t)%nat → u64 (clk t - lts_used s) < DP_ST_LTO).
Proof.
  intros (Hp & Hw & Hc). cbn zeta. rewrite pbs_at_cached, decide_True by done. destruct (Hp (cl_tick u) ltac:(lia)) as (vs & Ev & Hpos). unfold ll_get_stats_pcpu_arr. rewrite Ev.
  set (s := pbs_at u i) in *. destruct (pcpu_sum vs) as [sp sb] eqn:Esum. cbn in Hpos. assert (Hnz : negb (sp =? 0) || negb (sb =? 0) = true) by lia. rewrite Hnz.
  destruct (Z.gtb_spec sp (st_packets s)) as [Hgt|Hle].
  { cbn. split; [done|]. intros t Ht. apply Hw. lia. }
  assert (Hin : lts_used s = 0 ∨ (∀ t, (cl_tick u <= t)%nat → u64 (clk t - lts_used s) < DP_ST_LTO)).
  { destruct Hc as [?|[?|Hc]]; [by left|by right|]. specialize (Hc (cl_tick u) vs ltac:(lia) Ev). rewrite Esum in Hc. cbn in Hc. lia. }
  destruct (Z.eqb_spec (lts_used s) 0) as [E0|E0]; cbn.
  - rewrite Z.sub_diag. cbn. split; [done|]. intros t Ht. apply Hw. lia.
  - destruct Hin as [?|Hin]; [done|]. rewrite (proj2 (Z.ltb_lt _ _) (Hin (cl_tick u) ltac:(lia))). cbn. split; [done|]. intros t Ht. apply Hin. lia.
Qed.

Lemma busy_cached u i j : busy u i → busy (llb_fetch_map_stats_cached clk pcpu j u) i.
Proof.
  intros Hb. pose proof Hb as (Hp & Hw & Hc). unfold busy. change (cl_tick (llb_fetch_map_stats_cached clk pcpu j u)) with (S (cl_tick u)).
  split; [intros t Ht; apply Hp; lia|]. split; [intros t t' Ht; apply Hw; lia|]. destruct (decide (i = j)) as [<-|Hne].
  - right. left. by apply busy_read.
  - rewrite pbs_at_cached, decide_False by done. destruct Hc as [?|[Hc|Hc]]; [by left|right; left; intros t Ht; apply Hc; lia|right; right; intros t vs Ht; apply Hc; lia].
Qed.

Lemma busy_used u i j : busy u i → busy (llb_fetch_map_stats_used j u).2 i.
Proof. intros H. unfold busy. rewrite pbs_at_used. case_decide as E; [subst j|]; exact H. Qed.

End stats.

(** ** One visit *)

Section age.
Context (clk : nat → Z) (pcpu : nat → Z → option (list (Z * Z))) (junk : nat → dp_ct_tact).
Implicit Types (u : ctl) (k : dp_ct_key) (e x : dp_ct_tact).
Local Abbreviation quiet := (quiet clk pcpu).
Local Abbreviation busy := (busy clk pcpu).

(** What the readings of a visit leave as it was. *)
Record steady u u' : Prop := mk_steady {
  sd_eps : ct_eps (cl_ct u') = ct_eps (cl_ct u); sd_max : ct_max (cl_ct u') = ct_max (cl_ct u);
  sd_quiet : ∀ i, quiet u i → quiet u' i; sd_busy : ∀ i, busy u i → busy u' i
}.
Lemma steady_refl u : steady u u.
Proof. done. Qed.
Lemma steady_trans u1 u2 u3 : steady u1 u2 → steady u2 u3 → steady u1 u3.
Proof. intros [] []. split; [congruence|congruence|auto|auto]. Qed.
Lemma steady_stats u u' : same_stats u u' → ct_eps (cl_ct u') = ct_eps (cl_ct u) → ct_max (cl_ct u') = ct_max (cl_ct u) → steady u u'.
Proof. intros Hs He Hm. split; [done|done|intros i; by apply quiet_same|intros i; by apply busy_same]. Qed.

(** The answers of the statistics in a visit. *)
Definition used_pair e x u : bool * bool * ctl :=
  let u := llb_fetch_map_stats_cached clk pcpu (ca_cidx x) (llb_fetch_map_stats_cached clk pcpu (ca_cidx e) u) in
  let '(a, u) := llb_fetch_map_stats_used (ca_cidx e) u in
  let '(b, u) := llb_fetch_map_stats_used (ca_cidx x) u in (a, b, u).

Lemma used_pair_spec e x u : let '(a, b, u') := used_pair e x u in
  cl_map u' = cl_map u ∧ steady u u' ∧ (quiet u (ca_cidx e) → quiet u (ca_cidx x) → a = false ∧ b = false) ∧
  (busy u (ca_cidx e) → busy u (ca_cidx x) → ca_cidx e ≠ ca_cidx x → a = true ∧ b = true).
Proof.
  unfold used_pair. set (u1 := llb_fetch_map_stats_cached clk pcpu (ca_cidx e) u). set (u2 := llb_fetch_map_stats_cached clk pcpu (ca_cidx x) u1).
  set (u3 := (llb_fetch_map_stats_used (ca_cidx e) u2).2). split; [done|].
  assert (Hq : ∀ i, quiet u i → quiet u2 i) by (intros i Hi; by apply quiet_cached, quiet_cached). assert (Hb : ∀ i, busy u i → busy u2 i) by (intros i Hi; by apply busy_cached, busy_cached).
  split; [|split].
  - split; [done|done|intros i Hi; apply quiet_used, (quiet_used clk pcpu u2), Hq, Hi|intros i Hi; apply busy_used, (busy_used clk pcpu u2), Hb, Hi].
  - intros He Hx. split; [apply (quiet_answer clk pcpu u2), Hq, He|]. apply (quiet_answer clk pcpu u3), (quiet_used clk pcpu u2), Hq, Hx.
  - intros He Hx Hne. destruct (busy_read clk pcpu u (ca_cidx e) He) as [Ue _]. destruct (busy_read clk pcpu u1 (ca_cidx x) (busy_cached clk pcpu u _ _ Hx)) as [Ux _]. fold u1 in Ue. fold u2 in Ux.
    cbn. split.
    + assert (E : pbs_at u2 (ca_cidx e) = pbs_at u1 (ca_cidx e)) by (unfold u2; rewrite pbs_at_cached, decide_False; done). by rewrite E, Ue.
    + pose proof (pbs_at_used u2 (ca_cidx x) (ca_cidx e)) as E. rewrite decide_False in E by congruence. cbn in E. by rewrite E, Ux.
Qed.

Lemma aged_pair_spec now k xk e x u : pi_frag (d_pi (ctd e)) = 0 →
  ∃ b u', aged_pair clk pcpu now k xk e x u = (b, u') ∧ cl_map u' = (if b : bool then delete xk (cl_map u) else cl_map u) ∧ steady u u' ∧
    (b = true → expired now k e x = true) ∧
    (expired now k e x = true → is_est k e = false ∨ (quiet u (ca_cidx e) ∧ quiet u (ca_cidx x)) → b = true) ∧
    (is_est k e = true → busy u (ca_cidx e) → busy u (ca_cidx x) → ca_cidx e ≠ ca_cidx x → b = false).
Proof.
  intros Hf. unfold aged_pair. rewrite max_gtb. fold (last_seen e x). pose proof (used_pair_spec e x u) as Hup. unfold used_pair in Hup. cbn zeta in Hup.
  set (u2 := llb_fetch_map_stats_cached clk pcpu (ca_cidx x) _) in *. unfold expired, timeout_of, is_est. destruct (ll_ct_get_state k e) as [[est to] bidir]. cbn [fst snd].
  destruct (Z.ltb_spec now (last_seen e x)) as [Hlt|Hge].
  { exists false, u2. split; [done|]. split; [done|]. split; [|split; [done|]; split; [intros H; exfalso; lia|done]].
    split; [done|done|intros i Hi; by apply quiet_cached, quiet_cached|intros i Hi; by apply busy_cached, busy_cached]. }
  rewrite (proj2 (Z.leb_le _ _) Hge). cbn [andb]. set (late := u64 (now - last_seen e x) >? _).
  destruct (llb_fetch_map_stats_used (ca_cidx e) u2) as [a u3]. destruct (llb_fetch_map_stats_used (ca_cidx x) u3) as [b u4]. destruct Hup as (Hm & Hst & Hqu & Hbu).
  set (any := if bidir then a && b else a || b).
  assert (Hany : (quiet u (ca_cidx e) → quiet u (ca_cidx x) → any = false) ∧ (busy u (ca_cidx e) → busy u (ca_cidx x) → ca_cidx e ≠ ca_cidx x → any = true)).
  { unfold any. split; [intros H1 H2; destruct (Hqu H1 H2) as [-> ->]; by destruct bidir|intros H1 H2 H3; destruct (Hbu H1 H2 H3) as [-> ->]; by destruct bidir]. }
  destruct Hany as [Hq Hb]. clearbody any. destruct (late && (negb est || negb any)) eqn:Ed.
  - rewrite Hf. cbn [Z.eqb]. set (u5 := ll_send_ctep_reset k e u4). set (u6 := if negb (nat_flags _ =? 0) then _ else u5). set (u7 := ll_send_ctep_reset xk x u6).
    destruct (reset_keeps_ct k e u4) as (R1 & R2 & R3). fold u5 in R1, R2, R3. destruct (reset_keeps_ct xk x u6) as (S1 & S2 & S3). fold u7 in S1, S2, S3.
    assert (H6 : cl_map u6 = cl_map u5 ∧ ct_eps (cl_ct u6) = ct_eps (cl_ct u5) ∧ ct_max (cl_ct u6) = ct_max (cl_ct u5) ∧ cl_pbs u6 = cl_pbs u5 ∧ cl_tick u6 = cl_tick u5).
    { unfold u6. destruct (negb (nat_flags (d_xi (ctd e)) =? 0)); [|done]. split; [done|]. split; [apply dec_act_keeps|done]. }
    destruct H6 as (T1 & T2 & T3 & T4 & T5). exists true, (fc_rm k (fc_rm xk (ct_rm xk u7))). split; [done|]. split.
    { change (delete xk (cl_map u7) = delete xk (cl_map u)). f_equal. unfold cl_map in *. rewrite S1, T1, R1. exact Hm. }
    split.
    { eapply steady_trans; [exact Hst|]. apply steady_stats; [split; cbn; congruence|cbn; congruence|cbn; congruence]. }
    apply andb_true_iff in Ed as [El Ed]. split; [done|]. split; [done|]. intros -> H1 H2 H3. rewrite (Hb H1 H2 H3) in Ed. done.
  - exists false, u4. split; [done|]. split; [done|]. split; [done|]. split; [done|]. split; [|done]. intros Hl Hc. rewrite Hl in Ed. cbn in Ed.
    destruct Hc as [-> |[H1 H2]]; [done|]. rewrite (Hq H1 H2) in Ed. by rewrite orb_true_r in Ed.
Qed.

(** ** The walk *)

(** The control side finds the mates of the entries of direction [d]. *)
Definition sees (d : ct_dir) (m : gmap dp_ct_key dp_ct_tact) : Prop := ∀ k e, m !! k = Some e → dir_of e = d → ctm_proto_xfk_init k e = partner k e.

Lemma sees_in m : paired m → sees CT_DIR_IN m.
Proof. intros Hp k e He Hd. destruct (Hp k e He) as (x & M). by apply (mt_user _ _ _ _ M); left. Qed.
Lemma sees_sub d m m' : m' ⊆ m → sees d m → sees d m'.
Proof. intros Hs H k e He. apply H. by eapply lookup_weaken. Qed.

(** What a walk does to a connection. *)
Record outcome (now : Z) u u' (keys : list dp_ct_key) k e x : Prop := mk_outcome {
  oc_pair : (cl_map u' !! k = Some e ∧ cl_map u' !! partner k e = Some x) ∨ (cl_map u' !! k = None ∧ cl_map u' !! partner k e = None);
  oc_due : cl_map u' !! k = None → expired now k e x = true;
  oc_gone : k ∈ keys → expired now k e x = true → is_est k e = false ∨ (quiet u (ca_cidx e) ∧ quiet u (ca_cidx x)) → cl_map u' !! k = None;
  oc_kept : is_est k e = true → busy u (ca_cidx e) → busy u (ca_cidx x) → ca_cidx e ≠ ca_cidx x → cl_map u' !! k = Some e
}.

Lemma outcome_later now u u1 u' keys k0 k e x : steady u u1 → k ≠ k0 → outcome now u1 u' keys k e x → outcome now u u' (k0 :: keys) k e x.
Proof.
  intros Hs Hne [P D G K]. split; [done|done| |].
  - intros [?|Hin]%elem_of_cons Hd Hc; [done|]. apply G; [done|done|]. destruct Hc as [?|[? ?]]; [by left|right; split; by apply (sd_quiet _ _ Hs)].
  - intros. apply K; try done; by apply (sd_busy _ _ Hs).
Qed.

Lemma visit now d u k e x : paired (cl_map u) → sees d (cl_map u) → cl_map u !! k = Some e → cl_map u !! partner k e = Some x → dir_of e = d →
  ∃ b u', ll_ct_map_ent_has_aged clk pcpu junk now d k e u = (b, u') ∧ cl_map u' = (if b : bool then delete (partner k e) (cl_map u) else cl_map u) ∧ steady u u' ∧
    (b = true → expired now k e x = true) ∧
    (expired now k e x = true → is_est k e = false ∨ (quiet u (ca_cidx e) ∧ quiet u (ca_cidx x)) → b = true) ∧
    (is_est k e = true → busy u (ca_cidx e) → busy u (ca_cidx x) → ca_cidx e ≠ ca_cidx x → b = false).
Proof.
  intros Hp Hs He Hx Hd. destruct (Hp k e He) as (x' & M). pose proof (mt_user _ _ _ _ M) as (_ & _ & Hf). unfold ll_ct_map_ent_has_aged. fold (dir_of e).
  rewrite Hd, bool_decide_true by done. cbn [negb]. rewrite Hf. cbn [Z.eqb negb]. rewrite (Hs k e He Hd), Hx. by apply aged_pair_spec.
Qed.

(** Removing a pair leaves every other one in place. *)
Lemma other_pair (m : gmap dp_ct_key dp_ct_tact) k0 e0 k e x : paired m → m !! k0 = Some e0 → m !! k = Some e → m !! partner k e = Some x → dir_of e = dir_of e0 → k ≠ k0 →
  k ≠ partner k0 e0 ∧ partner k e ≠ k0 ∧ partner k e ≠ partner k0 e0.
Proof.
  intros Hp H0 He Hx Hd Hne. destruct (Hp k0 e0 H0) as (x0 & [M1 M2 M3 M4 _ _ _]). destruct (Hp k e He) as (x1 & [N1 N2 N3 N4 _ _ _]). rewrite Hx in N1. simplify_eq. split_and!.
  - intros ->. rewrite He in M1. injection M1 as <-. rewrite Hd in M4. by destruct (dir_of e0).
  - intros E. rewrite E, H0 in Hx. injection Hx as <-. rewrite <- Hd in N4. by destruct (dir_of e).
  - intros E. rewrite E, M1 in Hx. injection Hx as <-. rewrite E in N2. congruence.
Qed.

Lemma age_loop now d keys n u : NoDup keys → (length keys <= n)%nat → paired (cl_map u) → sees d (cl_map u) →
  let u' := llb_map_loop_and_delete (ll_ct_map_ent_has_aged clk pcpu junk now d) n keys u in
  paired (cl_map u') ∧ cl_map u' ⊆ cl_map u ∧ steady u u' ∧
  ∀ k e x, cl_map u !! k = Some e → cl_map u !! partner k e = Some x → dir_of e = d → outcome now u u' keys k e x.
Proof.
  revert n u. induction keys as [|k0 keys IH]; intros n u Hnd Hn Hp Hs; cbn zeta.
  { cbn. split_and!; [done|done|done|]. intros k e x He Hx Hd. split; [by left|congruence|by intros ?%elem_of_nil|done]. }
  apply list.NoDup_cons in Hnd as [Hk0 Hnd]. cbn [llb_map_loop_and_delete length] in *. destruct (cl_map u !! k0) as [e0|] eqn:E0.
  2: { destruct (IH n u Hnd ltac:(lia) Hp Hs) as (I1 & I2 & I3 & I4). refine (conj I1 (conj I2 (conj I3 _))). intros k e x He Hx Hd. apply (outcome_later now u u _ keys k0); [done|congruence|by apply I4]. }
  destruct n as [|n]; [lia|]. destruct (decide (dir_of e0 = d)) as [Hd0|Hd0].
  2: { assert (Hcb : ll_ct_map_ent_has_aged clk pcpu junk now d k0 e0 u = (false, u)) by (unfold ll_ct_map_ent_has_aged; fold (dir_of e0); by rewrite bool_decide_false by congruence). rewrite Hcb.
       destruct (IH n u Hnd ltac:(lia) Hp Hs) as (I1 & I2 & I3 & I4). refine (conj I1 (conj I2 (conj I3 _))). intros k e x He Hx Hd. apply (outcome_later now u u _ keys k0); [done|congruence|by apply I4]. }
  destruct (Hp k0 e0 E0) as (x0 & M0). pose proof (mt_there _ _ _ _ M0) as Hx0.
  destruct (visit now d u k0 e0 x0 Hp Hs E0 Hx0 Hd0) as (b & u1 & -> & Hm & Hst & Hb1 & Hb2 & Hb3). destruct b.
  - set (u2 := ct_rm k0 u1). assert (Hm2 : cl_map u2 = delete k0 (delete (partner k0 e0) (cl_map u))) by (change (cl_map u2) with (delete k0 (cl_map u1)); by rewrite Hm).
    assert (Hst2 : steady u u2) by (eapply steady_trans; [exact Hst|by apply steady_stats]).
    assert (Hsub : cl_map u2 ⊆ cl_map u) by (rewrite Hm2; etrans; apply delete_subseteq).
    destruct (IH n u2 Hnd ltac:(lia)) as (I1 & I2 & I3 & I4); [rewrite Hm2; by apply paired_delete|by eapply sees_sub|]. clearbody u2.
    split_and!; [done|by etrans|by eapply steady_trans|]. intros k e x He Hx Hd. destruct (decide (k = k0)) as [->|Hne].
    + rewrite E0 in He. injection He as <-. rewrite Hx0 in Hx. injection Hx as <-. set (u' := llb_map_loop_and_delete _ _ _ _) in *. clearbody u'.
      assert (Hg : cl_map u' !! k0 = None ∧ cl_map u' !! partner k0 e0 = None).
      { split; (eapply lookup_weaken_None; [|exact I2]); rewrite Hm2; [apply lookup_delete_eq|]. destruct (decide (k0 = partner k0 e0)) as [<-|]; [apply lookup_delete_eq|]. rewrite lookup_delete_ne by done. apply lookup_delete_eq. }
      split; [by right|intros _; by apply Hb1|intros; apply Hg|]. intros A1 A2 A3 A4. by specialize (Hb3 A1 A2 A3 A4).
    + destruct (other_pair _ k0 e0 k e x Hp E0 He Hx ltac:(congruence) Hne) as (O1 & O2 & O3). apply (outcome_later now u u2 _ keys k0); [done|done|].
      apply I4; [by rewrite Hm2, !lookup_delete_ne|by rewrite Hm2, !lookup_delete_ne|done].
  - destruct (IH n u1 Hnd ltac:(lia)) as (I1 & I2 & I3 & I4); [by rewrite Hm|by rewrite Hm|]. rewrite Hm in I2.
    split_and!; [done|done|by eapply steady_trans|]. intros k e x He Hx Hd. specialize (I4 k e x). rewrite Hm in I4. specialize (I4 He Hx Hd). destruct (decide (k = k0)) as [->|Hne].
    + rewrite E0 in He. injection He as <-. rewrite Hx0 in Hx. injection Hx as <-. destruct I4 as [P D G K]. split; [done|done| |].
      * intros _ Hdue Hc. by specialize (Hb2 Hdue Hc).
      * intros. apply K; try done; by apply (sd_busy _ _ Hst).
    + by apply (outcome_later now u u1 _ keys k0).
Qed.

End age.

(** ** A whole ageing run *)

(** The keys of a walk: every key of the table, each once. *)
Definition walks (c : ct_st) (keys : list dp_ct_key) : Prop :=
  NoDup keys ∧ (length keys <= Z.to_nat (ct_max c))%nat ∧ ∀ k, is_Some (ct_map c !! k) → k ∈ keys.
Definition walks_some (c : ct_st) (keys : list dp_ct_key) : Prop := NoDup keys ∧ (length keys <= Z.to_nat (ct_max c))%nat.

Lemma age_ctmap_sub clk pcpu junk ns keys keys2 u : paired (cl_map u) → sees CT_DIR_OUT (cl_map u) → walks_some (cl_ct u) keys → walks_some (cl_ct u) keys2 →
  let u' := ll_age_ctmap clk pcpu junk ns keys keys2 u in paired (cl_map u') ∧ cl_map u' ⊆ cl_map u ∧ ct_eps (cl_ct u') = ct_eps (cl_ct u).
Proof.
  intros Hp Hs [K1 K2] [L1 L2]. cbn zeta. unfold ll_age_ctmap, map_loop.
  destruct (age_loop clk pcpu junk ns CT_DIR_IN keys _ u K1 K2 Hp (sees_in _ Hp)) as (I1 & I2 & I3 & _). set (u1 := llb_map_loop_and_delete _ _ keys u) in *. clearbody u1.
  destruct (_ >? _); [|split_and!; [done|done|by apply (sd_eps _ _ _ _ I3)]]. rewrite (sd_max _ _ _ _ I3).
  destruct (age_loop clk pcpu junk ns CT_DIR_OUT keys2 _ u1 L1 L2 I1 (sees_sub _ _ _ I2 Hs)) as (J1 & J2 & J3 & _). cbn.
  split_and!; [exact J1|etrans; [exact J2|done]|]. by rewrite (sd_eps _ _ _ _ J3), (sd_eps _ _ _ _ I3).
Qed.

(** No entry carries the mark of direct server return. *)
Definition unmarked (m : gmap dp_ct_key dp_ct_tact) : Prop := map_Forall (λ _ e, dsr (d_xi (ctd e)) = 0) m.

Lemma sees_unmarked d m : paired m → unmarked m → sees d m.
Proof. intros Hp Hm k e He _. destruct (Hp k e He) as (x & M). apply (mt_user _ _ _ _ M). right. by apply (Hm k). Qed.

(** C7. What an ageing run does to a paired table in which no entry carries
    the mark of direct server return ([dsr_mark_strands] is what a stale mark does):
    a connection goes with both its entries or stays with both; it goes only when
    neither entry was seen for the timeout that one of its two entries says (by its
    protocol's state, or the rule's own for an established one); it does go when the
    client's entry says so and it is not established, or is and the counters of both
    directions stood still; and an established one whose counters moved lately in
    both directions stays. No entry is made or changed and no rule's counter moves.
    For every order of the walk and all readings of the clock and the counters on
    the way. *)
Theorem ct_ageing_exact clk pcpu junk ns keys keys2 u : paired (cl_map u) → unmarked (cl_map u) → walks (cl_ct u) keys → walks_some (cl_ct u) keys2 →
  let u' := ll_age_ctmap clk pcpu junk ns keys keys2 u in
  cl_map u' ⊆ cl_map u ∧ ct_eps (cl_ct u') = ct_eps (cl_ct u) ∧
  ∀ k e x, cl_map u !! k = Some e → cl_map u !! partner k e = Some x → dir_of e = CT_DIR_IN →
    let stays := cl_map u' !! k = Some e ∧ cl_map u' !! partner k e = Some x in
    let goes := cl_map u' !! k = None ∧ cl_map u' !! partner k e = None in
    (stays ∨ goes ∧ (expired ns k e x = true ∨ expired ns (partner k e) x e = true)) ∧
    (expired ns k e x = true → is_est k e = false ∨ (quiet clk pcpu u (ca_cidx e) ∧ quiet clk pcpu u (ca_cidx x)) → goes) ∧
    (is_est k e = true → is_est (partner k e) x = true → busy clk pcpu u (ca_cidx e) → busy clk pcpu u (ca_cidx x) → ca_cidx e ≠ ca_cidx x → stays).
Proof.
  intros Hp Hum [K1 [K2 K3]] L. pose proof (sees_unmarked CT_DIR_OUT _ Hp Hum) as Hs. pose proof (age_ctmap_sub clk pcpu junk ns keys keys2 u Hp Hs (conj K1 K2) L) as (_ & Hsub & Heps). cbn zeta in *. split; [done|]. split; [done|].
  intros k e x He Hx Hd. specialize (K3 k (mk_is_Some _ _ He)). revert Hsub. unfold ll_age_ctmap, map_loop. destruct L as [L1 L2].
  destruct (age_loop clk pcpu junk ns CT_DIR_IN keys _ u K1 K2 Hp (sees_in _ Hp)) as (I1 & I2 & I3 & I4). set (u1 := llb_map_loop_and_delete _ _ keys u) in *. clearbody u1.
  destruct (I4 k e x He Hx Hd) as [P D G K]. destruct (_ >? _).
  2: { intros _. split_and!; [destruct P as [P|P]; [by left|right; split; [done|]; left; by apply D, P]|intros Hdue Hc; destruct P as [P|P]; [by rewrite (G K3 Hdue Hc) in P; destruct P|done]|].
       intros E1 _ B1 B2 B3. destruct P as [P|P]; [done|]. rewrite (K E1 B1 B2 B3) in P. by destruct P. }
  rewrite (sd_max _ _ _ _ I3). destruct (age_loop clk pcpu junk ns CT_DIR_OUT keys2 _ u1 L1 L2 I1 (sees_sub _ _ _ I2 Hs)) as (_ & J2 & J3 & J4).
  set (u2 := llb_map_loop_and_delete _ _ keys2 u1) in *. clearbody u2. cbn. intros _. destruct P as [[P1 P2]|[P1 P2]].
  - destruct (I1 k e P1) as (x' & [M1 M2 _ M4 _ _ _]). assert (x' = x) as -> by congruence. rewrite Hd in M4.
    destruct (J4 (partner k e) x e P2) as [Q QD _ QK]; [by rewrite M2|done|]. rewrite M2 in Q. split_and!.
    + destruct Q as [[Q1 Q2]|[Q1 Q2]]; [by left|right]. split; [done|]. right. by apply QD.
    + intros Hdue Hc. by rewrite (G K3 Hdue Hc) in P1.
    + intros E1 E2 B1 B2 B3. destruct Q as [[Q1 Q2]|[Q1 Q2]]; [done|]. rewrite QK in Q1; [done|done|by apply (sd_busy _ _ _ _ I3)|by apply (sd_busy _ _ _ _ I3)|done].
  - assert (Hg : cl_map u2 !! k = None ∧ cl_map u2 !! partner k e = None) by (split; by eapply lookup_weaken_None). split_and!; [right; split; [done|]; left; by apply D|done|].
    intros E1 _ B1 B2 B3. by rewrite (K E1 B1 B2 B3) in P1.
Qed.

(** ** Flushing walks *)







(** ** The datapath and the control side together *)

(** The tables, and the packets that a CPU has taken through the rules and not yet
    through tracking. *)
Record gw := mk_gw { g_ctl : ctl; g_nat : nat_table; g_flight : list xfi }.
Definition g_ct (g : gw) : ct_st := cl_ct (g_ctl g).
Definition g_sys (g : gw) : dp_sys := mk_dp_sys (g_ct g) (g_nat g).





















(** ** Examples *)

Definition keys_of (c : ct_st) : list dp_ct_key := (map_to_list (ct_map c)).*1.
Definition svc_ctl (c : ct_st) : ctl := mk_ctl c ∅ 0 [] 0 0.
(** A minute after the only connection was opened. *)
Definition svc_age (ns : Z) (c : ct_st) : ctl := ll_age_ctmap (λ _, ns) (λ _ _, None) (λ _, dp_ct_tact_zero) ns (keys_of c) (keys_of c) (svc_ctl c).
Definition svc_aged : gw := mk_gw (svc_age 60000000000 (s_ct svc_one)) (s_nat svc_one) [].

Lemma walks_keys c : Z.of_nat (size (ct_map c)) <= ct_max c → walks c (keys_of c).
Proof.
  intros Hm. split_and!; [apply NoDup_fst_map_to_list| |].
  - unfold keys_of. rewrite length_fmap, length_map_to_list. lia.
  - intros k [e He]. unfold keys_of. apply list_elem_of_fmap. exists (k, e). split; [done|]. by apply elem_of_map_to_list.
Qed.

Lemma svc_one_paired : paired (ct_map (s_ct svc_one)).
Proof. assert (H0 : ∀ r : Z, 0 <= (λ _, 0) r) by (intros; lia). pose proof (dp_step_inv (λ _, 0) _ _ H0 (start_inv (λ _, 0) _ H0 (svc_start_ok 1 xaddr_zero ltac:(done))) svc_one_step) as [_ [Hp _]]. exact Hp. Qed.

Lemma svc_one_unmarked : unmarked (ct_map (s_ct svc_one)).
Proof. apply (bool_decide_unpack _). vm_compute. exact I. Qed.

Lemma svc_one_walks : walks (s_ct svc_one) (keys_of (s_ct svc_one)).
Proof. apply walks_keys. vm_compute. discriminate. Qed.







Lemma ct_ageing_exact_witness : ∃ k e x, ct_map (s_ct svc_one) !! k = Some e ∧ ct_map (s_ct svc_one) !! partner k e = Some x ∧
  expired 60000000000 k e x = true ∧ cl_map (svc_age 60000000000 (s_ct svc_one)) !! k = None ∧ cl_map (svc_age 60000000000 (s_ct svc_one)) !! partner k e = None.
Proof.
  destruct svc_one_entry as [e He]. destruct (svc_one_paired _ e He) as (x & M). pose proof (mt_there _ _ _ _ M) as Hx. pose proof svc_one_walks as W.
  assert (Hd : (dir_of <$> ct_map (s_ct svc_one) !! CT_KEY_GEN (svc_syn 1 1000)) = Some CT_DIR_IN) by (vm_compute; reflexivity).
  rewrite He in Hd. injection Hd as Hd.
  pose proof (ct_ageing_exact (λ _, 60000000000) (λ _ _, None) (λ _, dp_ct_tact_zero) 60000000000 (keys_of (s_ct svc_one)) (keys_of (s_ct svc_one)) (svc_ctl (s_ct svc_one))
    svc_one_paired svc_one_unmarked W (conj (proj1 W) (proj1 (proj2 W)))) as H. destruct H as (_ & _ & H). specialize (H (CT_KEY_GEN (svc_syn 1 1000)) e x He Hx Hd). destruct H as (_ & H & _).
  assert (Hdue : ∀ k e x, ct_map (s_ct svc_one) !! k = Some e → ct_map (s_ct svc_one) !! partner k e = Some x → expired 60000000000 k e x && negb (is_est k e) = true).
  { intros k0 e0 x0 E1 E2. assert (A : map_Forall (λ k e, match ct_map (s_ct svc_one) !! partner k e with Some x => expired 60000000000 k e x && negb (is_est k e) | None => true end = true) (ct_map (s_ct svc_one))) by (apply (bool_decide_unpack _); vm_compute; exact I).
    specialize (A k0 e0 E1). cbn in A. by rewrite E2 in A. }
  specialize (Hdue _ e x He Hx). apply andb_true_iff in Hdue as [D1 D2]. apply negb_true_iff in D2. specialize (H D1 (or_introl D2)). exists (CT_KEY_GEN (svc_syn 1 1000)), e, x. exact (conj He (conj Hx (conj D1 H))).
Defined.

(** ** What the removals leave behind *)

(** llb_nat_dec_act_sessions and llb_nat_rst_act_sessions act when their lookup
    fails, so neither ever changes a rule's counters. *)
Theorem session_counts_never_reset rid aid eps : llb_nat_dec_act_sessions rid aid eps = eps ∧ llb_nat_rst_act_sessions rid eps = eps.
Proof.
  split; [apply dec_act_keeps|]. unfold llb_nat_rst_act_sessions, ep_lookup. destruct (eps !! rid) as [epa|] eqn:E; [done|]. cbn [negb Z.eqb].
  unfold ep_update. rewrite bool_decide_false; [done|]. rewrite E. by intros [? ?].
Qed.

(** The only connection of a rule limited to one has aged out: the table is empty,
    the connection is still counted, and the next one is refused. *)
Example aged_out_still_counted :
  ct_map (g_ct svc_aged) = ∅ ∧ conc (ct_eps (g_ct svc_aged)) 7 = Some 1 ∧
  x_nf (svc_nat (svc_syn 1 2000) (g_sys svc_aged)).1.2 = 0 ∧ x_nf (svc_nat (svc_syn 1 2000) (svc_start 1 xaddr_zero)).1.2 = LLB_NAT_DST.
Proof. vm_compute. repeat split; reflexivity. Qed.

(** A flush by the service's address removes the client's entry of a translated
    connection and leaves the endpoint's; the client's next SYN from the same port
    is dropped, no entry is made, and one more connection is counted. *)
Example flush_by_nat_orphans :
  let s1 := svc_open (svc_syn 1 1000) (svc_start 5 xaddr_zero) in
  let f := llb_flush_ct_by_nat (λ _, 0) true svc_key 7 (keys_of (s_ct s1)) (svc_ctl (s_ct s1)) in
  let s2 := svc_open (svc_syn 1 1000) (mk_dp_sys (cl_ct f.1) (s_nat s1)) in
  f.2 = 1 ∧ size (cl_map f.1) = 1%nat ∧ cl_map f.1 !! CT_KEY_GEN (svc_syn 1 1000) = None ∧
  size (ct_map (s_ct s2)) = 1%nat ∧ conc (ct_eps (s_ct s2)) 7 = Some 2.
Proof. vm_compute. repeat split; reflexivity. Qed.

(** A connection with direct server return leaves its mark in the scratch entry of
    the reverse direction, which nothing clears: the next translated connection on
    that CPU gets it too, and the run over that direction removes its entry a
    nanosecond after it was last seen. *)
Definition dsr_syn (s : dp_sys) : xfi := (svc_nat (svc_syn 1 1000) s).1.2 <| x_dsr := 1 |>.
Definition tracked_at (now : Z) (xf : xfi) (c : ct_st) : ct_st := (dp_ct_in (dp_ct_sm (λ _ _, None) svc_l4) now xf c).1.1.1.
Example dsr_mark_strands :
  let t := 200000000000 in
  let s := svc_start 5 xaddr_zero in
  let xf := (svc_nat (svc_syn 2 2000) s).1.2 in
  let c1 := tracked_at t xf (s_ct s) in
  let c2 := tracked_at t xf (tracked_at t (dsr_syn s) (s_ct s)) in
  size (ct_map c1) = 2%nat ∧ size (cl_map (svc_age (t + 1) c1)) = 2%nat ∧
  size (ct_map c2) = 4%nat ∧ size (cl_map (svc_age (t + 1) c2)) = 3%nat ∧ cl_map (svc_age (t + 1) c2) !! xkey_of xf = None.
Proof. vm_compute. repeat split; reflexivity. Qed.

(** The limit is checked in the rules stage and the connection counted when it is
    tracked: of two CPUs that check before either counts, both open a connection of
    a rule limited to one. *)
Example two_cpus_pass_the_limit :
  let s := svc_start 1 xaddr_zero in
  let '(_, xa, na) := svc_nat (svc_syn 1 1000) s in
  let '(_, xb, nb) := dp_do_nat 0 1 (svc_syn 2 2000) na in
  let c := tracked_at 1 xb (tracked_at 1 xa ((s_ct s) <| ct_eps := nat_ep_map nb |>)) in
  live 7 (ct_map c) = 2 ∧ conc (ct_eps c) 7 = Some 2.
Proof. vm_compute. split; reflexivity. Qed.
