(* ===== verification/Pdi.v ===== *)
(** * Firewall rules: the rule table (src/common/common_pdi.h, common_pdi.c, pdi.h, src/kernel/loxilb_libdp.c)

    User space keeps the firewall's rules in a list by preference and writes the
    list into an array the kernel walks (see [KFw]). A field of a rule is a value
    with a mask, a range, or an IPv6 address with a mask; what IPv4 and IPv6 rules
    do differently is the class [PdiAddr], and what the list needs of the equality
    test it uses is the class [PdiKeyEq], which the IPv4 test meets on well-formed
    keys and the IPv6 one does not ([pdi6_other_address_equal]). The allocator's
    answers are arguments; a bpf map update fails only outside the map. *)

From stdpp Require Import base list gmap numbers sorting.
From S2P Require Import Prelude KTypes.

(** ** Fields *)

(** PDI_DEF_FIELD *)
Record pdi_tup := mk_pdi_tup { val : Z; valid : Z }.
(** PDI_DEF_RANGE_FIELD: the union's two words, [lo] is r.min and v.val, [hi] is
    r.max and v.valid. *)
Record pdi_tupr := mk_pdi_tupr { has_range : Z; lo : Z; hi : Z }.
(** PDI_DEF_ARR_FIELD(8, 16) *)
Record pdi_tuparr := mk_pdi_tuparr { val6 : list Z; valid6 : list Z }.

#[export] Instance pdi_tup_eq_dec : EqDecision pdi_tup.
Proof. solve_decision. Defined.
#[export] Instance pdi_tupr_eq_dec : EqDecision pdi_tupr.
Proof. solve_decision. Defined.
#[export] Instance pdi_tuparr_eq_dec : EqDecision pdi_tuparr.
Proof. solve_decision. Defined.

Definition tup_zero : pdi_tup := mk_pdi_tup 0 0.
Definition tupr_zero : pdi_tupr := mk_pdi_tupr 0 0 0.
Definition tuparr_zero : pdi_tuparr := mk_pdi_tuparr (zrep 16 0) (zrep 16 0).

(** A packet's field [v1] against a rule's [v2]. *)
Definition PDI_MATCH (v1 v2 : pdi_tup) : bool :=
  (valid v2 =? 0) || (negb (valid v2 =? 0) && (Z.land (val v1) (valid v2) =? val v2)).
Definition PDI_RMATCH (v1 v2 : pdi_tupr) : bool :=
  (negb (has_range v2 =? 0) && ((lo v1 >=? lo v2) && (lo v1 <=? hi v2))) ||
  ((has_range v2 =? 0) && ((hi v2 =? 0) || (negb (hi v2 =? 0) && (Z.land (lo v1) (hi v2) =? lo v2)))).
Definition PDI_MATCH6 (v1 v2 : pdi_tuparr) : bool :=
  forallb (λ i, negb (negb (zget (valid6 v2) i =? 0) && negb (Z.land (zget (val6 v1) i) (zget (valid6 v2) i) =? zget (val6 v2) i))) (zseq 16).

(** Two rules' fields against each other. *)
Definition PDI_MATCH_ALL (v1 v2 : pdi_tup) : bool := (valid v2 =? valid v1) && (Z.land (val v1) (valid v2) =? val v2).
Definition PDI_RMATCH_ALL (v1 v2 : pdi_tupr) : bool :=
  (has_range v1 =? has_range v2) && if negb (has_range v2 =? 0) then (lo v1 =? lo v2) && (hi v1 =? hi v2) else (hi v1 =? hi v2) && (lo v1 =? lo v2).
Definition PDI_MATCH6_ALL (v1 v2 : pdi_tuparr) : bool :=
  forallb (λ i, negb (negb (zget (valid6 v2) i =? zget (valid6 v1) i) && negb (Z.land (zget (val6 v1) i) (zget (valid6 v2) i) =? zget (val6 v2) i))) (zseq 16).

(** PDI_VAL_INIT for a field of [w] bits (valid = -1), PDI_RVAL_INIT, PDI_VAL6_INIT *)
Definition PDI_VAL_INIT (w v : Z) : pdi_tup := mk_pdi_tup v (2 ^ w - 1).
Definition PDI_RVAL_INIT (v : Z) : pdi_tupr := mk_pdi_tupr 0 v 65535.
Definition PDI_VAL6_INIT (v : list Z) : pdi_tuparr := mk_pdi_tuparr v (zrep 16 255).
(** PDI_RMATCH_COPY (the two branches of the union hold the same words) *)
Definition PDI_RMATCH_COPY (v : pdi_tupr) : pdi_tupr := if negb (has_range v =? 0) then mk_pdi_tupr (has_range v) (lo v) (hi v) else mk_pdi_tupr 0 (lo v) (hi v).

(** ** Keys *)

(** struct pdi_key with [A] = [pdi_tup], struct pdi6_key with [A] = [pdi_tuparr] *)
Record pdi_key {A : Type} := mk_pdi_key {
  dest : A; source : A; dport : pdi_tupr; sport : pdi_tupr; inport : pdi_tup; zone : pdi_tup; bd : pdi_tup; protocol : pdi_tup; nr : pdi_tup
}.
Arguments pdi_key A : clear implicits.
Arguments mk_pdi_key {A} _ _ _ _ _ _ _ _ _.
#[export] Instance pdi_key_eta {A} : RecordEta (pdi_key A) := fun r =>
  mk_pdi_key (dest r) (source r) (dport r) (sport r) (inport r) (zone r) (bd r) (protocol r) (nr r).
#[export] Instance pdi_key_eq_dec {A} `{EqDecision A} : EqDecision (pdi_key A).
Proof. solve_decision. Defined.

(** What an address field brings. *)
Class PdiAddr (A : Type) := { addr_match : A → A → bool; addr_match_all : A → A → bool; addr_zero : A }.
#[export] Instance addr_v4 : PdiAddr pdi_tup := {| addr_match := PDI_MATCH; addr_match_all := PDI_MATCH_ALL; addr_zero := tup_zero |}.
#[export] Instance addr_v6 : PdiAddr pdi_tuparr := {| addr_match := PDI_MATCH6; addr_match_all := PDI_MATCH6_ALL; addr_zero := tuparr_zero |}.

Section pdi.
Context {A : Type} `{EqDecision A} `{PdiAddr A}.

(** PDI_KEY_EQ, PDI_KEY6_EQ *)
Definition PDI_KEY_EQ (v1 v2 : pdi_key A) : bool :=
  addr_match_all (dest v1) (dest v2) && addr_match_all (source v1) (source v2) && PDI_RMATCH_ALL (dport v1) (dport v2) && PDI_RMATCH_ALL (sport v1) (sport v2) &&
  PDI_MATCH_ALL (inport v1) (inport v2) && PDI_MATCH_ALL (zone v1) (zone v2) && PDI_MATCH_ALL (protocol v1) (protocol v2) && PDI_MATCH_ALL (bd v1) (bd v2).
(** PDI_PKEY_EQ, PDI_PKEY6_EQ: a packet's key against a rule's *)
Definition PDI_PKEY_EQ (v1 v2 : pdi_key A) : bool :=
  addr_match (dest v1) (dest v2) && addr_match (source v1) (source v2) && PDI_RMATCH (dport v1) (dport v2) && PDI_RMATCH (sport v1) (sport v2) &&
  PDI_MATCH (inport v1) (inport v2) && PDI_MATCH (zone v1) (zone v2) && PDI_MATCH (protocol v1) (protocol v2) && PDI_MATCH (bd v1) (bd v2).

(** ** Rules and their list *)

(** struct pdi_data and the part of struct pdi_opts the firewall uses *)
Record pdi_data := mk_pdi_data { pref : Z; rid : Z; op : Z; o_mark : Z; o_record : Z; o_port : Z }.

(** struct pdi_rule; [vals] is its hash of values seen, in insertion order *)
Record pdi_rule := mk_pdi_rule { key : pdi_key A; data : pdi_data; vals : list (pdi_key A) }.
#[export] Instance pdi_rule_eta : RecordEta pdi_rule := fun r => mk_pdi_rule (key r) (data r) (vals r).

(** struct pdi_map: the list from [head] on, and its length as counted *)
Record pdi_map := mk_pdi_map { pm_nr : Z; rules : list pdi_rule }.

(** Same preference and an equal key *)
Definition same_rule (k : pdi_key A) (p : Z) (node : pdi_rule) : bool := (p =? pref (data node)) && PDI_KEY_EQ k (key node).

(** The walk of pdi_rule_insert: the list with the rule in its place (None: an
    equal rule is there), and the number of rules passed. *)
Fixpoint rule_place (new : pdi_rule) (l : list pdi_rule) : option (list pdi_rule) * Z :=
  match l with
  | [] => (Some [new], 0)
  | node :: l =>
      if pref (data new) >? pref (data node) then (Some (new :: node :: l), 0)
      else if same_rule (key new) (pref (data new)) node then (None, 0)
      else let '(r, n) := rule_place new l in ((node ::.) <$> r, u32 (n + 1))
  end.

Definition EEXIST : Z := 17.

Definition pdi_rule_insert (new : pdi_rule) (m : pdi_map) : pdi_map * Z * Z :=
  let '(r, n) := rule_place new (rules m) in
  match r with
  | None => (m, - EEXIST, n)
  | Some l => (mk_pdi_map (u32 (pm_nr m + 1)) l, 0, n)
  end.

(** pdi_rule_delete__: the rule taken out and the list without it, and the number
    of rules passed. *)
Fixpoint rule_take (k : pdi_key A) (p : Z) (l : list pdi_rule) : option (pdi_rule * list pdi_rule) * Z :=
  match l with
  | [] => (None, 0)
  | node :: l =>
      if same_rule k p node then (Some (node, l), 0)
      else let '(r, n) := rule_take k p l in ((λ x, (x.1, node :: x.2)) <$> r, u32 (n + 1))
  end.

(** pdi_rule_delete: also answers the values its del hook is called on. *)
Definition pdi_rule_delete (k : pdi_key A) (p : Z) (m : pdi_map) : pdi_map * Z * Z * list (pdi_key A) :=
  let '(r, n) := rule_take k p (rules m) in
  match r with
  | None => (m, -1, n, [])
  | Some (node, l) => (mk_pdi_map (u32 (pm_nr m - 1)) l, 0, n, vals node)
  end.

(** ** The array in the kernel *)

(** struct dp_fw_tact: its common action and the redirect port *)
Record dp_fw_tact := mk_dp_fw_tact { fa_act_type : Z; fa_oaux : Z; fa_cidx : Z; fa_record : Z; fa_mark : Z; fa_oport : Z }.
(** struct dp_fwv4_ent, struct dp_fwv6_ent *)
Record dp_fw_ent := mk_dp_fw_ent { e_k : pdi_key A; e_fwa : dp_fw_tact }.

Definition key_zero : pdi_key A := mk_pdi_key addr_zero addr_zero tupr_zero tupr_zero tup_zero tup_zero tup_zero tup_zero tup_zero.
Definition fwa_zero : dp_fw_tact := mk_dp_fw_tact 0 0 0 0 0 0.
Definition ent_zero : dp_fw_ent := mk_dp_fw_ent key_zero fwa_zero.
#[export] Instance ent_inhabited : Inhabited dp_fw_ent := populate ent_zero.

Definition DP_SET_DROP : Z := 0.
Definition PDI_SET_DROP : Z := 8.
Definition PDI_SET_FWD : Z := 32.
Definition PDI_SET_TRAP : Z := 64.
Definition PDI_SET_RDR : Z := 128.

(** llb_dp_ufw42_pdik and llb_dp_pdik2_ufw4 (and their IPv6 twins): every field but
    [bd] and [nr], into zeroed memory. *)
Definition llb_dp_ufw2_pdik (k : pdi_key A) : pdi_key A :=
  mk_pdi_key (dest k) (source k) (PDI_RMATCH_COPY (dport k)) (PDI_RMATCH_COPY (sport k)) (inport k) (zone k) tup_zero (protocol k) tup_zero.

Definition llb_dp_ufw2pdiop (fwa : dp_fw_tact) : pdi_data :=
  let t := fa_act_type fwa in
  let '(o, port) :=
    if t =? DP_SET_DROP then (PDI_SET_DROP, 0)
    else if t =? DP_SET_TOCP then (PDI_SET_TRAP, 0)
    else if t =? DP_SET_RDR_PORT then (PDI_SET_RDR, fa_oport fwa)
    else if t =? DP_SET_NOP then (PDI_SET_FWD, 0)
    else (0, 0) in
  mk_pdi_data (fa_oaux fwa) (fa_cidx fwa) o (fa_mark fwa) (fa_record fwa) port.

Definition llb_dp_pdiop2_ufwa (d : pdi_data) : dp_fw_tact :=
  let '(t, port) :=
    if op d =? PDI_SET_DROP then (DP_SET_DROP, 0)
    else if op d =? PDI_SET_TRAP then (DP_SET_TOCP, 0)
    else if op d =? PDI_SET_RDR then (DP_SET_RDR_PORT, u16 (o_port d))
    else if op d =? PDI_SET_FWD then (DP_SET_NOP, 0)
    else (0, 0) in
  mk_dp_fw_tact t 0 (rid d) (o_record d) (o_mark d) port.

(** The rule made of an entry of the control plane, and the entry of a rule. *)
Definition rule_of (e : dp_fw_ent) : pdi_rule := mk_pdi_rule (llb_dp_ufw2_pdik (e_k e)) (llb_dp_ufw2pdiop (e_fwa e)) [].
Definition fw_ent_of (nrf : pdi_tup) (r : pdi_rule) : dp_fw_ent := mk_dp_fw_ent ((llb_dp_ufw2_pdik (key r)) <| nr := nrf |>) (llb_dp_pdiop2_ufwa (data r)).

(** xh->ufw4 with fw_v4_map, xh->ufw6 with fw_v6_map *)
Record ufw := mk_ufw { u_map : pdi_map; u_arr : list dp_fw_ent }.

Definition EFAULT : Z := 14.

(** FOR_EACH_PDI_ENT: rule number [n] goes to place [n] of the array, the first one
    with the number of rules in [nr]; those before [from] are there already. *)
Fixpoint ufw_write (total from n : Z) (l : list pdi_rule) (arr : list dp_fw_ent) (ret : Z) : list dp_fw_ent * Z * Z :=
  match l with
  | [] => (arr, n, ret)
  | r :: l =>
      let '(arr, ret) :=
        if (n =? 0) || (n >=? from) then
          if n <? zlen arr then (zset arr n (fw_ent_of (if n =? 0 then PDI_VAL_INIT 16 (u16 total) else tup_zero) r), 0) else (arr, - EFAULT)
        else (arr, ret) in
      ufw_write total from (n + 1) l arr ret
  end.

(** memset and bpf_map_update_elem for [n] up to [entries] *)
Definition ufw_clear (n entries : Z) (arr : list dp_fw_ent) : list dp_fw_ent :=
  imap (λ i e, if (n <=? Z.of_nat i) && (Z.of_nat i <? entries) then ent_zero else e) arr.

(** llb_add_mf_map_elem__; the last answer: all connections are flushed
    (ll_map_ct_rm_any), so that they meet the new rules. *)
Definition llb_add_mf_map_elem (mem : bool) (e : dp_fw_ent) (u : ufw) : ufw * Z * bool :=
  if negb mem then (u, -1, false)
  else
    let '(m, ret, n) := pdi_rule_insert (rule_of e) (u_map u) in
    if negb (ret =? 0) then (u, if ret =? - EEXIST then 0 else -1, false)
    else
      let '(arr, _, ret) := ufw_write (pm_nr m) n 0 (rules m) (u_arr u) 0 in
      (mk_ufw m arr, ret, ret =? 0).

(** llb_del_mf_map_elem__, for a table of [entries] *)
Definition llb_del_mf_map_elem (entries : Z) (mem : bool) (e : dp_fw_ent) (u : ufw) : ufw * Z * bool :=
  if negb mem then (u, -1, false)
  else
    let r := rule_of e in
    let '(m, ret, n, _) := pdi_rule_delete (key r) (pref (data r)) (u_map u) in
    if negb (ret =? 0) then (u, -1, false)
    else
      let '(arr, n, ret) := ufw_write (pm_nr m) n 0 (rules m) (u_arr u) 0 in
      (mk_ufw m (ufw_clear n entries arr), ret, ret =? 0).

End pdi.
Arguments pdi_rule A : clear implicits.
Arguments pdi_map A : clear implicits.
Arguments dp_fw_ent A : clear implicits.
Arguments ufw A : clear implicits.

(** ** Values seen by a rule (IPv4) *)

(** pdi_rule_get__: the first rule a packet's key matches *)
Definition pdi_rule_get (k : pdi_key pdi_tup) (l : list (pdi_rule pdi_tup)) : option nat := fst <$> list_find (λ r, PDI_PKEY_EQ k (key r) = true) l.

Definition EINVAL : Z := 22.

(** pdi_add_val: the map, the answer, and whether the add hook is called *)
Definition pdi_add_val (k : pdi_key pdi_tup) (m : pdi_map pdi_tup) : pdi_map pdi_tup * Z * bool :=
  match pdi_rule_get k (rules m) with
  | None => (m, -1, false)
  | Some i =>
      match rules m !! i with
      | None => (m, -1, false)
      | Some r =>
          if decide (k ∈ vals r) then (m, - EEXIST, true)
          else (mk_pdi_map (pm_nr m) (<[i := r <| vals := vals r ++ [k] |>]> (rules m)), 0, false)
      end
  end.

Definition pdi_del_val (k : pdi_key pdi_tup) (m : pdi_map pdi_tup) : pdi_map pdi_tup * Z :=
  match pdi_rule_get k (rules m) with
  | None => (m, -1)
  | Some i =>
      match rules m !! i with
      | None => (m, -1)
      | Some r =>
          if decide (k ∈ vals r) then (mk_pdi_map (pm_nr m) (<[i := r <| vals := List.filter (λ v, negb (bool_decide (v = k))) (vals r) |>]> (rules m)), 0)
          else (m, - EINVAL)
      end
  end.

(** ** The list *)

(** The reverse order of preference *)
Definition before {A} (a b : pdi_rule A) : Prop := pref (data b) <= pref (data a).

Section list_facts.
Context {A : Type} `{EqDecision A} `{PdiAddr A}.
Implicit Types (l : list (pdi_rule A)) (r new : pdi_rule A).

(** Where a rule goes: behind the rules it passes, none of which is equal to it or
    less preferred, in front of one that is less preferred. *)
Lemma rule_place_spec new l l' n : zlen l < 4294967296 → rule_place new l = (Some l', n) →
  ∃ k, (k <= length l)%nat ∧ n = Z.of_nat k ∧ l' = take k l ++ new :: drop k l ∧
    (∀ r, r ∈ take k l → pref (data new) <= pref (data r) ∧ same_rule (key new) (pref (data new)) r = false) ∧
    (∀ r, head (drop k l) = Some r → pref (data r) < pref (data new)).
Proof.
  revert l' n. induction l as [|node l IH]; intros l' n Hlen Hp; cbn [rule_place] in Hp.
  { simplify_eq. exists 0%nat. split_and!; [done|done|done| |done]. intros r Hr. by apply not_elem_of_nil in Hr. }
  rewrite zlen_cons in Hlen. pose proof (zlen_nonneg l).
  case_test_in Hp.
  { simplify_eq. exists 0%nat. split_and!; [lia|done|done| |]; intros r Hr; [by apply not_elem_of_nil in Hr|]. cbn in Hr. simplify_eq. lia. }
  case_test_in Hp; [done|]. destruct (rule_place new l) as [[l1|] m] eqn:Er; [|done]. cbn in Hp. simplify_eq.
  destruct (IH l1 m) as (k & Hk & -> & -> & Hpass & Hnext); [lia|done|].
  exists (S k). cbn [take drop length]. split_and!; [lia| |done| |done].
  - rewrite u32_small; [lia|]. unfold zlen in *. lia.
  - intros r [->|Hr]%elem_of_cons; [|by apply Hpass]. split; [lia|done].
Qed.

Lemma rule_place_none new l n : rule_place new l = (None, n) → ∃ r, r ∈ l ∧ same_rule (key new) (pref (data new)) r = true.
Proof.
  revert n. induction l as [|node l IH]; intros n Hp; cbn [rule_place] in Hp; [done|].
  case_test_in Hp; [done|]. case_test_in Hp; [exists node; split; [by left|done]|].
  destruct (rule_place new l) as [[l1|] m] eqn:Er; [done|]. destruct (IH m eq_refl) as (r & Hr & Hs). exists r. split; [by right|done].
Qed.

(** What is taken out: the first equal rule. *)
Lemma rule_take_spec k p l r l' n : zlen l < 4294967296 → rule_take k p l = (Some (r, l'), n) →
  ∃ i, n = Z.of_nat i ∧ l !! i = Some r ∧ l' = take i l ++ drop (S i) l ∧ same_rule k p r = true ∧
    ∀ r', r' ∈ take i l → same_rule k p r' = false.
Proof.
  revert l' n. induction l as [|node l IH]; intros l' n Hlen Hp; cbn [rule_take] in Hp; [done|].
  rewrite zlen_cons in Hlen. pose proof (zlen_nonneg l).
  case_test_in Hp.
  { simplify_eq. exists 0%nat. split_and!; [done|done|done|done|]. intros r' Hr. by apply not_elem_of_nil in Hr. }
  destruct (rule_take k p l) as [[[r1 l1]|] m] eqn:Er; [|done]. cbn in Hp. simplify_eq.
  destruct (IH l1 m) as (i & -> & Hi & -> & Hs & Hno); [lia|done|].
  exists (S i). cbn [take drop]. pose proof (lookup_lt_Some _ _ _ Hi). split_and!; [|done|done|done|].
  - rewrite u32_small; [lia|]. unfold zlen in *. lia.
  - intros r' [->|Hr]%elem_of_cons; [done|by apply Hno].
Qed.

Lemma rule_take_none k p l n : rule_take k p l = (None, n) → ∀ r, r ∈ l → same_rule k p r = false.
Proof.
  revert n. induction l as [|node l IH]; intros n Hp r Hr; cbn [rule_take] in Hp; [by apply not_elem_of_nil in Hr|].
  case_test_in Hp; [done|]. destruct (rule_take k p l) as [[[r1 l1]|] m] eqn:Er; [done|].
  apply elem_of_cons in Hr as [->|Hr]; [done|by eapply IH].
Qed.

(** Insertion keeps the order of preference. *)
Lemma place_sorted new l k : StronglySorted before l → (k <= length l)%nat →
  (∀ r, r ∈ take k l → pref (data new) <= pref (data r)) → (∀ r, head (drop k l) = Some r → pref (data r) < pref (data new)) →
  StronglySorted before (take k l ++ new :: drop k l).
Proof.
  revert k. induction l as [|node l IH]; intros k Hs Hk Hpass Hnext; [rewrite take_nil, drop_nil; cbn; by repeat constructor|].
  apply StronglySorted_inv in Hs as [Hs Hall]. destruct k as [|k]; cbn [take drop app length] in *.
  - specialize (Hnext node eq_refl). constructor; [by constructor|]. rewrite list.Forall_cons. split; [unfold before; lia|].
    eapply list.Forall_impl; [done|]. intros r Hr. unfold before in *. lia.
  - constructor.
    + apply IH; [done|lia| |done]. intros r Hr. apply Hpass. by right.
    + rewrite list.Forall_app, list.Forall_cons. rewrite <- (take_drop k l) in Hall. rewrite list.Forall_app in Hall. destruct Hall as [H1 H2].
      split; [done|split; [|done]]. unfold before. apply Hpass. by left.
Qed.

Lemma take_out_sorted l i : StronglySorted before l → StronglySorted before (take i l ++ drop (S i) l).
Proof.
  revert i. induction l as [|node l IH]; intros i Hs; [by rewrite take_nil, drop_nil|].
  apply StronglySorted_inv in Hs as [Hs Hall]. destruct i as [|i]; cbn [take drop app]; [by rewrite drop_0|].
  constructor; [by apply IH|]. rewrite <- (take_drop i l), list.Forall_app in Hall. destruct Hall as [H1 H2].
  apply list.Forall_app. split; [done|]. 
  rewrite list.Forall_forall in *. intros r Hr. apply H2. rewrite list_elem_of_lookup in Hr |- *. destruct Hr as [j Hj]. rewrite lookup_drop in Hj. exists (S j). rewrite lookup_drop. by rewrite Nat.add_succ_r in *.
Qed.
End list_facts.

(** ** The array follows the list *)

Section array.
Context {A : Type} `{EqDecision A} `{PdiAddr A}.
Implicit Types (l : list (pdi_rule A)) (arr : list (dp_fw_ent A)).

(** What place [i] of the array should hold for the list [l]. *)
Definition place_of (total : Z) (l : list (pdi_rule A)) (i : Z) : dp_fw_ent A :=
  match l !! Z.to_nat i with
  | Some r => fw_ent_of (if i =? 0 then PDI_VAL_INIT 16 (u16 total) else tup_zero) r
  | None => ent_zero
  end.

Lemma ufw_write_spec total from n l arr ret : 0 <= n →
  let '(arr', n', ret') := ufw_write total from n l arr ret in
  n' = n + zlen l ∧ zlen arr' = zlen arr ∧ (n + zlen l <= zlen arr → ret = 0 → ret' = 0) ∧
  ∀ i, 0 <= i < zlen arr → zget arr' i =
    if (n <=? i) && (i <? n + zlen l) && ((i =? 0) || (i >=? from))
    then match l !! Z.to_nat (i - n) with Some r => fw_ent_of (if i =? 0 then PDI_VAL_INIT 16 (u16 total) else tup_zero) r | None => ent_zero end
    else zget arr i.
Proof.
  revert n arr ret. induction l as [|r l IH]; intros n arr ret Hn; cbn [ufw_write].
  { rewrite Z.add_0_r in *. split_and!; [done|done|done|]. intros i Hi. by replace ((n <=? i) && (i <? n)) with false by lia. }
  rewrite zlen_cons in *. pose proof (zlen_nonneg l).
  set (w := if _ || _ then _ else _). assert (∃ arr1 ret1, w = (arr1, ret1) ∧ zlen arr1 = zlen arr ∧ (n < zlen arr → ret = 0 → ret1 = 0) ∧
    ∀ i, 0 <= i < zlen arr → zget arr1 i = if (i =? n) && ((i =? 0) || (i >=? from)) then fw_ent_of (if i =? 0 then PDI_VAL_INIT 16 (u16 total) else tup_zero) r else zget arr i) as (arr1 & ret1 & -> & Hl1 & Hr1 & Hg1).
  { unfold w. destruct ((n =? 0) || (n >=? from)) eqn:Ew; [destruct (Z.ltb_spec n (zlen arr)) as [Hin|Hin]|]; eexists _, _; (split; [done|]).
    - rewrite zlen_zset. split_and!; [done|done|]. intros i Hi. destruct (decide (i = n)) as [->|Hne].
      + rewrite zget_zset_eq by lia. by rewrite Z.eqb_refl, Ew.
      + rewrite zget_zset_ne by lia. by replace (i =? n) with false by lia.
    - split_and!; [done|lia|]. intros i Hi. by replace (i =? n) with false by lia.
    - split_and!; [done|done|]. intros i Hi. destruct (decide (i = n)) as [->|Hne]; [by rewrite Ew, andb_false_r|by replace (i =? n) with false by lia]. }
  specialize (IH (n + 1) arr1 ret1). destruct (ufw_write total from (n + 1) l arr1 ret1) as [[arr' n'] ret'].
  destruct IH as (-> & Hl & Hr & Hg); [lia|]. split_and!; [lia|congruence|intros; apply Hr; [lia|apply Hr1; lia]|].
  intros i Hi. rewrite Hg by lia. rewrite Hg1 by lia. destruct (decide (i = n)) as [->|Hne].
  - replace (n + 1 <=? n) with false by lia. cbn [andb]. replace (n <=? n) with true by lia. replace (n <? n + (1 + zlen l)) with true by lia.
    rewrite Z.eqb_refl. cbn [andb]. by rewrite Z.sub_diag.
  - replace (i =? n) with false by lia. cbn [andb]. replace (n <=? i) with (n + 1 <=? i) by lia. replace (n + (1 + zlen l)) with (n + 1 + zlen l) by lia.
    destruct ((n + 1 <=? i) && _) eqn:Eb; [|done]. cbn [andb]. case_match; [|done].
    replace (Z.to_nat (i - n)) with (S (Z.to_nat (i - (n + 1)))) by lia. done.
Qed.

Lemma zget_clear n entries arr i : 0 <= i < zlen arr → zget (ufw_clear n entries arr) i = if (n <=? i) && (i <? entries) then ent_zero else zget arr i.
Proof.
  intros Hi. unfold ufw_clear, zget. destruct (arr !! Z.to_nat i) as [e|] eqn:He; [|apply lookup_ge_None_1 in He; unfold zlen in *; lia].
  apply list_lookup_total_correct. rewrite list_lookup_imap, He. cbn. rewrite (list_lookup_total_correct arr _ e) by done. by rewrite Z2Nat.id by lia.
Qed.

Lemma zlen_clear n entries arr : zlen (ufw_clear n entries arr) = zlen arr.
Proof. unfold ufw_clear, zlen. by rewrite length_imap. Qed.

(** The two tables agree, for a table of which the first [entries] places are
    looked after: the list is in order of preference and counted, the array holds
    it rule by rule as far as it goes, and no other rule in its first [entries]
    places. *)
Record synced (entries : Z) (u : ufw A) : Prop := {
  sy_sorted : StronglySorted before (rules (u_map u));
  sy_count : pm_nr (u_map u) = zlen (rules (u_map u));
  sy_few : zlen (rules (u_map u)) < 4294967296;
  sy_fits : 0 <= entries <= zlen (u_arr u) ∧ zlen (u_arr u) < 65536;
  sy_arr : ∀ i, 0 <= i < zlen (u_arr u) → i < zlen (rules (u_map u)) ∨ i < entries → zget (u_arr u) i = place_of (pm_nr (u_map u)) (rules (u_map u)) i;
  sy_bd : ∀ r, r ∈ rules (u_map u) → bd (key r) = tup_zero
}.

Lemma lookup_take_app l k r i : (k <= length l)%nat → (i < k)%nat → (take k l ++ r) !! i = l !! i.
Proof. intros Hk Hi. rewrite lookup_app_l by (rewrite length_take; lia). by apply lookup_take_lt. Qed.

(** Writing a list that agrees with the old one before [from]. *)
Lemma rewrite_synced total total0 from l l0 arr : 0 <= from <= zlen l →
  (∀ i, 0 <= i < from → l !! Z.to_nat i = l0 !! Z.to_nat i) → (∀ i, 0 <= i < zlen arr → i < from → zget arr i = place_of total0 l0 i) →
  let '(arr', n', ret') := ufw_write total from 0 l arr 0 in
  n' = zlen l ∧ zlen arr' = zlen arr ∧ (zlen l <= zlen arr → ret' = 0) ∧
  ∀ i, 0 <= i < zlen arr → zget arr' i = if i <? zlen l then place_of total l i else zget arr i.
Proof.
  intros Hf Hsame Harr. pose proof (ufw_write_spec total from 0 l arr 0) as Hw.
  destruct (ufw_write total from 0 l arr 0) as [[arr' n'] ret']. destruct Hw as (-> & Hlen & Hr & Hg); [lia|].
  split_and!; [lia|done|intros; apply Hr; [lia|done]|]. intros i Hi. rewrite Hg by done. rewrite Z.sub_0_r. replace (0 <=? i) with true by lia. rewrite Z.add_0_l. cbn [andb].
  destruct (i <? zlen l) eqn:El; cbn [andb]; [|done]. destruct ((i =? 0) || (i >=? from)) eqn:E; [done|].
  rewrite Harr by lia. unfold place_of. rewrite Hsame by lia. replace (i =? 0) with false by lia. done.
Qed.
End array.

Lemma elem_of_take_in {B} (l : list B) k x : x ∈ take k l → x ∈ l.
Proof. intros Hx. rewrite <- (take_drop k l). apply elem_of_app. by left. Qed.
Lemma elem_of_drop_in {B} (l : list B) k x : x ∈ drop k l → x ∈ l.
Proof. intros Hx. rewrite <- (take_drop k l). apply elem_of_app. by right. Qed.

Section steps.
Context {A : Type} `{EqDecision A} `{PdiAddr A}.
Implicit Types (u : ufw A) (e : dp_fw_ent A).

(** An add puts the rule in its place or finds it there already; the array has a
    place for it or the call says that it has not. *)
Lemma add_effect entries u e : synced entries u → zlen (rules (u_map u)) + 1 < 4294967296 →
  let l := rules (u_map u) in
  let new := rule_of e in
  llb_add_mf_map_elem true e u = (u, 0, false) ∧ (∃ r, r ∈ l ∧ same_rule (key new) (pref (data new)) r = true) ∨
  ∃ u' k ret, llb_add_mf_map_elem true e u = (u', ret, ret =? 0) ∧ (zlen l < zlen (u_arr u) → ret = 0) ∧ synced entries u' ∧ (k <= length l)%nat ∧
    rules (u_map u') = take k l ++ new :: drop k l ∧ zlen (u_arr u') = zlen (u_arr u) ∧
    (∀ r, r ∈ take k l → same_rule (key new) (pref (data new)) r = false) ∧ ∀ i, zlen l < i < zlen (u_arr u) → zget (u_arr u') i = zget (u_arr u) i.
Proof.
  intros [Hs Hc Hfew Hf Ha Hbd] Hroom l new. unfold llb_add_mf_map_elem, pdi_rule_insert. cbn [negb].
  destruct (rule_place (rule_of e) (rules (u_map u))) as [[l'|] n] eqn:Ep.
  2: { left. split; [done|]. by eapply rule_place_none. }
  right. apply rule_place_spec in Ep as (k & Hk & -> & -> & Hpass & Hnext); [|lia]. cbn [Z.eqb negb]. fold l in Hk, Hpass, Hnext, Hroom, Hs, Hc, Ha, Hfew |- *. fold new in Hpass, Hnext |- *.
  assert (Hlen : zlen (take k l ++ new :: drop k l) = zlen l + 1) by (rewrite zlen_app, zlen_cons; unfold zlen; rewrite length_take, length_drop; lia).
  pose proof (zlen_nonneg l). rewrite Hc, u32_small by lia. fold l.
  pose proof (rewrite_synced (zlen l + 1) (pm_nr (u_map u)) (Z.of_nat k) (take k l ++ new :: drop k l) l (u_arr u)) as Hw.
  cbn [pm_nr rules]. destruct (ufw_write _ _ _ _ _ _) as [[arr' n'] ret']. destruct Hw as (_ & Hla & Hret & Hga).
  { unfold zlen in *. lia. }
  { intros i Hi. apply lookup_take_app; lia. }
  { intros i Hi Hik. apply Ha; [done|]. left. unfold zlen. lia. }
  eexists _, k, ret'. split; [done|]. split_and!; try done; [intros; apply Hret; lia| |intros r Hr; by apply Hpass|intros i Hi; rewrite Hga by lia; by replace (i <? zlen (take k l ++ new :: drop k l)) with false by lia].
  constructor; cbn [u_map u_arr pm_nr rules]; [|done|lia|by rewrite Hla| |].
  - apply place_sorted; [done|done| |done]. intros r Hr. by apply Hpass.
  - intros i Hi Hin. rewrite Hla in Hi. rewrite Hga by done. destruct (Z.ltb_spec i (zlen (take k l ++ new :: drop k l))); [done|]. rewrite Ha by lia. unfold place_of. by rewrite !lookup_ge_None_2 by (unfold zlen in *; lia).
  - intros r [Hr|[->|Hr]%elem_of_cons]%elem_of_app; [|done|]; apply Hbd; fold l; [by eapply elem_of_take_in|by eapply elem_of_drop_in].
Qed.

(** A delete takes the first equal rule out, or finds none. *)
Lemma del_effect entries u e : synced entries u →
  let l := rules (u_map u) in
  let r0 := rule_of e in
  llb_del_mf_map_elem entries true e u = (u, -1, false) ∧ (∀ r, r ∈ l → same_rule (key r0) (pref (data r0)) r = false) ∨
  ∃ u' i r ret, llb_del_mf_map_elem entries true e u = (u', ret, ret =? 0) ∧ (zlen l <= zlen (u_arr u) + 1 → ret = 0) ∧ synced entries u' ∧ l !! i = Some r ∧
    rules (u_map u') = take i l ++ drop (S i) l ∧ zlen (u_arr u') = zlen (u_arr u) ∧
    same_rule (key r0) (pref (data r0)) r = true ∧ (∀ r', r' ∈ take i l → same_rule (key r0) (pref (data r0)) r' = false) ∧
    ∀ j, entries <= j → zlen l <= j < zlen (u_arr u) → zget (u_arr u') j = zget (u_arr u) j.
Proof.
  intros [Hs Hc Hfew Hf Ha Hbd] l r0. unfold llb_del_mf_map_elem, pdi_rule_delete. cbn [negb].
  fold r0. destruct (rule_take (key r0) (pref (data r0)) (rules (u_map u))) as [[[r l']|] n] eqn:Ep.
  2: { left. split; [done|]. by eapply rule_take_none. }
  right. apply rule_take_spec in Ep as (i & -> & Hi & -> & Hsame & Hno); [|lia]. cbn [Z.eqb negb]. fold l in Hi, Hno, Hs, Hc, Ha, Hfew |- *.
  pose proof (lookup_lt_Some _ _ _ Hi) as Hil.
  assert (Hlen : zlen (take i l ++ drop (S i) l) = zlen l - 1) by (rewrite zlen_app; unfold zlen; rewrite length_take, length_drop; lia).
  rewrite Hc, u32_small by (unfold zlen in *; lia). fold l.
  pose proof (rewrite_synced (zlen l - 1) (pm_nr (u_map u)) (Z.of_nat i) (take i l ++ drop (S i) l) l (u_arr u)) as Hw.
  cbn [pm_nr rules]. destruct (ufw_write _ _ _ _ _ _) as [[arr' n'] ret']. destruct Hw as (-> & Hla & Hret & Hga).
  { unfold zlen in *. lia. }
  { intros j Hj. apply lookup_take_app; lia. }
  { intros j Hj Hij. apply Ha; [done|]. left. unfold zlen. lia. }
  rewrite Hlen in *. eexists _, i, r, ret'. split; [done|]. split_and!; try done; [intros; apply Hret; lia| |cbn; by rewrite zlen_clear|].
  2: { intros j Hj Hjl. cbn [u_arr]. rewrite zget_clear by lia. replace ((zlen l - 1 <=? j) && (j <? entries)) with false by lia. rewrite Hga by lia. by replace (j <? zlen l - 1) with false by lia. }
  constructor; cbn [u_map u_arr pm_nr rules]; rewrite ?zlen_clear; [|done|lia|by rewrite Hla| |].
  - by apply take_out_sorted.
  - intros j Hj Hin. rewrite zget_clear by done. rewrite Hla in Hj. destruct ((zlen l - 1 <=? j) && (j <? entries)) eqn:E.
    + unfold place_of. rewrite lookup_ge_None_2; [done|]. unfold zlen in *. lia.
    + rewrite Hga by done. by replace (j <? zlen l - 1) with true by lia.
  - intros r' [Hr|Hr]%elem_of_app; apply Hbd; fold l; [by eapply elem_of_take_in|by eapply elem_of_drop_in].
Qed.

(** The control plane's calls, with memory or without, whether the array has a place
    or not; rules are counted in 32 bits. [entries] is what a delete clears. *)
Inductive ufw_step (entries : Z) (u : ufw A) : ufw A → Prop :=
| ufw_add mem e : zlen (rules (u_map u)) + 1 < 4294967296 → ufw_step entries u (llb_add_mf_map_elem mem e u).1.1
| ufw_del mem e : ufw_step entries u (llb_del_mf_map_elem entries mem e u).1.1.

Lemma ufw_step_synced entries u u' : synced entries u → ufw_step entries u u' → synced entries u'.
Proof.
  intros Hu [mem e Hroom|mem e]; destruct mem; try done.
  - destruct (add_effect entries u e Hu Hroom) as [[-> _]|(u1 & k & ret & -> & _ & Hu1 & _)]; done.
  - destruct (del_effect entries u e Hu) as [[-> _]|(u1 & i & r & ret & -> & _ & Hu1 & _)]; done.
Qed.

Definition ufw_empty (size : Z) : ufw A := mk_ufw (mk_pdi_map 0 []) (zrep size ent_zero).

Lemma ufw_empty_synced entries size : 0 <= entries <= size → size < 65536 → synced entries (ufw_empty size).
Proof.
  intros He Hs. constructor; unfold ufw_empty; cbn [u_map u_arr pm_nr rules]; [apply SSorted_nil|done|done|rewrite zlen_zrep by lia; lia| |by intros r Hr%not_elem_of_nil].
  intros i Hi _. rewrite zlen_zrep in Hi by lia. by rewrite zget_zrep by lia.
Qed.
End steps.

(** ** Equal keys *)

(** The value lies under its mask, as PDI_MATCH_INIT makes it. *)
Definition tup_wf (v : pdi_tup) : Prop := Z.land (val v) (valid v) = val v.

(** What the equality test of an address field guarantees on well-formed ones. *)
Class PdiKeyEq (A : Type) `{PdiAddr A} := { addr_wf : A → Prop; addr_eq_spec : ∀ a b, addr_wf a → addr_wf b → addr_match_all a b = true ↔ a = b }.

Lemma match_all_spec a b : tup_wf a → tup_wf b → PDI_MATCH_ALL a b = true ↔ a = b.
Proof.
  destruct a as [v1 m1], b as [v2 m2]. unfold tup_wf, PDI_MATCH_ALL. cbn. intros H1 H2. rewrite andb_true_iff, !Z.eqb_eq. split; [|by intros; simplify_eq].
  intros [-> Heq]. by rewrite H1 in Heq; simplify_eq.
Qed.
#[export] Instance key_eq_v4 : PdiKeyEq pdi_tup := {| addr_wf := tup_wf; addr_eq_spec := match_all_spec |}.

Lemma rmatch_all_spec a b : PDI_RMATCH_ALL a b = true ↔ a = b.
Proof.
  destruct a as [h1 l1 u1], b as [h2 l2 u2]. unfold PDI_RMATCH_ALL. cbn. rewrite andb_true_iff, Z.eqb_eq. split.
  - intros [-> Hu]. destruct (negb (h2 =? 0)); apply andb_true_iff in Hu as [?%Z.eqb_eq ?%Z.eqb_eq]; congruence.
  - intros. simplify_eq. split; [done|]. by destruct (negb (h2 =? 0)); rewrite !Z.eqb_refl.
Qed.

Lemma match_all_refl a : tup_wf a → PDI_MATCH_ALL a a = true.
Proof. intros Ha. by apply match_all_spec. Qed.
Lemma rmatch_all_refl a : PDI_RMATCH_ALL a a = true.
Proof. by apply rmatch_all_spec. Qed.

Section roundtrip.
Context {A : Type} `{EqDecision A} `{PdiAddr A} `{!PdiKeyEq A}.
Implicit Types (u : ufw A) (e : dp_fw_ent A) (k : pdi_key A).

Definition key_wf k : Prop := addr_wf (dest k) ∧ addr_wf (source k) ∧ tup_wf (inport k) ∧ tup_wf (zone k) ∧ tup_wf (protocol k) ∧ bd k = tup_zero ∧ nr k = tup_zero.
Definition rules_wf u : Prop := ∀ r, r ∈ rules (u_map u) → key_wf (key r).

Lemma key_eq_spec k1 k2 : key_wf k1 → key_wf k2 → PDI_KEY_EQ k1 k2 = true ↔ k1 = k2.
Proof.
  destruct k1 as [a1 b1 c1 d1 i1 z1 e1 p1 n1], k2 as [a2 b2 c2 d2 i2 z2 e2 p2 n2]. unfold key_wf, PDI_KEY_EQ. cbn.
  intros (? & ? & ? & ? & ? & -> & ->) (? & ? & ? & ? & ? & -> & ->).
  rewrite !andb_true_iff, !addr_eq_spec, !rmatch_all_spec, !match_all_spec by done. split; [by intros [[[[[[[-> ->] ->] ->] ->] ->] ->] _]|]. by intros [= -> -> -> -> -> -> ->].
Qed.

Lemma same_rule_spec k p r : key_wf k → key_wf (key r) → same_rule k p r = true ↔ pref (data r) = p ∧ key r = k.
Proof. intros Hk Hr. unfold same_rule. rewrite andb_true_iff, Z.eqb_eq, key_eq_spec by done. naive_solver. Qed.

Definition ent_wf e : Prop := addr_wf (dest (e_k e)) ∧ addr_wf (source (e_k e)) ∧ tup_wf (inport (e_k e)) ∧ tup_wf (zone (e_k e)) ∧ tup_wf (protocol (e_k e)).
Lemma rule_of_wf e : ent_wf e → key_wf (key (rule_of e)).
Proof. intros (? & ? & ? & ? & ?). by split_and!. Qed.

Lemma ufw_ext entries u u' : synced entries u → synced entries u' → rules (u_map u') = rules (u_map u) → zlen (u_arr u') = zlen (u_arr u) →
  (∀ i, entries <= i → zlen (rules (u_map u)) <= i < zlen (u_arr u) → zget (u_arr u') i = zget (u_arr u) i) → u' = u.
Proof.
  destruct u as [[n l] arr], u' as [[n' l'] arr']. intros [_ Hc _ _ Ha _] [_ Hc' _ _ Ha' _] Hl Hlen Hout. cbn in *. subst. f_equal.
  apply (list_eq_same_length _ _ (length arr)); [done|unfold zlen in *; lia|]. intros i x y Hi Hx Hy.
  assert (Hx' : zget arr' (Z.of_nat i) = x) by (unfold zget; rewrite Nat2Z.id; by apply list_lookup_total_correct). assert (Hy' : zget arr (Z.of_nat i) = y) by (unfold zget; rewrite Nat2Z.id; by apply list_lookup_total_correct).
  rewrite <- Hx', <- Hy'. assert (0 <= Z.of_nat i < zlen arr) by (unfold zlen; lia). destruct (decide (Z.of_nat i < zlen l ∨ Z.of_nat i < entries)) as [Hin|Hin]; [rewrite Ha, Ha' by (done || lia); done|apply Hout; lia].
Qed.
End roundtrip.

(** C11. Firewall rules are added once and deleted exactly (IPv4, masks
    applied to their values, the array with a free place): without memory an add
    fails and changes nothing; an add of a rule that is there, with its preference,
    its key and whatever action, changes nothing, answers 0 as a success does, and
    has no connections flushed; any other add succeeds, has the connections flushed,
    and deleting the rule again restores the list and the kernel's array as they
    were. *)
Theorem fw_rule_add_delete entries (u : ufw pdi_tup) e : synced entries u → rules_wf u → ent_wf e → zlen (rules (u_map u)) < entries →
  let new := rule_of e in
  llb_add_mf_map_elem false e u = (u, -1, false) ∧
  (llb_add_mf_map_elem true e u = (u, 0, false) ∧ (∃ r, r ∈ rules (u_map u) ∧ pref (data r) = pref (data new) ∧ key r = key new) ∨
   ∃ u', llb_add_mf_map_elem true e u = (u', 0, true) ∧ new ∈ rules (u_map u') ∧ rules (u_map u') ≡ₚ new :: rules (u_map u) ∧
     llb_del_mf_map_elem entries true e u' = (u, 0, true)).
Proof.
  intros Hu Hwf He Hroom new. split; [done|]. pose proof (rule_of_wf e He) as Hnew. pose proof (sy_fits _ _ Hu) as Hfit. destruct (add_effect entries u e Hu ltac:(lia)) as [[Hadd (r & Hr & Hs)]|(u' & k & ret & Hadd & Hret & Hu' & Hk & Hl & Hlen & Hno & Hfr)].
  { left. split; [done|]. exists r. split; [done|]. apply same_rule_spec in Hs; [done|done|by apply Hwf]. }
  right. exists u'. rewrite Hret in Hadd by lia. split; [done|]. fold new in Hl, Hno |- *. rewrite Hl. set (l := rules (u_map u)) in *. split_and!.
  { apply elem_of_app. right. by left. }
  { by rewrite <- Permutation_middle, take_drop. }
  assert (Hself : same_rule (key new) (pref (data new)) new = true) by (by apply same_rule_spec).
  assert (Hzl : zlen (rules (u_map u')) = zlen l + 1) by (rewrite Hl, zlen_app, zlen_cons; unfold zlen; rewrite length_take, length_drop; lia).
  destruct (del_effect entries u' e Hu') as [[_ Hnone]|(u2 & i & r & ret2 & Hdel & Hret2 & Hu2 & Hi & Hl2 & Hlen2 & Hs & Hfirst & Hfr2)].
  { fold new in Hnone. rewrite (Hnone new) in Hself; [done|]. rewrite Hl. apply elem_of_app. right. by left. }
  fold new in Hs, Hfirst. assert (i = k) as ->.
  { destruct (Nat.lt_trichotomy i k) as [Hlt|[->|Hgt]]; [|done|].
    - rewrite Hl, lookup_take_app in Hi by lia. rewrite (Hno r) in Hs; [done|]. apply list_elem_of_lookup. exists i. by rewrite lookup_take_lt.
    - rewrite (Hfirst new) in Hself; [done|]. apply list_elem_of_lookup. exists k. rewrite lookup_take_lt by done. rewrite Hl, lookup_app_r; rewrite length_take; [|lia]. by replace (k - k `min` length l)%nat with 0%nat by lia. }
  rewrite Hdel, Hret2 by (rewrite Hzl, Hlen; lia). assert (u2 = u) as ->; [|done]. apply (ufw_ext entries); [done|done| |lia|].
  - rewrite Hl2, Hl. assert (length (take k l) = k) as Hkl by (rewrite length_take; lia).
    rewrite take_app_le by lia. rewrite take_ge by lia. replace (S k) with (length (take k l) + 1)%nat by lia. rewrite drop_app_add. cbn [drop]. by rewrite drop_0, take_drop.
  - intros j Hj Hjl. fold l in Hjl. rewrite Hfr2 by lia. apply Hfr. fold l. lia.
Qed.

Definition demo_key (net : Z) : pdi_key pdi_tup := mk_pdi_key (mk_pdi_tup net 4294967040) tup_zero (mk_pdi_tupr 1 80 90) tupr_zero tup_zero (mk_pdi_tup 1 65535) tup_zero (mk_pdi_tup 6 255) tup_zero.
Definition demo_ent (net prio act : Z) : dp_fw_ent pdi_tup := mk_dp_fw_ent (demo_key net) (mk_dp_fw_tact act prio net 0 0 0).

Lemma fw_rule_add_delete_witness : let u := (llb_add_mf_map_elem true (demo_ent 167772160 7 0) (ufw_empty 8)).1.1 in
  ∃ u', llb_add_mf_map_elem true (demo_ent 167772416 9 12) u = (u', 0, true) ∧ llb_del_mf_map_elem 8 true (demo_ent 167772416 9 12) u' = (u, 0, true).
Proof.
  intros u. assert (Hu : synced 8 u) by (apply (ufw_step_synced 8 (ufw_empty 8)); [by apply ufw_empty_synced|by apply ufw_add]).
  destruct (fw_rule_add_delete 8 u (demo_ent 167772416 9 12)) as [_ [[Hx _]|(u' & Ha & _ & _ & Hd)]].
  - exact Hu.
  - intros r Hr. assert (Forall (λ r, key_wf (key r)) (rules (u_map u))) as Hf by (vm_compute; repeat constructor). rewrite list.Forall_forall in Hf. by apply Hf.
  - by vm_compute.
  - by vm_compute.
  - exfalso. apply (f_equal snd) in Hx. vm_compute in Hx. discriminate.
  - by exists u'.
Defined.

(** ** IPv6 rules *)

(** PDI_MATCH6_ALL takes any two addresses with the same mask for equal. *)
Lemma pdi6_other_address_equal a b : valid6 a = valid6 b → PDI_MATCH6_ALL a b = true.
Proof. intros Hv. apply List.forallb_forall. intros i _. rewrite Hv, Z.eqb_refl. done. Qed.

(** The test for a rule that is there confuses addresses: of two IPv6 rules that
    differ in their addresses only (same prefix lengths, same preference) the second
    is not added, although the call says it was, and deleting it deletes the first. *)
Theorem fw6_rules_confused (e1 e2 : dp_fw_ent pdi_tuparr) size : 0 < size < 65536 →
  valid6 (dest (e_k e1)) = valid6 (dest (e_k e2)) → valid6 (source (e_k e1)) = valid6 (source (e_k e2)) → fa_oaux (e_fwa e1) = fa_oaux (e_fwa e2) →
  dport (e_k e1) = dport (e_k e2) → sport (e_k e1) = sport (e_k e2) → inport (e_k e1) = inport (e_k e2) → zone (e_k e1) = zone (e_k e2) → protocol (e_k e1) = protocol (e_k e2) →
  tup_wf (inport (e_k e1)) → tup_wf (zone (e_k e1)) → tup_wf (protocol (e_k e1)) →
  let u1 := (llb_add_mf_map_elem true e1 (ufw_empty size)).1.1 in
  rules (u_map u1) = [rule_of e1] ∧ llb_add_mf_map_elem true e2 u1 = (u1, 0, false) ∧ (llb_del_mf_map_elem size true e2 u1).1 = (ufw_empty size, 0).
Proof.
  intros Hs Hd Hsrc Hp Hdp Hsp Hi Hz Hpr Wi Wz Wp.
  assert (Hsame : same_rule (key (rule_of e2)) (pref (data (rule_of e2))) (rule_of e1) = true).
  { unfold same_rule. assert (pref (data (rule_of e1)) = pref (data (rule_of e2))) as ->.
    { unfold rule_of, llb_dp_ufw2pdiop. cbn [data]. repeat case_match; done. }
    rewrite Z.eqb_refl. unfold PDI_KEY_EQ, rule_of, llb_dp_ufw2_pdik. cbn -[PDI_MATCH6_ALL PDI_MATCH_ALL PDI_RMATCH_ALL]. rewrite !pdi6_other_address_equal by done.
    rewrite Hdp, Hsp, Hi, Hz, Hpr in *. rewrite !rmatch_all_refl. by rewrite !match_all_refl. }
  assert (Hu1 : synced size (llb_add_mf_map_elem true e1 (ufw_empty size)).1.1 ∧ rules (u_map (llb_add_mf_map_elem true e1 (ufw_empty size)).1.1) = [rule_of e1] ∧
    zlen (u_arr (llb_add_mf_map_elem true e1 (ufw_empty size)).1.1) = size).
  { destruct (add_effect size (ufw_empty size) e1) as [[_ (r & Hr & _)]|(u' & k & ret & -> & _ & Hu' & Hk & Hl & Hlen & _)]; [apply ufw_empty_synced; lia|done|by apply not_elem_of_nil in Hr|].
    cbn [fst]. split_and!; [done|rewrite Hl; cbn; by rewrite take_nil, drop_nil|]. rewrite Hlen. cbn. apply zlen_zrep. lia. }
  cbn zeta. destruct Hu1 as (Hu1 & Hl1 & Hlen1). set (u1 := (llb_add_mf_map_elem true e1 (ufw_empty size)).1.1) in *. clearbody u1. split_and!; [done| |].
  - unfold llb_add_mf_map_elem, pdi_rule_insert. cbn [negb]. rewrite Hl1. cbn [rule_place]. rewrite Hsame.
    replace (pref (data (rule_of e2)) >? pref (data (rule_of e1))) with false; [done|]. unfold same_rule in Hsame. apply andb_true_iff in Hsame as [?%Z.eqb_eq _]. lia.
  - destruct (del_effect size u1 e2 Hu1) as [[_ Hno]|(u2 & i & r & ret & -> & Hret & Hu2 & Hi2 & Hl2 & Hlen2 & _ & _ & Hfr)].
    { rewrite Hl1 in Hno. rewrite (Hno (rule_of e1)) in Hsame; [done|by left]. }
    rewrite Hl1 in Hi2, Hl2. destruct i as [|i]; [|done]. cbn in Hl2. cbn [fst]. rewrite Hret by (rewrite Hl1; change (zlen [_]) with 1; lia). f_equal. apply (ufw_ext size); [apply ufw_empty_synced; lia|done|done| |].
    + rewrite Hlen2, Hlen1. cbn. symmetry. apply zlen_zrep. lia.
    + intros j Hj Hjl. cbn in Hjl. rewrite zlen_zrep in Hjl by lia. lia.
Qed.
