(* ===== verification/KFw.v ===== *)
(** * Kernel datapath: the firewall (src/kernel/llb_kern_fw.c, dp_ingress_ct_main of src/kernel/llb_kern_devif.c)

    The firewall program walks the array [Pdi] keeps, a window of it per run: it
    looks at up to 400 IPv4 (100 IPv6) rules and tail-calls the tracking program,
    which tail-calls it again while fw_lid says there are rules left. A tail call
    fails once the chain is too long (the helper's documentation gives 32): then
    the statement after it runs. The number of calls the chain still has is an
    argument of the stage. Theorems: the verdict is that of the most preferred
    rule that matches, over every run of the control plane's adds and deletes; and
    what happens to packets when the chain is too short for the table. *)

From stdpp Require Import base list gmap numbers sorting.
From S2P Require Import Prelude KTypes Pdi.

Definition LLB_FW4_MAP_ENTRIES : Z := 8192.
Definition LLB_FW6_MAP_ENTRIES : Z := 1024.
Definition DP_MAX_LOOPS_PER_FWLKUP : Z := 400.
Definition DP_MAX_LOOPS_PER_FW6LKUP : Z := 100.
Definition LLB_DP_RES_HIT : Z := 64.
Definition LLB_DP_FW_HIT : Z := 128.
Definition LLB_PIPE_RC_FW_RDR : Z := 8.
Definition LLB_PIPE_RC_TCALL_ERR : Z := 32768.

(** ** The packet *)

(** The packet's metadata with the further fields of its pm part that the firewall
    uses: iport, bd, fw_lid, fw_mid. *)
Record fwp := mk_fwp { f_xf : xfi; f_iport : Z; f_bd : Z; fw_lid : Z; fw_mid : Z }.
#[export] Instance fwp_eta : RecordEta fwp := fun r => mk_fwp (f_xf r) (f_iport r) (f_bd r) (fw_lid r) (fw_mid r).

(** bpf_htons on a little-endian machine *)
Definition bswap16 (z : Z) : Z := Z.lor (Z.shiftl (Z.land z 255) 8) (Z.land (Z.shiftr z 8) 255).
(** The 16 bytes of an address in memory *)
Definition word_bytes (w : Z) : list Z := [Z.land w 255; Z.land (Z.shiftr w 8) 255; Z.land (Z.shiftr w 16) 255; Z.land (Z.shiftr w 24) 255].
Definition addr_bytes (a : xaddr) : list Z := let '(a0, a1, a2, a3) := a in word_bytes a0 ++ word_bytes a1 ++ word_bytes a2 ++ word_bytes a3.

(** What differs between dp_do_fw4_main and dp_do_fw6_main: the packet's address
    field, the window and the table's size. *)
Class FwAddr (A : Type) `{PdiAddr A} := { pkt_addr : xaddr → A; fw_loops : Z; fw_entries : Z }.
Arguments fw_loops A {_ _}.
Arguments fw_entries A {_ _}.
#[export] Instance fw_v4 : FwAddr pdi_tup := {| pkt_addr a := PDI_VAL_INIT 32 (bswap32 (addr4 a)); fw_loops := DP_MAX_LOOPS_PER_FWLKUP; fw_entries := LLB_FW4_MAP_ENTRIES |}.
#[export] Instance fw_v6 : FwAddr pdi_tuparr := {| pkt_addr a := PDI_VAL6_INIT (addr_bytes a); fw_loops := DP_MAX_LOOPS_PER_FW6LKUP; fw_entries := LLB_FW6_MAP_ENTRIES |}.

Section fw.
Context {A : Type} `{EqDecision A} `{PdiAddr A} `{!FwAddr A}.

Definition pkt_key (p : fwp) : pdi_key A :=
  let xf := f_xf p in
  mk_pdi_key (pkt_addr (x_daddr xf)) (pkt_addr (x_saddr xf)) (PDI_RVAL_INIT (bswap16 (x_dest xf))) (PDI_RVAL_INIT (bswap16 (x_source xf)))
    (PDI_VAL_INIT 16 (f_iport p)) (PDI_VAL_INIT 16 (x_zone xf)) (PDI_VAL_INIT 16 (f_bd p)) (PDI_VAL_INIT 8 (x_proto xf)) tup_zero.

(** ** One window *)

(** How the loop ends: the index is outside the map, no rule in this window, a rule. *)
Inductive fw_scan := FwMiss | FwNone | FwHit (e : dp_fw_ent A).

(** The loop from iteration [i], [n] to go, and fw_mid as it leaves it. *)
Fixpoint fw_loop (n : nat) (arr : list (dp_fw_ent A)) (k : pdi_key A) (lid i mid : Z) : fw_scan * Z :=
  match n with
  | O => (FwNone, mid)
  | S n =>
      let idx := lid + i in
      match arr !! Z.to_nat idx with
      | None => (FwMiss, mid)
      | Some e =>
          if negb (idx =? 0) && (i + lid >=? mid) then (FwNone, mid)
          else
            let mid := if idx =? 0 then val (nr (e_k e)) else mid in
            if negb (val (zone (e_k e)) =? 0) && PDI_PKEY_EQ k (e_k e) then (FwHit e, mid)
            else fw_loop n arr k lid (i + 1) mid
      end
  end.

(** What a rule does to the packet it matches. *)
Definition fw_hit (act : dp_fw_tact) (p : fwp) : fwp :=
  let t := fa_act_type act in
  let xf := (f_xf p) <| x_phit ::= (λ h, Z.lor h LLB_DP_FW_HIT) |> <| x_dp_mark := fa_mark act |> <| x_dp_rec := u8 (fa_record act) |> in
  let xf :=
    if t =? DP_SET_NOP then xf
    else
      (if t =? DP_SET_RDR_PORT then xf <| x_pipe_act ::= (λ a, Z.lor a LLB_PIPE_RDR_PRIO) |> <| x_oport := fa_oport act |>
       else if t =? DP_SET_TOCP then LLBS_PPLN_PASSC LLB_PIPE_RC_FW_RDR xf
       else LLBS_PPLN_DROPC LLB_PIPE_RC_ACT_UNK xf) <| x_phit ::= (λ h, Z.lor h LLB_DP_RES_HIT) |> in
  p <| f_xf := xf <| x_fw_rid := u16 (fa_cidx act) |> |>.

(** dp_do_fw4_main, dp_do_fw6_main up to their tail call *)
Definition dp_do_fw (arr : list (dp_fw_ent A)) (p : fwp) : fwp :=
  let '(s, mid) := fw_loop (Z.to_nat (fw_loops A)) arr (pkt_key p) (fw_lid p) 0 (fw_mid p) in
  let p := p <| fw_mid := mid |> in
  match s with
  | FwMiss => p <| fw_lid := LLB_FW4_MAP_ENTRIES |>
  | FwNone =>
      let lid := u16 (fw_lid p + fw_loops A) in
      p <| fw_lid := if (lid >=? fw_entries A) || (lid >? mid) then LLB_FW4_MAP_ENTRIES else lid |>
  | FwHit e => fw_hit (e_fwa e) (p <| fw_lid := LLB_FW4_MAP_ENTRIES |>)
  end.

End fw.

(** ** The chain of programs *)

(** The packet goes on, or a tail call failed and this is returned. *)
Inductive dp_ret := DP_PASS | DP_DROP.
Inductive fw_res := FwDone (p : fwp) | FwFailed (v : dp_ret).

Definition dp_do_fw4_main (arr : list (dp_fw_ent pdi_tup)) (p : fwp) : fwp := dp_do_fw arr p.
Definition dp_do_fw6_main (arr : list (dp_fw_ent pdi_tuparr)) (p : fwp) : fwp := dp_do_fw arr p.

Definition dp_do_fw_main (arr4 : list (dp_fw_ent pdi_tup)) (arr6 : list (dp_fw_ent pdi_tuparr)) (p : fwp) : fwp :=
  if x_v6 (f_xf p) then dp_do_fw6_main arr6 p else dp_do_fw4_main arr4 p.

(** The firewall's part of dp_ingress_ct_main with [b] tail calls left: for a packet
    with no result, rule or entry yet and rules left, on to the firewall and back. *)
Fixpoint fw_stage (b : nat) (arr4 : list (dp_fw_ent pdi_tup)) (arr6 : list (dp_fw_ent pdi_tuparr)) (p : fwp) : fw_res :=
  if has (x_phit (f_xf p)) LLB_DP_RES_HIT || has (x_phit (f_xf p)) LLB_DP_NAT_HIT || has (x_phit (f_xf p)) LLB_DP_CTM_HIT then FwDone p
  else if fw_lid p <? LLB_FW4_MAP_ENTRIES then
    match b with
    | O => FwFailed DP_PASS
    | S O => FwFailed DP_DROP
    | S (S b) => fw_stage b arr4 arr6 (dp_do_fw_main arr4 arr6 p)
    end
  else FwDone p.

(** ** The reference *)

Section reference.
Context {A : Type} `{EqDecision A} `{PdiAddr A} `{!FwAddr A}.
Implicit Types (l : list (pdi_rule A)) (p : fwp).

(** A rule applies to a packet; a rule of no zone applies to none. *)
Definition matching (k : pdi_key A) (r : pdi_rule A) : bool := negb (val (zone (key r)) =? 0) && PDI_PKEY_EQ k (key r).

(** The packet as the first matching rule of the list leaves it. *)
Definition fw_judged l p : fwp :=
  let q := p <| fw_mid := zlen l |> <| fw_lid := LLB_FW4_MAP_ENTRIES |> in
  match find (matching (pkt_key p)) l with
  | Some r => fw_hit (llb_dp_pdiop2_ufwa (data r)) q
  | None => q
  end.

Lemma rmatch_copy_id v : PDI_RMATCH_COPY v = v.
Proof. destruct v as [h l u]. unfold PDI_RMATCH_COPY. cbn [has_range lo hi]. by destruct (Z.eqb_spec h 0) as [->|]. Qed.

(** An entry of the array matches as its rule does. *)
Lemma ent_matches k nrf (r : pdi_rule A) : bd (key r) = tup_zero →
  negb (val (zone (e_k (fw_ent_of nrf r))) =? 0) && PDI_PKEY_EQ k (e_k (fw_ent_of nrf r)) = matching k r.
Proof. intros Hb. unfold matching, fw_ent_of, llb_dp_ufw2_pdik, PDI_PKEY_EQ. cbn. by rewrite !rmatch_copy_id, Hb. Qed.

(** In order of preference the first match is a most preferred one. *)
Lemma find_preferred (f : pdi_rule A → bool) l r : StronglySorted before l → find f l = Some r →
  r ∈ l ∧ f r = true ∧ ∀ r', r' ∈ l → f r' = true → pref (data r') <= pref (data r).
Proof.
  induction l as [|x l IH]; intros Hs Hf; [done|]. apply StronglySorted_inv in Hs as [Hs Hall]. cbn in Hf. destruct (f x) eqn:E.
  - simplify_eq. split_and!; [by left|done|]. intros r' [->|Hr]%elem_of_cons Hm; [done|]. rewrite list.Forall_forall in Hall. by apply Hall.
  - destruct (IH Hs Hf) as (Hin & Hm & Hmax). split_and!; [by right|done|]. intros r' [->|Hr]%elem_of_cons Hm'; [congruence|by apply Hmax].
Qed.

Lemma find_app (f : pdi_rule A → bool) l l' : find f (l ++ l') = match find f l with Some r => Some r | None => find f l' end.
Proof. induction l as [|x l IH]; [done|]. cbn. by destruct (f x). Qed.

(** ** One window finds the first match in it *)

Context (entries : Z) (u : ufw A) (Hu : synced entries u) (Hfew : zlen (rules (u_map u)) <= zlen (u_arr u)) (Hpos : 0 < entries).
Let l := rules (u_map u).
Let arr := u_arr u.

Lemma arr_at i : 0 <= i < zlen arr → i < zlen l ∨ i < entries → arr !! Z.to_nat i = Some (place_of (zlen l) l i).
Proof using Hu.
  intros Hi Hin. destruct Hu as [_ Hc _ _ Ha _]. fold l arr in Ha, Hc. rewrite Hc in Ha. rewrite <- Ha by done. unfold zget. apply list_lookup_lookup_total_lt. unfold zlen in Hi. lia.
Qed.

Lemma fw_loop_spec k n lid i mid : 0 <= lid → 0 <= i → lid + i <= zlen l → lid + i = 0 ∨ mid = zlen l →
  match find (matching k) (take n (drop (Z.to_nat (lid + i)) l)) with
  | Some r => ∃ nrf, fw_loop n arr k lid i mid = (FwHit (fw_ent_of nrf r), zlen l)
  | None => ∃ s, fw_loop n arr k lid i mid = (s, if decide (n = 0)%nat then mid else if decide (zlen arr = 0) then mid else zlen l) ∧
      match s with FwHit _ => False | FwMiss => zlen l < lid + i + Z.of_nat n | FwNone => True end
  end.
Proof using Hu Hfew Hpos.
  pose proof (sy_fits _ _ Hu) as Hfit. fold l arr in Hfit, Hfew. pose proof (zlen_nonneg l).
  revert i mid. induction n as [|n IH]; intros i mid Hlid Hi Hle Hmid; [cbn; by exists FwNone|].
  cbn [fw_loop]. set (idx := lid + i) in *. destruct (decide (idx < zlen arr)) as [Hin|Hout].
  2: { rewrite lookup_ge_None_2 by (unfold zlen in *; lia). rewrite drop_ge by (unfold zlen in *; lia). rewrite take_nil. cbn [find].
       exists FwMiss. split; [|lia]. f_equal. destruct Hmid; repeat case_decide; lia. }
  destruct (decide (idx < zlen l)) as [Hil|Hil].
  - rewrite arr_at by lia. destruct (lookup_lt_is_Some_2 l (Z.to_nat idx)) as [r Hr]; [unfold zlen in *; lia|].
    assert (Hpl : place_of (zlen l) l idx = fw_ent_of (if idx =? 0 then PDI_VAL_INIT 16 (u16 (zlen l)) else tup_zero) r) by (unfold place_of; by rewrite Hr).
    rewrite Hpl. rewrite (drop_S _ _ _ Hr). cbn [take find].
    replace (negb (idx =? 0) && (i + lid >=? mid)) with false by (destruct Hmid; lia).
    set (mid' := if idx =? 0 then _ else mid). assert (mid' = zlen l) as ->.
    { unfold mid'. destruct (idx =? 0) eqn:E0; [|lia]. cbn. unfold u16. rewrite Z.mod_small; [done|lia]. }
    rewrite ent_matches by (apply (sy_bd _ _ Hu); by eapply list_elem_of_lookup_2). destruct (matching k r); [eauto|].
    specialize (IH (i + 1) (zlen l)). rewrite Z.add_assoc in IH. fold idx in IH. replace (Z.to_nat (idx + 1)) with (S (Z.to_nat idx)) in IH by lia.
    destruct (find (matching k) (take n (drop (S (Z.to_nat idx)) l))).
    + apply IH; [done|lia|lia|by right].
    + destruct IH as (s & Hs & Hcase); [done|lia|lia|by right|]. exists s. rewrite Hs. split; [|destruct s; try done; lia].
      f_equal. repeat case_decide; lia.
  - rewrite drop_ge by (unfold zlen in *; lia). rewrite take_nil. cbn [find]. destruct (lookup_lt_is_Some_2 arr (Z.to_nat idx)) as [ent Hent]; [unfold zlen in *; lia|]. destruct (decide (idx = 0)) as [E0|Hne].
    + rewrite arr_at by lia. assert (Hpl : place_of (zlen l) l idx = ent_zero) by (unfold place_of; by rewrite lookup_ge_None_2 by (unfold zlen in *; lia)).
      rewrite Hpl, E0. cbn [Z.eqb negb andb]. replace (zlen l) with 0 in * by lia. assert (lid = 0 ∧ i = 0) as [-> ->] by lia. cbn -[decide].
      destruct n as [|n]; cbn [fw_loop]; [exists FwNone; split; [|done]; f_equal; repeat case_decide; lia|].
      destruct (arr !! Z.to_nat (0 + (0 + 1))) as [e|]; [exists FwNone|exists FwMiss]; (split; [|try done; lia]); cbn -[decide]; f_equal; repeat case_decide; lia.
    + rewrite Hent. assert (mid = zlen l) as -> by (destruct Hmid; lia). replace (idx =? 0) with false by lia. replace (i + lid >=? zlen l) with true by lia. cbn [negb andb].
      exists FwNone. split; [|done]. f_equal. repeat case_decide; lia.
Qed.
End reference.

(** ** The whole walk *)

Lemma find_window {A} (f : pdi_rule A → bool) l a n : find f (take a l) = None →
  find f l = match find f (take n (drop a l)) with Some r => Some r | None => find f (drop (a + n) l) end.
Proof. intros Hn. rewrite <- (take_drop a l) at 1. rewrite find_app, Hn. rewrite <- (take_drop n (drop a l)) at 1. by rewrite find_app, drop_drop. Qed.

Lemma find_take_add {A} (f : pdi_rule A → bool) l a n : find f (take a l) = None → find f (take n (drop a l)) = None → find f (take (a + n) l) = None.
Proof. intros H1 H2. rewrite <- take_take_drop, find_app, H1. done. Qed.

Section walk.
Context {A : Type} `{EqDecision A} `{PdiAddr A} `{!FwAddr A}.
Context (u : ufw A) (Hu : synced (fw_entries A) u) (Hfew : zlen (rules (u_map u)) <= zlen (u_arr u)) (Hloops : 0 < (fw_loops A)) (Hsmall : (fw_entries A) + (fw_loops A) < 65536) (Hend : (fw_entries A) <= LLB_FW4_MAP_ENTRIES) (Hsome : 0 < (fw_entries A)).
Let l := rules (u_map u).

(** What a run of the firewall program does: the first match in its window, or the
    window moves on, or the end. *)
Lemma dp_do_fw_spec p : 0 <= fw_lid p <= zlen l → fw_lid p < fw_entries A → fw_lid p = 0 ∨ fw_mid p = zlen l →
  let lid := Z.to_nat (fw_lid p) in
  let win := take (Z.to_nat (fw_loops A)) (drop lid l) in
  let q := p <| fw_mid := zlen l |> in
  dp_do_fw (u_arr u) p =
    match find (matching (pkt_key p)) win with
    | Some r => fw_hit (llb_dp_pdiop2_ufwa (data r)) (q <| fw_lid := LLB_FW4_MAP_ENTRIES |>)
    | None => if decide (zlen l < fw_lid p + (fw_loops A) ∨ (fw_entries A) <= fw_lid p + (fw_loops A)) then q <| fw_lid := LLB_FW4_MAP_ENTRIES |> else q <| fw_lid := fw_lid p + (fw_loops A) |>
    end.
Proof using Hu Hfew Hloops Hsmall Hsome.
  intros Hlid Hlast Hmid lid win q. unfold dp_do_fw. pose proof (sy_fits _ _ Hu) as Hfit. fold l in Hfit, Hfew.
  pose proof (fw_loop_spec (fw_entries A) u Hu Hfew Hsome (pkt_key p) (Z.to_nat (fw_loops A)) (fw_lid p) 0 (fw_mid p)) as Hw. rewrite Z.add_0_r in Hw. fold l lid win in Hw.
  destruct (find (matching (pkt_key p)) win) as [r|].
  - destruct Hw as [nrf ->]; [lia|lia|lia|by destruct Hmid; [left|right]|]. done.
  - destruct Hw as (s & -> & Hs); [lia|lia|lia|by destruct Hmid; [left|right]|].
    rewrite decide_False by lia. rewrite decide_False by lia. destruct s as [| |]; [| |done].
    + rewrite decide_True by (left; lia). done.
    + assert (u16 (fw_lid p + (fw_loops A)) = fw_lid p + (fw_loops A)) as Hu16 by (unfold u16; rewrite Z.mod_small; lia).
      cbn. rewrite Hu16. destruct (decide (zlen l < fw_lid p + (fw_loops A) ∨ (fw_entries A) <= fw_lid p + (fw_loops A))) as [Hd|Hd].
      * replace ((fw_lid p + (fw_loops A) >=? (fw_entries A)) || (fw_lid p + (fw_loops A) >? zlen l)) with true by lia. done.
      * replace ((fw_lid p + (fw_loops A) >=? (fw_entries A)) || (fw_lid p + (fw_loops A) >? zlen l)) with false by lia. done.
Qed.

Lemma hits_end act p : fw_lid p = LLB_FW4_MAP_ENTRIES → fw_lid (fw_hit act p) = LLB_FW4_MAP_ENTRIES.
Proof. done. Qed.

(** The stage of a packet of this family, the other family's table being anything. *)
Fixpoint fw_walk (b : nat) (p : fwp) : fw_res :=
  if has (x_phit (f_xf p)) LLB_DP_RES_HIT || has (x_phit (f_xf p)) LLB_DP_NAT_HIT || has (x_phit (f_xf p)) LLB_DP_CTM_HIT then FwDone p
  else if fw_lid p <? LLB_FW4_MAP_ENTRIES then
    match b with
    | O => FwFailed DP_PASS
    | S O => FwFailed DP_DROP
    | S (S b) => fw_walk b (dp_do_fw (u_arr u) p)
    end
  else FwDone p.

Definition unjudged (p : fwp) : Prop := has (x_phit (f_xf p)) LLB_DP_RES_HIT || has (x_phit (f_xf p)) LLB_DP_NAT_HIT || has (x_phit (f_xf p)) LLB_DP_CTM_HIT = false.

Lemma fw_walk_end b p : fw_lid p = LLB_FW4_MAP_ENTRIES → fw_walk b p = FwDone p.
Proof. intros He. assert ((fw_lid p <? LLB_FW4_MAP_ENTRIES) = false) as Hf by lia. destruct b as [|[|b]]; cbn [fw_walk]; rewrite Hf; by case_match. Qed.

Lemma fw_walk_go b p : unjudged p → fw_lid p < LLB_FW4_MAP_ENTRIES → fw_walk (S (S b)) p = fw_walk b (dp_do_fw (u_arr u) p).
Proof. intros Hn Hl. cbn [fw_walk]. rewrite Hn. by replace (fw_lid p <? LLB_FW4_MAP_ENTRIES) with true by lia. Qed.

(** With a call and a return left for every window, the walk judges the packet. *)
Lemma fw_walk_judges m b p : zlen l <= fw_entries A → unjudged p → 0 <= fw_lid p <= zlen l → fw_lid p < (fw_entries A) → fw_lid p = 0 ∨ fw_mid p = zlen l →
  find (matching (pkt_key p)) (take (Z.to_nat (fw_lid p)) l) = None → zlen l - fw_lid p < Z.of_nat m * (fw_loops A) →
  fw_walk (2 * m + b) p = FwDone (fw_judged l p).
Proof using Hu Hfew Hloops Hsmall Hsome Hend.
  intros Hin. revert p. induction m as [|m IH]; intros p Hp Hlid Hlt Hmid Hnone Hm; [lia|].
  replace (2 * S m + b)%nat with (S (S (2 * m + b)))%nat by lia. rewrite fw_walk_go by (done || lia). rewrite dp_do_fw_spec by done. cbn zeta.
  pose proof (sy_fits _ _ Hu) as Hfit. fold l in Hfit, Hfew. unfold fw_judged. rewrite (find_window _ l (Z.to_nat (fw_lid p)) (Z.to_nat (fw_loops A)) Hnone).
  destruct (find (matching (pkt_key p)) (take (Z.to_nat (fw_loops A)) (drop (Z.to_nat (fw_lid p)) l))) as [r|] eqn:Ew; [by rewrite fw_walk_end|].
  case_decide as Hd.
  { rewrite fw_walk_end by done. rewrite drop_ge by (unfold zlen in *; lia). done. }
  assert (Hto : Z.to_nat (fw_lid p + (fw_loops A)) = (Z.to_nat (fw_lid p) + Z.to_nat (fw_loops A))%nat) by lia.
  assert (Hnext : find (matching (pkt_key p)) (take (Z.to_nat (fw_lid p + (fw_loops A))) l) = None) by (rewrite Hto; by apply find_take_add).
  rewrite IH; cbn [fw_lid fw_mid f_xf]; try done; try (cbn; lia). unfold fw_judged.
  assert (Hall : find (matching (pkt_key p)) l = find (matching (pkt_key p)) (drop (Z.to_nat (fw_lid p) + Z.to_nat (fw_loops A)) l)) by (by rewrite (find_window _ l _ (Z.to_nat (fw_loops A)) Hnone), Ew).
  rewrite <- Hall. done.
Qed.

(** The walk ends with the window in which the last of the table's entries is; the
    rules behind it are not looked at. *)
Lemma fw_walk_stops m b p : unjudged p → 0 <= fw_lid p → fw_lid p = 0 ∨ fw_mid p = zlen l → fw_lid p + Z.of_nat (S m) * fw_loops A <= zlen l →
  fw_lid p + Z.of_nat m * fw_loops A < fw_entries A <= fw_lid p + Z.of_nat (S m) * fw_loops A →
  find (matching (pkt_key p)) (take (Z.to_nat (fw_lid p + Z.of_nat (S m) * fw_loops A)) l) = None →
  fw_walk (2 * S m + b) p = FwDone (p <| fw_mid := zlen l |> <| fw_lid := LLB_FW4_MAP_ENTRIES |>).
Proof using Hu Hfew Hloops Hsmall Hsome Hend.
  revert p. induction m as [|m IH]; intros p Hp Hlid Hmid Hle Hlt Hnone.
  - replace (2 * 1 + b)%nat with (S (S b)) by lia. change (Z.of_nat 1) with 1 in *. rewrite Z.mul_1_l in *. rewrite fw_walk_go by (done || lia). rewrite dp_do_fw_spec by (done || lia). cbn zeta.
    replace (Z.to_nat (fw_lid p + fw_loops A)) with (Z.to_nat (fw_lid p) + Z.to_nat (fw_loops A))%nat in Hnone by lia. rewrite <- take_take_drop, find_app in Hnone. destruct (find _ (take (Z.to_nat (fw_lid p)) l)); [done|]. rewrite Hnone, decide_True by lia. by rewrite fw_walk_end.
  - assert (Hm0 : 0 <= Z.of_nat m * (fw_loops A)) by nia. rewrite (Nat2Z.inj_succ (S m)), Z.mul_succ_l in *. rewrite (Nat2Z.inj_succ m), Z.mul_succ_l in *.
    assert (Hfirst : find (matching (pkt_key p)) (take (Z.to_nat (fw_loops A)) (drop (Z.to_nat (fw_lid p)) l)) = None).
    { replace (Z.to_nat (fw_lid p + (Z.of_nat m * fw_loops A + fw_loops A + fw_loops A))) with (Z.to_nat (fw_lid p) + (Z.to_nat (fw_loops A) + Z.to_nat (Z.of_nat m * (fw_loops A) + fw_loops A)))%nat in Hnone by lia.
      rewrite <- take_take_drop, find_app in Hnone. destruct (find _ (take (Z.to_nat (fw_lid p)) l)); [done|].
      rewrite <- take_take_drop, find_app in Hnone. by destruct (find _ (take (Z.to_nat (fw_loops A)) _)). }
    replace (2 * S (S m) + b)%nat with (S (S (2 * S m + b)))%nat by lia. rewrite fw_walk_go by (done || lia). rewrite dp_do_fw_spec by (done || lia). cbn zeta. rewrite Hfirst. rewrite decide_False by lia.
    rewrite IH; cbn [fw_lid fw_mid f_xf]; try done; try (cbn; lia). cbn. by replace (fw_lid p + fw_loops A + (Z.of_nat m * fw_loops A + fw_loops A)) with (fw_lid p + (Z.of_nat m * fw_loops A + fw_loops A + fw_loops A)) by lia.
Qed.

(** With fewer calls left than the table has windows, a packet that matches nothing
    in the windows it gets to is passed or dropped by the failing tail call. *)
Lemma fw_walk_exhausts m p : unjudged p → 0 <= fw_lid p → fw_lid p = 0 ∨ fw_mid p = zlen l →
  fw_lid p + Z.of_nat m * (fw_loops A) <= zlen l → fw_lid p + Z.of_nat m * (fw_loops A) < (fw_entries A) →
  find (matching (pkt_key p)) (take (Z.to_nat (fw_lid p + Z.of_nat m * (fw_loops A))) l) = None →
  fw_walk (2 * m) p = FwFailed DP_PASS ∧ fw_walk (2 * m + 1) p = FwFailed DP_DROP.
Proof using Hu Hfew Hloops Hsmall Hsome Hend.
  revert p. induction m as [|m IH]; intros p Hp Hlid Hmid Hle Hlt Hnone.
  { cbn [Nat.mul Nat.add fw_walk]. rewrite Hp. by replace (fw_lid p <? LLB_FW4_MAP_ENTRIES) with true by lia. }
  assert (Hm0 : 0 <= Z.of_nat m * (fw_loops A)) by nia. rewrite Nat2Z.inj_succ, Z.mul_succ_l in *.
  assert (Hfirst : find (matching (pkt_key p)) (take (Z.to_nat (fw_loops A)) (drop (Z.to_nat (fw_lid p)) l)) = None).
  { replace (Z.to_nat (fw_lid p + (Z.of_nat m * (fw_loops A) + (fw_loops A)))) with (Z.to_nat (fw_lid p) + (Z.to_nat (fw_loops A) + Z.to_nat (Z.of_nat m * (fw_loops A))))%nat in Hnone by lia.
    rewrite <- take_take_drop, find_app in Hnone. destruct (find _ (take (Z.to_nat (fw_lid p)) l)); [done|].
    rewrite <- take_take_drop, find_app in Hnone. by destruct (find _ (take (Z.to_nat (fw_loops A)) _)). }
  replace (2 * S m)%nat with (S (S (2 * m)))%nat by lia. replace (S (S (2 * m)) + 1)%nat with (S (S (2 * m + 1)))%nat by lia.
  rewrite !fw_walk_go by (done || lia). rewrite !dp_do_fw_spec by (done || lia). cbn zeta. rewrite Hfirst. rewrite !decide_False by lia.
  apply IH; cbn [fw_lid fw_mid f_xf]; try done; try (cbn; lia). cbn. by replace (fw_lid p + (fw_loops A) + Z.of_nat m * (fw_loops A)) with (fw_lid p + (Z.of_nat m * (fw_loops A) + (fw_loops A))) by lia.
Qed.
End walk.

(** ** Both families *)

Lemma dp_do_fw_keeps_v6 {A} `{PdiAddr A} `{!FwAddr A} (arr : list (dp_fw_ent A)) p : x_v6 (f_xf (dp_do_fw arr p)) = x_v6 (f_xf p).
Proof. unfold dp_do_fw, fw_hit. destruct (fw_loop _ _ _ _ _ _) as [[| |e] mid]; [done|done|]. cbn. by repeat case_match. Qed.

Lemma fw_stage_walk u4 u6 b p : fw_stage b (u_arr u4) (u_arr u6) p = if x_v6 (f_xf p) then fw_walk u6 b p else fw_walk u4 b p.
Proof.
  revert p. induction b as [b IH] using lt_wf_ind. intros p. destruct b as [|[|b]]; cbn [fw_stage fw_walk]; [by destruct (x_v6 (f_xf p))|by destruct (x_v6 (f_xf p))|].
  rewrite (IH b) by lia. unfold dp_do_fw_main, dp_do_fw4_main, dp_do_fw6_main. destruct (x_v6 (f_xf p)) eqn:E; by rewrite dp_do_fw_keeps_v6, E.
Qed.

(** [r] matches, and no rule of [l] that does is preferred to it. *)
Definition most_preferred {A} `{PdiAddr A} (k : pdi_key A) (l : list (pdi_rule A)) (r : pdi_rule A) : Prop :=
  r ∈ l ∧ matching k r = true ∧ ∀ r', r' ∈ l → matching k r' = true → pref (data r') <= pref (data r).

Definition fw_tables (u4 : ufw pdi_tup) (u6 : ufw pdi_tuparr) : Prop :=
  steps (ufw_step LLB_FW4_MAP_ENTRIES) (ufw_empty LLB_FW4_MAP_ENTRIES) u4 ∧ steps (ufw_step LLB_FW6_MAP_ENTRIES) (ufw_empty LLB_FW4_MAP_ENTRIES) u6.

Lemma ufw_steps_size {A} `{EqDecision A} `{PdiAddr A} entries size (u : ufw A) : 0 <= entries <= size → size < 65536 → steps (ufw_step entries) (ufw_empty size) u → synced entries u ∧ zlen (u_arr u) = size.
Proof.
  intros He Hs. apply (steps_invariant (ufw_step entries) (λ u, synced entries u ∧ zlen (u_arr u) = size)); [|split; [by apply ufw_empty_synced|cbn; apply zlen_zrep; lia]].
  intros a b [Ha Hz] Hst. split; [by eapply ufw_step_synced|]. destruct Hst as [ok e Hroom|ok e]; destruct ok; try done.
  - destruct (add_effect entries a e Ha Hroom) as [[-> _]|(u1 & k & ret & -> & _ & _ & _ & _ & Hl & _)]; [done|]. cbn. lia.
  - destruct (del_effect entries a e Ha) as [[-> _]|(u1 & i & r & ret & -> & _ & _ & _ & _ & Hl & _)]; [done|]. cbn. lia.
Qed.

Lemma fw_tables_synced u4 u6 : fw_tables u4 u6 → (synced (fw_entries pdi_tup) u4 ∧ zlen (u_arr u4) = LLB_FW4_MAP_ENTRIES) ∧ (synced (fw_entries pdi_tuparr) u6 ∧ zlen (u_arr u6) = LLB_FW4_MAP_ENTRIES).
Proof. intros [H4 H6]. split; by apply ufw_steps_size. Qed.

(** C10. The firewall decides by preference: after any adds and deletes of
    rules (those that failed for lack of memory or of a place included), a packet
    that meets the firewall, with tail calls left for the windows of its family's
    table, leaves it exactly as the first rule of the list that matches makes it, or
    untouched when none matches; and that rule is one of the highest preference
    among those that match. For lists of at most 8192 IPv4 rules or 1024 IPv6 rules
    when the packet comes: the IPv6 table takes as many as the IPv4 one, but the
    walk ends with the window of a hundred that holds the 1024th, and the rules after
    it are never evaluated ([fw6_rules_beyond_walk]). *)
Theorem fw_first_match u4 u6 p b : fw_tables u4 u6 → unjudged p → fw_lid p = 0 →
  let l4 := rules (u_map u4) in
  let l6 := rules (u_map u6) in
  (if x_v6 (f_xf p) then zlen l6 <= LLB_FW6_MAP_ENTRIES else zlen l4 <= LLB_FW4_MAP_ENTRIES) →
  2 * ((if x_v6 (f_xf p) then zlen l6 / DP_MAX_LOOPS_PER_FW6LKUP else zlen l4 / DP_MAX_LOOPS_PER_FWLKUP) + 1) <= Z.of_nat b →
  fw_stage b (u_arr u4) (u_arr u6) p = FwDone (if x_v6 (f_xf p) then fw_judged l6 p else fw_judged l4 p) ∧
  (∀ r, find (matching (pkt_key p)) l4 = Some r → most_preferred (pkt_key p) l4 r) ∧
  (∀ r, find (matching (pkt_key p)) l6 = Some r → most_preferred (pkt_key p) l6 r).
Proof.
  intros Ht Hp Hlid l4 l6 Hfew Hb. destruct (fw_tables_synced u4 u6 Ht) as [[H4 Z4] [H6 Z6]]. split_and!.
  2,3: intros r Hr; apply find_preferred; [by eapply sy_sorted|done].
  rewrite fw_stage_walk. pose proof (zlen_nonneg l4). pose proof (zlen_nonneg l6). pose proof (Z.mul_succ_div_gt (zlen l4) 400). pose proof (Z.mul_succ_div_gt (zlen l6) 100).
  pose proof (Z.div_pos (zlen l4) 400). pose proof (Z.div_pos (zlen l6) 100). unfold DP_MAX_LOOPS_PER_FWLKUP, DP_MAX_LOOPS_PER_FW6LKUP in Hb.
  destruct (x_v6 (f_xf p)).
  - replace b with (2 * Z.to_nat (zlen l6 / 100 + 1) + (b - 2 * Z.to_nat (zlen l6 / 100 + 1)))%nat by lia.
    apply fw_walk_judges; rewrite ?Hlid; fold l6; first [done|by left|lia|change (fw_loops pdi_tuparr) with 100; lia|rewrite Z6; unfold LLB_FW4_MAP_ENTRIES, LLB_FW6_MAP_ENTRIES in *; lia].
  - replace b with (2 * Z.to_nat (zlen l4 / 400 + 1) + (b - 2 * Z.to_nat (zlen l4 / 400 + 1)))%nat by lia.
    apply fw_walk_judges; rewrite ?Hlid; fold l4; first [done|by left|lia|change (fw_loops pdi_tup) with 400; lia|rewrite Z4; lia].
Qed.

Definition demo_pkt (dst port : Z) : fwp :=
  mk_fwp (xfi_zero <| x_daddr := (bswap32 dst, 0, 0, 0) |> <| x_dest := bswap16 port |> <| x_zone := 1 |> <| x_proto := IPPROTO_TCP |>) 3 0 0 0.

(** 10.0.0.0/24 is allowed and then, less preferred, 10.0.0.0/16 is not. *)
Definition demo_deny : dp_fw_ent pdi_tup :=
  mk_dp_fw_ent ((demo_key 167772160) <| dest := mk_pdi_tup 167772160 4294901760 |>) (mk_dp_fw_tact DP_SET_DROP 5 2 0 0 0).
Definition demo_u1 : ufw pdi_tup := (llb_add_mf_map_elem true demo_deny (ufw_empty LLB_FW4_MAP_ENTRIES)).1.1.
Definition demo_u2 : ufw pdi_tup := (llb_add_mf_map_elem true (demo_ent 167772160 9 DP_SET_NOP) demo_u1).1.1.

Lemma demo_tables : fw_tables demo_u2 (ufw_empty LLB_FW4_MAP_ENTRIES).
Proof.
  split; [|apply steps_refl]. eapply steps_cons; [by apply (ufw_add _ _ true demo_deny)|]. fold demo_u1.
  eapply steps_cons; [|apply steps_refl]. apply (ufw_add _ _ true). by vm_compute.
Qed.

Lemma fw_first_match_witness : ∃ q1 q2,
  fw_stage 2 (u_arr demo_u2) (u_arr (ufw_empty LLB_FW4_MAP_ENTRIES)) (demo_pkt 167772165 85) = FwDone q1 ∧ x_pipe_act (f_xf q1) = 0 ∧
  fw_stage 2 (u_arr demo_u2) (u_arr (ufw_empty LLB_FW4_MAP_ENTRIES)) (demo_pkt 167772421 85) = FwDone q2 ∧ x_pipe_act (f_xf q2) = LLB_PIPE_DROP.
Proof.
  destruct (fw_first_match demo_u2 (ufw_empty LLB_FW4_MAP_ENTRIES) (demo_pkt 167772165 85) 2) as [-> _]; [exact demo_tables|by vm_compute|done|by vm_compute|by vm_compute|].
  destruct (fw_first_match demo_u2 (ufw_empty LLB_FW4_MAP_ENTRIES) (demo_pkt 167772421 85) 2) as [-> _]; [exact demo_tables|by vm_compute|done|by vm_compute|by vm_compute|].
  eexists _, _. split_and!; [done|by vm_compute|done|by vm_compute].
Defined.

(** ** A chain that is too short *)

(** The table may hold 8192 rules, which is 21 windows and 42 tail calls. With 30
    calls left, as a packet of the slow path has of the documented 32, a packet that
    matches none of the first 6000 of more rules is passed without being judged;
    with one more it is dropped. *)
Theorem fw_tail_calls_run_out u4 u6 p : fw_tables u4 u6 → unjudged p → fw_lid p = 0 → x_v6 (f_xf p) = false →
  6000 <= zlen (rules (u_map u4)) <= LLB_FW4_MAP_ENTRIES → find (matching (pkt_key p)) (take (Z.to_nat 6000) (rules (u_map u4))) = None →
  fw_stage 30 (u_arr u4) (u_arr u6) p = FwFailed DP_PASS ∧ fw_stage 31 (u_arr u4) (u_arr u6) p = FwFailed DP_DROP.
Proof.
  intros Ht Hp Hlid Hv6 Hlong Hnone. destruct (fw_tables_synced u4 u6 Ht) as [[H4 Z4] _]. rewrite !fw_stage_walk, Hv6. rewrite <- Z4 in Hlong.
  apply (fw_walk_exhausts u4 H4 (proj2 Hlong) ltac:(done) ltac:(done) ltac:(done) ltac:(done) 15); rewrite ?Hlid; first [done|by left|apply (proj1 Hlong)|idtac].
Qed.

(** The IPv6 table takes 8192 rules, and the walk over it ends after the eleventh
    window of 100: a packet that matches none of the first 1100 rules leaves the
    firewall untouched, whatever the rules behind them say. *)
Theorem fw6_rules_beyond_walk u4 u6 p b : fw_tables u4 u6 → unjudged p → fw_lid p = 0 → x_v6 (f_xf p) = true → (22 <= b)%nat →
  1100 <= zlen (rules (u_map u6)) <= LLB_FW4_MAP_ENTRIES → find (matching (pkt_key p)) (take (Z.to_nat 1100) (rules (u_map u6))) = None →
  fw_stage b (u_arr u4) (u_arr u6) p = FwDone (p <| fw_mid := zlen (rules (u_map u6)) |> <| fw_lid := LLB_FW4_MAP_ENTRIES |>).
Proof.
  intros Ht Hp Hlid Hv6 Hb Hlong Hnone. destruct (fw_tables_synced u4 u6 Ht) as [_ [H6 Z6]]. rewrite fw_stage_walk, Hv6. rewrite <- Z6 in Hlong. replace b with (2 * 11 + (b - 22))%nat by lia.
  apply (fw_walk_stops u6 H6 (proj2 Hlong) ltac:(done) ltac:(done) ltac:(done) ltac:(done) 10); rewrite ?Hlid; first [done|by left|apply (proj1 Hlong)|idtac].
Qed.
